(* ===== verification/_CoqProject ===== *)
-Q . S2P
Prelude.v
ProtoUtils.v
ProtoDecoder.v
PbDecoder.v
ProtoRingBuffer.v
MessageTokenizer.v
PackedFields.v
FilterBytecode.v
StringFilter.v
MessageFilter.v
Histogram.v
TraceBuffer.v
TraceBufferRead.v
TraceBufferClone.v
TraceBufferDrain.v
SharedMemoryABI.v
ProtoMessage.v
ScatteredHeapBuffer.v
TraceWriter.v
TraceWriterFragments.v
TraceWriterRoundtrip.v
PacketStreamValidator.v
IdAllocator.v
ServiceBuffers.v
TraceBufferDchecks.v
ReadBuffers.v
TracingServiceTypes.v
TracingService.v
TracingServiceEndpoints.v
TracingServiceOk.v
TracingServiceSession.v
TracingServiceFlush.v
TracingServiceEnable.v
TracingServiceProducers.v
TracingServiceCommits.v
TracingServiceRun.v
ServicePlane.v
ServiceEffects.v
FlatHashMap.v
CircularQueue.v
BumpAllocator.v
TraceTokenBuffer.v
TraceSorter.v
TraceSorterExtract.v
BitWord.v
BitVector.v
BitVectorOps.v
BitVectorSelect.v
BitVectorExtract.v
BitVectorIndex.v
BitVectorRun.v
RowMap.v
