(* ===== verification/Prelude.v ===== *)
(** * DejaView: verification library (root file)

    DejaView records traces of a guest system: a fork of the Perfetto tracing
    stack with a QEMU plugin as its main data source. Producers write protobuf
    packets, without building them in memory first, into chunks of a shared memory
    buffer; the tracing service copies committed chunks into its ring buffers,
    patches them, reads packets back out, optionally filters them, and a trace
    processor (or any client of the C ABI) decodes the result. This library models
    the C++ code that the octets of a packet go through on that way, at the level of
    octets and machine integers, and proves what makes it correct.

    ** Parts, files and sources (all below [src/])

    - [Prelude]: machine integers as [Z] with their wrap-around, memory regions as
      lists of octets with bounds-checked reads and writes, little-endian values,
      bit-operator notations, shared list lemmas and automation.
    - [ProtoUtils]: [include/dejaview/protozero/proto_utils.h] and its C version
      [include/dejaview/public/pb_utils.h]; tags, varints, zig-zag, fixed integers.
    - [ProtoDecoder]: [src/protozero/proto_decoder.cc], [proto_decoder.h],
      [field.h], [field.cc]; parsing one field, reading all, the typed decoder.
    - [PbDecoder]: [src/shared_lib/pb_decoder.cc]; the decoder of the C ABI.
    - [ProtoRingBuffer]: [src/protozero/proto_ring_buffer.cc]; reassembly of
      length-delimited messages from a stream.
    - [MessageTokenizer], [FilterBytecode], [StringFilter], [MessageFilter]:
      [src/protozero/filtering/]; the tokenizer, the bytecode generator and
      parser, redaction of strings, and the filter built from the three.
    - [PackedFields]: [packed_repeated_fields.h/.cc]; packed buffers and iterators.
    - [Histogram]: [src/tracing/service/histogram.h].
    - [TraceBuffer]: the writing half of [src/tracing/service/trace_buffer.cc]
      (commit, recommit, deletion of old chunks, padding, wrap-around, patches,
      cloning); [TraceBufferRead]: its reading half (sequences, read-ahead,
      fragments, statistics).
    - [SharedMemoryABI]: [src/tracing/core/shared_memory_abi.cc] and
      [include/dejaview/ext/tracing/core/shared_memory_abi.h]; page words, chunk
      geometry and the lock-free acquisition and release of chunks.
    - [ProtoMessage]: [src/protozero/message.cc], [message.h] and
      [scattered_stream_writer.cc/.h]; append-only nested messages over a stream
      that a delegate extends. The delegate is the class [Delegate], and what the
      writer relies on is the class [DelegateOk].
    - [ScatteredHeapBuffer]: [src/protozero/scattered_heap_buffer.cc/.h]; the
      delegate for heap slices, an instance of [DelegateOk], and [HeapBuffered].
    - [PacketStreamValidator]: [src/tracing/service/packet_stream_validator.cc];
      the scan of packets from untrusted producers.
    - [IdAllocator]: [src/tracing/core/id_allocator.cc/.h]; pools of identifiers.
    - [FlatHashMap]: [include/dejaview/ext/base/flat_hash_map.h]; the hash map.
    - [TraceWriter], [TraceWriterFragments], [TraceWriterRoundtrip]:
      [src/tracing/core/trace_writer_impl.cc/.h], [patch_list.h] and the part of
      [shared_memory_arbiter_impl.cc] that collects chunks and patches; the writer of
      packets as a delegate of the message writer, the proof of the delegate laws,
      and the round trip.
    - [CircularQueue]: [include/dejaview/ext/base/circular_queue.h]; the queue in a
      ring of slots.
    - [BumpAllocator], [TraceTokenBuffer], [TraceSorter], [TraceSorterExtract]:
      [src/trace_processor/util/bump_allocator.cc/.h] and
      [src/trace_processor/sorter/]; memory for tokenized events, their compressed
      form, the queues of events, and the proof that extraction merges them.
    - [TraceBufferClone] and [TraceBufferDrain]: snapshots of trace buffers, and a
      measure that every packet read decreases; [TraceBufferDchecks]: runs of a trace
      buffer, and when its recorded [DCHECK]s hold.
    - [TracingServiceTypes], [TracingService], [TracingServiceEndpoints]:
      [src/tracing/service/tracing_service_impl.cc/.h]; sessions, producers,
      consumers and their data, the operations of the service, the calls of clients,
      the tasks it posts to itself, and the state machine made of them. Trace
      buffers, filters and reading are the class [DataPlane].
    - [TracingServiceOk]: the invariant of the service and the laws [DataPlaneOk] it
      relies on; [TracingServiceSession], [TracingServiceFlush],
      [TracingServiceEnable], [TracingServiceProducers], [TracingServiceCommits] and
      [TracingServiceRun]: every operation, call and task keeps it.
    - [ReadBuffers]: [ReadBuffers], [MaybeFilterPackets] and [WriteIntoFile] of the
      service and [src/tracing/core/trace_packet.cc]; [ServiceBuffers]: what trace
      buffers promise to it. The host (packets of the service, compressor, [writev])
      is the class [ServiceHost].
    - [ServicePlane]: the instance of [DataPlane] by the trace buffers, the packet
      validator and the message filter; [ServiceEffects]: contracts of single
      operations of the service.
    - [BitWord], [BitVector], [BitVectorOps], [BitVectorSelect], [BitVectorExtract],
      [BitVectorIndex], [BitVectorRun]: [src/trace_processor/containers/bit_vector.cc/.h];
      words with their broadword search, blocks and counts, resizing and logical
      operations, depositing and extracting bits, indices, the builder, the serialized
      form, and runs of operations. [RowMap]: [row_map.cc/.h], [row_map_algorithms.h].

    ** How the model corresponds to the code

    A definition has the name of the function it translates and the whole of its
    branches; a struct is a record with the fields' names. Memory is explicit: a
    buffer is a list of octets, a pointer an offset into it (or a region and an
    offset), and every access is checked, so [None] is an access outside a buffer, a
    failed [CHECK] or [DCHECK], or an [assert]. A theorem that a function returns
    [Some] is therefore a memory-safety theorem. Error returns of the code are
    values of its own error types, not [None].

    Some checks can fail on data that clients control, and a release build goes on after
    them. They are kept, but as a record in the state: three [DCHECK]s of the trace buffer
    in [dchecks_held_], those of [ReadBuffers] in [session_dchecks_held], those of the
    bytecode loader in [Load_dchecks], and the [DFATAL] of a chunk release in a count of
    the thread. The theorems say when they hold, or say that they do not count. [DFATAL]s of
    the service that follow from the request of a client are passed over.

    Unsigned arithmetic wraps where the
    code can reach the bound. Shared memory is a buffer that all threads access
    through programs ([Prog]) made of atomic accesses, and a run is any
    interleaving of them. [std::regex] is an interface with its documented laws.

    ** What the theorems show

    - Trace buffer: every run of commits, patches and reads from a new buffer
      keeps an invariant that says the ring is exactly covered by chunk records and
      the index points to them; a committed chunk is found again with its payload;
      a discarding buffer loses no unread chunk; patches with hostile offsets stay
      in their chunk; read sessions terminate and return packets in order; the recorded
      [DCHECK]s hold when writers commit their chunks in order.
    - Shared memory: under every interleaving no check fails (but the [DFATAL] after 64
      lost races, which is bounded by the steps of others), held chunks are disjoint and private to their holder, and every operation ends within a fixed
      number of its own steps.
    - Writing and decoding: what is appended to messages nested and scattered in
      any way is what decoding finds; decoders invert encoders, stay inside
      arbitrary input, and the optimised decoders agree with simple definitions.
    - Filtering: a message is filtered to exactly the fields its bytecode allows,
      however it is fragmented, and arbitrary input stays inside the output buffer.
    - Service: a packet that passes validation has no trusted field, however it is
      sliced; identifiers are handed out once until they are freed.
    - Containers: the hash map behaves as a finite map for every hash function and
      probe sequence.
    - Trace writer: packets that are fragmented over chunks, with patches for the sizes
      of nested messages, are read back whole from what was handed over.
    - Trace processor: the sorter hands out every event once, in the order of time,
      with what is stored of its data, and leaves no memory allocated; the token buffer
      gives back what it stores (a track event loses counters after a zero one); the circular queue behaves as a list.
    - Bit vectors and row maps: a bit vector behaves as a list of booleans over any
      sequence of operations within their conditions; selecting and intersecting rows
      gives the picked and the common rows for all representations.
    - Tracing service: under the calls of clients that [ops_ok] admits, in whatever
      order tasks run and allocations and writes fail, the composed service fails no
      [CHECK] and every loop ends, and sessions, buffers, consumers, producers, callbacks
      and data sources stay consistent; of the calls that [ops_ok] excludes,
      [service_aborts] says which fail a check. A refused trace leaves nothing behind, a
      consumer that goes frees its buffers, a commit stays in the buffers of its producer,
      a session that is stopped ends. Packets reach consumers with the identity that the
      service recorded for the chunks they are made of, files stay below their limit, and a
      snapshot is what was there.
    - Findings: inputs on which the code deviates from its comments or from what
      it means to do, as theorems and examples about the same definitions.

    ** Bounds and fuel

    Loops of the code are structural where they can be. Varint loops run ten
    rounds, as many as 64 bits need. The chunk deletion loop has
    [size / 16 + 1] rounds, since every record takes at least sixteen octets. Reads of
    the trace buffer have fuel [2 ^ 77], above the product of the number of
    sequences, chunks per sequence and packets per chunk, and termination theorems
    prove that it is enough. Retry loops over shared memory have the code's own
    bound [kRetryAttempts], and [kMaxAccesses] bounds the accesses of one
    operation. [WriteBytesSlowPath] has the number of octets left as fuel.
    [Finalize] has the number of nested messages. Loops of the service run over
    lists it has; [ReadBuffers] needs [kEnoughFuel] rounds, more than [work] of any
    buffer, and draining into a file as many for each buffer ([enough_rounds]).

    ** Not modelled, and why

    Of the tracing service the packets it writes itself (clock snapshots, statistics,
    system information), queries of its state, relays of other machines, the memory
    watchdog and arbiters in its own process; they are inputs of the model or have no
    effect on it. The IPC layer, threads and files of the base library, the SQL engine and the
    importers of the trace processor (SQLite and schema-driven glue), and the QEMU
    plugin (calls of the QEMU API). Memory orders weaker than sequential
    consistency, floating point (values are kept as their bits) and the handles of
    messages are outside the model of the parts that are covered. *)

From stdpp Require Export base tactics numbers list gmap strings.
From Stdlib Require Export ZArith Lia.
#[global] Open Scope Z_scope.

(** ** Bit-operator notations, in a scope of their own *)

Declare Scope dv_scope.
Delimit Scope dv_scope with dv.
Notation "x '.&' y" := (Z.land x y) (at level 51, left associativity) : dv_scope.
Notation "x '.|' y" := (Z.lor x y) (at level 53, left associativity) : dv_scope.
Notation "x '.^' y" := (Z.lxor x y) (at level 52, left associativity) : dv_scope.
Notation "x '<<' y" := (Z.shiftl x y) (at level 40, left associativity) : dv_scope.
Notation "x '>>' y" := (Z.shiftr x y) (at level 40, left associativity) : dv_scope.
#[global] Open Scope dv_scope.

(** ** Machine integers: a w-bit unsigned value is a [Z] in [0, 2^w) *)

Definition u8 (z : Z) : Z := z mod 2 ^ 8.
Definition u16 (z : Z) : Z := z mod 2 ^ 16.
Definition u32 (z : Z) : Z := z mod 2 ^ 32.
Definition u64 (z : Z) : Z := z mod 2 ^ 64.

(** Two's complement reinterpretation of a w-bit value. *)
Definition swrap (w z : Z) : Z :=
  let r := z mod 2 ^ w in if r <? 2 ^ (w - 1) then r else r - 2 ^ w.
Definition s32 (z : Z) : Z := swrap 32 z.
Definition s64 (z : Z) : Z := swrap 64 z.

Definition is_u8 (z : Z) : Prop := 0 <= z < 2 ^ 8.
Definition is_u16 (z : Z) : Prop := 0 <= z < 2 ^ 16.
Definition is_u32 (z : Z) : Prop := 0 <= z < 2 ^ 32.
Definition is_u64 (z : Z) : Prop := 0 <= z < 2 ^ 64.

(** A memory region is the list of its octets. *)
Definition bytes_ok (l : list Z) : Prop := Forall is_u8 l.

#[export] Instance is_u8_dec z : Decision (is_u8 z).
Proof. unfold is_u8; apply _. Defined.
#[export] Instance is_u32_dec z : Decision (is_u32 z).
Proof. unfold is_u32; apply _. Defined.
#[export] Instance is_u64_dec z : Decision (is_u64 z).
Proof. unfold is_u64; apply _. Defined.
#[export] Instance bytes_ok_dec l : Decision (bytes_ok l).
Proof. unfold bytes_ok; apply _. Defined.

Create HintDb dv discriminated.
Create Rewrite HintDb dv.

Ltac unfold_u :=
  unfold is_u8, is_u16, is_u32, is_u64, u8, u16, u32, u64 in *;
  change (2 ^ 8) with 256 in *; change (2 ^ 16) with 65536 in *;
  change (2 ^ 32) with 4294967296 in *;
  change (2 ^ 64) with 18446744073709551616 in *.

(** Linear goals that also mention [/] and [mod] by constants. *)
Ltac divlia := unfold_u; Z.div_mod_to_equations; lia.

Lemma u8_range z : is_u8 (u8 z).
Proof. unfold_u; apply Z.mod_pos_bound; lia. Qed.
Lemma u32_range z : is_u32 (u32 z).
Proof. unfold_u; apply Z.mod_pos_bound; lia. Qed.
Lemma u64_range z : is_u64 (u64 z).
Proof. unfold_u; apply Z.mod_pos_bound; lia. Qed.
Lemma u8_id z : is_u8 z -> u8 z = z.
Proof. unfold_u; apply Z.mod_small. Qed.
Lemma u16_id z : is_u16 z -> u16 z = z.
Proof. apply Z.mod_small. Qed.
Lemma u32_id z : is_u32 z -> u32 z = z.
Proof. unfold_u; apply Z.mod_small. Qed.
Lemma u64_id z : is_u64 z -> u64 z = z.
Proof. unfold_u; apply Z.mod_small. Qed.

#[export] Hint Resolve u8_range u32_range u64_range : dv.
#[export] Hint Rewrite u8_id u32_id u64_id using (unfold_u; lia) : dv.

Lemma is_u8_u64 z : is_u8 z -> is_u64 z.
Proof. unfold_u; lia. Qed.
Lemma is_u32_u64 z : is_u32 z -> is_u64 z.
Proof. unfold_u; lia. Qed.
#[export] Hint Resolve is_u8_u64 is_u32_u64 : dv.

(** ** Bitwise facts shared by the wire-format components *)

Lemma land_ones_mod z n : 0 <= n -> z .& Z.ones n = z mod 2 ^ n.
Proof. intros; apply Z.land_ones; lia. Qed.

Lemma land_7f z : z .& 0x7f = z mod 128.
Proof. exact (Z.land_ones z 7 ltac:(lia)). Qed.
Lemma land_7 z : z .& 7 = z mod 8.
Proof. exact (Z.land_ones z 3 ltac:(lia)). Qed.
Lemma land_ff z : z .& 0xff = z mod 256.
Proof. exact (Z.land_ones z 8 ltac:(lia)). Qed.

Lemma shiftr_div z n : 0 <= n -> z >> n = z / 2 ^ n.
Proof. apply Z.shiftr_div_pow2. Qed.
Lemma shiftl_mul z n : 0 <= n -> z << n = z * 2 ^ n.
Proof. apply Z.shiftl_mul_pow2. Qed.

(** [a | (b << n)] is [a + b * 2^n] when [a] fits in [n] bits. *)
Lemma lor_shiftl_add a b n :
  0 <= n -> 0 <= a < 2 ^ n -> a .| (b << n) = a + b * 2 ^ n.
Proof.
  intros Hn Ha. rewrite <- Z.shiftl_mul_pow2 by done.
  symmetry. rewrite Z.add_nocarry_lxor.
  - apply Z.lxor_lor. apply Z.bits_inj'. intros i Hi.
    rewrite Z.land_spec, Z.shiftl_spec, Z.bits_0 by done.
    destruct (decide (i < n)).
    + rewrite (Z.testbit_neg_r b) by lia. apply andb_false_r.
    + rewrite <- (Z.mod_small a (2 ^ n)) by done.
      rewrite Z.mod_pow2_bits_high by lia. done.
  - apply Z.bits_inj'. intros i Hi.
    rewrite Z.land_spec, Z.shiftl_spec, Z.bits_0 by done.
    destruct (decide (i < n)).
    + rewrite (Z.testbit_neg_r b) by lia. apply andb_false_r.
    + rewrite <- (Z.mod_small a (2 ^ n)) by done.
      rewrite Z.mod_pow2_bits_high by lia. done.
Qed.

Lemma lor_range a b n : 0 <= n -> 0 <= a < 2 ^ n -> 0 <= b < 2 ^ n -> 0 <= a .| b < 2 ^ n.
Proof.
  intros Hn Ha Hb. split; [apply Z.lor_nonneg; lia|].
  destruct (decide (a .| b = 0)) as [->|Hz]; [lia|].
  assert (0 <= a .| b) by (apply Z.lor_nonneg; lia).
  destruct (decide (a = 0)) as [->|]; [rewrite Z.lor_0_l in *; lia|].
  destruct (decide (b = 0)) as [->|]; [rewrite Z.lor_0_r in *; lia|].
  apply Z.log2_lt_pow2; [lia|]. rewrite Z.log2_lor by lia.
  apply Z.max_lub_lt; apply Z.log2_lt_pow2; lia.
Qed.

(** The continuation bit of a varint octet. *)
Lemma land_80_small b : 0 <= b < 128 -> b .& 0x80 = 0.
Proof.
  intros Hb. apply Z.bits_inj'. intros i Hi.
  rewrite Z.land_spec, Z.bits_0. change 0x80 with (2 ^ 7).
  destruct (decide (i = 7)) as [->|].
  - rewrite <- (Z.mod_small b (2 ^ 7)) by lia.
    rewrite Z.mod_pow2_bits_high by lia. done.
  - rewrite (Z.pow2_bits_false 7 i) by lia. apply andb_false_r.
Qed.

Lemma land_80_big b : 128 <= b < 256 -> b .& 0x80 = 0x80.
Proof.
  intros Hb. replace b with ((b - 128) .| (1 << 7)).
  2: { rewrite lor_shiftl_add by lia. lia. }
  rewrite Z.land_lor_distr_l, (land_80_small (b - 128)) by lia. done.
Qed.

Lemma lor_80 b : 0 <= b < 256 -> b .| 0x80 = b mod 128 + 128.
Proof.
  intros Hb. destruct (decide (b < 128)).
  - rewrite (Z.mod_small b 128) by lia.
    change 0x80 with (1 << 7) at 1. rewrite lor_shiftl_add by lia. lia.
  - assert (Hc : b = ((b - 128) .| (1 << 7)))
      by (rewrite lor_shiftl_add by lia; lia).
    change (1 << 7) with 0x80 in Hc.
    rewrite Hc at 1. rewrite <- Z.lor_assoc, Z.lor_diag, <- Hc. divlia.
Qed.

(** ** Little-endian images of integers: what [memcpy] of a word produces *)

Fixpoint le_bytes (n : nat) (v : Z) : list Z :=
  match n with
  | O => []
  | S n => u8 v :: le_bytes n (v >> 8)
  end.

Fixpoint le_val (l : list Z) : Z :=
  match l with
  | [] => 0
  | b :: l => b .| (le_val l << 8)
  end.

Lemma length_le_bytes n v : length (le_bytes n v) = n.
Proof. revert v; induction n; intros; simpl; auto. Qed.

Lemma le_bytes_ok n v : bytes_ok (le_bytes n v).
Proof.
  unfold bytes_ok; revert v; induction n; intros; simpl; constructor; auto with dv.
Qed.

Lemma le_val_bytes n v : 0 <= v -> le_val (le_bytes n v) = v mod 2 ^ (8 * Z.of_nat n).
Proof.
  revert v; induction n as [|n IH]; intros v Hv; simpl.
  - by rewrite Z.mod_1_r.
  - rewrite shiftr_div, IH by (try apply Z.div_pos; lia).
    rewrite lor_shiftl_add by (try apply u8_range; lia).
    replace (8 * Z.of_nat (S n)) with (8 + 8 * Z.of_nat n) by lia.
    rewrite Z.pow_add_r, Z.rem_mul_r by lia. unfold u8. lia.
Qed.

Lemma le_val_range l : bytes_ok l -> 0 <= le_val l < 2 ^ (8 * Z.of_nat (length l)).
Proof.
  induction 1 as [|x l Hx Hl IH]; [cbn; lia|]. cbn [le_val length].
  rewrite lor_shiftl_add by (unfold_u; lia). unfold_u.
  replace (8 * Z.of_nat (S (length l))) with (8 + 8 * Z.of_nat (length l)) by lia.
  rewrite Z.pow_add_r by lia. change (2 ^ 8) with 256. nia.
Qed.

#[export] Hint Resolve le_bytes_ok : dv.
#[export] Hint Rewrite length_le_bytes : dv.

(** ** Lists *)

Lemma take_app_len {A} (l k : list A) : take (length l) (l ++ k) = l.
Proof. apply take_app_length. Qed.

Lemma drop_app_len {A} (l k : list A) : drop (length l) (l ++ k) = k.
Proof. apply drop_app_length. Qed.

Lemma bytes_ok_app l k : bytes_ok (l ++ k) <-> bytes_ok l /\ bytes_ok k.
Proof. apply Forall_app. Qed.

Lemma bytes_ok_drop n l : bytes_ok l -> bytes_ok (drop n l).
Proof. apply Forall_drop. Qed.
Lemma bytes_ok_take n l : bytes_ok l -> bytes_ok (take n l).
Proof. apply Forall_take. Qed.
#[export] Hint Resolve bytes_ok_drop bytes_ok_take : dv.

Lemma default_lookup_replicate {A} (x : A) n i : default x (replicate n x !! i) = x.
Proof.
  destruct (replicate n x !! i) as [y|] eqn:E; [|done].
  by apply lookup_replicate in E as [-> _].
Qed.

(** ** Raw memory *)

(** [memcpy(&buf[at_], data, len)]. *)
Definition buf_write (buf : list Z) (at_ : nat) (data : list Z) : list Z :=
  take at_ buf ++ data ++ drop (at_ + length data) buf.

#[global] Arguments buf_write : simpl never.

(** The same copy with its bounds: [None] is a write outside the object. *)
Definition mem_write (buf : list Z) (at_ : nat) (data : list Z) : option (list Z) :=
  if (at_ + length data <=? length buf)%nat then Some (buf_write buf at_ data) else None.

(** Reading [n] octets at [at_]: [None] is a read outside the object. *)
Definition mem_read (buf : list Z) (at_ n : nat) : option (list Z) :=
  if (at_ + n <=? length buf)%nat then Some (take n (drop at_ buf)) else None.

Lemma buf_write_length buf at_ data :
  (at_ + length data <= length buf)%nat -> length (buf_write buf at_ data) = length buf.
Proof. intros. unfold buf_write. rewrite !length_app, length_take, length_drop. lia. Qed.

Lemma buf_write_ok buf at_ data : bytes_ok buf -> bytes_ok data -> bytes_ok (buf_write buf at_ data).
Proof. intros. unfold buf_write. rewrite !bytes_ok_app. auto with dv. Qed.

(** Appending at the write cursor extends the readable range. *)
Lemma buf_write_range buf rd wr data :
  (rd <= wr)%nat -> (wr + length data <= length buf)%nat ->
  take (wr + length data - rd) (drop rd (buf_write buf wr data)) =
    take (wr - rd) (drop rd buf) ++ data.
Proof.
  intros. unfold buf_write.
  rewrite drop_app_le by (rewrite length_take; lia).
  rewrite take_app_ge by (rewrite length_drop, length_take; lia).
  rewrite length_drop, length_take, Nat.min_l by lia.
  replace (wr + length data - rd - (wr - rd))%nat with (length data) by lia.
  rewrite take_app_len. f_equal. rewrite take_drop_commute. do 2 f_equal. lia.
Qed.

Lemma buf_write_app buf at_ x y :
  (at_ + length x + length y <= length buf)%nat ->
  buf_write (buf_write buf at_ x) (at_ + length x) y = buf_write buf at_ (x ++ y).
Proof.
  intros H. unfold buf_write. rewrite length_app, (app_assoc (take at_ _) x).
  rewrite take_app_length' by (rewrite length_app, length_take; lia).
  rewrite <- !app_assoc. do 3 f_equal.
  rewrite (app_assoc (take at_ buf) x), drop_app_ge by (rewrite length_app, length_take; lia).
  rewrite drop_drop. f_equal. rewrite length_app, length_take. lia.
Qed.

Lemma buf_write_nil buf at_ : buf_write buf at_ [] = buf.
Proof. unfold buf_write. cbn [app length]. rewrite Nat.add_0_r. apply take_drop. Qed.

(** Overwriting in the middle of what was just written. *)
Lemma buf_write_over buf at_ x y y' z :
  (at_ + length (x ++ y ++ z) <= length buf)%nat -> length y' = length y ->
  buf_write (buf_write buf at_ (x ++ y ++ z)) (at_ + length x) y' = buf_write buf at_ (x ++ y' ++ z).
Proof.
  rewrite !length_app. intros H E. unfold buf_write. rewrite !length_app, E.
  rewrite <- (app_assoc x). rewrite (app_assoc (take at_ buf) x).
  rewrite take_app_length' by (rewrite length_app, length_take; lia).
  rewrite <- !app_assoc. do 3 f_equal.
  rewrite (app_assoc x), (app_assoc (take at_ buf)), drop_app_ge by (rewrite !length_app, length_take; lia).
  rewrite !length_app, length_take.
  replace (at_ + length x + length y - (at_ `min` length buf + (length x + length y)))%nat with 0%nat by lia.
  by rewrite drop_0.
Qed.

Lemma buf_write_read_same buf at_ data :
  (at_ + length data <= length buf)%nat -> take (length data) (drop at_ (buf_write buf at_ data)) = data.
Proof.
  intros H. unfold buf_write. rewrite drop_app_ge by (rewrite length_take; lia).
  rewrite length_take, Nat.min_l, Nat.sub_diag by lia. cbn [drop]. apply take_app_len.
Qed.

Lemma buf_write_read_other buf at_ data off n :
  (at_ + length data <= length buf)%nat -> (off + n <= at_ \/ at_ + length data <= off)%nat ->
  take n (drop off (buf_write buf at_ data)) = take n (drop off buf).
Proof.
  intros H [Hl|Hr]; unfold buf_write.
  - rewrite drop_app_le by (rewrite length_take; lia).
    rewrite take_app_le by (rewrite length_drop, length_take; lia).
    rewrite !take_drop_commute, take_take. do 2 f_equal. lia.
  - rewrite app_assoc, drop_app_ge by (rewrite length_app, length_take; lia).
    rewrite drop_drop, length_app, length_take. do 2 f_equal. lia.
Qed.

Lemma mem_write_some buf at_ data :
  (at_ + length data <= length buf)%nat -> mem_write buf at_ data = Some (buf_write buf at_ data).
Proof. intros. unfold mem_write. by rewrite (proj2 (Nat.leb_le _ _)). Qed.

Lemma mem_read_some buf at_ n :
  (at_ + n <= length buf)%nat -> mem_read buf at_ n = Some (take n (drop at_ buf)).
Proof. intros. unfold mem_read. by rewrite (proj2 (Nat.leb_le _ _)). Qed.

(** [AlignUp(size, alignment)] of base/utils.h; [alignment] is a power of two. *)
Definition AlignUp (alignment size : Z) : Z := u64 (size + alignment - 1) .& Z.lnot (alignment - 1).

Lemma AlignUp_div k size :
  0 <= k -> 0 <= size -> size + 2 ^ k - 1 < 2 ^ 64 ->
  AlignUp (2 ^ k) size = (size + 2 ^ k - 1) / 2 ^ k * 2 ^ k.
Proof.
  intros Hk Hs Hb. assert (0 < 2 ^ k) by (apply Z.pow_pos_nonneg; lia).
  unfold AlignUp. rewrite u64_id by (unfold is_u64; lia).
  replace (2 ^ k - 1) with (Z.ones k) by (rewrite Z.ones_equiv; lia).
  rewrite <- Z.ldiff_land, Z.ldiff_ones_r, shiftr_div, shiftl_mul by done. done.
Qed.

Lemma AlignUp_bounds k size :
  0 <= k -> 0 <= size -> size + 2 ^ k - 1 < 2 ^ 64 ->
  size <= AlignUp (2 ^ k) size < size + 2 ^ k /\ AlignUp (2 ^ k) size mod 2 ^ k = 0.
Proof.
  intros Hk Hs Hb. assert (0 < 2 ^ k) by (apply Z.pow_pos_nonneg; lia).
  rewrite AlignUp_div by done. rewrite Z.mod_mul by lia.
  pose proof (Z.div_mod (size + 2 ^ k - 1) (2 ^ k)). pose proof (Z.mod_pos_bound (size + 2 ^ k - 1) (2 ^ k)).
  nia.
Qed.

(** ** Clients of the tracing service *)

Definition kInvalidPid : Z := -1.
Definition kDefaultMachineID : Z := 0.

(** A [uid_t], a [pid_t] and a machine id. *)
Record ClientIdentity := mkIdentity { uid : Z; pid : Z; machine_id : Z }.

Definition has_pid (ci : ClientIdentity) : bool := negb (pid ci =? kInvalidPid).
Definition has_non_default_machine_id (ci : ClientIdentity) : bool := negb (machine_id ci =? kDefaultMachineID).

(** The ids of a client fit an [int32_t], as they do on the systems that run the service. *)
Definition client_ok (ci : ClientIdentity) : Prop := 0 <= uid ci < 2 ^ 31 /\ kInvalidPid <= pid ci < 2 ^ 31 /\ is_u32 (machine_id ci).
