(* ===== verification/ProtoUtils.v ===== *)
(** * Protobuf wire-format primitives

    Models include/dejaview/protozero/proto_utils.h and
    include/dejaview/public/pb_utils.h: wire types, tags, varints (canonical
    and redundant), zig-zag integers and fixed-width words.  A writer returns
    the octets it stores at its output pointer; a reader takes the octets of
    [[start, end)] and returns how far the returned pointer is from [start]
    (0 is the sources' "returns |start|" failure) with the decoded value. *)

From S2P Require Import Prelude.

(** ** Wire types *)

Inductive ProtoWireType := kVarInt | kFixed64 | kLengthDelimited | kFixed32.

#[export] Instance ProtoWireType_eq_dec : EqDecision ProtoWireType.
Proof. solve_decision. Defined.

Definition wire_type_num (t : ProtoWireType) : Z :=
  match t with kVarInt => 0 | kFixed64 => 1 | kLengthDelimited => 2 | kFixed32 => 5 end.

Definition wire_type_of_num (n : Z) : option ProtoWireType :=
  if n =? 0 then Some kVarInt
  else if n =? 1 then Some kFixed64
  else if n =? 2 then Some kLengthDelimited
  else if n =? 5 then Some kFixed32
  else None.

Inductive ProtoSchemaType :=
  | kUnknown | kDouble | kFloat | kInt64 | kUint64 | kInt32 | kSchemaFixed64
  | kSchemaFixed32 | kBool | kString | kGroup | kMessage | kBytes | kUint32
  | kEnum | kSfixed32 | kSfixed64 | kSint32 | kSint64.

Definition ProtoSchemaToString (v : ProtoSchemaType) : string :=
  match v with
  | kUnknown => "unknown" | kDouble => "double" | kFloat => "float"
  | kInt64 => "int64" | kUint64 => "uint64" | kInt32 => "int32"
  | kSchemaFixed64 => "fixed64" | kSchemaFixed32 => "fixed32" | kBool => "bool"
  | kString => "string" | kGroup => "group" | kMessage => "message"
  | kBytes => "bytes" | kUint32 => "uint32" | kEnum => "enum"
  | kSfixed32 => "sfixed32" | kSfixed64 => "sfixed64" | kSint32 => "sint32"
  | kSint64 => "sint64"
  end.

(** ** Size limits *)

Definition kMessageLengthFieldSize : nat := 4.
Definition kMaxMessageLength : Z := (1 << (Z.of_nat kMessageLengthFieldSize * 7)) - 1.
Definition kMaxOneByteMessageLength : Z := (1 << 7) - 1.
Definition kMaxTagEncodedSize : nat := 5.
Definition kMaxSimpleFieldEncodedSize : nat := kMaxTagEncodedSize + 10.

(** ** Tags *)

Definition MakeTagVarInt (field_id : Z) : Z :=
  u32 (field_id << 3) .| wire_type_num kVarInt.

(** [size_of_T] is [sizeof(T)], 4 or 8. *)
Definition MakeTagFixed (size_of_T : Z) (field_id : Z) : Z :=
  u32 (field_id << 3) .| wire_type_num (if size_of_T =? 8 then kFixed64 else kFixed32).

Definition MakeTagLengthDelimited (field_id : Z) : Z :=
  u32 (field_id << 3) .| wire_type_num kLengthDelimited.

Definition DejaViewPbMakeTag (field_id : Z) (wire_type : ProtoWireType) : Z :=
  u32 (u32 field_id << 3) .| wire_type_num wire_type.

(** ** Zig-zag, at width [w] (32 or 64) *)

Definition ZigZagEncode (w : Z) (value : Z) : Z :=
  ((value mod 2 ^ w) << 1) mod 2 ^ w .^ ((value >> (w - 1)) mod 2 ^ w).

Definition ZigZagDecode (w : Z) (value : Z) : Z :=
  let u_value := value mod 2 ^ w in
  let mask := (- swrap w (u_value .& 1)) mod 2 ^ w in
  swrap w ((u_value >> 1) .^ mask).

(** The C entry points fix the width. *)
Definition DejaViewPbZigZagEncode32 (value : Z) : Z :=
  u32 (u32 value << 1) .^ u32 (value >> 31).
Definition DejaViewPbZigZagEncode64 (value : Z) : Z :=
  u64 (u64 value << 1) .^ u64 (value >> 63).
Definition DejaViewPbZigZagDecode32 (value : Z) : Z :=
  let mask := u32 (- s32 (value .& 1)) in s32 ((value >> 1) .^ mask).
Definition DejaViewPbZigZagDecode64 (value : Z) : Z :=
  let mask := u64 (- s64 (value .& 1)) in s64 ((value >> 1) .^ mask).

(** ** Varints *)

(** [w] and [is_unsigned] describe the template argument [T]: unsigned types
    keep their width, signed ones are sign extended to 64 bits first. *)
Definition ExtendValueForVarIntSerialization (is_unsigned : bool) (w value : Z) : Z :=
  if is_unsigned then value mod 2 ^ w else u64 value.

(** The [while] loop of [WriteVarInt] on the extended value. *)
Fixpoint WriteVarInt_loop (fuel : nat) (unsigned_value : Z) : list Z :=
  match fuel with
  | O => [u8 unsigned_value]
  | S fuel =>
      if 0x80 <=? unsigned_value then
        (u8 unsigned_value .| 0x80) :: WriteVarInt_loop fuel (unsigned_value >> 7)
      else [u8 unsigned_value]
  end.

(** A 64-bit value shifted right by 7 nine times is below 0x80, so ten
    rounds are never used up. *)
Definition WriteVarInt (value : Z) : list Z := WriteVarInt_loop 10 value.

Definition WriteVarInt_T (is_unsigned : bool) (w value : Z) : list Z :=
  WriteVarInt (ExtendValueForVarIntSerialization is_unsigned w value).

Fixpoint DejaViewPbWriteVarInt_loop (fuel : nat) (value : Z) : list Z :=
  match fuel with
  | O => [value .& 0x7f]
  | S fuel =>
      if 0x80 <=? value then
        ((value .& 0x7f) .| 0x80) :: DejaViewPbWriteVarInt_loop fuel (value >> 7)
      else [value .& 0x7f]
  end.
Definition DejaViewPbWriteVarInt (value : Z) : list Z := DejaViewPbWriteVarInt_loop 10 value.

Definition DejaViewPbWriteFixed32 (value : Z) : list Z :=
  [u8 value; u8 (value >> 8); u8 (value >> 16); u8 (value >> 24)].
Definition DejaViewPbWriteFixed64 (value : Z) : list Z :=
  [u8 value; u8 (value >> 8); u8 (value >> 16); u8 (value >> 24);
   u8 (value >> 32); u8 (value >> 40); u8 (value >> 48); u8 (value >> 56)].

(** The [for] loop of [WriteRedundantVarInt], [i] counting up to [size]. *)
Fixpoint WriteRedundantVarInt (value : Z) (size : nat) : list Z :=
  match size with
  | O => []
  | S rest =>
      let msb := match rest with O => 0 | S _ => 0x80 end in
      (u8 value .| msb) :: WriteRedundantVarInt (value >> 7) rest
  end.

Fixpoint ParseVarInt_loop (shift value : Z) (pos : nat) (l : list Z) : nat * Z :=
  match l with
  | [] => (0%nat, 0)
  | cur_byte :: l =>
      if shift <? 64 then
        let value := value .| u64 ((cur_byte .& 0x7f) << shift) in
        if (cur_byte .& 0x80) =? 0 then (S pos, value)
        else ParseVarInt_loop (shift + 7) value (S pos) l
      else (0%nat, 0)
  end.

Definition ParseVarInt (l : list Z) : nat * Z := ParseVarInt_loop 0 0 0 l.

(** ** Reference semantics of a varint: base-128 digits, least first *)

Fixpoint varint_spec (l : list Z) : option (nat * Z) :=
  match l with
  | [] => None
  | b :: l =>
      if b <? 128 then Some (1%nat, b)
      else '(n, v) ← varint_spec l; Some (S n, b mod 128 + 128 * v)
  end.

(** Number of octets of the canonical encoding. *)
Definition varint_size (v : Z) : nat := Z.to_nat (Z.log2 (Z.max v 1) / 7 + 1).

(** ** Writing *)

Lemma WriteVarInt_loop_small fuel v : 0 <= v < 128 -> WriteVarInt_loop fuel v = [v].
Proof.
  intros. destruct fuel; simpl; [by rewrite u8_id by (unfold_u; lia)|].
  rewrite (proj2 (Z.leb_gt 0x80 v)) by lia. by rewrite u8_id by (unfold_u; lia).
Qed.

Lemma WriteVarInt_loop_big fuel v : 128 <= v ->
  WriteVarInt_loop (S fuel) v = (v mod 128 + 128) :: WriteVarInt_loop fuel (v / 128).
Proof.
  intros. simpl. rewrite (proj2 (Z.leb_le 0x80 v)) by lia.
  rewrite lor_80 by apply u8_range. rewrite shiftr_div by lia.
  f_equal. unfold u8. change (2 ^ 8) with (128 * 2).
  rewrite Z.rem_mul_r by lia. divlia.
Qed.

(** Octet [v mod 128 + 128] carries digit [v mod 128] and continues. *)
Lemma varint_spec_cont d l : 0 <= d < 128 ->
  varint_spec (d + 128 :: l) = '(n, v) ← varint_spec l; Some (S n, d + 128 * v).
Proof.
  intros. simpl. rewrite (proj2 (Z.ltb_ge _ _)) by lia.
  replace ((d + 128) mod 128) with d by divlia. done.
Qed.

Lemma WriteVarInt_loop_spec fuel v rest :
  0 <= v < 128 ^ (Z.of_nat fuel + 1) ->
  varint_spec (WriteVarInt_loop fuel v ++ rest) = Some (length (WriteVarInt_loop fuel v), v).
Proof.
  revert v; induction fuel as [|fuel IH]; intros v Hv.
  - rewrite WriteVarInt_loop_small by lia. simpl.
    rewrite (proj2 (Z.ltb_lt _ _)) by lia. done.
  - destruct (decide (v < 128)).
    + rewrite WriteVarInt_loop_small by lia. simpl.
      by rewrite (proj2 (Z.ltb_lt _ _)) by lia.
    + rewrite WriteVarInt_loop_big by lia. rewrite <- app_comm_cons.
      rewrite varint_spec_cont by divlia.
      rewrite IH.
      2: { replace (Z.of_nat (S fuel) + 1) with (1 + (Z.of_nat fuel + 1)) in Hv by lia.
           rewrite Z.pow_add_r in Hv by lia. split; [divlia|].
           apply Z.div_lt_upper_bound; lia. }
      simpl. f_equal. f_equal. divlia.
Qed.

Lemma length_WriteVarInt_loop fuel v :
  0 <= v < 128 ^ (Z.of_nat fuel + 1) -> length (WriteVarInt_loop fuel v) = varint_size v.
Proof.
  revert v; induction fuel as [|fuel IH]; intros v Hv.
  - rewrite WriteVarInt_loop_small by lia. unfold varint_size.
    rewrite Z.div_small; [done|]. split; [apply Z.log2_nonneg|].
    apply Z.log2_lt_pow2; lia.
  - destruct (decide (v < 128)).
    + rewrite WriteVarInt_loop_small by lia. unfold varint_size.
      rewrite Z.div_small; [done|]. split; [apply Z.log2_nonneg|].
      apply Z.log2_lt_pow2; lia.
    + rewrite WriteVarInt_loop_big by lia. simpl. rewrite IH.
      2: { replace (Z.of_nat (S fuel) + 1) with (1 + (Z.of_nat fuel + 1)) in Hv by lia.
           rewrite Z.pow_add_r in Hv by lia. split; [divlia|].
           apply Z.div_lt_upper_bound; lia. }
      unfold varint_size. assert (1 <= v / 128) by divlia.
      rewrite !Z.max_l by lia.
      assert (Hl : Z.log2 v = Z.log2 (v / 128) + 7).
      { change (v / 128) with (v / 2 ^ 7). rewrite <- shiftr_div, Z.log2_shiftr by lia.
        assert (7 <= Z.log2 v) by (apply Z.log2_le_pow2; lia). lia. }
      rewrite Hl. pose proof (Z.log2_nonneg (v / 128)). divlia.
Qed.

Lemma is_u64_128 v : is_u64 v -> 0 <= v < 128 ^ (Z.of_nat 10 + 1).
Proof. unfold_u. lia. Qed.

Lemma length_WriteVarInt v : is_u64 v -> length (WriteVarInt v) = varint_size v.
Proof. intros. by apply length_WriteVarInt_loop, is_u64_128. Qed.

Lemma varint_size_mono v v' : 0 <= v <= v' -> (varint_size v <= varint_size v')%nat.
Proof.
  intros. unfold varint_size.
  assert (Z.log2 (Z.max v 1) <= Z.log2 (Z.max v' 1)) by (apply Z.log2_le_mono; lia).
  pose proof (Z.log2_nonneg (Z.max v 1)). divlia.
Qed.

Lemma varint_size_pos v : (1 <= varint_size v)%nat.
Proof. unfold varint_size. pose proof (Z.log2_nonneg (Z.max v 1)). divlia. Qed.

Lemma varint_size_u64 v : is_u64 v -> (varint_size v <= 10)%nat.
Proof.
  intros [H1 H2]. transitivity (varint_size (2 ^ 64 - 1)); [|vm_compute; lia].
  apply varint_size_mono. lia.
Qed.

Lemma varint_size_u32 v : is_u32 v -> (varint_size v <= 5)%nat.
Proof.
  intros [H1 H2]. transitivity (varint_size (2 ^ 32 - 1)); [|vm_compute; lia].
  apply varint_size_mono. lia.
Qed.

Lemma WriteVarInt_loop_ok fuel v : 0 <= v < 128 ^ (Z.of_nat fuel + 1) -> bytes_ok (WriteVarInt_loop fuel v).
Proof.
  unfold bytes_ok. revert v; induction fuel as [|fuel IH]; intros v Hv.
  - rewrite WriteVarInt_loop_small by lia. repeat constructor; unfold_u; lia.
  - destruct (decide (v < 128)).
    + rewrite WriteVarInt_loop_small by lia. repeat constructor; unfold_u; lia.
    + rewrite WriteVarInt_loop_big by lia. constructor; [divlia|]. apply IH.
      replace (Z.of_nat (S fuel) + 1) with (1 + (Z.of_nat fuel + 1)) in Hv by lia.
      rewrite Z.pow_add_r in Hv by lia. split; [divlia|].
      apply Z.div_lt_upper_bound; lia.
Qed.

Lemma WriteVarInt_ok v : is_u64 v -> bytes_ok (WriteVarInt v).
Proof. intros. by apply WriteVarInt_loop_ok, is_u64_128. Qed.
#[export] Hint Resolve WriteVarInt_ok : dv.

(** ** Reading *)

Lemma acc_step acc x s :
  0 <= s < 64 -> 0 <= acc < 2 ^ s -> 0 <= x ->
  acc .| u64 (x << s) = u64 (acc + x * 2 ^ s).
Proof.
  intros Hs Ha Hx.
  assert (E : 2 ^ 64 = 2 ^ s * 2 ^ (64 - s)) by (rewrite <- Z.pow_add_r by lia; f_equal; lia).
  assert (0 < 2 ^ s /\ 0 < 2 ^ (64 - s)) as [? ?] by (split; apply Z.pow_pos_nonneg; lia).
  unfold u64. rewrite E, shiftl_mul by lia.
  rewrite (Z.mul_comm x), Z.mul_mod_distr_l by lia.
  rewrite Z.mul_comm, <- shiftl_mul, lor_shiftl_add by lia.
  rewrite Z.rem_mul_r by lia.
  rewrite (Z.mul_comm (2 ^ s) x), Z.mod_add, Z.div_add, (Z.mod_small acc), (Z.div_small acc) by lia.
  rewrite Z.add_0_l. ring.
Qed.

Lemma ParseVarInt_loop_spec (k : nat) acc n l :
  (k <= 10)%nat -> ((k <= 9)%nat -> 0 <= acc < 2 ^ (7 * Z.of_nat k)) -> bytes_ok l ->
  ParseVarInt_loop (7 * Z.of_nat k) acc n l =
    match varint_spec (take (10 - k) l) with
    | Some (m, v) => ((n + m)%nat, u64 (acc + v * 2 ^ (7 * Z.of_nat k)))
    | None => (0%nat, 0)
    end.
Proof.
  revert k acc n; induction l as [|b l IH]; intros k acc n Hk Ha Hl.
  { by rewrite take_nil. }
  inversion Hl as [|?? Hb Hl']; subst.
  cbn [ParseVarInt_loop]. destruct (decide (k = 10%nat)) as [->|Hk9]; [done|].
  rewrite (proj2 (Z.ltb_lt _ _)) by lia.
  rewrite land_7f, acc_step by (try apply Ha; divlia).
  replace (10 - k)%nat with (S (9 - k)) by lia. cbn [take varint_spec].
  destruct (decide (b < 128)).
  - rewrite land_80_small, (proj2 (Z.ltb_lt b 128)), Z.eqb_refl by (unfold_u; lia).
    rewrite (Z.mod_small b) by (unfold_u; lia). f_equal. lia.
  - rewrite land_80_big, (proj2 (Z.ltb_ge b 128)) by (unfold_u; lia). cbn [Z.eqb].
    replace (7 * Z.of_nat k + 7) with (7 * Z.of_nat (S k)) by lia.
    rewrite IH; [|lia| |done].
    + replace (10 - S k)%nat with (9 - k)%nat by lia.
      destruct (varint_spec (take (9 - k) l)) as [[m v]|]; [|done]. cbn.
      f_equal; [lia|]. replace (7 * Z.of_nat (S k)) with (7 * Z.of_nat k + 7) by lia.
      rewrite Z.pow_add_r by lia. unfold u64. rewrite Zplus_mod_idemp_l. f_equal. lia.
    + intros Hk'. unfold u64. specialize (Ha ltac:(lia)).
      replace (7 * Z.of_nat (S k)) with (7 * Z.of_nat k + 7) by lia.
      rewrite Z.pow_add_r by lia.
      assert (0 <= b mod 128 < 128) by divlia.
      rewrite Z.mod_small; [nia|].
      assert (2 ^ (7 * Z.of_nat k) * 2 ^ 7 <= 2 ^ 64)
        by (rewrite <- Z.pow_add_r by lia; apply Z.pow_le_mono_r; lia). nia.
Qed.

Lemma ParseVarInt_eq l : bytes_ok l ->
  ParseVarInt l =
    match varint_spec (take 10 l) with
    | Some (m, v) => (m, u64 v)
    | None => (0%nat, 0)
    end.
Proof.
  intros Hl. unfold ParseVarInt.
  pose proof (ParseVarInt_loop_spec 0 0 0 l ltac:(lia) ltac:(lia) Hl) as E.
  change (7 * Z.of_nat 0) with 0 in E. change (10 - 0)%nat with 10%nat in E. rewrite E.
  destruct (varint_spec (take 10 l)) as [[m v]|]; [|done]. f_equal. f_equal. lia.
Qed.

Lemma varint_spec_bound l m v :
  bytes_ok l -> varint_spec l = Some (m, v) ->
  (1 <= m <= length l)%nat /\ 0 <= v < 128 ^ Z.of_nat m.
Proof.
  revert m v; induction l as [|b l IH]; intros m v Hl H; [done|].
  inversion Hl as [|?? Hb Hl']; subst. simpl in H.
  destruct (Z.ltb_spec b 128); simplify_eq/=; [unfold_u; lia|].
  destruct (varint_spec l) as [[n' v']|] eqn:E; simplify_eq/=.
  destruct (IH _ _ Hl' eq_refl). split; [lia|].
  replace (Z.of_nat (S n')) with (1 + Z.of_nat n') by lia.
  rewrite Z.pow_add_r by lia. divlia.
Qed.

(** What a caller learns from any call: the cursor stays inside the buffer
    and moves by at most ten octets; the value is 64-bit. *)
Lemma ParseVarInt_bounds l n v :
  bytes_ok l -> ParseVarInt l = (n, v) ->
  (n <= length l)%nat /\ (n <= 10)%nat /\ is_u64 v.
Proof.
  intros Hl H. rewrite ParseVarInt_eq in H by done.
  destruct (varint_spec (take 10 l)) as [[m v']|] eqn:E; simplify_eq/=.
  - apply varint_spec_bound in E as [E1 E2]; [|by apply bytes_ok_take].
    rewrite length_take in E1. repeat split; try lia; apply u64_range.
  - unfold_u. lia.
Qed.

(** A varint that fits the ten-octet window decodes to its digits. *)
Lemma ParseVarInt_of_spec l rest v :
  bytes_ok (l ++ rest) -> (length l <= 10)%nat -> is_u64 v ->
  varint_spec l = Some (length l, v) ->
  ParseVarInt (l ++ rest) = (length l, v).
Proof.
  intros Hl Hlen Hv Hs. rewrite ParseVarInt_eq by done.
  rewrite take_app_ge by done.
  assert (E : forall k r, varint_spec k = Some (length k, v) ->
                     varint_spec (k ++ r) = Some (length k, v)).
  { clear. intros k. revert v; induction k as [|b k IH]; intros v r H; [done|].
    simpl in *. destruct (b <? 128); [done|].
    destruct (varint_spec k) as [[n' v']|] eqn:E; simplify_eq/=.
    by rewrite (IH v' r eq_refl). }
  rewrite E by done. by rewrite u64_id.
Qed.

(** ** Redundant varints *)

Lemma WriteRedundantVarInt_ok v size : 0 <= v -> bytes_ok (WriteRedundantVarInt v size).
Proof.
  unfold bytes_ok. revert v; induction size as [|k IH]; intros v Hv; simpl; constructor.
  - pose proof (u8_range v). destruct k; [rewrite Z.lor_0_r; done|].
    rewrite lor_80 by done. divlia.
  - apply IH. rewrite shiftr_div by lia. divlia.
Qed.

Lemma length_WriteRedundantVarInt v size : length (WriteRedundantVarInt v size) = size.
Proof. revert v; induction size; intros; simpl; auto. Qed.

Lemma WriteRedundantVarInt_spec v size :
  (0 < size)%nat -> 0 <= v < 128 ^ Z.of_nat size ->
  varint_spec (WriteRedundantVarInt v size) = Some (size, v).
Proof.
  revert v; induction size as [|k IH]; intros v H Hv; [lia|]. destruct k as [|k].
  - simpl. rewrite Z.lor_0_r, u8_id by (unfold_u; lia).
    by rewrite (proj2 (Z.ltb_lt _ _)) by lia.
  - change (WriteRedundantVarInt v (S (S k)))
      with ((u8 v .| 0x80) :: WriteRedundantVarInt (v >> 7) (S k)).
    rewrite lor_80 by apply u8_range. rewrite varint_spec_cont by divlia.
    rewrite shiftr_div by lia. rewrite IH; [|lia|].
    + cbn. do 2 f_equal. unfold u8. change (2 ^ 8) with (128 * 2).
      rewrite Z.rem_mul_r by lia. divlia.
    + replace (Z.of_nat (S (S k))) with (1 + Z.of_nat (S k)) in Hv by lia.
      rewrite Z.pow_add_r in Hv by lia. split; [divlia|].
      apply Z.div_lt_upper_bound; lia.
Qed.

(** ** Zig-zag *)

Lemma swrap_id w z : 0 < w -> - 2 ^ (w - 1) <= z < 2 ^ (w - 1) -> swrap w z = z.
Proof.
  intros Hw Hz. unfold swrap.
  assert (E : 2 ^ w = 2 * 2 ^ (w - 1)) by (rewrite <- Z.pow_succ_r by lia; f_equal; lia).
  destruct (decide (0 <= z)).
  - rewrite Z.mod_small by lia. by rewrite (proj2 (Z.ltb_lt _ _)) by lia.
  - replace (z mod 2 ^ w) with (z + 2 ^ w)
      by (apply Z.mod_unique with (-1); lia).
    rewrite (proj2 (Z.ltb_ge _ _)) by lia. lia.
Qed.

(** Zig-zag interleaves: 0, -1, 1, -2, ... *)
Lemma ZigZagEncode_arith w v : 1 < w -> - 2 ^ (w - 1) <= v < 2 ^ (w - 1) ->
  ZigZagEncode w v = if v <? 0 then - 2 * v - 1 else 2 * v.
Proof.
  intros Hw Hv. unfold ZigZagEncode.
  assert (E : 2 ^ w = 2 * 2 ^ (w - 1)) by (rewrite <- Z.pow_succ_r by lia; f_equal; lia).
  rewrite shiftl_mul, shiftr_div, Z.pow_1_r by lia.
  destruct (Z.ltb_spec v 0).
  - replace (v / 2 ^ (w - 1)) with (-1) by (apply Z.div_unique with (v + 2 ^ (w - 1)); lia).
    replace (-1 mod 2 ^ w) with (Z.ones w)
      by (rewrite Z.ones_equiv; apply Z.mod_unique with (-1); lia).
    replace (v mod 2 ^ w) with (v + 2 ^ w) by (apply Z.mod_unique with (-1); lia).
    replace (((v + 2 ^ w) * 2) mod 2 ^ w) with (2 * v + 2 ^ w)
      by (apply Z.mod_unique with 1; lia).
    rewrite Z.lxor_comm. apply Z.bits_inj'. intros i Hi.
    replace (- 2 * v - 1) with (Z.lnot (2 * v)) by (unfold Z.lnot; lia).
    rewrite Z.lxor_spec, Z.lnot_spec by done.
    destruct (decide (i < w)).
    + rewrite Z.ones_spec_low, xorb_true_l by lia.
      rewrite <- (Z.mod_pow2_bits_low _ w), <- (Z.mod_pow2_bits_low (2 * v) w) by lia.
      do 2 f_equal. replace (2 * v + 2 ^ w) with (2 * v + 1 * 2 ^ w) by lia.
      apply Z.mod_add. lia.
    + rewrite Z.ones_spec_high by lia. rewrite xorb_false_l.
      rewrite <- (Z.mod_small (2 * v + 2 ^ w) (2 ^ w)) by lia.
      rewrite Z.mod_pow2_bits_high by lia. symmetry. apply negb_false_iff.
      destruct (decide (2 * v = -1)); [lia|].
      apply Z.bits_above_log2_neg; [lia|].
      apply Z.log2_lt_pow2; [lia|]. apply Z.lt_le_trans with (2 ^ w); [lia|].
      apply Z.pow_le_mono_r; lia.
  - rewrite (Z.div_small v), Z.mod_0_l, Z.lxor_0_r, (Z.mod_small v), Z.mod_small by lia. lia.
Qed.

Lemma ZigZagDecode_arith w u : 1 < w -> 0 <= u < 2 ^ w ->
  ZigZagDecode w u = if Z.even u then u / 2 else - (u / 2) - 1.
Proof.
  intros Hw Hu. unfold ZigZagDecode.
  assert (E : 2 ^ w = 2 * 2 ^ (w - 1)) by (rewrite <- Z.pow_succ_r by lia; f_equal; lia).
  assert (2 <= 2 ^ (w - 1)) by (change 2 with (2 ^ 1) at 1; apply Z.pow_le_mono_r; lia).
  rewrite (Z.mod_small u) by done.
  replace (u .& 1) with (u mod 2) by (symmetry; apply (Z.land_ones u 1); lia).
  rewrite shiftr_div, Z.pow_1_r by lia. rewrite Zmod_even.
  assert (0 <= u / 2 < 2 ^ (w - 1)) by (split; [divlia|apply Z.div_lt_upper_bound; lia]).
  destruct (Z.even u).
  - rewrite (swrap_id w 0) by lia. change (- 0) with 0. rewrite Z.mod_0_l, Z.lxor_0_r by lia.
    apply swrap_id; lia.
  - destruct (decide (w = 2)) as [->|].
    + assert (u / 2 = 0 \/ u / 2 = 1) as [-> | ->] by lia; reflexivity.
    + assert (4 <= 2 ^ (w - 1)) by (change 4 with (2 ^ 2); apply Z.pow_le_mono_r; lia).
      rewrite (swrap_id w 1) by lia.
      replace (-(1) mod 2 ^ w) with (Z.ones w)
        by (rewrite Z.ones_equiv; apply Z.mod_unique with (-1); lia).
      assert (El : u / 2 .^ Z.ones w = 2 ^ w - 1 - u / 2).
      { replace (2 ^ w - 1) with (Z.ones w) by (rewrite Z.ones_equiv; lia).
        rewrite Z.sub_nocarry_ldiff.
        - apply Z.bits_inj'. intros i Hi.
          rewrite Z.lxor_spec, Z.ldiff_spec. destruct (decide (i < w)).
          + rewrite Z.ones_spec_low by lia. by destruct (Z.testbit (u / 2) i).
          + rewrite Z.ones_spec_high by lia.
            rewrite <- (Z.mod_small (u / 2) (2 ^ w)) by lia.
            by rewrite Z.mod_pow2_bits_high by lia.
        - apply Z.bits_inj'. intros i Hi.
          rewrite Z.ldiff_spec, Z.bits_0. destruct (decide (i < w)).
          + rewrite Z.ones_spec_low by lia. apply andb_false_r.
          + rewrite <- (Z.mod_small (u / 2) (2 ^ w)) by lia.
            by rewrite Z.mod_pow2_bits_high by lia. }
      rewrite El. unfold swrap. rewrite Z.mod_small by lia.
      rewrite (proj2 (Z.ltb_ge _ _)) by lia. lia.
Qed.

Lemma ZigZagEncode_range w v : 1 < w -> - 2 ^ (w - 1) <= v < 2 ^ (w - 1) ->
  0 <= ZigZagEncode w v < 2 ^ w.
Proof.
  intros Hw Hv. rewrite ZigZagEncode_arith by done.
  assert (E : 2 ^ w = 2 * 2 ^ (w - 1)) by (rewrite <- Z.pow_succ_r by lia; f_equal; lia).
  destruct (Z.ltb_spec v 0); lia.
Qed.

Lemma ZigZagDecode_Encode w v : 1 < w -> - 2 ^ (w - 1) <= v < 2 ^ (w - 1) ->
  ZigZagDecode w (ZigZagEncode w v) = v.
Proof.
  intros Hw Hv. rewrite ZigZagDecode_arith by (auto using ZigZagEncode_range).
  rewrite ZigZagEncode_arith by done. destruct (Z.ltb_spec v 0).
  - replace (- 2 * v - 1) with (2 * (- v - 1) + 1) by lia.
    rewrite Z.add_comm, Z.even_add_mul_2. simpl. divlia.
  - rewrite Z.even_mul. simpl. divlia.
Qed.

Lemma ZigZagEncode_Decode w u : 1 < w -> 0 <= u < 2 ^ w ->
  ZigZagEncode w (ZigZagDecode w u) = u.
Proof.
  intros Hw Hu. rewrite ZigZagDecode_arith by done.
  assert (E : 2 ^ w = 2 * 2 ^ (w - 1)) by (rewrite <- Z.pow_succ_r by lia; f_equal; lia).
  assert (0 <= u / 2 < 2 ^ (w - 1)) by (split; [divlia|apply Z.div_lt_upper_bound; lia]).
  pose proof (Z.div_mod u 2 ltac:(lia)) as Hdm. rewrite Zmod_even in Hdm.
  destruct (Z.even u); rewrite ZigZagEncode_arith by lia.
  - rewrite (proj2 (Z.ltb_ge _ _)) by lia. lia.
  - rewrite (proj2 (Z.ltb_lt _ _)) by lia. lia.
Qed.

Lemma wire_type_of_num_num t : wire_type_of_num (wire_type_num t) = Some t.
Proof. by destruct t. Qed.
#[export] Hint Rewrite wire_type_of_num_num : dv.

(** ** Tags: the field id and the wire type share one varint *)

Lemma tag_arith id t : 0 <= id < 2 ^ 29 ->
  (u32 (id << 3) .| wire_type_num t) = 8 * id + wire_type_num t.
Proof.
  intros H. rewrite shiftl_mul, u32_id by (unfold_u; lia).
  rewrite Z.lor_comm, <- (shiftl_mul id 3), lor_shiftl_add by (destruct t; simpl; lia). lia.
Qed.

Lemma tag_split id t : 0 <= id < 2 ^ 29 ->
  let tag := u32 (id << 3) .| wire_type_num t in
  is_u32 tag /\ tag >> 3 = id /\ wire_type_of_num (tag .& 7) = Some t.
Proof.
  intros H. cbv zeta. rewrite tag_arith by done. rewrite shiftr_div, land_7 by lia.
  change (2 ^ 3) with 8.
  assert (0 <= wire_type_num t < 8) by (destruct t; simpl; lia).
  assert (E : (8 * id + wire_type_num t) mod 8 = wire_type_num t)
    by (rewrite Z.add_comm, Z.mul_comm, Z.mod_add, Z.mod_small; lia).
  rewrite E. repeat split; [unfold_u; lia..| |by destruct t]. divlia.
Qed.

(** ** The codec interface the message-level components rely on *)

(** [wc_write] appends an encoding of a value, [wc_read] decodes one from the
    front of a buffer and says how many octets it took. *)
Class WireCodec (A : Type) := {
  wc_ok : A -> Prop;
  wc_write : A -> list Z;
  wc_read : list Z -> nat * A;
  wc_write_ok a : wc_ok a -> bytes_ok (wc_write a);
  wc_nonempty a : wc_ok a -> (0 < length (wc_write a))%nat;
  wc_roundtrip a rest : wc_ok a -> bytes_ok rest ->
    wc_read (wc_write a ++ rest) = (length (wc_write a), a)
}.

Lemma ParseVarInt_WriteVarInt v rest : is_u64 v -> bytes_ok rest ->
  ParseVarInt (WriteVarInt v ++ rest) = (length (WriteVarInt v), v).
Proof.
  intros Hv Hr. apply ParseVarInt_of_spec; [|rewrite length_WriteVarInt by done; by apply varint_size_u64|done|].
  - apply bytes_ok_app; auto with dv.
  - rewrite <- (app_nil_r (WriteVarInt v)) at 1. by apply WriteVarInt_loop_spec, is_u64_128.
Qed.

Lemma length_WriteVarInt_pos v : is_u64 v -> (0 < length (WriteVarInt v))%nat.
Proof. intros. rewrite length_WriteVarInt by done. apply varint_size_pos. Qed.

#[export, refine] Instance varint_codec : WireCodec Z := {
  wc_ok := is_u64; wc_write := WriteVarInt; wc_read := ParseVarInt }.
Proof. exact WriteVarInt_ok. exact length_WriteVarInt_pos. exact ParseVarInt_WriteVarInt. Defined.

(** ** Properties *)

(** A varint written by [WriteVarInt] is read back by [ParseVarInt] as the
    same 64-bit value, consuming exactly the octets written, whatever follows
    it in the buffer; the encoding takes between 1 and 10 octets, and at most
    [kMaxTagEncodedSize] (5) for 32-bit values. *)
Theorem varint_roundtrip v rest :
  is_u64 v -> bytes_ok rest ->
  ParseVarInt (WriteVarInt v ++ rest) = (length (WriteVarInt v), v) /\
  (1 <= length (WriteVarInt v) <= 10)%nat /\
  (is_u32 v -> (length (WriteVarInt v) <= kMaxTagEncodedSize)%nat).
Proof.
  intros Hv Hr. split; [by apply ParseVarInt_WriteVarInt|].
  rewrite length_WriteVarInt by done. split; [|apply varint_size_u32].
  pose proof (varint_size_pos v). pose proof (varint_size_u64 v Hv). lia.
Qed.

Lemma varint_roundtrip_witness :
  ParseVarInt (WriteVarInt 300 ++ [7]) = (2%nat, 300).
Proof.
  apply (varint_roundtrip 300 [7]); [unfold_u; lia|].
  repeat constructor; unfold_u; lia.
Defined.

(** C35: [ParseVarInt] computes exactly the base-128 value of the first varint
    of the buffer reduced to 64 bits, provided its terminating octet is among
    the first ten; in every other case it reports failure (the start pointer
    and 0). *)
Theorem ParseVarInt_is_spec l :
  bytes_ok l ->
  ParseVarInt l =
    match varint_spec (take 10 l) with
    | Some (m, v) => (m, u64 v)
    | None => (0%nat, 0)
    end.
Proof. exact (ParseVarInt_eq l). Qed.

Lemma ParseVarInt_is_spec_witness :
  ParseVarInt [0x96; 0x01; 0x05] = (2%nat, 150) /\ ParseVarInt [0x96] = (0%nat, 0).
Proof.
  split.
  - rewrite (ParseVarInt_is_spec [0x96; 0x01; 0x05]); [reflexivity|].
    repeat constructor; unfold_u; lia.
  - rewrite (ParseVarInt_is_spec [0x96]); [reflexivity|].
    repeat constructor; unfold_u; lia.
Defined.

(** A length backfilled with [WriteRedundantVarInt] into a field of [size]
    octets occupies exactly those octets and decodes to the length, for every
    length that fits in [7 * size] bits. *)
Theorem redundant_varint_roundtrip v size rest :
  (0 < size <= 10)%nat -> is_u32 v -> v < 128 ^ Z.of_nat size -> bytes_ok rest ->
  length (WriteRedundantVarInt v size) = size /\
  ParseVarInt (WriteRedundantVarInt v size ++ rest) = (size, v).
Proof.
  intros Hs Hv Hb Hr. split; [apply length_WriteRedundantVarInt|].
  rewrite <- (length_WriteRedundantVarInt v size) at 2.
  apply ParseVarInt_of_spec; rewrite ?length_WriteRedundantVarInt; auto with dv; [|lia|].
  - apply bytes_ok_app. split; [apply WriteRedundantVarInt_ok; unfold_u; lia|done].
  - apply WriteRedundantVarInt_spec; unfold_u; lia.
Qed.

Lemma redundant_varint_roundtrip_witness :
  ParseVarInt (WriteRedundantVarInt 1 kMessageLengthFieldSize ++ [9]) = (4%nat, 1).
Proof.
  apply (redundant_varint_roundtrip 1 4 [9]); [lia|unfold_u; lia|lia|].
  repeat constructor; unfold_u; lia.
Defined.

(** Zig-zag encoding is a bijection between the signed and the unsigned
    integers of each width, and the C entry points of pb_utils.h are the 32-
    and 64-bit instances of the templates of proto_utils.h. *)
Theorem zigzag_bijection w v u :
  w = 32 \/ w = 64 -> - 2 ^ (w - 1) <= v < 2 ^ (w - 1) -> 0 <= u < 2 ^ w ->
  0 <= ZigZagEncode w v < 2 ^ w /\ ZigZagDecode w (ZigZagEncode w v) = v /\
  ZigZagEncode w (ZigZagDecode w u) = u /\
  DejaViewPbZigZagEncode32 v = ZigZagEncode 32 v /\
  DejaViewPbZigZagEncode64 v = ZigZagEncode 64 v /\
  (w = 32 -> DejaViewPbZigZagDecode32 u = ZigZagDecode 32 u) /\
  DejaViewPbZigZagDecode64 u = ZigZagDecode 64 u.
Proof.
  intros Hw Hv Hu. assert (1 < w) by lia.
  split; [by apply ZigZagEncode_range|].
  split; [by apply ZigZagDecode_Encode|]. split; [by apply ZigZagEncode_Decode|].
  split; [done|]. split; [done|].
  unfold DejaViewPbZigZagDecode32, DejaViewPbZigZagDecode64, ZigZagDecode.
  split; [intros ->; by rewrite (Z.mod_small u) by lia|].
  rewrite (Z.mod_small u); [done|]. destruct Hw as [-> | ->]; lia.
Qed.

Lemma zigzag_bijection_witness :
  ZigZagDecode 32 (ZigZagEncode 32 (-3)) = -3 /\ ZigZagEncode 32 (-3) = 5.
Proof.
  split; [|reflexivity].
  apply (zigzag_bijection 32 (-3) 0); lia.
Defined.
