(* ===== verification/ProtoDecoder.v ===== *)
(** * The protozero decoders

    Models src/protozero/proto_decoder.cc, src/protozero/field.cc and the
    classes of include/dejaview/protozero/{field,proto_decoder}.h.  A decoder
    works on one buffer, here the list of its octets; a pointer into it is an
    offset, so [begin_] is 0 and [end_] the length.  [Field.int_value_] of a
    length-delimited field, the address of the payload in the source, is the
    payload's offset. *)

From S2P Require Import Prelude ProtoUtils.

(** ** Fields *)

Record Field := mkField {
  id_ : Z;          (* 24 bits *)
  type_ : Z;        (* 8 bits *)
  int_value_ : Z;   (* 64 bits *)
  fsize_ : Z        (* size_, 32 bits *)
}.

#[export] Instance Field_eq_dec : EqDecision Field.
Proof. solve_decision. Defined.

Definition zero_field : Field := mkField 0 0 0 0.
Definition kMaxId : Z := (1 << 24) - 1.

Definition valid (f : Field) : bool := negb (id_ f =? 0).

Definition Field_initialize (id type int_value size : Z) : Field :=
  mkField (id .& kMaxId) type int_value size.

Definition as_bool (f : Field) : bool := negb (int_value_ f =? 0).
Definition as_uint32 (f : Field) : Z := u32 (int_value_ f).
Definition as_int32 (f : Field) : Z := s32 (int_value_ f).
Definition as_sint32 (f : Field) : Z := ZigZagDecode 32 (u32 (int_value_ f)).
Definition as_uint64 (f : Field) : Z := int_value_ f.
Definition as_int64 (f : Field) : Z := s64 (int_value_ f).
Definition as_sint64 (f : Field) : Z := ZigZagDecode 64 (u64 (int_value_ f)).

(** [as_bytes]: the payload inside the buffer the field was read from. *)
Definition as_bytes (mem : list Z) (f : Field) : list Z :=
  take (Z.to_nat (fsize_ f)) (drop (Z.to_nat (int_value_ f)) mem).

(** [SerializeAndAppendTo]: what is appended to [dst]; [None] is the FATAL of
    an unknown field type. *)
Definition SerializeAndAppendToInternal (mem : list Z) (f : Field) : option (list Z) :=
  match wire_type_of_num (type_ f) with
  | Some kVarInt =>
      Some (WriteVarInt (MakeTagVarInt (id_ f)) ++ WriteVarInt (int_value_ f))
  | Some kFixed32 =>
      Some (WriteVarInt (MakeTagFixed 4 (id_ f)) ++ le_bytes 4 (u32 (int_value_ f)))
  | Some kFixed64 =>
      Some (WriteVarInt (MakeTagFixed 8 (id_ f)) ++ le_bytes 8 (int_value_ f))
  | Some kLengthDelimited =>
      Some (WriteVarInt (MakeTagLengthDelimited (id_ f))
              ++ WriteVarInt (fsize_ f) ++ as_bytes mem f)
  | None => None
  end.

(** ** One field *)

Inductive ParseResult := kAbort | kSkip | kOk.

#[export] Instance ParseResult_eq_dec : EqDecision ParseResult.
Proof. solve_decision. Defined.

Record ParseFieldResult := mkParse {
  parse_res : ParseResult;
  next : nat;
  field : Field
}.

(** The [switch] on the field type: the new position, [int_value] and [size],
    or nothing when the field does not fit in the buffer. *)
Definition ParseFieldPayload (mem : list Z) (pos : nat) (field_type : Z) : option (nat * Z * Z) :=
  match wire_type_of_num field_type with
  | Some kVarInt =>
      let '(n, int_value) := ParseVarInt (drop pos mem) in
      if decide (n = 0%nat) then None else Some ((pos + n)%nat, int_value, 0)
  | Some kLengthDelimited =>
      let '(n, payload_length) := ParseVarInt (drop pos mem) in
      if decide (n = 0%nat) then None
      else
        let new_pos := (pos + n)%nat in
        if Z.of_nat (length mem - new_pos) <? payload_length then None
        else Some ((new_pos + Z.to_nat payload_length)%nat, Z.of_nat new_pos, payload_length)
  | Some kFixed64 =>
      if (length mem <? pos + 8)%nat then None
      else Some ((pos + 8)%nat, le_val (take 8 (drop pos mem)), 0)
  | Some kFixed32 =>
      if (length mem <? pos + 4)%nat then None
      else Some ((pos + 4)%nat, le_val (take 4 (drop pos mem)), 0)
  | None => None
  end.

Definition ParseOneField (mem : list Z) (buffer : nat) : ParseFieldResult :=
  let abort := mkParse kAbort buffer zero_field in
  match drop buffer mem with
  | [] => abort
  | b :: _ =>
      let '(n, preamble) :=
        if b <? 0x80 then (1%nat, b) else ParseVarInt (drop buffer mem) in
      if decide (n = 0%nat) then abort
      else
        let pos := (buffer + n)%nat in
        let field_id := u32 (preamble >> 3) in
        if (field_id =? 0) || (length mem <=? pos)%nat then abort
        else
          let field_type := u8 (preamble .& 7) in
          match ParseFieldPayload mem pos field_type with
          | None => abort
          | Some (new_pos, int_value, size) =>
              if kMaxId <? field_id then mkParse kSkip new_pos zero_field
              else if kMaxMessageLength <? size then mkParse kSkip new_pos zero_field
              else mkParse kOk new_pos
                     (Field_initialize field_id field_type int_value (u32 size))
          end
  end.

(** ** ProtoDecoder: sequential reads *)

(** [ReadField] from cursor [read_ptr]: the field and the new cursor.  Every
    skipped field moves the cursor, so the buffer's length bounds the loop. *)
Fixpoint ReadField_loop (fuel : nat) (mem : list Z) (read_ptr : nat) : Field * nat :=
  match fuel with
  | O => (zero_field, read_ptr)
  | S fuel =>
      let res := ParseOneField mem read_ptr in
      if decide (parse_res res = kSkip) then ReadField_loop fuel mem (next res)
      else (field res, next res)
  end.

Definition ReadField (mem : list Z) (read_ptr : nat) : Field * nat :=
  ReadField_loop (S (length mem)) mem read_ptr.

(** The idiom [for (f = ReadField(); f.valid(); f = ReadField())]. *)
Fixpoint ReadAllFields_loop (fuel : nat) (mem : list Z) (read_ptr : nat) : list Field :=
  match fuel with
  | O => []
  | S fuel =>
      let '(f, rp) := ReadField mem read_ptr in
      if valid f then f :: ReadAllFields_loop fuel mem rp else []
  end.

Definition ReadAllFields (mem : list Z) : list Field :=
  ReadAllFields_loop (S (length mem)) mem 0.

(** [FindField] restarts from the beginning and leaves the cursor alone. *)
Fixpoint FindField_loop (fuel : nat) (mem : list Z) (read_ptr : nat) (field_id : Z) : Field :=
  match fuel with
  | O => zero_field
  | S fuel =>
      let '(f, rp) := ReadField mem read_ptr in
      if valid f then
        if id_ f =? field_id then f else FindField_loop fuel mem rp field_id
      else zero_field
  end.

Definition FindField (mem : list Z) (field_id : Z) : Field :=
  FindField_loop (S (length mem)) mem 0 field_id.

(** ** TypedProtoDecoder: all fields upfront *)

(** [fields_] lists the [size_] active entries of the storage, which has room for
    [capacity_]. *)
Record TypedDecoder := mkTyped {
  fields_ : list Field;
  num_fields_ : Z;
  capacity_ : Z
}.

Definition size_ (d : TypedDecoder) : Z := Z.of_nat (length (fields_ d)).

Definition PROTOZERO_DECODER_INITIAL_STACK_CAPACITY : Z := 100.

Definition TypedProtoDecoderBase (num_fields capacity : Z) : TypedDecoder :=
  mkTyped (replicate (Z.to_nat (Z.min num_fields (capacity - 1))) zero_field)
          num_fields capacity.

(** [None] is a failed DEJAVIEW_CHECK. *)
Definition ExpandHeapStorage (d : TypedDecoder) : option TypedDecoder :=
  let min_capacity := u32 (num_fields_ d + 2048) in
  let new_capacity := Z.max (u32 (capacity_ d * 2)) min_capacity in
  if (size_ d <? new_capacity) && (num_fields_ d <? new_capacity) then
    let new_size := Z.max (size_ d) (num_fields_ d) in
    Some (mkTyped (fields_ d ++ replicate (Z.to_nat (new_size - size_ d)) zero_field)
                  (num_fields_ d) new_capacity)
  else None.

(** The body of the loop of [ParseAllFields] for a field parsed [kOk]; [None] is a failed
    CHECK or DCHECK, among them that a value is only pushed into storage that is left. *)
Definition AddParsedField (d : TypedDecoder) (f : Field) : option TypedDecoder :=
  let field_id := id_ f in
  if num_fields_ d <=? field_id then Some d
  else
    d ← (if (size_ d <=? field_id) || (capacity_ d <=? size_ d)
         then ExpandHeapStorage d else Some d);
    let i := Z.to_nat field_id in
    match fields_ d !! i with
    | None => None
    | Some fld =>
        if negb (valid fld) then
          Some (mkTyped (<[i := f]> (fields_ d)) (num_fields_ d) (capacity_ d))
        else
          d ← (if size_ d <? num_fields_ d then ExpandHeapStorage d else Some d);
          if size_ d <? capacity_ d then
            Some (mkTyped (<[i := f]> (fields_ d ++ [fld])) (num_fields_ d) (capacity_ d))
          else None
    end.

(** The decoder and the final [read_ptr_]; out of fuel is [None]. *)
Fixpoint ParseAllFields_loop (fuel : nat) (mem : list Z) (cur : nat) (d : TypedDecoder)
    : option (TypedDecoder * nat) :=
  match fuel with
  | O => None
  | S fuel =>
      let res := ParseOneField mem cur in
      match parse_res res with
      | kSkip => ParseAllFields_loop fuel mem (next res) d
      | kAbort => Some (d, next res)
      | kOk =>
          if negb (next res =? cur)%nat && valid (field res) then
            d ← AddParsedField d (field res);
            ParseAllFields_loop fuel mem (next res) d
          else None
      end
  end.

Definition TypedProtoDecoder (max_field_id : Z) (mem : list Z) : option (TypedDecoder * nat) :=
  ParseAllFields_loop (S (length mem)) mem 0
    (TypedProtoDecoderBase (max_field_id + 1) PROTOZERO_DECODER_INITIAL_STACK_CAPACITY).

(** [Get]: the index of the slot, and the slot. *)
Definition Get_index (d : TypedDecoder) (id : Z) : nat :=
  if (id <? num_fields_ d) && (id <? size_ d) then Z.to_nat id else 0%nat.

Definition Get (d : TypedDecoder) (id : Z) : Field :=
  default zero_field (fields_ d !! Get_index d id).

(** ** RepeatedFieldIterator *)

(** Pointers into the storage are indices; [end_] is [size_]. [None] is a failed DCHECK or
    a read outside the storage. *)
Record RepeatedFieldIterator := mkIter { rfi_id : Z; rfi_iter : nat; rfi_end : nat; rfi_last : nat }.

Fixpoint FindNextMatchingId_loop (n : nat) (fs : list Field) (id : Z) (iter : nat) : option (option nat) :=
  match n with
  | O => Some None
  | S n =>
      f ← fs !! iter;
      if id_ f =? id then Some (Some iter) else FindNextMatchingId_loop n fs id (S iter)
  end.

Definition FindNextMatchingId (fs : list Field) (it : RepeatedFieldIterator) : option RepeatedFieldIterator :=
  if decide (rfi_iter it = rfi_last it) then None
  else
    found ← FindNextMatchingId_loop (rfi_end it - rfi_iter it) fs (rfi_id it) (rfi_iter it);
    iter ← match found with
           | Some i => Some i
           | None => last ← fs !! rfi_last it; Some (if valid last then rfi_last it else rfi_end it)
           end;
    Some (mkIter (rfi_id it) iter (rfi_end it) (rfi_last it)).

Definition GetRepeated (d : TypedDecoder) (field_id : Z) : option RepeatedFieldIterator :=
  let repeated_begin :=
    if num_fields_ d <? size_ d then Z.to_nat (num_fields_ d) else length (fields_ d) in
  FindNextMatchingId (fields_ d)
    (mkIter field_id repeated_begin (length (fields_ d)) (Get_index d field_id)).

(** [operator++]. *)
Definition iter_incr (fs : list Field) (it : RepeatedFieldIterator) : option RepeatedFieldIterator :=
  if decide (rfi_iter it = rfi_end it) then None
  else if decide (rfi_iter it = rfi_last it) then
    Some (mkIter (rfi_id it) (rfi_end it) (rfi_end it) (rfi_last it))
  else FindNextMatchingId fs (mkIter (rfi_id it) (S (rfi_iter it)) (rfi_end it) (rfi_last it)).

(** [for (it = GetRepeated(id); it; ++it)]. *)
Fixpoint iter_collect (fuel : nat) (fs : list Field) (it : RepeatedFieldIterator) : option (list Field) :=
  match fuel with
  | O => None
  | S fuel =>
      if decide (rfi_iter it = rfi_end it) then Some []
      else
        f ← fs !! rfi_iter it;
        it ← iter_incr fs it;
        rest ← iter_collect fuel fs it;
        Some (f :: rest)
  end.

Definition RepeatedFields (d : TypedDecoder) (field_id : Z) : option (list Field) :=
  it ← GetRepeated d field_id;
  iter_collect (S (S (length (fields_ d)))) (fields_ d) it.

(** ** Bounds of the parser *)

Section bounds.
Context (mem : list Z) (Hmem : bytes_ok mem).

(** A parsed payload lies inside the buffer and the cursor advances. *)
Lemma ParseFieldPayload_bounds pos t np iv sz :
  (pos <= length mem)%nat ->
  ParseFieldPayload mem pos t = Some (np, iv, sz) ->
  (pos < np <= length mem)%nat /\ 0 <= sz <= Z.of_nat (length mem) /\ 0 <= iv /\
  (t <> 2 -> sz = 0) /\ (t = 2 -> iv + sz = Z.of_nat np /\ Z.of_nat pos <= iv).
Proof.
  intros Hp H. unfold ParseFieldPayload, wire_type_of_num in H.
  assert (Hle : forall k, 0 <= le_val (take k (drop pos mem))).
  { intros k. generalize (bytes_ok_take k _ (bytes_ok_drop pos _ Hmem)).
    induction 1 as [|b l Hb _ IH]; simpl; [lia|].
    apply Z.lor_nonneg. rewrite Z.shiftl_nonneg. unfold_u. lia. }
  destruct (ParseVarInt (drop pos mem)) as [n v] eqn:E.
  apply ParseVarInt_bounds in E as (E1 & _ & E3); [|by apply bytes_ok_drop].
  rewrite length_drop in E1.
  repeat (case_match; simplify_eq/=);
    repeat match goal with
      | H : (_ =? _) = true |- _ => apply Z.eqb_eq in H
      | H : (_ =? _) = false |- _ => apply Z.eqb_neq in H
      | H : (_ <? _) = false |- _ => apply Z.ltb_ge in H
      | H : (_ <? _)%nat = false |- _ => apply Nat.ltb_ge in H
    end; pose proof (Hle 8%nat); pose proof (Hle 4%nat); unfold_u; lia.
Qed.

Lemma ParseOneField_spec buffer res :
  ParseOneField mem buffer = res ->
  (parse_res res = kAbort -> next res = buffer) /\
  (parse_res res <> kOk -> field res = zero_field) /\
  (parse_res res <> kAbort -> (buffer < next res <= length mem)%nat) /\
  (parse_res res = kOk -> 0 < id_ (field res) <= kMaxId) /\
  (parse_res res = kOk -> type_ (field res) = 2 ->
     Z.of_nat buffer < int_value_ (field res) /\
     int_value_ (field res) + fsize_ (field res) = Z.of_nat (next res)).
Proof.
  intros <-. unfold ParseOneField.
  destruct (drop buffer mem) as [|b tl] eqn:Ed; [naive_solver|].
  assert (Hb : (buffer < length mem)%nat).
  { assert (length (drop buffer mem) = length (b :: tl)) as Hl by congruence.
    rewrite length_drop in Hl. simpl in Hl. lia. }
  destruct (if b <? 128 then _ else _) as [n pre] eqn:En.
  case_decide; [naive_solver|].
  destruct ((u32 (pre >> 3) =? 0) || _) eqn:Eg; [naive_solver|].
  apply orb_false_iff in Eg as [Eg1 Eg2].
  apply Z.eqb_neq in Eg1. apply Nat.leb_gt in Eg2.
  destruct (ParseFieldPayload _ _ _) as [[[np iv] sz]|] eqn:Ep; [|naive_solver].
  apply ParseFieldPayload_bounds in Ep as (Ep & Esz & _ & _ & Ed2); [|lia].
  pose proof (u32_range (pre >> 3)).
  destruct (Z.ltb_spec kMaxId (u32 (pre >> 3))) as [|Hid];
    [split_and!; simpl; intros; (done || lia)|].
  destruct (Z.ltb_spec kMaxMessageLength sz) as [|Hsz];
    [split_and!; simpl; intros; (done || lia)|].
  change kMaxMessageLength with (2 ^ 28 - 1) in Hsz.
  split_and!; simpl; intros; rewrite ?u32_id by (unfold_u; lia); try (done || lia).
  all: change kMaxId with (Z.ones 24) in *; rewrite land_ones_mod, Z.mod_small by
      (change (Z.ones 24) with (2 ^ 24 - 1) in *; unfold_u; lia); unfold_u; lia.
Qed.

Lemma ParseOneField_kOk_valid buffer :
  parse_res (ParseOneField mem buffer) = kOk -> valid (field (ParseOneField mem buffer)) = true.
Proof.
  intros H. destruct (ParseOneField_spec buffer _ eq_refl) as (_ & _ & _ & Hid & _).
  specialize (Hid H). unfold valid. rewrite (proj2 (Z.eqb_neq _ _)) by lia. done.
Qed.

(** All the fields from a cursor on, by repeated [ParseOneField]. *)
Fixpoint all_fields (fuel : nat) (cur : nat) : list Field :=
  match fuel with
  | O => []
  | S fuel =>
      let res := ParseOneField mem cur in
      match parse_res res with
      | kSkip => all_fields fuel (next res)
      | kAbort => []
      | kOk => field res :: all_fields fuel (next res)
      end
  end.

Lemma all_fields_fuel f1 f2 cur :
  (length mem - cur < f1)%nat -> (length mem - cur < f2)%nat ->
  all_fields f1 cur = all_fields f2 cur.
Proof.
  revert f2 cur; induction f1 as [|f1 IH]; intros [|f2] cur H1 H2; try lia. simpl.
  destruct (ParseOneField_spec cur _ eq_refl) as (_ & _ & Hn & _ & _).
  destruct (parse_res _) eqn:E; [done| |f_equal]; apply IH; specialize (Hn ltac:(done)); lia.
Qed.

(** [ReadField] skips the fields that are too big and stops at the first
    other one. *)
Lemma ReadField_loop_spec fuel cur :
  (length mem - cur < fuel)%nat ->
  let '(f, rp) := ReadField_loop fuel mem cur in
  (valid f = true -> (cur < rp <= length mem)%nat /\
     forall k, (length mem - cur < k)%nat -> all_fields k cur = f :: all_fields k rp) /\
  (valid f = false -> forall k, all_fields k cur = []).
Proof.
  revert cur; induction fuel as [|fuel IH]; intros cur Hf; [lia|].
  cbn [ReadField_loop]. destruct (ParseOneField_spec cur _ eq_refl) as (Ha & Hz & Hn & Hid & _).
  case_decide as Hs.
  - rewrite Hs in Hn. specialize (Hn ltac:(done)).
    specialize (IH (next (ParseOneField mem cur)) ltac:(lia)).
    destruct (ReadField_loop fuel mem _) as [f rp]. destruct IH as [IH1 IH2]. split.
    + intros Hv. destruct (IH1 Hv) as [Hr IH1']. split; [lia|].
      intros [|k] Hk; [lia|]. cbn [all_fields]. rewrite Hs, IH1' by lia.
      f_equal. cbn [all_fields]. apply (all_fields_fuel k (S k)); lia.
    + intros Hv [|k]; [done|]. cbn [all_fields]. rewrite Hs. by apply IH2.
  - destruct (parse_res (ParseOneField mem cur)) eqn:E; [| done |].
    + rewrite Hz by done. split; [done|]. intros _ [|k]; [done|]. cbn [all_fields]. by rewrite E.
    + specialize (Hn ltac:(done)). split.
      * intros _. split; [done|]. intros [|k] Hk; [lia|]. cbn [all_fields]. rewrite E.
        f_equal. apply (all_fields_fuel k (S k)); lia.
      * rewrite (ParseOneField_kOk_valid _ E). done.
Qed.

Lemma ReadAllFields_loop_eq fuel k cur :
  (length mem - cur < fuel)%nat -> (length mem - cur < k)%nat ->
  ReadAllFields_loop fuel mem cur = all_fields k cur.
Proof.
  revert cur; induction fuel as [|fuel IH]; intros cur Hf Hk; [lia|].
  cbn [ReadAllFields_loop]. unfold ReadField.
  pose proof (ReadField_loop_spec (S (length mem)) cur ltac:(lia)) as H.
  destruct (ReadField_loop _ mem cur) as [f rp]. destruct H as [H1 H2].
  destruct (valid f); [|by rewrite H2].
  destruct (H1 eq_refl) as [Hr H1']. rewrite H1' by done. f_equal. apply IH; lia.
Qed.

Lemma FindField_loop_eq fuel cur id :
  (length mem - cur < fuel)%nat ->
  FindField_loop fuel mem cur id =
    default zero_field (head (filter (fun f => id_ f = id) (all_fields fuel cur))).
Proof.
  intros Hf. rewrite <- (ReadAllFields_loop_eq fuel fuel cur Hf Hf). clear Hf.
  revert cur; induction fuel as [|fuel IH]; intros cur; [done|].
  cbn [ReadAllFields_loop FindField_loop]. destruct (ReadField mem cur) as [f rp].
  destruct (valid f); [|done]. rewrite filter_cons.
  destruct (Z.eqb_spec (id_ f) id); case_decide; done.
Qed.
End bounds.

(** ** The abstract content of a message: its list of wire fields *)

Inductive wire_field :=
  | WVarInt (id v : Z)
  | WFixed32 (id v : Z)
  | WFixed64 (id v : Z)
  | WBytes (id : Z) (payload : list Z).

Definition wf_id (w : wire_field) : Z :=
  match w with WVarInt id _ | WFixed32 id _ | WFixed64 id _ | WBytes id _ => id end.

Definition wf_ok (w : wire_field) : Prop :=
  0 < wf_id w <= kMaxId /\
  match w with
  | WVarInt _ v | WFixed64 _ v => is_u64 v
  | WFixed32 _ v => is_u32 v
  | WBytes _ p => bytes_ok p /\ Z.of_nat (length p) <= kMaxMessageLength
  end.

Definition encode_field (w : wire_field) : list Z :=
  match w with
  | WVarInt id v => WriteVarInt (MakeTagVarInt id) ++ WriteVarInt v
  | WFixed32 id v => WriteVarInt (MakeTagFixed 4 id) ++ le_bytes 4 v
  | WFixed64 id v => WriteVarInt (MakeTagFixed 8 id) ++ le_bytes 8 v
  | WBytes id p => WriteVarInt (MakeTagLengthDelimited id) ++ WriteVarInt (Z.of_nat (length p)) ++ p
  end.

(** The abstract field a decoded [Field] of a buffer stands for. *)
Definition view (mem : list Z) (f : Field) : option wire_field :=
  match wire_type_of_num (type_ f) with
  | Some kVarInt => Some (WVarInt (id_ f) (int_value_ f))
  | Some kFixed32 => Some (WFixed32 (id_ f) (u32 (int_value_ f)))
  | Some kFixed64 => Some (WFixed64 (id_ f) (int_value_ f))
  | Some kLengthDelimited => Some (WBytes (id_ f) (as_bytes mem f))
  | None => None
  end.

Lemma ParseVarInt_one b l : 0 <= b < 128 -> ParseVarInt (b :: l) = (1%nat, b).
Proof.
  intros. unfold ParseVarInt. cbn [ParseVarInt_loop].
  rewrite land_7f, land_80_small, Z.mod_small by lia.
  rewrite Z.shiftl_0_r, Z.lor_0_l, u64_id by (unfold_u; lia). done.
Qed.

(** The fast path of the preamble agrees with the general one. *)
Lemma preamble_fastpath b l : 0 <= b ->
  (if b <? 0x80 then (1%nat, b) else ParseVarInt (b :: l)) = ParseVarInt (b :: l).
Proof. intros. destruct (Z.ltb_spec b 0x80); [|done]. by rewrite ParseVarInt_one by lia. Qed.

Definition wf_type (w : wire_field) : ProtoWireType :=
  match w with
  | WVarInt _ _ => kVarInt | WFixed32 _ _ => kFixed32
  | WFixed64 _ _ => kFixed64 | WBytes _ _ => kLengthDelimited
  end.

Definition wf_body (w : wire_field) : list Z :=
  match w with
  | WVarInt _ v => WriteVarInt v
  | WFixed32 _ v => le_bytes 4 v
  | WFixed64 _ v => le_bytes 8 v
  | WBytes _ p => WriteVarInt (Z.of_nat (length p)) ++ p
  end.

Lemma encode_field_eq w :
  encode_field w = WriteVarInt (u32 (wf_id w << 3) .| wire_type_num (wf_type w)) ++ wf_body w.
Proof. by destruct w. Qed.

Lemma kMaxMessageLength_u32 z : 0 <= z <= kMaxMessageLength -> is_u32 z /\ is_u64 z.
Proof. change kMaxMessageLength with (2 ^ 28 - 1). unfold_u. lia. Qed.

Lemma wf_body_ok w : wf_ok w -> bytes_ok (wf_body w).
Proof.
  intros [_ H]. destruct w; cbn [wf_body] in *; auto with dv. destruct H as [H1 H2].
  apply bytes_ok_app. split; [|done]. apply WriteVarInt_ok, kMaxMessageLength_u32. lia.
Qed.

Lemma wf_tag w : wf_ok w ->
  let tag := u32 (wf_id w << 3) .| wire_type_num (wf_type w) in
  is_u32 tag /\ tag >> 3 = wf_id w /\ wire_type_of_num (tag .& 7) = Some (wf_type w) /\
  u8 (tag .& 7) = wire_type_num (wf_type w).
Proof.
  intros [H _]. change kMaxId with (2 ^ 24 - 1) in H. cbv zeta.
  destruct (tag_split (wf_id w) (wf_type w)) as (H1 & H2 & H3); [lia|].
  split_and!; try done. rewrite tag_arith, land_7 by lia.
  destruct (wf_type w); cbn [wire_type_num]; divlia.
Qed.

Lemma encode_field_ok w : wf_ok w -> bytes_ok (encode_field w).
Proof.
  intros H. rewrite encode_field_eq. apply bytes_ok_app.
  split; [apply WriteVarInt_ok, is_u32_u64, wf_tag; done|by apply wf_body_ok].
Qed.

(** Parsing the body of an encoded field that starts at [pos]. *)
Lemma ParseFieldPayload_body mem pos w post :
  wf_ok w -> bytes_ok post -> drop pos mem = wf_body w ++ post -> (pos <= length mem)%nat ->
  exists iv sz,
    ParseFieldPayload mem pos (wire_type_num (wf_type w)) =
      Some ((pos + length (wf_body w))%nat, iv, sz) /\
    0 <= sz <= kMaxMessageLength /\
    view mem (mkField (wf_id w) (wire_type_num (wf_type w)) iv (u32 sz)) = Some w /\
    SerializeAndAppendToInternal mem
      (mkField (wf_id w) (wire_type_num (wf_type w)) iv (u32 sz)) = Some (encode_field w).
Proof.
  intros [Hid Hw] Hpost Hd Hp.
  assert (Hlen : length mem = (pos + length (wf_body w) + length post)%nat).
  { apply (f_equal length) in Hd. rewrite length_drop, length_app in Hd. lia. }
  unfold ParseFieldPayload, view, SerializeAndAppendToInternal. cbn [type_]. rewrite Hd, wire_type_of_num_num.
  destruct w as [id v|id v|id v|id p]; cbn [wf_body wf_type wf_id] in *.
  - rewrite ParseVarInt_WriteVarInt by done.
    rewrite decide_False by (pose proof (length_WriteVarInt_pos v Hw); lia).
    exists v, 0. split_and!; (done || lia).
  - rewrite length_le_bytes in *. rewrite (proj2 (Nat.ltb_ge _ _)) by lia.
    exists v, 0. rewrite take_app_le by (rewrite length_le_bytes; lia).
    rewrite (take_ge (le_bytes 4 v)) by (rewrite length_le_bytes; lia).
    rewrite le_val_bytes, Z.mod_small by (unfold_u; lia).
    cbn [id_ int_value_]. rewrite u32_id by done. split_and!; (done || lia).
  - rewrite length_le_bytes in *. rewrite (proj2 (Nat.ltb_ge _ _)) by lia.
    exists v, 0. rewrite take_app_le by (rewrite length_le_bytes; lia).
    rewrite (take_ge (le_bytes 8 v)) by (rewrite length_le_bytes; lia).
    rewrite le_val_bytes, Z.mod_small by (unfold_u; lia).
    split_and!; (done || lia).
  - destruct Hw as [Hpb Hpl].
    destruct (kMaxMessageLength_u32 (Z.of_nat (length p))) as [H32 H64]; [lia|].
    rewrite <- app_assoc, ParseVarInt_WriteVarInt by (try done; by apply bytes_ok_app).
    rewrite decide_False by (pose proof (length_WriteVarInt_pos _ H64); lia).
    rewrite length_app in *. rewrite (proj2 (Z.ltb_ge _ _)) by lia.
    eexists _, _. split; [f_equal; f_equal; f_equal; lia|]. split; [lia|].
    unfold as_bytes. cbn [id_ int_value_ fsize_]. rewrite u32_id, !Nat2Z.id by done.
    rewrite <- drop_drop, Hd, <- app_assoc, drop_app_len, take_app_len. done.
Qed.

(** An encoded field anywhere in a buffer is parsed back to itself. *)
Lemma ParseOneField_encode pre w post :
  wf_ok w -> bytes_ok post ->
  let mem := pre ++ encode_field w ++ post in
  exists f, ParseOneField mem (length pre) = mkParse kOk (length pre + length (encode_field w)) f /\
    view mem f = Some w /\ SerializeAndAppendToInternal mem f = Some (encode_field w).
Proof.
  intros Hw Hpost mem. pose proof (wf_tag w Hw) as (Ht1 & Ht2 & Ht3 & Ht4).
  pose proof (wf_body_ok w Hw) as Hbody. unfold ParseOneField.
  assert (Hd : drop (length pre) mem =
    WriteVarInt (u32 (wf_id w << 3) .| wire_type_num (wf_type w)) ++ wf_body w ++ post).
  { unfold mem. rewrite drop_app_len, encode_field_eq, <- app_assoc. done. }
  set (tag := u32 (wf_id w << 3) .| wire_type_num (wf_type w)) in *.
  assert (Hbo : bytes_ok (wf_body w ++ post)) by by apply bytes_ok_app.
  pose proof (length_WriteVarInt_pos tag (is_u32_u64 _ Ht1)) as Hpos.
  assert (Hm : length mem = (length pre + length (WriteVarInt tag) + length (wf_body w) + length post)%nat).
  { unfold mem. rewrite encode_field_eq. fold tag. rewrite !length_app. lia. }
  assert (Hbp : (0 < length (wf_body w))%nat).
  { destruct Hw as [_ Hw]. destruct w; cbn [wf_body]; rewrite ?length_app, ?length_le_bytes;
      try lia; try (by apply length_WriteVarInt_pos).
    pose proof (length_WriteVarInt_pos (Z.of_nat (length payload))
      ltac:(apply kMaxMessageLength_u32; lia)). lia. }
  pose proof (WriteVarInt_ok _ (is_u32_u64 _ Ht1)) as Hwok.
  pose proof (ParseVarInt_WriteVarInt tag _ (is_u32_u64 _ Ht1) Hbo) as Hpv.
  rewrite <- Hd in Hpv.
  destruct (drop (length pre) mem) as [|b tl] eqn:Edrop.
  { apply (f_equal length) in Hd. rewrite length_app in Hd. simpl in Hd. lia. }
  assert (Hb : 0 <= b).
  { destruct (WriteVarInt tag) as [|b' ?]; [simpl in Hpos; lia|].
    simplify_eq/=. inversion Hwok as [|?? Hb' ?]; subst. unfold_u; lia. }
  rewrite preamble_fastpath, Hpv by done.
  rewrite decide_False by lia. rewrite Ht2.
  destruct Hw as [Hid Hw]. change kMaxId with (2 ^ 24 - 1) in Hid.
  rewrite u32_id by (unfold_u; lia).
  rewrite (proj2 (Z.eqb_neq _ _)), (proj2 (Nat.leb_gt _ _)) by lia. cbn [orb].
  rewrite Ht4.
  destruct (ParseFieldPayload_body mem (length pre + length (WriteVarInt tag)) w post)
    as (iv & sz & -> & Hsz & Hview & Hser); [done|done| |lia|].
  { rewrite <- drop_drop, Edrop, Hd, drop_app_len. done. }
  change kMaxId with (2 ^ 24 - 1).
  rewrite (proj2 (Z.ltb_ge _ (wf_id w))), (proj2 (Z.ltb_ge _ sz)) by lia.
  assert (Hland : wf_id w .& kMaxId = wf_id w).
  { change kMaxId with (Z.ones 24). rewrite land_ones_mod, Z.mod_small by lia. done. }
  unfold Field_initialize. rewrite Hland.
  eexists. split; [f_equal|split; [exact Hview|exact Hser]].
  rewrite encode_field_eq. fold tag. rewrite length_app. lia.
Qed.

Lemma all_fields_encode ws pre k :
  Forall wf_ok ws ->
  let mem := pre ++ concat (map encode_field ws) in
  (length mem - length pre < k)%nat ->
  map (view mem) (all_fields mem k (length pre)) = map Some ws /\
  map (SerializeAndAppendToInternal mem) (all_fields mem k (length pre))
    = map (fun w => Some (encode_field w)) ws.
Proof.
  revert pre k; induction ws as [|w ws IH]; intros pre k Hws mem Hk.
  - assert (Hp : ParseOneField mem (length pre) = mkParse kAbort (length pre) zero_field).
    { unfold ParseOneField, mem. simpl. by rewrite app_nil_r, drop_all. }
    destruct k; [done|]. cbn [all_fields]. by rewrite Hp.
  - inversion Hws as [|?? Hw Hws']; subst.
    assert (Hb : bytes_ok (concat (map encode_field ws))).
    { clear -Hws'. induction Hws'; simpl; [constructor|]. apply bytes_ok_app.
      auto using encode_field_ok. }
    destruct (ParseOneField_encode pre w _ Hw Hb) as (f & Hp & Hv & Hs).
    destruct k as [|k]; [lia|]. cbn [all_fields].
    assert (Em : mem = (pre ++ encode_field w) ++ concat (map encode_field ws)).
    { unfold mem. simpl. by rewrite app_assoc. }
    assert (Hlt : (0 < length (encode_field w))%nat).
    { pose proof (wf_tag w Hw) as (Ht & _). rewrite encode_field_eq, length_app.
      pose proof (length_WriteVarInt_pos _ (is_u32_u64 _ Ht)). lia. }
    specialize (IH (pre ++ encode_field w) k Hws').
    rewrite <- Em, length_app in IH. unfold mem in *. simpl in *.
    rewrite Hp. cbn [parse_res map next field].
    destruct IH as [IH1 IH2]; [rewrite !length_app in *; lia|]. rewrite Hv, Hs, IH1, IH2. done.
Qed.

(** ** The typed decoder refines the list of fields *)

Section typed.
Context (n : Z) (Hn : 0 < n <= kMaxId + 1).

Abbreviation with_id id := (filter (fun f : Field => id_ f = id)).

(** Abstraction: [seen] are the fields pushed so far, in order.  Slot [id]
    holds the last one with that id, the storage after the [n] slots the
    earlier ones. *)
Record typed_rep (d : TypedDecoder) (seen : list Field) : Prop := {
  tr_num : num_fields_ d = n;
  tr_size : 0 < size_ d <= capacity_ d;
  tr_seen : size_ d <= n + Z.of_nat (length seen);
  tr_cap : capacity_ d <= n + 2048 + 2 * size_ d;
  tr_small : size_ d < n -> capacity_ d = PROTOZERO_DECODER_INITIAL_STACK_CAPACITY;
  tr_slot : forall id, 0 <= id < n ->
    default zero_field (fields_ d !! Z.to_nat id)
      = default zero_field (last (with_id id seen));
  tr_rep : forall id, 0 <= id < n ->
    with_id id (drop (Z.to_nat n) (fields_ d)) ++ option_list (last (with_id id seen))
      = with_id id seen;
  tr_ids : Forall (fun f => 0 < id_ f < n) (drop (Z.to_nat n) (fields_ d))
}.

Lemma typed_rep_init :
  typed_rep (TypedProtoDecoderBase n PROTOZERO_DECODER_INITIAL_STACK_CAPACITY) [].
Proof.
  unfold TypedProtoDecoderBase.
  split; unfold PROTOZERO_DECODER_INITIAL_STACK_CAPACITY; cbn [num_fields_ capacity_ fields_]; unfold size_; cbn [fields_];
    rewrite ?length_replicate; cbn [length]; try lia.
  - intros id Hid. apply default_lookup_replicate.
  - intros id Hid. rewrite drop_ge by (rewrite length_replicate; lia). done.
  - rewrite drop_ge by (rewrite length_replicate; lia). constructor.
Qed.

(** Growing the storage changes nothing a reader can see. *)
Lemma ExpandHeapStorage_rep d seen :
  Z.of_nat (length seen) <= kMaxMessageLength ->
  typed_rep d seen -> (size_ d < n \/ size_ d = capacity_ d) ->
  exists d', ExpandHeapStorage d = Some d' /\ typed_rep d' seen /\
    n <= size_ d' < capacity_ d'.
Proof.
  intros Hs [H1 H2 H3 H4 H5 H6 H7 H8] Hc.
  change kMaxMessageLength with (2 ^ 28 - 1) in Hs. change kMaxId with (2 ^ 24 - 1) in Hn.
  unfold ExpandHeapStorage. rewrite H1.
  assert (Hc2 : size_ d < n -> capacity_ d = 100) by exact H5.
  rewrite (u32_id (n + 2048)), (u32_id (capacity_ d * 2)) by (unfold_u; lia).
  rewrite (proj2 (Z.ltb_lt _ _)), (proj2 (Z.ltb_lt n _)) by lia. simpl.
  eexists. split; [done|].
  assert (Es : size_ (mkTyped (fields_ d ++ replicate (Z.to_nat (Z.max (size_ d) n - size_ d)) zero_field)
                 n (Z.max (capacity_ d * 2) (n + 2048))) = Z.max (size_ d) n).
  { unfold size_ at 1. cbn [fields_]. rewrite length_app, length_replicate.
    unfold size_ in *. lia. }
  split; [|rewrite Es; cbn [capacity_]; lia].
  assert (Er : drop (Z.to_nat n) (fields_ d ++ replicate (Z.to_nat (Z.max (size_ d) n - size_ d)) zero_field)
               = drop (Z.to_nat n) (fields_ d)).
  { unfold size_ in *. destruct (decide (n <= Z.of_nat (length (fields_ d)))).
    - rewrite Z.max_l, Z.sub_diag by lia. change (Z.to_nat 0) with 0%nat.
      cbn [replicate]. by rewrite app_nil_r.
    - rewrite !drop_ge; [done|lia|]. rewrite length_app, length_replicate. lia. }
  split; rewrite ?Es; cbn [num_fields_ capacity_ fields_]; rewrite ?Er; try done; try lia.
  intros id Hid. rewrite <- H6 by done. rewrite lookup_app.
  destruct (fields_ d !! Z.to_nat id) eqn:E; [done|]. apply default_lookup_replicate.
Qed.

Lemma last_snoc_filter (id : Z) (f : Field) seen :
  last (with_id id (seen ++ [f])) =
    if decide (id_ f = id) then Some f else last (with_id id seen).
Proof.
  rewrite filter_app, filter_cons, filter_nil. case_decide.
  - by rewrite last_snoc.
  - by rewrite app_nil_r.
Qed.

(** The two ways of storing a field: in its empty slot, or in its slot with
    the previous value pushed after the slots. *)
Lemma store_first d seen f :
  typed_rep d seen -> 0 < id_ f < n -> id_ f < size_ d ->
  with_id (id_ f) seen = [] ->
  typed_rep (mkTyped (<[Z.to_nat (id_ f) := f]> (fields_ d)) (num_fields_ d) (capacity_ d))
            (seen ++ [f]).
Proof.
  intros [H1 H2 H3 H4 H5 H6 H7 H8] Hid Hsz He.
  unfold size_ in *.
  assert (Er : drop (Z.to_nat n) (<[Z.to_nat (id_ f) := f]> (fields_ d)) = drop (Z.to_nat n) (fields_ d))
    by (apply drop_insert_lt; lia).
  split; unfold size_; cbn [fields_ num_fields_ capacity_];
    rewrite ?length_insert, ?length_app, ?Er; try done; try (simpl; lia).
  - intros id Hi. rewrite last_snoc_filter. case_decide as Hd.
    + subst id. by rewrite list_lookup_insert_eq by lia.
    + rewrite list_lookup_insert_ne by lia. by apply H6.
  - intros id Hi. rewrite last_snoc_filter, filter_app, filter_cons, filter_nil.
    specialize (H7 id Hi). case_decide as Hd.
    + subst id. rewrite He in H7 |- *. simpl in *. apply app_eq_nil in H7 as [-> _]. done.
    + by rewrite !app_nil_r.
Qed.

Lemma store_again d seen f fld :
  typed_rep d seen -> 0 < id_ f < n -> n <= size_ d < capacity_ d ->
  last (with_id (id_ f) seen) = Some fld ->
  typed_rep (mkTyped (<[Z.to_nat (id_ f) := f]> (fields_ d ++ [fld])) (num_fields_ d) (capacity_ d))
            (seen ++ [f]).
Proof.
  intros [H1 H2 H3 H4 H5 H6 H7 H8] Hid Hsz Hl.
  assert (Hfld : id_ fld = id_ f).
  { assert (Hin : fld ∈ with_id (id_ f) seen) by by apply last_Some_elem_of.
    by apply list_elem_of_filter in Hin as [? _]. }
  unfold size_ in *.
  assert (Er : drop (Z.to_nat n) (<[Z.to_nat (id_ f) := f]> (fields_ d ++ [fld]))
               = drop (Z.to_nat n) (fields_ d) ++ [fld]).
  { rewrite drop_insert_lt by lia. rewrite drop_app_le by lia. done. }
  split; unfold size_; cbn [fields_ num_fields_ capacity_];
    rewrite ?length_insert, ?length_app, ?Er; try done; try (simpl; lia).
  - intros id Hi. rewrite last_snoc_filter. case_decide as Hd.
    + subst id. by rewrite list_lookup_insert_eq by (rewrite length_app; simpl; lia).
    + rewrite list_lookup_insert_ne, lookup_app_l by lia. by apply H6.
  - intros id Hi. rewrite last_snoc_filter, !filter_app, !filter_cons, !filter_nil, Hfld.
    specialize (H7 id Hi). case_decide as Hd.
    + subst id. rewrite Hl in H7. simpl in *. by rewrite <- H7.
    + by rewrite !app_nil_r.
  - apply Forall_app. split; [done|]. repeat constructor; lia.
Qed.

Lemma last_with_id_valid id seen l :
  0 < id -> last (with_id id seen) = Some l -> valid l = true.
Proof.
  intros Hid Hl. apply last_Some_elem_of, list_elem_of_filter in Hl as [Hl _].
  unfold valid. rewrite Hl, (proj2 (Z.eqb_neq _ _)); [done|lia].
Qed.

Lemma AddParsedField_rep d seen f :
  Z.of_nat (length seen) <= kMaxMessageLength ->
  typed_rep d seen -> 0 < id_ f ->
  exists d', AddParsedField d f = Some d' /\ typed_rep d' (seen ++ [f]).
Proof.
  intros Hs Hr Hid. unfold AddParsedField. rewrite (tr_num _ _ Hr).
  destruct (Z.leb_spec n (id_ f)) as [Hge|Hlt].
  { exists d. split; [done|]. destruct Hr as [H1 H2 H3 H4 H5 H6 H7 H8].
    split; try done.
    - rewrite length_app. lia.
    - intros id Hi. rewrite last_snoc_filter, decide_False by lia. by apply H6.
    - intros id Hi. rewrite last_snoc_filter, decide_False by lia.
      rewrite filter_app, filter_cons, decide_False, filter_nil, app_nil_r by lia. by apply H7. }
  assert (exists d1, (if (size_ d <=? id_ f) || (capacity_ d <=? size_ d)
           then ExpandHeapStorage d else Some d) = Some d1 /\ typed_rep d1 seen /\
           id_ f < size_ d1 < capacity_ d1) as (d1 & -> & Hr1 & Hsz1).
  { destruct ((size_ d <=? id_ f) || (capacity_ d <=? size_ d)) eqn:E.
    - destruct (ExpandHeapStorage_rep d seen Hs Hr) as (d' & ? & ? & ?).
      + pose proof (tr_size _ _ Hr).
        apply orb_true_iff in E as [E%Z.leb_le|E%Z.leb_le]; lia.
      + exists d'. split_and!; (done || lia).
    - apply orb_false_iff in E as [E1%Z.leb_gt E2%Z.leb_gt].
      exists d. split_and!; (done || lia). }
  simpl. assert (Hi : (Z.to_nat (id_ f) < length (fields_ d1))%nat) by (unfold size_ in *; lia).
  destruct (lookup_lt_is_Some_2 _ _ Hi) as [fld Hfld]. rewrite Hfld.
  pose proof (tr_slot _ _ Hr1 (id_ f) ltac:(lia)) as Hslot. rewrite Hfld in Hslot. simpl in Hslot.
  destruct (valid fld) eqn:Ev; simpl.
  - destruct (last (with_id (id_ f) seen)) as [l|] eqn:El;
      [|simpl in Hslot; subst fld; done]. simpl in Hslot. subst fld.
    rewrite (tr_num _ _ Hr1). destruct (Z.ltb_spec (size_ d1) n) as [Hlt1|Hge1].
    + destruct (ExpandHeapStorage_rep d1 seen Hs Hr1 (or_introl Hlt1)) as (d2 & -> & Hr2 & Hsz2). cbn [mbind option_bind].
      rewrite (proj2 (Z.ltb_lt _ _)) by lia. eexists. split; [done|]. by eapply store_again.
    + cbn [mbind option_bind]. rewrite (proj2 (Z.ltb_lt _ _)) by lia. eexists. split; [done|]. eapply store_again; (done || lia).
  - eexists. split; [done|]. apply store_first; try done; try lia.
    destruct (with_id (id_ f) seen) as [|x l] eqn:El; [done|].
    destruct (last (x :: l)) as [y|] eqn:Ey.
    + rewrite <- El in Ey. apply last_with_id_valid in Ey as Hv; [|done].
      rewrite El in Ey. simpl in Hslot. congruence.
    + by apply last_None in Ey.
Qed.

Lemma ParseAllFields_fold mem fuel cur d d' :
  bytes_ok mem -> (length mem - cur < fuel)%nat ->
  foldl (fun o f => o ≫= fun d => AddParsedField d f) (Some d) (all_fields mem fuel cur) = Some d' ->
  exists rp, ParseAllFields_loop fuel mem cur d = Some (d', rp) /\ parse_res (ParseOneField mem rp) = kAbort.
Proof.
  intros Hm. revert cur d; induction fuel as [|fuel IH]; intros cur d Hf; [lia|]. cbn [all_fields ParseAllFields_loop].
  destruct (ParseOneField_spec mem Hm cur _ eq_refl) as (Ha & _ & Hn' & _).
  destruct (parse_res (ParseOneField mem cur)) eqn:E.
  - intros [= ->]. exists cur. rewrite Ha by done. done.
  - specialize (Hn' ltac:(done)). apply IH. lia.
  - specialize (Hn' ltac:(done)). rewrite (ParseOneField_kOk_valid mem Hm cur E), (proj2 (Nat.eqb_neq _ _)) by lia. cbn [negb andb foldl].
    cbn [mbind option_bind]. destruct (AddParsedField d _) as [d1|] eqn:Ed; [|].
    + apply IH. lia.
    + intros Hnone. exfalso. revert Hnone. clear. induction (all_fields mem fuel _) as [|f fs IHf]; [done|exact IHf].
Qed.

Lemma fold_AddParsedField_rep fs d seen :
  Z.of_nat (length seen + length fs) <= kMaxMessageLength ->
  typed_rep d seen -> Forall (fun f => 0 < id_ f) fs ->
  exists d', foldl (fun o f => o ≫= fun d => AddParsedField d f) (Some d) fs = Some d' /\
    typed_rep d' (seen ++ fs).
Proof.
  revert d seen; induction fs as [|f fs IH]; intros d seen Hl Hr Hf; simpl.
  { exists d. by rewrite app_nil_r. }
  inversion Hf; subst. simpl in Hl.
  destruct (AddParsedField_rep d seen f) as (d1 & -> & Hr1); [lia|done|done|].
  destruct (IH d1 (seen ++ [f])) as (d' & -> & Hr'); [|done|done|].
  - rewrite length_app. simpl. lia.
  - exists d'. split; [done|]. by rewrite <- app_assoc in Hr'.
Qed.

(** ** Reading back *)

Lemma Get_rep d seen id : typed_rep d seen -> Forall (fun f => 0 < id_ f) seen -> 0 <= id ->
  Get d id = if id <? n then default zero_field (last (with_id id seen)) else zero_field.
Proof.
  intros Hr Hf Hid. unfold Get, Get_index. rewrite (tr_num _ _ Hr).
  assert (H0 : default zero_field (fields_ d !! 0%nat) = zero_field).
  { pose proof (tr_slot _ _ Hr 0 ltac:(lia)) as E. change (Z.to_nat 0) with 0%nat in E.
    rewrite E. replace (with_id 0 seen) with (@nil Field); [done|]. symmetry.
    clear -Hf. induction Hf; [done|]. rewrite filter_cons, decide_False by lia. done. }
  destruct (Z.ltb_spec id n); [|done]. simpl.
  destruct (Z.ltb_spec id (size_ d)); [by apply (tr_slot _ _ Hr)|].
  rewrite H0, <- (tr_slot _ _ Hr) by lia.
  rewrite lookup_ge_None_2; [done|]. unfold size_ in *. lia.
Qed.

Lemma FindNext_loop_spec fs id k i :
  (i + k = length fs)%nat ->
  (exists j f, FindNextMatchingId_loop k fs id i = Some (Some j) /\ (i <= j < length fs)%nat /\ fs !! j = Some f /\
      with_id id (drop i fs) = f :: with_id id (drop (S j) fs)) \/
  FindNextMatchingId_loop k fs id i = Some None /\ with_id id (drop i fs) = [].
Proof.
  revert i; induction k as [|k IH]; intros i Hi; simpl.
  - right. by rewrite drop_ge by lia.
  - destruct (lookup_lt_is_Some_2 fs i ltac:(lia)) as [x Hx]. rewrite Hx. simpl.
    rewrite (drop_S _ _ _ Hx), filter_cons.
    destruct (Z.eqb_spec (id_ x) id) as [He|He].
    + rewrite decide_True by done. left. exists i, x. split_and!; (done || lia).
    + rewrite decide_False by done. destruct (IH (S i) ltac:(lia)) as [(j & f & -> & ? & ? & ->)|[-> ->]]; [|by right].
      left. exists j, f. split_and!; (done || lia).
Qed.

(** The iteration from [i] on, with the slot [la] as the last value. *)
Lemma iter_collect_spec fs id la lastf fuel i :
  (la < i <= length fs)%nat -> fs !! la = Some lastf -> (length fs - i + 1 < fuel)%nat ->
  exists it, FindNextMatchingId fs (mkIter id i (length fs) la) = Some it /\
    iter_collect fuel fs it = Some (with_id id (drop i fs) ++ (if valid lastf then [lastf] else [])).
Proof.
  intros Hi Hla. revert i Hi; induction fuel as [|fuel IH]; intros i Hi Hf; [lia|].
  unfold FindNextMatchingId. cbn [rfi_id rfi_iter rfi_end rfi_last]. rewrite decide_False by lia.
  destruct (FindNext_loop_spec fs id (length fs - i) i ltac:(lia)) as [(j & f & -> & Hj & Hfj & ->)|[-> ->]]; cbn [mbind option_bind].
  - eexists. split; [done|]. cbn [iter_collect rfi_id rfi_iter rfi_end rfi_last].
    rewrite decide_False, Hfj by lia. cbn [mbind option_bind]. unfold iter_incr. cbn [rfi_id rfi_iter rfi_end rfi_last].
    rewrite !decide_False by lia. destruct (IH (S j)) as (it & -> & Hc); [lia..|]. cbn [mbind option_bind]. rewrite Hc. done.
  - rewrite Hla. cbn [mbind option_bind]. eexists. split; [done|]. cbn [iter_collect rfi_id rfi_iter rfi_end rfi_last].
    destruct (valid lastf); [|by rewrite decide_True].
    rewrite decide_False, Hla by lia. cbn [mbind option_bind]. unfold iter_incr. cbn [rfi_id rfi_iter rfi_end rfi_last].
    rewrite decide_False, decide_True by lia. cbn [mbind option_bind]. destruct fuel; [lia|]. cbn [iter_collect rfi_iter rfi_end].
    by rewrite decide_True.
Qed.

Lemma RepeatedFields_rep d seen id :
  typed_rep d seen -> Forall (fun f => 0 < id_ f) seen -> 0 < id < n ->
  RepeatedFields d id = Some (with_id id seen).
Proof.
  intros Hr Hf Hid. unfold RepeatedFields, GetRepeated. rewrite (tr_num _ _ Hr).
  pose proof (tr_size _ _ Hr) as Hsz. pose proof (Get_rep d seen id Hr Hf ltac:(lia)) as HG.
  unfold Get in HG. set (rb := if n <? size_ d then Z.to_nat n else length (fields_ d)).
  assert (Hix : (Get_index d id < rb <= length (fields_ d))%nat).
  { unfold Get_index, rb, size_ in *. rewrite (tr_num _ _ Hr).
    destruct (Z.ltb_spec id n), (Z.ltb_spec id (Z.of_nat (length (fields_ d))));
      simpl; destruct (Z.ltb_spec n (Z.of_nat (length (fields_ d)))); lia. }
  destruct (lookup_lt_is_Some_2 (fields_ d) (Get_index d id) ltac:(lia)) as [lastf Hlast]. rewrite Hlast in HG. simpl in HG.
  destruct (iter_collect_spec (fields_ d) id (Get_index d id) lastf (S (S (length (fields_ d)))) rb) as (it & -> & Hc); [done|done|lia|]. cbn [mbind option_bind]. rewrite Hc. f_equal.
  rewrite (proj2 (Z.ltb_lt id n)) in HG by lia. subst lastf.
  replace (drop rb (fields_ d)) with (drop (Z.to_nat n) (fields_ d)).
  2: { unfold rb. destruct (Z.ltb_spec n (size_ d)); [done|]. unfold size_ in *. by rewrite !drop_ge by lia. }
  etrans; [|apply (tr_rep _ _ Hr id); lia]. f_equal.
  destruct (last (with_id id seen)) as [l|] eqn:El; [|done].
  simpl. by rewrite (last_with_id_valid id seen l) by (done || lia).
Qed.
End typed.

Lemma all_fields_ids mem : bytes_ok mem -> forall fuel cur,
  Forall (fun f => 0 < id_ f) (all_fields mem fuel cur) /\
  ((cur <= length mem)%nat -> (length (all_fields mem fuel cur) <= length mem - cur)%nat).
Proof.
  intros Hm fuel. induction fuel as [|fuel IH]; intros cur; simpl; [split; [constructor|lia]|].
  destruct (ParseOneField_spec mem Hm cur _ eq_refl) as (_ & _ & Hn & Hid & _).
  destruct (IH (next (ParseOneField mem cur))) as [IH1 IH2].
  destruct (parse_res _) eqn:E; [split; [constructor|simpl; lia]|..]; specialize (Hn ltac:(done)).
  - split; [done|]. intros. specialize (IH2 ltac:(lia)). lia.
  - split; [constructor; [by apply Hid|done]|]. intros. specialize (IH2 ltac:(lia)). simpl. lia.
Qed.

(** ** Properties *)

(** [ParseOneField] is memory safe and makes progress on any buffer: on
    failure it leaves the cursor where it was and returns an invalid field; on
    success (or when it skips an oversized field) the cursor moves forward
    without leaving the buffer, and the payload of a length-delimited field
    lies between the old cursor and the new one. *)
Theorem ParseOneField_safe mem cur :
  bytes_ok mem -> (cur <= length mem)%nat ->
  let res := ParseOneField mem cur in
  (parse_res res = kAbort -> next res = cur /\ field res = zero_field) /\
  (parse_res res <> kAbort -> (cur < next res <= length mem)%nat) /\
  (parse_res res = kOk -> 0 < id_ (field res) <= kMaxId) /\
  (parse_res res = kOk -> type_ (field res) = wire_type_num kLengthDelimited ->
     Z.of_nat cur < int_value_ (field res) /\
     int_value_ (field res) + fsize_ (field res) = Z.of_nat (next res)).
Proof.
  intros Hm Hc. cbv zeta.
  destruct (ParseOneField_spec mem Hm cur _ eq_refl) as (H1 & H2 & H3 & H4 & H5).
  split_and!; try done. intros E. split; [auto|]. apply H2. by rewrite E.
Qed.

Lemma ParseOneField_safe_witness :
  (2 < next (ParseOneField [9; 9; 0x12; 0x01; 0x2a]%Z 2) <= 5)%nat.
Proof.
  apply (ParseOneField_safe [9; 9; 0x12; 0x01; 0x2a] 2); simpl; [|lia|done].
  repeat constructor; unfold_u; lia.
Defined.

(** Decoding inverts encoding: reading all the fields of a buffer that is
    the concatenation of well-formed encoded fields gives exactly those fields
    in order (ids, wire types, values and payload octets), and
    [Field::SerializeAndAppendTo] writes each of them back octet for octet. *)
Theorem read_fields_roundtrip ws :
  Forall wf_ok ws ->
  let mem := concat (map encode_field ws) in
  map (view mem) (ReadAllFields mem) = map Some ws /\
  map (SerializeAndAppendToInternal mem) (ReadAllFields mem)
    = map (fun w => Some (encode_field w)) ws.
Proof.
  intros Hws mem.
  assert (Hb : bytes_ok mem).
  { unfold mem. clear mem. induction Hws; simpl; [constructor|]. apply bytes_ok_app.
    auto using encode_field_ok. }
  unfold ReadAllFields. rewrite (ReadAllFields_loop_eq mem Hb _ (S (length mem)) 0) by lia.
  exact (all_fields_encode ws [] (S (length mem)) Hws ltac:(unfold mem; cbn [app length]; lia)).
Qed.

Lemma read_fields_roundtrip_witness :
  let ws := [WVarInt 1 300; WBytes 2 [7; 8]; WFixed32 20 5] in
  map (view (concat (map encode_field ws))) (ReadAllFields (concat (map encode_field ws)))
    = map Some ws.
Proof.
  apply (read_fields_roundtrip [WVarInt 1 300; WBytes 2 [7; 8]; WFixed32 20 5]).
  repeat constructor; vm_compute; done.
Defined.

(** C31: the typed decoder refines the sequential one.  For any input of at
    most [kMaxMessageLength] octets parsing ends and none of its CHECKs and
    DCHECKs fails, so that no field is stored beyond the capacity of the storage,
    which grows as needed; it stops where no further field can be parsed; for
    every known field id, [Get] returns the last field with that id that
    [ReadField] would deliver (an invalid field when there is none), and
    iterating [GetRepeated] yields all of them in wire order without leaving
    the storage; ids above the schema's maximum read as invalid. *)
Theorem typed_decoder_refines mem max_field_id :
  bytes_ok mem -> Z.of_nat (length mem) <= kMaxMessageLength -> 0 <= max_field_id <= kMaxId ->
  exists d rp, TypedProtoDecoder max_field_id mem = Some (d, rp) /\ parse_res (ParseOneField mem rp) = kAbort /\
    size_ d <= capacity_ d /\
    (forall id, 0 < id <= max_field_id ->
      Get d id = default zero_field (last (filter (fun f => id_ f = id) (ReadAllFields mem))) /\
      RepeatedFields d id = Some (filter (fun f => id_ f = id) (ReadAllFields mem))) /\
    (forall id, max_field_id < id -> Get d id = zero_field).
Proof.
  intros Hm Hl Hmax. unfold TypedProtoDecoder, ReadAllFields.
  rewrite (ReadAllFields_loop_eq mem Hm _ (S (length mem)) 0) by lia. set (fs := all_fields mem _ _).
  destruct (all_fields_ids mem Hm (S (length mem)) 0) as [Hid Hlen]. fold fs in Hid, Hlen.
  specialize (Hlen ltac:(lia)).
  destruct (fold_AddParsedField_rep (max_field_id + 1) ltac:(lia) fs
    (TypedProtoDecoderBase (max_field_id + 1) PROTOZERO_DECODER_INITIAL_STACK_CAPACITY) [])
    as (d & Hd & Hr); [cbn [length]; lia|apply typed_rep_init; lia|done|].
  destruct (ParseAllFields_fold mem (S (length mem)) 0 _ d Hm ltac:(lia) Hd) as (rp & -> & Hstop).
  exists d, rp. split; [done|]. split; [done|]. simpl in Hr. split; [apply (tr_size _ _ _ Hr)|]. split.
  - intros id Hi. rewrite (Get_rep (max_field_id + 1) ltac:(lia) d fs id Hr Hid) by lia.
    rewrite (RepeatedFields_rep (max_field_id + 1) ltac:(lia) d fs id Hr Hid) by lia.
    by rewrite (proj2 (Z.ltb_lt _ _)) by lia.
  - intros id Hi. rewrite (Get_rep (max_field_id + 1) ltac:(lia) d fs id Hr Hid) by lia.
    by rewrite (proj2 (Z.ltb_ge _ _)) by lia.
Qed.

Lemma typed_decoder_refines_witness :
  exists d rp, TypedProtoDecoder 3 [0x08; 0x05; 0x08; 0x06; 0x18; 0x01] = Some (d, rp) /\
    map int_value_ <$> RepeatedFields d 1 = Some [5; 6] /\ int_value_ (Get d 1) = 6.
Proof.
  destruct (typed_decoder_refines [0x08; 0x05; 0x08; 0x06; 0x18; 0x01] 3) as (d & rp & Hd & _ & _ & H & _);
    [repeat constructor; unfold_u; lia|vm_compute; done|vm_compute; done|].
  exists d, rp. split; [exact Hd|]. destruct (H 1 ltac:(lia)) as [-> ->]. by vm_compute.
Defined.

(** [FindField] returns the first field with the requested id among those
    [ReadField] would deliver, or an invalid field when there is none. *)
Theorem FindField_first mem id :
  bytes_ok mem ->
  FindField mem id =
    default zero_field (head (filter (fun f => id_ f = id) (ReadAllFields mem))).
Proof.
  intros Hm. unfold FindField, ReadAllFields.
  rewrite (ReadAllFields_loop_eq mem Hm _ (S (length mem)) 0) by lia.
  apply FindField_loop_eq; [done|lia].
Qed.

Lemma FindField_first_witness :
  int_value_ (FindField [0x08; 0x05; 0x08; 0x06] 1) = 5.
Proof.
  rewrite (FindField_first [0x08; 0x05; 0x08; 0x06] 1); [by vm_compute|].
  repeat constructor; unfold_u; lia.
Defined.
