(* ===== verification/PbDecoder.v ===== *)
(** * The C ABI protobuf decoder of the shared library

    Models src/shared_lib/pb_decoder.cc with the structs of
    include/dejaview/public/abi/pb_decoder_abi.h.  The buffer is a list of
    octets placed at address [base]; [read_ptr] and [end_ptr] are 64-bit
    addresses and pointer additions wrap, because the code adds a length read
    from the wire to a pointer before checking it. *)

From S2P Require Import Prelude ProtoUtils ProtoDecoder.

Inductive PbStatus := PB_DECODER_OK | PB_DECODER_DONE | PB_DECODER_ERROR.

(** The union [value]. *)
Inductive PbValue :=
  | pb_delimited (start len : Z)
  | pb_integer64 (v : Z)
  | pb_integer32 (v : Z).

(** [None] is a member the code leaves uninitialized. *)
Record PbDecoderField := mkPbField {
  pb_status : PbStatus;
  pb_wire_type : option Z;
  pb_id : option Z;
  pb_value : option PbValue
}.

Record PbDecoder := mkPb { read_ptr : Z; end_ptr : Z }.

Definition UINT32_MAX : Z := 2 ^ 32 - 1.
Definition SIZE_MAX : Z := 2 ^ 64 - 1.

Definition Uint64RepresentableIn (max val : Z) : bool := val <=? max.

Section pb.
Context (base : Z) (mem : list Z).

(** The octets of [[p, end_ptr)], and a read of one octet. *)
Definition octets (p : Z) : list Z := drop (Z.to_nat (p - base)) mem.
Definition octet (p : Z) (i : nat) : Z := default 0 (octets p !! i).
Definition ptr_add (p n : Z) : Z := u64 (p + n).

(** The [switch] of [DejaViewPbDecoderParseField]: [rp] is just after the tag.
    Returns the status, the member of the union that was stored and the final
    local [read_ptr]. *)
Definition PbParsePayload (rp e : Z) (wire_type : Z) : PbStatus * option PbValue * Z :=
  match wire_type_of_num wire_type with
  | Some kLengthDelimited =>
      let '(n, len) := ParseVarInt (octets rp) in
      if bool_decide (n = 0%nat) || negb (Uint64RepresentableIn SIZE_MAX len)
      then (PB_DECODER_ERROR, None, rp)
      else
        let rp := ptr_add rp (Z.of_nat n) in
        let v := pb_delimited rp len in
        let rp := ptr_add rp len in
        if e <? rp then (PB_DECODER_ERROR, Some v, rp) else (PB_DECODER_OK, Some v, rp)
  | Some kVarInt =>
      let '(n, val) := ParseVarInt (octets rp) in
      if decide (n = 0%nat) then (PB_DECODER_ERROR, None, rp)
      else (PB_DECODER_OK, Some (pb_integer64 val), ptr_add rp (Z.of_nat n))
  | Some kFixed32 =>
      let end_of_val := ptr_add rp 4 in
      if e <? end_of_val then (PB_DECODER_ERROR, None, rp)
      else
        (PB_DECODER_OK,
         Some (pb_integer32 (octet rp 0 .| (octet rp 1 << 8) .| (octet rp 2 << 16)
                             .| (octet rp 3 << 24))), end_of_val)
  | Some kFixed64 =>
      let end_of_val := ptr_add rp 8 in
      if e <? end_of_val then (PB_DECODER_ERROR, None, rp)
      else
        (PB_DECODER_OK,
         Some (pb_integer64 (octet rp 0 .| (octet rp 1 << 8) .| (octet rp 2 << 16)
                             .| (octet rp 3 << 24) .| (octet rp 4 << 32)
                             .| (octet rp 5 << 40) .| (octet rp 6 << 48)
                             .| (octet rp 7 << 56))), end_of_val)
  | None => (PB_DECODER_ERROR, None, rp)
  end.

(** Parses one field and advances [read_ptr] past it when it succeeds. *)
Definition DejaViewPbDecoderParseField (d : PbDecoder) : PbDecoderField * PbDecoder :=
  let rp := read_ptr d in
  if end_ptr d <=? rp then (mkPbField PB_DECODER_DONE None None None, d)
  else
    let '(n, tag) := ParseVarInt (octets rp) in
    if decide (n = 0%nat) then (mkPbField PB_DECODER_ERROR None None None, d)
    else
      let rp := ptr_add rp (Z.of_nat n) in
      let wire_type := tag .& ((1 << 3) - 1) in
      let id := tag >> 3 in
      if UINT32_MAX <? id then (mkPbField PB_DECODER_ERROR (Some wire_type) None None, d)
      else
        match PbParsePayload rp (end_ptr d) wire_type with
        | (PB_DECODER_OK, v, rp) =>
            (mkPbField PB_DECODER_OK (Some wire_type) (Some (u32 id)) v, mkPb rp (end_ptr d))
        | (st, v, _) => (mkPbField st (Some wire_type) (Some (u32 id)) v, d)
        end.

(** The [switch] of [DejaViewPbDecoderSkipField]: the new [read_ptr], or
    nothing on error.  The bound check of the fixed64 case looks at the
    position before the value, as the source does. *)
Definition PbSkipPayload (rp e : Z) (wire_type : Z) : option Z :=
  match wire_type_of_num wire_type with
  | Some kLengthDelimited =>
      let '(n, len) := ParseVarInt (octets rp) in
      if decide (n = 0%nat) then None
      else
        let rp := ptr_add (ptr_add rp (Z.of_nat n)) len in
        if e <? rp then None else Some rp
  | Some kVarInt =>
      let '(n, _) := ParseVarInt (octets rp) in
      if decide (n = 0%nat) then None else Some (ptr_add rp (Z.of_nat n))
  | Some kFixed32 =>
      let end_of_val := ptr_add rp 4 in
      if e <? end_of_val then None else Some end_of_val
  | Some kFixed64 =>
      let end_of_val := ptr_add rp 8 in
      if e <? rp then None else Some end_of_val
  | None => None
  end.

Definition DejaViewPbDecoderSkipField (d : PbDecoder) : PbStatus * PbDecoder :=
  let rp := read_ptr d in
  if end_ptr d <=? rp then (PB_DECODER_DONE, d)
  else
    let '(n, tag) := ParseVarInt (octets rp) in
    if decide (n = 0%nat) then (PB_DECODER_ERROR, d)
    else
      match PbSkipPayload (ptr_add rp (Z.of_nat n)) (end_ptr d) (tag .& ((1 << 3) - 1)) with
      | Some rp => (PB_DECODER_OK, mkPb rp (end_ptr d))
      | None => (PB_DECODER_ERROR, d)
      end.
End pb.

(** The abstract field that a decoded value stands for. *)
Definition pb_view (base : Z) (mem : list Z) (f : PbDecoderField) : option wire_field :=
  match pb_wire_type f, pb_id f, pb_value f with
  | Some t, Some id, Some (pb_delimited s len) =>
      Some (WBytes id (take (Z.to_nat len) (octets base mem s)))
  | Some t, Some id, Some (pb_integer32 v) => Some (WFixed32 id v)
  | Some t, Some id, Some (pb_integer64 v) =>
      Some (if t =? wire_type_num kVarInt then WVarInt id v else WFixed64 id v)
  | _, _, _ => None
  end.

Lemma le_val_4 a b c d :
  (a .| (b << 8) .| (c << 16) .| (d << 24)) = le_val [a; b; c; d].
Proof.
  cbn [le_val]. rewrite Z.shiftl_0_l, Z.lor_0_r.
  rewrite !Z.shiftl_lor, !Z.shiftl_shiftl by lia. by rewrite !Z.lor_assoc.
Qed.

Lemma le_val_8 a b c d e f g h :
  (a .| (b << 8) .| (c << 16) .| (d << 24) .| (e << 32) .| (f << 40) .| (g << 48) .| (h << 56))
    = le_val [a; b; c; d; e; f; g; h].
Proof.
  cbn [le_val]. rewrite Z.shiftl_0_l, Z.lor_0_r.
  rewrite !Z.shiftl_lor, !Z.shiftl_shiftl by lia. by rewrite !Z.lor_assoc.
Qed.

(** The payload cases, for a body placed at address [body]. *)
Lemma payload_body base mem body e w post :
  0 <= base <= body -> body + Z.of_nat (length (wf_body w)) <= e < 2 ^ 64 ->
  wf_ok w -> bytes_ok post -> octets base mem body = wf_body w ++ post ->
  exists v,
    PbParsePayload base mem body e (wire_type_num (wf_type w)) =
      (PB_DECODER_OK, Some v, body + Z.of_nat (length (wf_body w))) /\
    PbSkipPayload base mem body e (wire_type_num (wf_type w)) =
      Some (body + Z.of_nat (length (wf_body w))) /\
    pb_view base mem
      (mkPbField PB_DECODER_OK (Some (wire_type_num (wf_type w))) (Some (wf_id w)) (Some v)) = Some w.
Proof.
  intros Hb He [Hid Hwv] Hpost Ho.
  unfold PbParsePayload, PbSkipPayload, ptr_add, octet. rewrite wire_type_of_num_num, Ho.
  destruct w as [id v|id v|id v|id p]; cbn [wf_type wf_body wf_id] in *.
  - rewrite ParseVarInt_WriteVarInt by done.
    rewrite !decide_False by (pose proof (length_WriteVarInt_pos v Hwv); lia).
    rewrite u64_id by (unfold_u; lia). eexists; split_and!; done.
  - rewrite length_le_bytes in *. rewrite u64_id by (unfold_u; lia).
    rewrite (proj2 (Z.ltb_ge _ _)) by lia.
    eexists. split_and!; [done..|]. cbn -[Z.lor Z.shiftl u8 Z.shiftr].
    rewrite le_val_4. change (le_val _) with (le_val (le_bytes 4 v)).
    rewrite le_val_bytes, Z.mod_small by (unfold_u; lia). done.
  - rewrite length_le_bytes in *. rewrite u64_id by (unfold_u; lia).
    rewrite !(proj2 (Z.ltb_ge _ _)) by lia.
    eexists. split_and!; [done..|]. cbn -[Z.lor Z.shiftl u8 Z.shiftr].
    rewrite le_val_8. change (le_val _) with (le_val (le_bytes 8 v)).
    rewrite le_val_bytes, Z.mod_small by (unfold_u; lia). done.
  - destruct Hwv as [Hpb Hpl].
    destruct (kMaxMessageLength_u32 (Z.of_nat (length p))) as [H32 H64]; [lia|].
    rewrite <- app_assoc, ParseVarInt_WriteVarInt by (try done; by apply bytes_ok_app).
    pose proof (length_WriteVarInt_pos _ H64).
    rewrite bool_decide_eq_false_2, decide_False by lia.
    unfold Uint64RepresentableIn, SIZE_MAX.
    rewrite (proj2 (Z.leb_le _ _)) by (unfold_u; lia). cbn [orb negb].
    rewrite length_app in *.
    rewrite (u64_id (body + _)) by (unfold_u; lia). rewrite u64_id by (unfold_u; lia).
    rewrite (proj2 (Z.ltb_ge _ _)) by lia.
    rewrite Nat2Z.inj_add, Z.add_assoc. eexists. split_and!; [done..|].
    unfold pb_view. cbn [pb_wire_type pb_id pb_value]. do 2 f_equal.
    unfold octets in *.
    replace (Z.to_nat (body + _ - base)) with
      (Z.to_nat (body - base) + length (WriteVarInt (Z.of_nat (length p))))%nat by lia.
    rewrite <- drop_drop, Ho, <- app_assoc, drop_app_len, Nat2Z.id, take_app_len. done.
Qed.

Section placed.
Context (base : Z) (pre : list Z) (w : wire_field) (post : list Z).
Let mem := pre ++ encode_field w ++ post.
Context (Hbase : 0 <= base) (Hfit : base + Z.of_nat (length mem) < 2 ^ 64)
        (Hw : wf_ok w) (Hpost : bytes_ok post).

Let tag := u32 (wf_id w << 3) .| wire_type_num (wf_type w).
Let body := base + Z.of_nat (length pre + length (WriteVarInt tag)).

Lemma placed_octets :
  octets base mem (base + Z.of_nat (length pre)) = WriteVarInt tag ++ wf_body w ++ post /\
  octets base mem body = wf_body w ++ post /\
  length mem = (length pre + length (WriteVarInt tag) + length (wf_body w) + length post)%nat.
Proof.
  unfold octets, mem, body. rewrite encode_field_eq. fold tag. split_and!.
  - replace (Z.to_nat _) with (length pre) by lia. by rewrite drop_app_len, <- app_assoc.
  - replace (Z.to_nat _) with (length pre + length (WriteVarInt tag))%nat by lia.
    rewrite <- drop_drop, drop_app_len, <- app_assoc, drop_app_len. done.
  - rewrite !length_app. lia.
Qed.

Let d := mkPb (base + Z.of_nat (length pre)) (base + Z.of_nat (length mem)).

(** The prologue the two functions share. *)
Lemma placed_prologue :
  (end_ptr d <=? read_ptr d) = false /\
  ParseVarInt (octets base mem (read_ptr d)) = (length (WriteVarInt tag), tag) /\
  length (WriteVarInt tag) <> 0%nat /\
  ptr_add (read_ptr d) (Z.of_nat (length (WriteVarInt tag))) = body /\
  tag .& ((1 << 3) - 1) = wire_type_num (wf_type w) /\
  (UINT32_MAX <? tag >> 3) = false /\ u32 (tag >> 3) = wf_id w.
Proof.
  destruct placed_octets as (Ho & _ & Hlen).
  pose proof (wf_tag w Hw) as (Ht1 & Ht2 & Ht3 & Ht4).
  fold tag in Ht1, Ht2, Ht3, Ht4.
  pose proof (length_WriteVarInt_pos tag (is_u32_u64 _ Ht1)) as Hpos.
  destruct Hw as [Hid _]. change kMaxId with (2 ^ 24 - 1) in Hid.
  cbn [read_ptr end_ptr d]. split_and!.
  - apply Z.leb_gt. lia.
  - rewrite Ho. apply ParseVarInt_WriteVarInt; [by apply is_u32_u64|].
    apply bytes_ok_app. split; [by apply wf_body_ok|done].
  - lia.
  - unfold ptr_add, body. rewrite u64_id by (unfold_u; lia). lia.
  - change ((1 << 3) - 1) with 7. rewrite <- Ht4, u8_id; [done|]. rewrite land_7. divlia.
  - rewrite Ht2. apply Z.ltb_ge. unfold UINT32_MAX. lia.
  - rewrite Ht2. apply u32_id. unfold_u; lia.
Qed.

Lemma placed_parse_skip :
  let d' := mkPb (base + Z.of_nat (length pre + length (encode_field w))) (end_ptr d) in
  (exists f, DejaViewPbDecoderParseField base mem d = (f, d') /\
     pb_status f = PB_DECODER_OK /\ pb_view base mem f = Some w) /\
  DejaViewPbDecoderSkipField base mem d = (PB_DECODER_OK, d').
Proof.
  destruct placed_octets as (_ & Ho & Hlen).
  destruct placed_prologue as (H1 & H2 & H3 & H4 & H5 & H6 & H7).
  assert (Hend : base + Z.of_nat (length pre + length (encode_field w))
                 = body + Z.of_nat (length (wf_body w))).
  { rewrite encode_field_eq. fold tag. rewrite length_app. unfold body. lia. }
  destruct (payload_body base mem body (base + Z.of_nat (length mem)) w post)
    as (v & Hp & Hs & Hv); [unfold body; lia|unfold body; lia|done..|].
  unfold DejaViewPbDecoderParseField, DejaViewPbDecoderSkipField.
  rewrite H1, H2, !decide_False, H4, H5, H6, H7 by done.
  rewrite Hend. cbn [end_ptr d]. rewrite Hp, Hs. split; [|done].
  eexists. split; [done|]. split; [done|exact Hv].
Qed.
End placed.

(** ** Properties *)

(** C36: the C decoder of the shared library decodes every well-formed field
    wherever it lies in a buffer that fits the address space: it reports OK,
    yields the field's id, wire type and value (or payload), and leaves
    [read_ptr] exactly past it; [DejaViewPbDecoderSkipField] moves to the same
    place. *)
Theorem pb_decoder_roundtrip base pre w post :
  let mem := pre ++ encode_field w ++ post in
  0 <= base -> base + Z.of_nat (length mem) < 2 ^ 64 -> wf_ok w -> bytes_ok post ->
  let d := mkPb (base + Z.of_nat (length pre)) (base + Z.of_nat (length mem)) in
  let d' := mkPb (base + Z.of_nat (length pre + length (encode_field w))) (end_ptr d) in
  (exists f, DejaViewPbDecoderParseField base mem d = (f, d') /\
     pb_status f = PB_DECODER_OK /\ pb_view base mem f = Some w) /\
  DejaViewPbDecoderSkipField base mem d = (PB_DECODER_OK, d').
Proof. intros mem Hb Hf Hw Hp. exact (placed_parse_skip base pre w post Hb Hf Hw Hp). Qed.

Lemma pb_decoder_roundtrip_witness :
  DejaViewPbDecoderSkipField 0x1000 ([1; 2] ++ encode_field (WBytes 3 [5; 6; 7]) ++ [9])
    (mkPb 0x1002 0x1008) = (PB_DECODER_OK, mkPb 0x1007 0x1008).
Proof.
  apply (pb_decoder_roundtrip 0x1000 [1; 2] (WBytes 3 [5; 6; 7]) [9]); vm_compute; try done.
  - repeat constructor; done.
  - repeat constructor; done.
Defined.

(** [DejaViewPbDecoderSkipField] checks the wrong pointer for fixed64
    fields: on a truncated one it reports OK and leaves [read_ptr] past
    [end_ptr], while [DejaViewPbDecoderParseField] reports an error on the same
    input and does not move. *)
Theorem pb_skip_fixed64_overruns :
  let mem := [0x09; 0x01] in
  let d := mkPb 0x1000 0x1002 in
  DejaViewPbDecoderSkipField 0x1000 mem d = (PB_DECODER_OK, mkPb 0x1009 0x1002) /\
  (let '(f, d') := DejaViewPbDecoderParseField 0x1000 mem d in
   pb_status f = PB_DECODER_ERROR /\ d' = d).
Proof. split; [reflexivity|]. vm_compute. done. Qed.

(** [DejaViewPbDecoderParseField] adds the wire length to the pointer
    before comparing it with [end_ptr], so a length close to 2^64 wraps around
    the address space: the field below, whose claimed length is 2^64 - 11, is
    reported OK with a cursor that has not moved, so a caller that loops until
    DONE never terminates. *)
Theorem pb_parse_length_wraps :
  let mem := 0x0a :: WriteVarInt (2 ^ 64 - 11) in
  let d := mkPb 0x1000 (0x1000 + Z.of_nat (length mem)) in
  let '(f, d') := DejaViewPbDecoderParseField 0x1000 mem d in
  pb_status f = PB_DECODER_OK /\ d' = d /\
  pb_value f = Some (pb_delimited 0x100b (2 ^ 64 - 11)).
Proof. vm_compute. done. Qed.
