(* ===== verification/ProtoRingBuffer.v ===== *)
(** * Stream reassembly: ProtoRingBuffer

    Models src/protozero/proto_ring_buffer.cc and
    include/dejaview/ext/protozero/proto_ring_buffer.h: chunks of a byte
    stream are appended and complete length-delimited messages read back.
    [buf_] is the list of its octets (its length is the allocated size); a
    message handed out is described by where its octets live.

    [RingBufferMessageReader] is abstract in its [TryReadMessage]; the class
    [MessageFraming] states what it promises, and the reader's theorems hold
    for every instance. *)

From S2P Require Import Prelude ProtoUtils.

(** A message found in a range of octets: [start] is the offset of the
    payload in the range. *)
Record Message := mkMessage { m_start : nat; m_len : Z; m_field_id : Z }.

#[export] Instance Message_eq_dec : EqDecision Message.
Proof. solve_decision. Defined.

(** Outcome of [TryReadMessage]: an invalid message, one with
    [fatal_framing_error], or a valid one. *)
Inductive FramingResult := NotEnough | Fatal | Found (m : Message).

#[export] Instance FramingResult_eq_dec : EqDecision FramingResult.
Proof. solve_decision. Defined.

Definition m_end (m : Message) : nat := (m_start m + Z.to_nat (m_len m))%nat.

Definition kMaxMsgSize : Z := 64 * 1024 * 1024.
Definition kGrowBytes : Z := 128 * 1024.

Class MessageFraming := { TryReadMessage : list Z -> FramingResult }.

(** What the reader needs from a framing: a found message lies inside the
    range, after a non-empty preamble, and the verdict on a range does not
    change when more octets follow. *)
Class MessageFramingLaws (F : MessageFraming) := {
  frame_empty : TryReadMessage [] = NotEnough;
  frame_bounds l m : bytes_ok l -> TryReadMessage l = Found m ->
    0 <= m_len m <= kMaxMsgSize /\ (0 < m_start m)%nat /\ (m_end m <= length l)%nat;
  frame_found l k m : bytes_ok (l ++ k) -> TryReadMessage l = Found m ->
    TryReadMessage (l ++ k) = Found m;
  frame_fatal l k : bytes_ok (l ++ k) -> TryReadMessage l = Fatal ->
    TryReadMessage (l ++ k) = Fatal
}.

(** ** The protobuf framing *)

Definition TryReadProtoMessage (l : list Z) : FramingResult :=
  let '(n, field_tag) := ParseVarInt l in
  if decide (n = 0%nat) then NotEnough
  else
    let tag := field_tag .& 0x07 in
    if negb (tag =? wire_type_num kLengthDelimited) then Fatal
    else
      let '(k, msg_len) := ParseVarInt (drop n l) in
      if decide (k = 0%nat) then NotEnough
      else if kMaxMsgSize <? msg_len then Fatal
      else
        let start_of_msg := (n + k)%nat in
        if Z.of_nat (length l) <? Z.of_nat start_of_msg + msg_len then NotEnough
        else Found (mkMessage start_of_msg (u32 msg_len) (u32 (field_tag >> 3))).

#[export] Instance proto_framing : MessageFraming := { TryReadMessage := TryReadProtoMessage }.

(** ** The reader *)

Section reader.
Context `{MessageFraming}.

(** [fastpath_] keeps the appended chunk and the message inside it. *)
Record RingBufferMessageReader := mkReader {
  buf_ : list Z;
  fastpath_ : option (list Z * Message);
  failed_ : bool;
  rd_ : nat;
  wr_ : nat
}.

Definition reader_init : RingBufferMessageReader :=
  mkReader (replicate (Z.to_nat kGrowBytes) 0) None false 0 0.

(** [while (data_len > new_size - wr_) new_size += kGrowBytes]. *)
Fixpoint grow_size (fuel : nat) (new_size data_len wr : Z) : Z :=
  match fuel with
  | O => new_size
  | S fuel =>
      if new_size - wr <? data_len then grow_size fuel (new_size + kGrowBytes) data_len wr
      else new_size
  end.

(** [memcpy(&buf[wr_], data, data_len); wr_ += data_len]. *)
Definition store_data (buf : list Z) (rd wr : nat) (data : list Z) : option RingBufferMessageReader :=
  buf ← mem_write buf wr data;
  Some (mkReader buf None false rd (wr + length data)).

(** The part of [Append] from the computation of [avail] on: the buffer is used as it is,
    recompacted, or replaced by a larger one. *)
Definition append_slow (buf : list Z) (rd wr : nat) (data : list Z) : option RingBufferMessageReader :=
  if (length buf - wr <? length data)%nat then
    incomplete ← mem_read buf rd (wr - rd);
    buf ← mem_write buf 0 incomplete;
    let wr := (wr - rd)%nat in
    if (length buf - wr <? length data)%nat then
      let new_size :=
        grow_size (S (length data)) (Z.of_nat (length buf)) (Z.of_nat (length data)) (Z.of_nat wr) in
      if kMaxMsgSize * 2 <? new_size then
        Some (mkReader buf None true 0 wr)
      else
        new_buf ← mem_write (replicate (Z.to_nat new_size) 0) 0 buf;
        store_data new_buf 0 wr data
    else store_data buf 0 wr data
  else store_data buf rd wr data.

(** [None] is a failed CHECK or DCHECK, such as that of an [Append] that was not
    preceded by the [ReadMessage] its contract requires, or an access outside an
    allocation. *)
Definition Append (r : RingBufferMessageReader) (data : list Z) : option RingBufferMessageReader :=
  if failed_ r then Some r
  else if negb ((wr_ r <=? length (buf_ r))%nat && (rd_ r <=? wr_ r)%nat) then None
  else
    let '(rd, wr) := if decide (rd_ r = wr_ r) then (0%nat, 0%nat) else (rd_ r, wr_ r) in
    match fastpath_ r with
    | Some _ => None
    | None =>
        let fast :=
          if decide (rd = wr) then
            match TryReadMessage data with
            | Found m => if decide (m_end m = length data) then Some m else None
            | _ => None
            end
          else None in
        match fast with
        | Some m => Some (mkReader (buf_ r) (Some (data, m)) false rd wr)
        | None => append_slow (buf_ r) rd wr data
        end
    end.

(** A message as its reader sees it: field id and payload octets. *)
Definition payload (l : list Z) (m : Message) : list Z := take (Z.to_nat (m_len m)) (drop (m_start m) l).

Inductive ReadResult := NoMessage | FramingError | Msg (field_id : Z) (octets : list Z).

#[export] Instance ReadResult_eq_dec : EqDecision ReadResult.
Proof. solve_decision. Defined.

(** The range that is parsed lies in the buffer, and the message in the range. *)
Definition ReadMessage (r : RingBufferMessageReader) : option (ReadResult * RingBufferMessageReader) :=
  if failed_ r then Some (FramingError, r)
  else
    match fastpath_ r with
    | Some (data, m) =>
        if decide (rd_ r = wr_ r) then
          Some (Msg (m_field_id m) (payload data m), mkReader (buf_ r) None false (rd_ r) (wr_ r))
        else None
    | None =>
        if (wr_ r <? rd_ r)%nat then None
        else if (wr_ r <=? rd_ r)%nat then Some (NoMessage, r)
        else
          range ← mem_read (buf_ r) (rd_ r) (wr_ r - rd_ r);
          match TryReadMessage range with
          | NotEnough => Some (NoMessage, r)
          | Fatal => Some (FramingError, mkReader (buf_ r) None true (rd_ r) (wr_ r))
          | Found m =>
              if ((0 <? m_end m) && (rd_ r + m_end m <=? wr_ r))%nat then
                Some (Msg (m_field_id m) (payload range m),
                      mkReader (buf_ r) None false (rd_ r + m_end m) (wr_ r))
              else None
          end
    end.

(** The loop a client runs after every [Append]; out of fuel is [None]. *)
Fixpoint ReadAll (fuel : nat) (r : RingBufferMessageReader)
    : option (list ReadResult * RingBufferMessageReader) :=
  match fuel with
  | O => None
  | S fuel =>
      '(res, r) ← ReadMessage r;
      match res with
      | Msg id p => '(ms, r) ← ReadAll fuel r; Some (Msg id p :: ms, r)
      | NoMessage => Some ([], r)
      | FramingError => Some ([FramingError], r)
      end
  end.

(** A client that appends the chunks of a stream one by one. *)
Fixpoint Feed (r : RingBufferMessageReader) (chunks : list (list Z))
    : option (list ReadResult * RingBufferMessageReader) :=
  match chunks with
  | [] => Some ([], r)
  | data :: chunks =>
      r ← Append r data;
      '(ms, r) ← ReadAll (S (length (buf_ r) + length data)) r;
      '(ms', r) ← Feed r chunks;
      Some (ms ++ ms', r)
  end.

(** ** Specification: the messages of a stream *)

(** The octets received and not consumed yet. *)
Definition pending (r : RingBufferMessageReader) : list Z :=
  match fastpath_ r with
  | Some (data, _) => data
  | None => take (wr_ r - rd_ r) (drop (rd_ r) (buf_ r))
  end.

(** All the messages of a stream and the incomplete tail ([None] after a
    framing error). *)
Fixpoint parse_stream (fuel : nat) (l : list Z) : list ReadResult * option (list Z) :=
  match fuel with
  | O => ([], Some l)
  | S fuel =>
      match TryReadMessage l with
      | NotEnough => ([], Some l)
      | Fatal => ([FramingError], None)
      | Found m =>
          let '(ms, rest) := parse_stream fuel (drop (m_end m) l) in
          (Msg (m_field_id m) (payload l m) :: ms, rest)
      end
  end.

Context `{!MessageFramingLaws H}.

Record reader_ok (r : RingBufferMessageReader) : Prop := {
  ro_cursors : (rd_ r <= wr_ r <= length (buf_ r))%nat;
  ro_bytes : bytes_ok (buf_ r);
  ro_size : Z.of_nat (length (buf_ r)) <= kMaxMsgSize * 2;
  ro_fast : forall data m, fastpath_ r = Some (data, m) ->
    rd_ r = wr_ r /\ bytes_ok data /\ TryReadMessage data = Found m /\ m_end m = length data
}.

Lemma bytes_ok_replicate n : bytes_ok (replicate n 0).
Proof. apply Forall_replicate. unfold_u; lia. Qed.

Lemma reader_init_ok : reader_ok reader_init /\ pending reader_init = [].
Proof.
  split; [|unfold pending, reader_init; cbn [fastpath_ rd_ wr_ Nat.sub take]; reflexivity].
  split; unfold reader_init; cbn [buf_ fastpath_ rd_ wr_]; rewrite ?length_replicate.
  - lia.
  - apply bytes_ok_replicate.
  - unfold kMaxMsgSize, kGrowBytes. lia.
  - intros; discriminate.
Qed.

Lemma grow_size_spec fuel s d w :
  0 <= w <= s -> s - w < d -> d <= s - w + Z.of_nat fuel ->
  s < grow_size fuel s d w < d + w + kGrowBytes /\ d <= grow_size fuel s d w - w.
Proof.
  revert s; induction fuel as [|fuel IH]; intros s Hw Hd Hf; [lia|]. simpl.
  rewrite (proj2 (Z.ltb_lt _ _)) by lia.
  destruct (decide (s + kGrowBytes - w < d)).
  - destruct (IH (s + kGrowBytes)); unfold kGrowBytes in *; lia.
  - destruct fuel; simpl; [unfold kGrowBytes in *; lia|].
    rewrite (proj2 (Z.ltb_ge _ _)) by lia. unfold kGrowBytes in *; lia.
Qed.

Lemma range_bytes_ok r : reader_ok r -> bytes_ok (pending r).
Proof.
  intros Hr. unfold pending. destruct (fastpath_ r) as [[data m]|] eqn:E.
  - by apply (ro_fast _ Hr) in E as (_ & ? & _).
  - apply bytes_ok_take, bytes_ok_drop, Hr.
Qed.

(** Storing a chunk in a buffer with room for it. *)
Lemma store_ok buf rd wr data :
  (rd <= wr)%nat -> (wr + length data <= length buf)%nat -> bytes_ok buf -> bytes_ok data ->
  Z.of_nat (length buf) <= kMaxMsgSize * 2 ->
  exists r', store_data buf rd wr data = Some r' /\ reader_ok r' /\ failed_ r' = false /\ fastpath_ r' = None /\
    pending r' = take (wr - rd) (drop rd buf) ++ data.
Proof.
  intros Hc Hl Hb Hd Hs. unfold store_data. rewrite mem_write_some by done. cbn [mbind option_bind].
  eexists. split; [done|]. split_and!; [|done..|by apply buf_write_range].
  split; cbn [buf_ fastpath_ rd_ wr_]; rewrite ?buf_write_length by done; try lia; try done.
  by apply buf_write_ok.
Qed.

(** Where the cursors are after an empty buffer was reset. *)
Lemma cursors_reset r :
  (rd_ r <= wr_ r <= length (buf_ r))%nat -> fastpath_ r = None ->
  exists rd wr, (if decide (rd_ r = wr_ r) then (0%nat, 0%nat) else (rd_ r, wr_ r)) = (rd, wr) /\
    (rd <= wr <= length (buf_ r))%nat /\ pending r = take (wr - rd) (drop rd (buf_ r)) /\ length (pending r) = (wr - rd)%nat.
Proof.
  intros Hc Hfast. unfold pending. rewrite Hfast. case_decide as E.
  - exists 0%nat, 0%nat. rewrite E, Nat.sub_diag. split_and!; try lia; done.
  - exists (rd_ r), (wr_ r). rewrite length_take, length_drop. split_and!; try lia; done.
Qed.

(** The slow path: the buffer is used as it is, recompacted, or grown up to the limit. *)
Lemma Append_grow buf rd wr data :
  (rd <= wr <= length buf)%nat -> bytes_ok buf -> bytes_ok data -> Z.of_nat (length buf) <= kMaxMsgSize * 2 ->
  let pend := take (wr - rd) (drop rd buf) in
  exists r', append_slow buf rd wr data = Some r' /\
    (failed_ r' = true /\ kMaxMsgSize * 2 < Z.of_nat (length pend + length data) + kGrowBytes \/
     reader_ok r' /\ failed_ r' = false /\ fastpath_ r' = None /\ pending r' = pend ++ data).
Proof.
  intros Hc Hb Hd Hs pend. unfold append_slow. assert (Hpl : length pend = (wr - rd)%nat) by (unfold pend; rewrite length_take, length_drop; lia).
  destruct (Nat.ltb_spec (length buf - wr) (length data)) as [Hlt|Hge].
  2: { destruct (store_ok buf rd wr data) as (r' & -> & ? & ? & ? & ?); try done; try lia. exists r'. split; [done|]. by right. }
  rewrite mem_read_some by lia. fold pend. cbn [mbind option_bind]. rewrite mem_write_some by (simpl; lia). cbn [mbind option_bind].
  set (buf1 := buf_write buf 0 pend). assert (Hbl : length buf1 = length buf) by (apply buf_write_length; simpl; lia).
  assert (Hbo : bytes_ok buf1) by (apply buf_write_ok; [done|apply bytes_ok_take; by apply bytes_ok_drop]).
  assert (Hbt : take (wr - rd) buf1 = pend) by (unfold buf1, buf_write; rewrite take_0; cbn [app]; rewrite <- Hpl; apply take_app_len).
  cbv zeta. destruct (Nat.ltb_spec (length buf1 - (wr - rd)) (length data)) as [Hlt2|Hge2].
  2: { destruct (store_ok buf1 0 (wr - rd) data) as (r' & -> & ? & ? & ? & Hp); try done; try lia. exists r'. split; [done|]. right.
       rewrite Nat.sub_0_r, drop_0, Hbt in Hp. done. }
  destruct (grow_size_spec (S (length data)) (Z.of_nat (length buf1)) (Z.of_nat (length data)) (Z.of_nat (wr - rd))) as [Hg1 Hg2]; [lia..|].
  set (ns := grow_size _ _ _ _) in *. destruct (Z.ltb_spec (kMaxMsgSize * 2) ns) as [Hbig|Hns].
  { eexists. split; [done|]. left. split; [done|]. lia. }
  rewrite mem_write_some by (rewrite length_replicate; lia). cbn [mbind option_bind].
  assert (Hl2 : length (buf_write (replicate (Z.to_nat ns) 0) 0 buf1) = Z.to_nat ns) by (rewrite buf_write_length; rewrite length_replicate; lia).
  destruct (store_ok (buf_write (replicate (Z.to_nat ns) 0) 0 buf1) 0 (wr - rd) data) as (r' & -> & ? & ? & ? & Hp); try done; try lia.
  { apply buf_write_ok; [apply bytes_ok_replicate|done]. }
  exists r'. split; [done|]. right. rewrite Hp, Nat.sub_0_r, drop_0. split_and!; try done. f_equal.
  unfold buf_write. rewrite take_0. cbn [app]. rewrite take_app_le by lia. done.
Qed.

(** [Append] adds the chunk to the pending octets, whether it takes the fast
    path, stores, recompacts or grows the buffer; beyond the limit it fails. *)
Lemma Append_refines r data :
  reader_ok r -> failed_ r = false -> fastpath_ r = None -> bytes_ok data ->
  exists r', Append r data = Some r' /\
    (failed_ r' = true /\ kMaxMsgSize * 2 < Z.of_nat (length (pending r) + length data) + kGrowBytes \/
     reader_ok r' /\ failed_ r' = false /\ pending r' = pending r ++ data /\ (length (pending r') <= length (buf_ r') + length data)%nat).
Proof.
  intros Hr Hf Hfast Hd. destruct Hr as [Hc Hb Hs _]. unfold Append. rewrite Hf, Hfast.
  rewrite !(proj2 (Nat.leb_le _ _)) by lia. cbn [negb andb].
  destruct (cursors_reset r Hc Hfast) as (rd & wr & -> & Hcw & Hp & Hpl).
  destruct (if decide (rd = wr) then _ else _) as [m|] eqn:Efast.
  - case_decide as E; [|done]. destruct (TryReadMessage data) as [| |m'] eqn:Et; try done.
    case_decide as Eend; [|done]. injection Efast as ->.
    eexists. split; [done|]. right. assert (Hnil : pending r = []) by (apply nil_length_inv; lia). rewrite Hnil.
    split_and!; [|done..|cbn; lia]. split; cbn [buf_ fastpath_ rd_ wr_]; try lia; try done.
    intros data' m'' [= <- <-]. done.
  - destruct (Append_grow (buf_ r) rd wr data Hcw Hb Hd Hs) as (r' & -> & H'). exists r'. split; [done|]. rewrite <- Hp in H'.
    destruct H' as [?|(Hr' & Hf' & Ef & Hp')]; [by left|]. right. split_and!; try done. unfold pending. rewrite Ef, length_take, length_drop.
    pose proof (ro_cursors _ Hr'). lia.
Qed.

(** [ReadMessage] takes the first message off the pending octets. *)
Lemma ReadMessage_refines r :
  reader_ok r -> failed_ r = false ->
  exists res r', ReadMessage r = Some (res, r') /\
  match TryReadMessage (pending r) with
  | NotEnough => res = NoMessage /\ r' = r /\ fastpath_ r = None
  | Fatal => res = FramingError /\ failed_ r' = true
  | Found m =>
      res = Msg (m_field_id m) (payload (pending r) m) /\ reader_ok r' /\ failed_ r' = false /\
      fastpath_ r' = None /\ pending r' = drop (m_end m) (pending r)
  end.
Proof.
  intros Hr Hf. unfold ReadMessage. rewrite Hf.
  destruct (fastpath_ r) as [[data m]|] eqn:Efast.
  - pose proof (ro_fast _ Hr data m Efast) as (Hrd & Hb & Ht & He). rewrite decide_True by done.
    eexists _, _. split; [done|]. unfold pending at 1. rewrite Efast, Ht.
    split_and!; try done.
    + unfold pending. by rewrite Efast.
    + destruct Hr as [Hc Hb' Hs _]. split; cbn; done.
    + unfold pending. cbn [fastpath_ wr_ rd_ buf_]. rewrite Efast, He, drop_all, Hrd, Nat.sub_diag. done.
  - assert (Hp : pending r = take (wr_ r - rd_ r) (drop (rd_ r) (buf_ r)))
      by (unfold pending; by rewrite Efast).
    pose proof (ro_cursors _ Hr) as Hcu. rewrite (proj2 (Nat.ltb_ge _ _)) by lia.
    destruct (Nat.leb_spec (wr_ r) (rd_ r)) as [Hle|Hlt].
    { eexists _, _. split; [done|]. replace (pending r) with (@nil Z); [rewrite frame_empty; done|].
      rewrite Hp. replace (wr_ r - rd_ r)%nat with 0%nat by lia. done. }
    rewrite mem_read_some by lia. cbn [mbind option_bind].
    rewrite <- Hp. pose proof (range_bytes_ok r Hr) as Hb.
    destruct (TryReadMessage (pending r)) as [| |m] eqn:Et; [by eexists _, _|by eexists _, _|].
    apply frame_bounds in Et as (_ & Hpos & He); [|done].
    rewrite Hp, length_take, length_drop in He.
    rewrite (proj2 (Nat.ltb_lt _ _)), (proj2 (Nat.leb_le _ _)) by (unfold m_end in *; lia). cbn [andb].
    destruct Hr as [Hc Hb' Hs _]. eexists _, _. split; [done|]. split_and!; try done.
    + split; cbn [buf_ fastpath_ rd_ wr_]; try done. lia.
    + unfold pending at 1. cbn [buf_ fastpath_ rd_ wr_]. rewrite Hp.
      rewrite <- drop_drop, skipn_firstn_comm. f_equal. lia.
Qed.

Lemma found_shorter l m : bytes_ok l -> TryReadMessage l = Found m ->
  (length (drop (m_end m) l) < length l)%nat /\ (m_end m <= length l)%nat.
Proof.
  intros Hl Ht. apply frame_bounds in Ht as (_ & H1 & H2); [|done].
  rewrite length_drop. unfold m_end in *. lia.
Qed.

Lemma parse_stream_fuel f1 f2 l :
  bytes_ok l -> (length l < f1)%nat -> (length l < f2)%nat ->
  parse_stream f1 l = parse_stream f2 l.
Proof.
  revert f2 l; induction f1 as [|f1 IH]; intros [|f2] l Hl H1 H2; try lia. simpl.
  destruct (TryReadMessage l) as [| |m] eqn:E; try done.
  pose proof (found_shorter l m Hl E) as [Hs _].
  by rewrite (IH f2) by (auto with dv; lia).
Qed.

(** The tail left over is a suffix on which no message can be read yet. *)
Lemma parse_stream_rest f l ms rest :
  bytes_ok l -> (length l < f)%nat -> parse_stream f l = (ms, Some rest) ->
  bytes_ok rest /\ (length rest <= length l)%nat /\ TryReadMessage rest = NotEnough.
Proof.
  revert l ms; induction f as [|f IH]; intros l ms Hl Hf Ep; [lia|]. simpl in Ep.
  destruct (TryReadMessage l) as [| |m] eqn:E; simplify_eq; [done|].
  pose proof (found_shorter l m Hl E) as [Hs _].
  destruct (parse_stream f (drop (m_end m) l)) as [ms' rest'] eqn:Ep'; simplify_eq.
  destruct (IH (drop (m_end m) l) ms' (bytes_ok_drop _ _ Hl) ltac:(lia) Ep') as (? & ? & ?).
  split_and!; (done || lia).
Qed.

Lemma parse_stream_stuck f l :
  TryReadMessage l = NotEnough -> parse_stream f l = ([], Some l).
Proof. intros E. destruct f; [done|]. simpl. by rewrite E. Qed.

(** Octets that arrive later do not change the messages already complete. *)
Lemma parse_stream_app f l k :
  bytes_ok (l ++ k) -> (length (l ++ k) < f)%nat ->
  parse_stream f (l ++ k) =
    match parse_stream f l with
    | (ms, Some rest) =>
        let '(ms', rest') := parse_stream f (rest ++ k) in (ms ++ ms', rest')
    | (ms, None) => (ms, None)
    end.
Proof.
  revert l; induction f as [|f IH]; intros l Hb Hf; [lia|].
  pose proof (proj1 (bytes_ok_app l k) Hb) as [Hl Hk].
  destruct (TryReadMessage l) as [| |m] eqn:E.
  - rewrite (parse_stream_stuck (S f) l E). by destruct (parse_stream (S f) (l ++ k)).
  - cbn [parse_stream]. by rewrite E, (frame_fatal l k Hb E).
  - pose proof (found_shorter l m Hl E) as [Hs He].
    pose proof (frame_bounds l m Hl E) as (Hml & Hms & _).
    rewrite length_app in Hf.
    assert (Hpay : payload (l ++ k) m = payload l m).
    { unfold payload. rewrite drop_app_le by (unfold m_end in *; lia).
      rewrite take_app_le; [done|]. rewrite length_drop. unfold m_end in *. lia. }
    assert (E1 : parse_stream (S f) (l ++ k) =
      let '(ms, rest) := parse_stream f (drop (m_end m) l ++ k) in
      (Msg (m_field_id m) (payload l m) :: ms, rest)).
    { cbn [parse_stream]. by rewrite (frame_found l k m Hb E), Hpay, drop_app_le by done. }
    assert (E2 : parse_stream (S f) l =
      let '(ms, rest) := parse_stream f (drop (m_end m) l) in
      (Msg (m_field_id m) (payload l m) :: ms, rest)) by (cbn [parse_stream]; by rewrite E).
    rewrite E1, E2, IH; [|apply bytes_ok_app; auto with dv|rewrite length_app; lia].
    destruct (parse_stream f (drop (m_end m) l)) as [ms [rest|]] eqn:Ep; [|done].
    apply parse_stream_rest in Ep as (Hr1 & Hr2 & _); [|auto with dv|lia].
    rewrite (parse_stream_fuel (S f) f (rest ++ k)); [|by apply bytes_ok_app|rewrite length_app; lia..].
    by destruct (parse_stream f (rest ++ k)).
Qed.

Lemma ReadAll_refines fuel r :
  reader_ok r -> failed_ r = false -> (length (pending r) < fuel)%nat ->
  exists ms r', ReadAll fuel r = Some (ms, r') /\ ms = fst (parse_stream fuel (pending r)) /\
  match snd (parse_stream fuel (pending r)) with
  | Some rest => reader_ok r' /\ failed_ r' = false /\ fastpath_ r' = None /\ pending r' = rest
  | None => failed_ r' = true
  end.
Proof.
  revert r; induction fuel as [|fuel IH]; intros r Hr Hf Hl; [lia|].
  cbn [ReadAll parse_stream]. destruct (ReadMessage_refines r Hr Hf) as (res & r1 & -> & H1). cbn [mbind option_bind].
  destruct (TryReadMessage (pending r)) as [| |m] eqn:Et.
  - destruct H1 as (-> & -> & ?). by eexists _, _.
  - destruct H1 as (-> & ?). by eexists _, _.
  - destruct H1 as (-> & Hr1 & Hf1 & Hfast & Hp).
    pose proof (found_shorter _ m (range_bytes_ok r Hr) Et) as [Hs _].
    specialize (IH r1 Hr1 Hf1). rewrite Hp in IH. destruct (IH ltac:(lia)) as (ms & r' & -> & -> & IH').
    cbn [mbind option_bind]. eexists _, _. split; [done|].
    by destruct (parse_stream fuel (drop (m_end m) (pending r))).
Qed.

Definition is_msg (x : ReadResult) : bool := match x with Msg _ _ => true | _ => false end.

(** The messages among what was read. *)
Definition messages (l : list ReadResult) : list ReadResult := filter (fun x => is_msg x = true) l.

Lemma messages_app a b : messages (a ++ b) = messages a ++ messages b.
Proof. apply filter_app. Qed.

(** Once failed, the reader only repeats the framing error. *)
Lemma Feed_failed r chunks : failed_ r = true ->
  exists ms, Feed r chunks = Some (ms, r) /\ messages ms = [].
Proof.
  intros Hf. induction chunks as [|data chunks (ms & Hfeed & Hms)]; [by exists []|].
  cbn [Feed]. unfold Append. rewrite Hf. cbn [mbind option_bind].
  cbn [ReadAll]. unfold ReadMessage. rewrite Hf. cbn [mbind option_bind]. rewrite Hfeed. cbn [mbind option_bind].
  eexists. split; [done|]. done.
Qed.

(** A stream that fits in the largest buffer. *)
Definition stream_fits (l : list Z) : Prop := Z.of_nat (length l) + kGrowBytes <= kMaxMsgSize * 2.

(** What a client gets that feeds a stream: at least a prefix of its messages, and all of
    them when the stream fits. *)
Definition delivered (whole : list ReadResult * option (list Z)) (fits : Prop)
    (res : option (list ReadResult * RingBufferMessageReader)) : Prop :=
  exists ms r', res = Some (ms, r') /\ messages ms `prefix_of` messages (fst whole) /\
    (fits -> messages ms = messages (fst whole) /\
      match snd whole with
      | Some rest => failed_ r' = false /\ pending r' = rest
      | None => failed_ r' = true
      end).

Lemma Feed_refines chunks r f :
  reader_ok r -> failed_ r = false -> fastpath_ r = None -> Forall bytes_ok chunks ->
  (length (pending r ++ concat chunks) < f)%nat -> parse_stream f (pending r) = ([], Some (pending r)) ->
  delivered (parse_stream f (pending r ++ concat chunks)) (stream_fits (pending r ++ concat chunks)) (Feed r chunks).
Proof.
  revert r; induction chunks as [|data chunks IH]; intros r Hr Hf Hfast Hb Hfu Hpe.
  { exists [], r. split; [done|]. simpl. rewrite app_nil_r, Hpe. split; [apply prefix_nil|]. done. }
  inversion Hb as [|?? Hd Hb']; subst. cbn [concat] in *. cbn [Feed].
  destruct (Append_refines r data Hr Hf Hfast Hd) as (r1 & -> & [[Hf1 Hbig]|(Hr1 & Hf1 & Hpend & Hlen)]); cbn [mbind option_bind].
  { cbn [ReadAll]. unfold ReadMessage. rewrite Hf1. cbn [mbind option_bind].
    destruct (Feed_failed r1 chunks Hf1) as (ms' & -> & Hms'). cbn [mbind option_bind]. eexists _, _. split; [done|].
    rewrite messages_app, Hms'. split; [apply prefix_nil|]. unfold stream_fits. rewrite !length_app. intros Hfit. exfalso. lia. }
  set (fu := S (length (buf_ r1) + length data)).
  destruct (ReadAll_refines fu r1 Hr1 Hf1 ltac:(unfold fu; lia)) as (ms1 & r2 & -> & -> & HR). cbn [mbind option_bind].
  assert (Hb1 : bytes_ok (pending r1)) by by apply range_bytes_ok.
  assert (Hbc : bytes_ok (concat chunks)).
  { clear -Hb'. induction Hb'; simpl; [constructor|]. by apply bytes_ok_app. }
  rewrite app_assoc, <- Hpend in Hfu |- *.
  assert (Hpf : parse_stream fu (pending r1) = parse_stream f (pending r1)).
  { apply parse_stream_fuel; try done; [unfold fu; lia|]. rewrite length_app in Hfu. lia. }
  rewrite Hpf in HR |- *.
  rewrite (parse_stream_app f (pending r1)) by (try apply bytes_ok_app; done).
  destruct (parse_stream f (pending r1)) as [ms1 [rest|]] eqn:Ep; cbn [fst snd] in *.
  - destruct HR as (Hr2 & Hf2 & Hfast2 & Hp2').
    apply parse_stream_rest in Ep as (_ & Hrl & Hrest); [|done|rewrite length_app in Hfu; lia].
    apply (parse_stream_stuck f) in Hrest. rewrite <- Hp2' in *.
    destruct (IH r2) as (ms' & r' & -> & Hpre & Hall); try done; [rewrite length_app in *; lia|].
    cbn [mbind option_bind]. eexists _, _. split; [done|].
    destruct (parse_stream f (pending r2 ++ concat chunks)) as [ms2 rest2]. cbn [fst snd] in *. rewrite !messages_app.
    split; [by apply prefix_app|]. intros Hfit. destruct Hall as [-> Hfin]; [|done].
    unfold stream_fits in *. rewrite length_app in *. lia.
  - destruct (Feed_failed r2 chunks HR) as (ms' & -> & Hms').
    cbn [mbind option_bind]. eexists _, _. split; [done|]. cbn [fst snd].
    rewrite messages_app, Hms', app_nil_r. done.
Qed.
End reader.

(** ** The protobuf framing satisfies the laws *)

(** A complete varint is not affected by what follows it. *)
Lemma ParseVarInt_app l k n v :
  bytes_ok (l ++ k) -> ParseVarInt l = (n, v) -> n <> 0%nat -> ParseVarInt (l ++ k) = (n, v).
Proof.
  intros Hb H Hn. pose proof (proj1 (bytes_ok_app l k) Hb) as [Hl _].
  rewrite ParseVarInt_eq in H by done. rewrite ParseVarInt_eq by done.
  destruct (varint_spec (take 10 l)) as [[m v']|] eqn:E; [|naive_solver].
  rewrite take_app. assert (Hs : forall a b m v, varint_spec a = Some (m, v) -> varint_spec (a ++ b) = Some (m, v)).
  { clear. induction a as [|x a IH]; intros b m v E; [done|]. simpl in *.
    destruct (x <? 128); [done|]. destruct (varint_spec a) as [[m' v']|] eqn:E'; [|done].
    by rewrite (IH b m' v' eq_refl). }
  by rewrite (Hs _ _ _ _ E).
Qed.

#[export] Instance proto_framing_laws : MessageFramingLaws proto_framing.
Proof.
  split; cbn [TryReadMessage proto_framing].
  - reflexivity.
  - unfold TryReadProtoMessage. intros l m Hl H.
    destruct (ParseVarInt l) as [n tag] eqn:E1. apply ParseVarInt_bounds in E1 as (E1 & _); [|done].
    case_decide; [done|]. destruct (negb _); [done|].
    destruct (ParseVarInt (drop n l)) as [k len] eqn:E2.
    apply ParseVarInt_bounds in E2 as (E2 & _ & E3); [|auto with dv].
    case_decide; [done|]. destruct (Z.ltb_spec kMaxMsgSize len) as [|Hlen]; [done|].
    destruct (Z.ltb_spec (Z.of_nat (length l)) (Z.of_nat (n + k) + len)); simplify_eq.
    unfold m_end. cbn [m_len m_start]. unfold kMaxMsgSize in *.
    rewrite u32_id by (unfold_u; lia). unfold_u; lia.
  - unfold TryReadProtoMessage. intros l k m Hb H.
    destruct (ParseVarInt l) as [n tag] eqn:E1. case_decide; [done|].
    pose proof (proj1 (bytes_ok_app l k) Hb) as [Hl Hk].
    apply ParseVarInt_bounds in E1 as Hn; [|done].
    rewrite (ParseVarInt_app l k n tag) by done. rewrite decide_False by done.
    destruct (negb _); [done|]. rewrite drop_app_le by lia.
    destruct (ParseVarInt (drop n l)) as [j len] eqn:E2. case_decide; [done|].
    rewrite (ParseVarInt_app (drop n l) k j len) by (try done; apply bytes_ok_app; auto with dv).
    rewrite decide_False by done. destruct (kMaxMsgSize <? len); [done|].
    destruct (Z.ltb_spec (Z.of_nat (length l)) (Z.of_nat (n + j) + len)); [done|].
    rewrite (proj2 (Z.ltb_ge _ _)) by (rewrite length_app; lia). done.
  - unfold TryReadProtoMessage. intros l k Hb H.
    destruct (ParseVarInt l) as [n tag] eqn:E1. case_decide; [done|].
    pose proof (proj1 (bytes_ok_app l k) Hb) as [Hl Hk].
    apply ParseVarInt_bounds in E1 as Hn; [|done].
    rewrite (ParseVarInt_app l k n tag) by done. rewrite decide_False by done.
    destruct (negb _); [done|]. rewrite drop_app_le by lia.
    destruct (ParseVarInt (drop n l)) as [j len] eqn:E2. case_decide; [done|].
    rewrite (ParseVarInt_app (drop n l) k j len) by (try done; apply bytes_ok_app; auto with dv).
    rewrite decide_False by done. destruct (kMaxMsgSize <? len); [done|].
    by destruct (Z.of_nat (length l) <? Z.of_nat (n + j) + len).
Qed.

(** The stream that carries the given messages. *)
Definition encode_stream (ms : list (Z * list Z)) : list Z :=
  concat (map (fun '(id, p) => WriteVarInt (MakeTagLengthDelimited id)
                 ++ WriteVarInt (Z.of_nat (length p)) ++ p) ms).

Definition stream_msg_ok (m : Z * list Z) : Prop :=
  0 <= fst m < 2 ^ 29 /\ bytes_ok (snd m) /\ Z.of_nat (length (snd m)) <= kMaxMsgSize.

Lemma encode_stream_ok ms : Forall stream_msg_ok ms -> bytes_ok (encode_stream ms).
Proof.
  induction 1 as [|[id p] ms (H1 & H2 & H3) _ IH]; [constructor|].
  unfold encode_stream. cbn [map concat]. cbn [fst snd] in *.
  rewrite !bytes_ok_app. split_and!; try done.
  - apply WriteVarInt_ok, is_u32_u64. by apply (tag_split id kLengthDelimited).
  - apply WriteVarInt_ok. unfold kMaxMsgSize in *. unfold_u; lia.
Qed.

Lemma parse_stream_encode ms f :
  Forall stream_msg_ok ms -> (length (encode_stream ms) < f)%nat ->
  parse_stream f (encode_stream ms) = (map (fun '(id, p) => Msg id p) ms, Some []).
Proof.
  intros Hms. revert f; induction Hms as [|[id p] ms (H1 & H2 & H3) Hms IH]; intros f Hf.
  { by apply parse_stream_stuck. }
  pose proof (encode_stream_ok _ Hms) as Hrest. cbn [fst snd] in *.
  unfold encode_stream in *. cbn [map concat] in *. rewrite <- !app_assoc in *.
  set (rest := concat _) in *.
  destruct (tag_split id kLengthDelimited H1) as (Ht & Hid & Hty).
  fold (MakeTagLengthDelimited id) in Ht, Hid, Hty.
  assert (Hlen64 : is_u64 (Z.of_nat (length p))) by (unfold kMaxMsgSize in *; unfold_u; lia).
  pose proof (length_WriteVarInt_pos _ (is_u32_u64 _ Ht)) as Hp1.
  pose proof (length_WriteVarInt_pos _ Hlen64) as Hp2.
  set (pre := WriteVarInt (MakeTagLengthDelimited id)) in *.
  set (len := WriteVarInt (Z.of_nat (length p))) in *.
  assert (E : TryReadMessage (pre ++ len ++ p ++ rest) =
    Found (mkMessage (length pre + length len) (Z.of_nat (length p)) id)).
  { cbn [TryReadMessage proto_framing]. unfold TryReadProtoMessage.
    assert (Hv1 : ParseVarInt (pre ++ len ++ p ++ rest) = (length pre, MakeTagLengthDelimited id)).
    { apply ParseVarInt_WriteVarInt; [by apply is_u32_u64|].
      rewrite !bytes_ok_app. unfold len. split_and!; auto with dv. }
    assert (Hv2 : ParseVarInt (len ++ p ++ rest) = (length len, Z.of_nat (length p)))
      by (apply ParseVarInt_WriteVarInt; [done|by apply bytes_ok_app]).
    assert (Hl7 : MakeTagLengthDelimited id .& 7 = 2).
    { clear -Hty. unfold wire_type_of_num in Hty. repeat case_match; try done. by apply Z.eqb_eq. }
    rewrite Hv1, decide_False, Hl7, drop_app_len, Hv2 by lia.
    change (negb (2 =? wire_type_num kLengthDelimited)) with false. cbn iota.
    rewrite decide_False by lia. rewrite (proj2 (Z.ltb_ge _ _)) by lia.
    rewrite (proj2 (Z.ltb_ge _ _)) by (rewrite !length_app; lia).
    rewrite Hid, !u32_id by (unfold kMaxMsgSize in *; unfold_u; lia). done. }
  destruct f as [|f]; [lia|]. cbn [parse_stream]. rewrite E.
  unfold payload, m_end. cbn [m_start m_len m_field_id]. rewrite Nat2Z.id.
  replace (drop (length pre + length len) (pre ++ len ++ p ++ rest)) with (p ++ rest)
    by (by rewrite <- drop_drop, !drop_app_len).
  rewrite take_app_len.
  replace (drop (length pre + length len + length p) (pre ++ len ++ p ++ rest)) with rest
    by (by rewrite <- !drop_drop, !drop_app_len).
  rewrite IH; [done|]. rewrite !length_app in Hf. lia.
Qed.

(** ** Properties *)

(** C32: reassembly is independent of how the transport splits the stream. A
    reader fed any sequence of chunks, reading all available messages after
    each one, fails no check and accesses nothing outside its buffer, which it
    recompacts and grows as needed; every loop ends; and what it delivers is a
    prefix of the messages of the concatenated stream. When the stream and 128 KB
    more fit into the limit of 128 MB, it delivers all of them, keeps the
    incomplete tail pending, and is in the failed state iff the stream has a
    framing error. *)
Theorem ring_buffer_chunking chunks :
  Forall bytes_ok chunks ->
  delivered (parse_stream (S (length (concat chunks))) (concat chunks)) (stream_fits (concat chunks)) (Feed reader_init chunks).
Proof.
  intros Hb. destruct reader_init_ok as [Hok Hp].
  pose proof (Feed_refines chunks reader_init (S (length (concat chunks)))) as H.
  rewrite Hp in H. apply H; done || (simpl; lia) || by apply parse_stream_stuck.
Qed.

Lemma ring_buffer_chunking_witness :
  exists ms r', Feed reader_init [[0x0a; 2]; [7; 8; 0x12]] = Some (ms, r') /\
    messages ms = [Msg 1 [7; 8]].
Proof.
  destruct (ring_buffer_chunking [[0x0a; 2]; [7; 8; 0x12]]) as (ms & r' & H1 & _ & H2).
  - repeat constructor; unfold_u; lia.
  - exists ms, r'. split; [exact H1|]. destruct H2 as [H2 _]; [vm_compute; discriminate|exact H2].
Defined.

(** C33: messages written one after the other on a stream, split at arbitrary
    points, come out of the ring buffer with their field ids and payloads
    unchanged, in order, and nothing is left over, for streams that with 128 KB
    more fit into the buffer's limit of 128 MB. *)
Theorem ring_buffer_roundtrip ms chunks :
  Forall stream_msg_ok ms -> concat chunks = encode_stream ms -> stream_fits (encode_stream ms) ->
  exists out r', Feed reader_init chunks = Some (out, r') /\
    messages out = map (fun '(id, p) => Msg id p) ms /\
    failed_ r' = false /\ pending r' = [].
Proof.
  intros Hms Hc Hl. pose proof (encode_stream_ok ms Hms) as Hb.
  assert (Hbc : Forall bytes_ok chunks).
  { rewrite <- Hc in Hb. clear -Hb. induction chunks as [|c chunks IH]; [constructor|].
    simpl in Hb. apply bytes_ok_app in Hb as [? ?]. constructor; auto. }
  destruct reader_init_ok as [Hok Hp].
  pose proof (Feed_refines chunks reader_init (S (length (concat chunks)))) as H.
  rewrite Hp in H. destruct H as (out & r' & H1 & _ & H2); [done || (simpl; lia) || by apply parse_stream_stuck..|].
  cbn [app] in H2. rewrite Hc in H2. rewrite parse_stream_encode in H2 by (done || lia). cbn [fst snd] in *.
  destruct (H2 Hl) as (H3 & H4 & H5). exists out, r'. split_and!; [done| |done..].
  rewrite H3. clear. induction ms as [|[id p] ms IH]; [done|].
  cbn [map]. unfold messages in *. by rewrite filter_cons, IH.
Qed.

Lemma ring_buffer_roundtrip_witness :
  exists out r', Feed reader_init [[0x0a]; [2; 7]; [8]] = Some (out, r') /\
    messages out = [Msg 1 [7; 8]] /\ failed_ r' = false /\ pending r' = [].
Proof.
  apply (ring_buffer_roundtrip [(1, [7; 8])] [[0x0a]; [2; 7]; [8]]).
  - repeat constructor; try (unfold_u; simpl; lia). vm_compute. discriminate.
  - reflexivity.
  - vm_compute. discriminate.
Defined.
