(* ===== verification/MessageTokenizer.v ===== *)
(** * The schema-less protobuf tokenizer

    Models src/protozero/filtering/message_tokenizer.h: a state machine that
    takes one octet at a time and emits a token at the last octet of each
    scalar field, or at the last octet of the length of a length-delimited
    one. *)

From S2P Require Import Prelude ProtoUtils ProtoDecoder.

Inductive State :=
  | kFieldPreamble | kVarIntValue | kFixedIntValue | kLenDelimited
  | kInvalidFieldType | kMessageTooBig | kInvalidVarInt.

#[export] Instance State_eq_dec : EqDecision State.
Proof. solve_decision. Defined.

Record Token := mkToken { tok_field_id : Z; tok_type : ProtoWireType; tok_value : Z }.

#[export] Instance Token_eq_dec : EqDecision Token.
Proof. solve_decision. Defined.

(** [Token{}] *)
Definition no_token : Token := mkToken 0 kVarInt 0.
Definition tok_valid (t : Token) : bool := negb (tok_field_id t =? 0).

Record MessageTokenizer := mkTokenizer {
  state_ : State;
  field_id_ : Z;
  varint_ : Z;
  varint_shift_ : Z;
  fixed_int_shift_ : Z;
  fixed_int_bits_ : Z;
  fixed_int_value_ : Z
}.

Definition tokenizer_init : MessageTokenizer := mkTokenizer kFieldPreamble 0 0 0 0 0 0.

(** The branch for the octets of a fixed32/64 payload. *)
Definition PushFixed (t : MessageTokenizer) (octet : Z) : Token * MessageTokenizer :=
  let value := fixed_int_value_ t .| u64 (octet << fixed_int_shift_ t) in
  let shift := fixed_int_shift_ t + 8 in
  if shift <? fixed_int_bits_ t then
    (no_token, mkTokenizer (state_ t) (field_id_ t) (varint_ t) (varint_shift_ t)
                 shift (fixed_int_bits_ t) value)
  else
    let wire_type := if fixed_int_bits_ t =? 32 then kFixed32 else kFixed64 in
    (mkToken (field_id_ t) wire_type value,
     mkTokenizer kFieldPreamble (field_id_ t) (varint_ t) (varint_shift_ t) 0 0 0).

(** The [switch] entered with a complete varint; [varint_] and
    [varint_shift_] are already reset. *)
Definition OnVarInt (t : MessageTokenizer) (varint : Z) : Token * MessageTokenizer :=
  let to st := mkTokenizer st (field_id_ t) 0 0 (fixed_int_shift_ t) (fixed_int_bits_ t)
                 (fixed_int_value_ t) in
  match state_ t with
  | kFieldPreamble =>
      let field_type := u32 (varint .& 7) in
      let field_id := u32 (varint >> 3) in
      let to' st := mkTokenizer st field_id 0 0 (fixed_int_shift_ t) (fixed_int_bits_ t)
                      (fixed_int_value_ t) in
      (no_token,
       if field_type =? wire_type_num kVarInt then to' kVarIntValue
       else if (field_type =? wire_type_num kFixed32) || (field_type =? wire_type_num kFixed64) then
         mkTokenizer kFixedIntValue field_id 0 0 0
           (if field_type =? wire_type_num kFixed32 then 32 else 64) 0
       else if field_type =? wire_type_num kLengthDelimited then to' kLenDelimited
       else to' kInvalidFieldType)
  | kVarIntValue => (mkToken (field_id_ t) kVarInt varint, to kFieldPreamble)
  | kLenDelimited =>
      if kMaxMessageLength <? varint then (no_token, to kMessageTooBig)
      else (mkToken (field_id_ t) kLengthDelimited varint, to kFieldPreamble)
  | st => (no_token, to st)
  end.

Definition Push (t : MessageTokenizer) (octet : Z) : Token * MessageTokenizer :=
  if decide (state_ t = kFixedIntValue) then PushFixed t octet
  else
    let varint := varint_ t .| u64 ((octet .& 0x7F) << varint_shift_ t) in
    if negb ((octet .& 0x80) =? 0) then
      let shift := varint_shift_ t + 7 in
      let '(st, shift) := if 64 <=? shift then (kInvalidVarInt, 0) else (state_ t, shift) in
      (no_token, mkTokenizer st (field_id_ t) varint shift (fixed_int_shift_ t)
                   (fixed_int_bits_ t) (fixed_int_value_ t))
    else OnVarInt t varint.

Definition idle (t : MessageTokenizer) : bool :=
  bool_decide (state_ t = kFieldPreamble) && (varint_shift_ t =? 0) && (fixed_int_shift_ t =? 0).

(** Pushing a sequence of octets, keeping the valid tokens. *)
Fixpoint PushAll (t : MessageTokenizer) (l : list Z) : list Token * MessageTokenizer :=
  match l with
  | [] => ([], t)
  | b :: l =>
      let '(tok, t) := Push t b in
      let '(toks, t) := PushAll t l in
      (if tok_valid tok then tok :: toks else toks, t)
  end.

(** ** Reachable states *)

Definition is_error (st : State) : Prop :=
  st = kInvalidFieldType \/ st = kMessageTooBig \/ st = kInvalidVarInt.

(** What holds of the machine after any sequence of octets. *)
Record tok_ok (t : MessageTokenizer) : Prop := {
  to_id : is_u32 (field_id_ t);
  to_varint : is_u64 (varint_ t);
  to_shift : 0 <= varint_shift_ t < 64;
  to_clean : ~ is_error (state_ t) -> varint_ t < 2 ^ varint_shift_ t;
  to_fixed : state_ t = kFixedIntValue ->
    varint_ t = 0 /\ varint_shift_ t = 0 /\
    (fixed_int_bits_ t = 32 \/ fixed_int_bits_ t = 64) /\
    0 <= fixed_int_shift_ t < fixed_int_bits_ t /\ (8 | fixed_int_shift_ t) /\
    0 <= fixed_int_value_ t < 2 ^ fixed_int_shift_ t;
  to_nofixed : state_ t <> kFixedIntValue -> fixed_int_shift_ t = 0
}.

Lemma tokenizer_init_ok : tok_ok tokenizer_init.
Proof. split; simpl; unfold_u; try lia; try done. Qed.

Lemma shift_divide_bound s b : b = 32 \/ b = 64 -> (8 | s) -> s < b -> s + 8 <= b.
Proof. intros Hb [k ->] H. destruct Hb as [-> | ->]; lia. Qed.

Lemma acc_fixed v x s : 0 <= s -> s + 8 <= 64 -> 0 <= v < 2 ^ s -> is_u8 x ->
  v .| u64 (x << s) = v + x * 2 ^ s /\ 0 <= v + x * 2 ^ s < 2 ^ (s + 8).
Proof.
  intros Hs H8 Hv Hx.
  assert (Hp : 0 < 2 ^ s) by (apply Z.pow_pos_nonneg; lia).
  assert (Hb : 0 <= v + x * 2 ^ s < 2 ^ (s + 8)).
  { rewrite Z.pow_add_r by lia. unfold_u. nia. }
  split; [|done]. rewrite acc_step by (unfold_u; lia). apply u64_id. unfold is_u64.
  assert (2 ^ (s + 8) <= 2 ^ 64) by (apply Z.pow_le_mono_r; lia). lia.
Qed.

Lemma tok_ok_reset st id b v :
  st <> kFixedIntValue -> is_u32 id -> tok_ok (mkTokenizer st id 0 0 0 b v).
Proof. intros. split; cbn; unfold_u; (done || lia). Qed.

Lemma OnVarInt_ok t v : tok_ok t -> state_ t <> kFixedIntValue -> is_u64 v ->
  tok_ok (snd (OnVarInt t v)).
Proof.
  intros Ht Hs Hv. pose proof (to_nofixed t Ht Hs) as H0. pose proof (to_id t Ht) as Hid.
  pose proof (u32_range (v >> 3)) as Hid'. unfold OnVarInt. rewrite H0.
  destruct (state_ t) eqn:Est; try done; cbn [snd];
    try (destruct (_ <? _); apply tok_ok_reset; done); try (apply tok_ok_reset; done).
  destruct (_ =? wire_type_num kVarInt); [by apply tok_ok_reset|].
  destruct (_ || _).
  - split; cbn; try done; try (unfold_u; lia). intros _.
    destruct (_ =? _); split_and!; try lia; auto; by exists 0.
  - destruct (_ =? _); by apply tok_ok_reset.
Qed.

Lemma varint_lor_u64 t b : tok_ok t -> is_u64 (varint_ t .| u64 ((b .& 0x7F) << varint_shift_ t)).
Proof. intros Ht. apply lor_range; [lia|apply Ht|apply u64_range]. Qed.

Lemma Push_ok t b : tok_ok t -> is_u8 b -> tok_ok (snd (Push t b)).
Proof.
  intros Ht Hb. unfold Push. case_decide as Hf.
  - destruct Ht as [H1 H2 H3 H4 H5 H6]. destruct (H5 Hf) as (Hv0 & Hs0 & Hbits & Hsh & Hdiv & Hval).
    pose proof (shift_divide_bound _ _ Hbits Hdiv (proj2 Hsh)) as H8.
    destruct (acc_fixed (fixed_int_value_ t) b (fixed_int_shift_ t)) as [Ev Hv']; try lia; [done|].
    unfold PushFixed. rewrite Ev. destruct (Z.ltb_spec (fixed_int_shift_ t + 8) (fixed_int_bits_ t)).
    + split; cbn; try done. intros _. split_and!; try done; try lia.
      apply Z.divide_add_r; [done|by exists 1].
    + cbn [snd]. rewrite Hv0, Hs0. by apply tok_ok_reset.
  - pose proof (varint_lor_u64 t b Ht) as Hvr. destruct (negb _) eqn:Ec.
    + destruct Ht as [H1 H2 H3 H4 H5 H6]. destruct (Z.leb_spec 64 (varint_shift_ t + 7)).
      * split; cbn; try done; try lia.
        -- intros Hne. exfalso. apply Hne. unfold is_error. auto.
        -- intros _. by apply H6.
      * split; cbn; try done; try lia.
        intros Hne. specialize (H4 Hne). rewrite land_7f.
        assert (0 <= b mod 128 < 128) by (apply Z.mod_pos_bound; lia).
        rewrite acc_step by (unfold is_u64 in *; lia).
        assert (0 < 2 ^ varint_shift_ t) by (apply Z.pow_pos_nonneg; lia).
        rewrite Z.pow_add_r by lia. unfold u64.
        apply Z.le_lt_trans with (varint_ t + b mod 128 * 2 ^ varint_shift_ t).
        { apply Z.mod_le; [unfold is_u64 in *; nia|lia]. }
        change (2 ^ 7) with 128. nia.
    + by apply OnVarInt_ok.
Qed.

(** Error states are never left and emit nothing. *)
Lemma Push_error t b : is_error (state_ t) ->
  tok_valid (fst (Push t b)) = false /\ is_error (state_ (snd (Push t b))).
Proof.
  intros He. unfold Push.
  rewrite decide_False by (intros E; rewrite E in He; unfold is_error in He; naive_solver).
  destruct (negb _).
  - destruct (64 <=? _); cbn; [|done]. unfold is_error; auto.
  - unfold OnVarInt. by destruct He as [E|[E|E]]; rewrite E; cbn; unfold is_error; auto.
Qed.

(** ** Whole varints and whole fields *)

(** Pushing the octets of a complete varint acts as one [OnVarInt]. *)
Lemma PushAll_varint (k : nat) t l m v :
  bytes_ok l -> state_ t <> kFixedIntValue -> (k + length l <= 10)%nat ->
  varint_shift_ t = 7 * Z.of_nat k -> 0 <= varint_ t < 2 ^ (7 * Z.of_nat k) ->
  varint_spec l = Some (m, v) -> m = length l ->
  PushAll t l =
    let '(tok, t') := OnVarInt t (u64 (varint_ t + v * 2 ^ (7 * Z.of_nat k))) in
    (if tok_valid tok then [tok] else [], t').
Proof.
  revert k t m v; induction l as [|b l IH]; intros k t m v Hb Hst Hk Hsh Hacc Hs Hm; [done|].
  inversion Hb as [|?? Hb1 Hb2]; subst. cbn [length] in Hk.
  cbn [PushAll]. unfold Push. rewrite decide_False by done. rewrite Hsh, land_7f.
  assert (0 <= b mod 128 < 128) by (apply Z.mod_pos_bound; lia).
  rewrite acc_step by lia. simpl in Hs. destruct (Z.ltb_spec b 128).
  - simplify_eq. destruct l; [|simpl in *; lia].
    rewrite land_80_small, Z.mod_small by (unfold_u; lia). cbn [Z.eqb negb].
    destruct (OnVarInt _ _) as [tok t']. cbn [PushAll]. done.
  - rewrite land_80_big by (unfold_u; lia). change (negb (128 =? 0)) with true. cbn iota.
    destruct (varint_spec l) as [[m' v']|] eqn:E; simplify_eq/=.
    assert (l <> []) by (intros ->; done).
    assert ((0 < length l)%nat) by (destruct l; [done|simpl; lia]).
    rewrite (proj2 (Z.leb_gt _ _)) by lia.
    assert (Hp : 0 < 2 ^ (7 * Z.of_nat k)) by (apply Z.pow_pos_nonneg; lia).
    assert (E7 : 2 ^ (7 * Z.of_nat (S k)) = 2 ^ (7 * Z.of_nat k) * 128).
    { replace (7 * Z.of_nat (S k)) with (7 * Z.of_nat k + 7) by lia. by rewrite Z.pow_add_r by lia. }
    assert (Hlt : varint_ t + b mod 128 * 2 ^ (7 * Z.of_nat k) < 2 ^ (7 * Z.of_nat (S k))) by nia.
    assert (2 ^ (7 * Z.of_nat (S k)) <= 2 ^ 64) by (apply Z.pow_le_mono_r; lia).
    rewrite u64_id by (unfold is_u64; nia).
    set (t1 := mkTokenizer _ _ _ _ _ _ _).
    rewrite (IH (S k) t1 (length l) v'); cbn [t1 state_ varint_ varint_shift_]; try done; try lia; try nia.
    replace (varint_ t + b mod 128 * 2 ^ (7 * Z.of_nat k) + v' * 2 ^ (7 * Z.of_nat (S k)))
      with (varint_ t + (b mod 128 + 128 * v') * 2 ^ (7 * Z.of_nat k)) by (rewrite E7; ring).
    unfold OnVarInt. cbn [t1 state_ field_id_ fixed_int_shift_ fixed_int_bits_ fixed_int_value_].
    by destruct (state_ t); repeat case_match.
Qed.

Lemma PushAll_app t l k :
  PushAll t (l ++ k) =
    let '(a, t1) := PushAll t l in let '(b, t2) := PushAll t1 k in (a ++ b, t2).
Proof.
  revert t; induction l as [|x l IH]; intros t; cbn [app PushAll].
  - by destruct (PushAll t k).
  - destruct (Push t x) as [tok t1]. rewrite IH.
    destruct (PushAll t1 l) as [a t2]. destruct (PushAll t2 k) as [b t3].
    by destruct (tok_valid tok).
Qed.

(** Between fields; [id] is the id of the field just completed. *)
Definition ready (id : Z) : MessageTokenizer := mkTokenizer kFieldPreamble id 0 0 0 0 0.

Lemma PushAll_WriteVarInt t v :
  state_ t <> kFixedIntValue -> varint_ t = 0 -> varint_shift_ t = 0 -> is_u64 v ->
  PushAll t (WriteVarInt v) =
    let '(tok, t') := OnVarInt t v in (if tok_valid tok then [tok] else [], t').
Proof.
  intros H1 H2 H3 Hv.
  rewrite (PushAll_varint 0 t (WriteVarInt v) (length (WriteVarInt v)) v); auto with dv.
  - rewrite H2. change (2 ^ (7 * Z.of_nat 0)) with 1. by rewrite Z.mul_1_r, Z.add_0_l, u64_id.
  - rewrite length_WriteVarInt by done. by apply varint_size_u64.
  - rewrite H2. simpl. lia.
  - rewrite <- (app_nil_r (WriteVarInt v)) at 1. by apply WriteVarInt_loop_spec, is_u64_128.
Qed.

Lemma PushAll_fixed n id j acc v bits :
  bits = 32 \/ bits = 64 -> 8 * (Z.of_nat j + Z.of_nat (S n)) = bits ->
  0 <= acc < 2 ^ (8 * Z.of_nat j) -> 0 <= v -> 0 < id ->
  PushAll (mkTokenizer kFixedIntValue id 0 0 (8 * Z.of_nat j) bits acc) (le_bytes (S n) v) =
    ([mkToken id (if bits =? 32 then kFixed32 else kFixed64)
        (acc + (v mod 2 ^ (8 * Z.of_nat (S n))) * 2 ^ (8 * Z.of_nat j))], ready id).
Proof.
  revert j acc v; induction n as [|n IH]; intros j acc v Hbits Hsum Hacc Hv Hid.
  - cbn [le_bytes PushAll]. unfold Push. rewrite decide_True by done. unfold PushFixed.
    cbn [fixed_int_value_ fixed_int_shift_ fixed_int_bits_ field_id_ varint_ varint_shift_].
    destruct (acc_fixed acc (u8 v) (8 * Z.of_nat j)) as [-> _]; try lia; [apply u8_range|].
    rewrite (proj2 (Z.ltb_ge _ _)) by lia. unfold tok_valid. cbn [tok_field_id].
    rewrite (proj2 (Z.eqb_neq _ _)) by lia. done.
  - change (le_bytes (S (S n)) v) with (u8 v :: le_bytes (S n) (v >> 8)).
    cbn [PushAll]. unfold Push. rewrite decide_True by done. unfold PushFixed.
    cbn [fixed_int_value_ fixed_int_shift_ fixed_int_bits_ field_id_ varint_ varint_shift_ state_].
    destruct (acc_fixed acc (u8 v) (8 * Z.of_nat j)) as [-> Hb]; try lia; [apply u8_range|].
    rewrite (proj2 (Z.ltb_lt _ _)) by lia.
    replace (8 * Z.of_nat j + 8) with (8 * Z.of_nat (S j)) in * by lia.
    rewrite IH; try done; try lia; [|rewrite shiftr_div by lia; apply Z.div_pos; lia].
    cbn [tok_valid no_token]. do 3 f_equal.
    rewrite shiftr_div by lia.
    replace (8 * Z.of_nat (S (S n))) with (8 + 8 * Z.of_nat (S n)) by lia.
    replace (8 * Z.of_nat (S j)) with (8 * Z.of_nat j + 8) by lia.
    rewrite !Z.pow_add_r, (Z.rem_mul_r v) by lia. unfold u8. ring.
Qed.

(** The octets of a field up to its payload, and the token they produce. *)
Definition wf_header (w : wire_field) : list Z :=
  match w with
  | WBytes id p => WriteVarInt (MakeTagLengthDelimited id) ++ WriteVarInt (Z.of_nat (length p))
  | _ => encode_field w
  end.

Definition wf_token (w : wire_field) : Token :=
  match w with
  | WVarInt id v => mkToken id kVarInt v
  | WFixed32 id v => mkToken id kFixed32 v
  | WFixed64 id v => mkToken id kFixed64 v
  | WBytes id p => mkToken id kLengthDelimited (Z.of_nat (length p))
  end.

Lemma PushAll_header id0 w : wf_ok w -> PushAll (ready id0) (wf_header w) = ([wf_token w], ready (wf_id w)).
Proof.
  intros Hw. pose proof (wf_tag w Hw) as (Ht1 & Ht2 & Ht3 & Ht4).
  set (tag := u32 (wf_id w << 3) .| wire_type_num (wf_type w)) in *.
  destruct Hw as [Hid Hwv]. change kMaxId with (2 ^ 24 - 1) in Hid.
  assert (Hh : exists body, wf_header w = WriteVarInt tag ++ body) by (destruct w; by eexists).
  assert (Hty : u32 (tag .& 7) = wire_type_num (wf_type w)).
  { rewrite <- Ht4. rewrite u32_id, u8_id; [done|..]; rewrite land_7; divlia. }
  assert (Htok : tok_valid (wf_token w) = true).
  { unfold tok_valid. destruct w; cbn in *; by rewrite (proj2 (Z.eqb_neq _ _)) by lia. }
  assert (Hpre : forall body, PushAll (ready id0) (WriteVarInt tag ++ body) =
            PushAll (snd (OnVarInt (ready id0) tag)) body).
  { intros body. rewrite PushAll_app, PushAll_WriteVarInt; try done; [|by apply is_u32_u64].
    unfold OnVarInt. cbn [state_ ready].
    cbn [snd]. destruct (PushAll _ body) as [a b]. done. }
  unfold OnVarInt in Hpre. cbn [state_ ready fixed_int_shift_ fixed_int_bits_ fixed_int_value_ snd] in Hpre.
  rewrite Hty, Ht2, (u32_id (wf_id w)) in Hpre by (unfold_u; lia).
  destruct w as [id v|id v|id v|id p]; cbn [wf_header wf_type wf_id wf_token wire_type_num] in *;
    cbn [encode_field]; rewrite Hpre.
  - change (0 =? 0) with true. cbn iota. rewrite PushAll_WriteVarInt by done.
    unfold OnVarInt. cbn [state_ field_id_ fixed_int_shift_ fixed_int_bits_ fixed_int_value_]. by rewrite Htok.
  - change (5 =? 0) with false. change (5 =? 5) with true. cbn [orb]. cbn iota.
    etransitivity; [refine (PushAll_fixed 3 id 0 0 v 32 _ _ _ _ _); (auto || (simpl; unfold_u; lia))|].
    rewrite Z.mod_small by (simpl in *; unfold_u; lia). do 3 f_equal. simpl. lia.
  - change (1 =? 0) with false. change (1 =? 5) with false. change (1 =? 1) with true.
    cbn [orb]. cbn iota.
    etransitivity; [refine (PushAll_fixed 7 id 0 0 v 64 _ _ _ _ _); (auto || (simpl; unfold_u; lia))|].
    rewrite Z.mod_small by (simpl in *; unfold_u; lia). do 3 f_equal. simpl. lia.
  - change (2 =? 0) with false. change (2 =? 5) with false. change (2 =? 1) with false.
    change (2 =? 2) with true. cbn [orb]. cbn iota.
    destruct Hwv as [Hpb Hpl]. destruct (kMaxMessageLength_u32 (Z.of_nat (length p))) as [_ H64]; [lia|].
    rewrite PushAll_WriteVarInt by done.
    unfold OnVarInt. cbn [state_ field_id_ fixed_int_shift_ fixed_int_bits_ fixed_int_value_].
    rewrite (proj2 (Z.ltb_ge _ _)) by lia. by rewrite Htok.
Qed.

(** ** Properties *)

(** Pushing the octets of a well-formed field (up to its payload, for
    length-delimited ones) into an idle tokenizer yields exactly one token,
    with the field's id, wire type and value (or payload length), and leaves
    the tokenizer idle. *)
Theorem tokenizer_field id0 w :
  wf_ok w ->
  PushAll (ready id0) (wf_header w) = ([wf_token w], ready (wf_id w)) /\
  idle (ready (wf_id w)) = true.
Proof. intros Hw. split; [by apply PushAll_header|done]. Qed.

Lemma tokenizer_field_witness :
  PushAll (ready 0) (wf_header (WFixed32 7 0x01020304)) = ([mkToken 7 kFixed32 0x01020304], ready 7).
Proof. apply (tokenizer_field 0 (WFixed32 7 0x01020304)). by vm_compute. Defined.

(** Over any input the tokenizer keeps its invariant (shifts below 64,
    so that no shift is undefined, registers at their widths, fixed-width
    accumulation aligned), and an error state is final: from then on no octet yields a token and the tokenizer is never
    idle. *)
Theorem tokenizer_safe l t toks t' :
  tok_ok t -> bytes_ok l -> PushAll t l = (toks, t') ->
  tok_ok t' /\ (is_error (state_ t) -> toks = [] /\ is_error (state_ t') /\ idle t' = false).
Proof.
  intros Ht Hl. revert t toks t' Ht; induction Hl as [|b l Hb _ IH]; intros t toks t' Ht H.
  - simplify_eq/=. split; [done|]. intros He. split_and!; try done. unfold idle.
    by destruct He as [E|[E|E]]; rewrite E.
  - cbn [PushAll] in H. pose proof (Push_ok t b Ht Hb) as Hok. pose proof (Push_error t b) as Herr.
    destruct (Push t b) as [tok t1]. cbn [fst snd] in *.
    destruct (PushAll t1 l) as [toks1 t2] eqn:E. destruct (IH t1 toks1 t2 Hok E) as [IH1 IH2].
    simplify_eq. split; [done|]. intros He. destruct (Herr He) as [-> He1].
    by apply IH2.
Qed.

Lemma tokenizer_safe_witness :
  PushAll (mkTokenizer kMessageTooBig 1 0 0 0 0 0) [0x08; 0x05] = ([], mkTokenizer kMessageTooBig 1 0 0 0 0 0) /\
  tok_ok (mkTokenizer kMessageTooBig 1 0 0 0 0 0).
Proof.
  split; [reflexivity|].
  apply (tokenizer_safe [0x08; 0x05] (mkTokenizer kMessageTooBig 1 0 0 0 0 0) []); [|..|reflexivity].
  - apply tok_ok_reset; [done|unfold_u; lia].
  - repeat constructor; unfold_u; lia.
Defined.
