(* ===== verification/PackedFields.v ===== *)
(** * Packed repeated fields

    Models include/dejaview/protozero/packed_repeated_fields.h with
    src/protozero/packed_repeated_fields.cc (the growing buffer behind
    [PackedVarInt] and [PackedFixedSizeInt]) and the reading side,
    [PackedRepeatedFieldIterator] of include/dejaview/protozero/proto_decoder.h.

    The storage is the list of its octets and the write pointer an offset into
    it; a write outside the storage is [None]. Storage that C++ leaves
    uninitialised is filled with zeros; the theorems only speak of the octets
    between the start and the write pointer. *)

From S2P Require Import Prelude ProtoUtils.

Definition kMaxElementSize : nat := 10.
Definition kOnStackStorageSize : Z := 8192 - 32.

(** [storage_begin_ .. storage_end_] and [write_ptr_]; [on_heap] is whether
    [heap_buf_] owns the storage. *)
Record PackedBuffer := mkPacked { storage : list Z; write_off : nat; on_heap : bool }.

Definition Reset (stack_buf : list Z) : PackedBuffer := mkPacked stack_buf 0 false.

Definition packed_data (b : PackedBuffer) : list Z := take (write_off b) (storage b).
Definition packed_size (b : PackedBuffer) : nat := write_off b.

Definition grown_size (old_size : Z) : Z :=
  AlignUp 4096 (if old_size <? 65536 then old_size * 2 else old_size * 3 / 2).

Definition GrowSlowpath (b : PackedBuffer) : option PackedBuffer :=
  let old_size := length (storage b) in
  let new_buf := replicate (Z.to_nat (grown_size (Z.of_nat old_size))) 0 in
  new_buf ← mem_write new_buf 0 (storage b);
  Some (mkPacked new_buf (write_off b) true).

Definition GrowIfNeeded (b : PackedBuffer) : option PackedBuffer :=
  if (length (storage b) <? write_off b + kMaxElementSize)%nat then GrowSlowpath b else Some b.

(** What both [Append]s do once the element's octets are known. *)
Definition packed_put (b : PackedBuffer) (octets : list Z) : option PackedBuffer :=
  b ← GrowIfNeeded b;
  buf ← mem_write (storage b) (write_off b) octets;
  Some (mkPacked buf (write_off b + length octets) (on_heap b)).

(** [PackedVarInt::Append<T>]: [is_unsigned] and [w] describe [T]. *)
Definition PackedVarInt_Append (is_unsigned : bool) (w : Z) (b : PackedBuffer) (value : Z) : option PackedBuffer :=
  packed_put b (WriteVarInt_T is_unsigned w value).

(** [PackedFixedSizeInt<T>::Append] with [sizeof(T) = size_of_T]. *)
Definition PackedFixedSizeInt_Append (size_of_T : nat) (b : PackedBuffer) (value : Z) : option PackedBuffer :=
  packed_put b (le_bytes size_of_T value).

(** ** The iterator *)

Record PackedIter := mkPIter {
  read_off : nat;            (** [read_ptr_ - data_begin] *)
  curr_value_ : Z;
  curr_value_valid_ : bool;
  parse_error_ : bool        (** the flag the caller supplied *)
}.

(** [PackedRepeatedFieldIterator::operator++]; [size_of_T] is [sizeof(CppType)],
    and [None] a [memcpy] that reads past [data_end_]. *)
Definition piter_incr (wire_type : ProtoWireType) (size_of_T : nat) (data : list Z) (it : PackedIter)
    : option PackedIter :=
  if negb (curr_value_valid_ it) then Some it
  else if (read_off it =? length data)%nat then
    Some (mkPIter (read_off it) (curr_value_ it) false (parse_error_ it))
  else
    match wire_type with
    | kVarInt =>
        let '(n, new_value) := ParseVarInt (drop (read_off it) data) in
        if (n =? 0)%nat then Some (mkPIter (read_off it) (curr_value_ it) false true)
        else Some (mkPIter (read_off it + n)
                     (new_value mod 2 ^ (8 * Z.of_nat size_of_T)) true (parse_error_ it))
    | _ =>
        let kStep := match wire_type with kFixed32 => 4%nat | _ => 8%nat end in
        octets ← mem_read data (read_off it) size_of_T;
        Some (mkPIter (read_off it + kStep) (le_val octets) true (parse_error_ it))
    end.

(** The constructor. *)
Definition piter_init (wire_type : ProtoWireType) (size_of_T : nat) (data : list Z) : option PackedIter :=
  let it := mkPIter 0 0 true false in
  let size := length data in
  if (size =? 0)%nat then Some (mkPIter 0 0 false false)
  else if (match wire_type with
           | kFixed32 => negb (size mod 4 =? 0)%nat
           | kFixed64 => negb (size mod 8 =? 0)%nat
           | _ => false
           end)
  then Some (mkPIter 0 0 false true)
  else piter_incr wire_type size_of_T data it.

(** [for (It it(data, size, &err); it; ++it) v.emplace_back( *it )], the values
    with the final error flag. *)
Fixpoint piter_loop (fuel : nat) (wire_type : ProtoWireType) (size_of_T : nat) (data : list Z)
    (it : PackedIter) : option (list Z * bool) :=
  if curr_value_valid_ it then
    match fuel with
    | O => None
    | S fuel =>
        it' ← piter_incr wire_type size_of_T data it;
        '(vs, e) ← piter_loop fuel wire_type size_of_T data it';
        Some (curr_value_ it :: vs, e)
    end
  else Some ([], parse_error_ it).

Definition UnpackAll (wire_type : ProtoWireType) (size_of_T : nat) (data : list Z) : option (list Z * bool) :=
  it ← piter_init wire_type size_of_T data;
  piter_loop (S (length data)) wire_type size_of_T data it.

(** ** Proofs *)

Definition packed_ok (b : PackedBuffer) : Prop :=
  (write_off b <= length (storage b))%nat /\
  kOnStackStorageSize <= Z.of_nat (length (storage b)) <= 2 * Z.of_nat (write_off b) + 8192 /\
  bytes_ok (storage b).

Lemma grown_size_bounds old :
  kOnStackStorageSize <= old < 2 ^ 62 ->
  old + Z.of_nat kMaxElementSize <= grown_size old < 2 * old + 4096.
Proof.
  change kOnStackStorageSize with 8160. change (Z.of_nat kMaxElementSize) with 10.
  intros H. assert (B : forall x, 0 <= x < 2 ^ 63 -> x <= AlignUp 4096 x < x + 4096).
  { intros x Hx. change 4096 with (2 ^ 12). apply AlignUp_bounds; lia. }
  unfold grown_size. destruct (Z.ltb_spec old 65536).
  - pose proof (B (old * 2)). lia.
  - assert (old + 10 <= old * 3 / 2 <= 2 * old) by (Z.div_mod_to_equations; lia).
    pose proof (B (old * 3 / 2)). lia.
Qed.

Lemma take_buf_write_app buf at_ data :
  (at_ + length data <= length buf)%nat ->
  take (at_ + length data) (buf_write buf at_ data) = take at_ buf ++ data.
Proof.
  intros H. pose proof (buf_write_range buf 0 at_ data ltac:(lia) H) as E.
  by rewrite !Nat.sub_0_r, !drop_0 in E.
Qed.

Lemma GrowIfNeeded_ok b :
  packed_ok b -> Z.of_nat (write_off b) < 2 ^ 60 ->
  exists b', GrowIfNeeded b = Some b' /\ packed_ok b' /\ write_off b' = write_off b /\
    packed_data b' = packed_data b /\ (write_off b + kMaxElementSize <= length (storage b'))%nat.
Proof.
  intros (H1 & H2 & H3) Hw. unfold GrowIfNeeded.
  destruct (Nat.ltb_spec (length (storage b)) (write_off b + kMaxElementSize)) as [Hg|Hg].
  - unfold GrowSlowpath. pose proof (grown_size_bounds (Z.of_nat (length (storage b))) ltac:(lia)) as Hn.
    set (n := grown_size _) in *. change (Z.of_nat kMaxElementSize) with 10 in Hn.
    change kOnStackStorageSize with 8160 in *. change kMaxElementSize with 10%nat in *.
    assert (Hl : (0 + length (storage b) <= length (replicate (Z.to_nat n) 0%Z))%nat) by (rewrite length_replicate; lia).
    rewrite mem_write_some by exact Hl. cbn [mbind option_bind].
    eexists; split; [reflexivity|]. unfold packed_ok, packed_data. cbn [storage write_off].
    rewrite buf_write_length, length_replicate by exact Hl. change kOnStackStorageSize with 8160. split_and!; try lia.
    + apply buf_write_ok; [|done]. apply Forall_replicate. unfold_u; lia.
    + unfold buf_write. rewrite take_0. cbn [app]. by rewrite take_app_le by lia.
  - exists b. split_and!; done.
Qed.

Lemma packed_put_ok b octets :
  packed_ok b -> Z.of_nat (write_off b) < 2 ^ 60 -> bytes_ok octets -> (length octets <= kMaxElementSize)%nat ->
  exists b', packed_put b octets = Some b' /\ packed_ok b' /\
    write_off b' = (write_off b + length octets)%nat /\ packed_data b' = packed_data b ++ octets.
Proof.
  intros Hb Hw Ho Hl. unfold packed_put.
  destruct (GrowIfNeeded_ok b Hb Hw) as (b1 & -> & (K1 & K2 & K3) & Eo & Ed & Hroom).
  cbn [mbind option_bind]. rewrite mem_write_some by lia. cbn [mbind option_bind].
  eexists; split; [reflexivity|]. unfold packed_ok, packed_data in *. cbn [storage write_off].
  rewrite buf_write_length, take_buf_write_app by lia. rewrite Ed, Eo. change kOnStackStorageSize with 8160 in *. split_and!; try lia; try done.
  by apply buf_write_ok.
Qed.

(** ** Elements: the three kinds a packed field can hold *)

Definition elem_size_ok (wt : ProtoWireType) (n : nat) : Prop :=
  match wt with
  | kVarInt => n = 4%nat \/ n = 8%nat
  | kFixed32 => n = 4%nat
  | kFixed64 => n = 8%nat
  | kLengthDelimited => False
  end.

Definition elem_ok (n : nat) (v : Z) : Prop := 0 <= v < 2 ^ (8 * Z.of_nat n).

Definition Append (wt : ProtoWireType) (n : nat) (b : PackedBuffer) (v : Z) : option PackedBuffer :=
  match wt with
  | kVarInt => PackedVarInt_Append true (8 * Z.of_nat n) b v
  | _ => PackedFixedSizeInt_Append n b v
  end.

Fixpoint AppendAll (wt : ProtoWireType) (n : nat) (b : PackedBuffer) (vs : list Z) : option PackedBuffer :=
  match vs with
  | [] => Some b
  | v :: vs => b ← Append wt n b v; AppendAll wt n b vs
  end.

Definition elem (wt : ProtoWireType) (n : nat) (v : Z) : list Z :=
  match wt with kVarInt => WriteVarInt v | _ => le_bytes n v end.

Definition elems (wt : ProtoWireType) (n : nat) (vs : list Z) : list Z := vs ≫= elem wt n.

Lemma elem_u64 wt n v : elem_size_ok wt n -> elem_ok n v -> is_u64 v.
Proof. intros Hs Hv. unfold elem_ok in Hv. destruct wt; simpl in Hs; destruct_or?; subst; simpl in *; unfold_u; lia. Qed.

Lemma elem_props wt n v :
  elem_size_ok wt n -> elem_ok n v ->
  bytes_ok (elem wt n v) /\ (0 < length (elem wt n v) <= kMaxElementSize)%nat.
Proof.
  intros Hs Hv. pose proof (elem_u64 wt n v Hs Hv) as H64. unfold elem, kMaxElementSize.
  destruct wt; simpl in Hs; try done.
  - split; [by apply WriteVarInt_ok|]. rewrite length_WriteVarInt by done.
    pose proof (varint_size_u64 v H64). pose proof (varint_size_pos v). lia.
  - split; [auto with dv|]. rewrite length_le_bytes. lia.
  - split; [auto with dv|]. rewrite length_le_bytes. lia.
Qed.

Lemma Append_elem wt n b v :
  elem_size_ok wt n -> elem_ok n v -> Append wt n b v = packed_put b (elem wt n v).
Proof.
  intros Hs Hv. unfold Append, elem, PackedVarInt_Append, PackedFixedSizeInt_Append, WriteVarInt_T.
  destruct wt; try done. unfold ExtendValueForVarIntSerialization.
  pose proof (elem_u64 kVarInt n v Hs Hv). unfold elem_ok in Hv.
  by rewrite ?Z.mod_small, ?u64_id by done.
Qed.

Lemma AppendAll_ok wt n vs b :
  elem_size_ok wt n -> Forall (elem_ok n) vs -> packed_ok b ->
  Z.of_nat (write_off b + 10 * length vs) < 2 ^ 60 ->
  exists b', AppendAll wt n b vs = Some b' /\ packed_ok b' /\
    packed_data b' = packed_data b ++ elems wt n vs.
Proof.
  intros Hs Hvs. revert b; induction Hvs as [|v vs Hv _ IH]; intros b Hb Hw; simpl.
  - exists b. unfold elems. simpl. by rewrite app_nil_r.
  - cbn [length] in Hw. rewrite Append_elem by done. destruct (elem_props wt n v Hs Hv) as [He Hl].
    unfold kMaxElementSize in Hl.
    destruct (packed_put_ok b (elem wt n v) Hb ltac:(lia) He (proj2 Hl)) as (b1 & -> & H1 & Ho & Hd).
    cbn [mbind option_bind].
    destruct (IH b1 H1 ltac:(lia)) as (b2 & -> & H2 & Hd2). exists b2. split_and!; try done.
    rewrite Hd2, Hd. by rewrite <- app_assoc.
Qed.

Lemma piter_incr_elem wt n pre v rest c e :
  elem_size_ok wt n -> elem_ok n v -> bytes_ok rest ->
  piter_incr wt n (pre ++ elem wt n v ++ rest) (mkPIter (length pre) c true e) =
    Some (mkPIter (length (pre ++ elem wt n v)) v true e).
Proof.
  intros Hs Hv Hr. destruct (elem_props wt n v Hs Hv) as [He Hl].
  pose proof (elem_u64 wt n v Hs Hv) as H64. unfold elem_ok in Hv.
  unfold piter_incr. cbn [curr_value_valid_ read_off curr_value_ parse_error_ negb].
  rewrite (proj2 (Nat.eqb_neq _ _)) by (rewrite !length_app; lia).
  destruct wt; simpl in Hs; try done; cbn [elem] in *.
  - rewrite drop_app_len, ParseVarInt_WriteVarInt by done.
    rewrite (proj2 (Nat.eqb_neq _ _)) by lia. rewrite length_app, Z.mod_small by exact Hv. done.
  - subst n. rewrite mem_read_some by (rewrite !length_app, length_le_bytes; lia). cbn [mbind option_bind].
    rewrite drop_app_len, take_app_length' by (by rewrite length_le_bytes).
    rewrite le_val_bytes, Z.mod_small, length_app, length_le_bytes by (exact Hv || lia). done.
  - subst n. rewrite mem_read_some by (rewrite !length_app, length_le_bytes; lia). cbn [mbind option_bind].
    rewrite drop_app_len, take_app_length' by (by rewrite length_le_bytes).
    rewrite le_val_bytes, Z.mod_small, length_app, length_le_bytes by (exact Hv || lia). done.
Qed.

Lemma elems_ok wt n vs : elem_size_ok wt n -> Forall (elem_ok n) vs -> bytes_ok (elems wt n vs).
Proof.
  intros Hs Hvs. induction Hvs as [|v vs Hv _ IH]; [constructor|].
  unfold elems. cbn [mbind list_bind]. apply bytes_ok_app. split; [by apply elem_props|done].
Qed.

Lemma elems_mod wt n vs :
  elem_size_ok wt n -> wt <> kVarInt -> (length (elems wt n vs) mod n = 0)%nat.
Proof.
  intros Hs Hw. assert (n <> 0%nat) by (destruct wt; simpl in Hs; lia).
  assert (length (elems wt n vs) = (length vs * n)%nat) as ->; [|by apply Nat.Div0.mod_mul].
  induction vs as [|v vs IH]; [done|]. unfold elems in *. cbn [mbind list_bind length].
  rewrite length_app, IH. unfold elem. destruct wt; try done; rewrite length_le_bytes; lia.
Qed.

Lemma piter_loop_elems fuel wt n pre v vs :
  elem_size_ok wt n -> Forall (elem_ok n) vs -> (length vs < fuel)%nat ->
  piter_loop fuel wt n (pre ++ elems wt n vs) (mkPIter (length pre) v true false) = Some (v :: vs, false).
Proof.
  intros Hs Hvs. revert fuel pre v; induction Hvs as [|v' vs Hv Hvs IH]; intros [|fuel] pre v Hf;
    cbn [length] in Hf; try lia; cbn [piter_loop curr_value_valid_].
  - unfold elems. cbn [mbind list_bind]. rewrite app_nil_r. unfold piter_incr at 1.
    cbn [curr_value_valid_ read_off negb]. rewrite Nat.eqb_refl. cbn [mbind option_bind].
    by destruct fuel.
  - unfold elems. cbn [mbind list_bind]. fold (elems wt n vs).
    change (list_bind _ _ _ vs) with (elems wt n vs).
    rewrite piter_incr_elem by (done || by apply elems_ok). cbn [mbind option_bind].
    rewrite (app_assoc pre). rewrite IH by lia. done.
Qed.

Lemma UnpackAll_elems wt n vs :
  elem_size_ok wt n -> Forall (elem_ok n) vs -> UnpackAll wt n (elems wt n vs) = Some (vs, false).
Proof.
  intros Hs Hvs. unfold UnpackAll, piter_init.
  destruct Hvs as [|v vs Hv Hvs]; [done|].
  assert (Hmod : wt <> kVarInt -> (length (elems wt n (v :: vs)) mod n = 0)%nat) by (by apply elems_mod).
  destruct (elem_props wt n v Hs Hv) as [He Hl].
  assert (Hle : (length vs < length (elems wt n (v :: vs)))%nat).
  { clear -Hs Hv Hvs. revert v Hv; induction Hvs as [|v' vs Hv' _ IH]; intros v Hv;
      unfold elems; cbn [mbind list_bind length]; rewrite length_app;
      destruct (elem_props wt n v Hs Hv) as [_ ?]; [lia|]. specialize (IH v' Hv').
    unfold elems in IH. cbn [mbind list_bind] in IH. lia. }
  rewrite (proj2 (Nat.eqb_neq _ _)) by lia.
  assert (E : elems wt n (v :: vs) = [] ++ elem wt n v ++ elems wt n vs) by done.
  set (data := elems wt n (v :: vs)) in *.
  assert (Hinc : piter_incr wt n data (mkPIter 0 0 true false) = Some (mkPIter (length (elem wt n v)) v true false)).
  { rewrite E. apply (piter_incr_elem wt n [] v); try done. by apply elems_ok. }
  assert (Hloop : piter_loop (S (length data)) wt n data (mkPIter (length (elem wt n v)) v true false) = Some (v :: vs, false)).
  { rewrite E at 2. cbn [app]. apply piter_loop_elems; try done. lia. }
  destruct wt; simpl in Hs; subst; try done; rewrite ?Hmod by done; cbn [Nat.eqb negb];
    rewrite Hinc; exact Hloop.
Qed.

(** Any octets at all: every iterator stays inside its buffer and stops. *)
Lemma piter_loop_total fuel wt n data it :
  bytes_ok data -> elem_size_ok wt n -> (read_off it <= length data)%nat ->
  (wt <> kVarInt -> (n <> 0 /\ (length data - read_off it) mod n = 0)%nat) ->
  (length data - read_off it < fuel)%nat ->
  exists r, piter_loop fuel wt n data it = Some r.
Proof.
  intros Hd Hs. revert it; induction fuel as [|fuel IH]; intros it Hr Hm Hf; [lia|].
  cbn [piter_loop]. destruct (curr_value_valid_ it) eqn:Ev; [|by eexists].
  unfold piter_incr. rewrite Ev. cbn [negb]. destruct (Nat.eqb_spec (read_off it) (length data)) as [|Hne].
  { cbn [mbind option_bind]. destruct fuel; by eexists. }
  assert (Hfix : wt <> kVarInt -> (read_off it + n <= length data)%nat).
  { intros Hw. destruct (Hm Hw) as [Hn Hz]. apply Nat.Div0.mod_divides in Hz as [c Hc].
    destruct c; [lia|nia]. }
  assert (Hgo : forall off v, (read_off it < off <= length data)%nat ->
     (wt <> kVarInt -> off = read_off it + n)%nat ->
     exists r, (piter_loop fuel wt n data (mkPIter off v true (parse_error_ it)) ≫= fun '(vs, e) => Some (curr_value_ it :: vs, e)) = Some r).
  { intros off v Ho Hoff. destruct (IH (mkPIter off v true (parse_error_ it))) as [[vs e] ->];
      cbn [read_off]; try lia; [|by eexists].
    intros Hw. destruct (Hm Hw) as [Hn Hz]. split; [done|]. rewrite (Hoff Hw) in *.
    apply Nat.Div0.mod_divides in Hz as [c Hc]. apply Nat.Div0.mod_divides. exists (c - 1)%nat. nia. }
  destruct wt; simpl in Hs; try done.
  - destruct (ParseVarInt _) as [k v] eqn:Ep. destruct (ParseVarInt_bounds _ k v (bytes_ok_drop _ _ Hd) Ep) as (Hk & _).
    rewrite length_drop in Hk. destruct (Nat.eqb_spec k 0).
    + cbn [mbind option_bind]. destruct fuel; by eexists.
    + cbn [mbind option_bind]. apply Hgo; [lia|done].
  - subst n. rewrite mem_read_some by (by apply Hfix). cbn [mbind option_bind]. specialize (Hfix ltac:(done)).
    apply Hgo; [lia|done].
  - subst n. rewrite mem_read_some by (by apply Hfix). cbn [mbind option_bind]. specialize (Hfix ltac:(done)).
    apply Hgo; [lia|done].
Qed.

Lemma packed_ok_Reset stack : Z.of_nat (length stack) = kOnStackStorageSize -> bytes_ok stack -> packed_ok (Reset stack).
Proof.
  intros H1 H2. unfold packed_ok. cbn [storage write_off Reset].
  change kOnStackStorageSize with 8160 in *. split_and!; try lia; done.
Qed.

(** ** Properties *)

(** Appending any values of the element type to a fresh packed buffer
    never writes outside its storage, however often it has to grow, and
    iterating over the resulting octets gives the same values back with no
    parse error, for the varint, fixed32 and fixed64 wire types. *)
Theorem packed_roundtrip wt n stack vs :
  elem_size_ok wt n -> Forall (elem_ok n) vs ->
  Z.of_nat (length stack) = kOnStackStorageSize -> bytes_ok stack ->
  Z.of_nat (10 * length vs) < 2 ^ 60 ->
  exists b, AppendAll wt n (Reset stack) vs = Some b /\
    (packed_size b <= length (storage b))%nat /\
    UnpackAll wt n (packed_data b) = Some (vs, false).
Proof.
  intros Hs Hvs Hl Hst Hn.
  destruct (AppendAll_ok wt n vs (Reset stack) Hs Hvs) as (b & E & Hok & Hd);
    [by apply packed_ok_Reset|done|].
  exists b. split_and!; [done|apply Hok|]. rewrite Hd. by apply UnpackAll_elems.
Qed.

Lemma packed_roundtrip_witness :
  exists b, AppendAll kVarInt 4 (Reset (replicate (Z.to_nat kOnStackStorageSize) 0)) [7; 300; 0xffffffff] = Some b /\
    (packed_size b <= length (storage b))%nat /\
    UnpackAll kVarInt 4 (packed_data b) = Some ([7; 300; 0xffffffff], false).
Proof.
  apply (packed_roundtrip kVarInt 4 (replicate (Z.to_nat kOnStackStorageSize) 0) [7; 300; 0xffffffff]).
  - by left.
  - repeat constructor; unfold elem_ok; simpl; lia.
  - rewrite length_replicate. apply Z2Nat.id. unfold kOnStackStorageSize. lia.
  - apply Forall_replicate. unfold_u; lia.
  - simpl; lia.
Defined.

(** over arbitrary octets (well formed or not) a packed iterator of any
    element type terminates, and never reads outside the payload. *)
Theorem UnpackAll_total wt n data :
  elem_size_ok wt n -> bytes_ok data -> exists vs err, UnpackAll wt n data = Some (vs, err).
Proof.
  intros Hs Hd.
  cut (exists r, UnpackAll wt n data = Some r); [intros [[vs e] H]; by exists vs, e|].
  unfold UnpackAll, piter_init.
  destruct (Nat.eqb_spec (length data) 0); [by eexists|].
  match goal with |- context [if ?c then _ else _] => destruct c eqn:Hc end; [by eexists|].
  assert (Hm : wt <> kVarInt -> (n <> 0 /\ length data mod n = 0)%nat).
  { destruct wt; simpl in Hs; try done; subst n; intros _;
      apply negb_false_iff, Nat.eqb_eq in Hc; split; done || lia. }
  destruct (piter_loop_total (S (S (length data))) wt n data (mkPIter 0 0 true false)) as [r Hr];
    try done; cbn [read_off]; try lia; [by rewrite Nat.sub_0_r|].
  remember (S (length data)) as fuel. cbn [piter_loop curr_value_valid_] in Hr.
  destruct (piter_incr wt n data _) as [it|]; [|done]. cbn [mbind option_bind] in *.
  destruct (piter_loop _ _ _ _ it) as [[vs e]|]; [by eexists|done].
Qed.

Lemma UnpackAll_total_witness :
  exists vs err, UnpackAll kFixed32 4 [1; 0; 0; 0; 2; 0; 0; 0] = Some (vs, err).
Proof. apply (UnpackAll_total kFixed32 4 [1; 0; 0; 0; 2; 0; 0; 0]); [done|]. repeat constructor; unfold_u; lia. Defined.
