(* ===== verification/FilterBytecode.v ===== *)
(** * The filter bytecode: generator, loader and queries

    Models src/protozero/filtering/filter_bytecode_generator.{h,cc} (a
    generator that [CHECK]s the order of its calls), filter_bytecode_parser.{h,cc}
    (which expands the bytecode into one word vector with an offset per message
    and answers queries from it), filter_bytecode_common.h (opcodes) and the
    FNV-1a [Hasher] of include/dejaview/ext/base/hash.h that checksums the
    bytecode.

    A failed [DEJAVIEW_CHECK] of the generator (which aborts the process) is
    [None]; so is a read outside a vector in the parser. *)

From S2P Require Import Prelude ProtoUtils PackedFields.

(** ** base::Hasher *)

Module Hasher.

Definition kFnv1a64OffsetBasis : Z := 0xcbf29ce484222325.
Definition kFnv1a64Prime : Z := 0x100000001b3.

(** [Update(const char* data, size_t size)]. *)
Fixpoint Update (result : Z) (data : list Z) : Z :=
  match data with
  | [] => result
  | b :: data => Update (u64 ((result .^ u8 b) * kFnv1a64Prime)) data
  end.

(** [Update(uint32_t)]: the four octets of the word in memory. *)
Definition Update_u32 (result : Z) (w : Z) : Z := Update result (le_bytes 4 w).

(** [Combine]/[UpdateAll] over words. *)
Definition digest_words (ws : list Z) : Z := foldl Update_u32 kFnv1a64OffsetBasis ws.

End Hasher.

(** ** Opcodes *)

Definition kFilterOpcode_EndOfMessage : Z := 0.
Definition kFilterOpcode_SimpleField : Z := 1.
Definition kFilterOpcode_SimpleFieldRange : Z := 2.
Definition kFilterOpcode_NestedField : Z := 3.
Definition kFilterOpcode_FilterString : Z := 4.

(** ** FilterBytecodeGenerator *)

Record Generator := mkGen {
  num_messages_ : Z;
  last_field_id_ : Z;
  max_msg_index_ : Z;
  endmessage_called_ : bool;
  bytecode_ : list Z
}.

Definition gen_init : Generator := mkGen 0 0 0 false [].

Definition EndMessage (g : Generator) : Generator :=
  mkGen (u32 (num_messages_ g + 1)) 0 (max_msg_index_ g) true
    (bytecode_ g ++ [kFilterOpcode_EndOfMessage]).

Definition AddSimpleField (g : Generator) (field_id : Z) : option Generator :=
  if last_field_id_ g <? field_id then
    Some (mkGen (num_messages_ g) field_id (max_msg_index_ g) false
            (bytecode_ g ++ [u32 (field_id << 3) .| kFilterOpcode_SimpleField]))
  else None.

Definition AddFilterStringField (g : Generator) (field_id : Z) : option Generator :=
  if last_field_id_ g <? field_id then
    Some (mkGen (num_messages_ g) field_id (max_msg_index_ g) false
            (bytecode_ g ++ [u32 (field_id << 3) .| kFilterOpcode_FilterString]))
  else None.

Definition AddSimpleFieldRange (g : Generator) (range_start range_len : Z) : option Generator :=
  if last_field_id_ g <? range_start then
    if 0 <? range_len then
      Some (mkGen (num_messages_ g) (u32 (range_start + range_len - 1)) (max_msg_index_ g) false
              (bytecode_ g ++ [u32 (range_start << 3) .| kFilterOpcode_SimpleFieldRange; range_len]))
    else None
  else None.

Definition AddNestedField (g : Generator) (field_id message_index : Z) : option Generator :=
  if last_field_id_ g <? field_id then
    Some (mkGen (num_messages_ g) field_id (Z.max (max_msg_index_ g) message_index) false
            (bytecode_ g ++ [u32 (field_id << 3) .| kFilterOpcode_NestedField; message_index]))
  else None.

(** [stack] is the uninitialised stack storage of the [PackedVarInt]. *)
Definition Serialize (stack : list Z) (g : Generator) : option (list Z) :=
  if endmessage_called_ g then
    if max_msg_index_ g <? num_messages_ g then
      words ← AppendAll kVarInt 4 (PackedFields.Reset stack) (bytecode_ g);
      words ← PackedFields.Append kVarInt 4 words (u32 (Hasher.digest_words (bytecode_ g)));
      Some (packed_data words)
    else None
  else None.

(** ** FilterBytecodeParser *)

Definition kDirectlyIndexLimit : Z := 128.
Definition kAllowed : Z := 1 << 31.
Definition kSimpleField : Z := 0x7fffffff.
Definition kFilterStringField : Z := 0x7ffffffe.

Record Parser := mkParser { words_ : list Z; message_offset_ : list Z }.

Definition Parser_Reset : Parser := mkParser [] [].

(** The locals of [LoadInternal] with the members it appends to. [dchecks_held]: no
    [DCHECK] has failed so far; one that fails, as it can on a range that wraps, is noted
    and loading goes on, as in a release build. *)
Record LoadState := mkLoad {
  ls_words : list Z;
  ls_offsets : list Z;
  direct_indexed_fields : list Z;
  ranges : list Z;
  max_msg_index : Z;
  is_eom : bool;
  dchecks_held : bool
}.

(** [vector::resize] (growing only) then the store at [field_id]. *)
Definition resize_to (n : nat) (l : list Z) : list Z := l ++ replicate (n - length l) 0.

Definition add_directly_indexed_field (dif : list Z) (field_id msg_id : Z) : list Z :=
  <[Z.to_nat field_id := kAllowed .| msg_id]>
    (resize_to (Nat.max (length dif) (Z.to_nat field_id + 1)) dif).

Definition add_range (rs : list Z) (id_start id_end msg_id : Z) : list Z :=
  rs ++ [id_start; id_end; kAllowed .| msg_id].

(** [for (; id < range_end && id < kDirectlyIndexLimit; ++id)
       add_directly_indexed_field(id, kAllowed | kSimpleField)]; at most
    [kDirectlyIndexLimit] rounds. *)
Fixpoint range_direct (fuel : nat) (dif : list Z) (id range_end : Z) : list Z * Z :=
  match fuel with
  | O => (dif, id)
  | S fuel =>
      if (id <? range_end) && (id <? kDirectlyIndexLimit) then
        range_direct fuel (add_directly_indexed_field dif id (kAllowed .| kSimpleField)) (id + 1) range_end
      else (dif, id)
  end.

(** The [DCHECK]s of [add_directly_indexed_field] and of [add_range], and those of the
    loop over a range. *)
Definition direct_dcheck (field_id : Z) : bool := (0 <? field_id) && (field_id <? kDirectlyIndexLimit).
Definition range_dcheck (id_start id_end : Z) : bool := (id_start <? id_end) && (kDirectlyIndexLimit <=? id_start).

Fixpoint range_direct_dchecks (fuel : nat) (id range_end : Z) : bool :=
  match fuel with
  | O => true
  | S fuel =>
      if (id <? range_end) && (id <? kDirectlyIndexLimit) then direct_dcheck id && range_direct_dchecks fuel (id + 1) range_end
      else true
  end.

(** The field branch: where [msg_id] goes. *)
Definition add_field (s : LoadState) (field_id msg_id max_idx : Z) : LoadState :=
  if field_id <? kDirectlyIndexLimit then
    mkLoad (ls_words s) (ls_offsets s) (add_directly_indexed_field (direct_indexed_fields s) field_id msg_id)
      (ranges s) max_idx false (dchecks_held s && direct_dcheck field_id)
  else
    mkLoad (ls_words s) (ls_offsets s) (direct_indexed_fields s)
      (add_range (ranges s) field_id (u32 (field_id + 1)) msg_id) max_idx false
      (dchecks_held s && range_dcheck field_id (u32 (field_id + 1))).

(** The range branch. *)
Definition add_simple_range (s : LoadState) (field_id range_len : Z) : LoadState :=
  let range_end := u32 (field_id + range_len) in
  let '(dif, id) :=
    range_direct (Z.to_nat kDirectlyIndexLimit) (direct_indexed_fields s) field_id range_end in
  mkLoad (ls_words s) (ls_offsets s) dif
    (if id <? range_end then add_range (ranges s) id range_end kSimpleField else ranges s)
    (max_msg_index s) false
    (dchecks_held s && range_direct_dchecks (Z.to_nat kDirectlyIndexLimit) field_id range_end &&
     ((kDirectlyIndexLimit <=? id) || (id =? range_end)) && (if id <? range_end then range_dcheck id range_end else true)).

(** The end-of-message branch. *)
Definition end_message (s : LoadState) : LoadState :=
  mkLoad
    (ls_words s ++ [u32 (Z.of_nat (length (direct_indexed_fields s)))] ++ direct_indexed_fields s ++ ranges s)
    (ls_offsets s ++ [u32 (Z.of_nat (length (ls_words s)))]) [] [] (max_msg_index s) true (dchecks_held s).

(** The loop over the bytecode words; [words[++i]] takes the next word. [false]: rejected. *)
Fixpoint load_loop (s : LoadState) (ws : list Z) : bool * LoadState :=
  match ws with
  | [] => (true, s)
  | word :: ws =>
      let opcode := word .& 7 in
      let field_id := word >> 3 in
      if (field_id =? 0) && negb (opcode =? kFilterOpcode_EndOfMessage) then (false, s)
      else if opcode =? kFilterOpcode_SimpleField then
        load_loop (add_field s field_id kSimpleField (max_msg_index s)) ws
      else if opcode =? kFilterOpcode_FilterString then
        load_loop (add_field s field_id kFilterStringField (max_msg_index s)) ws
      else if opcode =? kFilterOpcode_NestedField then
        match ws with
        | [] => (false, s)
        | msg_id :: ws => load_loop (add_field s field_id msg_id (Z.max (max_msg_index s) msg_id)) ws
        end
      else if opcode =? kFilterOpcode_SimpleFieldRange then
        match ws with
        | [] => (false, s)
        | range_len :: ws => load_loop (add_simple_range s field_id range_len) ws
        end
      else if opcode =? kFilterOpcode_EndOfMessage then load_loop (end_message s) ws
      else (false, s)
  end.

Definition load_init : LoadState := mkLoad [] [] [] [] 0 true true.

(** The parser, if the bytecode is accepted, and whether all [DCHECK]s held. *)
Definition LoadInternal (data : list Z) : option Parser * bool :=
  match UnpackAll kVarInt 4 data with
  | None => (None, true)
  | Some (words, packed_parse_err) =>
      if packed_parse_err then (None, true)
      else
        match last words with
        | None => (None, true)
        | Some csum =>
            let body := take (length words - 1) words in
            if negb (u32 (Hasher.digest_words body) =? csum) then (None, true)
            else
              let '(accepted, s) := load_loop load_init body in
              let rejected :=
                negb accepted || negb (is_eom s) ||
                ((0 <? max_msg_index s) && (Z.of_nat (length (ls_offsets s)) <=? max_msg_index s)) in
              (if rejected then None
               else Some (mkParser (ls_words s) (ls_offsets s ++ [u32 (Z.of_nat (length (ls_words s)))])),
               dchecks_held s)
        end
  end.

(** [Load]: the result and the parser it leaves behind. *)
Definition Load (data : list Z) : bool * Parser :=
  match fst (LoadInternal data) with
  | Some p => (true, p)
  | None => (false, Parser_Reset)
  end.

(** Whether all [DCHECK]s hold while loading. *)
Definition Load_dchecks (data : list Z) : bool := snd (LoadInternal data).

Record QueryResult := mkQuery { allowed : bool; nested_msg_index : Z }.

Definition simple_field (r : QueryResult) : bool := nested_msg_index r =? kSimpleField.
Definition filter_string_field (r : QueryResult) : bool := nested_msg_index r =? kFilterStringField.
Definition nested_msg_field (r : QueryResult) : bool := nested_msg_index r <? kFilterStringField.

(** The scan of the ranges between word indices [word] and [end_]. *)
Fixpoint query_ranges (fuel : nat) (ws : list Z) (word end_ : nat) (field_id : Z) : option Z :=
  if (word + 2 <? end_)%nat then
    match fuel with
    | O => None
    | S fuel =>
        range_start ← ws !! word;
        range_end ← ws !! (word + 1)%nat;
        range_state ← ws !! (word + 2)%nat;
        if (range_start <=? field_id) && (field_id <? range_end) then Some range_state
        else query_ranges fuel ws (word + 3) end_ field_id
    end
  else Some 0.

(** [Query]: [None] is a failed [DCHECK] or a read outside [words_] or [message_offset_]. *)
Definition Query (p : Parser) (msg_index field_id : Z) : option QueryResult :=
  if Z.of_nat (length (message_offset_ p)) <=? msg_index + 1 then Some (mkQuery false 0)
  else
    start_offset ← message_offset_ p !! Z.to_nat msg_index;
    end_off ← message_offset_ p !! Z.to_nat (msg_index + 1);
    if negb ((start_offset <? end_off) && (end_off <=? Z.of_nat (length (words_ p)))) then None
    else
      num_directly_indexed ← words_ p !! Z.to_nat start_offset;
      let word := (Z.to_nat start_offset + 1)%nat in
      if negb ((num_directly_indexed <=? kDirectlyIndexLimit) && (Z.of_nat word + num_directly_indexed <=? end_off)) then None
      else
        field_state ←
          (if field_id <? num_directly_indexed then
             if Z.of_nat word + field_id <? end_off then words_ p !! (word + Z.to_nat field_id)%nat else None
           else query_ranges (length (words_ p)) (words_ p) (word + Z.to_nat num_directly_indexed)
                  (Z.to_nat end_off) field_id);
        let res := mkQuery (negb (field_state .& kAllowed =? 0)) (field_state .& u32 (Z.lnot kAllowed)) in
        if negb (nested_msg_field res) || (nested_msg_index res <? Z.of_nat (length (message_offset_ p)) - 1) then Some res else None.

(** ** Message descriptors: what the word vector holds *)

Record desc := mkDesc { d_dif : list Z; d_rs : list (Z * Z * Z) }.

Definition flat (rs : list (Z * Z * Z)) : list Z := rs ≫= fun '(s, e, st) => [s; e; st].
Definition desc_words (d : desc) : list Z :=
  [u32 (Z.of_nat (length (d_dif d)))] ++ d_dif d ++ flat (d_rs d).

Fixpoint first_match (rs : list (Z * Z * Z)) (f : Z) : Z :=
  match rs with
  | [] => 0
  | (s, e, st) :: rs => if (s <=? f) && (f <? e) then st else first_match rs f
  end.

(** The state word of field [f]. *)
Definition desc_query (d : desc) (f : Z) : Z :=
  if f <? kDirectlyIndexLimit then default 0 (d_dif d !! Z.to_nat f) else first_match (d_rs d) f.

Definition result_of (st : Z) : QueryResult :=
  mkQuery (negb (st .& kAllowed =? 0)) (st .& u32 (Z.lnot kAllowed)).

Fixpoint offsets (o : Z) (ds : list desc) : list Z :=
  match ds with
  | [] => []
  | d :: ds => u32 o :: offsets (o + Z.of_nat (length (desc_words d))) ds
  end.

(** A state word that grants access to nothing, or to a simple field, a string
    to filter or a message with index at most [M]. *)
Definition st_ok (M st : Z) : Prop :=
  st = 0 \/ exists m, st = kAllowed .| m /\ (m = kSimpleField \/ m = kFilterStringField \/ 0 <= m <= M).

Definition desc_ok (M : Z) (d : desc) : Prop :=
  Z.of_nat (length (d_dif d)) <= kDirectlyIndexLimit /\ Forall (st_ok M) (d_dif d) /\
  Forall (fun '(s, e, st) => kDirectlyIndexLimit <= s /\ st_ok M st) (d_rs d).

Lemma st_ok_mono M M' st : M <= M' -> st_ok M st -> st_ok M' st.
Proof. intros HM [->|(m & -> & H)]; [by left|right]. exists m. split; [done|]. destruct H as [|[|]]; auto. right; right; lia. Qed.

Lemma desc_ok_mono M M' d : M <= M' -> desc_ok M d -> desc_ok M' d.
Proof.
  intros HM (H1 & H2 & H3). split_and!; [done|..].
  - eapply Forall_impl; [exact H2|]. intros; by eapply st_ok_mono.
  - eapply Forall_impl; [exact H3|]. intros [[s e] st] [? ?]. split; [done|by eapply st_ok_mono].
Qed.

Lemma length_flat rs : length (flat rs) = (3 * length rs)%nat.
Proof. unfold flat. induction rs as [|[[s e] st] rs IH]; [done|]. cbn [mbind list_bind]. rewrite length_app. simpl in *. lia. Qed.

Lemma flat_app rs rs' : flat (rs ++ rs') = flat rs ++ flat rs'.
Proof. apply bind_app. Qed.

Lemma length_desc_words d : length (desc_words d) = (1 + length (d_dif d) + 3 * length (d_rs d))%nat.
Proof. unfold desc_words. rewrite !length_app, length_flat. simpl. lia. Qed.

(** Adding to the direct table changes one entry. *)
Lemma lookup_resize_to n l i : default 0 (resize_to n l !! i) = default 0 (l !! i).
Proof.
  unfold resize_to. destruct (decide (i < length l)%nat).
  - by rewrite lookup_app_l.
  - rewrite lookup_app_r, (lookup_ge_None_2 l) by lia. apply default_lookup_replicate.
Qed.

Lemma length_resize_to n l : length (resize_to n l) = Nat.max (length l) n.
Proof. unfold resize_to. rewrite length_app, length_replicate. lia. Qed.

Lemma length_add_directly dif id m :
  length (add_directly_indexed_field dif id m) = Nat.max (length dif) (Z.to_nat id + 1).
Proof. unfold add_directly_indexed_field. rewrite length_insert, length_resize_to. lia. Qed.

Lemma lookup_add_directly dif id m f :
  0 <= id -> 0 <= f ->
  default 0 (add_directly_indexed_field dif id m !! Z.to_nat f) =
    if f =? id then kAllowed .| m else default 0 (dif !! Z.to_nat f).
Proof.
  intros Hid Hf. unfold add_directly_indexed_field. destruct (Z.eqb_spec f id) as [->|Hne].
  - rewrite list_lookup_insert_eq; [done|]. rewrite length_resize_to. lia.
  - rewrite list_lookup_insert_ne by lia. apply lookup_resize_to.
Qed.

Lemma Forall_add_directly M dif id m :
  st_ok M (kAllowed .| m) -> Forall (st_ok M) dif -> Forall (st_ok M) (add_directly_indexed_field dif id m).
Proof.
  intros Hm Hd. unfold add_directly_indexed_field, resize_to. apply Forall_insert; [|done].
  apply Forall_app. split; [done|]. apply Forall_replicate. by left.
Qed.

Lemma range_direct_spec fuel dif id e dif' id' :
  0 < id -> range_direct fuel dif id e = (dif', id') -> kDirectlyIndexLimit - id <= Z.of_nat fuel ->
  id <= id' /\ (id < e -> id' = Z.max id (Z.min e kDirectlyIndexLimit)) /\ (e <= id -> id' = id) /\
  (forall f, 0 <= f -> default 0 (dif' !! Z.to_nat f) =
     if (id <=? f) && (f <? id') then kAllowed .| kSimpleField else default 0 (dif !! Z.to_nat f)) /\
  (Z.of_nat (length dif) <= kDirectlyIndexLimit -> Z.of_nat (length dif') <= kDirectlyIndexLimit) /\
  (forall M, Forall (st_ok M) dif -> Forall (st_ok M) dif').
Proof.
  revert dif id; induction fuel as [|fuel IH]; intros dif id Hid H Hf; simpl in H.
  - simplify_eq. split_and!; try lia; try done. intros f ?.
    by replace ((id' <=? f) && (f <? id')) with false by lia.
  - unfold kDirectlyIndexLimit in *. destruct ((id <? e) && (id <? 128)) eqn:C.
    + apply andb_true_iff in C as [C1%Z.ltb_lt C2%Z.ltb_lt].
      apply IH in H as (H1 & H2 & H3 & H4 & H5 & H6); try lia. split_and!; try lia.
      * intros f Hf0. rewrite H4, lookup_add_directly by lia.
        destruct (Z.eqb_spec f id) as [->|].
        -- rewrite (proj2 (Z.leb_gt (id + 1) id)) by lia. cbn [andb].
           by replace ((id <=? id) && (id <? id')) with true by lia.
        -- by replace ((id <=? f) && (f <? id')) with ((id + 1 <=? f) && (f <? id')) by lia.
      * intros. apply H5. rewrite length_add_directly. lia.
      * intros M Hd. apply H6, Forall_add_directly; [|done]. right. exists kSimpleField. auto.
    + simplify_eq. split_and!; try lia; try done. intros f ?.
      by replace ((id' <=? f) && (f <? id')) with false by lia.
Qed.

(** ** The loader's invariant *)

(** [ds] are the messages already ended and [cur] the one being built. *)
Definition represents (s : LoadState) (ds : list desc) (cur : desc) : Prop :=
  ls_words s = ds ≫= desc_words /\ ls_offsets s = offsets 0 ds /\
  direct_indexed_fields s = d_dif cur /\ ranges s = flat (d_rs cur) /\
  0 <= max_msg_index s /\
  desc_ok (max_msg_index s) cur /\ Forall (desc_ok (max_msg_index s)) ds.

(** The same additions on descriptors. *)
Definition d_add_field (d : desc) (id m : Z) : desc :=
  if id <? kDirectlyIndexLimit then mkDesc (add_directly_indexed_field (d_dif d) id m) (d_rs d)
  else mkDesc (d_dif d) (d_rs d ++ [(id, u32 (id + 1), kAllowed .| m)]).

Definition d_add_range (d : desc) (id len : Z) : desc :=
  let e := u32 (id + len) in
  let '(dif, id') := range_direct (Z.to_nat kDirectlyIndexLimit) (d_dif d) id e in
  mkDesc dif (if id' <? e then d_rs d ++ [(id', e, kAllowed .| kSimpleField)] else d_rs d).

Lemma desc_ok_add_field M d id m :
  0 < id -> (m = kSimpleField \/ m = kFilterStringField \/ 0 <= m <= M) ->
  desc_ok M d -> desc_ok M (d_add_field d id m).
Proof.
  intros Hid Hm (H1 & H2 & H3). unfold d_add_field.
  assert (st_ok M (kAllowed .| m)) by (right; by exists m).
  destruct (Z.ltb_spec id kDirectlyIndexLimit); split_and!; cbn [d_dif d_rs]; try done.
  - rewrite length_add_directly. lia.
  - by apply Forall_add_directly.
  - apply Forall_app. split; [done|]. by apply Forall_singleton.
Qed.

Lemma desc_ok_add_range M d id len : 0 < id -> desc_ok M d -> desc_ok M (d_add_range d id len).
Proof.
  intros Hid (H1 & H2 & H3). unfold d_add_range.
  destruct (range_direct _ _ _ _) as [dif id'] eqn:E.
  apply range_direct_spec in E as (_ & E2 & E3 & _ & E5 & E6); [|lia|unfold kDirectlyIndexLimit; lia].
  split_and!; cbn [d_dif d_rs]; [by apply E5|by apply E6|].
  destruct (Z.ltb_spec id' (u32 (id + len))); [|done]. apply Forall_app. split; [done|].
  apply Forall_singleton. split; [unfold kDirectlyIndexLimit in *; lia|]. right. exists kSimpleField. auto.
Qed.

Lemma represents_add_field s ds cur id m mx :
  represents s ds cur -> 0 < id -> max_msg_index s <= mx ->
  (m = kSimpleField \/ m = kFilterStringField \/ 0 <= m <= mx) ->
  represents (add_field s id m mx) ds (d_add_field cur id m).
Proof.
  intros (H1 & H2 & H3 & H4 & H5 & H6 & H7) Hid Hmx Hm.
  assert (Hcur : desc_ok mx (d_add_field cur id m))
    by (apply desc_ok_add_field; try done; by eapply desc_ok_mono).
  assert (Hds : Forall (desc_ok mx) ds)
    by (eapply Forall_impl; [exact H7|]; intros; by eapply desc_ok_mono).
  unfold add_field, d_add_field in *. destruct (id <? kDirectlyIndexLimit);
    split_and!; cbn; try done; try lia; rewrite ?H3, ?H4; try done.
  unfold add_range. by rewrite flat_app.
Qed.

Lemma represents_add_range s ds cur id len :
  represents s ds cur -> 0 < id -> represents (add_simple_range s id len) ds (d_add_range cur id len).
Proof.
  intros (H1 & H2 & H3 & H4 & H5 & H6 & H7) Hid.
  pose proof (desc_ok_add_range _ cur id len Hid H6) as Hcur.
  unfold add_simple_range, d_add_range in *. rewrite H3.
  destruct (range_direct _ _ _ _) as [dif id']. split_and!; cbn; try done; try lia.
  rewrite H4. destruct (id' <? u32 (id + len)); [|done]. unfold add_range. by rewrite flat_app.
Qed.

Lemma offsets_snoc o ds d :
  offsets o (ds ++ [d]) = offsets o ds ++ [u32 (o + Z.of_nat (length (ds ≫= desc_words)))].
Proof.
  revert o; induction ds as [|d' ds IH]; intros o; cbn [app offsets mbind list_bind length].
  - by rewrite Z.add_0_r.
  - rewrite IH. cbn [app]. do 4 f_equal. cbn [mbind list_bind]. rewrite length_app. lia.
Qed.

Definition d_empty : desc := mkDesc [] [].
Lemma desc_ok_empty M : desc_ok M d_empty.
Proof. split_and!; [done|constructor|constructor]. Qed.

Lemma represents_end s ds cur :
  represents s ds cur -> represents (end_message s) (ds ++ [cur]) d_empty.
Proof.
  intros (H1 & H2 & H3 & H4 & H5 & H6 & H7). split_and!; cbn; try done.
  - rewrite H1, H3, H4, bind_app. cbn [mbind list_bind]. by rewrite app_nil_r.
  - by rewrite offsets_snoc, H2, H1.
  - apply Forall_app. auto.
Qed.

Definition ls_size (s : LoadState) : nat := length (ls_words s) + length (ranges s).

Lemma ls_size_add_field s id m mx : (ls_size (add_field s id m mx) <= ls_size s + 132)%nat.
Proof.
  unfold add_field, ls_size. destruct (_ <? _); cbn [ls_words ranges]; [lia|].
  unfold add_range. rewrite length_app. simpl. lia.
Qed.

Lemma ls_size_add_range s id len : (ls_size (add_simple_range s id len) <= ls_size s + 132)%nat.
Proof.
  unfold add_simple_range, ls_size. destruct (range_direct _ _ _ _); cbn [ls_words ranges].
  destruct (_ <? _); [|lia]. unfold add_range. rewrite length_app. simpl. lia.
Qed.

Lemma ls_size_end s ds cur : represents s ds cur -> (ls_size (end_message s) <= ls_size s + 132)%nat.
Proof.
  intros (_ & _ & H3 & _ & _ & (H6 & _) & _). unfold end_message, ls_size. cbn [ls_words ranges length].
  rewrite !length_app, H3. unfold kDirectlyIndexLimit in H6. simpl. lia.
Qed.

Lemma load_loop_represents s ds cur ws s' :
  Forall is_u32 ws -> represents s ds cur -> load_loop s ws = (true, s') ->
  exists ds' cur', represents s' ds' cur' /\ (ls_size s' <= ls_size s + 132 * length ws)%nat.
Proof.
  remember (length ws) as n eqn:Hn. assert (Hle : (length ws <= n)%nat) by lia. clear Hn.
  revert s ds cur ws Hle; induction n as [|n IH]; intros s ds cur [|w ws] Hle Hws Hr H; simpl in H;
    cbn [length] in Hle; try lia; simplify_eq; try (exists ds, cur; split; [done|lia]).
  inversion_clear Hws as [|?? Hw Hws'].
  assert (Hid : 0 <= w >> 3) by (rewrite shiftr_div by lia; divlia).
  assert (Hgo : forall ws' s1 ds1 cur1, (length ws' <= n)%nat -> Forall is_u32 ws' -> represents s1 ds1 cur1 ->
     (ls_size s1 <= ls_size s + 132)%nat -> load_loop s1 ws' = (true, s') ->
     exists ds' cur', represents s' ds' cur' /\ (ls_size s' <= ls_size s + 132 * S n)%nat).
  { intros ws' s1 ds1 cur1 Hl Hws1 Hr1 He1 Hl1.
    destruct (IH s1 ds1 cur1 ws') as (ds' & cur' & ? & Hc); try done.
    exists ds', cur'. split; [done|]. lia. }
  destruct ((w >> 3 =? 0) && _) eqn:C; [done|].
  assert (Hpos : w .& 7 <> kFilterOpcode_EndOfMessage -> 0 < w >> 3).
  { intros Ho. apply andb_false_iff in C as [C%Z.eqb_neq|C]; [lia|]. apply negb_false_iff, Z.eqb_eq in C. done. }
  pose proof ls_size_add_field as Hsf. pose proof ls_size_add_range as Hsr.
  assert (Hmax : forall m, 0 <= m -> 0 <= m <= Z.max (max_msg_index s) m) by lia.
  destruct (Z.eqb_spec (w .& 7) kFilterOpcode_SimpleField) as [Op|_].
  { eapply Hgo; [|exact Hws'|apply represents_add_field|..|exact H];
      eauto; try lia. apply Hpos; by rewrite Op. }
  destruct (Z.eqb_spec (w .& 7) kFilterOpcode_FilterString) as [Op|_].
  { eapply Hgo; [|exact Hws'|apply represents_add_field|..|exact H];
      eauto; try lia. apply Hpos; by rewrite Op. }
  destruct (Z.eqb_spec (w .& 7) kFilterOpcode_NestedField) as [Op|_].
  { destruct ws as [|m ws]; [done|]. inversion_clear Hws' as [|?? Hm Hws'']. cbn [length] in Hle.
    destruct Hm as [Hm _].
    eapply Hgo; [|exact Hws''|apply represents_add_field|..|exact H];
      eauto; try lia. apply Hpos; by rewrite Op. }
  destruct (Z.eqb_spec (w .& 7) kFilterOpcode_SimpleFieldRange) as [Op|_].
  { destruct ws as [|m ws]; [done|]. inversion_clear Hws' as [|?? Hm Hws'']. cbn [length] in Hle.
    eapply Hgo; [|exact Hws''|apply represents_add_range|..|exact H];
      eauto; try lia. apply Hpos; by rewrite Op. }
  destruct (Z.eqb_spec (w .& 7) kFilterOpcode_EndOfMessage) as [Op|_]; [|done].
  eapply Hgo; [|exact Hws'|apply represents_end|..|exact H]; eauto using ls_size_end; lia.
Qed.

(** ** Queries over a represented table *)

Lemma query_ranges_flat fuel pre rs post f :
  (length rs <= fuel)%nat ->
  query_ranges fuel (pre ++ flat rs ++ post) (length pre) (length pre + 3 * length rs) f = Some (first_match rs f).
Proof.
  revert fuel pre; induction rs as [|[[s e] st] rs IH]; intros fuel pre Hf; cbn [length] in Hf.
  - destruct fuel; cbn [query_ranges]; by rewrite (proj2 (Nat.ltb_ge _ _)) by (simpl; lia).
  - destruct fuel as [|fuel]; [lia|]. cbn [query_ranges length].
    rewrite (proj2 (Nat.ltb_lt _ _)) by lia.
    assert (E : pre ++ flat ((s, e, st) :: rs) ++ post = (pre ++ [s; e; st]) ++ flat rs ++ post)
      by (unfold flat; cbn [mbind list_bind]; by rewrite <- !app_assoc).
    rewrite E.
    assert (L : forall k, (k < 3)%nat -> ((pre ++ [s; e; st]) ++ flat rs ++ post) !! (length pre + k)%nat = [s; e; st] !! k).
    { intros k Hk. rewrite <- app_assoc, lookup_app_r by lia.
      replace (length pre + k - length pre)%nat with k by lia. rewrite lookup_app_l by (simpl; lia). done. }
    rewrite <- (Nat.add_0_r (length pre)) at 1. rewrite !L by lia. cbn [lookup list_lookup mbind option_bind].
    cbn [first_match]. destruct ((s <=? f) && (f <? e)); [done|].
    replace (length pre + 3)%nat with (length (pre ++ [s; e; st])) by (rewrite length_app; simpl; lia).
    replace (length pre + 3 * S (length rs))%nat with (length (pre ++ [s; e; st]) + 3 * length rs)%nat
      by (rewrite length_app; simpl; lia).
    apply IH. lia.
Qed.

Lemma lookup_offsets o ds i :
  (i < length ds)%nat -> offsets o ds !! i = Some (u32 (o + Z.of_nat (length (take i ds ≫= desc_words)))).
Proof.
  revert o i; induction ds as [|d ds IH]; intros o i Hi; cbn [length] in Hi; [lia|].
  destruct i as [|i]; cbn [offsets lookup list_lookup take mbind list_bind].
  - by rewrite Z.add_0_r.
  - change (list_lookup i ?l) with (l !! i).
    rewrite IH by lia. do 2 f_equal. cbn [take mbind list_bind]. rewrite length_app. lia.
Qed.

Lemma length_offsets o ds : length (offsets o ds) = length ds.
Proof. revert o; induction ds; intros; simpl; auto. Qed.

Lemma first_match_low M rs f :
  Forall (fun '(s, e, st) => kDirectlyIndexLimit <= s /\ st_ok M st) rs -> f < kDirectlyIndexLimit ->
  first_match rs f = 0.
Proof.
  intros Hrs Hf. induction Hrs as [|[[s e] st] rs [Hs _] _ IH]; [done|]. cbn [first_match].
  by rewrite (proj2 (Z.leb_gt _ _)) by lia.
Qed.

Lemma desc_query_st M d f : desc_ok M d -> st_ok M (desc_query d f).
Proof.
  intros (_ & H2 & H3). unfold desc_query. destruct (_ <? _).
  - destruct (d_dif d !! Z.to_nat f) as [x|] eqn:E; [|by left]. simpl. by eapply Forall_lookup_1.
  - induction H3 as [|[[s e] st] rs [_ Hst] _ IH]; [by left|]. cbn [first_match].
    by destruct ((s <=? f) && (f <? e)).
Qed.

(** A state that is in range leads to a message that exists. *)
Lemma result_of_nested M n st : st_ok M st -> (M = 0 \/ M < n) -> 0 < n ->
  negb (nested_msg_field (result_of st)) || (nested_msg_index (result_of st) <? n) = true.
Proof.
  intros Hst HM Hn. unfold nested_msg_field, result_of. cbn [nested_msg_index]. change (u32 (Z.lnot kAllowed)) with (Z.ones 31).
  rewrite Z.land_ones by lia. apply orb_true_iff. rewrite negb_true_iff, Z.ltb_ge, Z.ltb_lt.
  destruct Hst as [->|(m & -> & [->|[->|Hm]])]; [right; done|by left|by left|]. right.
  rewrite <- Z.land_ones, Z.land_lor_distr_l by lia. change (kAllowed .& Z.ones 31) with 0. rewrite Z.lor_0_l, Z.land_ones by lia.
  pose proof (Z.mod_le m (2 ^ 31)). lia.
Qed.

(** A [Query] on the table of [ds] reads only inside it and answers with the
    state of the field in the message's descriptor. *)
Lemma Query_represented M ds m f :
  let ws := ds ≫= desc_words in
  let p := mkParser ws (offsets 0 ds ++ [u32 (Z.of_nat (length ws))]) in
  Forall (desc_ok M) ds -> (M = 0 \/ M < Z.of_nat (length ds)) -> Z.of_nat (length ws) < 2 ^ 32 -> 0 <= m -> 0 <= f ->
  Query p m f =
    Some (match ds !! Z.to_nat m with
          | Some d => result_of (desc_query d f)
          | None => mkQuery false 0
          end).
Proof.
  intros ws p Hds HM Hlen Hm Hf. unfold Query. cbn [words_ message_offset_ p].
  replace (offsets 0 ds ++ [u32 (Z.of_nat (length ws))]) with (offsets 0 (ds ++ [d_empty]))
    by (rewrite offsets_snoc; by rewrite Z.add_0_l).
  rewrite length_offsets, length_app. cbn [length].
  destruct (Z.leb_spec (Z.of_nat (length ds + 1)) (m + 1)).
  { by rewrite lookup_ge_None_2 by lia. }
  rewrite !lookup_offsets by (rewrite length_app; simpl; lia). cbn [mbind option_bind].
  destruct (lookup_lt_is_Some_2 ds (Z.to_nat m)) as [d Hd]; [lia|]. rewrite Hd.
  pose proof (Forall_lookup_1 _ _ _ _ Hds Hd) as (D1 & D2 & D3).
  set (pre := take (Z.to_nat m) ds ≫= desc_words). set (post := drop (S (Z.to_nat m)) ds ≫= desc_words).
  assert (Hws : ws = pre ++ desc_words d ++ post).
  { unfold ws. rewrite <- (take_drop_middle ds _ d Hd) at 1. rewrite bind_app. by cbn [mbind list_bind]. }
  rewrite take_app_le by lia. rewrite take_app_le by lia. fold pre.
  replace (take (Z.to_nat (m + 1)) ds ≫= desc_words) with (pre ++ desc_words d).
  2: { replace (Z.to_nat (m + 1)) with (S (Z.to_nat m)) by lia. rewrite (take_S_r ds _ d Hd), bind_app.
       cbn [mbind list_bind]. by rewrite app_nil_r. }
  assert (Hl2 := f_equal length Hws). rewrite !length_app in Hl2.
  rewrite !Z.add_0_l, (u32_id (Z.of_nat (length pre))), (u32_id (Z.of_nat (length (pre ++ _))))
    by (unfold is_u32; rewrite ?length_app; lia).
  pose proof (length_desc_words d) as Hdw.
  rewrite (proj2 (Z.ltb_lt _ _)), (proj2 (Z.leb_le _ _)) by (rewrite ?Hws, !length_app; lia). cbn [negb andb].
  rewrite !Nat2Z.id. rewrite Hws.
  assert (Hw0 : (pre ++ desc_words d ++ post) !! length pre = Some (u32 (Z.of_nat (length (d_dif d))))).
  { rewrite lookup_app_r, Nat.sub_diag by lia. done. }
  rewrite Hw0. cbn [mbind option_bind]. unfold kDirectlyIndexLimit in D1. rewrite (u32_id (Z.of_nat (length (d_dif d)))) by (unfold_u; lia).
  rewrite (proj2 (Z.leb_le _ kDirectlyIndexLimit)), (proj2 (Z.leb_le _ (Z.of_nat (length (pre ++ _))))) by (rewrite ?length_app; unfold kDirectlyIndexLimit; lia).
  cbn [negb andb].
  assert (Hpre2 : pre ++ desc_words d ++ post =
     (pre ++ [u32 (Z.of_nat (length (d_dif d)))] ++ d_dif d) ++ flat (d_rs d) ++ post)
    by (unfold desc_words; by rewrite <- !app_assoc).
  assert (Hstate : (if f <? Z.of_nat (length (d_dif d))
     then if Z.of_nat (length pre + 1) + f <? Z.of_nat (length (pre ++ desc_words d)) then (pre ++ desc_words d ++ post) !! (length pre + 1 + Z.to_nat f)%nat else None
     else query_ranges (length (pre ++ desc_words d ++ post)) (pre ++ desc_words d ++ post)
            (length pre + 1 + Z.to_nat (Z.of_nat (length (d_dif d)))) (length (pre ++ desc_words d)) f) =
     Some (desc_query d f)).
  { unfold desc_query. destruct (Z.ltb_spec f (Z.of_nat (length (d_dif d)))) as [Hlt|Hge].
    - rewrite (proj2 (Z.ltb_lt f _)) by (unfold kDirectlyIndexLimit; lia).
      rewrite (proj2 (Z.ltb_lt _ (Z.of_nat (length (pre ++ _))))) by (rewrite length_app; lia).
      rewrite lookup_app_r by lia. replace (length pre + 1 + Z.to_nat f - length pre)%nat with (S (Z.to_nat f)) by lia.
      transitivity (((d_dif d ++ flat (d_rs d)) ++ post) !! Z.to_nat f); [reflexivity|].
      rewrite <- app_assoc, lookup_app_l by lia.
      destruct (lookup_lt_is_Some_2 (d_dif d) (Z.to_nat f)) as [x ->]; [lia|done].
    - rewrite Nat2Z.id.
      replace (length pre + 1 + length (d_dif d))%nat
        with (length (pre ++ [u32 (Z.of_nat (length (d_dif d)))] ++ d_dif d)) by (rewrite !length_app; simpl; lia).
      replace (length (pre ++ desc_words d))
        with (length (pre ++ [u32 (Z.of_nat (length (d_dif d)))] ++ d_dif d) + 3 * length (d_rs d))%nat
        by (rewrite !length_app, Hdw; simpl; lia).
      rewrite Hpre2, query_ranges_flat by (rewrite !length_app, length_flat; lia).
      f_equal. destruct (Z.ltb_spec f kDirectlyIndexLimit); [|done].
      rewrite (first_match_low M) by done. by rewrite lookup_ge_None_2 by lia. }
  rewrite Hstate. cbn [mbind option_bind]. pose proof (lookup_lt_Some _ _ _ Hd) as Hlt.
  pose proof (result_of_nested M (Z.of_nat (length ds + 1) - 1) (desc_query d f)) as Hn. unfold result_of in Hn |- *.
  rewrite Hn by (done || lia || by apply (desc_query_st M)). done.
Qed.

(** ** What any accepted bytecode guarantees *)

Lemma piter_loop_length fuel wt n data it vs e :
  piter_loop fuel wt n data it = Some (vs, e) -> (length vs <= fuel)%nat.
Proof.
  revert it vs e; induction fuel as [|fuel IH]; intros it vs e H; simpl in H;
    destruct (curr_value_valid_ it); simplify_eq; simpl; try lia.
  destruct (piter_incr _ _ _ it) as [it'|]; [|done]. cbn [mbind option_bind] in H.
  destruct (piter_loop fuel _ _ _ it') as [[vs' e']|] eqn:E; [|done]. cbn [mbind option_bind] in H. simplify_eq.
  apply IH in E. simpl. lia.
Qed.

Lemma piter_values fuel data it vs e :
  piter_loop fuel kVarInt 4 data it = Some (vs, e) -> is_u32 (curr_value_ it) -> Forall is_u32 vs.
Proof.
  revert it vs e; induction fuel as [|fuel IH]; intros it vs e H Hc; simpl in H;
    destruct (curr_value_valid_ it) eqn:Ev; simplify_eq; try constructor.
  destruct (piter_incr _ _ _ it) as [it'|] eqn:Ei; [|done]. cbn [mbind option_bind] in H.
  destruct (piter_loop fuel _ _ _ it') as [[vs' e']|] eqn:E; [|done]. cbn [mbind option_bind] in H. simplify_eq.
  constructor; [done|]. eapply IH; [exact E|]. unfold piter_incr in Ei. rewrite Ev in Ei. cbn [negb] in Ei.
  destruct (_ =? _)%nat; simplify_eq; [done|]. destruct (ParseVarInt _) as [k v].
  destruct (k =? 0)%nat; simplify_eq; [done|]. cbn [curr_value_].
  change (2 ^ (8 * Z.of_nat 4)) with (2 ^ 32). apply u32_range.
Qed.

Lemma UnpackAll_values data vs e :
  UnpackAll kVarInt 4 data = Some (vs, e) -> Forall is_u32 vs /\ (length vs <= S (length data))%nat.
Proof.
  unfold UnpackAll. intros H. destruct (piter_init _ _ _) as [it|] eqn:Ei; [|done]. cbn [mbind option_bind] in H.
  split; [|by eapply piter_loop_length]. eapply piter_values; [exact H|].
  unfold piter_init in Ei. destruct (_ =? _)%nat; simplify_eq; [unfold_u; cbn; lia|].
  unfold piter_incr in Ei. cbn [curr_value_valid_ negb read_off curr_value_ parse_error_] in Ei.
  destruct (_ =? _)%nat; simplify_eq; [unfold_u; cbn; lia|]. destruct (ParseVarInt _) as [k v].
  destruct (k =? 0)%nat; simplify_eq; [unfold_u; cbn; lia|]. cbn [curr_value_].
  change (2 ^ (8 * Z.of_nat 4)) with (2 ^ 32). apply u32_range.
Qed.

Lemma represents_init : represents load_init [] d_empty.
Proof. split_and!; first [done | constructor]. Qed.

(** An accepted table is the layout of some descriptors, all of whose states
    are in range. *)
Lemma LoadInternal_represented data p :
  fst (LoadInternal data) = Some p ->
  exists ds M, words_ p = ds ≫= desc_words /\
    message_offset_ p = offsets 0 ds ++ [u32 (Z.of_nat (length (ds ≫= desc_words)))] /\
    Forall (desc_ok M) ds /\ (M = 0 \/ M < Z.of_nat (length ds)) /\
    (length (words_ p) <= 132 * S (length data))%nat.
Proof.
  unfold LoadInternal. intros H. destruct (UnpackAll _ _ _) as [[ws e]|] eqn:Eu; [|done].
  apply UnpackAll_values in Eu as [Hu Hl]. destruct e; [done|].
  destruct (last ws) as [csum|]; [|done]. destruct (negb _); [done|].
  destruct (load_loop _ _) as [[] s] eqn:El; cbn [negb orb fst] in H; [|done].
  destruct (load_loop_represents load_init [] d_empty _ _ (Forall_take _ _ _ Hu) represents_init El) as (ds & cur & Hr & Hsz).
  rewrite length_take in Hsz.
  destruct Hr as (H1 & H2 & H3 & H4 & H5 & H6 & H7).
  destruct (negb (is_eom s)); cbn [orb] in H; [done|]. destruct ((_ <? _) && _) eqn:Ec; [done|]. simplify_eq.
  exists ds, (max_msg_index s). cbn [words_ message_offset_]. unfold ls_size in Hsz. cbn in Hsz.
  rewrite H1, H2 in *. split_and!; try done; [|lia]. rewrite length_offsets in Ec. lia.
Qed.

(** What [Query] says about one state word. *)
Lemma kAllowed_lor m : 0 <= m < 2 ^ 31 -> kAllowed .| m = m + 2 ^ 31.
Proof. intros. unfold kAllowed. rewrite Z.lor_comm, lor_shiftl_add by lia. lia. Qed.

Lemma result_of_allowed m : 0 <= m < 2 ^ 31 -> result_of (kAllowed .| m) = mkQuery true m.
Proof.
  intros Hm. unfold result_of. rewrite !Z.land_lor_distr_l.
  assert (E1 : m .& kAllowed = 0).
  { apply Z.bits_inj'. intros i Hi. rewrite Z.land_spec, Z.bits_0. unfold kAllowed.
    rewrite Z.shiftl_1_l. destruct (decide (i = 31)) as [->|].
    - rewrite <- (Z.mod_small m (2 ^ 31)) by done. by rewrite Z.mod_pow2_bits_high by lia.
    - rewrite Z.pow2_bits_false by lia. apply andb_false_r. }
  rewrite E1. change (u32 (Z.lnot kAllowed)) with (Z.ones 31). rewrite (Z.land_ones m), (Z.mod_small m) by lia.
  done.
Qed.

(** ** Filters as lists of rules: the abstract contract *)

Inductive rule :=
| RSimple (id : Z)
| RString (id : Z)
| RRange (start len : Z)
| RNested (id idx : Z).

Definition rule_first (r : rule) : Z :=
  match r with RSimple id | RString id | RRange id _ | RNested id _ => id end.
Definition rule_last (r : rule) : Z :=
  match r with RSimple id | RString id | RNested id _ => id | RRange s len => s + len - 1 end.
Definition rule_target (r : rule) : Z :=
  match r with RSimple _ | RRange _ _ => kSimpleField | RString _ => kFilterStringField | RNested _ idx => idx end.
Definition covers (r : rule) (f : Z) : bool := (rule_first r <=? f) && (f <=? rule_last r).

(** Field [f] of a message with rules [rs]: the rule that covers it decides. *)
Fixpoint spec_field (rs : list rule) (f : Z) : QueryResult :=
  match rs with
  | [] => mkQuery false 0
  | r :: rs => if covers r f then mkQuery true (rule_target r) else spec_field rs f
  end.

Definition spec_query (msgs : list (list rule)) (m f : Z) : QueryResult :=
  match msgs !! Z.to_nat m with Some rs => spec_field rs f | None => mkQuery false 0 end.

(** Ids fit a tag, ranges are not empty and do not wrap, and a nested rule
    points to one of the [n] messages. *)
Definition rule_ok (n : Z) (r : rule) : Prop :=
  0 < rule_first r < 2 ^ 29 /\ rule_first r <= rule_last r < 2 ^ 32 - 1 /\
  match r with RNested _ idx => 0 <= idx < n | _ => True end.

Fixpoint sorted_above (last : Z) (rs : list rule) : Prop :=
  match rs with
  | [] => True
  | r :: rs => last < rule_first r /\ sorted_above (rule_last r) rs
  end.

Definition filter_ok (msgs : list (list rule)) : Prop :=
  msgs <> [] /\ Forall (fun rs => sorted_above 0 rs /\ Forall (rule_ok (Z.of_nat (length msgs))) rs) msgs.

(** Driving the generator. *)
Definition gen_rule (g : Generator) (r : rule) : option Generator :=
  match r with
  | RSimple id => AddSimpleField g id
  | RString id => AddFilterStringField g id
  | RRange s len => AddSimpleFieldRange g s len
  | RNested id idx => AddNestedField g id idx
  end.

Fixpoint gen_rules (g : Generator) (rs : list rule) : option Generator :=
  match rs with
  | [] => Some g
  | r :: rs => g ← gen_rule g r; gen_rules g rs
  end.

Fixpoint gen_filter (g : Generator) (msgs : list (list rule)) : option Generator :=
  match msgs with
  | [] => Some g
  | rs :: msgs => g ← gen_rules g rs; gen_filter (EndMessage g) msgs
  end.

Definition rule_opcode (r : rule) : Z :=
  match r with
  | RSimple _ => kFilterOpcode_SimpleField
  | RString _ => kFilterOpcode_FilterString
  | RRange _ _ => kFilterOpcode_SimpleFieldRange
  | RNested _ _ => kFilterOpcode_NestedField
  end.

Definition rule_words (r : rule) : list Z :=
  (u32 (rule_first r << 3) .| rule_opcode r) ::
  match r with RRange _ len => [len] | RNested _ idx => [idx] | _ => [] end.

Definition msg_words (rs : list rule) : list Z := (rs ≫= rule_words) ++ [kFilterOpcode_EndOfMessage].

Lemma rule_word n r :
  rule_ok n r ->
  u32 (rule_first r << 3) .| rule_opcode r = rule_first r * 8 + rule_opcode r /\ 0 < rule_opcode r < 8.
Proof.
  intros (H & _). assert (Ho : 0 < rule_opcode r < 8) by (destruct r; cbn; split; reflexivity).
  split; [|done]. rewrite shiftl_mul by lia. rewrite u32_id by (unfold is_u32; lia).
  rewrite Z.lor_comm. change (2 ^ 3) with 8. replace (rule_first r * 8) with (rule_first r << 3) by (by rewrite shiftl_mul by lia).
  rewrite lor_shiftl_add by lia. rewrite shiftl_mul by lia. lia.
Qed.

Lemma rule_words_u32 n r : n < 2 ^ 32 -> rule_ok n r -> Forall is_u32 (rule_words r).
Proof.
  intros Hn Hr. pose proof (rule_word n r Hr) as [E Ho]. destruct Hr as (H1 & H2 & H3).
  unfold rule_words. rewrite E. constructor; [unfold is_u32; lia|].
  destruct r; cbn in *; repeat constructor; unfold is_u32; lia.
Qed.

Definition rule_index (r : rule) : Z := match r with RNested _ idx => idx | _ => 0 end.

Lemma gen_rule_ok n g r :
  rule_ok n r -> last_field_id_ g < rule_first r -> 0 <= max_msg_index_ g ->
  gen_rule g r = Some (mkGen (num_messages_ g) (rule_last r) (Z.max (max_msg_index_ g) (rule_index r))
                         false (bytecode_ g ++ rule_words r)).
Proof.
  intros (H1 & H2 & H3) Hl Hm. destruct r; cbn in *;
    unfold AddSimpleField, AddFilterStringField, AddSimpleFieldRange, AddNestedField;
    rewrite (proj2 (Z.ltb_lt _ _)) by done; rewrite ?(Z.max_l _ 0) by done; try done.
  rewrite (proj2 (Z.ltb_lt _ _)) by lia. by rewrite u32_id by (unfold is_u32; lia).
Qed.

Lemma gen_rules_ok n g rs :
  Forall (rule_ok n) rs -> sorted_above (last_field_id_ g) rs -> 0 <= max_msg_index_ g < n ->
  exists g', gen_rules g rs = Some g' /\ num_messages_ g' = num_messages_ g /\
    bytecode_ g' = bytecode_ g ++ (rs ≫= rule_words) /\ 0 <= max_msg_index_ g' < n.
Proof.
  intros Hrs. revert g; induction Hrs as [|r rs Hr _ IH]; intros g Hs Hm; simpl.
  - exists g. by rewrite app_nil_r.
  - destruct Hs as [Hs1 Hs2]. rewrite (gen_rule_ok n) by (done || lia). cbn [mbind option_bind].
    edestruct IH as (g' & -> & E1 & E2 & E3); [exact Hs2|cbn; destruct Hr as (? & ? & Hr); destruct r; cbn in *; lia|].
    exists g'. split_and!; try done; try lia. rewrite E2. cbn. by rewrite <- app_assoc.
Qed.

Lemma gen_filter_ok n g msgs :
  Forall (fun rs => sorted_above 0 rs /\ Forall (rule_ok n) rs) msgs ->
  last_field_id_ g = 0 -> 0 <= max_msg_index_ g < n -> 0 <= num_messages_ g ->
  num_messages_ g + Z.of_nat (length msgs) < 2 ^ 32 ->
  exists g', gen_filter g msgs = Some g' /\ num_messages_ g' = num_messages_ g + Z.of_nat (length msgs) /\
    bytecode_ g' = bytecode_ g ++ (msgs ≫= msg_words) /\ 0 <= max_msg_index_ g' < n /\
    (msgs <> [] \/ endmessage_called_ g = true -> endmessage_called_ g' = true).
Proof.
  intros Hm. revert g; induction Hm as [|rs msgs [Hs Hr] _ IH]; intros g Hl Hx Hn Hb; simpl.
  - exists g. rewrite app_nil_r, Z.add_0_r. split_and!; try done; try lia. by intros [?|?].
  - cbn [length] in Hb. destruct (gen_rules_ok n g rs Hr) as (g1 & -> & E1 & E2 & E3); [by rewrite Hl|done|].
    cbn [mbind option_bind].
    destruct (IH (EndMessage g1)) as (g2 & -> & F1 & F2 & F3 & F4); cbn in *;
      rewrite ?E1, ?(u32_id (_ + 1)) in * by (unfold is_u32; lia); try done; try lia.
    exists g2. rewrite ?(u32_id (_ + 1)) in F1 by (unfold is_u32; lia).
    split_and!; try done; try lia; [|auto]. rewrite F2, E2. unfold msg_words. by rewrite <- !app_assoc.
Qed.

(** ** Serialisation *)

Lemma AppendAll_app wt n b vs ws :
  AppendAll wt n b (vs ++ ws) = b' ← AppendAll wt n b vs; AppendAll wt n b' ws.
Proof.
  revert b; induction vs as [|v vs IH]; intros b; [done|]. cbn [app AppendAll].
  destruct (PackedFields.Append wt n b v); [apply IH|done].
Qed.

Lemma is_u32_elem v : is_u32 v -> elem_ok 4 v.
Proof. done. Qed.

Lemma Serialize_ok stack g :
  Z.of_nat (length stack) = kOnStackStorageSize -> bytes_ok stack ->
  Forall is_u32 (bytecode_ g) -> Z.of_nat (length (bytecode_ g)) < 2 ^ 32 ->
  endmessage_called_ g = true -> max_msg_index_ g < num_messages_ g ->
  Serialize stack g =
    Some (elems kVarInt 4 (bytecode_ g ++ [u32 (Hasher.digest_words (bytecode_ g))])).
Proof.
  intros Hs1 Hs2 Hw Hl He Hm. set (csum := u32 _).
  assert (Hall : Forall (elem_ok 4) (bytecode_ g ++ [csum])).
  { apply Forall_app. split; [exact Hw|]. apply Forall_singleton, is_u32_elem, u32_range. }
  destruct (AppendAll_ok kVarInt 4 (bytecode_ g ++ [csum]) (PackedFields.Reset stack)) as (b & E & _ & Hd);
    [by left|done|by apply packed_ok_Reset|rewrite length_app; simpl; lia|].
  unfold Serialize. rewrite He, (proj2 (Z.ltb_lt _ _)) by done.
  rewrite AppendAll_app in E. destruct (AppendAll _ _ _ (bytecode_ g)) as [b1|]; [|done].
  cbn [mbind option_bind AppendAll] in *. fold csum.
  destruct (PackedFields.Append kVarInt 4 b1 csum) as [b2|]; [|done]. cbn [mbind option_bind] in *. simplify_eq.
  by rewrite Hd.
Qed.

(** ** Loading what the generator wrote *)

Definition l_rule (s : LoadState) (r : rule) : LoadState :=
  match r with
  | RRange st len => add_simple_range s st len
  | _ => add_field s (rule_first r) (rule_target r) (Z.max (max_msg_index s) (rule_index r))
  end.

Definition d_rule (d : desc) (r : rule) : desc :=
  match r with
  | RRange st len => d_add_range d st len
  | _ => d_add_field d (rule_first r) (rule_target r)
  end.

Definition desc_of (rs : list rule) : desc := foldl d_rule d_empty rs.

Lemma load_loop_rule n s r ws :
  rule_ok n r -> 0 <= max_msg_index s -> load_loop s (rule_words r ++ ws) = load_loop (l_rule s r) ws.
Proof.
  intros Hr Hm. pose proof (rule_word n r Hr) as [E Ho]. unfold rule_words. rewrite E. cbn [app load_loop].
  destruct Hr as (H1 & _).
  assert (E7 : (rule_first r * 8 + rule_opcode r) .& 7 = rule_opcode r) by (rewrite land_7; divlia).
  assert (E3 : (rule_first r * 8 + rule_opcode r) >> 3 = rule_first r)
    by (rewrite shiftr_div by lia; change (2 ^ 3) with 8; divlia).
  rewrite E7, E3, (proj2 (Z.eqb_neq (rule_first r) 0)) by lia. cbn [andb].
  destruct r; cbn; rewrite ?(Z.max_l _ 0) by done; done.
Qed.

Lemma represents_l_rule n s ds cur r :
  rule_ok n r -> represents s ds cur -> represents (l_rule s r) ds (d_rule cur r).
Proof.
  intros (H1 & _ & H3) Hr. assert (0 <= max_msg_index s) by apply Hr.
  destruct r; cbn [l_rule d_rule rule_first rule_target rule_index] in *;
    try (apply represents_add_field; [done|lia|lia|]).
  - by left.
  - by right; left.
  - apply represents_add_range; [done|lia].
  - right; right; lia.
Qed.

Lemma max_l_rule s r : 0 <= max_msg_index s -> max_msg_index (l_rule s r) = Z.max (max_msg_index s) (rule_index r).
Proof.
  intros H. destruct r; cbn; unfold add_field, add_simple_range; repeat case_match; cbn; lia.
Qed.

(** Only a range that wraps fails a [DCHECK]. *)
Lemma range_direct_dchecks_ok fuel : forall id e, 0 < id -> range_direct_dchecks fuel id e = true.
Proof.
  induction fuel as [|fuel IH]; intros id e Hid; [done|]. cbn [range_direct_dchecks]. unfold direct_dcheck.
  destruct (id <? e); [|done]. destruct (id <? kDirectlyIndexLimit); [|done]. cbn [andb]. rewrite (proj2 (Z.ltb_lt 0 id)), IH by lia. done.
Qed.

Lemma dchecks_add_field s id m mx : 0 < id < 2 ^ 32 - 1 -> dchecks_held (add_field s id m mx) = dchecks_held s.
Proof.
  intros Hid. unfold add_field, direct_dcheck, range_dcheck.
  destruct (Z.ltb_spec id kDirectlyIndexLimit) as [Hlt|Hge]; cbn [dchecks_held].
  - rewrite (proj2 (Z.ltb_lt 0 id)) by lia. apply andb_true_r.
  - rewrite u32_id, (proj2 (Z.ltb_lt id (id + 1))), (proj2 (Z.leb_le _ _)) by (unfold is_u32; lia). apply andb_true_r.
Qed.

Lemma dchecks_add_simple_range s id len :
  0 < id -> dchecks_held (add_simple_range s id len) = dchecks_held s && ((kDirectlyIndexLimit <=? id) || (id <=? u32 (id + len))).
Proof.
  intros Hid. unfold add_simple_range. destruct (range_direct _ _ id _) as [dif id'] eqn:E.
  apply range_direct_spec in E as (E1 & E2 & E3 & _); [|lia|unfold kDirectlyIndexLimit; lia].
  cbn [dchecks_held]. rewrite range_direct_dchecks_ok by lia. rewrite andb_true_r, <- andb_assoc. f_equal.
  unfold range_dcheck, kDirectlyIndexLimit in *. apply Bool.eq_iff_eq_true.
  destruct (Z.ltb_spec id' (u32 (id + len))); rewrite ?andb_true_r, ?andb_true_iff, ?orb_true_iff, ?Z.leb_le, ?Z.eqb_eq, ?Z.ltb_lt; lia.
Qed.

Lemma dchecks_l_rule n s r : rule_ok n r -> dchecks_held (l_rule s r) = dchecks_held s.
Proof.
  intros (H1 & H2 & H3). destruct r; cbn [l_rule rule_first rule_last] in *; try (apply dchecks_add_field; lia).
  rewrite dchecks_add_simple_range, (u32_id (start + len)), (proj2 (Z.leb_le start _)), orb_true_r by (unfold is_u32; lia). apply andb_true_r.
Qed.

Lemma load_loop_rules n s ds cur rs ws :
  Forall (rule_ok n) rs -> represents s ds cur -> max_msg_index s < n ->
  exists s', load_loop s ((rs ≫= rule_words) ++ ws) = load_loop s' ws /\
    represents s' ds (foldl d_rule cur rs) /\ max_msg_index s' < n /\ dchecks_held s' = dchecks_held s.
Proof.
  intros Hrs. revert s cur; induction Hrs as [|r rs Hr _ IH]; intros s cur Hs Hm.
  - by exists s.
  - change ((r :: rs) ≫= rule_words) with (rule_words r ++ (rs ≫= rule_words)). cbn [foldl].
    rewrite <- app_assoc. assert (0 <= max_msg_index s) by apply Hs. rewrite (load_loop_rule n) by done.
    rewrite <- (dchecks_l_rule n s r Hr). apply IH; [by eapply represents_l_rule|]. rewrite max_l_rule by done.
    destruct Hr as (_ & _ & Hr). destruct r; cbn in *; lia.
Qed.

Lemma load_loop_msgs n s ds msgs :
  Forall (Forall (rule_ok n)) msgs -> represents s ds d_empty -> max_msg_index s < n -> is_eom s = true ->
  exists s', load_loop s (msgs ≫= msg_words) = (true, s') /\
    represents s' (ds ++ (desc_of <$> msgs)) d_empty /\ max_msg_index s' < n /\ is_eom s' = true /\ dchecks_held s' = dchecks_held s.
Proof.
  intros Hm. revert s ds; induction Hm as [|rs msgs Hrs _ IH]; intros s ds Hs Hx He.
  - exists s. cbn [fmap list_fmap]. by rewrite app_nil_r.
  - change ((rs :: msgs) ≫= msg_words) with (msg_words rs ++ (msgs ≫= msg_words)).
    cbn [fmap list_fmap]. unfold msg_words at 1. rewrite <- app_assoc.
    destruct (load_loop_rules n s ds d_empty rs ([kFilterOpcode_EndOfMessage] ++ (msgs ≫= msg_words)) Hrs Hs Hx)
      as (s1 & -> & Hs1 & Hx1 & Hd1).
    change (load_loop s1 ([kFilterOpcode_EndOfMessage] ++ (msgs ≫= msg_words)))
      with (load_loop (end_message s1) (msgs ≫= msg_words)).
    destruct (IH (end_message s1) (ds ++ [desc_of rs])) as (s2 & -> & H1 & H2 & H3 & H4);
      [by apply represents_end|done|done|].
    exists s2. rewrite <- app_assoc in H1. cbn [end_message dchecks_held] in H4. rewrite H4. done.
Qed.

(** ** A descriptor answers like its rules *)

Definition below (d : desc) (b : Z) : Prop := Forall (fun '(s, e, st) => e <= b) (d_rs d).

Lemma first_match_snoc rs s e st f :
  Forall (fun '(_, e', _) => e' <= s) rs ->
  first_match (rs ++ [(s, e, st)]) f = if (s <=? f) && (f <? e) then st else first_match rs f.
Proof.
  intros Hrs. induction Hrs as [|[[s' e'] st'] rs He _ IH]; [done|]. cbn [app first_match]. rewrite IH.
  destruct ((s' <=? f) && (f <? e')) eqn:C; [|done].
  by replace ((s <=? f) && (f <? e)) with false by lia.
Qed.

Lemma d_rule_query n d r f :
  rule_ok n r -> below d (rule_first r) -> 0 <= f ->
  desc_query (d_rule d r) f = (if covers r f then kAllowed .| rule_target r else desc_query d f) /\
  below (d_rule d r) (rule_last r + 1).
Proof.
  intros (H1 & H2 & H3) Hb Hf.
  assert (Hmono : forall b, rule_first r <= b -> Forall (fun '(s, e, st) => e <= b) (d_rs d)).
  { intros b Hle. eapply Forall_impl; [exact Hb|]. intros [[s e] st] ?. lia. }
  assert (Hfield : forall id, rule_first r = id -> rule_last r = id ->
     desc_query (d_add_field d id (rule_target r)) f =
       (if covers r f then kAllowed .| rule_target r else desc_query d f) /\
     below (d_add_field d id (rule_target r)) (id + 1)).
  { intros id E1 E2. unfold covers, d_add_field, desc_query, below. rewrite E1, E2 in *.
    rewrite (u32_id (id + 1)) by (unfold is_u32; lia). unfold kDirectlyIndexLimit in *.
    destruct (Z.ltb_spec id 128); cbn [d_dif d_rs].
    - rewrite lookup_add_directly by lia. split; [|apply Hmono; lia].
      replace ((id <=? f) && (f <=? id)) with (f =? id) by lia.
      destruct (Z.ltb_spec f 128); [done|]. by rewrite (proj2 (Z.eqb_neq f id)) by lia.
    - rewrite first_match_snoc by done. split.
      + destruct (Z.ltb_spec f 128); [by rewrite (proj2 (Z.leb_gt id f)) by lia|].
        by replace ((id <=? f) && (f <? id + 1)) with ((id <=? f) && (f <=? id)) by lia.
      + apply Forall_app. split; [apply Hmono; lia|]. apply Forall_singleton. lia. }
  destruct r as [id|id|st len|id idx]; cbn [d_rule rule_first rule_last rule_target] in *; try (by apply Hfield).
  unfold d_add_range, below. rewrite (u32_id (st + len)) by (unfold is_u32; lia).
  destruct (range_direct _ _ _ _) as [dif id'] eqn:E.
  apply range_direct_spec in E as (E1 & E2 & E3 & E4 & _ & _); [|lia|unfold kDirectlyIndexLimit; lia].
  unfold desc_query, covers, kDirectlyIndexLimit in *. cbn [d_dif d_rs rule_first rule_last].
  specialize (E2 ltac:(lia)). split.
  - destruct (Z.ltb_spec f 128).
    + rewrite E4 by done. by replace ((st <=? f) && (f <=? st + len - 1)) with ((st <=? f) && (f <? id')) by lia.
    + destruct (Z.ltb_spec id' (st + len)).
      * rewrite first_match_snoc by (apply Hmono; lia).
        by replace ((st <=? f) && (f <=? st + len - 1)) with ((id' <=? f) && (f <? st + len)) by lia.
      * by replace ((st <=? f) && (f <=? st + len - 1)) with false by lia.
  - destruct (Z.ltb_spec id' (st + len)); [apply Forall_app; split|]; try (apply Hmono; lia).
    apply Forall_singleton. lia.
Qed.

Fixpoint find_rule (rs : list rule) (f : Z) : option rule :=
  match rs with
  | [] => None
  | r :: rs => if covers r f then Some r else find_rule rs f
  end.

Lemma spec_field_find rs f :
  spec_field rs f = match find_rule rs f with Some r => mkQuery true (rule_target r) | None => mkQuery false 0 end.
Proof. induction rs as [|r rs IH]; [done|]. cbn [spec_field find_rule]. by destruct (covers r f). Qed.

Lemma find_rule_above n rs b f :
  Forall (rule_ok n) rs -> sorted_above b rs -> f <= b -> find_rule rs f = None.
Proof.
  intros Hrs. revert b; induction Hrs as [|r rs (H1 & H2 & _) _ IH]; intros b Hs Hf; [done|].
  destruct Hs as [Hs1 Hs2]. cbn [find_rule]. unfold covers.
  rewrite (proj2 (Z.leb_gt _ _)) by lia. apply (IH (rule_last r)); [done|lia].
Qed.

Lemma find_rule_ok n rs f r : Forall (rule_ok n) rs -> find_rule rs f = Some r -> rule_ok n r.
Proof. intros Hrs. induction Hrs as [|r' rs Hr _ IH]; [done|]. cbn [find_rule]. intros. case_match; simplify_eq; auto. Qed.

Lemma foldl_d_rule_query n rs d b f :
  Forall (rule_ok n) rs -> below d (b + 1) -> sorted_above b rs -> 0 <= f ->
  desc_query (foldl d_rule d rs) f =
    match find_rule rs f with Some r => kAllowed .| rule_target r | None => desc_query d f end.
Proof.
  intros Hrs. revert d b; induction Hrs as [|r rs Hr Hrs IH]; intros d b Hb Hs Hf; [done|].
  destruct Hs as [Hs1 Hs2]. cbn [foldl find_rule].
  assert (Hbd : below d (rule_first r)).
  { eapply Forall_impl; [exact Hb|]. intros [[? ?] ?] ?. lia. }
  destruct (d_rule_query n d r f Hr Hbd Hf) as [Eq Hb'].
  rewrite (IH _ (rule_last r)), Eq by done. destruct (covers r f) eqn:C; [|done].
  rewrite (find_rule_above n rs (rule_last r) f); try done. unfold covers in C. lia.
Qed.

Lemma desc_of_query n rs f :
  n < 2 ^ 31 -> Forall (rule_ok n) rs -> sorted_above 0 rs -> 0 <= f ->
  result_of (desc_query (desc_of rs) f) = spec_field rs f.
Proof.
  intros Hn Hrs Hs Hf. unfold desc_of. rewrite (foldl_d_rule_query n rs d_empty 0), spec_field_find by (done || constructor).
  destruct (find_rule rs f) as [r|] eqn:E.
  - apply result_of_allowed. destruct (find_rule_ok n rs f r Hrs E) as (_ & _ & Hr).
    destruct r; cbn in *; unfold kSimpleField, kFilterStringField; lia.
  - unfold desc_query, d_empty. cbn [d_dif d_rs first_match lookup list_lookup]. by destruct (_ <? _).
Qed.

Lemma length_rule_words r : (length (rule_words r) <= 2)%nat.
Proof. destruct r; simpl; lia. Qed.

Lemma msgs_words_u32 n msgs :
  n < 2 ^ 32 -> Forall (Forall (rule_ok n)) msgs -> Forall is_u32 (msgs ≫= msg_words).
Proof.
  intros Hn H. apply Forall_bind. eapply Forall_impl; [exact H|]. intros rs Hrs.
  apply Forall_app. split; [|apply Forall_singleton; unfold is_u32, kFilterOpcode_EndOfMessage; lia].
  apply Forall_bind. eapply Forall_impl; [exact Hrs|]. intros r. by apply rule_words_u32.
Qed.

Lemma length_msgs_words msgs : (length msgs <= length (msgs ≫= msg_words))%nat.
Proof.
  induction msgs as [|rs msgs IH]; [done|].
  change ((rs :: msgs) ≫= msg_words) with (msg_words rs ++ (msgs ≫= msg_words)).
  unfold msg_words at 1. rewrite !length_app. cbn [length]. lia.
Qed.

(** ** Properties *)

(** C30: whatever octets are loaded, a filter that is accepted answers every
    query by reading inside its tables only, and an allowed field is a simple
    field, a string to filter or a nested message whose index is the index of a
    message of the filter (the [DCHECK]s of [Query]). The table has room for
    fewer than 2^31 words. *)
Theorem loaded_filter_safe data p msg_index field_id :
  Load data = (true, p) -> Z.of_nat (132 * S (length data)) < 2 ^ 31 - 2 ->
  0 <= msg_index -> 0 <= field_id ->
  exists r, Query p msg_index field_id = Some r /\
    (allowed r = true ->
       simple_field r = true \/ filter_string_field r = true \/
       (nested_msg_field r = true /\ nested_msg_index r + 1 < Z.of_nat (length (message_offset_ p)))) /\
    (allowed r = false -> nested_msg_index r = 0).
Proof.
  unfold Load. intros H Hsz Hm Hf. destruct (fst (LoadInternal data)) as [p'|] eqn:E; [|done]. simplify_eq.
  destruct (LoadInternal_represented data p E) as (ds & M & Hw & Ho & Hok & HM & Hlen).
  destruct p as [ws os]. cbn [words_ message_offset_] in *. subst ws os.
  rewrite (Query_represented M) by (done || lia). eexists; split; [reflexivity|].
  destruct (ds !! Z.to_nat msg_index) as [d|] eqn:Ed; [|by split].
  pose proof (lookup_lt_Some _ _ _ Ed) as Hlt.
  assert (Hn : (length ds <= length (ds ≫= desc_words))%nat).
  { clear. induction ds as [|d ds IH]; [done|]. cbn [mbind list_bind]. rewrite length_app, length_desc_words.
    cbn [mbind list_bind length] in *. lia. }
  rewrite length_app, length_offsets. cbn [length].
  destruct (desc_query_st M d field_id (Forall_lookup_1 _ _ _ _ Hok Ed)) as [->|(m & -> & Hcase)].
  - split; [done|]. done.
  - unfold kSimpleField, kFilterStringField in Hcase.
    rewrite result_of_allowed by lia. unfold simple_field, filter_string_field, nested_msg_field.
    cbn [allowed nested_msg_index]. unfold kSimpleField, kFilterStringField. split; [|done]. intros _. lia.
Qed.

(** A filter of two messages, its bytecode ending in the checksum. *)
Definition example_filter : list (list rule) := [[RSimple 1; RNested 2 1]; [RRange 126 10; RString 1000]].
Definition example_words : list Z := example_filter ≫= msg_words.
Definition example_data : list Z := elems kVarInt 4 (example_words ++ [u32 (Hasher.digest_words example_words)]).

Lemma loaded_filter_safe_witness :
  exists r, Query (snd (Load example_data)) 0 2 = Some r /\
    (allowed r = true ->
       simple_field r = true \/ filter_string_field r = true \/
       (nested_msg_field r = true /\
        nested_msg_index r + 1 < Z.of_nat (length (message_offset_ (snd (Load example_data)))))) /\
    (allowed r = false -> nested_msg_index r = 0).
Proof.
  apply (loaded_filter_safe example_data (snd (Load example_data)) 0 2).
  - vm_compute. reflexivity.
  - vm_compute. reflexivity.
  - lia.
  - lia.
Defined.

(** C29: the generator implements the filter it is driven with. For every
    well-formed filter (ids in increasing order, no empty or wrapping range,
    nested indices of existing messages) the generator accepts all calls and
    serialises; [Load] accepts the result, checksum included, and fails none of
    its [DCHECK]s; and then [Query]
    answers, for every message and field, exactly what the rules say, whether
    the field is stored in the direct table, as a range or across both. *)
Theorem filter_bytecode_roundtrip msgs stack :
  filter_ok msgs ->
  Z.of_nat (length stack) = kOnStackStorageSize -> bytes_ok stack ->
  132 * (Z.of_nat (length (msgs ≫= msg_words)) + 2) < 2 ^ 31 ->
  exists g data p,
    gen_filter gen_init msgs = Some g /\ Serialize stack g = Some data /\ Load data = (true, p) /\ Load_dchecks data = true /\
    forall msg_index field_id, 0 <= msg_index -> 0 <= field_id ->
      Query p msg_index field_id = Some (spec_query msgs msg_index field_id).
Proof.
  intros [Hne Hmsgs] Hst1 Hst2 Hsz. set (n := Z.of_nat (length msgs)) in *.
  pose proof (length_msgs_words msgs) as Hlm.
  assert (Hn : 0 < n) by (destruct msgs; [done|simpl in n; lia]).
  destruct (gen_filter_ok n gen_init msgs Hmsgs) as (g & Eg & G1 & G2 & G3 & G4); cbn; try done; try lia.
  cbn in G1, G2.
  assert (Hrules : Forall (Forall (rule_ok n)) msgs).
  { eapply Forall_impl; [exact Hmsgs|]. by intros ? []. }
  assert (Hu : Forall is_u32 (msgs ≫= msg_words)) by (apply (msgs_words_u32 n); [lia|done]).
  set (csum := u32 (Hasher.digest_words (msgs ≫= msg_words))).
  assert (Es : Serialize stack g = Some (elems kVarInt 4 ((msgs ≫= msg_words) ++ [csum]))).
  { rewrite Serialize_ok; rewrite ?G2; try done; try lia. by apply G4; left. }
  destruct (load_loop_msgs n load_init [] msgs Hrules represents_init ltac:(done) ltac:(done))
    as (s & El & (R1 & R2 & _ & _ & R5 & _ & R7) & Hmx & He & Hdc).
  destruct (load_loop_represents load_init [] d_empty _ s Hu represents_init El) as (ds' & cur' & Hr' & Hlsz).
  assert (ELoad : LoadInternal (elems kVarInt 4 ((msgs ≫= msg_words) ++ [csum])) =
     (Some (mkParser (ls_words s) (ls_offsets s ++ [u32 (Z.of_nat (length (ls_words s)))])), true)).
  { unfold LoadInternal. rewrite UnpackAll_elems.
    2: by left.
    2: { apply Forall_app. split; [exact Hu|]. apply Forall_singleton, is_u32_elem, u32_range. }
    rewrite last_snoc, length_app. cbn [length]. rewrite Nat.add_sub, take_app_len. fold csum.
    rewrite Z.eqb_refl. cbn [negb]. fold load_init. rewrite El, He. cbn [negb].
    rewrite R2, length_offsets. cbn [app]. rewrite length_fmap.
    rewrite (proj2 (Z.leb_gt _ _)) by done. rewrite andb_false_r. cbn [orb]. by rewrite Hdc. }
  unfold Load, Load_dchecks. eexists _, _, _. split; [exact Eg|]. split; [exact Es|]. rewrite ELoad. cbn [fst snd]. split; [done|]. split; [done|]. intros m f Hm Hf.
  unfold ls_size in Hlsz. cbn [load_init ls_words ranges length] in Hlsz. cbn [app] in *.
  assert (Hlw : Z.of_nat (length (ls_words s)) < 2 ^ 32) by lia.
  rewrite R1 in Hlw |- *. rewrite R2.
  rewrite (Query_represented (max_msg_index s)) by (done || (right; rewrite length_fmap; exact Hmx)). f_equal. unfold spec_query.
  rewrite list_lookup_fmap. destruct (msgs !! Z.to_nat m) as [rs|] eqn:E; [|done]. cbn [fmap option_fmap option_map].
  destruct (Forall_lookup_1 _ _ _ _ Hmsgs E) as [S1 S2]. apply (desc_of_query n); try done. lia.
Qed.

Lemma filter_bytecode_roundtrip_witness :
  exists g data p,
    gen_filter gen_init example_filter = Some g /\
    Serialize (replicate (Z.to_nat kOnStackStorageSize) 0) g = Some data /\ Load data = (true, p) /\ Load_dchecks data = true /\
    forall msg_index field_id, 0 <= msg_index -> 0 <= field_id ->
      Query p msg_index field_id = Some (spec_query example_filter msg_index field_id).
Proof.
  apply (filter_bytecode_roundtrip example_filter (replicate (Z.to_nat kOnStackStorageSize) 0)).
  - split; [done|]. repeat constructor; simpl; unfold rule_ok; simpl; lia.
  - rewrite length_replicate. apply Z2Nat.id. unfold kOnStackStorageSize. lia.
  - apply Forall_replicate. unfold_u; lia.
  - vm_compute. reflexivity.
Defined.
