(* ===== verification/StringFilter.v ===== *)
(** * The string filter

    Models src/protozero/filtering/string_filter.{h,cc}: an ordered list of
    rules, each of which may redact in place the groups captured by a regular
    expression, or stop the evaluation.

    [std::regex] is a parameter: [regex_match] gives the captured groups
    (groups 1 and up, as offsets into the string) of a match of the whole
    string, [regex_next] one step of [std::regex_iterator] (the next match at
    or after a position, with the position the following step starts from). What
    the code relies on are the laws of [RegexLaws]: groups are ranges of the
    subject, and iteration moves forward.

    Strings are lists of octets; a failed [DEJAVIEW_CHECK] or an access outside
    the string is [None]. *)

From S2P Require Import Prelude.

Definition groups := list (nat * nat).

Class Regex (regex : Type) := {
  regex_match : regex -> list Z -> option groups;
  regex_next : regex -> list Z -> nat -> option (groups * nat)
}.

Definition groups_in (n : nat) (gs : groups) : Prop :=
  Forall (fun '(first, second) => (first <= second <= n)%nat) gs.

Class RegexLaws (regex : Type) `{Regex regex} := {
  regex_match_in r s gs : regex_match r s = Some gs -> groups_in (length s) gs;
  regex_next_in r s pos gs next :
    regex_next r s pos = Some (gs, next) ->
    groups_in (length s) gs /\ (pos < next)%nat /\ (pos <= length s)%nat
}.

Inductive Policy :=
| kMatchRedactGroups | kAtraceMatchRedactGroups | kMatchBreak | kAtraceMatchBreak
| kAtraceRepeatedSearchRedactGroups.

#[export] Instance Policy_eq_dec : EqDecision Policy.
Proof. solve_decision. Defined.

Section filter.
Context {regex : Type} `{Regex regex}.

Record Rule := mkRule { policy : Policy; pattern : regex; atrace_payload_starts_with : list Z }.

(** [AddRule]; compiling the pattern is the regex library's. *)
Definition AddRule (rules_ : list Rule) (r : Rule) : list Rule := rules_ ++ [r].

(** "P60REDACTED" and '-'. *)
Definition kRedacted : list Z := [80; 54; 48; 82; 69; 68; 65; 67; 84; 69; 68].
Definition kRedactedDash : Z := 45.

(** [memchr(s + from, c, len - from)]. *)
Fixpoint memchr_from (s : list Z) (from : nat) (c : Z) : option nat :=
  match s with
  | [] => None
  | x :: s =>
      match from with
      | S from => S <$> memchr_from s from c
      | O => if x =? c then Some O else S <$> memchr_from s 0 c
      end
  end.

(** The offset after the tgid pipe. *)
Definition FindAtracePayloadPtr (s : list Z) : option nat :=
  let kEarliestSecondPipeIndex := 2%nat in
  if (length s <=? kEarliestSecondPipeIndex)%nat || bool_decide (head s = Some 69) then None
  else S <$> memchr_from s kEarliestSecondPipeIndex 124.

Definition StartsWith (s : list Z) (ptr : nat) (starts_with : list Z) : bool :=
  (ptr + length starts_with <=? length s)%nat &&
  bool_decide (take (length starts_with) (drop ptr s) = starts_with).

(** One group: [kRedacted] cut to the group's length, then dashes. *)
Definition redaction (match_len : nat) : list Z :=
  let redacted_len := Nat.min match_len (length kRedacted) in
  take redacted_len kRedacted ++ replicate (match_len - redacted_len) kRedactedDash.

Fixpoint RedactMatches (s : list Z) (matches : groups) : option (list Z) :=
  match matches with
  | [] => Some s
  | (first, second) :: matches =>
      if (first <=? second)%nat then
        s ← mem_write s first (redaction (second - first));
        RedactMatches s matches
      else None
  end.

(** [for (it = beg; it != end; ++it) RedactMatches( *it )]: the search goes on
    in the string as already redacted. Each step moves forward, so
    [length s + 1] rounds are enough. *)
Fixpoint redact_search (fuel : nat) (p : regex) (s : list Z) (pos : nat) : option (list Z) :=
  match regex_next p s pos with
  | None => Some s
  | Some (gs, next) =>
      match fuel with
      | O => None
      | S fuel => s ← RedactMatches s gs; redact_search fuel p s next
      end
  end.

(** The cached [atrace_payload_ptr]: [None] until [atrace_find_tried]. *)
Definition atrace_ptr (s : list Z) (cache : option (option nat)) : option nat :=
  match cache with Some p => p | None => FindAtracePayloadPtr s end.

Fixpoint MaybeFilter_rules (rules : list Rule) (s : list Z) (cache : option (option nat))
    : option (bool * list Z) :=
  match rules with
  | [] => Some (false, s)
  | rule :: rules =>
      match policy rule with
      | kMatchRedactGroups | kMatchBreak =>
          match regex_match (pattern rule) s with
          | Some matches =>
              if bool_decide (policy rule = kMatchBreak) then Some (false, s)
              else s ← RedactMatches s matches; Some (true, s)
          | None => MaybeFilter_rules rules s cache
          end
      | kAtraceMatchRedactGroups | kAtraceMatchBreak =>
          let ptr := atrace_ptr s cache in
          match ptr with
          | Some off =>
              if StartsWith s off (atrace_payload_starts_with rule) then
                match regex_match (pattern rule) s with
                | Some matches =>
                    if bool_decide (policy rule = kAtraceMatchBreak) then Some (false, s)
                    else s ← RedactMatches s matches; Some (true, s)
                | None => MaybeFilter_rules rules s (Some ptr)
                end
              else MaybeFilter_rules rules s (Some ptr)
          | None => MaybeFilter_rules rules s (Some ptr)
          end
      | kAtraceRepeatedSearchRedactGroups =>
          let ptr := atrace_ptr s cache in
          match ptr with
          | Some off =>
              if StartsWith s off (atrace_payload_starts_with rule) then
                match regex_next (pattern rule) s 0 with
                | Some _ =>
                    s ← redact_search (S (length s)) (pattern rule) s 0;
                    Some (true, s)
                | None => MaybeFilter_rules rules s (Some ptr)
                end
              else MaybeFilter_rules rules s (Some ptr)
          | None => MaybeFilter_rules rules s (Some ptr)
          end
      end
  end.

Definition MaybeFilter (rules_ : list Rule) (s : list Z) : option (bool * list Z) :=
  if (length s =? 0)%nat || (length rules_ =? 0)%nat then Some (false, s)
  else MaybeFilter_rules rules_ s None.

(** ** Specification *)

Definition redact_char (c : Z) : Prop := c ∈ kRedacted \/ c = kRedactedDash.

(** [out] is [s] with the groups redacted and nothing else changed. *)
Definition blanked (s : list Z) (gs : groups) (out : list Z) : Prop :=
  length out = length s /\
  (forall i, (forall a b, (a, b) ∈ gs -> ~ (a <= i < b)%nat) -> out !! i = s !! i) /\
  (forall i a b, (a, b) ∈ gs -> (a <= i < b)%nat -> exists c, out !! i = Some c /\ redact_char c).

(** All matches of a search, each in the string as redacted so far. *)
Inductive searched (p : regex) : list Z -> nat -> list Z -> Prop :=
  | searched_end s pos : regex_next p s pos = None -> searched p s pos s
  | searched_step s pos gs next s' out :
      regex_next p s pos = Some (gs, next) -> blanked s gs s' -> searched p s' next out -> searched p s pos out.

(** An atrace string with a payload, the text after the first pipe from the third octet
    on, that starts with [pre]; strings with an E at the start have none. *)
Definition atrace_payload (s pre : list Z) : Prop :=
  head s <> Some 69 /\ exists a b, s = a ++ 124 :: b /\ (2 <= length a)%nat /\ 124 ∉ drop 2 a /\ pre `prefix_of` b.

(** When a rule applies to a string. *)
Definition applies (s : list Z) (r : Rule) : Prop :=
  match policy r with
  | kMatchRedactGroups | kMatchBreak => is_Some (regex_match (pattern r) s)
  | kAtraceMatchRedactGroups | kAtraceMatchBreak =>
      atrace_payload s (atrace_payload_starts_with r) /\ is_Some (regex_match (pattern r) s)
  | kAtraceRepeatedSearchRedactGroups =>
      atrace_payload s (atrace_payload_starts_with r) /\ is_Some (regex_next (pattern r) s 0)
  end.

(** What a rule that applies does: whether something was redacted, and the string. *)
Inductive rule_result (s : list Z) (r : Rule) : bool -> list Z -> Prop :=
  | result_break : policy r = kMatchBreak \/ policy r = kAtraceMatchBreak -> rule_result s r false s
  | result_match gs out :
      policy r = kMatchRedactGroups \/ policy r = kAtraceMatchRedactGroups ->
      regex_match (pattern r) s = Some gs -> blanked s gs out -> rule_result s r true out
  | result_search out :
      policy r = kAtraceRepeatedSearchRedactGroups -> searched (pattern r) s 0 out -> rule_result s r true out.

(** The first rule that applies decides. *)
Inductive filtered (s : list Z) : list Rule -> bool -> list Z -> Prop :=
  | filtered_none : filtered s [] false s
  | filtered_skip r rules res out : ~ applies s r -> filtered s rules res out -> filtered s (r :: rules) res out
  | filtered_first r rules res out : applies s r -> rule_result s r res out -> filtered s (r :: rules) res out.

(** ** Proofs *)

Lemma length_redaction n : length (redaction n) = n.
Proof. unfold redaction. rewrite length_app, length_take, length_replicate. lia. Qed.

Lemma redaction_chars n i c : redaction n !! i = Some c -> redact_char c.
Proof.
  unfold redaction. rewrite lookup_app_Some. intros [Hc|[_ Hc]].
  - left. apply list_elem_of_lookup. apply lookup_take_Some in Hc as [Hc _]. by exists i.
  - right. by apply lookup_replicate in Hc as [-> _].
Qed.

(** Every octet of [out] is the octet of [s] it replaces, or a redaction
    character. *)
Definition redacted_from (s out : list Z) : Prop :=
  length out = length s /\
  forall i c, out !! i = Some c -> s !! i = Some c \/ redact_char c.

Lemma redacted_refl s : redacted_from s s.
Proof. split; [done|]. auto. Qed.

Lemma redacted_trans s t u : redacted_from s t -> redacted_from t u -> redacted_from s u.
Proof.
  intros [L1 H1] [L2 H2]. split; [congruence|]. intros i c Hc.
  destruct (H2 i c Hc) as [Ht|?]; [|auto]. auto.
Qed.

Lemma lookup_buf_write s at_ d i :
  (at_ + length d <= length s)%nat ->
  buf_write s at_ d !! i = if decide (at_ <= i < at_ + length d)%nat then d !! (i - at_)%nat else s !! i.
Proof.
  intros Hl. unfold buf_write. destruct (decide (i < at_)%nat).
  - rewrite lookup_app_l by (rewrite length_take; lia). rewrite lookup_take_lt by lia.
    by rewrite decide_False by lia.
  - rewrite lookup_app_r by (rewrite length_take; lia). rewrite length_take, Nat.min_l by lia.
    destruct (decide (i < at_ + length d)%nat).
    + rewrite lookup_app_l by lia. by rewrite decide_True by lia.
    + rewrite lookup_app_r by lia. rewrite lookup_drop, decide_False by lia. f_equal. lia.
Qed.

Lemma RedactMatches_ok gs s :
  groups_in (length s) gs ->
  exists out, RedactMatches s gs = Some out /\ redacted_from s out /\ blanked s gs out.
Proof.
  intros Hgs. revert s Hgs; induction gs as [|[a b] gs IH]; intros s Hgs.
  - exists s. split; [done|]. split; [apply redacted_refl|]. split_and!; [done..|]. intros i a b Hin. by apply not_elem_of_nil in Hin.
  - apply Forall_cons in Hgs as [Hab Hgs]. cbn [RedactMatches].
    rewrite (proj2 (Nat.leb_le _ _)) by lia.
    assert (Hfit : (a + length (redaction (b - a)) <= length s)%nat) by (rewrite length_redaction; lia).
    rewrite mem_write_some by done. cbn [mbind option_bind]. set (s1 := buf_write s a (redaction (b - a))).
    assert (Hl1 : length s1 = length s) by (by apply buf_write_length).
    destruct (IH s1) as (out & E & [L R] & _ & Hout & Hin); [by rewrite Hl1|].
    assert (Hs1 : forall i, s1 !! i = if decide (a <= i < b)%nat then redaction (b - a) !! (i - a)%nat else s !! i).
    { intros i. unfold s1. rewrite lookup_buf_write by done. rewrite length_redaction.
      by replace (a + (b - a))%nat with b by lia. }
    exists out. split; [done|]. split; [|split_and!; [lia|..]].
    + apply (redacted_trans s s1); [|done]. split; [done|]. intros i c Hc. rewrite Hs1 in Hc.
      case_decide; [right; by eapply redaction_chars|by left].
    + intros i Hi. rewrite Hout by (intros a' b' Hin'; apply Hi; by apply list_elem_of_further).
      rewrite Hs1, decide_False; [done|]. apply (Hi a b), list_elem_of_here.
    + intros i a' b' Hin' Hi. apply elem_of_cons in Hin' as [[= -> ->]|Hin']; [|by eapply Hin].
      assert (Hlt : (i < length out)%nat) by lia. destruct (lookup_lt_is_Some_2 _ _ Hlt) as [c Hc].
      exists c. split; [done|]. destruct (R i c Hc) as [Hc1|]; [|done]. rewrite Hs1, decide_True in Hc1 by lia.
      by eapply redaction_chars.
Qed.

Context `{!RegexLaws regex}.

Lemma redact_search_ok fuel p s pos :
  (length s < pos + fuel)%nat ->
  exists out, redact_search fuel p s pos = Some out /\ redacted_from s out /\ searched p s pos out.
Proof.
  revert s pos; induction fuel as [|fuel IH]; intros s pos Hf; cbn [redact_search];
    destruct (regex_next p s pos) as [[gs next]|] eqn:E; try (exists s; split; [done|]; split; [apply redacted_refl|by constructor]);
    destruct (regex_next_in _ _ _ _ _ E) as (Hg & Hn & Hp); [lia|].
  destruct (RedactMatches_ok gs s Hg) as (s1 & -> & Hs1 & Hb). cbn [mbind option_bind].
  destruct (IH s1 next) as (out & -> & Ho & Hsr); [destruct Hs1 as [-> _]; lia|].
  exists out. split; [done|]. split; [by eapply redacted_trans|]. by eapply searched_step.
Qed.

(** The payload as the code finds it. *)
Lemma memchr_from_spec s : forall from c i,
  memchr_from s from c = Some i <-> exists a b, s = a ++ c :: b /\ length a = i /\ (from <= i)%nat /\ c ∉ drop from a.
Proof.
  induction s as [|x s IH]; intros from c i; cbn [memchr_from].
  { split; [done|]. intros (a & b & E & _). by destruct a. }
  destruct from as [|from].
  - destruct (Z.eqb_spec x c) as [->|Hne].
    + split; [intros [= <-]; exists [], s; split_and!; [done..|apply not_elem_of_nil]|]. intros (a & b & E & <- & _ & Hin). destruct a as [|y a]; [done|].
      injection E as <- _. exfalso. apply Hin. rewrite drop_0. by left.
    + rewrite fmap_Some. setoid_rewrite IH. split.
      * intros (j & (a & b & -> & <- & _ & Hin) & ->). exists (x :: a), b. split_and!; [done|done|lia|]. rewrite drop_0 in *.
        apply not_elem_of_cons. done.
      * intros (a & b & E & <- & _ & Hin). destruct a as [|y a]; [by injection E as -> _|]. injection E as <- ->.
        exists (length a). split; [|done]. exists a, b. split_and!; [done|done|lia|]. rewrite drop_0 in *. by apply not_elem_of_cons in Hin as [_ ?].
  - rewrite fmap_Some. setoid_rewrite IH. split.
    + intros (j & (a & b & -> & <- & ? & Hin) & ->). exists (x :: a), b. split_and!; try done. simpl. lia.
    + intros (a & b & E & <- & Hle & Hin). destruct a as [|y a]; [simpl in Hle; lia|]. injection E as <- ->. simpl in Hle.
      exists (length a). split; [|done]. exists a, b. split_and!; try done. lia.
Qed.

Lemma StartsWith_spec a b pre : StartsWith (a ++ b) (length a) pre = true <-> pre `prefix_of` b.
Proof.
  unfold StartsWith. rewrite andb_true_iff, Nat.leb_le, bool_decide_eq_true, drop_app_length, length_app. split.
  - intros [_ <-]. exists (drop (length pre) b). symmetry. apply take_drop.
  - intros [k ->]. rewrite length_app, take_app_length. split; [lia|done].
Qed.

Lemma atrace_payload_spec s pre :
  match FindAtracePayloadPtr s with Some off => StartsWith s off pre | None => false end = true <-> atrace_payload s pre.
Proof.
  unfold FindAtracePayloadPtr. destruct ((length s <=? 2)%nat || bool_decide (head s = Some 69)) eqn:E.
  - split; [done|]. intros [Hh (a & b & -> & Ha & _)]. exfalso. apply orb_true_iff in E as [E%Nat.leb_le|E%bool_decide_eq_true]; [|done].
    rewrite length_app in E. simpl in E. lia.
  - apply orb_false_iff in E as [_ E%bool_decide_eq_false]. destruct (memchr_from s 2 124) as [i|] eqn:Em; cbn [fmap option_fmap option_map].
    + apply memchr_from_spec in Em as (a & b & -> & <- & Hle & Hin).
      replace (S (length a)) with (length (a ++ [124])) by (rewrite length_app; simpl; lia).
      replace (a ++ 124 :: b) with ((a ++ [124]) ++ b) in * by by rewrite <- app_assoc. rewrite StartsWith_spec. split.
      * intros Hp. split; [done|]. exists a, b. rewrite <- app_assoc. done.
      * intros [_ (a' & b' & E' & Ha' & Hin' & Hp)]. rewrite <- app_assoc in E'. cbn [app] in E'.
        assert (memchr_from (a ++ 124 :: b) 2 124 = Some (length a')) as E1 by (apply memchr_from_spec; by exists a', b').
        assert (memchr_from (a ++ 124 :: b) 2 124 = Some (length a)) as E2 by (apply memchr_from_spec; by exists a, b).
        assert (length a = length a') as Hl by congruence. apply app_inj_1 in E' as [_ [= ->]]; [done|done].
    + split; [done|]. intros [_ (a & b & -> & Ha & Hin & _)].
      assert (memchr_from (a ++ 124 :: b) 2 124 = Some (length a)) as E1 by (apply memchr_from_spec; by exists a, b). congruence.
Qed.

(** The cache, when filled, holds what a search would give. *)
Definition cache_ok (s : list Z) (cache : option (option nat)) : Prop := forall p, cache = Some p -> p = FindAtracePayloadPtr s.

Lemma atrace_ptr_ok s cache : cache_ok s cache -> atrace_ptr s cache = FindAtracePayloadPtr s.
Proof. intros Hc. destruct cache as [p|]; [by apply Hc|done]. Qed.

(** The outcome of the rules from one on. *)
Definition rules_ok (s : list Z) (rules : list Rule) (res : option (bool * list Z)) : Prop :=
  exists r out, res = Some (r, out) /\ filtered s rules r out /\ redacted_from s out /\ (r = false -> out = s).

Lemma rules_ok_skip s rule rules res : ~ applies s rule -> rules_ok s rules res -> rules_ok s (rule :: rules) res.
Proof. intros Hn (r & out & ? & ? & ?). exists r, out. split; [done|]. split; [by apply filtered_skip|done]. Qed.

(** A policy that matches the whole string, once its precondition is met. *)
Lemma match_ok s rule rules (brk : bool) rest :
  (is_Some (regex_match (pattern rule) s) <-> applies s rule) ->
  (if brk then policy rule = kMatchBreak \/ policy rule = kAtraceMatchBreak else policy rule = kMatchRedactGroups \/ policy rule = kAtraceMatchRedactGroups) ->
  rules_ok s rules rest ->
  rules_ok s (rule :: rules)
    match regex_match (pattern rule) s with
    | Some matches => if brk then Some (false, s) else s ← RedactMatches s matches; Some (true, s)
    | None => rest
    end.
Proof.
  intros Ha Hp Hrest. destruct (regex_match (pattern rule) s) as [gs|] eqn:E.
  2: { apply rules_ok_skip; [|done]. rewrite <- Ha. by intros [? ?]. }
  assert (applies s rule) by (apply Ha; by eexists). destruct brk.
  - exists false, s. split; [done|]. split; [apply filtered_first; [done|by constructor]|]. split; [apply redacted_refl|done].
  - destruct (RedactMatches_ok gs s (regex_match_in _ _ _ E)) as (out & -> & Ho & Hb). exists true, out. split; [done|].
    split; [apply filtered_first; [done|by eapply result_match]|done].
Qed.

Lemma MaybeFilter_rules_ok rules s : forall cache, cache_ok s cache -> rules_ok s rules (MaybeFilter_rules rules s cache).
Proof.
  induction rules as [|rule rules IH]; intros cache Hc; cbn [MaybeFilter_rules].
  { exists false, s. split; [done|]. split; [constructor|]. split; [apply redacted_refl|done]. }
  rewrite (atrace_ptr_ok s cache Hc). assert (Hc' : cache_ok s (Some (FindAtracePayloadPtr s))) by (intros p [= <-]; done).
  pose proof (atrace_payload_spec s (atrace_payload_starts_with rule)) as Hat.
  assert (Hskip : forall cache', cache_ok s cache' -> ~ atrace_payload s (atrace_payload_starts_with rule) ->
    match policy rule with kMatchRedactGroups | kMatchBreak => False | _ => True end -> rules_ok s (rule :: rules) (MaybeFilter_rules rules s cache')).
  { intros cache' Hcc Hn Hpol. apply rules_ok_skip; [|by apply IH]. unfold applies. destruct (policy rule); tauto. }
  destruct (policy rule) eqn:Ep; [apply (match_ok _ _ _ false); try rewrite Ep; [by unfold applies; rewrite Ep|tauto|by apply IH]|
    |apply (match_ok _ _ _ true); try rewrite Ep; [by unfold applies; rewrite Ep|tauto|by apply IH]|..].
  all: destruct (FindAtracePayloadPtr s) as [off|]; [|apply Hskip; [done|by rewrite <- Hat|done]];
    destruct (StartsWith s off _); [|apply Hskip; [done|by rewrite <- Hat|done]];
    assert (atrace_payload s (atrace_payload_starts_with rule)) by by apply Hat.
  - apply (match_ok _ _ _ false); try rewrite Ep; [unfold applies; rewrite Ep; tauto|tauto|by apply IH].
  - apply (match_ok _ _ _ true); try rewrite Ep; [unfold applies; rewrite Ep; tauto|tauto|by apply IH].
  - destruct (regex_next (pattern rule) s 0) as [x|] eqn:En.
    + destruct (redact_search_ok (S (length s)) (pattern rule) s 0) as (out & -> & Ho & Hsr); [lia|]. exists true, out. split; [done|].
      split; [|done]. apply filtered_first; [unfold applies; rewrite Ep, En; split; [done|by eexists]|by apply result_search].
    + apply rules_ok_skip; [|by apply IH]. unfold applies. rewrite Ep, En. by intros [_ [? ?]].
Qed.

(** ** Properties *)

(** The string filter always returns, rewrites the string in place (same
    length, each octet kept or replaced by a redaction character), and leaves
    it untouched when it reports that nothing was redacted. *)
Theorem MaybeFilter_in_place rules_ s :
  exists r out, MaybeFilter rules_ s = Some (r, out) /\ redacted_from s out /\ (r = false -> out = s).
Proof.
  unfold MaybeFilter. destruct (_ || _); [exists false, s; split_and!; [done|apply redacted_refl|done]|].
  destruct (MaybeFilter_rules_ok rules_ s None) as (r & out & ? & _ & ?); [done|]. by exists r, out.
Qed.

End filter.

Arguments Rule : clear implicits.

(** ** A concrete engine: patterns "prefix(.+)" for a literal prefix *)

Record prefix_regex := mkPrefix { literal : list Z }.

Definition prefix_match (r : prefix_regex) (s : list Z) : option groups :=
  let n := length (literal r) in
  if (n <? length s)%nat && bool_decide (take n s = literal r) then Some [(n, length s)] else None.

#[export] Instance prefix_Regex : Regex prefix_regex := {
  regex_match := prefix_match;
  regex_next r s pos :=
    if (pos =? 0)%nat then (fun gs => (gs, S (length s))) <$> prefix_match r s else None }.

Lemma prefix_match_in r s gs : prefix_match r s = Some gs -> groups_in (length s) gs.
Proof.
  unfold prefix_match. destruct (Nat.ltb_spec (length (literal r)) (length s)); [|done]. cbn [andb].
  case_bool_decide; [|done]. intros ?; simplify_eq. apply Forall_singleton. lia.
Qed.

#[export] Instance prefix_RegexLaws : RegexLaws prefix_regex.
Proof.
  split; [apply prefix_match_in|]. cbn. intros r s pos gs next H.
  destruct (Nat.eqb_spec pos 0) as [->|]; [|done].
  destruct (prefix_match r s) as [gs'|] eqn:E; [|done]. cbn in H. simplify_eq.
  split_and!; [by apply (prefix_match_in r)|lia|lia].
Qed.

(** The rule "pw:(.+)" with redaction, applied to "pw:ab". *)
Definition example_rule : Rule prefix_regex := mkRule kMatchRedactGroups (mkPrefix [112; 119; 58]) [].

Lemma MaybeFilter_in_place_witness :
  exists r out, MaybeFilter [example_rule] [112; 119; 58; 97; 98] = Some (r, out) /\
    redacted_from [112; 119; 58; 97; 98] out /\ (r = false -> out = [112; 119; 58; 97; 98]).
Proof. apply (MaybeFilter_in_place [example_rule] [112; 119; 58; 97; 98]). Defined.

(** "B|1|xpw" under a rule that does not apply and one for payloads that start with "x". *)
Definition example_atrace : list Z := [66; 124; 49; 124; 120; 112; 119].

Definition example_rules : list (Rule prefix_regex) :=
  [example_rule; mkRule kAtraceMatchRedactGroups (mkPrefix [66; 124]) [120]; mkRule kMatchBreak (mkPrefix [66]) []].

