(* ===== verification/MessageFilter.v ===== *)
(** * The message filter

    Models src/protozero/filtering/message_filter.{h,cc}: a push-down machine
    that reads a proto message octet by octet (through the tokenizer), asks the
    loaded filter about every field, and rewrites the allowed fields into a
    buffer as large as the input.

    The output buffer is the list of its octets and [out_] an offset into it.
    [None] stands for what must not happen: a write outside the buffer, a query
    outside the filter tables, a failed [DEJAVIEW_CHECK] or (as in debug builds)
    a failed [DEJAVIEW_DCHECK]. The stack is a list with its back first. *)

From S2P Require Import Prelude ProtoUtils ProtoDecoder MessageTokenizer PackedFields FilterBytecode StringFilter.

Definition UINT32_MAX : Z := 2 ^ 32 - 1.

Inductive FilterAction := kDrop | kPassthrough | kFilterString.

Record StackState := mkState {
  in_bytes : Z;
  in_bytes_limit : Z;
  eat_next_bytes : Z;
  out_bytes_written_at_start : Z;
  ss_field_id : Z;
  msg_index : Z;
  size_field : nat;        (** offset of [size_field] in the output buffer *)
  size_field_len : nat;
  filter_string_ptr : nat; (** offset of [filter_string_ptr] *)
  action : FilterAction
}.

Definition StackState_init : StackState := mkState 0 0 0 0 0 0 0 0 0 kDrop.

(** [Config]; the string filter as its effect on the string it is given. *)
Record Config := mkConfig {
  filter_ : Parser;
  string_filter : list Z -> option (bool * list Z);
  root_msg_index_ : Z
}.

Definition LoadFilterBytecode (c : Config) (data : list Z) : bool * Config :=
  let '(res, p) := Load data in (res, mkConfig p (string_filter c) (root_msg_index_ c)).

(** The loop of [SetFilterRoot] over the path; the inner option is [false]. *)
Fixpoint filter_root (p : Parser) (root_msg_idx : Z) (field_ids : list Z) : option (option Z) :=
  match field_ids with
  | [] => Some (Some root_msg_idx)
  | field_id :: field_ids =>
      res ← Query p root_msg_idx field_id;
      if negb (allowed res) || negb (nested_msg_field res) then Some None
      else filter_root p (nested_msg_index res) field_ids
  end.

Definition SetFilterRoot (c : Config) (field_ids : list Z) : option (bool * Config) :=
  root ← filter_root (filter_ c) 0 field_ids;
  Some (match root with
        | Some idx => (true, mkConfig (filter_ c) (string_filter c) idx)
        | None => (false, c)
        end).

Record Filter := mkFilter {
  out_buf_ : list Z;
  out_ : nat;
  tokenizer_ : MessageTokenizer;
  stack_ : list StackState;
  error_ : bool;
  track_field_usage_ : bool;
  field_usage_ : gmap (list Z) Z
}.

Definition out_written (m : Filter) : Z := u32 (Z.of_nat (out_ m)).

Definition set_stack (m : Filter) (st : list StackState) : Filter :=
  mkFilter (out_buf_ m) (out_ m) (tokenizer_ m) st (error_ m) (track_field_usage_ m) (field_usage_ m).
Definition set_tokenizer (m : Filter) (t : MessageTokenizer) : Filter :=
  mkFilter (out_buf_ m) (out_ m) t (stack_ m) (error_ m) (track_field_usage_ m) (field_usage_ m).
Definition set_buf (m : Filter) (buf : list Z) (out : nat) : Filter :=
  mkFilter buf out (tokenizer_ m) (stack_ m) (error_ m) (track_field_usage_ m) (field_usage_ m).
Definition set_usage (m : Filter) (u : gmap (list Z) Z) : Filter :=
  mkFilter (out_buf_ m) (out_ m) (tokenizer_ m) (stack_ m) (error_ m) (track_field_usage_ m) u.

(** Writing at [out_] and moving it. *)
Definition out_put (m : Filter) (octets : list Z) : option Filter :=
  buf ← mem_write (out_buf_ m) (out_ m) octets;
  Some (set_buf m buf (out_ m + length octets)).

Definition AppendVarInt (m : Filter) (field_id value : Z) : option Filter :=
  m ← out_put m (WriteVarInt (MakeTagVarInt field_id));
  out_put m (WriteVarInt value).

Definition AppendFixed (size_of_T : nat) (m : Filter) (field_id value : Z) : option Filter :=
  m ← out_put m (WriteVarInt (MakeTagFixed (Z.of_nat size_of_T) field_id));
  out_put m (le_bytes size_of_T value).

(** With the place and the length of the size field. *)
Definition AppendLenDelim (m : Filter) (field_id len : Z) : option (Filter * (nat * nat)) :=
  m ← out_put m (WriteVarInt (MakeTagLengthDelimited field_id));
  let size_field_start := out_ m in
  m ← out_put m (WriteVarInt len);
  Some (m, (size_field_start, (out_ m - size_field_start)%nat)).

Definition SetUnrecoverableErrorState (m : Filter) : Filter :=
  mkFilter (out_buf_ m) 0 (tokenizer_ m)
    [mkState 0 UINT32_MAX UINT32_MAX 0 0 0 0 0 0 kDrop]
    true (track_field_usage_ m) (field_usage_ m).

(** [stack] is [stack_]: the ids from [stack_[2]] up, then the field's. *)
Definition field_path (stack : list StackState) (field_id : Z) : list Z :=
  (rev (take (length stack - 2) stack) ≫= fun s => WriteVarInt (ss_field_id s)) ++ WriteVarInt field_id.

Definition IncrementCurrentFieldUsage (m : Filter) (field_id : Z) (allowed : bool) : option Filter :=
  root ← stack_ m !! (length (stack_ m) - 2)%nat;
  if (2 <=? length (stack_ m))%nat && (ss_field_id root =? 0) then
    let path := field_path (stack_ m) field_id in
    let count := default 0 (field_usage_ m !! path) in
    Some (set_usage m (<[path := count + (if allowed then 1 else -1)]> (field_usage_ m)))
  else None.

Definition set_in_bytes (s : StackState) (n : Z) : StackState :=
  mkState n (in_bytes_limit s) (eat_next_bytes s) (out_bytes_written_at_start s) (ss_field_id s)
    (msg_index s) (size_field s) (size_field_len s) (filter_string_ptr s) (action s).
Definition set_eat (s : StackState) (n : Z) (a : FilterAction) (ptr : nat) : StackState :=
  mkState (in_bytes s) (in_bytes_limit s) n (out_bytes_written_at_start s) (ss_field_id s)
    (msg_index s) (size_field s) (size_field_len s) ptr a.

(** The [while (state->in_bytes >= state->in_bytes_limit)] loop; it pops a
    state per round, so the size of the stack is enough fuel. The flag says
    whether at least one state was popped ([push_next_state = false]), the last
    component whether the loop left through [SetUnrecoverableErrorState]. *)
Fixpoint pop_loop (fuel : nat) (m : Filter) (popped : bool) : option (Filter * bool * bool) :=
  match stack_ m with
  | [] => None
  | state :: rest =>
      if in_bytes_limit state <=? in_bytes state then
        match fuel with
        | O => None
        | S fuel =>
            if negb (in_bytes state =? in_bytes_limit state) then None else
            let msg_bytes_written := u32 (out_written m - out_bytes_written_at_start state) in
            if in_bytes_limit state <? msg_bytes_written then None else
            buf ← mem_write (out_buf_ m) (size_field state)
                    (WriteRedundantVarInt msg_bytes_written (size_field_len state));
            match rest with
            | [] => None
            | parent :: rest =>
                let parent := set_in_bytes parent (u32 (in_bytes parent + in_bytes state)) in
                let m := set_stack (set_buf m buf (out_ m)) (parent :: rest) in
                if negb (idle (tokenizer_ m)) then Some (SetUnrecoverableErrorState m, true, true)
                else pop_loop fuel m true
            end
        end
      else Some (m, popped, false)
  end.

(** From [++state->in_bytes] to the end of [FilterOneByte]. *)
Definition finish_byte (m : Filter) (next_state : option StackState) : option Filter :=
  match stack_ m with
  | [] => None
  | state :: rest =>
      let m := set_stack m (set_in_bytes state (u32 (in_bytes state + 1)) :: rest) in
      '(m, popped, errored) ← pop_loop (length (stack_ m)) m false;
      if (errored : bool) then Some m
      else
        match next_state with
        | Some s =>
            if (popped : bool) then Some m
            else if idle (tokenizer_ m) then Some (set_stack m (s :: stack_ m)) else None
        | None => Some m
        end
  end.

(** The branch that consumes the payload of a length-delimited field. *)
Definition eat_byte (c : Config) (m : Filter) (state : StackState) (rest : list StackState) (octet : Z)
    : option Filter :=
  let state := set_eat state (eat_next_bytes state - 1) (action state) (filter_string_ptr state) in
  let m := set_stack m (state :: rest) in
  match action state with
  | kDrop => Some m
  | kPassthrough => out_put m [octet]
  | kFilterString =>
      m ← out_put m [octet];
      if eat_next_bytes state =? 0 then
        s ← mem_read (out_buf_ m) (filter_string_ptr state) (out_ m - filter_string_ptr state);
        '(_, s') ← string_filter c s;
        buf ← mem_write (out_buf_ m) (filter_string_ptr state) s';
        Some (set_buf m buf (out_ m))
      else Some m
  end.

(** What the switch over [token.type] leads to: leave through the error state,
    or go on, with the state to push if any. *)
Inductive TokenOutcome :=
| TokError
| TokGoOn (m : Filter) (next_state : option StackState).

Definition on_len_delimited (m : Filter) (state : StackState) (rest : list StackState)
    (filter : QueryResult) (token : Token) : option TokenOutcome :=
  let submessage_len := u32 (tok_value token) in
  let in_bytes_left := u32 (in_bytes_limit state - in_bytes state - 1) in
  if in_bytes_left <? submessage_len then Some TokError
  else if allowed filter && nested_msg_field filter && (0 <? submessage_len) then
    '(m, (sf, sf_len)) ← AppendLenDelim m (tok_field_id token) submessage_len;
    Some (TokGoOn m (Some (mkState 0 submessage_len 0 (out_written m) (tok_field_id token)
                             (nested_msg_index filter) sf sf_len 0 kDrop)))
  else if allowed filter && filter_string_field filter then
    '(m, _) ← AppendLenDelim m (tok_field_id token) submessage_len;
    Some (TokGoOn (set_stack m (set_eat state submessage_len kFilterString (out_ m) :: rest)) None)
  else if allowed filter then
    '(m, _) ← AppendLenDelim m (tok_field_id token) submessage_len;
    Some (TokGoOn (set_stack m (set_eat state submessage_len kPassthrough (filter_string_ptr state) :: rest)) None)
  else
    Some (TokGoOn (set_stack m (set_eat state submessage_len kDrop (filter_string_ptr state) :: rest)) None).

Definition on_token (m : Filter) (state : StackState) (rest : list StackState)
    (filter : QueryResult) (token : Token) : option TokenOutcome :=
  let pass := allowed filter && simple_field filter in
  match tok_type token with
  | kVarInt =>
      if pass then m ← AppendVarInt m (tok_field_id token) (tok_value token); Some (TokGoOn m None)
      else Some (TokGoOn m None)
  | kFixed32 =>
      if pass then m ← AppendFixed 4 m (tok_field_id token) (u32 (tok_value token)); Some (TokGoOn m None)
      else Some (TokGoOn m None)
  | kFixed64 =>
      if pass then m ← AppendFixed 8 m (tok_field_id token) (u64 (tok_value token)); Some (TokGoOn m None)
      else Some (TokGoOn m None)
  | kLengthDelimited => on_len_delimited m state rest filter token
  end.

Definition FilterOneByte (c : Config) (m : Filter) (octet : Z) : option Filter :=
  match stack_ m with
  | [] => None
  | state :: rest =>
      if 0 <? eat_next_bytes state then
        m ← eat_byte c m state rest octet;
        finish_byte m None
      else
        let '(token, t) := Push (tokenizer_ m) octet in
        let m := set_tokenizer m t in
        if tok_valid token then
          filter ← Query (filter_ c) (msg_index state) (tok_field_id token);
          r ← on_token m state rest filter token;
          match r with
          | TokError => Some (SetUnrecoverableErrorState m)
          | TokGoOn m next_state =>
              m ← (if track_field_usage_ m
                   then IncrementCurrentFieldUsage m (tok_field_id token) (allowed filter)
                   else Some m);
              finish_byte m next_state
          end
        else finish_byte m None
  end.

Fixpoint FilterBytes (c : Config) (m : Filter) (l : list Z) : option Filter :=
  match l with
  | [] => Some m
  | b :: l => m ← FilterOneByte c m b; FilterBytes c m l
  end.

Record FilteredMessage := mkFiltered { fm_data : list Z; fm_size : nat; fm_error : bool }.

(** The reset at the start of [FilterMessageFragments]; [buf] is the new
    buffer, whose contents C++ leaves uninitialised. *)
Definition start_message (c : Config) (m : Filter) (buf : list Z) (total_len : Z) : Filter :=
  mkFilter buf 0 tokenizer_init
    [mkState 0 total_len 0 0 0 (root_msg_index_ c) 0 0 0 kDrop;
     mkState 0 UINT32_MAX UINT32_MAX 0 0 0 0 0 0 kDrop]
    false (track_field_usage_ m) (field_usage_ m).

Definition FilterMessageFragments (c : Config) (m : Filter) (slices : list (list Z))
    : option (FilteredMessage * Filter) :=
  let total_len := foldl (fun acc s => u32 (acc + Z.of_nat (length s))) 0 slices in
  let m := start_message c m (replicate (Z.to_nat total_len) 0) total_len in
  m ← FilterBytes c m (mjoin slices);
  if (out_ m <=? Z.to_nat total_len)%nat then
    let bottom := default StackState_init (last (stack_ m)) in
    let error :=
      error_ m || negb (length (stack_ m) =? 1)%nat || negb (idle (tokenizer_ m)) ||
      negb (in_bytes bottom =? total_len) in
    Some (mkFiltered (out_buf_ m) (out_ m) error, m)
  else None.

(** ** Interfaces *)

(** What the machine needs of a loaded filter: queries stay inside its tables. *)
Class QueryTotal (p : Parser) : Prop :=
  query_total : forall m f, 0 <= m -> 0 <= f -> exists r, Query p m f = Some r /\ 0 <= nested_msg_index r.

(** What it needs of a string filter: it returns, and works in place. *)
Class InPlace (sf : list Z -> option (bool * list Z)) : Prop :=
  in_place s : bytes_ok s -> exists r out, sf s = Some (r, out) /\ length out = length s /\ bytes_ok out.

(** ** How many octets a token stands for *)

Definition tag_octets (id : Z) (ty : ProtoWireType) : list Z := WriteVarInt (u32 (id << 3) .| wire_type_num ty).

Definition token_octets (tok : Token) : list Z :=
  tag_octets (tok_field_id tok) (tok_type tok) ++
  match tok_type tok with
  | kVarInt => WriteVarInt (tok_value tok)
  | kFixed32 => le_bytes 4 (tok_value tok)
  | kFixed64 => le_bytes 8 (tok_value tok)
  | kLengthDelimited => WriteVarInt (u32 (tok_value tok))
  end.

(** [k] octets of an unfinished field have been pushed. *)
Definition tok_pend (t : MessageTokenizer) (k : nat) : Prop :=
  match state_ t with
  | kFieldPreamble => varint_shift_ t = 7 * Z.of_nat k
  | kVarIntValue =>
      exists a j, k = (a + j)%nat /\ (length (tag_octets (field_id_ t) kVarInt) <= a)%nat /\
        varint_shift_ t = 7 * Z.of_nat j
  | kLenDelimited =>
      exists a j, k = (a + j)%nat /\ (length (tag_octets (field_id_ t) kLengthDelimited) <= a)%nat /\
        varint_shift_ t = 7 * Z.of_nat j
  | kFixedIntValue =>
      exists a j, k = (a + j)%nat /\
        (length (tag_octets (field_id_ t) (if (fixed_int_bits_ t =? 32)%Z then kFixed32 else kFixed64)) <= a)%nat /\
        fixed_int_shift_ t = 8 * Z.of_nat j
  | _ => True
  end.

Lemma idle_pend t k : idle t = true -> tok_pend t k -> k = 0%nat.
Proof.
  unfold idle, tok_pend. intros H. apply andb_true_iff in H as [[H1 H2]%andb_true_iff _].
  apply bool_decide_eq_true in H1. apply Z.eqb_eq in H2. rewrite H1, H2. lia.
Qed.

Lemma varint_size_le v j : 0 <= v < 2 ^ (7 * (Z.of_nat j + 1)) -> (varint_size v <= j + 1)%nat.
Proof.
  intros Hv. unfold varint_size.
  assert (Z.log2 (Z.max v 1) < 7 * (Z.of_nat j + 1)).
  { apply Z.log2_lt_pow2; [lia|]. apply Z.max_lub_lt; [lia|].
    apply (Z.pow_lt_mono_r 2 0); lia. }
  pose proof (Z.log2_nonneg (Z.max v 1)).
  assert (Z.log2 (Z.max v 1) / 7 < Z.of_nat j + 1) by (apply Z.div_lt_upper_bound; lia).
  pose proof (Z.div_pos (Z.log2 (Z.max v 1)) 7). lia.
Qed.

Lemma length_WriteVarInt_le v j :
  is_u64 v -> v < 2 ^ (7 * (Z.of_nat j + 1)) -> (length (WriteVarInt v) <= j + 1)%nat.
Proof. intros Hv Hj. rewrite length_WriteVarInt by done. apply varint_size_le. unfold is_u64 in Hv. lia. Qed.

Lemma tag_octets_le V ty j :
  is_u64 V -> V < 2 ^ (7 * (Z.of_nat j + 1)) -> wire_type_num ty = V mod 8 ->
  (length (tag_octets (u32 (V >> 3)) ty) <= j + 1)%nat.
Proof.
  intros HV Hj Hty. unfold tag_octets. rewrite Z.lor_comm.
  assert (Ht : 0 <= wire_type_num ty < 8) by (destruct ty; cbn; lia).
  assert (E : exists q, 0 <= q /\ u32 (u32 (V >> 3) << 3) = q * 8 /\ q <= V / 8 /\ q * 8 < 2 ^ 32).
  { rewrite shiftr_div, shiftl_mul by lia. change (2 ^ 3) with 8. exists (u32 (V / 8) mod 2 ^ 29).
    unfold u32. change (2 ^ 32) with (2 ^ 29 * 8). rewrite Z.mul_mod_distr_r by lia.
    pose proof (Z.mod_pos_bound ((V / 8) mod (2 ^ 29 * 8)) (2 ^ 29)).
    pose proof (Z.mod_le ((V / 8) mod (2 ^ 29 * 8)) (2 ^ 29)).
    pose proof (Z.mod_pos_bound (V / 8) (2 ^ 29 * 8)).
    pose proof (Z.mod_le (V / 8) (2 ^ 29 * 8)).
    assert (0 <= V / 8) by (apply Z.div_pos; [apply HV|lia]). split_and!; try lia. }
  destruct E as (q & Hq & E & Hq1 & Hq2). rewrite E.
  replace (q * 8) with (q << 3) by (rewrite shiftl_mul by lia; lia).
  rewrite lor_shiftl_add by lia. change (2 ^ 3) with 8.
  assert (V = 8 * (V / 8) + V mod 8) by (apply Z.div_mod; lia).
  apply length_WriteVarInt_le; unfold is_u64 in *; lia.
Qed.

Definition push_post (k : nat) (tok : Token) (t' : MessageTokenizer) : Prop :=
  (exists k', (k' <= k + 1)%nat /\ tok_pend t' k') /\
  is_u32 (tok_field_id tok) /\ is_u64 (tok_value tok) /\
  (tok_valid tok = true -> tok_pend t' 0 /\ idle t' = true /\ (length (token_octets tok) <= k + 1)%nat).

Lemma no_token_post k t' k' : (k' <= k + 1)%nat -> tok_pend t' k' -> push_post k no_token t'.
Proof. intros. split_and!; [by exists k'|cbn; unfold_u; lia|cbn; unfold_u; lia|done]. Qed.

Lemma OnVarInt_pend t k V :
  tok_ok t -> state_ t <> kFixedIntValue -> tok_pend t k -> is_u64 V ->
  (~ is_error (state_ t) -> V < 2 ^ (varint_shift_ t + 7)) ->
  push_post k (fst (OnVarInt t V)) (snd (OnVarInt t V)).
Proof.
  intros Ht Hs Hk HV Hlt. pose proof (to_nofixed t Ht Hs) as H0. pose proof (to_id t Ht) as Hid.
  unfold tok_pend in Hk. unfold OnVarInt. rewrite H0.
  destruct (state_ t) eqn:Est; try done; cbn [fst snd];
    try (apply (no_token_post k _ 0); [lia|unfold tok_pend; done]).
  - specialize (Hlt ltac:(unfold is_error; naive_solver)). rewrite Hk in Hlt.
    replace (7 * Z.of_nat k + 7) with (7 * (Z.of_nat k + 1)) in Hlt by lia.
    assert (E8 : u32 (V .& 7) = V mod 8) by (rewrite land_7; divlia). rewrite E8.
    apply (no_token_post k _ (k + 1)); [lia|].
    assert (Hgo : forall ty, wire_type_num ty = V mod 8 ->
       exists a j, (k + 1)%nat = (a + j)%nat /\ (length (tag_octets (u32 (V >> 3)) ty) <= a)%nat /\ 0 = 7 * Z.of_nat j /\ 0 = 8 * Z.of_nat j).
    { intros ty Hty. exists (k + 1)%nat, 0%nat. split_and!; try lia. by apply tag_octets_le. }
    destruct (Z.eqb_spec (V mod 8) (wire_type_num kVarInt)) as [E|_].
    { unfold tok_pend. cbn. destruct (Hgo kVarInt ltac:(done)) as (a & j & ? & ? & ? & ?). by exists a, j. }
    destruct (Z.eqb_spec (V mod 8) (wire_type_num kFixed32)) as [E|_].
    { unfold tok_pend. cbn. destruct (Hgo kFixed32 ltac:(done)) as (a & j & ? & ? & ? & ?). by exists a, j. }
    destruct (Z.eqb_spec (V mod 8) (wire_type_num kFixed64)) as [E|_]; cbn [orb].
    { unfold tok_pend. cbn. destruct (Hgo kFixed64 ltac:(done)) as (a & j & ? & ? & ? & ?). by exists a, j. }
    destruct (Z.eqb_spec (V mod 8) (wire_type_num kLengthDelimited)) as [E|_]; [|done].
    unfold tok_pend. cbn. destruct (Hgo kLengthDelimited ltac:(done)) as (a & j & ? & ? & ? & ?). by exists a, j.
  - specialize (Hlt ltac:(unfold is_error; naive_solver)). destruct Hk as (a & j & -> & Ha & Hj). rewrite Hj in Hlt.
    split_and!; cbn [tok_field_id tok_value]; try done; [exists 0%nat; split; [lia|done]|]. intros _. split_and!; try done.
    unfold token_octets. cbn [tok_field_id tok_type tok_value]. rewrite length_app.
    pose proof (length_WriteVarInt_le V j HV ltac:(by replace (7 * (Z.of_nat j + 1)) with (7 * Z.of_nat j + 7) by lia)). lia.
  - specialize (Hlt ltac:(unfold is_error; naive_solver)). destruct Hk as (a & j & -> & Ha & Hj). rewrite Hj in Hlt.
    destruct (Z.ltb_spec kMaxMessageLength V) as [|Hle]; cbn [fst snd].
    { apply (no_token_post _ _ 0); [lia|done]. }
    change kMaxMessageLength with 268435455 in Hle.
    split_and!; cbn [tok_field_id tok_value]; try done; [exists 0%nat; split; [lia|done]|]. intros _. split_and!; try done.
    unfold token_octets. cbn [tok_field_id tok_type tok_value]. rewrite length_app. rewrite (u32_id V) by (unfold is_u32, is_u64 in *; lia).
    pose proof (length_WriteVarInt_le V j HV ltac:(by replace (7 * (Z.of_nat j + 1)) with (7 * Z.of_nat j + 7) by lia)). lia.
Qed.

Lemma Push_pend t b k :
  tok_ok t -> is_u8 b -> tok_pend t k -> push_post k (fst (Push t b)) (snd (Push t b)).
Proof.
  intros Ht Hb Hk. unfold Push. case_decide as Hf.
  - destruct (to_fixed t Ht Hf) as (Hv0 & Hs0 & Hbits & Hsh & Hdiv & Hval).
    pose proof (shift_divide_bound _ _ Hbits Hdiv (proj2 Hsh)) as H8. pose proof (to_id t Ht).
    unfold tok_pend in Hk. rewrite Hf in Hk. destruct Hk as (a & j & -> & Ha & Hj).
    destruct (acc_fixed (fixed_int_value_ t) b (fixed_int_shift_ t)) as [Ev Hv']; try lia; [done|].
    unfold PushFixed. rewrite Ev. destruct (Z.ltb_spec (fixed_int_shift_ t + 8) (fixed_int_bits_ t)).
    + cbn [fst snd]. apply (no_token_post _ _ (a + j + 1)); [lia|]. unfold tok_pend. cbn. rewrite Hf.
      exists a, (j + 1)%nat. split_and!; (done || lia).
    + cbn [fst snd]. rewrite Hv0, Hs0. split_and!; cbn [tok_field_id tok_value]; try done.
      * exists 0%nat. split; [lia|done].
      * unfold is_u64. assert (2 ^ (fixed_int_shift_ t + 8) <= 2 ^ 64) by (apply Z.pow_le_mono_r; lia). lia.
      * intros _. split_and!; try done. unfold token_octets. cbn [tok_field_id tok_type tok_value].
        rewrite length_app. destruct Hbits as [Hbits|Hbits]; rewrite Hbits in *; cbn [Z.eqb Pos.eqb] in *;
          rewrite length_le_bytes; lia.
  - pose proof (varint_lor_u64 t b Ht) as Hvr.
    assert (Hlt : ~ is_error (state_ t) ->
       varint_ t .| u64 ((b .& 0x7F) << varint_shift_ t) < 2 ^ (varint_shift_ t + 7)).
    { intros Hne. pose proof (to_clean t Ht Hne). pose proof (to_shift t Ht). pose proof (to_varint t Ht).
      rewrite land_7f. assert (0 <= b mod 128 < 128) by (apply Z.mod_pos_bound; lia).
      rewrite acc_step by (unfold is_u64 in *; lia).
      assert (0 < 2 ^ varint_shift_ t) by (apply Z.pow_pos_nonneg; lia).
      rewrite Z.pow_add_r by lia. unfold u64.
      apply Z.le_lt_trans with (varint_ t + b mod 128 * 2 ^ varint_shift_ t).
      { apply Z.mod_le; [unfold is_u64 in *; nia|lia]. }
      change (2 ^ 7) with 128. nia. }
    destruct (negb _) eqn:Ec; [|by apply OnVarInt_pend].
    destruct (Z.leb_spec 64 (varint_shift_ t + 7)); cbn [fst snd].
    + apply (no_token_post _ _ 0); [lia|]. done.
    + apply (no_token_post _ _ (k + 1)); [lia|]. unfold tok_pend in *. cbn.
      destruct (state_ t); try done; try lia; destruct Hk as (a & j & -> & Ha & Hj); exists a, (j + 1)%nat; split_and!; (done || lia).
Qed.

(** ** The invariant of the push-down machine *)

(** The root message is the state above the sentinel. *)
Fixpoint root_ok (st : list StackState) : Prop :=
  match st with
  | [] => True
  | r :: st => match st with [_] => ss_field_id r = 0 | _ => root_ok st end
  end.

(** One open message: [acc] octets were consumed by the messages nested in it,
    of which the innermost open one may still take [cl]. What was written for it is
    bounded by what was read for it. *)
Record frame_ok (out pend acc cl : Z) (s : StackState) : Prop := {
  fr_in : 0 <= in_bytes s;
  fr_lim : in_bytes s + cl <= in_bytes_limit s;
  fr_start : 0 <= out_bytes_written_at_start s <= out;
  fr_out : out - out_bytes_written_at_start s + pend <= in_bytes s + acc;
  fr_size : Z.of_nat (size_field s + size_field_len s) <= out_bytes_written_at_start s;
  fr_idx : 0 <= msg_index s
}.

(** The states below the top, down to the sentinel; [n] octets were consumed. *)
Fixpoint chain (out pend acc cl cap n : Z) (st : list StackState) : Prop :=
  match st with
  | [] => False
  | s :: st =>
      match st with
      | [] => in_bytes s = 0 /\ in_bytes_limit s = UINT32_MAX /\ eat_next_bytes s = UINT32_MAX /\
              action s = kDrop /\ cl = cap /\ acc = n
      | _ => frame_ok out pend acc cl s /\ eat_next_bytes s = 0 /\
             chain out pend (acc + in_bytes s) (in_bytes_limit s) cap n st
      end
  end.

Record live (cap n : Z) (m : Filter) (pend : nat) (top : StackState) (rest : list StackState) : Prop := {
  lv_top : frame_ok (Z.of_nat (out_ m)) (Z.of_nat pend) 0 0 top;
  lv_eat : 0 <= eat_next_bytes top <= in_bytes_limit top - in_bytes top;
  lv_eat_pend : 0 < eat_next_bytes top -> pend = 0%nat;
  lv_fs : action top = kFilterString -> 0 < eat_next_bytes top -> (filter_string_ptr top <= out_ m)%nat;
  lv_chain : chain (Z.of_nat (out_ m)) (Z.of_nat pend) (in_bytes top) (in_bytes_limit top) cap n rest;
  lv_root : root_ok (top :: rest);
  lv_out : Z.of_nat (out_ m) + Z.of_nat pend <= n;
  lv_cap : n <= cap < UINT32_MAX;
  lv_tok : tok_ok (tokenizer_ m);
  lv_pend : tok_pend (tokenizer_ m) pend;
  lv_buf : Z.of_nat (length (out_buf_ m)) = cap;
  lv_bytes : bytes_ok (out_buf_ m)
}.

(** After the end of the root message or an error: the rest is swallowed. *)
Record done_st (cap n : Z) (m : Filter) (s : StackState) : Prop := {
  dn_in : 0 <= in_bytes s <= n;
  dn_lim : in_bytes_limit s = UINT32_MAX;
  dn_eat : UINT32_MAX - n <= eat_next_bytes s <= UINT32_MAX;
  dn_action : action s = kDrop;
  dn_cap : n <= cap < UINT32_MAX;
  dn_buf : Z.of_nat (length (out_buf_ m)) = cap;
  dn_out : Z.of_nat (out_ m) <= cap;
  dn_bytes : bytes_ok (out_buf_ m)
}.

Definition inv (cap n : Z) (m : Filter) : Prop :=
  (exists pend top rest, stack_ m = top :: rest /\ live cap n m pend top rest /\
     in_bytes top < in_bytes_limit top) \/
  (exists s, stack_ m = [s] /\ done_st cap n m s).

Lemma chain_limit out pend acc cl cap n st : chain out pend acc cl cap n st -> cl <= cap.
Proof.
  revert acc cl; induction st as [|s st IH]; intros acc cl H; [done|]. destruct st as [|s' st].
  - destruct H as (_ & _ & _ & _ & -> & _). lia.
  - destruct H as (Hf & _ & Hc). apply IH in Hc. destruct Hf. lia.
Qed.

(** [d] more octets consumed by the innermost message, at most as many written. *)
Lemma chain_grow d out pend out' pend' acc cl cap n st :
  chain out pend acc cl cap n st -> out <= out' -> out' + pend' <= out + pend + d ->
  chain out' pend' (acc + d) cl cap (n + d) st.
Proof.
  revert acc cl; induction st as [|s st IH]; intros acc cl H H1 H2; [done|]. destruct st as [|s' st].
  - destruct H as (? & ? & ? & ? & ? & ?). split_and!; try done. lia.
  - destruct H as (Hf & He & Hc). split_and!; [destruct Hf; split; lia|done|].
    replace (acc + d + in_bytes s) with (acc + in_bytes s + d) by lia. by apply IH.
Qed.

Lemma root_ok_cons s st : (2 <= length st)%nat -> root_ok (s :: st) <-> root_ok st.
Proof. destruct st as [|a [|b st]]; cbn [length]; intros; try lia. done. Qed.

Lemma root_ok_field a b st : ss_field_id a = ss_field_id b -> root_ok (a :: st) -> root_ok (b :: st).
Proof. intros E. destruct st as [|c [|d st]]; cbn; try done. by rewrite E. Qed.

Lemma root_ok_tail s st : root_ok (s :: st) -> root_ok st.
Proof. destruct st as [|a [|b st]]; done. Qed.

(** The error state satisfies the invariant whatever led to it. *)
Lemma error_done cap n m :
  n <= cap < UINT32_MAX -> 0 <= n -> Z.of_nat (length (out_buf_ m)) = cap -> bytes_ok (out_buf_ m) ->
  exists s, stack_ (SetUnrecoverableErrorState m) = [s] /\ done_st cap n (SetUnrecoverableErrorState m) s.
Proof.
  intros. eexists; split; [reflexivity|]. split; cbn; try done; try lia; unfold UINT32_MAX in *; lia.
Qed.

Lemma live_nonneg cap n m pend top rest : live cap n m pend top rest -> 0 <= n.
Proof. intros []. lia. Qed.

Lemma live_out_cap cap n m pend top rest : live cap n m pend top rest -> (out_ m <= length (out_buf_ m))%nat.
Proof. intros []. lia. Qed.

(** Closing messages that are complete. *)
Lemma pop_loop_ok cap n rest : forall top m pend popped fuel,
  stack_ m = top :: rest -> live cap n m pend top rest -> (length rest < fuel)%nat ->
  exists m' popped' errored, pop_loop fuel m popped = Some (m', popped', errored) /\ inv cap n m' /\
    (in_bytes top < in_bytes_limit top -> m' = m /\ popped' = popped /\ errored = false).
Proof.
  induction rest as [|parent rest IH]; intros top m pend popped fuel Hst Hl Hf.
  { destruct Hl as [_ _ _ _ [] _ _ _ _ _ _ _]. }
  destruct fuel as [|fuel]; [lia|]. cbn [pop_loop length] in *. rewrite Hst.
  destruct (Z.leb_spec (in_bytes_limit top) (in_bytes top)) as [Hfull|Hnot].
  2: { eexists _, _, _. split_and!; [reflexivity| |done]. left. by exists pend, top, (parent :: rest). }
  pose proof Hl as [[F1 F2 F3 F4 F5 F6] E1 E2 E3 Hch Hroot Hout Hcap Htok Hpend Hbuf Hby].
  pose proof (chain_limit _ _ _ _ _ _ _ Hch) as Hlim.
  unfold UINT32_MAX in Hcap. assert (Eq : in_bytes top = in_bytes_limit top) by lia.
  rewrite Eq, Z.eqb_refl. cbn [negb]. unfold out_written.
  rewrite (u32_id (Z.of_nat (out_ m))) by (unfold is_u32; lia). rewrite u32_id by (unfold is_u32; lia).
  rewrite (proj2 (Z.ltb_ge _ _)) by lia.
  assert (Hw : (size_field top + length (WriteRedundantVarInt
     (Z.of_nat (out_ m) - out_bytes_written_at_start top) (size_field_len top)) <= length (out_buf_ m))%nat)
    by (rewrite length_WriteRedundantVarInt; lia).
  rewrite mem_write_some by exact Hw. cbn [mbind option_bind]. set (buf := buf_write _ _ _).
  assert (Hbl : length buf = length (out_buf_ m)) by (by apply buf_write_length).
  assert (Hbb : bytes_ok buf) by (apply buf_write_ok; [done|]; apply WriteRedundantVarInt_ok; lia).
  cbn [tokenizer_ set_stack set_buf].
  destruct (idle (tokenizer_ m)) eqn:Hidle; cbn [negb].
  2: { eexists _, _, _. split_and!; [reflexivity| |lia]. right.
       apply error_done; cbn; rewrite ?Hbl; try done; try lia; unfold UINT32_MAX; lia. }
  pose proof (idle_pend _ _ Hidle Hpend) as ->.
  destruct rest as [|p2 rest].
  - destruct Hch as (S1 & S2 & S3 & S4 & S5 & S6).
    destruct fuel as [|fuel]; [cbn [length] in Hf; lia|]. cbn [pop_loop set_stack set_buf stack_ in_bytes in_bytes_limit set_in_bytes].
    rewrite S1, S2, Z.add_0_l, u32_id by (unfold is_u32; lia).
    rewrite (proj2 (Z.leb_gt _ _)) by (unfold UINT32_MAX; lia).
    eexists _, _, _. split_and!; [reflexivity| |lia]. right. eexists; split; [reflexivity|].
    split; cbn; rewrite ?Hbl; try done; try lia; unfold UINT32_MAX in *; lia.
  - destruct Hch as (Hfr & Heat & Hch). pose proof (chain_limit _ _ _ _ _ _ _ Hch) as Hlim2.
    pose proof Hfr as [P1 P2 P3 P4 P5 P6].
    rewrite (u32_id (in_bytes parent + _)) by (unfold is_u32; lia).
    set (parent' := set_in_bytes parent (in_bytes parent + in_bytes_limit top)).
    assert (Hl' : live cap n (set_stack (set_buf m buf (out_ m)) (parent' :: p2 :: rest)) 0 parent' (p2 :: rest)).
    { unfold parent'. split; cbn [set_stack set_buf out_ out_buf_ tokenizer_ set_in_bytes in_bytes in_bytes_limit eat_next_bytes action
        filter_string_ptr]; rewrite ?Hbl, ?Heat; try done; try lia.
      - split; cbn; lia.
      - by replace (in_bytes parent + in_bytes_limit top) with (in_bytes top + in_bytes parent) by lia. }
    destruct (IH parent' (set_stack (set_buf m buf (out_ m)) (parent' :: p2 :: rest)) 0%nat true fuel eq_refl Hl') as (m' & popped' & errored & E & Hinv & _);
      [cbn [length] in Hf |- *; lia|].
    eexists _, _, _. split_and!; [exact E|exact Hinv|lia].
Qed.

(** ** Every step keeps the invariant *)

Lemma out_put_ok m octets :
  (out_ m + length octets <= length (out_buf_ m))%nat ->
  out_put m octets = Some (set_buf m (buf_write (out_buf_ m) (out_ m) octets) (out_ m + length octets)).
Proof. intros. unfold out_put. by rewrite mem_write_some. Qed.

(** Two writes in a row are one. *)
Lemma out_put_app m a b :
  (out_ m + length (a ++ b) <= length (out_buf_ m))%nat ->
  (m1 ← out_put m a; out_put m1 b) = out_put m (a ++ b).
Proof.
  intros H. rewrite length_app in H. rewrite (out_put_ok m a) by lia. cbn [mbind option_bind].
  rewrite !out_put_ok; cbn [out_ out_buf_ set_buf]; rewrite ?buf_write_length, ?length_app by lia; try lia.
  rewrite buf_write_app by lia. by rewrite Nat.add_assoc.
Qed.

Lemma finish_byte_ok cap n m pend state rest :
  stack_ m = state :: rest -> in_bytes state + 1 < 2 ^ 32 -> 0 <= in_bytes state ->
  live cap n m pend (set_in_bytes state (in_bytes state + 1)) rest ->
  exists m', finish_byte m None = Some m' /\ inv cap n m'.
Proof.
  intros Hst Hb Hb0 Hl. unfold finish_byte. rewrite Hst, u32_id by (unfold is_u32; lia).
  edestruct (pop_loop_ok cap n rest (set_in_bytes state (in_bytes state + 1))
    (set_stack m (set_in_bytes state (in_bytes state + 1) :: rest)) pend false) as (m' & popped & errored & -> & Hinv & _);
    [done|destruct Hl; by split|cbn [set_stack stack_ length]; lia|].
  cbn [mbind option_bind]. exists m'. by destruct errored.
Qed.

Lemma finish_push_ok cap n m pend state rest next :
  stack_ m = state :: rest -> 0 <= in_bytes state -> in_bytes state + 1 < in_bytes_limit state ->
  live cap n m pend (set_in_bytes state (in_bytes state + 1)) rest ->
  idle (tokenizer_ m) = true -> eat_next_bytes state = 0 ->
  0 < in_bytes_limit next <= in_bytes_limit state - in_bytes state - 1 ->
  in_bytes next = 0 -> eat_next_bytes next = 0 -> out_bytes_written_at_start next = Z.of_nat (out_ m) ->
  Z.of_nat (size_field next + size_field_len next) <= Z.of_nat (out_ m) -> 0 <= msg_index next ->
  exists m', finish_byte m (Some next) = Some m' /\ inv cap n m'.
Proof.
  intros Hst Hb0 Hb Hl Hid He Hn1 Hn2 Hn3 Hn4 Hn5 Hn6.
  pose proof (chain_limit _ _ _ _ _ _ _ (lv_chain _ _ _ _ _ _ Hl)) as Hlim. cbn in Hlim.
  pose proof (lv_cap _ _ _ _ _ _ Hl) as Hcap. unfold UINT32_MAX in Hcap.
  pose proof (idle_pend _ _ Hid (lv_pend _ _ _ _ _ _ Hl)) as ->.
  unfold finish_byte. rewrite Hst, u32_id by (unfold is_u32; lia).
  set (state' := set_in_bytes state (in_bytes state + 1)) in *.
  edestruct (pop_loop_ok cap n rest state' (set_stack m (state' :: rest)) 0 false) as (m' & popped & errored & -> & _ & Hsame);
    [done|destruct Hl; by split|cbn [set_stack stack_ length]; lia|].
  destruct Hsame as (-> & -> & ->); [cbn; lia|]. cbn [mbind option_bind set_stack tokenizer_ stack_]. rewrite Hid.
  eexists; split; [reflexivity|]. left. exists 0%nat, next, (state' :: rest). split_and!; [done| |lia].
  destruct Hl as [[F1 F2 F3 F4 F5 F6] L2 L3 L4 L5 L6 L7 L8 L9 L10 L11 L12].
  destruct rest as [|p rest]; [done|].
  split; cbn [set_stack out_ out_buf_ tokenizer_]; try done; try lia.
  - split; rewrite ?Hn2, ?Hn4; lia.
  - rewrite Hn2. split_and!; [split; cbn in *; lia|done|]. by rewrite Z.add_0_l.
Qed.

Definition same_frame (a b : StackState) : Prop :=
  in_bytes b = in_bytes a /\ in_bytes_limit b = in_bytes_limit a /\
  out_bytes_written_at_start b = out_bytes_written_at_start a /\ ss_field_id b = ss_field_id a /\
  msg_index b = msg_index a /\ size_field b = size_field a /\ size_field_len b = size_field_len a.

Lemma same_frame_refl s : same_frame s s.
Proof. by split_and!. Qed.

Lemma same_frame_eat s n a p : same_frame s (set_eat s n a p).
Proof. by split_and!. Qed.

(** One more octet read by the top message, and no more written (or kept for
    later by the tokenizer) than that. *)
Lemma live_step cap n m pend top rest m' pend' top' :
  live cap n m pend top rest -> n + 1 <= cap -> in_bytes top < in_bytes_limit top -> same_frame top top' ->
  (out_ m <= out_ m')%nat -> (out_ m' + pend' <= out_ m + pend + 1)%nat ->
  0 <= eat_next_bytes top' <= in_bytes_limit top - in_bytes top - 1 ->
  (0 < eat_next_bytes top' -> pend' = 0%nat) ->
  (action top' = kFilterString -> 0 < eat_next_bytes top' -> (filter_string_ptr top' <= out_ m')%nat) ->
  tok_ok (tokenizer_ m') -> tok_pend (tokenizer_ m') pend' ->
  length (out_buf_ m') = length (out_buf_ m) -> bytes_ok (out_buf_ m') ->
  live cap (n + 1) m' pend' (set_in_bytes top' (in_bytes top' + 1)) rest.
Proof.
  intros [[F1 F2 F3 F4 F5 F6] L2 L3 L4 L5 L6 L7 L8 L9 L10 L11 L12] Hn Hin (S1 & S2 & S3 & S4 & S5 & S6 & S7)
    Ho1 Ho2 He1 He2 He3 Ht1 Ht2 Hb1 Hb2.
  split; cbn [set_in_bytes in_bytes in_bytes_limit eat_next_bytes action filter_string_ptr];
    rewrite ?S1, ?S2; try done; try lia.
  - split; cbn; rewrite ?S1, ?S2, ?S3, ?S5, ?S6, ?S7; lia.
  - eapply chain_grow; [exact L5|lia|lia].
  - eapply root_ok_field; [|exact L6]. cbn. congruence.
Qed.

Section safety.
Context (c : Config) `{!QueryTotal (filter_ c)} `{!InPlace (string_filter c)}.

Lemma eat_byte_ok cap n m pend top rest octet :
  stack_ m = top :: rest -> live cap n m pend top rest -> in_bytes top < in_bytes_limit top ->
  n + 1 <= cap -> 0 < eat_next_bytes top -> is_u8 octet ->
  exists m', (m1 ← eat_byte c m top rest octet; finish_byte m1 None) = Some m' /\ inv cap (n + 1) m'.
Proof.
  intros Hst Hl Hin Hn He Ho. pose proof (lv_eat_pend _ _ _ _ _ _ Hl He) as ->.
  pose proof (lv_eat _ _ _ _ _ _ Hl) as Heat. pose proof (fr_in _ _ _ _ _ (lv_top _ _ _ _ _ _ Hl)) as Hi0.
  pose proof (chain_limit _ _ _ _ _ _ _ (lv_chain _ _ _ _ _ _ Hl)) as Hlim.
  pose proof (lv_cap _ _ _ _ _ _ Hl) as Hcap. unfold UINT32_MAX in Hcap.
  pose proof (lv_out _ _ _ _ _ _ Hl) as Hout. pose proof (lv_buf _ _ _ _ _ _ Hl) as Hbuf.
  pose proof (lv_bytes _ _ _ _ _ _ Hl) as Hby. pose proof (lv_tok _ _ _ _ _ _ Hl) as Htok.
  pose proof (lv_pend _ _ _ _ _ _ Hl) as Hpend.
  set (top' := set_eat top (eat_next_bytes top - 1) (action top) (filter_string_ptr top)).
  assert (Hgo : forall m', stack_ m' = top' :: rest -> tokenizer_ m' = tokenizer_ m ->
     (out_ m <= out_ m' <= out_ m + 1)%nat -> length (out_buf_ m') = length (out_buf_ m) -> bytes_ok (out_buf_ m') ->
     (exists m2, finish_byte m' None = Some m2 /\ inv cap (n + 1) m2)).
  { intros m' E1 E2 E3 E4 E5. eapply (finish_byte_ok cap (n + 1) m' 0 top' rest); try done; cbn; try lia.
    apply (live_step cap n m 0 top rest m' 0 top'); try done; try lia; cbn; try lia; rewrite ?E2; try done.
    intros Ha Hp. pose proof (lv_fs _ _ _ _ _ _ Hl Ha He). lia. }
  assert (Hone : bytes_ok [octet]) by (by apply Forall_singleton).
  unfold eat_byte. cbn [set_eat action eat_next_bytes filter_string_ptr]. fold top'.
  destruct (action top) eqn:Ea; cbn [mbind option_bind].
  - apply Hgo; try done. cbn. lia.
  - rewrite out_put_ok by (cbn; lia). cbn [mbind option_bind]. apply Hgo; cbn; try done; try lia.
    + apply buf_write_length. cbn. lia.
    + by apply buf_write_ok.
  - rewrite out_put_ok by (cbn; lia). cbn [mbind option_bind set_buf set_stack out_ out_buf_ length].
    set (buf := buf_write (out_buf_ m) (out_ m) [octet]).
    assert (Hbl : length buf = length (out_buf_ m)) by (apply buf_write_length; cbn; lia).
    assert (Hbb : bytes_ok buf) by (by apply buf_write_ok).
    destruct (Z.eqb_spec (eat_next_bytes top - 1) 0).
    2: { cbn [mbind option_bind]. apply Hgo; cbn; try done; try lia. }
    pose proof (lv_fs _ _ _ _ _ _ Hl Ea He) as Hptr.
    rewrite mem_read_some by lia. cbn [mbind option_bind].
    destruct (in_place (take (out_ m + 1 - filter_string_ptr top) (drop (filter_string_ptr top) buf)))
      as (r & s' & -> & Hsl & Hsb); [auto with dv|]. cbn [mbind option_bind].
    rewrite length_take, length_drop in Hsl. rewrite mem_write_some by lia. cbn [mbind option_bind].
    apply Hgo; cbn; try done; try lia.
    + rewrite buf_write_length by lia. done.
    + by apply buf_write_ok.
Qed.

Lemma AppendVarInt_put m id v :
  (out_ m + length (token_octets (mkToken id kVarInt v)) <= length (out_buf_ m))%nat ->
  AppendVarInt m id v = out_put m (token_octets (mkToken id kVarInt v)).
Proof. intros. unfold AppendVarInt. by apply (out_put_app m (tag_octets id kVarInt) (WriteVarInt v)). Qed.

Lemma AppendFixed32_put m id v :
  (out_ m + length (token_octets (mkToken id kFixed32 v)) <= length (out_buf_ m))%nat ->
  AppendFixed 4 m id v = out_put m (token_octets (mkToken id kFixed32 v)).
Proof. intros. unfold AppendFixed. by apply (out_put_app m (tag_octets id kFixed32) (le_bytes 4 v)). Qed.

Lemma AppendFixed64_put m id v :
  (out_ m + length (token_octets (mkToken id kFixed64 v)) <= length (out_buf_ m))%nat ->
  AppendFixed 8 m id v = out_put m (token_octets (mkToken id kFixed64 v)).
Proof. intros. unfold AppendFixed. by apply (out_put_app m (tag_octets id kFixed64) (le_bytes 8 v)). Qed.

Lemma AppendLenDelim_put m id v :
  (out_ m + length (tag_octets id kLengthDelimited ++ WriteVarInt v) <= length (out_buf_ m))%nat ->
  AppendLenDelim m id v =
    m1 ← out_put m (tag_octets id kLengthDelimited ++ WriteVarInt v);
    Some (m1, ((out_ m + length (tag_octets id kLengthDelimited))%nat, length (WriteVarInt v))).
Proof.
  intros H. unfold AppendLenDelim. rewrite <- out_put_app by done.
  rewrite length_app in H. change (WriteVarInt (MakeTagLengthDelimited id)) with (tag_octets id kLengthDelimited).
  rewrite (out_put_ok m) by lia. cbn [mbind option_bind].
  rewrite out_put_ok by (cbn [out_ out_buf_ set_buf]; rewrite buf_write_length by lia; lia). cbn [mbind option_bind].
  cbn [out_ set_buf]. do 3 f_equal. lia.
Qed.

Lemma root_ok_lookup st :
  (2 <= length st)%nat -> root_ok st -> exists r, st !! (length st - 2)%nat = Some r /\ ss_field_id r = 0.
Proof.
  induction st as [|a st IH]; intros Hl Hr; [cbn in Hl; lia|].
  destruct st as [|b [|d st]]; [cbn in Hl; lia|by exists a|].
  destruct IH as (r & Hr1 & Hr2); [cbn; lia|done|]. exists r. split; [|done].
  cbn [length] in *. replace (S (S (S (length st))) - 2)%nat with (S (S (S (length st)) - 2)) by lia. done.
Qed.

Lemma chain_nonempty out pend acc cl cap n st : chain out pend acc cl cap n st -> (1 <= length st)%nat.
Proof. destruct st; cbn; [done|lia]. Qed.

Lemma usage_ok m top rest id b :
  stack_ m = top :: rest -> (1 <= length rest)%nat -> root_ok (top :: rest) ->
  exists u, (if track_field_usage_ m then IncrementCurrentFieldUsage m id b else Some m) = Some (set_usage m u).
Proof.
  intros Hst Hl Hr. destruct (track_field_usage_ m); [|exists (field_usage_ m); by destruct m].
  unfold IncrementCurrentFieldUsage. rewrite Hst.
  destruct (root_ok_lookup (top :: rest)) as (r & -> & Hr0); [cbn; lia|done|]. cbn [mbind option_bind].
  rewrite Hr0, (proj2 (Nat.leb_le _ _)) by (cbn; lia). by eexists.
Qed.

(** What follows a token that lets the machine go on in the same message. *)
Lemma go_on_ok cap n m pend top rest m2 top' tok b :
  live cap n m pend top rest -> in_bytes top < in_bytes_limit top -> n + 1 <= cap ->
  same_frame top top' -> stack_ m2 = top' :: rest ->
  (out_ m <= out_ m2 <= out_ m + pend + 1)%nat ->
  0 <= eat_next_bytes top' <= in_bytes_limit top - in_bytes top - 1 ->
  (action top' = kFilterString -> 0 < eat_next_bytes top' -> (filter_string_ptr top' <= out_ m2)%nat) ->
  tok_ok (tokenizer_ m2) -> tok_pend (tokenizer_ m2) 0 ->
  length (out_buf_ m2) = length (out_buf_ m) -> bytes_ok (out_buf_ m2) ->
  exists m', (m3 ← (if track_field_usage_ m2 then IncrementCurrentFieldUsage m2 tok b else Some m2);
              finish_byte m3 None) = Some m' /\ inv cap (n + 1) m'.
Proof.
  intros Hl Hin Hn Hsf Hst Ho He Hfs Ht1 Ht2 Hb1 Hb2.
  pose proof (chain_limit _ _ _ _ _ _ _ (lv_chain _ _ _ _ _ _ Hl)) as Hlim.
  pose proof (chain_nonempty _ _ _ _ _ _ _ (lv_chain _ _ _ _ _ _ Hl)) as Hrl.
  pose proof (lv_cap _ _ _ _ _ _ Hl) as Hcap. unfold UINT32_MAX in Hcap.
  pose proof (fr_in _ _ _ _ _ (lv_top _ _ _ _ _ _ Hl)) as Hi0.
  assert (Hroot : root_ok (top' :: rest)).
  { eapply root_ok_field; [|exact (lv_root _ _ _ _ _ _ Hl)]. symmetry. apply Hsf. }
  destruct (usage_ok m2 top' rest tok b Hst Hrl Hroot) as (u & ->). cbn [mbind option_bind].
  destruct Hsf as (S1 & S2 & Hsf).
  apply (finish_byte_ok cap (n + 1) (set_usage m2 u) 0 top' rest); [done|rewrite S1; lia|rewrite S1; lia|].
  apply (live_step cap n m pend top rest); try done; cbn; try lia.
Qed.

Lemma token_octets_ok tok : is_u32 (tok_field_id tok) -> is_u64 (tok_value tok) -> bytes_ok (token_octets tok).
Proof.
  intros Hid Hv. unfold token_octets, tag_octets. apply bytes_ok_app. split.
  - apply WriteVarInt_ok. apply is_u32_u64. apply lor_range; [lia|apply u32_range|]. destruct (tok_type tok); cbn; lia.
  - destruct (tok_type tok); auto with dv; apply WriteVarInt_ok; auto with dv.
Qed.

Lemma push_byte_ok cap n m pend top rest octet :
  stack_ m = top :: rest -> live cap n m pend top rest -> in_bytes top < in_bytes_limit top ->
  n + 1 <= cap -> eat_next_bytes top = 0 -> is_u8 octet ->
  exists m', FilterOneByte c m octet = Some m' /\ inv cap (n + 1) m'.
Proof.
  intros Hst Hl Hin Hn He Ho. unfold FilterOneByte. rewrite Hst, He. cbn [Z.ltb Z.compare].
  pose proof (lv_tok _ _ _ _ _ _ Hl) as Htok. pose proof (lv_pend _ _ _ _ _ _ Hl) as Hpend.
  pose proof (Push_pend _ octet pend Htok Ho Hpend) as Hpost. pose proof (Push_ok _ octet Htok Ho) as Htok'.
  destruct (Push (tokenizer_ m) octet) as [tok t']. cbn [fst snd] in *.
  destruct Hpost as ((k' & Hk' & Hpend') & Hid & Hval & Hv).
  pose proof (chain_limit _ _ _ _ _ _ _ (lv_chain _ _ _ _ _ _ Hl)) as Hlim.
  pose proof (lv_cap _ _ _ _ _ _ Hl) as Hcap. unfold UINT32_MAX in Hcap.
  pose proof (lv_top _ _ _ _ _ _ Hl) as [F1 F2 F3 F4 F5 F6]. pose proof (lv_out _ _ _ _ _ _ Hl) as Hout.
  pose proof (lv_buf _ _ _ _ _ _ Hl) as Hbuf. pose proof (lv_bytes _ _ _ _ _ _ Hl) as Hby.
  set (m1 := set_tokenizer m t').
  destruct (tok_valid tok) eqn:Htv.
  2: { apply (finish_byte_ok cap (n + 1) m1 k' top rest); [done|lia|lia|].
       apply (live_step cap n m pend top rest); try done; cbn; try lia. }
  destruct (Hv eq_refl) as (Hpend0 & Hidle & Hlen). clear Hv Hpend' Hk' k'.
  destruct (query_total (msg_index top) (tok_field_id tok)) as (r & -> & Hri); [lia|apply Hid|]. cbn [mbind option_bind].
  pose proof (token_octets_ok tok Hid Hval) as Hoct.
  assert (Hskip : exists m', (m3 ← (if track_field_usage_ m1 then IncrementCurrentFieldUsage m1 (tok_field_id tok) (allowed r) else Some m1);
              finish_byte m3 None) = Some m' /\ inv cap (n + 1) m').
  { apply (go_on_ok cap n m pend top rest m1 top); try done; cbn; lia. }
  set (m2 oct := set_buf m1 (buf_write (out_buf_ m) (out_ m) oct) (out_ m + length oct)).
  assert (Hput : forall oct, (length oct <= pend + 1)%nat -> out_put m1 oct = Some (m2 oct))
    by (intros; apply out_put_ok; cbn; lia).
  assert (Hb2l : forall oct, (length oct <= pend + 1)%nat -> length (out_buf_ (m2 oct)) = length (out_buf_ m))
    by (intros; apply buf_write_length; lia).
  assert (Hb2b : forall oct, bytes_ok oct -> bytes_ok (out_buf_ (m2 oct))) by (intros; by apply buf_write_ok).
  assert (Hpass : forall oct, (length oct <= pend + 1)%nat -> bytes_ok oct ->
     exists m', (m3 ← (if track_field_usage_ (m2 oct) then IncrementCurrentFieldUsage (m2 oct) (tok_field_id tok) (allowed r) else Some (m2 oct));
              finish_byte m3 None) = Some m' /\ inv cap (n + 1) m').
  { intros oct Hol Hob. apply (go_on_ok cap n m pend top rest (m2 oct) top); auto; cbn [m2 m1 set_buf set_tokenizer out_]; try done; lia. }
  unfold on_token. destruct tok as [id ty v]. cbn [tok_type tok_field_id tok_value] in *. destruct ty.
  - destruct (allowed r && simple_field r); [|exact Hskip].
    rewrite AppendVarInt_put, Hput by (cbn [m1 set_tokenizer out_ out_buf_]; lia). by apply Hpass.
  - destruct (allowed r && simple_field r); [|exact Hskip].
    rewrite (u64_id v Hval), AppendFixed64_put, Hput by (cbn [m1 set_tokenizer out_ out_buf_]; lia). by apply Hpass.
  - clear Hskip Hpass. unfold on_len_delimited. cbn [tok_value tok_field_id].
    change (token_octets (mkToken id kLengthDelimited v)) with (tag_octets id kLengthDelimited ++ WriteVarInt (u32 v)) in *.
    set (oct := tag_octets id kLengthDelimited ++ WriteVarInt (u32 v)) in *.
    pose proof (u32_range v) as [Hsub Hsub32]. set (sub := u32 v) in *.
    rewrite (u32_id (in_bytes_limit top - in_bytes top - 1)) by (unfold is_u32; lia).
    destruct (Z.ltb_spec (in_bytes_limit top - in_bytes top - 1) sub) as [Hbig|Hfit]; cbn [mbind option_bind].
    { eexists; split; [reflexivity|]. right. apply error_done; cbn; try done; unfold UINT32_MAX; lia. }
    assert (Happ : AppendLenDelim m1 id sub =
       Some (m2 oct, ((out_ m + length (tag_octets id kLengthDelimited))%nat, length (WriteVarInt sub)))).
    { rewrite AppendLenDelim_put by (cbn [m1 set_tokenizer out_ out_buf_]; fold oct; lia). fold oct.
      by rewrite Hput. }
    assert (Hmid : forall m3 a ptr, m3 = m1 \/ m3 = m2 oct -> (a = kFilterString -> ptr = out_ m3) ->
      exists m', (m4 ← (if track_field_usage_ (set_stack m3 (set_eat top sub a ptr :: rest))
                        then IncrementCurrentFieldUsage (set_stack m3 (set_eat top sub a ptr :: rest)) id (allowed r)
                        else Some (set_stack m3 (set_eat top sub a ptr :: rest)));
              finish_byte m4 None) = Some m' /\ inv cap (n + 1) m').
    { intros m3 a ptr Hm3 Hptr.
      apply (go_on_ok cap n m pend top rest _ (set_eat top sub a ptr)); try done;
        destruct Hm3 as [-> | ->]; cbn [set_stack set_eat m1 m2 set_buf set_tokenizer out_ out_buf_ eat_next_bytes action
          filter_string_ptr tokenizer_] in *; auto; try done; try lia; try (intros Ha _; rewrite (Hptr Ha); lia). }
    destruct (allowed r && nested_msg_field r && (0 <? sub)) eqn:Hnest.
    + rewrite Happ. cbn [mbind option_bind].
      apply andb_true_iff in Hnest as [_ Hpos%Z.ltb_lt].
      pose proof (chain_nonempty _ _ _ _ _ _ _ (lv_chain _ _ _ _ _ _ Hl)) as Hrl.
      destruct (usage_ok (m2 oct) top rest id (allowed r) Hst Hrl (lv_root _ _ _ _ _ _ Hl)) as (u & ->).
      cbn [mbind option_bind].
      assert (Eo : out_written (m2 oct) = Z.of_nat (out_ m + length oct)).
      { unfold out_written. cbn [m2 set_buf out_]. apply u32_id. unfold is_u32. lia. }
      rewrite Eo.
      eapply (finish_push_ok cap (n + 1) (set_usage (m2 oct) u) 0 top rest); try done;
        cbn [in_bytes_limit in_bytes eat_next_bytes out_bytes_written_at_start size_field size_field_len msg_index];
        cbn [set_usage m2 set_buf out_]; try lia.
      * apply (live_step cap n m pend top rest); try done; cbn [set_usage m2 m1 set_tokenizer set_buf out_ out_buf_ tokenizer_]; auto; try done; try lia; [by apply Hb2l|by apply Hb2b].
      * unfold oct. rewrite length_app. lia.
    + destruct (allowed r && filter_string_field r).
      { rewrite Happ. cbn [mbind option_bind]. apply Hmid; auto. }
      destruct (allowed r).
      { rewrite Happ. cbn [mbind option_bind]. apply Hmid; auto; done. }
      apply Hmid; auto; done.
  - destruct (allowed r && simple_field r); [|exact Hskip].
    assert (El : length (token_octets (mkToken id kFixed32 (u32 v))) = length (token_octets (mkToken id kFixed32 v)))
      by (unfold token_octets; cbn [tok_type tok_value tok_field_id]; by rewrite !length_app, !length_le_bytes).
    rewrite AppendFixed32_put, Hput by (cbn [m1 set_tokenizer out_ out_buf_]; lia). apply Hpass; [lia|].
    apply token_octets_ok; cbn; auto with dv.
Qed.

Lemma FilterOneByte_ok cap n m octet :
  inv cap n m -> n + 1 <= cap -> is_u8 octet ->
  exists m', FilterOneByte c m octet = Some m' /\ inv cap (n + 1) m'.
Proof.
  intros [(pend & top & rest & Hst & Hl & Hin)|(s & Hst & Hd)] Hn Ho.
  - destruct (decide (0 < eat_next_bytes top)).
    + unfold FilterOneByte. rewrite Hst, (proj2 (Z.ltb_lt _ _)) by done. by apply (eat_byte_ok cap n m pend).
    + eapply push_byte_ok; try done. pose proof (lv_eat _ _ _ _ _ _ Hl). lia.
  - destruct Hd as [D1 D2 D3 D4 D5 D6 D7 D8]. unfold UINT32_MAX in *.
    unfold FilterOneByte. rewrite Hst, (proj2 (Z.ltb_lt _ _)) by lia.
    unfold eat_byte. cbn [set_eat action]. rewrite D4. cbn [mbind option_bind].
    unfold finish_byte. cbn [set_stack stack_ set_eat in_bytes].
    rewrite u32_id by (unfold is_u32; lia). cbn [length pop_loop set_eat set_stack stack_ set_in_bytes in_bytes in_bytes_limit].
    rewrite D2. rewrite (proj2 (Z.leb_gt _ _)) by lia. cbn [mbind option_bind].
    eexists; split; [reflexivity|]. right. eexists; split; [reflexivity|].
    split; cbn; try done; unfold UINT32_MAX; lia.
Qed.

Lemma FilterBytes_ok cap n m l :
  inv cap n m -> n + Z.of_nat (length l) <= cap -> bytes_ok l ->
  exists m', FilterBytes c m l = Some m' /\ inv cap (n + Z.of_nat (length l)) m'.
Proof.
  intros Hi Hn Hb. revert n m Hi Hn; induction Hb as [|b l Hb _ IH]; intros n m Hi Hn; cbn [length FilterBytes] in *.
  - exists m. by rewrite Z.add_0_r.
  - destruct (FilterOneByte_ok cap n m b Hi) as (m1 & -> & Hi1); [lia|done|]. cbn [mbind option_bind].
    destruct (IH (n + 1) m1 Hi1) as (m2 & -> & Hi2); [lia|]. exists m2. split; [done|].
    by replace (n + Z.of_nat (S (length l))) with (n + 1 + Z.of_nat (length l)) by lia.
Qed.
End safety.

(** ** What the machine computes on a well-formed message *)

(** A message as a tree: a field taken as a whole, or a submessage the filter
    recurses into. *)
Inductive node :=
| Leaf (w : wire_field)
| Sub (id : Z) (children : list node).

Fixpoint encode_node (x : node) : list Z :=
  match x with
  | Leaf w => encode_field w
  | Sub id ch => encode_field (WBytes id (ch ≫= encode_node))
  end.
Definition encode_nodes (l : list node) : list Z := l ≫= encode_node.

Lemma ready_ok id : is_u32 id -> tok_ok (ready id).
Proof. intros. by apply tok_ok_reset. Qed.

(** The octet that brings the tokenizer back between fields yields a token. *)
Lemma Push_ready_valid t b tok id :
  tok_ok t -> Push t b = (tok, ready id) -> id <> 0 -> tok_valid tok = true.
Proof.
  intros Ht H Hid. assert (Hv : forall x, id = field_id_ x -> negb (field_id_ x =? 0) = true)
    by (intros x <-; by rewrite (proj2 (Z.eqb_neq _ _)) by done).
  unfold Push in H. case_decide as Hf.
  - unfold PushFixed in H. destruct (_ <? _); injection H as H1 H2; [by rewrite Hf in H2|].
    subst tok. unfold tok_valid. cbn. apply Hv. congruence.
  - pose proof (to_shift t Ht) as Hs. destruct (negb _).
    + destruct (64 <=? _) eqn:E; injection H as H1 H2; [done|]. exfalso. unfold ready in *. lia.
    + unfold OnVarInt in H. destruct (state_ t) eqn:Es; try done.
      * exfalso. repeat case_match; simplify_eq.
      * injection H as H1 H2. subst tok. unfold tok_valid. cbn. apply Hv. congruence.
      * destruct (_ <? _); [done|]. injection H as H1 H2. subst tok. unfold tok_valid. cbn. apply Hv. congruence.
Qed.

Lemma PushAll_tok_ok t l : tok_ok t -> bytes_ok l -> tok_ok (snd (PushAll t l)).
Proof.
  intros Ht Hl. revert t Ht; induction Hl as [|b l Hb _ IH]; intros t Ht; [done|]. cbn [PushAll].
  pose proof (Push_ok t b Ht Hb) as H1. destruct (Push t b) as [tok t1]. cbn [snd] in H1.
  specialize (IH t1 H1). by destruct (PushAll t1 l).
Qed.

(** The token of a header comes with its last octet. *)
Lemma header_split id0 w :
  is_u32 id0 -> wf_ok w ->
  exists l b t, wf_header w = l ++ [b] /\ bytes_ok (wf_header w) /\
    PushAll (ready id0) l = ([], t) /\ Push t b = (wf_token w, ready (wf_id w)).
Proof.
  intros Hid Hw. pose proof (PushAll_header id0 w Hw) as H.
  assert (Hwid : 0 < wf_id w) by apply Hw.
  assert (Hby : bytes_ok (wf_header w)).
  { pose proof (encode_field_ok w Hw) as He. destruct w; try done. cbn [wf_header encode_field] in *.
    rewrite !bytes_ok_app in *. tauto. }
  destruct (wf_header w) as [|x h _] eqn:Eh using rev_ind; [done|].
  apply bytes_ok_app in Hby as Hby'. destruct Hby' as [Hbh Hbx].
  pose proof (PushAll_tok_ok (ready id0) h (ready_ok id0 Hid) Hbh) as Hok.
  rewrite PushAll_app in H. destruct (PushAll (ready id0) h) as [a t1] eqn:E1. cbn [snd] in Hok.
  cbn [PushAll] in H. destruct (Push t1 x) as [tok t2] eqn:E2. simplify_eq.
  pose proof (Push_ready_valid t1 x tok (wf_id w) Hok) as Hv. 
  exists h, x, t1. destruct (tok_valid tok) eqn:Etv.
  - destruct a as [|a1 [|a2 a]]; cbn in H; simplify_eq. by split_and!.
  - specialize (Hv E2 ltac:(lia)). congruence.
Qed.

Section functional.
Context (c : Config) `{!InPlace (string_filter c)}.

(** Closing complete messages, as the end of [FilterOneByte] does. *)
Definition close (m : Filter) : option Filter :=
  '(m, _, _) ← pop_loop (length (stack_ m)) m false; Some m.

Definition inc (m : Filter) (state : StackState) (rest : list StackState) (k : Z) : Filter :=
  set_stack m (set_in_bytes state (in_bytes state + k) :: rest).

Lemma close_open m state rest :
  stack_ m = state :: rest -> in_bytes state < in_bytes_limit state -> close m = Some m.
Proof.
  intros Hst Hlt. unfold close. rewrite Hst. cbn [length pop_loop]. rewrite Hst.
  by rewrite (proj2 (Z.leb_gt _ _)) by done.
Qed.

Lemma finish_close m state rest :
  stack_ m = state :: rest -> 0 <= in_bytes state -> in_bytes state + 1 < 2 ^ 32 ->
  finish_byte m None = close (inc m state rest 1).
Proof.
  intros Hst H0 H1. unfold finish_byte, close. rewrite Hst, u32_id by (unfold is_u32; lia).
  change (set_stack m _) with (inc m state rest 1).
  destruct (pop_loop _ _ _) as [[[m' p'] e']|]; [|done]. cbn [mbind option_bind]. by destruct e'.
Qed.

Lemma FilterBytes_app m l k :
  FilterBytes c m (l ++ k) = m' ← FilterBytes c m l; FilterBytes c m' k.
Proof.
  revert m; induction l as [|b l IH]; intros m; [done|]. cbn [app FilterBytes].
  destruct (FilterOneByte c m b); [apply IH|done].
Qed.

(** Octets that complete no token only move the tokenizer. *)
Lemma feed_header l m top rest t t' :
  stack_ m = top :: rest -> eat_next_bytes top = 0 -> tokenizer_ m = t -> PushAll t l = ([], t') ->
  0 <= in_bytes top -> in_bytes top + Z.of_nat (length l) < in_bytes_limit top -> in_bytes_limit top < 2 ^ 32 ->
  FilterBytes c m l = Some (set_tokenizer (inc m top rest (Z.of_nat (length l))) t').
Proof.
  revert m top t; induction l as [|b l IH]; intros m top t Hst He Ht Hp H0 H1 H2; cbn [length] in *.
  - cbn in Hp. simplify_eq. cbn. unfold inc, set_tokenizer, set_stack. cbn. rewrite Z.add_0_r.
    destruct m; cbn in *; subst. f_equal. f_equal. by destruct top.
  - cbn [PushAll] in Hp. destruct (Push t b) as [tok t1] eqn:E1. destruct (PushAll t1 l) as [toks t2] eqn:E2.
    destruct (tok_valid tok) eqn:Ev; simplify_eq. cbn [FilterBytes]. unfold FilterOneByte.
    rewrite Hst, He. cbn [Z.ltb Z.compare]. rewrite E1, Ev.
    rewrite (finish_close _ top rest) by (cbn; done || lia).
    set (m1 := inc (set_tokenizer m t1) top rest 1).
    rewrite (close_open m1 (set_in_bytes top (in_bytes top + 1)) rest) by (cbn; done || lia).
    cbn [mbind option_bind].
    rewrite (IH m1 (set_in_bytes top (in_bytes top + 1)) t1) by (cbn; done || lia).
    unfold inc, set_tokenizer, set_stack, set_in_bytes. cbn. do 4 f_equal. lia.
Qed.

(** The state between two fields. *)
Record between (m : Filter) (id0 : Z) (top : StackState) (rest : list StackState) (len : nat) : Prop := {
  bt_stack : stack_ m = top :: rest;
  bt_eat : eat_next_bytes top = 0;
  bt_tok : tokenizer_ m = ready id0;
  bt_id : is_u32 id0;
  bt_track : track_field_usage_ m = false;
  bt_in : 0 <= in_bytes top;
  bt_lim : in_bytes top + Z.of_nat len <= in_bytes_limit top < 2 ^ 32;
  bt_out : (out_ m + len <= length (out_buf_ m))%nat;
  bt_buf : Z.of_nat (length (out_buf_ m)) < 2 ^ 32
}.

(** [k] octets later, with [oct] written. *)
Definition adv (m : Filter) (top : StackState) (rest : list StackState) (k : nat) (oct : list Z) (id : Z) : Filter :=
  mkFilter (buf_write (out_buf_ m) (out_ m) oct) (out_ m + length oct) (ready id)
    (set_in_bytes top (in_bytes top + Z.of_nat k) :: rest) (error_ m) false (field_usage_ m).

Lemma out_put_track m oct m' : out_put m oct = Some m' -> track_field_usage_ m' = track_field_usage_ m.
Proof. unfold out_put. intros H. destruct (mem_write _ _ _); [|done]. cbn in H. by simplify_eq. Qed.

Lemma on_token_track m top rest r tok m2 next :
  on_token m top rest r tok = Some (TokGoOn m2 next) -> track_field_usage_ m2 = track_field_usage_ m.
Proof.
  assert (H2 : forall a b m', (m1 ← out_put m a; out_put m1 b) = Some m' -> track_field_usage_ m' = track_field_usage_ m).
  { intros a b m' H. destruct (out_put m a) as [m1|] eqn:E1; [|done]. cbn in H.
    apply out_put_track in E1, H. congruence. }
  assert (H3 : forall id len m' x, AppendLenDelim m id len = Some (m', x) -> track_field_usage_ m' = track_field_usage_ m).
  { intros id len m' x H. unfold AppendLenDelim in H. destruct (out_put m _) as [m1|] eqn:E1; [|done]. cbn in H.
    destruct (out_put m1 _) as [m1'|] eqn:E2; [|done]. cbn in H. simplify_eq. apply out_put_track in E1, E2. congruence. }
  unfold on_token, on_len_delimited, AppendVarInt, AppendFixed. intros H.
  destruct (tok_type tok).
  - destruct (allowed r && simple_field r); [|by simplify_eq].
    match type of H with (?x ≫= _) = _ => destruct x as [m1|] eqn:E; [|done] end.
    cbn [mbind option_bind] in H. simplify_eq. by eapply H2.
  - destruct (allowed r && simple_field r); [|by simplify_eq].
    match type of H with (?x ≫= _) = _ => destruct x as [m1|] eqn:E; [|done] end.
    cbn [mbind option_bind] in H. simplify_eq. by eapply H2.
  - destruct (_ <? _); [done|]. destruct (AppendLenDelim _ _ _) as [[m1 [sf sl]]|] eqn:E.
    + apply H3 in E. cbn [mbind option_bind] in H.
      repeat (destruct (_ && _) in H; [by simplify_eq|]). destruct (allowed r); by simplify_eq.
    + cbn [mbind option_bind] in H.
      repeat (destruct (_ && _) in H; [by simplify_eq|]). destruct (allowed r); by simplify_eq.
  - destruct (allowed r && simple_field r); [|by simplify_eq].
    match type of H with (?x ≫= _) = _ => destruct x as [m1|] eqn:E; [|done] end.
    cbn [mbind option_bind] in H. simplify_eq. by eapply H2.
Qed.

(** Up to the last octet of a header; then the token is handled. *)
Lemma run_header m id0 top rest w n :
  between m id0 top rest n -> wf_ok w -> (length (wf_header w) <= n)%nat ->
  exists k, length (wf_header w) = S k /\
    FilterBytes c m (wf_header w) =
      (filter ← Query (filter_ c) (msg_index top) (wf_id w);
       r ← on_token (set_tokenizer (inc m top rest (Z.of_nat k)) (ready (wf_id w)))
             (set_in_bytes top (in_bytes top + Z.of_nat k)) rest filter (wf_token w);
       match r with
       | TokError => Some (SetUnrecoverableErrorState (set_tokenizer (inc m top rest (Z.of_nat k)) (ready (wf_id w))))
       | TokGoOn m2 next => finish_byte m2 next
       end).
Proof.
  intros [B1 B2 B3 B4 B5 B6 B7 B8 B9] Hw Hn.
  destruct (header_split id0 w B4 Hw) as (l & b & t & El & Hby & Hp & Hpush).
  exists (length l). split; [rewrite El, length_app; cbn; lia|].
  rewrite El, FilterBytes_app. rewrite El, length_app in Hn. cbn [length] in Hn.
  rewrite (feed_header l m top rest (ready id0) t) by (done || lia). cbn [mbind option_bind FilterBytes].
  unfold FilterOneByte at 1. cbn [set_tokenizer inc set_stack stack_ set_in_bytes eat_next_bytes tokenizer_ msg_index].
  rewrite B2. cbn [Z.ltb Z.compare]. rewrite Hpush.
  assert (Hv : tok_valid (wf_token w) = true).
  { unfold tok_valid. assert (0 < wf_id w) by apply Hw. destruct w; cbn in *; by rewrite (proj2 (Z.eqb_neq _ _)) by lia. }
  assert (Etid : tok_field_id (wf_token w) = wf_id w) by (by destruct w). rewrite Hv, Etid.
  destruct (Query (filter_ c) (msg_index top) (wf_id w)) as [r|]; [|done]. cbn [mbind option_bind].
  set (m1 := set_tokenizer _ _).
  change (set_tokenizer (inc m top rest (Z.of_nat (length l))) (ready (wf_id w))) with m1.
  destruct (on_token m1 _ rest r (wf_token w)) as [o|] eqn:Eo; [|done]. cbn [mbind option_bind].
  destruct o as [|m2 next]; [done|]. apply on_token_track in Eo.
  assert (Em1 : track_field_usage_ m1 = false) by exact B5. rewrite Eo, Em1. cbn [mbind option_bind].
  by destruct (finish_byte m2 next).
Qed.

(** ** Payloads *)

Definition eat_oct (a : FilterAction) (l : list Z) : list Z := match a with kDrop => [] | _ => l end.
Definition sf_result (l : list Z) : list Z := match string_filter c l with Some (_, s) => s | None => [] end.
Definition eaten (a : FilterAction) (l : list Z) : list Z :=
  match a with kDrop => [] | kPassthrough => l | kFilterString => sf_result l end.

(** [k] octets of the payload consumed and [oct] written. *)
Definition ate (m : Filter) (top : StackState) (rest : list StackState) (k : nat) (oct : list Z) : Filter :=
  set_stack (set_buf m (buf_write (out_buf_ m) (out_ m) oct) (out_ m + length oct))
    (set_in_bytes (set_eat top (eat_next_bytes top - Z.of_nat k) (action top) (filter_string_ptr top))
       (in_bytes top + Z.of_nat k) :: rest).

Lemma set_eat_id s : set_in_bytes (set_eat s (eat_next_bytes s - 0) (action s) (filter_string_ptr s)) (in_bytes s + 0) = s.
Proof. destruct s; unfold set_in_bytes, set_eat; cbn. by rewrite Z.sub_0_r, Z.add_0_r. Qed.

Lemma length_eat_oct a l : (length (eat_oct a l) <= length l)%nat.
Proof. destruct a; cbn; lia. Qed.

Lemma eat_one m top rest b :
  stack_ m = top :: rest -> 1 < eat_next_bytes top -> 0 <= in_bytes top ->
  in_bytes top + 1 < in_bytes_limit top < 2 ^ 32 -> (out_ m + 1 <= length (out_buf_ m))%nat ->
  FilterOneByte c m b = Some (ate m top rest 1 (eat_oct (action top) [b])).
Proof.
  intros Hst He H0 H1 Hr. unfold FilterOneByte. rewrite Hst, (proj2 (Z.ltb_lt _ _)) by lia.
  unfold eat_byte. set (top' := set_eat top (eat_next_bytes top - 1) (action top) (filter_string_ptr top)).
  assert (Hfin : forall m', stack_ m' = top' :: rest ->
     finish_byte m' None = Some (set_stack m' (set_in_bytes top' (in_bytes top + 1) :: rest))).
  { intros m' Hm'. rewrite (finish_close m' top' rest) by (cbn; done || lia).
    apply (close_open _ (set_in_bytes top' (in_bytes top' + 1)) rest); [done|cbn; lia]. }
  change (action top') with (action top). change (eat_next_bytes top') with (eat_next_bytes top - 1).
  unfold ate. change (Z.of_nat 1) with 1. fold top'.
  destruct (action top) eqn:Ea; cbn [eat_oct].
  - cbn [mbind option_bind]. rewrite Hfin by done. cbn [length]. by rewrite buf_write_nil, Nat.add_0_r.
  - rewrite out_put_ok by (cbn; lia). cbn [mbind option_bind]. by rewrite Hfin.
  - rewrite out_put_ok by (cbn; lia). cbn [mbind option_bind].
    rewrite (proj2 (Z.eqb_neq _ _)) by lia. cbn [mbind option_bind]. by rewrite Hfin.
Qed.

Lemma run_eat_prefix l : forall m top rest,
  stack_ m = top :: rest -> Z.of_nat (length l) < eat_next_bytes top -> 0 <= in_bytes top ->
  in_bytes top + Z.of_nat (length l) < in_bytes_limit top < 2 ^ 32 ->
  (out_ m + length l <= length (out_buf_ m))%nat ->
  FilterBytes c m l = Some (ate m top rest (length l) (eat_oct (action top) l)).
Proof.
  induction l as [|b l IH]; intros m top rest Hst He H0 H1 Hr; cbn [length] in *.
  - cbn [FilterBytes]. unfold ate. rewrite set_eat_id. replace (eat_oct (action top) []) with (@nil Z) by (by destruct (action top)).
    rewrite buf_write_nil. cbn [length]. rewrite Nat.add_0_r, <- Hst. by destruct m.
  - cbn [FilterBytes]. rewrite (eat_one m top rest b) by (done || lia). cbn [mbind option_bind].
    set (m1 := ate m top rest 1 _). set (top1 := set_in_bytes (set_eat top (eat_next_bytes top - Z.of_nat 1) (action top) (filter_string_ptr top)) (in_bytes top + Z.of_nat 1)).
    assert (Hl1 : length (out_buf_ m1) = length (out_buf_ m)).
    { apply buf_write_length. pose proof (length_eat_oct (action top) [b]). cbn [length] in *. lia. }
    assert (Ho1 : out_ m1 = (out_ m + length (eat_oct (action top) [b]))%nat) by done.
    pose proof (length_eat_oct (action top) [b]) as Hle. cbn [length] in Hle.
    rewrite (IH m1 top1 rest); [|done|cbn; lia|cbn; lia|cbn; lia|rewrite Hl1, Ho1; lia].
    f_equal. unfold ate. cbn [m1 ate set_stack set_buf out_buf_ out_ tokenizer_ error_ track_field_usage_ field_usage_
      top1 set_in_bytes set_eat action filter_string_ptr in_bytes eat_next_bytes].
    assert (El : eat_oct (action top) (b :: l) = eat_oct (action top) [b] ++ eat_oct (action top) l)
      by (by destruct (action top)).
    rewrite El, buf_write_app, length_app, Nat.add_assoc.
    2: { pose proof (length_eat_oct (action top) l). lia. }
    unfold set_stack, set_buf, set_in_bytes, set_eat. cbn. f_equal. f_equal. f_equal; lia.
Qed.

Lemma run_eat m top rest l :
  stack_ m = top :: rest -> Z.of_nat (length l) = eat_next_bytes top -> l <> [] -> 0 <= in_bytes top ->
  in_bytes top + Z.of_nat (length l) <= in_bytes_limit top < 2 ^ 32 ->
  (out_ m + length l <= length (out_buf_ m))%nat -> bytes_ok l ->
  (action top = kFilterString -> filter_string_ptr top = out_ m) ->
  FilterBytes c m l = close (ate m top rest (length l) (eaten (action top) l)).
Proof.
  intros Hst He Hne H0 H1 Hr Hby Hptr. destruct l as [|b l _] using rev_ind; [done|]. clear Hne.
  rewrite length_app in *. cbn [length] in *. rewrite FilterBytes_app.
  rewrite (run_eat_prefix l m top rest) by (done || lia). cbn [mbind option_bind FilterBytes].
  set (m1 := ate m top rest (length l) _).
  set (top1 := set_in_bytes (set_eat top (eat_next_bytes top - Z.of_nat (length l)) (action top) (filter_string_ptr top))
                 (in_bytes top + Z.of_nat (length l))).
  pose proof (length_eat_oct (action top) l) as Hle.
  assert (Hl1 : length (out_buf_ m1) = length (out_buf_ m)) by (apply buf_write_length; lia).
  assert (Ho1 : out_ m1 = (out_ m + length (eat_oct (action top) l))%nat) by done.
  set (top2 := set_eat top1 (eat_next_bytes top1 - 1) (action top1) (filter_string_ptr top1)).
  assert (Hfin : forall m', stack_ m' = top2 :: rest ->
     finish_byte m' None = close (set_stack m' (set_in_bytes
       (set_eat top (eat_next_bytes top - Z.of_nat (length l + 1)) (action top) (filter_string_ptr top))
       (in_bytes top + Z.of_nat (length l + 1)) :: rest))).
  { intros m' Hm'. rewrite (finish_close m' top2 rest) by (cbn; done || lia). unfold inc.
    do 3 f_equal. unfold top2, top1, set_in_bytes, set_eat. cbn. f_equal; lia. }
  assert (Hlast : FilterOneByte c m1 b = m2 ← eat_byte c m1 top1 rest b; finish_byte m2 None).
  { unfold FilterOneByte. change (stack_ m1) with (top1 :: rest). cbn iota.
    change (eat_next_bytes top1) with (eat_next_bytes top - Z.of_nat (length l)).
    by rewrite (proj2 (Z.ltb_lt _ _)) by lia. }
  rewrite Hlast. unfold eat_byte. fold top2. clear Hlast.
  change (action top2) with (action top). change (filter_string_ptr top2) with (filter_string_ptr top).
  change (eat_next_bytes top2) with (eat_next_bytes top - Z.of_nat (length l) - 1).
  unfold ate. fold ate.
  destruct (action top) eqn:Ea; cbn [eat_oct eaten] in *.
  - cbn [mbind option_bind]. rewrite Hfin by done. 
    match goal with |- (close ?a ≫= _) = close ?b => replace a with b; [by destruct (close b)|] end.
    unfold m1, ate. cbn. rewrite !buf_write_nil, !Nat.add_0_r. done.
  - rewrite out_put_ok by (cbn [set_stack out_ out_buf_ length]; rewrite Hl1, Ho1; cbn [eat_oct]; lia).
    cbn [mbind option_bind]. rewrite Hfin by done.
    match goal with |- (close ?a ≫= _) = close ?b => replace a with b; [by destruct (close b)|] end.
    unfold m1, ate, set_stack, set_buf. cbn [out_ out_buf_ eat_oct tokenizer_ error_ track_field_usage_ field_usage_ length].
    rewrite buf_write_app by (cbn [length]; lia). rewrite length_app. cbn [length]. by rewrite Nat.add_assoc.
  - rewrite out_put_ok by (cbn [set_stack out_ out_buf_ length]; rewrite Hl1, Ho1; cbn [eat_oct]; lia).
    cbn [mbind option_bind]. rewrite (proj2 (Z.eqb_eq _ _)) by lia. rewrite (Hptr eq_refl).
    assert (Eb : buf_write (out_buf_ m1) (out_ m1) [b] = buf_write (out_buf_ m) (out_ m) (l ++ [b])).
    { rewrite Ho1. unfold m1, ate. cbn [set_stack set_buf out_buf_ eat_oct]. apply buf_write_app. cbn [length]. lia. }
    cbn [set_stack set_buf out_ out_buf_ length]. rewrite Eb, Ho1. cbn [eat_oct].
    replace (out_ m + length l + 1 - out_ m)%nat with (length (l ++ [b])) by (rewrite length_app; cbn; lia).
    rewrite mem_read_some by (rewrite buf_write_length; rewrite length_app; cbn [length]; lia).
    assert (Er : take (length (l ++ [b])) (drop (out_ m) (buf_write (out_buf_ m) (out_ m) (l ++ [b]))) = l ++ [b]).
    { pose proof (buf_write_range (out_buf_ m) (out_ m) (out_ m) (l ++ [b])) as E.
      rewrite Nat.sub_diag in E. replace (out_ m + length (l ++ [b]) - out_ m)%nat with (length (l ++ [b])) in E by lia.
      apply E; rewrite ?length_app; cbn [length]; lia. }
    rewrite Er. cbn [mbind option_bind]. unfold sf_result.
    destruct (in_place (l ++ [b]) Hby) as (r & s' & -> & Hsl & Hsb). cbn [mbind option_bind].
    rewrite mem_write_some by (rewrite buf_write_length; rewrite ?Hsl, ?length_app; cbn [length]; lia).
    cbn [mbind option_bind]. rewrite Hfin by done.
    match goal with |- (close ?a ≫= _) = close ?b => replace a with b; [by destruct (close b)|] end.
    pose proof (buf_write_over (out_buf_ m) (out_ m) [] (l ++ [b]) s' []) as Eo. cbn [app length] in Eo.
    rewrite !app_nil_r, Nat.add_0_r in Eo.
    unfold m1, ate, set_stack, set_buf. cbn [out_ out_buf_ eat_oct tokenizer_ error_ track_field_usage_ field_usage_].
    rewrite Eo by (rewrite ?length_app in *; cbn [length] in *; lia).
    rewrite Hsl, length_app. cbn [length]. by rewrite Nat.add_assoc, (Hptr eq_refl).
Qed.

(** ** One field *)

Definition filtered_payload (l : list Z) : list Z := match l with [] => [] | _ => sf_result l end.

Lemma length_filtered_payload l : bytes_ok l -> length (filtered_payload l) = length l.
Proof.
  intros Hl. destruct l as [|b l]; [done|]. unfold filtered_payload, sf_result.
  by destruct (in_place (b :: l) Hl) as (r & s & -> & ? & _).
Qed.

(** What a field contributes to the output, given the answer to its query. *)
Definition filter_leaf (r : QueryResult) (w : wire_field) : list Z :=
  match w with
  | WBytes id l =>
      if allowed r && filter_string_field r then encode_field (WBytes id (filtered_payload l))
      else if allowed r then encode_field w else []
  | _ => if allowed r && simple_field r then encode_field w else []
  end.

(** Not a payload the filter would recurse into. *)
Definition leaf_fits (r : QueryResult) (w : wire_field) : Prop :=
  match w with WBytes _ l => l = [] \/ allowed r && nested_msg_field r = false | _ => True end.

Lemma length_filter_leaf r w : wf_ok w -> (length (filter_leaf r w) <= length (encode_field w))%nat.
Proof.
  intros Hw. unfold filter_leaf. destruct w as [| | |id l]; try (destruct (_ && _); cbn [length]; lia).
  destruct (_ && _).
  - cbn [encode_field]. destruct Hw as [_ [Hl _]]. rewrite !length_app, length_filtered_payload by done. lia.
  - destruct (allowed r); cbn [length]; lia.
Qed.

(** A scalar field: written as a whole or not at all. *)
Lemma run_scalar m id0 top rest w r :
  between m id0 top rest (length (encode_field w)) -> wf_ok w -> wf_type w <> kLengthDelimited ->
  Query (filter_ c) (msg_index top) (wf_id w) = Some r ->
  FilterBytes c m (encode_field w) = close (adv m top rest (length (encode_field w)) (filter_leaf r w) (wf_id w)).
Proof.
  intros Hb Hw Hty Hq. assert (Eh : wf_header w = encode_field w) by (by destruct w).
  destruct (run_header m id0 top rest w _ Hb Hw) as (k & Hk & E); [by rewrite Eh|]. rewrite Eh in *. rewrite E, Hq.
  cbn [mbind option_bind]. clear E. set (m1 := set_tokenizer _ _). set (top1 := set_in_bytes top _).
  destruct Hb as [B1 B2 B3 B4 B5 B6 B7 B8 B9].
  assert (Hfin : forall oct, (length oct <= S k)%nat ->
     finish_byte (set_buf m1 (buf_write (out_buf_ m) (out_ m) oct) (out_ m + length oct)) None =
       close (adv m top rest (S k) oct (wf_id w))).
  { intros oct Hoct. rewrite (finish_close _ top1 rest) by (cbn; done || lia). f_equal.
    unfold inc, adv, set_stack, set_buf, m1, set_tokenizer, set_in_bytes. cbn. rewrite B5. f_equal. do 2 f_equal. lia. }
  assert (Hput : out_put m1 (encode_field w) =
     Some (set_buf m1 (buf_write (out_buf_ m) (out_ m) (encode_field w)) (out_ m + length (encode_field w)))).
  { refine (out_put_ok m1 (encode_field w) _). cbn. lia. }
  assert (Hskip : finish_byte m1 None = close (adv m top rest (S k) [] (wf_id w))).
  { rewrite <- Hfin by (cbn; lia). f_equal. rewrite buf_write_nil. cbn [length]. rewrite Nat.add_0_r.
    unfold set_buf, m1, set_tokenizer, inc, set_stack. cbn. done. }
  assert (Hroom : (out_ m1 + length (encode_field w) <= length (out_buf_ m1))%nat) by (cbn; lia).
  unfold on_token, filter_leaf. destruct w as [id v|id v|id v|id l]; try done;
    cbn [wf_token tok_type tok_field_id tok_value wf_id] in *;
    destruct (allowed r && simple_field r); try (rewrite Hk; exact Hskip).
  - rewrite AppendVarInt_put by exact Hroom. change (token_octets _) with (encode_field (WVarInt id v)).
    rewrite Hput. cbn [mbind option_bind]. rewrite Hfin, Hk by lia. done.
  - destruct Hw as [_ Hv]. rewrite (u32_id v Hv).
    rewrite AppendFixed32_put by exact Hroom. change (token_octets _) with (encode_field (WFixed32 id v)).
    rewrite Hput. cbn [mbind option_bind]. rewrite Hfin, Hk by lia. done.
  - destruct Hw as [_ Hv]. rewrite (u64_id v Hv).
    rewrite AppendFixed64_put by exact Hroom. change (token_octets _) with (encode_field (WFixed64 id v)).
    rewrite Hput. cbn [mbind option_bind]. rewrite Hfin, Hk by lia. done.
Qed.

Definition eaten_or_nil (a : FilterAction) (l : list Z) : list Z := match l with [] => [] | _ => eaten a l end.

Lemma length_eaten a l : bytes_ok l -> (length (eaten_or_nil a l) <= length l)%nat.
Proof.
  intros Hl. destruct l as [|b l]; [cbn; lia|]. cbn [eaten_or_nil]. destruct a; cbn [eaten length]; try lia.
  pose proof (length_filtered_payload (b :: l) Hl) as E. cbn [filtered_payload length] in E. lia.
Qed.

(** After the header of a payload [l] that is copied, filtered or dropped. *)
Lemma run_payload m top rest id k l h a ptr :
  let m2 := set_stack (set_buf (set_tokenizer (inc m top rest (Z.of_nat k)) (ready id))
                         (buf_write (out_buf_ m) (out_ m) h) (out_ m + length h))
              (set_eat (set_in_bytes top (in_bytes top + Z.of_nat k)) (Z.of_nat (length l)) a ptr :: rest) in
  stack_ m = top :: rest -> track_field_usage_ m = false -> 0 <= in_bytes top ->
  in_bytes top + Z.of_nat (S k + length l) <= in_bytes_limit top < 2 ^ 32 ->
  (out_ m + length h + length l <= length (out_buf_ m))%nat -> bytes_ok l ->
  (a = kFilterString -> ptr = out_ m + length h)%nat ->
  (m' ← finish_byte m2 None; FilterBytes c m' l) =
    close (adv m (set_eat top 0 a ptr) rest (S k + length l) (h ++ eaten_or_nil a l) id).
Proof.
  intros m2 Hst Htr H0 H1 Ho Hl Hptr. set (top2 := set_eat _ _ a ptr) in m2.
  rewrite (finish_close m2 top2 rest) by (cbn; done || lia).
  destruct l as [|b l].
  - cbn [FilterBytes eaten_or_nil length] in *. rewrite app_nil_r.
    match goal with |- (close ?a ≫= _) = close ?b => replace a with b; [by destruct (close b)|] end.
    unfold adv, inc, set_stack, m2, top2, set_eat, set_in_bytes, set_buf, set_tokenizer. cbn. rewrite Htr.
    f_equal. do 2 f_equal. lia.
  - set (top3 := set_in_bytes top2 (in_bytes top2 + 1)).
    rewrite (close_open _ top3 rest) by (cbn [length] in *; cbn; done || lia). cbn [mbind option_bind].
    assert (Hbl : length (buf_write (out_buf_ m) (out_ m) h) = length (out_buf_ m)) by (apply buf_write_length; cbn [length] in *; lia).
    rewrite (run_eat (inc m2 top2 rest 1) top3 rest (b :: l)); try done;
      try (cbn [length] in *; cbn; rewrite ?Hbl; lia).
    cbn [eaten_or_nil]. change (action top3) with a. f_equal.
    unfold ate, adv. cbn [inc m2 set_stack set_buf out_buf_ out_ tokenizer_ set_tokenizer error_ track_field_usage_ field_usage_].
    pose proof (length_eaten a (b :: l) Hl) as Hle. cbn [eaten_or_nil] in Hle.
    rewrite buf_write_app by lia. rewrite length_app, Nat.add_assoc.
    unfold set_stack, set_buf, m2, inc. cbn [tokenizer_ error_ track_field_usage_ field_usage_ set_stack set_buf set_tokenizer inc].
    rewrite Htr. f_equal. unfold top3, top2, set_in_bytes, set_eat. cbn [length]. cbn. do 2 f_equal; lia.
Qed.

Lemma run_bytes m id0 top rest id l r :
  between m id0 top rest (length (encode_field (WBytes id l))) -> wf_ok (WBytes id l) ->
  Query (filter_ c) (msg_index top) id = Some r -> leaf_fits r (WBytes id l) ->
  exists top', same_frame top top' /\ eat_next_bytes top' = 0 /\
    FilterBytes c m (encode_field (WBytes id l)) =
      close (adv m top' rest (length (encode_field (WBytes id l))) (filter_leaf r (WBytes id l)) id).
Proof.
  intros Hb Hw Hq Hfit. set (w := WBytes id l) in *.
  assert (Eh : encode_field w = wf_header w ++ l) by (cbn; by rewrite app_assoc).
  destruct (run_header m id0 top rest w _ Hb Hw) as (k & Hk & E); [rewrite Eh, length_app; lia|].
  assert (Elen : length (encode_field w) = (S k + length l)%nat) by (by rewrite Eh, length_app, Hk).
  rewrite Eh, FilterBytes_app, E, length_app, Hk. change (wf_id w) with id. rewrite Hq. cbn [mbind option_bind]. clear E.
  destruct Hb as [B1 B2 B3 B4 B5 B6 B7 B8 B9]. rewrite Elen in *. destruct Hw as [Hid [Hlb Hlm]].
  change kMaxMessageLength with 268435455 in Hlm.
  set (m1 := set_tokenizer _ _). set (top1 := set_in_bytes top _).
  unfold on_token. cbn [w wf_token tok_type]. unfold on_len_delimited. cbn [tok_value tok_field_id].
  rewrite (u32_id (Z.of_nat (length l))) by (unfold is_u32; lia).
  change (in_bytes_limit top1) with (in_bytes_limit top). change (in_bytes top1) with (in_bytes top + Z.of_nat k).
  rewrite (u32_id (in_bytes_limit top - _ - 1)) by (unfold is_u32; lia).
  rewrite (proj2 (Z.ltb_ge _ _)) by lia.
  assert (Hn : allowed r && nested_msg_field r && (0 <? Z.of_nat (length l)) = false).
  { destruct Hfit as [-> | ->]; [apply andb_false_r|done]. }
  rewrite Hn.
  assert (Ehdr : tag_octets id kLengthDelimited ++ WriteVarInt (Z.of_nat (length l)) = wf_header w) by done.
  assert (Happ : AppendLenDelim m1 id (Z.of_nat (length l)) =
     Some (set_buf m1 (buf_write (out_buf_ m) (out_ m) (wf_header w)) (out_ m + length (wf_header w)),
           ((out_ m + length (tag_octets id kLengthDelimited))%nat, length (WriteVarInt (Z.of_nat (length l)))))).
  { rewrite AppendLenDelim_put; rewrite Ehdr, Hk; [|cbn; lia].
    rewrite (out_put_ok m1 (wf_header w)) by (rewrite Hk; cbn; lia). rewrite Hk. done. }
  rewrite Happ. unfold filter_leaf. cbn [w].
  destruct (allowed r && filter_string_field r) eqn:Efs.
  - cbn [mbind option_bind].
    exists (set_eat top 0 kFilterString (out_ m + length (wf_header w))). split_and!; [apply same_frame_eat|done|].
    pose proof (run_payload m top rest id k l (wf_header w) kFilterString (out_ m + length (wf_header w))) as Hrun.
    assert (Ef : encode_field (WBytes id (filtered_payload l)) = wf_header w ++ eaten_or_nil kFilterString l).
    { cbn [encode_field]. rewrite length_filtered_payload, app_assoc by done. cbn [wf_header w]. by destruct l. }
    rewrite Ef. cbn zeta in Hrun. apply Hrun; try done; rewrite ?Hk; lia.
  - destruct (allowed r).
    + cbn [mbind option_bind].
      exists (set_eat top 0 kPassthrough (filter_string_ptr top)). split_and!; [apply same_frame_eat|done|].
      pose proof (run_payload m top rest id k l (wf_header w) kPassthrough (filter_string_ptr top)) as Hrun.
      assert (Ef : encode_field w = wf_header w ++ eaten_or_nil kPassthrough l)
        by (rewrite Eh; f_equal; by destruct l).
      rewrite Ef. cbn zeta in Hrun. apply Hrun; try done; rewrite ?Hk; lia.
    + cbn [mbind option_bind].
      exists (set_eat top 0 kDrop (filter_string_ptr top)). split_and!; [apply same_frame_eat|done|].
      pose proof (run_payload m top rest id k l [] kDrop (filter_string_ptr top)) as Hrun.
      cbn zeta in Hrun. rewrite buf_write_nil in Hrun. cbn [length] in Hrun. rewrite Nat.add_0_r in Hrun.
      assert (Ef : [] ++ eaten_or_nil kDrop l = []) by (by destruct l). rewrite Ef in Hrun.
      apply Hrun; try done; lia.
Qed.

(** ** Trees *)

(** The answer to a query (queries of fitting trees always have one). *)
Definition q (idx id : Z) : QueryResult := default (mkQuery false 0) (Query (filter_ c) idx id).

(** The filtered image of a tree: fields are kept, rewritten or dropped as the
    filter of the enclosing message says; a submessage keeps the width of its
    original length field. *)
Fixpoint filter_node (idx : Z) (x : node) : list Z :=
  match x with
  | Leaf w => filter_leaf (q idx (wf_id w)) w
  | Sub id ch =>
      let out := ch ≫= filter_node (nested_msg_index (q idx id)) in
      tag_octets id kLengthDelimited ++
      WriteRedundantVarInt (Z.of_nat (length out)) (length (WriteVarInt (Z.of_nat (length (ch ≫= encode_node))))) ++ out
  end.
Definition filter_nodes (idx : Z) (l : list node) : list Z := l ≫= filter_node idx.

(** The tree is well formed and its submessages are those the filter enters. *)
Fixpoint node_fits (idx : Z) (x : node) : Prop :=
  match x with
  | Leaf w => wf_ok w /\ leaf_fits (q idx (wf_id w)) w /\ is_Some (Query (filter_ c) idx (wf_id w))
  | Sub id ch =>
      0 < id <= kMaxId /\ 0 < Z.of_nat (length (ch ≫= encode_node)) <= kMaxMessageLength /\
      is_Some (Query (filter_ c) idx id) /\ allowed (q idx id) = true /\ nested_msg_field (q idx id) = true /\
      foldr (fun y P => node_fits (nested_msg_index (q idx id)) y /\ P) True ch
  end.
Definition nodes_fit (idx : Z) (l : list node) : Prop := foldr (fun y P => node_fits idx y /\ P) True l.

Lemma node_ind' (P : node -> Prop) :
  (forall w, P (Leaf w)) -> (forall id ch, Forall P ch -> P (Sub id ch)) -> forall x, P x.
Proof.
  intros HL HS. fix IH 1. intros [w|id ch]; [apply HL|]. apply HS. induction ch; constructor; [apply IH|assumption].
Qed.

Lemma encode_field_nonempty w : wf_ok w -> (0 < length (encode_field w))%nat.
Proof.
  intros Hw. destruct (header_split 0 w ltac:(unfold_u; lia) Hw) as (l & b & t & E & _).
  assert (length (wf_header w) <= length (encode_field w))%nat.
  { destruct w; cbn [wf_header encode_field]; rewrite ?length_app; lia. }
  rewrite E, length_app in H. cbn [length] in H. lia.
Qed.

Lemma Sub_wf id ch :
  0 < id <= kMaxId -> Z.of_nat (length (ch ≫= encode_node)) <= kMaxMessageLength -> bytes_ok (ch ≫= encode_node) ->
  wf_ok (WBytes id (ch ≫= encode_node)).
Proof. intros. by split. Qed.

Lemma encode_node_ok x : forall idx, node_fits idx x ->
  bytes_ok (encode_node x) /\ (0 < length (encode_node x))%nat /\
  (length (filter_node idx x) <= length (encode_node x))%nat.
Proof.
  induction x as [w|id ch IH] using node_ind'; intros idx Hf.
  - destruct Hf as (Hw & _). split_and!; [by apply encode_field_ok|by apply encode_field_nonempty|].
    by apply length_filter_leaf.
  - destruct Hf as (H1 & H2 & _ & _ & _ & Hch). cbn [encode_node filter_node].
    set (idx' := nested_msg_index (q idx id)) in *.
    assert (Hall : bytes_ok (ch ≫= encode_node) /\ (length (ch ≫= filter_node idx') <= length (ch ≫= encode_node))%nat).
    { clear H2. induction IH as [|y ch Hy _ IH']; [split; [constructor|done]|].
      destruct Hch as [Hy' Hch]. destruct (Hy idx' Hy') as (? & ? & ?). destruct (IH' Hch).
      cbn [mbind list_bind]. rewrite !length_app. split; [by apply bytes_ok_app|]. cbn [mbind list_bind] in *. lia. }
    destruct Hall as [Hb Hl]. pose proof (Sub_wf id ch H1 (proj2 H2) Hb) as Hw.
    split_and!; [by apply encode_field_ok|by apply encode_field_nonempty|].
    cbn [encode_field]. rewrite !length_app, length_WriteRedundantVarInt.
    change (WriteVarInt (MakeTagLengthDelimited id)) with (tag_octets id kLengthDelimited). lia.
Qed.

Lemma nodes_ok idx l : nodes_fit idx l ->
  bytes_ok (encode_nodes l) /\ (length (filter_nodes idx l) <= length (encode_nodes l))%nat /\
  (l <> [] -> (0 < length (encode_nodes l))%nat).
Proof.
  induction l as [|x l IH]; intros Hf; [split_and!; [constructor|done|done]|]. destruct Hf as [Hx Hl].
  destruct (encode_node_ok x idx Hx) as (? & ? & ?). destruct (IH Hl) as (? & ? & _).
  unfold encode_nodes, filter_nodes in *. cbn [mbind list_bind] in *. rewrite !length_app.
  split_and!; [by apply bytes_ok_app|lia|lia].
Qed.

Lemma pop_loop_flag fuel : forall m b b',
  ('(m, _, _) ← pop_loop fuel m b; Some m) = ('(m, _, _) ← pop_loop fuel m b'; Some m).
Proof.
  intros m b b'. destruct fuel; cbn [pop_loop]; destruct (stack_ m) as [|s rest]; try done;
    by destruct (_ <=? _).
Qed.

(** Closing a submessage: its length is backfilled and its parent goes on. *)
Lemma close_child m child top rest :
  stack_ m = child :: top :: rest -> in_bytes child = in_bytes_limit child ->
  0 <= in_bytes top -> 0 <= in_bytes child -> in_bytes top + in_bytes child < 2 ^ 32 ->
  Z.of_nat (out_ m) < 2 ^ 32 -> 0 <= out_bytes_written_at_start child <= Z.of_nat (out_ m) ->
  Z.of_nat (out_ m) - out_bytes_written_at_start child <= in_bytes_limit child ->
  (size_field child + size_field_len child <= length (out_buf_ m))%nat -> idle (tokenizer_ m) = true ->
  close m = close (set_stack (set_buf m (buf_write (out_buf_ m) (size_field child)
              (WriteRedundantVarInt (Z.of_nat (out_ m) - out_bytes_written_at_start child) (size_field_len child))) (out_ m))
              (set_in_bytes top (in_bytes top + in_bytes child) :: rest)).
Proof.
  intros Hst Hfull H0 H1 H2 Ho H3 H4 H5 Hid. unfold close at 1. rewrite Hst.
  change (length (child :: top :: rest)) with (S (length (top :: rest))). remember (length (top :: rest)) as fuel eqn:Hf.
  cbn [pop_loop]. rewrite Hst.
  rewrite (proj2 (Z.leb_le _ _)), (proj2 (Z.eqb_eq _ _)) by lia. cbn [negb]. unfold out_written.
  rewrite (u32_id (Z.of_nat (out_ m))) by (unfold is_u32; lia). rewrite u32_id by (unfold is_u32; lia).
  rewrite (proj2 (Z.ltb_ge _ _)) by lia.
  rewrite mem_write_some by (rewrite length_WriteRedundantVarInt; lia). cbn [mbind option_bind].
  rewrite (u32_id (in_bytes top + _)) by (unfold is_u32; lia).
  cbn [set_stack set_buf tokenizer_]. rewrite Hid. cbn [negb]. subst fuel.
  apply pop_loop_flag.
Qed.

(** The pushed state of a submessage of [len] octets. *)
Lemma finish_push m top rest next :
  stack_ m = top :: rest -> 0 <= in_bytes top -> in_bytes top + 1 < in_bytes_limit top < 2 ^ 32 ->
  idle (tokenizer_ m) = true ->
  finish_byte m (Some next) = Some (set_stack m (next :: set_in_bytes top (in_bytes top + 1) :: rest)).
Proof.
  intros Hst H0 H1 Hid. unfold finish_byte. rewrite Hst, u32_id by (unfold is_u32; lia).
  cbn [set_stack stack_ length pop_loop set_in_bytes in_bytes in_bytes_limit].
  rewrite (proj2 (Z.leb_gt _ _)) by lia. cbn [mbind option_bind set_stack tokenizer_]. by rewrite Hid.
Qed.

Definition runs (idx : Z) (octets out : list Z) : Prop :=
  forall m id0 top rest, between m id0 top rest (length octets) -> msg_index top = idx ->
  exists top' id', is_u32 id' /\ same_frame top top' /\ eat_next_bytes top' = 0 /\
    FilterBytes c m octets = close (adv m top' rest (length octets) out id').

Lemma adv_adv m top rest k1 o1 id1 top2 k2 o2 id2 :
  (out_ m + length o1 + length o2 <= length (out_buf_ m))%nat ->
  in_bytes top2 = in_bytes top + Z.of_nat k1 ->
  adv (adv m top rest k1 o1 id1) top2 rest k2 o2 id2 =
  adv m (set_in_bytes top2 (in_bytes top)) rest (k1 + k2) (o1 ++ o2) id2.
Proof.
  intros Ho E. unfold adv. cbn [out_buf_ out_ error_ field_usage_].
  rewrite buf_write_app, length_app, Nat.add_assoc by lia. f_equal.
  unfold set_in_bytes. cbn. rewrite E. do 2 f_equal. lia.
Qed.

Lemma runs_app idx o1 x1 o2 x2 :
  runs idx o1 x1 -> runs idx o2 x2 -> (0 < length o2)%nat ->
  (length x1 <= length o1)%nat -> (length x2 <= length o2)%nat -> runs idx (o1 ++ o2) (x1 ++ x2).
Proof.
  intros H1 H2 Hne Hl1 Hl2 m id0 top rest Hb Hidx. rewrite length_app in *.
  pose proof Hb as [B1 B2 B3 B4 B5 B6 B7 B8 B9].
  destruct (H1 m id0 top rest) as (top1 & id1 & Hid1 & (S1 & S2 & S3 & S4 & S5 & S6 & S7) & He1 & E1);
    [split; try done; lia|done|].
  rewrite FilterBytes_app, E1.
  set (m1 := adv m top1 rest (length o1) x1 id1).
  set (top1' := set_in_bytes top1 (in_bytes top1 + Z.of_nat (length o1))).
  rewrite (close_open m1 top1' rest); [|done|cbn; rewrite S1, S2; lia]. cbn [mbind option_bind].
  assert (Hbl : length (out_buf_ m1) = length (out_buf_ m)) by (apply buf_write_length; lia).
  destruct (H2 m1 id1 top1' rest) as (top2 & id2 & Hid2 & (T1 & T2 & T3 & T4 & T5 & T6 & T7) & He2 & E2).
  { split; try done; try (by rewrite Hbl); cbn [top1' set_in_bytes in_bytes in_bytes_limit]; rewrite ?Hbl, ?S1, ?S2; try lia.
    cbn [m1 adv out_]. lia. }
  { cbn. congruence. }
  rewrite E2. exists (set_in_bytes top2 (in_bytes top1)), id2. split_and!; try done.
  - repeat apply conj; cbn in *; congruence.
  - f_equal. unfold m1. apply adv_adv; [lia|done].
Qed.

Lemma run_sub m id0 top rest id enc out r :
  let w := WBytes id enc in
  between m id0 top rest (length (encode_field w)) -> wf_ok w -> (0 < length enc)%nat ->
  Query (filter_ c) (msg_index top) id = Some r -> allowed r = true -> nested_msg_field r = true ->
  runs (nested_msg_index r) enc out -> (length out <= length enc)%nat ->
  exists top' id', is_u32 id' /\ same_frame top top' /\ eat_next_bytes top' = 0 /\
    FilterBytes c m (encode_field w) =
      close (adv m top' rest (length (encode_field w))
               (tag_octets id kLengthDelimited ++
                WriteRedundantVarInt (Z.of_nat (length out)) (length (WriteVarInt (Z.of_nat (length enc)))) ++ out) id').
Proof.
  intros w Hb Hw Hpos Hr Hal Hne Hrun Hole.
  pose proof Hb as [B1 B2 B3 B4 B5 B6 B7 B8 B9].
  assert (Eh : encode_field w = wf_header w ++ enc) by (cbn; by rewrite app_assoc).
  destruct (run_header m id0 top rest w _ Hb Hw) as (k & Hk & E); [rewrite Eh, length_app; lia|].
  assert (Elen : length (encode_field w) = (S k + length enc)%nat) by (by rewrite Eh, length_app, Hk).
  rewrite Eh, FilterBytes_app, E, length_app, Hk. change (wf_id w) with id. rewrite Hr. cbn [mbind option_bind]. clear E.
  rewrite Elen in *. clear Hb. destruct Hw as [Hid [Hby Hlen]]. change kMaxMessageLength with 268435455 in Hlen.
  set (m1 := set_tokenizer _ _). set (top1 := set_in_bytes top _).
  set (tag := tag_octets id kLengthDelimited). set (lo := WriteVarInt (Z.of_nat (length enc))).
  assert (Eth : wf_header w = tag ++ lo) by done. assert (Hhl : (length tag + length lo = S k)%nat) by (by rewrite <- Hk, Eth, length_app).
  set (m2 := set_buf m1 (buf_write (out_buf_ m) (out_ m) (tag ++ lo)) (out_ m + S k)).
  set (next := mkState 0 (Z.of_nat (length enc)) 0 (Z.of_nat (out_ m + S k)) id (nested_msg_index r)
                 (out_ m + length tag) (length lo) 0 kDrop).
  assert (Etok : on_token m1 top1 rest r (wf_token w) = Some (TokGoOn m2 (Some next))).
  { unfold on_token. cbn [w wf_token tok_type]. unfold on_len_delimited. cbn [tok_value tok_field_id].
    rewrite (u32_id (Z.of_nat (length enc))) by (unfold is_u32; lia).
    change (in_bytes_limit top1) with (in_bytes_limit top). change (in_bytes top1) with (in_bytes top + Z.of_nat k).
    rewrite (u32_id (in_bytes_limit top - _ - 1)) by (unfold is_u32; lia).
    rewrite (proj2 (Z.ltb_ge _ _)) by lia. rewrite Hal, Hne, (proj2 (Z.ltb_lt _ _)) by lia. cbn [andb].
    rewrite AppendLenDelim_put; fold tag lo; [|rewrite length_app, Hhl; cbn; lia].
    rewrite (out_put_ok m1 (tag ++ lo)) by (rewrite length_app, Hhl; cbn; lia). rewrite length_app, Hhl.
    cbn [mbind option_bind]. do 3 f_equal. unfold next, out_written. cbn [set_buf out_ m1 set_tokenizer inc set_stack].
    rewrite u32_id by (unfold is_u32; lia). done. }
  rewrite Etok. cbn [mbind option_bind]. clear Etok.
  assert (Hbl : length (out_buf_ m2) = length (out_buf_ m)).
  { unfold m2. cbn [set_buf out_buf_]. apply buf_write_length. rewrite length_app, Hhl. lia. }
  rewrite (finish_push m2 top1 rest next) by (cbn; done || lia). cbn [mbind option_bind].
  set (top2 := set_in_bytes top1 (in_bytes top1 + 1)).
  destruct (Hrun (set_stack m2 (next :: top2 :: rest)) id next (top2 :: rest)) as (next' & id' & Hid' & (S1 & S2 & S3 & S4 & S5 & S6 & S7) & He' & ->).
  { assert (is_u32 id) by (change kMaxId with (2 ^ 24 - 1) in Hid; unfold w, wf_id in Hid; unfold is_u32; lia).
    split; try done; cbn [set_stack out_buf_ out_ next in_bytes in_bytes_limit]; rewrite ?Hbl; try (unfold is_u32; cbn; lia). }
  { done. }
  exists top, id'. split_and!; try done. cbn [next in_bytes in_bytes_limit out_bytes_written_at_start size_field size_field_len] in *.
  set (mc := adv _ next' _ _ _ _).
  assert (Hmcl : length (out_buf_ mc) = length (out_buf_ m)).
  { unfold mc, adv. cbn [out_buf_ set_stack out_]. rewrite buf_write_length; rewrite Hbl; [done|]. cbn. lia. }
  assert (Hmco : out_ mc = (out_ m + S k + length out)%nat) by done.
  rewrite (close_child mc (set_in_bytes next' (in_bytes next' + Z.of_nat (length enc))) top2 rest);
    cbn [set_in_bytes in_bytes in_bytes_limit out_bytes_written_at_start size_field size_field_len];
    rewrite ?Hmcl, ?Hmco, ?S1, ?S2, ?S3, ?S6, ?S7; try done; try (cbn; lia).
  2: { unfold mc, adv. cbn [stack_]. by rewrite S1. }
  2: { lia. }
  f_equal. unfold adv, set_stack, set_buf, mc. cbn [adv out_buf_ out_ tokenizer_ error_ track_field_usage_ field_usage_ set_stack m2 set_buf].
  replace (Z.of_nat (out_ m + S k + length out) - Z.of_nat (out_ m + S k)) with (Z.of_nat (length out)) by lia.
  assert (Eb : buf_write (buf_write (buf_write (out_buf_ m) (out_ m) (tag ++ lo)) (out_ m + S k) out) (out_ m + length tag)
                 (WriteRedundantVarInt (Z.of_nat (length out)) (length lo)) =
               buf_write (out_buf_ m) (out_ m) (tag ++ WriteRedundantVarInt (Z.of_nat (length out)) (length lo) ++ out)).
  { rewrite <- Hhl, <- length_app, buf_write_app, <- app_assoc by (rewrite length_app; lia).
    apply buf_write_over; [rewrite !length_app; lia|apply length_WriteRedundantVarInt]. }
  rewrite Eb, !length_app, length_WriteRedundantVarInt, Nat.add_assoc.
  replace (out_ m + S k + length out)%nat with (out_ m + length tag + (length lo + length out))%nat by lia.
  f_equal. unfold top2, top1, set_in_bytes. cbn [in_bytes in_bytes_limit eat_next_bytes out_bytes_written_at_start ss_field_id
    msg_index size_field size_field_len filter_string_ptr action]. do 2 f_equal. lia.
Qed.

Lemma runs_list idx l :
  Forall (fun y => node_fits idx y -> runs idx (encode_node y) (filter_node idx y)) l ->
  nodes_fit idx l -> l <> [] -> runs idx (encode_nodes l) (filter_nodes idx l).
Proof.
  intros Hl Hf Hne. induction Hl as [|y l Hy _ IH]; [done|]. destruct Hf as [Hfy Hf].
  destruct l as [|z l].
  - unfold encode_nodes, filter_nodes. cbn [mbind list_bind]. rewrite !app_nil_r. by apply Hy.
  - destruct (nodes_ok idx (z :: l) Hf) as (_ & Hle & Hpos). destruct (encode_node_ok y idx Hfy) as (_ & _ & Hly).
    change (encode_nodes (y :: z :: l)) with (encode_node y ++ encode_nodes (z :: l)).
    change (filter_nodes idx (y :: z :: l)) with (filter_node idx y ++ filter_nodes idx (z :: l)).
    apply runs_app; [by apply Hy|by apply IH|by apply Hpos|done|done].
Qed.

Lemma runs_node x : forall idx, node_fits idx x -> runs idx (encode_node x) (filter_node idx x).
Proof.
  induction x as [w|id ch IH] using node_ind'; intros idx Hf m id0 top rest Hb Hidx.
  - destruct Hf as (Hw & Hfit & [r Hr]). assert (Eq : q idx (wf_id w) = r) by (unfold q; by rewrite Hr).
    cbn [encode_node filter_node] in *. rewrite Eq in *. subst idx.
    assert (Hid : is_u32 (wf_id w)). { destruct Hw as [[? Hm] _]. change kMaxId with (2 ^ 24 - 1) in Hm. unfold is_u32. lia. }
    destruct (decide (wf_type w = kLengthDelimited)) as [Ety|Ety].
    + destruct w as [| | |id l]; try done. destruct (run_bytes m id0 top rest id l r Hb Hw Hr Hfit) as (top' & ? & ? & ?).
      by exists top', id.
    + exists top, (wf_id w). split_and!; try done; [apply Hb|]. by eapply run_scalar.
  - destruct Hf as (Hid & Hlen & [r Hr] & Hal & Hne & Hch).
    assert (Eq : q idx id = r) by (unfold q; by rewrite Hr). cbn [filter_node]. rewrite Eq in *. clear Eq.
    set (idx' := nested_msg_index r) in *. cbn [encode_node] in *. subst idx.
    set (enc := ch ≫= encode_node) in *. set (out := ch ≫= filter_node idx').
    assert (Hchild : runs idx' enc out /\ (length out <= length enc)%nat /\ bytes_ok enc).
    { destruct (nodes_ok idx' ch Hch) as (Hby & Hle & _). split_and!; [|done|done].
      apply runs_list; [|done|intros ->; cbn in Hlen; lia].
      eapply Forall_impl; [exact IH|]. intros y Hy. by apply Hy. }
    destruct Hchild as (Hrun & Hole & Hby). clear IH Hch.
    destruct (run_sub m id0 top rest id enc out r) as (top' & id' & ? & ? & ? & E); try done; try lia.
    { split; [done|]. split; [done|lia]. }
    by exists top', id'.
Qed.

Lemma runs_nodes idx l : nodes_fit idx l -> l <> [] -> runs idx (encode_nodes l) (filter_nodes idx l).
Proof. apply runs_list, Forall_forall. intros y _. apply runs_node. Qed.
End functional.

(** ** Whole messages *)

Lemma total_len_eq slices acc :
  0 <= acc -> acc + Z.of_nat (length (mjoin slices)) < 2 ^ 32 ->
  foldl (fun acc (s : list Z) => u32 (acc + Z.of_nat (length s))) acc slices = acc + Z.of_nat (length (mjoin slices)).
Proof.
  revert acc; induction slices as [|s slices IH]; intros acc H0 H; cbn [foldl]; [cbn; lia|].
  change (mjoin (s :: slices)) with (s ++ mjoin slices) in *. rewrite length_app in *.
  rewrite u32_id by (unfold is_u32; lia). rewrite IH; lia.
Qed.

Lemma start_inv c m buf total :
  0 < total < UINT32_MAX -> 0 <= root_msg_index_ c -> Z.of_nat (length buf) = total -> bytes_ok buf ->
  inv total 0 (start_message c m buf total).
Proof.
  intros Ht Hr Hb Hbb. left. exists 0%nat. eexists _, _. split; [reflexivity|]. split; [|cbn; lia].
  split; cbn; try done; try lia. split; cbn; lia.
Qed.

(** ** Interfaces discharged *)

Lemma Load_QueryTotal data p :
  Load data = (true, p) -> Z.of_nat (132 * S (length data)) < 2 ^ 32 -> QueryTotal p.
Proof.
  unfold Load. intros H Hsz m f Hm Hf. destruct (fst (LoadInternal data)) as [p'|] eqn:E; [|done]. simplify_eq.
  destruct (LoadInternal_represented data p E) as (ds & M & Hw & Ho & Hok & HM & Hlen).
  destruct p as [ws os]. cbn [words_ message_offset_] in *. subst ws os.
  rewrite (Query_represented M) by (done || lia). eexists; split; [reflexivity|].
  destruct (ds !! Z.to_nat m); [|done]. cbn [result_of nested_msg_index].
  apply Z.land_nonneg. right. apply u32_range.
Qed.

#[export] Instance MaybeFilter_InPlace {regex} `{RegexLaws regex} rules : InPlace (MaybeFilter rules).
Proof.
  intros s Hs. assert (Hok : exists r out, MaybeFilter rules s = Some (r, out) /\ redacted_from s out).
  { unfold MaybeFilter. destruct (_ || _); [exists false, s; split; [done|apply redacted_refl]|].
    destruct (MaybeFilter_rules_ok rules s None) as (r & out & ? & _ & ? & _); [done|]. by exists r, out. }
  destruct Hok as (r & out & E & Hl & Hc). exists r, out. split_and!; [done|done|].
  apply Forall_lookup. intros i x Hx. destruct (Hc i x Hx) as [Hx'|[Hx'| ->]].
  - by eapply Forall_lookup_1.
  - unfold kRedacted in Hx'. repeat (apply elem_of_cons in Hx' as [->|Hx']; [unfold_u; lia|]). by apply not_elem_of_nil in Hx'.
  - unfold kRedactedDash. unfold_u. lia.
Qed.

(** ** Properties *)

Lemma FilterMessageFragments_ok c m slices :
  QueryTotal (filter_ c) -> InPlace (string_filter c) -> 0 <= root_msg_index_ c ->
  bytes_ok (mjoin slices) -> Z.of_nat (length (mjoin slices)) < UINT32_MAX ->
  exists res m', FilterMessageFragments c m slices = Some (res, m') /\
    (fm_size res <= length (mjoin slices))%nat.
Proof.
  intros Hq Hsf Hr Hb Hlen. unfold UINT32_MAX in Hlen. unfold FilterMessageFragments.
  rewrite total_len_eq, Z.add_0_l, Nat2Z.id by lia.
  destruct (mjoin slices) as [|b l] eqn:El.
  - cbn [FilterBytes length mbind option_bind]. eexists _, _. split; [reflexivity|]. cbn. lia.
  - rewrite <- El in *. assert (0 < Z.of_nat (length (mjoin slices))) by (rewrite El; cbn [length]; lia).
    destruct (FilterBytes_ok c (Z.of_nat (length (mjoin slices))) 0
      (start_message c m (replicate (length (mjoin slices)) 0) (Z.of_nat (length (mjoin slices)))) (mjoin slices))
      as (m' & -> & Hinv); [|lia|done|].
    { apply start_inv; [unfold UINT32_MAX; lia|done|by rewrite length_replicate|].
      apply Forall_replicate. unfold_u; lia. }
    cbn [mbind option_bind].
    assert (Hout : (out_ m' <= length (mjoin slices))%nat).
    { destruct Hinv as [(pend & top & rest & _ & Hl & _)|(s & _ & Hd)].
      - pose proof (lv_out _ _ _ _ _ _ Hl). lia.
      - pose proof (dn_out _ _ _ _ Hd). lia. }
    rewrite (proj2 (Nat.leb_le _ _)) by done. eexists _, _. split; [reflexivity|]. done.
Qed.

(** C28: over arbitrary input, in arbitrary fragments, the filter never writes
    outside an output buffer as large as the input, never queries outside the
    filter tables, never pops the sentinel of its stack and never writes for a
    submessage more than was read for it (no [CHECK] or [DCHECK] fails); it
    always returns a result, no larger than its input. *)
Theorem FilterMessageFragments_safe c m slices :
  QueryTotal (filter_ c) -> InPlace (string_filter c) -> 0 <= root_msg_index_ c ->
  bytes_ok (mjoin slices) -> Z.of_nat (length (mjoin slices)) < UINT32_MAX ->
  exists res m', FilterMessageFragments c m slices = Some (res, m') /\
    (fm_size res <= length (mjoin slices))%nat.
Proof. exact (FilterMessageFragments_ok c m slices). Qed.

(** The loaded example filter with a redacting string filter. *)
Definition example_config : Config := mkConfig (snd (Load example_data)) (MaybeFilter [example_rule]) 0.
Definition example_idle : Filter := mkFilter [] 0 tokenizer_init [StackState_init] false false ∅.

Lemma example_QueryTotal : QueryTotal (filter_ example_config).
Proof. apply (Load_QueryTotal example_data); vm_compute; reflexivity. Qed.

Lemma FilterMessageFragments_safe_witness :
  exists res m', FilterMessageFragments example_config example_idle [[0x08; 0x07]; [0x12; 0x7f]] = Some (res, m') /\
    (fm_size res <= length (mjoin [[0x08; 0x07]; [0x12; 0x7f]]))%nat.
Proof.
  apply (FilterMessageFragments_safe example_config example_idle [[0x08; 0x07]; [0x12; 0x7f]]).
  - exact example_QueryTotal.
  - apply _.
  - done.
  - repeat constructor; unfold_u; lia.
  - reflexivity.
Defined.

(** C27: on a well-formed message the filter computes exactly the filtered
    tree. For every message whose submessages are those the filter recurses
    into, in arbitrary fragments, the result has no error and its octets are the
    allowed fields in their order: scalars and allowed payloads unchanged,
    strings through the string filter, disallowed fields dropped, and each
    submessage rewritten recursively with its real length in a field of the
    original width. *)
Theorem filter_message_correct c m slices nodes :
  InPlace (string_filter c) -> 0 <= root_msg_index_ c -> track_field_usage_ m = false ->
  mjoin slices = encode_nodes nodes -> nodes <> [] -> nodes_fit c (root_msg_index_ c) nodes ->
  Z.of_nat (length (encode_nodes nodes)) < UINT32_MAX ->
  exists res m', FilterMessageFragments c m slices = Some (res, m') /\ fm_error res = false /\
    take (fm_size res) (fm_data res) = filter_nodes c (root_msg_index_ c) nodes.
Proof.
  intros Hsf Hr Htr Hj Hne Hfit Hlen. unfold UINT32_MAX in Hlen. unfold FilterMessageFragments.
  rewrite total_len_eq, Z.add_0_l, Nat2Z.id, Hj by (rewrite ?Hj; lia).
  set (enc := encode_nodes nodes) in *. set (out := filter_nodes c (root_msg_index_ c) nodes).
  destruct (nodes_ok c (root_msg_index_ c) nodes Hfit) as (Hby & Hle & Hpos). specialize (Hpos Hne).
  fold enc in Hby, Hle, Hpos. fold out in Hle.
  set (m0 := start_message c m (replicate (length enc) 0) (Z.of_nat (length enc))).
  set (root := mkState 0 (Z.of_nat (length enc)) 0 0 0 (root_msg_index_ c) 0 0 0 kDrop).
  set (sentinel := mkState 0 UINT32_MAX UINT32_MAX 0 0 0 0 0 0 kDrop).
  destruct (runs_nodes c (root_msg_index_ c) nodes Hfit Hne m0 0 root [sentinel])
    as (root' & id' & Hid' & (S1 & S2 & S3 & S4 & S5 & S6 & S7) & He & E); [|done|].
  { split; cbn [m0 start_message stack_ tokenizer_ out_ out_buf_ track_field_usage_ root in_bytes in_bytes_limit eat_next_bytes];
      rewrite ?length_replicate; fold enc; try done; try (unfold is_u32; lia). }
  fold enc out in E. cbn [root in_bytes in_bytes_limit out_bytes_written_at_start size_field size_field_len] in *.
  rewrite (close_child _ (set_in_bytes root' (in_bytes root' + Z.of_nat (length enc))) sentinel []) in E;
    cbn [set_in_bytes in_bytes in_bytes_limit out_bytes_written_at_start size_field size_field_len sentinel];
    rewrite ?S1, ?S2, ?S3, ?S6, ?S7; try done; try lia; try (cbn; lia).
  2: { cbn [adv stack_]. by rewrite S1. }
  cbn [set_in_bytes in_bytes out_bytes_written_at_start size_field size_field_len] in E. rewrite S7 in E.
  cbn [WriteRedundantVarInt] in E. rewrite buf_write_nil in E.
  rewrite S1, !Z.add_0_l in E. set (s' := set_in_bytes sentinel _) in E.
  rewrite (close_open _ s' []) in E by (done || (cbn; unfold UINT32_MAX; lia)). rewrite E.
  cbn [mbind option_bind set_stack set_buf adv out_ stack_ tokenizer_ error_ out_buf_].
  cbn [m0 start_message out_ error_ out_buf_]. rewrite Nat.add_0_l, (proj2 (Nat.leb_le _ _)) by done.
  eexists _, _. split; [reflexivity|]. cbn [fm_error fm_size fm_data]. split.
  - cbn [length Nat.eqb negb orb last default from_option id s' in_bytes idle]. cbn. by rewrite Z.eqb_refl.
  - pose proof (buf_write_range (replicate (length enc) 0) 0 0 out) as Er. rewrite !Nat.add_0_l, !Nat.sub_0_r, !drop_0 in Er.
    apply Er; [lia|]. by rewrite length_replicate.
Qed.

(** Field 1 allowed; field 2 is a submessage in which 126 is allowed, 9 is not
    and 1000 is a string to redact. *)
Definition example_nodes : list node :=
  [Leaf (WVarInt 1 300); Sub 2 [Leaf (WVarInt 126 5); Leaf (WVarInt 9 1); Leaf (WBytes 1000 [112; 119; 58; 97; 98])];
   Leaf (WFixed32 77 3)].

Lemma filter_message_correct_witness :
  exists res m', FilterMessageFragments example_config example_idle [encode_nodes example_nodes] = Some (res, m') /\
    fm_error res = false /\ take (fm_size res) (fm_data res) = filter_nodes example_config 0 example_nodes.
Proof.
  apply (filter_message_correct example_config example_idle [encode_nodes example_nodes] example_nodes).
  - apply _.
  - done.
  - done.
  - cbn [mjoin list_join]. apply app_nil_r.
  - done.
  - vm_compute. repeat split; try done; try (by right); try (by eexists); repeat constructor; done.
  - vm_compute. reflexivity.
Defined.

(** A field id of 0, which no proto schema can have, is not reported as
    malformed: its header is skipped without a token, so the payload of a
    length-delimited one is read as fields of the enclosing message, and the
    allowed ones among them reach the output with no error. *)
Theorem filter_id_zero_hoists_payload :
  match FilterMessageFragments example_config example_idle [[0x02; 0x02; 0x08; 0x07]] with
  | Some (res, _) => fm_error res = false /\ take (fm_size res) (fm_data res) = [0x08; 0x07]
  | None => False
  end.
Proof. vm_compute. done. Qed.
