(* ===== verification/Histogram.v ===== *)
(** * The bucketed histogram

    Models src/tracing/service/histogram.h. The template arguments (the
    thresholds, in increasing order) are an argument of the operations; the last
    bucket takes everything above the last threshold. Bucket sums are 64-bit
    signed in the code; their overflow is outside this model. *)

From S2P Require Import Prelude.

Record Histogram := mkHist { bucket_sum_ : list Z; bucket_count_ : list Z }.

(** [bucket_thres_] of the finite buckets; the overflow one is implicit. *)
Definition kNumBuckets (thresholds : list Z) : nat := 1 + length thresholds.

Definition hist_init (thresholds : list Z) : Histogram :=
  mkHist (replicate (kNumBuckets thresholds) 0) (replicate (kNumBuckets thresholds) 0).

(** The loop of [BucketForValue]. *)
Fixpoint BucketForValue (thresholds : list Z) (value : Z) : nat :=
  match thresholds with
  | [] => 0
  | t :: thresholds => if value <=? t then 0 else S (BucketForValue thresholds value)
  end.

Definition Add (thresholds : list Z) (h : Histogram) (value : Z) : Histogram :=
  let bucket := BucketForValue thresholds value in
  mkHist (alter (fun s => s + value) bucket (bucket_sum_ h))
         (alter (fun n => u64 (n + 1)) bucket (bucket_count_ h)).

Definition GetBucketSum (h : Histogram) (n : nat) : option Z := bucket_sum_ h !! n.
Definition GetBucketCount (h : Histogram) (n : nat) : option Z := bucket_count_ h !! n.
Definition GetBucketThres (thresholds : list Z) (n : nat) : option Z := (thresholds ++ [2 ^ 63 - 1]) !! n.

Definition Merge (h other : Histogram) : Histogram :=
  mkHist (zip_with Z.add (bucket_sum_ h) (bucket_sum_ other))
         (zip_with (fun a b => u64 (a + b)) (bucket_count_ h) (bucket_count_ other)).

(** ** Proofs *)

Definition in_bucket (thresholds : list Z) (n : nat) (v : Z) : Prop := BucketForValue thresholds v = n.

#[export] Instance in_bucket_dec ts n v : Decision (in_bucket ts n v).
Proof. unfold in_bucket. apply _. Defined.

Lemma BucketForValue_bound ts v : (BucketForValue ts v < kNumBuckets ts)%nat.
Proof. unfold kNumBuckets. induction ts as [|t ts IH]; simpl; [lia|]. destruct (_ <=? _); lia. Qed.

(** The bucket of a value is the first whose threshold is not below it. *)
Lemma BucketForValue_spec ts v n :
  BucketForValue ts v = n <->
  (n <= length ts)%nat /\ (forall i t, (i < n)%nat -> ts !! i = Some t -> t < v) /\ (forall t, ts !! n = Some t -> v <= t).
Proof.
  revert n; induction ts as [|t ts IH]; intros n; simpl.
  - split; [intros <-; split_and!; [lia|done|done]|]. intros (? & _). lia.
  - destruct (Z.leb_spec v t) as [Hle|Hlt].
    + split.
      * intros <-. split_and!; [lia|lia|]. intros t' [= <-]. done.
      * intros (_ & H & _). destruct n; [done|]. specialize (H O t ltac:(lia) eq_refl). lia.
    + destruct n as [|n].
      * split; [done|]. intros (_ & _ & H). specialize (H t eq_refl). lia.
      * rewrite Nat.succ_inj_wd, IH. split; intros (H1 & H2 & H3); split_and!; try lia; try done.
        -- intros [|i] t' Hi Ht; [by simplify_eq/=|]. apply (H2 i t'); [lia|done].
        -- intros i t' Hi Ht. apply (H2 (S i) t'); [lia|done].
Qed.

(** The values [vs] that fell in bucket [n]. *)
Definition bucket_of (ts : list Z) (vs : list Z) (n : nat) : list Z := filter (in_bucket ts n) vs.

Definition sum (l : list Z) : Z := foldr Z.add 0 l.

Lemma sum_app l k : sum (l ++ k) = sum l + sum k.
Proof. unfold sum. induction l as [|x l IH]; cbn [app foldr]; [done|]. rewrite IH. lia. Qed.

Definition hist_of (ts : list Z) (h : Histogram) (vs : list Z) : Prop :=
  length (bucket_sum_ h) = kNumBuckets ts /\ length (bucket_count_ h) = kNumBuckets ts /\
  forall n, (n < kNumBuckets ts)%nat ->
    GetBucketSum h n = Some (sum (bucket_of ts vs n)) /\
    GetBucketCount h n = Some (u64 (Z.of_nat (length (bucket_of ts vs n)))).

Lemma hist_of_init ts : hist_of ts (hist_init ts) [].
Proof.
  split_and!; [apply length_replicate..|]. intros n Hn. unfold GetBucketSum, GetBucketCount, hist_init.
  cbn [bucket_sum_ bucket_count_].
  rewrite !lookup_replicate_2 by done. done.
Qed.

Lemma hist_of_Add ts h vs v : hist_of ts h vs -> hist_of ts (Add ts h v) (v :: vs).
Proof.
  intros (H1 & H2 & H3). split_and!; [cbn; by rewrite length_alter..|]. intros n Hn. destruct (H3 n Hn) as [Es Ec].
  unfold GetBucketSum, GetBucketCount, Add, bucket_of in *. cbn [bucket_sum_ bucket_count_].
  destruct (decide (in_bucket ts n v)) as [Hin|Hne].
  - rewrite filter_cons_True by done. unfold in_bucket in Hin. rewrite Hin, !list_lookup_alter_eq, Es, Ec.
    cbn [fmap option_fmap option_map length].
    change (sum (v :: ?l)) with (v + sum l). split; f_equal; [lia|].
    unfold u64. rewrite Zplus_mod_idemp_l. f_equal. lia.
  - rewrite filter_cons_False by done. unfold in_bucket in Hne. rewrite !list_lookup_alter_ne by done. auto.
Qed.

Lemma hist_of_Merge ts h1 h2 vs1 vs2 :
  hist_of ts h1 vs1 -> hist_of ts h2 vs2 -> hist_of ts (Merge h1 h2) (vs1 ++ vs2).
Proof.
  intros (A1 & A2 & A3) (B1 & B2 & B3). split_and!; [cbn [Merge bucket_sum_ bucket_count_]; rewrite length_zip_with; lia..|].
  intros n Hn. destruct (A3 n Hn) as [A4 A5]. destruct (B3 n Hn) as [B4 B5].
  unfold GetBucketSum, GetBucketCount, Merge, bucket_of in *. cbn [bucket_sum_ bucket_count_].
  rewrite !lookup_zip_with, A4, A5, B4, B5. cbn [mbind option_bind]. rewrite filter_app, length_app.
  split; f_equal.
  - apply eq_sym, sum_app.
  - unfold u64. rewrite <- Zplus_mod. f_equal. lia.
Qed.

(** ** Properties *)

(** After adding any values, in any split between two histograms that
    are then merged, every bucket holds exactly the sum and the number of the
    values whose bucket it is, and the bucket of a value is the first whose
    threshold is not below it. *)
Theorem histogram_buckets ts vs1 vs2 n :
  (n < kNumBuckets ts)%nat ->
  let h := Merge (foldl (Add ts) (hist_init ts) vs1) (foldl (Add ts) (hist_init ts) vs2) in
  GetBucketSum h n = Some (sum (bucket_of ts (rev vs1 ++ rev vs2) n)) /\
  GetBucketCount h n = Some (u64 (Z.of_nat (length (bucket_of ts (rev vs1 ++ rev vs2) n)))) /\
  (forall v, BucketForValue ts v = n ->
     (forall i t, (i < n)%nat -> ts !! i = Some t -> t < v) /\ (forall t, ts !! n = Some t -> v <= t)).
Proof.
  intros Hn h.
  assert (Hfold : forall vs h0 l, hist_of ts h0 l -> hist_of ts (foldl (Add ts) h0 vs) (rev vs ++ l)).
  { induction vs as [|v vs IH]; intros h0 l H0; [done|]. cbn [foldl rev]. rewrite <- app_assoc.
    apply IH. by apply hist_of_Add. }
  pose proof (Hfold vs1 _ _ (hist_of_init ts)) as H1. pose proof (Hfold vs2 _ _ (hist_of_init ts)) as H2.
  rewrite app_nil_r in H1, H2. destruct (hist_of_Merge ts _ _ _ _ H1 H2) as (_ & _ & H).
  destruct (H n Hn) as [Es Ec]. split_and!; [exact Es|exact Ec|].
  intros v Hv. by apply BucketForValue_spec in Hv as (_ & ? & ?).
Qed.

Lemma histogram_buckets_witness :
  GetBucketSum (Merge (foldl (Add [8; 32]) (hist_init [8; 32]) [5; 9]) (foldl (Add [8; 32]) (hist_init [8; 32]) [40; 8])) 0 =
    Some (sum (bucket_of [8; 32] (rev [5; 9] ++ rev [40; 8]) 0)).
Proof. apply (histogram_buckets [8; 32] [5; 9] [40; 8] 0). cbn. lia. Defined.
