(* ===== verification/TraceBuffer.v ===== *)
(** * The trace buffer: data and write path

    Models src/tracing/service/trace_buffer.{h,cc}: the central ring buffer of
    the tracing service. [data_] is the list of its octets and [wptr_] an offset;
    chunk headers are stored in it octet by octet, as the code does. [index_]
    ([std::map]) is a list of entries sorted by key.

    [None] is what must not happen: an access outside [data_], a failed
    [DEJAVIEW_CHECK], or a failed [DEJAVIEW_DCHECK] about the buffer's own
    consistency; the outcome of the three [DCHECK]s that a late chunk can make fail
    is recorded in [dchecks_held_]. The [DCHECK]s that the code guards with
    [suppress_client_dchecks_for_testing_] fire on producer misbehaviour; they are
    off, as in release builds. Reading is in TraceBufferRead.v. *)

From Stdlib Require Import Sorted.
From S2P Require Import Prelude ProtoUtils Histogram.

Definition kFirstPacketContinuesFromPrevChunk : Z := 1.
Definition kLastPacketContinuesOnNextChunk : Z := 2.
Definition kChunkNeedsPatching : Z := 4.
Definition kPacketSizeDropPacket : Z := kMaxMessageLength.
Definition kMaxChunkID : Z := 2 ^ 32 - 1.

Inductive OverwritePolicy := kOverwrite | kDiscard.

#[export] Instance OverwritePolicy_eq_dec : EqDecision OverwritePolicy.
Proof. solve_decision. Defined.

(** ** ChunkRecord: the 16-octet header inlined in the buffer *)

Definition kChunkRecordSize : Z := 16.
Definition kMaxSize : Z := 2 ^ 16 - 1.
Definition kFlagsBitMask : Z := (1 << 6) - 1.

Record ChunkRecord := mkChunkRecord {
  cr_chunk_id : Z;
  cr_producer_id : Z;
  cr_writer_id : Z;
  cr_num_fragments : Z;
  cr_size : Z;
  cr_flags : Z;        (** 6 bits *)
  cr_is_padding : Z    (** 1 bit *)
}.

Definition is_valid_record (r : ChunkRecord) : bool := negb (cr_size r =? 0).

(** [explicit ChunkRecord(size_t sz)]. *)
Definition ChunkRecord_init (sz : Z) : option ChunkRecord :=
  if (kChunkRecordSize <=? sz) && (sz mod kChunkRecordSize =? 0) && (sz <=? kMaxSize)
  then Some (mkChunkRecord 0 0 0 0 (u16 sz) 0 0) else None.

(** Its octets in memory. *)
Definition cr_bytes (r : ChunkRecord) : list Z :=
  le_bytes 4 (cr_chunk_id r) ++ le_bytes 2 (cr_producer_id r) ++ le_bytes 2 (cr_writer_id r) ++
  le_bytes 2 (cr_num_fragments r) ++ le_bytes 2 (cr_size r) ++
  [u8 (cr_flags r .| (cr_is_padding r << 6))] ++ [67; 72; 85].

(** [*reinterpret_cast<ChunkRecord*>(ptr)]. *)
Definition cr_of_bytes (l : list Z) : ChunkRecord :=
  let flags_byte := default 0 (l !! 12%nat) in
  mkChunkRecord (le_val (take 4 l)) (le_val (take 2 (drop 4 l))) (le_val (take 2 (drop 6 l)))
    (le_val (take 2 (drop 8 l))) (le_val (take 2 (drop 10 l)))
    (flags_byte .& kFlagsBitMask) ((flags_byte >> 6) .& 1).

(** ** ChunkMeta and the index *)

Record Key := mkKey { producer_id : Z; writer_id : Z; chunk_id : Z }.

#[export] Instance Key_eq_dec : EqDecision Key.
Proof. solve_decision. Defined.

(** [std::tie(...) < std::tie(...)]. *)
Definition key_ltb (a b : Key) : bool :=
  (producer_id a <? producer_id b) ||
  ((producer_id a =? producer_id b) &&
   ((writer_id a <? writer_id b) ||
    ((writer_id a =? writer_id b) && (chunk_id a <? chunk_id b)))).

Definition key_of_record (r : ChunkRecord) : Key := mkKey (cr_producer_id r) (cr_writer_id r) (cr_chunk_id r).

Definition kComplete : Z := 1.
Definition kLastReadPacketSkipped : Z := 2.

Record ChunkMeta := mkMeta {
  record_off : Z;
  client_identity_trusted : ClientIdentity;
  index_flags : Z;
  flags : Z;
  num_fragments : Z;
  num_fragments_read : Z;
  cur_fragment_offset : Z
}.

Definition ChunkMeta_init (off nfrag : Z) (complete : bool) (fl : Z) (ci : ClientIdentity) : ChunkMeta :=
  mkMeta off ci (if complete then kComplete else 0) fl nfrag 0 0.

Definition set_index_flags (m : ChunkMeta) (f : Z) : ChunkMeta :=
  mkMeta (record_off m) (client_identity_trusted m) f (flags m) (num_fragments m)
    (num_fragments_read m) (cur_fragment_offset m).

Definition is_complete (m : ChunkMeta) : bool := negb (index_flags m .& kComplete =? 0).
Definition set_complete (m : ChunkMeta) (complete : bool) : ChunkMeta :=
  set_index_flags m (if complete then index_flags m .| kComplete else index_flags m .& u8 (Z.lnot kComplete)).
Definition last_read_packet_skipped (m : ChunkMeta) : bool := negb (index_flags m .& kLastReadPacketSkipped =? 0).
Definition set_last_read_packet_skipped (m : ChunkMeta) (skipped : bool) : ChunkMeta :=
  set_index_flags m
    (if skipped then index_flags m .| kLastReadPacketSkipped
     else index_flags m .& u8 (Z.lnot kLastReadPacketSkipped)).
Definition set_flags (m : ChunkMeta) (f : Z) : ChunkMeta :=
  mkMeta (record_off m) (client_identity_trusted m) (index_flags m) f (num_fragments m)
    (num_fragments_read m) (cur_fragment_offset m).
Definition set_num_fragments (m : ChunkMeta) (n : Z) : ChunkMeta :=
  mkMeta (record_off m) (client_identity_trusted m) (index_flags m) (flags m) n
    (num_fragments_read m) (cur_fragment_offset m).
Definition set_read_state (m : ChunkMeta) (nread off : Z) : ChunkMeta :=
  mkMeta (record_off m) (client_identity_trusted m) (index_flags m) (flags m) (num_fragments m) nread off.

(** [std::map<Key, ChunkMeta>]: entries in increasing key order. *)
Definition ChunkMap := list (Key * ChunkMeta).

Fixpoint map_find (m : ChunkMap) (k : Key) : option ChunkMeta :=
  match m with
  | [] => None
  | (k', v) :: m => if decide (k' = k) then Some v else map_find m k
  end.

(** [emplace] of a key that is not in the map. *)
Fixpoint map_emplace (m : ChunkMap) (k : Key) (v : ChunkMeta) : ChunkMap :=
  match m with
  | [] => [(k, v)]
  | (k', v') :: m => if key_ltb k k' then (k, v) :: (k', v') :: m else (k', v') :: map_emplace m k v
  end.

Fixpoint map_erase (m : ChunkMap) (k : Key) : ChunkMap :=
  match m with
  | [] => []
  | (k', v) :: m => if decide (k' = k) then m else (k', v) :: map_erase m k
  end.

(** Writing through an iterator to [k]. *)
Fixpoint map_update (m : ChunkMap) (k : Key) (v : ChunkMeta) : ChunkMap :=
  match m with
  | [] => []
  | (k', v') :: m => if decide (k' = k) then (k', v) :: m else (k', v') :: map_update m k v
  end.

(** The first key greater than [k]; [None] is [end()]. *)
Fixpoint upper_bound (m : ChunkMap) (k : Key) : option Key :=
  match m with
  | [] => None
  | (k', _) :: m => if key_ltb k k' then Some k' else upper_bound m k
  end.

Definition map_begin (m : ChunkMap) : option Key := fst <$> head m.

(** ** Statistics *)

Inductive Stat :=
| buffer_size | abi_violations | chunks_rewritten | chunks_written | bytes_written | write_wrap_count
| chunks_committed_out_of_order | chunks_overwritten | bytes_overwritten | padding_bytes_cleared
| padding_bytes_written | patches_failed | patches_succeeded | readaheads_succeeded | readaheads_failed
| chunks_read | bytes_read | trace_writer_packet_loss | chunks_discarded.

#[export] Instance Stat_eq_dec : EqDecision Stat.
Proof. solve_decision. Defined.

Definition Stats := Stat -> Z.
Definition set_stat (s : Stats) (k : Stat) (v : Z) : Stats := fun k' => if decide (k' = k) then v else s k'.
Definition bump (s : Stats) (k : Stat) (n : Z) : Stats := set_stat s k (u64 (s k + n)).

(** ** The buffer *)

Record SequenceIterator := mkIter {
  seq_begin : option Key;
  seq_end : option Key;
  cur : option Key;
  wrapping_id : Z
}.

Record TraceBuffer := mkTB {
  data_ : list Z;
  size_ : Z;
  used_size_ : Z;
  max_chunk_size_ : Z;
  wptr_ : Z;
  index_ : ChunkMap;
  read_iter_ : SequenceIterator;
  overwrite_policy_ : OverwritePolicy;
  read_only_ : bool;
  discard_writes_ : bool;
  last_chunk_id_written_ : gmap (Z * Z) Z;
  stats_ : Stats;
  writer_stats_ : gmap Z Histogram;
  has_data_ : bool;
  dchecks_held_ : bool   (** not of the class: see [dcheck] *)
}.

Definition with_data (b : TraceBuffer) (d : list Z) : TraceBuffer :=
  mkTB d (size_ b) (used_size_ b) (max_chunk_size_ b) (wptr_ b) (index_ b) (read_iter_ b) (overwrite_policy_ b)
    (read_only_ b) (discard_writes_ b) (last_chunk_id_written_ b) (stats_ b) (writer_stats_ b) (has_data_ b) (dchecks_held_ b).
Definition with_used (b : TraceBuffer) (u : Z) : TraceBuffer :=
  mkTB (data_ b) (size_ b) u (max_chunk_size_ b) (wptr_ b) (index_ b) (read_iter_ b) (overwrite_policy_ b)
    (read_only_ b) (discard_writes_ b) (last_chunk_id_written_ b) (stats_ b) (writer_stats_ b) (has_data_ b) (dchecks_held_ b).
Definition with_wptr (b : TraceBuffer) (w : Z) : TraceBuffer :=
  mkTB (data_ b) (size_ b) (used_size_ b) (max_chunk_size_ b) w (index_ b) (read_iter_ b) (overwrite_policy_ b)
    (read_only_ b) (discard_writes_ b) (last_chunk_id_written_ b) (stats_ b) (writer_stats_ b) (has_data_ b) (dchecks_held_ b).
Definition with_index (b : TraceBuffer) (i : ChunkMap) : TraceBuffer :=
  mkTB (data_ b) (size_ b) (used_size_ b) (max_chunk_size_ b) (wptr_ b) i (read_iter_ b) (overwrite_policy_ b)
    (read_only_ b) (discard_writes_ b) (last_chunk_id_written_ b) (stats_ b) (writer_stats_ b) (has_data_ b) (dchecks_held_ b).
Definition with_iter (b : TraceBuffer) (i : SequenceIterator) : TraceBuffer :=
  mkTB (data_ b) (size_ b) (used_size_ b) (max_chunk_size_ b) (wptr_ b) (index_ b) i (overwrite_policy_ b)
    (read_only_ b) (discard_writes_ b) (last_chunk_id_written_ b) (stats_ b) (writer_stats_ b) (has_data_ b) (dchecks_held_ b).
Definition with_discard (b : TraceBuffer) (d : bool) : TraceBuffer :=
  mkTB (data_ b) (size_ b) (used_size_ b) (max_chunk_size_ b) (wptr_ b) (index_ b) (read_iter_ b) (overwrite_policy_ b)
    (read_only_ b) d (last_chunk_id_written_ b) (stats_ b) (writer_stats_ b) (has_data_ b) (dchecks_held_ b).
Definition with_last (b : TraceBuffer) (l : gmap (Z * Z) Z) : TraceBuffer :=
  mkTB (data_ b) (size_ b) (used_size_ b) (max_chunk_size_ b) (wptr_ b) (index_ b) (read_iter_ b) (overwrite_policy_ b)
    (read_only_ b) (discard_writes_ b) l (stats_ b) (writer_stats_ b) (has_data_ b) (dchecks_held_ b).
Definition with_stats (b : TraceBuffer) (s : Stats) : TraceBuffer :=
  mkTB (data_ b) (size_ b) (used_size_ b) (max_chunk_size_ b) (wptr_ b) (index_ b) (read_iter_ b) (overwrite_policy_ b)
    (read_only_ b) (discard_writes_ b) (last_chunk_id_written_ b) s (writer_stats_ b) (has_data_ b) (dchecks_held_ b).
Definition with_wstats (b : TraceBuffer) (w : gmap Z Histogram) : TraceBuffer :=
  mkTB (data_ b) (size_ b) (used_size_ b) (max_chunk_size_ b) (wptr_ b) (index_ b) (read_iter_ b) (overwrite_policy_ b)
    (read_only_ b) (discard_writes_ b) (last_chunk_id_written_ b) (stats_ b) w (has_data_ b) (dchecks_held_ b).
Definition with_has_data (b : TraceBuffer) (h : bool) : TraceBuffer :=
  mkTB (data_ b) (size_ b) (used_size_ b) (max_chunk_size_ b) (wptr_ b) (index_ b) (read_iter_ b) (overwrite_policy_ b)
    (read_only_ b) (discard_writes_ b) (last_chunk_id_written_ b) (stats_ b) (writer_stats_ b) h (dchecks_held_ b).

(** A [DEJAVIEW_DCHECK] that a release build does without and that chunks committed
    out of order can make fail: its outcome is recorded, and execution goes on. *)
Definition dcheck (b : TraceBuffer) (c : bool) : TraceBuffer :=
  mkTB (data_ b) (size_ b) (used_size_ b) (max_chunk_size_ b) (wptr_ b) (index_ b) (read_iter_ b) (overwrite_policy_ b)
    (read_only_ b) (discard_writes_ b) (last_chunk_id_written_ b) (stats_ b) (writer_stats_ b) (has_data_ b)
    (dchecks_held_ b && c).

Definition stat_inc (b : TraceBuffer) (k : Stat) (n : Z) : TraceBuffer := with_stats b (bump (stats_ b) k n).

Definition size_to_end (b : TraceBuffer) : Z := size_ b - wptr_ b.

(** [DcheckIsAlignedAndWithinBounds]. *)
Definition within_bounds (b : TraceBuffer) (off : Z) : bool :=
  (0 <=? off) && (off <=? size_ b - kChunkRecordSize) && (off mod 4 =? 0).

Definition EnsureCommitted (b : TraceBuffer) (size : Z) : option TraceBuffer :=
  if size <=? size_ b then Some (with_used b (Z.max (used_size_ b) size)) else None.

(** The record at an offset (a copy of what the returned pointer points to). *)
Definition GetChunkRecordAt (b : TraceBuffer) (off : Z) : option (ChunkRecord * TraceBuffer) :=
  if within_bounds b off then
    b ← EnsureCommitted b (off + kChunkRecordSize);
    l ← mem_read (data_ b) (Z.to_nat off) 16;
    Some (cr_of_bytes l, b)
  else None.

(** [src] is [None] for a padding record. *)
Definition WriteChunkRecord (b : TraceBuffer) (wptr : Z) (record : ChunkRecord) (src : option (list Z)) (size : Z)
    : option TraceBuffer :=
  if (size <=? kMaxSize) && (kChunkRecordSize <=? cr_size record) && (cr_size record mod kChunkRecordSize =? 0) &&
     (size + kChunkRecordSize <=? cr_size record) && within_bounds b wptr then
    b ← EnsureCommitted b (wptr + cr_size record);
    if wptr + kChunkRecordSize + size <=? size_ b then
      d ← mem_write (data_ b) (Z.to_nat wptr) (cr_bytes record);
      d ← match src with
          | Some s => mem_write d (Z.to_nat (wptr + kChunkRecordSize)) (take (Z.to_nat size) s)
          | None => if size =? cr_size record - kChunkRecordSize then Some d else None
          end;
      let rounding_size := cr_size record - kChunkRecordSize - size in
      d ← mem_write d (Z.to_nat (wptr + kChunkRecordSize + size)) (replicate (Z.to_nat rounding_size) 0);
      Some (with_data b d)
    else None
  else None.

Definition AddPaddingRecord (b : TraceBuffer) (size : Z) : option TraceBuffer :=
  if (kChunkRecordSize <=? size) && (size <=? kMaxSize) then
    record ← ChunkRecord_init size;
    let record := mkChunkRecord (cr_chunk_id record) (cr_producer_id record) (cr_writer_id record)
                    (cr_num_fragments record) (cr_size record) (cr_flags record) 1 in
    b ← WriteChunkRecord b (wptr_ b) record None (size - kChunkRecordSize);
    Some (stat_inc b padding_bytes_written size)
  else None.

Definition DiscardWrite (b : TraceBuffer) : option TraceBuffer :=
  if decide (overwrite_policy_ b = kDiscard) then Some (stat_inc (with_discard b true) chunks_discarded 1) else None.

(** ** DeleteNextChunksFor *)

(** What the scan accumulates. *)
Record DeleteState := mkDel {
  ds_ptr : Z;                    (** [next_chunk_ptr] *)
  ds_delete : list Key;          (** [index_delete] *)
  ds_overwritten : Z;
  ds_bytes : Z;
  ds_padding : Z
}.

Inductive DeleteResult :=
| DelZeroed                      (** reached the untouched part: [return 0] *)
| DelRefused                     (** [return -1] *)
| DelDone (s : DeleteState).

(** The [while] loop; every round moves by at least one record header, so
    [size_ / 16 + 1] rounds are enough. *)
Fixpoint delete_loop (fuel : nat) (b : TraceBuffer) (search_end : Z) (s : DeleteState)
    : option (DeleteResult * TraceBuffer) :=
  if ds_ptr s <? search_end then
    match fuel with
    | O => None
    | S fuel =>
        '(next_chunk, b) ← GetChunkRecordAt b (ds_ptr s);
        if negb (is_valid_record next_chunk) then
          if ds_ptr s =? wptr_ b then Some (DelZeroed, b) else None
        else
          let next s :=
            let ptr := ds_ptr s + cr_size next_chunk in
            if ptr <=? size_ b then
              delete_loop fuel b search_end
                (mkDel ptr (ds_delete s) (ds_overwritten s) (ds_bytes s) (ds_padding s))
            else None in
          if cr_is_padding next_chunk =? 0 then
            let key := key_of_record next_chunk in
            match map_find (index_ b) key with
            | Some meta =>
                if num_fragments_read meta <? num_fragments meta then
                  if decide (overwrite_policy_ b = kDiscard) then Some (DelRefused, b)
                  else next (mkDel (ds_ptr s) (ds_delete s ++ [key]) (u64 (ds_overwritten s + 1))
                               (u64 (ds_bytes s + cr_size next_chunk)) (ds_padding s))
                else next (mkDel (ds_ptr s) (ds_delete s ++ [key]) (ds_overwritten s) (ds_bytes s) (ds_padding s))
            | None => None
            end
          else
            next (mkDel (ds_ptr s) (ds_delete s) (ds_overwritten s) (ds_bytes s)
                    (u64 (ds_padding s + cr_size next_chunk)))
    end
  else Some (DelDone s, b).

(** [-1] as in the code. *)
Definition DeleteNextChunksFor (b : TraceBuffer) (bytes_to_clear : Z) : option (Z * TraceBuffer) :=
  if discard_writes_ b then None
  else
    let search_end := wptr_ b + bytes_to_clear in
    if negb (within_bounds b (wptr_ b)) || (size_ b <? search_end) then None
    else
      '(r, b) ← delete_loop (S (Z.to_nat (size_ b / kChunkRecordSize))) b search_end
                  (mkDel (wptr_ b) [] (stats_ b chunks_overwritten) (stats_ b bytes_overwritten)
                     (stats_ b padding_bytes_cleared));
      match r with
      | DelZeroed => Some (0, b)
      | DelRefused => Some (-1, b)
      | DelDone s =>
          let b := with_index b (foldl map_erase (index_ b) (ds_delete s)) in
          let b := with_stats b
            (set_stat (set_stat (set_stat (stats_ b) chunks_overwritten (ds_overwritten s))
               bytes_overwritten (ds_bytes s)) padding_bytes_cleared (ds_padding s)) in
          if (search_end <=? ds_ptr s) && (ds_ptr s <=? size_ b) then Some (ds_ptr s - search_end, b) else None
      end.

(** ** CopyChunkUntrusted *)

(** The branch for a chunk that is already in the index: [meta] is its entry,
    [record] the new header. *)
Definition OverrideChunk (b : TraceBuffer) (key : Key) (meta : ChunkMeta) (record : ChunkRecord)
    (record_size nfrag chunk_flags : Z) (chunk_complete : bool) (src : list Z) : option TraceBuffer :=
  '(prev, b) ← GetChunkRecordAt b (record_off meta);
  if negb (bool_decide (key_of_record prev = key)) || negb (cr_size prev =? record_size) ||
     (nfrag <? cr_num_fragments prev) || negb (cr_flags prev .& chunk_flags =? cr_flags prev)
  then Some (stat_inc b abi_violations 1)
  else if cr_num_fragments prev =? nfrag then Some b
  else
    let subsequent_key := mkKey (producer_id key) (writer_id key) (u32 (chunk_id key + 1)) in
    let already_read :=
      match map_find (index_ b) subsequent_key with
      | Some m => 0 <? num_fragments_read m
      | None => false
      end in
    if already_read then Some (stat_inc b abi_violations 1)
    else if cr_num_fragments prev <? num_fragments_read meta then Some b
    else
      let meta := set_complete (set_flags (set_num_fragments meta nfrag) chunk_flags) chunk_complete in
      let b := with_index b (map_update (index_ b) key meta) in
      b ← WriteChunkRecord b (record_off meta) record (Some src) (Z.of_nat (length src));
      Some (stat_inc b chunks_rewritten 1).

(** After the new record is written: move [wptr_] past it, note the chunk id, and
    turn what is left of the last deleted record into padding. *)
Definition AdvanceWptr (b : TraceBuffer) (key : Key) (record_size padding_size : Z) : option TraceBuffer :=
  let b := with_wptr b (wptr_ b + record_size) in
  b ← (if size_ b <=? wptr_ b then
         if padding_size =? 0 then Some (stat_inc (with_wptr b 0) write_wrap_count 1) else None
       else Some b);
  if within_bounds b (wptr_ b) then
    let pw := (producer_id key, writer_id key) in
    let last_chunk_id := default 0 (last_chunk_id_written_ b !! pw) in
    let b :=
      if u32 (chunk_id key - last_chunk_id) <? kMaxChunkID / 2 then
        with_last b (<[pw := chunk_id key]> (last_chunk_id_written_ b))
      else
        stat_inc (with_last b (<[pw := last_chunk_id]> (last_chunk_id_written_ b)))
          chunks_committed_out_of_order 1 in
    if padding_size =? 0 then Some b else AddPaddingRecord b padding_size
  else None.

(** From "Now first insert the new chunk" on, with the padding left to add. *)
Definition InsertChunk (b : TraceBuffer) (key : Key) (record : ChunkRecord)
    (record_size nfrag chunk_flags : Z) (chunk_complete : bool) (ci : ClientIdentity) (src : list Z)
    (padding_size : Z) : option TraceBuffer :=
  let b := stat_inc (stat_inc b chunks_written 1) bytes_written record_size in
  '(_, b) ← GetChunkRecordAt b (wptr_ b);
  let chunk_off := u32 (wptr_ b) in
  if bool_decide (is_Some (map_find (index_ b) key)) then None
  else
    let b := with_index b (map_emplace (index_ b) key (ChunkMeta_init chunk_off nfrag chunk_complete chunk_flags ci)) in
    b ← WriteChunkRecord b (wptr_ b) record (Some src) (Z.of_nat (length src));
    AdvanceWptr b key record_size padding_size.

(** When the chunk does not fit before the end: clear up to there, pad it and
    wrap. [true] when [kDiscard] forbids it. *)
Definition WrapForChunk (b : TraceBuffer) (record_size : Z) : option (bool * TraceBuffer) :=
  let cached_size_to_end := size_to_end b in
  if cached_size_to_end <? record_size then
    '(res, b) ← DeleteNextChunksFor b cached_size_to_end;
    if res =? -1 then Some (true, b)
    else if cached_size_to_end <? res then None
    else
      b ← AddPaddingRecord b cached_size_to_end;
      let b := stat_inc (with_wptr b 0) write_wrap_count 1 in
      if size_to_end b <? record_size then None else Some (false, b)
  else Some (false, b).

(** A fresh chunk: wrap if needed, clear the way, insert. *)
Definition CopyNewChunk (b : TraceBuffer) (key : Key) (record : ChunkRecord)
    (record_size nfrag chunk_flags : Z) (chunk_complete : bool) (ci : ClientIdentity) (src : list Z)
    : option TraceBuffer :=
  if discard_writes_ b then DiscardWrite b
  else
    '(refused, b) ← WrapForChunk b record_size;
    if (refused : bool) then DiscardWrite b
    else
      '(del_res, b) ← DeleteNextChunksFor b record_size;
      if del_res =? -1 then DiscardWrite b
      else InsertChunk b key record record_size nfrag chunk_flags chunk_complete ci src del_res.

(** The last packet of an incomplete chunk is disregarded, with the flags that
    only concern it. *)
Definition DisregardLast (nfrag chunk_flags : Z) (chunk_complete : bool) : Z * Z :=
  if negb chunk_complete && (0 <? nfrag) then
    (nfrag - 1, (chunk_flags .& u8 (Z.lnot kLastPacketContinuesOnNextChunk)) .& u8 (Z.lnot kChunkNeedsPatching))
  else (nfrag, chunk_flags).

Definition CopyChunkUntrusted (b : TraceBuffer) (producer : Z) (ci : ClientIdentity) (writer chunk : Z)
    (nfrag chunk_flags : Z) (chunk_complete : bool) (src : list Z) : option TraceBuffer :=
  if read_only_ b then None
  else
    let record_size := AlignUp kChunkRecordSize (u64 (Z.of_nat (length src) + kChunkRecordSize)) in
    if max_chunk_size_ b <? record_size then Some (stat_inc b abi_violations 1)
    else
      let b := with_has_data b true in
      let '(nfrag, chunk_flags) := DisregardLast nfrag chunk_flags chunk_complete in
      record ← ChunkRecord_init record_size;
      let record := mkChunkRecord chunk producer writer nfrag (cr_size record)
                      (chunk_flags .& kFlagsBitMask) (cr_is_padding record) in
      let key := key_of_record record in
      match map_find (index_ b) key with
      | Some meta => OverrideChunk b key meta record record_size nfrag chunk_flags chunk_complete src
      | None => CopyNewChunk b key record record_size nfrag chunk_flags chunk_complete ci src
      end.

(** ** TryPatchChunkContents *)

Record Patch := mkPatch { offset_untrusted : Z; patch_data : list Z }.
Definition kPatchSize : Z := 4.

(** The loop over the patches of a chunk at [chunk_begin .. chunk_end]; [false]
    when one is out of its bounds. Offsets are 64-bit; the pointer sum wraps. *)
Fixpoint apply_patches (d : list Z) (chunk_begin chunk_end : Z) (patches : list Patch) : option (list Z * bool) :=
  match patches with
  | [] => Some (d, true)
  | p :: patches =>
      let ptr := s64 (chunk_begin + kChunkRecordSize + offset_untrusted p) in
      if (ptr <? chunk_begin + kChunkRecordSize) || (chunk_end - kPatchSize <? ptr) then Some (d, false)
      else
        d ← mem_write d (Z.to_nat ptr) (patch_data p);
        apply_patches d chunk_begin chunk_end patches
  end.

Definition TryPatchChunkContents (b : TraceBuffer) (producer writer chunk : Z) (patches : list Patch)
    (other_patches_pending : bool) : option (bool * TraceBuffer) :=
  if read_only_ b then None
  else
    let key := mkKey producer writer chunk in
    match map_find (index_ b) key with
    | None => Some (false, stat_inc b patches_failed 1)
    | Some chunk_meta =>
        '(chunk_record, b) ← GetChunkRecordAt b (record_off chunk_meta);
        if negb (bool_decide (key_of_record chunk_record = key)) then None
        else
          let chunk_begin := record_off chunk_meta in
          let chunk_end := chunk_begin + cr_size chunk_record in
          if size_ b <? chunk_end then None
          else
            '(d, ok) ← apply_patches (data_ b) chunk_begin chunk_end patches;
            let b := with_data b d in
            if negb ok then Some (false, stat_inc b patches_failed 1)
            else
              let b := stat_inc b patches_succeeded (Z.of_nat (length patches)) in
              if other_patches_pending then Some (true, b)
              else
                let fl := flags chunk_meta .& u8 (Z.lnot kChunkNeedsPatching) in
                let b := with_index b (map_update (index_ b) key (set_flags chunk_meta fl)) in
                (* [chunk_record->flags = ...]: the low 6 bits of the octet after the size *)
                old ← data_ b !! Z.to_nat (chunk_begin + 12);
                d ← mem_write (data_ b) (Z.to_nat (chunk_begin + 12)) [(old .& 0xc0) .| (fl .& kFlagsBitMask)];
                Some (true, with_data b d)
    end.

(** ** Initialisation and cloning *)

Definition iter_end : SequenceIterator := mkIter None None None 0.

(** [Initialize]; pages are zeroed. Allocation failure is not modelled. *)
Definition Initialize (pol : OverwritePolicy) (size : Z) : option TraceBuffer :=
  if size <=? 2 ^ 32 - 1 then
    Some (mkTB (replicate (Z.to_nat size) 0) size 0 (Z.min size kMaxSize) 0 [] iter_end pol false false ∅
            (set_stat (fun _ => 0) buffer_size size) ∅ false true)
  else None.

Definition Create (size_in_bytes : Z) (pol : OverwritePolicy) : option TraceBuffer := Initialize pol size_in_bytes.

(** The copying constructor behind [CloneReadOnly]. *)
Definition CloneReadOnly (src : TraceBuffer) : option TraceBuffer :=
  b ← Initialize (overwrite_policy_ src) (size_ src);
  b ← EnsureCommitted b (used_size_ src);
  d ← mem_read (data_ src) 0 (Z.to_nat (used_size_ src));
  d ← mem_write (data_ b) 0 d;
  let st := set_stat (set_stat (set_stat (set_stat (stats_ src) bytes_read 0) chunks_read 0)
              readaheads_failed 0) readaheads_succeeded 0 in
  let reset (e : Key * ChunkMeta) := (fst e, set_last_read_packet_skipped (set_read_state (snd e) 0 0) false) in
  Some (mkTB d (size_ b) (used_size_ b) (max_chunk_size_ b) (wptr_ b) (reset <$> index_ src) iter_end
          (overwrite_policy_ b) true (discard_writes_ src) (last_chunk_id_written_ src) st (writer_stats_ b)
          (has_data_ b) true).

Definition set_read_only (b : TraceBuffer) : TraceBuffer :=
  mkTB (data_ b) (size_ b) (used_size_ b) (max_chunk_size_ b) (wptr_ b) (index_ b) (read_iter_ b) (overwrite_policy_ b)
    true (discard_writes_ b) (last_chunk_id_written_ b) (stats_ b) (writer_stats_ b) (has_data_ b) (dchecks_held_ b).

(** ** Layout of the buffer *)

(** A record as it lies in memory: header and payload. *)
Record rec := mkRec { r_hdr : ChunkRecord; r_payload : list Z }.

Definition rec_bytes (r : rec) : list Z := cr_bytes (r_hdr r) ++ r_payload r.
Definition rsize (r : rec) : Z := cr_size (r_hdr r).
Definition layout (l : list rec) : list Z := l ≫= rec_bytes.

Definition hdr_ok (h : ChunkRecord) : Prop :=
  is_u32 (cr_chunk_id h) /\ is_u16 (cr_producer_id h) /\ is_u16 (cr_writer_id h) /\ is_u16 (cr_num_fragments h) /\
  is_u16 (cr_size h) /\ 0 <= cr_flags h < 64 /\ 0 <= cr_is_padding h < 2.

Definition rec_ok (r : rec) : Prop :=
  hdr_ok (r_hdr r) /\ kChunkRecordSize <= rsize r /\ rsize r mod kChunkRecordSize = 0 /\
  Z.of_nat (length (r_payload r)) = rsize r - kChunkRecordSize.

Definition is_padding (r : rec) : bool := negb (cr_is_padding (r_hdr r) =? 0).

Lemma length_cr_bytes h : length (cr_bytes h) = 16%nat.
Proof. reflexivity. Qed.

Lemma length_rec_bytes r : rec_ok r -> Z.of_nat (length (rec_bytes r)) = rsize r.
Proof.
  intros (_ & H1 & _ & H2). unfold rec_bytes. rewrite length_app, length_cr_bytes. unfold kChunkRecordSize in *. lia.
Qed.

Lemma flags_byte f p :
  0 <= f < 64 -> 0 <= p < 2 ->
  u8 (f .| (p << 6)) .& kFlagsBitMask = f /\ (u8 (f .| (p << 6)) >> 6) .& 1 = p.
Proof.
  intros Hf Hp. rewrite lor_shiftl_add by lia. change (2 ^ 6) with 64. rewrite u8_id by (unfold is_u8; lia).
  change kFlagsBitMask with (Z.ones 6). rewrite Z.land_ones by lia. change 1 with (Z.ones 1) at 1.
  rewrite Z.land_ones, shiftr_div by lia. change (2 ^ 6) with 64. change (2 ^ 1) with 2.
  split; Z.div_mod_to_equations; lia.
Qed.

(** What was stored is what a later cast reads. *)
Lemma cr_of_bytes_cr_bytes h t : hdr_ok h -> cr_of_bytes (cr_bytes h ++ t) = h.
Proof.
  intros (H1 & H2 & H3 & H4 & H5 & H6 & H7). destruct h as [c p w n s f pd]. cbn [cr_chunk_id cr_producer_id
    cr_writer_id cr_num_fragments cr_size cr_flags cr_is_padding] in *.
  destruct (flags_byte f pd H6 H7) as [Ef Ep].
  transitivity (mkChunkRecord (le_val (le_bytes 4 c)) (le_val (le_bytes 2 p)) (le_val (le_bytes 2 w))
    (le_val (le_bytes 2 n)) (le_val (le_bytes 2 s)) (u8 (f .| (pd << 6)) .& kFlagsBitMask)
    ((u8 (f .| (pd << 6)) >> 6) .& 1)); [reflexivity|].
  unfold is_u32, is_u16 in *. rewrite !le_val_bytes by lia. rewrite Ef, Ep.
  change (8 * Z.of_nat 4) with 32. change (8 * Z.of_nat 2) with 16. by rewrite !Z.mod_small by lia.
Qed.

Lemma cr_of_zeros t : is_valid_record (cr_of_bytes (replicate 16 0 ++ t)) = false.
Proof. reflexivity. Qed.

Lemma layout_app a b : layout (a ++ b) = layout a ++ layout b.
Proof. apply bind_app. Qed.

Lemma layout_cons r l : layout (r :: l) = rec_bytes r ++ layout l.
Proof. done. Qed.

Definition lsize (l : list rec) : Z := Z.of_nat (length (layout l)).

Lemma lsize_app a b : lsize (a ++ b) = lsize a + lsize b.
Proof. unfold lsize. rewrite layout_app, length_app. lia. Qed.

Lemma lsize_cons r l : rec_ok r -> lsize (r :: l) = rsize r + lsize l.
Proof. intros Hr. unfold lsize. rewrite layout_cons, length_app, <- (length_rec_bytes r Hr). lia. Qed.

Lemma lsize_nonneg l : 0 <= lsize l.
Proof. unfold lsize. lia. Qed.

Lemma lsize_mod l : Forall rec_ok l -> lsize l mod 16 = 0.
Proof.
  intros Hl. induction Hl as [|r l Hr _ IH]; [done|]. rewrite lsize_cons by done.
  destruct Hr as (_ & _ & Hr & _). unfold kChunkRecordSize in Hr. rewrite Zplus_mod, Hr, IH. done.
Qed.

(** ** Reading a header at a record boundary *)

Lemma mem_read_at (a x t : list Z) n :
  length x = n -> mem_read (a ++ x ++ t) (length a) n = Some x.
Proof.
  intros E. rewrite mem_read_some by (rewrite !length_app; lia). by rewrite drop_app_len, take_app_length' by done.
Qed.

Lemma GetChunkRecordAt_rec b a r t :
  data_ b = a ++ rec_bytes r ++ t -> rec_ok r -> size_ b = Z.of_nat (length (data_ b)) ->
  Z.of_nat (length a) mod 16 = 0 ->
  GetChunkRecordAt b (Z.of_nat (length a)) =
    Some (r_hdr r, with_used b (Z.max (used_size_ b) (Z.of_nat (length a) + 16))).
Proof.
  intros Hd Hr Hs Hm. pose proof (length_rec_bytes r Hr) as Hl. destruct Hr as (Hh & Hsz & _ & _).
  assert (Hle : Z.of_nat (length a) + 16 <= size_ b).
  { rewrite Hs, Hd, !length_app. unfold kChunkRecordSize in Hsz. lia. }
  unfold GetChunkRecordAt, within_bounds, EnsureCommitted, kChunkRecordSize.
  rewrite (proj2 (Z.leb_le 0 _)), (proj2 (Z.leb_le (Z.of_nat (length a)) _)), (proj2 (Z.leb_le (_ + 16) _)) by lia.
  rewrite (proj2 (Z.eqb_eq _ _)) by (Z.div_mod_to_equations; lia). cbn [andb mbind option_bind data_ with_used].
  rewrite Hd, Nat2Z.id. unfold rec_bytes. rewrite <- app_assoc.
  rewrite (mem_read_at a (cr_bytes (r_hdr r)) _ 16) by done. cbn [mbind option_bind].
  rewrite <- (app_nil_r (cr_bytes _)), cr_of_bytes_cr_bytes by done. done.
Qed.

Lemma GetChunkRecordAt_zero b a z t :
  data_ b = a ++ replicate z 0 ++ t -> (16 <= z)%nat -> size_ b = Z.of_nat (length (data_ b)) ->
  Z.of_nat (length a) mod 16 = 0 ->
  exists r, is_valid_record r = false /\ GetChunkRecordAt b (Z.of_nat (length a)) =
    Some (r, with_used b (Z.max (used_size_ b) (Z.of_nat (length a) + 16))).
Proof.
  intros Hd Hz Hs Hm.
  assert (Hle : Z.of_nat (length a) + 16 <= size_ b) by (rewrite Hs, Hd, !length_app, length_replicate; lia).
  unfold GetChunkRecordAt, within_bounds, EnsureCommitted, kChunkRecordSize.
  rewrite (proj2 (Z.leb_le 0 _)), (proj2 (Z.leb_le (Z.of_nat (length a)) _)), (proj2 (Z.leb_le (_ + 16) _)) by lia.
  rewrite (proj2 (Z.eqb_eq _ _)) by (Z.div_mod_to_equations; lia). cbn [andb mbind option_bind data_ with_used].
  rewrite Hd, Nat2Z.id. replace z with (16 + (z - 16))%nat by lia. rewrite replicate_add, <- app_assoc.
  rewrite (mem_read_at a (replicate 16 0) _ 16) by done. cbn [mbind option_bind].
  eexists; split; [|reflexivity]. done.
Qed.

(** ** The index as a sorted map *)

Definition key_lt (a b : Key) : Prop := key_ltb a b = true.

Lemma key_ltb_spec a b :
  key_ltb a b = true <->
  producer_id a < producer_id b \/
  (producer_id a = producer_id b /\ (writer_id a < writer_id b \/
    (writer_id a = writer_id b /\ chunk_id a < chunk_id b))).
Proof. unfold key_ltb. lia. Qed.

Lemma key_eq_iff (a b : Key) :
  a = b <-> producer_id a = producer_id b /\ writer_id a = writer_id b /\ chunk_id a = chunk_id b.
Proof. destruct a, b; cbn. split; [by intros [= -> -> ->]|]. by intros (-> & -> & ->). Qed.

Lemma key_lt_irrefl a : ~ key_lt a a.
Proof. unfold key_lt. rewrite key_ltb_spec. lia. Qed.
Lemma key_lt_trans a b c : key_lt a b -> key_lt b c -> key_lt a c.
Proof. unfold key_lt. rewrite !key_ltb_spec. lia. Qed.
Lemma key_lt_total a b : key_lt a b \/ a = b \/ key_lt b a.
Proof. unfold key_lt. rewrite !key_ltb_spec, key_eq_iff. lia. Qed.
Lemma key_lt_ne a b : key_lt a b -> a <> b.
Proof. intros H ->. by apply key_lt_irrefl in H. Qed.

Definition sorted (m : ChunkMap) : Prop := StronglySorted (fun a b => key_lt (fst a) (fst b)) m.

Lemma find_lt_None m k : Forall (fun e => key_lt k (fst e)) m -> map_find m k = None.
Proof.
  intros H. induction H as [|[k' v] m Hk _ IH]; [done|]. cbn. rewrite decide_False; [done|].
  intros ->. by apply key_lt_irrefl in Hk.
Qed.

Lemma Forall_key_trans k k' (m : ChunkMap) :
  key_lt k k' -> Forall (fun e => key_lt k' (fst e)) m -> Forall (fun e => key_lt k (fst e)) m.
Proof. intros H Hm. eapply Forall_impl; [exact Hm|]. intros e. by apply key_lt_trans. Qed.

Lemma map_find_elem m k v : map_find m k = Some v -> (k, v) ∈ m.
Proof.
  induction m as [|[k' v'] m IH]; [done|]. cbn. case_decide; intros; simplify_eq; [left|right; auto].
Qed.

Lemma map_erase_sub m k e : e ∈ map_erase m k -> e ∈ m.
Proof.
  induction m as [|[k' v'] m IH]; [done|]. cbn. case_decide; [by right|].
  intros [->|He]%elem_of_cons; [by left|right; auto].
Qed.

Lemma find_erase m k k' : sorted m ->
  map_find (map_erase m k) k' = if decide (k = k') then None else map_find m k'.
Proof.
  intros Hs. induction Hs as [|[k1 v1] m Hs IH Hall]; [cbn; by case_decide|]. cbn.
  destruct (decide (k1 = k)) as [->|Hne].
  - destruct (decide (k = k')) as [->|]; [|done]. by apply find_lt_None.
  - cbn. rewrite IH. destruct (decide (k1 = k')) as [->|]; [|done]. by rewrite decide_False by congruence.
Qed.

Lemma sorted_erase m k : sorted m -> sorted (map_erase m k).
Proof.
  intros Hs. induction Hs as [|[k1 v1] m Hs IH Hall]; [constructor|]. cbn. case_decide; [done|].
  constructor; [done|]. apply Forall_forall. intros e He%map_erase_sub. by eapply Forall_forall in Hall.
Qed.

Lemma find_emplace m k v k' : map_find m k = None ->
  map_find (map_emplace m k v) k' = if decide (k = k') then Some v else map_find m k'.
Proof.
  induction m as [|[k1 v1] m IH]; intros Hn; [done|]. cbn in *. destruct (decide (k1 = k)); [done|].
  destruct (key_ltb k k1); cbn; [done|].
  rewrite IH by done. destruct (decide (k1 = k')) as [->|]; [|done]. by rewrite decide_False by congruence.
Qed.

Lemma sorted_emplace m k v : sorted m -> map_find m k = None -> sorted (map_emplace m k v).
Proof.
  intros Hs. induction Hs as [|[k1 v1] m Hs IH Hall]; intros Hn; [repeat constructor|]. cbn in *.
  destruct (decide (k1 = k)) as [|Hne]; [done|].
  destruct (key_ltb k k1) eqn:E.
  - constructor; [by constructor|]. constructor; [done|]. by eapply Forall_key_trans.
  - assert (Hlt : key_lt k1 k) by (destruct (key_lt_total k k1) as [H|[H|H]]; [congruence|congruence|done]).
    constructor; [by apply IH|]. clear IH Hs Hn. induction m as [|[k2 v2] m IHm]; cbn; [by constructor|].
    apply Forall_cons in Hall as [? ?]. destruct (key_ltb k k2); repeat constructor; auto.
Qed.

Lemma find_update m k v k' :
  map_find (map_update m k v) k' = if decide (k = k') then (if map_find m k then Some v else None) else map_find m k'.
Proof.
  induction m as [|[k1 v1] m IH]; [cbn; by case_decide|]. cbn. destruct (decide (k1 = k)) as [->|Hne]; cbn.
  - destruct (decide (k = k')) as [->|]; [done|done].
  - rewrite IH. destruct (decide (k1 = k')) as [->|]; [|done]. by rewrite decide_False by congruence.
Qed.

Lemma update_keys m k v : fst <$> map_update m k v = fst <$> m.
Proof. induction m as [|[k1 v1] m IH]; [done|]. cbn. case_decide; cbn; [done|]. by rewrite IH. Qed.

Lemma sorted_keys m : sorted m <-> StronglySorted key_lt (fst <$> m).
Proof.
  induction m as [|[k v] m IH]; cbn; [split; constructor|].
  split; intros H; inversion_clear H as [|?? H1 H2].
  - constructor; [by apply IH|]. apply Forall_forall. intros x (y & -> & Hy)%list_elem_of_fmap.
    rewrite Forall_forall in H2. by apply (H2 y).
  - constructor; [by apply IH|]. apply Forall_forall. intros y Hy. rewrite Forall_forall in H2.
    apply (H2 (fst y)). by apply list_elem_of_fmap_2.
Qed.

Lemma sorted_update m k v : sorted m -> sorted (map_update m k v).
Proof. rewrite !sorted_keys. by rewrite update_keys. Qed.

(** ** The invariant *)

(** Keys and places of the chunks of a layout that starts at [off]; padding
    records are not indexed. *)
Fixpoint entries (off : Z) (l : list rec) : list (Key * (Z * ChunkRecord)) :=
  match l with
  | [] => []
  | r :: l =>
      (if is_padding r then [] else [(key_of_record (r_hdr r), (off, r_hdr r))]) ++ entries (off + rsize r) l
  end.

(** The index entry describes the stored header. *)
Definition meta_ok (m : ChunkMeta) (h : ChunkRecord) : Prop :=
  num_fragments m = cr_num_fragments h /\ flags m .& kFlagsBitMask = cr_flags h /\
  is_u16 (num_fragments_read m) /\ is_u16 (cur_fragment_offset m).

(** Every sequence with chunks has its last chunk id on record. *)
Definition last_covers (last : gmap (Z * Z) Z) (idx : ChunkMap) : Prop :=
  (forall k m, map_find idx k = Some m -> is_Some (last !! (producer_id k, writer_id k))) /\
  (forall pw c, last !! pw = Some c -> is_u32 c).

Record index_ok (idx : ChunkMap) (es : list (Key * (Z * ChunkRecord))) : Prop := {
  ix_sorted : sorted idx;
  ix_nodup : NoDup (fst <$> es);
  ix_found k m : map_find idx k = Some m -> exists h, (k, (record_off m, h)) ∈ es /\ meta_ok m h;
  ix_all k o h : (k, (o, h)) ∈ es -> is_Some (map_find idx k)
}.

(** [pre] lies before [wptr_], [post] from it on, followed by [z] octets never
    written; these exist only until the first wrap, right at [wptr_]. *)
Record lay (d : list Z) (size wptr : Z) (pre post : list rec) (z : nat) : Prop := {
  ly_data : d = layout pre ++ layout post ++ replicate z 0;
  ly_size : size = Z.of_nat (length d);
  ly_wptr : wptr = lsize pre;
  ly_zero : post = [] \/ z = 0%nat;
  ly_pre : Forall rec_ok pre;
  ly_post : Forall rec_ok post
}.

Record tb_inv (b : TraceBuffer) (pre post : list rec) (z : nat) : Prop := {
  tb_lay : lay (data_ b) (size_ b) (wptr_ b) pre post z;
  tb_mod : size_ b mod 16 = 0;
  tb_size : 16 <= size_ b <= 2 ^ 32 - 1;
  tb_max : max_chunk_size_ b = Z.min (size_ b) kMaxSize;
  tb_used : size_ b - Z.of_nat z <= used_size_ b <= size_ b;
  tb_wlt : wptr_ b < size_ b;
  tb_disc : discard_writes_ b = true -> overwrite_policy_ b = kDiscard;
  tb_last : last_covers (last_chunk_id_written_ b) (index_ b);
  tb_index : index_ok (index_ b) (entries 0 (pre ++ post))
}.

Lemma entries_app off a b : Forall rec_ok a -> entries off (a ++ b) = entries off a ++ entries (off + lsize a) b.
Proof.
  intros Ha. revert off; induction Ha as [|r a Hr _ IH]; intros off; cbn [app entries].
  - cbn. by rewrite Z.add_0_r.
  - rewrite IH, lsize_cons by done. rewrite <- app_assoc. do 3 f_equal. lia.
Qed.

Definition keys_of (l : list rec) : list Key := fst <$> entries 0 l.

Lemma entries_keys off off' l : fst <$> entries off l = fst <$> entries off' l.
Proof.
  revert off off'; induction l as [|r l IH]; intros off off'; [done|]. cbn [entries]. rewrite !fmap_app.
  f_equal; [by destruct (is_padding r)|]. apply IH.
Qed.

(** ** Deleting *)

Lemma with_used_idem b u v : with_used (with_used b u) v = with_used b v.
Proof. done. Qed.

(** All packets of the chunk were read. *)
Definition drained (idx : ChunkMap) (k : Key) : Prop :=
  exists m, map_find idx k = Some m /\ num_fragments m <= num_fragments_read m.

(** Under [kDiscard] only drained chunks may go. *)
Definition deletable (b : TraceBuffer) (ks : list Key) : Prop :=
  overwrite_policy_ b = kDiscard -> Forall (drained (index_ b)) ks.

(** The scan over the records [l] of a buffer with no untouched part. *)
Lemma delete_loop_scan l : forall fuel b a search_end s,
  data_ b = a ++ layout l -> size_ b = Z.of_nat (length (data_ b)) -> Forall rec_ok l ->
  Z.of_nat (length a) mod 16 = 0 -> ds_ptr s = Z.of_nat (length a) -> search_end <= size_ b ->
  0 <= used_size_ b <= size_ b -> (length l < fuel)%nat ->
  (forall k o h, (k, (o, h)) ∈ entries (Z.of_nat (length a)) l -> is_Some (map_find (index_ b) k)) ->
  exists u res, used_size_ b <= u <= size_ b /\ delete_loop fuel b search_end s = Some (res, with_used b u) /\
    match res with
    | DelZeroed => False
    | DelRefused => overwrite_policy_ b = kDiscard
    | DelDone s' =>
        exists del rest, l = del ++ rest /\ ds_ptr s' = ds_ptr s + lsize del /\
          ds_delete s' = ds_delete s ++ keys_of del /\
          search_end <= ds_ptr s' /\ (ds_ptr s' = ds_ptr s \/ ds_ptr s' - search_end < kMaxSize) /\
          deletable b (keys_of del)
    end.
Proof.
  induction l as [|r l IH]; intros fuel b a search_end s Hd Hs Hok Hm Hp Hse Hu Hf Hix.
  - cbn in Hd. rewrite app_nil_r in Hd. exists (used_size_ b), (DelDone s).
    assert (search_end <= ds_ptr s) by (rewrite Hp; rewrite Hs, Hd in Hse; done).
    split_and!; try lia.
    + destruct fuel; cbn [delete_loop]; rewrite (proj2 (Z.ltb_ge _ _)) by lia; by destruct b.
    + exists [], []. cbn. rewrite Z.add_0_r, app_nil_r. split_and!; try done; [by left|]. by intros _.
  - destruct fuel as [|fuel]; [lia|]. cbn [length] in Hf. cbn [delete_loop].
    destruct (Z.ltb_spec (ds_ptr s) search_end) as [Hlt|Hge].
    2: { exists (used_size_ b), (DelDone s). split_and!; try lia; [by destruct b|].
         exists [], (r :: l). cbn. rewrite Z.add_0_r, app_nil_r. split_and!; try done; [by left|]. by intros _. }
    apply Forall_cons in Hok as [Hr Hl]. rewrite Hp.
    rewrite (GetChunkRecordAt_rec b a r (layout l)) by done. cbn [mbind option_bind].
    set (u1 := Z.max _ _). pose proof (length_rec_bytes r Hr) as Hrl. pose proof Hr as (Hh & Hr1 & Hr2 & Hr3).
    unfold is_valid_record. change (cr_size (r_hdr r)) with (rsize r).
    rewrite (proj2 (Z.eqb_neq (rsize r) 0)) by (unfold kChunkRecordSize in Hr1; lia). cbn [negb].
    assert (Hsz : Z.of_nat (length a) + rsize r + lsize l = size_ b).
    { rewrite Hs, Hd, layout_cons, !length_app. unfold lsize. lia. }
    pose proof (lsize_nonneg l) as Hl0.
    assert (Hu1 : used_size_ b <= u1 <= size_ b) by (unfold u1; unfold kChunkRecordSize in Hr1; lia).
    assert (Hgo : forall s1, ds_ptr s1 = Z.of_nat (length a) ->
      ds_delete s1 = ds_delete s ++ keys_of [r] -> deletable b (keys_of [r]) ->
      exists u res, used_size_ b <= u <= size_ b /\
       (if ds_ptr s1 + rsize r <=? size_ (with_used b u1) then
          delete_loop fuel (with_used b u1) search_end
            (mkDel (ds_ptr s1 + rsize r) (ds_delete s1) (ds_overwritten s1) (ds_bytes s1) (ds_padding s1))
        else None) = Some (res, with_used b u) /\
       match res with
       | DelZeroed => False
       | DelRefused => overwrite_policy_ b = kDiscard
       | DelDone s' =>
           exists del rest, r :: l = del ++ rest /\ ds_ptr s' = Z.of_nat (length a) + lsize del /\
             ds_delete s' = ds_delete s ++ keys_of del /\
             search_end <= ds_ptr s' /\ (ds_ptr s' = Z.of_nat (length a) \/ ds_ptr s' - search_end < kMaxSize) /\
             deletable b (keys_of del)
       end).
    { intros s1 Hs1 Hdel Hdr. cbn [with_used size_]. rewrite (proj2 (Z.leb_le _ _)) by lia.
      destruct (IH fuel (with_used b u1) (a ++ rec_bytes r) search_end
        (mkDel (ds_ptr s1 + rsize r) (ds_delete s1) (ds_overwritten s1) (ds_bytes s1) (ds_padding s1)))
        as (u & res & Hu' & E & Hres); cbn [with_used data_ size_ used_size_ ds_ptr ds_delete index_]; try done; try lia.
      - by rewrite Hd, layout_cons, <- app_assoc.
      - rewrite length_app, Nat2Z.inj_add, Hrl, Zplus_mod, Hm. unfold kChunkRecordSize in Hr2. by rewrite Hr2.
      - rewrite length_app. lia.
      - intros k o h Hin. apply (Hix k o h). cbn [entries]. apply elem_of_app. right.
        by rewrite length_app, Nat2Z.inj_add, Hrl in Hin.
      - cbn [with_used size_ used_size_ overwrite_policy_] in *. exists u, res. split_and!; [lia|lia|exact E|].
        destruct res as [| |s']; try done. destruct Hres as (del & rest & -> & E1 & E2 & E3 & E4 & E5).
        exists (r :: del), rest. cbn [ds_ptr ds_delete] in *. rewrite E1, E2, Hdel.
        apply Forall_app in Hl as [Hdl _].
        assert (Hks : keys_of (r :: del) = keys_of [r] ++ keys_of del).
        { unfold keys_of. cbn [entries]. rewrite app_nil_r, fmap_app. by rewrite (entries_keys (0 + rsize r) 0 del). }
        split_and!; try done.
        + rewrite lsize_cons by done. lia.
        + by rewrite Hks, app_assoc.
        + by rewrite <- E1.
        + right. rewrite E1 in E4. destruct E4 as [E4|E4]; [|lia].
          assert (lsize del = 0) by lia.
          destruct Hh as (_ & _ & _ & _ & [_ Hszb] & _). unfold rsize, kMaxSize in *. lia.
        + intros Hpol. rewrite Hks. apply Forall_app. split; [by apply Hdr|by apply E5]. }
    destruct (cr_is_padding (r_hdr r) =? 0) eqn:Epad.
    + assert (Hpd : is_padding r = false) by (unfold is_padding; by rewrite Epad).
      assert (Hkr : keys_of [r] = [key_of_record (r_hdr r)]) by (unfold keys_of; cbn [entries]; by rewrite Hpd).
      destruct (Hix (key_of_record (r_hdr r)) (Z.of_nat (length a)) (r_hdr r)) as [m Hfm].
      { cbn [entries]. rewrite Hpd. left. }
      cbn [with_used index_ overwrite_policy_]. rewrite Hfm.
      destruct (Z.ltb_spec (num_fragments_read m) (num_fragments m)) as [Hrd|Hrd].
      * destruct (decide (overwrite_policy_ b = kDiscard)) as [Hpol|Hpol].
        -- exists u1, DelRefused. done.
        -- apply Hgo; cbn [ds_ptr ds_delete]; [done|by rewrite Hkr|]. by intros ?.
      * apply Hgo; cbn [ds_ptr ds_delete]; [done|by rewrite Hkr|]. intros _. rewrite Hkr. apply Forall_singleton. by exists m.
    + assert (Hpd : is_padding r = true) by (unfold is_padding; by rewrite Epad).
      assert (Hkr : keys_of [r] = []) by (unfold keys_of; cbn [entries]; by rewrite Hpd).
      apply Hgo; cbn [ds_ptr ds_delete]; rewrite ?Hkr; [done|by rewrite app_nil_r|by intros _].
Qed.

(** What [DeleteNextChunksFor] and the reads of headers leave alone. *)
Record frame (b b' : TraceBuffer) : Prop := {
  frm_data : data_ b' = data_ b;
  frm_size : size_ b' = size_ b;
  fm_max : max_chunk_size_ b' = max_chunk_size_ b;
  fm_wptr : wptr_ b' = wptr_ b;
  fm_pol : overwrite_policy_ b' = overwrite_policy_ b;
  fm_ro : read_only_ b' = read_only_ b;
  fm_disc : discard_writes_ b' = discard_writes_ b;
  fm_last : last_chunk_id_written_ b' = last_chunk_id_written_ b
}.

Lemma frame_used b u : frame b (with_used b u).
Proof. by split. Qed.

Lemma index_erase idx es1 k x es2 :
  index_ok idx (es1 ++ (k, x) :: es2) -> index_ok (map_erase idx k) (es1 ++ es2).
Proof.
  intros [H1 H2 H3 H4]. rewrite fmap_app, fmap_cons in H2.
  apply NoDup_app in H2 as (N1 & N2 & N3). cbn [fst] in *. apply NoDup_cons in N3 as [N3 N4].
  assert (Hk : forall o h, (k, (o, h)) ∉ es1 ++ es2).
  { intros o h. rewrite elem_of_app. intros [Hin|Hin].
    - apply (N2 k); [|left]. by apply (list_elem_of_fmap_2' fst _ _ _ Hin).
    - apply N3. by apply (list_elem_of_fmap_2' fst _ _ _ Hin). }
  split.
  - by apply sorted_erase.
  - rewrite fmap_app. apply NoDup_app. split_and!; try done. intros y Hy Hy2. apply (N2 y Hy). by right.
  - intros k' m. rewrite find_erase by done. destruct (decide (k = k')) as [|Hne]; [done|]. intros Hf.
    destruct (H3 k' m Hf) as (h & Hin & Hm). exists h. split; [|done]. apply elem_of_app.
    apply elem_of_app in Hin as [Hin|Hin]; [by left|]. apply elem_of_cons in Hin as [[= -> _]|Hin]; [done|by right].
  - intros k' o h Hin. rewrite find_erase by done. destruct (decide (k = k')) as [<-|Hne]; [by apply Hk in Hin|].
    apply (H4 k' o h). apply elem_of_app in Hin as [?|?]; apply elem_of_app; [by left|right; by right].
Qed.

Lemma index_erase_all es : forall idx es1 es2,
  index_ok idx (es1 ++ es ++ es2) -> index_ok (foldl map_erase idx (fst <$> es)) (es1 ++ es2).
Proof.
  induction es as [|[k x] es IH]; intros idx es1 es2 H; [done|]. cbn [fmap list_fmap foldl fst].
  apply IH. by apply (index_erase _ es1 k x).
Qed.

(** The way for [n] octets from [wptr_] on is free: the records [del] are out
    of the index, and [gap] octets are left of the last of them. *)
Definition cleared (b b' : TraceBuffer) (pre del rest : list rec) (z : nat) (n gap : Z) : Prop :=
  frame b b' /\ used_size_ b <= used_size_ b' <= size_ b' /\
  index_ok (index_ b') (entries 0 pre ++ entries (lsize pre + lsize del) rest) /\
  ((0 < z)%nat /\ del = [] /\ rest = [] /\ gap = 0 \/
   z = 0%nat /\ gap = lsize del - n /\ 0 <= gap < kMaxSize) /\
  index_ b' = foldl map_erase (index_ b) (keys_of del) /\ deletable b (keys_of del).

Lemma DeleteNextChunksFor_ok b pre post z n :
  tb_inv b pre post z -> discard_writes_ b = false -> 0 < n -> wptr_ b + n <= size_ b ->
  exists r b', DeleteNextChunksFor b n = Some (r, b') /\
    (r = -1 /\ overwrite_policy_ b = kDiscard /\ frame b b' /\ index_ b' = index_ b /\ used_size_ b <= used_size_ b' <= size_ b' \/
     r <> -1 /\ exists del rest, post = del ++ rest /\ cleared b b' pre del rest z n r).
Proof.
  intros [[L1 L2 L3 L4 L5 L6] Hmod Hsz Hmx Hus Hwl Hds Hla Hix] Hdisc Hn Hfit.
  unfold DeleteNextChunksFor. rewrite Hdisc.
  pose proof (lsize_mod pre L5) as Hpm. pose proof (lsize_nonneg pre) as Hp0.
  assert (Hwb : within_bounds b (wptr_ b) = true).
  { unfold within_bounds, kChunkRecordSize. rewrite L3 in *. apply andb_true_iff. split; [|Z.div_mod_to_equations; lia].
    apply andb_true_iff. split; [lia|]. Z.div_mod_to_equations; lia. }
  rewrite Hwb. cbn [negb orb]. rewrite (proj2 (Z.ltb_ge _ _)) by lia.
  destruct (decide (z = 0%nat)) as [->|Hz].
  - cbn [replicate] in L1. rewrite app_nil_r in L1.
    assert (Hpost : lsize post = size_ b - lsize pre).
    { unfold lsize. rewrite L2, L1, length_app. lia. }
    assert (Hlen : (length post < S (Z.to_nat (size_ b / kChunkRecordSize)))%nat).
    { assert (16 * Z.of_nat (length post) <= lsize post).
      { clear -L6. induction L6 as [|r l Hr _ IH]; [done|]. rewrite lsize_cons by done. cbn [length].
        destruct Hr as (_ & Hr & _). unfold kChunkRecordSize in Hr. lia. }
      unfold kChunkRecordSize. assert (Z.of_nat (length post) <= size_ b / 16) by (apply Z.div_le_lower_bound; lia). lia. }
    edestruct (delete_loop_scan post (S (Z.to_nat (size_ b / kChunkRecordSize))) b (layout pre) (wptr_ b + n)
      (mkDel (wptr_ b) [] (stats_ b chunks_overwritten) (stats_ b bytes_overwritten) (stats_ b padding_bytes_cleared)))
      as (u & res & Hu & -> & Hres); try done.
    { lia. }
    { intros k o h Hin. apply (ix_all _ _ Hix k o h). rewrite entries_app by done. apply elem_of_app. right.
      by rewrite Z.add_0_l. }
    cbn [mbind option_bind]. destruct res as [| |s]; [done| |].
    + eexists _, _. split; [reflexivity|]. left. split_and!; try done; cbn; lia.
    + destruct Hres as (del & rest & -> & E1 & E2 & E3 & E4 & E5). cbn [ds_ptr ds_delete app] in *.
      cbn [with_used with_index with_stats size_ index_ stats_].
      assert (Hle : ds_ptr s <= size_ b).
      { rewrite E1, L3. rewrite lsize_app in Hpost. pose proof (lsize_nonneg rest). lia. }
      rewrite (proj2 (Z.leb_le _ _)), (proj2 (Z.leb_le _ _)) by lia. cbn [andb].
      eexists _, _. split; [reflexivity|]. right. split; [lia|]. exists del, rest. split; [done|].
      split; [by split|]. split; [cbn; lia|]. split.
      * cbn [index_ with_index with_stats with_used]. rewrite E2. unfold keys_of. rewrite (entries_keys 0 (lsize pre) del).
        apply index_erase_all. apply Forall_app in L6 as [Hdl _].
        by rewrite !entries_app, Z.add_0_l in Hix by done.
      * split; [right; split_and!; try done; try lia|]. split; [|done]. cbn. by rewrite E2.
  - destruct L4 as [->|]; [|done]. cbn in L1.
    assert (Hzl : Z.of_nat z = size_ b - lsize pre).
    { unfold lsize. rewrite L2, L1, length_app, length_replicate. lia. }
    assert (Hz16 : (16 <= z)%nat).
    { assert (Z.of_nat z mod 16 = 0) by (rewrite Hzl; Z.div_mod_to_equations; lia). Z.div_mod_to_equations; lia. }
    cbn [delete_loop ds_ptr]. rewrite (proj2 (Z.ltb_lt _ _)) by lia.
    destruct (GetChunkRecordAt_zero b (layout pre) z []) as (r & Hr & E); [by rewrite app_nil_r|done|done|done|].
    change (Z.of_nat (length (layout pre))) with (lsize pre) in E. rewrite <- L3 in E. rewrite E.
    cbn [mbind option_bind]. rewrite Hr. cbn [negb with_used wptr_]. rewrite Z.eqb_refl. cbn [mbind option_bind].
    eexists _, _. split; [reflexivity|]. right. split; [lia|]. exists [], []. split; [done|].
    split; [apply frame_used|]. split; [cbn; lia|]. split.
    + rewrite app_nil_r in Hix. cbn [entries]. by rewrite app_nil_r.
    + split; [left; split_and!; (done || lia)|]. split; [done|]. by intros _.
Qed.

(** ** Writing records *)

Lemma mem_write_mid (a m t x : list Z) :
  (length x <= length m)%nat ->
  mem_write (a ++ m ++ t) (length a) x = Some (a ++ x ++ drop (length x) m ++ t).
Proof.
  intros H. rewrite mem_write_some by (rewrite !length_app; lia). f_equal. unfold buf_write.
  rewrite take_app_len. do 2 f_equal. rewrite <- drop_drop, drop_app_len.
  by rewrite drop_app_le by done.
Qed.

Lemma mem_write_at d off x (a m t : list Z) :
  d = a ++ m ++ t -> off = length a -> (length x <= length m)%nat ->
  mem_write d off x = Some (a ++ x ++ drop (length x) m ++ t).
Proof. intros -> ->. apply mem_write_mid. Qed.

Lemma within_boundsI b (a m t : list Z) :
  data_ b = a ++ m ++ t -> size_ b = Z.of_nat (length (data_ b)) -> (16 <= length m)%nat ->
  Z.of_nat (length a) mod 16 = 0 -> within_bounds b (Z.of_nat (length a)) = true.
Proof.
  intros Hd Hs Hm Ha. unfold within_bounds, kChunkRecordSize. rewrite Hs, Hd, !length_app.
  rewrite (proj2 (Z.leb_le _ _)), (proj2 (Z.leb_le _ _)), (proj2 (Z.eqb_eq _ _)); [done|..]; Z.div_mod_to_equations; lia.
Qed.

(** A chunk of [s] with its header, over the octets [m]. *)
Lemma WriteChunkRecord_src b a m t h s :
  data_ b = a ++ m ++ t -> size_ b = Z.of_nat (length (data_ b)) -> Z.of_nat (length a) mod 16 = 0 ->
  Z.of_nat (length m) = cr_size h -> kChunkRecordSize <= cr_size h <= kMaxSize -> cr_size h mod kChunkRecordSize = 0 ->
  Z.of_nat (length s) + kChunkRecordSize <= cr_size h ->
  WriteChunkRecord b (Z.of_nat (length a)) h (Some s) (Z.of_nat (length s)) =
    Some (with_data (with_used b (Z.max (used_size_ b) (Z.of_nat (length a) + cr_size h)))
      (a ++ rec_bytes (mkRec h (s ++ replicate (Z.to_nat (cr_size h - kChunkRecordSize - Z.of_nat (length s))) 0)) ++ t)).
Proof.
  intros Hd Hs Ha Hm Hsz Hmod Hl. unfold WriteChunkRecord, EnsureCommitted, kMaxSize, kChunkRecordSize in *.
  assert (Hle : Z.of_nat (length a) + cr_size h <= size_ b) by (rewrite Hs, Hd, !length_app; lia).
  rewrite (within_boundsI b a m t) by (done || lia).
  rewrite !(proj2 (Z.leb_le _ _)) by lia. rewrite (proj2 (Z.eqb_eq _ _)) by done. cbn [andb mbind option_bind with_used size_ data_].
  rewrite (proj2 (Z.leb_le _ _)) by lia. rewrite (mem_write_at _ _ _ a m t); [|done|lia|rewrite length_cr_bytes; lia].
  cbn [mbind option_bind]. rewrite length_cr_bytes, Nat2Z.id, take_ge by lia.
  rewrite (mem_write_at _ _ _ (a ++ cr_bytes h) (drop 16 m) t);
    [|by rewrite <- app_assoc|rewrite length_app, length_cr_bytes; lia|rewrite length_drop; lia].
  cbn [mbind option_bind]. rewrite drop_drop.
  rewrite (mem_write_at _ _ _ ((a ++ cr_bytes h) ++ s) (drop (16 + length s) m) t);
    [|by rewrite <- !app_assoc|rewrite !length_app, length_cr_bytes; lia|rewrite length_replicate, length_drop; lia].
  cbn [mbind option_bind]. do 2 f_equal. rewrite length_replicate, drop_drop, (drop_ge m) by lia.
  unfold rec_bytes. cbn [r_hdr r_payload]. by rewrite <- !app_assoc.
Qed.

Lemma WriteChunkRecord_pad b a m t h :
  data_ b = a ++ m ++ t -> size_ b = Z.of_nat (length (data_ b)) -> Z.of_nat (length a) mod 16 = 0 ->
  Z.of_nat (length m) = cr_size h -> kChunkRecordSize <= cr_size h <= kMaxSize -> cr_size h mod kChunkRecordSize = 0 ->
  WriteChunkRecord b (Z.of_nat (length a)) h None (cr_size h - kChunkRecordSize) =
    Some (with_data (with_used b (Z.max (used_size_ b) (Z.of_nat (length a) + cr_size h)))
      (a ++ rec_bytes (mkRec h (drop 16 m)) ++ t)).
Proof.
  intros Hd Hs Ha Hm Hsz Hmod. unfold WriteChunkRecord, EnsureCommitted, kMaxSize, kChunkRecordSize in *.
  assert (Hle : Z.of_nat (length a) + cr_size h <= size_ b) by (rewrite Hs, Hd, !length_app; lia).
  rewrite (within_boundsI b a m t) by (done || lia).
  rewrite !(proj2 (Z.leb_le _ _)) by lia. rewrite (proj2 (Z.eqb_eq (cr_size h mod 16) _)) by done.
  cbn [andb mbind option_bind with_used size_ data_].
  rewrite (proj2 (Z.leb_le _ _)) by lia. rewrite (mem_write_at _ _ _ a m t); [|done|lia|rewrite length_cr_bytes; lia].
  cbn [mbind option_bind]. rewrite Z.eqb_refl. cbn [mbind option_bind].
  replace (cr_size h - 16 - (cr_size h - 16)) with 0 by lia. change (replicate (Z.to_nat 0) 0) with (@nil Z).
  rewrite mem_write_some by (rewrite !length_app, length_drop, length_cr_bytes; cbn [length]; lia).
  cbn [mbind option_bind]. rewrite buf_write_nil. unfold rec_bytes. cbn [r_hdr r_payload].
  rewrite length_cr_bytes. by rewrite <- !app_assoc.
Qed.

Definition pad_hdr (size : Z) : ChunkRecord := mkChunkRecord 0 0 0 0 size 0 1.

Lemma AddPaddingRecord_ok b a m t :
  data_ b = a ++ m ++ t -> size_ b = Z.of_nat (length (data_ b)) -> wptr_ b = Z.of_nat (length a) ->
  Z.of_nat (length a) mod 16 = 0 -> Z.of_nat (length m) mod 16 = 0 -> 16 <= Z.of_nat (length m) <= kMaxSize ->
  let sz := Z.of_nat (length m) in
  AddPaddingRecord b sz =
    Some (stat_inc (with_data (with_used b (Z.max (used_size_ b) (wptr_ b + sz)))
      (a ++ rec_bytes (mkRec (pad_hdr sz) (drop 16 m)) ++ t)) padding_bytes_written sz).
Proof.
  intros Hd Hs Hw Ha Hm Hsz sz. unfold AddPaddingRecord, ChunkRecord_init. unfold kChunkRecordSize, kMaxSize in *.
  fold sz in Hm, Hsz. rewrite !(proj2 (Z.leb_le _ _)), (proj2 (Z.eqb_eq _ _)) by (done || lia). cbn [andb mbind option_bind].
  unfold u16. rewrite (Z.mod_small sz) by lia. rewrite Hw.
  cbn [cr_chunk_id cr_producer_id cr_writer_id cr_num_fragments cr_size cr_flags]. fold (pad_hdr sz).
  pose proof (WriteChunkRecord_pad b a m t (pad_hdr sz) Hd Hs Ha) as E. cbn [pad_hdr cr_size] in E.
  unfold kChunkRecordSize, kMaxSize in E. rewrite E by (done || lia). done.
Qed.

Lemma pad_rec_ok m : Z.of_nat (length m) mod 16 = 0 -> 16 <= Z.of_nat (length m) <= kMaxSize ->
  rec_ok (mkRec (pad_hdr (Z.of_nat (length m))) (drop 16 m)) /\ rsize (mkRec (pad_hdr (Z.of_nat (length m))) (drop 16 m)) = Z.of_nat (length m).
Proof.
  intros Hm Hl. unfold kMaxSize in Hl. split; [|done]. unfold rec_ok, rsize, hdr_ok, kChunkRecordSize. cbn.
  unfold is_u32, is_u16. rewrite length_drop. split_and!; try lia; done.
Qed.

Lemma index_insert idx es1 es2 k m h :
  index_ok idx (es1 ++ es2) -> map_find idx k = None -> meta_ok m h ->
  index_ok (map_emplace idx k m) (es1 ++ (k, (record_off m, h)) :: es2).
Proof.
  intros [H1 H2 H3 H4] Hn Hm.
  assert (Hk : k ∉ fst <$> es1 ++ es2).
  { intros ([k' [o h']] & -> & Hin)%list_elem_of_fmap. destruct (H4 k' o h' Hin) as [? E]. cbn in Hn. congruence. }
  rewrite fmap_app in H2, Hk. rewrite elem_of_app in Hk.
  apply NoDup_app in H2 as (N1 & N2 & N3). split.
  - by apply sorted_emplace.
  - rewrite fmap_app, fmap_cons. apply NoDup_app. split_and!; [done| |].
    + intros x Hx [->|Hx2]%elem_of_cons; [apply Hk; by left|]. by apply (N2 x).
    + apply NoDup_cons. split; [|done]. intros Hx. apply Hk. by right.
  - intros k' m'. rewrite find_emplace by done. destruct (decide (k = k')) as [->|]; intros E; simplify_eq.
    + exists h. split; [|done]. apply elem_of_app. right. left.
    + destruct (H3 k' m' E) as (h' & Hin & ?). exists h'. split; [|done].
      apply elem_of_app in Hin as [?|?]; apply elem_of_app; [by left|right; by right].
  - intros k' o h' Hin. rewrite find_emplace by done. destruct (decide (k = k')); [by eexists|].
    apply (H4 k' o h'). apply elem_of_app. apply elem_of_app in Hin as [?|Hin]; [by left|].
    apply elem_of_cons in Hin as [[= -> _ _]|?]; [done|by right].
Qed.

Lemma find_erase_all ks : forall idx k, sorted idx ->
  sorted (foldl map_erase idx ks) /\
  (map_find (foldl map_erase idx ks) k = if decide (k ∈ ks) then None else map_find idx k).
Proof.
  induction ks as [|k' ks IH]; intros idx k Hs; [done|]. cbn [foldl].
  destruct (IH (map_erase idx k') k (sorted_erase idx k' Hs)) as [H1 ->]. split; [done|].
  rewrite find_erase by done. destruct (decide (k' = k)) as [->|Hne].
  - rewrite (decide_True (P := k ∈ k :: ks)) by left. by case_decide.
  - destruct (decide (k ∈ ks)) as [Hin|Hin]; [rewrite decide_True by (by right)|rewrite decide_False]; try done.
    by intros [?|?]%elem_of_cons.
Qed.

(** The index of [b'] is that of [b] without some chunks, drained ones under [kDiscard]. *)
Record shrunk (b b' : TraceBuffer) : Prop := {
  sk_sub k m : map_find (index_ b') k = Some m -> map_find (index_ b) k = Some m;
  sk_keep k m : overwrite_policy_ b = kDiscard -> map_find (index_ b) k = Some m ->
    num_fragments_read m < num_fragments m -> map_find (index_ b') k = Some m
}.

Lemma shrunk_refl b b' : index_ b' = index_ b -> shrunk b b'.
Proof. intros E. split; rewrite E; done. Qed.

Lemma shrunk_trans b1 b2 b3 :
  overwrite_policy_ b2 = overwrite_policy_ b1 -> shrunk b1 b2 -> shrunk b2 b3 -> shrunk b1 b3.
Proof.
  intros Hp [S1 K1] [S2 K2]. split; [auto|]. intros k m Hd Hf Hr. apply K2; [congruence| |done]. by apply K1.
Qed.

Lemma cleared_shrunk b b' pre del rest z n gap :
  sorted (index_ b) -> cleared b b' pre del rest z n gap -> shrunk b b'.
Proof.
  intros Hs (_ & _ & _ & _ & Hi & Hd). split; intros k m; rewrite Hi;
    destruct (find_erase_all (keys_of del) (index_ b) k Hs) as [_ ->].
  - by case_decide.
  - intros Hp Hf Hr. rewrite decide_False; [done|]. intros Hin. specialize (Hd Hp). rewrite Forall_forall in Hd.
    destruct (Hd k Hin) as (m' & ? & ?). simplify_eq. lia.
Qed.

Lemma last_covers_insert last idx idx' k m x :
  last_covers last idx -> (forall k m, map_find idx' k = Some m -> map_find idx k = Some m) -> map_find idx' k = None ->
  is_u32 (chunk_id k) -> (x = chunk_id k \/ x = default 0 (last !! (producer_id k, writer_id k))) ->
  last_covers (<[(producer_id k, writer_id k) := x]> last) (map_emplace idx' k m).
Proof.
  intros [Hl Hu] Hsub Hn Hk Hx. split.
  - intros k' m'. rewrite find_emplace by done. destruct (decide (k = k')) as [->|]; intros E.
    + rewrite lookup_insert_eq. by eexists.
    + apply Hsub, Hl in E. destruct (decide ((producer_id k, writer_id k) = (producer_id k', writer_id k'))) as [->|].
      * rewrite lookup_insert_eq. by eexists.
      * by rewrite lookup_insert_ne.
  - intros pw c. destruct (decide ((producer_id k, writer_id k) = pw)) as [<-|]; [rewrite lookup_insert_eq; intros [= <-]|].
    + destruct Hx as [->| ->]; [done|]. destruct (last !! _) eqn:E; [by eapply Hu|done].
    + rewrite lookup_insert_ne by done. apply Hu.
Qed.

(** ** Inserting a chunk *)

(** A well-formed new header for [src]. *)
Record new_hdr (h : ChunkRecord) (n nfrag fl : Z) (src : list Z) : Prop := {
  nh_ok : hdr_ok h;
  nh_pad : cr_is_padding h = 0;
  nh_size : cr_size h = n;
  nh_n : 16 <= n <= kMaxSize;
  nh_mod : n mod 16 = 0;
  nh_src : Z.of_nat (length src) + 16 <= n;
  nh_frag : cr_num_fragments h = nfrag;
  nh_flags : cr_flags h = fl .& kFlagsBitMask
}.

Definition stored_rec (h : ChunkRecord) (src : list Z) : rec :=
  mkRec h (src ++ replicate (Z.to_nat (cr_size h - kChunkRecordSize - Z.of_nat (length src))) 0).

Lemma stored_rec_ok h n nfrag fl src :
  new_hdr h n nfrag fl src -> rec_ok (stored_rec h src) /\ rsize (stored_rec h src) = n /\ is_padding (stored_rec h src) = false.
Proof.
  intros [H1 H2 H3 H4 H5 H6 H7 H8]. unfold stored_rec, rec_ok, rsize, is_padding, kChunkRecordSize. cbn [r_hdr r_payload].
  rewrite H3, H2, length_app, length_replicate. split_and!; try done; try lia.
Qed.

(** The octets of the cleared area, of what is left of the last deleted record
    and of the untouched end. *)
Lemma cleared_split b b1 pre del rest z n gap :
  lay (data_ b) (size_ b) (wptr_ b) pre (del ++ rest) z -> cleared b b1 pre del rest z n gap ->
  wptr_ b + n <= size_ b -> 0 < n ->
  exists m g z', data_ b1 = layout pre ++ m ++ g ++ layout rest ++ replicate z' 0 /\
    Z.of_nat (length m) = n /\ Z.of_nat (length g) = gap /\ (rest = [] /\ g = [] \/ z' = 0%nat) /\
    (rest = [] \/ lsize del = n + gap).
Proof.
  intros [L1 L2 L3 L4 L5 L6] (Hf & _ & _ & Hz & _) Hfit Hn. pose proof (frm_data _ _ Hf) as ->.
  destruct Hz as [(Hz & -> & -> & ->)|(-> & -> & Hg)].
  - exists (replicate (Z.to_nat n) 0), [], (z - Z.to_nat n)%nat. cbn in L1.
    assert (Z.of_nat z = size_ b - wptr_ b).
    { rewrite L2, L3, L1, length_app, length_replicate. unfold lsize. lia. }
    split_and!; try (by left); [|rewrite length_replicate; lia|done].
    rewrite L1. cbn. rewrite <- replicate_add. do 2 f_equal. lia.
  - rewrite layout_app in L1. cbn [replicate] in L1. rewrite !app_nil_r in L1.
    exists (take (Z.to_nat n) (layout del)), (drop (Z.to_nat n) (layout del)), 0%nat. unfold lsize in Hg.
    split_and!; [|rewrite length_take; lia|rewrite length_drop; unfold lsize; lia|by right|right; lia].
    rewrite L1. cbn [replicate]. rewrite app_nil_r. rewrite (app_assoc (take _ _)), take_drop. done.
Qed.

Lemma lsize_pos l : Forall rec_ok l -> lsize l = 0 -> l = [].
Proof.
  intros Hl H. destruct Hl as [|r l Hr _]; [done|]. rewrite lsize_cons in H by done.
  destruct Hr as (_ & Hr & _). unfold kChunkRecordSize in Hr. pose proof (lsize_nonneg l). lia.
Qed.

Definition pads (l : list rec) : Prop := Forall (fun r => is_padding r = true) l.

Lemma entries_pads off l : pads l -> entries off l = [].
Proof. intros H. revert off; induction H as [|r l Hr _ IH]; intros off; [done|]. cbn. by rewrite Hr, IH. Qed.

Lemma entries_insert h pre pad rest off src n nfrag fl :
  new_hdr h n nfrag fl src -> Forall rec_ok pre -> Forall rec_ok pad -> pads pad ->
  (rest = [] \/ off = lsize pre + n + lsize pad) ->
  entries 0 (pre ++ stored_rec h src :: pad ++ rest) =
    entries 0 pre ++ (key_of_record h, (lsize pre, h)) :: entries off rest.
Proof.
  intros Hh Hpre Hpad Hp Hoff. destruct (stored_rec_ok h n nfrag fl src Hh) as (_ & Hsz & Hnp).
  rewrite entries_app by done. rewrite Z.add_0_l. cbn [entries]. rewrite Hnp, Hsz. cbn [app].
  rewrite entries_app, (entries_pads _ pad) by done. cbn [app r_hdr stored_rec].
  destruct Hoff as [-> | ->]; [done|]. done.
Qed.

(** What writing octets and statistics leaves alone. *)
Record quiet (b b' : TraceBuffer) : Prop := {
  qt_size : size_ b' = size_ b;
  qt_max : max_chunk_size_ b' = max_chunk_size_ b;
  qt_wptr : wptr_ b' = wptr_ b;
  qt_index : index_ b' = index_ b;
  qt_pol : overwrite_policy_ b' = overwrite_policy_ b;
  qt_ro : read_only_ b' = read_only_ b;
  qt_disc : discard_writes_ b' = discard_writes_ b
}.

Lemma GetChunkRecordAt_any b (a m t : list Z) :
  data_ b = a ++ m ++ t -> size_ b = Z.of_nat (length (data_ b)) -> (16 <= length m)%nat ->
  Z.of_nat (length a) mod 16 = 0 ->
  exists r, GetChunkRecordAt b (Z.of_nat (length a)) =
    Some (r, with_used b (Z.max (used_size_ b) (Z.of_nat (length a) + 16))).
Proof.
  intros Hd Hs Hm Ha. unfold GetChunkRecordAt, EnsureCommitted, kChunkRecordSize.
  rewrite (within_boundsI b a m t) by done.
  rewrite (proj2 (Z.leb_le _ _)) by (rewrite Hs, Hd, !length_app; lia).
  cbn [mbind option_bind with_used data_]. rewrite Nat2Z.id, mem_read_some by (rewrite Hd, !length_app; lia).
  cbn [mbind option_bind]. by eexists.
Qed.

(** The padding after a new chunk. *)
Lemma insert_padding b pre g rest z gap :
  data_ b = layout pre ++ g ++ layout rest ++ replicate z 0 -> size_ b = Z.of_nat (length (data_ b)) ->
  wptr_ b = lsize pre -> Forall rec_ok pre -> Forall rec_ok rest -> Z.of_nat (length g) = gap ->
  0 <= gap <= kMaxSize -> gap mod 16 = 0 -> (rest = [] /\ g = [] \/ z = 0%nat) -> size_ b - Z.of_nat z <= used_size_ b <= size_ b ->
  exists b' pad, (if gap =? 0 then Some b else AddPaddingRecord b gap) = Some b' /\ pads pad /\ Forall rec_ok pad /\
    lsize pad = gap /\ lay (data_ b') (size_ b') (wptr_ b') pre (pad ++ rest) z /\ quiet b b' /\
    size_ b' - Z.of_nat z <= used_size_ b' <= size_ b' /\ last_chunk_id_written_ b' = last_chunk_id_written_ b.
Proof.
  intros Hd Hs Hw Hpre Hrest Hg Hgap Hmod Hz Hu. destruct (Z.eqb_spec gap 0) as [E|E].
  - exists b, []. assert (g = []) as -> by (destruct g; [done|cbn in Hg; lia]).
    split_and!; try done; try lia; [by apply Forall_nil_2..|].
    split; try done. destruct Hz as [[-> _]| ->]; [by left|by right].
  - assert (Hge : 16 <= gap) by (Z.div_mod_to_equations; lia). pose proof (lsize_mod pre Hpre) as Hpm.
    destruct (pad_rec_ok g) as [Hok Hrs]; [by rewrite Hg|lia|]. set (r := mkRec _ _) in Hok, Hrs.
    pose proof (AddPaddingRecord_ok b (layout pre) g (layout rest ++ replicate z 0)) as Ea.
    cbn zeta in Ea. rewrite <- Hg. rewrite Ea by (try done; try lia; by rewrite Hg). clear Ea.
    fold r. eexists _, [r]. split; [reflexivity|].
    assert (Hgn : g <> []) by (intros ->; cbn in Hg; lia).
    pose proof (length_rec_bytes r Hok) as Hrl.
    split_and!; [by apply Forall_singleton|by apply Forall_singleton| | |by split|cbn; lia| |done].
    + rewrite lsize_cons by done. change (lsize []) with 0. lia.
    + split; cbn [data_ size_ wptr_ stat_inc with_stats with_data with_used app]; try done.
      * by rewrite layout_cons, <- !app_assoc.
      * rewrite Hs, Hd, !length_app. lia.
      * right. by destruct Hz as [[_ ?]|].
      * by constructor.
    + cbn [used_size_ size_ stat_inc with_stats with_data with_used].
      assert (wptr_ b + Z.of_nat (length g) <= size_ b) by (rewrite Hs, Hd, !length_app, Hw; unfold lsize; lia). lia.
Qed.

(** The last chunk id of the key's sequence is the key's, or stays. *)
Definition last_updated (key : Key) (b b' : TraceBuffer) : Prop :=
  exists x, last_chunk_id_written_ b' = <[(producer_id key, writer_id key) := x]> (last_chunk_id_written_ b) /\
    (x = chunk_id key \/ x = default 0 (last_chunk_id_written_ b !! (producer_id key, writer_id key))).

Lemma AdvanceWptr_ok b pre r g rest z gap key :
  data_ b = layout pre ++ rec_bytes r ++ g ++ layout rest ++ replicate z 0 -> size_ b = Z.of_nat (length (data_ b)) ->
  wptr_ b = lsize pre -> Forall rec_ok pre -> rec_ok r -> Forall rec_ok rest -> Z.of_nat (length g) = gap ->
  gap <= kMaxSize -> size_ b mod 16 = 0 -> gap mod 16 = 0 -> (rest = [] /\ g = [] \/ z = 0%nat) ->
  size_ b - Z.of_nat z <= used_size_ b <= size_ b ->
  exists b' pad pre' post' z', AdvanceWptr b key (rsize r) gap = Some b' /\
    lay (data_ b') (size_ b') (wptr_ b') pre' post' z' /\ wptr_ b' < size_ b' /\ size_ b' - Z.of_nat z' <= used_size_ b' <= size_ b' /\
    pads pad /\ Forall rec_ok pad /\ lsize pad = gap /\ pre' ++ post' = pre ++ r :: pad ++ rest /\
    size_ b' = size_ b /\ max_chunk_size_ b' = max_chunk_size_ b /\ index_ b' = index_ b /\
    overwrite_policy_ b' = overwrite_policy_ b /\ read_only_ b' = read_only_ b /\ discard_writes_ b' = discard_writes_ b /\
    last_updated key b b'.
Proof.
  intros Hd Hs Hw Hpre Hr Hrest Hg Hgap Hmod Hgm Hz Hu. unfold AdvanceWptr. cbn zeta.
  cbn [with_wptr wptr_ size_].
  pose proof (length_rec_bytes r Hr) as Hrl.
  assert (Hpr : lsize (pre ++ [r]) = lsize pre + rsize r) by (rewrite lsize_app, lsize_cons by done; change (lsize []) with 0; lia).
  assert (Hok : Forall rec_ok (pre ++ [r])) by (apply Forall_app; split; [done|by apply Forall_singleton]).
  pose proof (lsize_mod _ Hok) as Hpm. pose proof (lsize_nonneg pre) as Hp0.
  assert (Hr16 : 16 <= rsize r) by (by destruct Hr as (_ & ? & _)).
  assert (Htot : size_ b = lsize (pre ++ [r]) + gap + lsize rest + Z.of_nat z).
  { rewrite Hs, Hd, !length_app, length_replicate, Hpr. unfold lsize. lia. }
  rewrite Hw. pose proof (lsize_nonneg rest) as Hrest0. destruct (Z.leb_spec (size_ b) (lsize pre + rsize r)) as [Hwrap|Hfit].
  - assert (gap = 0 /\ lsize rest = 0 /\ z = 0%nat) as (-> & Hr0 & ->) by lia. apply lsize_pos in Hr0 as ->; [|done].
    assert (g = []) as -> by (destruct g; [done|cbn in *; lia]). cbn [Z.eqb mbind option_bind].
    unfold within_bounds. cbn [wptr_ size_ stat_inc with_stats with_wptr].
    rewrite (proj2 (Z.leb_le 0 (size_ b - _))) by (unfold kChunkRecordSize; lia). change (0 mod 4 =? 0) with true.
    rewrite Z.leb_refl. cbn [andb].
    match goal with |- context [if _ <? _ then with_last ?B _ else _] => set (b0 := B) end.
    match goal with |- context [Some (if ?c then ?x else ?y)] => set (b3 := if c then x else y) end.
    assert (Hb3 : quiet b0 b3 /\ data_ b3 = data_ b /\ used_size_ b3 = used_size_ b /\
      last_updated key b b3) by (unfold b3; case_match; split_and!; (done || by (eexists; split; [reflexivity|auto]))).
    destruct Hb3 as ([Q1 Q2 Q3 Q4 Q5 Q6 Q7] & Q8 & Q9 & Q10). cbn in Q1, Q2, Q3, Q4, Q5, Q6, Q7. clearbody b3.
    eexists b3, [], [], (pre ++ [r]), 0%nat. split; [done|].
    split_and!; try done; try congruence; try (by apply Forall_nil_2); try lia.
    split; rewrite ?Q8, ?Q1, ?Q3; try done; try (by apply Forall_nil_2); [|by right]. rewrite layout_app, layout_cons, Hd. cbn. by rewrite !app_nil_r.
  - cbn [mbind option_bind]. unfold within_bounds at 1. cbn [with_wptr wptr_ size_]. unfold kChunkRecordSize.
    rewrite (proj2 (Z.leb_le 0 _)), (proj2 (Z.leb_le _ _)), (proj2 (Z.eqb_eq _ _)) by (rewrite <- ?Hpr; Z.div_mod_to_equations; lia).
    cbn [andb].
    match goal with |- context [AddPaddingRecord ?B _] => set (b3 := B) end.
    assert (Hb3 : quiet (with_wptr b (lsize pre + rsize r)) b3 /\ data_ b3 = data_ b /\ used_size_ b3 = used_size_ b /\
      last_updated key b b3).
    { unfold b3. case_match; split_and!; (done || by (eexists; split; [reflexivity|auto])). }
    destruct Hb3 as ([Q1 Q2 Q3 Q4 Q5 Q6 Q7] & Q8 & Q9 & Q10). cbn in Q1, Q2, Q3, Q4, Q5, Q6, Q7. clearbody b3.
    destruct (insert_padding b3 (pre ++ [r]) g rest z gap) as (b' & pad & E & P1 & P2 & P3 & P4 & [R1 R2 R3 R4 R5 R6 R7] & P5 & P6);
      try done; try congruence; try lia.
    { rewrite Q8, Hd, layout_app, layout_cons. cbn. by rewrite app_nil_r, <- !app_assoc. }
    rewrite E. eexists b', pad, (pre ++ [r]), (pad ++ rest), z. split; [done|]. split_and!; try done; try congruence; try lia.
    + by rewrite <- app_assoc.
    + unfold last_updated. by rewrite P6.
Qed.

Lemma InsertChunk_ok b b1 pre del rest z n gap h nfrag fl complete ci src :
  tb_inv b pre (del ++ rest) z -> cleared b b1 pre del rest z n gap -> wptr_ b + n <= size_ b ->
  new_hdr h n nfrag fl src -> map_find (index_ b1) (key_of_record h) = None ->
  exists b' pad pre' post' z', InsertChunk b1 (key_of_record h) h n nfrag fl complete ci src gap = Some b' /\
    tb_inv b' pre' post' z' /\ pads pad /\ pre' ++ post' = pre ++ stored_rec h src :: pad ++ rest /\
    index_ b' = map_emplace (index_ b1) (key_of_record h) (ChunkMeta_init (wptr_ b) nfrag complete fl ci) /\
    overwrite_policy_ b' = overwrite_policy_ b /\ read_only_ b' = read_only_ b /\ discard_writes_ b' = discard_writes_ b.
Proof.
  intros [HL Hmod Hsz Hmx Hus Hwl Hds Hla Hix] Hcl Hfit Hh Hfresh.
  pose proof (nh_n _ _ _ _ _ Hh) as Hn. pose proof (nh_mod _ _ _ _ _ Hh) as Hnm.
  destruct (cleared_split b b1 pre del rest z n gap HL Hcl Hfit ltac:(lia)) as (m & g & z' & Hd & Hm & Hg & Hz' & Hrest).
  pose proof (cleared_shrunk _ _ _ _ _ _ _ _ (ix_sorted _ _ Hix) Hcl) as [Hsub _].
  destruct Hcl as ([F1 F2 F3 F4 F5 F6 F7 F8] & Hu1 & Hix1 & Hgap & _).
  pose proof HL as [L1 L2 L3 L4 L5 L6]. apply Forall_app in L6 as [Hdel Hrok].
  destruct (stored_rec_ok h n nfrag fl src Hh) as (Hro & Hrs & Hrp). set (r := stored_rec h src) in *.
  assert (Hs1 : size_ b1 = Z.of_nat (length (data_ b1))) by congruence.
  pose proof (lsize_mod pre L5) as Hpm. assert (Hw1 : wptr_ b1 = Z.of_nat (length (layout pre))) by (rewrite F4, L3; done).
  assert (Htot : size_ b = lsize pre + n + gap + lsize rest + Z.of_nat z').
  { rewrite <- F2, Hs1, Hd, !length_app, length_replicate. unfold lsize. lia. }
  unfold InsertChunk. cbn zeta.
  destruct (GetChunkRecordAt_any (stat_inc (stat_inc b1 chunks_written 1) bytes_written n) (layout pre) m
    (g ++ layout rest ++ replicate z' 0)) as (x & E); [done|done|lia|done|].
  cbn [wptr_ stat_inc with_stats]. rewrite Hw1. rewrite E. cbn [mbind option_bind]. clear E x.
  cbn [index_ stat_inc with_stats with_used wptr_]. rewrite bool_decide_eq_false_2 by (rewrite Hfresh; by intros [? ?]).
  cbn [with_index wptr_ with_used stat_inc with_stats]. rewrite Hw1, u32_id by (unfold is_u32, lsize in *; lia).
  rewrite (WriteChunkRecord_src _ (layout pre) m (g ++ layout rest ++ replicate z' 0));
    [|done|done|done|by rewrite (nh_size _ _ _ _ _ Hh)|rewrite (nh_size _ _ _ _ _ Hh); unfold kChunkRecordSize; lia
     |by rewrite (nh_size _ _ _ _ _ Hh)|rewrite (nh_size _ _ _ _ _ Hh); apply (nh_src _ _ _ _ _ Hh)].
  cbn [mbind option_bind]. fold (stored_rec h src). fold r. rewrite (nh_size _ _ _ _ _ Hh).
  match goal with |- context [AdvanceWptr ?B _ _ _] => set (b2 := B) end.
  destruct (AdvanceWptr_ok b2 pre r g rest z' gap (key_of_record h)) as (b' & pad & pre' & post' & z1 & E & Hl & W1 & W2 & P1 & P2 & P3 & P4 & Q1 & Q2 & Q3 & Q4 & Q5 & Q6 & (x & Q7 & Hx)).
  all: try done; try (cbn; lia); try (cbn; congruence).
  - cbn [b2 with_data with_used with_index stat_inc with_stats size_ data_].
    rewrite F2, Htot, !length_app, length_replicate. pose proof (length_rec_bytes r Hro). unfold lsize. lia.
  - pose proof (lsize_mod _ Hdel). destruct Hgap as [(_ & _ & _ & ->)|(_ & -> & _)]; [done|]. Z.div_mod_to_equations; lia.
  - cbn. rewrite F2 in *. fold (lsize pre). pose proof (lsize_nonneg rest). pose proof (lsize_nonneg pre).
    assert (Hre : rest = [] -> lsize rest = 0) by (by intros ->). destruct Hgap as [(_ & _ & Hr0 & ->)|(-> & Hg0 & Hg1)]; [specialize (Hre Hr0); lia|lia].
  - exists b', pad, pre', post', z1. rewrite <- Hrs, E. split; [done|]. unfold b2 in *. clear b2 E. cbn [with_data with_used with_index stat_inc with_stats
      size_ index_ max_chunk_size_ overwrite_policy_ read_only_ discard_writes_ last_chunk_id_written_] in *.
    split_and!; try done; try congruence. split; try congruence; try lia; try done; [by rewrite Q6, F7, Q4, F5| |].
    { rewrite Q7, Q3, F8. apply (last_covers_insert _ (index_ b)); try done; [apply Hh|]. by rewrite F8 in Hx. }
    rewrite Q3, P4. unfold r.
    rewrite (entries_insert h pre pad rest (lsize pre + lsize del) src n nfrag fl) by (done || (destruct Hrest; [by left|right; lia])).
    apply (index_insert _ _ _ _ (ChunkMeta_init (lsize pre) nfrag complete fl ci)); [done|done|].
    destruct Hh as [(_ & _ & _ & [Hf _] & _) _ _ _ _ _ Hnf Hfl]. rewrite Hnf in Hf.
    split_and!; cbn; try done; lia.
Qed.

(** ** A fresh chunk *)

(** No chunk of [all'] is new. *)
Definition survive (all all' : list rec) : Prop := forall r, r ∈ all' -> is_padding r = true \/ r ∈ all.

Lemma survive_refl all : survive all all.
Proof. intros r. by right. Qed.

(** Fields that clearing and wrapping leave alone. *)
Record kept (b b' : TraceBuffer) : Prop := {
  kp_size : size_ b' = size_ b;
  kp_max : max_chunk_size_ b' = max_chunk_size_ b;
  kp_pol : overwrite_policy_ b' = overwrite_policy_ b;
  kp_ro : read_only_ b' = read_only_ b;
  kp_disc : discard_writes_ b' = discard_writes_ b;
  kp_last : last_chunk_id_written_ b' = last_chunk_id_written_ b
}.

(** A refused deletion changes nothing but [used_size_]. *)
Lemma inv_frame b b' pre post z :
  tb_inv b pre post z -> frame b b' -> index_ b' = index_ b -> used_size_ b <= used_size_ b' <= size_ b' ->
  tb_inv b' pre post z /\ kept b b'.
Proof.
  intros [HL Hmod Hsz Hmx Hus Hwl Hds Hla Hix] [F1 F2 F3 F4 F5 F6 F7 F8] Hi Hu.
  split; [|by split]. split; rewrite ?F1, ?F2, ?F3, ?F4, ?F5, ?F7, ?F8, ?Hi; try done. rewrite F2 in Hu. lia.
Qed.

Lemma wrap_pad b b1 pre post z m :
  tb_inv b pre post z -> frame b b1 -> used_size_ b <= used_size_ b1 <= size_ b1 -> data_ b1 = layout pre ++ m ->
  index_ok (index_ b1) (entries 0 pre) -> last_covers (last_chunk_id_written_ b) (index_ b1) ->
  Z.of_nat (length m) <= kMaxSize ->
  exists b2 pad, AddPaddingRecord b1 (Z.of_nat (length m)) = Some b2 /\
    tb_inv (stat_inc (with_wptr b2 0) write_wrap_count 1) [] (pre ++ [pad]) 0 /\ kept b b2 /\ index_ b2 = index_ b1 /\
    is_padding pad = true.
Proof.
  intros [[L1 L2 L3 L4 L5 L6] Hmod Hsz Hmx Hus Hwl Hds Hla Hix] [F1 F2 F3 F4 F5 F6 F7 F8] Hu Hd Hix1 Hl1 Hm.
  pose proof (lsize_mod pre L5) as Hpm.
  assert (Hml : Z.of_nat (length m) = size_ b - lsize pre) by (rewrite L2, <- F1, Hd, length_app; unfold lsize; lia).
  assert (Hmm : Z.of_nat (length m) mod 16 = 0) by (Z.div_mod_to_equations; lia).
  assert (Hm16 : 16 <= Z.of_nat (length m)) by (Z.div_mod_to_equations; lia).
  destruct (pad_rec_ok m Hmm ltac:(lia)) as [Hok Hrs]. set (r := mkRec _ _) in Hok, Hrs.
  pose proof (AddPaddingRecord_ok b1 (layout pre) m []) as Ea. cbn zeta in Ea. fold r in Ea.
  rewrite Ea by (done || lia || by rewrite app_nil_r || by rewrite F2, F1 || by rewrite F4, L3). clear Ea.
  eexists _, r. split; [reflexivity|]. split; [|split; [by split|done]].
  pose proof (length_rec_bytes r Hok) as Hrl.
  assert (Hok' : Forall rec_ok (pre ++ [r])) by (apply Forall_app; split; [done|by apply Forall_singleton]).
  split; cbn [data_ size_ wptr_ max_chunk_size_ used_size_ overwrite_policy_ discard_writes_ index_
    stat_inc with_stats with_wptr with_data with_used]; try congruence; try lia.
  - split; try done; [| |by right].
    + rewrite layout_app, layout_cons. cbn. by rewrite !app_nil_r.
    + rewrite F2, !length_app. unfold lsize in *. cbn [length]. lia.
  - rewrite F7, F5. done.
  - cbn. by rewrite F8.
  - cbn [app]. rewrite entries_app, (entries_pads _ [r]) by (done || by apply Forall_singleton). by rewrite app_nil_r.
Qed.

Lemma WrapForChunk_ok b pre post z n :
  tb_inv b pre post z -> discard_writes_ b = false -> n <= kMaxSize -> n <= size_ b ->
  exists r b', WrapForChunk b n = Some (r, b') /\ kept b b' /\ shrunk b b' /\
    (r = true -> overwrite_policy_ b = kDiscard) /\
    exists pre' post' z', tb_inv b' pre' post' z' /\ survive (pre ++ post) (pre' ++ post') /\
      (r = false -> wptr_ b' + n <= size_ b').
Proof.
  intros HI Hdisc Hn Hns. pose proof HI as [HL Hmod Hsz Hmx Hus Hwl Hds Hla Hix]. unfold WrapForChunk, size_to_end.
  destruct (Z.ltb_spec (size_ b - wptr_ b) n) as [Hlt|Hge].
  2: { exists false, b. split; [done|]. split; [by split|]. split; [by apply shrunk_refl|]. split; [done|].
       exists pre, post, z. split; [done|]. split; [apply survive_refl|lia]. }
  pose proof HL as [L1 L2 L3 L4 L5 L6]. pose proof (lsize_mod pre L5) as Hpm.
  destruct (DeleteNextChunksFor_ok b pre post z (size_ b - wptr_ b) HI Hdisc) as (res & b1 & E & Hres); [lia..|].
  rewrite E. cbn [mbind option_bind]. destruct Hres as [(-> & Hp & Hf & Hi & Hu)|(Hne & del & rest & -> & Hcl)].
  - destruct (inv_frame b b1 pre post z HI Hf Hi Hu) as [HI' Hk]. cbn [Z.eqb]. exists true, b1. split; [done|].
    split; [done|]. split; [by apply shrunk_refl|]. split; [done|]. exists pre, post, z.
    split; [done|]. split; [apply survive_refl|done].
  - pose proof (cleared_shrunk _ _ _ _ _ _ _ _ (ix_sorted _ _ Hix) Hcl) as Hsk.
    rewrite (proj2 (Z.eqb_neq _ _)) by done.
    destruct (cleared_split b b1 pre del rest z _ res HL Hcl ltac:(lia) ltac:(lia)) as (m & g & z' & Hd & Hm & Hg & Hz' & _).
    pose proof Hcl as ([F1 F2 F3 F4 F5 F6 F7 F8] & Hu1 & Hix1 & _).
    assert (Htot : size_ b = lsize pre + (size_ b - wptr_ b) + res + lsize rest + Z.of_nat z').
    { rewrite L2 at 1. rewrite <- F1, Hd, !length_app, length_replicate. unfold lsize. lia. }
    pose proof (lsize_nonneg rest).
    assert (res = 0 /\ lsize rest = 0 /\ z' = 0%nat) as (-> & Hr0 & ->) by lia.
    apply lsize_pos in Hr0 as ->; [|by apply Forall_app in L6 as [_ ?]].
    assert (g = []) as -> by (destruct g; [done|cbn in *; lia]). rewrite (proj2 (Z.ltb_ge _ _)) by lia.
    destruct (wrap_pad b b1 pre (del ++ []) z m) as (b2 & pad & E2 & HI2 & Hk2 & Hi2 & Hpad); try done.
    { cbn in Hd. by rewrite !app_nil_r in Hd. }
    { cbn [entries] in Hix1. by rewrite app_nil_r in Hix1. }
    { split; [|apply Hla]. intros k m' Hk. by eapply (proj1 Hla), (sk_sub _ _ Hsk). }
    { lia. }
    rewrite <- Hm, E2. cbn [mbind option_bind]. cbn [stat_inc with_stats with_wptr size_ wptr_].
    pose proof Hk2 as [K1 K2 K3 K4 K5 K6]. rewrite (proj2 (Z.ltb_ge _ _)) by lia.
    eexists false, _. split; [reflexivity|]. split; [by split|]. split.
    { eapply shrunk_trans; [|exact Hsk|by apply shrunk_refl]. by rewrite F5. }
    split; [done|]. exists [], (pre ++ [pad]), 0%nat. split; [done|]. split.
    { cbn [app]. intros x [Hx|Hx]%elem_of_app; [right; rewrite elem_of_app; by left|]. apply list_elem_of_singleton in Hx as ->. by left. }
    cbn [wptr_ size_ stat_inc with_stats with_wptr]. lia.
Qed.

(** The outcome of storing a chunk that is not in the index: dropped, which only
    [kDiscard] buffers do, or stored as [all] shows, with the index entry [mk]
    makes of its offset. Other chunks may have been overwritten, but a [kDiscard]
    buffer loses none that is still to be read. *)
Inductive copied (b b' : TraceBuffer) (h : ChunkRecord) (src : list Z) (mk : Z -> ChunkMeta) (all all' : list rec) : Prop :=
| copied_dropped :
    overwrite_policy_ b = kDiscard -> discard_writes_ b' = true -> shrunk b b' -> survive all all' ->
    copied b b' h src mk all all'
| copied_stored off :
    map_find (index_ b') (key_of_record h) = Some (mk off) -> stored_rec h src ∈ all' ->
    survive (stored_rec h src :: all) all' ->
    (forall k m, k <> key_of_record h -> map_find (index_ b') k = Some m -> map_find (index_ b) k = Some m) ->
    (forall k m, overwrite_policy_ b = kDiscard -> map_find (index_ b) k = Some m ->
      num_fragments_read m < num_fragments m -> map_find (index_ b') k = Some m) ->
    copied b b' h src mk all all'.

Lemma DiscardWrite_ok b b1 pre post z h src mk all :
  tb_inv b1 pre post z -> overwrite_policy_ b = kDiscard -> kept b b1 -> shrunk b b1 -> survive all (pre ++ post) ->
  exists b', DiscardWrite b1 = Some b' /\ tb_inv b' pre post z /\ read_only_ b' = read_only_ b /\
    copied b b' h src mk all (pre ++ post).
Proof.
  intros [HL Hmod Hsz Hmx Hus Hwl Hds Hla Hix] Hp [K1 K2 K3 K4 K5 K6] [S1 S2] Hsv. unfold DiscardWrite.
  rewrite decide_True by congruence. eexists. split; [reflexivity|].
  split; [split; try done; cbn; congruence|]. split; [done|]. by apply copied_dropped.
Qed.

Lemma CopyNewChunk_ok b pre post z n h nfrag fl complete ci src :
  tb_inv b pre post z -> new_hdr h n nfrag fl src -> n <= max_chunk_size_ b -> map_find (index_ b) (key_of_record h) = None ->
  exists b' pre' post' z', CopyNewChunk b (key_of_record h) h n nfrag fl complete ci src = Some b' /\
    tb_inv b' pre' post' z' /\ read_only_ b' = read_only_ b /\
    copied b b' h src (fun off => ChunkMeta_init off nfrag complete fl ci) (pre ++ post) (pre' ++ post').
Proof.
  intros HI Hh Hmax Hfresh. pose proof (nh_n _ _ _ _ _ Hh) as Hn. unfold CopyNewChunk.
  assert (Hsize : n <= kMaxSize /\ n <= size_ b) by (rewrite (tb_max _ _ _ _ HI) in Hmax; lia).
  destruct (discard_writes_ b) eqn:Hdisc.
  { destruct (DiscardWrite_ok b b pre post z h src (fun off => ChunkMeta_init off nfrag complete fl ci) (pre ++ post) HI)
      as (b' & E & ?); [by apply (tb_disc _ _ _ _ HI)|by split|by apply shrunk_refl|apply survive_refl|]. by exists b', pre, post, z. }
  destruct (WrapForChunk_ok b pre post z n HI Hdisc) as (r & b1 & E & Hk & Hsk & Hr & pre1 & post1 & z1 & HI1 & Hsv & Hfit); [lia..|].
  rewrite E. cbn [mbind option_bind]. destruct r.
  { destruct (DiscardWrite_ok b b1 pre1 post1 z1 h src (fun off => ChunkMeta_init off nfrag complete fl ci) (pre ++ post) HI1)
      as (b' & E' & ?); [auto|done|done|done|]. by exists b', pre1, post1, z1. }
  destruct (DeleteNextChunksFor_ok b1 pre1 post1 z1 n HI1) as (res & b2 & E2 & Hres);
    [rewrite (kp_disc _ _ Hk); done|lia|auto|].
  rewrite E2. cbn [mbind option_bind]. destruct Hres as [(-> & Hp & Hf & Hi & Hu)|(Hne & del & rest & -> & Hcl)].
  - cbn [Z.eqb]. destruct (inv_frame b1 b2 pre1 post1 z1 HI1 Hf Hi Hu) as [HI2 Hk2].
    destruct (DiscardWrite_ok b b2 pre1 post1 z1 h src (fun off => ChunkMeta_init off nfrag complete fl ci) (pre ++ post) HI2)
      as (b' & E' & ?); [by rewrite <- (kp_pol _ _ Hk)| | |done|by exists b', pre1, post1, z1].
    + destruct Hk, Hk2. split; congruence.
    + eapply shrunk_trans; [|exact Hsk|by apply shrunk_refl]. by rewrite (kp_pol _ _ Hk).
  - rewrite (proj2 (Z.eqb_neq _ _)) by done.
    pose proof (cleared_shrunk _ _ _ _ _ _ _ _ (ix_sorted _ _ (tb_index _ _ _ _ HI1)) Hcl) as Hsk2.
    pose proof (shrunk_trans _ _ _ (kp_pol _ _ Hk) Hsk Hsk2) as [S1 S2].
    assert (Hfr2 : map_find (index_ b2) (key_of_record h) = None).
    { destruct (map_find (index_ b2) _) eqn:Ef; [|done]. apply S1 in Ef. congruence. }
    destruct (InsertChunk_ok b1 b2 pre1 del rest z1 n res h nfrag fl complete ci src HI1 Hcl (Hfit eq_refl) Hh Hfr2)
      as (b' & pad & pre' & post' & z' & E3 & HI3 & Hpads & Hall & Hix & _ & Hro & _).
    exists b', pre', post', z'. split; [done|]. split; [done|]. split; [by rewrite Hro, (kp_ro _ _ Hk)|].
    apply (copied_stored _ _ _ _ _ _ _ (wptr_ b1)); rewrite ?Hix.
    + rewrite find_emplace, decide_True by done. done.
    + rewrite Hall. set_solver.
    + rewrite Hall. intros x Hx. assert (Hcase : is_padding x = true \/ x = stored_rec h src \/ x ∈ pre1 ++ del ++ rest).
      { unfold pads in Hpads. rewrite Forall_forall in Hpads. set_solver. }
      destruct Hcase as [?|[->|Hx']]; [by left|right; left|]. destruct (Hsv x Hx'); [by left|right; by right].
    + intros k m Hkn. rewrite find_emplace, decide_False by done. apply S1.
    + intros k m Hd Hf Hrd. rewrite find_emplace, decide_False by (done || congruence). by apply S2.
Qed.

(** ** Changing a stored chunk *)

Lemma entries_elem off l k o h :
  Forall rec_ok l -> (k, (o, h)) ∈ entries off l ->
  exists l1 r l2, l = l1 ++ r :: l2 /\ r_hdr r = h /\ o = off + lsize l1 /\ k = key_of_record h /\ is_padding r = false.
Proof.
  intros Hl. revert off. induction Hl as [|r l Hr _ IH]; intros off Hin; [by apply not_elem_of_nil in Hin|].
  cbn [entries] in Hin. apply elem_of_app in Hin as [Hin|Hin].
  - destruct (is_padding r) eqn:Ep; [by apply not_elem_of_nil in Hin|]. apply list_elem_of_singleton in Hin. simplify_eq.
    exists [], r, l. split_and!; try done. change (lsize []) with 0. lia.
  - destruct (IH _ Hin) as (l1 & r' & l2 & -> & ? & -> & ? & ?). exists (r :: l1), r', l2.
    split_and!; try done. rewrite lsize_cons by done. lia.
Qed.

(** Replacing one record by another of its size. *)
Lemma lay_replace d size w pre post z l1 r l2 r' :
  lay d size w pre post z -> pre ++ post = l1 ++ r :: l2 -> rec_ok r' -> rsize r' = rsize r ->
  d = layout l1 ++ rec_bytes r ++ layout l2 ++ replicate z 0 /\
  exists pre' post', pre' ++ post' = l1 ++ r' :: l2 /\
    lay (layout l1 ++ rec_bytes r' ++ layout l2 ++ replicate z 0) size w pre' post' z.
Proof.
  intros [L1 L2 L3 L4 L5 L6] E Hr' Hs.
  assert (Hall : Forall rec_ok (l1 ++ r :: l2)) by (rewrite <- E; by apply Forall_app).
  apply Forall_app in Hall as [Hl1 [Hr Hl2]%Forall_cons].
  assert (Ed : d = layout l1 ++ rec_bytes r ++ layout l2 ++ replicate z 0).
  { rewrite L1, app_assoc, <- layout_app, E, layout_app, layout_cons. by rewrite <- !app_assoc. }
  split; [done|]. pose proof (length_rec_bytes r Hr). pose proof (length_rec_bytes r' Hr').
  assert (Hlen : size = Z.of_nat (length (layout l1 ++ rec_bytes r' ++ layout l2 ++ replicate z 0))).
  { rewrite L2, Ed, !length_app. lia. }
  apply app_eq_inv in E as [(k & -> & E)|(k & -> & ->)]; [destruct k as [|r1 k]; cbn in E|].
  - rewrite app_nil_r in *. subst post. exists l1, (r' :: l2). split; [done|]. split; try done.
    + by rewrite layout_cons, <- !app_assoc.
    + right. by destruct L4.
    + by constructor.
  - injection E as <- ->. exists (l1 ++ r' :: k), post. rewrite <- app_assoc. split; [done|].
    apply Forall_app in Hl2 as [Hk _]. split; try done.
    + rewrite !layout_app, layout_cons. by rewrite <- !app_assoc.
    + rewrite lsize_app, lsize_cons in L3 by done. rewrite lsize_app, lsize_cons by done. lia.
    + apply Forall_app. split; [done|]. by constructor.
  - exists pre, (k ++ r' :: l2). rewrite <- app_assoc. split; [done|]. split; try done.
    + rewrite !layout_app, layout_cons. by rewrite <- !app_assoc.
    + right. destruct L4 as [L4|]; [|done]. by destruct k.
    + apply Forall_app in L6 as [Hk _]. apply Forall_app. split; [done|]. by constructor.
Qed.

Lemma index_update idx es1 es2 k o h h' m :
  index_ok idx (es1 ++ (k, (o, h)) :: es2) -> meta_ok m h' -> record_off m = o ->
  index_ok (map_update idx k m) (es1 ++ (k, (o, h')) :: es2).
Proof.
  intros [H1 H2 H3 H4] Hm Ho. rewrite fmap_app, fmap_cons in H2. cbn [fst] in H2.
  split.
  - by apply sorted_update.
  - by rewrite fmap_app, fmap_cons.
  - intros k' m'. rewrite find_update. destruct (decide (k = k')) as [->|Hne]; intros E.
    + destruct (map_find idx k'); simplify_eq. exists h'. split; [|done]. apply elem_of_app. right. left.
    + destruct (H3 k' m' E) as (h1 & Hin & ?). exists h1. split; [|done].
      apply elem_of_app. apply elem_of_app in Hin as [?|Hin]; [by left|right].
      apply elem_of_cons in Hin as [[= ? ? ?]|Hin]; [congruence|by right].
  - intros k' o' h1 Hin. rewrite find_update. destruct (decide (k = k')) as [->|Hne].
    + destruct (H4 k' o h) as [x ->]; [|by eexists]. apply elem_of_app. right. left.
    + apply (H4 k' o' h1). apply elem_of_app. apply elem_of_app in Hin as [?|Hin]; [by left|right].
      apply elem_of_cons in Hin as [[= ? ? ?]|Hin]; [congruence|by right].
Qed.

(** The chunk of an index entry, in place. *)
Lemma indexed_chunk b pre post z k m :
  tb_inv b pre post z -> map_find (index_ b) k = Some m ->
  exists l1 r l2, pre ++ post = l1 ++ r :: l2 /\ rec_ok r /\ key_of_record (r_hdr r) = k /\ is_padding r = false /\
    record_off m = Z.of_nat (length (layout l1)) /\ Z.of_nat (length (layout l1)) mod 16 = 0 /\ meta_ok m (r_hdr r) /\
    Forall rec_ok l1 /\ Forall rec_ok l2 /\
    data_ b = layout l1 ++ rec_bytes r ++ layout l2 ++ replicate z 0 /\
    GetChunkRecordAt b (record_off m) = Some (r_hdr r, with_used b (Z.max (used_size_ b) (record_off m + 16))) /\
    record_off m + rsize r <= size_ b.
Proof.
  intros [HL Hmod Hsz Hmx Hus Hwl Hds Hla Hix] Hf. destruct (ix_found _ _ Hix k m Hf) as (h & Hin & Hm).
  assert (Hall : Forall rec_ok (pre ++ post)) by (apply Forall_app; by destruct HL).
  destruct (entries_elem 0 _ _ _ _ Hall Hin) as (l1 & r & l2 & E & <- & Ho & -> & Hp).
  rewrite E in Hall. apply Forall_app in Hall as [Hl1 [Hr Hl2]%Forall_cons].
  destruct (lay_replace _ _ _ _ _ _ l1 r l2 r HL E Hr eq_refl) as [Hd _].
  pose proof (lsize_mod l1 Hl1) as Hmd. rewrite Z.add_0_l in Ho. unfold lsize in *.
  pose proof (length_rec_bytes r Hr) as Hrl.
  exists l1, r, l2. split_and!; try done.
  - rewrite Ho. apply (GetChunkRecordAt_rec b (layout l1) r (layout l2 ++ replicate z 0)); try done. by destruct HL.
  - rewrite (ly_size _ _ _ _ _ _ HL), Hd, Ho, !length_app. lia.
Qed.

(** Rewriting a record in place, with its index entry. *)
Lemma inv_replace b b' pre post z l1 r l2 r' m :
  tb_inv b pre post z -> pre ++ post = l1 ++ r :: l2 -> rec_ok r' -> rsize r' = rsize r ->
  key_of_record (r_hdr r') = key_of_record (r_hdr r) -> is_padding r = false -> is_padding r' = false ->
  meta_ok m (r_hdr r') -> record_off m = Z.of_nat (length (layout l1)) ->
  data_ b' = layout l1 ++ rec_bytes r' ++ layout l2 ++ replicate z 0 ->
  index_ b' = map_update (index_ b) (key_of_record (r_hdr r)) m -> kept b b' -> wptr_ b' = wptr_ b ->
  used_size_ b <= used_size_ b' <= size_ b ->
  exists pre' post', pre' ++ post' = l1 ++ r' :: l2 /\ tb_inv b' pre' post' z.
Proof.
  intros [HL Hmod Hsz Hmx Hus Hwl Hds Hla Hix] E Hr' Hrs Hk Hp Hp' Hm Ho Hd Hi [K1 K2 K3 K4 K5 K6] Hw Hu.
  assert (Hall : Forall rec_ok (pre ++ post)) by (apply Forall_app; by destruct HL).
  rewrite E in Hall. apply Forall_app in Hall as [Hl1 [Hr Hl2]%Forall_cons].
  destruct (lay_replace _ _ _ _ _ _ l1 r l2 r' HL E Hr' Hrs) as [_ (pre' & post' & E' & HL')].
  exists pre', post'. split; [done|]. split; rewrite ?Hd, ?K1, ?K2, ?K3, ?K5, ?K6, ?Hw; try done; try lia.
  { rewrite Hi. split; [|apply Hla]. intros k' m' Hf. rewrite find_update in Hf.
    destruct (decide (_ = k')) as [<-|]; [|by eapply (proj1 Hla)].
    destruct (map_find (index_ b) _) eqn:Ef; [by eapply (proj1 Hla)|done]. }
  rewrite E', Hi. rewrite E in Hix. rewrite entries_app in Hix |- * by done. rewrite Z.add_0_l in *. cbn [entries] in *.
  rewrite Hp in Hix. rewrite Hp', Hrs, Hk. cbn [app] in *. by eapply index_update.
Qed.

(** A state with the same records. *)
Lemma inv_same b b' pre post z :
  tb_inv b pre post z -> data_ b' = data_ b -> index_ b' = index_ b -> kept b b' -> wptr_ b' = wptr_ b ->
  used_size_ b <= used_size_ b' <= size_ b -> tb_inv b' pre post z.
Proof.
  intros [HL Hmod Hsz Hmx Hus Hwl Hds Hla Hix] Hd Hi [K1 K2 K3 K4 K5 K6] Hw Hu.
  split; rewrite ?Hd, ?Hi, ?K1, ?K2, ?K3, ?K5, ?K6, ?Hw; (done || lia).
Qed.

(** A chunk committed again: nothing changes, or its record is replaced in
    place by one with more packets. *)
Inductive recommitted (b b' : TraceBuffer) (h : ChunkRecord) (src : list Z) (all all' : list rec) : Prop :=
| recommitted_ignored : all' = all -> index_ b' = index_ b -> recommitted b b' h src all all'
| recommitted_replaced l1 r l2 :
    all = l1 ++ r :: l2 -> key_of_record (r_hdr r) = key_of_record h -> rsize r = cr_size h ->
    cr_num_fragments (r_hdr r) < cr_num_fragments h -> all' = l1 ++ stored_rec h src :: l2 ->
    (forall k, k <> key_of_record h -> map_find (index_ b') k = map_find (index_ b) k) ->
    recommitted b b' h src all all'.

Lemma OverrideChunk_ok b pre post z n h nfrag fl complete src meta :
  tb_inv b pre post z -> new_hdr h n nfrag fl src -> map_find (index_ b) (key_of_record h) = Some meta ->
  exists b' pre' post', OverrideChunk b (key_of_record h) meta h n nfrag fl complete src = Some b' /\
    tb_inv b' pre' post' z /\ read_only_ b' = read_only_ b /\ recommitted b b' h src (pre ++ post) (pre' ++ post').
Proof.
  intros HI Hh Hf. pose proof HI as [HL Hmod Hsz Hmx Hus Hwl Hds Hla Hix].
  destruct (indexed_chunk b pre post z _ _ HI Hf) as (l1 & r & l2 & E & Hr & Hk & Hp & Ho & Ho16 & Hm & Hl1 & Hl2 & Hd & Hg & Hle).
  assert (Hrs16 : 16 <= rsize r) by (by destruct Hr as (_ & ? & _)).
  unfold OverrideChunk. rewrite Hg. cbn [mbind option_bind]. set (u := Z.max _ _).
  assert (Hu : used_size_ b <= u <= size_ b) by (unfold u; lia).
  assert (Hign : forall b', data_ b' = data_ b -> index_ b' = index_ b -> kept b b' -> wptr_ b' = wptr_ b -> used_size_ b' = u ->
    exists b0 pre' post', Some b' = Some b0 /\ tb_inv b0 pre' post' z /\ read_only_ b0 = read_only_ b /\
      recommitted b b0 h src (pre ++ post) (pre' ++ post')).
  { intros b' B1 B2 B3 B4 B5. exists b', pre, post. split; [done|]. split; [|split; [apply B3|by apply recommitted_ignored]].
    apply (inv_same b); try done. by rewrite B5. }
  destruct (_ || _) eqn:Ev; [apply Hign; by try split|].
  apply orb_false_iff in Ev as [[[_ Ev1%negb_false_iff%Z.eqb_eq]%orb_false_iff Ev2%Z.ltb_ge]%orb_false_iff _].
  destruct (Z.eqb_spec (cr_num_fragments (r_hdr r)) nfrag) as [|Hnf]; [apply Hign; by try split|].
  destruct (match map_find _ _ with Some _ => _ | None => _ end); [apply Hign; by try split|].
  destruct (Z.ltb_spec (cr_num_fragments (r_hdr r)) (num_fragments_read meta)) as [|Hnr]; [apply Hign; by try split|].
  destruct (stored_rec_ok h n nfrag fl src Hh) as (Hr' & Hrs' & Hp'). pose proof Hh as [N1 N2 N3 N4 N5 N6 N7 N8].
  set (m' := set_complete _ _).
  assert (Hm' : meta_ok m' (r_hdr (stored_rec h src)) /\ record_off m' = Z.of_nat (length (layout l1))).
  { destruct Hm as (M1 & M2 & M3 & M4). unfold m', set_complete, set_flags, set_num_fragments, meta_ok.
    cbn [num_fragments flags num_fragments_read cur_fragment_offset set_index_flags record_off r_hdr stored_rec].
    split_and!; try done; lia. }
  destruct Hm' as [Hm' Ho']. pose proof (length_rec_bytes r Hr) as Hrl.
  rewrite Ho'. rewrite (WriteChunkRecord_src _ (layout l1) (rec_bytes r) (layout l2 ++ replicate z 0)); try done;
    [|by apply HL|unfold rsize in *; lia|unfold kChunkRecordSize; lia|by rewrite N3|unfold kChunkRecordSize; lia].
  cbn [mbind option_bind]. fold (stored_rec h src).
  match goal with |- context [Some (stat_inc ?B _ _)] => set (b' := stat_inc B chunks_rewritten 1) end.
  destruct (inv_replace b b' pre post z l1 r l2 (stored_rec h src) m') as (pre' & post' & E' & HI'); try done.
  - unfold rsize in *. lia.
  - by rewrite Hk.
  - cbn. unfold u. rewrite Ho in *. rewrite N3. unfold rsize in *. lia.
  - exists b', pre', post'. split; [done|]. split; [done|]. split; [done|].
    apply (recommitted_replaced _ _ _ _ _ _ l1 r l2); try done; [unfold rsize in *; lia..|].
    intros k Hkn. change (index_ b') with (map_update (index_ b) (key_of_record h) m'). by rewrite find_update, decide_False.
Qed.

(** ** CopyChunkUntrusted *)

(** Arguments in the range of their C++ types. *)
Definition chunk_args (producer writer chunk nfrag fl : Z) (src : list Z) : Prop :=
  is_u16 producer /\ is_u16 writer /\ is_u32 chunk /\ is_u16 nfrag /\ is_u8 fl /\ Z.of_nat (length src) < 2 ^ 63.

Definition chunk_record_size (src : list Z) : Z := AlignUp kChunkRecordSize (Z.of_nat (length src) + kChunkRecordSize).

(** The header a commit makes. *)
Definition chunk_header (producer writer chunk nfrag fl : Z) (complete : bool) (src : list Z) : ChunkRecord :=
  let '(nfrag, fl) := DisregardLast nfrag fl complete in
  mkChunkRecord chunk producer writer nfrag (chunk_record_size src) (fl .& kFlagsBitMask) 0.

Lemma chunk_record_size_ok src : Z.of_nat (length src) < 2 ^ 63 -> let n := chunk_record_size src in
  16 <= n /\ n mod 16 = 0 /\ Z.of_nat (length src) + 16 <= n.
Proof.
  intros Hl. unfold chunk_record_size, kChunkRecordSize. cbn zeta.
  pose proof (AlignUp_bounds 4 (Z.of_nat (length src) + 16)) as H. change (2 ^ 4) with 16 in H. lia.
Qed.

Lemma chunk_header_ok producer writer chunk nfrag fl complete src nfrag' fl' :
  chunk_args producer writer chunk nfrag fl src -> chunk_record_size src <= kMaxSize ->
  DisregardLast nfrag fl complete = (nfrag', fl') ->
  new_hdr (chunk_header producer writer chunk nfrag fl complete src) (chunk_record_size src) nfrag' fl' src.
Proof.
  intros (H1 & H2 & H3 & H4 & H5 & H6) Hn E. pose proof (chunk_record_size_ok src H6) as (N1 & N2 & N3).
  unfold chunk_header. rewrite E. unfold kMaxSize in Hn.
  assert (Hnf : is_u16 nfrag').
  { unfold DisregardLast in E. destruct (negb complete && (0 <? nfrag)) eqn:Ec; simplify_eq; [|done].
    unfold is_u16 in *. lia. }
  assert (Hfl : 0 <= fl' .& kFlagsBitMask < 64).
  { change kFlagsBitMask with (Z.ones 6). rewrite Z.land_ones by lia. apply Z.mod_pos_bound. lia. }
  split; cbn; try done; try lia. unfold hdr_ok, is_u16 in *. cbn. split_and!; try done; lia.
Qed.

(** What a commit may do: refuse a chunk that is too large, store a chunk that is
    not in the index, or update one that is. *)
Inductive commit_outcome (b b' : TraceBuffer) (h : ChunkRecord) (src : list Z) (mk : Z -> ChunkMeta)
    (all all' : list rec) : Prop :=
| outcome_too_large : max_chunk_size_ b < chunk_record_size src -> all' = all -> index_ b' = index_ b ->
    commit_outcome b b' h src mk all all'
| outcome_new : map_find (index_ b) (key_of_record h) = None -> copied b b' h src mk all all' ->
    commit_outcome b b' h src mk all all'
| outcome_again m : map_find (index_ b) (key_of_record h) = Some m -> recommitted b b' h src all all' ->
    commit_outcome b b' h src mk all all'.

Definition new_meta (nfrag fl : Z) (complete : bool) (ci : ClientIdentity) (off : Z) : ChunkMeta :=
  let '(nfrag, fl) := DisregardLast nfrag fl complete in ChunkMeta_init off nfrag complete fl ci.

Lemma CopyChunkUntrusted_ok b pre post z producer ci writer chunk nfrag fl complete src :
  tb_inv b pre post z -> read_only_ b = false -> chunk_args producer writer chunk nfrag fl src ->
  exists b' pre' post' z',
    CopyChunkUntrusted b producer ci writer chunk nfrag fl complete src = Some b' /\ tb_inv b' pre' post' z' /\
    read_only_ b' = false /\
    commit_outcome b b' (chunk_header producer writer chunk nfrag fl complete src) src
      (new_meta nfrag fl complete ci) (pre ++ post) (pre' ++ post').
Proof.
  intros HI Hro Ha. pose proof Ha as (_ & _ & _ & _ & _ & Hl). pose proof (chunk_record_size_ok src Hl) as (N1 & N2 & N3).
  unfold CopyChunkUntrusted. rewrite Hro, u64_id by (unfold is_u64, kChunkRecordSize; lia).
  fold (chunk_record_size src). destruct (Z.ltb_spec (max_chunk_size_ b) (chunk_record_size src)) as [Hbig|Hfit].
  { eexists _, pre, post, z. split; [reflexivity|]. split; [|split; [done|by apply outcome_too_large]].
    apply (inv_same b); try done. split; [apply Z.le_refl|apply HI]. }
  assert (Hmx : chunk_record_size src <= kMaxSize) by (rewrite (tb_max _ _ _ _ HI) in Hfit; lia).
  destruct (DisregardLast nfrag fl complete) as [nfrag' fl'] eqn:E.
  pose proof (chunk_header_ok producer writer chunk nfrag fl complete src nfrag' fl' Ha Hmx E) as Hh.
  assert (Hc : ChunkRecord_init (chunk_record_size src) = Some (mkChunkRecord 0 0 0 0 (chunk_record_size src) 0 0)).
  { unfold ChunkRecord_init, kChunkRecordSize. unfold kMaxSize in Hmx. rewrite !(proj2 (Z.leb_le _ _)), N2 by (unfold kMaxSize; lia).
    cbn [andb Z.eqb]. unfold u16. by rewrite Z.mod_small by lia. }
  rewrite Hc. cbn [mbind option_bind cr_size cr_is_padding].
  assert (Eh : mkChunkRecord chunk producer writer nfrag' (chunk_record_size src) (fl' .& kFlagsBitMask) 0 =
    chunk_header producer writer chunk nfrag fl complete src) by (unfold chunk_header; by rewrite E).
  rewrite Eh. set (h := chunk_header _ _ _ _ _ _ _) in *.
  assert (HI' : tb_inv (with_has_data b true) pre post z) by (apply (inv_same b); try done; split; [apply Z.le_refl|apply HI]).
  cbn [index_ with_has_data]. destruct (map_find (index_ b) (key_of_record h)) as [m|] eqn:Ef.
  - destruct (OverrideChunk_ok _ pre post z _ h nfrag' fl' complete src m HI' Hh Ef) as (b' & pre' & post' & -> & H1 & H2 & H3).
    exists b', pre', post', z. split; [done|]. split; [done|]. split; [by rewrite H2|]. apply (outcome_again _ _ _ _ _ _ _ m); [done|].
    destruct H3; [by apply recommitted_ignored|by eapply recommitted_replaced].
  - destruct (CopyNewChunk_ok _ pre post z _ h nfrag' fl' complete ci src HI' Hh Hfit Ef) as (b' & pre' & post' & z' & -> & H1 & H2 & H3).
    exists b', pre', post', z'. split; [done|]. split; [done|]. split; [by rewrite H2|]. apply outcome_new; [done|].
    destruct H3 as [? ? [] ?|]; [by apply copied_dropped|]. eapply copied_stored; try done. unfold new_meta. by rewrite E.
Qed.

(** ** TryPatchChunkContents *)

(** The patches seen from the payload: each one in its bounds or all the rest refused. *)
Fixpoint patch_payload (p : list Z) (patches : list Patch) : list Z * bool :=
  match patches with
  | [] => (p, true)
  | x :: patches =>
      if offset_untrusted x + kPatchSize <=? Z.of_nat (length p)
      then patch_payload (buf_write p (Z.to_nat (offset_untrusted x)) (patch_data x)) patches
      else (p, false)
  end.

Definition patch_ok (p : Patch) : Prop := is_u64 (offset_untrusted p) /\ length (patch_data p) = 4%nat.

Lemma patch_payload_length patches : forall p, Forall patch_ok patches ->
  length (fst (patch_payload p patches)) = length p.
Proof.
  induction patches as [|x patches IH]; intros p H; [done|]. apply Forall_cons in H as [[Ho Hd] H]. cbn [patch_payload].
  destruct (Z.leb_spec (offset_untrusted x + kPatchSize) (Z.of_nat (length p))) as [Hle|]; [|done].
  rewrite IH by done. unfold kPatchSize, is_u64 in *. apply buf_write_length. lia.
Qed.

Lemma apply_patches_ok patches : forall (a p t : list Z) cb, Forall patch_ok patches ->
  Z.of_nat (length a) = cb + 16 -> 0 <= cb -> cb + 16 + Z.of_nat (length p) < 2 ^ 33 ->
  apply_patches (a ++ p ++ t) cb (cb + 16 + Z.of_nat (length p)) patches =
    Some (a ++ fst (patch_payload p patches) ++ t, snd (patch_payload p patches)).
Proof.
  induction patches as [|x patches IH]; intros a p t cb H Ha Hc Hb; [done|].
  apply Forall_cons in H as [[Ho Hd] H]. cbn [patch_payload apply_patches]. unfold kChunkRecordSize, kPatchSize, is_u64 in *.
  set (ptr := s64 _).
  assert (Hptr : (ptr = cb + 16 + offset_untrusted x \/ ptr < cb + 16) /\
    (offset_untrusted x + 4 <= Z.of_nat (length p) -> ptr = cb + 16 + offset_untrusted x)).
  { unfold ptr, s64, swrap. cbn zeta. destruct (Z.ltb_spec ((cb + 16 + offset_untrusted x) mod 2 ^ 64) (2 ^ (64 - 1)));
      Z.div_mod_to_equations; lia. }
  destruct Hptr as [Hp1 Hp2]. destruct (Z.leb_spec (offset_untrusted x + 4) (Z.of_nat (length p))) as [Hle|Hgt].
  - rewrite (proj2 (Z.ltb_ge _ _)), (proj2 (Z.ltb_ge _ _)) by lia. cbn [orb]. rewrite Hp2 by done.
    rewrite mem_write_some by (rewrite !length_app; lia). cbn [mbind option_bind].
    replace (buf_write _ _ _) with (a ++ buf_write p (Z.to_nat (offset_untrusted x)) (patch_data x) ++ t).
    { rewrite <- (IH a _ t cb) by (rewrite ?buf_write_length by lia; done). by rewrite buf_write_length by lia. }
    replace (Z.to_nat (cb + 16 + offset_untrusted x)) with (length a + Z.to_nat (offset_untrusted x))%nat by lia.
    unfold buf_write. rewrite take_app_add, <- Nat.add_assoc, drop_app_add.
    rewrite take_app_le, drop_app_le by lia. by rewrite <- !app_assoc.
  - destruct (Z.ltb_spec ptr (cb + 16)), (Z.ltb_spec (cb + 16 + Z.of_nat (length p) - 4) ptr); cbn [orb fst snd]; try done. lia.
Qed.

(** The header once no patch is pending any more. *)
Definition patched_hdr (h : ChunkRecord) : ChunkRecord :=
  mkChunkRecord (cr_chunk_id h) (cr_producer_id h) (cr_writer_id h) (cr_num_fragments h) (cr_size h)
    (cr_flags h .& u8 (Z.lnot kChunkNeedsPatching)) (cr_is_padding h).

Lemma patched_flags_bounds f : 0 <= f < 64 -> 0 <= f .& u8 (Z.lnot kChunkNeedsPatching) < 64.
Proof.
  intros Hf. split; [apply Z.land_nonneg; lia|]. rewrite <- (Z.mod_small f (2 ^ 6)), <- Z.land_ones by lia.
  rewrite <- Z.land_assoc, (Z.land_comm (Z.ones 6)), Z.land_assoc, Z.land_ones by lia. apply Z.mod_pos_bound. lia.
Qed.

(** Storing the flags octet of a header. *)
Lemma store_flags a h t f :
  cr_is_padding h = 0 -> 0 <= cr_flags h < 64 -> 0 <= f < 64 ->
  let d := a ++ cr_bytes h ++ t in
  let h' := mkChunkRecord (cr_chunk_id h) (cr_producer_id h) (cr_writer_id h) (cr_num_fragments h) (cr_size h) f 0 in
  exists old, d !! (length a + 12)%nat = Some old /\
    mem_write d (length a + 12) [(old .& 0xc0) .| f] = Some (a ++ cr_bytes h' ++ t).
Proof.
  intros Hp Hf Hf' d h'. exists (u8 (cr_flags h .| (cr_is_padding h << 6))). split.
  { unfold d. rewrite lookup_app_r by lia. replace (length a + 12 - length a)%nat with 12%nat by lia. reflexivity. }
  rewrite Hp, Z.shiftl_0_l, Z.lor_0_r, u8_id by (unfold is_u8; lia).
  assert (E0 : cr_flags h .& 0xc0 = 0).
  { rewrite <- (Z.mod_small (cr_flags h) (2 ^ 6)), <- Z.land_ones by lia. by rewrite <- Z.land_assoc, Z.land_0_r. }
  rewrite E0, Z.lor_0_l. unfold d.
  set (x := take 12 (cr_bytes h)). assert (Ex : cr_bytes h = x ++ [u8 (cr_flags h .| (cr_is_padding h << 6))] ++ [67; 72; 85]) by done.
  rewrite Ex, <- !app_assoc, (app_assoc a).
  rewrite (mem_write_at _ _ [f] (a ++ x) [u8 (cr_flags h .| (cr_is_padding h << 6))] ([67; 72; 85] ++ t));
    [|done|rewrite length_app; done|done].
  cbn [length drop app]. f_equal. rewrite <- app_assoc. f_equal. unfold cr_bytes, h'. cbn [cr_flags cr_is_padding].
  rewrite Z.shiftl_0_l, Z.lor_0_r, u8_id by (unfold is_u8; lia). reflexivity.
Qed.

(** Patching one chunk: [ok] is what the function returns. *)
Inductive patched (key : Key) (off : Z) (patches : list Patch) (pending ok : bool) (all all' : list rec) : Prop :=
| mkPatched l1 r l2 :
    all = l1 ++ r :: l2 -> key_of_record (r_hdr r) = key -> off = Z.of_nat (length (layout l1)) -> ok = snd (patch_payload (r_payload r) patches) ->
    all' = l1 ++ mkRec (if ok && negb pending then patched_hdr (r_hdr r) else r_hdr r)
                   (fst (patch_payload (r_payload r) patches)) :: l2 ->
    patched key off patches pending ok all all'.

Lemma map_update_id m k v : map_find m k = Some v -> map_update m k v = m.
Proof.
  induction m as [|[k' v'] m IH]; [done|]. cbn. case_decide; intros; simplify_eq; [done|]. by rewrite IH.
Qed.

Lemma patched_hdr_ok h : hdr_ok h -> hdr_ok (patched_hdr h).
Proof.
  intros (H1 & H2 & H3 & H4 & H5 & H6 & H7). unfold hdr_ok, patched_hdr. cbn [cr_chunk_id cr_producer_id cr_writer_id
    cr_num_fragments cr_size cr_flags cr_is_padding]. pose proof (patched_flags_bounds _ H6). split_and!; done || lia.
Qed.

Lemma patch_finish b b' pre post z key patches pending l1 r l2 m' :
  let ok := snd (patch_payload (r_payload r) patches) in
  let p' := fst (patch_payload (r_payload r) patches) in
  let h' := if ok && negb pending then patched_hdr (r_hdr r) else r_hdr r in
  tb_inv b pre post z -> pre ++ post = l1 ++ r :: l2 -> rec_ok r -> key_of_record (r_hdr r) = key -> is_padding r = false ->
  Forall patch_ok patches -> record_off m' = Z.of_nat (length (layout l1)) -> meta_ok m' h' ->
  data_ b' = layout l1 ++ (cr_bytes h' ++ p') ++ layout l2 ++ replicate z 0 ->
  index_ b' = map_update (index_ b) key m' -> kept b b' -> wptr_ b' = wptr_ b -> used_size_ b <= used_size_ b' <= size_ b ->
  exists pre' post', tb_inv b' pre' post' z /\ patched key (record_off m') patches pending ok (pre ++ post) (pre' ++ post').
Proof.
  intros ok p' h' HI E Hr Hk Hp Hpa Ho Hm Hd Hi Hkp Hw Hu. pose proof Hr as (Hh & Hr1 & Hr2 & Hr3).
  assert (Hh' : hdr_ok h' /\ cr_size h' = rsize r /\ key_of_record h' = key_of_record (r_hdr r) /\ cr_is_padding h' = cr_is_padding (r_hdr r)).
  { unfold h'. destruct (ok && negb pending); [|done]. split; [by apply patched_hdr_ok|done]. }
  destruct Hh' as (Hh1 & Hh2 & Hh3 & Hh4).
  assert (Hr' : rec_ok (mkRec h' p')).
  { unfold rec_ok, rsize. cbn [r_hdr r_payload]. rewrite Hh2. unfold p'. rewrite patch_payload_length by done.
    split_and!; done. }
  destruct (inv_replace b b' pre post z l1 r l2 (mkRec h' p') m') as (pre' & post' & E' & HI'); try done.
  - unfold is_padding in *. cbn [r_hdr]. by rewrite Hh4.
  - by rewrite Hk.
  - exists pre', post'. split; [done|]. by apply (mkPatched _ _ _ _ _ _ _ l1 r l2).
Qed.

Lemma TryPatch_ok b pre post z producer writer chunk patches pending :
  tb_inv b pre post z -> read_only_ b = false -> Forall patch_ok patches ->
  exists ok b' pre' post', TryPatchChunkContents b producer writer chunk patches pending = Some (ok, b') /\
    tb_inv b' pre' post' z /\ read_only_ b' = false /\
    match map_find (index_ b) (mkKey producer writer chunk) with
    | None => ok = false /\ pre' ++ post' = pre ++ post
    | Some m => patched (mkKey producer writer chunk) (record_off m) patches pending ok (pre ++ post) (pre' ++ post')
    end.
Proof.
  intros HI Hro Hp. unfold TryPatchChunkContents. rewrite Hro. set (key := mkKey _ _ _).
  destruct (map_find (index_ b) key) as [m|] eqn:Ef.
  2: { eexists false, _, pre, post. split; [reflexivity|]. split; [|done]. apply (inv_same b); try done. split; [apply Z.le_refl|apply HI]. }
  destruct (indexed_chunk b pre post z _ _ HI Ef) as (l1 & r & l2 & E & Hr & Hk & Hpd & Ho & Ho16 & Hm & Hl1 & Hl2 & Hd & Hg & Hle).
  rewrite Hg. cbn [mbind option_bind]. rewrite bool_decide_eq_true_2 by done. cbn [negb with_used size_ data_].
  change (cr_size (r_hdr r)) with (rsize r). rewrite (proj2 (Z.ltb_ge _ _)) by lia.
  pose proof Hr as (Hh & Hr1 & Hr2 & Hr3). unfold kChunkRecordSize in Hr1, Hr3.
  pose proof (tb_size _ _ _ _ HI) as Hsz. pose proof (tb_used _ _ _ _ HI) as Hus.
  pose proof (apply_patches_ok patches (layout l1 ++ cr_bytes (r_hdr r)) (r_payload r) (layout l2 ++ replicate z 0)
    (record_off m) Hp) as Ea.
  replace (record_off m + 16 + Z.of_nat (length (r_payload r))) with (record_off m + rsize r) in Ea by lia.
  rewrite length_app, length_cr_bytes in Ea. specialize (Ea ltac:(lia) ltac:(lia) ltac:(lia)).
  assert (Ed : data_ b = (layout l1 ++ cr_bytes (r_hdr r)) ++ r_payload r ++ layout l2 ++ replicate z 0).
  { rewrite Hd. unfold rec_bytes. by rewrite <- !app_assoc. }
  rewrite Ed, Ea. cbn [mbind option_bind]. clear Ea.
  set (p' := fst (patch_payload (r_payload r) patches)). set (ok := snd (patch_payload (r_payload r) patches)).
  assert (Hfin : forall b' h' m', h' = (if ok && negb pending then patched_hdr (r_hdr r) else r_hdr r) -> meta_ok m' h' ->
    record_off m' = record_off m -> data_ b' = layout l1 ++ (cr_bytes h' ++ p') ++ layout l2 ++ replicate z 0 ->
    index_ b' = map_update (index_ b) key m' -> kept b b' -> wptr_ b' = wptr_ b -> used_size_ b <= used_size_ b' <= size_ b ->
    exists ok0 b0 pre' post', Some (ok, b') = Some (ok0, b0) /\ tb_inv b0 pre' post' z /\ read_only_ b0 = false /\
      patched key (record_off m) patches pending ok0 (pre ++ post) (pre' ++ post')).
  { intros b' h' m' -> Hm' Ho' Hd' Hi' Hkp Hw' Hu'.
    destruct (patch_finish b b' pre post z key patches pending l1 r l2 m') as (pre' & post' & ? & ?); try done; [congruence|].
    exists ok, b', pre', post'. split; [done|]. split; [done|]. split; [by rewrite (kp_ro _ _ Hkp)|]. by rewrite <- Ho'. }
  assert (Hu16 : used_size_ b <= used_size_ b `max` (record_off m + 16) <= size_ b) by lia.
  assert (Hflat : forall h', layout l1 ++ (cr_bytes h' ++ p') ++ layout l2 ++ replicate z 0 =
    (layout l1 ++ cr_bytes h') ++ p' ++ layout l2 ++ replicate z 0) by (intros h'; by rewrite <- !app_assoc).
  destruct ok eqn:Eok; cbn [negb]; [destruct pending|].
  - apply (Hfin _ (r_hdr r) m); try done. by rewrite map_update_id.
  - cbn [stat_inc with_stats with_data with_used with_index data_ index_]. destruct Hm as (M1 & M2 & M3 & M4).
    assert (Hpz : cr_is_padding (r_hdr r) = 0) by (unfold is_padding in Hpd; lia).
    assert (Hfl : 0 <= cr_flags (r_hdr r) < 64) by (by destruct Hh as (_ & _ & _ & _ & _ & ? & _)).
    pose proof (patched_flags_bounds _ Hfl) as Hfl'.
    assert (Efl : (flags m .& u8 (Z.lnot kChunkNeedsPatching)) .& kFlagsBitMask = cr_flags (patched_hdr (r_hdr r))).
    { cbn [patched_hdr cr_flags]. by rewrite <- M2, <- !Z.land_assoc, (Z.land_comm _ kFlagsBitMask). }
    rewrite Efl. destruct (store_flags (layout l1) (r_hdr r) (p' ++ layout l2 ++ replicate z 0) _ Hpz Hfl Hfl') as (old & E1 & E2).
    rewrite <- app_assoc. replace (Z.to_nat (record_off m + 12)) with (length (layout l1) + 12)%nat by lia.
    rewrite E1. cbn [mbind option_bind patched_hdr cr_flags]. rewrite E2. cbn [mbind option_bind].
    apply (Hfin _ (patched_hdr (r_hdr r)) (set_flags m (flags m .& u8 (Z.lnot kChunkNeedsPatching)))); try done.
    cbn [data_ with_data]. rewrite Hflat, <- app_assoc. unfold patched_hdr. by rewrite Hpz.
  - apply (Hfin _ (r_hdr r) m); try done. by rewrite map_update_id.
Qed.

(** ** Sequences of writes *)

Lemma Initialize_ok pol size :
  16 <= size <= 2 ^ 32 - 1 -> size mod 16 = 0 ->
  exists b, Create size pol = Some b /\ tb_inv b [] [] (Z.to_nat size) /\ read_only_ b = false /\
    overwrite_policy_ b = pol /\ index_ b = [].
Proof.
  intros Hs Hm. unfold Create, Initialize. rewrite (proj2 (Z.leb_le _ _)) by lia. eexists. split; [reflexivity|].
  split; [|done]. split; cbn; try done; try lia.
  - split; cbn; try done; [rewrite length_replicate; lia|by left].
  - split; cbn; [constructor|constructor|done|]. intros k o h Hin. by apply not_elem_of_nil in Hin.
Qed.

Inductive WriteOp :=
| WCopy (producer : Z) (ci : ClientIdentity) (writer chunk nfrag fl : Z) (complete : bool) (src : list Z)
| WPatch (producer writer chunk : Z) (patches : list Patch) (pending : bool).

Definition write_op_ok (o : WriteOp) : Prop :=
  match o with
  | WCopy producer _ writer chunk nfrag fl _ src => chunk_args producer writer chunk nfrag fl src
  | WPatch _ _ _ patches _ => Forall patch_ok patches
  end.

Definition run_write (b : TraceBuffer) (o : WriteOp) : option TraceBuffer :=
  match o with
  | WCopy producer ci writer chunk nfrag fl complete src =>
      CopyChunkUntrusted b producer ci writer chunk nfrag fl complete src
  | WPatch producer writer chunk patches pending =>
      snd <$> TryPatchChunkContents b producer writer chunk patches pending
  end.

Fixpoint run_writes (b : TraceBuffer) (os : list WriteOp) : option TraceBuffer :=
  match os with
  | [] => Some b
  | o :: os => b ← run_write b o; run_writes b os
  end.

Lemma run_writes_inv os : forall b pre post z,
  tb_inv b pre post z -> read_only_ b = false -> Forall write_op_ok os ->
  exists b' pre' post' z', run_writes b os = Some b' /\ tb_inv b' pre' post' z' /\ read_only_ b' = false.
Proof.
  induction os as [|o os IH]; intros b pre post z HI Hro H; [by exists b, pre, post, z|].
  apply Forall_cons in H as [Ho H]. cbn [run_writes]. destruct o as [p ci w c n fl co src|p w c ps pe]; cbn [run_write write_op_ok] in *.
  - destruct (CopyChunkUntrusted_ok b pre post z p ci w c n fl co src HI Hro Ho) as (b' & pre' & post' & z' & -> & H1 & H2 & _).
    cbn [mbind option_bind]. eauto.
  - destruct (TryPatch_ok b pre post z p w c ps pe HI Hro Ho) as (ok & b' & pre' & post' & -> & H1 & H2 & _).
    cbn [fmap option_fmap option_map mbind option_bind snd]. eauto.
Qed.

(** Chunks of a layout are told apart by their keys. *)
Lemma stored_unique idx l r1 r2 :
  index_ok idx (entries 0 l) -> r1 ∈ l -> r2 ∈ l -> is_padding r1 = false -> is_padding r2 = false ->
  key_of_record (r_hdr r1) = key_of_record (r_hdr r2) -> r1 = r2.
Proof.
  intros [_ Hnd _ _]. clear idx. revert Hnd. generalize 0 as off. induction l as [|r l IH]; intros off Hnd H1 H2 P1 P2 Hk.
  { by apply not_elem_of_nil in H1. }
  assert (Hin : forall r' off', r' ∈ l -> is_padding r' = false -> key_of_record (r_hdr r') ∈ fst <$> entries off' l).
  { clear. induction l as [|x l IH]; intros r' off' Hr Hp; [by apply not_elem_of_nil in Hr|]. cbn [entries]. rewrite fmap_app, elem_of_app.
    apply elem_of_cons in Hr as [->|Hr]; [left; rewrite Hp; left|right; by apply IH]. }
  cbn [entries] in Hnd. rewrite fmap_app in Hnd. apply NoDup_app in Hnd as (_ & Hdis & Hnd).
  apply elem_of_cons in H1 as [->|H1]; apply elem_of_cons in H2 as [->|H2]; [done| | |by apply (IH (off + rsize r))].
  - exfalso. apply (Hdis (key_of_record (r_hdr r))); [rewrite P1; left|]. rewrite Hk. by apply Hin.
  - exfalso. apply (Hdis (key_of_record (r_hdr r))); [rewrite P2; left|]. rewrite <- Hk. by apply Hin.
Qed.

Definition ex_ci : ClientIdentity := mkIdentity 1000 42 0.

(** Three chunks in a buffer of 64 octets: the third wraps and overwrites the first. *)
Definition ex_writes : list WriteOp :=
  [ WCopy 1 ex_ci 7 0 2 0 true (replicate 10 170); WCopy 1 ex_ci 7 1 1 kChunkNeedsPatching true (replicate 12 187);
    WPatch 1 7 1 [mkPatch 4 [1; 2; 3; 4]; mkPatch 13 [1; 2; 3; 4]] false; WPatch 1 7 1 [mkPatch 4 [1; 2; 3; 4]] false;
    WCopy 2 ex_ci 9 0 1 0 true (replicate 16 204) ].

Example ex_writes_result :
  (fun b => (wptr_ b, index_ b, stats_ b write_wrap_count, stats_ b chunks_overwritten, stats_ b patches_failed, data_ b)) <$>
    (b ← Create 64 kOverwrite; run_writes b ex_writes) =
  Some (32, [(mkKey 1 7 1, mkMeta 32 ex_ci kComplete 0 1 0 0); (mkKey 2 9 0, mkMeta 0 ex_ci kComplete 0 1 0 0)], 1, 1, 1,
    [0; 0; 0; 0; 2; 0; 9; 0; 1; 0; 32; 0; 0; 67; 72; 85] ++ replicate 16 204 ++
    [1; 0; 0; 0; 1; 0; 7; 0; 1; 0; 32; 0; 0; 67; 72; 85] ++ replicate 4 187 ++ [1; 2; 3; 4] ++ replicate 4 187 ++ replicate 4 0).
Proof. vm_compute. reflexivity. Qed.

(** C13: a chunk that a buffer accepts and that is not indexed yet is there
    afterwards, octet by octet: the index finds its offset, the header at that
    offset is its header, and its payload follows. *)
Theorem copied_chunk_readable b pre post z producer ci writer chunk nfrag fl complete src :
  tb_inv b pre post z -> read_only_ b = false -> chunk_args producer writer chunk nfrag fl src ->
  overwrite_policy_ b = kOverwrite -> chunk_record_size src <= max_chunk_size_ b ->
  map_find (index_ b) (mkKey producer writer chunk) = None ->
  exists b' off, CopyChunkUntrusted b producer ci writer chunk nfrag fl complete src = Some b' /\
    map_find (index_ b') (mkKey producer writer chunk) = Some (new_meta nfrag fl complete ci off) /\
    fst <$> GetChunkRecordAt b' off = Some (chunk_header producer writer chunk nfrag fl complete src) /\
    mem_read (data_ b') (Z.to_nat (off + kChunkRecordSize)) (length src) = Some src.
Proof.
  intros HI Hro Ha Hpol Hfit Hfr.
  destruct (CopyChunkUntrusted_ok b pre post z producer ci writer chunk nfrag fl complete src HI Hro Ha)
    as (b' & pre' & post' & z' & E & HI' & _ & Hout). set (h := chunk_header _ _ _ _ _ _ _) in *.
  assert (Hk : key_of_record h = mkKey producer writer chunk).
  { unfold h, chunk_header. by destruct (DisregardLast nfrag fl complete). }
  destruct Hout as [| _ Hcp | m Hf _]; [lia| |by rewrite Hk, Hfr in Hf].
  destruct Hcp as [|off Hf Hin _ _ _]; [congruence|]. exists b', off. rewrite Hk in Hf. split; [done|]. split; [done|].
  destruct (indexed_chunk b' pre' post' z' _ _ HI' Hf) as (l1 & r & l2 & Hall & Hr & Hrk & Hnp & Ho & Ho16 & _ & Hl1 & _ & Hd & Hg & _).
  assert (Eo : record_off (new_meta nfrag fl complete ci off) = off).
  { unfold new_meta. by destruct (DisregardLast nfrag fl complete). }
  rewrite Eo in *.
  assert (Er : r = stored_rec h src).
  { apply (stored_unique (index_ b') (pre' ++ post')); try done; [apply HI'|rewrite Hall; set_solver| |by rewrite Hrk, <- Hk].
    unfold is_padding, stored_rec, h, chunk_header. by destruct (DisregardLast nfrag fl complete). }
  subst r. rewrite Hg, Ho. split; [done|]. rewrite Hd. unfold rec_bytes. cbn [stored_rec r_hdr r_payload].
  rewrite <- !app_assoc, app_assoc.
  replace (Z.to_nat (Z.of_nat (length (layout l1)) + kChunkRecordSize)) with (length (layout l1 ++ cr_bytes h))
    by (rewrite length_app, length_cr_bytes; unfold kChunkRecordSize; lia).
  by apply mem_read_at.
Qed.

(** C14: a [kDiscard] buffer loses no packet that is still to be read: whatever
    is committed, every other chunk with unread packets keeps its index entry and
    its record, header and payload. *)
Theorem discard_keeps_unread b pre post z producer ci writer chunk nfrag fl complete src r m :
  tb_inv b pre post z -> read_only_ b = false -> chunk_args producer writer chunk nfrag fl src ->
  overwrite_policy_ b = kDiscard -> r ∈ pre ++ post -> is_padding r = false ->
  map_find (index_ b) (key_of_record (r_hdr r)) = Some m -> num_fragments_read m < num_fragments m ->
  key_of_record (r_hdr r) <> mkKey producer writer chunk ->
  exists b' pre' post' z', CopyChunkUntrusted b producer ci writer chunk nfrag fl complete src = Some b' /\
    tb_inv b' pre' post' z' /\ map_find (index_ b') (key_of_record (r_hdr r)) = Some m /\ r ∈ pre' ++ post'.
Proof.
  intros HI Hro Ha Hpol Hin Hnp Hf Hrd Hne.
  destruct (CopyChunkUntrusted_ok b pre post z producer ci writer chunk nfrag fl complete src HI Hro Ha)
    as (b' & pre' & post' & z' & E & HI' & _ & Hout). set (h := chunk_header _ _ _ _ _ _ _) in *.
  assert (Hk : key_of_record h = mkKey producer writer chunk).
  { unfold h, chunk_header. by destruct (DisregardLast nfrag fl complete). }
  exists b', pre', post', z'. split; [done|]. split; [done|]. rewrite <- Hk in Hne.
  assert (Hkeep : map_find (index_ b') (key_of_record (r_hdr r)) = Some m ->
    survive (stored_rec h src :: pre ++ post) (pre' ++ post') -> r ∈ pre' ++ post').
  { intros Hf' Hsv. destruct (indexed_chunk b' pre' post' z' _ _ HI' Hf') as (l1 & x & l2 & Hall & _ & Hxk & Hxp & _).
    assert (Hx : x ∈ pre' ++ post') by (rewrite Hall; set_solver). destruct (Hsv x Hx) as [?|[->|Hx2]%elem_of_cons]; [congruence|done|].
    by rewrite (stored_unique (index_ b) (pre ++ post) r x) by (done || apply HI). }
  destruct Hout as [_ Hall Hi | _ [_ _ [_ S2] Hsv|off _ _ Hsv _ S2] | m' _ [Hall Hi|l1 x l2 Hall Hxk _ _ Hall' Hix]].
  - split; [by rewrite Hi|by rewrite Hall].
  - assert (Hf' : map_find (index_ b') (key_of_record (r_hdr r)) = Some m) by (by apply S2). split; [done|].
    apply Hkeep; [done|]. intros x Hx. destruct (Hsv x Hx); [by left|right; by right].
  - assert (Hf' : map_find (index_ b') (key_of_record (r_hdr r)) = Some m) by (by apply S2). split; [done|]. by apply Hkeep.
  - split; [by rewrite Hi|by rewrite Hall].
  - split; [by rewrite Hix|]. rewrite Hall'. rewrite Hall in Hin. apply elem_of_app in Hin as [?|[->|?]%elem_of_cons]; [|done|]; set_solver.
Qed.

(** A buffer of 64 octets with two chunks, the first read. *)
Definition ex_rec0 : rec := mkRec (mkChunkRecord 0 1 7 2 32 0 0) (replicate 10 170 ++ replicate 6 0).
Definition ex_rec1 : rec := mkRec (mkChunkRecord 1 1 7 1 32 4 0) (replicate 12 187 ++ replicate 4 0).
Definition ex_buffer (pol : OverwritePolicy) : TraceBuffer :=
  mkTB (layout [ex_rec0; ex_rec1]) 64 64 64 0
    [(mkKey 1 7 0, mkMeta 0 ex_ci kComplete 0 2 2 10); (mkKey 1 7 1, mkMeta 32 ex_ci kComplete 4 1 0 0)]
    iter_end pol false false {[(1, 7) := 1]} (fun _ => 0) ∅ true true.

Lemma ex_buffer_inv pol : tb_inv (ex_buffer pol) [] [ex_rec0; ex_rec1] 0.
Proof.
  split; try done.
  - split; try done; [by right|]. repeat apply Forall_cons_2; [..|apply Forall_nil_2];
      unfold rec_ok, hdr_ok, rsize, is_u32, is_u16, kChunkRecordSize; split_and!; done.
  - split.
    + intros k m. cbn [ex_buffer index_ map_find last_chunk_id_written_]. repeat (case_decide; [intros _; subst k; by eexists|]). done.
    + intros pw c. cbn [ex_buffer last_chunk_id_written_]. by intros [<- <-]%lookup_singleton_Some.
  - split.
    + repeat constructor.
    + apply (bool_decide_unpack (NoDup _)). vm_compute. exact I.
    + intros k m. cbn [ex_buffer index_ map_find].
      case_decide as E1; [intros [= <-]; subst k; exists (r_hdr ex_rec0); split; [left|by repeat split]|].
      case_decide as E2; [intros [= <-]; subst k; exists (r_hdr ex_rec1); split; [right; left|by repeat split]|]. done.
    + cbn. intros k o h Hin. apply elem_of_cons in Hin as [[= -> -> ->]|Hin]; [by eexists|].
      apply list_elem_of_singleton in Hin as [= -> -> ->]. by eexists.
Qed.

Lemma copied_chunk_readable_witness :
  exists b' off, CopyChunkUntrusted (ex_buffer kOverwrite) 2 ex_ci 9 0 1 0 true (replicate 16 204) = Some b' /\
    map_find (index_ b') (mkKey 2 9 0) = Some (new_meta 1 0 true ex_ci off) /\
    fst <$> GetChunkRecordAt b' off = Some (chunk_header 2 9 0 1 0 true (replicate 16 204)) /\
    mem_read (data_ b') (Z.to_nat (off + kChunkRecordSize)) (length (replicate 16 204)) = Some (replicate 16 204).
Proof.
  apply (copied_chunk_readable (ex_buffer kOverwrite) [] [ex_rec0; ex_rec1] 0);
    [apply ex_buffer_inv|done|by unfold chunk_args, is_u16, is_u32, is_u8; split_and!|done|by vm_compute|done].
Defined.

(** The second chunk is unread, so the chunk that needs its place is dropped. *)
Lemma discard_keeps_unread_witness :
  exists b' pre' post' z', CopyChunkUntrusted (ex_buffer kDiscard) 2 ex_ci 9 0 1 0 true (replicate 40 204) = Some b' /\
    tb_inv b' pre' post' z' /\ map_find (index_ b') (mkKey 1 7 1) = Some (mkMeta 32 ex_ci kComplete 4 1 0 0) /\
    ex_rec1 ∈ pre' ++ post'.
Proof.
  apply (discard_keeps_unread (ex_buffer kDiscard) [] [ex_rec0; ex_rec1] 0 2 ex_ci 9 0 1 0 true (replicate 40 204) ex_rec1);
    [apply ex_buffer_inv|done|by unfold chunk_args, is_u16, is_u32, is_u8; split_and!|done|set_solver|done|done|by vm_compute|done].
Defined.

Lemma lookup_same_mid (a x y t : list Z) i :
  length x = length y -> (i < length a \/ length a + length x <= i)%nat -> (a ++ x ++ t) !! i = (a ++ y ++ t) !! i.
Proof.
  intros E [H|H]; [by rewrite !lookup_app_l by done|]. rewrite !(lookup_app_r a) by lia.
  rewrite !lookup_app_r by lia. by rewrite E.
Qed.

(** Only the flags octet of the header may change. *)
Lemma patched_hdr_octets (c : bool) h p p' i :
  (i < 16)%nat -> i <> 12%nat ->
  (cr_bytes (if c then patched_hdr h else h) ++ p) !! i = (cr_bytes h ++ p') !! i.
Proof.
  intros Hi Hn. rewrite !lookup_app_l by (rewrite length_cr_bytes; lia). destruct c; [|done].
  do 16 (destruct i as [|i]; [done|]). lia.
Qed.

(** C17: patches of untrusted offsets stay inside the payload of the chunk they
    name: no octet of the buffer outside of it changes, but for the flags of its
    header. The payload gets the patches up to the first that is out of its
    bounds, and the result says whether there was one. *)
Theorem patch_stays_in_chunk b pre post z producer writer chunk patches pending m h u p :
  tb_inv b pre post z -> read_only_ b = false -> Forall patch_ok patches ->
  map_find (index_ b) (mkKey producer writer chunk) = Some m ->
  GetChunkRecordAt b (record_off m) = Some (h, u) ->
  mem_read (data_ b) (Z.to_nat (record_off m + 16)) (Z.to_nat (cr_size h - 16)) = Some p ->
  exists ok b', TryPatchChunkContents b producer writer chunk patches pending = Some (ok, b') /\
    length (data_ b') = length (data_ b) /\ ok = snd (patch_payload p patches) /\
    mem_read (data_ b') (Z.to_nat (record_off m + 16)) (Z.to_nat (cr_size h - 16)) = Some (fst (patch_payload p patches)) /\
    forall i : nat, (Z.of_nat i < record_off m + 16 \/ record_off m + cr_size h <= Z.of_nat i) -> Z.of_nat i <> record_off m + 12 ->
      data_ b' !! i = data_ b !! i.
Proof.
  intros HI Hro Hp Hf Hg Hrd.
  destruct (TryPatch_ok b pre post z producer writer chunk patches pending HI Hro Hp) as (ok & b' & pre' & post' & E & HI' & _ & Hpt).
  rewrite Hf in Hpt. destruct Hpt as [l1 r l2 Hall Hk Ho Hok Hall'].
  assert (Hok1 : Forall rec_ok (l1 ++ r :: l2)) by (rewrite <- Hall; apply Forall_app; by destruct (tb_lay _ _ _ _ HI)).
  apply Forall_app in Hok1 as [Hl1 [Hr _]%Forall_cons]. set (r' := mkRec _ _) in Hall'.
  destruct (lay_replace _ _ _ _ _ _ l1 r l2 r (tb_lay _ _ _ _ HI) Hall Hr eq_refl) as [Hd _].
  assert (Hr' : rec_ok r').
  { assert (Hok1 : Forall rec_ok (l1 ++ r' :: l2)) by (rewrite <- Hall'; apply Forall_app; by destruct (tb_lay _ _ _ _ HI')).
    apply Forall_app in Hok1 as [_ [? _]%Forall_cons]. done. }
  destruct (lay_replace _ _ _ _ _ _ l1 r' l2 r' (tb_lay _ _ _ _ HI') Hall' Hr' eq_refl) as [Hd' _].
  rewrite Ho, (GetChunkRecordAt_rec b (layout l1) r (layout l2 ++ replicate z 0)) in Hg;
    [|done|done|by destruct (tb_lay _ _ _ _ HI)|by apply lsize_mod].
  injection Hg as <- _. pose proof (patch_payload_length patches (r_payload r) Hp) as Hpl.
  assert (Hn : Z.to_nat (cr_size (r_hdr r) - 16) = length (r_payload r)).
  { destruct Hr as (_ & _ & _ & Hr). unfold rsize, kChunkRecordSize in Hr. lia. }
  assert (Hoff : Z.to_nat (record_off m + 16) = length (layout l1 ++ cr_bytes (r_hdr r))) by (rewrite length_app, length_cr_bytes; lia).
  assert (Hsz : cr_size (r_hdr r) = 16 + Z.of_nat (length (r_payload r))).
  { destruct Hr as (_ & _ & _ & Hr). unfold rsize, kChunkRecordSize in Hr. lia. }
  assert (Hlr : length (rec_bytes r') = length (rec_bytes r)).
  { unfold rec_bytes, r'. cbn [r_hdr r_payload]. by rewrite !length_app, !length_cr_bytes, Hpl. }
  assert (Hp' : p = r_payload r).
  { rewrite Hd, Hoff, Hn in Hrd. unfold rec_bytes in Hrd. rewrite <- app_assoc, app_assoc in Hrd.
    rewrite mem_read_at in Hrd by done. by simplify_eq. }
  subst p. exists ok, b'. split; [done|]. split; [by rewrite Hd, Hd', !length_app, Hlr|]. split; [done|]. split.
  - rewrite Hd', Hoff, Hn. unfold rec_bytes, r'. cbn [r_hdr r_payload]. rewrite <- app_assoc, app_assoc.
    rewrite (length_app (layout l1)), length_cr_bytes. erewrite <- length_cr_bytes, <- length_app. by apply mem_read_at.
  - intros i Hi Hne. rewrite Hd, Hd'. destruct (decide (length (layout l1) <= i < length (layout l1) + 16)%nat) as [Hin|Hout].
    + unfold rec_bytes, r'. cbn [r_hdr r_payload]. rewrite !(lookup_app_r (layout l1)) by lia.
      rewrite <- !app_assoc. apply patched_hdr_octets; lia.
    + apply lookup_same_mid; [done|]. rewrite Hlr. unfold rec_bytes. rewrite length_app, length_cr_bytes. lia.
Qed.

Lemma patch_stays_in_chunk_witness :
  exists ok b', TryPatchChunkContents (ex_buffer kOverwrite) 1 7 1 [mkPatch 4 [1; 2; 3; 4]; mkPatch 13 [5; 6; 7; 8]] false = Some (ok, b') /\
    length (data_ b') = length (data_ (ex_buffer kOverwrite)) /\ ok = false /\
    mem_read (data_ b') 48 16 = Some (replicate 4 187 ++ [1; 2; 3; 4] ++ replicate 4 187 ++ replicate 4 0) /\
    forall i : nat, (Z.of_nat i < 48 \/ 64 <= Z.of_nat i) -> Z.of_nat i <> 44 -> data_ b' !! i = data_ (ex_buffer kOverwrite) !! i.
Proof.
  apply (patch_stays_in_chunk (ex_buffer kOverwrite) [] [ex_rec0; ex_rec1] 0 1 7 1 [mkPatch 4 [1; 2; 3; 4]; mkPatch 13 [5; 6; 7; 8]] false
    (mkMeta 32 ex_ci kComplete 4 1 0 0) (r_hdr ex_rec1) (ex_buffer kOverwrite) (r_payload ex_rec1)); try done; [apply ex_buffer_inv|].
  repeat apply Forall_cons_2; [..|apply Forall_nil_2]; done.
Defined.
