(* ===== verification/TraceBufferRead.v ===== *)
(** * The trace buffer: read path

    Models the reading half of src/tracing/service/trace_buffer.{h,cc}:
    [BeginRead], [GetReadIterForSequence], [SequenceIterator::MoveNext],
    [ReadNextTracePacket], [ReadAhead], [ReadNextPacketInChunk].

    Iterators into [index_] are the keys they point to, [None] for [end()];
    reading changes values of the index but never its keys. A packet is the list
    of its slices, each an offset into [data_] and a length. As in TraceBuffer.v
    [None] is an access outside [data_] or of an invalid iterator, a failed check,
    or a loop that needs more than [fuel] rounds; every loop gets the same [fuel],
    and [kEnoughFuel] is shown to be enough for all of them, over any buffer.

    The two [DCHECK]s at the head of [ReadNextPacketInChunk] and the one on
    [num_fragments_read] in [ReadNextTracePacket] are recorded ([dcheck]): the last
    section shows a sequence of commits that breaks the first, and
    TraceBufferDchecks.v that commits in the order of their ids never do. *)

From S2P Require Import Prelude ProtoUtils Histogram TraceBuffer.

(** ** Sequences of chunks *)

Definition is_valid (it : SequenceIterator) : bool := negb (bool_decide (cur it = seq_end it)).

Definition MoveToEnd (it : SequenceIterator) : SequenceIterator :=
  mkIter (seq_begin it) (seq_end it) (seq_end it) (wrapping_id it).

Definition set_cur (it : SequenceIterator) (c : option Key) : SequenceIterator :=
  mkIter (seq_begin it) (seq_end it) c (wrapping_id it).

(** [*it]: its key and entry. *)
Definition deref (idx : ChunkMap) (c : option Key) : option (Key * ChunkMeta) :=
  k ← c; m ← map_find idx k; Some (k, m).

Definition set_chunk_id (k : Key) (c : Z) : Key := mkKey (producer_id k) (writer_id k) c.

(** [std::tie(producer_id, writer_id)], compared. *)
Definition seq_ltb (a b : Key) : bool :=
  (producer_id a <? producer_id b) || ((producer_id a =? producer_id b) && (writer_id a <? writer_id b)).

(** The entry before an iterator: [prev_it--]. *)
Definition map_prev (m : ChunkMap) (k : Key) : option Key := last (filter (fun x => key_ltb x k = true) (fst <$> m)).

Definition GetReadIterForSequence (b : TraceBuffer) (sb : option Key) : option SequenceIterator :=
  match sb with
  | None => Some (mkIter None None None 0)
  | Some k =>
      '(key, _) ← deref (index_ b) (Some k);
      _ ← (match map_prev (index_ b) k with
           | None => Some tt
           | Some prev => if seq_ltb prev key then Some tt else None
           end);
      let se := upper_bound (index_ b) (set_chunk_id key kMaxChunkID) in
      if bool_decide (Some k = se) then None
      else
        wid ← last_chunk_id_written_ b !! (producer_id key, writer_id key);
        let c := upper_bound (index_ b) (set_chunk_id key wid) in
        Some (mkIter (Some k) se (if bool_decide (c = se) then Some k else c) wid)
  end.

Definition MoveNext (idx : ChunkMap) (it : SequenceIterator) : option SequenceIterator :=
  if bool_decide (cur it = seq_end it) then Some (MoveToEnd it)
  else
    '(k, m) ← deref idx (cur it);
    if chunk_id k =? wrapping_id it then Some (MoveToEnd it)
    else if negb (is_complete m) then Some (MoveToEnd it)
    else
      let next := upper_bound idx k in
      let next := if bool_decide (next = seq_end it) then seq_begin it else next in
      '(k', _) ← deref idx next;
      if u32 (chunk_id k + 1) =? chunk_id k' then Some (set_cur it next) else Some (MoveToEnd it).

Definition BeginRead (b : TraceBuffer) : option TraceBuffer :=
  it ← GetReadIterForSequence b (map_begin (index_ b));
  Some (with_iter b it).

(** ** One fragment of a chunk *)

Definition Slice : Type := Z * Z.

Inductive ReadPacketResult := kSucceeded | kFailedInvalidPacket | kFailedEmptyPacket.

#[export] Instance ReadPacketResult_eq_dec : EqDecision ReadPacketResult.
Proof. solve_decision. Defined.

Definition MkProducerAndWriterID (p w : Z) : Z := (p << 16) .| w.

Definition used_chunk_thresholds : list Z := [8; 32; 128; 512; 1024; 2048; 4096; 8192; 12288; 16384].

Definition update_meta (b : TraceBuffer) (k : Key) (m : ChunkMeta) : TraceBuffer :=
  with_index b (map_update (index_ b) k m).

(** The chunk was fully read. *)
Definition count_chunk_read (b : TraceBuffer) (m : ChunkMeta) (size : Z) : TraceBuffer :=
  if is_complete m then stat_inc (stat_inc b chunks_read 1) bytes_read size else b.

(** The common end of the two invalid-packet branches. *)
Definition invalid_packet (b : TraceBuffer) (k : Key) (m : ChunkMeta) (size : Z) (why : Stat) : TraceBuffer :=
  let b := stat_inc b why 1 in
  let m := set_read_state m (num_fragments m) 0 in
  count_chunk_read (update_meta b k m) m size.

(** The packet is only appended to when there is one ([TracePacket*] not null). *)
Definition ReadNextPacketInChunk (b : TraceBuffer) (pw : Z) (k : Key) (packet : option (list Slice))
    : option (ReadPacketResult * option (list Slice) * TraceBuffer) :=
  m ← map_find (index_ b) k;
  let b := dcheck b ((num_fragments_read m <? num_fragments m) && (flags m .& kChunkNeedsPatching =? 0)) in
  if negb (within_bounds b (record_off m)) then None
  else
    hdr ← mem_read (data_ b) (Z.to_nat (record_off m)) 16;
    let size := cr_size (cr_of_bytes hdr) in
    let record_end := record_off m + size in
    let packets_begin := record_off m + kChunkRecordSize in
    let packet_begin := packets_begin + cur_fragment_offset m in
    if (packet_begin <? packets_begin) || (record_end <=? packet_begin) then
      Some (kFailedInvalidPacket, packet, invalid_packet b k m size abi_violations)
    else
      let header_end := Z.min (packet_begin + Z.of_nat kMessageLengthFieldSize) record_end in
      octets ← mem_read (data_ b) (Z.to_nat packet_begin) (Z.to_nat (header_end - packet_begin));
      let '(n, packet_size) := ParseVarInt octets in
      let packet_data := packet_begin + Z.of_nat n in
      let next_packet := packet_data + packet_size in
      if (next_packet <=? packet_begin) || (record_end <? next_packet) then
        Some (kFailedInvalidPacket, packet,
          invalid_packet b k m size
            (if negb (packet_size =? kPacketSizeDropPacket) then abi_violations else trace_writer_packet_loss))
      else
        let m := set_read_state m (u16 (num_fragments_read m + 1)) (u16 (next_packet - packets_begin)) in
        let b :=
          if (num_fragments_read m =? num_fragments m) && is_complete m then
            let b := stat_inc (stat_inc b chunks_read 1) bytes_read size in
            let h := default (hist_init used_chunk_thresholds) (writer_stats_ b !! pw) in
            with_wstats b (<[pw := Add used_chunk_thresholds h (cur_fragment_offset m)]> (writer_stats_ b))
          else b in
        let b := update_meta b k (set_last_read_packet_skipped m false) in
        if packet_size =? 0 then Some (kFailedEmptyPacket, packet, b)
        else Some (kSucceeded, (fun p => p ++ [(packet_data, packet_size)]) <$> packet, b).

(** ** Packets that span chunks *)

Inductive ReadAheadResult := kSucceededReturnSlices | kFailedMoveToNextSequence | kFailedStayOnSameSequence.

(** The search: the iterator of the chunk with the last fragment. *)
Fixpoint readahead_search (fuel : nat) (idx : ChunkMap) (it : SequenceIterator) (next_chunk_id : Z)
    : option (option SequenceIterator) :=
  match fuel with
  | O => None
  | S fuel =>
      if negb (is_valid it) then Some None
      else
        '(k, m) ← deref idx (cur it);
        let continue :=
          it ← MoveNext idx it;
          readahead_search fuel idx it (u32 (next_chunk_id + 1)) in
        if num_fragments m =? 0 then continue
        else if negb (chunk_id k =? next_chunk_id) || (flags m .& kFirstPacketContinuesFromPrevChunk =? 0) then Some None
        else if negb (flags m .& kChunkNeedsPatching =? 0) then Some None
        else if (num_fragments m =? 1) && negb (flags m .& kLastPacketContinuesOnNextChunk =? 0) then continue
        else Some (Some it)
  end.

(** The commit: read a fragment of each chunk from [read_iter_] to [it]. *)
Fixpoint readahead_commit (fuel : nat) (b : TraceBuffer) (last : option Key) (packet : list Slice) (corrupt : bool)
    : option (list Slice * bool * TraceBuffer) :=
  match fuel with
  | O => None
  | S fuel =>
      if negb (is_valid (read_iter_ b)) then None
      else
        '(k, m) ← deref (index_ b) (cur (read_iter_ b));
        '(packet, corrupt, b) ←
          (if 0 <? num_fragments m then
             '(r, p, b) ← ReadNextPacketInChunk b (MkProducerAndWriterID (producer_id k) (writer_id k)) k (Some packet);
             Some (default [] p, corrupt || bool_decide (r = kFailedInvalidPacket), b)
           else Some (packet, corrupt, b));
        if bool_decide (cur (read_iter_ b) = last) then Some (packet, corrupt, b)
        else
          it ← MoveNext (index_ b) (read_iter_ b);
          readahead_commit fuel (with_iter b it) last packet corrupt
  end.

Definition ReadAhead (fuel : nat) (b : TraceBuffer) (packet : list Slice)
    : option (ReadAheadResult * list Slice * TraceBuffer) :=
  '(k, _) ← deref (index_ b) (cur (read_iter_ b));
  it ← MoveNext (index_ b) (read_iter_ b);
  found ← readahead_search fuel (index_ b) it (u32 (chunk_id k + 1));
  match found with
  | None => Some (kFailedMoveToNextSequence, packet, b)
  | Some it =>
      '(packet, corrupt, b) ← readahead_commit fuel b (cur it) packet false;
      if (corrupt : bool) then Some (kFailedStayOnSameSequence, [], b)
      else Some (kSucceededReturnSlices, packet, b)
  end.

(** ** ReadNextTracePacket *)

Record PacketSequenceProperties := mkProps {
  producer_id_trusted : Z;
  client_identity : ClientIdentity;
  sp_writer_id : Z
}.

Record ReadPacket := mkPacket {
  slices : list Slice;
  sequence_properties : PacketSequenceProperties;
  previous_packet_on_sequence_dropped : bool
}.

Inductive action := kSkip | kReadOnePacket | kTryReadAhead.

Definition next_action (m : ChunkMeta) : action :=
  if num_fragments_read m =? 0 then
    if negb (flags m .& kFirstPacketContinuesFromPrevChunk =? 0) then kSkip
    else if (num_fragments m =? 1) && negb (flags m .& kLastPacketContinuesOnNextChunk =? 0) then kTryReadAhead
    else kReadOnePacket
  else if (num_fragments_read m <? num_fragments m - 1) || (flags m .& kLastPacketContinuesOnNextChunk =? 0)
  then kReadOnePacket
  else kTryReadAhead.

(** How the loop over the fragments of a chunk ends. *)
Inductive ChunkOutcome :=
| OReturn (p : ReadPacket)
| OBreak (previous_packet_dropped : bool).

Definition skip_packet (b : TraceBuffer) (k : Key) : option TraceBuffer :=
  m ← map_find (index_ b) k;
  Some (update_meta b k (set_last_read_packet_skipped m true)).

(** The [while] loop; [k] is the chunk [chunk_meta] points to, [props] what the
    enclosing round read from the chunk it started with. *)
Fixpoint read_chunk (fuel : nat) (b : TraceBuffer) (k : Key) (props : PacketSequenceProperties) (dropped : bool)
    : option (ChunkOutcome * TraceBuffer) :=
  match fuel with
  | O => None
  | S fuel =>
      m ← map_find (index_ b) k;
      if num_fragments_read m <? num_fragments m then
        let pw := MkProducerAndWriterID (producer_id_trusted props) (sp_writer_id props) in
        match next_action m with
        | kSkip =>
            '(_, _, b) ← ReadNextPacketInChunk b pw k None;
            b ← skip_packet b k;
            read_chunk fuel b k props true
        | kReadOnePacket =>
            '(r, p, b) ← ReadNextPacketInChunk b pw k (Some []);
            match r with
            | kSucceeded => Some (OReturn (mkPacket (default [] p) props dropped), b)
            | kFailedEmptyPacket => read_chunk fuel b k props dropped
            | kFailedInvalidPacket =>
                b ← skip_packet b k;
                Some (OBreak true, b)
            end
        | kTryReadAhead =>
            '(r, p, b) ← ReadAhead fuel b [];
            match r with
            | kSucceededReturnSlices =>
                Some (OReturn (mkPacket p props dropped), stat_inc b readaheads_succeeded 1)
            | kFailedMoveToNextSequence =>
                let b := stat_inc b readaheads_failed 1 in
                Some (OBreak dropped, with_iter b (MoveToEnd (read_iter_ b)))
            | kFailedStayOnSameSequence =>
                k ← cur (read_iter_ b);
                b ← skip_packet b k;
                read_chunk fuel b k props true
            end
        end
      else Some (OBreak dropped, b)
  end.

(** One round of the [for] loop at a valid iterator. *)
Definition read_round (fuel : nat) (b : TraceBuffer) (dropped : bool) : option (ChunkOutcome * TraceBuffer) :=
  '(k, m) ← deref (index_ b) (cur (read_iter_ b));
  if negb (flags m .& kChunkNeedsPatching =? 0) then Some (OBreak dropped, with_iter b (MoveToEnd (read_iter_ b)))
  else
    let props := mkProps (producer_id k) (client_identity_trusted m) (writer_id k) in
    let b := dcheck b (num_fragments_read m <=? num_fragments m) in
    let dropped := if 0 <? num_fragments_read m then last_read_packet_skipped m else dropped in
    read_chunk fuel b k props dropped.

Fixpoint read_loop (n fuel : nat) (b : TraceBuffer) (dropped : bool) : option (option ReadPacket * TraceBuffer) :=
  match n with
  | O => None
  | S n =>
      let go (b : TraceBuffer) (dropped : bool) :=
        '(o, b) ← read_round fuel b dropped;
        match o with
        | OReturn p => Some (Some p, b)
        | OBreak dropped =>
            it ← MoveNext (index_ b) (read_iter_ b);
            read_loop n fuel (with_iter b it) dropped
        end in
      if is_valid (read_iter_ b) then go b dropped
      else
        match seq_end (read_iter_ b) with
        | None => Some (None, b)
        | Some k =>
            it ← GetReadIterForSequence b (Some k);
            if negb (is_valid it) then None else go (with_iter b it) true
        end
  end.

(** [None] as the inner result is [return false]. *)
Definition ReadNextTracePacket (fuel : nat) (b : TraceBuffer) : option (option ReadPacket * TraceBuffer) :=
  read_loop fuel fuel b true.

(** The reading idiom: [BeginRead(); while (ReadNextTracePacket(...)) ...]. *)
Fixpoint read_all (n fuel : nat) (b : TraceBuffer) : option (list ReadPacket * TraceBuffer) :=
  match n with
  | O => None
  | S n =>
      '(r, b) ← ReadNextTracePacket fuel b;
      match r with
      | None => Some ([], b)
      | Some p => '(ps, b) ← read_all n fuel b; Some (p :: ps, b)
      end
  end.

Definition read_session (fuel : nat) (b : TraceBuffer) : option (list ReadPacket * TraceBuffer) :=
  b ← BeginRead b;
  read_all fuel fuel b.

(** ** The index as an ordered set of keys *)

Definition has_key (idx : ChunkMap) (k : Key) : Prop := is_Some (map_find idx k).

Lemma has_key_elem idx k : has_key idx k <-> k ∈ fst <$> idx.
Proof.
  unfold has_key. induction idx as [|[k' v] idx IH]; cbn.
  - split; [by intros []|]. intros H. by apply not_elem_of_nil in H.
  - rewrite elem_of_cons. case_decide as E; [split; [by left|by eexists]|]. rewrite IH. split; [by right|].
    intros [?|?]; [congruence|done].
Qed.

Lemma upper_bound_keys idx idx' k : fst <$> idx = fst <$> idx' -> upper_bound idx k = upper_bound idx' k.
Proof.
  revert idx'. induction idx as [|[k1 v1] idx IH]; intros [|[k2 v2] idx']; cbn; try done. intros [= -> E].
  by rewrite (IH idx' E).
Qed.

Lemma key_le_lt_trans a b c : ~ key_lt b a -> key_lt b c -> key_lt a c.
Proof. unfold key_lt. rewrite !key_ltb_spec. lia. Qed.

(** [upper_bound] is the least greater key. *)
Lemma upper_bound_Some idx k k' :
  sorted idx -> upper_bound idx k = Some k' ->
  has_key idx k' /\ key_lt k k' /\ forall k2, has_key idx k2 -> key_lt k k2 -> ~ key_lt k2 k'.
Proof.
  intros Hs. induction Hs as [|[k1 v1] idx Hs IH Hall]; [done|]. cbn [upper_bound]. destruct (key_ltb k k1) eqn:E.
  - intros [= <-]. split; [|split; [done|]].
    + unfold has_key. cbn. rewrite decide_True by done. by eexists.
    + intros k2 [m Hk2] _. cbn in Hk2. case_decide as E2; [subst; apply key_lt_irrefl|].
      intros Hlt. apply map_find_elem in Hk2. rewrite Forall_forall in Hall. apply (key_lt_irrefl k1).
      apply (key_lt_trans _ k2); [|done]. apply (Hall (k2, m)). done.
  - intros Hu. destruct (IH Hu) as (H1 & H2 & H3). split; [|split; [done|]].
    + unfold has_key in *. cbn. case_decide; [by eexists|done].
    + intros k2 [m Hk2] Hlt. cbn in Hk2. case_decide as E2; [subst; unfold key_lt in Hlt; congruence|]. apply H3; [by eexists|done].
Qed.

Lemma upper_bound_None idx k k2 : upper_bound idx k = None -> has_key idx k2 -> ~ key_lt k k2.
Proof.
  rewrite has_key_elem. induction idx as [|[k1 v1] idx IH]; cbn; [intros _ H; by apply not_elem_of_nil in H|].
  destruct (key_ltb k k1) eqn:E; [done|]. intros Hu [->|H]%elem_of_cons; [unfold key_lt; congruence|auto].
Qed.

(** ** Sequences *)

(** Same producer and writer. *)
Definition same_seq (a b : Key) : Prop := producer_id a = producer_id b /\ writer_id a = writer_id b.

(** The first chunk of its sequence. *)
Definition first_of (idx : ChunkMap) (k : Key) : Prop := forall k2, has_key idx k2 -> key_lt k2 k -> seq_ltb k2 k = true.

Definition idx_ok (idx : ChunkMap) : Prop := sorted idx /\ forall k, has_key idx k -> is_u32 (chunk_id k).

(** [it] ranges over the chunks of one sequence, or over none. *)
Record seq_ok (idx : ChunkMap) (it : SequenceIterator) : Prop := {
  sq_wid : is_u32 (wrapping_id it);
  sq_cur : cur it = seq_end it \/
    exists kb k, seq_begin it = Some kb /\ cur it = Some k /\ has_key idx kb /\ has_key idx k /\ same_seq kb k;
  sq_end kb : seq_begin it = Some kb -> has_key idx kb /\ seq_end it = upper_bound idx (set_chunk_id kb kMaxChunkID);
  sq_end_key k : seq_end it = Some k -> has_key idx k /\ first_of idx k
}.

Lemma set_chunk_id_max idx k : idx_ok idx -> has_key idx k -> ~ key_lt (set_chunk_id k kMaxChunkID) k.
Proof.
  intros [_ Hu] Hk. unfold key_lt. rewrite key_ltb_spec. destruct (Hu k Hk). unfold kMaxChunkID. cbn. lia.
Qed.

(** The end of a sequence is no chunk of it. *)
Lemma seq_end_other idx kb k e :
  idx_ok idx -> has_key idx k -> same_seq kb k -> upper_bound idx (set_chunk_id kb kMaxChunkID) = Some e -> e <> k.
Proof.
  intros Hi Hk [E1 E2] Hu ->. destruct (upper_bound_Some _ _ _ (proj1 Hi) Hu) as (_ & Hlt & _).
  apply (set_chunk_id_max idx k Hi Hk). unfold set_chunk_id in *. by rewrite <- E1, <- E2.
Qed.

Lemma seq_end_first idx kb e :
  idx_ok idx -> upper_bound idx (set_chunk_id kb kMaxChunkID) = Some e -> has_key idx e /\ first_of idx e.
Proof.
  intros [Hs Hu] He. destruct (upper_bound_Some _ _ _ Hs He) as (Hk & Hlt & Hleast). split; [done|]. intros k2 Hk2 Hlt2.
  destruct (Hu e Hk) as [_ Hc]. assert (Hn : ~ key_lt (set_chunk_id kb kMaxChunkID) k2) by (intros H; by apply (Hleast k2)).
  unfold key_lt in *. rewrite key_ltb_spec in *. unfold set_chunk_id, kMaxChunkID, seq_ltb in *. cbn in *. lia.
Qed.

Lemma first_of_begin k m idx : sorted ((k, m) :: idx) -> first_of ((k, m) :: idx) k.
Proof.
  intros Hs k2 [m2 Hk2%map_find_elem] Hlt. exfalso. apply (key_lt_irrefl k). inversion Hs as [|? ? _ Hall]; subst.
  apply elem_of_cons in Hk2 as [[= -> ->]|Hin]; [done|]. rewrite Forall_forall in Hall. apply (key_lt_trans _ k2); [|done].
  apply (Hall (k2, m2) Hin).
Qed.

Lemma map_prev_first idx k : first_of idx k ->
  match map_prev idx k with None => Some tt | Some prev => if seq_ltb prev k then Some tt else None end = Some tt.
Proof.
  intros Hf. destruct (map_prev idx k) as [p|] eqn:E; [|done]. unfold map_prev in E.
  apply last_Some_elem_of, list_elem_of_filter in E as [Hlt Hin]. by rewrite Hf by (done || by apply has_key_elem).
Qed.

Lemma is_valid_key idx it : idx_ok idx -> seq_ok idx it -> is_valid it = true ->
  exists kb k, seq_begin it = Some kb /\ cur it = Some k /\ has_key idx kb /\ has_key idx k /\ same_seq kb k.
Proof.
  intros Hi [H1 H2 H3 _] Hv. unfold is_valid in Hv. apply negb_true_iff, bool_decide_eq_false in Hv. by destruct H2.
Qed.

(** The successor of a chunk of a sequence is in it or its end. *)
Lemma next_in_seq idx kb k :
  idx_ok idx -> has_key idx k -> same_seq kb k ->
  upper_bound idx k = upper_bound idx (set_chunk_id kb kMaxChunkID) \/
  exists k', upper_bound idx k = Some k' /\ has_key idx k' /\ same_seq kb k' .
Proof.
  intros Hi Hk [E1 E2]. pose proof Hi as [Hs Hu].
  assert (Hmax : forall x, key_lt (set_chunk_id kb kMaxChunkID) x -> key_lt k x).
  { intros x. pose proof (Hu k Hk) as [_ Hc]. unfold key_lt. rewrite !key_ltb_spec. unfold set_chunk_id, kMaxChunkID. cbn. lia. }
  destruct (upper_bound idx k) as [k'|] eqn:E.
  - destruct (upper_bound_Some _ _ _ Hs E) as (Hk' & Hlt & Hleast).
    destruct (decide (same_seq kb k')) as [Hsq|Hns]; [right; eauto|left].
    assert (Hgt : key_lt (set_chunk_id kb kMaxChunkID) k').
    { unfold same_seq in Hns. unfold key_lt in *. rewrite key_ltb_spec in *. unfold set_chunk_id. cbn. lia. }
    destruct (upper_bound idx (set_chunk_id kb kMaxChunkID)) as [e|] eqn:Ee.
    + destruct (upper_bound_Some _ _ _ Hs Ee) as (He & Hlte & Hle). f_equal.
      destruct (key_lt_total k' e) as [H|[H|H]]; [by apply Hle in H|done|]. apply Hleast in H; [done|done|by apply Hmax].
    + by apply (upper_bound_None _ _ k') in Ee.
  - left. destruct (upper_bound idx (set_chunk_id kb kMaxChunkID)) as [e|] eqn:Ee; [|done].
    destruct (upper_bound_Some _ _ _ Hs Ee) as (He & Hlte & _). apply (upper_bound_None _ _ e) in E; [|done]. by apply Hmax in Hlte.
Qed.

(** Steps left before the iterator passes [wrapping_id]. *)
Definition dist (it : SequenceIterator) : Z :=
  match cur it with Some k => (wrapping_id it - chunk_id k) mod 2 ^ 32 | None => 0 end.

(** Same sequence, another position. *)
Definition same_range (it it' : SequenceIterator) : Prop :=
  seq_begin it' = seq_begin it /\ seq_end it' = seq_end it /\ wrapping_id it' = wrapping_id it.

Lemma same_range_trans a b c : same_range a b -> same_range b c -> same_range a c.
Proof. unfold same_range. intuition congruence. Qed.

Lemma dist_bounds it : 0 <= dist it < 2 ^ 32.
Proof. unfold dist. destruct (cur it); [|lia]. apply Z.mod_pos_bound. lia. Qed.

Lemma MoveToEnd_ok idx it : seq_ok idx it -> seq_ok idx (MoveToEnd it) /\ same_range it (MoveToEnd it) /\ is_valid (MoveToEnd it) = false.
Proof.
  intros [H1 H2 H3 H4]. split; [|split; [done|]].
  - split; cbn; auto.
  - unfold is_valid. cbn. by rewrite bool_decide_eq_true_2.
Qed.

Lemma dist_step w c c' : is_u32 w -> is_u32 c -> c <> w -> u32 (c + 1) = c' ->
  (w - c') mod 2 ^ 32 = (w - c) mod 2 ^ 32 - 1.
Proof. unfold is_u32, u32. intros Hw Hc Hne <-. Z.div_mod_to_equations. lia. Qed.

Lemma MoveNext_ok idx it :
  idx_ok idx -> seq_ok idx it ->
  exists it', MoveNext idx it = Some it' /\ seq_ok idx it' /\ same_range it it' /\
    (is_valid it' = true -> is_valid it = true /\ dist it' = dist it - 1).
Proof.
  intros Hi Hsq. destruct (MoveToEnd_ok idx it Hsq) as (Me & Mr & Mv).
  assert (Hend : exists it', Some (MoveToEnd it) = Some it' /\ seq_ok idx it' /\ same_range it it' /\
    (is_valid it' = true -> is_valid it = true /\ dist it' = dist it - 1)).
  { exists (MoveToEnd it). split_and!; try done. by rewrite Mv. }
  unfold MoveNext. destruct (bool_decide (cur it = seq_end it)) eqn:Ev; [done|].
  assert (Hv : is_valid it = true) by (unfold is_valid; by rewrite Ev).
  destruct (is_valid_key idx it Hi Hsq Hv) as (kb & k & Eb & Ec & Hkb & Hk & Hsame).
  pose proof Hk as [m Hm]. rewrite Ec. unfold deref. cbn [mbind option_bind]. rewrite Hm. cbn [mbind option_bind].
  destruct (Z.eqb_spec (chunk_id k) (wrapping_id it)) as [|Hne]; [done|]. destruct (negb (is_complete m)); [done|].
  destruct (sq_end _ _ Hsq kb Eb) as [_ Ese]. rewrite Ese.
  set (nxt := if bool_decide (upper_bound idx k = _) then seq_begin it else upper_bound idx k).
  assert (Hn : exists k', nxt = Some k' /\ has_key idx k' /\ same_seq kb k').
  { unfold nxt. destruct (next_in_seq idx kb k Hi Hk Hsame) as [Hx|(k' & Hx & ? & ?)].
    - rewrite bool_decide_eq_true_2 by done. by exists kb.
    - destruct (bool_decide (upper_bound idx k = upper_bound idx (set_chunk_id kb kMaxChunkID))); [by exists kb|by exists k']. }
  destruct Hn as (k' & -> & Hk' & Hs'). pose proof Hk' as [m' Hm']. cbn [mbind option_bind]. rewrite Hm'.
  cbn [mbind option_bind]. destruct (Z.eqb_spec (u32 (chunk_id k + 1)) (chunk_id k')) as [Hid|]; [|done].
  exists (set_cur it (Some k')). split; [done|]. split; [|split; [done|]].
  - destruct Hsq as [H1 H2 H3 H4]. split; cbn; auto. right. exists kb, k'. done.
  - intros _. split; [done|]. unfold dist. cbn [cur set_cur wrapping_id]. rewrite Ec.
    apply dist_step; try done; [apply Hsq|by apply Hi].
Qed.

Lemma GetReadIter_ok b k :
  idx_ok (index_ b) -> last_covers (last_chunk_id_written_ b) (index_ b) -> has_key (index_ b) k -> first_of (index_ b) k ->
  exists it, GetReadIterForSequence b (Some k) = Some it /\ seq_ok (index_ b) it /\ is_valid it = true /\
    seq_end it = upper_bound (index_ b) (set_chunk_id k kMaxChunkID).
Proof.
  intros Hi [Hl Hu] Hk Hfirst. pose proof Hk as [m Hm]. unfold GetReadIterForSequence, deref. cbn [mbind option_bind].
  rewrite Hm. cbn [mbind option_bind]. rewrite map_prev_first by done. cbn [mbind option_bind]. set (se := upper_bound _ (set_chunk_id k kMaxChunkID)).
  assert (Hse : forall x, has_key (index_ b) x -> same_seq k x -> Some x <> se).
  { intros x Hx Hs E. by apply (seq_end_other (index_ b) k x x Hi Hx Hs). }
  rewrite bool_decide_eq_false_2 by (by apply Hse).
  destruct (Hl k m Hm) as [wid Hw]. rewrite Hw. cbn [mbind option_bind]. pose proof (Hu _ _ Hw) as Hw32.
  set (c := upper_bound _ (set_chunk_id k wid)).
  assert (Hc : exists x, (if bool_decide (c = se) then Some k else c) = Some x /\ has_key (index_ b) x /\ same_seq k x).
  { case_bool_decide as Hb; [exists k; by split_and!|]. unfold c in *.
    destruct (upper_bound (index_ b) (set_chunk_id k wid)) as [x|] eqn:Ex.
    - destruct (upper_bound_Some _ _ _ (proj1 Hi) Ex) as (Hx & Hlt & Hleast). exists x. split; [done|]. split; [done|].
      destruct (decide (same_seq k x)) as [|Hns]; [done|]. exfalso. apply Hb. unfold se.
      assert (Hgt : key_lt (set_chunk_id k kMaxChunkID) x).
      { unfold same_seq in Hns. unfold key_lt in *. rewrite key_ltb_spec in *. unfold set_chunk_id in *. cbn in *. lia. }
      destruct (upper_bound (index_ b) (set_chunk_id k kMaxChunkID)) as [e|] eqn:Ee.
      + destruct (upper_bound_Some _ _ _ (proj1 Hi) Ee) as (He & Hlte & Hle). f_equal.
        destruct (key_lt_total x e) as [H|[H|H]]; [by apply Hle in H|done|]. apply Hleast in H; [done|done|].
        unfold is_u32 in Hw32. unfold key_lt in *. rewrite key_ltb_spec in *. unfold set_chunk_id, kMaxChunkID in *. cbn in *. lia.
      + by apply (upper_bound_None _ _ x) in Ee.
    - exfalso. apply Hb. unfold se. destruct (upper_bound (index_ b) (set_chunk_id k kMaxChunkID)) as [e|] eqn:Ee; [|done].
      destruct (upper_bound_Some _ _ _ (proj1 Hi) Ee) as (He & Hlte & _). apply (upper_bound_None _ _ e) in Ex; [|done].
      exfalso. apply Ex. unfold is_u32 in Hw32. unfold key_lt in *. rewrite key_ltb_spec in *.
      unfold set_chunk_id, kMaxChunkID in *. cbn in *. lia. }
  destruct Hc as (x & -> & Hx & Hsx). eexists. split; [reflexivity|]. split; [|split; [|done]].
  - split; cbn.
    + done.
    + right. exists k, x. done.
    + intros kb [= <-]. done.
    + intros e He. by apply (seq_end_first _ k).
  - unfold is_valid. cbn. rewrite bool_decide_eq_false_2; [done|]. by apply Hse.
Qed.

(** ** What reading may change of the index *)

(** Same chunks, with the same completeness: all that iteration depends on. *)
Definition sim (idx idx' : ChunkMap) : Prop :=
  Forall2 (fun e e' => fst e = fst e' /\ is_complete (snd e) = is_complete (snd e')) idx idx'.

#[export] Instance sim_refl : Reflexive sim.
Proof. intros idx. apply Forall_Forall2_diag, Forall_forall. done. Qed.

#[export] Instance sim_trans : Transitive sim.
Proof.
  intros a b c H. revert c. induction H as [|x y a b [E1 E2] H IH]; intros c Hc; inversion Hc as [|? z ? d [E3 E4] Hd]; subst; [done|].
  constructor; [split; congruence|]. by apply IH.
Qed.

Lemma sim_keys idx idx' : sim idx idx' -> fst <$> idx = fst <$> idx'.
Proof. induction 1 as [|x y a b [E1 _] H IH]; [done|]. cbn. congruence. Qed.

Lemma sim_find idx idx' k m : sim idx idx' -> map_find idx k = Some m ->
  exists m', map_find idx' k = Some m' /\ is_complete m' = is_complete m.
Proof.
  induction 1 as [|[k1 m1] [k2 m2] a b [E1 E2] H IH]; [done|]. cbn in *. subst k2. case_decide; [|done].
  intros [= <-]. by exists m2.
Qed.

Lemma sim_has_key idx idx' k : sim idx idx' -> has_key idx k <-> has_key idx' k.
Proof. intros H. by rewrite !has_key_elem, (sim_keys _ _ H). Qed.

Lemma sim_update idx k m m' : map_find idx k = Some m -> is_complete m' = is_complete m -> sim idx (map_update idx k m').
Proof.
  induction idx as [|[k1 m1] idx IH]; [done|]. cbn. case_decide as E; intros H1 H2.
  - simplify_eq. constructor; [done|]. apply sim_refl.
  - constructor; [done|]. by apply IH.
Qed.

Lemma sim_idx_ok idx idx' : sim idx idx' -> idx_ok idx -> idx_ok idx'.
Proof.
  intros H [H1 H2]. split; [rewrite sorted_keys in *; by rewrite <- (sim_keys _ _ H)|].
  intros k Hk. apply H2. by rewrite (sim_has_key _ _ k H).
Qed.

Lemma sim_seq_ok idx idx' it : sim idx idx' -> seq_ok idx it -> seq_ok idx' it.
Proof.
  intros H [H1 H2 H3 H4]. split; [done| | |].
  - destruct H2 as [?|(kb & k & ? & ? & ? & ? & ?)]; [by left|]. right. exists kb, k. by rewrite <- !(sim_has_key idx idx').
  - intros kb Eb. rewrite <- (sim_has_key idx idx'), <- (upper_bound_keys idx idx') by (done || by apply sim_keys). auto.
  - intros k Ek. destruct (H4 k Ek) as [Hk Hf]. rewrite <- (sim_has_key idx idx') by done. split; [done|].
    intros k2. rewrite <- (sim_has_key idx idx') by done. apply Hf.
Qed.

(** Iteration does not see what reading changes. *)
Lemma sim_MoveNext idx idx' it : sim idx idx' -> idx_ok idx -> seq_ok idx it -> MoveNext idx' it = MoveNext idx it.
Proof.
  intros H Hi Hsq. unfold MoveNext. destruct (bool_decide (cur it = seq_end it)) eqn:Ev; [done|].
  assert (Hv : is_valid it = true) by (unfold is_valid; by rewrite Ev).
  destruct (is_valid_key idx it Hi Hsq Hv) as (kb & k & Eb & Ec & Hkb & [m Hm] & Hsame).
  destruct (sim_find _ _ _ _ H Hm) as (m' & Hm' & Hcm). rewrite Ec. unfold deref. cbn [mbind option_bind].
  rewrite Hm, Hm'. cbn [mbind option_bind]. rewrite Hcm, (upper_bound_keys idx idx') by (by apply sim_keys).
  destruct (_ =? _); [done|]. destruct (negb _); [done|].
  set (nxt := if bool_decide _ then _ else _). destruct nxt as [k'|]; [|done]. cbn [mbind option_bind].
  destruct (map_find idx k') as [x|] eqn:Ex.
  - destruct (sim_find _ _ _ _ H Ex) as (x' & -> & _). done.
  - destruct (map_find idx' k') as [x'|] eqn:Ex'; [|done].
    assert (Hk : has_key idx k') by (apply (sim_has_key _ _ _ H); by eexists). destruct Hk. congruence.
Qed.

Lemma complete_skipped m s : is_complete (set_last_read_packet_skipped m s) = is_complete m.
Proof.
  unfold is_complete, set_last_read_packet_skipped. cbn [set_index_flags index_flags]. do 2 f_equal.
  destruct s; [rewrite Z.land_lor_distr_l; change (kLastReadPacketSkipped .& kComplete) with 0; apply Z.lor_0_r|].
  rewrite <- Z.land_assoc. done.
Qed.

(** ** Reading one fragment *)

Lemma inv_idx_ok b pre post z : tb_inv b pre post z -> idx_ok (index_ b).
Proof.
  intros HI. split; [apply (ix_sorted _ _ (tb_index _ _ _ _ HI))|]. intros k [m Hm].
  destruct (indexed_chunk b pre post z k m HI Hm) as (l1 & r & l2 & _ & ((Hc & _) & _) & <- & _). done.
Qed.

(** A new read state for an indexed chunk. *)
Lemma inv_update_meta b b' pre post z k m m' :
  tb_inv b pre post z -> map_find (index_ b) k = Some m -> index_ b' = map_update (index_ b) k m' ->
  record_off m' = record_off m -> num_fragments m' = num_fragments m -> flags m' = flags m ->
  is_u16 (num_fragments_read m') -> is_u16 (cur_fragment_offset m') ->
  data_ b' = data_ b -> kept b b' -> wptr_ b' = wptr_ b -> used_size_ b' = used_size_ b ->
  tb_inv b' pre post z.
Proof.
  intros HI Hf Hi E1 E2 E3 E4 E5 Hd Hk Hw Hu. pose proof HI as [HL Hmod Hsz Hmx Hus Hwl Hds [Hla1 Hla2] Hix].
  destruct (ix_found _ _ Hix k m Hf) as (h & Hin & (M1 & M2 & _)). pose proof Hk as [K1 K2 K3 K4 K5 K6].
  split; rewrite ?Hd, ?K1, ?K2, ?K3, ?K5, ?K6, ?Hw, ?Hu, ?Hi; try done.
  - split; [|done]. intros k' m2 Hf2. rewrite find_update in Hf2. destruct (decide (k = k')) as [<-|]; [by eapply Hla1|by eapply Hla1].
  - apply list_elem_of_split in Hin as (es1 & es2 & Ees). rewrite Ees in *.
    eapply index_update; [exact Hix| |exact E1]. split; [congruence|]. split; [congruence|]. done.
Qed.

(** [s] lies in the payload of the stored chunk [k]. *)
Definition slice_of (all : list rec) (k : Key) (s : Slice) : Prop :=
  exists l1 r l2, all = l1 ++ r :: l2 /\ key_of_record (r_hdr r) = k /\ is_padding r = false /\
    lsize l1 + 16 <= fst s /\ 0 < snd s /\ fst s + snd s <= lsize l1 + rsize r.

(** What reads leave alone. *)
Record same_mem (b b' : TraceBuffer) : Prop := {
  sm_data : data_ b' = data_ b;
  sm_kept : kept b b';
  sm_wptr : wptr_ b' = wptr_ b;
  sm_used : used_size_ b' = used_size_ b
}.

#[export] Instance same_mem_refl : Reflexive same_mem.
Proof. by intros b. Qed.

#[export] Instance same_mem_trans : Transitive same_mem.
Proof. intros a b c [? [] ? ?] [? [] ? ?]. split; [|split|..]; congruence. Qed.

(** Over any list, octets or not. *)
Lemma ParseVarInt_loop_range l : forall shift value pos, 0 <= value ->
  (fst (ParseVarInt_loop shift value pos l) <= pos + length l)%nat /\ 0 <= snd (ParseVarInt_loop shift value pos l).
Proof.
  induction l as [|x l IH]; intros shift value pos Hv; cbn [ParseVarInt_loop length]; [cbn; lia|].
  destruct (shift <? 64); [|cbn; lia].
  assert (Hv' : 0 <= value .| u64 ((x .& 127) << shift)).
  { apply Z.lor_nonneg. split; [done|]. apply (u64_range ((x .& 127) << shift)). }
  destruct (_ =? 0); [cbn; lia|]. destruct (IH (shift + 7) _ (S pos) Hv'). lia.
Qed.

Lemma ParseVarInt_range l : (fst (ParseVarInt l) <= length l)%nat /\ 0 <= snd (ParseVarInt l).
Proof. apply (ParseVarInt_loop_range l 0 0 0). lia. Qed.

(** The chunk's new entry after a read: same chunk, more of it read. *)
Record advanced (m m' : ChunkMeta) : Prop := {
  av_off : record_off m' = record_off m;
  av_ci : client_identity_trusted m' = client_identity_trusted m;
  av_num : num_fragments m' = num_fragments m;
  av_flags : flags m' = flags m;
  av_complete : is_complete m' = is_complete m;
  av_read_u16 : is_u16 (num_fragments_read m');
  av_cur_u16 : is_u16 (cur_fragment_offset m');
  av_read : num_fragments_read m < num_fragments m ->
    num_fragments_read m < num_fragments_read m' <= num_fragments m
}.

Lemma is_u16_u16 v : is_u16 (u16 v).
Proof. unfold is_u16, u16. apply Z.mod_pos_bound. lia. Qed.

Lemma invalid_packet_ok b k m size why : is_u16 (num_fragments m) ->
  let b' := invalid_packet b k m size why in
  exists m', index_ b' = map_update (index_ b) k m' /\ advanced m m' /\ same_mem b b' /\ read_iter_ b' = read_iter_ b.
Proof.
  intros Hn b'. exists (set_read_state m (num_fragments m) 0). unfold b', invalid_packet, count_chunk_read.
  destruct (is_complete _); (split; [done|]; split; [|done]; split; cbn; try done; lia).
Qed.

(** Recording a check changes nothing else. *)
Lemma same_mem_dcheck b c : same_mem b (dcheck b c).
Proof. by repeat split. Qed.

Lemma ReadNextPacketInChunk_ok b pre post z pw k m packet :
  tb_inv b pre post z -> map_find (index_ b) k = Some m ->
  exists r p' b' m', ReadNextPacketInChunk b pw k packet = Some (r, p', b') /\
    index_ b' = map_update (index_ b) k m' /\ advanced m m' /\ same_mem b b' /\ read_iter_ b' = read_iter_ b /\
    (p' = packet \/ exists s, r = kSucceeded /\ p' = (fun p => p ++ [s]) <$> packet /\ slice_of (pre ++ post) k s).
Proof.
  intros HI Hf. pose proof (tb_index _ _ _ _ HI) as Hix. destruct (ix_found _ _ Hix k m Hf) as (h0 & _ & (_ & _ & M3 & M4)).
  destruct (indexed_chunk b pre post z k m HI Hf) as (l1 & r & l2 & E & Hr & Hk & Hp & Ho & Ho16 & (Hm1 & Hm2 & _) & Hl1 & Hl2 & Hd & _ & Hle).
  assert (Hnf : is_u16 (num_fragments m)) by (rewrite Hm1; by destruct Hr as ((_ & _ & _ & ? & _) & _)).
  pose proof (length_rec_bytes r Hr) as Hrl. pose proof Hr as (Hh & Hr16 & _ & _). unfold kChunkRecordSize in Hr16.
  assert (Hs : size_ b = Z.of_nat (length (data_ b))) by (by destruct (tb_lay _ _ _ _ HI)).
  unfold ReadNextPacketInChunk. rewrite Hf. cbn [mbind option_bind]. set (bd := dcheck b _).
  assert (Hbd : same_mem b bd) by apply same_mem_dcheck. change (within_bounds bd) with (within_bounds b). change (data_ bd) with (data_ b).
  rewrite Ho, (within_boundsI b (layout l1) (rec_bytes r) (layout l2 ++ replicate z 0)) by (done || lia). cbn [negb].
  assert (Hhd : mem_read (data_ b) (length (layout l1)) 16 = Some (cr_bytes (r_hdr r))).
  { rewrite Hd. unfold rec_bytes. rewrite <- app_assoc. by apply mem_read_at. }
  rewrite Nat2Z.id, Hhd. cbn [mbind option_bind]. rewrite <- (app_nil_r (cr_bytes _)), cr_of_bytes_cr_bytes by done. cbn zeta.
  change (cr_size (r_hdr r)) with (rsize r). unfold kChunkRecordSize. set (pb := Z.of_nat (length (layout l1)) + 16 + cur_fragment_offset m).
  assert (Hfail : forall why, exists r0 p' b' m',
    Some (kFailedInvalidPacket, packet, invalid_packet bd k m (rsize r) why) = Some (r0, p', b') /\
    index_ b' = map_update (index_ b) k m' /\ advanced m m' /\ same_mem b b' /\ read_iter_ b' = read_iter_ b /\
    (p' = packet \/ exists s, r0 = kSucceeded /\ p' = (fun p => p ++ [s]) <$> packet /\ slice_of (pre ++ post) k s)).
  { intros why. destruct (invalid_packet_ok bd k m (rsize r) why Hnf) as (m' & ? & ? & ? & ?).
    eexists _, _, _, m'. split; [reflexivity|]. split_and!; try done; [by etrans|by left]. }
  destruct (_ || _) eqn:E1; [apply Hfail|]. apply orb_false_iff in E1 as [_ Hlt%Z.leb_gt].
  unfold is_u16 in M4. assert (Hmr : exists oct, mem_read (data_ b) (Z.to_nat pb)
    (Z.to_nat (Z.min (pb + Z.of_nat kMessageLengthFieldSize) (Z.of_nat (length (layout l1)) + rsize r) - pb)) = Some oct).
  { eexists. apply mem_read_some. lia. }
  destruct Hmr as (oct & ->). cbn [mbind option_bind]. pose proof (ParseVarInt_range oct) as [Hn Hv].
  destruct (ParseVarInt oct) as [n v]. cbn [fst snd] in Hn, Hv.
  destruct (_ || _) eqn:E2; [apply Hfail|]. apply orb_false_iff in E2 as [Hgt%Z.leb_gt Hend%Z.ltb_ge].
  set (m1 := set_read_state m _ _). set (m' := set_last_read_packet_skipped m1 false).
  assert (Hadv : advanced m m').
  { split; try done; try apply is_u16_u16; [apply (complete_skipped m1 false)|].
    intros Hlt2. cbn. unfold u16, is_u16 in *. rewrite Z.mod_small by lia. lia. }
  match goal with |- context [update_meta ?B k m'] => set (b1 := B) end.
  assert (Hb1 : index_ b1 = index_ b /\ same_mem b b1 /\ read_iter_ b1 = read_iter_ b).
  { unfold b1. destruct (_ && is_complete m1); by repeat split. }
  destruct Hb1 as (I1 & [S1 [K1 K2 K3 K4 K5 K6] S3 S4] & R1). clearbody b1.
  destruct (Z.eqb_spec v 0) as [|Hv0]; (eexists _, _, _, m'; split; [reflexivity|]; split; [cbn; by rewrite I1|];
    split; [done|]; split; [by split|]; split; [done|]); [by left|].
  right. eexists. split; [done|]. split; [done|]. exists l1, r, l2. unfold lsize. cbn. split_and!; try done; lia.
Qed.

(** ** Packets that span chunks *)

(** [n] valid positions after [it] comes [it']. *)
Inductive reach (idx : ChunkMap) : nat -> SequenceIterator -> SequenceIterator -> Prop :=
| reach_O it : is_valid it = true -> reach idx 0 it it
| reach_S n it it1 it' : is_valid it = true -> MoveNext idx it = Some it1 -> reach idx n it1 it' -> reach idx (S n) it it'.

Lemma reach_ok idx n it it' :
  idx_ok idx -> seq_ok idx it -> reach idx n it it' ->
  seq_ok idx it' /\ same_range it it' /\ is_valid it' = true /\ dist it' = dist it - Z.of_nat n.
Proof.
  intros Hi Hsq H. induction H as [it Hv|n it it1 it' Hv Hm Hr IH]; [split_and!; try done; lia|].
  destruct (MoveNext_ok idx it Hi Hsq) as (it2 & E & Hsq2 & (R1 & R2 & R3) & Hd). rewrite E in Hm. injection Hm as ->.
  destruct (IH Hsq2) as (H1 & (R4 & R5 & R6) & H2 & H3).
  assert (Hv1 : is_valid it1 = true) by (by inversion Hr). destruct (Hd Hv1) as [_ Hd1].
  split_and!; try done; [split_and!; congruence|lia].
Qed.

(** Rounds a loop over valid positions may need. *)
Definition budget (it : SequenceIterator) : Z := if is_valid it then dist it + 1 else 0.

Lemma readahead_search_ok idx fuel : forall it next,
  idx_ok idx -> seq_ok idx it -> budget it < Z.of_nat fuel ->
  exists r, readahead_search fuel idx it next = Some r /\
    forall it', r = Some it' -> exists n, reach idx n it it'.
Proof.
  induction fuel as [|fuel IH]; intros it next Hi Hsq Hf; [unfold budget in Hf; pose proof (dist_bounds it); destruct (is_valid it); lia|].
  cbn [readahead_search]. destruct (is_valid it) eqn:Hv; cbn [negb]; [|by exists None].
  destruct (is_valid_key idx it Hi Hsq Hv) as (kb & k & Eb & Ec & Hkb & [m Hm] & Hsame).
  rewrite Ec. unfold deref. cbn [mbind option_bind]. rewrite Hm. cbn [mbind option_bind].
  assert (Hgo : exists r, (it0 ← MoveNext idx it; readahead_search fuel idx it0 (u32 (next + 1))) = Some r /\
    forall it', r = Some it' -> exists n, reach idx n it it').
  { destruct (MoveNext_ok idx it Hi Hsq) as (it1 & E & Hsq1 & _ & Hd). rewrite E. cbn [mbind option_bind].
    destruct (IH it1 (u32 (next + 1)) Hi Hsq1) as (r & -> & Hr).
    { unfold budget in *. rewrite Hv in Hf. destruct (is_valid it1); [destruct (Hd eq_refl); lia|]. pose proof (dist_bounds it). lia. }
    exists r. split; [done|]. intros it' Er. destruct (Hr it' Er) as (n & ?). exists (S n). by eapply reach_S. }
  destruct (num_fragments m =? 0); [exact Hgo|]. destruct (_ || _); [by exists None|].
  destruct (negb _); [by exists None|]. destruct (_ && _); [exact Hgo|].
  exists (Some it). split; [done|]. intros it' [= <-]. exists 0%nat. by apply reach_O.
Qed.

(** Slices of different chunks of the sequence of [kq]. *)
Definition slices_ok (all : list rec) (kq : Key) (ss : list Slice) : Prop :=
  exists ks, Forall2 (slice_of all) ks ss /\ Forall (same_seq kq) ks /\ NoDup ks.

Lemma slices_ok_nil all kq : slices_ok all kq [].
Proof. exists []. split_and!; constructor. Qed.

Lemma slices_ok_one all kq k s : slice_of all k s -> same_seq kq k -> slices_ok all kq [s].
Proof. intros Hs Hk. exists [k]. split_and!; [by repeat constructor|by apply Forall_singleton|apply NoDup_singleton]. Qed.

Lemma slices_ok_seq all k kq ss : slices_ok all k ss -> same_seq kq k -> slices_ok all kq ss.
Proof.
  intros (ks & H1 & H2 & H3) Hk. exists ks. split_and!; [done| |done]. eapply Forall_impl; [exact H2|]. unfold same_seq in *. intuition congruence.
Qed.

(** Steps from the chunk [k] to [wrapping_id]. *)
Definition key_dist (it : SequenceIterator) (k : Key) : Z := (wrapping_id it - chunk_id k) mod 2 ^ 32.

(** Slices of chunks that [it] has passed: at least [d] steps are left from each. *)
Definition passed (all : list rec) (kq : Key) (it : SequenceIterator) (d : Z) (ss : list Slice) : Prop :=
  exists ks, Forall2 (slice_of all) ks ss /\ Forall (same_seq kq) ks /\ NoDup ks /\ Forall (fun k => d <= key_dist it k) ks.

Lemma passed_slices all kq it d ss : passed all kq it d ss -> slices_ok all kq ss.
Proof. intros (ks & H1 & H2 & H3 & _). by exists ks. Qed.

Lemma passed_add all kq it ss k s :
  passed all kq it (dist it + 1) ss -> cur it = Some k -> slice_of all k s -> same_seq kq k -> passed all kq it (dist it) (ss ++ [s]).
Proof.
  intros (ks & H1 & H2 & H3 & H4) Ek Hs Hk. assert (Hd : key_dist it k = dist it) by (unfold dist; by rewrite Ek).
  exists (ks ++ [k]). split_and!.
  - apply Forall2_app; [done|]. by repeat constructor.
  - apply Forall_app. split; [done|by apply Forall_singleton].
  - apply NoDup_app. split_and!; [done| |apply NoDup_singleton]. intros x Hx ->%list_elem_of_singleton. rewrite Forall_forall in H4. specialize (H4 k Hx). cbn in H4. lia.
  - apply Forall_app. split; [|apply Forall_singleton; lia]. eapply Forall_impl; [exact H4|]. cbn. lia.
Qed.

Lemma passed_weaken all kq it it' d d' ss : passed all kq it d ss -> wrapping_id it' = wrapping_id it -> d' <= d -> passed all kq it' d' ss.
Proof.
  intros (ks & H1 & H2 & H3 & H4) Hw Hd. exists ks. split_and!; try done. eapply Forall_impl; [exact H4|]. cbn. unfold key_dist. rewrite Hw. lia.
Qed.

(** A read of any number of fragments. *)
Record read_step (b b' : TraceBuffer) (pre post : list rec) (z : nat) : Prop := {
  rs_inv : tb_inv b' pre post z;
  rs_sim : sim (index_ b) (index_ b');
  rs_mem : same_mem b b'
}.

Lemma read_step_refl b pre post z : tb_inv b pre post z -> read_step b b pre post z.
Proof. intros H. by split. Qed.

Lemma read_step_trans a b c pre post z : read_step a b pre post z -> read_step b c pre post z -> read_step a c pre post z.
Proof. intros [H1 H2 H3] [H4 H5 H6]. split; [done|by etrans|by etrans]. Qed.

(** Iterators and statistics are no concern of the invariant. *)
Lemma read_step_quiet b b' pre post z :
  tb_inv b pre post z -> index_ b' = index_ b -> same_mem b b' -> read_step b b' pre post z.
Proof.
  intros HI Hi Hm. split; [|by rewrite Hi|done]. destruct Hm as [S1 S2 S3 S4].
  apply (inv_same b); try done. rewrite S4. split; [apply Z.le_refl|apply HI].
Qed.

Lemma read_step_iter b pre post z it : tb_inv b pre post z -> read_step b (with_iter b it) pre post z.
Proof. intros HI. by apply read_step_quiet. Qed.

Lemma read_fragment b pre post z pw k m packet :
  tb_inv b pre post z -> map_find (index_ b) k = Some m ->
  exists r p' b' m', ReadNextPacketInChunk b pw k packet = Some (r, p', b') /\
    map_find (index_ b') k = Some m' /\ advanced m m' /\ read_step b b' pre post z /\ read_iter_ b' = read_iter_ b /\
    (p' = packet \/ exists s, r = kSucceeded /\ p' = (fun p => p ++ [s]) <$> packet /\ slice_of (pre ++ post) k s).
Proof.
  intros HI Hf. destruct (ReadNextPacketInChunk_ok b pre post z pw k m packet HI Hf) as (r & p' & b' & m' & E & Hi & Ha & Hm & Hr & Hp).
  exists r, p', b', m'. split; [done|]. split; [by rewrite Hi, find_update, decide_True, Hf|]. split; [done|]. split; [|done].
  destruct Ha as [A1 A2 A3 A4 A5 A6 A7 A8]. pose proof Hm as [S1 S2 S3 S4]. split; [|rewrite Hi; by eapply sim_update|done].
  by apply (inv_update_meta b b' pre post z k m m').
Qed.

Lemma reach_sim idx idx' n it it' : sim idx idx' -> idx_ok idx -> seq_ok idx it -> reach idx n it it' -> reach idx' n it it'.
Proof.
  intros Hs Hi Hsq H. induction H as [it Hv|n it it1 it' Hv Hm Hr IH]; [by apply reach_O|].
  destruct (MoveNext_ok idx it Hi Hsq) as (it2 & E & Hsq2 & _). rewrite E in Hm. injection Hm as ->.
  apply (reach_S _ _ _ it1); [done|by rewrite (sim_MoveNext idx idx')|by apply IH].
Qed.

Lemma reach_valid idx n it it' : reach idx n it it' -> is_valid it = true.
Proof. by inversion 1. Qed.

(** A valid position stays in the sequence. *)
Lemma same_seq_step idx it it' kq k k' :
  idx_ok idx -> seq_ok idx it -> seq_ok idx it' -> is_valid it = true -> is_valid it' = true -> same_range it it' ->
  cur it = Some k -> cur it' = Some k' -> same_seq kq k -> same_seq kq k'.
Proof.
  intros Hi H1 H2 V1 V2 (R1 & _) E1 E2 Hk.
  destruct (is_valid_key idx it Hi H1 V1) as (kb & x & Eb & Ex & _ & _ & Hs1).
  destruct (is_valid_key idx it' Hi H2 V2) as (kb' & x' & Eb' & Ex' & _ & _ & Hs2).
  simplify_eq. rewrite R1, Eb in Eb'. simplify_eq. unfold same_seq in *. intuition congruence.
Qed.

(** The fragment of one chunk in the commit loop. *)
Lemma commit_fragment kq b pre post z k m packet corrupt :
  tb_inv b pre post z -> map_find (index_ b) k = Some m -> cur (read_iter_ b) = Some k ->
  passed (pre ++ post) kq (read_iter_ b) (dist (read_iter_ b) + 1) packet -> same_seq kq k ->
  exists p' c' b' m', (if 0 <? num_fragments m then
      '(r, p, b) ← ReadNextPacketInChunk b (MkProducerAndWriterID (producer_id k) (writer_id k)) k (Some packet);
      Some (default [] p, corrupt || bool_decide (r = kFailedInvalidPacket), b)
    else Some (packet, corrupt, b)) = Some (p', c', b') /\
    read_step b b' pre post z /\ read_iter_ b' = read_iter_ b /\ passed (pre ++ post) kq (read_iter_ b) (dist (read_iter_ b)) p' /\
    map_find (index_ b') k = Some m'.
Proof.
  intros HI Hm Ec Hp Hk. assert (Hp0 : passed (pre ++ post) kq (read_iter_ b) (dist (read_iter_ b)) packet) by (eapply passed_weaken; [exact Hp|done|lia]).
  destruct (0 <? num_fragments m).
  2: { exists packet, corrupt, b, m. split; [done|]. split; [by apply read_step_refl|done]. }
  destruct (read_fragment b pre post z (MkProducerAndWriterID (producer_id k) (writer_id k)) k m (Some packet) HI Hm)
    as (r & p' & b' & m' & -> & Hf & _ & Hs & Hit & Hp').
  cbn [mbind option_bind]. eexists _, _, b', m'. split; [reflexivity|]. split_and!; try done.
  destruct Hp' as [-> |(s & _ & -> & Hsl)]; cbn; [done|]. by eapply passed_add.
Qed.

Lemma readahead_commit_ok kq n : forall fuel b pre post z it' packet corrupt,
  tb_inv b pre post z -> seq_ok (index_ b) (read_iter_ b) -> reach (index_ b) n (read_iter_ b) it' -> (n < fuel)%nat ->
  passed (pre ++ post) kq (read_iter_ b) (dist (read_iter_ b) + 1) packet ->
  (forall k, cur (read_iter_ b) = Some k -> same_seq kq k) ->
  exists p' c' b', readahead_commit fuel b (cur it') packet corrupt = Some (p', c', b') /\
    read_step b b' pre post z /\ same_range (read_iter_ b) (read_iter_ b') /\ cur (read_iter_ b') = cur it' /\
    slices_ok (pre ++ post) kq p'.
Proof.
  induction n as [|n IH]; intros fuel b pre post z it' packet corrupt HI Hsq Hr Hf Hp Hk;
    (destruct fuel as [|fuel]; [lia|]); cbn [readahead_commit];
    pose proof (inv_idx_ok _ _ _ _ HI) as Hi; pose proof (reach_valid _ _ _ _ Hr) as Hv; rewrite Hv; cbn [negb];
    destruct (is_valid_key _ _ Hi Hsq Hv) as (kb & k & Eb & Ec & _ & [m Hm] & _);
    rewrite Ec; unfold deref; cbn [mbind option_bind]; rewrite Hm; cbn [mbind option_bind];
    destruct (commit_fragment kq b pre post z k m packet corrupt HI Hm Ec Hp (Hk k Ec)) as (p' & c' & b' & m' & -> & Hs & Hit & Hp' & Hf');
    cbn [mbind option_bind]; rewrite Hit.
  - inversion Hr; subst. rewrite bool_decide_eq_true_2 by done. exists p', c', b'. rewrite Hit. split_and!; try done. by eapply passed_slices.
  - case_bool_decide as Hcur; [exists p', c', b'; rewrite Hit; split_and!; try done; by eapply passed_slices|].
    inversion Hr as [|n' it0 it1 it'' _ Hm1 Hr1]; subst.
    destruct (MoveNext_ok _ _ Hi Hsq) as (it2 & E & Hsq2 & Hrange & Hdn). rewrite E in Hm1. injection Hm1 as ->.
    rewrite (sim_MoveNext (index_ b)) by (done || apply Hs). rewrite E. cbn [mbind option_bind].
    destruct (IH fuel (with_iter b' it1) pre post z it' p' c') as (p2 & c2 & b2 & E2 & Hs2 & R2 & C2 & P2); try done; try lia.
    + apply read_step_iter, Hs.
    + cbn. eapply sim_seq_ok; [apply Hs|done].
    + cbn. eapply reach_sim; [apply Hs|done|done|done].
    + cbn. destruct (Hdn (reach_valid _ _ _ _ Hr1)) as [_ Hd1]. eapply passed_weaken; [exact Hp'|apply Hrange|lia].
    + cbn. intros k' Ek'. eapply (same_seq_step (index_ b) (read_iter_ b) it1); try done; [by apply reach_valid in Hr1|by apply Hk].
    + exists p2, c2, b2. split; [done|]. split; [|split; [|done]; by eapply same_range_trans].
      eapply read_step_trans; [exact Hs|]. eapply read_step_trans; [|exact Hs2]. apply read_step_iter, Hs.
Qed.

Lemma dist_cur it it' : same_range it it' -> cur it' = cur it -> dist it' = dist it /\ is_valid it' = is_valid it.
Proof. intros (_ & E1 & E2) Ec. unfold dist, is_valid. by rewrite Ec, E1, E2. Qed.

(** [read_iter_] moved within its sequence, strictly when [strict]. *)
Record iter_moved (b b' : TraceBuffer) (strict : bool) : Prop := {
  im_ok : seq_ok (index_ b') (read_iter_ b');
  im_range : same_range (read_iter_ b) (read_iter_ b');
  im_valid : is_valid (read_iter_ b') = true;
  im_dist : if strict then dist (read_iter_ b') < dist (read_iter_ b) else read_iter_ b' = read_iter_ b
}.

Lemma ReadAhead_ok fuel b pre post z k :
  tb_inv b pre post z -> seq_ok (index_ b) (read_iter_ b) -> cur (read_iter_ b) = Some k -> is_valid (read_iter_ b) = true ->
  2 ^ 32 < Z.of_nat fuel ->
  exists r p' b', ReadAhead fuel b [] = Some (r, p', b') /\ read_step b b' pre post z /\
    iter_moved b b' (match r with kFailedMoveToNextSequence => false | _ => true end) /\
    slices_ok (pre ++ post) k p'.
Proof.
  intros HI Hsq Ek Hv Hf. pose proof (inv_idx_ok _ _ _ _ HI) as Hi.
  destruct (is_valid_key _ _ Hi Hsq Hv) as (kb & k' & Eb & Ec & _ & [m Hm] & _). simplify_eq.
  unfold ReadAhead. rewrite Ek. unfold deref. cbn [mbind option_bind]. rewrite Hm. cbn [mbind option_bind].
  destruct (MoveNext_ok _ _ Hi Hsq) as (it0 & E & Hsq0 & Hr0 & Hd0). rewrite E. cbn [mbind option_bind].
  destruct (readahead_search_ok (index_ b) fuel it0 (u32 (chunk_id k + 1)) Hi Hsq0) as (found & -> & Hfound).
  { unfold budget. pose proof (dist_bounds it0). destruct (is_valid it0); lia. }
  cbn [mbind option_bind]. destruct found as [it'|].
  2: { exists kFailedMoveToNextSequence, [], b. split; [done|]. split; [by apply read_step_refl|]. split; [by split|]. apply slices_ok_nil. }
  destruct (Hfound it' eq_refl) as (n & Hr). pose proof (reach_valid _ _ _ _ Hr) as Hv0. destruct (Hd0 Hv0) as [_ Hd].
  destruct (reach_ok _ _ _ _ Hi Hsq0 Hr) as (Hsq' & Hrange & Hv' & Hdist).
  assert (HrS : reach (index_ b) (S n) (read_iter_ b) it') by (by eapply reach_S).
  pose proof (dist_bounds it0). pose proof (dist_bounds it').
  destruct (readahead_commit_ok k (S n) fuel b pre post z it' [] false HI Hsq HrS) as (p' & c' & b' & -> & Hs & R & C & P).
  { lia. }
  { exists []. split_and!; constructor. }
  { intros x Ex. rewrite Ek in Ex. by simplify_eq. }
  cbn [mbind option_bind].
  assert (Hmv : iter_moved b b' true).
  { assert (Hrg : same_range it' (read_iter_ b')).
    { destruct R as (R1 & R2 & R3), Hr0 as (A1 & A2 & A3), Hrange as (B1 & B2 & B3). split_and!; congruence. }
    destruct (dist_cur _ _ Hrg C) as [D1 D2]. split; [|done|by rewrite D2|lia].
    eapply sim_seq_ok; [apply Hs|]. destruct Hsq' as [Q1 Q2 Q3 Q4], Hrg as (G1 & G2 & G3).
    split; rewrite ?C, ?G1, ?G2, ?G3; done. }
  destruct c'; eexists _, _, b'; (split; [reflexivity|]); split_and!; try done. apply slices_ok_nil.
Qed.

(** Rounds the loop over the fragments of a chunk may need. *)
Definition weight (b : TraceBuffer) (k : Key) : Z :=
  dist (read_iter_ b) * 2 ^ 16 +
  match map_find (index_ b) k with Some m => Z.max 0 (num_fragments m - num_fragments_read m) | None => 0 end.

Definition outcome_ok (all : list rec) (kq : Key) (o : ChunkOutcome) : Prop :=
  match o with
  | OBreak _ => True
  | OReturn p => slices_ok all kq (slices p) /\ producer_id_trusted (sequence_properties p) = producer_id kq /\
      sp_writer_id (sequence_properties p) = writer_id kq
  end.

Lemma skip_packet_ok b pre post z k m :
  tb_inv b pre post z -> map_find (index_ b) k = Some m ->
  exists b', skip_packet b k = Some b' /\ read_step b b' pre post z /\ read_iter_ b' = read_iter_ b /\
    exists m', map_find (index_ b') k = Some m' /\ num_fragments m' = num_fragments m /\
      num_fragments_read m' = num_fragments_read m.
Proof.
  intros HI Hm. unfold skip_packet. rewrite Hm. cbn [mbind option_bind]. eexists. split; [reflexivity|].
  set (m' := set_last_read_packet_skipped m true). pose proof (tb_index _ _ _ _ HI) as Hix.
  destruct (ix_found _ _ Hix k m Hm) as (h0 & _ & (_ & _ & M3 & M4)).
  split; [|split; [done|]].
  - split; [|cbn; eapply sim_update; [done|apply complete_skipped]|done].
    apply (inv_update_meta b _ pre post z k m m'); done.
  - exists m'. cbn. rewrite find_update, decide_True, Hm by done. done.
Qed.

(** The state after a round at the chunk [k]. *)
Record chunk_done (b b' : TraceBuffer) (pre post : list rec) (z : nat) (returned : bool) : Prop := {
  cd_step : read_step b b' pre post z;
  cd_ok : seq_ok (index_ b') (read_iter_ b');
  cd_range : same_range (read_iter_ b) (read_iter_ b');
  cd_dist : is_valid (read_iter_ b') = true -> dist (read_iter_ b') <= dist (read_iter_ b);
  cd_weight k k' : returned = true -> cur (read_iter_ b) = Some k -> cur (read_iter_ b') = Some k' ->
    is_valid (read_iter_ b') = true /\ weight b' k' < weight b k
}.

Definition is_return (o : ChunkOutcome) : bool := match o with OReturn _ => true | OBreak _ => false end.

(** Reading more of the chunk [k], [read_iter_] staying there. *)
Lemma weight_read b b' k m m' :
  read_iter_ b' = read_iter_ b -> map_find (index_ b) k = Some m -> map_find (index_ b') k = Some m' ->
  num_fragments_read m < num_fragments m -> num_fragments m' = num_fragments m ->
  num_fragments_read m < num_fragments_read m' -> weight b' k < weight b k.
Proof. intros E H1 H2 H3 H4 H5. unfold weight. rewrite E, H1, H2, H4. lia. Qed.

(** Moving [read_iter_] forward. *)
Lemma weight_move b b' pre post z k k' :
  tb_inv b' pre post z -> dist (read_iter_ b') < dist (read_iter_ b) -> weight b' k' < weight b k.
Proof.
  intros HI Hd. unfold weight.
  assert (H' : match map_find (index_ b') k' with Some m => Z.max 0 (num_fragments m - num_fragments_read m) | None => 0 end < 2 ^ 16).
  { destruct (map_find (index_ b') k') as [m|] eqn:E; [|lia]. pose proof (tb_index _ _ _ _ HI) as Hix.
    destruct (indexed_chunk _ _ _ _ _ _ HI E) as (l1 & r & l2 & _ & ((_ & _ & _ & Hn & _) & _) & _ & _ & _ & _ & (M1 & _ & M3 & _) & _).
    unfold is_u16 in *. lia. }
  destruct (map_find (index_ b) k); lia.
Qed.

(** Chaining a step that stays in the loop with the rest of it. *)
Lemma chunk_done_trans b b1 b' pre post z r k k1 :
  read_step b b1 pre post z -> same_range (read_iter_ b) (read_iter_ b1) ->
  dist (read_iter_ b1) <= dist (read_iter_ b) -> cur (read_iter_ b) = Some k -> cur (read_iter_ b1) = Some k1 ->
  weight b1 k1 < weight b k -> chunk_done b1 b' pre post z r -> chunk_done b b' pre post z r.
Proof.
  intros Hs Hr Hd Ek Ek1 Hw [H1 H2 H3 H4 H5]. split; [by eapply read_step_trans|done|by eapply same_range_trans| |].
  - intros Hv. specialize (H4 Hv). lia.
  - intros x x' Er Ex Ex'. destruct (H5 k1 x' Er Ek1 Ex') as [? ?]. simplify_eq. split; [done|lia].
Qed.

Lemma read_chunk_ok kq props fuel : forall b pre post z k dropped,
  tb_inv b pre post z -> seq_ok (index_ b) (read_iter_ b) -> cur (read_iter_ b) = Some k -> is_valid (read_iter_ b) = true ->
  same_seq kq k -> producer_id_trusted props = producer_id kq -> sp_writer_id props = writer_id kq ->
  weight b k + 2 ^ 32 + 1 < Z.of_nat fuel ->
  exists o b', read_chunk fuel b k props dropped = Some (o, b') /\ chunk_done b b' pre post z (is_return o) /\
    outcome_ok (pre ++ post) kq o.
Proof.
  induction fuel as [|fuel IH]; intros b pre post z k dropped HI Hsq Ek Hv Hkq Hpp Hpw Hf.
  { unfold weight in Hf. pose proof (dist_bounds (read_iter_ b)). destruct (map_find (index_ b) k); lia. }
  pose proof (inv_idx_ok _ _ _ _ HI) as Hi. destruct (is_valid_key _ _ Hi Hsq Hv) as (kb & k' & Eb & Ec & _ & [m Hm] & _). simplify_eq.
  cbn [read_chunk]. rewrite Hm. cbn [mbind option_bind].
  destruct (Z.ltb_spec (num_fragments_read m) (num_fragments m)) as [Hlt|Hge].
  2: { eexists _, b. split; [reflexivity|]. split; [|done]. by split. }
  set (pw := MkProducerAndWriterID _ _).
  assert (Hnn : 0 <= weight b k) by (unfold weight; pose proof (dist_bounds (read_iter_ b)); rewrite Hm; lia).
  assert (Hgo : forall b2 m2 d, read_step b b2 pre post z -> read_iter_ b2 = read_iter_ b -> map_find (index_ b2) k = Some m2 ->
    num_fragments m2 = num_fragments m -> num_fragments_read m < num_fragments_read m2 ->
    exists o b', read_chunk fuel b2 k props d = Some (o, b') /\ chunk_done b b' pre post z (is_return o) /\ outcome_ok (pre ++ post) kq o).
  { intros b2 m2 d Hs2 Hit2 Hm2 Hn2 Hr2. pose proof (weight_read b b2 k m m2 Hit2 Hm Hm2 Hlt Hn2 Hr2) as Hw.
    destruct (IH b2 pre post z k d) as (o & b' & E & Hd & Ho); rewrite ?Hit2; try done; [apply Hs2|eapply sim_seq_ok; [apply Hs2|done]|lia|].
    exists o, b'. split; [done|]. split; [|done]. eapply chunk_done_trans; rewrite ?Hit2; try done. }
  destruct (next_action m).
  - destruct (read_fragment b pre post z pw k m None HI Hm) as (r & p' & b1 & m1 & -> & Hf1 & Ha & Hs & Hit & _).
    cbn [mbind option_bind].
    destruct (skip_packet_ok b1 pre post z k m1 (rs_inv _ _ _ _ _ Hs) Hf1) as (b2 & -> & Hs2 & Hit2 & m2 & Hf2 & Hn2 & Hr2).
    cbn [mbind option_bind]. pose proof (av_read _ _ Ha Hlt). pose proof (av_num _ _ Ha).
    apply (Hgo b2 m2); [by eapply read_step_trans|congruence|done|congruence|lia].
  - destruct (read_fragment b pre post z pw k m (Some []) HI Hm) as (r & p' & b1 & m1 & -> & Hf1 & Ha & Hs & Hit & Hp).
    cbn [mbind option_bind]. pose proof (av_read _ _ Ha Hlt) as [Hr1 _]. pose proof (av_num _ _ Ha) as Hn1.
    pose proof (weight_read b b1 k m m1 Hit Hm Hf1 Hlt Hn1 Hr1) as Hw.
    assert (Hsq1 : seq_ok (index_ b1) (read_iter_ b1)) by (rewrite Hit; eapply sim_seq_ok; [apply Hs|done]).
    destruct r.
    + eexists _, b1. split; [reflexivity|]. split.
      * split; try done; rewrite Hit; try done. intros x x' _ E1 E2. rewrite Ek in *. by simplify_eq.
      * cbn. split_and!; try done. destruct Hp as [-> |(s & _ & -> & Hsl)]; cbn; [apply slices_ok_nil|].
        by eapply slices_ok_one.
    + destruct (skip_packet_ok b1 pre post z k m1 (rs_inv _ _ _ _ _ Hs) Hf1) as (b2 & -> & Hs2 & Hit2 & _).
      cbn [mbind option_bind]. eexists _, b2. split; [reflexivity|]. split; [|done].
      split; try done; [by eapply read_step_trans| | |]; rewrite Hit2, Hit; try done. eapply sim_seq_ok; [apply Hs2|]. by rewrite <- Hit.
    + by apply (Hgo b1 m1).
  - destruct (ReadAhead_ok fuel b pre post z k HI Hsq Ek Hv ltac:(lia)) as (r & p' & b1 & -> & Hs & [Q1 Q2 Q3 Q4] & Hp).
    cbn [mbind option_bind].
    assert (Hp' : slices_ok (pre ++ post) kq p').
    { by eapply slices_ok_seq. }
    destruct r; cbn [is_return].
    + eexists _, _. split; [reflexivity|]. split; [|done]. cbn [is_return]. split; cbn [stat_inc with_stats read_iter_ index_]; try done; [|lia|].
      * eapply read_step_trans; [exact Hs|]. apply read_step_quiet; [apply Hs|done|done].
      * intros x x' _ E1 E2. split; [done|]. by apply (weight_move b b1 pre post z); [apply Hs|].
    + eexists _, _. split; [reflexivity|]. split; [|done]. destruct (MoveToEnd_ok _ _ Q1) as (M1 & M2 & M3).
      split; cbn [stat_inc with_stats with_iter read_iter_ index_]; try done; try (by rewrite M3).
      eapply read_step_trans; [exact Hs|]. apply read_step_quiet; [apply Hs|done|done].
    + destruct (is_valid_key _ _ (inv_idx_ok _ _ _ _ (rs_inv _ _ _ _ _ Hs)) Q1 Q3) as (kb1 & k1 & Eb1 & Ec1 & _ & [m1 Hm1] & _).
      rewrite Ec1. cbn [mbind option_bind].
      destruct (skip_packet_ok b1 pre post z k1 m1 (rs_inv _ _ _ _ _ Hs) Hm1) as (b2 & -> & Hs2 & Hit2 & _). cbn [mbind option_bind].
      assert (Hw : weight b2 k1 < weight b k) by (apply (weight_move b b2 pre post z); [apply Hs2|by rewrite Hit2]).
      assert (Hsq2 : seq_ok (index_ b2) (read_iter_ b2)) by (rewrite Hit2; eapply sim_seq_ok; [apply Hs2|done]).
      destruct (IH b2 pre post z k1 true) as (o & b' & E & Hd & Ho); rewrite ?Hit2; try done; [apply Hs2|by rewrite <- Hit2| |lia|].
      * eapply (same_seq_step (index_ b1) (read_iter_ b) (read_iter_ b1)); try done;
          [by eapply inv_idx_ok, Hs|eapply sim_seq_ok; [apply Hs|done]].
      * exists o, b'. split; [done|]. split; [|done]. eapply chunk_done_trans; rewrite ?Hit2; try done; [by eapply read_step_trans|lia].
Qed.

(** ** The loop over chunks *)

#[export] Instance key_lt_dec a b : Decision (key_lt a b).
Proof. unfold key_lt. apply _. Defined.

(** Keys from [e] on. *)
Definition rem (idx : ChunkMap) (e : option Key) : Z :=
  match e with
  | None => 0
  | Some k => Z.of_nat (length (filter (fun x => ~ key_lt x k) (fst <$> idx)))
  end.

Lemma rem_sim idx idx' e : sim idx idx' -> rem idx' e = rem idx e.
Proof. intros H. unfold rem. by rewrite (sim_keys _ _ H). Qed.

Lemma filter_length_lt (P Q : Key -> Prop) `{!forall x, Decision (P x)} `{!forall x, Decision (Q x)} (l : list Key) k :
  (forall x, P x -> Q x) -> k ∈ l -> Q k -> ~ P k -> (length (filter P l) < length (filter Q l))%nat.
Proof.
  intros HPQ Hk HQ HP. induction l as [|x l IH]; [by apply not_elem_of_nil in Hk|].
  assert (Hle : (length (filter P l) <= length (filter Q l))%nat).
  { clear -HPQ. induction l as [|y l IH]; [done|]. rewrite !filter_cons. destruct (decide (P y)), (decide (Q y)); cbn; try lia.
    exfalso; auto. }
  rewrite !filter_cons. apply elem_of_cons in Hk as [<-|Hk].
  - rewrite decide_False, decide_True by done. cbn. lia.
  - specialize (IH Hk). destruct (decide (P x)), (decide (Q x)); cbn; try lia. exfalso; auto.
Qed.

(** Past a sequence there are fewer keys. *)
Lemma rem_next idx k :
  idx_ok idx -> has_key idx k -> rem idx (upper_bound idx (set_chunk_id k kMaxChunkID)) < rem idx (Some k).
Proof.
  intros Hi Hk. assert (Hkl : k ∈ fst <$> idx) by (by apply has_key_elem).
  destruct (upper_bound _ _) as [e|] eqn:E; cbn [rem].
  - destruct (upper_bound_Some _ _ _ (proj1 Hi) E) as (_ & Hlt & _).
    assert (Hke : key_lt k e) by (eapply key_le_lt_trans; [by apply (set_chunk_id_max idx)|done]).
    apply Nat2Z.inj_lt. apply (filter_length_lt (fun x => ~ key_lt x e) (fun x => ~ key_lt x k) _ k); try done.
    + intros x Hx Hxk. apply Hx. by eapply key_lt_trans.
    + apply key_lt_irrefl.
    + intros H. by apply H.
  - assert (Hin : k ∈ filter (fun x => ~ key_lt x k) (fst <$> idx)).
    { apply list_elem_of_filter. split; [apply key_lt_irrefl|done]. }
    destruct (filter _ _); [by apply not_elem_of_nil in Hin|]. cbn [length]. lia.
Qed.

(** Bounds all that is left to do in a session. *)
Definition phi (b : TraceBuffer) : Z :=
  rem (index_ b) (seq_end (read_iter_ b)) * (2 ^ 48 + 2 ^ 16) +
  match cur (read_iter_ b) with
  | Some k => if is_valid (read_iter_ b) then 2 ^ 16 + weight b k else 0
  | None => 0
  end.

Lemma weight_bounds b pre post z k : tb_inv b pre post z -> 0 <= weight b k < 2 ^ 48.
Proof.
  intros HI. pose proof (dist_bounds (read_iter_ b)). unfold weight.
  destruct (map_find (index_ b) k) as [m|] eqn:E; [|lia].
  destruct (indexed_chunk _ _ _ _ _ _ HI E) as (l1 & r & l2 & _ & ((_ & _ & _ & Hn & _) & _) & _ & _ & _ & _ & (M1 & _ & M3 & _) & _).
  unfold is_u16 in *. lia.
Qed.

Lemma rem_nonneg idx e : 0 <= rem idx e.
Proof. unfold rem. destruct e; lia. Qed.

Lemma phi_nonneg b pre post z : tb_inv b pre post z -> 0 <= phi b.
Proof.
  intros HI. unfold phi. pose proof (rem_nonneg (index_ b) (seq_end (read_iter_ b))).
  destruct (cur _) as [k|]; [|lia]. pose proof (weight_bounds b pre post z k HI). destruct (is_valid _); lia.
Qed.

(** A packet of one sequence, in bounds. *)
Definition packet_ok (all : list rec) (p : ReadPacket) : Prop :=
  exists kq, outcome_ok all kq (OReturn p).

Record session_step (b b' : TraceBuffer) (pre post : list rec) (z : nat) : Prop := {
  ss_step : read_step b b' pre post z;
  ss_ok : seq_ok (index_ b') (read_iter_ b')
}.

(** One round and the move after it. *)
Lemma read_round_ok fuel b pre post z dropped :
  tb_inv b pre post z -> seq_ok (index_ b) (read_iter_ b) -> is_valid (read_iter_ b) = true -> 2 ^ 48 + 2 ^ 32 + 1 < Z.of_nat fuel ->
  exists o b', read_round fuel b dropped = Some (o, b') /\
    match o with
    | OReturn p => session_step b b' pre post z /\ packet_ok (pre ++ post) p /\ phi b' < phi b
    | OBreak _ => exists it, MoveNext (index_ b') (read_iter_ b') = Some it /\
        session_step b (with_iter b' it) pre post z /\ phi (with_iter b' it) < phi b
    end.
Proof.
  intros HI Hsq Hv Hf. pose proof (inv_idx_ok _ _ _ _ HI) as Hi.
  destruct (is_valid_key _ _ Hi Hsq Hv) as (kb & k & Eb & Ek & _ & [m Hm] & _).
  assert (Hround : exists o b', read_round fuel b dropped = Some (o, b') /\ chunk_done b b' pre post z (is_return o) /\ outcome_ok (pre ++ post) k o).
  { unfold read_round. rewrite Ek. unfold deref. cbn [mbind option_bind]. rewrite Hm. cbn [mbind option_bind].
    destruct (negb _).
    - eexists _, _. split; [reflexivity|]. split; [|done]. destruct (MoveToEnd_ok _ _ Hsq) as (M1 & M2 & M3).
      split; cbn [with_iter read_iter_ index_]; try done; [by apply read_step_iter|by rewrite M3].
    - set (bd := dcheck b _). assert (Hbd : read_step b bd pre post z) by (apply read_step_quiet; [done..|apply same_mem_dcheck]).
      destruct (read_chunk_ok k (mkProps (producer_id k) (client_identity_trusted m) (writer_id k)) fuel bd pre post z k
        (if 0 <? num_fragments_read m then last_read_packet_skipped m else dropped)) as (o & b' & E & [Hs Hsq' Hr Hd Hw] & Ho);
        try done; [apply Hbd|change (weight bd k) with (weight b k); pose proof (weight_bounds b pre post z k HI); lia|].
      exists o, b'. split; [done|]. split; [|done]. split; try done. by eapply read_step_trans. }
  destruct Hround as (o & b' & E & [Hs Hsq' Hr Hd Hw] & Ho). exists o, b'. split; [done|].
  assert (Erem : rem (index_ b') (seq_end (read_iter_ b')) = rem (index_ b) (seq_end (read_iter_ b))).
  { destruct Hr as (_ & -> & _). apply rem_sim, Hs. }
  pose proof (weight_bounds b pre post z k HI) as Hwb.
  destruct o as [p|d]; cbn [is_return] in *.
  - split; [done|]. split; [by exists k|]. unfold phi. rewrite Erem, Ek, Hv.
    destruct (cur (read_iter_ b')) as [k'|] eqn:Ek'; [|lia]. destruct (Hw k k' eq_refl Ek eq_refl) as [-> ?]. lia.
  - pose proof (inv_idx_ok _ _ _ _ (rs_inv _ _ _ _ _ Hs)) as Hi'.
    destruct (MoveNext_ok _ _ Hi' Hsq') as (it & Em & Hsq2 & (_ & R2 & _) & Hd2). exists it. split; [done|]. split.
    + split; [|done]. eapply read_step_trans; [exact Hs|]. apply read_step_iter, Hs.
    + unfold phi. cbn [with_iter read_iter_ index_]. rewrite R2, Erem, Ek, Hv.
      destruct (cur it) as [k'|] eqn:Ek'; [|lia]. destruct (is_valid it) eqn:Hvi; [|lia]. destruct (Hd2 eq_refl) as [Hv' Hd'].
      assert (weight (with_iter b' it) k' < weight b k); [|lia].
      apply (weight_move b _ pre post z); [apply (rs_inv _ _ _ _ _ (read_step_iter b' _ _ _ it (rs_inv _ _ _ _ _ Hs)))|]. cbn. specialize (Hd Hv'). lia.
Qed.

Lemma session_step_trans a b c pre post z :
  session_step a b pre post z -> session_step b c pre post z -> session_step a c pre post z.
Proof. intros [H1 H2] [H3 H4]. split; [by eapply read_step_trans|done]. Qed.

Lemma read_loop_ok fuel n : forall b pre post z dropped,
  tb_inv b pre post z -> seq_ok (index_ b) (read_iter_ b) -> 2 ^ 48 + 2 ^ 32 + 1 < Z.of_nat fuel -> phi b < Z.of_nat n ->
  exists r b', read_loop n fuel b dropped = Some (r, b') /\ session_step b b' pre post z /\
    match r with Some p => packet_ok (pre ++ post) p /\ phi b' < phi b | None => True end.
Proof.
  induction n as [|n IH]; intros b pre post z dropped HI Hsq Hf Hn; [pose proof (phi_nonneg _ _ _ _ HI); lia|].
  cbn [read_loop].
  assert (Hgo : forall b0 d, session_step b b0 pre post z -> is_valid (read_iter_ b0) = true -> phi b0 <= phi b ->
    exists r b', ('(o, b1) ← read_round fuel b0 d;
        match o with
        | OReturn p => Some (Some p, b1)
        | OBreak d => it ← MoveNext (index_ b1) (read_iter_ b1); read_loop n fuel (with_iter b1 it) d
        end) = Some (r, b') /\ session_step b b' pre post z /\
      match r with Some p => packet_ok (pre ++ post) p /\ phi b' < phi b | None => True end).
  { intros b0 d Hs0 Hv0 Hp0. pose proof Hs0 as [[I0 S0 M0] Q0].
    destruct (read_round_ok fuel b0 pre post z d I0 Q0 Hv0 Hf) as (o & b1 & -> & Ho). cbn [mbind option_bind].
    destruct o as [p|d'].
    - destruct Ho as (Hs1 & Hp & Hphi). exists (Some p), b1. split; [done|]. split; [|split; [done|lia]].
      by eapply session_step_trans.
    - destruct Ho as (it & -> & Hs1 & Hphi). cbn [mbind option_bind].
      destruct (IH (with_iter b1 it) pre post z d') as (r & b' & -> & Hs2 & Hr); try apply Hs1; try done; [lia|].
      exists r, b'. split; [done|]. split; [|destruct r; [destruct Hr; split; [done|lia]|done]].
      eapply session_step_trans; [exact Hs0|]. by eapply session_step_trans. }
  destruct (is_valid (read_iter_ b)) eqn:Hv.
  { by apply Hgo. }
  destruct (seq_end (read_iter_ b)) as [k|] eqn:Ese.
  2: { exists None, b. split; [done|]. split; [|done]. split; [by apply read_step_refl|done]. }
  pose proof (inv_idx_ok _ _ _ _ HI) as Hi. destruct (sq_end_key _ _ Hsq k Ese) as [Hk Hfirst].
  destruct (GetReadIter_ok b k Hi (tb_last _ _ _ _ HI) Hk Hfirst) as (it & -> & Hsq' & Hv' & Eend). cbn [mbind option_bind].
  rewrite Hv'. cbn [negb]. apply Hgo; [|done|].
  - split; [by apply read_step_iter|done].
  - unfold phi. cbn [with_iter read_iter_ index_]. rewrite Eend, Ese, Hv, Hv'. pose proof (rem_next _ _ Hi Hk).
    pose proof (read_step_iter b pre post z it HI) as [HI' _ _].
    destruct (cur it) as [k1|]; [pose proof (weight_bounds (with_iter b it) pre post z k1 HI')|]; destruct (cur (read_iter_ b)); lia.
Qed.

Lemma read_all_ok fuel n : forall b pre post z,
  tb_inv b pre post z -> seq_ok (index_ b) (read_iter_ b) -> 2 ^ 48 + 2 ^ 32 + 1 < Z.of_nat fuel ->
  phi b < Z.of_nat fuel -> phi b < Z.of_nat n ->
  exists ps b', read_all n fuel b = Some (ps, b') /\ read_step b b' pre post z /\ Forall (packet_ok (pre ++ post)) ps.
Proof.
  induction n as [|n IH]; intros b pre post z HI Hsq Hf Hf2 Hn; [pose proof (phi_nonneg _ _ _ _ HI); lia|].
  cbn [read_all]. unfold ReadNextTracePacket.
  destruct (read_loop_ok fuel fuel b pre post z true HI Hsq Hf Hf2) as (r & b1 & -> & [Hs Hsq1] & Hr). cbn [mbind option_bind].
  destruct r as [p|]; [|by exists [], b1]. destruct Hr as [Hp Hphi].
  destruct (IH b1 pre post z (rs_inv _ _ _ _ _ Hs) Hsq1 Hf ltac:(lia) ltac:(lia)) as (ps & b2 & -> & Hs2 & Hps).
  cbn [mbind option_bind]. exists (p :: ps), b2. split; [done|]. split; [by eapply read_step_trans|]. by constructor.
Qed.

Lemma BeginRead_ok b pre post z :
  tb_inv b pre post z -> exists b', BeginRead b = Some b' /\ session_step b b' pre post z.
Proof.
  intros HI. pose proof (inv_idx_ok _ _ _ _ HI) as Hi. unfold BeginRead.
  destruct (index_ b) as [|[k m] idx] eqn:E; cbn [map_begin head fmap option_fmap option_map fst].
  - eexists. split; [reflexivity|]. split; [by apply read_step_iter|]. cbn. split; cbn; try done; [by left].
  - assert (Hk : has_key (index_ b) k) by (rewrite E; unfold has_key; cbn; rewrite decide_True by done; by eexists).
    assert (Hfirst : first_of (index_ b) k) by (rewrite E; by eapply first_of_begin; rewrite <- E; apply (inv_idx_ok _ _ _ _ HI)).
    rewrite <- E in Hi. destruct (GetReadIter_ok b k Hi (tb_last _ _ _ _ HI) Hk Hfirst) as (it & Eit & Hsq & _).
    rewrite Eit. cbn [mbind option_bind]. eexists. split; [reflexivity|]. split; [by apply read_step_iter|done].
Qed.

Lemma entries_length l : forall off, Forall rec_ok l -> 16 * Z.of_nat (length (entries off l)) <= lsize l.
Proof.
  induction l as [|r l IH]; intros off H; [cbn; unfold lsize; cbn; lia|]. apply Forall_cons in H as [Hr H].
  rewrite lsize_cons by done. cbn [entries]. rewrite length_app. specialize (IH (off + rsize r) H).
  destruct Hr as (_ & Hr & _). unfold kChunkRecordSize in Hr. destruct (is_padding r); cbn [length]; lia.
Qed.

(** There are at most [2^28] chunks. *)
Lemma index_length b pre post z : tb_inv b pre post z -> Z.of_nat (length (index_ b)) <= 2 ^ 28.
Proof.
  intros HI. pose proof (tb_index _ _ _ _ HI) as [H1 H2 H3 H4]. destruct (tb_lay _ _ _ _ HI) as [L1 L2 L3 L4 L5 L6].
  assert (Hnd : NoDup (fst <$> index_ b)).
  { rewrite sorted_keys in H1. induction H1 as [|k ks _ IH Hall]; [constructor|]. constructor; [|done].
    rewrite Forall_forall in Hall. intros Hin. by apply (key_lt_irrefl k), Hall. }
  assert (Hle : (length (fst <$> index_ b) <= length (fst <$> entries 0 (pre ++ post)))%nat).
  { apply submseteq_length, NoDup_submseteq; [done|]. intros k Hk. apply has_key_elem in Hk as [m Hm].
    destruct (H3 k m Hm) as (h & Hin & _). by apply (list_elem_of_fmap_2 fst) in Hin. }
  rewrite !length_fmap in Hle.
  pose proof (entries_length (pre ++ post) 0 ltac:(by apply Forall_app)) as He.
  pose proof (tb_size _ _ _ _ HI) as Hs. rewrite L2, L1 in Hs. rewrite !length_app in Hs. rewrite lsize_app in He. unfold lsize in He. lia.
Qed.

(** Fuel that is enough for any session over any buffer. *)
Definition kEnoughFuel : Z := 2 ^ 77.

Lemma phi_bound b pre post z : tb_inv b pre post z -> phi b < kEnoughFuel.
Proof.
  intros HI. pose proof (index_length _ _ _ _ HI) as Hl. unfold phi, kEnoughFuel.
  assert (Hr : rem (index_ b) (seq_end (read_iter_ b)) <= 2 ^ 28).
  { unfold rem. destruct (seq_end _) as [k|]; [|lia].
    pose proof (length_filter (fun x => ~ key_lt x k) (fst <$> index_ b)) as Hf. rewrite length_fmap in Hf. lia. }
  destruct (cur _) as [k|]; [pose proof (weight_bounds b pre post z k HI); destruct (is_valid _)|]; lia.
Qed.

Lemma read_session_ok b pre post z fuel :
  tb_inv b pre post z -> kEnoughFuel <= Z.of_nat fuel ->
  exists ps b', read_session fuel b = Some (ps, b') /\ read_step b b' pre post z /\ Forall (packet_ok (pre ++ post)) ps.
Proof.
  intros HI Hf. destruct (BeginRead_ok b pre post z HI) as (b1 & E & [Hs Hsq]). unfold read_session. rewrite E. cbn [mbind option_bind].
  pose proof (phi_bound _ _ _ _ (rs_inv _ _ _ _ _ Hs)) as Hphi.
  destruct (read_all_ok fuel fuel b1 pre post z (rs_inv _ _ _ _ _ Hs) Hsq) as (ps & b2 & E2 & Hs2 & Hps); [unfold kEnoughFuel in *; lia..|].
  exists ps, b2. split; [done|]. split; [by eapply read_step_trans|done].
Qed.

(** C15: a read session over any buffer that writes may have produced terminates
    and is safe: with enough fuel it returns, the buffer keeps its invariant and
    its octets, and every slice of every returned packet lies inside the payload
    of a stored chunk of the producer and writer the packet is attributed to, each
    slice in a chunk of its own. *)
Theorem read_session_safe b pre post z fuel :
  tb_inv b pre post z -> kEnoughFuel <= Z.of_nat fuel ->
  exists ps b', read_session fuel b = Some (ps, b') /\ tb_inv b' pre post z /\ data_ b' = data_ b /\
    Forall (packet_ok (pre ++ post)) ps.
Proof.
  intros HI Hf. destruct (read_session_ok b pre post z fuel HI Hf) as (ps & b' & E & [H1 H2 H3] & Hp).
  exists ps, b'. split; [done|]. split; [done|]. split; [apply H3|done].
Qed.

Lemma read_session_safe_witness :
  exists ps b', read_session (Z.to_nat kEnoughFuel) (ex_buffer kOverwrite) = Some (ps, b') /\
    tb_inv b' [] [ex_rec0; ex_rec1] 0 /\ data_ b' = data_ (ex_buffer kOverwrite) /\
    Forall (packet_ok [ex_rec0; ex_rec1]) ps.
Proof.
  apply (read_session_safe (ex_buffer kOverwrite) [] [ex_rec0; ex_rec1] 0); [apply ex_buffer_inv|].
  rewrite Z2Nat.id; [done|]. by apply Z.pow_nonneg.
Defined.

(** ** Whole runs of the buffer *)

Inductive BufferOp :=
| OpWrite (o : WriteOp)
| OpRead.

Definition op_ok (o : BufferOp) : Prop := match o with OpWrite o => write_op_ok o | OpRead => True end.

Fixpoint run_ops (fuel : nat) (b : TraceBuffer) (os : list BufferOp) : option (list (list ReadPacket) * TraceBuffer) :=
  match os with
  | [] => Some ([], b)
  | OpWrite o :: os => b ← run_write b o; run_ops fuel b os
  | OpRead :: os => '(ps, b) ← read_session fuel b; '(pss, b) ← run_ops fuel b os; Some (ps :: pss, b)
  end.

Lemma run_write_inv o b pre post z :
  tb_inv b pre post z -> read_only_ b = false -> write_op_ok o ->
  exists b' pre' post' z', run_write b o = Some b' /\ tb_inv b' pre' post' z' /\ read_only_ b' = false.
Proof.
  intros HI Hro Ho. destruct (run_writes_inv [o] b pre post z HI Hro) as (b' & pre' & post' & z' & E & H); [by apply Forall_singleton|].
  exists b', pre', post', z'. split; [|done]. cbn in E. by destruct (run_write b o).
Qed.

Lemma run_ops_inv fuel os : kEnoughFuel <= Z.of_nat fuel -> forall b pre post z,
  tb_inv b pre post z -> read_only_ b = false -> Forall op_ok os ->
  exists r b' pre' post' z', run_ops fuel b os = Some (r, b') /\ tb_inv b' pre' post' z'.
Proof.
  intros Hf. induction os as [|o os IH]; intros b pre post z HI Hro H; [by exists [], b, pre, post, z|].
  apply Forall_cons in H as [Ho H]. destruct o as [o|]; cbn [run_ops op_ok] in *.
  - destruct (run_write_inv o b pre post z HI Hro Ho) as (b1 & pre1 & post1 & z1 & -> & HI1 & Hro1). cbn [mbind option_bind]. eauto.
  - destruct (read_session_ok b pre post z fuel HI Hf) as (ps & b1 & -> & [HI1 _ Hm] & _). cbn [mbind option_bind].
    destruct (IH b1 pre post z HI1) as (r & b' & pre' & post' & z' & -> & HI'); [by rewrite (kp_ro _ _ (sm_kept _ _ Hm))|done|].
    by exists (ps :: r), b', pre', post', z'.
Qed.

(** ** Packets of a chunk come back in order *)

(** A packet as a producer frames it in a chunk. *)
Definition frame_packet (x : list Z) : list Z := WriteVarInt (Z.of_nat (length x)) ++ x.

(** A packet that fits: not empty, and its size takes at most 4 octets. *)
Definition packet_fits (x : list Z) : Prop := bytes_ok x /\ 0 < Z.of_nat (length x) < 2 ^ 28.

Definition packet_octets (b : TraceBuffer) (p : ReadPacket) : option (list Z) :=
  foldr (fun s acc => x ← mem_read (data_ b) (Z.to_nat (fst s)) (Z.to_nat (snd s)); y ← acc; Some (x ++ y)) (Some []) (slices p).

Fixpoint read_n (n fuel : nat) (b : TraceBuffer) : option (list ReadPacket * TraceBuffer) :=
  match n with
  | O => Some ([], b)
  | S n =>
      '(r, b) ← ReadNextTracePacket fuel b;
      p ← r;
      '(ps, b) ← read_n n fuel b;
      Some (p :: ps, b)
  end.

(** Just before reading the packet [x] at the chunk [k] of payload [done ++ frame_packet x ++ rest]. *)
Record at_packet (b : TraceBuffer) (pre post : list rec) (z : nat) (k : Key) (m : ChunkMeta) (don x rest : list Z) : Prop := {
  ap_inv : tb_inv b pre post z;
  ap_cur : cur (read_iter_ b) = Some k;
  ap_valid : is_valid (read_iter_ b) = true;
  ap_meta : map_find (index_ b) k = Some m;
  ap_off : cur_fragment_offset m = Z.of_nat (length don);
  ap_read : num_fragments_read m < num_fragments m;
  ap_flags : flags m .& (kFirstPacketContinuesFromPrevChunk .| kLastPacketContinuesOnNextChunk .| kChunkNeedsPatching) = 0;
  ap_data : exists r, r ∈ pre ++ post /\ is_padding r = false /\ key_of_record (r_hdr r) = k /\
    r_payload r = don ++ frame_packet x ++ rest
}.

Lemma ReadNextPacket_exact b pre post z k m don x rest pw :
  at_packet b pre post z k m don x rest -> packet_fits x -> bytes_ok rest ->
  let off := record_off m + kChunkRecordSize + Z.of_nat (length don + length (WriteVarInt (Z.of_nat (length x)))) in
  exists b' m', ReadNextPacketInChunk b pw k (Some []) = Some (kSucceeded, Some [(off, Z.of_nat (length x))], b') /\
    mem_read (data_ b) (Z.to_nat off) (length x) = Some x /\
    map_find (index_ b') k = Some m' /\ num_fragments m' = num_fragments m /\ flags m' = flags m /\
    num_fragments_read m' = num_fragments_read m + 1 /\ cur_fragment_offset m' = Z.of_nat (length (don ++ frame_packet x)).
Proof.
  intros [HI Ec Hv Hm Ho Hr Hfl (r0 & Hr0 & Hnp & Hk & Hpay)] [Hxb Hx] Hrest off.
  destruct (indexed_chunk b pre post z k m HI Hm) as (l1 & r & l2 & E & Hrk & Hk2 & Hp2 & Hoff & Ho16 & (Hm1 & _ & M3 & M4) & Hl1 & Hl2 & Hd & _ & Hle).
  assert (r0 = r) as ->.
  { apply (stored_unique (index_ b) (pre ++ post)); try done; [apply HI|rewrite E; set_solver|congruence]. }
  pose proof (length_rec_bytes r Hrk) as Hrl. pose proof Hrk as (Hh & Hr16 & _ & Hpl). unfold kChunkRecordSize in *.
  assert (Hnf : is_u16 (num_fragments m)) by (rewrite Hm1; by destruct Hh as (_ & _ & _ & ? & _)).
  set (W := WriteVarInt (Z.of_nat (length x))) in *. set (A := layout l1 ++ cr_bytes (r_hdr r) ++ don).
  assert (HW : (1 <= length W <= 4)%nat).
  { unfold W. rewrite length_WriteVarInt by (unfold is_u64; lia). split; [apply varint_size_pos|].
    transitivity (varint_size (2 ^ 28 - 1)); [apply varint_size_mono; lia|vm_compute; lia]. }
  assert (HD : data_ b = A ++ W ++ x ++ rest ++ layout l2 ++ replicate z 0).
  { rewrite Hd. unfold rec_bytes, A. rewrite Hpay. unfold frame_packet. fold W. by rewrite <- !app_assoc. }
  assert (HA : length A = (length (layout l1) + 16 + length don)%nat) by (unfold A; rewrite !length_app, length_cr_bytes; lia).
  assert (Hsz : rsize r = 16 + Z.of_nat (length don + length W + length x + length rest)).
  { rewrite Hpay in Hpl. unfold frame_packet in Hpl. fold W in Hpl. rewrite !length_app in Hpl. lia. }
  assert (Hs : size_ b = Z.of_nat (length (data_ b))) by (by destruct (tb_lay _ _ _ _ HI)).
  assert (Hhd : mem_read (data_ b) (length (layout l1)) 16 = Some (cr_bytes (r_hdr r))).
  { rewrite Hd. unfold rec_bytes. rewrite <- app_assoc. by apply mem_read_at. }
  assert (Hszu : rsize r < 2 ^ 16) by (by destruct Hh as (_ & _ & _ & _ & [_ ?] & _)).
  unfold ReadNextPacketInChunk. rewrite Hm. cbn [mbind option_bind]. set (bd := dcheck b _).
  change (within_bounds bd) with (within_bounds b). change (data_ bd) with (data_ b).
  rewrite Hoff, (within_boundsI b (layout l1) (rec_bytes r) (layout l2 ++ replicate z 0)) by (done || lia). cbn [negb].
  rewrite Nat2Z.id, Hhd. cbn [mbind option_bind]. rewrite <- (app_nil_r (cr_bytes _)), cr_of_bytes_cr_bytes by done. cbn zeta.
  change (cr_size (r_hdr r)) with (rsize r). unfold kChunkRecordSize. rewrite Ho.
  rewrite (proj2 (Z.ltb_ge _ _)), (proj2 (Z.leb_gt _ _)) by lia. cbn [orb]. change (Z.of_nat kMessageLengthFieldSize) with 4.
  replace (Z.to_nat (Z.of_nat (length (layout l1)) + 16 + Z.of_nat (length don))) with (length A) by lia.
  set (n := Z.to_nat (Z.min _ _ - _)). assert (Hn : (length W <= n <= length W + length x + length rest)%nat) by (unfold n; lia).
  rewrite mem_read_some by (rewrite HD, !length_app; lia). cbn [mbind option_bind]. rewrite HD, drop_app_len.
  rewrite (take_app_ge W) by lia. rewrite (app_assoc x), (take_app_le (x ++ rest)) by (rewrite length_app; lia).
  unfold W at 1. rewrite ParseVarInt_WriteVarInt; [|unfold is_u64; lia|by apply Forall_take, Forall_app]. fold W.
  rewrite (proj2 (Z.leb_gt _ _)), (proj2 (Z.ltb_ge _ _)) by lia. cbn [orb].
  rewrite (proj2 (Z.eqb_neq _ _)) by lia. cbn [fmap option_fmap option_map app].
  assert (Eoff : off = Z.of_nat (length (layout l1)) + 16 + Z.of_nat (length don) + Z.of_nat (length W)) by (unfold off; lia).
  eexists _, _. split; [rewrite Eoff; reflexivity|]. split.
  { replace (Z.to_nat off) with (length (A ++ W)) by (rewrite length_app; unfold off; lia).
    rewrite (app_assoc A), <- (app_assoc x). by apply mem_read_at. }
  split; [|split; [|split; [|split]]].
  - cbn [update_meta index_ with_index]. destruct (_ && is_complete _); cbn [index_ with_wstats stat_inc with_stats];
      change (index_ bd) with (index_ b); by rewrite find_update, decide_True, Hm.
  - done.
  - done.
  - cbn. unfold u16, is_u16 in *. apply Z.mod_small. lia.
  - cbn [cur_fragment_offset set_last_read_packet_skipped set_index_flags set_read_state].
    unfold u16, frame_packet. fold W. rewrite !length_app. rewrite Z.mod_small by lia. lia.
Qed.

Lemma flags_clear f : f .& (kFirstPacketContinuesFromPrevChunk .| kLastPacketContinuesOnNextChunk .| kChunkNeedsPatching) = 0 ->
  f .& kFirstPacketContinuesFromPrevChunk = 0 /\ f .& kLastPacketContinuesOnNextChunk = 0 /\ f .& kChunkNeedsPatching = 0.
Proof.
  rewrite !Z.land_lor_distr_r. intros [[H1 H2]%Z.lor_eq_0_iff H3]%Z.lor_eq_0_iff. done.
Qed.

(** With no fragment at its ends, every packet of a chunk is read alone. *)
Lemma next_action_whole m :
  flags m .& kFirstPacketContinuesFromPrevChunk = 0 -> flags m .& kLastPacketContinuesOnNextChunk = 0 ->
  next_action m = kReadOnePacket.
Proof.
  intros H1 H2. unfold next_action. rewrite H1, H2. cbn [Z.eqb negb]. rewrite andb_false_r, orb_true_r. by destruct (_ =? 0).
Qed.

Lemma next_packet fuel b pre post z k m don x rest :
  at_packet b pre post z k m don x rest -> packet_fits x -> bytes_ok rest ->
  exists p b' m', ReadNextTracePacket (S fuel) b = Some (Some p, b') /\ packet_octets b p = Some x /\
    producer_id_trusted (sequence_properties p) = producer_id k /\ sp_writer_id (sequence_properties p) = writer_id k /\
    read_step b b' pre post z /\ read_iter_ b' = read_iter_ b /\
    map_find (index_ b') k = Some m' /\ num_fragments m' = num_fragments m /\ flags m' = flags m /\
    num_fragments_read m' = num_fragments_read m + 1 /\ cur_fragment_offset m' = Z.of_nat (length (don ++ frame_packet x)).
Proof.
  intros Hap Hx Hrest. pose proof Hap as [HI Ec Hv Hm Ho Hr Hfl _]. destruct (flags_clear _ Hfl) as (F1 & F2 & F3).
  set (pw := MkProducerAndWriterID (producer_id k) (writer_id k)).
  set (bd := dcheck b (num_fragments_read m <=? num_fragments m)).
  assert (Hbd : read_step b bd pre post z) by (apply read_step_quiet; [done..|apply same_mem_dcheck]).
  assert (Hapd : at_packet bd pre post z k m don x rest) by (destruct Hap; split; try done; apply Hbd).
  destruct (ReadNextPacket_exact bd pre post z k m don x rest pw Hapd Hx Hrest) as (b' & m' & E & Hmem & Hm' & Hn & Hf & Hrd & Hoff).
  destruct (read_fragment bd pre post z pw k m (Some []) (rs_inv _ _ _ _ _ Hbd) Hm) as (? & ? & b2 & m2 & E2 & _ & _ & Hs & Hit & _).
  rewrite E in E2. simplify_eq. change (data_ bd) with (data_ b) in Hmem.
  eexists _, b2, m'. split.
  { unfold ReadNextTracePacket. cbn [read_loop]. rewrite Hv. unfold read_round. rewrite Ec. unfold deref. cbn [mbind option_bind].
    rewrite Hm. cbn [mbind option_bind]. rewrite F3. cbn [Z.eqb negb read_chunk]. fold bd. change (index_ bd) with (index_ b).
    rewrite Hm. cbn [mbind option_bind].
    rewrite (proj2 (Z.ltb_lt _ _)) by done. rewrite next_action_whole by done. cbn [producer_id_trusted sp_writer_id]. fold pw.
    rewrite E. cbn [mbind option_bind]. reflexivity. }
  split; [|split_and!; try done; by eapply read_step_trans]. unfold packet_octets. cbn [slices from_option id foldr fst snd]. rewrite Nat2Z.id, Hmem. cbn [mbind option_bind].
  by rewrite app_nil_r.
Qed.

(** C16: packets come back whole and in the order they were written. From a chunk
    with no fragments at its ends, whose payload holds the framed packets [xs],
    as many calls of [ReadNextTracePacket] return exactly the octets of each of
    [xs], in order, attributed to the chunk's producer and writer. *)
Theorem chunk_packets_in_order fuel xs : forall b pre post z k m don rest r,
  tb_inv b pre post z -> cur (read_iter_ b) = Some k -> is_valid (read_iter_ b) = true ->
  map_find (index_ b) k = Some m -> cur_fragment_offset m = Z.of_nat (length don) ->
  num_fragments_read m + Z.of_nat (length xs) <= num_fragments m ->
  flags m .& (kFirstPacketContinuesFromPrevChunk .| kLastPacketContinuesOnNextChunk .| kChunkNeedsPatching) = 0 ->
  r ∈ pre ++ post -> is_padding r = false -> key_of_record (r_hdr r) = k ->
  r_payload r = don ++ (xs ≫= frame_packet) ++ rest -> Forall packet_fits xs -> bytes_ok rest ->
  exists ps b', read_n (length xs) (S fuel) b = Some (ps, b') /\
    Forall2 (fun p x => packet_octets b p = Some x /\ producer_id_trusted (sequence_properties p) = producer_id k /\
      sp_writer_id (sequence_properties p) = writer_id k) ps xs.
Proof.
  induction xs as [|x xs IH]; intros b pre post z k m don rest r HI Hc Hv Hm Ho Hn Hfl Hr Hnp Hk Hp Hx Hrest.
  { by exists [], b. }
  apply Forall_cons in Hx as [Hx Hxs]. cbn [length] in Hn. cbn [mbind list_bind] in Hp. rewrite <- app_assoc in Hp.
  assert (Hb : bytes_ok ((xs ≫= frame_packet) ++ rest)).
  { apply bytes_ok_app. split; [|done]. apply Forall_forall. intros y (x' & Hy & Hx')%list_elem_of_bind.
    rewrite Forall_forall in Hxs. destruct (Hxs _ Hx') as [Hb' Hl]. unfold frame_packet in Hy. apply elem_of_app in Hy as [Hy|Hy].
    - pose proof (WriteVarInt_ok (Z.of_nat (length x')) ltac:(unfold is_u64; lia)) as Hw. unfold bytes_ok in Hw.
      rewrite Forall_forall in Hw. auto.
    - unfold bytes_ok in Hb'. rewrite Forall_forall in Hb'. auto. }
  assert (Hap : at_packet b pre post z k m don x ((xs ≫= frame_packet) ++ rest)) by (split; try done; [lia|by exists r]).
  destruct (next_packet fuel b pre post z k m don x _ Hap Hx Hb)
    as (p & b1 & m1 & E & Hp1 & Hpp & Hpw & [I1 S1 M1] & Hit & Hm1 & Hn1 & Hf1 & Hr1 & Ho1).
  destruct (IH b1 pre post z k m1 (don ++ frame_packet x) rest r) as (ps & b2 & E2 & Hps);
    rewrite ?Hit, ?Hf1, ?Hn1, ?Hr1, <- ?app_assoc; try done; [lia|].
  cbn [read_n length]. rewrite E. cbn [mbind option_bind]. rewrite E2. cbn [mbind option_bind]. exists (p :: ps), b2. split; [done|].
  constructor; [done|]. eapply Forall2_impl; [exact Hps|]. intros p' x' (H1 & H2). split; [|done].
  unfold packet_octets in *. by rewrite <- (sm_data _ _ M1).
Qed.

(** One chunk with two packets, before its first read. *)
Definition ex_packets : list (list Z) := [[11; 12]; [7]].
Definition ex_chunk : rec := mkRec (mkChunkRecord 0 1 7 2 32 0 0) ((ex_packets ≫= frame_packet) ++ replicate 11 0).
Definition ex_reading : TraceBuffer :=
  mkTB (layout [ex_chunk]) 32 32 32 0 [(mkKey 1 7 0, mkMeta 0 ex_ci kComplete 0 2 0 0)]
    (mkIter (Some (mkKey 1 7 0)) None (Some (mkKey 1 7 0)) 0) kOverwrite false false {[(1, 7) := 0]} (fun _ => 0) ∅ true true.

Lemma ex_reading_inv : tb_inv ex_reading [] [ex_chunk] 0.
Proof.
  split; try done.
  - split; try done; [by right|]. apply Forall_singleton.
    unfold rec_ok, hdr_ok, rsize, is_u32, is_u16, kChunkRecordSize; split_and!; done.
  - split.
    + intros k m. cbn [ex_reading index_ map_find last_chunk_id_written_]. case_decide; [intros _; subst k; by eexists|done].
    + intros pw c. cbn [ex_reading last_chunk_id_written_]. by intros [<- <-]%lookup_singleton_Some.
  - split.
    + repeat constructor.
    + apply NoDup_singleton.
    + intros k m. cbn [ex_reading index_ map_find].
      case_decide as E1; [intros [= <-]; subst k; exists (r_hdr ex_chunk); split; [left|by repeat split]|done].
    + cbn. intros k o h Hin. apply list_elem_of_singleton in Hin as [= -> -> ->]. by eexists.
Qed.

Lemma chunk_packets_in_order_witness :
  exists ps b', read_n 2 1 ex_reading = Some (ps, b') /\
    Forall2 (fun p x => packet_octets ex_reading p = Some x /\ producer_id_trusted (sequence_properties p) = 1 /\
      sp_writer_id (sequence_properties p) = 7) ps ex_packets.
Proof.
  apply (chunk_packets_in_order 0 ex_packets ex_reading [] [ex_chunk] 0 (mkKey 1 7 0) (mkMeta 0 ex_ci kComplete 0 2 0 0) []
    (replicate 11 0) ex_chunk); try done; [apply ex_reading_inv|left| |].
  - repeat apply Forall_cons_2; [..|apply Forall_nil_2]; (split; [by apply (bool_decide_unpack (bytes_ok _))|done]).
  - by apply (bool_decide_unpack (bytes_ok _)).
Defined.

(** ** What the reader gets wrong *)

Definition read_octets (r : option (list ReadPacket * TraceBuffer)) : option (list (option (list Z))) :=
  '(ps, b) ← r; Some (map (packet_octets b) ps).

(** Chunk 1 continues a packet of chunk 0. *)
Definition ex_chunk0 : WriteOp := WCopy 1 ex_ci 7 0 2 2 true ([1; 5] ++ [2; 9; 10]).
Definition ex_chunk1 : WriteOp := WCopy 1 ex_ci 7 1 3 1 true ([2; 11; 12] ++ [3; 21; 22; 23] ++ [1; 77]).

(** A packet may be returned with another packet's octets. In order the two
    chunks give the packets [5], [9; 10; 11; 12], [21; 22; 23] and [77]. But when
    chunk 1 is committed and partly read before chunk 0, [ReadAhead] takes the
    next unread fragment of chunk 1 for the rest of chunk 0's packet: it returns
    [9; 10; 77]. When chunk 1 was read to its end, it returns [9; 10] as if that
    were the whole packet, and chunk 1 ends up with more fragments read than it has,
    against a check of [ReadNextPacketInChunk]. *)
Example late_chunk_splices_packet :
  read_octets (b ← Create 256 kOverwrite; b ← run_writes b [ex_chunk0; ex_chunk1]; read_session 20 b) =
    Some [Some [5]; Some [9; 10; 11; 12]; Some [21; 22; 23]; Some [77]] /\
  read_octets (b ← Create 256 kOverwrite; b ← run_write b ex_chunk1; b ← BeginRead b;
               '(_, b) ← ReadNextTracePacket 20 b; b ← run_write b ex_chunk0; read_session 20 b) =
    Some [Some [5]; Some [9; 10; 77]] /\
  (b ← Create 256 kOverwrite; b ← run_write b ex_chunk1; '(_, b) ← read_session 20 b; b ← run_write b ex_chunk0;
   '(ps, b) ← read_session 20 b;
   Some (map (packet_octets b) ps, num_fragments_read <$> map_find (index_ b) (mkKey 1 7 1), dchecks_held_ b)) =
    Some ([Some [5]; Some [9; 10]], Some 4, false).
Proof. vm_compute. done. Qed.

(** [ReadNextTracePacket] may return true with a packet that has no slice,
    when all the fragments of a packet that spans chunks are empty. *)
Example empty_fragments_give_no_slice :
  (b ← Create 256 kOverwrite;
   b ← run_writes b [WCopy 1 ex_ci 7 0 1 2 true [0]; WCopy 1 ex_ci 7 1 1 1 true [0]];
   '(ps, _) ← read_session 20 b; Some (map slices ps)) = Some [[]].
Proof. vm_compute. done. Qed.
