(* ===== verification/TraceBufferClone.v ===== *)
(** * Snapshots of trace buffers

    [CloneReadOnly] of [src/tracing/service/trace_buffer.cc] copies the part of a buffer
    that was ever written, resets what was read, and leaves the write pointer at the start.
    Reads do not look at the write pointer, so a snapshot can be read as the buffer could. *)

From S2P Require Import Prelude ProtoUtils TraceBuffer TraceBufferRead.

(** ** Reads do not depend on the write pointer *)

(** The buffer of a result, with another write pointer. *)
Definition moved {A} (w : Z) (x : A * TraceBuffer) : A * TraceBuffer := (x.1, with_wptr x.2 w).

Lemma fragment_moved w b pw k p : ReadNextPacketInChunk (with_wptr b w) pw k p = moved w <$> ReadNextPacketInChunk b pw k p.
Proof.
  unfold ReadNextPacketInChunk. cbn [index_ with_wptr]. destruct (map_find (index_ b) k) as [m|]; [|done]. cbn [mbind option_bind].
  change (within_bounds (dcheck (with_wptr b w) ?c) ?o) with (within_bounds (dcheck b c) o). destruct (negb _); [done|].
  change (data_ (dcheck (with_wptr b w) ?c)) with (data_ (dcheck b c)).
  destruct (mem_read _ _ 16) as [hdr|]; [|done]. cbn [mbind option_bind].
  set (c := _ && (_ =? 0)). assert (Hi : forall size why,
    invalid_packet (dcheck (with_wptr b w) c) k m size why = with_wptr (invalid_packet (dcheck b c) k m size why) w).
  { intros size why. unfold invalid_packet, count_chunk_read. by destruct (is_complete _). }
  destruct (_ || _); [cbn; by rewrite Hi|]. destruct (mem_read _ _ _) as [oct|]; [|done]. cbn [mbind option_bind]. destruct (ParseVarInt oct) as [n v].
  destruct (_ || _); [cbn; by rewrite Hi|]. destruct (_ && is_complete _), (v =? 0); done.
Qed.

Lemma commit_moved w fuel : forall b last p c, readahead_commit fuel (with_wptr b w) last p c = moved w <$> readahead_commit fuel b last p c.
Proof.
  induction fuel as [|fuel IH]; intros b last p c; [done|]. cbn [readahead_commit]. cbn [read_iter_ index_ with_wptr].
  destruct (negb _); [done|]. destruct (deref _ _) as [[k m]|]; [|done]. cbn [mbind option_bind].
  assert (Hgo : forall b' p' c', (if bool_decide (cur (read_iter_ (with_wptr b' w)) = last) then Some (p', c', with_wptr b' w)
      else it ← MoveNext (index_ (with_wptr b' w)) (read_iter_ (with_wptr b' w)); readahead_commit fuel (with_iter (with_wptr b' w) it) last p' c') =
    moved w <$> (if bool_decide (cur (read_iter_ b') = last) then Some (p', c', b')
      else it ← MoveNext (index_ b') (read_iter_ b'); readahead_commit fuel (with_iter b' it) last p' c')).
  { intros b' p' c'. cbn [read_iter_ index_ with_wptr]. case_bool_decide; [done|]. destruct (MoveNext _ _) as [it|]; [|done]. cbn [mbind option_bind].
    apply (IH (with_iter b' it)). }
  destruct (0 <? num_fragments m); [|apply Hgo]. rewrite fragment_moved. destruct (ReadNextPacketInChunk _ _ _ _) as [[[r q] b1]|]; [|done]. apply Hgo.
Qed.

Lemma ahead_moved w fuel b p : ReadAhead fuel (with_wptr b w) p = moved w <$> ReadAhead fuel b p.
Proof.
  unfold ReadAhead. cbn [read_iter_ index_ with_wptr]. destruct (deref _ _) as [[k m]|]; [|done]. cbn [mbind option_bind]. destruct (MoveNext _ _) as [it|]; [|done].
  cbn [mbind option_bind]. destruct (readahead_search _ _ _ _) as [[it'|]|]; [|done..]. cbn [mbind option_bind]. rewrite commit_moved.
  destruct (readahead_commit _ _ _ _ _) as [[[q c] b1]|]; [|done]. by destruct c.
Qed.

Lemma skip_moved w b k : skip_packet (with_wptr b w) k = (fun b' => with_wptr b' w) <$> skip_packet b k.
Proof. unfold skip_packet. cbn [index_ with_wptr]. by destruct (map_find _ _). Qed.

Lemma chunk_moved w fuel : forall b k props d, read_chunk fuel (with_wptr b w) k props d = moved w <$> read_chunk fuel b k props d.
Proof.
  induction fuel as [|fuel IH]; intros b k props d; [done|]. cbn [read_chunk]. cbn [index_ with_wptr]. destruct (map_find _ _) as [m|]; [|done]. cbn [mbind option_bind].
  destruct (_ <? _); [|done]. assert (Hskip : forall b1 k1 d1, (b ← skip_packet (with_wptr b1 w) k1; read_chunk fuel b k1 props d1) =
    moved w <$> (b ← skip_packet b1 k1; read_chunk fuel b k1 props d1)).
  { intros b1 k1 d1. rewrite skip_moved. destruct (skip_packet b1 k1); [|done]. apply IH. }
  destruct (next_action m).
  - rewrite fragment_moved. destruct (ReadNextPacketInChunk _ _ _ _) as [[[r q] b1]|]; [|done]. apply Hskip.
  - rewrite fragment_moved. destruct (ReadNextPacketInChunk _ _ _ _) as [[[r q] b1]|]; [|done]. cbn [fmap option_fmap option_map moved fst snd mbind option_bind].
    destruct r; [done| |apply IH]. rewrite skip_moved. by destruct (skip_packet b1 k).
  - rewrite ahead_moved. destruct (ReadAhead _ _ _) as [[[r q] b1]|]; [|done]. cbn [fmap option_fmap option_map moved fst snd mbind option_bind]. destruct r; [done..|].
    cbn [read_iter_ with_wptr]. destruct (cur (read_iter_ b1)); [|done]. apply Hskip.
Qed.

Lemma round_moved w fuel b d : read_round fuel (with_wptr b w) d = moved w <$> read_round fuel b d.
Proof.
  unfold read_round. cbn [index_ read_iter_ with_wptr]. destruct (deref _ _) as [[k m]|]; [|done]. cbn [mbind option_bind]. destruct (negb _); [done|].
  apply (chunk_moved w fuel (dcheck b _)).
Qed.

Lemma loop_moved w fuel n : forall b d, read_loop n fuel (with_wptr b w) d = moved w <$> read_loop n fuel b d.
Proof.
  induction n as [|n IH]; intros b d; [done|]. cbn [read_loop]. cbn [read_iter_ with_wptr].
  assert (Hgo : forall b d, ('(o, b) ← read_round fuel (with_wptr b w) d;
      match o with
      | OReturn p => Some (Some p, b)
      | OBreak dropped => it ← MoveNext (index_ b) (read_iter_ b); read_loop n fuel (with_iter b it) dropped
      end) = moved w <$> ('(o, b) ← read_round fuel b d;
      match o with
      | OReturn p => Some (Some p, b)
      | OBreak dropped => it ← MoveNext (index_ b) (read_iter_ b); read_loop n fuel (with_iter b it) dropped
      end)).
  { intros b0 d0. rewrite round_moved. destruct (read_round fuel b0 d0) as [[[p|d1] b1]|]; [done| |done]. cbn [fmap option_fmap option_map moved fst snd mbind option_bind index_ read_iter_ with_wptr].
    destruct (MoveNext _ _) as [it|]; [|done]. apply (IH (with_iter b1 it)). }
  destruct (is_valid _); [apply Hgo|]. destruct (seq_end _) as [k|]; [|done].
  change (GetReadIterForSequence (with_wptr b w) (Some k)) with (GetReadIterForSequence b (Some k)). destruct (GetReadIterForSequence _ _) as [it|]; [|done].
  cbn [mbind option_bind]. destruct (negb _); [done|]. apply (Hgo (with_iter b it)).
Qed.

Lemma ReadNextTracePacket_moved w fuel b : ReadNextTracePacket fuel (with_wptr b w) = moved w <$> ReadNextTracePacket fuel b.
Proof. apply loop_moved. Qed.

Lemma BeginRead_moved w b : BeginRead (with_wptr b w) = (fun b' => with_wptr b' w) <$> BeginRead b.
Proof.
  unfold BeginRead. change (GetReadIterForSequence (with_wptr b w) (map_begin (index_ (with_wptr b w)))) with (GetReadIterForSequence b (map_begin (index_ b))).
  by destruct (GetReadIterForSequence _ _).
Qed.

(** ** The snapshot *)

(** What was read of a chunk is forgotten. *)
Definition reset_meta (m : ChunkMeta) : ChunkMeta := set_last_read_packet_skipped (set_read_state m 0 0) false.
Definition reset_entry (e : Key * ChunkMeta) : Key * ChunkMeta := (fst e, reset_meta (snd e)).

Lemma find_reset idx k : map_find (reset_entry <$> idx) k = reset_meta <$> map_find idx k.
Proof. induction idx as [|[k' m] idx IH]; [done|]. cbn. by destruct (decide _). Qed.

Lemma index_reset idx es : index_ok idx es -> index_ok (reset_entry <$> idx) es.
Proof.
  intros [H1 H2 H3 H4]. split; [|done| |].
  - apply sorted_keys. apply sorted_keys in H1. by rewrite <- list_fmap_compose.
  - intros k m. rewrite find_reset, fmap_Some. intros (m0 & E & ->). destruct (H3 k m0 E) as (h & Hin & M1 & M2 & M3 & M4). exists h. split; [done|].
    unfold meta_ok, is_u16 in *. cbn. split_and!; (done || lia).
  - intros k o h Hin. rewrite find_reset. apply fmap_is_Some. by eapply H4.
Qed.

(** A buffer in use, or a snapshot: reading one is safe, and so is writing into one that is
    not read-only. *)
Definition buffer_ok (b : TraceBuffer) : Prop :=
  exists w pre post z, tb_inv (with_wptr b w) pre post z /\ (read_only_ b = false -> w = wptr_ b).

Lemma with_wptr_id b : with_wptr b (wptr_ b) = b.
Proof. by destruct b. Qed.

Lemma buffer_ok_inv b : buffer_ok b -> read_only_ b = false -> exists pre post z, tb_inv b pre post z.
Proof. intros (w & pre & post & z & HI & Hw) Hro. rewrite (Hw Hro), with_wptr_id in HI. eauto. Qed.

Lemma buffer_ok_of b pre post z : tb_inv b pre post z -> buffer_ok b.
Proof. intros HI. exists (wptr_ b), pre, post, z. by rewrite with_wptr_id. Qed.

Lemma clone_ok_of b :
  buffer_ok b ->
  exists b', CloneReadOnly b = Some b' /\ buffer_ok b' /\ read_only_ b' = true /\ data_ b' = data_ b /\ size_ b' = size_ b /\
    forall k, match map_find (index_ b) k, map_find (index_ b') k with
    | Some m, Some m' => record_off m' = record_off m /\ client_identity_trusted m' = client_identity_trusted m /\ flags m' = flags m /\
        num_fragments m' = num_fragments m /\ is_complete m' = is_complete m /\ num_fragments_read m' = 0
    | None, None => True
    | _, _ => False
    end.
Proof.
  intros (w & pre & post & z & [[L1 L2 L3 L4 L5 L6] Hmod Hsz Hmx Hus Hwl Hds Hla Hix] & _). cbn [with_wptr data_ size_ wptr_ max_chunk_size_ used_size_ overwrite_policy_ discard_writes_ last_chunk_id_written_ index_] in *.
  unfold CloneReadOnly, Initialize. rewrite (proj2 (Z.leb_le _ _)) by lia. cbn [mbind option_bind]. unfold EnsureCommitted at 1. cbn [size_ used_size_ with_used].
  rewrite (proj2 (Z.leb_le _ _)) by lia. cbn [mbind option_bind]. rewrite mem_read_some by lia. cbn [mbind option_bind data_ with_used].
  assert (Hd : mem_write (replicate (Z.to_nat (size_ b)) 0) 0 (take (Z.to_nat (used_size_ b)) (drop 0 (data_ b))) = Some (data_ b)).
  { assert (Hlen : length (data_ b) = Z.to_nat (size_ b)) by lia. assert (Hl : (length (layout pre ++ layout post) + z = Z.to_nat (size_ b))%nat).
    { rewrite <- Hlen, L1, !length_app, length_replicate. lia. }
    assert (Hz : drop (Z.to_nat (used_size_ b)) (data_ b) = replicate (Z.to_nat (size_ b) - Z.to_nat (used_size_ b)) 0).
    { rewrite L1, app_assoc, drop_app_ge by lia. rewrite drop_replicate. f_equal. lia. }
    rewrite mem_write_some by (rewrite length_replicate, length_take; lia). f_equal. unfold buf_write. cbn [take app]. rewrite drop_0, length_take, Nat.min_l, drop_replicate by lia.
    rewrite <- (take_drop (Z.to_nat (used_size_ b)) (data_ b)) at 2. by rewrite Hz. }
  rewrite Hd. cbn [mbind option_bind]. eexists. split; [reflexivity|]. split_and!; try done.
  - exists w, pre, post, z. split; [|done]. split; cbn [with_wptr data_ size_ wptr_ max_chunk_size_ used_size_ overwrite_policy_ discard_writes_ last_chunk_id_written_ index_]; try done; [cbn; lia| |by apply index_reset].
    split; [|apply Hla]. intros k m. rewrite (find_reset (index_ b)), fmap_Some. intros (m0 & E & _). by eapply (proj1 Hla).
  - intros k. cbn [index_]. rewrite (find_reset (index_ b)). destruct (map_find (index_ b) k) as [m|]; [|done]. cbn. split_and!; try done. apply (complete_skipped (set_read_state m 0 0) false).
Qed.


