(* ===== verification/TraceBufferDrain.v ===== *)
(** * Draining a trace buffer

    A consumer may read a buffer in many sessions, each starting from the first sequence
    again. Every packet that [ReadNextTracePacket] of
    [src/tracing/service/trace_buffer.cc] returns uses up some of [work], however the
    sessions are cut, so that a buffer nobody writes into runs dry. [work] is not the number
    of fragments left: [num_fragments_read] is 16 bits wide, and a read-ahead that ends in a
    chunk with all of [num_fragments_read] set starts that chunk over. Each chunk can do this
    only to chunks behind it in its sequence, and only once. *)

From S2P Require Import Prelude ProtoUtils Histogram TraceBuffer TraceBufferRead.

(** ** What is left of a chunk *)

Definition left (m : ChunkMeta) : Z := Z.max 0 (num_fragments m - num_fragments_read m).

(** A chunk whose only fragment continues a packet is passed through, and starts no
    read-ahead. *)
Definition passes (m : ChunkMeta) : bool := (num_fragments m =? 1) && negb (flags m .& kFirstPacketContinuesFromPrevChunk =? 0).

Definition can_start (m : ChunkMeta) : bool := (num_fragments_read m <? num_fragments m) && negb (passes m).

(** The chunks that may follow one in its sequence. *)
Definition rank (last : gmap (Z * Z) Z) (k : Key) : Z :=
  match last !! (producer_id k, writer_id k) with Some w => (w - chunk_id k) mod 2 ^ 32 | None => 0 end.

Definition pot (last : gmap (Z * Z) Z) (k : Key) (m : ChunkMeta) : Z :=
  left m + if can_start m then rank last k * 2 ^ 16 else 0.

Fixpoint pots (last : gmap (Z * Z) Z) (idx : ChunkMap) : Z :=
  match idx with
  | [] => 0
  | (k, m) :: idx => pot last k m + pots last idx
  end.

Definition work (b : TraceBuffer) : Z := pots (last_chunk_id_written_ b) (index_ b).

Lemma rank_bounds last k : 0 <= rank last k < 2 ^ 32.
Proof. unfold rank. destruct (last !! _); [|lia]. apply Z.mod_pos_bound. lia. Qed.

Lemma left_nonneg m : 0 <= left m.
Proof. unfold left. lia. Qed.

Lemma pot_nonneg last k m : 0 <= pot last k m.
Proof. unfold pot. pose proof (left_nonneg m). pose proof (rank_bounds last k). destruct (can_start m); lia. Qed.

Lemma pots_update last idx k m m' : map_find idx k = Some m -> pots last (map_update idx k m') = pots last idx - pot last k m + pot last k m'.
Proof.
  induction idx as [|[k1 m1] idx IH]; [done|]. cbn. case_decide as E; intros H; [simplify_eq; cbn; lia|]. cbn. rewrite IH by done. lia.
Qed.

(** ** What reading leaves alone *)

Record same_chunk (m m' : ChunkMeta) : Prop := {
  sc_num : num_fragments m' = num_fragments m;
  sc_flags : flags m' = flags m;
  sc_complete : is_complete m' = is_complete m;
  sc_client : client_identity_trusted m' = client_identity_trusted m;
  sc_off : record_off m' = record_off m }.

Definition same_entry (e e' : Key * ChunkMeta) : Prop := e.1 = e'.1 /\ same_chunk e.2 e'.2.
Definition same_chunks : relation ChunkMap := Forall2 same_entry.

#[export] Instance same_chunk_preorder : PreOrder same_chunk.
Proof. split; [by split|]. intros a b c [] []. split; congruence. Qed.

#[export] Instance same_entry_preorder : PreOrder same_entry.
Proof. split; [by split|]. intros a b c [E1 H1] [E2 H2]. split; [congruence|by etrans]. Qed.

#[export] Instance same_chunks_preorder : PreOrder same_chunks.
Proof. unfold same_chunks. split; apply _. Qed.

Lemma same_chunks_sim idx idx' : same_chunks idx idx' -> sim idx idx'.
Proof. intros H. eapply Forall2_impl; [exact H|]. intros e e' [E []]. done. Qed.

Lemma same_chunks_update idx k m m' : map_find idx k = Some m -> same_chunk m m' -> same_chunks idx (map_update idx k m').
Proof.
  induction idx as [|[k1 m1] idx IH]; [done|]. cbn. case_decide as E; intros H1 H2.
  - simplify_eq. constructor; [done|]. reflexivity.
  - constructor; [done|]. by apply IH.
Qed.

Lemma same_chunks_find idx idx' k m : same_chunks idx idx' -> map_find idx k = Some m -> exists m', map_find idx' k = Some m' /\ same_chunk m m'.
Proof.
  induction 1 as [|[k1 m1] [k2 m2] a b [E1 E2] H IH]; [done|]. cbn in *. subst k2. case_decide; [|done]. intros [= <-]. by exists m2.
Qed.

(** The counters of the chunks are 16 bits wide. *)
Definition wide (idx : ChunkMap) : Prop := Forall (fun e => is_u16 (num_fragments e.2) /\ is_u16 (num_fragments_read e.2)) idx.

Lemma wide_find idx k m : wide idx -> map_find idx k = Some m -> is_u16 (num_fragments m) /\ is_u16 (num_fragments_read m).
Proof. intros Hw Hm%map_find_elem. unfold wide in Hw. rewrite Forall_forall in Hw. apply (Hw _ Hm). Qed.

Lemma wide_update idx k m : wide idx -> is_u16 (num_fragments m) -> is_u16 (num_fragments_read m) -> wide (map_update idx k m).
Proof.
  intros Hw H1 H2. induction Hw as [|[k1 m1] idx H Hw IH]; [constructor|]. cbn. case_decide; constructor; done.
Qed.

(** The index of a buffer between two operations. *)
Record settled (b : TraceBuffer) : Prop := {
  st_idx : idx_ok (index_ b);
  st_last : last_covers (last_chunk_id_written_ b) (index_ b);
  st_wide : wide (index_ b) }.

(** ... and in the middle of a session. *)
Record ready (b : TraceBuffer) : Prop := {
  ry_settled : settled b;
  ry_seq : seq_ok (index_ b) (read_iter_ b);
  ry_wrap : forall kb, seq_begin (read_iter_ b) = Some kb ->
    last_chunk_id_written_ b !! (producer_id kb, writer_id kb) = Some (wrapping_id (read_iter_ b)) }.

Record reading (b b' : TraceBuffer) : Prop := {
  rd_last : last_chunk_id_written_ b' = last_chunk_id_written_ b;
  rd_same : same_chunks (index_ b) (index_ b') }.

#[export] Instance reading_preorder : PreOrder reading.
Proof. split; [by split|]. intros a b c [H1 H2] [H3 H4]. split; [congruence|by etrans]. Qed.

Lemma reading_settled b b' : reading b b' -> wide (index_ b') -> settled b -> settled b'.
Proof.
  intros [R1 R2] Hw [H1 [H2 H3] _]. pose proof (same_chunks_sim _ _ R2) as Hs. split; [by eapply sim_idx_ok| |done]. rewrite R1. split; [|done].
  intros k m Hm. assert (Hk : has_key (index_ b) k) by (apply (sim_has_key _ _ k Hs); by eexists). destruct Hk as [m0 Hm0]. by eapply H2.
Qed.

(** A step that leaves the iterator in its sequence. *)
Lemma reading_ready b b' :
  reading b b' -> wide (index_ b') -> seq_ok (index_ b') (read_iter_ b') -> same_range (read_iter_ b) (read_iter_ b') -> ready b -> ready b'.
Proof.
  intros Hr Hw Hq (R1 & _ & R3) [H1 H2 H3]. split; [by eapply reading_settled|done|]. intros kb. rewrite R1, R3, (rd_last _ _ Hr). apply H3.
Qed.

Lemma ready_iter b it : ready b -> seq_ok (index_ b) it -> same_range (read_iter_ b) it -> ready (with_iter b it).
Proof. intros Hb Hq Hr. apply (reading_ready b); try done. apply Hb. Qed.

(** Along a sequence the rank goes down. *)
Lemma rank_dist b it k :
  ready b -> seq_ok (index_ b) it -> same_range (read_iter_ b) it -> is_valid it = true -> cur it = Some k -> rank (last_chunk_id_written_ b) k = dist it.
Proof.
  intros [[Hi _ _] _ Hw] Hq (R1 & _ & R3) Hv Ek. destruct (is_valid_key _ _ Hi Hq Hv) as (kb & k' & Eb & Ek' & _ & _ & [S1 S2]). simplify_eq.
  unfold rank, dist. rewrite Ek, <- S1, <- S2, (Hw kb), R3; [done|]. by rewrite <- R1.
Qed.

(** ** One fragment *)

(** The entry of a chunk after a fragment of it was read. *)
Record read_on (m m' : ChunkMeta) : Prop := {
  ro_same : same_chunk m m';
  ro_read : num_fragments_read m' = num_fragments m \/ num_fragments_read m' = u16 (num_fragments_read m + 1) }.

Lemma fragment_read b pw k p r p' b' m :
  ReadNextPacketInChunk b pw k p = Some (r, p', b') -> map_find (index_ b) k = Some m ->
  exists m', index_ b' = map_update (index_ b) k m' /\ read_on m m' /\ last_chunk_id_written_ b' = last_chunk_id_written_ b /\ read_iter_ b' = read_iter_ b.
Proof.
  intros H Hm. unfold ReadNextPacketInChunk in H. rewrite Hm in H. cbn [mbind option_bind] in H.
  set (bd := dcheck b _) in H. destruct (negb _); [done|]. destruct (mem_read _ _ 16) as [hdr|]; [|done]. cbn [mbind option_bind] in H.
  assert (Hinv : forall size why, exists m', index_ (invalid_packet bd k m size why) = map_update (index_ b) k m' /\ read_on m m' /\
    last_chunk_id_written_ (invalid_packet bd k m size why) = last_chunk_id_written_ b /\ read_iter_ (invalid_packet bd k m size why) = read_iter_ b).
  { intros size why. exists (set_read_state m (num_fragments m) 0). unfold invalid_packet, count_chunk_read.
    destruct (is_complete _); (split; [done|]; split; [|done]; split; [done|by left]). }
  destruct (_ || _); [simplify_eq; apply Hinv|]. destruct (mem_read _ _ _) as [oct|]; [|done]. cbn [mbind option_bind] in H. destruct (ParseVarInt oct) as [n v].
  destruct (_ || _); [simplify_eq; apply Hinv|]. set (m1 := set_read_state m _ _) in H.
  exists (set_last_read_packet_skipped m1 false).
  assert (Hro : read_on m (set_last_read_packet_skipped m1 false)) by (split; [split; [done..|apply (complete_skipped m1)|done|done]|by right]).
  destruct (_ && is_complete m1), (v =? 0); simplify_eq; by split_and!.
Qed.

(** A fragment that was there to be read. *)
Lemma read_on_pot last k m m' :
  is_u16 (num_fragments m) -> 0 <= num_fragments_read m < num_fragments m -> read_on m m' -> pot last k m' < pot last k m.
Proof.
  intros Hn Hr [[H1 H2 H3 _] H4]. pose proof (rank_bounds last k). unfold pot, can_start, passes, left, is_u16 in *. rewrite H1, H2.
  assert (num_fragments_read m < num_fragments_read m' <= num_fragments m) as Hr'.
  { destruct H4 as [-> | ->]; [lia|]. unfold u16. rewrite Z.mod_small by lia. lia. }
  rewrite (proj2 (Z.ltb_lt (num_fragments_read m) (num_fragments m))) by lia. cbn [andb]. destruct (_ <? _), (negb _); cbn [andb]; lia.
Qed.

(** The last one, of a chunk that starts a read-ahead. *)
Lemma read_on_start last k m m' :
  is_u16 (num_fragments m) -> 0 <= num_fragments_read m < num_fragments m -> next_action m = kTryReadAhead -> read_on m m' ->
  pot last k m' + rank last k * 2 ^ 16 < pot last k m.
Proof.
  intros Hn Hr Ha [[H1 H2 H3 _] H4].
  assert (Hs : can_start m = true /\ num_fragments_read m = num_fragments m - 1).
  { unfold can_start, passes. rewrite (proj2 (Z.ltb_lt _ _)) by lia. unfold next_action in Ha. destruct (Z.eqb_spec (num_fragments_read m) 0) as [E0|E0].
    - destruct (negb (_ =? 0)); [done|]. destruct (Z.eqb_spec (num_fragments m) 1); [|done]. split; [done|lia].
    - destruct (Z.ltb_spec (num_fragments_read m) (num_fragments m - 1)); [done|]. destruct (Z.eqb_spec (num_fragments m) 1); [lia|]. split; [done|lia]. }
  destruct Hs as [Hs El]. assert (Er : num_fragments_read m' = num_fragments m).
  { destruct H4 as [H4|H4]; [done|]. rewrite H4, El. unfold u16, is_u16 in *. rewrite Z.mod_small by lia. lia. }
  unfold pot. rewrite Hs. unfold can_start. rewrite H1, Er, Z.ltb_irrefl. cbn [andb]. unfold left. rewrite H1, Er, El. lia.
Qed.

(** One that a read-ahead finds further on. *)
Lemma read_on_through last k m m' :
  is_u16 (num_fragments m) -> read_on m m' -> 0 <= num_fragments_read m ->
  pot last k m' <= pot last k m + if passes m then 1 else rank last k * 2 ^ 16 + (2 ^ 16 - 1).
Proof.
  intros Hn [[H1 H2 H3 _] H4] Hr. pose proof (rank_bounds last k). unfold pot, can_start. replace (passes m') with (passes m) by (unfold passes; by rewrite H1, H2).
  assert (Hp : passes m = true -> num_fragments m = 1) by (unfold passes; destruct (Z.eqb_spec (num_fragments m) 1); done).
  assert (H0 : 0 <= num_fragments_read m') by (destruct H4 as [-> | ->]; unfold is_u16, u16 in *; [lia|apply Z.mod_pos_bound; lia]).
  unfold left, is_u16 in *. rewrite H1. destruct (passes m); rewrite ?andb_false_r, ?andb_true_r; [specialize (Hp eq_refl); lia|].
  destruct (_ <? _), (_ <? _); lia.
Qed.

Lemma read_on_wide m m' : is_u16 (num_fragments m) -> read_on m m' -> is_u16 (num_fragments m') /\ is_u16 (num_fragments_read m').
Proof. intros Hn [[H1 _ _ _] H4]. rewrite H1. split; [done|]. destruct H4 as [-> | ->]; [done|apply is_u16_u16]. Qed.

Lemma fragment_work b pw k p r p' b' m :
  ready b -> ReadNextPacketInChunk b pw k p = Some (r, p', b') -> map_find (index_ b) k = Some m ->
  exists m', map_find (index_ b') k = Some m' /\ read_on m m' /\ reading b b' /\ ready b' /\ read_iter_ b' = read_iter_ b /\
    work b' = work b - pot (last_chunk_id_written_ b) k m + pot (last_chunk_id_written_ b) k m'.
Proof.
  intros Hb H Hm. destruct (fragment_read _ _ _ _ _ _ _ _ H Hm) as (m' & Hi & Hro & Hl & Hit). exists m'.
  destruct (wide_find _ _ _ (st_wide _ (ry_settled _ Hb)) Hm) as [Hn _]. destruct (read_on_wide _ _ Hn Hro) as [W1 W2].
  assert (Hr : reading b b') by (split; [done|]; rewrite Hi; eapply same_chunks_update; [done|apply Hro]).
  split; [by rewrite Hi, find_update, decide_True, Hm|]. split; [done|]. split; [done|]. split; [|split; [done|]].
  - apply (reading_ready b); try done; [rewrite Hi; by apply wide_update, W2; [apply Hb|]| |by rewrite Hit].
    rewrite Hit. eapply sim_seq_ok; [apply same_chunks_sim, Hr|apply Hb].
  - unfold work. rewrite Hl, Hi. by apply pots_update.
Qed.

Lemma skip_work b k b' :
  ready b -> skip_packet b k = Some b' -> reading b b' /\ ready b' /\ read_iter_ b' = read_iter_ b /\ work b' = work b.
Proof.
  intros Hb H. unfold skip_packet in H. destruct (map_find (index_ b) k) as [m|] eqn:Hm; [|done]. cbn [mbind option_bind] in H. simplify_eq.
  set (m' := set_last_read_packet_skipped m true). destruct (wide_find _ _ _ (st_wide _ (ry_settled _ Hb)) Hm) as [W1 W2].
  assert (Hr : reading b (update_meta b k m')).
  { split; [done|]. eapply same_chunks_update; [done|]. split; [done..|apply complete_skipped|done|done]. }
  split; [done|]. split; [|split; [done|]].
  - apply (reading_ready b); try done; [cbn; apply wide_update; try done; apply Hb|]. cbn. eapply sim_seq_ok; [apply same_chunks_sim, Hr|apply Hb].
  - unfold work. cbn [update_meta with_index last_chunk_id_written_ index_]. rewrite (pots_update _ _ _ m) by done.
    assert (pot (last_chunk_id_written_ b) k m' = pot (last_chunk_id_written_ b) k m) by done. lia.
Qed.

(** ** Read-ahead *)

(** From [it] to [it'] every chunk but the last is passed through. *)
Inductive through (idx : ChunkMap) : SequenceIterator -> SequenceIterator -> Prop :=
| through_here it : is_valid it = true -> through idx it it
| through_next it k m it1 it' : is_valid it = true -> cur it = Some k -> map_find idx k = Some m -> num_fragments m = 0 \/ passes m = true ->
    MoveNext idx it = Some it1 -> through idx it1 it' -> through idx it it'.

Lemma search_through idx fuel : forall it next it', readahead_search fuel idx it next = Some (Some it') -> through idx it it'.
Proof.
  induction fuel as [|fuel IH]; intros it next it' H; [done|]. cbn [readahead_search] in H. destruct (is_valid it) eqn:Hv; [|done]. cbn [negb] in H.
  unfold deref in H. destruct (cur it) as [k|] eqn:Ek; [|done]. cbn [mbind option_bind] in H. destruct (map_find idx k) as [m|] eqn:Em; [|done]. cbn [mbind option_bind] in H.
  destruct (MoveNext idx it) as [it1|] eqn:Emv; cbn [mbind option_bind] in H.
  - destruct (Z.eqb_spec (num_fragments m) 0) as [E0|]; [eapply through_next; eauto|]. destruct (Z.eqb_spec (flags m .& kFirstPacketContinuesFromPrevChunk) 0) as [|Ef];
      [by rewrite orb_true_r in H|]. rewrite orb_false_r in H. destruct (negb (_ =? next)); [done|]. destruct (negb _); [done|].
    destruct (Z.eqb_spec (num_fragments m) 1) as [E1|]; cbn [andb] in H; [|simplify_eq; by apply through_here].
    destruct (negb _); [|simplify_eq; by apply through_here]. eapply through_next; eauto. right. unfold passes. rewrite E1. cbn [Z.eqb Pos.eqb andb].
    by rewrite (proj2 (Z.eqb_neq _ _)).
  - repeat match type of H with (if ?c then _ else _) = _ => destruct c; try done end. simplify_eq. by apply through_here.
Qed.

Lemma through_valid idx it it' : through idx it it' -> is_valid it = true.
Proof. by destruct 1. Qed.

Lemma through_same idx idx' it it' : same_chunks idx idx' -> idx_ok idx -> seq_ok idx it -> through idx it it' -> through idx' it it'.
Proof.
  intros Hs Hi Hq H. induction H as [it Hv|it k m it1 it' Hv Ek Em Hp Emv Ht IH]; [by apply through_here|].
  destruct (same_chunks_find _ _ _ _ Hs Em) as (m' & Em' & [S1 S2 _ _]). destruct (MoveNext_ok idx it Hi Hq) as (it2 & E2 & Hq2 & _). simplify_eq.
  eapply through_next; eauto; [|by rewrite (sim_MoveNext idx idx') by (done || by apply same_chunks_sim)]. unfold passes in *. by rewrite S1, S2.
Qed.

Lemma commit_work fuel : forall b it' packet corrupt p' c' b' k,
  ready b -> cur (read_iter_ b) = Some k -> through (index_ b) (read_iter_ b) it' ->
  readahead_commit fuel b (cur it') packet corrupt = Some (p', c', b') ->
  reading b b' /\ ready b' /\ is_valid (read_iter_ b') = true /\ same_range (read_iter_ b) (read_iter_ b') /\
  work b' <= work b + rank (last_chunk_id_written_ b) k * 2 ^ 16 + (2 ^ 16 - 1).
Proof.
  induction fuel as [|fuel IH]; intros b it' packet corrupt p' c' b' k Hb Ek Ht H; [done|]. cbn [readahead_commit] in H.
  pose proof (through_valid _ _ _ Ht) as Hv. rewrite Hv in H. cbn [negb] in H. rewrite Ek in H. unfold deref in H. cbn [mbind option_bind] in H.
  destruct (map_find (index_ b) k) as [m|] eqn:Em; [|done]. cbn [mbind option_bind] in H. pose proof (rank_bounds (last_chunk_id_written_ b) k) as Hrb.
  destruct (wide_find _ _ _ (st_wide _ (ry_settled _ Hb)) Em) as [Wn Wr].
  assert (Hstep : exists p1 c1 b1, (if 0 <? num_fragments m then
      '(r, p, b) ← ReadNextPacketInChunk b (MkProducerAndWriterID (producer_id k) (writer_id k)) k (Some packet);
      Some (default [] p, corrupt || bool_decide (r = kFailedInvalidPacket), b) else Some (packet, corrupt, b)) = Some (p1, c1, b1) /\
    reading b b1 /\ ready b1 /\ read_iter_ b1 = read_iter_ b /\
    work b1 <= work b + (if (num_fragments m =? 0) || passes m then 1 else rank (last_chunk_id_written_ b) k * 2 ^ 16 + (2 ^ 16 - 1))).
  { destruct (Z.ltb_spec 0 (num_fragments m)) as [Hn|Hn].
    - destruct (ReadNextPacketInChunk _ _ _ _) as [[[r q] b1]|] eqn:Ef; [|done]. cbn [mbind option_bind].
      destruct (fragment_work _ _ _ _ _ _ _ _ Hb Ef Em) as (m' & _ & Hro & Hr & Hb1 & Hit & Hw). eexists _, _, b1. split; [done|]. split_and!; try done.
      rewrite (proj2 (Z.eqb_neq (num_fragments m) 0)) by lia. cbn [orb]. pose proof (read_on_through (last_chunk_id_written_ b) k m m' Wn Hro (proj1 Wr)). lia.
    - eexists _, _, b. split; [done|]. split_and!; try done. case_match; lia. }
  destruct Hstep as (p1 & c1 & b1 & Es & Hr & Hb1 & Hit & Hw). rewrite Es in H. cbn [mbind option_bind] in H. rewrite Hit in H.
  assert (Hle : (if (num_fragments m =? 0) || passes m then 1 else rank (last_chunk_id_written_ b) k * 2 ^ 16 + (2 ^ 16 - 1)) <=
    rank (last_chunk_id_written_ b) k * 2 ^ 16 + (2 ^ 16 - 1)) by (case_match; lia).
  case_bool_decide as Hc; [simplify_eq; rewrite Hit; split_and!; try done; lia|].
  inversion Ht as [|it0 k0 m0 it1 it2 _ Ek0 Em0 Hp Emv Ht1]; simplify_eq. pose proof (st_idx _ (ry_settled _ Hb)) as Hi.
  destruct (MoveNext_ok _ _ Hi (ry_seq _ Hb)) as (itx & Ex & Hq1 & Hrg & Hd). simplify_eq. pose proof (same_chunks_sim _ _ (rd_same _ _ Hr)) as Hs.
  rewrite (sim_MoveNext (index_ b)) in H by (done || apply Hb). rewrite Emv in H. cbn [mbind option_bind] in H.
  assert (Hb2 : ready (with_iter b1 it1)) by (apply ready_iter; [done|by eapply sim_seq_ok|by rewrite Hit]).
  pose proof (through_valid _ _ _ Ht1) as Hv1. destruct (is_valid_key _ _ Hi Hq1 Hv1) as (_ & k1 & _ & Ek1 & _ & _ & _).
  assert (Ht2 : through (index_ (with_iter b1 it1)) (read_iter_ (with_iter b1 it1)) it') by (cbn; eapply through_same; [apply Hr|done..]).
  destruct (IH _ _ _ _ _ _ _ k1 Hb2 Ek1 Ht2 H) as (Hr' & Hb' & Hv' & Hrg' & Hw'). cbn [with_iter read_iter_] in Hrg'.
  split_and!; try done; [etrans; [exact Hr|]; by destruct Hr'; split|by eapply same_range_trans|].
  change (work (with_iter b1 it1)) with (work b1) in Hw'. change (last_chunk_id_written_ (with_iter b1 it1)) with (last_chunk_id_written_ b1) in Hw'. rewrite (rd_last _ _ Hr) in Hw'.
  assert (Hc1 : (num_fragments m =? 0) || passes m = true) by (destruct Hp as [-> | ->]; [done|apply orb_true_r]). rewrite Hc1 in Hw.
  rewrite (rank_dist b it1 k1) in Hw' by done. rewrite (rank_dist b (read_iter_ b) k) by (done || apply Hb). destruct (Hd Hv1) as [_ Hd1]. lia.
Qed.

Lemma ahead_work fuel b p r p' b' k m :
  ready b -> is_valid (read_iter_ b) = true -> cur (read_iter_ b) = Some k -> map_find (index_ b) k = Some m -> next_action m = kTryReadAhead ->
  num_fragments_read m < num_fragments m -> ReadAhead fuel b p = Some (r, p', b') ->
  match r with
  | kFailedMoveToNextSequence => b' = b
  | _ => reading b b' /\ ready b' /\ is_valid (read_iter_ b') = true /\ same_range (read_iter_ b) (read_iter_ b') /\ work b' < work b
  end.
Proof.
  intros Hb Hv Ek Em Ha Hlt H. unfold ReadAhead in H. rewrite Ek in H. unfold deref in H. cbn [mbind option_bind] in H. rewrite Em in H. cbn [mbind option_bind] in H.
  pose proof (st_idx _ (ry_settled _ Hb)) as Hi. destruct (wide_find _ _ _ (st_wide _ (ry_settled _ Hb)) Em) as [Wn Wr].
  destruct (MoveNext_ok _ _ Hi (ry_seq _ Hb)) as (it0 & Emv & Hq0 & Hrg0 & Hd0). rewrite Emv in H. cbn [mbind option_bind] in H.
  destruct (readahead_search _ _ _ _) as [[it'|]|] eqn:Es; [|cbn in H; by simplify_eq|done]. cbn [mbind option_bind] in H. apply search_through in Es.
  destruct (readahead_commit _ _ _ _ _) as [[[q c] b1]|] eqn:Ec; [|done]. cbn [mbind option_bind] in H.
  assert (Hgo : reading b b1 /\ ready b1 /\ is_valid (read_iter_ b1) = true /\ same_range (read_iter_ b) (read_iter_ b1) /\ work b1 < work b); [|destruct c; by simplify_eq].
  clear H. destruct fuel as [|fuel]; [done|]. cbn [readahead_commit] in Ec. rewrite Hv in Ec. cbn [negb] in Ec. rewrite Ek in Ec. unfold deref in Ec. cbn [mbind option_bind] in Ec.
  rewrite Em in Ec. cbn [mbind option_bind] in Ec. rewrite (proj2 (Z.ltb_lt 0 _)) in Ec by (unfold is_u16 in *; lia).
  destruct (ReadNextPacketInChunk _ _ _ _) as [[[r1 q1] b2]|] eqn:Ef; [|done]. cbn [mbind option_bind] in Ec.
  destruct (fragment_work _ _ _ _ _ _ _ _ Hb Ef Em) as (m' & _ & Hro & Hr & Hb2 & Hit & Hw).
  pose proof (read_on_start (last_chunk_id_written_ b) k m m' Wn (conj (proj1 Wr) Hlt) Ha Hro) as Hp. pose proof (rank_bounds (last_chunk_id_written_ b) k).
  rewrite Hit in Ec. case_bool_decide as Hc; [simplify_eq; rewrite Hit; split_and!; try done; lia|].
  pose proof (same_chunks_sim _ _ (rd_same _ _ Hr)) as Hs. rewrite (sim_MoveNext (index_ b)) in Ec by (done || apply Hb). rewrite Emv in Ec. cbn [mbind option_bind] in Ec.
  assert (Hb3 : ready (with_iter b2 it0)) by (apply ready_iter; [done|by eapply sim_seq_ok|by rewrite Hit]).
  pose proof (through_valid _ _ _ Es) as Hv0. destruct (is_valid_key _ _ Hi Hq0 Hv0) as (_ & k0 & _ & Ek0 & _ & _ & _).
  assert (Ht : through (index_ (with_iter b2 it0)) (read_iter_ (with_iter b2 it0)) it') by (cbn; eapply through_same; [apply Hr|done..]).
  destruct (commit_work _ _ _ _ _ _ _ _ k0 Hb3 Ek0 Ht Ec) as (Hr' & Hb' & Hv' & Hrg' & Hw'). cbn [with_iter read_iter_] in Hrg'.
  split_and!; try done; [etrans; [exact Hr|]; by destruct Hr'; split|by eapply same_range_trans|].
  change (work (with_iter b2 it0)) with (work b2) in Hw'. change (last_chunk_id_written_ (with_iter b2 it0)) with (last_chunk_id_written_ b2) in Hw'. rewrite (rd_last _ _ Hr) in Hw'.
  rewrite (rank_dist b it0 k0) in Hw' by done. rewrite (rank_dist b (read_iter_ b) k) in Hp by (done || apply Hb). destruct (Hd0 Hv0) as [_ Hd1]. lia.
Qed.

(** ** Packets *)

(** A round at a chunk: nothing is gained, and a packet costs. *)
Record spent (b b' : TraceBuffer) (returned : bool) : Prop := {
  sp_reading : reading b b';
  sp_ready : ready b';
  sp_work : work b' <= work b;
  sp_returned : returned = true -> work b' < work b }.

Lemma spent_after b b1 b' r : reading b b1 -> work b1 <= work b -> spent b1 b' r -> spent b b' r.
Proof. intros Hr Hw [H1 H2 H3 H4]. split; [by etrans|done|lia|]. intros E. specialize (H4 E). lia. Qed.

Lemma reading_iter b it : reading b (with_iter b it).
Proof. by split. Qed.

Lemma chunk_work props fuel : forall b k d o b',
  ready b -> is_valid (read_iter_ b) = true -> cur (read_iter_ b) = Some k -> read_chunk fuel b k props d = Some (o, b') -> spent b b' (is_return o).
Proof.
  induction fuel as [|fuel IH]; intros b k d o b' Hb Hv Ek H; [done|]. cbn [read_chunk] in H. destruct (map_find (index_ b) k) as [m|] eqn:Em; [|done].
  cbn [mbind option_bind] in H. destruct (wide_find _ _ _ (st_wide _ (ry_settled _ Hb)) Em) as [Wn Wr].
  destruct (Z.ltb_spec (num_fragments_read m) (num_fragments m)) as [Hlt|_]; [|simplify_eq; by split].
  destruct (next_action m) eqn:Ea.
  - destruct (ReadNextPacketInChunk _ _ _ _) as [[[r q] b1]|] eqn:Ef; [|done]. cbn [mbind option_bind] in H.
    destruct (fragment_work _ _ _ _ _ _ _ _ Hb Ef Em) as (m' & _ & Hro & Hr & Hb1 & Hit & Hw). pose proof (read_on_pot (last_chunk_id_written_ b) k m m' Wn (conj (proj1 Wr) Hlt) Hro).
    destruct (skip_packet b1 k) as [b2|] eqn:Esk; [|done]. cbn [mbind option_bind] in H. destruct (skip_work _ _ _ Hb1 Esk) as (Hr2 & Hb2 & Hit2 & Hw2).
    apply (spent_after b b2); [by etrans|lia|]. eapply IH; [done| | |done]; by rewrite Hit2, Hit.
  - destruct (ReadNextPacketInChunk _ _ _ _) as [[[r q] b1]|] eqn:Ef; [|done]. cbn [mbind option_bind] in H.
    destruct (fragment_work _ _ _ _ _ _ _ _ Hb Ef Em) as (m' & _ & Hro & Hr & Hb1 & Hit & Hw). pose proof (read_on_pot (last_chunk_id_written_ b) k m m' Wn (conj (proj1 Wr) Hlt) Hro).
    destruct r; [simplify_eq; split; (done || lia)| |].
    + destruct (skip_packet b1 k) as [b2|] eqn:Esk; [|done]. cbn [mbind option_bind] in H. destruct (skip_work _ _ _ Hb1 Esk) as (Hr2 & Hb2 & Hit2 & Hw2).
      simplify_eq. split; [by etrans|done|lia|done].
    + apply (spent_after b b1); [done|lia|]. eapply IH; [done| | |done]; by rewrite Hit.
  - destruct (ReadAhead _ _ _) as [[[r q] b1]|] eqn:Er; [|done]. cbn [mbind option_bind] in H. pose proof (ahead_work _ _ _ _ _ _ _ _ Hb Hv Ek Em Ea Hlt Er) as Hra.
    destruct r.
    + destruct Hra as (Hr & Hb1 & Hv1 & Hrg & Hw). simplify_eq.
      split; [by destruct Hr; split|by destruct Hb1 as [[] ? ?]; split|unfold work in *; cbn; lia|unfold work in *; cbn; lia].
    + subst b1. simplify_eq. destruct (MoveToEnd_ok _ _ (ry_seq _ Hb)) as (M1 & M2 & M3).
      assert (Hb' : ready (with_iter b (MoveToEnd (read_iter_ b)))) by (by apply ready_iter). split; [by split|by destruct Hb' as [[] ? ?]; split|done|done].
    + destruct Hra as (Hr & Hb1 & Hv1 & Hrg & Hw). destruct (cur (read_iter_ b1)) as [k1|] eqn:Ek1; [|done]. cbn [mbind option_bind] in H.
      destruct (skip_packet b1 k1) as [b2|] eqn:Esk; [|done]. cbn [mbind option_bind] in H. destruct (skip_work _ _ _ Hb1 Esk) as (Hr2 & Hb2 & Hit2 & Hw2).
      apply (spent_after b b2); [by etrans|lia|]. eapply IH; [done| | |done]; by rewrite Hit2.
Qed.

Lemma round_work fuel b d o b' : ready b -> is_valid (read_iter_ b) = true -> read_round fuel b d = Some (o, b') -> spent b b' (is_return o).
Proof.
  intros Hb Hv H. unfold read_round in H. destruct (cur (read_iter_ b)) as [k|] eqn:Ek; [|done]. unfold deref in H. cbn [mbind option_bind] in H.
  destruct (map_find _ _) as [m|]; [|done]. cbn [mbind option_bind] in H. destruct (negb _).
  2: { set (bd := dcheck b _) in H. assert (Hd : ready bd) by (apply (reading_ready b); [by split|apply Hb|apply Hb|done|done]).
       apply (chunk_work _ _ bd) in H as [H1 H2 H3 H4]; [|done..]. split; [by destruct H1; split|done..]. }
  simplify_eq. destruct (MoveToEnd_ok _ _ (ry_seq _ Hb)) as (M1 & M2 & M3). split; [by split|by apply ready_iter|done|done].
Qed.

Lemma GetReadIter_ready b k it : settled b -> GetReadIterForSequence b (Some k) = Some it -> has_key (index_ b) k -> first_of (index_ b) k -> ready (with_iter b it).
Proof.
  intros Hb H Hk Hfirst. pose proof Hb as [Hi Hl Hw]. destruct (GetReadIter_ok b k Hi Hl Hk Hfirst) as (it0 & E & Hq & _). rewrite H in E. injection E as <-. split; [by destruct Hb; split|done|].
  cbn. rename H into E. unfold GetReadIterForSequence, deref in E. cbn [mbind option_bind] in E. destruct (map_find (index_ b) k) as [m|]; [|done]. cbn [mbind option_bind] in E.
  rewrite map_prev_first in E by done. cbn [mbind option_bind] in E. case_bool_decide; [done|]. destruct (last_chunk_id_written_ b !! _) as [w|] eqn:Ew; [|done]. cbn [mbind option_bind] in E. simplify_eq. cbn. intros kb [= <-]. done.
Qed.

Lemma loop_work fuel n : forall b d r b',
  ready b -> read_loop n fuel b d = Some (r, b') -> spent b b' (bool_decide (is_Some r)).
Proof.
  induction n as [|n IH]; intros b d r b' Hb H; [done|]. cbn [read_loop] in H.
  assert (Hgo : forall b d, ready b -> is_valid (read_iter_ b) = true -> ('(o, b) ← read_round fuel b d;
      match o with
      | OReturn p => Some (Some p, b)
      | OBreak dropped => it ← MoveNext (index_ b) (read_iter_ b); read_loop n fuel (with_iter b it) dropped
      end) = Some (r, b') -> spent b b' (bool_decide (is_Some r))).
  { clear H b d Hb. intros b d Hb Hv H. destruct (read_round fuel b d) as [[o b1]|] eqn:Er; [|done]. cbn [mbind option_bind] in H.
    pose proof (round_work _ _ _ _ _ Hb Hv Er) as [H1 H2 H3 H4]. destruct o as [p|d1].
    - simplify_eq. split; [done..|]. intros _. by apply H4.
    - destruct (MoveNext_ok _ _ (st_idx _ (ry_settled _ H2)) (ry_seq _ H2)) as (it & Em & Hq & Hrg & _). rewrite Em in H. cbn [mbind option_bind] in H.
      apply (spent_after b (with_iter b1 it)); [etrans; [done|apply reading_iter]|done|]. eapply IH; [|done]. by apply ready_iter. }
  destruct (is_valid (read_iter_ b)) eqn:Hv; [by eapply Hgo|]. destruct (seq_end (read_iter_ b)) as [k|] eqn:Ee; [|simplify_eq; by split].
  destruct (GetReadIterForSequence b (Some k)) as [it|] eqn:Eg; [|done]. cbn [mbind option_bind] in H. destruct (is_valid it) eqn:Hvi; [|done]. cbn [negb] in H.
  apply (spent_after b (with_iter b it)); [apply reading_iter|done|]. eapply Hgo; [|done|done]. destruct (sq_end_key _ _ (ry_seq _ Hb) k Ee). eapply GetReadIter_ready; [apply Hb|done..].
Qed.

Lemma ReadNext_work fuel b r b' : ready b -> ReadNextTracePacket fuel b = Some (r, b') -> spent b b' (bool_decide (is_Some r)).
Proof. apply loop_work. Qed.

Lemma BeginRead_work b b' : settled b -> BeginRead b = Some b' -> reading b b' /\ ready b' /\ work b' = work b.
Proof.
  intros Hb H. unfold BeginRead in H. destruct (map_begin (index_ b)) as [k|] eqn:Ek.
  - destruct (GetReadIterForSequence b (Some k)) as [it|] eqn:Eg; [|done]. cbn [mbind option_bind] in H. simplify_eq.
    split; [apply reading_iter|]. split; [|done]. pose proof (st_idx _ Hb) as [Hs _]. destruct (index_ b) as [|[k1 m1] idx] eqn:Eix; [done|]. cbn in Ek. simplify_eq.
    eapply GetReadIter_ready; [done..| |]; rewrite Eix; [|by eapply first_of_begin]. unfold has_key. cbn. rewrite decide_True by done. by eexists.
  - cbn in H. simplify_eq. split; [apply reading_iter|]. split; [|done]. split; [by destruct Hb; split|split; cbn; try done; by left|done].
Qed.
