(* ===== verification/SharedMemoryABI.v ===== *)
(** * The shared memory ABI of producers and service

    Models [src/tracing/core/shared_memory_abi.cc] and its header
    [include/dejaview/ext/tracing/core/shared_memory_abi.h]: pages that a
    producer partitions into chunks, the 32-bit page word that holds the layout
    and the two state bits of each of up to 14 chunks, and the lock-free
    operations that move a chunk around the cycle
    free - being written - complete - being read - free.

    The buffer is a list of octets shared by any number of threads (of the
    producer and of the service). An operation is a [Prog]: a tree of atomic
    accesses to the buffer, in the order in which the code performs them;
    [Crash] is a failed [DEJAVIEW_CHECK] or [DEJAVIEW_DCHECK], and [Dfatal] a
    [DEJAVIEW_DFATAL], after which a release build goes on: a thread counts the
    ones it meets. Threads
    interleave their accesses freely (sequential consistency: every access of
    the code to a page word is an atomic, and the other accesses are to memory
    its thread owns). The participants use the class the way it documents:
    chunks are move-only, a chunk acquired for writing is released as complete
    and a chunk acquired for reading is released as free. *)

From S2P Require Import Prelude.

(** ** Constants and data *)

Definition kMinPageSize : Z := 4 * 1024.
Definition kMaxPageSize : Z := 64 * 1024.
Definition kMaxChunksPerPage : Z := 14.
Definition kChunkAlignment : Z := 4.
Definition kChunkShift : Z := 2.
Definition kChunkMask : Z := 0x3.
Definition kLayoutMask : Z := 0x70000000.
Definition kLayoutShift : Z := 28.
Definition kAllChunksMask : Z := 0x0FFFFFFF.
Definition kAllChunksComplete : Z := 0x0FFFFFFF.
Definition kAllChunksFree : Z := 0.
Definition kInvalidPageIdx : Z := 2 ^ 64 - 1.
Definition kRetryAttempts : nat := 64.
Definition kSizeofPageHeader : Z := 8.
Definition kSizeofChunkHeader : Z := 8.

Inductive ChunkState := kChunkFree | kChunkBeingWritten | kChunkBeingRead | kChunkComplete.

#[export] Instance ChunkState_eq_dec : EqDecision ChunkState.
Proof. solve_decision. Defined.

Definition state_val (s : ChunkState) : Z :=
  match s with kChunkFree => 0 | kChunkBeingWritten => 1 | kChunkBeingRead => 2 | kChunkComplete => 3 end.

Inductive PageLayout :=
  | kPageNotPartitioned | kPageDiv1 | kPageDiv2 | kPageDiv4 | kPageDiv7 | kPageDiv14
  | kPageDivReserved1 | kPageDivReserved2.

Definition layout_val (l : PageLayout) : Z :=
  match l with
  | kPageNotPartitioned => 0 | kPageDiv1 => 1 | kPageDiv2 => 2 | kPageDiv4 => 3 | kPageDiv7 => 4 | kPageDiv14 => 5
  | kPageDivReserved1 => 6 | kPageDivReserved2 => 7
  end.

(** The layouts [TryPartitionPage] may be called with. *)
Definition is_partition (l : PageLayout) : bool :=
  (layout_val kPageDiv1 <=? layout_val l) && (layout_val l <=? layout_val kPageDiv14).

Definition kNumPageLayouts : nat := 8.
Definition kNumChunksForLayout : list Z := [0; 1; 2; 4; 7; 14; 0; 0].

(** [struct ChunkHeader] with its bit-fields [count : 10] and [flags : 6]. *)
Record Packets := mkPackets { pk_count : Z; pk_flags : Z }.
Record ChunkHeader := mkChunkHeader { chunk_id : Z; writer_id : Z; packets : Packets }.

Definition kChunkNeedsPatching : Z := 1 << 2.

Definition packets_word (p : Packets) : Z := (pk_count p mod 2 ^ 10) .| ((pk_flags p mod 2 ^ 6) << 10).
Definition packets_of_word (w : Z) : Packets := mkPackets (w mod 2 ^ 10) (u16 w >> 10).

(** A [Chunk] object: the pointer to its first octet, its size and its index
    in the page. *)
Record Chunk := mkChunk { chunk_begin : Z; chunk_size : Z; chunk_idx_ : Z }.

Definition null_chunk : Chunk := mkChunk 0 0 0.
Definition is_valid (c : Chunk) : bool := negb (chunk_begin c =? 0) && negb (chunk_size c =? 0).
Definition chunk_end (c : Chunk) : Z := chunk_begin c + chunk_size c.

(** [Chunk::Chunk(begin, size, chunk_idx)] and its two [CHECK]s. *)
Definition Chunk_new (begin size idx : Z) : option Chunk :=
  if (begin mod kChunkAlignment =? 0) && (0 <? size) then Some (mkChunk begin size idx) else None.

Inductive ShmemMode := kDefault | kShmemEmulation.
#[export] Instance ShmemMode_eq_dec : EqDecision ShmemMode.
Proof. solve_decision. Defined.

Record SharedMemoryABI := mkABI {
  start_ : Z; size_ : Z; page_size_ : Z; use_shmem_emulation_ : bool; num_pages_ : Z; chunk_sizes_ : list Z }.

(** ** Layout words *)

Definition GetChunkSize (page_size divider : Z) : Z :=
  ((page_size - kSizeofPageHeader) / divider) .& u64 (Z.lnot 3).

Fixpoint InitChunkSizes_loop (page_size : Z) (nums : list Z) : option (list Z) :=
  match nums with
  | [] => Some []
  | num_chunks :: nums =>
      let size := if num_chunks =? 0 then 0 else GetChunkSize page_size num_chunks in
      if size <=? 2 ^ 16 - 1 then
        rest ← InitChunkSizes_loop page_size nums;
        Some (u16 size :: rest)
      else None
  end.

Definition InitChunkSizes (page_size : Z) : option (list Z) :=
  InitChunkSizes_loop page_size kNumChunksForLayout.

Definition layout_index (page_layout : Z) : Z := (page_layout .& kLayoutMask) >> kLayoutShift.

Definition GetNumChunksForLayout (page_layout : Z) : Z :=
  default 0 (kNumChunksForLayout !! Z.to_nat (layout_index page_layout)).

Definition GetChunkSizeForLayout (a : SharedMemoryABI) (page_layout : Z) : Z :=
  default 0 (chunk_sizes_ a !! Z.to_nat (layout_index page_layout)).

Definition GetChunkStateFromLayout (page_layout chunk_idx : Z) : Z :=
  (page_layout >> (chunk_idx * kChunkShift)) .& kChunkMask.

(** [next_layout &= ~(kChunkMask << ...); next_layout |= (state << ...)]. *)
Definition set_chunk_state (layout chunk_idx : Z) (s : ChunkState) : Z :=
  (layout .& u32 (Z.lnot (kChunkMask << (chunk_idx * kChunkShift)))) .|
    (state_val s << (chunk_idx * kChunkShift)).

Fixpoint chunk_bitmap (want_free : bool) (n : nat) (i layout res : Z) : Z :=
  match n with
  | O => res
  | S n =>
      let free := (layout .& kChunkMask) =? state_val kChunkFree in
      chunk_bitmap want_free n (i + 1) (layout >> kChunkShift)
        (res .| (if Bool.eqb free want_free then 1 << i else 0))
  end.

Definition GetFreeChunks_of_layout (layout : Z) : Z :=
  chunk_bitmap true (Z.to_nat (GetNumChunksForLayout layout)) 0 layout 0.
Definition GetUsedChunks (page_layout : Z) : Z :=
  chunk_bitmap false (Z.to_nat (GetNumChunksForLayout page_layout)) 0 page_layout 0.

Definition is_page_complete_of_layout (layout : Z) : bool :=
  let num_chunks := GetNumChunksForLayout layout in
  if num_chunks =? 0 then false
  else (layout .& kAllChunksMask) =? (kAllChunksComplete .& ((1 << (num_chunks * kChunkShift)) - 1)).

(** ** Geometry *)

(** The checks of constants against each other are decided by the values above
    and left out. *)
Definition Initialize (start size page_size : Z) (mode : ShmemMode) : option SharedMemoryABI :=
  chunk_sizes ← InitChunkSizes page_size;
  if (kMinPageSize <=? page_size) && (page_size <=? kMaxPageSize) && (page_size mod kMinPageSize =? 0) &&
     (start mod kMinPageSize =? 0) && (size mod page_size =? 0) then
    Some (mkABI start size page_size (bool_decide (mode = kShmemEmulation)) (size / page_size) chunk_sizes)
  else None.

Definition page_start (a : SharedMemoryABI) (page_idx : Z) : option Z :=
  if page_idx <? num_pages_ a then Some (start_ a + page_size_ a * page_idx) else None.

Definition GetChunkUnchecked (a : SharedMemoryABI) (page_idx page_layout chunk_idx : Z) : option Chunk :=
  let num_chunks := GetNumChunksForLayout page_layout in
  if chunk_idx <? num_chunks then
    let chunk_size := GetChunkSizeForLayout a page_layout in
    let chunk_offset_in_page := kSizeofPageHeader + chunk_idx * chunk_size in
    page ← page_start a page_idx;
    chunk ← Chunk_new (page + chunk_offset_in_page) chunk_size (u8 chunk_idx);
    if chunk_end chunk <=? start_ a + size_ a then Some chunk else None
  else None.

(** The part of [GetPageAndChunkIndex] that does not touch the buffer; its
    last [DCHECK] loads the page word and is part of [ReleaseChunk] below. *)
Definition page_and_chunk_index (a : SharedMemoryABI) (c : Chunk) : option (Z * Z) :=
  if is_valid c && (start_ a <=? chunk_begin c) && (chunk_end c <=? start_ a + size_ a) then
    let rel_addr := chunk_begin c - start_ a in
    let page_idx := rel_addr / page_size_ a in
    let offset := rel_addr mod page_size_ a in
    if (kSizeofPageHeader <=? offset) && (offset mod kChunkAlignment =? 0) &&
       ((offset - kSizeofPageHeader) mod chunk_size c =? 0) then
      let chunk_idx := (offset - kSizeofPageHeader) / chunk_size c in
      if chunk_idx <? kMaxChunksPerPage then Some (page_idx, chunk_idx) else None
    else None
  else None.

(** ** Programs: trees of atomic accesses *)

Inductive Prog (A : Type) :=
  | Ret (a : A)
  | Load (addr : Z) (n : nat) (k : Z -> Prog A)
  | Store (addr : Z) (octets : list Z) (k : Prog A)
  | Cas (addr expected desired : Z) (k : bool -> Prog A)
  | Dfatal (k : Prog A)
  | Crash.
Arguments Ret {A}. Arguments Load {A}. Arguments Store {A}. Arguments Cas {A}. Arguments Dfatal {A}. Arguments Crash {A}.

Fixpoint pbind {A B} (p : Prog A) (f : A -> Prog B) : Prog B :=
  match p with
  | Ret a => f a
  | Load addr n k => Load addr n (fun v => pbind (k v) f)
  | Store addr l k => Store addr l (pbind k f)
  | Cas addr e d k => Cas addr e d (fun ok => pbind (k ok) f)
  | Dfatal k => Dfatal (pbind k f)
  | Crash => Crash
  end.

(** A computation that may fail a check, inside a program. *)
Definition lift {A B} (x : option A) (f : A -> Prog B) : Prog B :=
  match x with Some a => f a | None => Crash end.

(** ** The operations *)

Definition GetPageLayout (a : SharedMemoryABI) (page_idx : Z) : Prog Z :=
  lift (page_start a page_idx) (fun phdr => Load phdr 4 Ret).

Definition is_page_free (a : SharedMemoryABI) (page_idx : Z) : Prog bool :=
  pbind (GetPageLayout a page_idx) (fun layout => Ret (layout =? 0)).
Definition is_page_complete (a : SharedMemoryABI) (page_idx : Z) : Prog bool :=
  pbind (GetPageLayout a page_idx) (fun layout => Ret (is_page_complete_of_layout layout)).
Definition GetFreeChunks (a : SharedMemoryABI) (page_idx : Z) : Prog Z :=
  pbind (GetPageLayout a page_idx) (fun layout => Ret (GetFreeChunks_of_layout layout)).
Definition GetChunkState (a : SharedMemoryABI) (page_idx chunk_idx : Z) : Prog Z :=
  pbind (GetPageLayout a page_idx) (fun layout => Ret (GetChunkStateFromLayout layout chunk_idx)).

(** The fields of the header at the start of a chunk: [chunk_id] at 0,
    [writer_id] at 4, [packets] at 6. *)
Definition store_header (c : Chunk) (h : ChunkHeader) : Prog unit :=
  Store (chunk_begin c + 4) (le_bytes 2 (writer_id h))
    (Store (chunk_begin c) (le_bytes 4 (chunk_id h))
       (Store (chunk_begin c + 6) (le_bytes 2 (packets_word (packets h))) (Ret tt))).

Definition ClearChunkHeader (c : Chunk) : Prog unit :=
  store_header c (mkChunkHeader 0 0 (mkPackets 0 0)).

Fixpoint acquire_loop (attempts : nat) (a : SharedMemoryABI) (phdr page_idx chunk_idx : Z)
    (desired_chunk_state : ChunkState) (header : option ChunkHeader) : Prog Chunk :=
  match attempts with
  | O => Ret null_chunk
  | S attempts =>
      Load phdr 4 (fun layout =>
        let num_chunks := GetNumChunksForLayout layout in
        if num_chunks <=? chunk_idx then Ret null_chunk
        else
          let expected_chunk_state :=
            if decide (desired_chunk_state = kChunkBeingWritten) then kChunkFree else kChunkComplete in
          let cur_chunk_state := (layout >> (chunk_idx * kChunkShift)) .& kChunkMask in
          if negb (cur_chunk_state =? state_val expected_chunk_state) then Ret null_chunk
          else
            let next_layout := set_chunk_state layout chunk_idx desired_chunk_state in
            Cas phdr layout next_layout (fun ok =>
              if ok : bool then
                lift (GetChunkUnchecked a page_idx layout chunk_idx) (fun chunk =>
                  if decide (desired_chunk_state = kChunkBeingWritten) then
                    lift header (fun header => pbind (store_header chunk header) (fun _ => Ret chunk))
                  else Ret chunk)
              else acquire_loop attempts a phdr page_idx chunk_idx desired_chunk_state header))
  end.

Definition TryAcquireChunk (a : SharedMemoryABI) (page_idx chunk_idx : Z)
    (desired_chunk_state : ChunkState) (header : option ChunkHeader) : Prog Chunk :=
  if bool_decide (desired_chunk_state = kChunkBeingRead) || bool_decide (desired_chunk_state = kChunkBeingWritten)
  then
    lift (page_start a page_idx) (fun phdr =>
      acquire_loop kRetryAttempts a phdr page_idx chunk_idx desired_chunk_state header)
  else Crash.

Definition TryAcquireChunkForWriting (a : SharedMemoryABI) (page_idx chunk_idx : Z) (header : ChunkHeader) :=
  TryAcquireChunk a page_idx chunk_idx kChunkBeingWritten (Some header).
Definition TryAcquireChunkForReading (a : SharedMemoryABI) (page_idx chunk_idx : Z) :=
  TryAcquireChunk a page_idx chunk_idx kChunkBeingRead None.

Definition TryPartitionPage (a : SharedMemoryABI) (page_idx : Z) (layout : PageLayout) : Prog bool :=
  if is_partition layout then
    let next_layout := u32 (layout_val layout << kLayoutShift) .& kLayoutMask in
    lift (page_start a page_idx) (fun phdr => Cas phdr 0 next_layout Ret)
  else Crash.

Fixpoint release_loop (attempts : nat) (a : SharedMemoryABI) (c : Chunk) (phdr page_idx chunk_idx : Z)
    (desired_chunk_state : ChunkState) : Prog Z :=
  match attempts with
  | O => Dfatal (Ret kInvalidPageIdx)
  | S attempts =>
      Load phdr 4 (fun layout =>
        let page_chunk_size := GetChunkSizeForLayout a layout in
        if chunk_size c =? page_chunk_size then
          let chunk_state := GetChunkStateFromLayout layout chunk_idx in
          let expected_chunk_state :=
            if decide (desired_chunk_state = kChunkComplete) then kChunkBeingWritten
            else if use_shmem_emulation_ a then kChunkComplete else kChunkBeingRead in
          if chunk_state =? state_val expected_chunk_state then
            let next_layout := set_chunk_state layout chunk_idx desired_chunk_state in
            let next_layout :=
              if (next_layout .& kAllChunksMask) =? kAllChunksFree then 0 else next_layout in
            Cas phdr layout next_layout (fun ok =>
              if ok : bool then Ret page_idx
              else release_loop attempts a c phdr page_idx chunk_idx desired_chunk_state)
          else Crash
        else Crash)
  end.

Definition GetPageAndChunkIndex (a : SharedMemoryABI) (c : Chunk) : Prog (Z * Z) :=
  lift (page_and_chunk_index a c) (fun '(page_idx, chunk_idx) =>
    pbind (GetPageLayout a page_idx) (fun layout =>
      if chunk_idx <? GetNumChunksForLayout layout then Ret (page_idx, chunk_idx) else Crash)).

Definition ReleaseChunk (a : SharedMemoryABI) (c : Chunk) (desired_chunk_state : ChunkState) : Prog Z :=
  if bool_decide (desired_chunk_state = kChunkComplete) || bool_decide (desired_chunk_state = kChunkFree) then
    pbind (GetPageAndChunkIndex a c) (fun '(page_idx, chunk_idx) =>
      pbind (if decide (desired_chunk_state = kChunkFree) then ClearChunkHeader c else Ret tt) (fun _ =>
        lift (page_start a page_idx) (fun phdr =>
          release_loop kRetryAttempts a c phdr page_idx chunk_idx desired_chunk_state)))
  else Crash.

Definition ReleaseChunkAsComplete (a : SharedMemoryABI) (c : Chunk) := ReleaseChunk a c kChunkComplete.
Definition ReleaseChunkAsFree (a : SharedMemoryABI) (c : Chunk) := ReleaseChunk a c kChunkFree.

(** Read-modify-write of the [packets] field by the thread that owns the
    chunk. *)
Definition update_packets (c : Chunk) (f : Packets -> Packets) : Prog Packets :=
  Load (chunk_begin c + 6) 2 (fun w =>
    let p := packets_of_word (packets_word (f (packets_of_word w))) in
    Store (chunk_begin c + 6) (le_bytes 2 (packets_word p)) (Ret p)).

Definition IncrementPacketCount (c : Chunk) : Prog Packets :=
  update_packets c (fun p => mkPackets (pk_count p + 1) (pk_flags p)).
Definition SetFlag (c : Chunk) (flag : Z) : Prog Packets :=
  update_packets c (fun p => mkPackets (pk_count p) (pk_flags p .| flag)).
Definition ClearNeedsPatchingFlag (c : Chunk) : Prog Packets :=
  update_packets c (fun p => mkPackets (pk_count p) (pk_flags p .& Z.lnot kChunkNeedsPatching)).
Definition GetPacketCountAndFlags (c : Chunk) : Prog Packets :=
  Load (chunk_begin c + 6) 2 (fun w => Ret (packets_of_word w)).

(** ** Threads and interleaving *)

(** What a thread can do with the chunks it holds ([n] is a position in its
    list of chunks). *)
Inductive Request :=
  | RPartition (page_idx : Z) (l : PageLayout)
  | RAcquireForWriting (page_idx chunk_idx : Z) (h : ChunkHeader)
  | RAcquireForReading (page_idx chunk_idx : Z)
  | RRelease (n : nat)
  | RWritePayload (n : nat) (off : Z) (octets : list Z)
  | RReadPayload (n : nat) (off : Z) (len : nat)
  | RIncrementPacketCount (n : nat)
  | RSetFlag (n : nat) (flag : Z)
  | RClearNeedsPatchingFlag (n : nat)
  | RGetPageLayout (page_idx : Z).

Inductive Outcome :=
  | OAcquired (s : ChunkState) (c : Chunk)
  | ODone (v : Z).

(** A thread: the call it is in, the chunks it holds and the number of
    [DEJAVIEW_DFATAL]s it has met. *)
Record Thread := mkThread {
  th_prog : option (Prog Outcome); th_chunks : list (ChunkState * Chunk); th_dfatals : nat }.

Definition idle : Thread := mkThread None [] 0.

(** The [DEJAVIEW_DFATAL]s in front of the next access. *)
Fixpoint settle {A} (p : Prog A) : nat * Prog A :=
  match p with
  | Dfatal k => let '(n, q) := settle k in (S n, q)
  | _ => (O, p)
  end.

(** The state in which a chunk acquired as [s] is released. *)
Definition release_state (s : ChunkState) : ChunkState :=
  if decide (s = kChunkBeingWritten) then kChunkComplete else kChunkFree.

Definition page_arg_ok (a : SharedMemoryABI) (page_idx : Z) : bool := (0 <=? page_idx) && (page_idx <? num_pages_ a).

(** The call a request makes; [None] when the thread cannot make it (no such
    page, no such chunk, a write outside the chunk's payload or to a chunk that
    is being read). *)
Definition start_request (a : SharedMemoryABI) (th : Thread) (r : Request) : option Thread :=
  let go p := Some (mkThread (Some p) (th_chunks th) (th_dfatals th)) in
  match r with
  | RPartition p l =>
      if page_arg_ok a p && is_partition l then
        go (pbind (TryPartitionPage a p l) (fun b => Ret (ODone (Z.b2z b))))
      else None
  | RAcquireForWriting p i h =>
      if page_arg_ok a p && (0 <=? i) then
        go (pbind (TryAcquireChunkForWriting a p i h) (fun c => Ret (OAcquired kChunkBeingWritten c)))
      else None
  | RAcquireForReading p i =>
      if page_arg_ok a p && (0 <=? i) then
        go (pbind (TryAcquireChunkForReading a p i) (fun c => Ret (OAcquired kChunkBeingRead c)))
      else None
  | RRelease n =>
      '(s, c) ← th_chunks th !! n;
      Some (mkThread (Some (pbind (ReleaseChunk a c (release_state s)) (fun p => Ret (ODone p))))
              (delete n (th_chunks th)) (th_dfatals th))
  | RWritePayload n off octets =>
      '(s, c) ← th_chunks th !! n;
      if bool_decide (s = kChunkBeingWritten) && (0 <=? off) &&
         (kSizeofChunkHeader + off + Z.of_nat (length octets) <=? chunk_size c) && bool_decide (bytes_ok octets)
      then go (Store (chunk_begin c + kSizeofChunkHeader + off) octets (Ret (ODone 0))) else None
  | RReadPayload n off len =>
      '(s, c) ← th_chunks th !! n;
      if (0 <=? off) && (kSizeofChunkHeader + off + Z.of_nat len <=? chunk_size c)
      then go (Load (chunk_begin c + kSizeofChunkHeader + off) len (fun v => Ret (ODone v))) else None
  | RIncrementPacketCount n =>
      '(s, c) ← th_chunks th !! n;
      if decide (s = kChunkBeingWritten)
      then go (pbind (IncrementPacketCount c) (fun p => Ret (ODone (pk_count p)))) else None
  | RSetFlag n flag =>
      '(s, c) ← th_chunks th !! n;
      if decide (s = kChunkBeingWritten) then go (pbind (SetFlag c flag) (fun _ => Ret (ODone 0))) else None
  | RClearNeedsPatchingFlag n =>
      '(s, c) ← th_chunks th !! n;
      if decide (s = kChunkBeingWritten) then go (pbind (ClearNeedsPatchingFlag c) (fun _ => Ret (ODone 0))) else None
  | RGetPageLayout p =>
      if page_arg_ok a p then go (pbind (GetPageLayout a p) (fun v => Ret (ODone v))) else None
  end.

(** The result of a call is handed to the thread. *)
Definition finish (th : Thread) (o : Outcome) : Thread :=
  match o with
  | OAcquired s c => mkThread None (if is_valid c then (s, c) :: th_chunks th else th_chunks th) (th_dfatals th)
  | ODone _ => mkThread None (th_chunks th) (th_dfatals th)
  end.

Definition offset_of (a : SharedMemoryABI) (addr : Z) : option nat :=
  if start_ a <=? addr then Some (Z.to_nat (addr - start_ a)) else None.

(** One step of a thread: an idle thread issues the request (or stays idle),
    a busy one performs its next access. [None] is a failed check or an access
    outside the buffer. *)
Definition thread_step (a : SharedMemoryABI) (m : list Z) (th : Thread) (r : Request) : option (list Z * Thread) :=
  match th_prog th with
  | None => Some (m, default th (start_request a th r))
  | Some p =>
      let '(nf, q) := settle p in
      let go q := mkThread (Some q) (th_chunks th) (th_dfatals th + nf) in
      match q with
      | Ret o => Some (m, finish (go q) o)
      | Load addr n k =>
          off ← offset_of a addr;
          octets ← mem_read m off n;
          Some (m, go (k (le_val octets)))
      | Store addr octets k =>
          off ← offset_of a addr;
          m ← mem_write m off octets;
          Some (m, go k)
      | Cas addr expected desired k =>
          off ← offset_of a addr;
          octets ← mem_read m off 4;
          if le_val octets =? expected then
            m ← mem_write m off (le_bytes 4 desired);
            Some (m, go (k true))
          else Some (m, go (k false))
      | Dfatal _ | Crash => None
      end
  end.

Definition System : Type := list Z * list Thread.

Definition system_step (a : SharedMemoryABI) (s : System) (t : nat) (r : Request) : option System :=
  match s.2 !! t with
  | None => Some s
  | Some th =>
      '(m, th) ← thread_step a s.1 th r;
      Some (m, <[t := th]> s.2)
  end.

(** A schedule names, for each step, the thread and the request it issues if
    it is idle. *)
Fixpoint run_schedule (a : SharedMemoryABI) (s : System) (sched : list (nat * Request)) : option System :=
  match sched with
  | [] => Some s
  | (t, r) :: sched => s ← system_step a s t r; run_schedule a s sched
  end.

(** A zero-initialised buffer and [n] threads that hold no chunk. *)
Definition initial_system (a : SharedMemoryABI) (n : nat) : System :=
  (replicate (Z.to_nat (size_ a)) 0, replicate n idle).

Lemma settle_not_dfatal {A} (p : Prog A) k : (settle p).2 <> Dfatal k.
Proof. induction p as [| | | |p IH|]; try done. cbn [settle]. by destruct (settle p). Qed.

(** ** Bits of a page word *)

Lemma testbit_3 k : Z.testbit 3 k = (0 <=? k) && (k <? 2).
Proof. change 3 with (Z.ones 2). by rewrite Z.testbit_ones by lia. Qed.

Lemma testbit_small z n k : 0 <= z < 2 ^ n -> n <= k -> 0 <= n -> Z.testbit z k = false.
Proof.
  intros Hz Hk Hn. rewrite <- (Z.mod_small z (2 ^ n)) by done. by apply Z.mod_pow2_bits_high.
Qed.

Lemma state_val_range s : 0 <= state_val s < 2 ^ 2.
Proof. destruct s; cbn; lia. Qed.

Lemma state_val_inj s s' : state_val s = state_val s' -> s = s'.
Proof. destruct s, s'; cbn; lia || done. Qed.

(** The bit [k] of a word after a state update. *)
Lemma set_chunk_state_bit w i s k :
  0 <= i < 14 -> 0 <= k ->
  Z.testbit (set_chunk_state w i s) k =
    if (2 * i <=? k) && (k <? 2 * i + 2) then Z.testbit (state_val s) (k - 2 * i)
    else Z.testbit w k && (k <? 32).
Proof.
  intros Hi Hk. unfold set_chunk_state, kChunkMask, kChunkShift, u32.
  rewrite Z.lor_spec, Z.land_spec, Z.shiftl_spec by done. replace (i * 2) with (2 * i) by lia.
  assert (Hm : Z.testbit (Z.lnot (3 << (2 * i)) mod 2 ^ 32) k =
    (k <? 32) && negb ((2 * i <=? k) && (k <? 2 * i + 2))).
  { destruct (Z.ltb_spec k 32).
    - rewrite Z.mod_pow2_bits_low, Z.lnot_spec, Z.shiftl_spec, testbit_3 by lia. cbn [andb]. f_equal. lia.
    - by rewrite Z.mod_pow2_bits_high by lia. }
  rewrite Hm.
  destruct (Z.leb_spec (2 * i) k), (Z.ltb_spec k (2 * i + 2)); cbn [andb negb].
  - by rewrite andb_false_r, andb_false_r.
  - rewrite (testbit_small (state_val s) 2) by (try apply state_val_range; lia).
    by rewrite andb_true_r, orb_false_r.
  - rewrite (Z.testbit_neg_r (state_val s)) by lia. by rewrite andb_true_r, orb_false_r.
  - rewrite (Z.testbit_neg_r (state_val s)) by lia. by rewrite andb_true_r, orb_false_r.
Qed.

Lemma chunk_state_bit w i k :
  0 <= i -> 0 <= k -> Z.testbit (GetChunkStateFromLayout w i) k = (k <? 2) && Z.testbit w (k + 2 * i).
Proof.
  intros Hi Hk. unfold GetChunkStateFromLayout, kChunkMask, kChunkShift.
  rewrite Z.land_spec, Z.shiftr_spec, testbit_3 by done.
  replace (i * 2) with (2 * i) by lia. rewrite (proj2 (Z.leb_le 0 k)) by done. cbn [andb]. apply andb_comm.
Qed.

Lemma get_set_same w i s :
  0 <= i < 14 -> GetChunkStateFromLayout (set_chunk_state w i s) i = state_val s.
Proof.
  intros Hi. apply Z.bits_inj'. intros k Hk. rewrite chunk_state_bit, set_chunk_state_bit by lia.
  destruct (Z.ltb_spec k 2); cbn [andb].
  - rewrite (proj2 (Z.leb_le _ _)), (proj2 (Z.ltb_lt _ _)) by lia. cbn [andb]. f_equal. lia.
  - symmetry. apply (testbit_small _ 2); [apply state_val_range|lia..].
Qed.

Lemma get_set_other w i j s :
  0 <= i < 14 -> 0 <= j < 14 -> i <> j ->
  GetChunkStateFromLayout (set_chunk_state w i s) j = GetChunkStateFromLayout w j.
Proof.
  intros Hi Hj Hn. apply Z.bits_inj'. intros k Hk. rewrite !chunk_state_bit, set_chunk_state_bit by lia.
  destruct (Z.ltb_spec k 2); cbn [andb]; [|done].
  assert ((2 * i <=? k + 2 * j) && (k + 2 * j <? 2 * i + 2) = false) as -> by lia.
  by rewrite (proj2 (Z.ltb_lt _ _)), andb_true_r by lia.
Qed.

Lemma layout_index_bit w k :
  0 <= k -> Z.testbit (layout_index w) k = Z.testbit w (k + 28) && (k <? 3).
Proof.
  intros Hk. unfold layout_index, kLayoutMask, kLayoutShift. rewrite Z.shiftr_spec, Z.land_spec by done.
  change 0x70000000 with (7 << 28). rewrite Z.shiftl_spec by lia. change 7 with (Z.ones 3).
  rewrite Z.testbit_ones by lia. f_equal. lia.
Qed.

Lemma layout_index_set w i s : 0 <= i < 14 -> layout_index (set_chunk_state w i s) = layout_index w.
Proof.
  intros Hi. apply Z.bits_inj'. intros k Hk. rewrite !layout_index_bit, set_chunk_state_bit by lia.
  destruct (Z.ltb_spec k 3); rewrite ?andb_false_r, ?andb_true_r; [|done].
  assert ((2 * i <=? k + 28) && (k + 28 <? 2 * i + 2) = false) as -> by lia.
  by rewrite (proj2 (Z.ltb_lt _ _)), andb_true_r by lia.
Qed.

Lemma layout_index_range w : 0 <= layout_index w < 8.
Proof.
  assert (layout_index w = layout_index w mod 2 ^ 3) as ->.
  2: { change 8 with (2 ^ 3). apply Z.mod_pos_bound. lia. }
  apply Z.bits_inj'. intros k Hk. destruct (Z.ltb_spec k 3).
  - by rewrite Z.mod_pow2_bits_low by lia.
  - rewrite Z.mod_pow2_bits_high by lia. rewrite layout_index_bit by done.
    assert (k <? 3 = false) as -> by lia. apply andb_false_r.
Qed.

Lemma set_chunk_state_u32 w i s : 0 <= i < 14 -> is_u32 w -> is_u32 (set_chunk_state w i s).
Proof.
  intros Hi Hw.
  assert (set_chunk_state w i s = set_chunk_state w i s mod 2 ^ 32) as ->.
  2: { apply Z.mod_pos_bound. lia. }
  apply Z.bits_inj'. intros k Hk. destruct (Z.ltb_spec k 32).
  - by rewrite Z.mod_pow2_bits_low by lia.
  - rewrite Z.mod_pow2_bits_high by lia. rewrite set_chunk_state_bit by lia.
    assert ((2 * i <=? k) && (k <? 2 * i + 2) = false) as -> by lia.
    assert (k <? 32 = false) as -> by lia. apply andb_false_r.
Qed.

(** A word whose chunk bits are all zero has every chunk free. *)
Lemma all_chunks_free w i :
  0 <= i < 14 -> (w .& kAllChunksMask) = kAllChunksFree -> GetChunkStateFromLayout w i = 0.
Proof.
  intros Hi Hw. apply Z.bits_inj'. intros k Hk. rewrite chunk_state_bit, Z.bits_0 by lia.
  destruct (Z.ltb_spec k 2); cbn [andb]; [|done].
  assert (Hb : Z.testbit (w .& kAllChunksMask) (k + 2 * i) = false) by (rewrite Hw; apply Z.bits_0).
  revert Hb. unfold kAllChunksMask. change 0x0FFFFFFF with (Z.ones 28).
  rewrite Z.land_spec, Z.testbit_ones by lia.
  assert ((0 <=? k + 2 * i) && (k + 2 * i <? 28) = true) as -> by lia. by rewrite andb_true_r.
Qed.

Lemma num_chunks_range w : 0 <= GetNumChunksForLayout w <= 14.
Proof.
  unfold GetNumChunksForLayout. pose proof (layout_index_range w) as H. revert H. generalize (layout_index w).
  intros z Hz. assert (Hn : (Z.to_nat z < 8)%nat) by lia. revert Hn. generalize (Z.to_nat z). intros n Hn.
  do 8 (destruct n as [|n]; [cbn; lia|]). lia.
Qed.

(** Words with the same layout bits. *)
Lemma num_chunks_eq w w' : layout_index w = layout_index w' -> GetNumChunksForLayout w = GetNumChunksForLayout w'.
Proof. unfold GetNumChunksForLayout. by intros ->. Qed.

Lemma chunk_size_eq a w w' : layout_index w = layout_index w' -> GetChunkSizeForLayout a w = GetChunkSizeForLayout a w'.
Proof. unfold GetChunkSizeForLayout. by intros ->. Qed.

(** ** Geometry of an initialised buffer *)

Record abi_wf (a : SharedMemoryABI) : Prop := {
  wf_start : 0 <= start_ a;
  wf_align : start_ a mod kMinPageSize = 0;
  wf_page : page_size_ a mod kMinPageSize = 0;
  wf_page_range : kMinPageSize <= page_size_ a <= kMaxPageSize;
  wf_pages : 0 <= num_pages_ a;
  wf_size : size_ a = page_size_ a * num_pages_ a;
  wf_sizes : InitChunkSizes (page_size_ a) = Some (chunk_sizes_ a) }.

Lemma Initialize_wf start size page_size mode a :
  0 <= start -> 0 <= size -> Initialize start size page_size mode = Some a -> abi_wf a.
Proof.
  intros Hs Hz H. unfold Initialize in H. destruct (InitChunkSizes page_size) eqn:Hc; [|done].
  cbn [mbind option_bind] in H. destruct (_ && _) eqn:Hb in H; [|done]. injection H as <-.
  rewrite !andb_true_iff, !Z.leb_le, !Z.eqb_eq in Hb. destruct_and!.
  assert (0 < page_size) by (unfold kMinPageSize in *; lia).
  constructor; cbn; try done; [apply Z.div_pos; lia|].
  rewrite (Z.div_mod size page_size) at 1 by lia. lia.
Qed.

Lemma Initialize_mode start size page_size a :
  Initialize start size page_size kDefault = Some a -> use_shmem_emulation_ a = false.
Proof.
  unfold Initialize. destruct (InitChunkSizes page_size); [|done]. cbn [mbind option_bind].
  case_match; [|done]. by intros [= <-].
Qed.

(** The chunk sizes of the sixteen legal page sizes and of each layout: a
    chunk holds its header, is a multiple of four octets, and the chunks fit in
    the page after its header. *)
Definition sizes_fit (ps : Z) : bool :=
  match InitChunkSizes ps with
  | None => false
  | Some sizes =>
      forallb (fun L =>
        match kNumChunksForLayout !! L, sizes !! L with
        | Some num, Some sz =>
            (num =? 0) ||
            ((kSizeofChunkHeader <? sz) && (sz mod 4 =? 0) && (kSizeofPageHeader + num * sz <=? ps) && (sz <? 2 ^ 16))
        | _, _ => false
        end) (seq 0 8)
  end.

Lemma sizes_fit_all : forallb (fun k => sizes_fit (4096 * Z.of_nat k)) (seq 1 16) = true.
Proof. vm_compute. reflexivity. Qed.

Lemma chunk_size_facts a w :
  abi_wf a -> 0 < GetNumChunksForLayout w ->
  kSizeofChunkHeader < GetChunkSizeForLayout a w < 2 ^ 16 /\ GetChunkSizeForLayout a w mod 4 = 0 /\
  kSizeofPageHeader + GetNumChunksForLayout w * GetChunkSizeForLayout a w <= page_size_ a.
Proof.
  intros Ha Hn. destruct (wf_page_range a Ha) as [H1 H2]. pose proof (wf_page a Ha) as H3.
  unfold kMinPageSize, kMaxPageSize in *.
  assert (Hk : exists k, (k ∈ seq 1 16) /\ page_size_ a = 4096 * Z.of_nat k).
  { exists (Z.to_nat (page_size_ a / 4096)). split; [|divlia].
    apply elem_of_seq. divlia. }
  destruct Hk as (k & Hk & Hps). pose proof sizes_fit_all as Hall.
  rewrite forallb_forall in Hall. specialize (Hall k). rewrite <- list_elem_of_In in Hall. specialize (Hall Hk).
  unfold sizes_fit in Hall. rewrite <- Hps, (wf_sizes a Ha) in Hall.
  rewrite forallb_forall in Hall. specialize (Hall (Z.to_nat (layout_index w))).
  pose proof (layout_index_range w).
  assert (Hin : In (Z.to_nat (layout_index w)) (seq 0 8)) by (apply in_seq; lia).
  specialize (Hall Hin). unfold GetNumChunksForLayout in *. unfold GetChunkSizeForLayout.
  destruct (kNumChunksForLayout !! _) as [num|]; [|done]. destruct (chunk_sizes_ a !! _) as [sz|]; [|done].
  cbn [from_option id] in *. rewrite orb_true_iff, !andb_true_iff, !Z.ltb_lt, !Z.eqb_eq, Z.leb_le in Hall.
  destruct Hall as [?|(((? & ?) & ?) & ?)]; [lia|]. repeat split; done.
Qed.

Lemma page_start_some a p : 0 <= p < num_pages_ a -> page_start a p = Some (start_ a + page_size_ a * p).
Proof. intros. unfold page_start. by rewrite (proj2 (Z.ltb_lt _ _)) by lia. Qed.

(** Where [GetChunkUnchecked] puts a chunk. *)
Definition chunk_at (a : SharedMemoryABI) (page_idx page_layout chunk_idx : Z) : Chunk :=
  let sz := GetChunkSizeForLayout a page_layout in
  mkChunk (start_ a + page_size_ a * page_idx + (kSizeofPageHeader + chunk_idx * sz)) sz chunk_idx.

(** A chunk lies in its page, after the page header, inside the buffer. *)
Lemma chunk_at_bounds a p w i :
  abi_wf a -> 0 <= p < num_pages_ a -> 0 <= i < GetNumChunksForLayout w ->
  start_ a + page_size_ a * p + kSizeofPageHeader <= chunk_begin (chunk_at a p w i) /\
  chunk_end (chunk_at a p w i) <= start_ a + page_size_ a * (p + 1) <= start_ a + size_ a.
Proof.
  intros Ha Hp Hi. pose proof (chunk_size_facts a w Ha ltac:(lia)) as (Hs & _ & Hf).
  unfold chunk_end, chunk_at. cbn [chunk_begin chunk_size]. rewrite (wf_size a Ha).
  pose proof (wf_page_range a Ha). unfold kSizeofPageHeader, kSizeofChunkHeader, kMinPageSize in *. nia.
Qed.

Lemma GetChunkUnchecked_some a p w i :
  abi_wf a -> 0 <= p < num_pages_ a -> 0 <= i < GetNumChunksForLayout w ->
  GetChunkUnchecked a p w i = Some (chunk_at a p w i).
Proof.
  intros Ha Hp Hi. pose proof (chunk_at_bounds a p w i Ha Hp Hi) as Hb.
  pose proof (chunk_size_facts a w Ha ltac:(lia)) as (Hs & Hm & _). pose proof (num_chunks_range w).
  unfold GetChunkUnchecked. rewrite (proj2 (Z.ltb_lt _ _)) by lia. rewrite page_start_some by done.
  cbn [mbind option_bind]. unfold Chunk_new.
  assert (Hal : (start_ a + page_size_ a * p + (kSizeofPageHeader + i * GetChunkSizeForLayout a w))
                  mod kChunkAlignment = 0).
  { pose proof (wf_align a Ha). pose proof (wf_page a Ha). unfold kChunkAlignment, kMinPageSize, kSizeofPageHeader in *.
    apply Z.mod_divide in H0, H1, Hm; [|lia..]. destruct H0 as [x ->], H1 as [y ->], Hm as [z ->].
    apply Z.mod_divide; [lia|]. exists (x * 1024 + y * 1024 * p + 2 + i * z). ring. }
  rewrite Hal, (proj2 (Z.ltb_lt _ _)) by (unfold kSizeofChunkHeader in *; lia). cbn [Z.eqb andb mbind option_bind].
  rewrite u8_id by (unfold_u; lia). change (mkChunk _ _ _) with (chunk_at a p w i).
  by rewrite (proj2 (Z.leb_le _ _)) by lia.
Qed.

(** The index computation inverts the address computation. *)
Lemma page_and_chunk_index_at a p w i :
  abi_wf a -> 0 <= p < num_pages_ a -> 0 <= i < GetNumChunksForLayout w ->
  page_and_chunk_index a (chunk_at a p w i) = Some (p, i).
Proof.
  intros Ha Hp Hi. pose proof (chunk_at_bounds a p w i Ha Hp Hi) as Hb.
  pose proof (chunk_size_facts a w Ha ltac:(lia)) as (Hs & Hm & Hf). pose proof (num_chunks_range w).
  pose proof (wf_start a Ha). pose proof (wf_page_range a Ha).
  unfold page_and_chunk_index, is_valid, chunk_end, chunk_at in *. cbn [chunk_begin chunk_size] in *.
  set (sz := GetChunkSizeForLayout a w) in *. unfold kSizeofChunkHeader, kSizeofPageHeader, kMinPageSize in *.
  set (off := 8 + i * sz) in *.
  assert (Hoff : 8 <= off < page_size_ a) by (unfold off; nia).
  assert (0 <= page_size_ a * p) by nia.
  assert (Hmod : (start_ a + page_size_ a * p + off - start_ a) mod page_size_ a = off).
  { replace (start_ a + page_size_ a * p + off - start_ a) with (off + p * page_size_ a) by lia.
    rewrite Z.mod_add by lia. by apply Z.mod_small; lia. }
  assert (Hdiv : (start_ a + page_size_ a * p + off - start_ a) / page_size_ a = p).
  { replace (start_ a + page_size_ a * p + off - start_ a) with (off + p * page_size_ a) by lia.
    rewrite Z.div_add by lia. rewrite (Z.div_small off) by lia. lia. }
  rewrite Hmod, Hdiv.
  assert (Hal : off mod kChunkAlignment = 0).
  { unfold off, kChunkAlignment. apply Z.mod_divide in Hm as [z Hz]; [|lia]. rewrite Hz.
    apply Z.mod_divide; [lia|]. exists (2 + i * z). ring. }
  assert (Ho : off - 8 = i * sz) by (unfold off; lia).
  rewrite Hal, Ho, Z.mod_mul, Z.div_mul by lia.
  rewrite (proj2 (Z.eqb_neq (start_ a + _ + off) 0)), (proj2 (Z.eqb_neq sz 0)) by lia.
  rewrite (proj2 (Z.leb_le (start_ a) _)), (proj2 (Z.leb_le (_ + sz) _)), (proj2 (Z.leb_le 8 off)) by lia.
  unfold kMaxChunksPerPage. by rewrite (proj2 (Z.ltb_lt i 14)) by lia.
Qed.

(** Two different chunks of the same layout do not overlap. *)
Lemma chunk_at_disjoint a p w i j :
  abi_wf a -> 0 < GetNumChunksForLayout w -> i < j ->
  chunk_end (chunk_at a p w i) <= chunk_begin (chunk_at a p w j).
Proof.
  intros Ha Hn Hij. pose proof (chunk_size_facts a w Ha Hn) as (Hs & _).
  unfold chunk_end, chunk_at, kSizeofChunkHeader in *. cbn [chunk_begin chunk_size]. nia.
Qed.

(** ** Page words in memory *)

Definition page_word (a : SharedMemoryABI) (m : list Z) (p : Z) : Z :=
  le_val (take 4 (drop (Z.to_nat (page_size_ a * p)) m)).

(** The octets of a chunk. *)
Definition chunk_octets (a : SharedMemoryABI) (m : list Z) (c : Chunk) : list Z :=
  take (Z.to_nat (chunk_size c)) (drop (Z.to_nat (chunk_begin c - start_ a)) m).

(** What every page word satisfies: a known layout, the reserved bit clear, no
    state for the chunks the layout does not have. *)
Definition page_wf (w : Z) : Prop :=
  is_u32 w /\ Z.testbit w 31 = false /\ layout_index w <= 5 /\ (layout_index w = 0 -> w = 0) /\
  (forall i, GetNumChunksForLayout w <= i < 14 -> GetChunkStateFromLayout w i = 0).

(** ** Ownership *)

(** A thread owns the chunk [ow_idx] of page [ow_page], acquired under the
    page word [ow_layout]. *)
Record Own := mkOwn { ow_page : Z; ow_idx : Z; ow_layout : Z; ow_state : ChunkState }.

Definition ow_key (o : Own) : Z * Z := (ow_page o, ow_idx o).
Definition own_chunk (a : SharedMemoryABI) (o : Own) : Chunk := chunk_at a (ow_page o) (ow_layout o) (ow_idx o).

Definition own_static (a : SharedMemoryABI) (o : Own) : Prop :=
  0 <= ow_page o < num_pages_ a /\ 0 <= ow_idx o < GetNumChunksForLayout (ow_layout o) /\
  (ow_state o = kChunkBeingWritten \/ ow_state o = kChunkBeingRead).

Definition own_ok (o : Own) (w : Z) : Prop :=
  layout_index w = layout_index (ow_layout o) /\ GetChunkStateFromLayout w (ow_idx o) = state_val (ow_state o).

Record owns_inv (a : SharedMemoryABI) (m : list Z) (all : list Own) : Prop := {
  oi_length : Z.of_nat (length m) = size_ a;
  oi_bytes : bytes_ok m;
  oi_words : forall p, 0 <= p < num_pages_ a -> page_wf (page_word a m p);
  oi_nodup : NoDup (ow_key <$> all);
  oi_static : Forall (own_static a) all;
  oi_state : Forall (fun o => own_ok o (page_word a m (ow_page o))) all }.

#[export] Instance owns_inv_perm a m : Proper ((≡ₚ) ==> iff) (owns_inv a m).
Proof.
  intros l l' Hp. split; intros [? ? ? H1 H2 H3]; constructor; try done.
  all: first [by rewrite <- Hp | by rewrite Hp].
Qed.

(** The three ways in which the page word changes, and what they do to the
    chunks in the hands of the thread that changes it. *)
Definition acquire_from (s : ChunkState) : ChunkState :=
  if decide (s = kChunkBeingWritten) then kChunkFree else kChunkComplete.

Definition released (w i : Z) (s : ChunkState) : Z :=
  let n := set_chunk_state w i s in if (n .& kAllChunksMask) =? kAllChunksFree then 0 else n.

Inductive word_step (p : Z) : list Own -> Z -> list Own -> Z -> Prop :=
  | ws_partition ex l : is_partition l = true -> word_step p ex 0 ex (layout_val l << kLayoutShift)
  | ws_acquire ex w i s :
      0 <= i < GetNumChunksForLayout w -> s = kChunkBeingWritten \/ s = kChunkBeingRead ->
      GetChunkStateFromLayout w i = state_val (acquire_from s) ->
      word_step p ex w (mkOwn p i w s :: ex) (set_chunk_state w i s)
  | ws_release ex o w :
      ow_page o = p -> word_step p (o :: ex) w ex (released w (ow_idx o) (release_state (ow_state o))).

(** *** Page words stay well formed *)

Lemma page_wf_set w i s :
  0 <= i < GetNumChunksForLayout w -> page_wf w -> page_wf (set_chunk_state w i s).
Proof.
  intros Hi (Hu & Hb & Hl & Hz & Hs). pose proof (num_chunks_range w).
  assert (Hn : GetNumChunksForLayout (set_chunk_state w i s) = GetNumChunksForLayout w)
    by (apply num_chunks_eq, layout_index_set; lia).
  unfold page_wf. rewrite Hn, layout_index_set by lia. split_and!.
  - apply set_chunk_state_u32; [lia|done].
  - rewrite set_chunk_state_bit by lia. assert ((2 * i <=? 31) && (31 <? 2 * i + 2) = false) as -> by lia.
    by rewrite Hb.
  - done.
  - intros H0. exfalso. rewrite (num_chunks_eq w 0) in Hi by done.
    change (GetNumChunksForLayout 0) with 0 in Hi. lia.
  - intros j Hj. rewrite get_set_other by lia. by apply Hs.
Qed.

Lemma page_wf_0 : page_wf 0.
Proof. unfold page_wf. split_and!; try done. intros i Hi.
  change (GetNumChunksForLayout 0) with 0 in Hi. by apply all_chunks_free. Qed.

Lemma page_wf_partition l : is_partition l = true -> page_wf (layout_val l << kLayoutShift).
Proof.
  intros Hl. unfold page_wf. split_and!.
  - destruct l; by vm_compute.
  - by destruct l.
  - by destruct l; vm_compute.
  - by destruct l.
  - intros i Hi. pose proof (num_chunks_range (layout_val l << kLayoutShift)).
    apply all_chunks_free; [lia|by destruct l].
Qed.

Lemma word_step_wf a m all p ex ex' w d :
  owns_inv a m (ex ++ all) -> w = page_word a m p -> word_step p ex w ex' d -> page_wf w -> page_wf d.
Proof.
  intros Hinv Hw Hs Hwf. destruct Hs as [ex l Hl|ex w i s Hi|ex o w Hp].
  - by apply page_wf_partition.
  - by apply page_wf_set.
  - unfold released. case_match; [apply page_wf_0|]. apply page_wf_set; [|done].
    pose proof (oi_static _ _ _ Hinv) as Hst. pose proof (oi_state _ _ _ Hinv) as Hok.
    rewrite Forall_app, Forall_cons in Hst, Hok. destruct Hst as [[(_ & H1 & _) _] _], Hok as [[[H2 _] _] _].
    rewrite Hp, <- Hw in H2. by rewrite (num_chunks_eq w _ H2).
Qed.

(** *** The other owners are not affected *)

Lemma own_ok_word_step a m all p ex ex' w d o :
  owns_inv a m (ex ++ all) -> w = page_word a m p -> word_step p ex w ex' d ->
  o ∈ ex' ++ all ->
  ow_page o = p -> own_ok o w -> own_static a o -> own_ok o d.
Proof.
  intros Hinv Hw Hs Hin Hp [Hl Hst] (Hpg & Hidx & Hso). pose proof (num_chunks_range (ow_layout o)).
  assert (Hsv : state_val (ow_state o) = 1 \/ state_val (ow_state o) = 2) by (destruct Hso as [-> | ->]; cbn; lia).
  destruct Hs as [ex l Hpl|ex w i s Hi Hs Hc|ex o' w Hp'].
  - exfalso. rewrite <- (num_chunks_eq 0 _ Hl) in Hidx.
    change (GetNumChunksForLayout 0) with 0 in Hidx. lia.
  - assert (i <> ow_idx o).
    { intros ->. rewrite Hst in Hc. unfold acquire_from in Hc. case_decide; cbn in Hc; lia. }
    pose proof (num_chunks_range w).
    split; [by rewrite layout_index_set by lia|]. by rewrite get_set_other by lia.
  - assert (Hne : ow_idx o' <> ow_idx o).
    { intros He. pose proof (oi_nodup _ _ _ Hinv) as Hnd. cbn in Hnd. apply NoDup_cons in Hnd as [Hn _].
      apply Hn, list_elem_of_fmap. exists o. split; [unfold ow_key; congruence|done]. }
    pose proof (oi_static _ _ _ Hinv) as Hst'. cbn in Hst'. apply Forall_cons in Hst' as [(_ & Hi' & _) _].
    pose proof (num_chunks_range (ow_layout o')).
    unfold released. case_match eqn:Hz.
    + exfalso. apply Z.eqb_eq in Hz. pose proof (all_chunks_free _ (ow_idx o) ltac:(lia) Hz) as H0'.
      rewrite get_set_other in H0' by lia. lia.
    + split; [by rewrite layout_index_set by lia|]. by rewrite get_set_other by lia.
Qed.

(** ** What a write to the buffer leaves alone *)

Section Frame.
Context (a : SharedMemoryABI) (Ha : abi_wf a).

Lemma page_word_write_same m p d :
  Z.of_nat (length m) = size_ a -> 0 <= p < num_pages_ a -> is_u32 d ->
  page_word a (buf_write m (Z.to_nat (page_size_ a * p)) (le_bytes 4 d)) p = d.
Proof.
  intros Hm Hp Hd. unfold page_word. pose proof (wf_page_range a Ha). pose proof (wf_size a Ha).
  unfold kMinPageSize in *.
  assert (Hw := buf_write_read_same m (Z.to_nat (page_size_ a * p)) (le_bytes 4 d)).
  rewrite length_le_bytes in Hw. rewrite Hw by nia.
  rewrite le_val_bytes by (unfold_u; lia). apply Z.mod_small. unfold_u. cbn. lia.
Qed.

(** The octets [lo, lo + n) of the buffer are in page [p], after its word. *)
Definition in_page_body (p lo n : Z) : Prop :=
  0 <= p < num_pages_ a /\ page_size_ a * p + kSizeofPageHeader <= lo /\ lo + n <= page_size_ a * (p + 1).

Lemma page_word_frame m p q lo l :
  Z.of_nat (length m) = size_ a -> in_page_body q lo (Z.of_nat (length l)) -> 0 <= p < num_pages_ a ->
  page_word a (buf_write m (Z.to_nat lo) l) p = page_word a m p.
Proof.
  intros Hm (Hq & Hl1 & Hl2) Hp. unfold page_word. pose proof (wf_page_range a Ha). pose proof (wf_size a Ha).
  unfold kMinPageSize, kSizeofPageHeader in *.
  f_equal. apply buf_write_read_other; [nia|]. destruct (decide (p <= q)); nia.
Qed.

Lemma page_word_other m p q d :
  Z.of_nat (length m) = size_ a -> 0 <= q < num_pages_ a -> 0 <= p < num_pages_ a -> p <> q ->
  page_word a (buf_write m (Z.to_nat (page_size_ a * q)) (le_bytes 4 d)) p = page_word a m p.
Proof.
  intros Hm Hq Hp Hn. unfold page_word. pose proof (wf_page_range a Ha). pose proof (wf_size a Ha).
  unfold kMinPageSize in *.
  f_equal. apply buf_write_read_other; rewrite length_le_bytes; [nia|]. destruct (decide (p <= q)); nia.
Qed.

(** The octets of the chunk of an owner. *)
Lemma own_in_page_body o lo n :
  own_static a o -> chunk_begin (own_chunk a o) <= lo -> lo + n <= chunk_end (own_chunk a o) ->
  in_page_body (ow_page o) (lo - start_ a) n.
Proof.
  intros (Hp & Hi & _) H1 H2. pose proof (chunk_at_bounds a _ _ _ Ha Hp Hi) as Hb.
  unfold own_chunk in *. unfold in_page_body. lia.
Qed.

Lemma chunk_octets_frame m o lo l :
  Z.of_nat (length m) = size_ a -> own_static a o -> 0 <= lo -> lo + Z.of_nat (length l) <= size_ a ->
  lo + Z.of_nat (length l) <= chunk_begin (own_chunk a o) - start_ a \/
    chunk_end (own_chunk a o) - start_ a <= lo ->
  chunk_octets a (buf_write m (Z.to_nat lo) l) (own_chunk a o) = chunk_octets a m (own_chunk a o).
Proof.
  intros Hm (Hp & Hi & _) H0 H1 H2. pose proof (chunk_at_bounds a _ _ _ Ha Hp Hi) as Hb.
  pose proof (chunk_size_facts a (ow_layout o) Ha ltac:(lia)) as (Hs & _).
  unfold chunk_octets. apply buf_write_read_other; [lia|].
  unfold own_chunk, chunk_end, kSizeofPageHeader, kSizeofChunkHeader in *.
  assert (0 <= page_size_ a * ow_page o) by (pose proof (wf_page_range a Ha); unfold kMinPageSize in *; nia).
  assert (0 < chunk_size (chunk_at a (ow_page o) (ow_layout o) (ow_idx o))) by (cbn [chunk_size chunk_at]; lia).
  lia.
Qed.

(** Writing a page word leaves every chunk's octets alone. *)
Lemma chunk_octets_word m o p d :
  Z.of_nat (length m) = size_ a -> own_static a o -> 0 <= p < num_pages_ a ->
  chunk_octets a (buf_write m (Z.to_nat (page_size_ a * p)) (le_bytes 4 d)) (own_chunk a o) =
    chunk_octets a m (own_chunk a o).
Proof.
  intros Hm Ho Hp. pose proof Ho as (Hq & Hi & _). pose proof (chunk_at_bounds a _ _ _ Ha Hq Hi) as Hb.
  pose proof (wf_page_range a Ha). pose proof (wf_size a Ha). unfold kMinPageSize, kSizeofPageHeader in *.
  apply chunk_octets_frame; try done; rewrite ?length_le_bytes; [nia|nia|].
  unfold own_chunk. destruct (decide (p <= ow_page o)); [left|right]; nia.
Qed.

(** *** The invariant is kept *)

Lemma owns_inv_word_step m p ex ex' d all :
  owns_inv a m (ex ++ all) -> 0 <= p < num_pages_ a -> word_step p ex (page_word a m p) ex' d ->
  owns_inv a (buf_write m (Z.to_nat (page_size_ a * p)) (le_bytes 4 d)) (ex' ++ all).
Proof.
  intros Hinv Hp Hs. pose proof Hinv as [Hl Hb Hw Hnd Hst Hok].
  pose proof (word_step_wf _ _ _ _ _ _ _ _ Hinv eq_refl Hs (Hw p Hp)) as Hd.
  assert (Hsame : page_word a (buf_write m (Z.to_nat (page_size_ a * p)) (le_bytes 4 d)) p = d)
    by (apply page_word_write_same; [done..|apply Hd]).
  assert (Hkeep : forall o, o ∈ ex ++ all -> o ∈ ex' ++ all ->
    own_ok o (page_word a (buf_write m (Z.to_nat (page_size_ a * p)) (le_bytes 4 d)) (ow_page o))).
  { intros o Ho Ho'. rewrite Forall_forall in Hst, Hok. specialize (Hst o Ho). specialize (Hok o Ho).
    destruct (decide (ow_page o = p)) as [He|He].
    - rewrite He, Hsame. rewrite He in Hok. by eapply own_ok_word_step.
    - rewrite page_word_other; try done. by apply Hst. }
  constructor.
  - rewrite buf_write_length; [done|]. rewrite length_le_bytes. pose proof (wf_page_range a Ha).
    pose proof (wf_size a Ha). unfold kMinPageSize in *. nia.
  - by apply buf_write_ok; [|apply le_bytes_ok].
  - intros q Hq. destruct (decide (q = p)) as [->|]; [by rewrite Hsame|]. rewrite page_word_other by done. auto.
  - inversion Hs as [|? w i s Hi Hs' Hc|]; subst; [done|..].
    + cbn. constructor; [|done]. intros (o & Hk & Ho)%list_elem_of_fmap. injection Hk as Hk1 Hk2.
      rewrite Forall_forall in Hst, Hok. specialize (Hst o Ho) as (_ & _ & Hso). specialize (Hok o Ho) as [_ Hok].
      rewrite <- Hk1, <- Hk2, Hc in Hok. apply state_val_inj in Hok. revert Hok. unfold acquire_from.
      destruct Hso as [-> | ->]; by case_decide.
    + cbn in Hnd. by apply NoDup_cons in Hnd as [_ ?].
  - inversion Hs as [|? w i s Hi Hs' Hc|]; subst; [done|..].
    + cbn. constructor; [|done]. by unfold own_static.
    + cbn in Hst. by apply Forall_cons in Hst as [_ ?].
  - apply Forall_forall. intros o Ho. inversion Hs as [|? w i s Hi Hs' Hc|]; subst; [by apply Hkeep|..].
    + cbn in Ho. apply elem_of_cons in Ho as [->|Ho]; [|apply Hkeep; [done|by right]].
      cbn [ow_page]. rewrite Hsame. pose proof (num_chunks_range (page_word a m p)).
      split; cbn [ow_layout ow_idx ow_state]; [by rewrite layout_index_set by lia|]. by rewrite get_set_same by lia.
    + apply Hkeep; [by right|done].
Qed.

Lemma owns_inv_store m all o lo l :
  owns_inv a m all -> o ∈ all -> chunk_begin (own_chunk a o) <= lo ->
  lo + Z.of_nat (length l) <= chunk_end (own_chunk a o) -> bytes_ok l ->
  owns_inv a (buf_write m (Z.to_nat (lo - start_ a)) l) all.
Proof.
  intros [Hl Hb Hw Hnd Hst Hok] Ho H1 H2 Hlb.
  assert (Hso : own_static a o) by (by eapply Forall_forall in Hst).
  pose proof (own_in_page_body o lo _ Hso H1 H2) as Hpb.
  constructor; try done.
  - rewrite buf_write_length; [done|]. destruct Hpb as (Hp & Hs & He). pose proof (wf_size a Ha).
    pose proof (wf_page_range a Ha). unfold kMinPageSize, kSizeofPageHeader in *. nia.
  - by apply buf_write_ok.
  - intros p Hp. rewrite (page_word_frame m p _ _ _ Hl Hpb) by done. auto.
  - apply Forall_forall. intros o' Ho'. rewrite Forall_forall in Hok, Hst.
    rewrite (page_word_frame m _ _ _ _ Hl Hpb) by (by apply Hst). by apply Hok.
Qed.

(** Chunks of different owners do not overlap. *)
Lemma owns_disjoint m all o o' :
  owns_inv a m all -> o ∈ all -> o' ∈ all -> ow_key o <> ow_key o' ->
  chunk_end (own_chunk a o) <= chunk_begin (own_chunk a o') \/
  chunk_end (own_chunk a o') <= chunk_begin (own_chunk a o).
Proof.
  intros [_ _ _ _ Hst Hok] Ho Ho' Hk. rewrite Forall_forall in Hst, Hok.
  pose proof (Hst _ Ho) as (Hp & Hi & _). pose proof (Hst _ Ho') as (Hp' & Hi' & _).
  destruct (Hok _ Ho) as [Hl _], (Hok _ Ho') as [Hl' _].
  pose proof (chunk_at_bounds a _ _ _ Ha Hp Hi) as Hb. pose proof (chunk_at_bounds a _ _ _ Ha Hp' Hi') as Hb'.
  unfold own_chunk. pose proof (wf_page_range a Ha). unfold kMinPageSize, kSizeofPageHeader in *.
  destruct (decide (ow_page o = ow_page o')) as [He|He].
  - assert (Hi2 : ow_idx o <> ow_idx o') by (intros Hx; apply Hk; unfold ow_key; congruence).
    rewrite He in Hl. assert (Hll : layout_index (ow_layout o) = layout_index (ow_layout o')) by congruence.
    assert (Hc : chunk_at a (ow_page o) (ow_layout o) (ow_idx o) = chunk_at a (ow_page o') (ow_layout o') (ow_idx o))
      by (unfold chunk_at; by rewrite He, (chunk_size_eq a _ _ Hll)).
    rewrite Hc. destruct (decide (ow_idx o < ow_idx o')); [left|right]; apply chunk_at_disjoint; try done; lia.
  - destruct (decide (ow_page o < ow_page o')); [left|right]; nia.
Qed.

End Frame.

(** ** Safe programs

    [safe hos Q p ex]: a thread that holds the chunks [hos], and has the chunks
    [ex] in the hands of a call in progress, can run [p] whatever the other
    threads do: no check fails, every access is to a page word or to a chunk it
    owns, every change of a page word is a [word_step], and [Q] holds of the
    result. *)

Section Safe.
Context (a : SharedMemoryABI) (Ha : abi_wf a).

Definition in_owned (l : list Own) (addr : Z) (n : nat) : Prop :=
  exists o, o ∈ l /\ chunk_begin (own_chunk a o) <= addr /\ addr + Z.of_nat n <= chunk_end (own_chunk a o).

(** A value that the word of page [p] can have while the thread owns [l]. *)
Definition possible (l : list Own) (p w : Z) : Prop :=
  page_wf w /\ Forall (fun o => own_static a o /\ (ow_page o = p -> own_ok o w)) l.

Definition page_addr (p addr : Z) : Prop := 0 <= p < num_pages_ a /\ addr = start_ a + page_size_ a * p.

Fixpoint safe {A} (hos : list Own) (Q : list Own -> A -> Prop) (p : Prog A) (ex : list Own) {struct p} : Prop :=
  match p with
  | Ret x => Q ex x
  | Load addr n k =>
      (exists pg, page_addr pg addr /\ n = 4%nat /\
         forall w, possible (ex ++ hos) pg w -> safe hos Q (k w) ex) \/
      (in_owned (ex ++ hos) addr n /\ forall v, safe hos Q (k v) ex)
  | Store addr l k => bytes_ok l /\ in_owned (ex ++ hos) addr (length l) /\ safe hos Q k ex
  | Cas addr e d k =>
      exists pg, page_addr pg addr /\ safe hos Q (k false) ex /\
        (possible (ex ++ hos) pg e -> exists ex', word_step pg ex e ex' d /\ safe hos Q (k true) ex')
  | Dfatal k => safe hos Q k ex
  | Crash => False
  end.

Lemma safe_bind {A B} hos (Q : list Own -> A -> Prop) (R : list Own -> B -> Prop) p f : forall ex,
  safe hos Q p ex -> (forall ex x, Q ex x -> safe hos R (f x) ex) -> safe hos R (pbind p f) ex.
Proof.
  induction p as [x|addr n k IH|addr l k IH|addr e d k IH|k IH|]; intros ex Hs Hf; cbn [safe pbind] in *; auto.
  - destruct Hs as [(pg & Hp & Hn & Hk)|[Ho Hk]]; [left; exists pg|right]; auto.
  - destruct Hs as (? & ? & ?); auto.
  - destruct Hs as (pg & Hp & H1 & H2). exists pg. split_and!; auto.
    intros He. destruct (H2 He) as (ex' & ? & ?). eauto.
Qed.

Lemma safe_mono {A} hos (Q R : list Own -> A -> Prop) p : forall ex,
  safe hos Q p ex -> (forall ex x, Q ex x -> R ex x) -> safe hos R p ex.
Proof.
  induction p as [x|addr n k IH|addr l k IH|addr e d k IH|k IH|]; intros ex Hs Hf; cbn [safe] in *; auto.
  - destruct Hs as [(pg & Hp & Hn & Hk)|[Ho Hk]]; [left; exists pg|right]; auto.
  - destruct Hs as (? & ? & ?); auto.
  - destruct Hs as (pg & Hp & H1 & H2). exists pg. split_and!; auto.
    intros He. destruct (H2 He) as (ex' & ? & ?). eauto.
Qed.

Lemma safe_settle {A} hos (Q : list Own -> A -> Prop) p ex : safe hos Q p ex -> safe hos Q (settle p).2 ex.
Proof.
  induction p as [x|addr n k IH|addr l k IH|addr e d k IH|k IH|]; intros H; try done.
  cbn [settle]. destruct (settle k). by apply IH.
Qed.

Lemma own_holds_header o : own_static a o -> chunk_begin (own_chunk a o) + 8 <= chunk_end (own_chunk a o).
Proof.
  intros (_ & Hi & _). pose proof (chunk_size_facts a (ow_layout o) Ha ltac:(lia)) as (Hs & _).
  unfold chunk_end, own_chunk, chunk_at, kSizeofChunkHeader in *. cbn [chunk_begin chunk_size]. lia.
Qed.

Lemma possible_static l p w o : possible l p w -> o ∈ l -> own_static a o.
Proof. intros [_ H] Ho. rewrite Forall_forall in H. by apply H. Qed.

Lemma possible_ok l p w o : possible l p w -> o ∈ l -> ow_page o = p -> own_ok o w.
Proof. intros [_ H] Ho. rewrite Forall_forall in H. by apply H. Qed.

(** *** The operations are safe *)

Lemma safe_store_header hos o h ex :
  o ∈ ex ++ hos -> own_static a o -> safe hos (fun ex' _ => ex' = ex) (store_header (own_chunk a o) h) ex.
Proof.
  intros Ho Hs. pose proof (own_holds_header o Hs).
  unfold store_header. cbn [safe]. rewrite !length_le_bytes.
  split_and!; try apply le_bytes_ok; try done; exists o; split_and!; try done; lia.
Qed.

Definition acquired (s : ChunkState) (ex ex' : list Own) (c : Chunk) : Prop :=
  c = null_chunk /\ ex' = ex \/
  exists o, ex' = o :: ex /\ own_static a o /\ ow_state o = s /\ c = own_chunk a o.

Lemma safe_acquire_loop n hos p i s h ex :
  0 <= p < num_pages_ a -> 0 <= i -> s = kChunkBeingWritten /\ is_Some h \/ s = kChunkBeingRead ->
  safe hos (acquired s ex) (acquire_loop n a (start_ a + page_size_ a * p) p i s h) ex.
Proof.
  intros Hp Hi Hs. induction n as [|n IH]; cbn [acquire_loop safe]; [by left|].
  left. exists p. split_and!; [done..|]. intros w Hw.
  destruct (Z.leb_spec (GetNumChunksForLayout w) i) as [Hge|Hlt]; [by left|].
  fold (acquire_from s). fold (GetChunkStateFromLayout w i).
  destruct (Z.eqb_spec (GetChunkStateFromLayout w i) (state_val (acquire_from s))) as [Hst|Hst]; [|by left].
  cbn [negb safe]. exists p. split_and!; [done..|exact IH|]. intros _.
  set (o := mkOwn p i w s).
  assert (Hso : own_static a o) by (repeat split; cbn; try lia; destruct Hs as [[-> _] | ->]; auto).
  exists (o :: ex). split.
  { apply ws_acquire; [lia| |done]. destruct Hs as [[-> _] | ->]; auto. }
  rewrite GetChunkUnchecked_some by (done || lia). cbn [lift]. change (chunk_at a p w i) with (own_chunk a o).
  destruct Hs as [[-> [h' ->]] | ->]; case_decide; try done; cbn [lift].
  - eapply safe_bind; [apply safe_store_header; [by left|done]|]. intros ex' [] ->. cbn [safe].
    right. by exists o.
  - cbn [safe]. right. by exists o.
Qed.

Lemma safe_TryAcquireChunk hos p i s h ex :
  0 <= p < num_pages_ a -> 0 <= i -> s = kChunkBeingWritten /\ is_Some h \/ s = kChunkBeingRead ->
  safe hos (acquired s ex) (TryAcquireChunk a p i s h) ex.
Proof.
  intros Hp Hi Hs. unfold TryAcquireChunk. rewrite page_start_some by done.
  assert (bool_decide (s = kChunkBeingRead) || bool_decide (s = kChunkBeingWritten) = true) as ->.
  { destruct Hs as [[-> _] | ->]; done. }
  by apply safe_acquire_loop.
Qed.

Lemma safe_TryPartitionPage hos p l ex :
  0 <= p < num_pages_ a -> is_partition l = true ->
  safe hos (fun ex' _ => ex' = ex) (TryPartitionPage a p l) ex.
Proof.
  intros Hp Hl. unfold TryPartitionPage. rewrite Hl, page_start_some by done. cbn [lift safe].
  exists p. split_and!; [done..|]. intros _. exists ex. split; [|done].
  replace (u32 (layout_val l << kLayoutShift) .& kLayoutMask) with (layout_val l << kLayoutShift) by (by destruct l).
  by apply ws_partition.
Qed.

Lemma safe_GetPageLayout hos p ex :
  0 <= p < num_pages_ a ->
  safe hos (fun ex' w => ex' = ex /\ possible (ex ++ hos) p w) (GetPageLayout a p) ex.
Proof.
  intros Hp. unfold GetPageLayout. rewrite page_start_some by done. cbn [lift safe]. left. by exists p.
Qed.

Lemma own_chunk_size_eq o w : own_ok o w -> chunk_size (own_chunk a o) = GetChunkSizeForLayout a w.
Proof. intros [Hl _]. unfold own_chunk, chunk_at. cbn [chunk_size]. symmetry. by apply chunk_size_eq. Qed.

Lemma safe_release_loop n hos o ex :
  use_shmem_emulation_ a = false -> own_static a o ->
  safe hos (fun ex' _ => ex' = ex \/ ex' = o :: ex)
    (release_loop n a (own_chunk a o) (start_ a + page_size_ a * ow_page o) (ow_page o) (ow_idx o)
       (release_state (ow_state o))) (o :: ex).
Proof.
  intros He Hs. pose proof Hs as (Hp & Hi & Hst). induction n as [|n IH]; cbn [release_loop safe]; [by right|].
  left. exists (ow_page o). split_and!; [done..|]. intros w Hw.
  pose proof (possible_ok _ _ _ o Hw ltac:(by left) eq_refl) as Hok.
  rewrite (own_chunk_size_eq o w Hok), Z.eqb_refl. destruct Hok as [Hl Hsv]. rewrite Hsv, He.
  assert (Hexp : (if decide (release_state (ow_state o) = kChunkComplete) then kChunkBeingWritten else kChunkBeingRead)
                 = ow_state o) by (destruct Hst as [-> | ->]; done).
  rewrite Hexp, Z.eqb_refl. cbn [safe]. exists (ow_page o). split_and!; [done..|exact IH|].
  intros _. exists ex. split; [|by left]. by apply ws_release.
Qed.

Lemma safe_ReleaseChunk hos o ex :
  use_shmem_emulation_ a = false -> own_static a o ->
  safe hos (fun ex' _ => ex' = ex \/ ex' = o :: ex)
    (ReleaseChunk a (own_chunk a o) (release_state (ow_state o))) (o :: ex).
Proof.
  intros He Hs. pose proof Hs as (Hp & Hi & Hst). unfold ReleaseChunk.
  assert (bool_decide (release_state (ow_state o) = kChunkComplete) ||
          bool_decide (release_state (ow_state o) = kChunkFree) = true) as ->
    by (destruct Hst as [-> | ->]; done).
  eapply (safe_bind _ (fun ex' x => ex' = o :: ex /\ x = (ow_page o, ow_idx o))).
  { unfold GetPageAndChunkIndex, own_chunk at 1. rewrite page_and_chunk_index_at by done. cbn [lift].
    eapply safe_bind; [by apply safe_GetPageLayout|]. intros ex' w [-> Hw].
    pose proof (possible_ok _ _ _ o Hw ltac:(by left) eq_refl) as [Hl _].
    rewrite (num_chunks_eq _ _ Hl), (proj2 (Z.ltb_lt _ _)) by lia. done. }
  intros ex' x [-> ->]. eapply (safe_bind _ (fun ex' _ => ex' = o :: ex)).
  { case_decide; [|done]. apply safe_store_header; [by left|done]. }
  intros ex' [] ->. rewrite page_start_some by done. by apply safe_release_loop.
Qed.

Lemma safe_update_packets hos o f ex :
  o ∈ ex ++ hos -> own_static a o -> safe hos (fun ex' _ => ex' = ex) (update_packets (own_chunk a o) f) ex.
Proof.
  intros Ho Hs. pose proof (own_holds_header o Hs). unfold update_packets. cbn [safe].
  right. split; [exists o; split_and!; [done|lia..]|]. intros v. cbn [safe].
  split_and!; [apply le_bytes_ok| |done]. rewrite length_le_bytes. exists o; split_and!; [done|lia..].
Qed.

End Safe.

(** ** The invariant of the system *)

Section System.
Context (a : SharedMemoryABI) (Ha : abi_wf a) (Hemu : use_shmem_emulation_ a = false).

Definition handle (o : Own) : ChunkState * Chunk := (ow_state o, own_chunk a o).

Definition outcome_ok (ex : list Own) (r : Outcome) : Prop :=
  match r with
  | OAcquired s c =>
      c = null_chunk \/ exists o ex', ex = o :: ex' /\ (s, c) = handle o
  | ODone _ => True
  end.

Definition thread_inv (th : Thread) (hos ex : list Own) : Prop :=
  th_chunks th = handle <$> hos /\
  match th_prog th with None => True | Some p => safe a hos outcome_ok p ex end.

Lemma acquired_outcome s ex ex' c : acquired a s ex ex' c -> outcome_ok ex' (OAcquired s c).
Proof. intros [[-> ->]|(o & -> & _ & <- & ->)]; [by left|right; by exists o, ex]. Qed.

Lemma safe_ODone {A} hos p (f : A -> Z) ex (Q : list Own -> A -> Prop) :
  safe a hos Q p ex -> safe a hos outcome_ok (pbind p (fun x => Ret (ODone (f x)))) ex.
Proof. intros H. by eapply safe_bind; [exact H|]. Qed.

Lemma page_arg_ok_range p : page_arg_ok a p = true -> 0 <= p < num_pages_ a.
Proof. unfold page_arg_ok. rewrite andb_true_iff, Z.leb_le, Z.ltb_lt. done. Qed.

(** The handle at position [n] belongs to the owner at position [n]. *)
Lemma handle_lookup (hos : list Own) (n : nat) s c :
  (handle <$> hos) !! n = Some (s, c) -> exists o, hos !! n = Some o /\ s = ow_state o /\ c = own_chunk a o.
Proof. rewrite list_lookup_fmap, fmap_Some. intros (o & Ho & [= -> ->]). by exists o. Qed.

Lemma start_request_inv th r th' hos ex :
  Forall (own_static a) hos -> thread_inv th hos ex -> start_request a th r = Some th' ->
  exists hos' ex', thread_inv th' hos' ex' /\ ex' ++ hos' ≡ₚ ex ++ hos.
Proof.
  intros Hst [Hc _] Hr. rewrite Forall_forall in Hst.
  assert (Hgo : forall p, safe a hos outcome_ok p ex ->
    Some (mkThread (Some p) (th_chunks th) (th_dfatals th)) = Some th' ->
    exists hos' ex', thread_inv th' hos' ex' /\ ex' ++ hos' ≡ₚ ex ++ hos).
  { intros p Hp [= <-]. by exists hos, ex. }
  destruct r; cbn [start_request] in Hr;
    try (destruct (th_chunks th !! n) as [[s c]|] eqn:Hn; [|done]; cbn [mbind option_bind] in Hr;
         rewrite Hc in Hn; apply handle_lookup in Hn as (o & Ho & -> & ->);
         pose proof (list_elem_of_lookup_2 _ _ _ Ho) as Hin; pose proof (Hst o Hin) as Hso).
  - destruct (page_arg_ok a page_idx && is_partition l) eqn:Hp; [|done].
    apply andb_true_iff in Hp as [Hp%page_arg_ok_range Hl].
    eapply Hgo, Hr. by eapply safe_ODone, safe_TryPartitionPage.
  - destruct (page_arg_ok a page_idx && (0 <=? chunk_idx)) eqn:Hp; [|done].
    apply andb_true_iff in Hp as [Hp%page_arg_ok_range Hi%Z.leb_le].
    eapply Hgo, Hr. eapply safe_bind; [eapply safe_TryAcquireChunk; eauto|]. cbn [safe]. intros. by eapply acquired_outcome.
  - destruct (page_arg_ok a page_idx && (0 <=? chunk_idx)) eqn:Hp; [|done].
    apply andb_true_iff in Hp as [Hp%page_arg_ok_range Hi%Z.leb_le].
    eapply Hgo, Hr. eapply safe_bind; [eapply safe_TryAcquireChunk; eauto|]. cbn [safe]. intros. by eapply acquired_outcome.
  - injection Hr as <-. exists (delete n hos), (o :: ex). split.
    + split; cbn [th_chunks th_prog]; [by rewrite Hc, list_fmap_delete|].
      by eapply safe_ODone, safe_ReleaseChunk.
    + cbn [app]. rewrite Permutation_middle. apply Permutation_app_head. symmetry. by apply delete_Permutation.
  - case_match eqn:Hb; [|done]. rewrite !andb_true_iff, !bool_decide_eq_true, !Z.leb_le in Hb.
    destruct Hb as [[[_ H0] H1] H2]. eapply Hgo, Hr. cbn [safe]. split_and!; [done| |done].
    exists o. unfold chunk_end, kSizeofChunkHeader in *. split_and!; [set_solver|lia..].
  - case_match eqn:Hb; [|done]. rewrite !andb_true_iff, !Z.leb_le in Hb.
    destruct Hb as [H0 H1]. eapply Hgo, Hr. cbn [safe]. right. split; [|done].
    exists o. unfold chunk_end, kSizeofChunkHeader in *. split_and!; [set_solver|lia..].
  - case_decide; [|done]. eapply Hgo, Hr. eapply safe_ODone, safe_update_packets; [done|set_solver|done].
  - case_decide; [|done]. eapply Hgo, Hr.
    eapply (safe_ODone _ _ (fun _ => 0)), safe_update_packets; [done|set_solver|done].
  - case_decide; [|done]. eapply Hgo, Hr.
    eapply (safe_ODone _ _ (fun _ => 0)), safe_update_packets; [done|set_solver|done].
  - destruct (page_arg_ok a page_idx) eqn:Hp; [|done]. apply page_arg_ok_range in Hp.
    eapply Hgo, Hr. by eapply safe_ODone, safe_GetPageLayout.
Qed.

Lemma page_addr_offset p addr : page_addr a p addr -> offset_of a addr = Some (Z.to_nat (page_size_ a * p)).
Proof.
  intros [Hp ->]. pose proof (wf_page_range a Ha). unfold offset_of, kMinPageSize in *.
  rewrite (proj2 (Z.leb_le _ _)) by nia. do 2 f_equal. lia.
Qed.

Lemma page_addr_read m p addr :
  Z.of_nat (length m) = size_ a -> page_addr a p addr ->
  mem_read m (Z.to_nat (page_size_ a * p)) 4 = Some (take 4 (drop (Z.to_nat (page_size_ a * p)) m)).
Proof.
  intros Hm [Hp _]. pose proof (wf_page_range a Ha). pose proof (wf_size a Ha). unfold kMinPageSize in *.
  apply mem_read_some. nia.
Qed.

Lemma in_owned_offset m l all addr n :
  owns_inv a m all -> l ⊆ all -> in_owned a l addr n ->
  offset_of a addr = Some (Z.to_nat (addr - start_ a)) /\ (Z.to_nat (addr - start_ a) + n <= length m)%nat.
Proof.
  intros [Hm _ _ _ Hst _] Hl (o & Ho & H1 & H2). rewrite Forall_forall in Hst.
  pose proof (own_in_page_body a Ha o addr (Z.of_nat n) (Hst o (Hl o Ho)) H1 H2) as (Hp & H3 & H4).
  pose proof (wf_page_range a Ha). pose proof (wf_size a Ha). unfold kMinPageSize, kSizeofPageHeader in *.
  unfold offset_of. rewrite (proj2 (Z.leb_le _ _)) by nia. split; [done|nia].
Qed.

(** Another thread's chunk: its octets are left alone. *)
Definition untouched (m m' : list Z) (l : list Own) : Prop :=
  forall o, o ∈ l -> chunk_octets a m' (own_chunk a o) = chunk_octets a m (own_chunk a o).

Lemma possible_now m l R p :
  owns_inv a m (l ++ R) -> 0 <= p < num_pages_ a -> possible a l p (page_word a m p).
Proof.
  intros [_ _ Hw _ Hst Hok] Hp. split; [auto|]. rewrite !Forall_app in *. destruct Hst as [Hst _], Hok as [Hok _].
  rewrite Forall_forall in *. intros o Ho. split; [auto|]. intros <-. auto.
Qed.

Lemma store_untouched m l R addr octets :
  owns_inv a m (l ++ R) -> in_owned a l addr (length octets) ->
  untouched m (buf_write m (Z.to_nat (addr - start_ a)) octets) R.
Proof.
  intros Hinv (o & Ho & H1 & H2) o' Ho'. pose proof Hinv as [Hm _ _ Hnd Hst _]. rewrite Forall_forall in Hst.
  assert (Hin : o ∈ l ++ R) by set_solver. assert (Hin' : o' ∈ l ++ R) by set_solver.
  pose proof (own_in_page_body a Ha o addr _ (Hst o Hin) H1 H2) as (Hp & H3 & H4).
  assert (Hk : ow_key o <> ow_key o').
  { intros Hk. rewrite fmap_app in Hnd. apply NoDup_app in Hnd as (_ & Hd & _).
    apply (Hd (ow_key o)); [by apply list_elem_of_fmap_2|]. rewrite Hk. by apply list_elem_of_fmap_2. }
  pose proof (wf_page_range a Ha). pose proof (wf_size a Ha). unfold kMinPageSize, kSizeofPageHeader in *.
  apply chunk_octets_frame; auto; [nia..|].
  destruct (owns_disjoint a Ha m _ o o' Hinv Hin Hin' Hk); [left|right]; lia.
Qed.

Lemma thread_step_inv m th r hos ex R :
  thread_inv th hos ex -> owns_inv a m (ex ++ hos ++ R) ->
  exists m' th' hos' ex', thread_step a m th r = Some (m', th') /\ thread_inv th' hos' ex' /\
    owns_inv a m' (ex' ++ hos' ++ R) /\ untouched m m' R.
Proof.
  intros [Hc Hp] Hinv. pose proof Hinv as [Hm Hb Hw _ Hst _]. unfold thread_step.
  assert (Hinv' : owns_inv a m ((ex ++ hos) ++ R)) by (by rewrite <- app_assoc).
  destruct (th_prog th) as [p|] eqn:Hth; [pose proof (settle_not_dfatal p) as Hnd; apply safe_settle in Hp;
    destruct (settle p) as [nf [o|addr n k|addr l k|addr e d k|k|]]; cbn [snd] in Hp, Hnd|].
  - cbn [safe] in Hp. eexists m, (finish _ o).
    destruct o as [s c|v]; cbn [finish outcome_ok] in *; [|by exists hos, ex].
    destruct Hp as [->|(o & ex' & -> & Hh)]; [by exists hos, ex|].
    destruct (is_valid c); [|by exists hos, (o :: ex')].
    exists (o :: hos), ex'. split_and!; [done| |..].
    + split; cbn [th_chunks th_prog]; [by rewrite fmap_cons, Hc, Hh|done].
    + revert Hinv. cbn [app]. by rewrite Permutation_middle.
    + done.
  - cbn [safe] in Hp. destruct Hp as [(pg & Hpg & -> & Hk)|[Ho Hk]].
    + rewrite (page_addr_offset pg addr Hpg). cbn [mbind option_bind]. rewrite (page_addr_read m pg addr Hm Hpg).
      cbn [mbind option_bind]. fold (page_word a m pg). eexists _, _, hos, ex.
      split_and!; [done|split; [done|]|done|done]. cbn [th_prog]. apply Hk. eapply possible_now, Hpg. exact Hinv'.
    + destruct (in_owned_offset m _ _ _ _ Hinv' (list_subseteq_app_l _ _ _ (reflexivity _)) Ho) as [-> Hlen].
      cbn [mbind option_bind]. rewrite mem_read_some by done. eexists _, _, hos, ex. split_and!; [done|split; [done|]|done|done].
      apply Hk.
  - cbn [safe] in Hp. destruct Hp as (Hl & Ho & Hk).
    destruct (in_owned_offset m _ _ _ _ Hinv' (list_subseteq_app_l _ _ _ (reflexivity _)) Ho) as [-> Hlen].
    cbn [mbind option_bind]. rewrite mem_write_some by done. cbn [mbind option_bind].
    eexists _, _, hos, ex. split_and!; [done|by split| |by eapply store_untouched].
    destruct Ho as (o & Ho & H1 & H2). eapply owns_inv_store; [done..| |exact H1|exact H2|exact Hl].
    apply elem_of_app in Ho. set_solver.
  - cbn [safe] in Hp. destruct Hp as (pg & Hpg & Hf & Ht).
    rewrite (page_addr_offset pg addr Hpg). cbn [mbind option_bind]. rewrite (page_addr_read m pg addr Hm Hpg).
    cbn [mbind option_bind]. fold (page_word a m pg).
    destruct (Z.eqb_spec (page_word a m pg) e) as [<-|Hne]; [|by eexists _, _, hos, ex; split_and!].
    destruct Ht as (ex' & Hs & Hk). { eapply possible_now, Hpg. exact Hinv'. }
    assert (Hlen : (Z.to_nat (page_size_ a * pg) + 4 <= length m)%nat).
    { destruct Hpg as [Hpg _]. pose proof (wf_page_range a Ha). pose proof (wf_size a Ha). unfold kMinPageSize in *. nia. }
    rewrite mem_write_some by (by rewrite length_le_bytes). cbn [mbind option_bind].
    eexists _, _, hos, ex'. split_and!; [done|by split| |].
    + eapply owns_inv_word_step; [done..|apply Hpg|exact Hs].
    + intros o Ho. apply chunk_octets_word; [done..| |apply Hpg]. rewrite Forall_forall in Hst. apply Hst. set_solver.
  - by destruct (Hnd k).
  - done.
  - destruct (start_request a th r) as [th'|] eqn:Hr; cbn [default from_option id].
    + destruct (start_request_inv th r th' hos ex) as (hos' & ex' & Hi & Hperm); [|split; [done|by rewrite Hth]|done|].
      { rewrite !Forall_app in Hst. apply Hst. }
      exists m, th', hos', ex'. split_and!; try done. revert Hinv'. by rewrite app_assoc, Hperm.
    + exists m, th, hos, ex. split_and!; try done. split; [done|]. by rewrite Hth.
Qed.

(** *** Systems *)

Definition owned (g : list Own * list Own) : list Own := g.2 ++ g.1.

Definition sys_inv_with (s : System) (gs : list (list Own * list Own)) : Prop :=
  Forall2 (fun th g => thread_inv th g.1 g.2) s.2 gs /\ owns_inv a s.1 (gs ≫= owned).

Lemma owned_split (gs : list (list Own * list Own)) t g :
  gs !! t = Some g -> gs ≫= owned ≡ₚ owned g ++ (delete t gs ≫= owned).
Proof. intros H. by rewrite (delete_Permutation gs t g H) at 1. Qed.

Lemma owned_insert (gs : list (list Own * list Own)) t g g' :
  gs !! t = Some g -> <[t := g']> gs ≫= owned ≡ₚ owned g' ++ (delete t gs ≫= owned).
Proof.
  intros H. rewrite insert_take_drop by (by eapply lookup_lt_Some).
  by rewrite <- Permutation_middle, delete_take_drop.
Qed.

Lemma system_step_inv s t r gs :
  sys_inv_with s gs ->
  exists s' g', system_step a s t r = Some s' /\ sys_inv_with s' (<[t := g']> gs) /\
    untouched s.1 s'.1 (delete t gs ≫= owned) /\ (forall t', t' <> t -> s'.2 !! t' = s.2 !! t').
Proof.
  intros [Hth Hinv]. destruct s as [m ths]. cbn [fst snd] in *. unfold system_step. cbn [fst snd].
  destruct (ths !! t) as [th|] eqn:Ht.
  - destruct (Forall2_lookup_l _ _ _ _ _ Hth Ht) as ([hos ex] & Hg & Hti).
    destruct (thread_step_inv m th r hos ex (delete t gs ≫= owned) Hti) as (m' & th' & hos' & ex' & -> & Hti' & Hinv' & Hu).
    { rewrite (owned_split gs t _ Hg) in Hinv. by rewrite app_assoc. }
    cbn [mbind option_bind]. exists (m', <[t := th']> ths), (hos', ex'). split_and!; [done| |done|].
    + split; cbn [fst snd].
      * by apply Forall2_insert.
      * rewrite (owned_insert gs t _ (hos', ex') Hg). unfold owned at 1. cbn [fst snd]. by rewrite <- app_assoc.
    + intros t' Hne. cbn [snd]. by rewrite list_lookup_insert_ne.
  - exists (m, ths), ([], []). split_and!; try done.
    assert (Hge : gs !! t = None) by (apply lookup_ge_None in Ht; apply lookup_ge_None; by rewrite <- (Forall2_length _ _ _ Hth)).
    by rewrite list_insert_ge by (by apply lookup_ge_None).
Qed.

Lemma run_schedule_inv sched : forall s gs,
  sys_inv_with s gs -> exists s' gs', run_schedule a s sched = Some s' /\ sys_inv_with s' gs'.
Proof.
  induction sched as [|[t r] sched IH]; intros s gs Hs; cbn [run_schedule]; [by exists s, gs|].
  destruct (system_step_inv s t r gs Hs) as (s' & g' & -> & Hs' & _). cbn [mbind option_bind]. eauto.
Qed.

Lemma initial_system_inv n : sys_inv_with (initial_system a n) (replicate n ([], [])).
Proof.
  split; cbn [fst snd initial_system].
  - induction n; constructor; [by split|done].
  - assert (Hnil : replicate n ([] : list Own, [] : list Own) ≫= owned = []) by (by induction n).
    rewrite Hnil. pose proof (wf_size a Ha). pose proof (wf_pages a Ha). pose proof (wf_page_range a Ha).
    constructor; try (by constructor).
    + rewrite length_replicate. unfold kMinPageSize in *. nia.
    + apply Forall_replicate. by unfold is_u8.
    + intros p Hp. unfold page_word. unfold kMinPageSize in *. rewrite drop_replicate, take_replicate.
      rewrite Nat.min_l by nia. apply page_wf_0.
Qed.

(** Thread [t] holds the chunk [c], acquired for [s], at position [n]. *)
Definition holds (ths : list Thread) (t n : nat) (s : ChunkState) (c : Chunk) : Prop :=
  exists th, ths !! t = Some th /\ th_chunks th !! n = Some (s, c).

Lemma holds_own s gs t n st c :
  sys_inv_with s gs -> holds s.2 t n st c ->
  exists g o, gs !! t = Some g /\ g.1 !! n = Some o /\ st = ow_state o /\ c = own_chunk a o.
Proof.
  intros [Hth _] (th & Ht & Hn). destruct (Forall2_lookup_l _ _ _ _ _ Hth Ht) as (g & Hg & Hc & _).
  rewrite Hc in Hn. apply handle_lookup in Hn as (o & Ho & -> & ->). eauto 6.
Qed.

Lemma own_in_all gs t (g : list Own * list Own) n o :
  gs !! t = Some g -> g.1 !! n = Some o -> o ∈ gs ≫= owned.
Proof.
  intros Hg Hn. apply list_elem_of_bind. exists g. split; [|by eapply list_elem_of_lookup_2].
  unfold owned. apply elem_of_app. right. by eapply list_elem_of_lookup_2.
Qed.

(** Two positions name two chunks. *)
Lemma owns_distinct s gs t g n o t' g' n' o' :
  sys_inv_with s gs -> gs !! t = Some g -> g.1 !! n = Some o -> gs !! t' = Some g' -> g'.1 !! n' = Some o' ->
  (t, n) <> (t', n') -> ow_key o <> ow_key o'.
Proof.
  intros [_ [_ _ _ Hnd _ _]] Hg Hn Hg' Hn' Hne Hk. rewrite (owned_split gs t g Hg) in Hnd.
  rewrite fmap_app in Hnd. unfold owned in Hnd at 1. rewrite fmap_app in Hnd.
  apply NoDup_app in Hnd as (Hnd & Hd & _). apply NoDup_app in Hnd as (_ & _ & Hnd).
  destruct (decide (t' = t)) as [->|Ht].
  - rewrite Hg in Hg'. injection Hg' as <-.
    assert (n = n'); [|congruence].
    eapply (NoDup_lookup _ _ _ (ow_key o) Hnd); rewrite list_lookup_fmap, ?Hn, ?Hn'; cbn; congruence.
  - apply (Hd (ow_key o)).
    + apply elem_of_app. right. apply list_elem_of_fmap_2. by eapply list_elem_of_lookup_2.
    + rewrite Hk. apply list_elem_of_fmap_2. apply list_elem_of_bind. exists g'. split.
      * unfold owned. apply elem_of_app. right. by eapply list_elem_of_lookup_2.
      * assert (Hp := delete_Permutation gs t g Hg). assert (Hin : g' ∈ gs) by (by eapply list_elem_of_lookup_2).
        apply list_elem_of_lookup. destruct (decide (t' < t)%nat).
        -- exists t'. by rewrite list_lookup_delete_lt.
        -- exists (t' - 1)%nat. rewrite list_lookup_delete_ge by lia. by replace (S (t' - 1)) with t' by lia.
Qed.

(** A held chunk is a chunk of the layout its page has now, in the state in
    which it was acquired. *)
Definition held_in_page (m : list Z) (s : ChunkState) (c : Chunk) : Prop :=
  exists p i, 0 <= p < num_pages_ a /\ 0 <= i < GetNumChunksForLayout (page_word a m p) /\
    GetChunkUnchecked a p (page_word a m p) i = Some c /\
    GetChunkStateFromLayout (page_word a m p) i = state_val s.

Lemma own_held m all o :
  owns_inv a m all -> o ∈ all -> held_in_page m (ow_state o) (own_chunk a o).
Proof.
  intros [_ _ _ _ Hst Hok] Ho. rewrite Forall_forall in Hst, Hok.
  pose proof (Hst o Ho) as (Hp & Hi & _). destruct (Hok o Ho) as [Hl Hs].
  exists (ow_page o), (ow_idx o). rewrite (num_chunks_eq _ _ Hl). split_and!; try done; try lia.
  rewrite GetChunkUnchecked_some; [|done..|by rewrite (num_chunks_eq _ _ Hl)].
  unfold own_chunk, chunk_at. by rewrite (chunk_size_eq a _ _ Hl).
Qed.

Definition exclusive (s : System) : Prop :=
  (forall p, 0 <= p < num_pages_ a -> page_wf (page_word a s.1 p)) /\
  (forall t n st c, holds s.2 t n st c -> held_in_page s.1 st c) /\
  (forall t n st c t' n' st' c', holds s.2 t n st c -> holds s.2 t' n' st' c' -> (t, n) <> (t', n') ->
     chunk_end c <= chunk_begin c' \/ chunk_end c' <= chunk_begin c).

Lemma sys_inv_exclusive s gs : sys_inv_with s gs -> exclusive s.
Proof.
  intros Hs. pose proof Hs as [_ Hinv]. split_and!; [apply Hinv|..].
  - intros t n st c (g & o & Hg & Ho & -> & ->)%(holds_own s gs); [|done].
    eapply own_held; [done|]. by eapply own_in_all.
  - intros t n st c t' n' st' c' (g & o & Hg & Ho & -> & ->)%(holds_own s gs)
      (g' & o' & Hg' & Ho' & -> & ->)%(holds_own s gs) Hne; [|done..].
    apply (owns_disjoint a Ha s.1 _ o o' Hinv).
    1, 2: by eapply own_in_all; cycle 1.
    by eapply (owns_distinct s gs t g n o t' g' n' o').
Qed.

(** Steps of the other threads. *)
Lemma run_others sched : forall s gs t,
  sys_inv_with s gs -> Forall (fun x => x.1 <> t) sched ->
  exists s' gs', run_schedule a s sched = Some s' /\ sys_inv_with s' gs' /\
    gs' !! t = gs !! t /\ s'.2 !! t = s.2 !! t /\
    (forall g, gs !! t = Some g -> untouched s.1 s'.1 (owned g)).
Proof.
  induction sched as [|[t' r] sched IH]; intros s gs t Hs Hne; cbn [run_schedule].
  { exists s, gs. split_and!; done. }
  apply Forall_cons in Hne as [Hne Hrest]. cbn [fst] in Hne.
  destruct (system_step_inv s t' r gs Hs) as (s1 & g1 & -> & Hs1 & Hu & Hk). cbn [mbind option_bind].
  destruct (IH s1 _ t Hs1 Hrest) as (s' & gs' & Hrun & Hs' & Hg & Ht & Hu').
  exists s', gs'. rewrite list_lookup_insert_ne in Hg, Hu' by done.
  split_and!; try done; [rewrite Ht; by apply Hk|].
  intros g Hgt o Ho. rewrite (Hu' g Hgt o Ho). apply Hu.
  apply list_elem_of_bind. exists g. split; [done|]. apply list_elem_of_lookup. destruct (decide (t < t')%nat).
  - exists t. by rewrite list_lookup_delete_lt.
  - exists (t - 1)%nat. rewrite list_lookup_delete_ge by lia. by replace (S (t - 1)) with t by lia.
Qed.

End System.

(** ** Operations take a bounded number of steps *)

Fixpoint accesses_le {A} (n : nat) (p : Prog A) {struct p} : Prop :=
  match p with
  | Ret _ | Crash => True
  | Load _ _ k => match n with O => False | S n => forall v, accesses_le n (k v) end
  | Store _ _ k => match n with O => False | S n => accesses_le n k end
  | Cas _ _ _ k => match n with O => False | S n => forall ok, accesses_le n (k ok) end
  | Dfatal k => accesses_le n k
  end.

Lemma accesses_le_settle {A} (p : Prog A) n : accesses_le n p -> accesses_le n (settle p).2.
Proof.
  induction p as [x|addr l k IH|addr l k IH|addr e d k IH|k IH|]; intros H; try done.
  cbn [settle]. destruct (settle k). by apply IH.
Qed.

Lemma accesses_le_mono {A} (p : Prog A) : forall n n', (n <= n')%nat -> accesses_le n p -> accesses_le n' p.
Proof.
  induction p as [x|addr l k IH|addr l k IH|addr e d k IH|k IH|]; intros [|n] [|n'] Hle H; cbn [accesses_le] in *; try done; try lia.
  - intros v. eapply IH, H. lia.
  - eapply IH, H. lia.
  - intros v. eapply IH, H. lia.
  - by apply (IH 0%nat); [lia|].
  - by apply (IH (S n)).
Qed.

Lemma accesses_le_bind {A B} (p : Prog A) (f : A -> Prog B) n' : forall n,
  accesses_le n p -> (forall x, accesses_le n' (f x)) -> accesses_le (n + n') (pbind p f).
Proof.
  induction p as [x|addr l k IH|addr l k IH|addr e d k IH|k IH|]; intros [|n] H Hf; cbn [pbind accesses_le Nat.add] in *; try done.
  - by apply (accesses_le_mono (f x) n'); [lia|].
  - intros v. by apply IH.
  - by apply IH.
  - intros v. by apply IH.
  - by apply (IH 0%nat).
  - by apply (IH (S n)).
Qed.

Lemma accesses_le_lift {A B} (x : option A) (f : A -> Prog B) n :
  (forall y, accesses_le n (f y)) -> accesses_le n (lift x f).
Proof. intros H. by destruct x; cbn. Qed.

Lemma acquire_loop_bounded n a phdr p i s h : accesses_le (2 * n + 3) (acquire_loop n a phdr p i s h).
Proof.
  induction n as [|n IH]; cbn [acquire_loop]; [done|].
  replace (2 * S n + 3)%nat with (S (S (2 * n + 3))) by lia. cbn [accesses_le]. intros w.
  case_match; [done|]. case_match; [done|]. cbn [accesses_le]. intros [|]; [|done].
  apply accesses_le_lift. intros c. case_decide; [|done]. apply accesses_le_lift. intros h'.
  replace (2 * n + 3)%nat with (3 + 2 * n)%nat by lia. by apply accesses_le_bind.
Qed.

Lemma release_loop_bounded n a c phdr p i s : accesses_le (2 * n) (release_loop n a c phdr p i s).
Proof.
  induction n as [|n IH]; cbn [release_loop]; [done|].
  replace (2 * S n)%nat with (S (S (2 * n))) by lia. cbn [accesses_le]. intros w.
  case_match; [|done]. case_match; [|done]. cbn [accesses_le]. by intros [|].
Qed.

(** The longest operation: a release that clears the header and loses all
    its attempts. *)
Definition kMaxAccesses : nat := 132.

Lemma TryAcquireChunk_bounded a p i s h : accesses_le kMaxAccesses (TryAcquireChunk a p i s h).
Proof.
  unfold TryAcquireChunk. case_match; [|done]. apply accesses_le_lift. intros phdr.
  eapply accesses_le_mono, acquire_loop_bounded. unfold kMaxAccesses, kRetryAttempts. lia.
Qed.

Lemma ReleaseChunk_bounded a c s : accesses_le kMaxAccesses (ReleaseChunk a c s).
Proof.
  unfold ReleaseChunk. case_match; [|done]. change kMaxAccesses with (1 + (3 + 2 * kRetryAttempts))%nat.
  apply accesses_le_bind.
  - apply accesses_le_lift. intros [p i]. change 1%nat with (1 + 0)%nat. apply accesses_le_bind.
    + by apply accesses_le_lift.
    + intros w. by case_match.
  - intros [p i]. apply accesses_le_bind; [destruct (decide (s = kChunkFree)); exact I|]. intros _. apply accesses_le_lift. intros phdr.
    apply release_loop_bounded.
Qed.

Definition busy_le (n : nat) (th : Thread) : Prop :=
  match th_prog th with None => True | Some p => accesses_le n p end.

Lemma accesses_le_ret {A B} (p : Prog A) (f : A -> B) n :
  accesses_le n p -> accesses_le n (pbind p (fun x => Ret (f x))).
Proof. intros H. rewrite <- (Nat.add_0_r n). by apply accesses_le_bind. Qed.

Lemma start_request_bounded a th r th' : start_request a th r = Some th' -> busy_le kMaxAccesses th'.
Proof.
  intros H.
  assert (Hgo : forall p cs nf, accesses_le kMaxAccesses p ->
    Some (mkThread (Some p) cs nf) = Some th' -> busy_le kMaxAccesses th') by (by intros p cs nf Hp [= <-]).
  destruct r; cbn [start_request] in H;
    try (destruct (th_chunks th !! n) as [[s c]|]; [|done]; cbn [mbind option_bind] in H);
    try (case_match; [|done]); eapply Hgo, H; try done; try apply accesses_le_ret; try done.
  - unfold TryPartitionPage. case_match; [|done]. by apply accesses_le_lift.
  - apply TryAcquireChunk_bounded.
  - apply TryAcquireChunk_bounded.
  - apply ReleaseChunk_bounded.
  - by apply accesses_le_lift.
Qed.

Lemma thread_step_bounded a m th r m' th' n :
  thread_step a m th r = Some (m', th') -> th_prog th <> None -> busy_le (S n) th ->
  th_prog th' = None \/ busy_le n th'.
Proof.
  intros H Hb Hn. unfold thread_step, busy_le in *.
  destruct (th_prog th) as [p|]; [|done]. apply accesses_le_settle in Hn.
  destruct (settle p) as [nf [o|addr l k|addr l k|addr e d k|k|]]; cbn [snd accesses_le] in Hn; try done.
  - injection H as <- <-. left. by destruct o.
  - right. simplify_option_eq. apply Hn.
  - right. simplify_option_eq. apply Hn.
  - right. simplify_option_eq. destruct (_ =? e); simplify_option_eq; apply Hn.
Qed.

Lemma thread_step_busy a m th r m' th' :
  thread_step a m th r = Some (m', th') -> busy_le kMaxAccesses th -> busy_le kMaxAccesses th'.
Proof.
  intros H Hn. destruct (th_prog th) as [p|] eqn:Hp.
  - destruct (thread_step_bounded a m th r m' th' (kMaxAccesses - 1) H) as [Hd|Hd].
    + by rewrite Hp.
    + done.
    + unfold busy_le. by rewrite Hd.
    + unfold busy_le in *. destruct (th_prog th'); [|done]. eapply accesses_le_mono, Hd. lia.
  - unfold thread_step in H. rewrite Hp in H. injection H as <- <-.
    destruct (start_request a th r) eqn:Hs; cbn [from_option id]; [by eapply start_request_bounded|done].
Qed.

Lemma run_schedule_busy a sched : forall s s',
  run_schedule a s sched = Some s' -> Forall (busy_le kMaxAccesses) s.2 -> Forall (busy_le kMaxAccesses) s'.2.
Proof.
  induction sched as [|[t r] sched IH]; intros s s' H Hb; cbn [run_schedule] in H; [by injection H as <-|].
  unfold system_step in H. destruct (s.2 !! t) as [th|] eqn:Ht; [|by eapply IH].
  destruct (thread_step a s.1 th r) as [[m1 th1]|] eqn:Hs; [|done]. cbn [mbind option_bind] in H.
  eapply IH; [exact H|]. cbn [snd]. apply Forall_insert; [done|].
  eapply thread_step_busy; [done|]. by eapply Forall_lookup_1.
Qed.

Lemma run_schedule_length a sched : forall s s',
  run_schedule a s sched = Some s' -> length s.2 = length s'.2.
Proof.
  induction sched as [|[t r] sched IH]; intros s s' H; cbn [run_schedule] in H; [by injection H as <-|].
  unfold system_step in H. destruct (s.2 !! t) as [th|]; [|by apply IH].
  destruct (thread_step a s.1 th r) as [[m1 th1]|]; [|done]. cbn [mbind option_bind] in H.
  apply IH in H. cbn [snd] in H. by rewrite length_insert in H.
Qed.

(** A thread that is given enough steps finishes what it is doing. *)
Lemma run_until_idle a (Ha : abi_wf a) (He : use_shmem_emulation_ a = false) sched t : forall n s gs th,
  sys_inv_with a s gs -> s.2 !! t = Some th -> busy_le n th ->
  (n < length (filter (fun x => x.1 = t) sched))%nat ->
  exists pre post s' th', sched = pre ++ post /\ run_schedule a s pre = Some s' /\
    s'.2 !! t = Some th' /\ th_prog th' = None.
Proof.
  induction sched as [|[t' r] sched IH]; intros n s gs th Hs Ht Hb Hn; [cbn in Hn; lia|].
  destruct (th_prog th) as [p|] eqn:Hp; [|by exists [], ((t', r) :: sched), s, th].
  destruct (system_step_inv a Ha He s t' r gs Hs) as (s1 & g1 & Hstep & Hs1 & _ & Hk).
  assert (Hnext : forall n1 th1, s1.2 !! t = Some th1 -> busy_le n1 th1 ->
    (n1 < length (filter (fun x => x.1 = t) sched))%nat ->
    exists pre post s' th', (t', r) :: sched = pre ++ post /\ run_schedule a s pre = Some s' /\
      s'.2 !! t = Some th' /\ th_prog th' = None).
  { intros n1 th1 H1 H2 H3. destruct (IH n1 s1 _ th1 Hs1 H1 H2 H3) as (pre & post & s' & th' & -> & Hr & H4 & H5).
    exists ((t', r) :: pre), post, s', th'. split_and!; try done. cbn [run_schedule]. by rewrite Hstep. }
  destruct (decide (t' = t)) as [->|Hne].
  - rewrite filter_cons_True in Hn by done. cbn [length] in Hn.
    unfold system_step in Hstep. rewrite Ht in Hstep.
    destruct (thread_step a s.1 th r) as [[m1 th1]|] eqn:Hts; [|done]. injection Hstep as <-. cbn [snd] in *.
    assert (Hl : <[t := th1]> s.2 !! t = Some th1) by (apply list_lookup_insert_eq; by eapply lookup_lt_Some).
    destruct n as [|n].
    + exists [(t, r)], sched, (m1, <[t := th1]> s.2), th1. split_and!; try done.
      * cbn [run_schedule]. unfold system_step. rewrite Ht, Hts. done.
      * unfold busy_le in Hb. rewrite Hp in Hb. unfold thread_step in Hts. rewrite Hp in Hts.
        apply accesses_le_settle in Hb. destruct (settle p) as [nf q]. cbn [snd] in Hb.
        destruct q; try done. injection Hts as <- <-. by destruct a0.
    + destruct (thread_step_bounded a s.1 th r m1 th1 n Hts) as [Hd|Hd]; [by rewrite Hp|done|..].
      * exists [(t, r)], sched, (m1, <[t := th1]> s.2), th1. split_and!; try done.
        cbn [run_schedule]. unfold system_step. rewrite Ht, Hts. done.
      * apply (Hnext n th1); [done..|lia].
  - rewrite filter_cons_False in Hn by done. apply (Hnext n th); [by rewrite Hk|done..].
Qed.

(** ** Contention

    A [DEJAVIEW_DFATAL] comes after 64 compare-and-swaps that failed, each with
    the value the thread had loaded just before. Such a failure needs a step of
    another thread in between: contention that goes on cannot be the doing of
    one thread. *)

(** The word at an address. *)
Definition word_at (a : SharedMemoryABI) (m : list Z) (addr : Z) : option Z :=
  off ← offset_of a addr;
  octets ← mem_read m off 4;
  Some (le_val octets).

(** [lost f last p]: before it meets a [Dfatal], the program [p] fails at least
    [f] compare-and-swaps against the value it loaded in its previous access;
    [last] is the address and the value of the access before [p]. *)
Fixpoint lost {A} (f : nat) (last : option (Z * Z)) (p : Prog A) {struct p} : Prop :=
  match p with
  | Ret _ | Crash => True
  | Load addr n k => forall v, lost f (if decide (n = 4%nat) then Some (addr, v) else None) (k v)
  | Store _ _ k => lost f None k
  | Cas addr e _ k =>
      lost f None (k true) /\ lost (if decide (last = Some (addr, e)) then pred f else f) None (k false)
  | Dfatal k => f = 0%nat /\ lost kRetryAttempts None k
  end.

Fixpoint quiet {A} (p : Prog A) {struct p} : Prop :=
  match p with
  | Ret _ | Crash => True
  | Load _ _ k => forall v, quiet (k v)
  | Store _ _ k => quiet k
  | Cas _ _ _ _ | Dfatal _ => False
  end.

Fixpoint no_dfatal {A} (p : Prog A) {struct p} : Prop :=
  match p with
  | Ret _ | Crash => True
  | Load _ _ k => forall v, no_dfatal (k v)
  | Store _ _ k => no_dfatal k
  | Cas _ _ _ k => forall ok, no_dfatal (k ok)
  | Dfatal _ => False
  end.

Lemma no_dfatal_bind {A B} (p : Prog A) (g : A -> Prog B) :
  no_dfatal p -> (forall x, no_dfatal (g x)) -> no_dfatal (pbind p g).
Proof. induction p; cbn [no_dfatal pbind]; auto. Qed.

Lemma no_dfatal_lift {A B} (x : option A) (g : A -> Prog B) : (forall y, no_dfatal (g y)) -> no_dfatal (lift x g).
Proof. by destruct x; cbn. Qed.

Lemma no_dfatal_lost {A} (p : Prog A) : forall f last, no_dfatal p -> lost f last p.
Proof. induction p; intros f last H0; cbn [no_dfatal lost] in *; auto; done. Qed.

Lemma lost_bind {A B} f (p : Prog A) (g : A -> Prog B) : forall last,
  quiet p -> (forall x last, lost f last (g x)) -> lost f last (pbind p g).
Proof. induction p; intros last Hq Hg; cbn [quiet lost pbind] in *; auto; done. Qed.

Lemma lost_ret {A B} (g : A -> B) (p : Prog A) : forall f last,
  lost f last p -> lost f last (pbind p (fun x => Ret (g x))).
Proof. induction p; intros f last Hl; cbn [lost pbind] in *; try done; naive_solver. Qed.

Lemma lost_lift {A B} f last (x : option A) (g : A -> Prog B) :
  (forall y, lost f last (g y)) -> lost f last (lift x g).
Proof. by destruct x; cbn. Qed.

Lemma release_loop_lost n a c phdr p i s : forall last, lost n last (release_loop n a c phdr p i s).
Proof.
  induction n as [|n IH]; intros last; cbn [release_loop]; [done|].
  intros v. destruct (chunk_size c =? _); [|done]. destruct (_ =? state_val _); [|done].
  split; [done|]. rewrite decide_True by (by rewrite decide_True). apply IH.
Qed.

Lemma ReleaseChunk_lost a c s last : lost kRetryAttempts last (ReleaseChunk a c s).
Proof.
  unfold ReleaseChunk. case_match; [|done]. apply lost_bind.
  - unfold GetPageAndChunkIndex. destruct (page_and_chunk_index a c) as [[p i]|]; [|done].
    unfold GetPageLayout. cbn [lift]. destruct (page_start a p); [|done]. cbn [lift pbind quiet]. intros v. by case_match.
  - intros [p i] last'. apply lost_bind; [by destruct (decide (s = kChunkFree))|]. intros _ last''.
    apply lost_lift. intros phdr. apply release_loop_lost.
Qed.

Lemma acquire_loop_no_dfatal n a phdr p i s h : no_dfatal (acquire_loop n a phdr p i s h).
Proof.
  induction n as [|n IH]; cbn [acquire_loop no_dfatal]; [done|]. intros w.
  case_match; [done|]. case_match; [done|]. intros [|]; [|done].
  apply no_dfatal_lift. intros c. case_decide; [|done]. by apply no_dfatal_lift.
Qed.

Lemma TryAcquireChunk_no_dfatal a p i s h : no_dfatal (TryAcquireChunk a p i s h).
Proof.
  unfold TryAcquireChunk. case_match; [|done]. apply no_dfatal_lift. intros phdr. apply acquire_loop_no_dfatal.
Qed.

(** 1 when another thread has changed the word since it was loaded. *)
Definition stale (a : SharedMemoryABI) (m : list Z) (last : option (Z * Z)) : nat :=
  match last with
  | Some (addr, v) => if decide (word_at a m addr = Some v) then 0 else 1
  | None => 0
  end.

(** After [others] steps of other threads. *)
Definition contended (a : SharedMemoryABI) (m : list Z) (others : nat) (th : Thread) : Prop :=
  exists f last, (f <= kRetryAttempts)%nat /\
    match th_prog th with None => True | Some p => lost f last p end /\
    (kRetryAttempts * th_dfatals th + (kRetryAttempts - f) + stale a m last <= others)%nat.

Definition starts (th th' : Thread) : Prop :=
  th_dfatals th' = th_dfatals th /\ match th_prog th' with None => True | Some p => lost kRetryAttempts None p end.

Lemma start_request_lost a th r th' : start_request a th r = Some th' -> starts th th'.
Proof.
  intros H.
  assert (Hgo : forall p cs, lost kRetryAttempts None p -> Some (mkThread (Some p) cs (th_dfatals th)) = Some th' ->
    starts th th') by (by intros p cs Hp [= <-]).
  destruct r; cbn [start_request] in H;
    try (destruct (th_chunks th !! n) as [[s c]|]; [|done]; cbn [mbind option_bind] in H);
    try (case_match; [|done]); eapply Hgo, H; try done; try apply lost_ret; try done.
  - apply no_dfatal_lost. unfold TryPartitionPage. case_match; [|done]. by apply no_dfatal_lift.
  - apply no_dfatal_lost, TryAcquireChunk_no_dfatal.
  - apply no_dfatal_lost, TryAcquireChunk_no_dfatal.
  - apply ReleaseChunk_lost.
  - apply no_dfatal_lost. by apply no_dfatal_lift.
Qed.

Lemma lost_settle {A} (p : Prog A) : forall f last,
  (f <= kRetryAttempts)%nat -> lost f last p ->
  exists f' last', (f' <= kRetryAttempts)%nat /\ lost f' last' (settle p).2 /\ (last' = last \/ last' = None) /\
    (kRetryAttempts * (settle p).1 + (kRetryAttempts - f') <= kRetryAttempts - f)%nat.
Proof.
  induction p as [x|addr l k IH|addr l k IH|addr e d k IH|k IH|]; intros f last Hf H;
    try (exists f, last; split_and!; [done..|by left|cbn [settle fst]; lia]).
  destruct H as [-> H]. destruct (IH kRetryAttempts None) as (f' & last' & Hf' & Hl & Hlast & Hle); [lia|done|].
  cbn [settle]. destruct (settle k) as [nf q]. cbn [fst snd] in *. exists f', last'. split_and!; [done..| |lia].
  right. by destruct Hlast.
Qed.

(** A step of the thread itself. *)
Lemma contended_self a m others th r m' th' :
  contended a m others th -> thread_step a m th r = Some (m', th') -> contended a m' others th'.
Proof.
  intros (f & last & Hf & Hl & Hle) H. unfold thread_step in H. unfold contended.
  destruct (th_prog th) as [p|] eqn:Hp.
  2: { injection H as <- <-. destruct (start_request a th r) as [th1|] eqn:Hr; cbn [from_option id].
       - apply start_request_lost in Hr as [-> Hl']. exists kRetryAttempts, None. split_and!; [done..|cbn [stale]; lia].
       - exists kRetryAttempts, None. rewrite Hp. split_and!; [done..|cbn [stale]; lia]. }
  destruct (lost_settle p f last Hf Hl) as (f1 & last1 & Hf1 & Hl1 & Hlast & Hle1).
  assert (Hst : (stale a m last1 <= stale a m last)%nat) by (destruct Hlast as [->| ->]; cbn [stale]; lia).
  destruct (settle p) as [nf q]. cbn [fst snd] in *.
  assert (Hle2 : (kRetryAttempts * (th_dfatals th + nf) + (kRetryAttempts - f1) + stale a m last1 <= others)%nat) by lia.
  destruct q as [o|addr n k|addr l k|addr e d k|k|]; try done.
  - injection H as <- <-. exists kRetryAttempts, None. destruct o; cbn [finish th_prog th_dfatals stale]; split_and!; done || lia.
  - destruct (offset_of a addr) as [off|] eqn:Hoff; [|done]. cbn [mbind option_bind] in H.
    destruct (mem_read m off n) as [octets|] eqn:Hr; [|done]. injection H as <- <-.
    exists f1, (if decide (n = 4%nat) then Some (addr, le_val octets) else None). cbn [th_prog th_dfatals]. split_and!; [done|apply Hl1|].
    destruct (decide (n = 4%nat)) as [->|]; cbn [stale]; [|lia].
    rewrite decide_True; [lia|]. unfold word_at. rewrite Hoff. cbn [mbind option_bind]. by rewrite Hr.
  - destruct (offset_of a addr) as [off|] eqn:Hoff; [|done]. cbn [mbind option_bind] in H.
    destruct (mem_write m off l) as [m1|]; [|done]. injection H as <- <-.
    exists f1, None. cbn [th_prog th_dfatals stale]. split_and!; [done|apply Hl1|lia].
  - destruct Hl1 as [Ht Hfl].
    destruct (offset_of a addr) as [off|] eqn:Hoff; [|done]. cbn [mbind option_bind] in H.
    destruct (mem_read m off 4) as [octets|] eqn:Hr; [|done]. cbn [mbind option_bind] in H.
    destruct (Z.eqb_spec (le_val octets) e) as [He|He].
    + destruct (mem_write m off _) as [m1|]; [|done]. injection H as <- <-.
      exists f1, None. cbn [th_prog th_dfatals stale]. split_and!; [done..|lia].
    + injection H as <- <-. cbn [th_prog th_dfatals]. eexists _, None. split_and!; [|exact Hfl|]; case_decide as Hd; try done; [lia| |cbn [stale]; lia].
      subst last1. cbn [stale] in *. rewrite decide_False in Hle2; [lia|].
      unfold word_at. rewrite Hoff. cbn [mbind option_bind]. rewrite Hr. cbn [mbind option_bind]. congruence.
Qed.

(** A step of another thread. *)
Lemma contended_other a m m' others th : contended a m others th -> contended a m' (S others) th.
Proof.
  intros (f & last & Hf & Hl & Hle). exists f, last. split_and!; [done..|].
  assert (stale a m' last <= 1)%nat by (destruct last as [[addr v]|]; cbn [stale]; [case_decide; lia|lia]). lia.
Qed.

Lemma run_schedule_contended a sched t : forall s s' others,
  run_schedule a s sched = Some s' ->
  (forall th, s.2 !! t = Some th -> contended a s.1 others th) ->
  forall th, s'.2 !! t = Some th -> contended a s'.1 (others + length (filter (fun x => x.1 <> t) sched)) th.
Proof.
  induction sched as [|[u r] sched IH]; intros s s' others H Hc; cbn [run_schedule] in H.
  { injection H as <-. cbn [filter list_filter length]. by rewrite Nat.add_0_r. }
  unfold system_step in H. destruct (s.2 !! u) as [tu|] eqn:Hu.
  - destruct (thread_step a s.1 tu r) as [[m1 tu']|] eqn:Hst; [|done]. cbn [mbind option_bind] in H.
    destruct (decide (u = t)) as [->|Hne].
    + rewrite filter_cons_False by (cbn; auto). apply (IH _ _ _ H). cbn [fst snd]. intros th.
      rewrite list_lookup_insert_eq by (by eapply lookup_lt_Some). intros [= <-].
      eapply contended_self; [by apply Hc|done].
    + rewrite filter_cons_True by (cbn; auto). cbn [length]. rewrite Nat.add_succ_r. apply (IH _ _ (S others) H). cbn [fst snd].
      intros th. rewrite list_lookup_insert_ne by done. intros Hth. by eapply contended_other, Hc.
  - destruct (decide (u = t)) as [->|Hne].
    + rewrite filter_cons_False by (cbn; auto). by apply (IH _ _ _ H).
    + rewrite filter_cons_True by (cbn; auto). cbn [length]. rewrite Nat.add_succ_r. apply (IH _ _ (S others) H).
      intros th Hth. by eapply contended_other, Hc.
Qed.

Lemma initial_contended a n t th : (initial_system a n).2 !! t = Some th -> contended a (initial_system a n).1 0 th.
Proof.
  cbn [initial_system snd]. intros [-> _]%lookup_replicate_1. exists kRetryAttempts, None.
  cbn [idle th_prog th_dfatals stale]. split_and!; [done..|lia].
Qed.

(** ** Bitmaps of a page word *)

Lemma testbit_1_shiftl i j : 0 <= i -> 0 <= j -> Z.testbit (1 << i) j = bool_decide (i = j).
Proof.
  intros Hi Hj. rewrite Z.shiftl_1_l. destruct (decide (i = j)) as [->|Hn].
  - rewrite Z.pow2_bits_true by done. symmetry. by apply bool_decide_eq_true.
  - rewrite Z.pow2_bits_false by done. symmetry. by apply bool_decide_eq_false.
Qed.

Lemma chunk_bitmap_bit want n : forall i w res j, 0 <= i -> 0 <= j ->
  Z.testbit (chunk_bitmap want n i w res) j =
    Z.testbit res j ||
    ((i <=? j) && (j <? i + Z.of_nat n) && Bool.eqb (GetChunkStateFromLayout w (j - i) =? 0) want).
Proof.
  induction n as [|n IH]; intros i w res j Hi Hj; cbn [chunk_bitmap].
  { rewrite Z.add_0_r. destruct (Z.leb_spec i j), (Z.ltb_spec j i); try lia; by rewrite orb_false_r. }
  rewrite IH by lia. rewrite Z.lor_spec, <- orb_assoc. f_equal.
  destruct (decide (j = i)) as [->|Hne].
  - assert ((i + 1 <=? i) = false) as -> by lia. rewrite Z.leb_refl. destruct (Z.ltb_spec i (i + Z.of_nat (S n))); [|lia].
    rewrite Z.sub_diag. unfold GetChunkStateFromLayout. cbn [Z.mul]. rewrite Z.shiftr_0_r.
    change (state_val kChunkFree) with 0. cbn [andb]. rewrite orb_false_r.
    case_match; [|apply Z.bits_0]. rewrite testbit_1_shiftl by done. by apply bool_decide_eq_true.
  - assert (Hz : Z.testbit (if Bool.eqb ((w .& kChunkMask) =? state_val kChunkFree) want then 1 << i else 0) j = false).
    { case_match; [|apply Z.bits_0]. rewrite testbit_1_shiftl by done. by apply bool_decide_eq_false. }
    rewrite Hz. cbn [orb]. destruct (decide (i < j)).
    + f_equal; [destruct (Z.ltb_spec j (i + 1 + Z.of_nat n)), (Z.ltb_spec j (i + Z.of_nat (S n))); lia|].
      do 2 f_equal. unfold GetChunkStateFromLayout, kChunkShift. rewrite Z.shiftr_shiftr by lia.
      do 2 f_equal. lia.
    + assert ((i <=? j) = false) as -> by lia. assert ((i + 1 <=? j) = false) as -> by lia. done.
Qed.

(** A page whose chunk bits are all set, up to its number of chunks. *)
Lemma chunk_bits_complete w n :
  0 <= n <= 14 ->
  (forall i, 0 <= i < n -> GetChunkStateFromLayout w i = 3) <->
  (forall k, 0 <= k < 2 * n -> Z.testbit w k = true).
Proof.
  intros Hn. split.
  - intros H k Hk. assert (Hb : Z.testbit (GetChunkStateFromLayout w (k / 2)) (k mod 2) = true).
    { rewrite H by divlia. rewrite testbit_3. divlia. }
    rewrite chunk_state_bit in Hb by divlia. apply andb_true_iff in Hb as [_ Hb].
    by replace (k mod 2 + 2 * (k / 2)) with k in Hb by divlia.
  - intros H i Hi. apply Z.bits_inj'. intros k Hk. rewrite chunk_state_bit, testbit_3 by lia.
    destruct (Z.ltb_spec k 2); cbn [andb].
    + rewrite H by lia. lia.
    + by rewrite andb_false_r.
Qed.

Lemma is_page_complete_spec w :
  page_wf w ->
  is_page_complete_of_layout w = true <->
    (0 < GetNumChunksForLayout w /\
     forall i, 0 <= i < GetNumChunksForLayout w -> GetChunkStateFromLayout w i = state_val kChunkComplete).
Proof.
  intros (_ & _ & _ & _ & Hz). unfold is_page_complete_of_layout. pose proof (num_chunks_range w) as Hn.
  set (num := GetNumChunksForLayout w) in *. destruct (Z.eqb_spec num 0) as [->|H0]; [split; [done|lia]|].
  unfold kAllChunksMask, kAllChunksComplete, kChunkShift. change 0x0FFFFFFF with (Z.ones 28).
  rewrite Z.shiftl_1_l, Z.sub_1_r, <- Z.ones_equiv, Z.eqb_eq. cbn [state_val].
  rewrite chunk_bits_complete by done. split.
  - intros H. split; [lia|]. intros k Hk. apply (f_equal (fun z => Z.testbit z k)) in H.
    rewrite !Z.land_spec, !Z.testbit_ones in H by lia.
    assert ((0 <=? k) && (k <? 28) = true) as Hk1 by lia. assert ((0 <=? k) && (k <? num * 2) = true) as Hk2 by lia.
    rewrite Hk1, Hk2, andb_true_r in H. done.
  - intros [_ H]. apply Z.bits_inj'. intros k Hk. rewrite !Z.land_spec, !Z.testbit_ones by lia.
    destruct (decide (k < 2 * num)).
    + rewrite H by lia. lia.
    + assert ((0 <=? k) && (k <? num * 2) = false) as -> by lia. rewrite andb_false_r.
      destruct (decide (k < 28)).
      * assert (Hs := Hz (k / 2) ltac:(divlia)). apply (f_equal (fun z => Z.testbit z (k mod 2))) in Hs.
        rewrite chunk_state_bit, Z.bits_0 in Hs by divlia.
        replace (k mod 2 + 2 * (k / 2)) with k in Hs by divlia.
        assert (k mod 2 <? 2 = true) as Hm by divlia. rewrite Hm in Hs. cbn [andb] in Hs. by rewrite Hs.
      * assert ((0 <=? k) && (k <? 28) = false) as -> by lia. by rewrite andb_false_r.
Qed.

(** ** An operation that runs alone *)

Fixpoint exec {A} (a : SharedMemoryABI) (m : list Z) (p : Prog A) : option (list Z * A) :=
  match p with
  | Ret x => Some (m, x)
  | Load addr n k => off ← offset_of a addr; octets ← mem_read m off n; exec a m (k (le_val octets))
  | Store addr octets k => off ← offset_of a addr; m ← mem_write m off octets; exec a m k
  | Cas addr expected desired k =>
      off ← offset_of a addr;
      octets ← mem_read m off 4;
      if le_val octets =? expected then
        m ← mem_write m off (le_bytes 4 desired); exec a m (k true)
      else exec a m (k false)
  | Dfatal _ | Crash => None
  end.

(** The image of a header in memory. *)
Definition header_octets (h : ChunkHeader) : list Z :=
  le_bytes 4 (chunk_id h) ++ le_bytes 2 (writer_id h) ++ le_bytes 2 (packets_word (packets h)).

Lemma buf_write_at (x m y z : list Z) at_ :
  at_ = length x -> length z = length m -> buf_write (x ++ m ++ y) at_ z = x ++ z ++ y.
Proof.
  intros -> Hl. unfold buf_write. rewrite take_app_len, Hl, <- drop_drop, drop_app_len. by rewrite drop_app_len.
Qed.

Section Exec.
Context (a : SharedMemoryABI) (Ha : abi_wf a).

Lemma exec_bind {A B} (p : Prog A) (f : A -> Prog B) : forall m m' x,
  exec a m p = Some (m', x) -> exec a m (pbind p f) = exec a m' (f x).
Proof.
  induction p as [y|addr n k IH|addr l k IH|addr e d k IH|k IH|]; intros m m' x H; cbn [exec pbind] in *.
  - by injection H as <- <-.
  - destruct (offset_of a addr); [|done]. cbn [mbind option_bind] in *.
    destruct (mem_read m n0 n); [|done]. cbn [mbind option_bind] in *. by apply IH.
  - destruct (offset_of a addr); [|done]. cbn [mbind option_bind] in *.
    destruct (mem_write m n l); [|done]. cbn [mbind option_bind] in *. by apply IH.
  - destruct (offset_of a addr); [|done]. cbn [mbind option_bind] in *.
    destruct (mem_read m n 4); [|done]. cbn [mbind option_bind] in *.
    destruct (le_val l =? e); [|by apply IH].
    destruct (mem_write m n _); [|done]. cbn [mbind option_bind] in *. by apply IH.
  - done.
  - done.
Qed.

(** Memory of the right size. *)
Definition mem_ok (m : list Z) : Prop := Z.of_nat (length m) = size_ a /\ bytes_ok m.

Definition write_word (m : list Z) (p d : Z) : list Z :=
  buf_write m (Z.to_nat (page_size_ a * p)) (le_bytes 4 d).

Lemma word_in_mem m p : mem_ok m -> 0 <= p < num_pages_ a -> (Z.to_nat (page_size_ a * p) + 4 <= length m)%nat.
Proof.
  intros [Hm _] Hp. pose proof (wf_page_range a Ha). pose proof (wf_size a Ha). unfold kMinPageSize in *. nia.
Qed.

Lemma exec_load_word {A} m p (k : Z -> Prog A) :
  mem_ok m -> 0 <= p < num_pages_ a ->
  exec a m (Load (start_ a + page_size_ a * p) 4 k) = exec a m (k (page_word a m p)).
Proof.
  intros Hm Hp. cbn [exec]. rewrite (page_addr_offset a Ha p) by done. cbn [mbind option_bind].
  by rewrite (page_addr_read a Ha m p _ (proj1 Hm) (conj Hp eq_refl)).
Qed.

Lemma exec_cas_word {A} m p e d (k : bool -> Prog A) :
  mem_ok m -> 0 <= p < num_pages_ a ->
  exec a m (Cas (start_ a + page_size_ a * p) e d k) =
    if page_word a m p =? e then exec a (write_word m p d) (k true) else exec a m (k false).
Proof.
  intros Hm Hp. cbn [exec]. rewrite (page_addr_offset a Ha p) by done. cbn [mbind option_bind].
  rewrite (page_addr_read a Ha m p _ (proj1 Hm) (conj Hp eq_refl)). cbn [mbind option_bind].
  fold (page_word a m p). case_match; [|done].
  rewrite mem_write_some by (rewrite length_le_bytes; by apply word_in_mem). done.
Qed.

Lemma mem_ok_write_word m p d : mem_ok m -> 0 <= p < num_pages_ a -> mem_ok (write_word m p d).
Proof.
  intros Hm Hp. split; unfold write_word.
  - rewrite buf_write_length; [apply Hm|]. rewrite length_le_bytes. by apply word_in_mem.
  - apply buf_write_ok; [apply Hm|apply le_bytes_ok].
Qed.

(** *** Storing a header *)

(** The header of the chunk [i] of page [p] under the layout [w]. *)
Definition header_at (m : list Z) (c : Chunk) : list Z := take 8 (drop (Z.to_nat (chunk_begin c - start_ a)) m).

Definition write_header (m : list Z) (c : Chunk) (h : ChunkHeader) : list Z :=
  buf_write m (Z.to_nat (chunk_begin c - start_ a)) (header_octets h).

Lemma length_header_octets h : length (header_octets h) = 8%nat.
Proof. unfold header_octets. by rewrite !length_app, !length_le_bytes. Qed.

Lemma store_header_octets (x y : list Z) h8 h :
  length h8 = 8%nat ->
  buf_write (buf_write (buf_write (x ++ h8 ++ y) (length x + 4) (le_bytes 2 (writer_id h))) (length x)
    (le_bytes 4 (chunk_id h))) (length x + 6) (le_bytes 2 (packets_word (packets h))) =
  x ++ header_octets h ++ y.
Proof.
  intros Hl. do 8 (destruct h8 as [|? h8]; [done|]). destruct h8; [|done]. clear Hl.
  change (x ++ [z; z0; z1; z2; z3; z4; z5; z6] ++ y) with (x ++ [z; z0; z1; z2] ++ [z3; z4] ++ [z5; z6] ++ y).
  rewrite (app_assoc x [z; z0; z1; z2]).
  rewrite buf_write_at; [|by rewrite length_app|by rewrite length_le_bytes]. rewrite <- app_assoc.
  rewrite buf_write_at; [|done|by rewrite length_le_bytes].
  rewrite (app_assoc (le_bytes 4 _)), (app_assoc x), (buf_write_at _ [z5; z6]);
    [|by rewrite !length_app, !length_le_bytes|by rewrite length_le_bytes].
  unfold header_octets. by rewrite <- !app_assoc.
Qed.

Lemma chunk_in_mem m p w i :
  mem_ok m -> 0 <= p < num_pages_ a -> 0 <= i < GetNumChunksForLayout w ->
  in_page_body a p (chunk_begin (chunk_at a p w i) - start_ a) 8 /\
  (Z.to_nat (chunk_begin (chunk_at a p w i) - start_ a) + 8 <= length m)%nat.
Proof.
  intros Hm Hp Hi. pose proof (chunk_at_bounds a p w i Ha Hp Hi) as Hb.
  pose proof (chunk_size_facts a w Ha ltac:(lia)) as (Hs & _).
  assert (chunk_end (chunk_at a p w i) = chunk_begin (chunk_at a p w i) + GetChunkSizeForLayout a w) by done.
  destruct Hm as [Hm _]. pose proof (wf_page_range a Ha).
  unfold in_page_body, kSizeofChunkHeader, kSizeofPageHeader, kMinPageSize in *. split; [lia|nia].
Qed.

Lemma exec_store_header m p w i h :
  mem_ok m -> 0 <= p < num_pages_ a -> 0 <= i < GetNumChunksForLayout w ->
  exec a m (store_header (chunk_at a p w i) h) = Some (write_header m (chunk_at a p w i) h, tt).
Proof.
  intros Hm Hp Hi. destruct (chunk_in_mem m p w i Hm Hp Hi) as [(_ & Hb & _) Hl].
  set (c := chunk_at a p w i) in *. unfold write_header. set (off := Z.to_nat (chunk_begin c - start_ a)) in *.
  pose proof (wf_page_range a Ha). unfold kMinPageSize, kSizeofPageHeader in *.
  assert (Hpos : 8 <= chunk_begin c - start_ a) by nia.
  assert (Hoff : forall d, 0 <= d -> offset_of a (chunk_begin c + d) = Some (off + Z.to_nat d)%nat).
  { intros d Hd. unfold offset_of. rewrite (proj2 (Z.leb_le _ _)) by lia. f_equal. unfold off. lia. }
  unfold store_header. cbn [exec]. rewrite (Hoff 4) by lia. cbn [mbind option_bind].
  rewrite mem_write_some by (rewrite length_le_bytes; lia). cbn [mbind option_bind].
  rewrite <- (Z.add_0_r (chunk_begin c)), (Hoff 0) at 1 by lia. cbn [mbind option_bind].
  rewrite mem_write_some by (rewrite buf_write_length, !length_le_bytes by (rewrite length_le_bytes; lia); lia).
  cbn [mbind option_bind]. rewrite (Hoff 6) by lia. cbn [mbind option_bind].
  rewrite mem_write_some by (rewrite !buf_write_length, !length_le_bytes by
    (rewrite ?buf_write_length, ?length_le_bytes by (rewrite length_le_bytes; lia); lia); lia).
  cbn [mbind option_bind]. do 2 f_equal.
  assert (Hsplit : m = take off m ++ take 8 (drop off m) ++ drop (off + 8) m).
  { by rewrite <- drop_drop, take_drop, take_drop. }
  assert (Hto : length (take off m) = off) by (rewrite length_take; lia).
  rewrite Hsplit. set (x := take off m) in *. set (y := drop (off + 8) m). set (h8 := take 8 (drop off m)).
  assert (length h8 = 8%nat) by (unfold h8; rewrite length_take, length_drop; lia).
  rewrite (buf_write_at x h8 y (header_octets h)) by (rewrite ?length_header_octets; lia).
  rewrite <- (store_header_octets x y h8 h) by done. rewrite Hto.
  change (Z.to_nat 4) with 4%nat. change (Z.to_nat 6) with 6%nat. change (Z.to_nat 0) with 0%nat.
  by rewrite Nat.add_0_r.
Qed.

Lemma mem_ok_write_header m p w i h :
  mem_ok m -> 0 <= p < num_pages_ a -> 0 <= i < GetNumChunksForLayout w ->
  mem_ok (write_header m (chunk_at a p w i) h) /\
  (forall q, 0 <= q < num_pages_ a -> page_word a (write_header m (chunk_at a p w i) h) q = page_word a m q).
Proof.
  intros Hm Hp Hi. destruct (chunk_in_mem m p w i Hm Hp Hi) as [Hb Hl]. unfold write_header. split; [split|].
  - rewrite buf_write_length; [apply Hm|]. by rewrite length_header_octets.
  - apply buf_write_ok; [apply Hm|]. unfold header_octets. rewrite !bytes_ok_app. auto using le_bytes_ok.
  - intros q Hq. eapply (page_word_frame a Ha); [apply Hm| |done]. rewrite length_header_octets. exact Hb.
Qed.

Lemma header_at_written m p w i h :
  mem_ok m -> 0 <= p < num_pages_ a -> 0 <= i < GetNumChunksForLayout w ->
  header_at (write_header m (chunk_at a p w i) h) (chunk_at a p w i) = header_octets h.
Proof.
  intros Hm Hp Hi. destruct (chunk_in_mem m p w i Hm Hp Hi) as [_ Hl]. unfold header_at, write_header.
  pose proof (buf_write_read_same m (Z.to_nat (chunk_begin (chunk_at a p w i) - start_ a)) (header_octets h)) as H.
  rewrite length_header_octets in H. auto.
Qed.

(** What [TryAcquireChunk] does when nobody interferes. *)
Lemma exec_acquire m p i s oh h :
  mem_ok m -> 0 <= p < num_pages_ a -> 0 <= i -> s = kChunkBeingWritten \/ s = kChunkBeingRead ->
  (s = kChunkBeingWritten -> oh = Some h) ->
  let w := page_word a m p in
  exec a m (TryAcquireChunk a p i s oh) =
    if (i <? GetNumChunksForLayout w) && (GetChunkStateFromLayout w i =? state_val (acquire_from s)) then
      let m' := write_word m p (set_chunk_state w i s) in
      Some (if decide (s = kChunkBeingWritten) then write_header m' (chunk_at a p w i) h else m', chunk_at a p w i)
    else Some (m, null_chunk).
Proof.
  intros Hm Hp Hi Hs Hh w. unfold TryAcquireChunk. rewrite page_start_some by done.
  assert (bool_decide (s = kChunkBeingRead) || bool_decide (s = kChunkBeingWritten) = true) as ->
    by (destruct Hs as [-> | ->]; done).
  cbn [lift]. change kRetryAttempts with (S 63). cbn [acquire_loop]. rewrite exec_load_word by done. fold w.
  fold (acquire_from s). fold (GetChunkStateFromLayout w i).
  destruct (Z.leb_spec (GetNumChunksForLayout w) i), (Z.ltb_spec i (GetNumChunksForLayout w)); try lia; [done|].
  destruct (Z.eqb_spec (GetChunkStateFromLayout w i) (state_val (acquire_from s))) as [He|He]; [|done].
  cbn [negb andb]. rewrite exec_cas_word by done. fold w. rewrite Z.eqb_refl.
  rewrite GetChunkUnchecked_some by (done || lia). cbn [lift].
  destruct (decide (s = kChunkBeingWritten)); [|done]. rewrite Hh by done. cbn [lift].
  erewrite exec_bind; [|apply exec_store_header; [by apply mem_ok_write_word|done|lia]]. done.
Qed.

(** What [ReleaseChunk] does when nobody interferes. *)
Lemma exec_release m p w0 i s :
  use_shmem_emulation_ a = false -> mem_ok m -> 0 <= p < num_pages_ a -> 0 <= i < GetNumChunksForLayout w0 ->
  layout_index (page_word a m p) = layout_index w0 -> s = kChunkComplete \/ s = kChunkFree ->
  GetChunkStateFromLayout (page_word a m p) i =
    state_val (if decide (s = kChunkComplete) then kChunkBeingWritten else kChunkBeingRead) ->
  let c := chunk_at a p w0 i in
  let m1 := if decide (s = kChunkFree) then write_header m c (mkChunkHeader 0 0 (mkPackets 0 0)) else m in
  exec a m (ReleaseChunk a c s) = Some (write_word m1 p (released (page_word a m p) i s), p).
Proof.
  intros He Hm Hp Hi Hl Hs Hst c m1. unfold ReleaseChunk.
  assert (bool_decide (s = kChunkComplete) || bool_decide (s = kChunkFree) = true) as ->
    by (destruct Hs as [-> | ->]; done).
  erewrite exec_bind.
  2: { unfold GetPageAndChunkIndex, c. rewrite page_and_chunk_index_at by done. cbn [lift].
       erewrite exec_bind.
       2: { unfold GetPageLayout. rewrite page_start_some by done. cbn [lift]. by rewrite exec_load_word. }
       rewrite (num_chunks_eq _ _ Hl), (proj2 (Z.ltb_lt _ _)) by lia. done. }
  destruct (mem_ok_write_header m p w0 i (mkChunkHeader 0 0 (mkPackets 0 0)) Hm Hp Hi) as [Hm1 Hw1].
  erewrite (exec_bind _ _ m m1 tt).
  2: { unfold m1. destruct (decide (s = kChunkFree)); [by apply exec_store_header|done]. }
  assert (Hok : mem_ok m1) by (unfold m1; by destruct (decide (s = kChunkFree))).
  assert (Hw : page_word a m1 p = page_word a m p) by (unfold m1; destruct (decide (s = kChunkFree)); auto).
  rewrite page_start_some by done. cbn [lift]. change kRetryAttempts with (S 63). cbn [release_loop].
  rewrite exec_load_word, Hw by done.
  assert (Hsz : chunk_size c = GetChunkSizeForLayout a (page_word a m p)) by (symmetry; by apply chunk_size_eq).
  rewrite Hsz, Z.eqb_refl, Hst, He.
  rewrite Z.eqb_refl, exec_cas_word, Hw, Z.eqb_refl by done. done.
Qed.

Lemma exec_partition m p l :
  mem_ok m -> 0 <= p < num_pages_ a -> is_partition l = true ->
  exec a m (TryPartitionPage a p l) =
    Some (if page_word a m p =? 0 then (write_word m p (layout_val l << kLayoutShift), true) else (m, false)).
Proof.
  intros Hm Hp Hl. unfold TryPartitionPage. rewrite Hl, page_start_some by done. cbn [lift]. rewrite exec_cas_word by done.
  replace (u32 (layout_val l << kLayoutShift) .& kLayoutMask) with (layout_val l << kLayoutShift) by (by destruct l).
  by destruct (page_word a m p =? 0).
Qed.

Lemma page_word_write_word m p d : mem_ok m -> 0 <= p < num_pages_ a -> is_u32 d -> page_word a (write_word m p d) p = d.
Proof. intros [Hm _] Hp Hd. by apply (page_word_write_same a Ha). Qed.

(** Setting the state of a chunk again forgets the state it had. *)
Lemma set_set w i s s' : 0 <= i < 14 -> set_chunk_state (set_chunk_state w i s) i s' = set_chunk_state w i s'.
Proof.
  intros Hi. apply Z.bits_inj'. intros k Hk. rewrite !set_chunk_state_bit by done.
  destruct (_ && _) eqn:E; [done|]. by rewrite <- andb_assoc, andb_diag.
Qed.

Lemma set_same w i s :
  0 <= i < 14 -> is_u32 w -> GetChunkStateFromLayout w i = state_val s -> set_chunk_state w i s = w.
Proof.
  intros Hi Hu Hs. apply Z.bits_inj'. intros k Hk. rewrite set_chunk_state_bit by done.
  destruct (Z.leb_spec (2 * i) k), (Z.ltb_spec k (2 * i + 2)); cbn [andb].
  - rewrite <- Hs, chunk_state_bit by lia. rewrite (proj2 (Z.ltb_lt _ _)) by lia. cbn [andb]. f_equal. lia.
  - destruct (Z.ltb_spec k 32); [apply andb_true_r|]. rewrite andb_false_r. symmetry.
    apply (testbit_small _ 32); [apply Hu|lia..].
  - destruct (Z.ltb_spec k 32); [apply andb_true_r|lia].
  - lia.
Qed.

End Exec.

(** ** The life of a chunk *)

Lemma chunk_at_eq a p w w' i : layout_index w = layout_index w' -> chunk_at a p w i = chunk_at a p w' i.
Proof. intros H. unfold chunk_at. by rewrite (chunk_size_eq a w w' H). Qed.

Lemma released_complete w i : 0 <= i < 14 -> released w i kChunkComplete = set_chunk_state w i kChunkComplete.
Proof.
  intros Hi. unfold released. destruct (Z.eqb_spec (set_chunk_state w i kChunkComplete .& kAllChunksMask) kAllChunksFree) as [H|]; [|done].
  pose proof (all_chunks_free _ i Hi H) as Hz. by rewrite get_set_same in Hz.
Qed.

Lemma partitioned_free l i : 0 <= i < 14 -> GetChunkStateFromLayout (layout_val l << kLayoutShift) i = state_val kChunkFree.
Proof. intros Hi. apply all_chunks_free; [done|by destruct l]. Qed.

Lemma released_last l i :
  0 <= i < 14 -> is_partition l = true -> released (set_chunk_state (layout_val l << kLayoutShift) i kChunkBeingRead) i kChunkFree = 0.
Proof.
  intros Hi Hl. unfold released. rewrite set_set, set_same; [by destruct l|done|by apply page_wf_partition|by apply partitioned_free|done].
Qed.

Definition div_word (l : PageLayout) : Z := layout_val l << kLayoutShift.

Section Cycle.
Context (a : SharedMemoryABI) (Ha : abi_wf a) (Hemu : use_shmem_emulation_ a = false).
Context (p i : Z) (l : PageLayout).
Context (Hp : 0 <= p < num_pages_ a) (Hi : 0 <= i < GetNumChunksForLayout (div_word l)).
Context (Hpart : is_partition l = true).

Definition div_chunk : Chunk := chunk_at a p (div_word l) i.

(** Page [p] is partitioned, chunk [i] has state [s] and the others are free. *)
Definition only_chunk (m : list Z) (s : ChunkState) : Prop :=
  mem_ok a m /\ page_word a m p = set_chunk_state (div_word l) i s.

Lemma only_chunk_facts m s :
  only_chunk m s ->
  GetNumChunksForLayout (page_word a m p) = GetNumChunksForLayout (div_word l) /\
  layout_index (page_word a m p) = layout_index (div_word l) /\
  GetChunkStateFromLayout (page_word a m p) i = state_val s /\
  chunk_at a p (page_word a m p) i = div_chunk.
Proof.
  intros [_ ->]. pose proof (num_chunks_range (div_word l)). unfold div_chunk.
  assert (Hl : layout_index (set_chunk_state (div_word l) i s) = layout_index (div_word l)) by (apply layout_index_set; lia).
  split_and!; [by apply num_chunks_eq|done|apply get_set_same; lia|by apply chunk_at_eq].
Qed.

Lemma only_chunk_write m s s' :
  only_chunk m s -> only_chunk (write_word a m p (set_chunk_state (page_word a m p) i s')) s'.
Proof.
  intros [Hm Hw]. pose proof (num_chunks_range (div_word l)). split; [by apply mem_ok_write_word|].
  rewrite page_word_write_word, Hw; try done; [apply set_set; lia|].
  rewrite Hw. apply set_chunk_state_u32; [lia|].
  apply set_chunk_state_u32; [lia|]. by apply page_wf_partition.
Qed.

Lemma cycle_partition m :
  mem_ok a m -> page_word a m p = 0 ->
  exists m', exec a m (TryPartitionPage a p l) = Some (m', true) /\ only_chunk m' kChunkFree.
Proof.
  intros Hm Hw. rewrite exec_partition, Hw by done. eexists. split; [done|]. split; [by apply mem_ok_write_word|].
  rewrite page_word_write_word; try done; [|by apply page_wf_partition]. symmetry.
  pose proof (num_chunks_range (div_word l)). apply set_same; [lia|by apply page_wf_partition|].
  apply partitioned_free. lia.
Qed.

Lemma cycle_acquire_write m h :
  only_chunk m kChunkFree ->
  exists m', exec a m (TryAcquireChunkForWriting a p i h) = Some (m', div_chunk) /\
    only_chunk m' kChunkBeingWritten /\ header_at a m' div_chunk = header_octets h.
Proof.
  intros Ho. destruct (only_chunk_facts m _ Ho) as (Hn & Hl & Hs & Hc). pose proof (only_chunk_write m _ kChunkBeingWritten Ho) as [Hm1 Hw1].
  unfold TryAcquireChunkForWriting. rewrite (exec_acquire a Ha m p i _ _ h) by (try done; try apply Ho; auto; lia).
  rewrite Hn, Hs, Hc. rewrite (proj2 (Z.ltb_lt _ _)) by lia. cbn [andb].
  eexists. split; [done|]. case_decide; [|done].
  destruct (mem_ok_write_header a Ha _ p (div_word l) i h Hm1 Hp Hi) as [Hm2 Hw2].
  split; [split; [done|]|by apply header_at_written]. fold div_chunk in Hw2. rewrite Hw2 by done. exact Hw1.
Qed.

Lemma cycle_no_second_writer m s h :
  only_chunk m s -> s <> kChunkFree -> exec a m (TryAcquireChunkForWriting a p i h) = Some (m, null_chunk).
Proof.
  intros Ho Hne. destruct (only_chunk_facts m _ Ho) as (Hn & Hl & Hs & Hc).
  unfold TryAcquireChunkForWriting. rewrite (exec_acquire a Ha m p i _ _ h) by (try done; try apply Ho; auto; lia).
  rewrite Hs. destruct s; try done; by rewrite andb_false_r.
Qed.

Lemma cycle_complete m :
  only_chunk m kChunkBeingWritten ->
  exists m', exec a m (ReleaseChunkAsComplete a div_chunk) = Some (m', p) /\ only_chunk m' kChunkComplete /\
    chunk_octets a m' div_chunk = chunk_octets a m div_chunk.
Proof.
  intros Ho. destruct (only_chunk_facts m _ Ho) as (Hn & Hl & Hs & Hc). unfold ReleaseChunkAsComplete, div_chunk.
  rewrite exec_release; try done; [|apply Ho|by left].
  destruct (decide (kChunkComplete = kChunkFree)); [done|]. pose proof (num_chunks_range (div_word l)).
  rewrite released_complete by lia. eexists. split; [done|].
  split; [by eapply only_chunk_write|].
  apply (chunk_octets_word a Ha m (mkOwn p i (div_word l) kChunkBeingWritten)); [apply Ho| |done].
  split_and!; try done; [apply Hp..|apply Hi|apply Hi|by left].
Qed.

Lemma cycle_acquire_read m :
  only_chunk m kChunkComplete ->
  exists m', exec a m (TryAcquireChunkForReading a p i) = Some (m', div_chunk) /\ only_chunk m' kChunkBeingRead /\
    chunk_octets a m' div_chunk = chunk_octets a m div_chunk.
Proof.
  intros Ho. destruct (only_chunk_facts m _ Ho) as (Hn & Hl & Hs & Hc).
  unfold TryAcquireChunkForReading. rewrite (exec_acquire a Ha m p i _ _ (mkChunkHeader 0 0 (mkPackets 0 0))) by (try done; try apply Ho; auto; lia).
  rewrite Hn, Hs, Hc. rewrite (proj2 (Z.ltb_lt _ _)) by lia. cbn [andb].
  eexists. split; [done|]. case_decide; [done|]. split; [by eapply only_chunk_write|].
  apply (chunk_octets_word a Ha m (mkOwn p i (div_word l) kChunkBeingRead)); [apply Ho| |done].
  split_and!; try done; [apply Hp..|apply Hi|apply Hi|by right].
Qed.

Lemma cycle_free m :
  only_chunk m kChunkBeingRead ->
  exists m', exec a m (ReleaseChunkAsFree a div_chunk) = Some (m', p) /\ page_word a m' p = 0 /\
    (forall q, 0 <= q < num_pages_ a -> q <> p -> page_word a m' q = page_word a m q).
Proof.
  intros Ho. pose proof Ho as [Hm Hw]. destruct (only_chunk_facts m _ Ho) as (Hn & Hl & Hs & Hc).
  unfold ReleaseChunkAsFree, div_chunk.
  rewrite exec_release; try done; [|by right]. pose proof (num_chunks_range (div_word l)).
  destruct (decide (kChunkFree = kChunkFree)); [|done].
  destruct (mem_ok_write_header a Ha m p (div_word l) i (mkChunkHeader 0 0 (mkPackets 0 0)) Hm Hp Hi) as [Hm1 Hw1].
  eexists. split; [done|]. split.
  - rewrite Hw. unfold div_word. rewrite released_last by (done || lia). by apply page_word_write_word.
  - intros q Hq Hne. unfold write_word. rewrite (page_word_other a Ha) by (done || apply Hm1). by apply Hw1.
Qed.

End Cycle.

(** ** Properties *)

Definition ex_abi : SharedMemoryABI := default (mkABI 0 0 0 false 0 []) (Initialize 4096 8192 4096 kDefault).

Definition ex_header : ChunkHeader := mkChunkHeader 7 1 (mkPackets 0 0).

(** Thread 0 partitions page 1 and acquires its chunk 0 for writing; thread 1
    tries to acquire the same chunk while thread 0 does. *)
Definition ex_sched : list (nat * Request) :=
  [(0, RPartition 1 kPageDiv2); (0, RPartition 1 kPageDiv2); (0, RPartition 1 kPageDiv2)]%nat ++
  [(0, RAcquireForWriting 1 0 ex_header); (1, RAcquireForWriting 1 0 ex_header)]%nat ++
  concat (replicate 8 [(0, RRelease 9); (1, RRelease 9)]%nat).

(** C18: Whatever the threads of producers and service do, in any interleaving
    of their atomic accesses, no [CHECK] or [DCHECK] of the class fails and no
    access leaves the buffer; the one [DFATAL], that of a release that lost 64
    races in a row, is met at most once for every 64 steps other threads take, so
    a thread alone never meets it. At every moment every chunk in the hands of a thread is a chunk
    of the layout its page has then, in the state in which it was acquired, and
    no two such chunks overlap; every page word is well formed. *)
Theorem smb_run_safe start size page_size a n sched :
  0 <= start -> 0 <= size -> Initialize start size page_size kDefault = Some a ->
  exists s, run_schedule a (initial_system a n) sched = Some s /\ exclusive a s /\
    forall t th, s.2 !! t = Some th ->
      (kRetryAttempts * th_dfatals th <= length (filter (fun x => x.1 <> t) sched))%nat.
Proof.
  intros Hst Hsz Hi. pose proof (Initialize_wf _ _ _ _ _ Hst Hsz Hi) as Ha.
  assert (He : use_shmem_emulation_ a = false) by (by apply Initialize_mode in Hi).
  destruct (run_schedule_inv a Ha He sched _ _ (initial_system_inv a Ha n)) as (s & gs & Hr & Hs).
  exists s. split_and!; [done|by eapply sys_inv_exclusive|]. intros t th Ht.
  destruct (run_schedule_contended a sched t _ s 0 Hr (initial_contended a n t) th Ht) as (f & last & _ & _ & Hle). lia.
Qed.

Lemma smb_run_safe_witness :
  exists s, run_schedule ex_abi (initial_system ex_abi 2) ex_sched = Some s /\ exclusive ex_abi s /\
    forall t th, s.2 !! t = Some th ->
      (kRetryAttempts * th_dfatals th <= length (filter (fun x => x.1 <> t) ex_sched))%nat.
Proof. apply (smb_run_safe 4096 8192 4096); [lia|lia|reflexivity]. Defined.

(** C19: While a thread holds a chunk, nobody else touches it: after any steps
    of the other threads the thread holds what it held, the octets of the chunk
    are the same and so is its state in the page word. *)
Theorem smb_chunk_private start size page_size a n sched s sched' t k st c :
  0 <= start -> 0 <= size -> Initialize start size page_size kDefault = Some a ->
  run_schedule a (initial_system a n) sched = Some s -> holds s.2 t k st c ->
  Forall (fun x => x.1 <> t) sched' ->
  exists s', run_schedule a s sched' = Some s' /\ s'.2 !! t = s.2 !! t /\
    chunk_octets a s'.1 c = chunk_octets a s.1 c /\ held_in_page a s'.1 st c.
Proof.
  intros Hst Hsz Hi Hr Hh Hn. pose proof (Initialize_wf _ _ _ _ _ Hst Hsz Hi) as Ha.
  assert (He : use_shmem_emulation_ a = false) by (by apply Initialize_mode in Hi).
  destruct (run_schedule_inv a Ha He sched _ _ (initial_system_inv a Ha n)) as (s0 & gs & Hr0 & Hs).
  rewrite Hr in Hr0. injection Hr0 as <-.
  destruct (run_others a Ha He sched' s gs t Hs Hn) as (s' & gs' & Hr' & Hs' & Hg & Ht & Hu).
  destruct (holds_own a s gs t k st c Hs Hh) as (g & o & Hgt & Ho & -> & ->).
  exists s'. split_and!; try done.
  - apply (Hu g Hgt o). unfold owned. apply elem_of_app. right. by eapply list_elem_of_lookup_2.
  - destruct Hs' as [_ Hinv]. eapply own_held; [done..|]. eapply own_in_all; [|done]. by rewrite Hg.
Qed.

Definition ex_held : System := default ([], []) (run_schedule ex_abi (initial_system ex_abi 2) ex_sched).

Lemma smb_chunk_private_witness :
  exists s', run_schedule ex_abi ex_held [(1, RAcquireForReading 1 0); (1, RPartition 1 kPageDiv1)]%nat = Some s' /\
    s'.2 !! 0%nat = ex_held.2 !! 0%nat /\
    chunk_octets ex_abi s'.1 (mkChunk 8200 2044 0) = chunk_octets ex_abi ex_held.1 (mkChunk 8200 2044 0) /\
    held_in_page ex_abi s'.1 kChunkBeingWritten (mkChunk 8200 2044 0).
Proof.
  apply (smb_chunk_private 4096 8192 4096 ex_abi 2 ex_sched ex_held _ 0 0); [lia|lia|reflexivity|vm_compute; reflexivity| |].
  - exists (mkThread None [(kChunkBeingWritten, mkChunk 8200 2044 0)] 0). split; vm_compute; reflexivity.
  - repeat constructor; done.
Defined.

(** C20: The operations are wait-free. In any reachable state, a thread that is
    in the middle of an operation finishes it by the time it is given 133 steps,
    however the other threads' steps are interleaved with them. *)
Theorem smb_wait_free start size page_size a n sched s sched' t :
  0 <= start -> 0 <= size -> Initialize start size page_size kDefault = Some a ->
  run_schedule a (initial_system a n) sched = Some s -> (t < n)%nat ->
  (kMaxAccesses < length (filter (fun x => x.1 = t) sched'))%nat ->
  exists pre post s' th, sched' = pre ++ post /\ run_schedule a s pre = Some s' /\
    s'.2 !! t = Some th /\ th_prog th = None.
Proof.
  intros Hst Hsz Hi Hr Ht Hc. pose proof (Initialize_wf _ _ _ _ _ Hst Hsz Hi) as Ha.
  assert (He : use_shmem_emulation_ a = false) by (by apply Initialize_mode in Hi).
  destruct (run_schedule_inv a Ha He sched _ _ (initial_system_inv a Ha n)) as (s0 & gs & Hr0 & Hs).
  rewrite Hr in Hr0. injection Hr0 as <-.
  assert (Hlen : length s.2 = n) by (rewrite <- (run_schedule_length a sched _ _ Hr); apply length_replicate).
  destruct (lookup_lt_is_Some_2 s.2 t ltac:(lia)) as [th Hth].
  assert (Hb : Forall (busy_le kMaxAccesses) s.2).
  { eapply run_schedule_busy; [exact Hr|]. cbn [snd initial_system]. by apply Forall_replicate. }
  eapply run_until_idle; [done..|exact Hs|exact Hth|by eapply Forall_lookup_1|done].
Qed.

(** Thread 1 has begun to partition a page. *)
Definition ex_begun : bool :=
  match run_schedule ex_abi (initial_system ex_abi 2) [(1%nat, RPartition 0 kPageDiv1)] with
  | Some s => match s.2 !! 1%nat with Some th => match th_prog th with Some _ => true | None => false end | None => false end
  | None => false
  end.

Lemma smb_wait_free_witness :
  ex_begun = true /\
  exists s pre post s' th, run_schedule ex_abi (initial_system ex_abi 2) [(1%nat, RPartition 0 kPageDiv1)] = Some s /\
    concat (replicate 133 [(1%nat, RPartition 0 kPageDiv1); (0%nat, RPartition 0 kPageDiv2)]) = pre ++ post /\
    run_schedule ex_abi s pre = Some s' /\ s'.2 !! 1%nat = Some th /\ th_prog th = None.
Proof.
  split; [vm_compute; reflexivity|]. destruct (run_schedule ex_abi (initial_system ex_abi 2) [(1%nat, RPartition 0 kPageDiv1)]) as [s|] eqn:E.
  - exists s. destruct (smb_wait_free 4096 8192 4096 ex_abi 2 [(1%nat, RPartition 0 kPageDiv1)] s (concat (replicate 133 [(1%nat, RPartition 0 kPageDiv1); (0%nat, RPartition 0 kPageDiv2)])) 1
      ltac:(lia) ltac:(lia) eq_refl E ltac:(lia) ltac:(vm_compute; lia)) as (pre & post & s' & th & H1 & H2 & H3 & H4).
    exists pre, post, s', th. split; [reflexivity|]. split; [exact H1|]. split; [exact H2|]. split; [exact H3|exact H4].
  - exfalso. revert E. vm_compute. discriminate.
Defined.

(** C21: The life of a chunk, on a page nobody else uses: a free page is
    partitioned; its chunk is acquired for writing with the given header and
    then no second writer gets it; it is completed, a reader gets the same chunk
    with the octets the writer left; when the reader frees it the page is free
    again and the other pages are as they were. *)
Theorem smb_chunk_cycle start size page_size a m p i l h h' :
  0 <= start -> 0 <= size -> Initialize start size page_size kDefault = Some a ->
  mem_ok a m -> 0 <= p < num_pages_ a -> page_word a m p = 0 -> is_partition l = true ->
  0 <= i < GetNumChunksForLayout (div_word l) ->
  exists m1 m2 m3 m4 m5 c,
    exec a m (TryPartitionPage a p l) = Some (m1, true) /\
    exec a m1 (TryAcquireChunkForWriting a p i h) = Some (m2, c) /\ header_at a m2 c = header_octets h /\
    exec a m2 (TryAcquireChunkForWriting a p i h') = Some (m2, null_chunk) /\
    exec a m2 (ReleaseChunkAsComplete a c) = Some (m3, p) /\
    exec a m3 (TryAcquireChunkForReading a p i) = Some (m4, c) /\ chunk_octets a m4 c = chunk_octets a m2 c /\
    exec a m4 (ReleaseChunkAsFree a c) = Some (m5, p) /\ page_word a m5 p = 0.
Proof.
  intros Hst Hsz Hi Hm Hp Hw Hl Hr. pose proof (Initialize_wf _ _ _ _ _ Hst Hsz Hi) as Ha.
  assert (He : use_shmem_emulation_ a = false) by (by apply Initialize_mode in Hi).
  destruct (cycle_partition a Ha p i l Hp Hr Hl m Hm Hw) as (m1 & H1 & Ho1).
  destruct (cycle_acquire_write a Ha p i l Hp Hr Hl m1 h Ho1) as (m2 & H2 & Ho2 & Hh).
  pose proof (cycle_no_second_writer a Ha p i l Hp Hr m2 _ h' Ho2 ltac:(done)) as H2'.
  destruct (cycle_complete a Ha He p i l Hp Hr Hl m2 Ho2) as (m3 & H3 & Ho3 & Hc3).
  destruct (cycle_acquire_read a Ha p i l Hp Hr Hl m3 Ho3) as (m4 & H4 & Ho4 & Hc4).
  destruct (cycle_free a Ha He p i l Hp Hr Hl m4 Ho4) as (m5 & H5 & Hw5 & _).
  exists m1, m2, m3, m4, m5, (div_chunk a p i l). split_and!; try done. by rewrite Hc4.
Qed.

Definition ex_zero : list Z := replicate 8192 0.

Lemma smb_chunk_cycle_witness :
  exists m1 m2 m3 m4 m5 c,
    exec ex_abi ex_zero (TryPartitionPage ex_abi 0 kPageDiv4) = Some (m1, true) /\
    exec ex_abi m1 (TryAcquireChunkForWriting ex_abi 0 2 ex_header) = Some (m2, c) /\
    header_at ex_abi m2 c = header_octets ex_header /\
    exec ex_abi m2 (TryAcquireChunkForWriting ex_abi 0 2 ex_header) = Some (m2, null_chunk) /\
    exec ex_abi m2 (ReleaseChunkAsComplete ex_abi c) = Some (m3, 0) /\
    exec ex_abi m3 (TryAcquireChunkForReading ex_abi 0 2) = Some (m4, c) /\
    chunk_octets ex_abi m4 c = chunk_octets ex_abi m2 c /\
    exec ex_abi m4 (ReleaseChunkAsFree ex_abi c) = Some (m5, 0) /\ page_word ex_abi m5 0 = 0.
Proof.
  apply (smb_chunk_cycle 4096 8192 4096); [lia|lia|reflexivity| |vm_compute; split; congruence|vm_compute; reflexivity|reflexivity|vm_compute; split; congruence].
  split; [vm_compute; reflexivity|]. apply Forall_replicate. by unfold is_u8.
Defined.

(** What the class tells about a page word is true of its chunks: bit [i] of
    [GetFreeChunks] (of [GetUsedChunks]) is set exactly when the layout has a
    chunk [i] and it is free (not free), and [is_page_complete] holds exactly when
    the page is partitioned and all its chunks are complete. *)
Theorem page_word_queries w i :
  page_wf w -> 0 <= i ->
  Z.testbit (GetFreeChunks_of_layout w) i =
    (i <? GetNumChunksForLayout w) && (GetChunkStateFromLayout w i =? state_val kChunkFree) /\
  Z.testbit (GetUsedChunks w) i =
    (i <? GetNumChunksForLayout w) && negb (GetChunkStateFromLayout w i =? state_val kChunkFree) /\
  (is_page_complete_of_layout w = true <->
     0 < GetNumChunksForLayout w /\
     forall j, 0 <= j < GetNumChunksForLayout w -> GetChunkStateFromLayout w j = state_val kChunkComplete).
Proof.
  intros Hw Hi. pose proof (num_chunks_range w). split_and!; [..|by apply is_page_complete_spec].
  all: unfold GetFreeChunks_of_layout, GetUsedChunks; rewrite chunk_bitmap_bit, Z.bits_0, Z2Nat.id, Z.sub_0_r by lia.
  all: cbn [orb state_val]; rewrite (proj2 (Z.leb_le 0 i)) by done; cbn [andb]; f_equal.
  all: by destruct (GetChunkStateFromLayout w i =? 0).
Qed.

Lemma page_word_queries_witness :
  Z.testbit (GetFreeChunks_of_layout 0x30000081) 1 = true /\ is_page_complete_of_layout 0x2000000F = true.
Proof.
  assert (Hwf : page_wf 0x30000081).
  { unfold page_wf. split_and!; try (by vm_compute).
    intros i Hi. change (GetNumChunksForLayout 0x30000081) with 4 in Hi.
    assert (i = 4 \/ i = 5 \/ i = 6 \/ i = 7 \/ i = 8 \/ i = 9 \/ i = 10 \/ i = 11 \/ i = 12 \/ i = 13) by lia.
    destruct_or?; subst; reflexivity. }
  split; [|reflexivity]. etransitivity; [apply (page_word_queries 0x30000081 1 Hwf); lia|reflexivity].
Defined.
