(* ===== verification/ProtoMessage.v ===== *)
(** * Writing messages: Message over ScatteredStreamWriter

    Models [src/protozero/message.cc] and its header, and
    [src/protozero/scattered_stream_writer.cc] and its header: append-only
    messages, nested in a stack, written to a stream that is scattered over
    memory regions which a delegate hands out, with the size of a nested message
    backfilled when the message ends.

    Memory is a list of regions (a heap slice, a chunk of shared memory, a patch
    entry); a pointer is a region and an offset. The messages of a root message
    are a stack with the root first: the message at depth [d + 1] is the
    [nested_message_] of the one at depth [d]. Everything is state of one
    [World], because [GetNewBuffer] of a delegate may look at and change the
    writer and the messages. [None] is a failed [DCHECK], an [assert] or an
    access outside a region. *)

From S2P Require Import Prelude ProtoUtils ProtoDecoder.

(** ** State *)

Notation Ptr := (nat * Z)%type (only parsing).

Inductive MessageState := kNotFinalized | kFinalized | kFinalizedWithCompaction.
#[export] Instance MessageState_eq_dec : EqDecision MessageState.
Proof. solve_decision. Defined.

Record Message := mkMessage { msg_size : Z; size_field_ : option Ptr; message_state_ : MessageState }.

(** [Message::Reset]. *)
Definition fresh_message (size_field : option Ptr) : Message := mkMessage 0 size_field kNotFinalized.

Definition is_finalized (m : Message) : bool := negb (bool_decide (message_state_ m = kNotFinalized)).

(** A [ContiguousMemoryRange]: a region and two offsets in it. *)
Record Range := mkRange { rg_region : nat; rg_begin : Z; rg_end : Z }.

(** [ScatteredStreamWriter]; the null range has no region. *)
Record Writer := mkWriter {
  cur_region : option nat; cur_begin : Z; cur_end : Z; write_ptr_ : Z; written_previously_ : Z }.

Definition null_writer : Writer := mkWriter None 0 0 0 0.

Record World (D : Type) := mkWorld { w_mem : list (list Z); w_wr : Writer; w_msgs : list Message; w_dlg : D }.
Arguments mkWorld {D}. Arguments w_mem {D}. Arguments w_wr {D}. Arguments w_msgs {D}. Arguments w_dlg {D}.

Section Updates.
Context {D : Type}.
Definition set_mem (w : World D) mem := mkWorld mem (w_wr w) (w_msgs w) (w_dlg w).
Definition set_wr (w : World D) wr := mkWorld (w_mem w) wr (w_msgs w) (w_dlg w).
Definition set_msgs (w : World D) msgs := mkWorld (w_mem w) (w_wr w) msgs (w_dlg w).
Definition set_ptr (w : World D) (ptr : Z) :=
  set_wr w (mkWriter (cur_region (w_wr w)) (cur_begin (w_wr w)) (cur_end (w_wr w)) ptr (written_previously_ (w_wr w))).
End Updates.

Definition region_write (mem : list (list Z)) (r : nat) (off : Z) (data : list Z) : option (list (list Z)) :=
  b ← mem !! r;
  if 0 <=? off then b ← mem_write b (Z.to_nat off) data; Some (<[r := b]> mem) else None.

Definition region_read (mem : list (list Z)) (r : nat) (off : Z) (n : nat) : option (list Z) :=
  b ← mem !! r;
  if 0 <=? off then mem_read b (Z.to_nat off) n else None.

(** ** Delegate *)

(** [Delegate::GetNewBuffer]. *)
Class Delegate (D : Type) := GetNewBuffer : World D -> option (World D * Range).

(** ** ScatteredStreamWriter *)

Section Stream.
Context `{Delegate D}.
Implicit Types w : World D.

Definition bytes_available w : Z := cur_end (w_wr w) - write_ptr_ (w_wr w).

(** [Reset] to a range; the null range has its own definition. *)
Definition Reset_range w (range : Range) : option (World D) :=
  let wr := w_wr w in
  if rg_begin range <? rg_end range then
    Some (set_wr w (mkWriter (Some (rg_region range)) (rg_begin range) (rg_end range) (rg_begin range)
                      (u64 (written_previously_ wr + (write_ptr_ wr - cur_begin wr)))))
  else None.

Definition Reset_null w : World D :=
  let wr := w_wr w in
  set_wr w (mkWriter None 0 0 0 (u64 (written_previously_ wr + (write_ptr_ wr - cur_begin wr)))).

Definition Extend w : option (World D) :=
  '(w, range) ← GetNewBuffer w;
  Reset_range w range.

Definition WriteBytesUnsafe w (src : list Z) : option (World D) :=
  let wr := w_wr w in
  let end_ := write_ptr_ wr + Z.of_nat (length src) in
  if end_ <=? cur_end wr then
    match cur_region wr with
    | Some r =>
        mem ← region_write (w_mem w) r (write_ptr_ wr) src;
        Some (set_ptr (set_mem w mem) end_)
    | None => if decide (src = []) then Some w else None
    end
  else None.

(** Every round writes at least one octet, so the size bounds the loop. *)
Fixpoint WriteBytesSlowPath_loop (fuel : nat) w (src : list Z) : option (World D) :=
  match src with
  | [] => Some w
  | _ :: _ =>
      match fuel with
      | O => None
      | S fuel =>
          w ← (if cur_end (w_wr w) <=? write_ptr_ (w_wr w) then Extend w else Some w);
          let burst_size := Z.to_nat (Z.min (bytes_available w) (Z.of_nat (length src))) in
          w ← WriteBytesUnsafe w (take burst_size src);
          WriteBytesSlowPath_loop fuel w (drop burst_size src)
      end
  end.

Definition WriteBytesSlowPath w (src : list Z) : option (World D) := WriteBytesSlowPath_loop (length src) w src.

Definition WriteBytes w (src : list Z) : option (World D) :=
  if write_ptr_ (w_wr w) + Z.of_nat (length src) <=? cur_end (w_wr w) then WriteBytesUnsafe w src
  else WriteBytesSlowPath w src.

Definition WriteByte w (value : Z) : option (World D) :=
  w ← (if cur_end (w_wr w) <=? write_ptr_ (w_wr w) then Extend w else Some w);
  r ← cur_region (w_wr w);
  mem ← region_write (w_mem w) r (write_ptr_ (w_wr w)) [value];
  Some (set_ptr (set_mem w mem) (write_ptr_ (w_wr w) + 1)).

(** [ReserveBytesUnsafe]: the caller has checked that there is room. *)
Definition ReserveBytesUnsafe w (size : nat) : option (World D * Ptr) :=
  let wr := w_wr w in
  let end_ := write_ptr_ wr + Z.of_nat size in
  if end_ <=? cur_end wr then r ← cur_region wr; Some (set_ptr w end_, (r, write_ptr_ wr)) else None.

Definition written w : Z :=
  u64 (written_previously_ (w_wr w) + (write_ptr_ (w_wr w) - cur_begin (w_wr w))).

(** [ReserveBytes]: the reserved octets are cleared (as builds with [DCHECK]s
    do) and the pointer to them is returned. *)
Definition ReserveBytes w (size : nat) : option (World D * Ptr) :=
  w ← (if cur_end (w_wr w) <? write_ptr_ (w_wr w) + Z.of_nat size then Extend w else Some w);
  let wr := w_wr w in
  if write_ptr_ wr + Z.of_nat size <=? cur_end wr then
    r ← cur_region wr;
    mem ← region_write (w_mem w) r (write_ptr_ wr) (replicate size 0);
    Some (set_ptr (set_mem w mem) (write_ptr_ wr + Z.of_nat size), (r, write_ptr_ wr))
  else None.

Definition Rewind w (size offset : Z) : option (World D) :=
  let wr := w_wr w in
  let src := write_ptr_ wr - size in
  let dst := src - offset in
  if (cur_begin wr <=? src) && (src + size <=? cur_end wr) && (cur_begin wr <=? dst) && (dst + size <=? cur_end wr)
  then
    r ← cur_region wr;
    octets ← region_read (w_mem w) r src (Z.to_nat size);
    mem ← region_write (w_mem w) r dst octets;
    Some (set_ptr (set_mem w mem) (write_ptr_ wr - offset))
  else None.

(** ** Message *)

Definition kBytesToCompact : Z := Z.of_nat kMessageLengthFieldSize - 1.

Definition set_msg w (d : nat) (m : Message) : World D := set_msgs w (<[d := m]> (w_msgs w)).

Definition add_size (m : Message) (n : Z) : Message :=
  mkMessage (u32 (msg_size m + n)) (size_field_ m) (message_state_ m).

(** [WriteToStream] of the message at depth [d]. *)
Definition WriteToStream w (d : nat) (src : list Z) : option (World D) :=
  m ← w_msgs w !! d;
  if is_finalized m then None
  else
    let size := u32 (Z.of_nat (length src)) in
    w ← WriteBytes w (take (Z.to_nat size) src);
    m ← w_msgs w !! d;
    Some (set_msg w d (add_size m size)).

(** The size is written into the field, in one octet when the whole message
    is in the current range right behind its size field. A size field that is
    not null points into the region of its pointer; the comparison with
    [cur_range().begin] makes the two pointers compared lie in one region. *)
Definition backfill_size w (d : nat) (m : Message) : option (World D) :=
  match size_field_ m with
  | Some (r, off) =>
      if msg_size m <? kMaxMessageLength then
        let wr := w_wr w in
        if (msg_size m <=? kMaxOneByteMessageLength) && bool_decide (cur_region wr = Some r) &&
           (off =? write_ptr_ wr - msg_size m - Z.of_nat kMessageLengthFieldSize) && (cur_begin wr <=? off) then
          w ← Rewind w (msg_size m) kBytesToCompact;
          if off =? write_ptr_ (w_wr w) - msg_size m - 1 then
            mem ← region_write (w_mem w) r off [u8 (msg_size m)];
            Some (set_msg (set_mem w mem) d (mkMessage (msg_size m) None kFinalizedWithCompaction))
          else None
        else
          mem ← region_write (w_mem w) r off (WriteRedundantVarInt (msg_size m) kMessageLengthFieldSize);
          Some (set_msg (set_mem w mem) d (mkMessage (msg_size m) None kFinalized))
      else None
  | None => Some (set_msg w d (mkMessage (msg_size m) None kFinalized))
  end.

(** The tail of [EndNestedMessage]: the size of the finalized nested message is
    added and the message is deleted. *)
Definition absorb_nested w (d : nat) (nested_size : Z) : option (World D) :=
  nested ← w_msgs w !! S d;
  m ← w_msgs w !! d;
  let m := add_size m nested_size in
  let m := if decide (message_state_ nested = kFinalizedWithCompaction)
           then add_size m (- kBytesToCompact) else m in
  Some (set_msgs w (take d (w_msgs w) ++ [m])).

(** [Finalize] of the message at depth [d] and, through [EndNestedMessage], of
    the messages nested in it; [n] is the number of messages in the stack. *)
Fixpoint Finalize_at (n : nat) w (d : nat) : option (World D * Z) :=
  match n with
  | O => None
  | S n =>
      m ← w_msgs w !! d;
      if is_finalized m then Some (w, msg_size m)
      else
        w ← (if (S d <? length (w_msgs w))%nat then
               '(w, nested_size) ← Finalize_at n w (S d);
               absorb_nested w d nested_size
             else Some w);
        m ← w_msgs w !! d;
        w ← backfill_size w d m;
        Some (w, msg_size m)
  end.

Definition Finalize w (d : nat) : option (World D * Z) := Finalize_at (length (w_msgs w)) w d.

Definition EndNestedMessage w (d : nat) : option (World D) :=
  '(w, nested_size) ← Finalize w (S d);
  absorb_nested w d nested_size.

(** [if (nested_message_) EndNestedMessage();] *)
Definition end_nested w (d : nat) : option (World D) :=
  if (S d <? length (w_msgs w))%nat then EndNestedMessage w d else Some w.

(** [value] is what [WriteVarInt] gets after extension to 64 bits. *)
Definition AppendVarInt w (d : nat) (field_id value : Z) : option (World D) :=
  w ← end_nested w d;
  WriteToStream w d (WriteVarInt (MakeTagVarInt field_id) ++ WriteVarInt value).

Definition AppendSignedVarInt w (d : nat) (width field_id value : Z) : option (World D) :=
  AppendVarInt w d field_id (ZigZagEncode width value).

Definition AppendTinyVarInt w (d : nat) (field_id value : Z) : option (World D) :=
  if (0 <=? value) && (value <? 0x80) then
    w ← end_nested w d;
    WriteToStream w d (WriteVarInt (MakeTagVarInt field_id) ++ [u8 value])
  else None.

(** [AppendFixed<T>] with [sizeof(T)] octets. *)
Definition AppendFixed w (d : nat) (size_of_T : nat) (field_id value : Z) : option (World D) :=
  w ← end_nested w d;
  WriteToStream w d (WriteVarInt (MakeTagFixed (Z.of_nat size_of_T) field_id) ++ le_bytes size_of_T value).

Definition AppendBytes w (d : nat) (field_id : Z) (src : list Z) : option (World D) :=
  if field_id =? 0 then None
  else
    w ← end_nested w d;
    if Z.of_nat (length src) <? kMaxMessageLength then
      w ← WriteToStream w d (WriteVarInt (MakeTagLengthDelimited field_id) ++ WriteVarInt (u32 (Z.of_nat (length src))));
      WriteToStream w d src
    else None.

Fixpoint write_ranges w (d : nat) (ranges : list (list Z)) : option (World D) :=
  match ranges with
  | [] => Some w
  | range :: ranges => w ← WriteToStream w d range; write_ranges w d ranges
  end.

Definition AppendScatteredBytes w (d : nat) (field_id : Z) (ranges : list (list Z)) : option (World D * Z) :=
  if field_id =? 0 then None
  else
    w ← end_nested w d;
    let size := Z.of_nat (length (concat ranges)) in
    if size <? kMaxMessageLength then
      w ← WriteToStream w d (WriteVarInt (MakeTagLengthDelimited field_id) ++ WriteVarInt (u32 size));
      w ← write_ranges w d ranges;
      Some (w, size)
    else None.

Definition AppendRawProtoBytes w (d : nat) (data : list Z) : option (World D) :=
  w ← end_nested w d;
  WriteToStream w d data.

(** The new message is at depth [S d]. *)
Definition BeginNestedMessage w (d : nat) (field_id : Z) : option (World D) :=
  if field_id =? 0 then None
  else
    w ← end_nested w d;
    w ← WriteToStream w d (WriteVarInt (MakeTagLengthDelimited field_id));
    '(w, ptr) ← ReserveBytes w kMessageLengthFieldSize;
    m ← w_msgs w !! d;
    let w := set_msg w d (add_size m (Z.of_nat kMessageLengthFieldSize)) in
    Some (set_msgs w (w_msgs w ++ [fresh_message (Some ptr)])).

End Stream.

(** ** Where the octets of the stream are *)

(** The location of an octet: region and offset. *)
Definition range_locs (r : nat) (s : Z) (n : nat) : list Ptr := (fun i => (r, s + Z.of_nat i)) <$> seq 0 n.

#[global] Arguments range_locs : simpl never.

Definition read1 (mem : list (list Z)) (l : Ptr) : option Z :=
  b ← mem !! l.1; if 0 <=? l.2 then b !! Z.to_nat l.2 else None.

(** The locations [locs] hold the octets [out]. *)
Definition cells (mem : list (list Z)) (locs : list Ptr) (out : list Z) : Prop :=
  Forall2 (fun l b => read1 mem l = Some b) locs out.

Lemma length_range_locs r s n : length (range_locs r s n) = n.
Proof. unfold range_locs. by rewrite length_fmap, length_seq. Qed.

Lemma elem_of_range_locs l r s n : l ∈ range_locs r s n <-> l.1 = r /\ s <= l.2 < s + Z.of_nat n.
Proof.
  unfold range_locs. rewrite list_elem_of_fmap. split.
  - intros (i & -> & Hi%elem_of_seq). cbn. lia.
  - destruct l as [r' o]. cbn. intros [-> Ho]. exists (Z.to_nat (o - s)). split; [f_equal; lia|].
    apply elem_of_seq. lia.
Qed.

Lemma NoDup_range_locs r s n : NoDup (range_locs r s n).
Proof.
  unfold range_locs. apply NoDup_fmap_2; [|apply NoDup_seq]. intros i j [= H]. lia.
Qed.

Lemma range_locs_app r s n m : range_locs r s (n + m) = range_locs r s n ++ range_locs r (s + Z.of_nat n) m.
Proof.
  unfold range_locs. rewrite seq_app, fmap_app. f_equal. cbn [Nat.add].
  rewrite <- (Nat.add_0_r n) at 1. rewrite <- fmap_add_seq, <- list_fmap_compose. apply list_fmap_ext.
  intros i x Hx. cbn. f_equal. lia.
Qed.

Lemma range_locs_S r s n : range_locs r s (S n) = (r, s) :: range_locs r (s + 1) n.
Proof. change (S n) with (1 + n)%nat. rewrite range_locs_app. unfold range_locs at 1. cbn. do 2 f_equal. lia. Qed.

Lemma cells_range mem r s n out b :
  mem !! r = Some b -> 0 <= s -> (Z.to_nat s + n <= length b)%nat ->
  cells mem (range_locs r s n) out <-> out = take n (drop (Z.to_nat s) b).
Proof.
  intros Hb. revert s out. induction n as [|n IH]; intros s out Hs Hl.
  - split; [by inversion 1|intros ->; constructor].
  - rewrite range_locs_S. destruct (lookup_lt_is_Some_2 b (Z.to_nat s)) as [x Hx]; [lia|].
    rewrite (drop_S b x) by done. cbn [take].
    assert (Hr : read1 mem (r, s) = Some x).
    { unfold read1. cbn. rewrite Hb. cbn. by rewrite (proj2 (Z.leb_le 0 s)). }
    replace (S (Z.to_nat s)) with (Z.to_nat (s + 1)) by lia. split.
    + inversion 1 as [|? y ? out' Hy Ho]; subst. rewrite Hr in Hy. injection Hy as <-. f_equal.
      apply IH; [lia|lia|done].
    + intros ->. constructor; [done|]. apply IH; [lia|lia|done].
Qed.

Lemma region_write_Some mem r off data b :
  mem !! r = Some b -> 0 <= off -> (Z.to_nat off + length data <= length b)%nat ->
  region_write mem r off data = Some (<[r := buf_write b (Z.to_nat off) data]> mem).
Proof.
  intros Hb Ho Hl. unfold region_write. rewrite Hb. cbn [mbind option_bind].
  rewrite (proj2 (Z.leb_le 0 off)) by done. by rewrite mem_write_some.
Qed.

Lemma region_read_Some mem r off n b :
  mem !! r = Some b -> 0 <= off -> (Z.to_nat off + n <= length b)%nat ->
  region_read mem r off n = Some (take n (drop (Z.to_nat off) b)).
Proof.
  intros Hb Ho Hl. unfold region_read. rewrite Hb. cbn [mbind option_bind].
  rewrite (proj2 (Z.leb_le 0 off)) by done. by rewrite mem_read_some.
Qed.

(** Reading one octet after a write. *)
Lemma read1_write_other mem r off data b l :
  mem !! r = Some b -> 0 <= off -> (Z.to_nat off + length data <= length b)%nat ->
  l ∉ range_locs r off (length data) ->
  read1 (<[r := buf_write b (Z.to_nat off) data]> mem) l = read1 mem l.
Proof.
  intros Hb Ho Hl Hn. destruct l as [r' o]. unfold read1. cbn [fst snd].
  destruct (decide (r' = r)) as [->|Hne]; [|by rewrite list_lookup_insert_ne].
  rewrite list_lookup_insert_eq, Hb by (by eapply lookup_lt_Some). cbn [mbind option_bind].
  destruct (Z.leb_spec 0 o); [|done]. rewrite elem_of_range_locs in Hn. cbn in Hn.
  assert (Hd : o < off \/ off + Z.of_nat (length data) <= o) by lia.
  unfold buf_write. destruct Hd.
  - rewrite lookup_app_l by (rewrite length_take; lia). by rewrite lookup_take_lt by lia.
  - rewrite lookup_app_r by (rewrite length_take; lia). rewrite length_take, Nat.min_l by lia.
    rewrite lookup_app_r, lookup_drop by lia. f_equal. lia.
Qed.

Lemma cells_write_other mem r off data b locs out :
  mem !! r = Some b -> 0 <= off -> (Z.to_nat off + length data <= length b)%nat ->
  (forall l, l ∈ locs -> l ∉ range_locs r off (length data)) ->
  cells mem locs out -> cells (<[r := buf_write b (Z.to_nat off) data]> mem) locs out.
Proof.
  intros Hb Ho Hl Hd Hc. unfold cells in *. revert Hd. induction Hc as [|l x locs out Hx Hc IH]; intros Hd; constructor.
  - rewrite read1_write_other by (try done; apply Hd; by left). done.
  - apply IH. intros l' Hl'. apply Hd. by right.
Qed.

Lemma cells_write_same mem r off data b :
  mem !! r = Some b -> 0 <= off -> (Z.to_nat off + length data <= length b)%nat ->
  cells (<[r := buf_write b (Z.to_nat off) data]> mem) (range_locs r off (length data)) data.
Proof.
  intros Hb Ho Hl. apply (cells_range _ r off _ _ (buf_write b (Z.to_nat off) data)).
  - apply list_lookup_insert_eq. by eapply lookup_lt_Some.
  - done.
  - by rewrite buf_write_length.
  - by rewrite buf_write_read_same.
Qed.

Lemma region_write_inv mem r off data mem' :
  region_write mem r off data = Some mem' ->
  exists b, mem !! r = Some b /\ 0 <= off /\ (Z.to_nat off + length data <= length b)%nat /\
    mem' = <[r := buf_write b (Z.to_nat off) data]> mem.
Proof.
  unfold region_write, mem_write. destruct (mem !! r) as [b|]; [|done]. cbn [mbind option_bind].
  destruct (Z.leb_spec 0 off); [|done]. destruct (Nat.leb_spec (Z.to_nat off + length data) (length b)); [|done].
  intros [= <-]. by exists b.
Qed.

(** The first octet of a size in four octets is not zero. *)
Lemma read1_redundant mem r off v mem' :
  region_write mem r off (WriteRedundantVarInt v 4) = Some mem' -> exists x, read1 mem' (r, off) = Some x /\ x <> 0.
Proof.
  intros (b & Hb & Ho & Hl & ->)%region_write_inv.
  pose proof (cells_write_same mem r off _ b Hb Ho Hl) as Hc. rewrite length_WriteRedundantVarInt, range_locs_S in Hc.
  inversion Hc as [|? x ? ? Hx _ E1 E2]; subst. eexists. split; [exact Hx|].
  pose proof (u8_range v). rewrite lor_80 by done. divlia.
Qed.

Lemma cells_length mem locs out : cells mem locs out -> length locs = length out.
Proof. apply Forall2_length. Qed.

(** Two ways to split off the locations of one region agree. *)
Lemma split_region (pre pre' : list Ptr) r s s' n n' :
  Forall (fun l => l.1 <> r) pre -> Forall (fun l => l.1 <> r) pre' ->
  pre ++ range_locs r s n = pre' ++ range_locs r s' n' -> pre = pre' /\ n = n'.
Proof.
  intros Hp Hp' E.
  assert (Hk : forall (q : list Ptr) s m, Forall (fun l => l.1 <> r) q ->
    filter (fun l => l.1 <> r) (q ++ range_locs r s m) = q).
  { intros q s1 m Hq. rewrite filter_app. assert (E1 : filter (fun l : Ptr => l.1 <> r) (range_locs r s1 m) = []).
    { revert s1. induction m as [|m IH]; intros s1; [done|]. rewrite range_locs_S, filter_cons_False by naive_solver. done. }
    rewrite E1, app_nil_r. clear E E1 Hp Hp'. induction Hq as [|x q Hx Hq IH]; [done|]. by rewrite filter_cons_True, IH. }
  assert (pre = pre') as ->.
  { rewrite <- (Hk pre s n Hp), E. by apply Hk. }
  split; [done|]. apply app_inv_head, (f_equal length) in E. by rewrite !length_range_locs in E.
Qed.

(** ** The stream a world holds *)

Section Rep.
Context {D : Type}.
Implicit Types w : World D.

(** The last locations of the stream are the octets of region [r] from [s] to
    the write pointer; the earlier ones are in other regions. *)
Definition in_cur (r : nat) (s ptr : Z) (locs : list Ptr) : Prop :=
  exists pre, locs = pre ++ range_locs r s (Z.to_nat (ptr - s)) /\ Forall (fun l => l.1 <> r) pre.

Definition cur_ok w (locs : list Ptr) : Prop :=
  let wr := w_wr w in
  match cur_region wr with
  | None => cur_begin wr = 0 /\ cur_end wr = 0 /\ write_ptr_ wr = 0
  | Some r =>
      exists b s, w_mem w !! r = Some b /\ 0 <= cur_begin wr <= s /\ s <= write_ptr_ wr <= cur_end wr /\
        cur_end wr <= Z.of_nat (length b) /\ in_cur r s (write_ptr_ wr) locs
  end.

(** The world holds the stream [out], octet by octet, at [locs]. *)
Record rep w (locs : list Ptr) (out : list Z) : Prop := {
  rep_cells : cells (w_mem w) locs out;
  rep_nodup : NoDup locs;
  rep_cur : cur_ok w locs }.

(** The octets that writing messages may change: those of the stream that are in
    the current range, the free octets of the range, and the size fields of open
    messages. *)
Definition may_write w (locs : list Ptr) (l : Ptr) : Prop :=
  (Some l.1 = cur_region (w_wr w) /\ (l ∈ locs \/ write_ptr_ (w_wr w) <= l.2 < cur_end (w_wr w))) \/
  exists m r off, m ∈ w_msgs w /\ size_field_ m = Some (r, off) /\ l ∈ range_locs r off 4.

(** Where a size field that was not there before may be. *)
Definition new_field w (locs : list Ptr) (p : Ptr) : Prop :=
  Some p.1 = cur_region (w_wr w) /\ forall l, l ∈ range_locs p.1 p.2 4 -> l ∈ locs.

Definition fields_from (ms ms' : list Message) (new : Ptr -> Prop) : Prop :=
  forall m' p, m' ∈ ms' -> size_field_ m' = Some p -> (exists m, m ∈ ms /\ size_field_ m = Some p) \/ new p.

(** The root message gets no size field. A size field that no message has any more
    is in the current range or has been written, and the first octet of a size is
    not zero. *)
Definition fields_kept w' (ms ms' : list Message) : Prop :=
  ((size_field_ <$> head ms') = Some None \/ (size_field_ <$> head ms') = (size_field_ <$> head ms)) /\
  forall m p, m ∈ ms -> size_field_ m = Some p ->
    (exists m', m' ∈ ms' /\ size_field_ m' = Some p) \/ Some p.1 = cur_region (w_wr w') \/
    exists x, read1 (w_mem w') p = Some x /\ x <> 0.

(** What writing does to a world between two calls of the delegate. *)
Record wframe w (locs : list Ptr) w' (locs' : list Ptr) : Prop := {
  fr_dlg : w_dlg w' = w_dlg w;
  fr_mem : forall r b, w_mem w !! r = Some b -> exists b', w_mem w' !! r = Some b' /\ length b' = length b;
  fr_regions : length (w_mem w') = length (w_mem w);
  fr_keep : forall l, ~ may_write w locs l -> read1 (w_mem w') l = read1 (w_mem w) l;
  fr_msgs : fields_from (w_msgs w) (w_msgs w') (new_field w' locs');
  fr_kept : fields_kept w' (w_msgs w) (w_msgs w');
  fr_range : cur_region (w_wr w') = cur_region (w_wr w) /\ cur_begin (w_wr w') = cur_begin (w_wr w) /\
             cur_end (w_wr w') = cur_end (w_wr w);
  fr_locs : locs' = locs /\ write_ptr_ (w_wr w') = write_ptr_ (w_wr w) \/
            exists r s pre, cur_region (w_wr w) = Some r /\ Forall (fun l => l.1 <> r) pre /\
              locs = pre ++ range_locs r s (Z.to_nat (write_ptr_ (w_wr w) - s)) /\
              locs' = pre ++ range_locs r s (Z.to_nat (write_ptr_ (w_wr w') - s)) /\
              cur_begin (w_wr w) <= s /\ s <= write_ptr_ (w_wr w) /\ s <= write_ptr_ (w_wr w') }.

Lemma fields_from_refl ms new : fields_from ms ms new.
Proof. intros m p Hm Hp. left. eauto. Qed.

Lemma fields_kept_refl w ms : fields_kept w ms ms.
Proof. split; [by right|]. intros m p Hm Hp. left. eauto. Qed.

Lemma wframe_refl w locs : wframe w locs w locs.
Proof. constructor; try done; [intros r b Hb; by exists b|by apply fields_from_refl|by apply fields_kept_refl|by left]. Qed.

(** *** Writing at the pointer *)

Lemma write_at_ptr w locs out src r :
  rep w locs out -> cur_region (w_wr w) = Some r ->
  write_ptr_ (w_wr w) + Z.of_nat (length src) <= cur_end (w_wr w) ->
  exists mem, region_write (w_mem w) r (write_ptr_ (w_wr w)) src = Some mem /\
    let w' := set_ptr (set_mem w mem) (write_ptr_ (w_wr w) + Z.of_nat (length src)) in
    let locs' := locs ++ range_locs r (write_ptr_ (w_wr w)) (length src) in
    rep w' locs' (out ++ src) /\ wframe w locs w' locs'.
Proof.
  intros [Hc Hnd Hcur] Hr Hfit. unfold cur_ok in Hcur. rewrite Hr in Hcur.
  destruct Hcur as (b & s & Hb & Hs & Hp & Hl & pre & Hlocs & Hpre).
  set (ptr := write_ptr_ (w_wr w)) in *.
  assert (Hfit' : (Z.to_nat ptr + length src <= length b)%nat) by lia.
  exists (<[r := buf_write b (Z.to_nat ptr) src]> (w_mem w)).
  split; [apply region_write_Some; [done|lia|done]|]. cbn zeta.
  assert (Hnew : forall l, l ∈ locs -> l ∉ range_locs r ptr (length src)).
  { intros l Hin. rewrite elem_of_range_locs. intros [H1 H2]. rewrite Hlocs in Hin.
    apply elem_of_app in Hin as [Hin|Hin].
    - rewrite Forall_forall in Hpre. by apply (Hpre l).
    - apply elem_of_range_locs in Hin. lia. }
  assert (Hcat : locs ++ range_locs r ptr (length src) =
    pre ++ range_locs r s (Z.to_nat (ptr + Z.of_nat (length src) - s))).
  { rewrite Hlocs, <- app_assoc. f_equal.
    replace (Z.to_nat (ptr + Z.of_nat (length src) - s)) with (Z.to_nat (ptr - s) + length src)%nat by lia.
    rewrite range_locs_app. do 2 f_equal. lia. }
  split; constructor.
  - apply Forall2_app; [apply cells_write_other; [done|lia|done..]|apply cells_write_same; [done|lia|done]].
  - apply NoDup_app. split_and!; [done|intros l Hl'; by apply Hnew|apply NoDup_range_locs].
  - unfold cur_ok. cbn. rewrite Hr. exists (buf_write b (Z.to_nat ptr) src), s.
    rewrite buf_write_length by done. split_and!; try lia.
    + apply list_lookup_insert_eq. by eapply lookup_lt_Some.
    + exists pre. split; [exact Hcat|done].
  - done.
  - intros r' b' Hb'. cbn. destruct (decide (r' = r)) as [->|Hne].
    + rewrite Hb in Hb'. injection Hb' as <-. eexists. split; [apply list_lookup_insert_eq; by eapply lookup_lt_Some|].
      by rewrite buf_write_length.
    + rewrite list_lookup_insert_ne by done. eauto.
  - cbn. apply length_insert.
  - intros l Hl'. cbn. apply read1_write_other; [done|lia|done|]. intros Hin. apply Hl'. left.
    apply elem_of_range_locs in Hin as [H1 H2]. rewrite Hr, H1. split; [done|]. right. fold ptr. lia.
  - apply fields_from_refl.
  - apply fields_kept_refl.
  - done.
  - right. exists r, s, pre. cbn. fold ptr. split_and!; try done; lia.
Qed.

(** *** Overwriting octets of the stream *)

Lemma overwrite w locs out r off data pos m :
  rep w locs out -> take (length data) (drop pos locs) = range_locs r off (length data) -> length data = 4%nat ->
  m ∈ w_msgs w -> size_field_ m = Some (r, off) ->
  exists mem, region_write (w_mem w) r off data = Some mem /\
    rep (set_mem w mem) locs (take pos out ++ data ++ drop (pos + length data) out) /\
    wframe w locs (set_mem w mem) locs.
Proof.
  intros [Hc Hnd Hcur] Hpos H4 Hm Hfield. set (n := length data) in *.
  assert (Hn : (0 < n)%nat) by lia.
  assert (Hsplit : locs = take pos locs ++ range_locs r off n ++ drop (pos + n) locs).
  { rewrite <- Hpos, <- drop_drop. by rewrite take_drop, take_drop. }
  assert (Hlen : (pos + n <= length locs)%nat).
  { apply (f_equal length) in Hpos. rewrite length_take, length_drop, length_range_locs in Hpos. lia. }
  assert (Hout : length out = length locs) by (symmetry; by eapply cells_length).
  assert (Hmid : cells (w_mem w) (range_locs r off n) (take n (drop pos out))).
  { rewrite <- Hpos. apply Forall2_take, Forall2_drop, Hc. }
  (* the region exists and is long enough *)
  assert (Hreg : exists b, w_mem w !! r = Some b /\ 0 <= off /\ (Z.to_nat off + n <= length b)%nat).
  { assert (Hall : forall l, l ∈ range_locs r off n -> exists x, read1 (w_mem w) l = Some x).
    { intros l Hin. apply list_elem_of_lookup in Hin as [i Hi].
      destruct (Forall2_lookup_l _ _ _ _ _ Hmid Hi) as (x & _ & Hx). eauto. }
    destruct (Hall (r, off)) as [x Hx]; [apply elem_of_range_locs; cbn; lia|].
    destruct (Hall (r, off + Z.of_nat (n - 1))) as [y Hy]; [apply elem_of_range_locs; cbn; lia|].
    unfold read1 in Hx, Hy. cbn [fst snd] in *. destruct (w_mem w !! r) as [b|]; [|done]. cbn [mbind option_bind] in *.
    destruct (Z.leb_spec 0 off); [|done]. destruct (Z.leb_spec 0 (off + Z.of_nat (n - 1))); [|done].
    exists b. split_and!; [done|done|]. apply lookup_lt_Some in Hy. lia. }
  destruct Hreg as (b & Hb & Ho & Hfit).
  exists (<[r := buf_write b (Z.to_nat off) data]> (w_mem w)). split; [by apply region_write_Some|].
  assert (Hdis : forall l, l ∈ take pos locs \/ l ∈ drop (pos + n) locs -> l ∉ range_locs r off n).
  { intros l Hin Hin'. rewrite Hsplit in Hnd. apply NoDup_app in Hnd as (_ & Hd1 & Hnd).
    apply NoDup_app in Hnd as (_ & Hd2 & _). destruct Hin as [Hin|Hin].
    - apply (Hd1 l); [done|]. apply elem_of_app. by left.
    - by apply (Hd2 l). }
  split; constructor.
  - cbn [set_mem w_mem]. rewrite Hsplit at 1. apply Forall2_app; [|apply Forall2_app].
    + apply cells_write_other; [done..| |by apply Forall2_take]. intros l Hl. apply Hdis. by left.
    + by apply cells_write_same.
    + apply cells_write_other; [done..| |by apply Forall2_drop]. intros l Hl. apply Hdis. by right.
  - done.
  - unfold cur_ok in *. cbn [set_mem w_mem w_wr]. destruct (cur_region (w_wr w)) as [rc|]; [|done].
    destruct Hcur as (bc & s & Hbc & Hrest). destruct (decide (rc = r)) as [->|Hnr].
    + rewrite Hb in Hbc. injection Hbc as <-. exists (buf_write b (Z.to_nat off) data), s.
      rewrite buf_write_length by done. split; [apply list_lookup_insert_eq; by eapply lookup_lt_Some|done].
    + exists bc, s. by rewrite list_lookup_insert_ne.
  - done.
  - intros r' b' Hb'. cbn. destruct (decide (r' = r)) as [->|Hner].
    + rewrite Hb in Hb'. injection Hb' as <-. eexists. split; [apply list_lookup_insert_eq; by eapply lookup_lt_Some|].
      by rewrite buf_write_length.
    + rewrite list_lookup_insert_ne by done. eauto.
  - cbn. apply length_insert.
  - intros l Hl. cbn. apply read1_write_other; [done..|]. intros Hin. apply Hl. right.
    exists m, r, off. split_and!; [done..|]. by rewrite <- H4.
  - apply fields_from_refl.
  - apply fields_kept_refl.
  - done.
  - by left.
Qed.


(** Where a location of the current region is in the stream. *)
Lemma in_cur_lookup r s ptr locs pos off :
  in_cur r s ptr locs -> locs !! pos = Some (r, off) -> s <= ptr ->
  exists pre, locs = pre ++ range_locs r s (Z.to_nat (ptr - s)) /\ Forall (fun l => l.1 <> r) pre /\
    s <= off < ptr /\ Z.of_nat pos = Z.of_nat (length pre) + (off - s) /\
    take pos locs = pre ++ range_locs r s (Z.to_nat (off - s)).
Proof.
  intros (pre & Hl & Hpre) Hpos Hs. exists pre. split; [done|]. split; [done|]. subst locs.
  destruct (decide (pos < length pre)%nat).
  { rewrite lookup_app_l in Hpos by done. rewrite Forall_forall in Hpre.
    exfalso. apply (Hpre (r, off)); [by eapply list_elem_of_lookup_2|done]. }
  rewrite lookup_app_r in Hpos by lia. unfold range_locs in Hpos at 1.
  rewrite list_lookup_fmap, fmap_Some in Hpos. destruct Hpos as (j & Hj & [= Hoff]).
  apply lookup_seq in Hj as [-> Hj]. split; [lia|]. split; [lia|].
  rewrite take_app_ge by lia. f_equal. replace (pos - length pre)%nat with (Z.to_nat (off - s)) by lia.
  replace (Z.to_nat (ptr - s)) with (Z.to_nat (off - s) + Z.to_nat (ptr - off))%nat by lia.
  rewrite range_locs_app, take_app_le by (rewrite length_range_locs; lia).
  rewrite take_ge by (rewrite length_range_locs; lia). done.
Qed.

(** *** Compaction: the message moves back over its size field *)

Lemma compact w locs out r off pos size v :
  rep w locs out -> cur_region (w_wr w) = Some r -> 0 <= size ->
  off = write_ptr_ (w_wr w) - size - 4 -> cur_begin (w_wr w) <= off ->
  take 4 (drop pos locs) = range_locs r off 4 -> is_u8 v ->
  exists w1 mem, Rewind w size 3 = Some w1 /\ write_ptr_ (w_wr w1) = off + 1 + size /\ w_msgs w1 = w_msgs w /\
    region_write (w_mem w1) r off [v] = Some mem /\
    let w' := set_mem w1 mem in
    let locs' := take pos locs ++ range_locs r off (S (Z.to_nat size)) in
    rep w' locs' (take pos out ++ [v] ++ drop (pos + 4) out) /\ wframe w locs w' locs' /\
    w_msgs w' = w_msgs w.
Proof.
  intros Hrep Hr Hsz Hoff Hbeg Hpos Hv. pose proof Hrep as [Hc Hnd Hcur]. unfold cur_ok in Hcur. rewrite Hr in Hcur.
  destruct Hcur as (b & s & Hb & Hs & Hp & Hl & Hin). set (ptr := write_ptr_ (w_wr w)) in *.
  assert (Hpo : locs !! pos = Some (r, off)).
  { rewrite <- (Nat.add_0_r pos), <- lookup_drop, <- (lookup_take_lt _ 4) by lia. by rewrite Hpos, range_locs_S. }
  destruct (in_cur_lookup r s ptr locs pos off Hin Hpo ltac:(lia)) as (pre & Hlocs & Hpre & Ho & Hpp & Htake).
  set (n := Z.to_nat size).
  assert (Hlen : length locs = (pos + 4 + n)%nat) by (rewrite Hlocs, length_app, length_range_locs; unfold n; lia).
  assert (Hol : length out = length locs) by (symmetry; by eapply cells_length).
  assert (Htail : drop (pos + 4) locs = range_locs r (ptr - size) n).
  { assert (E : locs = take pos locs ++ range_locs r off 4 ++ range_locs r (ptr - size) n).
    { rewrite Htake, <- app_assoc. rewrite Hlocs at 1. f_equal.
      replace (Z.to_nat (ptr - s)) with (Z.to_nat (off - s) + (4 + n))%nat by (unfold n; lia).
      rewrite !range_locs_app. do 2 f_equal; [|f_equal; lia]. f_equal. lia. }
    rewrite E at 1. rewrite app_assoc, drop_app_length'; [done|].
    rewrite length_app, length_take, length_range_locs. lia. }
  assert (Hdata : drop (pos + 4) out = take n (drop (Z.to_nat (ptr - size)) b)).
  { apply (cells_range (w_mem w) r (ptr - size) n _ b Hb); [lia|unfold n; lia|].
    rewrite <- Htail. by apply Forall2_drop. }
  set (data := take n (drop (Z.to_nat (ptr - size)) b)) in *.
  assert (Hdl : length data = n) by (unfold data; rewrite length_take, length_drop; unfold n; lia).
  set (b1 := buf_write b (Z.to_nat (off + 1)) data).
  assert (Hb1l : length b1 = length b) by (unfold b1; rewrite buf_write_length; [done|unfold n in *; lia]).
  set (mem1 := <[r := b1]> (w_mem w)).
  assert (Hrlt : (r < length (w_mem w))%nat) by (by eapply lookup_lt_Some).
  assert (Hm1 : mem1 !! r = Some b1) by (by apply list_lookup_insert_eq).
  set (w1 := set_ptr (set_mem w mem1) (ptr - 3)).
  exists w1, (<[r := buf_write b1 (Z.to_nat off) [v]]> mem1).
  split.
  { unfold Rewind. fold ptr. rewrite (proj2 (Z.leb_le (cur_begin _) (ptr - size))) by lia.
    rewrite (proj2 (Z.leb_le (ptr - size + size) _)) by lia.
    rewrite (proj2 (Z.leb_le (cur_begin _) (ptr - size - 3))) by lia.
    rewrite (proj2 (Z.leb_le (ptr - size - 3 + size) _)) by lia. cbn [andb]. rewrite Hr. cbn [mbind option_bind].
    rewrite (region_read_Some _ _ _ _ b) by (try done; fold n; unfold n; lia). fold n data. cbn [mbind option_bind].
    replace (ptr - size - 3) with (off + 1) by lia.
    rewrite (region_write_Some _ _ _ _ b) by (try done; unfold n in *; lia). cbn [mbind option_bind]. done. }
  split; [cbn; lia|]. split; [done|].
  split; [apply (region_write_Some _ _ _ _ b1); [done|lia|cbn [length]; lia]|]. cbn zeta.
  assert (Hpc : cells (w_mem w) (take pos locs) (take pos out)) by (by apply Forall2_take).
  assert (Hpd : forall l, l ∈ take pos locs -> l ∉ range_locs r off (S n)).
  { intros l Hl1 Hl2%elem_of_range_locs. rewrite Htake in Hl1. apply elem_of_app in Hl1 as [H1|H1].
    - rewrite Forall_forall in Hpre. by apply (Hpre l); [|apply Hl2].
    - apply elem_of_range_locs in H1. lia. }
  split; [|split; [|done]]; constructor.
  - apply Forall2_app.
    + apply (cells_write_other mem1 r off [v] b1); [done|lia|cbn [length]; lia| |].
      { intros l Hl1 Hl2. apply (Hpd l Hl1). apply elem_of_range_locs in Hl2. cbn [length] in Hl2.
        apply elem_of_range_locs. lia. }
      apply (cells_write_other _ r (off + 1) data b); [done|lia|unfold n in *; lia| |done].
      intros l Hl1 Hl2. apply (Hpd l Hl1). apply elem_of_range_locs in Hl2. apply elem_of_range_locs. lia.
    + fold n. rewrite range_locs_S. change ((r, off) :: range_locs r (off + 1) n) with ([(r, off)] ++ range_locs r (off + 1) n).
      apply Forall2_app.
      * pose proof (cells_write_same mem1 r off [v] b1 Hm1 ltac:(lia) ltac:(cbn [length]; lia)) as H1.
        cbn [length] in H1. rewrite range_locs_S in H1. exact H1.
      * rewrite Hdata. apply (cells_write_other mem1 r off [v] b1); [done|lia|cbn [length]; lia| |].
        { intros l Hl1 Hl2. apply elem_of_range_locs in Hl1, Hl2. cbn [length] in Hl2. lia. }
        rewrite <- Hdl. apply cells_write_same; [done|lia|unfold n in *; lia].
  - apply NoDup_app. split_and!; [|intros l; apply Hpd|apply NoDup_range_locs].
    rewrite <- (take_drop pos locs) in Hnd. by apply NoDup_app in Hnd as (? & _).
  - unfold cur_ok. cbn. rewrite Hr. eexists _, s. split; [apply list_lookup_insert_eq; unfold mem1; by rewrite length_insert|].
    rewrite buf_write_length by (cbn [length]; lia). rewrite Hb1l. split_and!; try lia.
    exists pre. split; [|done]. rewrite Htake, <- app_assoc. f_equal. fold n.
    replace (Z.to_nat (ptr - 3 - s)) with (Z.to_nat (off - s) + S n)%nat by (unfold n; lia).
    rewrite range_locs_app. do 2 f_equal. lia.
  - done.
  - intros r' b' Hb'. cbn. destruct (decide (r' = r)) as [->|Hner].
    + rewrite Hb in Hb'. injection Hb' as <-. eexists.
      split; [apply list_lookup_insert_eq; unfold mem1; by rewrite length_insert|].
      rewrite buf_write_length by (cbn [length]; lia). done.
    + unfold mem1. rewrite !list_lookup_insert_ne by done. eauto.
  - cbn. unfold mem1. by rewrite !length_insert.
  - intros l Hl1. assert (Hnl : l ∉ range_locs r off (4 + n)).
    { intros Hin'. apply Hl1. left. split; [apply elem_of_range_locs in Hin' as [E _]; by rewrite Hr, E|]. left. rewrite <- (take_drop pos locs). apply elem_of_app. right.
      rewrite <- (take_drop 4 (drop pos locs)), Hpos, drop_drop, Htail.
      rewrite range_locs_app in Hin'. replace (off + Z.of_nat 4) with (ptr - size) in Hin' by lia. done. }
    rewrite elem_of_range_locs in Hnl. cbn.
    rewrite (read1_write_other mem1 r off [v] b1); [|done|lia|cbn [length]; lia|rewrite elem_of_range_locs; cbn [length]; lia].
    apply (read1_write_other _ r (off + 1) data b); [done|lia|unfold n in *; lia|rewrite elem_of_range_locs; lia].
  - apply fields_from_refl.
  - apply fields_kept_refl.
  - done.
  - right. exists r, s, pre. cbn. fold ptr. split_and!; try done; try lia.
    rewrite Htake, <- app_assoc. f_equal. fold n.
    replace (Z.to_nat (ptr - 3 - s)) with (Z.to_nat (off - s) + S n)%nat by (unfold n; lia).
    rewrite range_locs_app. do 2 f_equal. lia.
Qed.

End Rep.

(** ** Open messages and the stream

    A tower describes the stream of a root message with open nested messages:
    the content of the outermost one, the tag and the four reserved octets of
    the message nested in it, and so on inwards. *)

Inductive Tower :=
  | Top (c : list Z)
  | Nest (c tag res : list Z) (t : Tower).

Fixpoint phys (t : Tower) : list Z :=
  match t with Top c => c | Nest c tag res t => c ++ tag ++ res ++ phys t end.

Definition located (locs : list Ptr) (pos : nat) (m : Message) : Prop :=
  exists r off, size_field_ m = Some (r, off) /\ take 4 (drop pos locs) = range_locs r off 4.

(** The size field of every open nested message is where its reserved octets
    are. *)
Fixpoint fields_ok (locs : list Ptr) (pos : nat) (ms : list Message) (t : Tower) : Prop :=
  match t, ms with
  | Top _, [_] => True
  | Nest c tag res t, _ :: (m :: _) as ms' =>
      res = replicate 4 0 /\ located locs (pos + length c + length tag) m /\
      fields_ok locs (pos + length c + length tag + 4) (tail ms) t
  | _, _ => False
  end.

(** The sizes counted so far. *)
Fixpoint sizes_ok (ms : list Message) (t : Tower) : Prop :=
  match t, ms with
  | Top c, [m] => message_state_ m = kNotFinalized /\ msg_size m = Z.of_nat (length c)
  | Nest c tag _ t, m :: ms =>
      message_state_ m = kNotFinalized /\ msg_size m = Z.of_nat (length c + length tag + 4) /\ sizes_ok ms t
  | _, _ => False
  end.

Definition same_msgs (ms ms' : list Message) : Prop :=
  Forall2 (fun m m' => msg_size m = msg_size m' /\ message_state_ m = message_state_ m') ms ms' /\
  (size_field_ <$> head ms) = (size_field_ <$> head ms').

#[export] Instance same_msgs_refl : Reflexive same_msgs.
Proof. intros ms. split; [|done]. by apply Forall_Forall2_diag, Forall_true. Qed.

#[export] Instance same_msgs_trans : Transitive same_msgs.
Proof.
  intros x y z [H1 H1'] [H2 H2']. split; [|congruence].
  clear H1' H2'. revert z H2. induction H1 as [|m m' x y Hm H1 IH]; intros z H2; inversion H2; subst; constructor; [intuition congruence|auto].
Qed.

Lemma sizes_ok_same ms ms' t : same_msgs ms ms' -> sizes_ok ms t -> sizes_ok ms' t.
Proof.
  intros [H _]. revert t. induction H as [|m m' ms ms' [H1 H2] H IH]; intros [c|c tag res t]; cbn; try done.
  - inversion H; subst; [|done]. intros [? ?]. split; congruence.
  - intros (? & ? & ?). split_and!; [congruence..|auto].
Qed.

(** Append to the content of the innermost message. *)
Fixpoint push (t : Tower) (src : list Z) : Tower :=
  match t with Top c => Top (c ++ src) | Nest c tag res t => Nest c tag res (push t src) end.

Lemma phys_push t src : phys (push t src) = phys t ++ src.
Proof. induction t as [c|c tag res t IH]; cbn; [done|]. by rewrite IH, <- !app_assoc. Qed.

Lemma fields_ok_push locs t src : forall pos ms, fields_ok locs pos ms (push t src) <-> fields_ok locs pos ms t.
Proof.
  induction t as [c|c tag res t IH]; intros pos ms; cbn [push fields_ok]; [done|].
  destruct ms as [|m [|m' ms]]; try done. by rewrite IH.
Qed.

Lemma located_app locs locs' pos m : located locs pos m -> located (locs ++ locs') pos m.
Proof.
  intros (r & off & Hf & Ht). exists r, off. split; [done|]. rewrite <- Ht.
  apply (f_equal length) in Ht. rewrite length_take, length_drop, length_range_locs in Ht.
  rewrite drop_app_le by lia. rewrite take_app_le by (rewrite length_drop; lia). done.
Qed.

Lemma fields_ok_app locs locs' t : forall pos ms, fields_ok locs pos ms t -> fields_ok (locs ++ locs') pos ms t.
Proof.
  induction t as [c|c tag res t IH]; intros pos ms; cbn [fields_ok]; [done|].
  destruct ms as [|m [|m' ms]]; try done. intros (? & ? & ?). split_and!; auto using located_app.
Qed.

(** ** The contract of a delegate *)

(** [dlg_inv] is the delegate's own invariant. Writing does not break it, and a
    new buffer has room for a size field, leaves the stream as it is and keeps
    every open message's size field where the reserved octets of the message
    are (the octets may have moved). *)
Class DelegateOk (D : Type) `{Delegate D} := {
  dlg_inv : World D -> list Ptr -> Prop;
  dlg_frame w locs w' locs' : wframe w locs w' locs' -> dlg_inv w locs -> dlg_inv w' locs';
  dlg_extend w locs t out :
    dlg_inv w locs -> rep w locs out -> fields_ok locs 0 (w_msgs w) t -> phys t `prefix_of` out -> bytes_available w < 4 ->
    exists w' locs', Extend w = Some w' /\ rep w' locs' out /\ fields_ok locs' 0 (w_msgs w') t /\
      dlg_inv w' locs' /\ same_msgs (w_msgs w) (w_msgs w') /\ 4 <= bytes_available w' }.

Section Write.
Context `{DelegateOk D}.
Implicit Types w : World D.

(** The state between two appends. *)
Record winv w (locs : list Ptr) (t : Tower) (out : list Z) : Prop := {
  wi_rep : rep w locs out;
  wi_fields : fields_ok locs 0 (w_msgs w) t;
  wi_dlg : dlg_inv w locs;
  wi_prefix : phys t `prefix_of` out }.

Lemma cur_some w locs out : rep w locs out -> 0 < bytes_available w -> exists r, cur_region (w_wr w) = Some r.
Proof.
  intros [_ _ Hc] Ha. unfold cur_ok, bytes_available in *. destruct (cur_region (w_wr w)) as [r|]; [eauto|lia].
Qed.

Lemma WriteBytesUnsafe_ok w locs t out src :
  winv w locs t out -> Z.of_nat (length src) <= bytes_available w ->
  exists w' locs', WriteBytesUnsafe w src = Some w' /\ winv w' locs' t (out ++ src) /\ w_msgs w' = w_msgs w /\
    bytes_available w' = bytes_available w - Z.of_nat (length src).
Proof.
  intros [Hr Hf Hd Hpre] Ha. unfold bytes_available in *. unfold WriteBytesUnsafe.
  rewrite (proj2 (Z.leb_le _ _)) by lia. destruct (cur_region (w_wr w)) as [r|] eqn:Er.
  - destruct (write_at_ptr w locs out src r Hr Er ltac:(lia)) as (mem & -> & Hr' & Hfr). cbn [mbind option_bind].
    eexists _, _. split; [done|]. split; [|split; [done|cbn; lia]]. split; [exact Hr'| |by eapply dlg_frame|by apply prefix_app_r].
    cbn [set_ptr set_wr set_mem w_msgs]. by apply fields_ok_app.
  - pose proof (rep_cur _ _ _ Hr) as Hc. unfold cur_ok in Hc. rewrite Er in Hc.
    destruct src as [|x src]; [|cbn [length] in Ha; lia]. rewrite decide_True by done.
    exists w, locs. rewrite app_nil_r. split_and!; try done. cbn. lia.
Qed.

Lemma WriteBytesSlowPath_ok fuel : forall w locs t out src,
  winv w locs t out -> (length src <= fuel)%nat ->
  exists w' locs', WriteBytesSlowPath_loop fuel w src = Some w' /\ winv w' locs' t (out ++ src) /\
    same_msgs (w_msgs w) (w_msgs w').
Proof.
  induction fuel as [|fuel IH]; intros w locs t out src Hw Hl.
  { destruct src; [|cbn in Hl; lia]. exists w, locs. rewrite app_nil_r. done. }
  destruct src as [|x src]; [exists w, locs; rewrite app_nil_r; done|]. cbn [WriteBytesSlowPath_loop].
  set (l := x :: src) in *. assert (Hlp : (0 < length l)%nat) by (cbn; lia).
  assert (Hext : exists w1 locs1, (if cur_end (w_wr w) <=? write_ptr_ (w_wr w) then Extend w else Some w) = Some w1 /\
    winv w1 locs1 t out /\ same_msgs (w_msgs w) (w_msgs w1) /\ 0 < bytes_available w1).
  { destruct (Z.leb_spec (cur_end (w_wr w)) (write_ptr_ (w_wr w))).
    - destruct Hw as [Hr Hf Hd Hpre]. destruct (dlg_extend w locs t out Hd Hr Hf Hpre) as (w1 & locs1 & -> & ? & ? & ? & ? & ?).
      { unfold bytes_available. lia. }
      exists w1, locs1. split_and!; try done. lia.
    - exists w, locs. split_and!; try done. unfold bytes_available. lia. }
  destruct Hext as (w1 & locs1 & -> & Hw1 & Hs1 & Ha1). cbn [mbind option_bind].
  set (k := Z.to_nat (Z.min (bytes_available w1) (Z.of_nat (length l)))).
  assert (Hk : (0 < k <= length l)%nat) by (unfold k; lia).
  destruct (WriteBytesUnsafe_ok w1 locs1 t out (take k l) Hw1) as (w2 & locs2 & -> & Hw2 & Hm2 & _).
  { rewrite length_take. unfold k. lia. }
  cbn [mbind option_bind].
  destruct (IH w2 locs2 t _ (drop k l) Hw2) as (w3 & locs3 & H3 & Hw3 & Hs3); [rewrite length_drop; lia|].
  exists w3, locs3. split; [exact H3|]. rewrite <- app_assoc, take_drop in Hw3. split; [done|].
  etransitivity; [exact Hs1|]. by rewrite <- Hm2.
Qed.

Lemma WriteBytes_ok w locs t out src :
  winv w locs t out ->
  exists w' locs', WriteBytes w src = Some w' /\ winv w' locs' t (out ++ src) /\ same_msgs (w_msgs w) (w_msgs w').
Proof.
  intros Hw. unfold WriteBytes.
  destruct (Z.leb_spec (write_ptr_ (w_wr w) + Z.of_nat (length src)) (cur_end (w_wr w))).
  - destruct (WriteBytesUnsafe_ok w locs t out src Hw) as (w' & locs' & Hq1 & Hq2 & Hq3 & _).
    { unfold bytes_available. lia. }
    exists w', locs'. split_and!; try done. by rewrite Hq3.
  - by eapply WriteBytesSlowPath_ok.
Qed.

Lemma ReserveBytes_ok w locs t out :
  winv w locs t out ->
  exists w' locs' ptr, ReserveBytes w 4 = Some (w', ptr) /\ winv w' locs' t (out ++ replicate 4 0) /\
    same_msgs (w_msgs w) (w_msgs w') /\ take 4 (drop (length out) locs') = range_locs ptr.1 ptr.2 4 /\
    cur_region (w_wr w') = Some ptr.1.
Proof.
  intros Hw. unfold ReserveBytes.
  assert (Hext : exists w1 locs1,
    (if cur_end (w_wr w) <? write_ptr_ (w_wr w) + Z.of_nat 4 then Extend w else Some w) = Some w1 /\
    winv w1 locs1 t out /\ same_msgs (w_msgs w) (w_msgs w1) /\ 4 <= bytes_available w1).
  { destruct (Z.ltb_spec (cur_end (w_wr w)) (write_ptr_ (w_wr w) + Z.of_nat 4)).
    - destruct Hw as [Hr Hf Hd Hpre]. destruct (dlg_extend w locs t out Hd Hr Hf Hpre) as (w1 & locs1 & -> & ? & ? & ? & ? & ?).
      { unfold bytes_available. lia. }
      exists w1, locs1. split_and!; try done.
    - exists w, locs. split_and!; try done. unfold bytes_available. lia. }
  destruct Hext as (w1 & locs1 & -> & [Hr1 Hf1 Hd1 Hpre1] & Hs1 & Ha1). cbn [mbind option_bind].
  destruct (cur_some w1 locs1 out Hr1 ltac:(lia)) as [r Er]. unfold bytes_available in Ha1.
  rewrite (proj2 (Z.leb_le _ _)) by lia. rewrite Er. cbn [mbind option_bind].
  destruct (write_at_ptr w1 locs1 out (replicate 4 0) r Hr1 Er) as (mem & -> & Hr' & Hfr).
  { rewrite length_replicate. lia. }
  cbn [mbind option_bind]. rewrite length_replicate in *.
  eexists _, _, _. split; [done|]. split; [|split; [done|]].
  - split; [exact Hr'| |by eapply dlg_frame|by apply prefix_app_r]. cbn [set_ptr set_wr set_mem w_msgs]. by apply fields_ok_app.
  - cbn [fst snd]. rewrite <- (cells_length _ _ _ (rep_cells _ _ _ Hr1)), drop_app_len. split; [|done].
    apply take_ge. by rewrite length_range_locs.
Qed.

End Write.

(** ** Ending nested messages *)

(** The two ways to write the size of a nested message. *)
Definition size_enc (sf : list Z) (n : nat) : Prop :=
  sf = [Z.of_nat n] /\ Z.of_nat n <= kMaxOneByteMessageLength \/
  sf = WriteRedundantVarInt (Z.of_nat n) 4 /\ Z.of_nat n < kMaxMessageLength.

(** The content of a message once the messages nested in it have ended. *)
Inductive collapses : Tower -> list Z -> Prop :=
  | col_top c : collapses (Top c) c
  | col_nest c tag res t sf c' :
      collapses t c' -> size_enc sf (length c') -> collapses (Nest c tag res t) (c ++ tag ++ sf ++ c').

Lemma size_enc_length sf n : size_enc sf n -> (length sf = 1 \/ length sf = 4)%nat.
Proof. intros [[-> _]|[-> _]]; [by left|right; apply length_WriteRedundantVarInt]. Qed.

Lemma located_take locs locs' k pos m :
  take k locs' = take k locs -> (pos + 4 <= k)%nat -> located locs pos m -> located locs' pos m.
Proof.
  intros Hk Hp (r & off & Hf & Ht). exists r, off. split; [done|].
  assert (E : forall l : list Ptr, take 4 (drop pos l) = take 4 (drop pos (take k l))).
  { intros l. rewrite !take_drop_commute, take_take. do 2 f_equal. lia. }
  by rewrite E, Hk, <- E.
Qed.

Lemma fields_ok_take locs locs' k t : forall pos ms,
  take k locs' = take k locs -> fields_ok locs pos ms t -> (pos + length (phys t) <= k)%nat -> fields_ok locs' pos ms t.
Proof.
  induction t as [c|c tag res t IH]; intros pos ms Hk; cbn [fields_ok phys]; [done|].
  destruct ms as [|m [|m' ms]]; try done. rewrite !length_app. intros (Hr & Hl & Hf) Hp.
  assert (length res = 4%nat) by (by rewrite Hr). split_and!; [done|..].
  - eapply located_take; [done| |done]. lia.
  - apply IH; [done|done|lia].
Qed.

Lemma fields_ok_ext locs t : forall pos ms ms',
  Forall2 (fun m m' => size_field_ m = size_field_ m') ms ms' -> fields_ok locs pos ms t -> fields_ok locs pos ms' t.
Proof.
  induction t as [c|c tag res t IH]; intros pos ms ms' Hm; cbn [fields_ok].
  - inversion Hm as [|m m' ? ? ? Hm']; subst; [done|]. by inversion Hm'.
  - inversion Hm as [|m m' ? ? ? Hm']; subst; [done|]. inversion Hm' as [|m1 m1' ? ? E ?]; subst; [done|].
    intros (? & (r & off & Hf & Ht) & Hfs). split_and!; [done|exists r, off; by rewrite <- E|]. cbn [tail] in *. by eapply IH.
Qed.

Section Finalize.
Context `{DelegateOk D}.
Implicit Types w : World D.

Lemma wframe_msgs w locs w' locs' ms :
  wframe w locs w' locs' -> fields_from (w_msgs w) ms (new_field w' locs') -> fields_kept w' (w_msgs w) ms ->
  wframe w locs (set_msgs w' ms) locs'.
Proof. intros [? ? ? ? ? ?]. by constructor. Qed.

Lemma dlg_msgs w locs ms :
  dlg_inv w locs -> fields_from (w_msgs w) ms (new_field w locs) -> fields_kept w (w_msgs w) ms -> dlg_inv (set_msgs w ms) locs.
Proof. intros Hd Hm Hk. eapply dlg_frame; [|exact Hd]. apply wframe_msgs; [apply wframe_refl|done..]. Qed.

Lemma fields_from_last pms m rest m' new :
  size_field_ m' = None \/ size_field_ m' = size_field_ m -> fields_from (pms ++ m :: rest) (pms ++ [m']) new.
Proof.
  intros Hm x p Hx Hp. left. apply elem_of_app in Hx as [Hx| ->%list_elem_of_singleton]; [exists x; set_solver|].
  exists m. split; [set_solver|]. destruct Hm; congruence.
Qed.

(** The last message changes, and finalized messages nested in it go away. *)
Lemma fields_kept_last w pms m rest m' :
  size_field_ m' = size_field_ m -> Forall (fun x => size_field_ x = None) rest -> fields_kept w (pms ++ m :: rest) (pms ++ [m']).
Proof.
  intros Hm Hr. split; [right; destruct pms; cbn; congruence|].
  intros x p Hx Hp. left. apply elem_of_app in Hx as [Hx|[->|Hx]%elem_of_cons].
  - exists x. set_solver.
  - exists m'. split; [set_solver|congruence].
  - rewrite Forall_forall in Hr. specialize (Hr x Hx). congruence.
Qed.

(** The last message is finalized: its size field has been written. *)
Lemma fields_kept_closed w pms m m' r off :
  size_field_ m = Some (r, off) -> size_field_ m' = None ->
  cur_region (w_wr w) = Some r \/ (exists x, read1 (w_mem w) (r, off) = Some x /\ x <> 0) ->
  fields_kept w (pms ++ [m]) (pms ++ [m']).
Proof.
  intros Hf Hf' Hw. split; [destruct pms; cbn; [left; congruence|by right]|].
  intros x p Hx Hp. apply elem_of_app in Hx as [Hx| ->%list_elem_of_singleton]; [left; exists x; set_solver|].
  right. rewrite Hf in Hp. injection Hp as <-. destruct Hw as [->|]; [by left|by right].
Qed.

Lemma fields_step_last w locs pms m rest m' :
  size_field_ m' = size_field_ m -> Forall (fun x => size_field_ x = None) rest -> dlg_inv w locs ->
  w_msgs w = pms ++ m :: rest -> dlg_inv (set_msgs w (pms ++ [m'])) locs.
Proof.
  intros Hm Hr Hd E. apply dlg_msgs; [done|rewrite E; apply fields_from_last; by right|rewrite E; by apply fields_kept_last].
Qed.

Lemma rep_msgs w locs out ms : rep w locs out -> rep (set_msgs w ms) locs out.
Proof. intros [? ? ?]. by constructor. Qed.

Lemma insert_last {A} (l : list A) x y : <[length l := y]> (l ++ [x]) = l ++ [y].
Proof. rewrite insert_app_r_alt by lia. by rewrite Nat.sub_diag. Qed.

Lemma backfill_ok w locs pms m po c :
  rep w locs (po ++ c) -> dlg_inv w locs -> w_msgs w = pms ++ [m] -> msg_size m = Z.of_nat (length c) ->
  (4 <= length po)%nat -> located locs (length po - 4) m -> Z.of_nat (length c) < kMaxMessageLength ->
  exists w' locs' sf m', backfill_size w (length pms) m = Some w' /\ size_enc sf (length c) /\
    rep w' locs' (take (length po - 4) po ++ sf ++ c) /\ dlg_inv w' locs' /\ w_msgs w' = pms ++ [m'] /\
    msg_size m' = msg_size m /\ size_field_ m' = None /\
    (message_state_ m' = kFinalizedWithCompaction /\ length sf = 1%nat \/
     message_state_ m' = kFinalized /\ length sf = 4%nat) /\
    take (length po - 4) locs' = take (length po - 4) locs.
Proof.
  intros Hr Hd Hms Hsz Hpo (r & off & Hf & Ht) Hmax. unfold backfill_size. rewrite Hf, Hsz.
  rewrite (proj2 (Z.ltb_lt _ _)) by done. set (pos := (length po - 4)%nat) in *.
  assert (Hdrop : drop (pos + 4) (po ++ c) = c) by (unfold pos; rewrite drop_app_length'; [done|lia]).
  assert (Htake : take pos (po ++ c) = take pos po) by (apply take_app_le; lia).
  assert (Hl : length locs = (length po + length c)%nat)
    by (rewrite (cells_length _ _ _ (rep_cells _ _ _ Hr)), length_app; done).
  destruct (_ && _ && _ && _) eqn:Hcond.
  - rewrite !andb_true_iff, bool_decide_eq_true, !Z.leb_le, Z.eqb_eq in Hcond. destruct Hcond as [[[H1 Hcr] H3] H4].
    change (Z.of_nat kMessageLengthFieldSize) with 4 in H3.
    assert (Hv : is_u8 (Z.of_nat (length c))).
    { change kMaxOneByteMessageLength with 127 in H1. unfold_u. lia. }
    destruct (compact w locs (po ++ c) r off pos (Z.of_nat (length c)) (Z.of_nat (length c)))
      as (w1 & mem & Hrw & Hp1 & Hm1 & Hwr & Hrep & Hfr & Hmsg); try done; [lia|].
    change kBytesToCompact with 3. rewrite Hrw. cbn [mbind option_bind].
    rewrite (proj2 (Z.eqb_eq _ _)) by lia. rewrite u8_id by done. rewrite Hwr. cbn [mbind option_bind].
    eexists _, _, [Z.of_nat (length c)], _. split; [done|]. split; [by left|].
    rewrite Hdrop, Htake in Hrep. split; [by apply rep_msgs|].
    split.
    { unfold set_msg. eapply dlg_frame; [|exact Hd]. rewrite Hmsg, Hms, insert_last. apply wframe_msgs; [done|..]; rewrite Hms.
      - apply fields_from_last. by left.
      - eapply fields_kept_closed; [done..|]. left. rewrite (proj1 (fr_range _ _ _ _ Hfr)). exact Hcr. }
    split_and!.
    + unfold set_msg. cbn [w_msgs set_msgs]. rewrite Hmsg, Hms. apply insert_last.
    + done.
    + done.
    + by left.
    + apply take_app_length'. rewrite length_take. lia.
  - destruct (overwrite w locs (po ++ c) r off (WriteRedundantVarInt (Z.of_nat (length c)) 4) pos m Hr)
      as (mem & Hwr & Hrep & Hfr); [by rewrite length_WriteRedundantVarInt|apply length_WriteRedundantVarInt|rewrite Hms; set_solver|done|].
    change kMessageLengthFieldSize with 4%nat. rewrite Hwr. cbn [mbind option_bind].
    rewrite length_WriteRedundantVarInt, Hdrop, Htake in Hrep.
    eexists _, _, (WriteRedundantVarInt (Z.of_nat (length c)) 4), _. split; [done|]. split; [by right|].
    split; [by apply rep_msgs|]. split.
    { unfold set_msg. cbn [w_msgs set_mem]. eapply dlg_frame; [|exact Hd]. rewrite Hms, insert_last.
      apply wframe_msgs; [done|..]; rewrite Hms; [apply fields_from_last; by left|].
      eapply fields_kept_closed; [done..|]. right. exact (read1_redundant _ _ _ _ _ Hwr). }
    split_and!.
    + unfold set_msg. cbn [w_msgs set_msgs set_mem]. rewrite Hms. apply insert_last.
    + done.
    + done.
    + right. split; [done|apply length_WriteRedundantVarInt].
    + done.
Qed.

Lemma kMax_val : kMaxMessageLength = 2 ^ 28 - 1.
Proof. reflexivity. Qed.

Lemma collapses_length t c : collapses t c -> forall locs pos ms, fields_ok locs pos ms t -> (length c <= length (phys t))%nat.
Proof.
  induction 1 as [c|c tag res t sf c' Hc IH Hs]; intros locs pos ms Hf; [done|]. cbn [fields_ok phys] in *.
  destruct ms as [|m [|m' ms]]; try done. destruct Hf as (Hr & _ & Hf). specialize (IH _ _ _ Hf).
  apply (f_equal length) in Hr. rewrite length_replicate in Hr.
  rewrite !length_app. pose proof (size_enc_length _ _ Hs). lia.
Qed.

(** The finalized nested message is folded into its parent. *)
Lemma absorb_ok w pms m m1 (c1 sf : list Z) k :
  w_msgs w = pms ++ [m; m1] -> msg_size m = Z.of_nat (k + 4) -> msg_size m1 = Z.of_nat (length c1) ->
  (message_state_ m1 = kFinalizedWithCompaction /\ length sf = 1%nat \/
   message_state_ m1 = kFinalized /\ length sf = 4%nat) ->
  Z.of_nat (k + 4 + length c1) < 2 ^ 32 ->
  absorb_nested w (length pms) (msg_size m1) =
    Some (set_msgs w (pms ++ [mkMessage (Z.of_nat (k + length sf + length c1)) (size_field_ m) (message_state_ m)])).
Proof.
  intros Hms Hsz Hsz1 Hst Hb. unfold absorb_nested. rewrite Hms.
  rewrite (lookup_app_r pms [m; m1] (S (length pms))) by lia. replace (S (length pms) - length pms)%nat with 1%nat by lia.
  cbn [lookup list_lookup mbind option_bind]. rewrite (lookup_app_r pms [m; m1] (length pms)) by lia.
  rewrite Nat.sub_diag. cbn [lookup list_lookup mbind option_bind]. rewrite take_app_len.
  unfold add_size. rewrite Hsz, Hsz1. cbn [msg_size size_field_ message_state_].
  destruct Hst as [[-> Hl]|[-> Hl]]; rewrite Hl.
  - rewrite decide_True by done. change kBytesToCompact with 3. do 6 f_equal.
    rewrite (u32_id (Z.of_nat (k + 4) + Z.of_nat (length c1))) by (unfold_u; lia). rewrite u32_id by (unfold_u; lia). lia.
  - rewrite decide_False by done. do 6 f_equal. rewrite u32_id by (unfold_u; lia). lia.
Qed.

Lemma Finalize_at_ok t : forall n w locs pms ms po,
  rep w locs (po ++ phys t) -> dlg_inv w locs -> w_msgs w = pms ++ ms -> (length ms <= n)%nat ->
  fields_ok locs (length po) ms t -> sizes_ok ms t -> (4 <= length po)%nat ->
  (forall m, head ms = Some m -> located locs (length po - 4) m) ->
  Z.of_nat (length (phys t)) < kMaxMessageLength ->
  exists w' locs' c sf m', Finalize_at n w (length pms) = Some (w', msg_size m') /\ collapses t c /\
    size_enc sf (length c) /\ rep w' locs' (take (length po - 4) po ++ sf ++ c) /\ dlg_inv w' locs' /\
    w_msgs w' = pms ++ [m'] /\ msg_size m' = Z.of_nat (length c) /\ size_field_ m' = None /\
    (message_state_ m' = kFinalizedWithCompaction /\ length sf = 1%nat \/
     message_state_ m' = kFinalized /\ length sf = 4%nat) /\
    take (length po - 4) locs' = take (length po - 4) locs.
Proof.
  induction t as [c|c tag res t IH]; intros n w locs pms ms po Hr Hd Hms Hn Hf Hs Hpo Hloc Hmax;
    cbn [fields_ok sizes_ok phys] in *.
  - destruct ms as [|m [|? ?]]; try done. destruct Hs as [Hst Hsz]. destruct n as [|n]; [cbn in Hn; lia|].
    cbn [Finalize_at]. assert (Hlk : w_msgs w !! length pms = Some m) by (rewrite Hms; apply list_lookup_middle; done).
    rewrite Hlk. cbn [mbind option_bind]. unfold is_finalized. rewrite Hst. rewrite bool_decide_eq_true_2 by done. cbn [negb].
    rewrite (proj2 (Nat.ltb_ge _ _)) by (rewrite Hms, length_app; cbn; lia). cbn [mbind option_bind].
    rewrite Hlk. cbn [mbind option_bind].
    destruct (backfill_ok w locs pms m po c Hr Hd Hms Hsz Hpo (Hloc m eq_refl) Hmax)
      as (w' & locs' & sf & m' & -> & Hse & Hr' & Hd' & Hms' & Hsz' & Hsf' & Hst' & Htk). cbn [mbind option_bind].
    exists w', locs', c, sf, m'. rewrite Hsz'. split_and!; try done. constructor.
  - destruct ms as [|m [|m1 ms]]; try done. destruct Hf as (Hres & Hloc1 & Hf). destruct Hs as (Hst & Hsz & Hs).
    apply (f_equal length) in Hres. rewrite length_replicate in Hres.
    cbn [tail] in Hf. destruct n as [|n]; [cbn in Hn; lia|]. cbn [Finalize_at].
    assert (Hlk : w_msgs w !! length pms = Some m) by (rewrite Hms; apply list_lookup_middle; done).
    rewrite Hlk. cbn [mbind option_bind]. unfold is_finalized. rewrite Hst. rewrite bool_decide_eq_true_2 by done. cbn [negb].
    rewrite (proj2 (Nat.ltb_lt _ _)) by (rewrite Hms, length_app; cbn; lia).
    set (po1 := po ++ c ++ tag ++ res).
    assert (Hpo1 : length po1 = (length po + length c + length tag + 4)%nat) by (unfold po1; rewrite !length_app; lia).
    rewrite !length_app in Hmax.
    destruct (IH n w locs (pms ++ [m]) (m1 :: ms) po1) as (w1 & locs1 & c1 & sf1 & m1' & Hfin & Hcol & Hse1 & Hr1 & Hd1 & Hms1 & Hsz1 & Hsf1 & Hst1 & Htk1);
      try done.
    { unfold po1. by rewrite <- !app_assoc. }
    { by rewrite Hms, <- app_assoc. }
    { cbn in *. lia. }
    { by rewrite Hpo1. }
    { lia. }
    { intros ? [= <-]. replace (length po1 - 4)%nat with (length po + length c + length tag)%nat by lia. done. }
    { lia. }
    replace (length (pms ++ [m])) with (S (length pms)) in Hfin by (rewrite length_app; cbn; lia).
    rewrite Hfin. cbn [mbind option_bind].
    pose proof (collapses_length t c1 Hcol _ _ _ Hf) as Hcl. pose proof (size_enc_length _ _ Hse1) as Hsl.
    assert (Hb28 := kMax_val).
    rewrite (absorb_ok w1 pms m m1' c1 sf1 (length c + length tag)); [| |lia|done|done|lia].
    2: { by rewrite Hms1, <- app_assoc. }
    cbn [mbind option_bind]. set (m2 := mkMessage _ (size_field_ m) (message_state_ m)).
    set (w2 := set_msgs w1 (pms ++ [m2])).
    assert (Hlk2 : w_msgs w2 !! length pms = Some m2) by (cbn; by apply list_lookup_middle).
    rewrite Hlk2. cbn [mbind option_bind].
    assert (Hout : take (length po1 - 4) po1 ++ sf1 ++ c1 = po ++ (c ++ tag ++ sf1 ++ c1)).
    { rewrite Hpo1. unfold po1. replace (length po + length c + length tag + 4 - 4)%nat with (length (po ++ c ++ tag)) by (rewrite !length_app; lia).
      replace (po ++ c ++ tag ++ res) with ((po ++ c ++ tag) ++ res) by (by rewrite <- !app_assoc).
      rewrite take_app_len. by rewrite <- !app_assoc. }
    rewrite Hout in Hr1.
    destruct (backfill_ok w2 locs1 pms m2 po (c ++ tag ++ sf1 ++ c1))
      as (w' & locs' & sf & m' & -> & Hse & Hr' & Hd' & Hms' & Hsz' & Hsf' & Hst' & Htk); try done.
    { by apply rep_msgs. }
    { apply (fields_step_last w1 locs1 pms m [m1'] m2); [done|by repeat constructor|done|]. by rewrite Hms1, <- app_assoc. }
    { cbn [msg_size m2]. rewrite !length_app. lia. }
    { eapply (located_take locs); [exact Htk1|lia|]. specialize (Hloc m eq_refl).
      destruct Hloc as (r & off & H1 & H2). by exists r, off. }
    { rewrite !length_app. lia. }
    cbn [mbind option_bind]. exists w', locs', (c ++ tag ++ sf1 ++ c1), sf, m'.
    assert (Hm2 : msg_size m2 = Z.of_nat (length (c ++ tag ++ sf1 ++ c1))) by (cbn [msg_size m2]; rewrite !length_app; lia).
    rewrite Hsz', Hm2. split_and!; try done; [by constructor|].
    rewrite Htk. assert (E : forall l : list Ptr, take (length po - 4) l = take (length po - 4) (take (length po1 - 4) l)).
    { intros l. rewrite take_take. f_equal. lia. }
    by rewrite E, Htk1, <- E.
Qed.

End Finalize.

(** ** Towers in context *)

(** The outer messages of a message at some depth. *)
Definition Ctx : Type := list (list Z * list Z * list Z).

Fixpoint plug (k : Ctx) (t : Tower) : Tower :=
  match k with [] => t | (c, tag, res) :: k => Nest c tag res (plug k t) end.

Definition cphys (k : Ctx) : list Z := concat ((fun '(c, tag, res) => c ++ tag ++ res) <$> k).

Lemma phys_plug k t : phys (plug k t) = cphys k ++ phys t.
Proof.
  induction k as [|[[c tag] res] k IH]; [done|]. cbn [plug phys]. rewrite IH. unfold cphys. cbn. by rewrite <- !app_assoc.
Qed.

Lemma push_plug k t src : push (plug k t) src = plug k (push t src).
Proof. induction k as [|[[c tag] res] k IH]; [done|]. cbn. by rewrite IH. Qed.

Lemma length_cphys_cons c tag res k :
  length (cphys ((c, tag, res) :: k)) = (length c + length tag + length res + length (cphys k))%nat.
Proof. unfold cphys. cbn. rewrite !length_app. lia. Qed.

Lemma fields_ok_plug locs k : forall pos pms m ms t, length pms = length k ->
  fields_ok locs pos (pms ++ m :: ms) (plug k t) <->
  fields_ok locs pos (pms ++ [m]) (plug k (Top [])) /\ fields_ok locs (pos + length (cphys k)) (m :: ms) t.
Proof.
  induction k as [|[[c tag] res] k IH]; intros pos pms m ms t Hl.
  - destruct pms; [|done]. cbn [app plug fields_ok cphys fmap list_fmap concat length]. rewrite Nat.add_0_r. naive_solver.
  - destruct pms as [|p0 pms]; [done|]. cbn [length] in Hl. injection Hl as Hl. cbn [app plug fields_ok].
    destruct pms as [|p1 pms]; cbn [app tail] in *.
    + specialize (IH (pos + length c + length tag + 4)%nat [] m ms t Hl). cbn [app] in IH. rewrite IH.
      rewrite length_cphys_cons. split.
      * intros (H1 & H2 & H3 & H4). assert (E : length res = 4%nat) by (by rewrite H1). rewrite E.
        replace (pos + (length c + length tag + 4 + length (cphys k)))%nat with (pos + length c + length tag + 4 + length (cphys k))%nat by lia.
        done.
      * intros ((H1 & H2 & H3) & H4). assert (E : length res = 4%nat) by (by rewrite H1). rewrite E in H4.
        replace (pos + (length c + length tag + 4 + length (cphys k)))%nat with (pos + length c + length tag + 4 + length (cphys k))%nat in H4 by lia.
        done.
    + specialize (IH (pos + length c + length tag + 4)%nat (p1 :: pms) m ms t Hl). cbn [app] in IH. rewrite IH.
      rewrite length_cphys_cons. split.
      * intros (H1 & H2 & H3 & H4). assert (E : length res = 4%nat) by (by rewrite H1). rewrite E.
        replace (pos + (length c + length tag + 4 + length (cphys k)))%nat with (pos + length c + length tag + 4 + length (cphys k))%nat by lia.
        done.
      * intros ((H1 & H2 & H3) & H4). assert (E : length res = 4%nat) by (by rewrite H1). rewrite E in H4.
        replace (pos + (length c + length tag + 4 + length (cphys k)))%nat with (pos + length c + length tag + 4 + length (cphys k))%nat in H4 by lia.
        done.
Qed.

Definition ctx_sizes (pms : list Message) (k : Ctx) : Prop :=
  Forall2 (fun m '(c, tag, _) => message_state_ m = kNotFinalized /\ msg_size m = Z.of_nat (length c + length tag + 4)) pms k.

Lemma ctx_sizes_same pms pms' k :
  Forall2 (fun m m' => msg_size m = msg_size m' /\ message_state_ m = message_state_ m') pms pms' ->
  ctx_sizes pms k -> ctx_sizes pms' k.
Proof.
  intros Hp. revert k. induction Hp as [|m m' x y [H1 H2] Hp IH]; intros k Hk;
    inversion Hk as [|? [[??]?] ?? [??] ?]; subst; constructor; [split; congruence|by apply IH].
Qed.

Lemma sizes_ok_plug k : forall ms t,
  sizes_ok ms (plug k t) <-> exists pms ms', ms = pms ++ ms' /\ ctx_sizes pms k /\ sizes_ok ms' t.
Proof.
  induction k as [|[[c tag] res] k IH]; intros ms t; cbn [plug].
  - split; [intros H; exists [], ms; split_and!; [done|constructor|done]|].
    intros (pms & ms' & -> & Hk & H). by inversion Hk.
  - cbn [sizes_ok]. split.
    + destruct ms as [|m ms]; [done|]. intros (H1 & H2 & (pms & ms' & -> & Hk & Hs)%IH).
      exists (m :: pms), ms'. split_and!; [done|by constructor|done].
    + intros (pms & ms' & -> & Hk & H). inversion Hk as [|m y pms' k' Hm Hk']; subst. destruct Hm as [H1 H2]. cbn [app].
      split_and!; [done..|]. apply IH. eauto.
Qed.

Lemma sizes_ok_cons ms t : sizes_ok ms t -> exists m ms', ms = m :: ms'.
Proof. destruct t, ms; cbn; try done; eauto. Qed.

Section Append.
Context `{DelegateOk D}.
Implicit Types w : World D.

(** The state between two appends, sizes included. *)
Record minv w (locs : list Ptr) (t : Tower) : Prop := {
  mi_w : winv w locs t (phys t);
  mi_sizes : sizes_ok (w_msgs w) t }.

Definition root_field w : option (option Ptr) := size_field_ <$> head (w_msgs w).

(** The messages nested deeper than the [length k]-th end. *)
Lemma end_nested_ok w locs k t :
  minv w locs (plug k t) -> Z.of_nat (length (phys (plug k t))) < kMaxMessageLength ->
  exists w' locs' c, end_nested w (length k) = Some w' /\ minv w' locs' (plug k (Top c)) /\ collapses t c /\
    root_field w' = root_field w.
Proof.
  intros [[Hr Hf Hd _] Hs] Hmax. pose proof (proj1 (sizes_ok_plug _ _ _) Hs) as (pms & ms & Hms & Hk & Hst).
  assert (Hpl : length pms = length k) by (by eapply Forall2_length). unfold end_nested.
  destruct t as [c|c tag res t].
  { cbn [sizes_ok] in Hst. destruct ms as [|m [|? ?]]; try done.
    rewrite (proj2 (Nat.ltb_ge _ _)) by (rewrite Hms, length_app; cbn; lia).
    exists w, locs, c. split_and!; try done. constructor. }
  destruct ms as [|m ms]; [done|]. rewrite Hms, fields_ok_plug in Hf by done. destruct Hf as [Hfo Hf].
  cbn [fields_ok sizes_ok] in Hf, Hst. destruct ms as [|m1 ms]; [done|].
  destruct Hf as (Hres & Hloc & Hf). destruct Hst as (Hlive & Hsz & Hst). cbn [tail] in Hf.
  apply (f_equal length) in Hres. rewrite length_replicate in Hres.
  rewrite (proj2 (Nat.ltb_lt _ _)) by (rewrite Hms, length_app; cbn; lia). unfold EndNestedMessage, Finalize.
  rewrite phys_plug in Hr, Hmax. cbn [phys] in Hr, Hmax. rewrite !length_app in Hmax.
  set (po := cphys k ++ c ++ tag ++ res).
  assert (Hpo : length po = (length (cphys k) + length c + length tag + 4)%nat) by (unfold po; rewrite !length_app; lia).
  destruct (Finalize_at_ok t (length (w_msgs w)) w locs (pms ++ [m]) (m1 :: ms) po)
    as (w1 & locs1 & c1 & sf & m1' & Hfin & Hcol & Hse & Hr1 & Hd1 & Hms1 & Hsz1 & Hsf1 & Hst1 & Htk); try done.
  { unfold po. by rewrite <- !app_assoc. }
  { by rewrite Hms, <- app_assoc. }
  { rewrite Hms, length_app. cbn. lia. }
  { rewrite Hpo. by replace (length (cphys k) + length c + length tag + 4)%nat with (0 + length (cphys k) + length c + length tag + 4)%nat by lia. }
  { lia. }
  { intros ? [= <-]. rewrite Hpo. by replace (length (cphys k) + length c + length tag + 4 - 4)%nat with (0 + length (cphys k) + length c + length tag)%nat by lia. }
  { lia. }
  replace (length (pms ++ [m])) with (S (length k)) in Hfin by (rewrite length_app; cbn; lia).
  rewrite Hfin. cbn [mbind option_bind]. rewrite <- Hpl.
  pose proof (collapses_length t c1 Hcol _ _ _ Hf) as Hcl. pose proof (size_enc_length _ _ Hse) as Hsl.
  assert (Hb28 := kMax_val).
  rewrite (absorb_ok w1 pms m m1' c1 sf (length c + length tag)); [| |lia|done|done|lia].
  2: { by rewrite Hms1, <- app_assoc. }
  set (m2 := mkMessage _ (size_field_ m) (message_state_ m)).
  assert (Hout : take (length po - 4) po ++ sf ++ c1 = cphys k ++ (c ++ tag ++ sf ++ c1)).
  { rewrite Hpo. unfold po. replace (length (cphys k) + length c + length tag + 4 - 4)%nat with (length (cphys k ++ c ++ tag)) by (rewrite !length_app; lia).
    replace (cphys k ++ c ++ tag ++ res) with ((cphys k ++ c ++ tag) ++ res) by (by rewrite <- !app_assoc).
    rewrite take_app_len. by rewrite <- !app_assoc. }
  rewrite Hout in Hr1. exists (set_msgs w1 (pms ++ [m2])), locs1, (c ++ tag ++ sf ++ c1). split; [done|].
  split; [split; [split|]|split].
  - rewrite phys_plug. by apply rep_msgs.
  - cbn [w_msgs set_msgs]. apply fields_ok_plug; [done|]. split; [|done].
    eapply fields_ok_ext with (ms := pms ++ [m]); [apply Forall2_app; [by apply Forall_Forall2_diag, Forall_true|by repeat constructor]|].
    eapply fields_ok_take; [exact Htk|exact Hfo|]. rewrite phys_plug, app_nil_r. lia.
  - apply (fields_step_last w1 locs1 pms m [m1'] m2); [done|by repeat constructor|done|]. by rewrite Hms1, <- app_assoc.
  - reflexivity.
  - cbn [w_msgs set_msgs]. apply sizes_ok_plug. exists pms, [m2]. split_and!; [done..|]. cbn [sizes_ok].
    split; [exact Hlive|]. cbn [msg_size m2]. rewrite !length_app. lia.
  - by constructor.
  - unfold root_field. cbn [w_msgs set_msgs]. rewrite Hms. by destruct pms.
Qed.

Lemma sizes_ok_push k pms m c n src :
  ctx_sizes pms k -> message_state_ m = kNotFinalized -> msg_size m = Z.of_nat (length c) -> n = length src ->
  Z.of_nat (length c + n) < 2 ^ 32 ->
  sizes_ok (pms ++ [add_size m (Z.of_nat n)]) (plug k (Top (c ++ src))).
Proof.
  intros Hk Hm Hsz -> Hb. apply sizes_ok_plug. eexists _, _. split_and!; [done..|]. cbn [sizes_ok add_size message_state_ msg_size].
  split; [done|]. rewrite Hsz, u32_id by (unfold_u; lia). rewrite length_app. lia.
Qed.

Lemma WriteToStream_ok w locs k c src :
  minv w locs (plug k (Top c)) -> Z.of_nat (length (phys (plug k (Top c))) + length src) < 2 ^ 32 ->
  exists w' locs', WriteToStream w (length k) src = Some w' /\ minv w' locs' (plug k (Top (c ++ src))) /\
    root_field w' = root_field w.
Proof.
  intros [Hw Hs] Hmax. pose proof (proj1 (sizes_ok_plug _ _ _) Hs) as (pms & ms & Hms & Hk & Hst).
  assert (Hpl : length pms = length k) by (by eapply Forall2_length).
  cbn [sizes_ok] in Hst. destruct ms as [|m [|? ?]]; try done. destruct Hst as [Hlive Hsz].
  unfold WriteToStream. assert (Hlk : w_msgs w !! length k = Some m) by (rewrite Hms, <- Hpl; by apply list_lookup_middle).
  rewrite Hlk. cbn [mbind option_bind]. unfold is_finalized. rewrite Hlive. rewrite bool_decide_eq_true_2 by done. cbn [negb].
  rewrite u32_id by (unfold_u; lia). rewrite Nat2Z.id, take_ge by lia.
  destruct (WriteBytes_ok w locs _ _ src Hw) as (w' & locs' & -> & [Hr' Hf' Hd' _] & Hsame). cbn [mbind option_bind].
  destruct Hsame as [Hsame Hhead]. rewrite Hms in Hsame.
  apply Forall2_app_inv_l in Hsame as (pms' & ms' & Hp & Hm & Hms').
  inversion Hm as [|? m' ? ? [Hm1 Hm2] Hm3]; subst. inversion Hm3; subst.
  assert (Hpl' : length pms' = length k) by (rewrite <- Hpl; symmetry; by eapply Forall2_length).
  rewrite Hms'. rewrite <- Hpl'. rewrite (list_lookup_middle pms' [] m' _ eq_refl). cbn [mbind option_bind].
  eexists _, locs'. split; [done|]. rewrite phys_plug in Hr', Hmax. cbn [phys] in Hr', Hmax. rewrite length_app in Hmax.
  unfold set_msg. rewrite Hms', insert_last. split; [split; [split|]|].
  - rewrite phys_plug. cbn [phys]. rewrite app_assoc. by apply rep_msgs.
  - cbn [w_msgs set_msgs]. rewrite Hms' in Hf'. apply fields_ok_plug in Hf' as [Hf' _]; [|done].
    apply fields_ok_plug; [done|]. split; [|done].
    eapply fields_ok_ext; [|exact Hf']. apply Forall2_app; [by apply Forall_Forall2_diag, Forall_true|by repeat constructor].
  - by apply (fields_step_last w' locs' pms' m' []).
  - reflexivity.
  - cbn [w_msgs set_msgs]. eapply sizes_ok_push; [|congruence|congruence|done|lia].
    by eapply ctx_sizes_same.
  - unfold root_field in *. cbn [w_msgs set_msgs]. rewrite Hhead, Hms'. by destruct pms'.
Qed.


Lemma minv_collapses w locs k t c : minv w locs (plug k t) -> collapses t c -> (length c <= length (phys t))%nat.
Proof.
  intros [[_ Hf _ _] Hs] Hc. apply sizes_ok_plug in Hs as (pms & ms & Hms & Hk & Hst).
  destruct (sizes_ok_cons _ _ Hst) as (m & ms' & ->). rewrite Hms, fields_ok_plug in Hf by (by eapply Forall2_length).
  destruct Hf as [_ Hf]. by eapply collapses_length.
Qed.

(** Several writes in a row. *)
Lemma write_ranges_ok ranges : forall w locs k c,
  minv w locs (plug k (Top c)) -> Z.of_nat (length (phys (plug k (Top c))) + length (concat ranges)) < 2 ^ 32 ->
  exists w' locs', write_ranges w (length k) ranges = Some w' /\ minv w' locs' (plug k (Top (c ++ concat ranges))) /\
    root_field w' = root_field w.
Proof.
  induction ranges as [|x ranges IH]; intros w locs k c Hw Hmax; cbn [write_ranges concat] in *.
  { exists w, locs. by rewrite app_nil_r. }
  rewrite length_app in Hmax.
  destruct (WriteToStream_ok w locs k c x Hw ltac:(lia)) as (w1 & locs1 & -> & Hw1 & Hf1). cbn [mbind option_bind].
  destruct (IH w1 locs1 k _ Hw1) as (w2 & locs2 & -> & Hw2 & Hf2).
  { rewrite phys_plug in *. cbn [phys] in *. rewrite !length_app in *. lia. }
  exists w2, locs2. rewrite app_assoc. split_and!; [done..|]. by rewrite Hf2.
Qed.

(** End the nested messages, then write. *)
Lemma append_ok w locs k t src :
  minv w locs (plug k t) -> Z.of_nat (length (phys (plug k t)) + length src) < kMaxMessageLength ->
  exists w' locs' c, (w ← end_nested w (length k); WriteToStream w (length k) src) = Some w' /\
    minv w' locs' (plug k (Top (c ++ src))) /\ collapses t c /\ root_field w' = root_field w /\
    (length c <= length (phys t))%nat.
Proof.
  intros Hw Hmax. assert (Hb28 := kMax_val).
  destruct (end_nested_ok w locs k t Hw ltac:(lia)) as (w1 & locs1 & c & -> & Hw1 & Hc & Hf1). cbn [mbind option_bind].
  pose proof (minv_collapses w locs k t c Hw Hc) as Hcl.
  destruct (WriteToStream_ok w1 locs1 k c src Hw1) as (w2 & locs2 & Hws & Hw2 & Hf2).
  { rewrite phys_plug in *. cbn [phys]. rewrite length_app in *. lia. }
  exists w2, locs2, c. split_and!; try done. by rewrite Hf2.
Qed.

Lemma BeginNestedMessage_ok w locs k t id :
  minv w locs (plug k t) -> id <> 0 ->
  Z.of_nat (length (phys (plug k t)) + length (WriteVarInt (MakeTagLengthDelimited id)) + 4) < kMaxMessageLength ->
  exists w' locs' c res, BeginNestedMessage w (length k) id = Some w' /\
    minv w' locs' (plug k (Nest c (WriteVarInt (MakeTagLengthDelimited id)) res (Top []))) /\ collapses t c /\
    root_field w' = root_field w /\ (length c <= length (phys t))%nat /\ length res = 4%nat.
Proof.
  intros Hw Hid Hmax. assert (Hb28 := kMax_val). set (tag := WriteVarInt (MakeTagLengthDelimited id)) in *.
  unfold BeginNestedMessage. rewrite (proj2 (Z.eqb_neq _ _)) by done.
  destruct (append_ok w locs k t tag Hw ltac:(lia)) as (w1 & locs1 & c & Ha & Hw1 & Hc & Hf1 & Hcl).
  fold tag. destruct (end_nested w (length k)) as [w0|]; [|done]. cbn [mbind option_bind] in *. rewrite Ha. cbn [mbind option_bind].
  destruct Hw1 as [Hw1 Hs1]. destruct (ReserveBytes_ok w1 locs1 _ _ Hw1) as (w2 & locs2 & [r off] & Hres & [Hr2 Hfo2 Hd2 _] & [Hsm Hhd] & Hloc & Hcr).
  change kMessageLengthFieldSize with 4%nat. rewrite Hres. cbn [mbind option_bind].
  apply sizes_ok_plug in Hs1 as (pms & ms & Hms & Hk & Hst). cbn [sizes_ok] in Hst.
  destruct ms as [|m [|? ?]]; try done. destruct Hst as [Hlive Hsz].
  rewrite Hms in Hsm. apply Forall2_app_inv_l in Hsm as (pms2 & ms2 & Hp & Hm & Hms2).
  inversion Hm as [|? m2 ? ? [Hm1 Hm2] Hm3]; subst. inversion Hm3; subst.
  assert (Hpl : length pms2 = length k).
  { rewrite <- (Forall2_length _ _ _ Hp). by eapply Forall2_length. }
  rewrite Hms2, <- Hpl, (list_lookup_middle pms2 [] m2 _ eq_refl). cbn [mbind option_bind].
  unfold set_msg. rewrite Hms2, insert_last. cbn [w_msgs set_msgs].
  rewrite phys_plug in Hr2, Hloc. cbn [phys] in Hr2, Hloc.
  eexists _, locs2, c, (replicate 4 0). split; [done|]. split; [split; [split|]|split_and!; try done].
  - rewrite phys_plug. cbn [phys]. rewrite app_nil_r. apply rep_msgs, rep_msgs. by rewrite <- !app_assoc in *.
  - cbn [w_msgs set_msgs]. rewrite <- app_assoc. cbn [app]. apply fields_ok_plug; [done|].
    rewrite Hms2 in Hfo2. apply fields_ok_plug in Hfo2 as [Hfo2 _]; [|done]. split.
    + eapply fields_ok_ext; [|exact Hfo2]. apply Forall2_app; [by apply Forall_Forall2_diag, Forall_true|by repeat constructor].
    + cbn [fields_ok tail]. split_and!; [done| |done]. exists r, off. split; [done|].
      cbn [fst snd] in Hloc. rewrite !length_app in Hloc. rewrite Nat.add_0_l, <- Nat.add_assoc. exact Hloc.
  - apply dlg_msgs; [by apply (fields_step_last w2 locs2 pms2 m2 [])| |].
    2: { split; [right; cbn; by destruct pms2|]. cbn [w_msgs set_msgs]. intros x p Hx Hpf. left. exists x. split; [set_solver|done]. }
    cbn [w_msgs set_msgs]. intros x p Hx Hpf. apply elem_of_app in Hx as [Hx| ->%list_elem_of_singleton]; [left; eauto|]. right.
    injection Hpf as <-. split; [done|]. intros l Hl. cbn [fst snd] in *. rewrite <- Hloc in Hl.
    rewrite <- (take_drop (length (cphys k ++ c ++ tag)) locs2), <- (take_drop 4 (drop _ locs2)). set_solver.
  - reflexivity.
  - cbn [w_msgs set_msgs]. rewrite <- app_assoc. cbn [app]. apply sizes_ok_plug. eexists pms2, _. split; [done|]. split.
    + by eapply ctx_sizes_same.
    + cbn [sizes_ok add_size message_state_ msg_size fresh_message]. rewrite phys_plug, length_app in Hmax.
      rewrite <- Hm1, Hsz, length_app. split_and!; [congruence| |done|done].
      rewrite u32_id by (unfold_u; lia). lia.
  - rewrite <- Hf1. unfold root_field in *. cbn [w_msgs set_msgs]. rewrite Hhd, Hms2. by destruct pms2.
Qed.

End Append.

(** ** The fields a message is made of *)

Inductive node := NField (w : wire_field) | NMsg (id : Z) (ns : list node).

Definition len_tag (id : Z) : list Z := WriteVarInt (MakeTagLengthDelimited id).

(** [c] is an encoding of the fields [ns]. *)
Inductive content : list Z -> list node -> Prop :=
  | ct_nil : content [] []
  | ct_field c ns w : content c ns -> wf_ok w -> content (c ++ encode_field w) (ns ++ [NField w])
  | ct_msg c ns id sf c' ns' :
      content c ns -> content c' ns' -> 0 < id <= kMaxId -> size_enc sf (length c') ->
      content (c ++ len_tag id ++ sf ++ c') (ns ++ [NMsg id ns']).

(** Open messages with the fields they have so far. *)
Inductive ATower := ATop (ns : list node) | ANest (ns : list node) (id : Z) (t : ATower).

Fixpoint acollapse (t : ATower) : list node :=
  match t with ATop ns => ns | ANest ns id t => ns ++ [NMsg id (acollapse t)] end.

(** The messages nested deeper than depth [d] end, and the fields of the
    message at depth [d] become [f] of what they are. *)
Fixpoint at_depth (d : nat) (t : ATower) (f : list node -> ATower) : option ATower :=
  match d, t with
  | O, t => Some (f (acollapse t))
  | S d, ANest ns id t => ANest ns id <$> at_depth d t f
  | S _, ATop _ => None
  end.

Inductive arel : Tower -> ATower -> Prop :=
  | ar_top c ns : content c ns -> arel (Top c) (ATop ns)
  | ar_nest c ns id res t u :
      content c ns -> 0 < id <= kMaxId -> arel t u -> arel (Nest c (len_tag id) res t) (ANest ns id u).

Lemma arel_collapse t u c : arel t u -> collapses t c -> content c (acollapse u).
Proof.
  intros Hr. revert c. induction Hr as [c ns Hc|c ns id res t u Hc Hid Hr IH]; intros c' Hcol; inversion Hcol; subst; cbn.
  - done.
  - constructor; auto.
Qed.

Lemma arel_at_depth d : forall t u f u',
  arel t u -> at_depth d u f = Some u' ->
  exists k t1 u1, t = plug k t1 /\ length k = d /\ arel t1 u1 /\
    forall t2, arel t2 (f (acollapse u1)) -> arel (plug k t2) u'.
Proof.
  induction d as [|d IH]; intros t u f u' Hr Ha; cbn [at_depth] in Ha.
  - exists [], t, u. split_and!; try done. intros t2. destruct u; by injection Ha as <-.
  - destruct Hr as [c ns Hc|c ns id res t u Hc Hid Hr]; [done|].
    destruct (at_depth d u f) as [v|] eqn:E; [|done]. injection Ha as <-.
    destruct (IH t u f v Hr E) as (k & t1 & u1 & -> & Hk & Hr1 & Hf).
    exists ((c, len_tag id, res) :: k), t1, u1. split_and!; [done|cbn; lia|done|].
    intros t2 Ht2. cbn [plug]. constructor; auto.
Qed.

(** *** Calls *)

(** A call on the message at some depth. *)
Inductive Call :=
  | CField (w : wire_field)
  | CTiny (id v : Z)
  | CScattered (id : Z) (ranges : list (list Z))
  | CBegin (id : Z).

Definition call_ok (o : Call) : Prop :=
  match o with
  | CField w => wf_ok w /\ match w with WBytes _ p => Z.of_nat (length p) < kMaxMessageLength | _ => True end
  | CTiny id v => 0 < id <= kMaxId /\ 0 <= v < 0x80
  | CScattered id ranges =>
      0 < id <= kMaxId /\ bytes_ok (concat ranges) /\ Z.of_nat (length (concat ranges)) < kMaxMessageLength
  | CBegin id => 0 < id <= kMaxId
  end.

#[export] Instance call_ok_dec o : Decision (call_ok o).
Proof. destruct o as [[]| | |]; unfold call_ok, wf_ok, bytes_ok, is_u8, is_u32, is_u64; apply _. Defined.

(** The octets a call adds, before any compaction. *)
Definition call_cost (o : Call) : nat :=
  match o with
  | CField w => length (encode_field w)
  | CTiny id v => length (encode_field (WVarInt id v))
  | CScattered id ranges => length (encode_field (WBytes id (concat ranges)))
  | CBegin id => length (len_tag id) + 4
  end.

Definition call_meaning (o : Call) (ns : list node) : ATower :=
  match o with
  | CField w => ATop (ns ++ [NField w])
  | CTiny id v => ATop (ns ++ [NField (WVarInt id v)])
  | CScattered id ranges => ATop (ns ++ [NField (WBytes id (concat ranges))])
  | CBegin id => ANest ns id (ATop [])
  end.

Definition run_call `{Delegate D} (w : World D) (d : nat) (o : Call) : option (World D) :=
  match o with
  | CField (WVarInt id v) => AppendVarInt w d id v
  | CField (WFixed32 id v) => AppendFixed w d 4 id v
  | CField (WFixed64 id v) => AppendFixed w d 8 id v
  | CField (WBytes id p) => AppendBytes w d id p
  | CTiny id v => AppendTinyVarInt w d id v
  | CScattered id ranges => '(w, _) ← AppendScatteredBytes w d id ranges; Some w
  | CBegin id => BeginNestedMessage w d id
  end.

Fixpoint run_calls `{Delegate D} (w : World D) (calls : list (nat * Call)) : option (World D) :=
  match calls with
  | [] => Some w
  | (d, o) :: calls => w ← run_call w d o; run_calls w calls
  end.

Fixpoint calls_meaning (u : ATower) (calls : list (nat * Call)) : option ATower :=
  match calls with
  | [] => Some u
  | (d, o) :: calls => u ← at_depth d u (call_meaning o); calls_meaning u calls
  end.

Definition calls_cost (calls : list (nat * Call)) : nat := sum_list ((fun x => call_cost x.2) <$> calls).

Section Calls.
Context `{DelegateOk D}.
Implicit Types w : World D.

(** One call that writes the encoding of one field. *)
Lemma field_call_ok w locs k t u1 wf :
  minv w locs (plug k t) -> arel t u1 -> wf_ok wf ->
  Z.of_nat (length (phys (plug k t)) + length (encode_field wf)) < kMaxMessageLength ->
  forall act,
  (forall w1 locs1 c, minv w1 locs1 (plug k (Top c)) -> Z.of_nat (length (phys (plug k (Top c))) + length (encode_field wf)) < kMaxMessageLength ->
     exists w2 locs2, act w1 = Some w2 /\ minv w2 locs2 (plug k (Top (c ++ encode_field wf))) /\ root_field w2 = root_field w1) ->
  exists w' locs' t', (w ← end_nested w (length k); act w) = Some w' /\ minv w' locs' (plug k t') /\
    arel t' (ATop (acollapse u1 ++ [NField wf])) /\ root_field w' = root_field w /\
    (length (phys (plug k t')) <= length (phys (plug k t)) + length (encode_field wf))%nat.
Proof.
  intros Hw Hr Hwf Hmax act Hact.
  destruct (end_nested_ok w locs k t Hw ltac:(lia)) as (w1 & locs1 & c & -> & Hw1 & Hc & Hf1). cbn [mbind option_bind].
  pose proof (minv_collapses w locs k t c Hw Hc) as Hcl.
  rewrite phys_plug, length_app in Hmax.
  destruct (Hact w1 locs1 c Hw1) as (w2 & locs2 & -> & Hw2 & Hf2).
  { rewrite phys_plug, length_app. cbn [phys]. lia. }
  exists w2, locs2, (Top (c ++ encode_field wf)). split_and!; try done; [|congruence|].
  - constructor. constructor; [|done]. by eapply arel_collapse.
  - rewrite !phys_plug, !length_app. cbn [phys]. rewrite length_app. lia.
Qed.

Lemma write_field_ok k wf w1 locs1 c :
  minv w1 locs1 (plug k (Top c)) ->
  Z.of_nat (length (phys (plug k (Top c))) + length (encode_field wf)) < kMaxMessageLength ->
  exists w2 locs2, WriteToStream w1 (length k) (encode_field wf) = Some w2 /\
    minv w2 locs2 (plug k (Top (c ++ encode_field wf))) /\ root_field w2 = root_field w1.
Proof. intros Hw Hmax. assert (Hb28 := kMax_val). apply (WriteToStream_ok w1 locs1 k c); [done|lia]. Qed.

(** The length prefix and then the octets, in one or more ranges. *)
Lemma write_bytes_ok k id ranges w1 locs1 c :
  minv w1 locs1 (plug k (Top c)) -> Z.of_nat (length (concat ranges)) < kMaxMessageLength ->
  Z.of_nat (length (phys (plug k (Top c))) + length (encode_field (WBytes id (concat ranges)))) < kMaxMessageLength ->
  exists w2 locs2,
    (w ← WriteToStream w1 (length k) (WriteVarInt (MakeTagLengthDelimited id) ++ WriteVarInt (u32 (Z.of_nat (length (concat ranges)))));
     write_ranges w (length k) ranges) = Some w2 /\
    minv w2 locs2 (plug k (Top (c ++ encode_field (WBytes id (concat ranges))))) /\ root_field w2 = root_field w1.
Proof.
  intros Hw Hl Hmax. assert (Hb28 := kMax_val). cbn [encode_field] in *. rewrite !length_app in Hmax.
  rewrite u32_id by (unfold_u; lia).
  destruct (WriteToStream_ok w1 locs1 k c (WriteVarInt (MakeTagLengthDelimited id) ++ WriteVarInt (Z.of_nat (length (concat ranges)))) Hw)
    as (w2 & locs2 & -> & Hw2 & Hf2); [rewrite length_app; lia|]. cbn [mbind option_bind].
  destruct (write_ranges_ok ranges w2 locs2 k _ Hw2) as (w3 & locs3 & -> & Hw3 & Hf3).
  { rewrite phys_plug in *. cbn [phys] in *. rewrite !length_app in *. lia. }
  exists w3, locs3. split; [done|]. split; [|congruence]. by rewrite <- !app_assoc in Hw3.
Qed.

Lemma run_call_ok w locs t u d o u' :
  minv w locs t -> arel t u -> call_ok o -> at_depth d u (call_meaning o) = Some u' ->
  Z.of_nat (length (phys t) + call_cost o) < kMaxMessageLength ->
  exists w' locs' t', run_call w d o = Some w' /\ minv w' locs' t' /\ arel t' u' /\ root_field w' = root_field w /\
    (length (phys t') <= length (phys t) + call_cost o)%nat.
Proof.
  intros Hw Hr Ho Ha Hmax.
  destruct (arel_at_depth d t u _ u' Hr Ha) as (k & t1 & u1 & -> & <- & Hr1 & Hplug).
  assert (Hgo : forall wf act, wf_ok wf -> call_meaning o = (fun ns => ATop (ns ++ [NField wf])) ->
    call_cost o = length (encode_field wf) ->
    (forall w1 locs1 c, minv w1 locs1 (plug k (Top c)) -> Z.of_nat (length (phys (plug k (Top c))) + length (encode_field wf)) < kMaxMessageLength ->
      exists w2 locs2, act w1 = Some w2 /\ minv w2 locs2 (plug k (Top (c ++ encode_field wf))) /\ root_field w2 = root_field w1) ->
    exists w' locs' t', (w ← end_nested w (length k); act w) = Some w' /\ minv w' locs' t' /\ arel t' u' /\
      root_field w' = root_field w /\ (length (phys t') <= length (phys (plug k t1)) + call_cost o)%nat).
  { intros wf act Hwf Hm Hcost Hact. rewrite Hcost in *.
    destruct (field_call_ok w locs k t1 u1 wf Hw Hr1 Hwf Hmax act Hact) as (w' & locs' & t' & H1 & H2 & H3 & H4 & H5).
    exists w', locs', (plug k t'). split_and!; try done. apply Hplug. by rewrite Hm. }
  destruct o as [wf|id v|id ranges|id]; cbn [call_ok run_call] in *.
  - destruct Ho as [Hwf Hbytes]. destruct wf as [id v|id v|id v|id p].
    + apply (Hgo (WVarInt id v)); try done. intros. by eapply (write_field_ok k (WVarInt id v)).
    + apply (Hgo (WFixed32 id v)); try done. intros. by eapply (write_field_ok k (WFixed32 id v)).
    + apply (Hgo (WFixed64 id v)); try done. intros. by eapply (write_field_ok k (WFixed64 id v)).
    + unfold AppendBytes. rewrite (proj2 (Z.eqb_neq _ _)) by (destruct Hwf; cbn in *; lia).
      apply (Hgo (WBytes id p)); try done. intros w1 locs1 c Hw1 Hm1.
      rewrite (proj2 (Z.ltb_lt _ _)) by done.
      destruct (write_bytes_ok k id [p] w1 locs1 c Hw1) as (w2 & locs2 & Hrun & Hw2 & Hf2); cbn [concat] in *; rewrite ?app_nil_r in *; [done..|].
      exists w2, locs2. split_and!; try done. rewrite <- Hrun. cbn [write_ranges].
      destruct (WriteToStream w1 _ _) as [w3|]; [|done]. cbn [mbind option_bind]. by destruct (WriteToStream w3 _ p).
  - unfold AppendTinyVarInt. rewrite (proj2 (Z.leb_le 0 v)), (proj2 (Z.ltb_lt v _)) by lia. cbn [andb].
    apply (Hgo (WVarInt id v)); try done; [split; [cbn; lia|unfold_u; lia]|]. intros w1 locs1 c Hw1 Hm1.
    assert (E : WriteVarInt (MakeTagVarInt id) ++ [u8 v] = encode_field (WVarInt id v)).
    { cbn [encode_field]. f_equal. unfold WriteVarInt. rewrite WriteVarInt_loop_small by lia. by rewrite u8_id by (unfold_u; lia). }
    rewrite E. by eapply write_field_ok.
  - destruct Ho as (Hid & Hb & Hl). unfold AppendScatteredBytes. rewrite (proj2 (Z.eqb_neq _ _)) by lia.
    rewrite option_bind_assoc. apply (Hgo (WBytes id (concat ranges))); try done; [split; [cbn; lia|split; [done|lia]]|].
    intros w1 locs1 c Hw1 Hm1. rewrite (proj2 (Z.ltb_lt _ _)) by done.
    destruct (write_bytes_ok k id ranges w1 locs1 c Hw1) as (w2 & locs2 & Hrun & Hw2 & Hf2); [done..|].
    exists w2, locs2. split_and!; try done. rewrite <- Hrun. unfold compose.
    destruct (WriteToStream w1 _ _) as [w3|]; [|done]. cbn [mbind option_bind].
    by destruct (write_ranges w3 _ _).
  - cbn [call_cost] in *. fold (len_tag id).
    destruct (BeginNestedMessage_ok w locs k t1 id Hw) as (w' & locs' & c & res & H1 & H2 & H3 & H4 & H5 & H6);
      [lia|unfold len_tag in *; lia|].
    exists w', locs', (plug k (Nest c (len_tag id) res (Top []))). split_and!; try done.
    + apply Hplug. cbn [call_meaning]. constructor; [by eapply arel_collapse|done|]. constructor. constructor.
    + rewrite !phys_plug, !length_app. cbn [phys]. rewrite !length_app, H6. cbn. lia.
Qed.

Lemma run_calls_ok calls : forall w locs t u u',
  minv w locs t -> arel t u -> Forall (fun x => call_ok x.2) calls -> calls_meaning u calls = Some u' ->
  Z.of_nat (length (phys t) + calls_cost calls) < kMaxMessageLength ->
  exists w' locs' t', run_calls w calls = Some w' /\ minv w' locs' t' /\ arel t' u' /\ root_field w' = root_field w /\
    Z.of_nat (length (phys t')) < kMaxMessageLength.
Proof.
  induction calls as [|[d o] calls IH]; intros w locs t u u' Hw Hr Ho Hm Hmax; cbn [run_calls calls_meaning] in *.
  { injection Hm as <-. exists w, locs, t. split_and!; try done. unfold calls_cost in Hmax. cbn in Hmax. lia. }
  apply Forall_cons in Ho as [Ho Hos]. destruct (at_depth d u (call_meaning o)) as [u1|] eqn:Ha; [|done].
  cbn [mbind option_bind] in Hm. unfold calls_cost in Hmax. cbn [fmap list_fmap sum_list sum_list_with snd] in Hmax.
  cbn [snd] in Ho.
  change (sum_list_with id _) with (sum_list ((fun x : nat * Call => call_cost x.2) <$> calls)) in Hmax.
  fold (calls_cost calls) in Hmax. unfold id in Hmax.
  destruct (run_call_ok w locs t u d o u1 Hw Hr Ho Ha ltac:(lia)) as (w1 & locs1 & t1 & -> & Hw1 & Hr1 & Hf1 & Hl1).
  cbn [mbind option_bind]. destruct (IH w1 locs1 t1 u1 u' Hw1 Hr1 Hos Hm ltac:(lia)) as (w2 & locs2 & t2 & H1 & H2 & H3 & H4 & H5).
  exists w2, locs2, t2. split_and!; try done. congruence.
Qed.

End Calls.

(** ** Decoding what was written *)

(** What a decoder finds: the fields of a message, nested messages decoded in
    their turn. *)
Inductive matches : list wire_field -> list node -> Prop :=
  | ma_nil : matches [] []
  | ma_field w ws ns : matches ws ns -> matches (w :: ws) (NField w :: ns)
  | ma_msg id p pws ch ws ns :
      map (view p) (ReadAllFields p) = map Some pws -> matches pws ch -> matches ws ns ->
      matches (WBytes id p :: ws) (NMsg id ch :: ns).

Definition decodes (c : list Z) (ns : list node) : Prop :=
  exists ws, map (view c) (ReadAllFields c) = map Some ws /\ matches ws ns.

(** The octets [e] are the field [w] wherever they are. *)
Definition piece_ok (e : list Z) (w : wire_field) : Prop :=
  bytes_ok e /\ (0 < length e)%nat /\
  forall pre post, bytes_ok post ->
    exists f, ParseOneField (pre ++ e ++ post) (length pre) = mkParse kOk (length pre + length e) f /\
      view (pre ++ e ++ post) f = Some w.

Lemma piece_encode w : wf_ok w -> piece_ok (encode_field w) w.
Proof.
  intros Hw. split; [by apply encode_field_ok|]. split.
  - pose proof (wf_tag w Hw) as (Ht & _). rewrite encode_field_eq, length_app.
    pose proof (length_WriteVarInt_pos _ (is_u32_u64 _ Ht)). lia.
  - intros pre post Hp. destruct (ParseOneField_encode pre w post Hw Hp) as (f & H1 & H2 & _). eauto.
Qed.

(** A length prefix of four octets. *)
Lemma piece_redundant id p :
  wf_ok (WBytes id p) -> Z.of_nat (length p) < kMaxMessageLength ->
  piece_ok (len_tag id ++ WriteRedundantVarInt (Z.of_nat (length p)) 4 ++ p) (WBytes id p).
Proof.
  intros Hw Hl. pose proof Hw as [Hid [Hp Hpl]]. cbn [wf_id] in Hid.
  pose proof (wf_tag (WBytes id p) Hw) as (Ht1 & Ht2 & Ht3 & Ht4). cbn [wf_id wf_type] in *.
  set (sf := WriteRedundantVarInt (Z.of_nat (length p)) 4).
  change (len_tag id) with (WriteVarInt (u32 (id << 3) .| wire_type_num kLengthDelimited)).
  set (tag := u32 (id << 3) .| wire_type_num kLengthDelimited) in *.
  assert (Hsf : bytes_ok sf) by (apply WriteRedundantVarInt_ok; lia).
  assert (Hsl : length sf = 4%nat) by apply length_WriteRedundantVarInt.
  pose proof (length_WriteVarInt_pos tag (is_u32_u64 _ Ht1)) as Hpos.
  pose proof (WriteVarInt_ok _ (is_u32_u64 _ Ht1)) as Hwok.
  split; [rewrite !bytes_ok_app; done|]. split; [rewrite !length_app; lia|]. intros pre post Hpost.
  assert (Hb28 := kMax_val). set (mem := pre ++ _ ++ post).
  assert (Hbo : bytes_ok (sf ++ p ++ post)) by (by rewrite !bytes_ok_app).
  assert (Hd : drop (length pre) mem = WriteVarInt tag ++ sf ++ p ++ post)
    by (unfold mem; rewrite drop_app_len; by rewrite <- !app_assoc).
  assert (Hm : length mem = (length pre + length (WriteVarInt tag) + 4 + length p + length post)%nat)
    by (unfold mem; rewrite !length_app; lia).
  pose proof (ParseVarInt_WriteVarInt tag _ (is_u32_u64 _ Ht1) Hbo) as Hpv. rewrite <- Hd in Hpv.
  unfold ParseOneField. destruct (drop (length pre) mem) as [|b tl] eqn:Edrop.
  { apply (f_equal length) in Hd. rewrite length_app in Hd. simpl in Hd. lia. }
  assert (Hb : 0 <= b).
  { destruct (WriteVarInt tag) as [|b' ?]; [simpl in Hpos; lia|].
    injection Hd as Hd _. apply Forall_cons in Hwok as [Hb' _]. rewrite Hd. unfold_u; lia. }
  rewrite preamble_fastpath, Hpv by done. rewrite decide_False by lia. rewrite Ht2.
  change kMaxId with (2 ^ 24 - 1) in *. rewrite u32_id by (unfold_u; lia).
  rewrite (proj2 (Z.eqb_neq _ _)), (proj2 (Nat.leb_gt _ _)) by lia. cbn [orb]. rewrite Ht4.
  unfold ParseFieldPayload. rewrite wire_type_of_num_num.
  assert (Hd2 : drop (length pre + length (WriteVarInt tag)) mem = sf ++ p ++ post)
    by (rewrite <- drop_drop, Edrop, Hd; apply drop_app_len).
  rewrite Hd2. assert (Hsv : ParseVarInt (sf ++ p ++ post) = (4%nat, Z.of_nat (length p))).
  { rewrite <- Hsl. apply ParseVarInt_of_spec; [done|lia|unfold_u; lia|]. rewrite Hsl. apply WriteRedundantVarInt_spec; [lia|].
    change (128 ^ Z.of_nat 4) with (2 ^ 28). lia. }
  rewrite Hsv. rewrite decide_False by lia. rewrite (proj2 (Z.ltb_ge _ _)) by lia.
  rewrite (proj2 (Z.ltb_ge _ id)), (proj2 (Z.ltb_ge _ (Z.of_nat (length p)))) by lia.
  eexists. split; [f_equal; rewrite !length_app; lia|].
  unfold view, Field_initialize. cbn [type_ id_]. rewrite wire_type_of_num_num. f_equal. f_equal.
  - change kMaxId with (Z.ones 24). rewrite land_ones_mod, Z.mod_small by lia. done.
  - unfold as_bytes. cbn [int_value_ fsize_]. rewrite u32_id by (unfold_u; lia). rewrite !Nat2Z.id.
    rewrite <- drop_drop, Hd2, <- Hsl, drop_app_len. apply take_app_len.
Qed.

Lemma piece_msg id p sf :
  0 < id <= kMaxId -> bytes_ok p -> size_enc sf (length p) -> piece_ok (len_tag id ++ sf ++ p) (WBytes id p).
Proof.
  intros Hid Hp [[-> Hl]|[-> Hl]].
  - change kMaxOneByteMessageLength with 127 in Hl.
    replace (len_tag id ++ [Z.of_nat (length p)] ++ p) with (encode_field (WBytes id p)).
    + apply piece_encode. split; [done|]. split; [done|]. assert (Hb28 := kMax_val). lia.
    + cbn [encode_field]. unfold len_tag. do 2 f_equal. unfold WriteVarInt. by rewrite WriteVarInt_loop_small by lia.
  - apply piece_redundant; [|done]. split; [done|]. split; [done|]. lia.
Qed.

(** Reading pieces one after the other. *)
Lemma all_fields_pieces ps : forall pre k,
  Forall (fun x => piece_ok x.1 x.2) ps ->
  let mem := pre ++ concat (map fst ps) in
  (length mem - length pre < k)%nat ->
  map (view mem) (all_fields mem k (length pre)) = map Some (map snd ps).
Proof.
  induction ps as [|[e w] ps IH]; intros pre k Hps mem Hk.
  - assert (Hp : ParseOneField mem (length pre) = mkParse kAbort (length pre) zero_field).
    { unfold ParseOneField, mem. cbn. by rewrite app_nil_r, drop_all. }
    destruct k; [done|]. cbn [all_fields]. by rewrite Hp.
  - apply Forall_cons in Hps as [(He & Hlen & Hparse) Hps]. cbn [fst snd] in *.
    assert (Hb : bytes_ok (concat (map fst ps))).
    { clear -Hps. induction Hps as [|[e w] ps (H & _) Hps IH]; cbn; [constructor|]. by apply bytes_ok_app. }
    destruct (Hparse pre _ Hb) as (f & Hp & Hv). destruct k as [|k]; [lia|]. cbn [all_fields].
    assert (Em : mem = (pre ++ e) ++ concat (map fst ps)) by (unfold mem; cbn; by rewrite app_assoc).
    specialize (IH (pre ++ e) k Hps). cbn zeta in IH. rewrite <- Em, length_app in IH.
    unfold mem in *. cbn [map concat fst] in *. rewrite Hp. cbn [parse_res map next field snd].
    rewrite IH by (rewrite !length_app in *; lia). by rewrite Hv.
Qed.

Lemma content_pieces c ns : content c ns ->
  exists ps, c = concat (map fst ps) /\ Forall (fun x => piece_ok x.1 x.2) ps /\ bytes_ok c /\ matches (map snd ps) ns.
Proof.
  assert (Hsnoc : forall ws ns w n, matches ws ns -> matches [w] [n] -> matches (ws ++ [w]) (ns ++ [n])).
  { intros ws ns' w n Hm Hn. induction Hm as [|w' ws ns' Hm IH|id p pws ch ws ns' Hv Hc IHc Hm IH]; cbn [app];
      [done|by constructor|by econstructor]. }
  assert (Hstep : forall c ns ps e w n, c = concat (map fst ps) -> Forall (fun x => piece_ok x.1 x.2) ps -> bytes_ok c ->
    matches (map snd ps) ns -> piece_ok e w -> matches [w] [n] ->
    exists ps', c ++ e = concat (map fst ps') /\ Forall (fun x => piece_ok x.1 x.2) ps' /\ bytes_ok (c ++ e) /\
      matches (map snd ps') (ns ++ [n])).
  { intros c' ns' ps e w n -> Hps Hb Hm Hp Hn. exists (ps ++ [(e, w)]). rewrite !map_app, concat_app. cbn.
    rewrite app_nil_r. split_and!; [done|by apply Forall_app; split; [|constructor]|by apply bytes_ok_app; split; [|apply Hp]|by apply Hsnoc]. }
  induction 1 as [|c ns w Hc IH Hw|c ns id sf c' ns' Hc IH Hc' IH' Hid Hs].
  - exists []. split_and!; try done; constructor.
  - destruct IH as (ps & Hcc & Hps & Hb & Hm). eapply Hstep; [done..|by apply piece_encode|]. constructor. constructor.
  - destruct IH as (ps & Hcc & Hps & Hb & Hm), IH' as (ps' & Hcc' & Hps' & Hb' & Hm').
    eapply Hstep; [done..|by apply piece_msg|]. apply (ma_msg _ _ (map snd ps')); [|done|constructor].
    subst c'. unfold ReadAllFields. rewrite (ReadAllFields_loop_eq) with (k := S (length (concat (map fst ps')))) by (done || lia).
    apply (all_fields_pieces ps' []); [done|cbn; lia].
Qed.

Lemma content_decodes c ns : content c ns -> bytes_ok c /\ decodes c ns.
Proof.
  intros H. destruct (content_pieces c ns H) as (ps & -> & Hps & Hb & Hm). split; [done|].
  exists (map snd ps). split; [|done]. unfold ReadAllFields.
  rewrite (ReadAllFields_loop_eq) with (k := S (length (concat (map fst ps)))) by (done || lia).
  apply (all_fields_pieces ps []); [done|cbn; lia].
Qed.

(** ** Finalizing a root message *)

(** The calls that write one message. *)
Definition session_valid (calls : list (nat * Call)) : Prop :=
  Forall (fun x => call_ok x.2) calls /\ Z.of_nat (calls_cost calls) < kMaxMessageLength /\
  is_Some (calls_meaning (ATop []) calls).

#[export] Instance session_valid_dec calls : Decision (session_valid calls).
Proof. unfold session_valid. apply _. Defined.

Section Root.
Context `{DelegateOk D}.
Implicit Types w : World D.

Lemma Finalize_at_fuel n : forall n' w d,
  (length (w_msgs w) - d <= n)%nat -> (length (w_msgs w) - d <= n')%nat -> Finalize_at n w d = Finalize_at n' w d.
Proof.
  assert (Hnone : forall n w d, (length (w_msgs w) <= d)%nat -> Finalize_at n w d = None).
  { intros [|k] w d Hd; [done|]. cbn [Finalize_at]. by rewrite lookup_ge_None_2. }
  induction n as [|n IH]; intros n' w d Hn Hn'; [rewrite !Hnone by lia; done|].
  destruct n' as [|n']; [rewrite !Hnone by lia; done|]. cbn [Finalize_at].
  destruct (Nat.ltb_spec (S d) (length (w_msgs w))); [|done]. by rewrite (IH n') by lia.
Qed.

Lemma Finalize_root w m :
  w_msgs w !! 0%nat = Some m -> message_state_ m = kNotFinalized ->
  Finalize w 0 = (w ← end_nested w 0; m ← w_msgs w !! 0%nat; w ← backfill_size w 0 m; Some (w, msg_size m)).
Proof.
  intros Hm Hs. unfold Finalize at 1. unfold end_nested, EndNestedMessage, Finalize.
  destruct (length (w_msgs w)) as [|n] eqn:El; [destruct (w_msgs w); done|].
  rewrite (Finalize_at_fuel (S n) n w 1) by lia. cbn [Finalize_at]. rewrite Hm. cbn [mbind option_bind].
  unfold is_finalized. rewrite Hs. rewrite bool_decide_eq_true_2 by done. cbn [negb]. by rewrite El.
Qed.

(** The root message has no size field: finalizing it ends the messages nested
    in it. *)
Lemma Finalize_root_ok w locs t :
  minv w locs t -> root_field w = Some None -> Z.of_nat (length (phys t)) < kMaxMessageLength ->
  exists w' locs' c, Finalize w 0 = Some (w', Z.of_nat (length c)) /\ rep w' locs' c /\ dlg_inv w' locs' /\ collapses t c /\
    exists m, w_msgs w' = [m] /\ size_field_ m = None.
Proof.
  intros Hw Hf Hmax. pose proof Hw as [_ Hs]. destruct (sizes_ok_cons _ _ Hs) as (m & ms & Hms).
  rewrite (Finalize_root w m); [|by rewrite Hms|destruct t, ms; rewrite Hms in Hs; cbn in Hs; naive_solver].
  destruct (end_nested_ok w locs [] t Hw Hmax) as (w1 & locs1 & c & Hen & [[Hr1 _ Hd1 _] Hs1] & Hc & Hf1). cbn [length] in Hen.
  rewrite Hen. cbn [mbind option_bind plug phys sizes_ok] in *. destruct (w_msgs w1) as [|m1 [|? ?]] eqn:E1; try done.
  rewrite Hf in Hf1. unfold root_field in Hf1. rewrite E1 in Hf1. cbn in Hf1. injection Hf1 as Hf1.
  destruct Hs1 as [_ Hsz]. cbn [lookup list_lookup mbind option_bind]. unfold backfill_size. rewrite Hf1.
  cbn [mbind option_bind]. rewrite Hsz. eexists _, locs1, c. split; [done|]. unfold set_msg.
  split_and!; [by apply rep_msgs| |done|rewrite E1; by eexists]. rewrite E1. by apply (fields_step_last w1 locs1 [] m1 []).
Qed.

End Root.
