(* ===== verification/ScatteredHeapBuffer.v ===== *)
(** * Messages on the heap

    Models [src/protozero/scattered_heap_buffer.cc] and its header: the delegate
    that backs a stream with heap slices of growing size, and [HeapBuffered], a
    root message together with its writer and its buffer. Every slice is a memory
    region of its own; new slices are filled with 0xff, as builds with [DCHECK]s
    do. *)

From S2P Require Import Prelude ProtoUtils ProtoDecoder ProtoMessage.

Record Slice := mkSlice { sl_region : nat; sl_size : Z; unused_bytes_ : Z }.

Record ScatteredHeapBuffer := mkHeap {
  next_slice_size_ : Z; maximum_slice_size_ : Z; writer_set : bool; slices_ : list Slice; cached_slice_ : option Slice }.

Abbreviation HWorld := (World ScatteredHeapBuffer).

Definition set_heap (w : HWorld) (h : ScatteredHeapBuffer) : HWorld := mkWorld (w_mem w) (w_wr w) (w_msgs w) h.
Definition set_slices (w : HWorld) (s : list Slice) : HWorld :=
  let h := w_dlg w in
  set_heap w (mkHeap (next_slice_size_ h) (maximum_slice_size_ h) (writer_set h) s (cached_slice_ h)).

Definition GetTotalRange (s : Slice) : Range := mkRange (sl_region s) 0 (sl_size s).
Definition GetUsedRange (s : Slice) : Range := mkRange (sl_region s) 0 (sl_size s - unused_bytes_ s).

Definition set_unused_bytes (s : Slice) (unused_bytes : Z) : option Slice :=
  if unused_bytes_ s <=? sl_size s then Some (mkSlice (sl_region s) (sl_size s) unused_bytes) else None.

(** The slices are kept in order; the last one is the current one. *)
Definition AdjustUsedSizeOfCurrentSlice (w : HWorld) : option HWorld :=
  match last (slices_ (w_dlg w)) with
  | None => Some w
  | Some s =>
      s ← set_unused_bytes s (bytes_available w);
      Some (set_slices w (removelast (slices_ (w_dlg w)) ++ [s]))
  end.

(** [Slice(size)]: a new region. *)
Definition Slice_new (w : HWorld) (size : Z) : option (HWorld * Slice) :=
  if size =? 0 then None
  else Some (set_mem w (w_mem w ++ [replicate (Z.to_nat size) 0xff]), mkSlice (length (w_mem w)) size size).

(** [Slice::Clear]. *)
Definition Slice_Clear (w : HWorld) (s : Slice) : option (HWorld * Slice) :=
  mem ← region_write (w_mem w) (sl_region s) 0 (replicate (Z.to_nat (sl_size s)) 0xff);
  Some (set_mem w mem, mkSlice (sl_region s) (sl_size s) (sl_size s)).

#[export] Instance GetNewBuffer_heap : Delegate ScatteredHeapBuffer := fun w =>
  if writer_set (w_dlg w) then
    w ← AdjustUsedSizeOfCurrentSlice w;
    '(w, s) ← match cached_slice_ (w_dlg w) with
              | Some s => Some (w, s)
              | None => Slice_new w (next_slice_size_ (w_dlg w))
              end;
    let h := w_dlg w in
    Some (set_heap w (mkHeap (Z.min (maximum_slice_size_ h) (u64 (next_slice_size_ h * 2))) (maximum_slice_size_ h)
                        (writer_set h) (slices_ h ++ [s]) None),
          GetTotalRange s)
  else None.

Definition read_range (w : HWorld) (r : Range) : option (list Z) :=
  region_read (w_mem w) (rg_region r) (rg_begin r) (Z.to_nat (rg_end r - rg_begin r)).

Fixpoint read_slices (w : HWorld) (slices : list Slice) : option (list Z) :=
  match slices with
  | [] => Some []
  | s :: slices =>
      octets ← read_range w (GetUsedRange s);
      rest ← read_slices w slices;
      Some (octets ++ rest)
  end.

Definition GetSlices (w : HWorld) : option (HWorld * list Slice) :=
  w ← AdjustUsedSizeOfCurrentSlice w; Some (w, slices_ (w_dlg w)).

Definition GetRanges (w : HWorld) : option (HWorld * list Range) :=
  '(w, slices) ← GetSlices w; Some (w, map GetUsedRange slices).

Definition StitchSlices (w : HWorld) : option (HWorld * list Z) :=
  '(w, slices) ← GetSlices w; buffer ← read_slices w slices; Some (w, buffer).

Definition GetTotalSize (w : HWorld) : Z := 
  fold_left (fun total_size slice => u64 (total_size + sl_size slice)) (slices_ (w_dlg w)) 0.

(** [ScatteredHeapBuffer::Reset]: the first slice is kept for reuse. *)
Definition Reset_heap (w : HWorld) : option HWorld :=
  match slices_ (w_dlg w) with
  | [] => Some w
  | s :: _ =>
      '(w, s) ← Slice_Clear w s;
      let h := w_dlg w in
      Some (set_heap w (mkHeap (next_slice_size_ h) (maximum_slice_size_ h) (writer_set h) [] (Some s)))
  end.

(** ** HeapBuffered *)

Definition HeapBuffered (initial_slice_size_bytes maximum_slice_size_bytes : Z) : option HWorld :=
  if negb (initial_slice_size_bytes =? 0) && negb (maximum_slice_size_bytes =? 0) &&
     (initial_slice_size_bytes <=? maximum_slice_size_bytes) then
    Some (mkWorld [] null_writer [fresh_message None]
            (mkHeap initial_slice_size_bytes maximum_slice_size_bytes true [] None))
  else None.

Definition SerializeAsArray (w : HWorld) : option (HWorld * list Z) :=
  '(w, _) ← Finalize w 0; StitchSlices w.

(** [HeapBuffered::GetRanges]. *)
Definition GetRanges_buffered (w : HWorld) : option (HWorld * list Range) :=
  '(w, _) ← Finalize w 0; GetRanges w.

(** [HeapBuffered::GetSlices]. *)
Definition GetSlices_buffered (w : HWorld) : option (HWorld * list Slice) :=
  '(w, _) ← Finalize w 0; GetSlices w.

Definition empty (w : HWorld) : bool := bool_decide (slices_ (w_dlg w) = []).

(** [HeapBuffered::Reset]. *)
Definition Reset_buffered (w : HWorld) : option HWorld :=
  w ← Reset_heap w;
  let w := set_msgs (Reset_null w) [fresh_message None] in
  if empty w then Some w else None.

(** ** The heap buffer is a delegate *)

Definition used_locs (s : Slice) : list Ptr := range_locs (sl_region s) 0 (Z.to_nat (sl_size s - unused_bytes_ s)).

Definition slices_locs (l : list Slice) : list Ptr := concat (used_locs <$> l).

(** A slice with its memory. *)
Definition slice_ok (mem : list (list Z)) (s : Slice) : Prop :=
  4 <= sl_size s /\ 0 <= unused_bytes_ s <= sl_size s /\
  exists b, mem !! sl_region s = Some b /\ Z.of_nat (length b) = sl_size s.

(** The current slice backs the writer's range; the stream is the used part of
    the earlier slices and what the writer has written of the current one. *)
Record heap_inv (w : HWorld) (locs : list Ptr) : Prop := {
  hi_set : writer_set (w_dlg w) = true;
  hi_next : 4 <= next_slice_size_ (w_dlg w) <= maximum_slice_size_ (w_dlg w) /\ maximum_slice_size_ (w_dlg w) < 2 ^ 63;
  hi_slices : Forall (slice_ok (w_mem w)) (slices_ (w_dlg w));
  hi_cached : Forall (slice_ok (w_mem w)) (option_list (cached_slice_ (w_dlg w)));
  hi_regions : NoDup (sl_region <$> slices_ (w_dlg w) ++ option_list (cached_slice_ (w_dlg w)));
  hi_cur : match last (slices_ (w_dlg w)) with
           | None => cur_region (w_wr w) = None /\ locs = []
           | Some s =>
               cur_region (w_wr w) = Some (sl_region s) /\ cur_begin (w_wr w) = 0 /\ cur_end (w_wr w) = sl_size s /\
               locs = slices_locs (removelast (slices_ (w_dlg w))) ++
                      range_locs (sl_region s) 0 (Z.to_nat (write_ptr_ (w_wr w)))
           end }.

Lemma slices_snoc (l : list Slice) s : last l = Some s -> l = removelast l ++ [s].
Proof. intros H. apply last_Some in H as [l' ->]. by rewrite removelast_last. Qed.

Lemma slices_locs_app l l' : slices_locs (l ++ l') = slices_locs l ++ slices_locs l'.
Proof. unfold slices_locs. by rewrite fmap_app, concat_app. Qed.

(** The locations of slices are in their regions. *)
Lemma slices_locs_in l x : x ∈ slices_locs l -> x.1 ∈ sl_region <$> l.
Proof.
  unfold slices_locs. induction l as [|s l IH]; cbn; [by intros ?%elem_of_nil|].
  rewrite elem_of_app. intros [H|H]; [|right; auto].
  apply elem_of_range_locs in H as [-> _]. left.
Qed.

Lemma slices_locs_other l r : r ∉ sl_region <$> l -> Forall (fun x => x.1 <> r) (slices_locs l).
Proof. intros H. apply Forall_forall. intros x Hx%slices_locs_in <-. done. Qed.

Lemma slice_ok_mem mem mem' s :
  (forall r b, mem !! r = Some b -> exists b', mem' !! r = Some b' /\ length b' = length b) ->
  slice_ok mem s -> slice_ok mem' s.
Proof.
  intros Hm (H1 & H2 & b & Hb & Hl). split; [done|]. split; [done|]. destruct (Hm _ _ Hb) as (b' & Hb' & Hl').
  exists b'. by rewrite Hl'.
Qed.

Lemma slice_ok_region mem s : slice_ok mem s -> (sl_region s < length mem)%nat.
Proof. intros (_ & _ & b & Hb & _). by eapply lookup_lt_Some. Qed.

(** The region of the current slice is not one of the earlier slices'. *)
Lemma hi_cur_fresh w locs s :
  heap_inv w locs -> last (slices_ (w_dlg w)) = Some s ->
  sl_region s ∉ sl_region <$> removelast (slices_ (w_dlg w)).
Proof.
  intros Hi Hl. pose proof (hi_regions _ _ Hi) as Hn. rewrite fmap_app in Hn. apply NoDup_app in Hn as (Hn & _).
  rewrite (slices_snoc _ _ Hl), fmap_app in Hn. apply NoDup_app in Hn as (_ & Hn & _).
  intros Hin. apply (Hn _ Hin). cbn. left.
Qed.

Lemma heap_frame w locs w' locs' : wframe w locs w' locs' -> heap_inv w locs -> heap_inv w' locs'.
Proof.
  intros Hfr Hi. pose proof Hi as [Hset Hnext Hsl Hca Hreg Hcur]. destruct Hfr as [Hd Hm _ _ _ _ (Hr & Hb & He) Hl].
  split; rewrite ?Hd; try done.
  - eapply Forall_impl; [exact Hsl|]. intros s. by apply slice_ok_mem.
  - eapply Forall_impl; [exact Hca|]. intros s. by apply slice_ok_mem.
  - destruct (last (slices_ (w_dlg w))) as [s|] eqn:El.
    + destruct Hcur as (H1 & H2 & H3 & H4). rewrite Hr, Hb, He. split_and!; try done.
      destruct Hl as [[-> ->]|(r & o & pre & Hrr & Hpre & E1 & E2 & Ho1 & Ho2 & Ho3)]; [done|].
      rewrite H1 in Hrr. injection Hrr as <-. rewrite E1 in H4.
      apply split_region in H4 as [-> Hn]; [|done|by eapply slices_locs_other, hi_cur_fresh].
      assert (o = 0) as -> by lia. rewrite E2. do 2 f_equal. lia.
    + destruct Hcur as [H1 H2]. rewrite Hr. split; [done|]. destruct Hl as [[-> _]|(r & ? & ? & Hrr & _)]; [done|congruence].
Qed.

(** Bringing the current slice up to date makes the slices cover the stream. *)
Lemma adjust_ok w locs out :
  heap_inv w locs -> rep w locs out ->
  exists sl, AdjustUsedSizeOfCurrentSlice w = Some (set_slices w sl) /\ Forall (slice_ok (w_mem w)) sl /\
    sl_region <$> sl = sl_region <$> slices_ (w_dlg w) /\ slices_locs sl = locs.
Proof.
  intros Hi Hrep. pose proof Hi as [Hset Hnext Hsl Hca Hreg Hcur]. unfold AdjustUsedSizeOfCurrentSlice.
  destruct (last (slices_ (w_dlg w))) as [s|] eqn:El.
  - destruct Hcur as (H1 & H2 & H3 & H4). pose proof (rep_cur _ _ _ Hrep) as Hc. unfold cur_ok in Hc. rewrite H1 in Hc.
    destruct Hc as (b & o & Hb & Ho & Hp & Hlen & _). pose proof (slices_snoc _ _ El) as Es.
    rewrite Es in Hsl. apply Forall_app in Hsl as [Hsl Hs]. apply Forall_singleton in Hs as (Hs1 & Hs2 & Hs3).
    unfold set_unused_bytes. rewrite (proj2 (Z.leb_le _ _)) by lia. cbn [mbind option_bind].
    eexists. split; [done|]. unfold bytes_available. split_and!.
    + apply Forall_app. split; [done|]. apply Forall_singleton. split_and!; cbn; [done|lia|lia|done].
    + rewrite Es at 2. by rewrite !fmap_app.
    + rewrite slices_locs_app, H4. f_equal. unfold slices_locs. cbn. rewrite app_nil_r. unfold used_locs. cbn. do 2 f_equal. lia.
  - exists (slices_ (w_dlg w)). split_and!; try done; [by destruct w as [? ? ? []]|].
    destruct Hcur as [_ ->]. by apply last_None in El as ->.
Qed.

Lemma cells_mono mem mem' locs out :
  (forall l x, read1 mem l = Some x -> read1 mem' l = Some x) -> cells mem locs out -> cells mem' locs out.
Proof. intros H Hc. unfold cells in *. eapply Forall2_impl; [exact Hc|]. auto. Qed.

(** The next slice, with its memory. *)
Lemma next_slice w locs :
  heap_inv w locs ->
  exists w' s, match cached_slice_ (w_dlg w) with
               | Some s => Some (w, s)
               | None => Slice_new w (next_slice_size_ (w_dlg w))
               end = Some (w', s) /\
    w_wr w' = w_wr w /\ w_msgs w' = w_msgs w /\ w_dlg w' = w_dlg w /\ slice_ok (w_mem w') s /\
    sl_region s ∉ sl_region <$> slices_ (w_dlg w) /\
    (forall r b, w_mem w !! r = Some b -> w_mem w' !! r = Some b).
Proof.
  intros [Hset Hnext Hsl Hca Hreg _]. destruct (cached_slice_ (w_dlg w)) as [s|]; cbn [option_list] in *.
  - exists w, s. do 4 (split; [done|]). split; [by inversion Hca|]. split; [|done].
    intros Hin. rewrite fmap_app in Hreg. apply NoDup_app in Hreg as (_ & Hreg & _). apply (Hreg _ Hin). cbn. left.
  - unfold Slice_new. rewrite (proj2 (Z.eqb_neq _ _)) by lia. eexists _, _. split; [done|]. cbn.
    do 3 (split; [done|]). split; [|split].
    + split; cbn; [lia|]. split; [lia|]. eexists. split; [by apply list_lookup_middle|]. rewrite length_replicate. lia.
    + intros Hin. apply list_elem_of_fmap in Hin as (s & E & Hin). rewrite Forall_forall in Hsl.
      specialize (Hsl s Hin). apply slice_ok_region in Hsl. lia.
    + intros r b Hb. by apply lookup_app_l_Some.
Qed.

Lemma heap_extend w locs t out :
  heap_inv w locs -> rep w locs out -> fields_ok locs 0 (w_msgs w) t -> phys t `prefix_of` out -> bytes_available w < 4 ->
  exists w' locs', Extend w = Some w' /\ rep w' locs' out /\ fields_ok locs' 0 (w_msgs w') t /\
    heap_inv w' locs' /\ same_msgs (w_msgs w) (w_msgs w') /\ 4 <= bytes_available w'.
Proof.
  intros Hi Hrep Hf _ _. destruct (adjust_ok w locs out Hi Hrep) as (sl & Hadj & Hsl & Hsr & Hloc).
  set (w1 := set_slices w sl) in *.
  destruct (next_slice w locs Hi) as (w2' & s & Hnx & Hwr & Hms & Hdl & Hs & Hfresh & Hmem).
  pose proof Hi as [Hset Hnext _ Hca Hreg _].
  assert (Hnx' : exists w2, match cached_slice_ (w_dlg w1) with
      | Some s => Some (w1, s) | None => Slice_new w1 (next_slice_size_ (w_dlg w1)) end = Some (w2, s) /\
    w_mem w2 = w_mem w2' /\ w_wr w2 = w_wr w /\ w_msgs w2 = w_msgs w /\ w_dlg w2 = w_dlg w1).
  { cbn [w1 set_slices set_heap w_dlg cached_slice_ next_slice_size_]. destruct (cached_slice_ (w_dlg w)) eqn:Ec.
    - injection Hnx as <- <-. exists w1. split_and!; try done. cbn. by rewrite Ec.
    - unfold Slice_new in *. destruct (_ =? 0); [done|]. injection Hnx as <- <-. eexists. split; [done|]. cbn. by rewrite Ec. }
  destruct Hnx' as (w2 & Hnx2 & Hm2 & Hwr2 & Hms2 & Hd2).
  unfold Extend, GetNewBuffer, GetNewBuffer_heap. rewrite Hset, Hadj. cbn [mbind option_bind]. rewrite Hnx2. cbn [mbind option_bind].
  unfold Reset_range, GetTotalRange. cbn [rg_begin rg_end rg_region]. pose proof Hs as (Hs1 & Hs2 & b & Hb & Hlb).
  rewrite (proj2 (Z.ltb_lt _ _)) by lia. eexists _, locs. split; [done|]. cbn [w_msgs set_wr set_heap].
  rewrite Hms2. split; [|split; [done|split; [|split; [done|unfold bytes_available; cbn; lia]]]].
  - split.
    + cbn. rewrite Hm2. eapply cells_mono; [|exact (rep_cells _ _ _ Hrep)]. intros [r o] x. unfold read1. cbn.
      destruct (w_mem w !! r) as [br|] eqn:Er; [|done]. by rewrite (Hmem _ _ Er).
    + exact (rep_nodup _ _ _ Hrep).
    + unfold cur_ok. cbn. exists b, 0. rewrite Hm2. split_and!; try done; try lia. exists locs. cbn. split.
      * unfold range_locs. by rewrite app_nil_r.
      * rewrite <- Hloc. apply slices_locs_other. by rewrite Hsr.
  - unfold w1 in Hd2. split; cbn; rewrite ?Hd2; cbn; try done.
    + unfold u64. rewrite Z.mod_small by lia. lia.
    + apply Forall_app. rewrite Hm2. split; [|by apply Forall_singleton]. eapply Forall_impl; [exact Hsl|].
      intros s'. apply slice_ok_mem. intros r b' Hb'. eauto.
    + rewrite app_nil_r, fmap_app. apply NoDup_app. rewrite Hsr. rewrite fmap_app in Hreg. apply NoDup_app in Hreg as (Hreg & _).
      split_and!; [done| |apply NoDup_singleton]. intros r Hr Hin. apply list_elem_of_singleton in Hin as ->. done.
    + rewrite last_snoc, removelast_last. split_and!; try done. unfold range_locs. cbn. by rewrite app_nil_r.
Qed.

#[export] Instance heap_DelegateOk : DelegateOk ScatteredHeapBuffer :=
  {| dlg_inv := heap_inv; dlg_frame := heap_frame; dlg_extend := heap_extend |}.

(** ** Reading the slices back *)

Lemma read_slices_ok w l : forall out,
  Forall (slice_ok (w_mem w)) l -> cells (w_mem w) (slices_locs l) out -> read_slices w l = Some out.
Proof.
  induction l as [|s l IH]; intros out Hl Hc; cbn [read_slices]; [by inversion Hc|].
  apply Forall_cons in Hl as [(Hs1 & Hs2 & b & Hb & Hlb) Hl].
  apply Forall2_app_inv_l in Hc as (o1 & o2 & H1 & H2 & ->). unfold read_range. cbn [GetUsedRange rg_region rg_begin rg_end].
  rewrite (region_read_Some _ _ _ _ b) by (done || lia). cbn [mbind option_bind]. rewrite (IH o2 Hl H2). cbn [mbind option_bind].
  apply (cells_range _ _ _ _ _ b) in H1; [|done|lia|lia]. rewrite H1, Z.sub_0_r. done.
Qed.

Lemma StitchSlices_ok w locs out :
  heap_inv w locs -> rep w locs out ->
  exists sl, StitchSlices w = Some (set_slices w sl, out) /\ Forall (slice_ok (w_mem w)) sl /\
    sl_region <$> sl = sl_region <$> slices_ (w_dlg w).
Proof.
  intros Hi Hrep. destruct (adjust_ok w locs out Hi Hrep) as (sl & Hadj & Hsl & Hsr & Hloc). exists sl.
  unfold StitchSlices, GetSlices. rewrite Hadj. cbn [mbind option_bind set_slices set_heap w_dlg slices_].
  rewrite (read_slices_ok _ sl out); [done|done|]. cbn [w_mem]. rewrite Hloc. exact (rep_cells _ _ _ Hrep).
Qed.

(** A [HeapBuffered] that nothing has been written to. *)
Record ready (w : HWorld) : Prop := {
  rd_inv : minv w [] (Top []);
  rd_root : root_field w = Some None }.

Lemma ready_intro w :
  heap_inv w [] -> w_msgs w = [fresh_message None] ->
  cur_region (w_wr w) = None /\ cur_begin (w_wr w) = 0 /\ cur_end (w_wr w) = 0 /\ write_ptr_ (w_wr w) = 0 -> ready w.
Proof.
  intros Hi Hm (H1 & H2 & H3 & H4). split; [split; [split|]|].
  - split; [constructor|constructor|]. unfold cur_ok. by rewrite H1.
  - by rewrite Hm.
  - done.
  - reflexivity.
  - by rewrite Hm.
  - unfold root_field. by rewrite Hm.
Qed.

Lemma HeapBuffered_ready i m : 4 <= i <= m -> m < 2 ^ 63 -> exists w, HeapBuffered i m = Some w /\ ready w.
Proof.
  intros Hi Hm. unfold HeapBuffered. rewrite !(proj2 (Z.eqb_neq _ _)) by lia. cbn [negb andb].
  rewrite (proj2 (Z.leb_le _ _)) by lia. eexists. split; [done|]. apply ready_intro; [|done..].
  split; cbn; try done; constructor.
Qed.

(** [Reset] keeps the first slice and forgets the others. *)
Lemma Reset_buffered_ready w locs sl :
  heap_inv w locs -> Forall (slice_ok (w_mem w)) sl -> sl_region <$> sl = sl_region <$> slices_ (w_dlg w) ->
  exists w', Reset_buffered (set_slices w sl) = Some w' /\ ready w'.
Proof.
  intros [Hset Hnext _ Hca Hreg _] Hsl Hsr. unfold Reset_buffered, Reset_heap. cbn [set_slices set_heap w_dlg slices_].
  destruct sl as [|s l]; cbn [mbind option_bind].
  - unfold empty. cbn [Reset_null set_msgs set_wr w_dlg]. rewrite bool_decide_eq_true_2 by done. eexists. split; [done|].
    symmetry in Hsr. apply fmap_nil_inv in Hsr. rewrite Hsr in Hreg.
    apply ready_intro; [|done..]. split; cbn; done.
  - apply Forall_cons in Hsl as [(Hs1 & Hs2 & b & Hb & Hlb) Hsl]. unfold Slice_Clear.
    rewrite (region_write_Some _ _ _ _ b) by (rewrite ?length_replicate; done || lia). cbn [mbind option_bind].
    unfold empty. cbn. eexists. split; [done|]. apply ready_intro; [|done..]. split; cbn; try done.
    + constructor; [|constructor]. split; cbn; [lia|]. split; [lia|]. eexists.
      split; [by apply list_lookup_insert_eq; eapply lookup_lt_Some|]. rewrite buf_write_length by (rewrite length_replicate; lia). done.
    + apply NoDup_singleton.
Qed.

(** One message written to a fresh [HeapBuffered]. *)
Lemma session_ok w0 calls u :
  ready w0 -> Forall (fun x => call_ok x.2) calls -> calls_meaning (ATop []) calls = Some u ->
  Z.of_nat (calls_cost calls) < kMaxMessageLength ->
  exists w1 w2 w3 c, run_calls w0 calls = Some w1 /\ SerializeAsArray w1 = Some (w2, c) /\ decodes c (acollapse u) /\
    Reset_buffered w2 = Some w3 /\ ready w3.
Proof.
  intros [Hw Hroot] Hok Hm Hcost.
  destruct (run_calls_ok calls w0 [] (Top []) (ATop []) u Hw) as (w1 & locs1 & t1 & H1 & Hw1 & Hr1 & Hf1 & Hl1); [|done..|].
  { constructor. constructor. }
  destruct (Finalize_root_ok w1 locs1 t1 Hw1) as (w1' & locs1' & c & Hfin & Hrep & Hd & Hc & _); [congruence|done|].
  destruct (StitchSlices_ok w1' locs1' c Hd Hrep) as (sl & Hst & Hsl & Hsr).
  destruct (Reset_buffered_ready w1' locs1' sl Hd Hsl Hsr) as (w3 & Hrs & Hrd).
  exists w1, (set_slices w1' sl), w3, c. split_and!; try done.
  - unfold SerializeAsArray. rewrite Hfin. done.
  - eapply content_decodes, arel_collapse; done.
Qed.

(** A [HeapBuffered] used for one message after the other: each is serialized
    and the buffer is reset for the next. *)
Fixpoint run_sessions (w : HWorld) (sessions : list (list (nat * Call))) : option (list (list Z)) :=
  match sessions with
  | [] => Some []
  | calls :: sessions =>
      w ← run_calls w calls;
      '(w, octets) ← SerializeAsArray w;
      w ← Reset_buffered w;
      rest ← run_sessions w sessions;
      Some (octets :: rest)
  end.

Lemma sessions_ok sessions : forall w,
  ready w -> Forall session_valid sessions ->
  exists outs, run_sessions w sessions = Some outs /\
    Forall2 (fun octets calls => exists u, calls_meaning (ATop []) calls = Some u /\ decodes octets (acollapse u)) outs sessions.
Proof.
  induction sessions as [|calls sessions IH]; intros w Hw Hs; cbn [run_sessions]; [exists []; split; [done|constructor]|].
  apply Forall_cons in Hs as [(Hok & Hcost & [u Hu]) Hs].
  destruct (session_ok w calls u Hw Hok Hu Hcost) as (w1 & w2 & w3 & c & H1 & H2 & Hdec & H3 & Hr).
  rewrite H1. cbn [mbind option_bind]. rewrite H2. cbn [mbind option_bind]. rewrite H3. cbn [mbind option_bind].
  destruct (IH w3 Hr Hs) as (outs & -> & Hall). exists (c :: outs). split; [done|]. constructor; eauto.
Qed.

(** C22: messages written through a [HeapBuffered] come back. For any slice sizes
    with room for a size field, and any sequence of appends to messages nested to
    any depth - which may be spread over any number of slices, may end several
    nested messages at once, and may reuse the buffer after [Reset] - no assertion
    fails and no octet is written outside a slice, and decoding the serialized
    octets of every message yields exactly the fields that were appended, in
    order, nested messages with exactly theirs. *)
Theorem heap_buffered_roundtrip i m sessions :
  4 <= i <= m -> m < 2 ^ 63 -> Forall session_valid sessions ->
  exists w outs, HeapBuffered i m = Some w /\ run_sessions w sessions = Some outs /\
    Forall2 (fun octets calls => exists u, calls_meaning (ATop []) calls = Some u /\ decodes octets (acollapse u)) outs sessions.
Proof.
  intros Hi Hm Hs. destruct (HeapBuffered_ready i m Hi Hm) as (w & Hw & Hr).
  destruct (sessions_ok sessions w Hr Hs) as (outs & Ho & Hall). by exists w, outs.
Qed.

(** Two messages through slices of at most eight octets; the first has messages
    nested two deep. *)
Definition example_sessions : list (list (nat * Call)) :=
  [ [(0%nat, CField (WVarInt 1 300)); (0%nat, CBegin 2); (1%nat, CTiny 3 7); (1%nat, CBegin 4);
     (2%nat, CField (WBytes 5 [97; 98; 99; 100; 101; 102; 103; 104; 105])); (0%nat, CField (WFixed32 6 1))];
    [(0%nat, CScattered 1 [[1; 2]; [3]])] ].

Lemma heap_buffered_roundtrip_witness :
  Forall session_valid example_sessions /\
  exists w outs, HeapBuffered 4 8 = Some w /\ run_sessions w example_sessions = Some outs /\
    Forall2 (fun octets calls => exists u, calls_meaning (ATop []) calls = Some u /\ decodes octets (acollapse u))
      outs example_sessions.
Proof.
  assert (Hv : Forall session_valid example_sessions) by (apply (bool_decide_unpack _); vm_compute; exact I).
  split; [exact Hv|]. apply (heap_buffered_roundtrip 4 8 example_sessions); [lia|lia|exact Hv].
Defined.
