(* ===== verification/TraceWriter.v ===== *)
(** * Writing packets into shared memory

    Models [src/tracing/core/trace_writer_impl.cc] and its header,
    [src/tracing/core/patch_list.h], and the part of
    [src/tracing/core/shared_memory_arbiter_impl.cc] that collects completed chunks
    and patches for the service ([ReturnCompletedChunk], [SendPatches],
    [UpdateCommitDataRequest] without direct patching).

    A trace writer is a delegate of the stream that its packets are written to: when
    a chunk is full the packet goes on in a new one, the fragment in the old chunk
    gets its size, and the size fields of open nested messages move to patches
    that are sent to the service later, because the old chunk is given away.

    A chunk is a memory region of its own with its header next to it: that no other
    thread touches the chunk a writer holds is what [SharedMemoryABI] proves. Which
    chunks the arbiter hands out, whether it has any, and what was in them before is
    up to the environment: [answers]. Region 0 is the garbage chunk. *)

From S2P Require Import Prelude ProtoUtils ProtoDecoder ProtoMessage TraceBuffer.

(** ** State *)

Record Chunk := mkChunk { ck_region : nat; ck_size : Z; ck_writer_id : Z; ck_id : Z; ck_count : Z; ck_flags : Z }.

(** The size field of a patch is a region of four octets. *)
Record Patch := mkPatch { pt_chunk_id : Z; pt_offset : Z; pt_region : nat }.

(** [CommitDataRequest::ChunkToPatch]. *)
Record ChunkToPatch := mkToPatch {
  tp_writer_id : Z; tp_chunk_id : Z; tp_patches : list (Z * list Z); tp_has_more_patches : bool }.

Record TraceWriterImpl := mkTW {
  id_ : Z;
  next_chunk_id_ : Z;
  cur_chunk_ : option Chunk;
  cur_fragment_start_ : option Ptr;
  fragmenting_packet_ : bool;
  reached_max_packets_per_chunk_ : bool;
  drop_packets_ : bool;
  retry_new_chunk_after_packet_ : bool;
  cur_chunk_packet_count_inflated_ : bool;
  cur_fragment_size_field_ : option Ptr;
  patch_list_ : list Patch;
  first_packet_on_sequence_ : bool;
  (* the arbiter *)
  chunk_requests : nat;
  chunks_to_move : list (Chunk * list Z);
  chunks_to_patch : list ChunkToPatch }.

(** What the arbiter answers to requests for a chunk: none, or one with some
    octets in it. *)
Class Environment := { answers : nat -> option (list Z) }.

Abbreviation TWorld := (World TraceWriterImpl).

Section Setters.
Implicit Type w : TWorld.

Definition set_tw w (t : TraceWriterImpl) : TWorld := mkWorld (w_mem w) (w_wr w) (w_msgs w) t.

Definition set_chunk w (c : option Chunk) : TWorld :=
  let t := w_dlg w in
  set_tw w (mkTW (id_ t) (next_chunk_id_ t) c (cur_fragment_start_ t) (fragmenting_packet_ t) (reached_max_packets_per_chunk_ t)
    (drop_packets_ t) (retry_new_chunk_after_packet_ t) (cur_chunk_packet_count_inflated_ t) (cur_fragment_size_field_ t)
    (patch_list_ t) (first_packet_on_sequence_ t) (chunk_requests t) (chunks_to_move t) (chunks_to_patch t)).

Definition set_fragment w (start size_field : option Ptr) : TWorld :=
  let t := w_dlg w in
  set_tw w (mkTW (id_ t) (next_chunk_id_ t) (cur_chunk_ t) start (fragmenting_packet_ t) (reached_max_packets_per_chunk_ t)
    (drop_packets_ t) (retry_new_chunk_after_packet_ t) (cur_chunk_packet_count_inflated_ t) size_field
    (patch_list_ t) (first_packet_on_sequence_ t) (chunk_requests t) (chunks_to_move t) (chunks_to_patch t)).

Definition set_fragmenting w (b : bool) : TWorld :=
  let t := w_dlg w in
  set_tw w (mkTW (id_ t) (next_chunk_id_ t) (cur_chunk_ t) (cur_fragment_start_ t) b (reached_max_packets_per_chunk_ t)
    (drop_packets_ t) (retry_new_chunk_after_packet_ t) (cur_chunk_packet_count_inflated_ t) (cur_fragment_size_field_ t)
    (patch_list_ t) (first_packet_on_sequence_ t) (chunk_requests t) (chunks_to_move t) (chunks_to_patch t)).

(** The flags [reached_max_packets_per_chunk_], [drop_packets_],
    [retry_new_chunk_after_packet_] and [cur_chunk_packet_count_inflated_]. *)
Definition set_flags w (reached_max drop retry inflated : bool) : TWorld :=
  let t := w_dlg w in
  set_tw w (mkTW (id_ t) (next_chunk_id_ t) (cur_chunk_ t) (cur_fragment_start_ t) (fragmenting_packet_ t) reached_max
    drop retry inflated (cur_fragment_size_field_ t)
    (patch_list_ t) (first_packet_on_sequence_ t) (chunk_requests t) (chunks_to_move t) (chunks_to_patch t)).

Definition set_patches w (l : list Patch) : TWorld :=
  let t := w_dlg w in
  set_tw w (mkTW (id_ t) (next_chunk_id_ t) (cur_chunk_ t) (cur_fragment_start_ t) (fragmenting_packet_ t) (reached_max_packets_per_chunk_ t)
    (drop_packets_ t) (retry_new_chunk_after_packet_ t) (cur_chunk_packet_count_inflated_ t) (cur_fragment_size_field_ t)
    l (first_packet_on_sequence_ t) (chunk_requests t) (chunks_to_move t) (chunks_to_patch t)).

Definition set_not_first w : TWorld :=
  let t := w_dlg w in
  set_tw w (mkTW (id_ t) (next_chunk_id_ t) (cur_chunk_ t) (cur_fragment_start_ t) (fragmenting_packet_ t) (reached_max_packets_per_chunk_ t)
    (drop_packets_ t) (retry_new_chunk_after_packet_ t) (cur_chunk_packet_count_inflated_ t) (cur_fragment_size_field_ t)
    (patch_list_ t) false (chunk_requests t) (chunks_to_move t) (chunks_to_patch t)).

Definition set_next_chunk_id w (n : Z) : TWorld :=
  let t := w_dlg w in
  set_tw w (mkTW (id_ t) n (cur_chunk_ t) (cur_fragment_start_ t) (fragmenting_packet_ t) (reached_max_packets_per_chunk_ t)
    (drop_packets_ t) (retry_new_chunk_after_packet_ t) (cur_chunk_packet_count_inflated_ t) (cur_fragment_size_field_ t)
    (patch_list_ t) (first_packet_on_sequence_ t) (chunk_requests t) (chunks_to_move t) (chunks_to_patch t)).

Definition set_arbiter w (requests : nat) (moved : list (Chunk * list Z)) (patched : list ChunkToPatch) : TWorld :=
  let t := w_dlg w in
  set_tw w (mkTW (id_ t) (next_chunk_id_ t) (cur_chunk_ t) (cur_fragment_start_ t) (fragmenting_packet_ t) (reached_max_packets_per_chunk_ t)
    (drop_packets_ t) (retry_new_chunk_after_packet_ t) (cur_chunk_packet_count_inflated_ t) (cur_fragment_size_field_ t)
    (patch_list_ t) (first_packet_on_sequence_ t) requests moved patched).
End Setters.

(** ** Chunks *)

Definition kMaxCount : Z := (1 << 10) - 1.
Definition kMaxPacketsPerChunk : Z := kMaxCount - 1.
Definition kExtraRoomForInflatedPacket : Z := 1.
Definition kPacketHeaderSize : nat := 4.

(** The count has ten bits. *)
Definition IncrementPacketCount (c : Chunk) : Chunk :=
  mkChunk (ck_region c) (ck_size c) (ck_writer_id c) (ck_id c) ((ck_count c + 1) mod 2 ^ 10) (ck_flags c).

Definition SetFlag (c : Chunk) (flag : Z) : Chunk :=
  mkChunk (ck_region c) (ck_size c) (ck_writer_id c) (ck_id c) (ck_count c) (ck_flags c .| flag).

Definition g_garbage_chunk : Range := mkRange 0 0 1024.

(** ** The arbiter *)

Section Arbiter.
Context `{Environment}.
Implicit Type w : TWorld.

(** [SharedMemoryArbiterImpl::GetNewChunk], seen from the writer. *)
Definition GetNewChunk w (writer_id chunk_id count flags : Z) : TWorld * option Chunk :=
  let t := w_dlg w in
  let w := set_arbiter w (S (chunk_requests t)) (chunks_to_move t) (chunks_to_patch t) in
  match answers (chunk_requests t) with
  | None => (w, None)
  | Some octets =>
      (set_mem w (w_mem w ++ [octets]),
       Some (mkChunk (length (w_mem w)) (Z.of_nat (length octets)) writer_id chunk_id count flags))
  end.

Definition is_patched (mem : list (list Z)) (p : Patch) : option bool :=
  octets ← region_read mem (pt_region p) 0 1;
  Some (negb (bool_decide (octets = [0]))).

Definition add_patch (writer_id : Z) (reqs : list ChunkToPatch) (p : Patch) (octets : list Z) : list ChunkToPatch :=
  match last reqs with
  | Some last_patch_req =>
      if tp_chunk_id last_patch_req =? pt_chunk_id p then
        removelast reqs ++ [mkToPatch (tp_writer_id last_patch_req) (tp_chunk_id last_patch_req)
                              (tp_patches last_patch_req ++ [(pt_offset p, octets)]) (tp_has_more_patches last_patch_req)]
      else reqs ++ [mkToPatch writer_id (pt_chunk_id p) [(pt_offset p, octets)] false]
  | None => [mkToPatch writer_id (pt_chunk_id p) [(pt_offset p, octets)] false]
  end.

(** The patches at the front that have been written leave the list. *)
Fixpoint take_patched (mem : list (list Z)) (writer_id : Z) (l : list Patch) (reqs : list ChunkToPatch) :
    option (list ChunkToPatch * list Patch) :=
  match l with
  | [] => Some (reqs, [])
  | p :: rest =>
      patched ← is_patched mem p;
      if patched : bool then
        octets ← region_read mem (pt_region p) 0 4;
        take_patched mem writer_id rest (add_patch writer_id reqs p octets)
      else Some (reqs, l)
  end.

Definition mark_more (reqs : list ChunkToPatch) (l : list Patch) : list ChunkToPatch :=
  match last reqs, l with
  | Some r, p :: _ =>
      if pt_chunk_id p =? tp_chunk_id r then
        removelast reqs ++ [mkToPatch (tp_writer_id r) (tp_chunk_id r) (tp_patches r) true]
      else reqs
  | _, _ => reqs
  end.

(** A chunk is handed over with what it holds at that moment: the service may take
    it from then on. *)
Definition UpdateCommitDataRequest w (chunk : option Chunk) (writer_id : Z) : option TWorld :=
  let t := w_dlg w in
  moved ← match chunk with
          | Some c => octets ← w_mem w !! ck_region c; Some (chunks_to_move t ++ [(c, octets)])
          | None => Some (chunks_to_move t)
          end;
  '(reqs, l) ← take_patched (w_mem w) writer_id (patch_list_ t) [];
  Some (set_patches (set_arbiter w (chunk_requests t) moved (chunks_to_patch t ++ mark_more reqs l)) l).

(** [SharedMemoryArbiterImpl::ReturnCompletedChunk]. *)
Definition arbiter_ReturnCompletedChunk w (chunk : Chunk) : option TWorld :=
  UpdateCommitDataRequest w (Some chunk) (ck_writer_id chunk).

Definition front_is_patched w : option bool :=
  match patch_list_ (w_dlg w) with [] => Some false | p :: _ => is_patched (w_mem w) p end.

Definition SendPatches w (writer_id : Z) : option TWorld :=
  b ← front_is_patched w;
  if b : bool then UpdateCommitDataRequest w None writer_id else None.

(** ** The writer *)

Definition ReturnCompletedChunk w : option TWorld :=
  match cur_chunk_ (w_dlg w) with
  | None => None
  | Some c =>
      let t := w_dlg w in
      w ← (if cur_chunk_packet_count_inflated_ t then
             if negb (bytes_available w =? 0) then
               let wr := w_wr w in
               r ← cur_region wr;
               if write_ptr_ wr + 1 <=? cur_end wr then
                 mem ← region_write (w_mem w) r (write_ptr_ wr) [0];
                 Some (set_flags (set_ptr (set_mem w mem) (write_ptr_ wr + 1)) (reached_max_packets_per_chunk_ t) (drop_packets_ t)
                         (retry_new_chunk_after_packet_ t) false)
               else None
             else None
           else Some w);
      arbiter_ReturnCompletedChunk (set_chunk w None) c
  end.

(** A size field is in the payload of the chunk. *)
Definition within_chunk (c : Chunk) (p : Ptr) : bool :=
  bool_decide (p.1 = ck_region c) && (0 <=? p.2) && (p.2 + 4 <=? ck_size c).

(** [AnnotatePatch]: the patch is a new region. *)
Definition AnnotatePatch w (to_patch : Ptr) : TWorld * option Ptr :=
  match cur_chunk_ (w_dlg w) with
  | None => (w, None)
  | Some c =>
      let p := mkPatch (ck_id c) (u16 to_patch.2) (length (w_mem w)) in
      let w := set_patches (set_mem w (w_mem w ++ [replicate 4 0])) (patch_list_ (w_dlg w) ++ [p]) in
      let w := if (ck_flags c .& kChunkNeedsPatching) =? 0 then set_chunk w (Some (SetFlag c kChunkNeedsPatching)) else w in
      (w, Some (pt_region p, 0))
  end.

(** The loops over the nested messages of the packet, from depth [d] on; [n] is the
    number of messages left. *)
Fixpoint redirect_fields (n : nat) w (d : nat) : option TWorld :=
  match n with
  | O => Some w
  | S n =>
      m ← w_msgs w !! d;
      c ← cur_chunk_ (w_dlg w);
      match size_field_ m with
      | Some p =>
          if within_chunk c p then
            let '(w, cur_hdr) := AnnotatePatch w p in
            redirect_fields n (set_msg w d (mkMessage (msg_size m) cur_hdr (message_state_ m))) (S d)
          else if existsb (fun q => bool_decide ((pt_region q, 0) = p)) (patch_list_ (w_dlg w)) then redirect_fields n w (S d)
          else None
      | None => None
      end
  end.

Fixpoint forget_fields (n : nat) w (d : nat) : option TWorld :=
  match n with
  | O => Some w
  | S n =>
      m ← w_msgs w !! d;
      match cur_chunk_ (w_dlg w), size_field_ m with
      | Some c, Some p =>
          if within_chunk c p then forget_fields n (set_msg w d (mkMessage (msg_size m) None (message_state_ m))) (S d)
          else forget_fields n w (S d)
      | _, _ => forget_fields n w (S d)
      end
  end.

(** [WriteRedundantVarInt(size, cur_fragment_size_field_)]. *)
Definition write_fragment_size w (size : Z) : option TWorld :=
  '(r, off) ← cur_fragment_size_field_ (w_dlg w);
  mem ← region_write (w_mem w) r off (WriteRedundantVarInt size kMessageLengthFieldSize);
  Some (set_mem w mem).

(** What [GetNewBuffer] does when there is no chunk. *)
Definition start_dropping w : option (TWorld * Range) :=
  let t := w_dlg w in
  w ← (if fragmenting_packet_ t then
         if drop_packets_ t then None
         else
           w ← write_fragment_size w kPacketSizeDropPacket;
           forget_fields (length (w_msgs w) - 1) (set_fragment w (cur_fragment_start_ t) None) 1
       else if negb (drop_packets_ t) && bool_decide (is_Some (cur_fragment_size_field_ t)) then
         match cur_chunk_ t, cur_fragment_size_field_ t with
         | Some c, Some p => if within_chunk c p then write_fragment_size w kPacketSizeDropPacket else None
         | _, _ => None
         end
       else Some w);
  w ← (if bool_decide (is_Some (cur_chunk_ (w_dlg w))) then ReturnCompletedChunk w else Some w);
  let w := set_flags (set_chunk w None) false true false false in
  Some (set_fragment w (Some (0%nat, 0)) None, g_garbage_chunk).

#[export] Instance GetNewBuffer_tw : Delegate TraceWriterImpl := fun w =>
  let t := w_dlg w in
  if fragmenting_packet_ t && drop_packets_ t then
    let w := set_flags w (reached_max_packets_per_chunk_ t) true true (cur_chunk_packet_count_inflated_ t) in
    Some (set_fragment w (Some (0%nat, 0)) None, g_garbage_chunk)
  else
    let '(count, flags) := if fragmenting_packet_ t then (1, kFirstPacketContinuesFromPrevChunk) else (0, 0) in
    let '(w, new_chunk) := GetNewChunk w (id_ t) (next_chunk_id_ t) count flags in
    match new_chunk with
    | None => start_dropping w
    | Some new_chunk =>
        w ← (if fragmenting_packet_ t then
               if drop_packets_ t then None
               else
                 c ← cur_chunk_ (w_dlg w);
                 '(r, start) ← cur_fragment_start_ (w_dlg w);
                 r' ← cur_region (w_wr w);
                 let wptr := write_ptr_ (w_wr w) in
                 let partial_size := u32 (wptr - start) in
                 if bool_decide (r = r') && (start <=? wptr) && (partial_size <? ck_size c + 8) && (0 <? partial_size) then
                   let w := set_chunk w (Some (SetFlag c kLastPacketContinuesOnNextChunk)) in
                   w ← write_fragment_size w partial_size;
                   redirect_fields (length (w_msgs w) - 1) w 1
                 else None
             else Some w);
        w ← (if bool_decide (is_Some (cur_chunk_ (w_dlg w))) then ReturnCompletedChunk w else Some w);
        let w := set_flags w false false false false in
        let w := set_next_chunk_id w (u32 (next_chunk_id_ t + 1)) in
        let w := set_fragment (set_chunk w (Some new_chunk)) (cur_fragment_start_ (w_dlg w)) None in
        if fragmenting_packet_ t then
          mem ← region_write (w_mem w) (ck_region new_chunk) 0 (replicate kPacketHeaderSize 0);
          Some (set_fragment (set_mem w mem) (Some (ck_region new_chunk, Z.of_nat kPacketHeaderSize)) (Some (ck_region new_chunk, 0)),
                mkRange (ck_region new_chunk) (Z.of_nat kPacketHeaderSize) (ck_size new_chunk))
        else Some (w, mkRange (ck_region new_chunk) 0 (ck_size new_chunk))
    end.

Definition FinalizeFragmentIfRequired w : option TWorld :=
  match cur_fragment_size_field_ (w_dlg w) with
  | None => Some w
  | Some (r, off) =>
      '(r', start) ← cur_fragment_start_ (w_dlg w);
      let wr := w_wr w in
      let wptr := write_ptr_ wr in
      if bool_decide (cur_region wr = Some r') && (start <=? wptr) then
        let partial_size := u32 (wptr - start) in
        w ← (if (partial_size <? kMaxOneByteMessageLength) && (bool_decide (cur_region wr = Some r) && (cur_begin wr <=? off)) then
               w ← Rewind w partial_size (Z.of_nat kMessageLengthFieldSize - 1);
               mem ← region_write (w_mem w) r off [u8 partial_size];
               Some (set_mem w mem)
             else write_fragment_size w partial_size);
        Some (set_fragment w (cur_fragment_start_ (w_dlg w)) None)
      else None
  end.

(** The generated setters [set_previous_packet_dropped] and
    [set_first_packet_on_sequence] of a packet append a small varint. *)
Definition kPreviousPacketDroppedFieldNumber : Z := 42.
Definition kFirstPacketOnSequenceFieldNumber : Z := 87.

Definition send_if_patched w : option TWorld :=
  b ← front_is_patched w;
  if b : bool then SendPatches w (id_ (w_dlg w)) else Some w.

Definition NewTracePacket w : option TWorld :=
  m ← w_msgs w !! 0%nat;
  if is_finalized m then
    w ← FinalizeFragmentIfRequired w;
    let w := set_fragmenting w false in
    let was_dropping_packets := drop_packets_ (w_dlg w) in
    let chunk_too_full := bytes_available w <? Z.of_nat kPacketHeaderSize + 8 in
    w ← (if chunk_too_full || reached_max_packets_per_chunk_ (w_dlg w) || retry_new_chunk_after_packet_ (w_dlg w)
         then Extend w else Some w);
    w ← send_if_patched w;
    let w := set_msgs w [fresh_message None] in
    (* the header is cleared by [ReserveBytes] *)
    '(w, header) ← ReserveBytes w kPacketHeaderSize;
    r ← cur_region (w_wr w);
    let w := set_fragmenting (set_fragment w (Some (r, write_ptr_ (w_wr w))) (Some header)) true in
    w ← (if negb (drop_packets_ (w_dlg w)) then
           c ← cur_chunk_ (w_dlg w);
           let c := if cur_chunk_packet_count_inflated_ (w_dlg w) then c else IncrementPacketCount c in
           let w := set_flags (set_chunk w (Some c)) (ck_count c =? kMaxPacketsPerChunk) (drop_packets_ (w_dlg w))
                      (retry_new_chunk_after_packet_ (w_dlg w)) false in
           if was_dropping_packets then AppendTinyVarInt w 0 kPreviousPacketDroppedFieldNumber 1 else Some w
         else Some w);
    if first_packet_on_sequence_ (w_dlg w) then
      w ← AppendTinyVarInt w 0 kFirstPacketOnSequenceFieldNumber 1;
      Some (set_not_first w)
    else Some w
  else None.

Definition FinishTracePacket w : option TWorld :=
  w ← FinalizeFragmentIfRequired w;
  let w := set_msgs w [mkMessage 0 None kFinalized] in
  w ← match cur_chunk_ (w_dlg w) with
      | Some c =>
          if negb (cur_chunk_packet_count_inflated_ (w_dlg w)) then
            if bytes_available w <? kExtraRoomForInflatedPacket then ReturnCompletedChunk w
            else
              let t := w_dlg w in
              Some (set_flags (set_chunk w (Some (IncrementPacketCount c))) (reached_max_packets_per_chunk_ t) (drop_packets_ t)
                      (retry_new_chunk_after_packet_ t) true)
          else Some w
      | None => Some w
      end;
  send_if_patched w.

Definition Flush w : option TWorld :=
  m ← w_msgs w !! 0%nat;
  if is_finalized m then
    w ← FinalizeFragmentIfRequired w;
    w ← (if bool_decide (is_Some (cur_chunk_ (w_dlg w))) then ReturnCompletedChunk w
         else if bool_decide (patch_list_ (w_dlg w) = []) || drop_packets_ (w_dlg w) then Some w else None);
    Some (Reset_null w)
  else None.

(** The constructor. *)
Definition TraceWriterImpl_new (id : Z) (garbage : list Z) : option TWorld :=
  if negb (id =? 0) && (length garbage =? 1024)%nat then
    Some (mkWorld [garbage] null_writer [mkMessage 0 None kFinalized]
            (mkTW id 0 None None false false false false false None [] true 0 [] []))
  else None.

(** The destructor, up to the release of the writer id. *)
Definition TraceWriterImpl_destroy w : option TWorld :=
  if bool_decide (is_Some (cur_chunk_ (w_dlg w))) then '(w, _) ← Finalize w 0; Flush w else Some w.

(** One packet: a handle is taken, the packet is written through it, and when the
    handle goes away the packet is finalized and the writer is told. *)
Definition write_packet w (calls : list (nat * Call)) : option TWorld :=
  w ← NewTracePacket w;
  w ← run_calls w calls;
  '(w, _) ← Finalize w 0;
  FinishTracePacket w.
End Arbiter.

(** ** What is read back

    The payload of a chunk with the patches for it applied, cut into its
    fragments; the fragments of all chunks in order, glued together where the flags
    say so. *)

Definition apply_patch (payload : list Z) (patch : Z * list Z) : list Z :=
  if (0 <=? patch.1) && (patch.1 + Z.of_nat (length patch.2) <=? Z.of_nat (length payload))
  then buf_write payload (Z.to_nat patch.1) patch.2 else payload.

Definition patches_for (reqs : list ChunkToPatch) (chunk_id : Z) : list (Z * list Z) :=
  concat (tp_patches <$> filter (fun r => tp_chunk_id r = chunk_id) reqs).

Definition patched_payload (reqs : list ChunkToPatch) (chunk : Chunk * list Z) : list Z :=
  fold_left apply_patch (patches_for reqs (ck_id chunk.1)) chunk.2.

Fixpoint read_fragments (n : nat) (payload : list Z) : option (list (list Z)) :=
  match n with
  | O => Some []
  | S n =>
      let '(k, size) := ParseVarInt payload in
      if (k =? 0)%nat then None
      else if (k + Z.to_nat size <=? length payload)%nat then
        rest ← read_fragments n (drop (k + Z.to_nat size) payload);
        Some (take (Z.to_nat size) (drop k payload) :: rest)
      else None
  end.

Definition first_continues (c : Chunk) : bool := negb ((ck_flags c .& kFirstPacketContinuesFromPrevChunk) =? 0).
Definition last_continues (c : Chunk) : bool := negb ((ck_flags c .& kLastPacketContinuesOnNextChunk) =? 0).

(** A fragment with whether it continues a packet and whether its packet continues. *)
Definition Fragment : Type := bool * bool * list Z.

Fixpoint tag_fragments (continues continued : bool) (fs : list (list Z)) : list Fragment :=
  match fs with
  | [] => []
  | [f] => [(continues, continued, f)]
  | f :: fs => (continues, false, f) :: tag_fragments false continued fs
  end.

(** The packets that are complete, and the one that is not. *)
Definition join_step (st : list (list Z) * option (list Z)) (f : Fragment) : list (list Z) * option (list Z) :=
  let '(packets, partial) := st in
  let '(continues, continued, octets) := f in
  let packet := if continues then (fun p => p ++ octets) <$> partial else Some octets in
  match packet with
  | None => (packets, None)
  | Some packet => if continued : bool then (packets, Some packet) else (packets ++ [packet], None)
  end.

Definition chunk_fragments (reqs : list ChunkToPatch) (chunk : Chunk * list Z) : option (list Fragment) :=
  fs ← read_fragments (Z.to_nat (ck_count chunk.1)) (patched_payload reqs chunk);
  Some (tag_fragments (first_continues chunk.1) (last_continues chunk.1) fs).

Definition read_back (chunks : list (Chunk * list Z)) (reqs : list ChunkToPatch) : option (list (list Z)) :=
  fragments ← mapM (chunk_fragments reqs) chunks;
  Some (filter (fun packet => packet <> []) (fold_left join_step (concat fragments) ([], None)).1).

(** ** Using a writer *)

Inductive WriterOp := WritePacket (calls : list (nat * Call)) | WriterFlush.

Section Use.
Context `{Environment}.

Definition run_op (w : TWorld) (o : WriterOp) : option TWorld :=
  match o with WritePacket calls => write_packet w calls | WriterFlush => Flush w end.

Fixpoint run_ops (w : TWorld) (ops : list WriterOp) : option TWorld :=
  match ops with
  | [] => Some w
  | o :: ops => w ← run_op w o; run_ops w ops
  end.
End Use.
