(* ===== verification/TraceWriterFragments.v ===== *)
(** * What a trace writer writes comes back

    The proofs about [TraceWriter]: the writer is a delegate the message writer of
    [ProtoMessage] can rely on, so that a packet may go over any number of chunks,
    and the chunks and patches that it hands over hold the packets. *)

From S2P Require Import Prelude ProtoUtils ProtoDecoder ProtoMessage TraceBuffer TraceWriter.

(** ** Locations that have moved to a patch *)

(** A patch with the region of the chunk that it is for. *)
Definition Detour : Type := Patch * nat.
Definition dt_region (g : Detour) : nat := pt_region g.1.

Definition covers (g : Detour) (l : Ptr) : Prop := l.1 = g.2 /\ pt_offset g.1 <= l.2 < pt_offset g.1 + 4.
#[export] Instance covers_dec g l : Decision (covers g l).
Proof. unfold covers. apply _. Defined.

Definition detour (g : Detour) (l l' : Ptr) : Ptr :=
  if decide (covers g l) then (dt_region g, l.2 - pt_offset g.1) else l'.

(** Where the octet of a chunk really is. *)
Definition redirect (G : list Detour) (l : Ptr) : Ptr := fold_left (fun l' g => detour g l l') G l.

Lemma redirect_snoc G g l : redirect (G ++ [g]) l = detour g l (redirect G l).
Proof. unfold redirect. by rewrite fold_left_app. Qed.

Lemma redirect_app_other G G' l : Forall (fun g => ~ covers g l) G' -> redirect (G ++ G') l = redirect G l.
Proof.
  induction G' as [|g G' IH] using rev_ind; intros Hn; [by rewrite app_nil_r|].
  rewrite Forall_app, Forall_singleton in Hn. destruct Hn as [Hn Hg]. rewrite app_assoc, redirect_snoc, IH by done.
  unfold detour. by rewrite decide_False by exact Hg.
Qed.

Lemma redirect_app_skip G G' l : Forall (fun g => ~ covers g l) G -> redirect (G ++ G') l = redirect G' l.
Proof.
  induction G' as [|g G' IH] using rev_ind; intros Hn; [rewrite app_nil_r|].
  - by apply (redirect_app_other []).
  - by rewrite app_assoc, !redirect_snoc, IH.
Qed.

Lemma redirect_none G l : Forall (fun g => ~ covers g l) G -> redirect G l = l.
Proof. apply (redirect_app_other []). Qed.

Lemma redirect_cases G l :
  redirect G l = l /\ Forall (fun g => ~ covers g l) G \/
  exists g, g ∈ G /\ covers g l /\ redirect G l = (dt_region g, l.2 - pt_offset g.1).
Proof.
  induction G as [|g G IH] using rev_ind; [by left|]. rewrite redirect_snoc. unfold detour.
  destruct (decide (covers g l)) as [Hc|Hc]; [right; exists g; set_solver|].
  destruct IH as [[H1 H2]|(g' & H1 & H2 & H3)]; [left|right; exists g'; set_solver].
  split; [done|]. apply Forall_app. split; [done|by apply Forall_singleton].
Qed.

(** ** Memory *)

Lemma read1_app mem mem' l x : read1 mem l = Some x -> read1 (mem ++ mem') l = Some x.
Proof.
  unfold read1. destruct (mem !! l.1) as [b|] eqn:E; [|done]. cbn [mbind option_bind].
  rewrite (lookup_app_l_Some _ _ _ _ E). done.
Qed.

Lemma read1_eq mem mem' l : mem !! l.1 = mem' !! l.1 -> read1 mem l = read1 mem' l.
Proof. unfold read1. by intros ->. Qed.

Lemma read1_at mem r b i : mem !! r = Some b -> read1 mem (r, Z.of_nat i) = b !! i.
Proof. intros H. unfold read1. cbn [fst snd]. rewrite H. cbn [mbind option_bind]. rewrite (proj2 (Z.leb_le _ _)) by lia. by rewrite Nat2Z.id. Qed.

(** Regions that are read the same are the same. *)
Lemma region_eq mem mem' r b :
  mem !! r = Some b -> (exists b', mem' !! r = Some b' /\ length b' = length b) ->
  (forall l, l.1 = r -> read1 mem' l = read1 mem l) -> mem' !! r = mem !! r.
Proof.
  intros Hb (b' & Hb' & Hl) Hr. rewrite Hb, Hb'. f_equal. apply list_eq. intros i.
  rewrite <- (read1_at mem r b), <- (read1_at mem' r b') by done. by apply Hr.
Qed.

Lemma cells_app mem mem' locs out : cells mem locs out -> cells (mem ++ mem') locs out.
Proof. intros H. eapply Forall2_impl; [exact H|]. intros l b. apply read1_app. Qed.

Lemma cells_eq mem mem' locs out :
  (forall l, l ∈ locs -> read1 mem' l = read1 mem l) -> cells mem locs out -> cells mem' locs out.
Proof.
  intros Hr Hc. unfold cells in *. induction Hc as [|l b locs out Hb Hc IH]; constructor.
  - rewrite Hr by set_solver. done.
  - apply IH. intros l' Hl'. apply Hr. set_solver.
Qed.

(** ** The fragments of a packet *)

(** What there was when the packet was started: the writer, the memory, the chunk
    and the place in it, and what had been handed over. *)
Record Prior := mkPrior {
  p_id : Z; p_first : bool; p_mem : list (list Z); p_chunk : Chunk; p_start : Z;
  p_moved : list (Chunk * list Z); p_sent : list (Z * Z * list Z) }.

Definition home (P : Prior) : nat := ck_region (p_chunk P).

(** Octets written before the packet. *)
Definition frozen (P : Prior) (l : Ptr) : Prop :=
  (l.1 < length (p_mem P))%nat /\ (l.1 = home P -> l.2 < p_start P - 4).

(** A fragment that has been closed: its chunk with the payload. *)
Record Frag := mkFrag { fg_chunk : Chunk; fg_payload : list Z; fg_start : Z; fg_size : nat }.

Definition fg_region (f : Frag) : nat := ck_region (fg_chunk f).
Definition fg_locs (f : Frag) : list Ptr := range_locs (fg_region f) (fg_start f) (fg_size f).
Definition fg_moved (f : Frag) : Chunk * list Z := (fg_chunk f, fg_payload f).
Definition raw_locs (frags : list Frag) : list Ptr := concat (fg_locs <$> frags).

(** A chunk as the [i]-th chunk of the packet, with the start of the fragment. *)
Definition opened (P : Prior) (i : nat) (c : Chunk) (start : Z) : Prop :=
  ck_id c = u32 (Z.of_nat (length (p_moved P) + i)) /\ ck_writer_id c = p_id P /\
  match i with
  | O => c = p_chunk P /\ start = p_start P
  | S _ => (length (p_mem P) <= ck_region c)%nat /\ start = 4 /\ ck_count c = 1 /\
           ck_flags c = kFirstPacketContinuesFromPrevChunk
  end.

(** Setting flags that do not tell where the first fragment comes from. *)
Definition same_chunk (c c' : Chunk) : Prop :=
  ck_region c' = ck_region c /\ ck_size c' = ck_size c /\ ck_writer_id c' = ck_writer_id c /\ ck_id c' = ck_id c /\
  ck_count c' = ck_count c /\ first_continues c' = first_continues c.

Record frag_ok (P : Prior) (mem : list (list Z)) (i : nat) (f : Frag) : Prop := {
  fo_chunk : exists c, opened P i c (fg_start f) /\ same_chunk c (fg_chunk f);
  fo_continued : last_continues (fg_chunk f) = true;
  fo_mem : mem !! fg_region f = Some (fg_payload f);
  fo_start : 4 <= fg_start f;
  fo_end : fg_start f + Z.of_nat (fg_size f) <= Z.of_nat (length (fg_payload f)) < 2 ^ 16;
  fo_header : take 4 (drop (Z.to_nat (fg_start f - 4)) (fg_payload f)) = WriteRedundantVarInt (Z.of_nat (fg_size f)) 4 }.

Definition detour_ok (P : Prior) (mem : list (list Z)) (frags : list Frag) (g : Detour) : Prop :=
  (length (p_mem P) <= dt_region g)%nat /\ (exists b, mem !! dt_region g = Some b /\ length b = 4%nat) /\
  exists f, f ∈ frags /\ fg_region f = g.2 /\ ck_id (fg_chunk f) = pt_chunk_id g.1 /\
    fg_start f <= pt_offset g.1 /\ pt_offset g.1 + 4 <= fg_start f + Z.of_nat (fg_size f).

Definition Sent : Type := Detour * list Z.
Definition detours (sent : list Sent) (unsent : list Detour) : list Detour := (fst <$> sent) ++ unsent.

Definition ours (P : Prior) (mem : list (list Z)) (r : nat) : Prop :=
  (r < length mem)%nat /\ (r = home P \/ (length (p_mem P) <= r)%nat).

(** The closed fragments of a packet, and the patches for them, hold the stream at
    [locs]. *)
Record ghost_ok (P : Prior) (mem : list (list Z)) (locs : list Ptr) (frags : list Frag) (sent : list Sent)
    (unsent : list Detour) : Prop := {
  gh_frags : forall i f, frags !! i = Some f -> frag_ok P mem i f;
  gh_nodup : NoDup ((fg_region <$> frags) ++ (dt_region <$> detours sent unsent));
  gh_ours : Forall (ours P mem) (fg_region <$> frags);
  gh_detours : Forall (detour_ok P mem frags) (detours sent unsent);
  gh_sent : Forall (fun s : Sent => mem !! dt_region s.1 = Some s.2) sent;
  gh_locs : locs = redirect (detours sent unsent) <$> raw_locs frags;
  gh_frozen : forall l, frozen P l -> read1 mem l = read1 (p_mem P) l }.

Section Ghost.
Context (P : Prior).
Implicit Types (mem : list (list Z)) (locs : list Ptr) (frags : list Frag) (sent : list Sent) (unsent : list Detour).

Lemma ghost_nil mem : mem = p_mem P -> ghost_ok P mem [] [] [] [].
Proof. intros ->. constructor; try done; constructor. Qed.

(** Memory changes that leave alone what has been handed over. *)
Lemma ghost_mem mem mem' locs frags sent unsent :
  ghost_ok P mem locs frags sent unsent ->
  (forall r b, mem !! r = Some b -> exists b', mem' !! r = Some b' /\ length b' = length b) ->
  (forall r, r ∈ fg_region <$> frags \/ r ∈ dt_region <$> sent.*1 -> mem' !! r = mem !! r) ->
  (forall l, frozen P l -> read1 mem' l = read1 mem l) ->
  ghost_ok P mem' locs frags sent unsent.
Proof.
  intros [Hf Hn Ho Hd Hs Hl Hz] Hm Hr Hfr. split; try done.
  - intros i f Hi. specialize (Hf i f Hi) as [? ? Hmem ? ? ?]. split; try done. rewrite Hr; [done|]. left.
    apply list_elem_of_fmap. exists f. split; [done|]. by eapply list_elem_of_lookup_2.
  - eapply Forall_impl; [exact Ho|]. intros r [H1 H2]. split; [|done]. apply lookup_lt_is_Some in H1 as [b Hb].
    destruct (Hm r b Hb) as (b' & Hb' & _). by eapply lookup_lt_Some.
  - eapply Forall_impl; [exact Hd|]. intros g (H1 & (b & Hb & Hl4) & H3). split; [done|]. split; [|done].
    destruct (Hm _ b Hb) as (b' & Hb' & Hl'). exists b'. split; [done|congruence].
  - rewrite Forall_forall in Hs |- *. intros s Hin. rewrite Hr; [by apply Hs|]. right.
    apply list_elem_of_fmap. exists s.1. split; [done|]. by apply list_elem_of_fmap_2.
  - intros l Hl'. rewrite Hfr by done. by apply Hz.
Qed.

Lemma ghost_alloc mem x locs frags sent unsent :
  (length (p_mem P) <= length mem)%nat ->
  ghost_ok P mem locs frags sent unsent -> ghost_ok P (mem ++ [x]) locs frags sent unsent.
Proof.
  intros Hle Hg. apply (ghost_mem mem); [done|..].
  - intros r b Hb. exists b. split; [by apply lookup_app_l_Some|done].
  - intros r Hr. apply lookup_app_l. destruct Hr as [Hr|Hr].
    + pose proof (gh_ours _ _ _ _ _ _ Hg) as Ho. rewrite Forall_forall in Ho. by apply Ho.
    + apply list_elem_of_fmap in Hr as (g & -> & Hg'). pose proof (gh_detours _ _ _ _ _ _ Hg) as Hd.
      unfold detours in Hd. rewrite Forall_app in Hd. destruct Hd as [Hd _]. rewrite Forall_forall in Hd.
      destruct (Hd g Hg') as (_ & (b & Hb & _) & _). by eapply lookup_lt_Some.
  - intros l [Hl _]. apply read1_eq. apply lookup_app_l. lia.
Qed.

(** Patches are sent. *)
Lemma ghost_send mem locs frags sent now unsent :
  ghost_ok P mem locs frags sent (now.*1 ++ unsent) -> Forall (fun s : Sent => mem !! dt_region s.1 = Some s.2) now ->
  ghost_ok P mem locs frags (sent ++ now) unsent.
Proof.
  intros [Hf Hn Ho Hd Hs Hl Hz] Hnow.
  assert (E : detours (sent ++ now) unsent = detours sent (now.*1 ++ unsent))
    by (unfold detours; by rewrite fmap_app, app_assoc).
  split; rewrite ?E; try done. by apply Forall_app.
Qed.

Lemma redirect_region mem locs frags sent unsent l :
  ghost_ok P mem locs frags sent unsent ->
  redirect (detours sent unsent) l = l /\ Forall (fun g => ~ covers g l) (detours sent unsent) \/
  (redirect (detours sent unsent) l).1 ∈ dt_region <$> detours sent unsent.
Proof.
  intros Hg. destruct (redirect_cases (detours sent unsent) l) as [H|(g & Hin & Hc & ->)]; [by left|]. right.
  apply list_elem_of_fmap. by exists g.
Qed.

(** New regions are new. *)
Lemma ghost_fresh mem locs frags sent unsent :
  ghost_ok P mem locs frags sent unsent -> length mem ∉ (fg_region <$> frags) ++ (dt_region <$> detours sent unsent).
Proof.
  intros [_ _ Ho Hd _ _ _]. rewrite elem_of_app. intros [Hin|Hin].
  - rewrite Forall_forall in Ho. destruct (Ho _ Hin). lia.
  - apply list_elem_of_fmap in Hin as (x & Ex & Hin). rewrite Forall_forall in Hd.
    destruct (Hd x Hin) as (_ & (b & Hb & _) & _). apply lookup_lt_Some in Hb. lia.
Qed.

Lemma raw_locs_app frags frags' : raw_locs (frags ++ frags') = raw_locs frags ++ raw_locs frags'.
Proof. unfold raw_locs. by rewrite fmap_app, concat_app. Qed.

Lemma raw_locs_region frags l : l ∈ raw_locs frags -> l.1 ∈ fg_region <$> frags.
Proof.
  unfold raw_locs. induction frags as [|f frags IH]; cbn; [by intros ?%elem_of_nil|].
  rewrite elem_of_app. intros [H|H]; [|right; auto]. apply elem_of_range_locs in H as [-> _]. left.
Qed.

Lemma NoDup_raw_locs frags : NoDup (fg_region <$> frags) -> NoDup (raw_locs frags).
Proof.
  unfold raw_locs. induction frags as [|f frags IH]; cbn; [constructor|]. intros [Hn Hd]%NoDup_cons.
  apply NoDup_app. split_and!; [apply NoDup_range_locs| |by apply IH].
  intros l [Hl _]%elem_of_range_locs Hin%raw_locs_region. rewrite Hl in Hin. done.
Qed.

(** Every location of the stream is in a fragment's chunk or in a patch. *)
Lemma ghost_locs_region mem locs frags sent unsent l :
  ghost_ok P mem locs frags sent unsent -> l ∈ locs ->
  l.1 ∈ (fg_region <$> frags) ++ (dt_region <$> detours sent unsent).
Proof.
  intros Hg Hl. rewrite (gh_locs _ _ _ _ _ _ Hg) in Hl. apply list_elem_of_fmap in Hl as (x & -> & Hx%raw_locs_region).
  apply elem_of_app. destruct (redirect_region _ _ _ _ _ x Hg) as [[-> _]|H]; [by left|by right].
Qed.

Lemma lookup_splice {A} (l mid : list A) p i :
  (p + length mid <= length l)%nat ->
  (take p l ++ mid ++ drop (p + length mid) l) !! i =
    if decide (p <= i < p + length mid)%nat then mid !! (i - p)%nat else l !! i.
Proof.
  intros Hl. destruct (decide _) as [Hi|Hi].
  - rewrite lookup_app_r by (rewrite length_take; lia). rewrite length_take, Nat.min_l by lia.
    by rewrite lookup_app_l by lia.
  - destruct (decide (i < p)%nat).
    + rewrite lookup_app_l by (rewrite length_take; lia). by rewrite lookup_take_lt.
    + rewrite lookup_app_r by (rewrite length_take; lia). rewrite length_take, Nat.min_l by lia.
      rewrite lookup_app_r by lia. rewrite lookup_drop. f_equal. lia.
Qed.

Lemma lookup_range_locs r s n i : (i < n)%nat -> range_locs r s n !! i = Some (r, s + Z.of_nat i).
Proof. intros Hi. unfold range_locs. rewrite list_lookup_fmap, lookup_seq_lt by done. done. Qed.

(** The octets at a place of the stream that is in the chunk of a fragment. *)
Lemma ghost_raw mem locs frags sent unsent p r off n :
  ghost_ok P mem locs frags sent unsent -> r ∈ fg_region <$> frags -> take n (drop p locs) = range_locs r off n ->
  forall j, (j < n)%nat -> raw_locs frags !! (p + j)%nat = Some (r, off + Z.of_nat j).
Proof.
  intros Hg Hr Ht j Hj.
  assert (Hx : locs !! (p + j)%nat = Some (r, off + Z.of_nat j)).
  { rewrite <- lookup_drop, <- (lookup_take_lt _ n) by done. rewrite Ht. by apply lookup_range_locs. }
  rewrite (gh_locs _ _ _ _ _ _ Hg), list_lookup_fmap, fmap_Some in Hx. destruct Hx as (x & Hx & E). rewrite Hx. f_equal.
  destruct (redirect_region _ _ _ _ _ x Hg) as [[E' _]|Hin]; [congruence|]. rewrite <- E in Hin. cbn in Hin.
  pose proof (gh_nodup _ _ _ _ _ _ Hg) as Hn. apply NoDup_app in Hn as (_ & Hn & _). by destruct (Hn r).
Qed.

Lemma ghost_annotate mem locs frags f c' sent unsent p off :
  ghost_ok P mem locs (frags ++ [f]) sent unsent -> (length (p_mem P) <= length mem)%nat ->
  same_chunk (fg_chunk f) c' -> last_continues c' = true ->
  take 4 (drop p locs) = range_locs (fg_region f) off 4 ->
  let q := length mem in
  ghost_ok P (mem ++ [replicate 4 0]) (take p locs ++ range_locs q 0 4 ++ drop (p + 4) locs)
    (frags ++ [mkFrag c' (fg_payload f) (fg_start f) (fg_size f)]) sent
    (unsent ++ [(mkPatch (ck_id (fg_chunk f)) off q, fg_region f)]).
Proof.
  intros Hg Hle Hc Hlast Ht q. set (r := fg_region f) in *. set (f' := mkFrag c' _ _ _).
  set (g := (mkPatch _ off q, r)). set (G := detours sent unsent).
  assert (EG : detours sent (unsent ++ [g]) = G ++ [g]) by (unfold G, detours; by rewrite app_assoc).
  assert (Er : fg_region f' = r) by apply Hc.
  assert (Eraw : raw_locs (frags ++ [f']) = raw_locs (frags ++ [f])).
  { rewrite !raw_locs_app. f_equal. unfold raw_locs. cbn. unfold fg_locs. by rewrite Er. }
  assert (Ereg : fg_region <$> frags ++ [f'] = fg_region <$> frags ++ [f]) by (rewrite !fmap_app; cbn; by rewrite Er).
  assert (Hrin : r ∈ fg_region <$> frags ++ [f]) by (rewrite fmap_app; set_solver).
  pose proof (ghost_raw _ _ _ _ _ p r off 4 Hg Hrin Ht) as Hraw.
  pose proof Hg as [_ Hn Ho Hd _ Hl _].
  pose proof (ghost_fresh _ _ _ _ _ Hg) as Hq. fold q G in Hq.
  pose proof (ghost_alloc _ (replicate 4 0) _ _ _ _ Hle Hg) as [Hf2 _ Ho2 Hd2 Hs2 _ Hz2].
  split; rewrite ?EG, ?Ereg, ?Eraw; try done.
  - intros i fi Hi. destruct (decide (i < length frags)%nat).
    + apply Hf2. rewrite lookup_app_l in Hi |- * by done. done.
    + rewrite lookup_app_r in Hi by lia. apply list_lookup_singleton_Some in Hi as [Hi <-].
      destruct (Hf2 i f) as [(c & Hc1 & Hc2) H2 H3 H4 H5 H6].
      { rewrite lookup_app_r by lia. by replace (i - length frags)%nat with 0%nat by lia. }
      split; try done.
      * exists c. split; [done|]. unfold same_chunk in *. cbn. intuition congruence.
      * by rewrite Er.
  - rewrite (fmap_app dt_region G), app_assoc. apply NoDup_app. split_and!; [done| |apply NoDup_singleton].
    intros x Hx Hx'. cbn in Hx'. apply list_elem_of_singleton in Hx' as ->. done.
  - rewrite Forall_app, Forall_singleton. split.
    + eapply Forall_impl; [exact Hd2|]. intros x (H1 & H2 & fx & Hfx & H3). split; [done|]. split; [done|].
      apply elem_of_app in Hfx as [Hfx| ->%list_elem_of_singleton].
      * exists fx. split; [set_solver|done].
      * exists f'. split; [set_solver|]. rewrite Er. unfold r. cbn [fg_chunk fg_start fg_size f'].
        destruct Hc as (_ & _ & _ & -> & _). done.
    + split; [done|]. split.
      { exists (replicate 4 0). split; [|done]. unfold dt_region. cbn. by apply list_lookup_middle. }
      exists f'. split; [set_solver|]. split; [done|]. split; [by destruct Hc as (_ & _ & _ & Hc & _)|].
      cbn [fst snd g pt_offset f' fg_start fg_size].
      assert (Hin : forall j, (j < 4)%nat -> fg_start f <= off + Z.of_nat j < fg_start f + Z.of_nat (fg_size f)).
      { intros j Hj. specialize (Hraw j Hj). apply list_elem_of_lookup_2 in Hraw. rewrite raw_locs_app in Hraw.
        apply elem_of_app in Hraw as [Hraw|Hraw].
        - apply raw_locs_region in Hraw. rewrite fmap_app, <- app_assoc in Hn. apply NoDup_app in Hn as (_ & Hn & _).
          destruct (Hn r); [done|]. cbn. set_solver.
        - unfold raw_locs in Hraw. cbn in Hraw. rewrite app_nil_r in Hraw. apply elem_of_range_locs in Hraw. cbn in Hraw. lia. }
      pose proof (Hin 0%nat ltac:(lia)). pose proof (Hin 3%nat ltac:(lia)). lia.
  - assert (Hlen : (p + 4 <= length locs)%nat).
    { apply (f_equal length) in Ht. rewrite length_take, length_drop, length_range_locs in Ht. lia. }
    assert (Hnr : NoDup (raw_locs (frags ++ [f]))) by (apply NoDup_raw_locs; by apply NoDup_app in Hn as (? & _)).
    apply list_eq. intros i. rewrite <- (length_range_locs q 0 4) at 2. rewrite lookup_splice by (by rewrite length_range_locs).
    rewrite length_range_locs, list_lookup_fmap. destruct (decide _) as [Hi|Hi].
    + rewrite lookup_range_locs by lia. replace i with (p + (i - p))%nat at 2 by lia. rewrite Hraw by lia. cbn. f_equal.
      rewrite redirect_snoc. unfold detour, covers, dt_region. cbn. rewrite decide_True by lia. f_equal. lia.
    + rewrite Hl, list_lookup_fmap. destruct (raw_locs (frags ++ [f]) !! i) as [x|] eqn:Hx; [|done]. cbn. f_equal.
      rewrite redirect_snoc. unfold detour. rewrite decide_False; [done|]. intros [Hc1 Hc2]. cbn in Hc1, Hc2.
      assert (Hx' : raw_locs (frags ++ [f]) !! (p + Z.to_nat (x.2 - off))%nat = Some x).
      { rewrite Hraw by lia. f_equal. destruct x. cbn in *. f_equal; [congruence|lia]. }
      pose proof (NoDup_lookup _ _ _ _ Hnr Hx Hx'). lia.
Qed.
End Ghost.

(** ** Where the size fields are in the stream *)

Fixpoint positions (pos : nat) (t : Tower) : list nat :=
  match t with
  | Top _ => []
  | Nest c tag _ t => (pos + length c + length tag)%nat :: positions (pos + length c + length tag + 4) t
  end.

Fixpoint zeroed (t : Tower) : Prop :=
  match t with Top _ => True | Nest _ _ res t => res = replicate 4 0 /\ zeroed t end.

Lemma fields_ok_positions locs t : forall pos ms,
  fields_ok locs pos ms t <-> exists m ms', ms = m :: ms' /\ zeroed t /\ Forall2 (located locs) (positions pos t) ms'.
Proof.
  induction t as [c|c tag res t IH]; intros pos ms; cbn [fields_ok zeroed positions].
  - destruct ms as [|m [|m' ms]]; split; try done; try naive_solver.
    + intros (? & ? & [= <- <-] & _ & H). inversion H.
  - destruct ms as [|m [|m' ms]]; [naive_solver| |].
    + split; [done|]. intros (? & ? & [= <- <-] & _ & H). inversion H.
    + rewrite IH. cbn [tail]. split.
      * intros (Hr & Hl & m1 & ms' & [= -> ->] & Hz & Hf). exists m, (m1 :: ms'). split_and!; try done. by constructor.
      * intros (? & ? & [= <- <-] & (Hr & Hz) & H). inversion H; subst. split_and!; try done. eauto.
Qed.

Lemma positions_ge t : forall pos p, p ∈ positions pos t -> (pos <= p)%nat.
Proof.
  induction t as [c|c tag res t IH]; intros pos p; cbn [positions]; [by intros ?%elem_of_nil|].
  intros [->|H]%elem_of_cons; [lia|]. apply IH in H. lia.
Qed.

Lemma positions_apart t : forall pos i j p q,
  (i < j)%nat -> positions pos t !! i = Some p -> positions pos t !! j = Some q -> (p + 4 <= q)%nat.
Proof.
  induction t as [c|c tag res t IH]; intros pos i j p q Hij Hi Hj; cbn [positions] in *; [done|].
  destruct j as [|j]; [lia|]. cbn in Hj. destruct i as [|i]; cbn in Hi; [|by eapply (IH _ i j); [lia|..]].
  injection Hi as <-. apply list_elem_of_lookup_2, positions_ge in Hj. lia.
Qed.

Lemma positions_zero t : forall pre rest p,
  zeroed t -> p ∈ positions (length pre) t -> take 4 (drop p (pre ++ phys t ++ rest)) = replicate 4 0.
Proof.
  induction t as [c|c tag res t IH]; intros pre rest p Hz Hp; cbn [positions zeroed phys] in *; [by apply elem_of_nil in Hp|].
  destruct Hz as [-> Hz].
  assert (E : pre ++ (c ++ tag ++ replicate 4 0 ++ phys t) ++ rest = (pre ++ c ++ tag) ++ replicate 4 0 ++ phys t ++ rest)
    by (by rewrite <- !app_assoc).
  rewrite E. apply elem_of_cons in Hp as [->|Hp].
  - rewrite drop_app_length'; [done|]. rewrite !length_app. lia.
  - rewrite app_assoc. apply IH; [done|]. rewrite !length_app. cbn [length replicate].
    replace (length pre + (length c + length tag) + 4)%nat with (length pre + length c + length tag + 4)%nat by lia. done.
Qed.

(** ** Closing a fragment *)

Lemma set_flag_land a b c : b .& c = 0 -> (a .| b) .& c = a .& c.
Proof. intros H. by rewrite Z.land_lor_distr_l, H, Z.lor_0_r. Qed.

Lemma same_chunk_refl c : same_chunk c c.
Proof. done. Qed.

Lemma same_chunk_trans c1 c2 c3 : same_chunk c1 c2 -> same_chunk c2 c3 -> same_chunk c1 c3.
Proof. unfold same_chunk. intuition congruence. Qed.

Lemma SetFlag_needs c :
  same_chunk c (SetFlag c kChunkNeedsPatching) /\ last_continues (SetFlag c kChunkNeedsPatching) = last_continues c.
Proof.
  unfold same_chunk, first_continues, last_continues, SetFlag. cbn [ck_region ck_size ck_writer_id ck_id ck_count ck_flags].
  rewrite !set_flag_land by reflexivity. done.
Qed.

Lemma SetFlag_last c :
  same_chunk c (SetFlag c kLastPacketContinuesOnNextChunk) /\ last_continues (SetFlag c kLastPacketContinuesOnNextChunk) = true.
Proof.
  unfold same_chunk, first_continues, last_continues, SetFlag. cbn [ck_region ck_size ck_writer_id ck_id ck_count ck_flags].
  rewrite set_flag_land by reflexivity. split; [done|]. rewrite Z.land_lor_distr_l.
  rewrite negb_true_iff, Z.eqb_neq. change (kLastPacketContinuesOnNextChunk .& kLastPacketContinuesOnNextChunk) with (2 ^ 1).
  intros H. apply (f_equal (fun z => Z.testbit z 1)) in H. rewrite Z.lor_spec, Z.pow2_bits_true, orb_true_r, Z.bits_0 in H by lia. done.
Qed.

(** The delegate with another current chunk and another list of patches. *)
Definition tw_with (t : TraceWriterImpl) (c : Chunk) (l : list Patch) : TraceWriterImpl :=
  mkTW (id_ t) (next_chunk_id_ t) (Some c) (cur_fragment_start_ t) (fragmenting_packet_ t) (reached_max_packets_per_chunk_ t)
    (drop_packets_ t) (retry_new_chunk_after_packet_ t) (cur_chunk_packet_count_inflated_ t) (cur_fragment_size_field_ t)
    l (first_packet_on_sequence_ t) (chunk_requests t) (chunks_to_move t) (chunks_to_patch t).

(** A patch is open as long as a message will write its size into it. *)
Definition open_field (ms : list Message) (p : Ptr) : Prop := exists m, m ∈ ms /\ size_field_ m = Some p.

#[export] Instance open_field_dec ms p : Decision (open_field ms p).
Proof. refine (cast_if (decide (Exists (fun m => size_field_ m = Some p) ms))); unfold open_field; rewrite Exists_exists in *; done. Defined.

Definition open_or_patched (mem : list (list Z)) (ms : list Message) (g : Detour) : Prop :=
  open_field ms (dt_region g, 0) \/ exists x, read1 mem (dt_region g, 0) = Some x /\ x <> 0.

(** The last fragment has its size; the size fields of open messages are being
    moved from its chunk to patches. *)
Record closing (P : Prior) (w0 : TWorld) (spare : nat) (out : list Z) (ps : list nat) (w : TWorld) (locs : list Ptr)
    (frags : list Frag) (f : Frag) (sent : list Sent) (unsent : list Detour) : Prop := {
  cl_ghost : ghost_ok P (w_mem w) locs (frags ++ [f]) sent unsent;
  cl_cells : cells (w_mem w) locs out;
  cl_nodup : NoDup locs;
  cl_prior : (length (p_mem P) <= length (w_mem w))%nat;
  cl_size : ck_size (fg_chunk f) = Z.of_nat (length (fg_payload f));
  cl_dlg : w_dlg w = tw_with (w_dlg w0) (fg_chunk f) unsent.*1;
  cl_wr : w_wr w = w_wr w0;
  cl_msgs : same_msgs (w_msgs w0) (w_msgs w);
  cl_fields : Forall2 (located locs) ps (tail (w_msgs w));
  cl_where : forall m p, m ∈ w_msgs w -> size_field_ m = Some p ->
    p.1 = fg_region f \/ exists g, g ∈ unsent /\ p = (dt_region g, 0);
  cl_patched : Forall (open_or_patched (w_mem w) (w_msgs w)) unsent;
  cl_mem : forall r b, w_mem w0 !! r = Some b -> w_mem w !! r = Some b;
  cl_spare : (spare < length (w_mem w))%nat /\ spare ∉ (fg_region <$> frags ++ [f]) ++ (dt_region <$> detours sent unsent) }.

Lemma located_lookup locs p m r off j :
  size_field_ m = Some (r, off) -> located locs p m -> (j < 4)%nat -> locs !! (p + j)%nat = Some (r, off + Z.of_nat j).
Proof.
  intros Hs (r' & off' & Hs' & Ht) Hj. rewrite Hs in Hs'. injection Hs' as <- <-.
  rewrite <- lookup_drop, <- (lookup_take_lt _ 4) by done. rewrite Ht. by apply lookup_range_locs.
Qed.

Lemma located_take4 locs p m r off : size_field_ m = Some (r, off) -> located locs p m -> take 4 (drop p locs) = range_locs r off 4.
Proof. intros Hs (r' & off' & Hs' & Ht). rewrite Hs in Hs'. by injection Hs' as <- <-. Qed.

(** Replacing the octets of one size field keeps the others. *)
Lemma located_splice locs p p' m mid :
  length mid = 4%nat -> (p + 4 <= length locs)%nat -> (p' + 4 <= p \/ p + 4 <= p')%nat ->
  located locs p' m -> located (take p locs ++ mid ++ drop (p + 4) locs) p' m.
Proof.
  intros Hm Hl Ha (r & off & Hs & Ht). exists r, off. split; [done|]. rewrite <- Ht. rewrite <- Hm at 2.
  apply list_eq. intros i. destruct (decide (i < 4)%nat).
  - rewrite !lookup_take_lt, !lookup_drop by done. rewrite lookup_splice by lia. by rewrite decide_False by lia.
  - by rewrite !lookup_take_ge by lia.
Qed.

Lemma cells_splice mem locs out p mid :
  cells mem locs out -> cells mem mid (take 4 (drop p out)) -> length mid = 4%nat ->
  cells mem (take p locs ++ mid ++ drop (p + 4) locs) out.
Proof.
  intros Hc Hm Hl. assert (E : out = take p out ++ take 4 (drop p out) ++ drop (p + 4) out).
  { rewrite <- drop_drop, !take_drop. done. }
  rewrite E. apply Forall2_app; [by apply Forall2_take|]. apply Forall2_app; [done|by apply Forall2_drop].
Qed.

Lemma NoDup_splice {A} (l mid : list A) p n :
  NoDup l -> NoDup mid -> (forall x, x ∈ mid -> x ∉ l) -> NoDup (take p l ++ mid ++ drop (p + n) l).
Proof.
  intros Hl Hm Hd. assert (E : l = take p l ++ take n (drop p l) ++ drop (p + n) l) by (rewrite <- drop_drop, !take_drop; done).
  rewrite E in Hl. apply NoDup_app in Hl as (H1 & H2 & H3). apply NoDup_app in H3 as (_ & _ & H4).
  apply NoDup_app. split_and!; [done| |apply NoDup_app; split_and!; [done| |done]].
  - intros x Hx Hin. apply elem_of_app in Hin as [Hin|Hin].
    + apply (Hd x Hin). rewrite E. set_solver.
    + apply (H2 x Hx). set_solver.
  - intros x Hx Hin. apply (Hd x Hx). rewrite E. set_solver.
Qed.

Lemma same_msgs_insert ms d m x :
  ms !! S d = Some m -> same_msgs ms (<[S d := mkMessage (msg_size m) x (message_state_ m)]> ms).
Proof.
  intros Hm. split; [|by destruct ms].
  apply Forall2_same_length_lookup_2; [by rewrite length_insert|]. intros i a b Ha Hb.
  destruct (decide (i = S d)) as [->|Hi].
  - rewrite list_lookup_insert_eq in Hb by (by eapply lookup_lt_Some). rewrite Hm in Ha. injection Ha as <-. injection Hb as <-. done.
  - rewrite list_lookup_insert_ne in Hb by done. rewrite Ha in Hb. by injection Hb as <-.
Qed.

Section Redirect.
Context (P : Prior).
Implicit Types w : TWorld.

(** A size field in the last chunk is in its last fragment. *)
Lemma closing_within w0 sp out ps w locs frags f sent unsent p m off :
  closing P w0 sp out ps w locs frags f sent unsent -> size_field_ m = Some (fg_region f, off) -> located locs p m ->
  fg_start f <= off /\ off + 4 <= fg_start f + Z.of_nat (fg_size f).
Proof.
  intros Hc Hs Hl. pose proof (cl_ghost _ _ _ _ _ _ _ _ _ _ _ Hc) as Hg.
  assert (Hin : fg_region f ∈ fg_region <$> frags ++ [f]) by (rewrite fmap_app; set_solver).
  pose proof (ghost_raw P _ _ _ _ _ _ _ _ _ Hg Hin (located_take4 _ _ _ _ _ Hs Hl)) as Hraw.
  assert (Hj : forall j, (j < 4)%nat -> fg_start f <= off + Z.of_nat j < fg_start f + Z.of_nat (fg_size f)).
  { intros j Hj. specialize (Hraw j Hj). apply list_elem_of_lookup_2 in Hraw. rewrite raw_locs_app in Hraw.
    apply elem_of_app in Hraw as [Hraw|Hraw].
    - apply raw_locs_region in Hraw. pose proof (gh_nodup _ _ _ _ _ _ Hg) as Hn.
      rewrite fmap_app, <- app_assoc in Hn. apply NoDup_app in Hn as (_ & Hn & _). destruct (Hn (fg_region f)); [done|]. cbn. set_solver.
    - unfold raw_locs in Hraw. cbn in Hraw. rewrite app_nil_r in Hraw. apply elem_of_range_locs in Hraw. cbn in Hraw. lia. }
  pose proof (Hj 0%nat ltac:(lia)). pose proof (Hj 3%nat ltac:(lia)). lia.
Qed.

Lemma closing_frag w0 sp out ps w locs frags f sent unsent :
  closing P w0 sp out ps w locs frags f sent unsent -> frag_ok P (w_mem w) (length frags) f.
Proof. intros Hc. apply (gh_frags _ _ _ _ _ _ (cl_ghost _ _ _ _ _ _ _ _ _ _ _ Hc)). by apply list_lookup_middle. Qed.

Definition annotated (c : Chunk) : Chunk :=
  if (ck_flags c .& kChunkNeedsPatching) =? 0 then SetFlag c kChunkNeedsPatching else c.

Lemma annotated_ok c : same_chunk c (annotated c) /\ last_continues (annotated c) = last_continues c.
Proof. unfold annotated. destruct (_ =? 0); [apply SetFlag_needs|done]. Qed.

(** One round of the loop moves the size field of the message at depth [d]. *)
Lemma closing_annotate w0 sp out ps w locs frags f sent unsent d p m off :
  closing P w0 sp out ps w locs frags f sent unsent ->
  (forall i j x y, (i < j)%nat -> ps !! i = Some x -> ps !! j = Some y -> (x + 4 <= y)%nat) ->
  (forall x, x ∈ ps -> take 4 (drop x out) = replicate 4 0) ->
  w_msgs w !! S d = Some m -> ps !! d = Some p -> size_field_ m = Some (fg_region f, off) ->
  exists w' locs' f' g, AnnotatePatch w (fg_region f, off) = (w', Some (dt_region g, 0)) /\
    fg_payload f' = fg_payload f /\ fg_start f' = fg_start f /\ fg_size f' = fg_size f /\ fg_region f' = fg_region f /\
    closing P w0 sp out ps (set_msg w' (S d) (mkMessage (msg_size m) (Some (dt_region g, 0)) (message_state_ m)))
      locs' frags f' sent (unsent ++ [g]).
Proof.
  intros Hc Hap Hz Hm Hp Hs. pose proof Hc as [Hg Hcell Hnd Hpr Hsz Hdl Hwr Hms Hfs Hwh Hpa Hme [Hsp1 Hsp2]].
  pose proof (closing_frag _ _ _ _ _ _ _ _ _ _ Hc) as [_ Hlast Hmem Hst Hend _].
  assert (Hloc : located locs p m).
  { destruct (Forall2_lookup_l _ _ _ _ _ Hfs Hp) as (m' & Hm' & Hl). rewrite lookup_tail, Hm in Hm'. by injection Hm' as <-. }
  pose proof (closing_within _ _ _ _ _ _ _ _ _ _ _ _ _ Hc Hs Hloc) as [Ho1 Ho2].
  set (q := length (w_mem w)). set (c' := annotated (fg_chunk f)).
  set (f' := mkFrag c' (fg_payload f) (fg_start f) (fg_size f)).
  set (g := (mkPatch (ck_id (fg_chunk f)) off q, fg_region f)).
  destruct (annotated_ok (fg_chunk f)) as [Hsame Hlc]. fold c' in Hsame, Hlc.
  pose proof (located_take4 _ _ _ _ _ Hs Hloc) as Ht.
  pose proof (ghost_annotate P _ _ _ _ c' _ _ p off Hg Hpr Hsame ltac:(congruence) Ht) as Hg'. fold f' g q in Hg'.
  assert (Hlen : (p + 4 <= length locs)%nat).
  { apply (f_equal length) in Ht. rewrite length_take, length_drop, length_range_locs in Ht. lia. }
  set (locs' := take p locs ++ range_locs q 0 4 ++ drop (p + 4) locs) in *.
  set (w1 := mkWorld (w_mem w ++ [replicate 4 0]) (w_wr w) (w_msgs w) (tw_with (w_dlg w0) c' (unsent ++ [g]).*1)).
  exists w1, locs', f', g. split.
  { unfold AnnotatePatch. rewrite Hdl. cbn [tw_with cur_chunk_]. unfold w1, c', annotated. rewrite fmap_app.
    assert (Eo : u16 off = off) by (unfold u16; apply Z.mod_small; lia).
    destruct (ck_flags (fg_chunk f) .& kChunkNeedsPatching =? 0);
      unfold set_patches, set_chunk, set_tw, set_mem; cbn; rewrite ?Hdl; cbn; rewrite Eo; reflexivity. }
  split; [done|]. split; [done|]. split; [done|]. split; [apply Hsame|].
  set (m' := mkMessage _ (Some (dt_region g, 0)) _).
  assert (Hdm : (S d < length (w_msgs w))%nat) by (by eapply lookup_lt_Some).
  (* other messages keep their size fields *)
  assert (Hother : forall x y, x ∈ w_msgs w -> size_field_ x = Some y -> y.1 <> fg_region f -> open_field (<[S d := m']> (w_msgs w)) y).
  { intros x y Hx Hy Hne. apply list_elem_of_lookup in Hx as [i Hi]. destruct (decide (i = S d)) as [->|Hid].
    - rewrite Hm in Hi. injection Hi as ->. rewrite Hs in Hy. injection Hy as <-. done.
    - exists x. split; [|done]. eapply list_elem_of_lookup_2. by rewrite list_lookup_insert_ne. }
  assert (Hnr : forall x, x ∈ unsent -> dt_region x <> fg_region f).
  { intros x Hx E. pose proof (gh_nodup _ _ _ _ _ _ Hg) as Hn. apply NoDup_app in Hn as (_ & Hn & _).
    apply (Hn (fg_region f)); [rewrite fmap_app; set_solver|]. rewrite <- E. apply list_elem_of_fmap. exists x. split; [done|].
    unfold detours. set_solver. }
  split; cbn [set_msg set_msgs w_mem w_wr w_msgs w_dlg w1 f' fg_chunk fg_payload]; try done.
  - apply cells_splice; [by apply cells_app| |apply length_range_locs].
    rewrite (Hz p) by (by eapply list_elem_of_lookup_2).
    apply (cells_range _ _ _ _ _ (replicate 4 0)); [by apply list_lookup_middle|done..].
  - apply NoDup_splice; [done|apply NoDup_range_locs|]. intros x [Hx _]%elem_of_range_locs Hin.
    apply (ghost_locs_region P _ _ _ _ _ _ Hg) in Hin. rewrite Hx in Hin. by apply (ghost_fresh P _ _ _ _ _ Hg).
  - rewrite length_app. lia.
  - by destruct Hsame as (_ & -> & _).
  - etransitivity; [exact Hms|]. by apply same_msgs_insert.
  - destruct (w_msgs w) as [|m0 ms] eqn:Ems; [done|]. change (<[S d := m']> (m0 :: ms)) with (m0 :: <[d := m']> ms).
    change ((m0 :: ms) !! S d) with (ms !! d) in Hm. cbn [tail] in *.
    apply Forall2_same_length_lookup_2; [rewrite length_insert; by eapply Forall2_length|]. intros i x y Hx Hy.
    destruct (decide (i = d)) as [->|Hid].
    + rewrite list_lookup_insert_eq in Hy by (by eapply lookup_lt_Some). injection Hy as <-. rewrite Hp in Hx. injection Hx as <-.
      exists q, 0. split; [done|]. unfold locs'. rewrite drop_app_length' by (rewrite length_take; lia).
      by rewrite take_app_length' by (by rewrite length_range_locs).
    + rewrite list_lookup_insert_ne in Hy by done. destruct (Forall2_lookup_lr _ _ _ _ _ _ Hfs Hx Hy) as (r & o & Hl).
      apply located_splice; [apply length_range_locs|done| |by exists r, o].
      destruct (decide (i < d)%nat); [left; by eapply (Hap i d)|right; by eapply (Hap d i); [lia|..]].
  - intros x y Hx Hy. apply list_elem_of_lookup in Hx as [i Hi]. rewrite list_lookup_insert_Some in Hi.
    destruct Hi as [(_ & <- & _)|[_ Hi]].
    + right. exists g. injection Hy as <-. split; [set_solver|done].
    + destruct (Hwh x y) as [H1|(g1 & H1 & H2)]; [by eapply list_elem_of_lookup_2|done| |].
      * left. rewrite H1. symmetry. apply Hsame.
      * right. exists g1. split; [set_solver|done].
  - rewrite Forall_app, Forall_singleton. split.
    + rewrite Forall_forall in Hpa |- *. intros x Hx. destruct (Hpa x Hx) as [(y & Hy1 & Hy2)|(y & Hy1 & Hy2)].
      * left. apply (Hother y _ Hy1 Hy2). by apply Hnr.
      * right. exists y. split; [by apply read1_app|done].
    + left. exists m'. split; [|done]. eapply list_elem_of_lookup_2. by apply list_lookup_insert_eq.
  - intros r b Hb. apply lookup_app_l_Some. auto.
  - rewrite length_app. split; [lia|]. unfold detours in *.
    rewrite !fmap_app, !elem_of_app in *. cbn [fmap list_fmap] in *. rewrite !list_elem_of_singleton in *.
    replace (fg_region f') with (fg_region f) by (symmetry; apply Hsame). change (dt_region g) with q. unfold q.
    intuition lia.
Qed.
(** Only the flags of the last chunk change. *)
Definition same_frag (f f' : Frag) : Prop :=
  fg_payload f' = fg_payload f /\ fg_start f' = fg_start f /\ fg_size f' = fg_size f /\ fg_region f' = fg_region f.

(** The size field of a message is in one of the patches. *)
Definition in_patch (unsent : list Detour) (m : Message) : Prop :=
  exists g, g ∈ unsent /\ size_field_ m = Some (dt_region g, 0).

Lemma redirect_fields_ok w0 sp out ps frags sent n : forall w locs f unsent d,
  closing P w0 sp out ps w locs frags f sent unsent ->
  (forall i j x y, (i < j)%nat -> ps !! i = Some x -> ps !! j = Some y -> (x + 4 <= y)%nat) ->
  (forall x, x ∈ ps -> take 4 (drop x out) = replicate 4 0) -> length (w_msgs w) = (S d + n)%nat ->
  exists w' locs' f' more, redirect_fields n w (S d) = Some w' /\ same_frag f f' /\
    closing P w0 sp out ps w' locs' frags f' sent (unsent ++ more) /\
    (forall i, (i < S d)%nat -> w_msgs w' !! i = w_msgs w !! i) /\
    (forall i m, (S d <= i)%nat -> w_msgs w' !! i = Some m -> in_patch (unsent ++ more) m).
Proof.
  induction n as [|n IH]; intros w locs f unsent d Hc Hap Hz Hn; cbn [redirect_fields].
  { exists w, locs, f, []. rewrite app_nil_r. split_and!; try done. intros i m Hi Hm. apply lookup_lt_Some in Hm. lia. }
  destruct (lookup_lt_is_Some_2 (w_msgs w) (S d)) as [m Hm]; [lia|]. rewrite Hm. cbn [mbind option_bind].
  assert (Hcc : cur_chunk_ (w_dlg w) = Some (fg_chunk f)) by (by rewrite (cl_dlg _ _ _ _ _ _ _ _ _ _ _ Hc)).
  rewrite Hcc. cbn [mbind option_bind].
  pose proof (cl_fields _ _ _ _ _ _ _ _ _ _ _ Hc) as Hfs.
  destruct (Forall2_lookup_r _ _ _ d m Hfs) as (p & Hp & Hloc); [by rewrite lookup_tail|].
  pose proof Hloc as (r & off & Hs & _). rewrite Hs.
  destruct (cl_where _ _ _ _ _ _ _ _ _ _ _ Hc m (r, off)) as [Hr|(g & Hg & E)]; [by eapply list_elem_of_lookup_2|done| |].
  - cbn in Hr. subst r. destruct (closing_within _ _ _ _ _ _ _ _ _ _ _ _ _ Hc Hs Hloc) as [Ho1 Ho2].
    pose proof (closing_frag _ _ _ _ _ _ _ _ _ _ Hc) as [_ _ _ Hst Hend _]. pose proof (cl_size _ _ _ _ _ _ _ _ _ _ _ Hc) as Hsz.
    assert (Hw : within_chunk (fg_chunk f) (fg_region f, off) = true).
    { unfold within_chunk. cbn [fst snd]. rewrite bool_decide_eq_true_2 by done. rewrite !(proj2 (Z.leb_le _ _)) by lia. done. }
    rewrite Hw. destruct (closing_annotate _ _ _ _ _ _ _ _ _ _ d p m off Hc Hap Hz Hm Hp Hs)
      as (w1 & locs1 & f1 & g & Ha & Hf1 & Hf2 & Hf3 & Hf4 & Hc1). rewrite Ha.
    set (w2 := set_msg w1 _ _) in *.
    assert (Hms1 : w_msgs w1 = w_msgs w).
    { unfold AnnotatePatch in Ha. destruct (cur_chunk_ (w_dlg w)); [|done]. by destruct (_ =? 0); injection Ha as <- _. }
    assert (Hl2 : length (w_msgs w2) = (S (S d) + n)%nat) by (unfold w2; cbn; rewrite length_insert, Hms1; lia).
    destruct (IH w2 locs1 f1 (unsent ++ [g]) (S d) Hc1 Hap Hz Hl2) as (w' & locs' & f' & more & Hrun & Hsf & Hc' & Hkeep & Hin).
    exists w', locs', f', (g :: more). rewrite <- app_assoc in Hc', Hin. split; [done|]. split; [unfold same_frag in *; intuition congruence|].
    split; [done|]. split.
    + intros i Hi. rewrite Hkeep by lia. unfold w2. cbn. rewrite list_lookup_insert_ne by lia. by rewrite Hms1.
    + intros i x Hi Hx. destruct (decide (i = S d)) as [->|]; [|by apply (Hin i); [lia|]].
      rewrite Hkeep in Hx by lia. unfold w2 in Hx. cbn in Hx. rewrite list_lookup_insert_eq in Hx by (rewrite Hms1; lia).
      injection Hx as <-. exists g. split; [set_solver|done].
  - injection E as -> ->. 
    assert (Hw : within_chunk (fg_chunk f) (dt_region g, 0) = false).
    { unfold within_chunk. cbn [fst snd]. rewrite bool_decide_eq_false_2; [done|]. intros E.
      pose proof (gh_nodup _ _ _ _ _ _ (cl_ghost _ _ _ _ _ _ _ _ _ _ _ Hc)) as Hnd. apply NoDup_app in Hnd as (_ & Hnd & _).
      apply (Hnd (dt_region g)); [rewrite fmap_app, E; unfold fg_region; set_solver|].
      apply list_elem_of_fmap. exists g. split; [done|]. unfold detours. set_solver. }
    rewrite Hw, (cl_dlg _ _ _ _ _ _ _ _ _ _ _ Hc). cbn [tw_with patch_list_].
    assert (He : existsb (fun q => bool_decide ((pt_region q, 0) = (dt_region g, 0))) unsent.*1 = true).
    { apply existsb_exists. exists g.1. rewrite bool_decide_eq_true_2 by done. split; [|done].
      apply list_elem_of_In, list_elem_of_fmap. by exists g. }
    rewrite He. destruct (IH w locs f unsent (S d) Hc Hap Hz ltac:(lia)) as (w' & locs' & f' & more & Hrun & Hsf & Hc' & Hkeep & Hin).
    exists w', locs', f', more. split_and!; try done.
    + intros i Hi. apply Hkeep. lia.
    + intros i x Hi Hx. destruct (decide (i = S d)) as [->|]; [|by apply (Hin i); [lia|]].
      rewrite Hkeep, Hm in Hx by lia. injection Hx as <-. exists g. split; [set_solver|done].
Qed.
End Redirect.

(** ** Sending patches *)

Definition sent_entry (s : Sent) : Z * Z * list Z := (pt_chunk_id s.1.1, pt_offset s.1.1, s.2).

(** The patches of requests, one by one. *)
Definition req_entries (r : ChunkToPatch) : list (Z * Z * list Z) := (fun x => (tp_chunk_id r, x.1, x.2)) <$> tp_patches r.
Definition flat (reqs : list ChunkToPatch) : list (Z * Z * list Z) := concat (req_entries <$> reqs).

Lemma flat_locs_app reqs reqs' : flat (reqs ++ reqs') = flat reqs ++ flat reqs'.
Proof. unfold flat. by rewrite fmap_app, concat_app. Qed.

Lemma flat_add_patch wid reqs p octets : flat (add_patch wid reqs p octets) = flat reqs ++ [(pt_chunk_id p, pt_offset p, octets)].
Proof.
  unfold add_patch. destruct (last reqs) as [r|] eqn:El.
  - apply last_Some in El as [l ->]. rewrite removelast_last. destruct (Z.eqb_spec (tp_chunk_id r) (pt_chunk_id p)) as [E|E].
    + rewrite !flat_locs_app, <- app_assoc. f_equal. unfold flat. cbn. rewrite !app_nil_r. unfold req_entries. cbn. rewrite fmap_app. cbn. by rewrite E.
    + rewrite flat_locs_app. done.
  - by apply last_None in El as ->.
Qed.

Lemma flat_mark_more reqs l : flat (mark_more reqs l) = flat reqs.
Proof.
  unfold mark_more. destruct (last reqs) as [r|] eqn:El; [|done]. destruct l as [|p l]; [done|].
  destruct (_ =? _); [|done]. apply last_Some in El as [l' ->]. rewrite removelast_last, !flat_locs_app. done.
Qed.

Definition patch_region (mem : list (list Z)) (g : Detour) : Prop := exists b, mem !! dt_region g = Some b /\ length b = 4%nat.

Lemma is_patched_read mem g : patch_region mem g ->
  exists b x, mem !! dt_region g = Some b /\ read1 mem (dt_region g, 0) = Some x /\ is_patched mem g.1 = Some (negb (bool_decide (x = 0))) /\
    region_read mem (dt_region g) 0 4 = Some b.
Proof.
  intros (b & Hb & Hl). destruct b as [|x b]; [done|]. exists (x :: b), x. split; [done|].
  split; [unfold read1; cbn; by rewrite Hb|]. split.
  - unfold is_patched. fold (dt_region g). rewrite (region_read_Some _ _ _ _ (x :: b)) by (solve [done | cbn in *; lia]). cbn [mbind option_bind].
    do 2 f_equal. cbn. destruct (decide (x = 0)) as [->|Hx]; [done|]. rewrite !bool_decide_eq_false_2; [done|done|]. by intros [= ?].
  - rewrite (region_read_Some _ _ _ _ (x :: b)) by (solve [done | cbn in *; lia]). change (Z.to_nat 0) with 0%nat. cbn [drop].
    by rewrite take_ge by (rewrite Hl; lia).
Qed.

(** The patches at the front that have been written are sent. *)
Record sends (mem : list (list Z)) (unsent : list Detour) (now : list Sent) (rest : list Detour) : Prop := {
  sd_split : unsent = now.*1 ++ rest;
  sd_octets : Forall (fun s : Sent => mem !! dt_region s.1 = Some s.2) now;
  sd_patched : Forall (fun s : Sent => exists x, read1 mem (dt_region s.1, 0) = Some x /\ x <> 0) now;
  sd_rest : match rest with [] => True | g :: _ => read1 mem (dt_region g, 0) = Some 0 end }.

Lemma take_patched_ok mem wid unsent : forall reqs,
  Forall (patch_region mem) unsent ->
  exists reqs' now rest, take_patched mem wid unsent.*1 reqs = Some (reqs', rest.*1) /\ sends mem unsent now rest /\
    flat reqs' = flat reqs ++ (sent_entry <$> now).
Proof.
  induction unsent as [|g unsent IH]; intros reqs Hp; cbn [take_patched fmap list_fmap].
  { exists reqs, [], []. split_and!; [done|by constructor|]. by rewrite app_nil_r. }
  apply Forall_cons in Hp as [Hg Hp]. destruct (is_patched_read mem g Hg) as (b & x & Hb & Hx & -> & Hrd). cbn [mbind option_bind].
  destruct (decide (x = 0)) as [->|Hx0].
  - exists reqs, [], (g :: unsent). split; [done|]. split; [by constructor|]. by rewrite app_nil_r.
  - rewrite bool_decide_eq_false_2 by done. cbn [negb]. fold (dt_region g). rewrite Hrd. cbn [mbind option_bind].
    destruct (IH (add_patch wid reqs g.1 b) Hp) as (reqs' & now & rest & -> & [H1 H2 H3 H4] & Hf).
    exists reqs', ((g, b) :: now), rest. split; [done|]. split.
    + split; [cbn; by rewrite H1|by constructor|constructor; [cbn; eauto|done]|done].
    + rewrite Hf, flat_add_patch, <- app_assoc. done.
Qed.

(** What the arbiter does when it is given a chunk. *)
Lemma commit_chunk w c payload unsent :
  w_mem w !! ck_region c = Some payload -> patch_list_ (w_dlg w) = unsent.*1 -> Forall (patch_region (w_mem w)) unsent ->
  exists reqs now rest, sends (w_mem w) unsent now rest /\ flat reqs = sent_entry <$> now /\
    arbiter_ReturnCompletedChunk w c =
      Some (set_patches (set_arbiter w (chunk_requests (w_dlg w)) (chunks_to_move (w_dlg w) ++ [(c, payload)])
              (chunks_to_patch (w_dlg w) ++ reqs)) rest.*1).
Proof.
  intros Hc Hl Hp. unfold arbiter_ReturnCompletedChunk, UpdateCommitDataRequest. rewrite Hc. cbn [mbind option_bind]. rewrite Hl.
  destruct (take_patched_ok (w_mem w) (ck_writer_id c) unsent [] Hp) as (reqs & now & rest & -> & Hs & Hf). cbn [mbind option_bind].
  exists (mark_more reqs rest.*1), now, rest. split; [done|]. split; [|done]. by rewrite flat_mark_more.
Qed.

Lemma commit_patches w wid unsent :
  patch_list_ (w_dlg w) = unsent.*1 -> Forall (patch_region (w_mem w)) unsent ->
  exists reqs now rest, sends (w_mem w) unsent now rest /\ flat reqs = sent_entry <$> now /\
    UpdateCommitDataRequest w None wid =
      Some (set_patches (set_arbiter w (chunk_requests (w_dlg w)) (chunks_to_move (w_dlg w))
              (chunks_to_patch (w_dlg w) ++ reqs)) rest.*1).
Proof.
  intros Hl Hp. unfold UpdateCommitDataRequest. cbn [mbind option_bind]. rewrite Hl.
  destruct (take_patched_ok (w_mem w) wid unsent [] Hp) as (reqs & now & rest & -> & Hs & Hf). cbn [mbind option_bind].
  exists (mark_more reqs rest.*1), now, rest. split; [done|]. split; [|done]. by rewrite flat_mark_more.
Qed.

(** ** Writing a packet *)

(** The state of the writer in the middle of a packet. *)
Record tw_state (P : Prior) (w : TWorld) (locs : list Ptr) (frags : list Frag) (sent : list Sent) (unsent : list Detour)
    (c : Chunk) (start : Z) : Prop := {
  ts_dlg : exists requests patched,
    w_dlg w = mkTW (p_id P) (u32 (Z.of_nat (length (p_moved P) + S (length frags)))) (Some c) (Some (ck_region c, start)) true
      (ck_count c =? kMaxPacketsPerChunk) false false false (Some (ck_region c, start - 4)) unsent.*1 (p_first P) requests
      (p_moved P ++ (fg_moved <$> frags)) patched /\
    flat patched = p_sent P ++ (sent_entry <$> sent);
  ts_opened : opened P (length frags) c start;
  ts_wr : cur_region (w_wr w) = Some (ck_region c) /\ cur_begin (w_wr w) <= start /\ cur_end (w_wr w) = ck_size c /\
          start <= write_ptr_ (w_wr w);
  ts_size : 4 <= start /\ start + 8 <= ck_size c < 2 ^ 16;
  ts_mem : exists b, w_mem w !! ck_region c = Some b /\ Z.of_nat (length b) = ck_size c;
  ts_prior : (length (p_mem P) <= length (w_mem w))%nat;
  ts_fresh : ck_region c ∉ (fg_region <$> frags) ++ (dt_region <$> detours sent unsent);
  ts_locs : exists pre, locs = pre ++ range_locs (ck_region c) start (Z.to_nat (write_ptr_ (w_wr w) - start)) /\
    ghost_ok P (w_mem w) pre frags sent unsent;
  ts_root : (size_field_ <$> head (w_msgs w)) = Some None;
  ts_where : forall m p, m ∈ w_msgs w -> size_field_ m = Some p ->
    p.1 = ck_region c /\ start <= p.2 \/ exists g, g ∈ unsent /\ p = (dt_region g, 0);
  ts_patched : Forall (open_or_patched (w_mem w) (w_msgs w)) unsent }.

Lemma opened_region P i c start : opened P i c start -> ck_region c = home P /\ start = p_start P \/ (length (p_mem P) <= ck_region c)%nat.
Proof. intros (_ & _ & H). destruct i; [left|right; by destruct H]. by destruct H as [-> ->]. Qed.

(** Octets that have been handed over or were there before the packet are not
    written. *)
Lemma tw_static P w locs frags sent unsent c start l :
  tw_state P w locs frags sent unsent c start ->
  l.1 ∈ fg_region <$> frags \/ l.1 ∈ dt_region <$> sent.*1 \/ frozen P l -> ~ may_write w locs l.
Proof.
  intros [_ Hop (Hr & _ & _ & Hptr) _ _ _ Hfresh (pre & -> & Hg) _ Hwh _] Hl Hw.
  pose proof (gh_nodup _ _ _ _ _ _ Hg) as Hnd. pose proof (gh_detours _ _ _ _ _ _ Hg) as Hdt.
  rewrite elem_of_app in Hfresh. unfold detours in Hfresh, Hnd, Hdt. rewrite fmap_app, elem_of_app in Hfresh.
  rewrite fmap_app in Hnd. apply NoDup_app in Hnd as (_ & Hnd1 & Hnd2). apply NoDup_app in Hnd2 as (_ & Hnd2 & _).
  (* a place in the current chunk from the start of the fragment on *)
  assert (Hcur : l.1 = ck_region c -> start <= l.2 -> False).
  { intros E Hs. destruct Hl as [Hl|[Hl|[Hl1 Hl2]]]; [rewrite E in Hl; tauto..|].
    destruct (opened_region _ _ _ _ Hop) as [[Eh Es]|Hge]; [|lia]. specialize (Hl2 ltac:(congruence)). lia. }
  destruct Hw as [[Hreg Hin]|(m & r & off & Hm & Hs & Hin)].
  - rewrite Hr in Hreg. injection Hreg as E. apply Hcur; [done|]. destruct Hin as [Hin|Hin]; [|lia].
    apply elem_of_app in Hin as [Hin|Hin]; [|apply elem_of_range_locs in Hin; lia].
    apply (ghost_locs_region P _ _ _ _ _ _ Hg) in Hin. unfold detours in Hin. rewrite fmap_app, !elem_of_app, E in Hin. tauto.
  - apply elem_of_range_locs in Hin as [E Ho]. destruct (Hwh m _ Hm Hs) as [[H1 H2]|(g & Hgin & [= -> ->])]; cbn in *.
    + apply Hcur; [congruence|lia].
    + assert (Hgr : dt_region g ∈ dt_region <$> unsent) by (apply list_elem_of_fmap; by exists g).
      destruct Hl as [Hl|[Hl|[Hl1 _]]]; rewrite E in *.
      * apply (Hnd1 _ Hl). set_solver.
      * by apply (Hnd2 _ Hl).
      * rewrite Forall_app in Hdt. destruct Hdt as [_ Hdt]. rewrite Forall_forall in Hdt. destruct (Hdt g Hgin) as [? _]. lia.
Qed.

Lemma tw_frame P w locs w' locs' frags sent unsent c start :
  wframe w locs w' locs' -> tw_state P w locs frags sent unsent c start -> tw_state P w' locs' frags sent unsent c start.
Proof.
  intros Hfr Hst. pose proof (tw_static P w locs frags sent unsent c start) as Hstatic.
  pose proof Hst as [Hdl Hop (Hr & Hb & He & Hp) Hsz (b & Hb1 & Hb2) Hpr Hfresh (pre & Hlocs & Hg) Hroot Hwh Hpa].
  destruct Hfr as [Fd Fm Fl Fk Fms [Frt Fkp] (Fr & Fb & Fe) Flo].
  assert (Hpre : Forall (fun l => l.1 <> ck_region c) pre).
  { apply Forall_forall. intros l Hl E. apply (ghost_locs_region P _ _ _ _ _ _ Hg) in Hl. rewrite E in Hl. done. }
  assert (Hnew : locs' = pre ++ range_locs (ck_region c) start (Z.to_nat (write_ptr_ (w_wr w') - start)) /\ start <= write_ptr_ (w_wr w')).
  { destruct Flo as [[-> ->]|(r & s & pre' & Hr' & Hpre' & E1 & E2 & H1 & H2 & H3)]; [done|].
    rewrite Hr in Hr'. injection Hr' as <-. rewrite Hlocs in E1. apply split_region in E1 as [-> En]; [|done..].
    assert (s = start) as -> by lia. done. }
  destruct Hnew as [Hlocs' Hp'].
  assert (Hsame : forall r, r ∈ fg_region <$> frags \/ r ∈ dt_region <$> sent.*1 -> w_mem w' !! r = w_mem w !! r).
  { intros r Hin. destruct (w_mem w !! r) as [br|] eqn:Er; [|apply lookup_ge_None in Er; apply lookup_ge_None; lia].
    rewrite <- Er. apply (region_eq _ _ _ br Er (Fm _ _ Er)). intros l El. apply Fk, Hstatic; [done|]. rewrite El. tauto. }
  split; rewrite ?Fd, ?Fr, ?Fb, ?Fe; try done.
  - destruct (Fm _ _ Hb1) as (b' & Hb' & Hl'). exists b'. split; [done|]. by rewrite Hl'.
  - lia.
  - exists pre. split; [done|]. apply (ghost_mem P (w_mem w)); try done. intros l Hl. apply Fk, Hstatic; [done|]. by right; right.
  - destruct Frt as [->| ->]; done.
  - intros m p Hm Hs. destruct (Fms m p Hm Hs) as [(m0 & Hm0 & Hs0)|[Hn1 Hn2]]; [by eapply Hwh|]. left. rewrite Fr, Hr in Hn1.
    injection Hn1 as Hn1. split; [done|]. specialize (Hn2 p). rewrite Hlocs' in Hn2. rewrite elem_of_range_locs, elem_of_app in Hn2.
    destruct (Hn2 ltac:(lia)) as [Hin|Hin]; [rewrite Forall_forall in Hpre; by destruct (Hpre p Hin)|].
    apply elem_of_range_locs in Hin. lia.
  - rewrite Forall_forall in Hpa |- *. intros g Hgin.
    assert (Hne : dt_region g <> ck_region c).
    { intros E. apply Hfresh. rewrite <- E. apply elem_of_app. right. apply list_elem_of_fmap. exists g. unfold detours. set_solver. }
    destruct (decide (open_field (w_msgs w) (dt_region g, 0))) as [(m & Hm & Hs)|Hno].
    + destruct (Fkp m _ Hm Hs) as [?|[E|?]]; [by left| |by right]. rewrite Fr, Hr in E. by injection E.
    + destruct (Hpa g Hgin) as [?|(x & Hx & Hx0)]; [done|]. right. exists x. split; [|done]. rewrite Fk; [done|].
      intros [[E _]|(m & r & off & Hm & Hs & Hin)]; [rewrite Hr in E; by injection E|].
      apply elem_of_range_locs in Hin as [E Ho]. cbn in E, Ho. apply Hno. exists m. split; [done|].
      destruct (Hwh m _ Hm Hs) as [[E' _]|(g' & _ & [= -> ->])]; [cbn in E'; congruence|]. by rewrite Hs, E.
Qed.

Lemma u32_succ n : u32 (u32 n + 1) = u32 (n + 1).
Proof. unfold u32. by rewrite Zplus_mod_idemp_l. Qed.

(** A fragment in a chunk of its own joins the closed ones. *)
Lemma ghost_push P mem pre frags f sent unsent :
  ghost_ok P mem pre frags sent unsent -> frag_ok P mem (length frags) f -> ours P mem (fg_region f) ->
  fg_region f ∉ (fg_region <$> frags) ++ (dt_region <$> detours sent unsent) ->
  ghost_ok P mem (pre ++ fg_locs f) (frags ++ [f]) sent unsent.
Proof.
  intros [Hf Hn Ho Hd Hs Hl Hz] Hfo Hour Hfresh. rewrite elem_of_app in Hfresh. split; try done.
  - intros i x Hx. destruct (decide (i < length frags)%nat).
    + apply Hf. by rewrite lookup_app_l in Hx.
    + rewrite lookup_app_r in Hx by lia. apply list_lookup_singleton_Some in Hx as [Hi <-]. by replace i with (length frags) by lia.
  - rewrite fmap_app, <- app_assoc. apply NoDup_app in Hn as (H1 & H2 & H3). apply NoDup_app. split_and!; [done| |].
    + intros x Hx. cbn. rewrite elem_of_cons. intros [->|Hin]; [tauto|]. by apply (H2 x).
    + cbn. apply NoDup_cons. tauto.
  - rewrite fmap_app. apply Forall_app. split; [done|]. by apply Forall_singleton.
  - eapply Forall_impl; [exact Hd|]. intros g (H1 & H2 & x & Hx & H3). split; [done|]. split; [done|]. exists x. set_solver.
  - rewrite raw_locs_app, fmap_app, <- Hl. f_equal. unfold raw_locs. cbn. rewrite app_nil_r. symmetry.
    rewrite <- (list_fmap_id (fg_locs f)) at 2. apply list_fmap_ext. intros i l Hi. unfold id. apply redirect_none.
    apply list_elem_of_lookup_2, elem_of_range_locs in Hi as [Hi _]. rewrite Forall_forall in Hd |- *. intros g Hg [Hc _].
    destruct (Hd g Hg) as (_ & _ & x & Hx & Hr & _). apply Hfresh. left. rewrite <- Hi, Hc, <- Hr. apply list_elem_of_fmap. by exists x.
Qed.

(** The fragment gets its size when the next chunk is there. *)
Lemma close_fragment P w locs frags sent unsent c start out t octets w1 :
  tw_state P w locs frags sent unsent c start -> rep w locs out -> fields_ok locs 0 (w_msgs w) t ->
  w_mem w1 = w_mem w ++ [octets] -> w_wr w1 = w_wr w -> w_msgs w1 = w_msgs w ->
  cur_fragment_size_field_ (w_dlg w1) = Some (ck_region c, start - 4) -> patch_list_ (w_dlg w1) = unsent.*1 ->
  exists w3 f, write_fragment_size (set_chunk w1 (Some (SetFlag c kLastPacketContinuesOnNextChunk)))
                 (u32 (write_ptr_ (w_wr w) - start)) = Some w3 /\
    closing P w3 (length (w_mem w)) out (positions 0 t) w3 locs frags f sent unsent /\
    fg_chunk f = SetFlag c kLastPacketContinuesOnNextChunk /\ w_dlg w3 = w_dlg (set_chunk w1 (Some (fg_chunk f))) /\
    w_wr w3 = w_wr w /\ w_msgs w3 = w_msgs w /\ w_mem w3 !! length (w_mem w) = Some octets.
Proof.
  intros [_ Hop (Hr & _ & He & Hp) Hsz (b & Hb1 & Hb2) Hpr Hfresh (pre & Hlocs & Hg) Hroot Hwh Hpa] Hrep Hf Em Ew Ems Efs Epl.
  set (n := Z.to_nat (write_ptr_ (w_wr w) - start)). set (r := ck_region c) in *.
  pose proof (rep_cur _ _ _ Hrep) as Hcur. unfold cur_ok in Hcur. rewrite Hr in Hcur.
  destruct Hcur as (b' & s & Hb' & _ & Hpe & _). rewrite Hb1 in Hb'. injection Hb' as <-.
  assert (En : u32 (write_ptr_ (w_wr w) - start) = Z.of_nat n) by (unfold n; rewrite u32_id; [lia|unfold_u; lia]).
  rewrite En. set (hd := WriteRedundantVarInt (Z.of_nat n) 4).
  assert (Hhd : length hd = 4%nat) by apply length_WriteRedundantVarInt.
  set (mem1 := w_mem w ++ [octets]). set (b3 := buf_write b (Z.to_nat (start - 4)) hd). set (mem3 := <[r := b3]> mem1).
  assert (Hrl : (r < length (w_mem w))%nat) by (by eapply lookup_lt_Some).
  assert (Hb1' : mem1 !! r = Some b) by (by apply lookup_app_l_Some).
  assert (Hfit : (Z.to_nat (start - 4) + length hd <= length b)%nat) by lia.
  assert (Hb3 : length b3 = length b) by (apply buf_write_length; lia).
  assert (Hlen3 : length mem3 = S (length (w_mem w))) by (unfold mem3, mem1; rewrite length_insert, length_app; cbn; lia).
  assert (Hother : forall x, x <> r -> mem3 !! x = mem1 !! x) by (intros x Hx; unfold mem3; by apply list_lookup_insert_ne).
  assert (Hr3 : mem3 !! r = Some b3) by (unfold mem3; apply list_lookup_insert_eq; unfold mem1; rewrite length_app; lia).
  set (f := mkFrag (SetFlag c kLastPacketContinuesOnNextChunk) b3 start n).
  destruct (SetFlag_last c) as [Hsame Hlast].
  exists (mkWorld mem3 (w_wr w) (w_msgs w) (w_dlg (set_chunk w1 (Some (fg_chunk f))))), f.
  split.
  { unfold write_fragment_size. cbn [set_chunk set_tw w_dlg w_mem cur_fragment_size_field_]. rewrite Efs. cbn [mbind option_bind].
    change kMessageLengthFieldSize with 4%nat. fold hd. rewrite Em. fold mem1.
    rewrite (region_write_Some _ _ _ _ b) by (done || lia). cbn [mbind option_bind]. unfold set_mem, set_chunk, set_tw. cbn [w_mem w_wr w_msgs w_dlg].
    by rewrite Ew, Ems, <- Efs. }
  split; [|split_and!; try done; cbn; rewrite Hother by lia; by apply list_lookup_middle].
  assert (Hg1 : ghost_ok P mem3 pre frags sent unsent).
  { apply (ghost_mem P mem1); [by apply ghost_alloc|..].
    - intros x bx Hx. destruct (decide (x = r)) as [->|Hxr]; [rewrite Hb1' in Hx; injection Hx as <-; eauto|].
      rewrite Hother by done. eauto.
    - intros x Hx. apply Hother. intros ->. apply Hfresh. unfold detours. rewrite fmap_app, !elem_of_app. tauto.
    - intros [x o] [Hl1 Hl2]. cbn in Hl1, Hl2. apply read1_write_other; [done|lia|exact Hfit|]. rewrite elem_of_range_locs, Hhd. cbn [fst snd]. intros [-> Ho].
      destruct (opened_region _ _ _ _ Hop) as [[Eh Es]|Hge]; [|unfold r in *; lia]. specialize (Hl2 Eh). lia. }
  assert (Hfo : frag_ok P mem3 (length frags) f).
  { split; cbn [f fg_chunk fg_payload fg_start fg_size]; [by exists c|done|done|lia|lia|].
    change (Z.of_nat n) with (Z.of_nat (fg_size f)). rewrite <- Hhd. unfold b3. by rewrite buf_write_read_same. }
  apply fields_ok_positions in Hf as (m0 & ms & Ems' & Hz & Hfs).
  split; cbn [w_mem w_wr w_msgs w_dlg]; try done.
  - rewrite Hlocs. apply (ghost_push P mem3 pre frags f); [done|done| |done]. split; [unfold fg_region; cbn; lia|].
    destruct (opened_region _ _ _ _ Hop) as [[? _]|?]; [by left|by right].
  - eapply cells_write_other; [done|lia|lia| |apply cells_app; exact (rep_cells _ _ _ Hrep)].
    intros l Hin. rewrite Hlocs, elem_of_app in Hin. rewrite elem_of_range_locs. intros [E Ho]. destruct Hin as [Hin|Hin].
    + apply (ghost_locs_region P _ _ _ _ _ _ Hg) in Hin. rewrite E in Hin. done.
    + apply elem_of_range_locs in Hin. lia.
  - exact (rep_nodup _ _ _ Hrep).
  - lia.
  - cbn. rewrite Hb3. done.
  - unfold tw_with. cbn. by rewrite Epl.
  - by rewrite Ems'.
  - intros m p Hm Hs. destruct (Hwh m p Hm Hs) as [[E _]|?]; [by left|by right].
  - rewrite Forall_forall in Hpa |- *. intros g Hgin. destruct (Hpa g Hgin) as [?|(x & Hx & Hx0)]; [by left|]. right. exists x.
    split; [|done]. rewrite (read1_eq _ mem1); [by apply read1_app|]. apply Hother. cbn. intros E. apply Hfresh. rewrite <- E.
    apply elem_of_app. right. apply list_elem_of_fmap. exists g. unfold detours. set_solver.
  - split; [lia|]. rewrite fmap_app, <- app_assoc, !elem_of_app. pose proof (ghost_fresh P _ _ _ _ _ Hg) as Hfr. rewrite elem_of_app in Hfr.
    cbn. rewrite list_elem_of_singleton. change (ck_region (SetFlag c kLastPacketContinuesOnNextChunk)) with r. intuition lia.
Qed.

(** ** The writer is a delegate *)

Lemma world_ext {D} (w w' : World D) :
  w_mem w = w_mem w' -> w_wr w = w_wr w' -> w_msgs w = w_msgs w' -> w_dlg w = w_dlg w' -> w = w'.
Proof. destruct w, w'. cbn. congruence. Qed.

Lemma tw_ext t t' :
  id_ t = id_ t' -> next_chunk_id_ t = next_chunk_id_ t' -> cur_chunk_ t = cur_chunk_ t' ->
  cur_fragment_start_ t = cur_fragment_start_ t' -> fragmenting_packet_ t = fragmenting_packet_ t' ->
  reached_max_packets_per_chunk_ t = reached_max_packets_per_chunk_ t' -> drop_packets_ t = drop_packets_ t' ->
  retry_new_chunk_after_packet_ t = retry_new_chunk_after_packet_ t' ->
  cur_chunk_packet_count_inflated_ t = cur_chunk_packet_count_inflated_ t' ->
  cur_fragment_size_field_ t = cur_fragment_size_field_ t' -> patch_list_ t = patch_list_ t' ->
  first_packet_on_sequence_ t = first_packet_on_sequence_ t' -> chunk_requests t = chunk_requests t' ->
  chunks_to_move t = chunks_to_move t' -> chunks_to_patch t = chunks_to_patch t' -> t = t'.
Proof. destruct t, t'. cbn. intros. by subst. Qed.

(** The arbiter always has a chunk. *)
Definition supplied `{Environment} : Prop :=
  forall n, exists octets, answers n = Some octets /\ 12 <= Z.of_nat (length octets) < 2 ^ 16.

Section Extend.
Context `{Environment} (P : Prior).
Implicit Types w : TWorld.

(** The chunk with the closed fragment is handed over. *)
Lemma closing_return w0 sp out ps w locs frags f sent unsent :
  closing P w0 sp out ps w locs frags f sent unsent -> cur_chunk_packet_count_inflated_ (w_dlg w0) = false ->
  exists reqs now rest, sends (w_mem w) unsent now rest /\ flat reqs = sent_entry <$> now /\
    ReturnCompletedChunk w =
      Some (mkWorld (w_mem w) (w_wr w) (w_msgs w)
        (w_dlg (set_patches (set_arbiter (set_chunk w None) (chunk_requests (w_dlg w0)) (chunks_to_move (w_dlg w0) ++ [fg_moved f])
           (chunks_to_patch (w_dlg w0) ++ reqs)) rest.*1))).
Proof.
  intros Hc Hinf. pose proof Hc as [Hg _ _ _ _ Hdl _ _ _ _ _ _ _]. pose proof (closing_frag P _ _ _ _ _ _ _ _ _ _ Hc) as [_ _ Hmem _ _ _].
  assert (Hc1 : cur_chunk_ (w_dlg w) = Some (fg_chunk f)) by (by rewrite Hdl).
  assert (Hc2 : cur_chunk_packet_count_inflated_ (w_dlg w) = false) by (by rewrite Hdl).
  unfold ReturnCompletedChunk. rewrite Hc1, Hc2. cbn [mbind option_bind].
  destruct (commit_chunk (set_chunk w None) (fg_chunk f) (fg_payload f) unsent) as (reqs & now & rest & Hs & Hfl & ->).
  - exact Hmem.
  - cbn. by rewrite Hdl.
  - pose proof (gh_detours _ _ _ _ _ _ Hg) as Hd. unfold detours in Hd. rewrite Forall_app in Hd. destruct Hd as [_ Hd].
    eapply Forall_impl; [exact Hd|]. by intros g (_ & ? & _).
  - exists reqs, now, rest. split; [done|]. split; [done|]. unfold set_patches, set_arbiter, set_chunk, set_tw. cbn. by rewrite !Hdl.
Qed.

(** [GetNewBuffer] in the middle of a packet, step by step. *)
Lemma GetNewBuffer_fragment w c start octets w3 w4 w5 :
  let t := w_dlg w in let k := length (w_mem w) in
  let w1 := (GetNewChunk w (id_ t) (next_chunk_id_ t) 1 kFirstPacketContinuesFromPrevChunk).1 in
  fragmenting_packet_ t = true -> drop_packets_ t = false -> answers (chunk_requests t) = Some octets -> cur_chunk_ t = Some c ->
  cur_fragment_start_ t = Some (ck_region c, start) -> cur_region (w_wr w) = Some (ck_region c) ->
  0 <= start < write_ptr_ (w_wr w) -> write_ptr_ (w_wr w) <= ck_size c < 2 ^ 16 ->
  write_fragment_size (set_chunk w1 (Some (SetFlag c kLastPacketContinuesOnNextChunk))) (u32 (write_ptr_ (w_wr w) - start)) = Some w3 ->
  redirect_fields (length (w_msgs w3) - 1) w3 1 = Some w4 -> is_Some (cur_chunk_ (w_dlg w4)) -> ReturnCompletedChunk w4 = Some w5 ->
  w_mem w5 !! k = Some octets -> (4 <= length octets)%nat ->
  let t5 := w_dlg w5 in
  GetNewBuffer w = Some (mkWorld (<[k := buf_write octets 0 (replicate 4 0)]> (w_mem w5)) (w_wr w5) (w_msgs w5)
    (mkTW (id_ t5) (u32 (next_chunk_id_ t + 1))
       (Some (mkChunk k (Z.of_nat (length octets)) (id_ t) (next_chunk_id_ t) 1 kFirstPacketContinuesFromPrevChunk))
       (Some (k, 4)) (fragmenting_packet_ t5) false false false false (Some (k, 0)) (patch_list_ t5) (first_packet_on_sequence_ t5)
       (chunk_requests t5) (chunks_to_move t5) (chunks_to_patch t5)),
    mkRange k 4 (Z.of_nat (length octets))).
Proof.
  intros t k w1 Hfr Hdr Hans Hc Hs Hr Hp Hsz Hwf Hrun Hc4 Hret Hk H4 t5.
  assert (HN : GetNewChunk w (id_ t) (next_chunk_id_ t) 1 kFirstPacketContinuesFromPrevChunk =
    (w1, Some (mkChunk k (Z.of_nat (length octets)) (id_ t) (next_chunk_id_ t) 1 kFirstPacketContinuesFromPrevChunk))).
  { unfold w1, GetNewChunk. fold t. by rewrite Hans. }
  assert (Hw1 : w_wr w1 = w_wr w /\ cur_chunk_ (w_dlg w1) = cur_chunk_ t /\ cur_fragment_start_ (w_dlg w1) = cur_fragment_start_ t).
  { unfold w1, GetNewChunk. fold t. by rewrite Hans. }
  destruct Hw1 as (Ew1 & Hw1c & Hw1s).
  unfold GetNewBuffer, GetNewBuffer_tw. cbn zeta. fold t. rewrite Hfr, Hdr. cbn [andb]. rewrite HN. cbn iota beta.
  rewrite Hw1c, Hc. cbn [mbind option_bind]. rewrite Hw1s, Hs. cbn [mbind option_bind]. rewrite Ew1, Hr. cbn [mbind option_bind].
  rewrite bool_decide_eq_true_2 by done. rewrite (proj2 (Z.leb_le _ _)) by lia.
  assert (En : u32 (write_ptr_ (w_wr w) - start) = write_ptr_ (w_wr w) - start) by (apply u32_id; unfold_u; lia).
  rewrite En at 1 2. rewrite !(proj2 (Z.ltb_lt _ _)) by lia. cbn [andb]. rewrite Hwf. cbn [mbind option_bind].
  rewrite Hrun. cbn [mbind option_bind]. rewrite bool_decide_eq_true_2 by done. rewrite Hret. cbn [mbind option_bind].
  match goal with |- (region_write ?m _ _ _ ≫= _) = _ => change m with (w_mem w5) end.
  change kPacketHeaderSize with 4%nat. rewrite (region_write_Some _ _ _ _ octets) by (cbn; done || lia). cbn [mbind option_bind].
  reflexivity.
Qed.

(** The size field of an open message is still zero. *)
Lemma closing_zero w0 sp out ps w locs frags f sent unsent i m g :
  closing P w0 sp out ps w locs frags f sent unsent -> (forall x, x ∈ ps -> take 4 (drop x out) = replicate 4 0) ->
  w_msgs w !! S i = Some m -> size_field_ m = Some (dt_region g, 0) -> read1 (w_mem w) (dt_region g, 0) = Some 0.
Proof.
  intros Hc Hz Hm Hs. destruct (Forall2_lookup_r _ _ _ i m (cl_fields _ _ _ _ _ _ _ _ _ _ _ Hc)) as (p & Hp1 & Hl); [by rewrite lookup_tail|].
  pose proof (located_lookup _ _ _ _ _ 0 Hs Hl ltac:(lia)) as Hl0. rewrite Nat.add_0_r in Hl0. cbn in Hl0.
  destruct (Forall2_lookup_l _ _ _ _ _ (cl_cells _ _ _ _ _ _ _ _ _ _ _ Hc) Hl0) as (x & Hx & Hrd).
  assert (E : take 4 (drop p out) !! 0%nat = Some x) by (rewrite lookup_take_lt, lookup_drop, Nat.add_0_r by lia; done).
  rewrite (Hz p) in E by (by eapply list_elem_of_lookup_2). by injection E as <-.
Qed.

Lemma tw_extend w locs t out :
  supplied -> (exists frags sent unsent c start, tw_state P w locs frags sent unsent c start) ->
  rep w locs out -> fields_ok locs 0 (w_msgs w) t -> phys t `prefix_of` out -> bytes_available w < 4 ->
  exists w' locs', Extend w = Some w' /\ rep w' locs' out /\ fields_ok locs' 0 (w_msgs w') t /\
    (exists frags sent unsent c start, tw_state P w' locs' frags sent unsent c start) /\
    same_msgs (w_msgs w) (w_msgs w') /\ 4 <= bytes_available w'.
Proof.
  intros Hsup (frags & sent & unsent & c & start & Hst) Hrep Hf Hpre Hav.
  pose proof Hst as [(requests & patched & Hdl & Hflat) Hop (Hr & Hb & He & Hp) Hsz (b & Hb1 & Hb2) Hpr Hfresh _ Hroot Hwh Hpa].
  destruct (Hsup requests) as (octets & Hans & Hoct). unfold bytes_available in Hav.
  pose proof (rep_cur _ _ _ Hrep) as Hcur. unfold cur_ok in Hcur. rewrite Hr in Hcur.
  destruct Hcur as (b' & s & Hb' & _ & Hpe & _). rewrite Hb1 in Hb'. injection Hb' as <-. set (k := length (w_mem w)).
  set (nid := u32 (Z.of_nat (length (p_moved P) + S (length frags)))) in *.
  set (w1 := (GetNewChunk w (p_id P) nid 1 kFirstPacketContinuesFromPrevChunk).1).
  assert (Hw1 : w1 = set_mem (set_arbiter w (S requests) (p_moved P ++ (fg_moved <$> frags)) patched) (w_mem w ++ [octets])).
  { unfold w1, GetNewChunk. rewrite Hdl. cbn [chunk_requests chunks_to_move chunks_to_patch]. by rewrite Hans. }
  destruct (close_fragment P w locs frags sent unsent c start out t octets w1 Hst Hrep Hf)
    as (w3 & f & Hwf & Hcl & Hfc & Hd3 & Hwr3 & Hms3 & Hoct3); try (by rewrite Hw1); [rewrite Hw1; cbn; by rewrite Hdl..|].
  apply fields_ok_positions in Hf as (m0 & ms & Ems & Hz & Hfs). destruct Hpre as [rest Hpre].
  assert (Hzero : forall x, x ∈ positions 0 t -> take 4 (drop x out) = replicate 4 0).
  { intros x Hx. rewrite Hpre. by apply (positions_zero t [] rest x Hz). }
  destruct (redirect_fields_ok P w3 k out (positions 0 t) frags sent (length ms) w3 locs f unsent 0 Hcl)
    as (w4 & locs4 & f4 & more & Hrun & Hsf & Hcl4 & Hkeep & Hin); [intros i j x y; by apply positions_apart|done|by rewrite Hms3, Ems|].
  destruct (closing_return w3 _ _ _ w4 _ _ f4 _ _ Hcl4) as (reqs & now & rst & Hsd & Hfl & Hret).
  { rewrite Hd3, Hw1. cbn. by rewrite Hdl. }
  pose proof (cl_dlg _ _ _ _ _ _ _ _ _ _ _ Hcl4) as Hd4. rewrite Hd3, Hw1 in Hd4, Hret. cbn in Hd4, Hret. rewrite Hdl in Hd4. rewrite ?Hdl in Hret.
  assert (Hoct4 : w_mem w4 !! k = Some octets) by (by apply (cl_mem _ _ _ _ _ _ _ _ _ _ _ Hcl4)).
  set (mem6 := <[k := buf_write octets 0 (replicate 4 0)]> (w_mem w4)).
  set (new := mkChunk k (Z.of_nat (length octets)) (p_id P) nid 1 kFirstPacketContinuesFromPrevChunk).
  assert (HG : GetNewBuffer w = Some (mkWorld mem6 (w_wr w) (w_msgs w4)
    (mkTW (p_id P) (u32 (nid + 1)) (Some new) (Some (k, 4)) true false false false false (Some (k, 0)) rst.*1 (p_first P) (S requests)
       ((p_moved P ++ (fg_moved <$> frags)) ++ [fg_moved f4]) (patched ++ reqs)), mkRange k 4 (Z.of_nat (length octets)))).
  { match type of Hret with _ = Some ?x => set (w5 := x) in Hret end.
    rewrite (GetNewBuffer_fragment w c start octets w3 w4 w5); rewrite ?Hdl; try done; [|lia|lia| |by rewrite Hd4|lia].
    - unfold w5. cbn [w_mem w_wr w_msgs w_dlg]. rewrite Hd4. cbn. rewrite (cl_wr _ _ _ _ _ _ _ _ _ _ _ Hcl4), Hwr3. done.
    - rewrite Hms3, Ems. cbn [length]. by rewrite Nat.sub_succ, Nat.sub_0_r. }
  unfold Extend. rewrite HG. cbn [mbind option_bind]. unfold Reset_range. cbn [rg_begin rg_end rg_region w_wr].
  rewrite (proj2 (Z.ltb_lt _ _)) by lia. eexists _, locs4. split; [done|].
  destruct Hsd as [Hs1 Hs2 Hs3 Hs4]. pose proof Hcl4 as [Hg4 Hce4 Hnd4 Hpr4 _ _ _ Hsm4 Hfs4 Hwh4 Hpa4 _ [Hsp1 Hsp2]].
  assert (Hk : forall x, x <> k -> mem6 !! x = w_mem w4 !! x) by (intros x Hx; unfold mem6; by apply list_lookup_insert_ne).
  assert (Hlocs4 : forall l, l ∈ locs4 -> l.1 <> k).
  { intros l Hl E. apply (ghost_locs_region P _ _ _ _ _ _ Hg4) in Hl. rewrite E in Hl. done. }
  assert (Hbw : length (buf_write octets 0 (replicate 4 0)) = length octets) by (apply buf_write_length; cbn; lia).
  assert (Hmk : mem6 !! k = Some (buf_write octets 0 (replicate 4 0))) by (unfold mem6; by apply list_lookup_insert_eq).
  (* an open message's size field is still zero, so the patches that were sent are not open *)
  assert (Hroot4 : forall m, w_msgs w4 !! 0%nat = Some m -> size_field_ m = None).
  { intros m Hi. rewrite Hkeep, Hms3 in Hi by lia. rewrite Ems in Hi, Hroot. injection Hi as ->. cbn in Hroot. congruence. }
  assert (Hstill : forall i m g, w_msgs w4 !! S i = Some m -> size_field_ m = Some (dt_region g, 0) -> g ∈ now.*1 -> False).
  { intros i m g Hm Hs Hg'. pose proof (closing_zero _ _ _ _ _ _ _ _ _ _ _ _ _ Hcl4 Hzero Hm Hs) as Hx.
    apply list_elem_of_fmap in Hg' as (s' & -> & Hs'). rewrite Forall_forall in Hs3. destruct (Hs3 s' Hs') as (y & Hy & Hy0). congruence. }
  rewrite Hs1 in Hg4, Hwh4, Hpa4, Hin, Hsp2. pose proof (ghost_send P _ _ _ _ _ _ Hg4 Hs2) as Hg5.
  assert (Hdt : detours (sent ++ now) rst = detours sent (now.*1 ++ rst)) by (unfold detours; by rewrite fmap_app, app_assoc).
  split; [|split; [|split; [|split]]].
  - split; cbn [w_mem w_wr].
    + eapply cells_eq; [|exact Hce4]. intros l Hl. apply read1_eq, Hk. by apply Hlocs4.
    + done.
    + unfold cur_ok. cbn. eexists _, 4. split; [exact Hmk|]. rewrite Hbw. split_and!; try lia. exists locs4. split.
      * by rewrite app_nil_r.
      * by apply Forall_forall.
  - cbn [w_msgs]. apply fields_ok_positions. destruct (w_msgs w4) as [|m4 ms4] eqn:E4.
    { destruct Hsm4 as [_ Hh]. rewrite Hms3, Ems in Hh. done. }
    exists m4, ms4. done.
  - exists (frags ++ [f4]), (sent ++ now), rst, new, 4. split; cbn [w_mem w_wr w_msgs w_dlg]; try done.
    + exists (S requests), (patched ++ reqs). split; [|by rewrite flat_locs_app, Hflat, Hfl, fmap_app, app_assoc].
      cbn [set_wr w_dlg]. rewrite fmap_app, app_assoc. unfold nid. rewrite u32_succ, length_app. f_equal. f_equal. cbn. lia.
    + rewrite length_app. cbn [length]. rewrite Nat.add_1_r. split_and!; cbn; try done.
    + cbn. eexists. split; [exact Hmk|]. by rewrite Hbw.
    + cbn. unfold mem6. by rewrite length_insert.
    + cbn. rewrite Hdt. done.
    + exists locs4. cbn. split; [by rewrite app_nil_r|]. apply (ghost_mem P (w_mem w4)); [done|..].
      * intros x bx Hx. destruct (decide (x = k)) as [->|Hxk]; [|rewrite Hk by done; eauto]. rewrite Hmk.
        rewrite Hoct4 in Hx. injection Hx as <-. eauto.
      * intros x Hx. apply Hk. intros ->. apply Hsp2. rewrite <- Hdt. unfold detours. rewrite (fmap_app dt_region), !elem_of_app. tauto.
      * intros l [Hl _]. apply read1_eq, Hk. unfold k. lia.
    + destruct Hsm4 as [_ Hh]. cbn; rewrite <- Hh, Hms3. done.
    + intros m p Hm Hs. right. destruct (list_elem_of_lookup_1 _ _ Hm) as [i Hi]. destruct i as [|i].
      { specialize (Hroot4 m Hi). congruence. }
      destruct (Hin (S i) m ltac:(lia) Hi) as (g & Hg & Hs'). rewrite Hs in Hs'. injection Hs' as ->.
      exists g. split; [|done]. apply elem_of_app in Hg as [Hg|Hg]; [|done]. exfalso. by eapply Hstill.
    + rewrite Forall_app in Hpa4. destruct Hpa4 as [_ Hpa4]. rewrite Forall_forall in Hpa4 |- *. intros g Hg.
      destruct (Hpa4 g Hg) as [?|(x & Hx & Hx0)]; [by left|]. right. exists x. split; [|done].
      rewrite (read1_eq _ (w_mem w4)); [done|]. apply Hk. cbn. intros E. apply Hsp2. rewrite <- E, <- Hdt.
      apply elem_of_app. right. apply list_elem_of_fmap. exists g. unfold detours. set_solver.
  - cbn. by rewrite <- Hms3.
  - unfold bytes_available. cbn. lia.
Qed.
End Extend.

Definition tw_inv (P : Prior) (w : TWorld) (locs : list Ptr) : Prop :=
  exists frags sent unsent c start, tw_state P w locs frags sent unsent c start.

Lemma tw_inv_frame P w locs w' locs' : wframe w locs w' locs' -> tw_inv P w locs -> tw_inv P w' locs'.
Proof. intros Hf (? & ? & ? & ? & ? & Hs). do 5 eexists. by eapply tw_frame. Qed.

Definition tw_DelegateOk `{Environment} (P : Prior) (Hsup : supplied) : DelegateOk TraceWriterImpl :=
  {| dlg_inv := tw_inv P; dlg_frame := tw_inv_frame P;
     dlg_extend := fun w locs t out Hi => tw_extend P w locs t out Hsup Hi |}.

(** ** Reading fragments *)

Lemma ParseVarInt_loop_prefix l rest : forall shift value pos n v,
  ParseVarInt_loop shift value pos l = (n, v) -> n <> 0%nat -> ParseVarInt_loop shift value pos (l ++ rest) = (n, v).
Proof.
  induction l as [|x l IH]; intros shift value pos n v; cbn; [by intros [= <- <-]|].
  destruct (shift <? 64); [|done]. destruct (_ =? 0); [done|]. apply IH.
Qed.

Lemma size_enc_read sf n rest : size_enc sf n -> ParseVarInt (sf ++ rest) = (length sf, Z.of_nat n).
Proof.
  intros Hs. apply ParseVarInt_loop_prefix; [|apply size_enc_length in Hs; lia].
  destruct Hs as [[-> Hn]|[-> Hn]].
  - change kMaxOneByteMessageLength with 127 in Hn. pose proof (ParseVarInt_WriteVarInt (Z.of_nat n) []) as E.
    unfold WriteVarInt, WriteVarInt_loop in E. rewrite (proj2 (Z.leb_gt _ _)), u8_id, app_nil_r in E by (unfold_u; lia).
    apply E; [unfold_u; lia|constructor].
  - pose proof kMax_val. rewrite <- (app_nil_r (WriteRedundantVarInt _ 4)) at 1.
    apply ParseVarInt_of_spec; rewrite ?length_WriteRedundantVarInt; [|lia|unfold_u; lia|].
    + rewrite app_nil_r. apply WriteRedundantVarInt_ok. lia.
    + apply WriteRedundantVarInt_spec; lia.
Qed.

(** Fragments with their sizes. *)
Inductive frags_enc : list (list Z) -> list Z -> Prop :=
  | fe_nil : frags_enc [] []
  | fe_snoc fs bytes f sf : frags_enc fs bytes -> size_enc sf (length f) -> frags_enc (fs ++ [f]) (bytes ++ sf ++ f).

Lemma read_fragments_app fs bytes : frags_enc fs bytes -> forall n rest,
  read_fragments (length fs + n) (bytes ++ rest) = (fun fs' => fs ++ fs') <$> read_fragments n rest.
Proof.
  induction 1 as [|fs bytes f sf He IH Hs]; intros n rest.
  { cbn. by destruct (read_fragments n rest). }
  rewrite length_app. cbn [length]. rewrite <- Nat.add_assoc, <- !app_assoc, IH. cbn [Nat.add read_fragments].
  rewrite (size_enc_read sf (length f)) by done. pose proof (size_enc_length _ _ Hs).
  rewrite (proj2 (Nat.eqb_neq _ _)) by lia. rewrite Nat2Z.id, (proj2 (Nat.leb_le _ _)) by (rewrite !length_app; lia).
  rewrite <- drop_drop, !drop_app_len, take_app_len. destruct (read_fragments n rest); cbn; [|done]. by rewrite <- app_assoc.
Qed.

Lemma read_fragments_ok fs bytes rest : frags_enc fs bytes -> read_fragments (length fs) (bytes ++ rest) = Some fs.
Proof.
  intros He. pose proof (read_fragments_app fs bytes He 0 rest) as E. rewrite Nat.add_0_r in E. rewrite E. cbn. by rewrite app_nil_r.
Qed.

(** Tagged fragments of a chunk that gets another one. *)
Lemma tag_snoc a b fs f :
  tag_fragments a b (fs ++ [f]) = tag_fragments a false fs ++ [(if decide (fs = []) then a else false, b, f)].
Proof.
  revert a. induction fs as [|x fs IH]; intros a; [done|].
  cbn [app]. destruct fs as [|y fs]; [done|]. change (tag_fragments a b (x :: (y :: fs) ++ [f])) with ((a, false, x) :: tag_fragments false b ((y :: fs) ++ [f])).
  rewrite IH. rewrite !decide_False by done. done.
Qed.
