(* ===== verification/TraceWriterRoundtrip.v ===== *)
(** * Packets written to shared memory come back

    A trace writer used for any sequence of packets and flushes: the chunks and
    patches that it hands over hold exactly the packets that were written. *)

From S2P Require Import Prelude ProtoUtils ProtoDecoder ProtoMessage TraceBuffer TraceWriter TraceWriterFragments.

(** ** What has been handed over *)

(** A chunk with the fragments that are read from it once the patches [G] have been
    applied. *)
Definition chunk_ok (mem : list (list Z)) (G : list Detour) (cp : Chunk * list Z) (fs : list (list Z)) : Prop :=
  mem !! ck_region cp.1 = Some cp.2 /\ Z.of_nat (length fs) = ck_count cp.1 /\
  exists bytes, frags_enc fs bytes /\ (length bytes <= length cp.2)%nat /\
    cells mem (redirect G <$> range_locs (ck_region cp.1) 0 (length bytes)) bytes.

Definition moved_regions (moved : list (Chunk * list Z)) : list nat := (fun cp => ck_region cp.1) <$> moved.

Definition sent_ok (mem : list (list Z)) (moved : list (Chunk * list Z)) (s : Sent) : Prop :=
  mem !! dt_region s.1 = Some s.2 /\ length s.2 = 4%nat /\
  exists cp, cp ∈ moved /\ ck_region cp.1 = s.1.2 /\ ck_id cp.1 = pt_chunk_id s.1.1 /\
    0 <= pt_offset s.1.1 /\ pt_offset s.1.1 + 4 <= Z.of_nat (length cp.2).

Record handed (mem : list (list Z)) (moved : list (Chunk * list Z)) (patches : list (Z * Z * list Z)) (S : list Sent)
    (fss : list (list (list Z))) : Prop := {
  hd_chunks : Forall2 (chunk_ok mem S.*1) moved fss;
  hd_ids : forall j cp, moved !! j = Some cp -> ck_id cp.1 = u32 (Z.of_nat j);
  hd_regions : NoDup (moved_regions moved);
  hd_patches : patches = sent_entry <$> S;
  hd_sent : Forall (sent_ok mem moved) S }.

Definition fragments_of (moved : list (Chunk * list Z)) (fss : list (list (list Z))) : list Fragment :=
  concat (zip_with (fun cp fs => tag_fragments (first_continues cp.1) (last_continues cp.1) fs) moved fss).

Definition joined (moved : list (Chunk * list Z)) (fss : list (list (list Z))) (more : list Fragment) :
  list (list Z) * option (list Z) := fold_left join_step (fragments_of moved fss ++ more) ([], None).

(** Up to empty packets. *)
Definition nonempty (packets : list (list Z)) : list (list Z) := filter (fun packet => packet <> []) packets.

Definition yields (moved : list (Chunk * list Z)) (fss : list (list (list Z))) (more : list Fragment) (packets : list (list Z)) : Prop :=
  exists all, joined moved fss more = (all, None) /\ nonempty all = nonempty packets.

Lemma fragments_of_app moved fss moved' fss' : length moved = length fss ->
  fragments_of (moved ++ moved') (fss ++ fss') = fragments_of moved fss ++ fragments_of moved' fss'.
Proof. intros Hl. unfold fragments_of. rewrite zip_with_app by done. apply concat_app. Qed.

Lemma moved_region_lt mem G moved fss r :
  Forall2 (chunk_ok mem G) moved fss -> r ∈ moved_regions moved -> (r < length mem)%nat.
Proof.
  intros Hf Hr. unfold moved_regions in Hr. apply list_elem_of_fmap in Hr as (cp & -> & Hin). apply list_elem_of_lookup in Hin as [i Hi].
  destruct (Forall2_lookup_l _ _ _ _ _ Hf Hi) as (fs & _ & (Hm & _)). by eapply lookup_lt_Some.
Qed.

(** No patch is for a region outside the chunks that were handed over. *)
Lemma handed_uncovered mem moved patches S fss l :
  handed mem moved patches S fss -> l.1 ∉ moved_regions moved -> Forall (fun g => ~ covers g l) S.*1.
Proof.
  intros Hh Hl. pose proof (hd_sent _ _ _ _ _ Hh) as Hs. rewrite Forall_forall in Hs. apply Forall_forall. intros g Hg [Hc _].
  apply list_elem_of_fmap in Hg as (s & -> & Hin). destruct (Hs s Hin) as (_ & _ & cp & Hcp & E & _).
  apply Hl. rewrite Hc, <- E. apply list_elem_of_fmap. by exists cp.
Qed.

(** What is in a region, as cells. *)
Lemma cells_take mem r b n : mem !! r = Some b -> (n <= length b)%nat -> cells mem (range_locs r 0 n) (take n b).
Proof. intros Hb Hn. apply (cells_range mem r 0 n _ b Hb); [lia|change (Z.to_nat 0) with 0%nat; lia|done]. Qed.

(** One more chunk, without patches. *)
Lemma handed_snoc mem moved patches S fss c b fs bytes :
  handed mem moved patches S fss -> mem !! ck_region c = Some b -> ck_region c ∉ moved_regions moved ->
  ck_id c = u32 (Z.of_nat (length moved)) -> Z.of_nat (length fs) = ck_count c -> frags_enc fs bytes ->
  take (length bytes) b = bytes ->
  handed mem (moved ++ [(c, b)]) patches S (fss ++ [fs]).
Proof.
  intros Hh Hb Hr Hid Hcnt Henc Htake. pose proof Hh as [Hc Hi Hn Hp Hs]. split; try done.
  - apply Forall2_app; [done|]. constructor; [|constructor]. split; [done|]. split; [done|]. exists bytes. split; [done|].
    assert (Hlen : (length bytes <= length b)%nat) by (apply (f_equal length) in Htake; rewrite length_take in Htake; lia).
    split; [done|]. cbn [fst]. rewrite <- Htake at 2.
    assert (E : redirect S.*1 <$> range_locs (ck_region c) 0 (length bytes) = range_locs (ck_region c) 0 (length bytes)).
    { rewrite <- list_fmap_id. apply list_fmap_ext. intros i l Hl. unfold id. apply redirect_none.
      eapply handed_uncovered; [exact Hh|]. apply list_elem_of_lookup_2, elem_of_range_locs in Hl as [-> _]. done. }
    rewrite E. by apply cells_take.
  - intros j cp Hj. apply lookup_app_Some in Hj as [Hj|[Hge Hj]]; [by apply Hi|].
    apply list_lookup_singleton_Some in Hj as [Hj <-]. cbn. rewrite Hid. do 2 f_equal. lia.
  - unfold moved_regions in *. rewrite fmap_app. apply NoDup_app. split_and!; [done| |apply NoDup_singleton].
    intros x Hx. cbn. rewrite list_elem_of_singleton. by intros ->.
  - eapply Forall_impl; [exact Hs|]. intros s (H1 & H2 & cp & Hcp & H3). split; [done|]. split; [done|]. exists cp. set_solver.
Qed.

(** Memory changes that leave alone what was handed over. *)
Lemma handed_mem mem mem' moved patches S fss :
  handed mem moved patches S fss ->
  (forall r, r ∈ moved_regions moved \/ r ∈ dt_region <$> S.*1 -> mem' !! r = mem !! r) -> handed mem' moved patches S fss.
Proof.
  intros [Hc Hi Hn Hp Hs] Hm. split; try done.
  - apply Forall2_same_length_lookup. split; [by eapply Forall2_length|]. intros i cp fs Hcp Hfs.
    destruct (Forall2_lookup_lr _ _ _ _ _ _ Hc Hcp Hfs) as (H1 & H2 & bytes & H3 & H4 & H5).
    assert (Hin : ck_region cp.1 ∈ moved_regions moved)
      by (apply list_elem_of_fmap; exists cp; split; [done|by eapply list_elem_of_lookup_2]).
    split; [rewrite Hm; [done|by left]|]. split; [done|]. exists bytes. split; [done|]. split; [done|].
    eapply cells_eq; [|exact H5]. intros l Hl. apply read1_eq, Hm. apply list_elem_of_fmap in Hl as (x & -> & Hx).
    apply elem_of_range_locs in Hx as [Hx _]. destruct (redirect_cases S.*1 x) as [[-> _]|(g & Hg & _ & ->)].
    + left. by rewrite Hx.
    + right. apply list_elem_of_fmap. by exists g.
  - rewrite Forall_forall in Hs |- *. intros s Hin. destruct (Hs s Hin) as (H1 & H2 & H3). split; [|done]. rewrite Hm; [done|].
    right. apply list_elem_of_fmap. exists s.1. split; [done|]. apply list_elem_of_fmap. by exists s.
Qed.

(** ** Between packets *)

(** The chunk that is being filled: so far it has the fragments [fs]. *)
Record filling (mem : list (list Z)) (wr : Writer) (id : Z) (moved : list (Chunk * list Z)) (S : list Sent) (c : Chunk)
    (fs : list (list Z)) (bytes : list Z) : Prop := {
  fi_wr : cur_region wr = Some (ck_region c) /\ 0 <= cur_begin wr <= write_ptr_ wr /\ cur_end wr = ck_size c /\
          write_ptr_ wr = Z.of_nat (length bytes);
  fi_mem : exists b, mem !! ck_region c = Some b /\ Z.of_nat (length b) = ck_size c /\ take (length bytes) b = bytes;
  fi_size : ck_size c < 2 ^ 16;
  fi_enc : frags_enc fs bytes;
  fi_fresh : ck_region c ∉ moved_regions moved /\ ck_region c ∉ dt_region <$> S.*1;
  fi_id : ck_id c = u32 (Z.of_nat (length moved)) /\ ck_writer_id c = id;
  fi_flags : last_continues c = false /\ (fs = [] -> first_continues c = false) }.

(** The state of the writer outside of packets. The patches [now] have been written
    but not sent; [S] is all patches. *)
Record base (w : TWorld) (id : Z) (first reached inflated : bool) (cur : option Chunk) (moved : list (Chunk * list Z))
    (S now : list Sent) (fss : list (list (list Z))) : Prop := {
  bs_dlg : exists start fragmenting requests patched,
    w_dlg w = mkTW id (u32 (Z.of_nat (length moved + length (option_list cur)))) cur start fragmenting reached false false inflated None
      (now.*1).*1 first requests moved patched /\
    handed (w_mem w) moved (flat patched ++ (sent_entry <$> now)) S fss;
  bs_now : Forall (fun s => s ∈ S) now /\ Forall (fun s : Sent => exists x, read1 (w_mem w) (dt_region s.1, 0) = Some x /\ x <> 0) now;
  bs_msgs : exists m, w_msgs w = [m] /\ is_finalized m = true }.

(** Between packets, when [packets] have been written. *)
Definition idle (id : Z) (first : bool) (packets : list (list Z)) (w : TWorld) : Prop :=
  exists reached inflated cur moved S fss, base w id first reached inflated cur moved S [] fss /\
    match cur with
    | None => bytes_available w < 12 /\ inflated = false /\ yields moved fss [] packets
    | Some c =>
        exists fs bytes, filling (w_mem w) (w_wr w) id moved S c fs bytes /\ inflated = true /\ 1 <= bytes_available w /\
          ck_count c = Z.of_nat (length fs) + 1 /\ fs <> [] /\ Z.of_nat (length fs) <= kMaxPacketsPerChunk /\
          reached = (Z.of_nat (length fs) =? kMaxPacketsPerChunk) /\
          yields moved fss (tag_fragments (first_continues c) false fs) packets
    end.

(** There is room for a packet. *)
Definition room (id : Z) (first : bool) (packets : list (list Z)) (w : TWorld) : Prop :=
  exists reached inflated c moved S fss fs bytes, base w id first reached inflated (Some c) moved S [] fss /\
    filling (w_mem w) (w_wr w) id moved S c fs bytes /\ 12 <= bytes_available w /\
    ck_count c = Z.of_nat (length fs) + (if inflated then 1 else 0) /\ Z.of_nat (length fs) < kMaxPacketsPerChunk /\
    yields moved fss (tag_fragments (first_continues c) false fs) packets.

Lemma joined_snoc_chunk moved fss c b fs more : length moved = length fss ->
  joined (moved ++ [(c, b)]) (fss ++ [fs]) more = joined moved fss (tag_fragments (first_continues c) (last_continues c) fs ++ more).
Proof.
  intros Hl. unfold joined. rewrite fragments_of_app by done. rewrite <- app_assoc. unfold fragments_of at 2. cbn. by rewrite app_nil_r.
Qed.

(** A fragment that is a packet of its own. *)
Lemma yields_snoc moved fss more packets f :
  yields moved fss more packets -> yields moved fss (more ++ [(false, false, f)]) (packets ++ [f]).
Proof.
  intros (all & Hj & Hn). exists (all ++ [f]). unfold joined in *. rewrite app_assoc, fold_left_app, Hj. split; [done|].
  unfold nonempty in *. by rewrite !filter_app, Hn.
Qed.

Lemma yields_empty moved fss more packets :
  yields moved fss more packets -> yields moved fss (more ++ [(false, false, [])]) packets.
Proof.
  intros Hy. destruct (yields_snoc _ _ _ _ [] Hy) as (all & Hj & Hn). exists all. split; [done|]. rewrite Hn.
  unfold nonempty. rewrite filter_app. cbn. by rewrite app_nil_r.
Qed.

(** All patches that have been written are sent. *)
Lemma sends_all mem now now' rest :
  Forall (fun s : Sent => mem !! dt_region s.1 = Some s.2) now ->
  Forall (fun s : Sent => exists x, read1 mem (dt_region s.1, 0) = Some x /\ x <> 0) now ->
  sends mem now.*1 now' rest -> now' = now /\ rest = [].
Proof.
  intros Ho Hp [Hs Ho' _ Hr].
  assert (rest = []) as ->.
  { destruct rest as [|g rest]; [done|]. assert (Hin : g ∈ now.*1) by (rewrite Hs; set_solver).
    apply list_elem_of_fmap in Hin as (s & -> & Hin). rewrite Forall_forall in Hp. destruct (Hp s Hin) as (x & Hx & Hx0). congruence. }
  split; [|done]. rewrite app_nil_r in Hs. revert now' Hs Ho'. induction now as [|s now IH]; intros now' Hs Ho'; destruct now' as [|s' now']; try done.
  injection Hs as Hs1 Hs2. apply Forall_cons in Ho as [Ho1 Ho2], Ho' as [Ho1' Ho2'], Hp as [_ Hp]. f_equal; [|by apply IH].
  rewrite Hs1, Ho1' in Ho1. destruct s, s'. cbn in *. congruence.
Qed.

Lemma base_octets mem moved patches S fss now :
  handed mem moved patches S fss -> Forall (fun s => s ∈ S) now ->
  Forall (fun s : Sent => mem !! dt_region s.1 = Some s.2) now /\ Forall (patch_region mem) now.*1.
Proof.
  intros Hh Hn. pose proof (hd_sent _ _ _ _ _ Hh) as Hs. rewrite Forall_forall in Hs, Hn.
  split; [|rewrite Forall_fmap]; apply Forall_forall; intros s Hin; destruct (Hs s (Hn s Hin)) as (H1 & H2 & _); [done|].
  exists s.2. done.
Qed.

Lemma base_patches w id first reached inflated cur moved S now fss :
  base w id first reached inflated cur moved S now fss ->
  patch_list_ (w_dlg w) = (now.*1).*1 /\ Forall (patch_region (w_mem w)) now.*1 /\
  forall now' rest, sends (w_mem w) now.*1 now' rest -> now' = now /\ rest = [].
Proof.
  intros [(? & ? & ? & ? & Hd & Hh) [Hn1 Hn2] _]. destruct (base_octets _ _ _ _ _ _ Hh Hn1) as [Ho Hp].
  rewrite Hd. split; [done|]. split; [done|]. intros now' rest. by apply sends_all.
Qed.

(** Writing into the chunk that is being filled leaves what was handed over. *)
Lemma handed_fill mem wr id moved patches S fss c fs bytes b :
  handed mem moved patches S fss -> filling mem wr id moved S c fs bytes -> handed (<[ck_region c := b]> mem) moved patches S fss.
Proof.
  intros Hh Hf. apply (handed_mem mem); [done|]. intros r Hr. apply list_lookup_insert_ne. intros <-.
  destruct (fi_fresh _ _ _ _ _ _ _ _ Hf). tauto.
Qed.

(** The zero octet for an inflated count. *)
Lemma filling_zero mem wr id moved S c fs bytes b :
  filling mem wr id moved S c fs bytes -> mem !! ck_region c = Some b -> write_ptr_ wr < cur_end wr ->
  let b' := buf_write b (length bytes) [0] in
  frags_enc (fs ++ [[]]) (bytes ++ [0]) /\ take (length (bytes ++ [0])) b' = bytes ++ [0] /\ length b' = length b /\
  region_write mem (ck_region c) (write_ptr_ wr) [0] = Some (<[ck_region c := b']> mem).
Proof.
  intros [(Hr & _ & He & Hp) (b0 & Hb0 & Hl & Ht) _ Henc _ _ _] Hb Hlt b'. rewrite Hb in Hb0. injection Hb0 as <-.
  assert (Hfit : (length bytes + 1 <= length b)%nat) by lia.
  split; [|split; [|split]].
  - apply (fe_snoc fs bytes [] [0]); [done|]. left. done.
  - unfold b', buf_write. rewrite Ht, app_assoc. by rewrite take_app_len.
  - apply buf_write_length. cbn. lia.
  - rewrite Hp. rewrite (region_write_Some _ _ _ _ b) by (done || (cbn; lia)). by rewrite Nat2Z.id.
Qed.

Lemma yields_chunk moved fss c b fs packets :
  length moved = length fss -> last_continues c = false ->
  yields moved fss (tag_fragments (first_continues c) false fs) packets -> yields (moved ++ [(c, b)]) (fss ++ [fs]) [] packets.
Proof.
  intros Hl Hc (all & Hj & Hn). exists all. split; [|done]. rewrite joined_snoc_chunk by done. by rewrite Hc, app_nil_r.
Qed.

Lemma return_chunk w id first reached inflated c moved S now fss fs bytes packets :
  base w id first reached inflated (Some c) moved S now fss -> filling (w_mem w) (w_wr w) id moved S c fs bytes ->
  (inflated = true -> 1 <= bytes_available w /\ fs <> []) -> ck_count c = Z.of_nat (length fs) + (if inflated then 1 else 0) ->
  yields moved fss (tag_fragments (first_continues c) false fs) packets ->
  exists w' moved' fss', ReturnCompletedChunk w = Some w' /\ base w' id first reached false None moved' S [] fss' /\
    yields moved' fss' [] packets /\ bytes_available w' <= bytes_available w /\
    fragmenting_packet_ (w_dlg w') = fragmenting_packet_ (w_dlg w) /\
    (forall r, r <> ck_region c -> w_mem w' !! r = w_mem w !! r) /\ moved_regions moved' = moved_regions moved ++ [ck_region c].
Proof.
  intros Hb Hf Hinf Hcnt Hy. pose proof Hb as [(start & fragm & requests & patched & Hd & Hh) [Hn1 Hn2] Hm].
  pose proof Hf as [(Hr & Hbe & He & Hp) (b & Hb1 & Hb2 & Hb3) _ Henc [Hfr1 Hfr2] [Hid1 Hid2] [Hfl1 Hfl2]].
  destruct (base_patches _ _ _ _ _ _ _ _ _ _ Hb) as (Hpl & Hpr & Hall).
  pose proof (Forall2_length _ _ _ (hd_chunks _ _ _ _ _ Hh)) as Hlen.
  unfold ReturnCompletedChunk. rewrite Hd. cbn zeta.
  cbn [cur_chunk_ cur_chunk_packet_count_inflated_ reached_max_packets_per_chunk_ drop_packets_ retry_new_chunk_after_packet_].
  (* the memory, the fragments and the write pointer after the zero octet *)
  assert (Hzero : exists w1 b1 fs1 bytes1,
    (if inflated then
       if negb (bytes_available w =? 0) then
         r ← cur_region (w_wr w);
         if write_ptr_ (w_wr w) + 1 <=? cur_end (w_wr w) then
           mem ← region_write (w_mem w) r (write_ptr_ (w_wr w)) [0];
           Some (set_flags (set_ptr (set_mem w mem) (write_ptr_ (w_wr w) + 1)) reached false false false)
         else None
       else None
     else Some w) = Some w1 /\
    w_mem w1 !! ck_region c = Some b1 /\ frags_enc fs1 bytes1 /\ take (length bytes1) b1 = bytes1 /\
    Z.of_nat (length fs1) = ck_count c /\ yields moved fss (tag_fragments (first_continues c) false fs1) packets /\
    handed (w_mem w1) moved (flat patched ++ (sent_entry <$> now)) S fss /\
    (forall r, r <> ck_region c -> w_mem w1 !! r = w_mem w !! r) /\ w_msgs w1 = w_msgs w /\
    bytes_available w1 <= bytes_available w /\
    w_dlg w1 = mkTW id (u32 (Z.of_nat (length moved + 1))) (Some c) start fragm reached false false false None (now.*1).*1 first
      requests moved patched).
  { destruct inflated.
    - destruct (Hinf eq_refl) as [Hav Hne]. unfold bytes_available in *.
      rewrite (proj2 (Z.eqb_neq _ _)) by lia. cbn [negb]. rewrite Hr. cbn [mbind option_bind]. rewrite (proj2 (Z.leb_le _ _)) by lia.
      destruct (filling_zero _ _ _ _ _ _ _ _ b Hf Hb1 ltac:(lia)) as (Hz1 & Hz2 & Hz3 & ->). cbn [mbind option_bind].
      eexists _, _, _, _. split; [reflexivity|]. cbn [set_flags set_tw set_ptr set_wr set_mem w_mem w_wr w_msgs w_dlg]. split_and!.
      + apply list_lookup_insert_eq. by eapply lookup_lt_Some.
      + exact Hz1.
      + exact Hz2.
      + rewrite length_app. cbn. lia.
      + rewrite tag_snoc, decide_False by done. by apply yields_empty.
      + by eapply handed_fill.
      + intros r Hrr. by apply list_lookup_insert_ne.
      + done.
      + cbn. lia.
      + by rewrite Hd.
    - exists w, b, fs, bytes. split_and!; try done. lia. }
  destruct Hzero as (w1 & b1 & fs1 & bytes1 & -> & Hm1 & Henc1 & Ht1 & Hc1 & Hy1 & Hh1 & Hsame & Hms1 & Hav1 & Hd1). cbn [mbind option_bind].
  assert (Hsd : forall r, r ∈ dt_region <$> now.*1 -> w_mem w1 !! r = w_mem w !! r).
  { intros r Hrn. apply Hsame. intros ->. apply Hfr2. apply list_elem_of_fmap in Hrn as (g & -> & Hg). apply list_elem_of_fmap in Hg as (s & -> & Hs).
    rewrite Forall_forall in Hn1. apply list_elem_of_fmap. exists s.1. split; [done|]. apply list_elem_of_fmap. exists s. auto. }
  destruct (commit_chunk (set_chunk w1 None) c b1 now.*1) as (reqs & now' & rest & Hs & Hfl & ->).
  { exact Hm1. }
  { cbn. by rewrite Hd1. }
  { apply (base_octets _ _ _ _ _ _ Hh1 Hn1). }
  assert (Hn2' : Forall (fun s : Sent => exists x, read1 (w_mem w1) (dt_region s.1, 0) = Some x /\ x <> 0) now).
  { rewrite Forall_forall in Hn2 |- *. intros s Hin. destruct (Hn2 s Hin) as (x & Hx & Hx0). exists x. split; [|done].
    rewrite (read1_eq _ (w_mem w)); [done|]. apply Hsd. apply list_elem_of_fmap. exists s.1. split; [done|]. apply list_elem_of_fmap. by exists s. }
  destruct (sends_all (w_mem w1) now now' rest) as [-> ->]; [apply (base_octets _ _ _ _ _ _ Hh1 Hn1)|done|exact Hs|].
  eexists _, (moved ++ [(c, b1)]), (fss ++ [fs1]). split; [done|]. split; [|split; [by apply yields_chunk|split; [exact Hav1|split; [|split]]]].
  - split.
    + exists start, fragm, requests, (patched ++ reqs). split.
      * apply tw_ext; cbn; rewrite ?Hd1; try done. cbn. rewrite length_app. do 2 f_equal. cbn. lia.
      * cbn [fmap list_fmap]. rewrite app_nil_r, flat_locs_app, Hfl. cbn. by eapply handed_snoc.
    + split; constructor.
    + cbn. by rewrite Hms1.
  - cbn. by rewrite Hd1.
  - exact Hsame.
  - unfold moved_regions. by rewrite fmap_app.
Qed.

Section Packets.
Context `{Environment}.
Implicit Types w : TWorld.

Lemma handed_alloc mem moved patches S fss x :
  handed mem moved patches S fss -> handed (mem ++ [x]) moved patches S fss.
Proof.
  intros Hh. apply (handed_mem mem); [done|]. intros r Hr. apply lookup_app_l. destruct Hr as [Hr|Hr].
  - eapply moved_region_lt; [exact (hd_chunks _ _ _ _ _ Hh)|done].
  - apply list_elem_of_fmap in Hr as (g & -> & Hg). apply list_elem_of_fmap in Hg as (s & -> & Hs).
    pose proof (hd_sent _ _ _ _ _ Hh) as Ho. rewrite Forall_forall in Ho. destruct (Ho s Hs) as [Hm _]. by eapply lookup_lt_Some.
Qed.

Lemma handed_fresh mem moved patches S fss :
  handed mem moved patches S fss -> length mem ∉ moved_regions moved /\ length mem ∉ dt_region <$> S.*1.
Proof.
  intros Hh. split; intros Hr.
  - pose proof (moved_region_lt _ _ _ _ _ (hd_chunks _ _ _ _ _ Hh) Hr). lia.
  - apply list_elem_of_fmap in Hr as (g & E & Hg). apply list_elem_of_fmap in Hg as (s & -> & Hs).
    pose proof (hd_sent _ _ _ _ _ Hh) as Ho. rewrite Forall_forall in Ho. destruct (Ho s Hs) as [Hm _]. apply lookup_lt_Some in Hm. lia.
Qed.

Lemma filling_alloc mem wr id moved S c fs bytes x :
  filling mem wr id moved S c fs bytes -> filling (mem ++ [x]) wr id moved S c fs bytes.
Proof.
  intros [? (b & Hb & Hb') ? ? ? ? ?]. split; try done. exists b. split; [by apply lookup_app_l_Some|done].
Qed.

(** A new chunk outside of a packet. *)
Lemma extend_idle w id first packets :
  supplied -> idle id first packets w -> fragmenting_packet_ (w_dlg w) = false ->
  exists w', Extend w = Some w' /\ room id first packets w'.
Proof.
  intros Hsup (reached & inflated & cur & moved & S & fss & Hb & Hcur) Hnf.
  pose proof Hb as [(start & fragm & requests & patched & Hd & Hh) _ Hm].
  rewrite Hd in Hnf. cbn in Hnf. subst fragm. destruct (Hsup requests) as (octets & Hans & Hoct).
  set (k := length (w_mem w)). destruct (handed_fresh _ _ _ _ _ Hh) as [Hk1 Hk2]. fold k in Hk1, Hk2.
  set (nid := u32 (Z.of_nat (length moved + length (option_list cur)))) in *.
  set (new := mkChunk k (Z.of_nat (length octets)) id nid 0 0).
  set (w1 := set_mem (set_arbiter w (Datatypes.S requests) moved patched) (w_mem w ++ [octets])).
  assert (HN : GetNewChunk w id nid 0 0 = (w1, Some new)).
  { unfold GetNewChunk. rewrite Hd. cbn [chunk_requests chunks_to_move chunks_to_patch]. by rewrite Hans. }
  assert (Hb1 : base w1 id first reached inflated cur moved S [] fss).
  { split; [|split; constructor|done]. exists start, false, (Datatypes.S requests), patched. split; [cbn; by rewrite Hd|].
    cbn [w1 set_mem w_mem]. by apply handed_alloc. }
  assert (Hk : w_mem w1 !! k = Some octets) by (cbn; by apply list_lookup_middle).
  (* the old chunk goes *)
  assert (Hret : exists w2 moved' fss' reached', (if bool_decide (is_Some (cur_chunk_ (w_dlg w1))) then ReturnCompletedChunk w1 else Some w1) = Some w2 /\
    base w2 id first reached' false None moved' S [] fss' /\ yields moved' fss' [] packets /\ w_mem w2 !! k = Some octets /\
    k ∉ moved_regions moved' /\ fragmenting_packet_ (w_dlg w2) = false /\ u32 (Z.of_nat (length moved')) = nid).
  { destruct cur as [c|].
    - destruct Hcur as (fs & bytes & Hf & -> & Hav & Hcnt & Hne & _ & _ & Hy).
      rewrite bool_decide_eq_true_2 by (cbn; rewrite Hd; done).
      assert (Hlt : (ck_region c < k)%nat) by (destruct (fi_mem _ _ _ _ _ _ _ _ Hf) as (b & Hbm & _); by eapply lookup_lt_Some).
      destruct (return_chunk w1 id first reached true c moved S [] fss fs bytes packets Hb1) as (w2 & moved' & fss' & Hr & Hb2 & Hy2 & _ & Hfr & Hkeep & Hmr);
        [by apply filling_alloc|done|done|done|].
      exists w2, moved', fss', reached. split; [exact Hr|]. split_and!; try done.
      + rewrite Hkeep by lia. exact Hk.
      + rewrite Hmr, elem_of_app, list_elem_of_singleton. lia || (intros [?|?]; [done|lia]).
      + rewrite Hfr. cbn. by rewrite Hd.
      + unfold nid. apply (f_equal length) in Hmr. unfold moved_regions in Hmr. rewrite length_app, !length_fmap in Hmr. cbn in *. by rewrite Hmr.
    - destruct Hcur as (_ & -> & Hy). rewrite bool_decide_eq_false_2 by (cbn; rewrite Hd; cbn; by intros [? ?]).
      exists w1, moved, fss, reached. split_and!; try done; [cbn; by rewrite Hd|]. unfold nid. cbn. by rewrite Nat.add_0_r. }
  destruct Hret as (w2 & moved' & fss' & reached' & Hret & Hb2 & Hy2 & Hk' & Hkm & Hfr2 & Hnid).
  pose proof Hb2 as [(start2 & fragm2 & requests2 & patched2 & Hd2 & Hh2) _ Hm2].
  rewrite Hd2 in Hfr2. cbn in Hfr2. subst fragm2.
  assert (HG : GetNewBuffer w = Some (set_fragment (set_chunk (set_next_chunk_id (set_flags w2 false false false false) (u32 (nid + 1))) (Some new)) start2 None,
                                      mkRange k 0 (Z.of_nat (length octets)))).
  { unfold GetNewBuffer, GetNewBuffer_tw. cbn zeta. rewrite Hd. cbn [fragmenting_packet_ drop_packets_ andb id_ next_chunk_id_].
    fold nid. rewrite HN. cbn iota beta. cbn [mbind option_bind]. rewrite Hret. cbn [mbind option_bind]. do 2 f_equal.
    change (cur_fragment_start_ (w_dlg (set_next_chunk_id (set_flags w2 false false false false) (u32 (nid + 1))))) with (cur_fragment_start_ (w_dlg w2)).
    by rewrite Hd2. }
  unfold Extend. rewrite HG. cbn [mbind option_bind]. unfold Reset_range. cbn [rg_begin rg_end rg_region].
  rewrite (proj2 (Z.ltb_lt _ _)) by lia. eexists. split; [done|].
  exists false, false, new, moved', S, fss', [], []. split_and!.
  - split; [|split; constructor|exact Hm2]. exists start2, false, requests2, patched2. split; [|exact Hh2].
    apply tw_ext; cbn; rewrite ?Hd2; try done. cbn. rewrite <- Hnid, u32_succ. f_equal. lia.
  - split; cbn; try done; [by exists octets|lia|constructor].
  - unfold bytes_available. cbn. lia.
  - done.
  - done.
  - exact Hy2.
Qed.

(** ** A packet begins *)

(** What the packet builds on, when [packets] were written before. *)
Definition based (P : Prior) (packets : list (list Z)) : Prop :=
  exists S fss fs bytes b, handed (p_mem P) (p_moved P) (p_sent P) S fss /\
    p_mem P !! home P = Some b /\ Z.of_nat (length b) = ck_size (p_chunk P) /\ take (length bytes) b = bytes /\
    p_start P = Z.of_nat (length bytes) + 4 /\ frags_enc fs bytes /\
    home P ∉ moved_regions (p_moved P) /\ home P ∉ dt_region <$> S.*1 /\
    ck_count (p_chunk P) = Z.of_nat (length fs) + 1 /\ Z.of_nat (length fs) < kMaxPacketsPerChunk /\
    last_continues (p_chunk P) = false /\ (fs = [] -> first_continues (p_chunk P) = false) /\
    yields (p_moved P) fss (tag_fragments (first_continues (p_chunk P)) false fs) packets.

Lemma send_nothing w : patch_list_ (w_dlg w) = [] -> send_if_patched w = Some w.
Proof. intros E. unfold send_if_patched, front_is_patched. by rewrite E. Qed.

Lemma finalize_nothing w : cur_fragment_size_field_ (w_dlg w) = None -> FinalizeFragmentIfRequired w = Some w.
Proof. intros E. unfold FinalizeFragmentIfRequired. by rewrite E. Qed.

(** Everything up to the first field. *)
Definition begin_packet w : option TWorld :=
  w ← send_if_patched w;
  let w := set_msgs w [fresh_message None] in
  '(w, header) ← ReserveBytes w kPacketHeaderSize;
  r ← cur_region (w_wr w);
  let w := set_fragmenting (set_fragment w (Some (r, write_ptr_ (w_wr w))) (Some header)) true in
  if negb (drop_packets_ (w_dlg w)) then
    c ← cur_chunk_ (w_dlg w);
    let c := if cur_chunk_packet_count_inflated_ (w_dlg w) then c else IncrementPacketCount c in
    Some (set_flags (set_chunk w (Some c)) (ck_count c =? kMaxPacketsPerChunk) (drop_packets_ (w_dlg w))
            (retry_new_chunk_after_packet_ (w_dlg w)) false)
  else Some w.

Lemma begin_packet_ok w id first packets :
  room id first packets w ->
  exists P w', begin_packet w = Some w' /\ based P packets /\ p_id P = id /\ p_first P = first /\
    tw_state P w' [] [] [] [] (p_chunk P) (p_start P) /\ rep w' [] [] /\ w_msgs w' = [fresh_message None].
Proof.
  intros (reached & inflated & c & moved & S & fss & fs & bytes & Hb & Hf & Hav & Hcnt & Hmax & Hy).
  pose proof Hb as [(start & fragm & requests & patched & Hd & Hh) _ Hm].
  pose proof Hf as [(Hr & Hbe & He & Hp) (b & Hb1 & Hb2 & Hb3) Hsz Henc [Hfr1 Hfr2] [Hid1 Hid2] [Hfl1 Hfl2]].
  unfold bytes_available in Hav. unfold begin_packet. rewrite send_nothing by (by rewrite Hd). cbn [mbind option_bind].
  set (c' := if inflated then c else IncrementPacketCount c).
  assert (Hc' : ck_count c' = Z.of_nat (length fs) + 1 /\ ck_region c' = ck_region c /\ ck_size c' = ck_size c /\ ck_id c' = ck_id c /\
    ck_writer_id c' = ck_writer_id c /\ ck_flags c' = ck_flags c).
  { unfold c'. change kMaxPacketsPerChunk with 1022 in Hmax. destruct inflated; [done|]. cbn. rewrite Hcnt. split_and!; try done.
    rewrite Z.mod_small; lia. }
  destruct Hc' as (Hc1 & Hc2 & Hc3 & Hc4 & Hc5 & Hc6).
  set (b' := buf_write b (length bytes) (replicate 4 0)). set (mem' := <[ck_region c := b']> (w_mem w)).
  assert (Hbl : length b' = length b) by (apply buf_write_length; cbn; lia).
  assert (Hrl : (ck_region c < length (w_mem w))%nat) by (by eapply lookup_lt_Some).
  assert (Hm' : mem' !! ck_region c = Some b') by (unfold mem'; by apply list_lookup_insert_eq).
  set (P := mkPrior id first mem' c' (Z.of_nat (length bytes) + 4) moved (flat patched)).
  exists P. eexists. split.
  { unfold ReserveBytes. cbn [set_msgs w_wr w_mem]. change (Z.of_nat kPacketHeaderSize) with 4.
    rewrite (proj2 (Z.ltb_ge _ _)) by lia. cbn [mbind option_bind]. cbn [set_msgs w_wr w_mem].
    rewrite (proj2 (Z.leb_le _ _)) by lia. rewrite Hr. cbn [mbind option_bind]. change kPacketHeaderSize with 4%nat.
    rewrite (region_write_Some _ _ _ _ b) by (done || (cbn; lia)). cbn [mbind option_bind]. rewrite Hp, Nat2Z.id. fold b' mem'.
    cbn [set_ptr set_wr set_mem set_msgs w_wr cur_region write_ptr_]. rewrite Hr. cbn [mbind option_bind].
    cbn [set_fragmenting set_fragment set_tw w_dlg drop_packets_ cur_chunk_ cur_chunk_packet_count_inflated_ set_ptr set_wr set_mem set_msgs].
    rewrite Hd. cbn [drop_packets_ negb cur_chunk_ mbind option_bind cur_chunk_packet_count_inflated_ retry_new_chunk_after_packet_]. fold c'.
    reflexivity. }
  split; [|split; [done|split; [done|split; [|split; [|done]]]]].
  - exists S, fss, fs, bytes, b'. cbn [p_mem p_moved p_sent p_chunk p_start P]. unfold home. cbn [p_chunk P]. rewrite Hc2. split_and!; try done.
    + rewrite app_nil_r in Hh. by eapply handed_fill.
    + by rewrite Hbl, Hc3.
    + unfold b', buf_write. rewrite Hb3. by rewrite take_app_len.
    + unfold last_continues. rewrite Hc6. done.
    + intros E. unfold first_continues. rewrite Hc6. by apply Hfl2.
    + unfold first_continues. rewrite Hc6. done.
  - split; cbn [w_mem w_wr w_msgs w_dlg set_flags set_chunk set_tw set_fragmenting set_fragment set_ptr set_wr set_mem set_msgs].
    + exists requests, patched. split; [|by rewrite app_nil_r].
      cbn [p_id p_first p_moved p_chunk p_start P]. rewrite Hc2. apply tw_ext; cbn; rewrite ?Hd; try done; cbn.
      * do 2 f_equal. lia.
      * by rewrite app_nil_r.
    + unfold opened. cbn [length P p_moved p_id p_chunk p_start]. rewrite Nat.add_0_r. split_and!; try done; congruence.
    + cbn [P p_chunk p_start cur_region cur_begin cur_end write_ptr_]. rewrite Hc2, Hc3. split_and!; try done; lia.
    + cbn [P p_chunk p_start]. rewrite Hc3. lia.
    + exists b'. cbn [P p_chunk]. rewrite Hc2, Hc3, Hbl. done.
    + done.
    + by intros ?%elem_of_nil.
    + exists []. cbn [app P p_chunk p_start write_ptr_]. rewrite Z.sub_diag. split; [done|]. by apply ghost_nil.
    + done.
    + intros m p Hm1 Hs. apply list_elem_of_singleton in Hm1 as ->. done.
    + constructor.
  - split; [constructor|constructor|]. unfold cur_ok. cbn. rewrite Hr. exists b', (Z.of_nat (length bytes) + 4). rewrite Hbl.
    split_and!; try done; try lia. exists []. rewrite Z.sub_diag. done.
Qed.

Definition first_field (w : TWorld) : option TWorld :=
  if first_packet_on_sequence_ (w_dlg w) then
    w ← AppendTinyVarInt w 0 kFirstPacketOnSequenceFieldNumber 1;
    Some (set_not_first w)
  else Some w.

Lemma room_fragmenting id first packets w : idle id first packets w -> 12 <= bytes_available w ->
  reached_max_packets_per_chunk_ (w_dlg w) = false -> room id first packets w.
Proof.
  intros (reached & inflated & cur & moved & S & fss & Hb & Hcur) Hav Hre. destruct cur as [c|]; [|lia].
  destruct Hcur as (fs & bytes & Hf & -> & _ & Hcnt & Hne & Hmax & -> & Hy).
  pose proof Hb as [(? & ? & ? & ? & Hd & _) _ _]. rewrite Hd in Hre. cbn in Hre. apply Z.eqb_neq in Hre.
  exists false, true, c, moved, S, fss, fs, bytes. rewrite (proj2 (Z.eqb_neq _ _)) in Hb by done. split_and!; try done. lia.
Qed.

Lemma idle_fragmenting id first packets w b : idle id first packets w -> idle id first packets (set_fragmenting w b).
Proof.
  intros (reached & inflated & cur & moved & S & fss & [(start & fragm & requests & patched & Hd & Hh) Hn Hm] & Hcur).
  exists reached, inflated, cur, moved, S, fss. split; [|done]. split; try done. exists start, b, requests, patched. split; [|done].
  cbn. by rewrite Hd.
Qed.

Lemma NewTracePacket_begin w id first packets :
  supplied -> idle id first packets w ->
  exists w1, room id first packets w1 /\ NewTracePacket w = (w ← begin_packet w1; first_field w).
Proof.
  intros Hsup Hi. pose proof Hi as (reached & inflated & cur & moved & S & fss & [(start & fragm & requests & patched & Hd & Hh) Hn (m & Hm & Hfin)] & _).
  pose proof (idle_fragmenting _ _ _ _ false Hi) as Hi'. set (w0 := set_fragmenting w false) in *.
  assert (Hmk : exists w1, (if (bytes_available w0 <? Z.of_nat kPacketHeaderSize + 8) || reached_max_packets_per_chunk_ (w_dlg w0) ||
      retry_new_chunk_after_packet_ (w_dlg w0) then Extend w0 else Some w0) = Some w1 /\ room id first packets w1 /\ drop_packets_ (w_dlg w0) = false).
  { assert (Hret : retry_new_chunk_after_packet_ (w_dlg w0) = false) by (cbn; by rewrite Hd).
    assert (Hdr : drop_packets_ (w_dlg w0) = false) by (cbn; by rewrite Hd).
    rewrite Hret, orb_false_r. change (Z.of_nat kPacketHeaderSize + 8) with 12. destruct (_ || _) eqn:E.
    - destruct (extend_idle w0 id first packets Hsup Hi') as (w1 & -> & Hr); [done|]. by exists w1.
    - apply orb_false_iff in E as [E1 E2]. apply Z.ltb_ge in E1. exists w0. split; [done|]. split; [|done]. by apply room_fragmenting. }
  destruct Hmk as (w1 & Hmk & Hroom & Hdr). exists w1. split; [done|].
  unfold NewTracePacket. rewrite Hm. cbn [lookup list_lookup mbind option_bind]. rewrite Hfin.
  rewrite finalize_nothing by (by rewrite Hd). cbn [mbind option_bind]. fold w0. rewrite Hmk, Hdr. cbn [mbind option_bind].
  unfold begin_packet. destruct (send_if_patched w1) as [w2|]; [|done]. cbn [mbind option_bind].
  destruct (ReserveBytes _ _) as [[w3 header]|]; [|done]. cbn [mbind option_bind]. destruct (cur_region (w_wr w3)) as [r|]; [|done].
  cbn [mbind option_bind]. destruct (negb _); [|done]. by destruct (cur_chunk_ _).
Qed.

Definition with_first (P : Prior) (b : bool) : Prior :=
  mkPrior (p_id P) b (p_mem P) (p_chunk P) (p_start P) (p_moved P) (p_sent P).

Lemma ghost_with_first P b mem locs frags sent unsent :
  ghost_ok P mem locs frags sent unsent -> ghost_ok (with_first P b) mem locs frags sent unsent.
Proof. intros [Hf ? ? ? ? ? ?]. constructor; try done. intros i f Hi. destruct (Hf i f Hi) as [? ? ? ? ? ?]. by constructor. Qed.

Lemma tw_inv_not_first P w locs : tw_inv P w locs -> tw_inv (with_first P false) (set_not_first w) locs.
Proof.
  intros (frags & sent & unsent & c & start & [(requests & patched & Hd & Hfl) ? ? ? ? ? ? (pre & Hl & Hg) ? ? ?]).
  exists frags, sent, unsent, c, start. split; try done.
  - exists requests, patched. split; [|done]. cbn. by rewrite Hd.
  - exists pre. split; [done|]. by apply ghost_with_first.
Qed.

(** The calls for a packet: the first of a sequence gets a field more. *)
Definition packet_calls (first : bool) (calls : list (nat * Call)) : list (nat * Call) :=
  if first then (0%nat, CTiny kFirstPacketOnSequenceFieldNumber 1) :: calls else calls.

(** The packet is written. *)
Lemma packet_body P w calls u (Hsup : supplied) :
  tw_inv P w [] -> rep w [] [] -> w_msgs w = [fresh_message None] -> first_packet_on_sequence_ (w_dlg w) = p_first P ->
  Forall (fun x => call_ok x.2) calls -> calls_meaning (ATop []) (packet_calls (p_first P) calls) = Some u ->
  Z.of_nat (calls_cost (packet_calls (p_first P) calls)) < kMaxMessageLength ->
  exists w1 w2 locs content n, (w ← first_field w; run_calls w calls) = Some w1 /\ Finalize w1 0 = Some (w2, n) /\
    tw_inv (with_first P false) w2 locs /\ rep w2 locs content /\ decodes content (acollapse u) /\
    exists m, w_msgs w2 = [m] /\ size_field_ m = None.
Proof.
  intros Hi Hrep Hms Hfirst Hok Hm Hcost.
  (* after the field for the first packet *)
  assert (H1 : exists w1 locs1 t1 u1, first_field w = Some w1 /\ @minv _ _ (tw_DelegateOk (with_first P false) Hsup) w1 locs1 t1 /\ arel t1 u1 /\
    root_field w1 = Some None /\ calls_meaning u1 calls = Some u /\ Z.of_nat (length (phys t1) + calls_cost calls) < kMaxMessageLength).
  { assert (Hmi : @minv _ _ (tw_DelegateOk P Hsup) w [] (Top [])).
    { split; [split; [done|by rewrite Hms|exact Hi|done]|by rewrite Hms]. }
    assert (Hro : root_field w = Some None) by (unfold root_field; by rewrite Hms).
    unfold first_field. rewrite Hfirst. unfold packet_calls in *. destruct (p_first P) eqn:Ef.
    - cbn [calls_meaning] in Hm. destruct (at_depth 0 (ATop []) _) as [u1|] eqn:Ha; [|done]. cbn [mbind option_bind] in Hm.
      unfold calls_cost in Hcost. cbn [fmap list_fmap sum_list snd] in Hcost.
      destruct (@run_call_ok _ _ (tw_DelegateOk P Hsup) w [] (Top []) (ATop []) 0 (CTiny kFirstPacketOnSequenceFieldNumber 1) u1 Hmi)
        as (w1 & locs1 & t1 & Hrun & Hmi1 & Har & Hrf & Hlen); [exact (ar_top [] [] ct_nil)|by split|done|cbn [phys length]; unfold id in Hcost; lia|].
      cbn [run_call] in Hrun. rewrite Hrun. cbn [mbind option_bind]. exists (set_not_first w1), locs1, t1, u1. split; [done|].
      split; [|split; [done|split; [|split; [done|]]]].
      + destruct Hmi1 as [[Hr1 Hf1 Hd1 Hp1] Hs1]. split; [split; [by destruct Hr1|done|by apply tw_inv_not_first|done]|done].
      + by rewrite <- Hro, <- Hrf.
      + cbn [phys length] in Hlen. unfold calls_cost, id in *. lia.
    - exists w, [], (Top []), (ATop []). split; [done|].
      assert (HP : with_first P false = P) by (destruct P; cbn in *; by subst). rewrite HP. split_and!; try done. exact (ar_top [] [] ct_nil). }
  destruct H1 as (w1 & locs1 & t1 & u1 & -> & Hmi1 & Har1 & Hro1 & Hm1 & Hc1). cbn [mbind option_bind].
  destruct (@run_calls_ok _ _ (tw_DelegateOk (with_first P false) Hsup) calls w1 locs1 t1 u1 u Hmi1 Har1 Hok Hm1 Hc1)
    as (w2 & locs2 & t2 & Hrun & Hmi2 & Har2 & Hro2 & Hc2).
  destruct (@Finalize_root_ok _ _ (tw_DelegateOk (with_first P false) Hsup) w2 locs2 t2 Hmi2) as (w3 & locs3 & content & Hfin & Hrep3 & Hd3 & Hcol & Hms3);
    [by rewrite Hro2|done|].
  exists w2, w3, locs3, content, (Z.of_nat (length content)). split_and!; try done.
  by eapply content_decodes, arel_collapse.
Qed.

(** ** A packet ends *)

Lemma buf_write_front buf at_ x y :
  (at_ + length x + length y <= length buf)%nat ->
  buf_write (buf_write buf (at_ + length x) y) at_ x = buf_write buf at_ (x ++ y).
Proof.
  intros Hl. unfold buf_write. rewrite length_app. rewrite take_app_le by (rewrite length_take; lia). rewrite take_take, Nat.min_l by lia.
  rewrite drop_app_ge by (rewrite length_take; lia). rewrite length_take, Nat.min_l, Nat.sub_diag by lia. cbn [drop].
  rewrite <- !app_assoc. by rewrite Nat.add_assoc.
Qed.

Lemma writer_eta wr : wr = mkWriter (cur_region wr) (cur_begin wr) (cur_end wr) (write_ptr_ wr) (written_previously_ wr).
Proof. by destruct wr. Qed.

(** Writing what is there already. *)
Lemma buf_write_same buf at_ x y :
  (at_ + length x + length y <= length buf)%nat -> take (length y) (drop (at_ + length x) buf) = y ->
  buf_write buf at_ x = buf_write buf at_ (x ++ y).
Proof.
  intros Hl Hy. unfold buf_write. rewrite length_app, <- app_assoc. do 2 f_equal.
  rewrite <- (take_drop (length y) (drop (at_ + length x) buf)) at 1. rewrite Hy, drop_drop. do 2 f_equal. lia.
Qed.

(** The last fragment gets its size, and moves up when the size fits in one octet. *)
Lemma finalize_fragment w r start b clast :
  cur_region (w_wr w) = Some r -> cur_fragment_start_ (w_dlg w) = Some (r, start) ->
  cur_fragment_size_field_ (w_dlg w) = Some (r, start - 4) -> cur_begin (w_wr w) <= start -> 4 <= start ->
  write_ptr_ (w_wr w) = start + Z.of_nat (length clast) -> write_ptr_ (w_wr w) <= cur_end (w_wr w) < 2 ^ 16 ->
  w_mem w !! r = Some b -> Z.of_nat (length b) = cur_end (w_wr w) -> take (length clast) (drop (Z.to_nat start) b) = clast ->
  exists w2 b2 sf, FinalizeFragmentIfRequired w = Some w2 /\ size_enc sf (length clast) /\
    cur_begin (w_wr w) <= start - 4 + Z.of_nat (length (sf ++ clast)) /\
    w_dlg w2 = w_dlg (set_fragment w (Some (r, start)) None) /\ w_msgs w2 = w_msgs w /\
    w_mem w2 = <[r := b2]> (w_mem w) /\ length b2 = length b /\
    b2 = buf_write b (Z.to_nat (start - 4)) (sf ++ clast) /\
    w_wr w2 = mkWriter (Some r) (cur_begin (w_wr w)) (cur_end (w_wr w)) (start - 4 + Z.of_nat (length (sf ++ clast))) (written_previously_ (w_wr w)).
Proof.
  intros Hr Hs Hf Hb H4 Hp He Hm Hl Ht. unfold FinalizeFragmentIfRequired. rewrite Hf, Hs. cbn [mbind option_bind].
  rewrite Hr, bool_decide_eq_true_2 by done. rewrite (proj2 (Z.leb_le _ _)) by lia. cbn [andb].
  set (n := length clast) in *.
  assert (En : u32 (write_ptr_ (w_wr w) - start) = Z.of_nat n) by (rewrite u32_id; [lia|unfold_u; lia]).
  rewrite En. cbn [andb]. change kMaxOneByteMessageLength with 127.
  assert (Hrl : (r < length (w_mem w))%nat) by (by eapply lookup_lt_Some).
  assert (Hlong : Z.of_nat n < 2 ^ 16 -> exists w2 b2 sf,
    (w0 ← write_fragment_size w (Z.of_nat n); Some (set_fragment w0 (cur_fragment_start_ (w_dlg w0)) None)) = Some w2 /\
    size_enc sf n /\ cur_begin (w_wr w) <= start - 4 + Z.of_nat (length (sf ++ clast)) /\ w_dlg w2 = w_dlg (set_fragment w (Some (r, start)) None) /\ w_msgs w2 = w_msgs w /\
    w_mem w2 = <[r := b2]> (w_mem w) /\ length b2 = length b /\ b2 = buf_write b (Z.to_nat (start - 4)) (sf ++ clast) /\
    w_wr w2 = mkWriter (Some r) (cur_begin (w_wr w)) (cur_end (w_wr w)) (start - 4 + Z.of_nat (length (sf ++ clast))) (written_previously_ (w_wr w))).
  { intros Hn. unfold write_fragment_size. rewrite Hf. cbn [mbind option_bind]. change kMessageLengthFieldSize with 4%nat.
    set (sf := WriteRedundantVarInt (Z.of_nat n) 4). assert (Hsf : length sf = 4%nat) by apply length_WriteRedundantVarInt.
    rewrite (region_write_Some _ _ _ _ b) by (done || lia). cbn [mbind option_bind].
    assert (E : buf_write b (Z.to_nat (start - 4)) sf = buf_write b (Z.to_nat (start - 4)) (sf ++ clast)).
    { apply buf_write_same; [fold n; lia|]. replace (Z.to_nat (start - 4) + length sf)%nat with (Z.to_nat start) by lia. exact Ht. }
    eexists _, _, sf. split; [done|]. split; [right; split; [done|]; pose proof kMax_val; lia|]. split; [rewrite length_app; lia|].
    cbn [set_fragment set_tw set_mem w_mem w_dlg w_wr w_msgs]. split; [by rewrite Hs|]. split; [done|]. split; [by rewrite E|].
    split; [rewrite buf_write_length; [done|rewrite length_app; fold n; lia]|]. split; [done|].
    etransitivity; [apply writer_eta|]. rewrite length_app, Hsf. fold n. f_equal; [done|lia]. }
  destruct (Z.ltb_spec (Z.of_nat n) 127) as [Hn|Hn]; [destruct (Z.leb_spec (cur_begin (w_wr w)) (start - 4)) as [Hc|Hc]|]; cbn [andb].
  - unfold Rewind. change (Z.of_nat kMessageLengthFieldSize - 1) with 3. rewrite Hp.
    rewrite !(proj2 (Z.leb_le _ _)) by lia. cbn [andb]. rewrite Hr. cbn [mbind option_bind].
    replace (start + Z.of_nat n - Z.of_nat n) with start by lia. rewrite Nat2Z.id.
    rewrite (region_read_Some _ _ _ _ b) by (done || lia). cbn [mbind option_bind]. rewrite Ht.
    rewrite (region_write_Some _ _ _ _ b) by (done || (fold n; lia)). cbn [mbind option_bind set_ptr set_wr set_mem w_mem].
    set (b1 := buf_write b (Z.to_nat (start - 3)) clast).
    assert (Hb1 : length b1 = length b) by (apply buf_write_length; fold n; lia).
    rewrite (region_write_Some _ _ _ _ b1) by (try apply list_lookup_insert_eq; cbn; lia || done). cbn [mbind option_bind].
    rewrite u8_id by (unfold_u; lia).
    eexists _, (buf_write b (Z.to_nat (start - 4)) ([Z.of_nat n] ++ clast)), [Z.of_nat n]. split; [done|]. split; [left; split; [done|change kMaxOneByteMessageLength with 127; lia]|]. split; [lia|].
    cbn [set_fragment set_tw set_mem set_ptr set_wr w_mem w_dlg w_wr w_msgs]. split; [by rewrite ?Hs|]. split; [done|]. split; [|split; [|split; [done|]]].
    + rewrite list_insert_insert_eq. f_equal. unfold b1. replace (Z.to_nat (start - 3)) with (Z.to_nat (start - 4) + length [Z.of_nat n])%nat by (cbn; lia).
      apply buf_write_front. cbn. fold n. lia.
    + apply buf_write_length. rewrite length_app. cbn. fold n. lia.
    + cbn. rewrite Hr. f_equal. fold n. lia.
  - apply Hlong. lia.
  - apply Hlong. lia.
Qed.

(** Regions from before the packet, other than the chunk it started in, are as they
    were. *)
Lemma prior_region P mem locs frags sent unsent r :
  ghost_ok P mem locs frags sent unsent -> (length (p_mem P) <= length mem)%nat -> (r < length (p_mem P))%nat -> r <> home P ->
  mem !! r = p_mem P !! r.
Proof.
  intros Hg Hl Hr Hh. destruct (lookup_lt_is_Some_2 (p_mem P) r Hr) as [b Hb]. destruct (lookup_lt_is_Some_2 mem r) as [b' Hb']; [lia|].
  rewrite Hb, Hb'. f_equal. apply list_eq. intros i. rewrite <- (read1_at mem r b'), <- (read1_at (p_mem P) r b) by done.
  apply (gh_frozen _ _ _ _ _ _ Hg). split; [done|]. intros E. done.
Qed.

(** The stream, fragment by fragment. *)
Lemma split_pieces mem G frags : forall out, cells mem (redirect G <$> raw_locs frags) out ->
  exists pieces, concat pieces = out /\ Forall2 (fun f p => cells mem (redirect G <$> fg_locs f) p) frags pieces.
Proof.
  induction frags as [|f frags IH]; intros out Hc.
  - inversion Hc. by exists [].
  - unfold raw_locs in Hc. cbn in Hc. rewrite fmap_app in Hc. apply Forall2_app_inv_l in Hc as (o1 & o2 & H1 & H2 & ->).
    destruct (IH o2 H2) as (pieces & <- & Hp). exists (o1 :: pieces). split; [done|]. by constructor.
Qed.

(** What precedes the fragment in the [i]-th chunk of the packet. *)
Definition before {A} (i : nat) (l : list A) : list A := if (i =? 0)%nat then l else [].

Section Handed.
Context (P : Prior) (S : list Sent) (fss : list (list (list Z))) (fs : list (list Z)) (bytes b : list Z).
Context (Hh : handed (p_mem P) (p_moved P) (p_sent P) S fss) (Hb : p_mem P !! home P = Some b) (Ht : take (length bytes) b = bytes)
  (Hstart : p_start P = Z.of_nat (length bytes) + 4) (Henc : frags_enc fs bytes) (Hhome : home P ∉ moved_regions (p_moved P))
  (HhomeS : home P ∉ dt_region <$> S.*1) (Hcnt : ck_count (p_chunk P) = Z.of_nat (length fs) + 1).

Lemma home_lt : (home P < length (p_mem P))%nat.
Proof. by eapply lookup_lt_Some. Qed.

Lemma moved_lt r : r ∈ moved_regions (p_moved P) -> (r < length (p_mem P))%nat /\ r <> home P.
Proof. intros Hr. split; [by eapply moved_region_lt; [exact (hd_chunks _ _ _ _ _ Hh)|]|]. by intros ->. Qed.

Lemma sent_lt r : r ∈ dt_region <$> S.*1 -> (r < length (p_mem P))%nat /\ r <> home P.
Proof.
  intros Hr. split; [|by intros ->]. apply list_elem_of_fmap in Hr as (g & -> & Hg). apply list_elem_of_fmap in Hg as (s & -> & Hs).
  pose proof (hd_sent _ _ _ _ _ Hh) as Ho. rewrite Forall_forall in Ho. destruct (Ho s Hs) as [Hm _]. by eapply lookup_lt_Some.
Qed.

Lemma opened_not_moved i c start : opened P i c start -> ck_region c ∉ moved_regions (p_moved P).
Proof. intros Hop Hin. destruct (moved_lt _ Hin) as [H1 H2]. destruct (opened_region _ _ _ _ Hop) as [[? _]|?]; [done|lia]. Qed.

(** The patches of the packet are for its own fragments. *)
Lemma packet_uncovered mem locs frags sent l :
  ghost_ok P mem locs frags sent [] -> l.1 ∈ moved_regions (p_moved P) -> Forall (fun g => ~ covers g l) sent.*1.
Proof.
  intros Hg Hl. destruct (moved_lt _ Hl) as [Hlt Hne]. pose proof (gh_detours _ _ _ _ _ _ Hg) as Hd. unfold detours in Hd. rewrite app_nil_r in Hd.
  pose proof (gh_ours _ _ _ _ _ _ Hg) as Ho. rewrite Forall_forall in Hd. rewrite Forall_forall in Ho. apply Forall_forall. intros g Hin [Hc _].
  destruct (Hd g Hin) as (_ & _ & f & Hf & E & _). destruct (Ho (fg_region f)) as [_ Hor]; [apply list_elem_of_fmap; by exists f|].
  rewrite E, <- Hc in Hor. lia.
Qed.

(** What was handed over before still is. *)
Lemma handed_before mem locs frags sent :
  ghost_ok P mem locs frags sent [] -> (length (p_mem P) <= length mem)%nat ->
  Forall2 (chunk_ok mem (S ++ sent).*1) (p_moved P) fss /\ Forall (sent_ok mem (p_moved P ++ (fg_moved <$> frags))) S.
Proof.
  intros Hg Hl.
  assert (Hh' : handed mem (p_moved P) (p_sent P) S fss).
  { apply (handed_mem (p_mem P)); [done|]. intros r [Hr|Hr]; eapply prior_region; try done; [by apply moved_lt..|by apply sent_lt|by apply sent_lt]. }
  split.
  - pose proof (hd_chunks _ _ _ _ _ Hh') as Hc. apply Forall2_same_length_lookup. split; [by eapply Forall2_length|]. intros i cp x Hcp Hx.
    destruct (Forall2_lookup_lr _ _ _ _ _ _ Hc Hcp Hx) as (H1 & H2 & by_ & H3 & H4 & H5). split; [done|]. split; [done|]. exists by_.
    split; [done|]. split; [done|]. erewrite list_fmap_ext; [exact H5|]. intros j l Hj. rewrite fmap_app. apply redirect_app_other.
    eapply packet_uncovered; [exact Hg|]. apply list_elem_of_lookup_2, elem_of_range_locs in Hj as [-> _].
    apply list_elem_of_fmap. exists cp. split; [done|]. by eapply list_elem_of_lookup_2.
  - eapply Forall_impl; [exact (hd_sent _ _ _ _ _ Hh')|]. intros s (H1 & H2 & cp & Hcp & H3). split; [done|]. split; [done|]. exists cp. set_solver.
Qed.

Lemma opened_prefix mem locs frags sent unsent i c start payload :
  ghost_ok P mem locs frags sent unsent -> opened P i c start -> mem !! ck_region c = Some payload ->
  start = Z.of_nat (length (before i bytes)) + 4 /\ frags_enc (before i fs) (before i bytes) /\
  take (length (before i bytes)) payload = before i bytes /\ ck_count c = Z.of_nat (length (before i fs)) + 1.
Proof.
  intros Hg Hop Hm. unfold before. destruct i as [|i]; cbn [Nat.eqb].
  - destruct Hop as (_ & _ & -> & ->). split; [done|]. split; [done|]. split; [|done]. fold (home P) in Hm.
    assert (Hlen : (length bytes <= length b)%nat) by (apply (f_equal length) in Ht; rewrite length_take in Ht; lia).
    apply list_eq. intros j. destruct (decide (j < length bytes)%nat) as [Hj|Hj].
    + rewrite lookup_take_lt by done. rewrite <- Ht, lookup_take_lt by done.
      rewrite <- (read1_at mem (home P)), <- (read1_at (p_mem P) (home P)) by done. apply (gh_frozen _ _ _ _ _ _ Hg).
      split; [exact home_lt|]. cbn. lia.
    + rewrite lookup_take_ge by lia. symmetry. apply lookup_ge_None. lia.
  - destruct Hop as (_ & _ & _ & -> & -> & _). split_and!; try done. constructor.
Qed.

(** The chunk of the [i]-th closed fragment of the packet. *)
Lemma handed_frag mem locs frags sent i f piece :
  ghost_ok P mem locs frags sent [] -> frags !! i = Some f -> cells mem (redirect sent.*1 <$> fg_locs f) piece ->
  chunk_ok mem (S ++ sent).*1 (fg_moved f) (before i fs ++ [piece]).
Proof.
  intros Hg Hi Hc. pose proof (gh_frags _ _ _ _ _ _ Hg i f Hi) as [(c & Hop & Hsame) _ Hmem Hst Hend Hhd].
  pose proof (opened_prefix _ _ _ _ _ _ _ _ (fg_payload f) Hg Hop) as Hpre.
  destruct Hsame as (Hs1 & _ & _ & _ & Hs2 & _). rewrite <- Hs1 in Hpre. specialize (Hpre Hmem). rewrite <- Hs2 in Hpre.
  set (pre := before i bytes) in *. 
  destruct Hpre as (Hp1 & Hp2 & Hp3 & Hp4).
  pose proof (cells_length _ _ _ Hc) as Hlp. rewrite length_fmap in Hlp. unfold fg_locs in Hlp. rewrite length_range_locs in Hlp.
  set (hd := WriteRedundantVarInt (Z.of_nat (fg_size f)) 4) in *. assert (Hhl : length hd = 4%nat) by apply length_WriteRedundantVarInt.
  split; [exact Hmem|]. split; [cbn [fg_moved fst]; rewrite length_app; cbn; lia|]. exists (pre ++ hd ++ piece).
  rewrite !length_app, Hhl, <- Hlp. cbn [fg_moved fst snd]. split; [apply fe_snoc; [done|right; rewrite <- Hlp; pose proof kMax_val; split; [done|lia]]|].
  split; [lia|]. fold (fg_region f). rewrite Nat.add_assoc, range_locs_app, fmap_app. rewrite app_assoc. apply Forall2_app.
  - (* before the fragment *)
    erewrite (list_fmap_ext _ id).
    2: { intros j l Hj. apply list_elem_of_lookup_2, elem_of_range_locs in Hj as [Hj1 Hj2]. unfold id. apply redirect_none.
         rewrite fmap_app. apply Forall_app. split.
         - eapply handed_uncovered; [exact Hh|]. rewrite Hj1. unfold fg_region. rewrite Hs1. by eapply opened_not_moved.
         - pose proof (gh_detours _ _ _ _ _ _ Hg) as Hd. unfold detours in Hd. rewrite app_nil_r in Hd. rewrite Forall_forall in Hd.
           apply Forall_forall. intros g Hin [Hc1 Hc2]. destruct (Hd g Hin) as (_ & _ & f' & Hf' & E & _ & Ho & _).
           assert (f' = f) as ->; [|lia]. apply list_elem_of_lookup in Hf' as [j' Hj'].
           pose proof (gh_nodup _ _ _ _ _ _ Hg) as Hn. apply NoDup_app in Hn as (Hn & _).
           assert (j' = i) as ->; [|congruence]. eapply NoDup_lookup; [exact Hn|rewrite list_lookup_fmap, Hj'; done|].
           rewrite list_lookup_fmap, Hi. cbn. congruence. }
    rewrite list_fmap_id. apply (cells_range _ _ _ _ _ (fg_payload f)); [done|lia|change (Z.to_nat 0) with 0%nat; lia|].
    change (Z.to_nat 0) with 0%nat. rewrite drop_0. rewrite <- (take_drop (length pre) (fg_payload f)) at 1. rewrite Hp3.
    rewrite take_app_ge by lia. f_equal. rewrite <- Hhd. f_equal; [lia|]. f_equal. lia.
  - replace (0 + Z.of_nat (length pre + 4)) with (fg_start f) by lia. erewrite (list_fmap_ext _ (redirect sent.*1)); [exact Hc|].
    intros j l Hj. apply list_elem_of_lookup_2, elem_of_range_locs in Hj as [Hj1 Hj2]. rewrite fmap_app. apply redirect_app_skip.
    eapply handed_uncovered; [exact Hh|]. rewrite Hj1. unfold fg_region. rewrite Hs1. by eapply opened_not_moved.
Qed.

(** The fragments of the chunks of the packet. *)
Definition packet_fss (pieces : list (list Z)) : list (list (list Z)) :=
  match pieces with [] => [] | p :: ps => (fs ++ [p]) :: ((fun p => [p]) <$> ps) end.

Lemma packet_fss_lookup pieces i : packet_fss pieces !! i = (fun p => before i fs ++ [p]) <$> pieces !! i.
Proof. destruct pieces as [|p ps]; [done|]. destruct i as [|i]; [done|]. cbn [packet_fss Nat.eqb app before]. unfold before. cbn [Nat.eqb app]. change ((p :: ps) !! Datatypes.S i) with (ps !! i). rewrite <- list_lookup_fmap. done. Qed.

Lemma length_packet_fss pieces : length (packet_fss pieces) = length pieces.
Proof. destruct pieces; [done|]. cbn. by rewrite length_fmap. Qed.

Lemma handed_packet mem locs frags sent out :
  ghost_ok P mem locs frags sent [] -> (length (p_mem P) <= length mem)%nat -> cells mem locs out ->
  exists pieces, concat pieces = out /\ length pieces = length frags /\
    handed mem (p_moved P ++ (fg_moved <$> frags)) (p_sent P ++ (sent_entry <$> sent)) (S ++ sent) (fss ++ packet_fss pieces).
Proof.
  intros Hg Hl Hc. rewrite (gh_locs _ _ _ _ _ _ Hg) in Hc. unfold detours in Hc. rewrite app_nil_r in Hc.
  destruct (split_pieces mem _ frags out Hc) as (pieces & Ho & Hp). exists pieces. split; [done|].
  pose proof (Forall2_length _ _ _ Hp) as Hlen. split; [done|]. destruct (handed_before _ _ _ _ Hg Hl) as [Hb1 Hb2].
  pose proof (gh_nodup _ _ _ _ _ _ Hg) as Hn. apply NoDup_app in Hn as (Hn & _). pose proof (gh_ours _ _ _ _ _ _ Hg) as Hour.
  split.
  - apply Forall2_app; [done|]. apply Forall2_same_length_lookup. split; [by rewrite length_packet_fss, length_fmap|].
    intros i cp x Hcp Hx. rewrite list_lookup_fmap, fmap_Some in Hcp. destruct Hcp as (f & Hf & ->).
    rewrite packet_fss_lookup, fmap_Some in Hx. destruct Hx as (p & Hpi & ->). eapply handed_frag; [exact Hg|done|].
    by apply (Forall2_lookup_lr _ _ _ _ _ _ Hp Hf Hpi).
  - intros j cp Hj. apply lookup_app_Some in Hj as [Hj|[Hge Hj]]; [by apply (hd_ids _ _ _ _ _ Hh)|].
    rewrite list_lookup_fmap, fmap_Some in Hj. destruct Hj as (f & Hf & ->).
    destruct (gh_frags _ _ _ _ _ _ Hg _ f Hf) as [(c & (Hid & _) & (_ & _ & _ & E & _)) _ _ _ _ _]. cbn [fg_moved fst]. rewrite E, Hid. do 2 f_equal. lia.
  - unfold moved_regions. rewrite fmap_app. apply NoDup_app. split; [exact (hd_regions _ _ _ _ _ Hh)|]. split.
    + intros x Hx Hin. destruct (moved_lt x Hx) as [H1 H2]. rewrite <- list_fmap_compose in Hin. rewrite Forall_forall in Hour.
      destruct (Hour x Hin) as [_ [?|?]]; [done|lia].
    + by rewrite <- list_fmap_compose.
  - rewrite fmap_app. by rewrite (hd_patches _ _ _ _ _ Hh).
  - apply Forall_app. split; [done|]. pose proof (gh_sent _ _ _ _ _ _ Hg) as Hs. pose proof (gh_detours _ _ _ _ _ _ Hg) as Hd.
    unfold detours in Hd. rewrite app_nil_r, Forall_fmap in Hd. rewrite Forall_forall in Hs, Hd. apply Forall_forall. intros s Hin.
    destruct (Hd s Hin) as (_ & (b0 & Hb0 & Hl0) & f & Hf & E1 & E2 & Ho1 & Ho2). specialize (Hs s Hin). cbn in *. rewrite Hs in Hb0. injection Hb0 as <-.
    split; [done|]. split; [done|]. exists (fg_moved f). split; [apply elem_of_app; right; apply list_elem_of_fmap; by exists f|].
    apply list_elem_of_lookup in Hf as [i Hi]. destruct (gh_frags _ _ _ _ _ _ Hg i f Hi) as [_ _ _ ? ? _]. cbn. split_and!; try done; lia.
Qed.
End Handed.

Lemma join_continued ps : forall all partial,
  fold_left join_step ((fun p => (true, true, p)) <$> ps) (all, Some partial) = (all, Some (partial ++ concat ps)).
Proof. induction ps as [|p ps IH]; intros all partial; cbn; [by rewrite app_nil_r|]. rewrite IH. by rewrite <- app_assoc. Qed.

Lemma fragments_continued frags ps :
  Forall (fun f => first_continues (fg_chunk f) = true /\ last_continues (fg_chunk f) = true) frags -> length frags = length ps ->
  fragments_of (fg_moved <$> frags) ((fun p => [p]) <$> ps) = (fun p => (true, true, p)) <$> ps.
Proof.
  intros Hf. revert ps. induction Hf as [|f frags [H1 H2] Hf IH]; intros [|p ps] Hl; try done.
  unfold fragments_of in *. cbn in *. rewrite H1, H2, IH by lia. done.
Qed.

Lemma opened_continues P i c start : opened P (S i) c start -> first_continues c = true.
Proof. intros (_ & _ & _ & _ & _ & E). unfold first_continues. by rewrite E. Qed.

(** The pieces of the packet are joined. *)
Lemma yields_packet P mem locs frags sent unsent fss fs pieces c start packets clast :
  ghost_ok P mem locs frags sent unsent -> length pieces = length frags -> opened P (length frags) c start ->
  length (p_moved P) = length fss -> (fs = [] -> first_continues (p_chunk P) = false) ->
  yields (p_moved P) fss (tag_fragments (first_continues (p_chunk P)) false fs) packets ->
  yields (p_moved P ++ (fg_moved <$> frags)) (fss ++ packet_fss fs pieces)
    (tag_fragments (first_continues c) false (before (length frags) fs ++ [clast])) (packets ++ [concat pieces ++ clast]).
Proof.
  intros Hg Hlen Hop Hl Hfs Hy.
  assert (Hff : forall b, tag_fragments (first_continues (p_chunk P)) b (fs ++ [clast]) =
    tag_fragments (first_continues (p_chunk P)) false fs ++ [(false, b, clast)]).
  { intros b. rewrite tag_snoc. destruct (decide (fs = [])); [|done]. by rewrite Hfs. }
  destruct frags as [|f frags], pieces as [|p ps]; try done.
  - destruct Hop as (_ & _ & -> & _). cbn [fmap list_fmap packet_fss concat app]. cbn [length]. change (before 0 fs) with fs. rewrite !app_nil_r, Hff by done. by apply yields_snoc.
  - destruct Hy as (all & Hj & Hn). exists (all ++ [concat (p :: ps) ++ clast]). split; [|unfold nonempty in *; by rewrite !filter_app, Hn].
    change (before (length (f :: frags)) fs) with (@nil (list Z)). unfold joined. rewrite fragments_of_app by done. rewrite (opened_continues _ _ _ _ Hop).
    pose proof (gh_frags _ _ _ _ _ _ Hg) as Hfo.
    destruct (Hfo 0%nat f eq_refl) as [(c0 & (_ & _ & -> & _) & (_ & _ & _ & _ & _ & Ec)) Hlast _ _ _ _].
    change (fragments_of (fg_moved <$> f :: frags) (packet_fss fs (p :: ps))) with
      (tag_fragments (first_continues (fg_chunk f)) (last_continues (fg_chunk f)) (fs ++ [p]) ++ fragments_of (fg_moved <$> frags) ((fun p => [p]) <$> ps)).
    rewrite Ec, Hlast, fragments_continued.
    + rewrite tag_snoc. replace (if decide (fs = []) then first_continues (p_chunk P) else false) with false by (destruct (decide (fs = [])); [by rewrite Hfs|done]).
      unfold joined in Hj. rewrite !app_assoc, 3!fold_left_app, Hj. cbn [fold_left join_step]. rewrite join_continued. cbn. done.
    + apply Forall_forall. intros x Hx. apply list_elem_of_lookup in Hx as [i Hi]. destruct (Hfo (S i) x Hi) as [(cx & Hox & (_ & _ & _ & _ & _ & Ex)) Hlx _ _ _ _].
      split; [|done]. rewrite Ex. by eapply opened_continues.
    + cbn in Hlen. lia.
Qed.

(** Patches with what is in them. *)
Lemma with_octets mem unsent : Forall (patch_region mem) unsent ->
  exists now : list Sent, now.*1 = unsent /\ Forall (fun s : Sent => mem !! dt_region s.1 = Some s.2) now.
Proof.
  induction 1 as [|g unsent (b & Hb & _) _ (now & <- & IH)]; [exists []; split; [done|constructor]|].
  exists ((g, b) :: now). split; [done|]. by constructor.
Qed.

(** Writing from the header of the current fragment on. *)
Lemma ghost_cur P w locs frags sent unsent c start b data :
  tw_state P w locs frags sent unsent c start -> w_mem w !! ck_region c = Some b -> (Z.to_nat (start - 4) + length data <= length b)%nat ->
  forall pre sent' unsent', detours sent' unsent' = detours sent unsent -> ghost_ok P (w_mem w) pre frags sent' unsent' ->
  ghost_ok P (<[ck_region c := buf_write b (Z.to_nat (start - 4)) data]> (w_mem w)) pre frags sent' unsent'.
Proof.
  intros Hst Hb Hl pre sent' unsent' Hdt Hg. pose proof (ts_fresh _ _ _ _ _ _ _ _ Hst) as Hfr. rewrite <- Hdt in Hfr.
  pose proof (ts_size _ _ _ _ _ _ _ _ Hst) as Hsz.
  apply (ghost_mem P (w_mem w)); [done|..].
  - intros r br Hr. destruct (decide (r = ck_region c)) as [->|Hne].
    + rewrite list_lookup_insert_eq by (by eapply lookup_lt_Some). eexists. split; [done|]. rewrite buf_write_length by done. congruence.
    + rewrite list_lookup_insert_ne by done. eauto.
  - intros r Hr. apply list_lookup_insert_ne. intros <-. apply Hfr. unfold detours. rewrite fmap_app, !elem_of_app. tauto.
  - intros [r o] [Hl1 Hl2]. cbn in Hl1, Hl2. apply read1_write_other; [done|lia|exact Hl|]. rewrite elem_of_range_locs. cbn [fst snd]. intros [-> Ho].
    destruct (opened_region _ _ _ _ (ts_opened _ _ _ _ _ _ _ _ Hst)) as [[Eh Es]|Hge]; [|lia]. specialize (Hl2 Eh). lia.
Qed.

(** After the last fragment is closed the packet is in the chunks. *)
Lemma packet_done P w locs frags sent unsent c start content packets m :
  tw_state P w locs frags sent unsent c start -> rep w locs content -> based P packets -> w_msgs w = [m] -> size_field_ m = None ->
  exists w2 moved S now fss fs bytes, FinalizeFragmentIfRequired w = Some w2 /\
    base (set_msgs w2 [mkMessage 0 None kFinalized]) (p_id P) (p_first P) (ck_count c =? kMaxPacketsPerChunk) false (Some c) moved S now fss /\
    filling (w_mem w2) (w_wr w2) (p_id P) moved S c fs bytes /\ ck_count c = Z.of_nat (length fs) /\ fs <> [] /\
    ck_count c <= kMaxPacketsPerChunk /\
    yields moved fss (tag_fragments (first_continues c) false fs) (packets ++ [content]).
Proof.
  intros Hst Hrep (S & fss & fs & bytes & bh & Hh & Hbh & Hbl & Hbt & Hps & Henc & Hhome & HhomeS & Hcnt & Hmax & Hlc & Hfc & Hy) Hms Hmf.
  pose proof Hst as [(requests & patched & Hdl & Hflat) Hop (Hr & Hb & He & Hp) Hsz (b & Hb1 & Hb2) Hpr Hfresh (pre & Hlocs & Hg) Hroot Hwh Hpa].
  pose proof (rep_cur _ _ _ Hrep) as Hcur. unfold cur_ok in Hcur. rewrite Hr in Hcur.
  destruct Hcur as (b' & s & Hb' & Hbs & Hpe & _). rewrite Hb1 in Hb'. injection Hb' as <-.
  pose proof (rep_cells _ _ _ Hrep) as Hce. rewrite Hlocs in Hce. apply Forall2_app_inv_l in Hce as (cpre & clast & Hc1 & Hc2 & ->).
  pose proof (cells_length _ _ _ Hc2) as Hn. rewrite length_range_locs in Hn.
  assert (Hcl : take (length clast) (drop (Z.to_nat start) b) = clast).
  { apply (cells_range _ _ _ _ _ b Hb1) in Hc2; [|lia|lia]. rewrite <- Hn. by symmetry. }
  destruct (finalize_fragment w (ck_region c) start b clast) as (w2 & b2 & sf & Hfin & Hsf & Hcb & Hd2 & Hm2 & Hmem2 & Hl2 & Hb2' & Hwr2);
    try done; [by rewrite Hdl..|lia|lia|lia|lia|].
  pose proof (size_enc_length _ _ Hsf) as Hsl.
  (* the patches *)
  assert (Hpreg : Forall (patch_region (w_mem w)) unsent).
  { pose proof (gh_detours _ _ _ _ _ _ Hg) as Hd. unfold detours in Hd. rewrite Forall_app in Hd. destruct Hd as [_ Hd].
    eapply Forall_impl; [exact Hd|]. by intros g (_ & ? & _). }
  destruct (with_octets _ _ Hpreg) as (now & Hnow1 & Hnow2). 
  assert (Hdt : detours (sent ++ now) [] = detours sent unsent) by (unfold detours; by rewrite fmap_app, Hnow1, app_nil_r).
  assert (Hg1 : ghost_ok P (w_mem w) pre frags (sent ++ now) []) by (apply ghost_send; [by rewrite app_nil_r, Hnow1|done]).
  assert (Hfit : (Z.to_nat (start - 4) + length (sf ++ clast) <= length b)%nat) by (rewrite length_app; lia).
  pose proof (ghost_cur P w locs frags sent unsent c start b (sf ++ clast) Hst Hb1 Hfit pre _ _ Hdt Hg1) as Hg2.
  rewrite <- Hb2', <- Hmem2 in Hg2.
  assert (Hrl : (ck_region c < length (w_mem w))%nat) by (by eapply lookup_lt_Some).
  assert (Hother : forall r, r <> ck_region c -> w_mem w2 !! r = w_mem w !! r) by (intros r Hrr; rewrite Hmem2; by apply list_lookup_insert_ne).
  assert (Hmc : w_mem w2 !! ck_region c = Some b2) by (rewrite Hmem2; by apply list_lookup_insert_eq).
  assert (Hc1' : cells (w_mem w2) pre cpre).
  { eapply cells_eq; [|exact Hc1]. intros l Hl. apply read1_eq, Hother. intros E. apply (ghost_locs_region P _ _ _ _ _ _ Hg) in Hl. by rewrite E in Hl. }
  destruct (handed_packet P S fss fs bytes bh Hh Hbh Hbt Hps Henc Hhome HhomeS Hcnt (w_mem w2) pre frags (sent ++ now) cpre Hg2)
    as (pieces & Hpc & Hpl & Hhd); [rewrite Hmem2, length_insert; done|done|].
  destruct (opened_prefix P fs bytes bh Hbh Hbt Hps Henc Hcnt _ _ _ _ _ _ _ _ b2 Hg2 Hop Hmc) as (Hx1 & Hx2 & Hx3 & Hx4).
  set (i := length frags) in *.
  exists w2, (p_moved P ++ (fg_moved <$> frags)), (S ++ sent ++ now), now, (fss ++ packet_fss fs pieces), (before i fs ++ [clast]), (before i bytes ++ sf ++ clast).
  split; [done|].
  assert (Hkmax : ck_count c <= kMaxPacketsPerChunk).
  { rewrite Hx4. unfold before. destruct (i =? 0)%nat; cbn; [lia|]. change kMaxPacketsPerChunk with 1022. lia. }
  split; [|split; [|split; [rewrite length_app; cbn; lia|split; [by intros []%app_nil|split; [done|]]]]].
  - split.
    + exists (Some (ck_region c, start)), true, requests, patched. split.
      * cbn [set_msgs w_dlg]. rewrite Hd2. cbn. rewrite Hdl. cbn. rewrite Hnow1. do 2 f_equal. rewrite length_app, length_fmap. unfold i. lia.
      * cbn [set_msgs w_mem]. rewrite Hflat, <- app_assoc, <- fmap_app. exact Hhd.
    + split; [apply Forall_forall; set_solver|]. cbn [set_msgs w_mem]. rewrite <- Hnow1, Forall_fmap in Hpa. rewrite Forall_forall in Hpa.
      apply Forall_forall. intros x Hx. destruct (Hpa x Hx) as [(m' & Hm' & Hs')|(y & Hy1 & Hy2)].
      * rewrite Hms in Hm'. apply list_elem_of_singleton in Hm' as ->. cbn in Hs'. congruence.
      * exists y. split; [|done]. rewrite (read1_eq _ (w_mem w)); [done|]. apply Hother. cbn. intros E. apply Hfresh. rewrite <- E, <- Hdt.
        apply elem_of_app. right. apply list_elem_of_fmap. exists x.1. split; [done|]. unfold detours. rewrite fmap_app, !elem_of_app. left. right. by apply list_elem_of_fmap_2.
    + by eexists.
  - split.
    + rewrite Hwr2. cbn [cur_region cur_begin cur_end write_ptr_]. rewrite !length_app in *. split_and!; try done; lia.
    + exists b2. split; [done|]. split; [lia|]. rewrite Hb2'. unfold buf_write. rewrite length_app.
      assert (Et : take (Z.to_nat (start - 4)) b = before i bytes).
      { rewrite <- Hx3. rewrite Hb2'. unfold buf_write. rewrite take_app_le by (rewrite length_take; lia). rewrite take_take. f_equal. lia. }
      rewrite Et, app_assoc. rewrite <- length_app. apply take_app_len.
    + lia.
    + by apply fe_snoc.
    + split.
      * unfold moved_regions. rewrite fmap_app, elem_of_app. intros [Hin|Hin].
        -- revert Hin. eapply opened_not_moved; done.
        -- rewrite <- list_fmap_compose in Hin. apply Hfresh. apply elem_of_app. by left.
      * rewrite fmap_app, fmap_app, elem_of_app. intros [Hin|Hin].
        -- destruct (sent_lt P S fss Hh HhomeS _ Hin) as [H1 H2]. destruct (opened_region _ _ _ _ Hop) as [[? _]|?]; [done|lia].
        -- apply Hfresh. rewrite <- Hdt. apply elem_of_app. right. unfold detours. by rewrite app_nil_r.
    + destruct Hop as (E1 & E2 & _). split; [|done]. rewrite E1, length_app, length_fmap. done.
    + split; [|by intros []%app_nil]. destruct i as [|i'] eqn:Ei; [by destruct Hop as (_ & _ & -> & _)|].
      destruct Hop as (_ & _ & _ & _ & _ & E). unfold last_continues. by rewrite E.
  - rewrite <- Hpc. eapply yields_packet; try done. exact (Forall2_length _ _ _ (hd_chunks _ _ _ _ _ Hh)).
Qed.

(** Patches that have been written are sent. *)
Lemma send_ok w id first reached inflated cur moved S now fss :
  base w id first reached inflated cur moved S now fss ->
  exists w', send_if_patched w = Some w' /\ base w' id first reached inflated cur moved S [] fss /\
    w_mem w' = w_mem w /\ w_wr w' = w_wr w.
Proof.
  intros Hb. destruct now as [|s now].
  { exists w. split_and!; try done. apply send_nothing. by destruct (base_patches _ _ _ _ _ _ _ _ _ _ Hb) as (-> & _). }
  destruct (base_patches _ _ _ _ _ _ _ _ _ _ Hb) as (Hpl & Hpr & Hall).
  pose proof Hb as [(start & fragm & requests & patched & Hd & Hh) [_ Hnz] Hm].
  assert (Hfront : front_is_patched w = Some true).
  { unfold front_is_patched. rewrite Hpl. cbn [fmap list_fmap].
    apply Forall_cons in Hpr as [Hpr _], Hnz as [(y & Hy & Hy0) _].
    destruct (is_patched_read _ _ Hpr) as (b & x & Hb1 & Hx & -> & _). rewrite Hy in Hx. injection Hx as <-. by rewrite bool_decide_eq_false_2. }
  unfold send_if_patched, SendPatches. rewrite Hfront. cbn [mbind option_bind].
  destruct (commit_patches w (id_ (w_dlg w)) (s :: now).*1 Hpl Hpr) as (reqs & now' & rest & Hs & Hfl & ->).
  destruct (Hall now' rest Hs) as [-> ->]. eexists. split; [done|]. split; [|done]. split; [|split; constructor|done].
  exists start, fragm, requests, (patched ++ reqs). split.
  - apply tw_ext; cbn; by rewrite ?Hd.
  - cbn [set_patches set_arbiter set_tw w_mem]. rewrite app_nil_r, flat_locs_app, Hfl. exact Hh.
Qed.

Lemma finish_ok P w locs content packets m :
  tw_inv P w locs -> rep w locs content -> based P packets -> w_msgs w = [m] -> size_field_ m = None ->
  exists w', FinishTracePacket w = Some w' /\ idle (p_id P) (p_first P) (packets ++ [content]) w'.
Proof.
  intros (frags & sent & unsent & c & start & Hst) Hrep Hba Hms Hmf.
  destruct (packet_done _ _ _ _ _ _ _ _ _ _ _ Hst Hrep Hba Hms Hmf)
    as (w2 & moved & S & now & fss & fs & bytes & Hfin & Hb & Hf & Hcnt & Hne & Hmax & Hy).
  unfold FinishTracePacket. rewrite Hfin. cbn [mbind option_bind]. set (w3 := set_msgs w2 _) in *.
  change (w_mem w2) with (w_mem w3) in Hf. change (w_wr w2) with (w_wr w3) in Hf.
  pose proof Hb as [(st & fragm & requests & patched & Hd & Hh) [Hn1 Hn2] Hm].
  assert (Ec : cur_chunk_ (w_dlg w3) = Some c) by (by rewrite Hd).
  assert (Ei : cur_chunk_packet_count_inflated_ (w_dlg w3) = false) by (by rewrite Hd).
  rewrite Ec, Ei. cbn [negb]. change kExtraRoomForInflatedPacket with 1.
  destruct (Z.ltb_spec (bytes_available w3) 1) as [Hav|Hav].
  - destruct (return_chunk w3 _ _ _ false c moved S now fss fs bytes (packets ++ [content]) Hb Hf) as (w4 & moved' & fss' & -> & Hb4 & Hy4 & Hav4 & _);
      [done|lia|exact Hy|]. cbn [mbind option_bind].
    destruct (send_ok _ _ _ _ _ _ _ _ _ _ Hb4) as (w5 & Hs5 & Hb5 & _ & Ew5). exists w5. split; [exact Hs5|].
    exists (ck_count c =? kMaxPacketsPerChunk), false, None, moved', S, fss'. split; [exact Hb5|].
    unfold bytes_available in *. rewrite Ew5. split_and!; try done. lia.
  - cbn [mbind option_bind]. set (w4 := set_flags _ _ _ _ _).
    assert (Hb4 : base w4 (p_id P) (p_first P) (ck_count c =? kMaxPacketsPerChunk) true (Some (IncrementPacketCount c)) moved S now fss).
    { split; [|done|done]. exists st, fragm, requests, patched. split; [|exact Hh]. unfold w4. change (w_dlg w3) with (w_dlg w2) in Hd. apply tw_ext; cbn; by rewrite ?Hd. }
    destruct (send_ok _ _ _ _ _ _ _ _ _ _ Hb4) as (w5 & Hs5 & Hb5 & Em5 & Ew5). exists w5. split; [exact Hs5|].
    exists (ck_count c =? kMaxPacketsPerChunk), true, (Some (IncrementPacketCount c)), moved, S, fss. split; [exact Hb5|].
    exists fs, bytes. unfold bytes_available in *. rewrite Em5, Ew5. change (w_mem w4) with (w_mem w3). change (w_wr w4) with (w_wr w3).
    change kMaxPacketsPerChunk with 1022 in *. split_and!; try done; try lia.
    + destruct Hf as [? ? ? ? ? ? ?]. by split.
    + cbn. rewrite Hcnt, Z.mod_small; lia.
Qed.

(** One packet. *)
Lemma write_packet_ok w id first packets calls (Hsup : supplied) :
  idle id first packets w -> session_valid (packet_calls first calls) ->
  exists w' content u, write_packet w calls = Some w' /\ idle id false (packets ++ [content]) w' /\
    calls_meaning (ATop []) (packet_calls first calls) = Some u /\ decodes content (acollapse u).
Proof.
  intros Hi (Hok & Hcost & [u Hu]). destruct (NewTracePacket_begin w id first packets Hsup Hi) as (w1 & Hroom & Hnew).
  destruct (begin_packet_ok w1 id first packets Hroom) as (P & w2 & Hbeg & Hba & <- & <- & Hst & Hrep & Hms).
  assert (Hok' : Forall (fun x => call_ok x.2) calls).
  { unfold packet_calls in Hok. destruct (p_first P); [by apply Forall_cons in Hok as [_ ?]|done]. }
  destruct (packet_body P w2 calls u Hsup) as (w3 & w4 & locs & content & n & Hrun & Hfin & Hi4 & Hrep4 & Hdec & m & Hm & Hmf); try done.
  { by exists [], [], [], (p_chunk P), (p_start P). }
  { destruct (ts_dlg _ _ _ _ _ _ _ _ Hst) as (? & ? & -> & _). done. }
  destruct (finish_ok _ w4 locs content packets m Hi4 Hrep4) as (w5 & Hend & Hidle); try done.
  exists w5, content, u. split; [|done]. unfold write_packet. rewrite Hnew, Hbeg. cbn [mbind option_bind].
  destruct (first_field w2) as [w2'|]; [|done]. cbn [mbind option_bind] in *. rewrite Hrun. cbn [mbind option_bind]. rewrite Hfin. done.
Qed.

Lemma flush_ok w id first packets :
  idle id first packets w -> exists w', Flush w = Some w' /\ idle id first packets w' /\ cur_chunk_ (w_dlg w') = None.
Proof.
  intros (reached & inflated & cur & moved & S & fss & Hb & Hcur).
  pose proof Hb as [(start & fragm & requests & patched & Hd & Hh) _ (m & Hm & Hfin)].
  unfold Flush. rewrite Hm. cbn [lookup list_lookup mbind option_bind]. rewrite Hfin, finalize_nothing by (by rewrite Hd). cbn [mbind option_bind].
  assert (Hret : exists w2 moved' fss' reached', (if bool_decide (is_Some (cur_chunk_ (w_dlg w))) then ReturnCompletedChunk w
      else if bool_decide (patch_list_ (w_dlg w) = []) || drop_packets_ (w_dlg w) then Some w else None) = Some w2 /\
    base w2 id first reached' false None moved' S [] fss' /\ yields moved' fss' [] packets).
  { destruct cur as [c|].
    - destruct Hcur as (fs & bytes & Hf & -> & Hav & Hcnt & Hne & _ & _ & Hy). rewrite bool_decide_eq_true_2 by (by rewrite Hd).
      destruct (return_chunk w id first reached true c moved S [] fss fs bytes packets Hb Hf) as (w2 & moved' & fss' & Hr & Hb2 & Hy2 & _); try done.
      by exists w2, moved', fss', reached.
    - destruct Hcur as (_ & -> & Hy). rewrite bool_decide_eq_false_2 by (rewrite Hd; by intros [? ?]). 
      rewrite bool_decide_eq_true_2 by (by rewrite Hd). by exists w, moved, fss, reached. }
  destruct Hret as (w2 & moved' & fss' & reached' & -> & Hb2 & Hy2). cbn [mbind option_bind]. eexists. split; [done|].
  pose proof Hb2 as [(? & ? & ? & ? & Hd2 & ?) ? ?]. split; [|cbn; by rewrite Hd2].
  exists reached', false, None, moved', S, fss'. split; [|done]. split; try done. do 4 eexists. split; [exact Hd2|done].
Qed.

Lemma new_ok id garbage : id <> 0 -> length garbage = 1024%nat ->
  exists w, TraceWriterImpl_new id garbage = Some w /\ idle id true [] w.
Proof.
  intros Hid Hg. unfold TraceWriterImpl_new. rewrite (proj2 (Z.eqb_neq _ _)), (proj2 (Nat.eqb_eq _ _)) by done. cbn [negb andb]. eexists. split; [done|].
  exists false, false, None, [], [], []. split; [|split; [done|split; [done|by exists []]]]. split; [|split; constructor|by eexists].
  exists None, false, 0%nat, []. split; [done|]. split; try done; constructor.
Qed.
End Packets.

(** ** Reading back *)

Lemma patches_for_flat reqs id :
  patches_for reqs id = (fun e : Z * Z * list Z => (e.1.2, e.2)) <$> filter (fun e : Z * Z * list Z => e.1.1 = id) (flat reqs).
Proof.
  unfold patches_for. induction reqs as [|r reqs IH]; [done|]. unfold flat in *. cbn [fmap list_fmap concat]. rewrite filter_app, fmap_app, <- IH.
  unfold req_entries. destruct (decide (tp_chunk_id r = id)) as [E|E].
  - rewrite filter_cons_True by done. cbn [fmap list_fmap concat]. f_equal. induction (tp_patches r) as [|[o l] ps IHp]; [done|].
    cbn [fmap list_fmap]. rewrite filter_cons_True by done. cbn. by rewrite <- IHp.
  - rewrite filter_cons_False by done. assert (F : filter (fun e : Z * Z * list Z => e.1.1 = id) ((fun x => (tp_chunk_id r, x.1, x.2)) <$> tp_patches r) = []).
    { induction (tp_patches r) as [|[o l] ps IHp]; [done|]. cbn [fmap list_fmap]. by rewrite filter_cons_False. }
    by rewrite F.
Qed.

Lemma filter_sent_entry (S : list Sent) id :
  filter (fun e : Z * Z * list Z => e.1.1 = id) (sent_entry <$> S) = sent_entry <$> filter (fun s : Sent => pt_chunk_id s.1.1 = id) S.
Proof.
  induction S as [|s S IH]; [done|]. cbn [fmap list_fmap]. destruct (decide (pt_chunk_id s.1.1 = id)).
  - rewrite !filter_cons_True by done. cbn [fmap list_fmap]. by rewrite IH.
  - rewrite !filter_cons_False by done. done.
Qed.

Definition patch_of (s : Sent) : Z * list Z := (pt_offset s.1.1, s.2).

(** Applying the patches of a region reads every octet where it was moved to. *)
Lemma fold_patches mem r payload (S : list Sent) :
  mem !! r = Some payload ->
  Forall (fun s : Sent => mem !! dt_region s.1 = Some s.2 /\ length s.2 = 4%nat /\
    (s.1.2 = r -> 0 <= pt_offset s.1.1 /\ pt_offset s.1.1 + 4 <= Z.of_nat (length payload))) S ->
  let res := fold_left apply_patch (patch_of <$> filter (fun s : Sent => s.1.2 = r) S) payload in
  length res = length payload /\ forall i, (i < length payload)%nat -> res !! i = read1 mem (redirect S.*1 (r, Z.of_nat i)).
Proof.
  intros Hr HS. cbn zeta. induction S as [|s S IH] using rev_ind.
  { cbn. split; [done|]. intros i Hi. by rewrite (read1_at _ _ payload). }
  rewrite Forall_app, Forall_singleton in HS. destruct HS as [HS (Hs1 & Hs2 & Hs3)]. destruct (IH HS) as [IHl IHi].
  rewrite filter_app, fmap_app, fold_left_app. set (res := fold_left apply_patch _ payload) in *.
  assert (E : forall i, redirect (S ++ [s]).*1 (r, Z.of_nat i) = detour s.1 (r, Z.of_nat i) (redirect S.*1 (r, Z.of_nat i)))
    by (intros i; rewrite fmap_app; cbn; by rewrite redirect_snoc).
  destruct (decide (s.1.2 = r)) as [Er|Er].
  - rewrite filter_cons_True by done. cbn [filter list_filter fmap list_fmap fold_left]. destruct (Hs3 Er) as [Ho1 Ho2].
    unfold apply_patch, patch_of. cbn [fst snd]. rewrite Hs2, IHl, !(proj2 (Z.leb_le _ _)) by lia. cbn [andb].
    split; [rewrite buf_write_length; [done|lia]|]. intros i Hi. rewrite E. unfold detour, covers. cbn [fst snd].
    unfold buf_write. destruct (decide _) as [Hc|Hc].
    + rewrite lookup_app_r by (rewrite length_take; lia). rewrite length_take, Nat.min_l by lia. rewrite lookup_app_l by lia.
      replace (Z.of_nat i - pt_offset s.1.1) with (Z.of_nat (i - Z.to_nat (pt_offset s.1.1))) by lia. by rewrite (read1_at _ _ s.2).
    + rewrite <- IHi by done. assert (Hd : (i < Z.to_nat (pt_offset s.1.1) \/ Z.to_nat (pt_offset s.1.1) + 4 <= i)%nat) by lia. destruct Hd.
      * rewrite lookup_app_l by (rewrite length_take; lia). by rewrite lookup_take_lt.
      * rewrite app_assoc, lookup_app_r by (rewrite length_app, length_take; lia). rewrite length_app, length_take, lookup_drop. f_equal. lia.
  - rewrite filter_cons_False by done. cbn [filter list_filter fmap list_fmap fold_left]. split; [done|]. intros i Hi. rewrite E. unfold detour, covers.
    rewrite decide_False; [by apply IHi|]. cbn. intros [? _]. congruence.
Qed.

Lemma filter_ext_elem {A} (Q R : A -> Prop) `{!forall x, Decision (Q x), !forall x, Decision (R x)} (l : list A) :
  (forall x, x ∈ l -> Q x <-> R x) -> filter Q l = filter R l.
Proof.
  induction l as [|x l IH]; intros Hq; [done|]. assert (Hx := Hq x ltac:(set_solver)). destruct (decide (Q x)).
  - rewrite !filter_cons_True by tauto. rewrite IH; [done|]. intros y Hy. apply Hq. set_solver.
  - rewrite !filter_cons_False by tauto. apply IH. intros y Hy. apply Hq. set_solver.
Qed.

(** The ids tell the chunks apart. *)
Lemma filter_by_region mem moved patches S fss j c payload :
  handed mem moved patches S fss -> Z.of_nat (length moved) <= 2 ^ 32 -> moved !! j = Some (c, payload) ->
  filter (fun s : Sent => pt_chunk_id s.1.1 = ck_id c) S = filter (fun s : Sent => s.1.2 = ck_region c) S.
Proof.
  intros Hh Hl Hj. pose proof (hd_sent _ _ _ _ _ Hh) as Hs. apply filter_ext_elem. rewrite Forall_forall in Hs. 
  intros s Hin. destruct (Hs s Hin) as (_ & _ & cp & Hcp & E1 & E2 & _). apply list_elem_of_lookup in Hcp as [k Hk].
  pose proof (hd_ids _ _ _ _ _ Hh k cp Hk) as Ik. pose proof (hd_ids _ _ _ _ _ Hh j _ Hj) as Ij. cbn in Ij.
  pose proof (lookup_lt_Some _ _ _ Hk). pose proof (lookup_lt_Some _ _ _ Hj).
  rewrite u32_id in Ik, Ij by (unfold_u; lia). rewrite <- E1, <- E2. split; intros E.
  - assert (k = j) as -> by lia. rewrite Hk in Hj. by injection Hj as ->.
  - assert (k = j) as ->; [|rewrite Hk in Hj; by injection Hj as ->].
    eapply NoDup_lookup; [exact (hd_regions _ _ _ _ _ Hh)|unfold moved_regions; by rewrite list_lookup_fmap, Hk|].
    unfold moved_regions. rewrite list_lookup_fmap, Hj. cbn. by rewrite E.
Qed.

Lemma handed_read mem moved reqs S fss j c payload fs :
  handed mem moved (flat reqs) S fss -> Z.of_nat (length moved) <= 2 ^ 32 -> moved !! j = Some (c, payload) -> fss !! j = Some fs ->
  chunk_fragments reqs (c, payload) = Some (tag_fragments (first_continues c) (last_continues c) fs).
Proof.
  intros Hh Hl Hj Hfs. destruct (Forall2_lookup_lr _ _ _ _ _ _ (hd_chunks _ _ _ _ _ Hh) Hj Hfs) as (Hm & Hcnt & bytes & Henc & Hbl & Hce).
  cbn [fst snd] in *. unfold chunk_fragments, patched_payload. cbn [fst snd].
  rewrite patches_for_flat, (hd_patches _ _ _ _ _ Hh), filter_sent_entry, <- list_fmap_compose.
  change ((fun e : Z * Z * list Z => (e.1.2, e.2)) ∘ sent_entry) with patch_of. rewrite (filter_by_region _ _ _ _ _ j c payload Hh Hl Hj).
  destruct (fold_patches mem (ck_region c) payload S Hm) as [Hrl Hri].
  { eapply Forall_impl; [exact (hd_sent _ _ _ _ _ Hh)|]. intros s (H1 & H2 & cp & Hcp & E1 & _ & Ho). split; [done|]. split; [done|]. intros E.
    apply list_elem_of_lookup in Hcp as [k Hk].
    assert (k = j) as ->; [|rewrite Hk in Hj; by injection Hj as ->]. eapply NoDup_lookup; [exact (hd_regions _ _ _ _ _ Hh)|unfold moved_regions; by rewrite list_lookup_fmap, Hk|].
    unfold moved_regions. rewrite list_lookup_fmap, Hj. cbn. congruence. }
  set (res := fold_left apply_patch _ payload) in *.
  assert (Hres : res = bytes ++ drop (length bytes) res).
  { rewrite <- (take_drop (length bytes) res) at 1. f_equal. apply list_eq. intros i. destruct (decide (i < length bytes)%nat) as [Hi|Hi].
    - rewrite lookup_take_lt, Hri by lia. destruct (lookup_lt_is_Some_2 bytes i Hi) as [x Hx]. rewrite Hx.
      apply (Forall2_lookup_lr _ _ _ i _ _ Hce); [|done]. by rewrite list_lookup_fmap, lookup_range_locs.
    - rewrite lookup_take_ge by lia. symmetry. apply lookup_ge_None. lia. }
  rewrite Hres, <- Hcnt, Nat2Z.id, (read_fragments_ok fs bytes) by done. done.
Qed.

Lemma handed_read_back mem moved reqs S fss packets :
  handed mem moved (flat reqs) S fss -> Z.of_nat (length moved) <= 2 ^ 32 -> yields moved fss [] packets ->
  read_back moved reqs = Some (nonempty packets).
Proof.
  intros Hh Hl (all & Hj & Hn). unfold read_back.
  assert (E : mapM (chunk_fragments reqs) moved =
    Some (zip_with (fun cp fs => tag_fragments (first_continues cp.1) (last_continues cp.1) fs) moved fss)).
  { apply mapM_Some. pose proof (Forall2_length _ _ _ (hd_chunks _ _ _ _ _ Hh)) as Hlen. apply Forall2_same_length_lookup.
    split; [rewrite length_zip_with; lia|]. intros i [c payload] y Hc Hy. rewrite lookup_zip_with, Hc in Hy. cbn in Hy.
    destruct (fss !! i) as [fs|] eqn:Ef; [|done]. injection Hy as <-. by eapply handed_read. }
  rewrite E. cbn [mbind option_bind]. unfold joined, fragments_of in Hj. rewrite app_nil_r in Hj. rewrite Hj. cbn [fst]. f_equal. exact Hn.
Qed.

(** ** Any use of a writer *)

Section Run.
Context `{Environment}.

(** The packets of a sequence of operations: the first one has a field more. *)
Fixpoint ops_packets (first : bool) (ops : list WriterOp) : list (list (nat * Call)) :=
  match ops with
  | [] => []
  | WritePacket calls :: ops => packet_calls first calls :: ops_packets false ops
  | WriterFlush :: ops => ops_packets first ops
  end.

(** The octets are those of a message with exactly the fields the calls append. *)
Definition written_by (octets : list Z) (calls : list (nat * Call)) : Prop :=
  exists u, calls_meaning (ATop []) calls = Some u /\ decodes octets (acollapse u).

Lemma run_writer_ops_ok ops (Hsup : supplied) : forall w id first packets,
  idle id first packets w -> Forall session_valid (ops_packets first ops) ->
  exists w' new first', run_ops w ops = Some w' /\ idle id first' (packets ++ new) w' /\ Forall2 written_by new (ops_packets first ops).
Proof.
  induction ops as [|[calls|] ops IH]; intros w id first packets Hi Hv; cbn [run_ops run_op ops_packets] in *.
  - exists w, [], first. rewrite app_nil_r. split_and!; try done.
  - apply Forall_cons in Hv as [Hv1 Hv2]. destruct (write_packet_ok w id first packets calls Hsup Hi Hv1) as (w1 & content & u & -> & Hi1 & Hu & Hdec).
    cbn [mbind option_bind]. destruct (IH w1 id false (packets ++ [content]) Hi1 Hv2) as (w' & new & first' & Hrun & Hi' & Hall).
    exists w', (content :: new), first'. split; [done|]. rewrite <- app_assoc in Hi'. split; [done|]. constructor; [by exists u|done].
  - destruct (flush_ok w id first packets Hi) as (w1 & -> & Hi1 & _). cbn [mbind option_bind]. by apply IH.
Qed.

(** C26: Packets written with a trace writer come back. As long as the arbiter has
    chunks with room for twelve octets, whatever was in them before, and for any
    sequence of packets and flushes - packets may have messages nested to any depth,
    may go over any number of chunks, may need any number of patches and may share
    chunks with others - no [DCHECK] fails and nothing is written outside the current
    chunk, and when the writer is flushed the chunks that it has handed over, each
    as it was at that moment, with the patches that it has sent hold exactly the
    packets: reading them gives, in order, for every packet that is not empty the
    octets of a message with exactly the fields that were appended. (The ids of the
    chunks tell them apart as long as there are at most 2^32.) *)
Theorem trace_writer_roundtrip id garbage ops :
  supplied -> id <> 0 -> length garbage = 1024%nat -> Forall session_valid (ops_packets true ops) ->
  exists w0 w1 w2, TraceWriterImpl_new id garbage = Some w0 /\ run_ops w0 ops = Some w1 /\ Flush w1 = Some w2 /\
    (Z.of_nat (length (chunks_to_move (w_dlg w2))) <= 2 ^ 32 ->
     exists octets, read_back (chunks_to_move (w_dlg w2)) (chunks_to_patch (w_dlg w2)) = Some (nonempty octets) /\
       Forall2 written_by octets (ops_packets true ops)).
Proof.
  intros Hsup Hid Hg Hv. destruct (new_ok id garbage Hid Hg) as (w0 & H0 & Hi0).
  destruct (run_writer_ops_ok ops Hsup w0 id true [] Hi0 Hv) as (w1 & new & first' & H1 & Hi1 & Hall).
  destruct (flush_ok w1 id first' _ Hi1) as (w2 & H2 & (reached & inflated & cur & moved & S & fss & Hb & Hcur) & Hc).
  exists w0, w1, w2. split_and!; try done. destruct Hb as [(? & ? & ? & patched & Hd & Hh) _ _]. rewrite Hd in Hc |- *. cbn in Hc. subst cur.
  cbn [chunks_to_move chunks_to_patch]. intros Hl. exists new. split; [|done]. destruct Hcur as (_ & _ & Hy). rewrite app_nil_r in Hh.
  by eapply handed_read_back.
Qed.
End Run.

(** Chunks of sixteen octets and more, with something in them. *)
Definition example_env : Environment := {| answers := fun n => Some (replicate (16 + n mod 3) 0xAA) |}.

Definition example_ops : list WriterOp :=
  [WritePacket [(0%nat, CField (WVarInt 1 300)); (0%nat, CBegin 2); (1%nat, CTiny 3 7); (1%nat, CBegin 4);
     (2%nat, CField (WBytes 5 (replicate 20 97))); (0%nat, CField (WFixed32 6 1))];
   WritePacket [(0%nat, CTiny 3 7)]; WriterFlush; WritePacket []; WritePacket [(0%nat, CBegin 2); (1%nat, CBegin 3)]].

Definition example_run : option TWorld :=
  w ← TraceWriterImpl_new 1 (replicate 1024 0); w ← run_ops (H := example_env) w example_ops; Flush w.

Lemma trace_writer_roundtrip_witness :
  @supplied example_env /\ Forall session_valid (ops_packets true example_ops) /\
  exists w octets, example_run = Some w /\ read_back (chunks_to_move (w_dlg w)) (chunks_to_patch (w_dlg w)) = Some (nonempty octets) /\
    Forall2 written_by octets (ops_packets true example_ops).
Proof.
  assert (Hs : @supplied example_env).
  { intros n. exists (replicate (16 + n mod 3) 0xAA). split; [done|]. rewrite length_replicate. pose proof (Nat.mod_upper_bound n 3). lia. }
  assert (Hv : Forall session_valid (ops_packets true example_ops)) by (apply (bool_decide_unpack _); vm_compute; exact I).
  split; [exact Hs|]. split; [exact Hv|].
  destruct (trace_writer_roundtrip (H := example_env) 1 (replicate 1024 0) example_ops Hs) as (w0 & w1 & w2 & H0 & H1 & H2 & Hread);
    [done|apply length_replicate|exact Hv|].
  assert (Hrun : example_run = Some w2) by (unfold example_run; rewrite H0; cbn [mbind option_bind]; rewrite H1; exact H2).
  assert (Hl : (length (chunks_to_move (w_dlg w2)) <= 100)%nat).
  { assert (E : match example_run with Some w => (length (chunks_to_move (w_dlg w)) <=? 100)%nat | None => false end = true) by (vm_compute; reflexivity).
    rewrite Hrun in E. by apply Nat.leb_le in E. }
  destruct Hread as (octets & Ho & Hall); [lia|]. exists w2, octets. split; [exact Hrun|]. split; [exact Ho|exact Hall].
Defined.
