(* ===== verification/PacketStreamValidator.v ===== *)
(** * Validation of packets from producers

    Models [src/tracing/service/packet_stream_validator.cc]: the service scans
    every packet a producer has written, slice by slice, before it adds its own
    trusted fields to it. The reserved field ids are those that
    [protos/dejaview/trace/trace_packet.proto] gives the trusted fields. *)

From S2P Require Import Prelude ProtoUtils ProtoDecoder.

(** ** The state machine *)

Inductive State :=
  | kFieldPreamble | kVarIntValue | kLenDelimitedLen
  | kWroteReservedField | kUnknownFieldType | kMessageTooBig | kInvalidVarInt.

#[export] Instance State_eq_dec : EqDecision State.
Proof. solve_decision. Defined.

Definition kReservedFieldIds : list Z := [3; 10; 33; 35; 50; 36; 79; 98].

Record ProtoFieldParserFSM := mkFSM { state_ : State; varint_ : Z; varint_shift_ : Z }.

Definition fsm_init : ProtoFieldParserFSM := mkFSM kFieldPreamble 0 0.

(** The [switch] of [Push] on a complete varint: the new state and the number
    of octets to skip. *)
Definition on_varint (state : State) (varint : Z) : State * Z :=
  match state with
  | kFieldPreamble =>
      let field_type := varint .& 7 in
      let field_id := u32 (varint >> 3) in
      if bool_decide (field_id ∈ kReservedFieldIds) then (kWroteReservedField, 0)
      else if field_type =? wire_type_num kVarInt then (kVarIntValue, 0)
      else if field_type =? wire_type_num kFixed32 then (kFieldPreamble, 4)
      else if field_type =? wire_type_num kFixed64 then (kFieldPreamble, 8)
      else if field_type =? wire_type_num kLengthDelimited then (kLenDelimitedLen, 0)
      else (kUnknownFieldType, 0)
  | kVarIntValue => (kFieldPreamble, 0)
  | kLenDelimitedLen =>
      if kMaxMessageLength <? varint then (kMessageTooBig, 0) else (kFieldPreamble, varint)
  | kWroteReservedField | kUnknownFieldType | kMessageTooBig | kInvalidVarInt => (state, 0)
  end.

Definition Push (p : ProtoFieldParserFSM) (octet : Z) : ProtoFieldParserFSM * Z :=
  let varint := varint_ p .| u64 ((octet .& 0x7F) << varint_shift_ p) in
  if negb ((octet .& 0x80) =? 0) then
    let varint_shift := varint_shift_ p + 7 in
    if 64 <=? varint_shift then (mkFSM kInvalidVarInt varint 0, 0)
    else (mkFSM (state_ p) varint varint_shift, 0)
  else
    let '(state, skip) := on_varint (state_ p) varint in
    (mkFSM state 0 0, skip).

Definition fsm_valid (p : ProtoFieldParserFSM) : bool :=
  bool_decide (state_ p = kFieldPreamble) && (varint_shift_ p =? 0).

(** The loop over one slice. Every round moves [i] forward, so the size of the
    slice bounds the loop. *)
Fixpoint validate_slice (fuel : nat) (slice : list Z) (i : nat) (parser : ProtoFieldParserFSM) (skip_bytes : Z) :
    option (ProtoFieldParserFSM * Z) :=
  if (i <? length slice)%nat then
    match fuel with
    | O => None
    | S fuel =>
        let skip_bytes_cur_slice := Z.min skip_bytes (Z.of_nat (length slice - i)) in
        if 0 <? skip_bytes_cur_slice then
          validate_slice fuel slice (i + Z.to_nat skip_bytes_cur_slice) parser (skip_bytes - skip_bytes_cur_slice)
        else
          octet ← slice !! i;
          let '(parser, skip_bytes) := Push parser octet in
          validate_slice fuel slice (S i) parser skip_bytes
    end
  else Some (parser, skip_bytes).

Fixpoint validate_slices (slices : list (list Z)) (parser : ProtoFieldParserFSM) (skip_bytes : Z) :
    option (ProtoFieldParserFSM * Z) :=
  match slices with
  | [] => Some (parser, skip_bytes)
  | slice :: slices =>
      '(parser, skip_bytes) ← validate_slice (length slice) slice 0 parser skip_bytes;
      validate_slices slices parser skip_bytes
  end.

Definition Validate (slices : list (list Z)) : option bool :=
  '(parser, skip_bytes) ← validate_slices slices fsm_init 0;
  Some ((skip_bytes =? 0) && fsm_valid parser).

(** ** A packet as a whole *)

(** What a valid packet is, by recursion over its fields; [fuel] bounds the
    number of fields. *)
Fixpoint well_formed (fuel : nat) (l : list Z) : bool :=
  match l, fuel with
  | [], _ => true
  | _, O => false
  | _, S fuel =>
      let '(n, tag) := ParseVarInt l in
      if decide (n = 0%nat) then false
      else if bool_decide (u32 (tag >> 3) ∈ kReservedFieldIds) then false
      else
        let body := drop n l in
        match wire_type_of_num (tag .& 7) with
        | Some kVarInt =>
            let '(m, _) := ParseVarInt body in
            if decide (m = 0%nat) then false else well_formed fuel (drop m body)
        | Some kFixed32 => if (length body <? 4)%nat then false else well_formed fuel (drop 4 body)
        | Some kFixed64 => if (length body <? 8)%nat then false else well_formed fuel (drop 8 body)
        | Some kLengthDelimited =>
            let '(m, len) := ParseVarInt body in
            if decide (m = 0%nat) then false
            else if kMaxMessageLength <? len then false
            else if Z.of_nat (length (drop m body)) <? len then false
            else well_formed fuel (drop (Z.to_nat len) (drop m body))
        | None => false
        end
  end.

(** ** The machine over a whole packet *)

(** The same machine, octet by octet. *)
Fixpoint run (p : ProtoFieldParserFSM) (skip : Z) (l : list Z) : ProtoFieldParserFSM * Z :=
  match l with
  | [] => (p, skip)
  | octet :: l =>
      if 0 <? skip then run p (skip - 1) l
      else let '(p, skip) := Push p octet in run p skip l
  end.

Lemma run_app l k p s : run p s (l ++ k) = (let '(p, s) := run p s l in run p s k).
Proof.
  revert p s. induction l as [|x l IH]; intros p s; [done|]. cbn [app run].
  destruct (0 <? s); [apply IH|]. destruct (Push p x). apply IH.
Qed.

Lemma run_skip n p s l :
  Z.of_nat n <= s -> (n <= length l)%nat -> run p s l = run p (s - Z.of_nat n) (drop n l).
Proof.
  revert s l. induction n as [|n IH]; intros s l Hs Hl.
  { by rewrite Z.sub_0_r. }
  destruct l as [|x l]; [cbn in Hl; lia|]. cbn [run drop]. rewrite (proj2 (Z.ltb_lt _ _)) by lia.
  cbn [length] in Hl. rewrite IH by lia. f_equal. lia.
Qed.

Lemma validate_slice_run slice : forall fuel i p s,
  (length slice - i <= fuel)%nat -> (i <= length slice)%nat ->
  validate_slice fuel slice i p s = Some (run p s (drop i slice)).
Proof.
  induction fuel as [|fuel IH]; intros i p s Hf Hi; cbn [validate_slice].
  { rewrite (proj2 (Nat.ltb_ge _ _)) by lia. by rewrite drop_ge by lia. }
  destruct (Nat.ltb_spec i (length slice)) as [Hlt|]; [|by rewrite drop_ge by lia].
  destruct (Z.ltb_spec 0 (Z.min s (Z.of_nat (length slice - i)))) as [Hk|Hk].
  - rewrite IH by lia. rewrite (run_skip (Z.to_nat (Z.min s (Z.of_nat (length slice - i)))) p s) by (rewrite ?length_drop; lia).
    rewrite drop_drop. do 2 f_equal. lia.
  - destruct (lookup_lt_is_Some_2 slice i Hlt) as [x Hx]. rewrite Hx. cbn [mbind option_bind].
    rewrite (drop_S slice x i Hx). cbn [run]. rewrite (proj2 (Z.ltb_ge _ _)) by lia.
    destruct (Push p x) as [p' s']. apply IH; lia.
Qed.

Lemma validate_slices_run slices : forall p s, validate_slices slices p s = Some (run p s (concat slices)).
Proof.
  induction slices as [|slice slices IH]; intros p s; [done|]. cbn [validate_slices concat].
  rewrite validate_slice_run by lia. rewrite run_app. cbn [mbind option_bind]. rewrite drop_0.
  destruct (run p s slice). apply IH.
Qed.

(** The packet is valid. *)
Definition accepts (r : ProtoFieldParserFSM * Z) : bool := (r.2 =? 0) && fsm_valid r.1.

Lemma Validate_run slices : Validate slices = Some (accepts (run fsm_init 0 (concat slices))).
Proof. unfold Validate. rewrite validate_slices_run. cbn [mbind option_bind]. by destruct (run _ _ _). Qed.

(** Errors are persistent. *)
Definition is_error (st : State) : bool :=
  match st with kFieldPreamble | kVarIntValue | kLenDelimitedLen => false | _ => true end.

Lemma run_error l : forall p, is_error (state_ p) = true -> accepts (run p 0 l) = false.
Proof.
  induction l as [|x l IH]; intros p Hp; cbn [run].
  - unfold accepts, fsm_valid. cbn. by destruct (state_ p).
  - cbn [Z.ltb Z.compare]. unfold Push. destruct (negb _); [destruct (64 <=? _); by apply IH|].
    assert (E : forall v, on_varint (state_ p) v = (state_ p, 0)) by (intros v; by destruct (state_ p)).
    rewrite E. by apply IH.
Qed.

(** The machine reads a varint as [ParseVarInt] does. *)
Lemma run_varint st l : forall acc shift pos n v,
  ParseVarInt_loop shift acc pos l = (n, v) -> 0 <= shift < 64 ->
  (st <> kFieldPreamble \/ shift <> 0 \/ l <> []) ->
  (n = 0%nat /\ accepts (run (mkFSM st acc shift) 0 l) = false) \/
  (pos < n <= pos + length l)%nat /\
    run (mkFSM st acc shift) 0 l = run (mkFSM (on_varint st v).1 0 0) (on_varint st v).2 (drop (n - pos) l).
Proof.
  induction l as [|x l IH]; intros acc shift pos n v E Hs Hne; cbn [ParseVarInt_loop run] in *.
  - injection E as <- <-. left. split; [done|]. unfold accepts, fsm_valid. cbn.
    destruct (bool_decide_reflect (st = kFieldPreamble)); [|done]. rewrite (proj2 (Z.eqb_neq _ _)); [done|].
    destruct Hne as [?|[?|?]]; [done..|]. done.
  - rewrite (proj2 (Z.ltb_lt _ _)) in E by lia. cbn [Z.ltb Z.compare]. unfold Push. cbn [varint_ varint_shift_ state_].
    set (acc' := acc .| _) in *. destruct ((x .& 0x80) =? 0); cbn [negb].
    + injection E as <- <-. right. split; [cbn; lia|].
      replace (S pos - pos)%nat with 1%nat by lia. destruct (on_varint st acc'). done.
    + destruct (Z.leb_spec 64 (shift + 7)).
      * left. assert (E0 : ParseVarInt_loop (shift + 7) acc' (S pos) l = (0%nat, 0)).
        { destruct l; [done|]. cbn [ParseVarInt_loop]. by rewrite (proj2 (Z.ltb_ge _ _)) by lia. }
        rewrite E in E0. injection E0 as -> _. split; [done|]. by apply run_error.
      * destruct (IH acc' (shift + 7) (S pos) n v E ltac:(lia) ltac:(lia)) as [?|[Hn Hr]]; [by left|]. right.
        split; [cbn; lia|]. rewrite Hr. replace (n - pos)%nat with (S (n - S pos)) by lia. done.
Qed.

Lemma run_ParseVarInt st l n v :
  ParseVarInt l = (n, v) -> (st <> kFieldPreamble \/ l <> []) ->
  (n = 0%nat /\ accepts (run (mkFSM st 0 0) 0 l) = false) \/
  (0 < n <= length l)%nat /\
    run (mkFSM st 0 0) 0 l = run (mkFSM (on_varint st v).1 0 0) (on_varint st v).2 (drop n l).
Proof.
  intros E Hne. destruct (run_varint st l 0 0 0 n v E) as [?|[Hn Hr]]; [lia|naive_solver|by left|].
  right. split; [lia|]. by rewrite Hr, Nat.sub_0_r.
Qed.

(** Skipping a payload. *)
Lemma run_skip_payload n p l :
  accepts (run p (Z.of_nat n) l) = if (length l <? n)%nat then false else accepts (run p 0 (drop n l)).
Proof.
  destruct (Nat.ltb_spec (length l) n).
  - rewrite (run_skip (length l)) by lia. rewrite drop_all. cbn [run]. unfold accepts. cbn.
    by rewrite (proj2 (Z.eqb_neq _ _)) by lia.
  - rewrite (run_skip n) by lia. by rewrite Z.sub_diag.
Qed.

Lemma varint_u64 l n v : bytes_ok l -> ParseVarInt l = (n, v) -> 0 <= v.
Proof.
  intros Hl E. rewrite ParseVarInt_eq in E by done. destruct (varint_spec _) as [[m x]|]; injection E as <- <-; [|done].
  apply u64_range.
Qed.

(** The machine accepts exactly the well-formed packets. *)
Lemma run_well_formed fuel : forall l,
  bytes_ok l -> (length l <= fuel)%nat -> accepts (run fsm_init 0 l) = well_formed fuel l.
Proof.
  induction fuel as [|fuel IH]; intros l Hb Hl.
  { destruct l; [done|cbn in Hl; lia]. }
  destruct l as [|x l']; [done|]. set (l := x :: l') in *.
  assert (Hcons : well_formed (S fuel) l = ltac:(let t := eval cbn [well_formed] in (well_formed (S fuel) (x :: l')) in exact t)) by done.
  rewrite Hcons. fold l. clear Hcons.
  destruct (ParseVarInt l) as [n tag] eqn:E. unfold fsm_init.
  destruct (run_ParseVarInt kFieldPreamble l n tag E ltac:(by right)) as [[-> ->]|[Hn Hr]]; [done|].
  rewrite decide_False by lia. rewrite Hr. cbn [on_varint].
  case_bool_decide; [by apply run_error|]. pose proof (bytes_ok_drop n l Hb) as Hbd.
  assert (Hld : (length (drop n l) <= fuel)%nat) by (rewrite length_drop; lia).
  set (body := drop n l) in *. clearbody body. clear E Hr Hn Hb Hl.
  unfold wire_type_of_num. cbn [wire_type_num]. generalize (tag .& 7). intros t.
  destruct (Z.eqb_spec t 0) as [->|H0]; cbn [fst snd].
  { destruct (ParseVarInt body) as [m v] eqn:Em.
    destruct (run_ParseVarInt kVarIntValue body m v Em ltac:(by left)) as [[-> ->]|[Hm Hr]]; [done|].
    rewrite decide_False by lia. rewrite Hr. cbn [on_varint fst snd].
    apply IH; [by apply bytes_ok_drop|rewrite length_drop; lia]. }
  destruct (Z.eqb_spec t 5) as [->|H5]; [|destruct (Z.eqb_spec t 1) as [->|H1]; [|destruct (Z.eqb_spec t 2) as [->|H2]]]; cbn [fst snd].
  - change 4 with (Z.of_nat 4). cbn [Z.eqb Pos.eqb]. rewrite run_skip_payload. destruct (Nat.ltb_spec (length body) 4); [done|].
    apply IH; [by apply bytes_ok_drop|rewrite length_drop; lia].
  - change 8 with (Z.of_nat 8). rewrite run_skip_payload. destruct (Nat.ltb_spec (length body) 8); [done|].
    apply IH; [by apply bytes_ok_drop|rewrite length_drop; lia].
  - cbn [Z.eqb Pos.eqb]. destruct (ParseVarInt body) as [m v] eqn:Em.
    destruct (run_ParseVarInt kLenDelimitedLen body m v Em ltac:(by left)) as [[-> ->]|[Hm Hr]]; [done|].
    rewrite decide_False by lia. rewrite Hr. cbn [on_varint].
    destruct (Z.ltb_spec kMaxMessageLength v); cbn [fst snd]; [by apply run_error|].
    pose proof (varint_u64 body m v Hbd Em). rewrite <- (Z2Nat.id v) at 1 by done. rewrite run_skip_payload.
    destruct (Nat.ltb_spec (length (drop m body)) (Z.to_nat v)), (Z.ltb_spec (Z.of_nat (length (drop m body))) v); try (done || lia).
    apply IH; [by apply bytes_ok_drop, bytes_ok_drop|rewrite !length_drop; lia].
  - by apply run_error.
Qed.

(** ** Validation and decoding *)

Definition not_reserved (f : Field) : Prop := id_ f ∉ kReservedFieldIds.

(** A field that the decoder finds in a well-formed packet is not reserved, and
    what follows it is well formed. *)
Lemma well_formed_field fuel mem cur :
  bytes_ok mem -> (length mem - cur <= fuel)%nat -> well_formed fuel (drop cur mem) = true ->
  parse_res (ParseOneField mem cur) <> kAbort ->
  (parse_res (ParseOneField mem cur) = kOk -> not_reserved (field (ParseOneField mem cur))) /\
  well_formed (fuel - 1) (drop (next (ParseOneField mem cur)) mem) = true.
Proof.
  intros Hm Hf Hw. unfold ParseOneField. destruct (drop cur mem) as [|b tl] eqn:Ed; [done|].
  assert (Hb : 0 <= b).
  { pose proof (bytes_ok_drop cur mem Hm) as Hd. rewrite Ed in Hd. apply Forall_cons in Hd as [Hd _]. unfold_u; lia. }
  destruct fuel as [|fuel]; [done|]. rewrite Nat.sub_1_r. cbn [Nat.pred].
  rewrite preamble_fastpath by done. rewrite <- Ed in *.
  assert (Hw' : well_formed (S fuel) (drop cur mem) = ltac:(let t := eval cbn [well_formed] in (well_formed (S fuel) (b :: tl)) in exact t))
    by (by rewrite Ed).
  rewrite Hw' in Hw. rewrite <- Ed in Hw. clear Hw'.
  destruct (ParseVarInt (drop cur mem)) as [n tag] eqn:E. destruct (decide (n = 0%nat)) as [->|Hn]; [done|].
  case_bool_decide as Hres; [done|].
  destruct ((_ =? 0) || _) eqn:Eab; [done|]. apply orb_false_iff in Eab as [_ Hpos].
  assert (Ht : u8 (tag .& 7) = tag .& 7) by (rewrite land_7; unfold u8; apply Z.mod_small; pose proof (Z.mod_pos_bound tag 8); lia).
  rewrite Ht. clear Ht Hpos.
  assert (Hgo : forall np iv sz, ParseFieldPayload mem (cur + n) (tag .& 7) = Some (np, iv, sz) -> well_formed fuel (drop np mem) = true).
  { intros np iv sz. unfold ParseFieldPayload. revert Hw. rewrite !drop_drop.
    destruct (wire_type_of_num (tag .& 7)) as [[]|]; [| | | |done].
    - destruct (ParseVarInt (drop (cur + n) mem)) as [m v]. destruct (decide (m = 0%nat)); [done|]. rewrite drop_drop.
      by intros Hw [= <- <- <-].
    - destruct (length (drop _ _) <? 8)%nat; [done|]. intros Hw.
      destruct (length mem <? _)%nat; [done|]. by intros [= <- <- <-].
    - destruct (ParseVarInt (drop (cur + n) mem)) as [m v]. destruct (decide (m = 0%nat)); [done|]. rewrite !drop_drop.
      destruct (kMaxMessageLength <? v); [done|]. destruct (Z.of_nat (length (drop _ _)) <? v); [done|]. intros Hw.
      destruct (_ <? v); [done|]. by intros [= <- <- <-].
    - destruct (length (drop _ _) <? 4)%nat; [done|]. intros Hw.
      destruct (length mem <? _)%nat; [done|]. by intros [= <- <- <-]. }
  destruct (ParseFieldPayload _ _ _) as [[[np iv] sz]|] eqn:Ep; [|done]. specialize (Hgo np iv sz eq_refl).
  destruct (Z.ltb_spec kMaxId (u32 (tag >> 3))) as [|Hid]; [done|]. destruct (kMaxMessageLength <? sz); [done|].
  intros _. split; [|done]. intros _. unfold not_reserved, Field_initialize. cbn [field id_].
  change kMaxId with (Z.ones 24) in *. rewrite land_ones_mod, Z.mod_small; [done| |lia].
  pose proof (u32_range (tag >> 3)). change (Z.ones 24) with (2 ^ 24 - 1) in Hid. unfold_u; lia.
Qed.

Lemma well_formed_fields mem : bytes_ok mem -> forall fuel k cur,
  (length mem - cur <= k)%nat -> well_formed k (drop cur mem) = true ->
  Forall not_reserved (all_fields mem fuel cur).
Proof.
  intros Hm. induction fuel as [|fuel IH]; intros k cur Hk Hw; cbn [all_fields]; [constructor|].
  destruct (ParseOneField_spec mem Hm cur _ eq_refl) as (_ & _ & Hn & _).
  pose proof (well_formed_field k mem cur Hm Hk Hw) as Hf.
  destruct (parse_res (ParseOneField mem cur)) eqn:E; [constructor|..];
    destruct (Hf ltac:(done)) as [Hr Hw']; specialize (Hn ltac:(done)).
  - eapply IH; [|exact Hw']. lia.
  - constructor; [by apply Hr|]. eapply IH; [|exact Hw']. lia.
Qed.

(** Well-formed fields are passed over. *)
Lemma well_formed_encode_app fuel tail ws :
  Forall wf_ok ws -> Forall (fun w => wf_id w ∉ kReservedFieldIds) ws -> bytes_ok tail ->
  well_formed (length ws + fuel) (concat (map encode_field ws) ++ tail) = well_formed fuel tail.
Proof.
  intros Hok Hr Htail. induction ws as [|w ws IH]; [done|].
  apply Forall_cons in Hok as [Hw Hok]. apply Forall_cons in Hr as [Hid Hr]. specialize (IH Hok Hr).
  cbn [map concat length Nat.add]. rewrite encode_field_eq, <- !app_assoc.
  pose proof (wf_tag w Hw) as (Ht & Hti & Hty & Hty').
  set (tag := u32 (wf_id w << 3) .| wire_type_num (wf_type w)) in *.
  assert (Hrest : bytes_ok (concat (map encode_field ws) ++ tail)).
  { apply bytes_ok_app. split; [|done]. clear -Hok. induction Hok; cbn; [constructor|]. apply bytes_ok_app. auto using encode_field_ok. }
  set (rest := concat (map encode_field ws) ++ tail) in *.
  pose proof (wf_body_ok w Hw) as Hbody.
  pose proof (ParseVarInt_WriteVarInt tag (wf_body w ++ rest) (is_u32_u64 _ Ht)
    ltac:(by apply bytes_ok_app)) as Hp.
  pose proof (length_WriteVarInt_pos tag (is_u32_u64 _ Ht)) as Hpos.
  destruct (WriteVarInt tag ++ wf_body w ++ rest) as [|x tl] eqn:El.
  { apply app_eq_nil in El as [El _]. rewrite El in Hpos. cbn in Hpos. lia. }
  cbn [well_formed]. rewrite Hp. rewrite decide_False by lia. rewrite Hti.
  destruct Hw as [Hw1 Hw2]. change kMaxId with (2 ^ 24 - 1) in Hw1. rewrite u32_id by (unfold_u; lia).
  rewrite bool_decide_eq_false_2 by done. rewrite Hty, <- El, drop_app_len.
  destruct w as [id v|id v|id v|id p]; cbn [wf_type wf_body] in *.
  - rewrite ParseVarInt_WriteVarInt by done. rewrite decide_False by (pose proof (length_WriteVarInt_pos v Hw2); lia).
    by rewrite drop_app_len.
  - rewrite length_app, length_le_bytes, (proj2 (Nat.ltb_ge _ _)) by lia.
    rewrite <- (length_le_bytes 4 v) at 1. by rewrite drop_app_len.
  - rewrite length_app, length_le_bytes, (proj2 (Nat.ltb_ge _ _)) by lia.
    rewrite <- (length_le_bytes 8 v) at 1. by rewrite drop_app_len.
  - destruct Hw2 as [Hpb Hpl]. destruct (kMaxMessageLength_u32 (Z.of_nat (length p))) as [H32 H64]; [lia|].
    rewrite <- app_assoc, ParseVarInt_WriteVarInt by (try done; by apply bytes_ok_app).
    rewrite decide_False by (pose proof (length_WriteVarInt_pos _ H64); lia).
    rewrite (proj2 (Z.ltb_ge _ _)) by lia. rewrite drop_app_len, length_app, (proj2 (Z.ltb_ge _ _)) by lia.
    by rewrite Nat2Z.id, drop_app_len.
Qed.

(** They are accepted. *)
Lemma well_formed_encode ws fuel :
  Forall wf_ok ws -> Forall (fun w => wf_id w ∉ kReservedFieldIds) ws -> (length ws <= fuel)%nat ->
  well_formed fuel (concat (map encode_field ws)) = true.
Proof.
  intros Hok Hr Hl. rewrite <- (app_nil_r (concat _)), (Nat.le_add_sub _ _ Hl), well_formed_encode_app by (done || constructor).
  by destruct (fuel - length ws)%nat.
Qed.

Lemma length_encode_fields ws : Forall wf_ok ws -> (length ws <= length (concat (map encode_field ws)))%nat.
Proof.
  induction 1 as [|w ws Hw Hok IH]; cbn; [lia|]. rewrite length_app. pose proof (wf_tag w Hw) as (Ht & _). rewrite encode_field_eq, length_app.
  pose proof (length_WriteVarInt_pos _ (is_u32_u64 _ Ht)). lia.
Qed.

(** ** Properties *)

(** C24: validation of untrusted packets. However a packet is cut into slices,
    [Validate] returns, and accepts it exactly if it is a sequence of complete
    fields none of which is reserved for the service. So no field that the decoder
    finds in an accepted packet is a trusted one, and every sequence of well-formed
    fields that are not reserved is accepted. *)
Theorem validate_packets slices :
  let packet := concat slices in
  bytes_ok packet ->
  exists valid, Validate slices = Some valid /\ valid = well_formed (length packet) packet /\
    (valid = true -> Forall not_reserved (ReadAllFields packet)) /\
    (forall ws, packet = concat (map encode_field ws) -> Forall wf_ok ws ->
       Forall (fun w => wf_id w ∉ kReservedFieldIds) ws -> valid = true).
Proof.
  intros packet Hb. exists (well_formed (length packet) packet). rewrite Validate_run, (run_well_formed (length packet)) by done.
  split_and!; [done..| |].
  - intros Hw. unfold ReadAllFields. rewrite (ReadAllFields_loop_eq packet Hb _ (S (length packet)) 0) by lia.
    apply (well_formed_fields packet Hb _ (length packet)); [lia|]. by rewrite drop_0.
  - intros ws -> Hok Hr. apply well_formed_encode; [done..|]. by apply length_encode_fields.
Qed.

(** A packet in three slices that is accepted, and one that sets the trusted uid
    and is not. *)
Lemma validate_packets_witness :
  (exists valid, Validate [[0x08; 0x96]; []; [0x01; 0x12; 0x01; 0x2a]] = Some valid /\ valid = true) /\
  Validate [[0x18]; [0x05]] = Some false.
Proof.
  split; [|reflexivity].
  destruct (validate_packets [[0x08; 0x96]; []; [0x01; 0x12; 0x01; 0x2a]]) as (v & H1 & H2 & _).
  - repeat constructor; unfold_u; lia.
  - exists v. split; [exact H1|]. rewrite H2. vm_compute. reflexivity.
Defined.
