(* ===== verification/IdAllocator.v ===== *)
(** * Identifiers from a pool

    Models [src/tracing/core/id_allocator.cc] and its header: identifiers of
    producers, writers and buffers, handed out in turn from [1] to a maximum. *)

From S2P Require Import Prelude.

Record IdAllocator := mkIds { max_id_ : Z; last_id_ : Z; ids_ : list bool }.

Definition IdAllocator_new (max_id : Z) : option IdAllocator :=
  if 1 <? max_id then Some (mkIds max_id 0 []) else None.

(** [std::vector<bool>::resize]. *)
Definition resize (l : list bool) (n : Z) : list bool :=
  take (Z.to_nat n) l ++ replicate (Z.to_nat n - length l) false.

(** The loop of [AllocateGeneric]; [tries] is the number of rounds left. *)
Fixpoint allocate_loop (tries : nat) (a : IdAllocator) : option (IdAllocator * Z) :=
  match tries with
  | O => Some (a, 0)
  | S tries =>
      let id := if last_id_ a <? max_id_ a then last_id_ a + 1 else 1 in
      if Z.of_nat (length (ids_ a)) <=? id then
        let ids := resize (ids_ a) (u32 (id + 1)) in
        if id <? Z.of_nat (length ids) then Some (mkIds (max_id_ a) id (<[Z.to_nat id := true]> ids), id) else None
      else
        used ← ids_ a !! Z.to_nat id;
        if negb used then Some (mkIds (max_id_ a) id (<[Z.to_nat id := true]> (ids_ a)), id)
        else allocate_loop tries (mkIds (max_id_ a) id (ids_ a))
  end.

Definition AllocateGeneric (a : IdAllocator) : option (IdAllocator * Z) := allocate_loop (Z.to_nat (max_id_ a)) a.

(** [DFATAL] is a failed assertion. *)
Definition FreeGeneric (a : IdAllocator) (id : Z) : option IdAllocator :=
  if (id =? 0) || (Z.of_nat (length (ids_ a)) <=? id) || negb (default false (ids_ a !! Z.to_nat id)) then None
  else Some (mkIds (max_id_ a) (last_id_ a) (<[Z.to_nat id := false]> (ids_ a))).

Definition IsEmpty (a : IdAllocator) : bool := forallb negb (ids_ a).

Fixpoint free_all (a : IdAllocator) (res : list Z) : option IdAllocator :=
  match res with
  | [] => Some a
  | free_id :: res => a ← FreeGeneric a free_id; free_all a res
  end.

Fixpoint allocate_n (n : nat) (a : IdAllocator) (res : list Z) : option (IdAllocator * list Z) :=
  match n with
  | O => Some (a, res)
  | S n =>
      '(a, id) ← AllocateGeneric a;
      if negb (id =? 0) then allocate_n n a (res ++ [id])
      else a ← free_all a res; Some (a, [])
  end.

Definition AllocateMultiple (a : IdAllocator) (n : nat) : option (IdAllocator * list Z) := allocate_n n a [].

(** ** The set of identifiers in use *)

(** An allocator with the identifiers [used] in use. *)
Record uses (a : IdAllocator) (used : gset Z) : Prop := {
  us_max : 1 < max_id_ a < 2 ^ 32 - 1;
  us_last : 0 <= last_id_ a <= max_id_ a;
  us_len : Z.of_nat (length (ids_ a)) <= max_id_ a + 1;
  us_ids : forall i, i ∈ used <-> 0 <= i /\ ids_ a !! Z.to_nat i = Some true;
  us_zero : 0 ∉ used }.

Lemma uses_new max_id a : 1 < max_id < 2 ^ 32 - 1 -> IdAllocator_new max_id = Some a -> uses a ∅.
Proof.
  intros Hm. unfold IdAllocator_new. destruct (1 <? max_id); [|done]. intros [= <-].
  split; cbn; try lia; [|set_solver]. intros i. split; [set_solver|]. intros [_ H]. by rewrite lookup_nil in H.
Qed.

Lemma uses_range a used i : uses a used -> i ∈ used -> 1 <= i <= max_id_ a.
Proof.
  intros Hu Hi. pose proof (us_zero _ _ Hu). apply (us_ids _ _ Hu) in Hi as [H0 Hl]. pose proof (us_len _ _ Hu).
  apply lookup_lt_Some in Hl as Hlt. destruct (decide (i = 0)) as [->|]; [|lia].
  exfalso. apply H, (us_ids _ _ Hu). done.
Qed.

(** The next identifier in turn. *)
Definition next_id (max_id id : Z) : Z := if id <? max_id then id + 1 else 1.

(** The [k]-th identifier in turn after [id]. *)
Fixpoint turn (max_id : Z) (k : nat) (id : Z) : Z :=
  match k with O => id | S k => turn max_id k (next_id max_id id) end.

Lemma turn_range max_id k : forall id, 1 < max_id -> 0 <= id <= max_id -> (0 < k)%nat -> 1 <= turn max_id k id <= max_id.
Proof.
  induction k as [|k IH]; intros id Hm Hid Hk; [lia|]. cbn [turn]. unfold next_id.
  destruct k as [|k]; [cbn; destruct (Z.ltb_spec id max_id); lia|].
  apply IH; [done| |lia]. destruct (Z.ltb_spec id max_id); lia.
Qed.

(** In [max_id] turns every identifier comes up. *)
Lemma turn_covers max_id id i :
  1 < max_id -> 0 <= id <= max_id -> 1 <= i <= max_id -> exists k, (0 < k <= Z.to_nat max_id)%nat /\ turn max_id k id = i.
Proof.
  intros Hm Hid Hi.
  assert (Hup : forall k id, 0 <= id -> id + Z.of_nat k <= max_id -> turn max_id k id = id + Z.of_nat k).
  { induction k as [|k IH]; intros id' H0 Hle; [cbn; lia|]. cbn [turn]. unfold next_id.
    rewrite (proj2 (Z.ltb_lt _ _)) by lia. rewrite IH by lia. lia. }
  assert (Hadd : forall k k' id, turn max_id (k + k') id = turn max_id k' (turn max_id k id)).
  { induction k as [|k IH]; intros k' id'; [done|]. cbn [Nat.add turn]. apply IH. }
  destruct (decide (id < i)).
  - exists (Z.to_nat (i - id)). split; [lia|]. rewrite Hup by lia. lia.
  - exists (Z.to_nat (max_id - id) + (1 + Z.to_nat (i - 1)))%nat. split; [lia|].
    rewrite Hadd, (Hup (Z.to_nat (max_id - id)) id) by lia. cbn [Nat.add turn]. unfold next_id. rewrite (proj2 (Z.ltb_ge _ _)) by lia.
    rewrite Hup by lia. lia.
Qed.

(** Taking an identifier that is not in use. *)
Lemma uses_take a used id ids :
  uses a used -> 1 <= id <= max_id_ a -> id < Z.of_nat (length ids) <= max_id_ a + 1 ->
  (forall i, i <> Z.to_nat id -> ids !! i = Some true <-> ids_ a !! i = Some true) ->
  uses (mkIds (max_id_ a) id (<[Z.to_nat id := true]> ids)) ({[id]} ∪ used).
Proof.
  intros [H1 H2 H3 H4 H5] Hid Hlen Hsame. split; cbn [max_id_ last_id_ ids_]; try done; [lia|rewrite length_insert; lia| |set_solver by lia].
  intros i. rewrite elem_of_union, elem_of_singleton, H4. destruct (decide (i = id)) as [->|Hne].
  - rewrite list_lookup_insert_eq by lia. split; [|by left]. intros _. split; [lia|done].
  - destruct (decide (0 <= i)) as [H0|]; [|split; intros; naive_solver lia].
    rewrite list_lookup_insert_ne by lia. rewrite Hsame by lia. split; [naive_solver|]. intros [_ ?]. by right.
Qed.

(** *** Allocation *)

(** What a search for a free identifier finds: the first one in turn that is not
    in use, or none when there is none. *)
Lemma allocate_loop_ok tries : forall a used, uses a used ->
  exists a' id, allocate_loop tries a = Some (a', id) /\ max_id_ a' = max_id_ a /\
    ((id = 0 /\ uses a' used /\ forall k, (0 < k <= tries)%nat -> turn (max_id_ a) k (last_id_ a) ∈ used) \/
     (id ∉ used /\ 1 <= id <= max_id_ a /\ uses a' ({[id]} ∪ used) /\
      exists k, (0 < k <= tries)%nat /\ turn (max_id_ a) k (last_id_ a) = id /\
        forall j, (0 < j < k)%nat -> turn (max_id_ a) j (last_id_ a) ∈ used)).
Proof.
  induction tries as [|tries IH]; intros a used Hu; cbn [allocate_loop].
  { exists a, 0. split_and!; try done. left. split_and!; try done. intros k Hk. lia. }
  pose proof Hu as [H1 H2 H3 H4 H5]. fold (next_id (max_id_ a) (last_id_ a)). set (id := next_id _ _).
  assert (Hid : 1 <= id <= max_id_ a) by (unfold id, next_id; destruct (Z.ltb_spec (last_id_ a) (max_id_ a)); lia).
  assert (Hfirst : exists k, (0 < k <= S tries)%nat /\ turn (max_id_ a) k (last_id_ a) = id /\
    forall j, (0 < j < k)%nat -> turn (max_id_ a) j (last_id_ a) ∈ used).
  { exists 1%nat. split_and!; [lia|lia|done|]. intros j Hj. lia. }
  destruct (Z.leb_spec (Z.of_nat (length (ids_ a))) id).
  - rewrite u32_id by (unfold_u; lia).
    assert (Hlen : Z.of_nat (length (resize (ids_ a) (id + 1))) = id + 1).
    { unfold resize. rewrite length_app, length_take, length_replicate. lia. }
    rewrite (proj2 (Z.ltb_lt _ _)) by lia. eexists _, id. split; [done|]. split; [done|]. right.
    split_and!; try done; try lia.
    + intros Hin. apply H4 in Hin as [_ Hin]. apply lookup_lt_Some in Hin. lia.
    + apply uses_take; [done..|lia|]. intros i Hi. unfold resize. rewrite take_ge by lia.
      destruct (decide (i < length (ids_ a))%nat); [by rewrite lookup_app_l|].
      rewrite lookup_app_r by lia. rewrite lookup_replicate. rewrite (lookup_ge_None_2 (ids_ a)) by lia. naive_solver.
  - destruct (lookup_lt_is_Some_2 (ids_ a) (Z.to_nat id)) as [u Hlu]; [lia|]. rewrite Hlu. cbn [mbind option_bind].
    destruct u; cbn [negb].
    + assert (Hin : id ∈ used) by (apply H4; split; [lia|done]).
      destruct (IH (mkIds (max_id_ a) id (ids_ a)) used) as (a' & id' & -> & Hm & Hres).
      { split; cbn [max_id_ last_id_ ids_]; done || lia. }
      exists a', id'. split; [done|]. split; [done|]. cbn [max_id_ last_id_] in Hres.
      destruct Hres as [(-> & Hu' & Hall)|(Hn & Hr & Hu' & k & Hk & Ht & Hb)].
      * left. split_and!; try done. intros [|[|k]] Hk; [lia|done|]. cbn [turn]. apply (Hall (S k)). lia.
      * right. do 3 (split; [done|]). exists (S k). split; [lia|]. split; [done|].
        intros [|[|j]] Hj; [lia|done|]. apply (Hb (S j)). lia.
    + eexists _, id. split; [done|]. split; [done|]. right. split_and!; try done; try lia.
      * intros Hin. apply H4 in Hin as [_ Hin]. congruence.
      * apply uses_take; [done..|lia|done].
Qed.

Lemma AllocateGeneric_ok a used : uses a used ->
  exists a' id, AllocateGeneric a = Some (a', id) /\ max_id_ a' = max_id_ a /\
    ((id = 0 /\ uses a' used /\ forall i, 1 <= i <= max_id_ a -> i ∈ used) \/
     (id ∉ used /\ 1 <= id <= max_id_ a /\ uses a' ({[id]} ∪ used) /\
      exists k, (0 < k <= Z.to_nat (max_id_ a))%nat /\ turn (max_id_ a) k (last_id_ a) = id /\
        forall j, (0 < j < k)%nat -> turn (max_id_ a) j (last_id_ a) ∈ used)).
Proof.
  intros Hu. unfold AllocateGeneric. destruct (allocate_loop_ok (Z.to_nat (max_id_ a)) a used Hu) as (a' & id & Ha & Hm & Hres).
  exists a', id. split; [done|]. split; [done|]. destruct Hres as [(-> & Hu' & Hall)|?]; [left|by right].
  split_and!; try done. intros i Hi. pose proof Hu as [H1 H2 _ _ _].
  destruct (turn_covers (max_id_ a) (last_id_ a) i ltac:(lia) H2 Hi) as (k & Hk & <-). by apply Hall.
Qed.

(** *** Freeing *)

Lemma FreeGeneric_ok a used id : uses a used ->
  (id ∈ used -> exists a', FreeGeneric a id = Some a' /\ max_id_ a' = max_id_ a /\ uses a' (used ∖ {[id]})) /\
  (0 <= id -> id ∉ used -> FreeGeneric a id = None).
Proof.
  intros Hu. pose proof Hu as [H1 H2 H3 H4 H5]. unfold FreeGeneric. split.
  - intros Hin. pose proof (uses_range a used id Hu Hin). apply H4 in Hin as [H0 Hl]. apply lookup_lt_Some in Hl as Hlt.
    rewrite (proj2 (Z.eqb_neq _ _)), (proj2 (Z.leb_gt _ _)), Hl by lia. cbn. eexists. split; [done|]. split; [done|].
    split; cbn [max_id_ last_id_ ids_]; try done; [by rewrite length_insert| |set_solver].
    intros i. rewrite elem_of_difference, elem_of_singleton, H4. destruct (decide (i = id)) as [->|Hne].
    + rewrite list_lookup_insert_eq by lia. naive_solver.
    + destruct (decide (0 <= i)); [|naive_solver]. rewrite list_lookup_insert_ne by lia. naive_solver.
  - intros H0 Hin. destruct (Z.eqb_spec id 0); [done|]. destruct (Z.leb_spec (Z.of_nat (length (ids_ a))) id); [done|]. cbn [orb].
    destruct (ids_ a !! Z.to_nat id) as [[]|] eqn:E; [|done..]. exfalso. apply Hin, H4. done.
Qed.

Lemma IsEmpty_ok a used : uses a used -> IsEmpty a = true <-> used = ∅.
Proof.
  intros Hu. pose proof Hu as [H1 H2 H3 H4 H5]. unfold IsEmpty. rewrite forallb_forall. split.
  - intros Hall. apply set_eq. intros i. split; [|set_solver]. intros Hin. apply H4 in Hin as [_ Hl].
    apply list_elem_of_lookup_2, list_elem_of_In, Hall in Hl. done.
  - intros -> b Hb. destruct b; [|done]. apply list_elem_of_In, list_elem_of_lookup in Hb as [i Hb].
    exfalso. apply (not_elem_of_empty (C := gset Z) (Z.of_nat i)), H4. rewrite Nat2Z.id. split; [lia|done].
Qed.

Lemma free_all_ok res : forall a used, uses a (list_to_set res ∪ used) -> NoDup res -> (forall i, i ∈ res -> i ∉ used) ->
  exists a', free_all a res = Some a' /\ max_id_ a' = max_id_ a /\ uses a' used.
Proof.
  induction res as [|id res IH]; intros a used Hu Hnd Hdis; cbn [free_all list_to_set] in *.
  { exists a. split_and!; try done. by replace used with (∅ ∪ used) by set_solver. }
  apply NoDup_cons in Hnd as [Hn Hnd].
  destruct (FreeGeneric_ok a _ id Hu) as [Hf _]. destruct Hf as (a1 & -> & Hm1 & Hu1); [set_solver|]. cbn [mbind option_bind].
  replace (({[id]} ∪ list_to_set res ∪ used) ∖ {[id]}) with (list_to_set res ∪ used : gset Z) in Hu1.
  2: { apply set_eq. intros i. specialize (Hdis id ltac:(left)). rewrite elem_of_difference, !elem_of_union, elem_of_singleton, elem_of_list_to_set.
       split; [|naive_solver]. intros Hi. split; [naive_solver|]. intros ->. naive_solver. }
  destruct (IH a1 used Hu1 Hnd) as (a' & Ha' & Hm' & Hu'); [set_solver|]. exists a'. split_and!; [done|congruence|done].
Qed.

Lemma allocate_n_ok n : forall a used res, uses a (list_to_set res ∪ used) -> NoDup res -> (forall i, i ∈ res -> i ∉ used) ->
  exists a' ids, allocate_n n a res = Some (a', ids) /\ max_id_ a' = max_id_ a /\
    ((length ids = n + length res /\ NoDup ids /\ (forall i, i ∈ ids -> i ∉ used) /\ uses a' (list_to_set ids ∪ used))%nat \/
     (ids = [] /\ uses a' used /\ exists taken, (length taken < n + length res)%nat /\
        forall i, 1 <= i <= max_id_ a -> i ∈ taken \/ i ∈ used)).
Proof.
  induction n as [|n IH]; intros a used res Hu Hnd Hdis; cbn [allocate_n].
  { exists a, res. split_and!; try done. by left. }
  destruct (AllocateGeneric_ok a _ Hu) as (a1 & id & -> & Hm1 & Hres). cbn [mbind option_bind].
  destruct Hres as [(-> & Hu1 & Hfull)|(Hn & Hr & Hu1 & _)].
  - cbn [Z.eqb negb]. destruct (free_all_ok res a1 used Hu1 Hnd Hdis) as (a' & -> & Hm' & Hu'). cbn [mbind option_bind].
    exists a', []. split; [done|]. split; [congruence|]. right. split_and!; try done. exists res. split; [lia|]. set_solver.
  - rewrite (proj2 (Z.eqb_neq _ _)) by lia. cbn [negb].
    destruct (IH a1 used (res ++ [id])) as (a' & ids & -> & Hm' & Hres').
    + rewrite list_to_set_app_L. cbn. by replace (list_to_set res ∪ ({[id]} ∪ ∅) ∪ used) with ({[id]} ∪ (list_to_set res ∪ used)) by set_solver.
    + apply NoDup_app. split_and!; [done| |apply NoDup_singleton]. set_solver.
    + set_solver.
    + exists a', ids. split; [done|]. split; [congruence|]. rewrite length_app in Hres'. cbn [length] in Hres'.
      destruct Hres' as [(Hl & ?)|(? & ? & taken & Ht & Hf)]; [left; split; [lia|done]|right]. split_and!; try done.
      exists taken. rewrite Hm1 in Hf. split; [lia|done].
Qed.

(** ** The pool as a set *)

Inductive Op := OAllocate | OAllocateMultiple (n : nat) | OFree (id : Z) | OIsEmpty.

Inductive Result := RId (id : Z) | RIds (ids : list Z) | RNone | RBool (b : bool).

Definition run_op (a : IdAllocator) (o : Op) : option (IdAllocator * Result) :=
  match o with
  | OAllocate => '(a, id) ← AllocateGeneric a; Some (a, RId id)
  | OAllocateMultiple n => '(a, ids) ← AllocateMultiple a n; Some (a, RIds ids)
  | OFree id => a ← FreeGeneric a id; Some (a, RNone)
  | OIsEmpty => Some (a, RBool (IsEmpty a))
  end.

Fixpoint run_ops (a : IdAllocator) (os : list Op) : option (IdAllocator * list Result) :=
  match os with
  | [] => Some (a, [])
  | o :: os => '(a, r) ← run_op a o; '(a, rs) ← run_ops a os; Some (a, r :: rs)
  end.

(** A pool of the identifiers from [1] to [max_id] of which [used] are in use. *)
Inductive pool_step (max_id : Z) (used : gset Z) : Op -> Result -> gset Z -> Prop :=
  | ps_allocate id : id ∉ used -> 1 <= id <= max_id -> pool_step max_id used OAllocate (RId id) ({[id]} ∪ used)
  | ps_exhausted : (forall i, 1 <= i <= max_id -> i ∈ used) -> pool_step max_id used OAllocate (RId 0) used
  | ps_multiple n ids :
      length ids = n -> NoDup ids -> (forall i, i ∈ ids -> i ∉ used /\ 1 <= i <= max_id) ->
      pool_step max_id used (OAllocateMultiple n) (RIds ids) (list_to_set ids ∪ used)
  | ps_too_many n taken :
      (length taken < n)%nat -> (forall i, 1 <= i <= max_id -> i ∈ taken \/ i ∈ used) ->
      pool_step max_id used (OAllocateMultiple n) (RIds []) used
  | ps_free id : id ∈ used -> pool_step max_id used (OFree id) RNone (used ∖ {[id]})
  | ps_is_empty : pool_step max_id used OIsEmpty (RBool (bool_decide (used = ∅))) used.

Inductive pool_run (max_id : Z) : gset Z -> list Op -> list Result -> gset Z -> Prop :=
  | pr_nil used : pool_run max_id used [] [] used
  | pr_cons used o r used1 os rs used2 :
      pool_step max_id used o r used1 -> pool_run max_id used1 os rs used2 -> pool_run max_id used (o :: os) (r :: rs) used2.

Lemma id_op_ok a used o : uses a used ->
  match run_op a o with
  | Some (a', r) => exists used', uses a' used' /\ max_id_ a' = max_id_ a /\ pool_step (max_id_ a) used o r used'
  | None => exists id, o = OFree id /\ id ∉ used
  end.
Proof.
  intros Hu. destruct o as [|n|id|]; cbn [run_op].
  - destruct (AllocateGeneric_ok a used Hu) as (a' & id & -> & Hm & Hres). cbn [mbind option_bind].
    destruct Hres as [(-> & Hu' & Hall)|(Hn & Hr & Hu' & _)]; eexists; (split; [exact Hu'|]); split; [done| |done|]; by constructor.
  - destruct (allocate_n_ok n a used [] ) as (a' & ids & Ha & Hm & Hres).
    { cbn. by replace (∅ ∪ used) with used by set_solver. } { constructor. } { set_solver. }
    unfold AllocateMultiple. rewrite Ha. cbn [mbind option_bind].
    destruct Hres as [(Hl & Hnd & Hdis & Hu')|(-> & Hu' & taken & Ht & Hf)]; eexists; (split; [exact Hu'|]); split; [done| |done|].
    2: { cbn in Ht. apply (ps_too_many _ _ _ taken); [lia|done]. }
    constructor; [cbn in Hl; lia|done|]. intros i Hi. split; [by apply Hdis|].
    rewrite <- Hm. eapply uses_range; [exact Hu'|]. set_solver.
  - destruct (FreeGeneric_ok a used id Hu) as [Hf Hnf]. destruct (decide (id ∈ used)) as [Hin|Hin].
    + destruct (Hf Hin) as (a' & -> & Hm & Hu'). cbn [mbind option_bind]. eexists. split; [exact Hu'|]. split; [done|]. by constructor.
    + destruct (FreeGeneric a id) as [a'|] eqn:E; cbn [mbind option_bind]; [|by exists id].
      exfalso. destruct (decide (0 <= id)); [specialize (Hnf ltac:(done) Hin); congruence|].
      unfold FreeGeneric in E. replace (Z.to_nat id) with (Z.to_nat 0) in E by lia.
      destruct (ids_ a !! Z.to_nat 0) as [[]|] eqn:E0; cbn [default negb] in E; rewrite ?orb_true_r in E; try done.
      apply (us_zero _ _ Hu), (us_ids _ _ Hu). done.
  - exists used. split; [done|]. split; [done|]. pose proof (IsEmpty_ok a used Hu) as He.
    replace (IsEmpty a) with (bool_decide (used = ∅)) by (destruct (IsEmpty a); case_bool_decide; naive_solver). constructor.
Qed.

(** ** Properties *)

(** C25: an allocator behaves as a pool of the identifiers from [1] to its
    maximum. Over any sequence of operations on a new allocator: an identifier that is
    handed out is in range and not in use, and [0] is returned only when all of them
    are in use; [AllocateMultiple] hands out as many different unused identifiers as
    asked for or leaves the pool as it was when there are not enough; freeing
    returns exactly that identifier; [IsEmpty] tells whether the pool is unused. The
    run fails only by freeing an identifier that is not in use. *)
Theorem id_allocator_refines max_id a ops :
  1 < max_id < 2 ^ 32 - 1 -> IdAllocator_new max_id = Some a ->
  match run_ops a ops with
  | Some (a', rs) => exists used, pool_run max_id ∅ ops rs used /\ uses a' used
  | None => exists ops1 rs id ops2 used, ops = ops1 ++ OFree id :: ops2 /\ pool_run max_id ∅ ops1 rs used /\ id ∉ used
  end.
Proof.
  intros Hm Ha. pose proof (uses_new max_id a Hm Ha) as Hu.
  assert (Hmax : max_id_ a = max_id) by (unfold IdAllocator_new in Ha; destruct (1 <? max_id); by inversion Ha).
  rewrite <- Hmax. clear Hm Ha Hmax max_id. revert a Hu. generalize (∅ : gset Z). induction ops as [|o ops IH]; intros used a Hu; cbn [run_ops].
  { exists used. split; [constructor|done]. }
  pose proof (id_op_ok a used o Hu) as Ho. destruct (run_op a o) as [[a1 r]|]; cbn [mbind option_bind].
  - destruct Ho as (used1 & Hu1 & Hm1 & Hstep). specialize (IH used1 a1 Hu1). rewrite Hm1 in IH.
    destruct (run_ops a1 ops) as [[a2 rs]|]; cbn [mbind option_bind].
    + destruct IH as (used2 & Hrun & Hu2). exists used2. split; [by econstructor|done].
    + destruct IH as (ops1 & rs & id & ops2 & used2 & -> & Hrun & Hn). exists (o :: ops1), (r :: rs), id, ops2, used2.
      split; [done|]. split; [by econstructor|done].
  - destruct Ho as (id & -> & Hn). exists [], [], id, ops, used. split; [done|]. split; [constructor|done].
Qed.

Lemma id_allocator_refines_witness :
  exists used a', pool_run 3 ∅ [OAllocate; OAllocate; OFree 1; OAllocate; OAllocateMultiple 2; OAllocate]
    [RId 1; RId 2; RNone; RId 3; RIds []; RId 1] used /\ uses a' used.
Proof.
  pose proof (id_allocator_refines 3 (mkIds 3 0 []) [OAllocate; OAllocate; OFree 1; OAllocate; OAllocateMultiple 2; OAllocate]
    ltac:(lia) eq_refl) as H.
  vm_compute run_ops in H. destruct H as (used & H1 & H2). by exists used, (mkIds 3 1 [false; true; true; true]).
Defined.
