(* ===== verification/ServiceBuffers.v ===== *)
(** * Trace buffers as the tracing service uses them

    The service reads buffers that are in use and snapshots, up to a threshold, and writes
    octets of untrusted producers into them. [stored_ok] is what it needs of a buffer: the
    invariant of the buffer, and that its memory holds octets. *)

From S2P Require Import Prelude ProtoUtils TraceBuffer TraceBufferRead TraceBufferClone TraceBufferDrain.

(** ** Memory holds octets *)

Lemma buf_write_bytes d i x : bytes_ok d -> bytes_ok x -> bytes_ok (buf_write d i x).
Proof. intros Hd Hx. unfold buf_write. apply Forall_app. split; [by apply Forall_take|]. apply Forall_app. split; [done|by apply Forall_drop]. Qed.

Lemma mem_write_bytes d i x d' : mem_write d i x = Some d' -> bytes_ok d -> bytes_ok x -> bytes_ok d'.
Proof. unfold mem_write. case_match; [|done]. intros [= <-]. apply buf_write_bytes. Qed.

Lemma zeros_bytes n : bytes_ok (replicate n 0).
Proof. by apply Forall_replicate. Qed.

Lemma cr_bytes_ok h : bytes_ok (cr_bytes h).
Proof. unfold cr_bytes. rewrite !bytes_ok_app. split_and!; try apply le_bytes_ok; apply Forall_forall; intros x Hx; set_unfold; intuition subst; auto with dv; done. Qed.

(** Inversion of a chain of fallible steps. *)
Ltac steps := repeat match goal with
  | H : Some _ = Some _ |- _ => injection H as H; subst
  | H : None = Some _ |- _ => discriminate H
  | H : mbind _ ?x = Some _ |- _ => let E := fresh "E" in destruct x eqn:E; cbn [mbind option_bind] in H
  | H : fmap _ ?x = Some _ |- _ => let E := fresh "E" in destruct x eqn:E; cbn [fmap option_fmap option_map] in H
  | H : (if ?c then _ else _) = Some _ |- _ => let E := fresh "C" in destruct c eqn:E
  | H : (let '(_, _) := ?x in _) = Some _ |- _ => destruct x
  | H : (match ?x with _ => _ end) = Some _ |- _ => destruct x eqn:?
  end.

(** The clients that wrote chunks. *)
Definition clients (idx : ChunkMap) : list ClientIdentity := (fun e => client_identity_trusted e.2) <$> idx.

Definition clients_ok (idx : ChunkMap) : Prop := Forall client_ok (clients idx).

Lemma clients_find idx k m : clients_ok idx -> map_find idx k = Some m -> client_ok (client_identity_trusted m).
Proof. unfold clients_ok, clients. rewrite Forall_fmap, Forall_forall. intros H Hm%map_find_elem. apply (H _ Hm). Qed.

Lemma clients_update idx k m : clients_ok idx -> client_ok (client_identity_trusted m) -> clients_ok (map_update idx k m).
Proof. unfold clients_ok, clients. induction idx as [|[k1 m1] idx IH]; [done|]. cbn. intros [H1 H2]%Forall_cons Hm. case_decide; cbn; constructor; auto. Qed.

Lemma clients_emplace idx k m : clients_ok idx -> client_ok (client_identity_trusted m) -> clients_ok (map_emplace idx k m).
Proof.
  unfold clients_ok, clients. induction idx as [|[k1 m1] idx IH]; [intros _ ?; by apply Forall_singleton|]. cbn. intros [H1 H2]%Forall_cons Hm.
  destruct (key_ltb _ _); cbn; repeat apply Forall_cons_2; auto.
Qed.

Lemma clients_erase idx k : clients_ok idx -> clients_ok (map_erase idx k).
Proof. unfold clients_ok, clients. induction idx as [|[k1 m1] idx IH]; [done|]. cbn. intros [H1 H2]%Forall_cons. case_decide; [done|]. cbn. constructor; auto. Qed.

Lemma clients_erase_all ks : forall idx, clients_ok idx -> clients_ok (foldl map_erase idx ks).
Proof. induction ks as [|k ks IH]; intros idx H; [done|]. cbn. by apply IH, clients_erase. Qed.

(** Octets in memory, clients in the index, and the size, which never changes. *)
Definition contents_ok (n : Z) (b : TraceBuffer) : Prop := bytes_ok (data_ b) /\ clients_ok (index_ b) /\ size_ b = n.
Definition same_contents (b b' : TraceBuffer) : Prop := data_ b' = data_ b /\ index_ b' = index_ b /\ size_ b' = size_ b.

Lemma same_contents_ok n b b' : same_contents b b' -> contents_ok n b -> contents_ok n b'.
Proof. intros (E1 & E2 & E3). unfold contents_ok. by rewrite E1, E2, E3. Qed.

Lemma GetChunkRecordAt_same b off h b' : GetChunkRecordAt b off = Some (h, b') -> same_contents b b'.
Proof. unfold GetChunkRecordAt, EnsureCommitted. intros H. by steps. Qed.

Lemma WriteChunkRecord_contents sz b w h src n b' :
  WriteChunkRecord b w h src n = Some b' -> contents_ok sz b -> match src with Some s => bytes_ok s | None => True end -> contents_ok sz b'.
Proof.
  unfold WriteChunkRecord, EnsureCommitted. intros H (Hb & Hc & Hn) Hs. destruct (_ && _); [|done]. destruct (_ <=? size_ b); [|done]. cbn [mbind option_bind] in H.
  destruct (_ <=? _); [|done]. destruct (mem_write _ _ (cr_bytes h)) as [d1|] eqn:E1; [|done]. cbn [mbind option_bind] in H.
  assert (H1 : bytes_ok d1) by (eapply mem_write_bytes; [exact E1|exact Hb|apply cr_bytes_ok]).
  destruct (match src with Some s => _ | None => _ end) as [d2|] eqn:E2; [|done]. cbn [mbind option_bind] in H.
  assert (H2 : bytes_ok d2) by (destruct src as [x|]; [eapply mem_write_bytes; [exact E2|done|by apply bytes_ok_take]|destruct (_ =? _); by simplify_eq]).
  destruct (mem_write d2 _ _) as [d3|] eqn:E3; [|done]. cbn [mbind option_bind] in H. simplify_eq.
  split_and!; try done. cbn. eapply mem_write_bytes; [exact E3|done|apply zeros_bytes].
Qed.

Lemma AddPaddingRecord_contents sz b n b' : AddPaddingRecord b n = Some b' -> contents_ok sz b -> contents_ok sz b'.
Proof. unfold AddPaddingRecord. intros H Hb. steps. by eapply (WriteChunkRecord_contents sz _ _ _ None) in E0. Qed.

Lemma delete_loop_same fuel : forall b e s r b', delete_loop fuel b e s = Some (r, b') -> same_contents b b'.
Proof.
  induction fuel as [|fuel IH]; intros b e s r b' H; cbn [delete_loop] in H; [by destruct (_ <? _); steps|].
  destruct (_ <? _); [|by steps]. destruct (GetChunkRecordAt b (ds_ptr s)) as [[h b1]|] eqn:E; [|done]. cbn [mbind option_bind] in H. apply GetChunkRecordAt_same in E as (E1 & E2 & E3).
  unfold same_contents. rewrite <- E1, <- E2, <- E3. steps; try done; by eapply IH.
Qed.

Lemma DeleteNextChunksFor_contents sz b n r b' : DeleteNextChunksFor b n = Some (r, b') -> contents_ok sz b -> contents_ok sz b'.
Proof.
  unfold DeleteNextChunksFor. intros H Hb. destruct (discard_writes_ b); [done|]. destruct (_ || _); [done|].
  destruct (delete_loop _ _ _ _) as [[x b1]|] eqn:E; [|done]. cbn [mbind option_bind] in H. apply delete_loop_same in E. apply (same_contents_ok sz _ _ E) in Hb.
  destruct Hb as (Hb & Hc & Hn). steps; split_and!; try done. cbn. by apply clients_erase_all.
Qed.

Lemma AdvanceWptr_contents sz b k n pad b' : AdvanceWptr b k n pad = Some b' -> contents_ok sz b -> contents_ok sz b'.
Proof.
  unfold AdvanceWptr. intros H Hb. destruct (size_ _ <=? wptr_ _); [destruct (pad =? 0) eqn:Ep; [|done]|]; cbn [mbind option_bind] in H;
    (destruct (within_bounds _ _); [|done]); rewrite ?Ep in H; steps; try (by case_match); eapply AddPaddingRecord_contents; try done; by case_match.
Qed.

Lemma InsertChunk_contents sz b k h n nf fl c ci src pad b' :
  InsertChunk b k h n nf fl c ci src pad = Some b' -> contents_ok sz b -> client_ok ci -> bytes_ok src -> contents_ok sz b'.
Proof.
  unfold InsertChunk. intros H Hb Hci Hs. destruct (GetChunkRecordAt _ _) as [[x b1]|] eqn:E; [|done]. cbn [mbind option_bind] in H. apply GetChunkRecordAt_same in E.
  assert (Hb1 : contents_ok sz b1) by (by apply (same_contents_ok sz _ _ E)).
  destruct (bool_decide _); [done|]. destruct (WriteChunkRecord _ _ _ _ _) as [b2|] eqn:E2; [|done]. cbn [mbind option_bind] in H.
  eapply AdvanceWptr_contents; [done|]. eapply WriteChunkRecord_contents; [done| |done]. destruct Hb1 as (? & ? & ?). split_and!; try done. cbn. by apply clients_emplace.
Qed.

Lemma WrapForChunk_contents sz b n r b' : WrapForChunk b n = Some (r, b') -> contents_ok sz b -> contents_ok sz b'.
Proof.
  unfold WrapForChunk. intros H Hb. destruct (_ <? _); [|by steps]. destruct (DeleteNextChunksFor _ _) as [[x b1]|] eqn:E; [|done]. cbn [mbind option_bind] in H.
  apply (DeleteNextChunksFor_contents sz) in E; [|done]. destruct (x =? -1); [by steps|]. destruct (_ <? x); [done|].
  destruct (AddPaddingRecord _ _) as [b2|] eqn:E2; [|done]. cbn [mbind option_bind] in H. apply (AddPaddingRecord_contents sz) in E2; [|done]. by steps.
Qed.

Lemma DiscardWrite_same b b' : DiscardWrite b = Some b' -> same_contents b b'.
Proof. unfold DiscardWrite. intros H. by steps. Qed.

Lemma CopyChunkUntrusted_contents sz b p ci w c nf fl complete src b' :
  CopyChunkUntrusted b p ci w c nf fl complete src = Some b' -> contents_ok sz b -> client_ok ci -> bytes_ok src -> contents_ok sz b'.
Proof.
  unfold CopyChunkUntrusted. intros H Hb Hci Hs. destruct (read_only_ b); [done|]. destruct (_ <? _); [by steps|]. destruct (DisregardLast _ _ _) as [nf' fl'].
  destruct (ChunkRecord_init _) as [h|]; [|done]. cbn [mbind option_bind] in H. change (index_ (with_has_data b true)) with (index_ b) in H.
  destruct (map_find _ _) as [m|] eqn:Em.
  - apply (clients_find _ _ _ (proj1 (proj2 Hb))) in Em. unfold OverrideChunk in H. destruct (GetChunkRecordAt _ _) as [[x b1]|] eqn:E; [|done]. cbn [mbind option_bind] in H.
    apply GetChunkRecordAt_same in E. assert (Hb1 : contents_ok sz b1) by (by apply (same_contents_ok sz _ _ E)).
    repeat (destruct (_ : bool) in H; [by steps|]). destruct (WriteChunkRecord _ _ _ _ _) as [b2|] eqn:E2; [|done]. cbn [mbind option_bind] in H. steps.
    assert (contents_ok sz b2); [|done]. eapply WriteChunkRecord_contents; [done| |done]. destruct Hb1 as (? & ? & ?). split_and!; try done. cbn. by apply clients_update.
  - unfold CopyNewChunk in H. destruct (discard_writes_ _); [by apply (same_contents_ok sz _ _ (DiscardWrite_same _ _ H))|].
    destruct (WrapForChunk _ _) as [[r b1]|] eqn:E; [|done]. cbn [mbind option_bind] in H. apply (WrapForChunk_contents sz) in E; [|done].
    destruct r; [by apply (same_contents_ok sz _ _ (DiscardWrite_same _ _ H))|]. destruct (DeleteNextChunksFor _ _) as [[x b2]|] eqn:E2; [|done]. cbn [mbind option_bind] in H.
    apply (DeleteNextChunksFor_contents sz) in E2; [|done]. destruct (x =? -1); [by apply (same_contents_ok sz _ _ (DiscardWrite_same _ _ H))|]. by eapply InsertChunk_contents.
Qed.

Lemma apply_patches_bytes patches : forall d s e d' ok,
  apply_patches d s e patches = Some (d', ok) -> bytes_ok d -> Forall (fun p => bytes_ok (patch_data p)) patches -> bytes_ok d'.
Proof.
  induction patches as [|p patches IH]; intros d s e d' ok H Hd Hp; cbn [apply_patches] in H; [by steps|]. apply Forall_cons in Hp as [Hp Hps].
  destruct (_ || _); [by steps|]. destruct (mem_write _ _ _) as [d1|] eqn:E; [|done]. cbn [mbind option_bind] in H. eapply IH; [done| |done]. by eapply mem_write_bytes.
Qed.

Lemma flags_octet old fl : is_u8 ((old .& 0xc0) .| (fl .& kFlagsBitMask)).
Proof.
  assert (Hl : forall x k, 0 <= k < 2 ^ 8 -> 0 <= x .& k < 2 ^ 8).
  { intros x k Hk. replace k with (k .& Z.ones 8) by (rewrite Z.land_ones by lia; by apply Z.mod_small). rewrite Z.land_assoc, Z.land_ones by lia. by apply Z.mod_pos_bound. }
  apply (lor_range _ _ 8); [lia|apply Hl; lia|apply Hl; by split].
Qed.

Lemma TryPatchChunkContents_contents sz b p w c patches pending ok b' :
  TryPatchChunkContents b p w c patches pending = Some (ok, b') -> contents_ok sz b -> Forall (fun x => bytes_ok (patch_data x)) patches -> contents_ok sz b'.
Proof.
  unfold TryPatchChunkContents. intros H Hb Hp. destruct (read_only_ b); [done|]. destruct (map_find _ _) as [m|] eqn:Em; [|by simplify_eq].
  apply (clients_find _ _ _ (proj1 (proj2 Hb))) in Em.
  destruct (GetChunkRecordAt _ _) as [[h b1]|] eqn:E; [|done]. cbn [mbind option_bind] in H. apply GetChunkRecordAt_same in E. apply (same_contents_ok sz _ _ E) in Hb as (Hb & Hc & Hn).
  destruct (negb _); [done|]. destruct (_ <? _); [done|]. destruct (apply_patches _ _ _ _) as [[d ok1]|] eqn:E1; [|done]. cbn [mbind option_bind] in H.
  apply apply_patches_bytes in E1; [|done..]. destruct (negb ok1); [by simplify_eq|]. destruct pending; [by simplify_eq|]. cbn [data_ with_data with_index stat_inc with_stats] in H.
  destruct (d !! _) as [old|] eqn:E2; [|done]. cbn [mbind option_bind] in H. destruct (mem_write _ _ _) as [d2|] eqn:E3; [|done]. cbn [mbind option_bind] in H. simplify_eq.
  split_and!; cbn; [|by apply clients_update|done]. eapply mem_write_bytes; [exact E3|done|]. apply Forall_singleton, flags_octet.
Qed.

(** ** What the service needs of a buffer *)

Definition stored_ok (b : TraceBuffer) : Prop := buffer_ok b /\ contents_ok (size_ b) b.

Lemma stored_size b : stored_ok b -> 16 <= size_ b <= 2 ^ 32 - 1 /\ size_ b mod 16 = 0.
Proof. intros [(w & pre & post & z & HI & _) _]. split; [apply (tb_size _ _ _ _ HI)|apply (tb_mod _ _ _ _ HI)]. Qed.

Lemma Create_stored size pol :
  16 <= size <= 2 ^ 32 - 1 -> size mod 16 = 0 -> exists b, Create size pol = Some b /\ stored_ok b /\ read_only_ b = false /\ size_ b = size.
Proof.
  intros Hs Hm. destruct (Initialize_ok pol size Hs Hm) as (b & E & HI & Hro & _). exists b. split; [done|]. split; [|split; [done|]].
  - split; [by eapply buffer_ok_of|]. unfold Create, Initialize in E. case_match; [|done]. simplify_eq. split_and!; [apply zeros_bytes|constructor|done].
  - unfold Create, Initialize in E. case_match; by simplify_eq.
Qed.

Lemma clone_index b b' : CloneReadOnly b = Some b' -> index_ b' = reset_entry <$> index_ b.
Proof. unfold CloneReadOnly, Initialize, EnsureCommitted. intros H. by steps. Qed.

Lemma clients_reset idx : clients (reset_entry <$> idx) = clients idx.
Proof. unfold clients. rewrite <- list_fmap_compose. by apply list_fmap_ext. Qed.

Lemma Clone_stored b : stored_ok b -> exists b', CloneReadOnly b = Some b' /\ stored_ok b' /\ read_only_ b' = true /\ size_ b' = size_ b.
Proof.
  intros [Hb (Hd & Hc & _)]. destruct (clone_ok_of b Hb) as (b' & E & Hb' & Hr & Hd' & Hs & _). exists b'. split; [done|]. split; [|done]. split; [done|].
  split_and!; [by rewrite Hd'| |done]. unfold clients_ok. by rewrite (clone_index _ _ E), clients_reset.
Qed.

Lemma set_read_only_stored b : stored_ok b -> stored_ok (set_read_only b).
Proof. intros [(w & pre & post & z & [HL H1 H2 H3 H4 H5 H6 H7 H8] & _) Hd]. split; [|done]. exists w, pre, post, z. split; [by split|done]. Qed.

Lemma Copy_stored b p ci w c nf fl complete src :
  stored_ok b -> read_only_ b = false -> chunk_args p w c nf fl src -> client_ok ci -> bytes_ok src ->
  exists b', CopyChunkUntrusted b p ci w c nf fl complete src = Some b' /\ stored_ok b' /\ read_only_ b' = false /\ size_ b' = size_ b.
Proof.
  intros [Hb Hd] Hro Ha Hci Hs. destruct (buffer_ok_inv b Hb Hro) as (pre & post & z & HI).
  destruct (CopyChunkUntrusted_ok b pre post z p ci w c nf fl complete src HI Hro Ha) as (b' & pre' & post' & z' & E & HI' & Hro' & _).
  assert (Hc : contents_ok (size_ b) b') by (by eapply CopyChunkUntrusted_contents). pose proof (proj2 (proj2 Hc)) as Esz.
  exists b'. split; [done|]. split; [|done]. split; [by eapply buffer_ok_of|by rewrite Esz].
Qed.

Lemma Patch_stored b p w c patches pending :
  stored_ok b -> read_only_ b = false -> Forall patch_ok patches -> Forall (fun x => bytes_ok (patch_data x)) patches ->
  exists ok b', TryPatchChunkContents b p w c patches pending = Some (ok, b') /\ stored_ok b' /\ read_only_ b' = false /\ size_ b' = size_ b.
Proof.
  intros [Hb Hd] Hro Hp Hbp. destruct (buffer_ok_inv b Hb Hro) as (pre & post & z & HI).
  destruct (TryPatch_ok b pre post z p w c patches pending HI Hro Hp) as (ok & b' & pre' & post' & E & HI' & Hro' & _).
  assert (Hc : contents_ok (size_ b) b') by (by eapply TryPatchChunkContents_contents). pose proof (proj2 (proj2 Hc)) as Esz.
  exists ok, b'. split; [done|]. split; [|done]. split; [by eapply buffer_ok_of|by rewrite Esz].
Qed.

(** ** How large a packet can be *)

Fixpoint total_size (ss : list Slice) : Z :=
  match ss with
  | [] => 0
  | s :: ss => snd s + total_size ss
  end.

(** The payload of the chunks with the key [k], or with one of [ks]. *)
Fixpoint payload_of (k : Key) (all : list rec) : Z :=
  match all with
  | [] => 0
  | r :: all => (if decide (key_of_record (r_hdr r) = k) then rsize r - 16 else 0) + payload_of k all
  end.
Fixpoint payloads_of (ks : list Key) (all : list rec) : Z :=
  match ks with
  | [] => 0
  | k :: ks => payload_of k all + payloads_of ks all
  end.

Lemma payload_app k a b : payload_of k (a ++ b) = payload_of k a + payload_of k b.
Proof. induction a as [|r a IH]; [done|]. cbn. rewrite IH. lia. Qed.

Lemma payload_nonneg k all : Forall rec_ok all -> 0 <= payload_of k all.
Proof. induction 1 as [|r l Hr _ IH]; [done|]. cbn. destruct Hr as (_ & Hr & _). unfold kChunkRecordSize in Hr. case_decide; lia. Qed.

Lemma slice_payload all k s : Forall rec_ok all -> slice_of all k s -> snd s <= payload_of k all.
Proof.
  intros Ha (l1 & r & l2 & -> & Hk & _ & H1 & H2 & H3). apply Forall_app in Ha as [Ha1 [_ Ha2]%Forall_cons]. rewrite payload_app. cbn. rewrite decide_True by done.
  pose proof (payload_nonneg k l1 Ha1). pose proof (payload_nonneg k l2 Ha2). lia.
Qed.

(** Different chunks have at most the payloads of all. A record has a header of 16 octets
    and at most [kMaxSize] octets. *)
Lemma payloads_bound all ks : Forall rec_ok all -> NoDup ks -> 65535 * payloads_of ks all <= 65519 * lsize all.
Proof.
  intros Ha Hn. induction Ha as [|r all Hr Ha IH].
  - clear Hn. induction ks as [|k ks IH]; [done|]. cbn [payloads_of payload_of]. lia.
  - rewrite lsize_cons by done. assert (H16 : 16 <= rsize r <= 65535).
    { destruct Hr as ((_ & _ & _ & _ & [_ Hs] & _) & Hr & _). unfold kChunkRecordSize in Hr. unfold rsize in *. lia. }
    assert (Hone : payloads_of ks (r :: all) <= (rsize r - 16) + payloads_of ks all); [|lia]. clear IH.
    assert (Hnot : forall ks, key_of_record (r_hdr r) ∉ ks -> payloads_of ks (r :: all) = payloads_of ks all).
    { intros l. induction l as [|k l IHl]; [done|]. intros [Hk Hl]%not_elem_of_cons. cbn [payloads_of payload_of]. rewrite IHl, decide_False by done. lia. }
    induction Hn as [|k ks Hk Hn IHn]; [cbn; lia|]. cbn [payloads_of payload_of]. case_decide as Hkr; [|lia]. rewrite Hnot by (by rewrite Hkr). lia.
Qed.

Lemma slices_bound all kq ss : Forall rec_ok all -> slices_ok all kq ss -> 65535 * total_size ss <= 65519 * lsize all.
Proof.
  intros Ha (ks & H1 & _ & H3). etrans; [|by apply (payloads_bound all ks)].
  assert (total_size ss <= payloads_of ks all); [|lia]. clear H3. induction H1 as [|k s ks ss Hs _ IH]; [done|]. cbn [total_size payloads_of].
  pose proof (slice_payload all k s Ha Hs). lia.
Qed.

(** ** Reading *)

(** The octets of the slices of a packet. *)
Definition read_slices (b : TraceBuffer) (ss : list Slice) : option (list (list Z)) :=
  mapM (fun s => mem_read (data_ b) (Z.to_nat (fst s)) (Z.to_nat (snd s))) ss.

(** What a read leaves alone. *)
Definition same_buffer (b b' : TraceBuffer) : Prop := data_ b' = data_ b /\ size_ b' = size_ b /\ read_only_ b' = read_only_ b.

Lemma slice_inside b all z k s :
  data_ b = layout all ++ replicate z 0 -> Forall rec_ok all -> slice_of all k s ->
  0 <= fst s /\ 0 < snd s /\ (Z.to_nat (fst s) + Z.to_nat (snd s) <= length (data_ b))%nat.
Proof.
  intros Hd Ha (l1 & r & l2 & -> & _ & _ & S1 & S2 & S3). apply Forall_app in Ha as [Ha1 [Hr Ha2]%Forall_cons]. pose proof (lsize_nonneg l1).
  split_and!; [lia..|]. rewrite Hd, length_app, layout_app, layout_cons, !length_app. pose proof (length_rec_bytes r Hr). unfold lsize in *. lia.
Qed.

Lemma stored_slices_ok b all z kq ss :
  data_ b = layout all ++ replicate z 0 -> Forall rec_ok all -> bytes_ok (data_ b) -> slices_ok all kq ss ->
  exists l, read_slices b ss = Some l /\ bytes_ok (mjoin l) /\ Z.of_nat (length (mjoin l)) = total_size ss.
Proof.
  intros Hd Ha Hb (ks & H1 & _ & _). induction H1 as [|k s ks ss Hs _ IH]; [exists []; split_and!; [done|constructor|done]|].
  destruct IH as (l & E & Hl & Hlen). destruct (slice_inside b all z k s Hd Ha Hs) as (H0 & Hp & Hin).
  set (x := take (Z.to_nat (snd s)) (drop (Z.to_nat (fst s)) (data_ b))). exists (x :: l). split.
  - unfold read_slices in *. cbn [mapM]. rewrite mem_read_some by done. cbn [mbind option_bind]. by rewrite E.
  - change (mjoin (x :: l)) with (x ++ mjoin l). cbn [total_size]. split; [apply bytes_ok_app; split; [by apply bytes_ok_take, bytes_ok_drop|done]|].
    unfold x. rewrite length_app, length_take, length_drop. lia.
Qed.

Lemma reading_clients b b' : reading b b' -> clients (index_ b') = clients (index_ b).
Proof. intros [_ H]. unfold clients. induction H as [|e e' l l' [_ [_ _ _ He]] _ IH]; [done|]. cbn. by rewrite He, IH. Qed.

Lemma find_sorted idx k m : sorted idx -> (k, m) ∈ idx -> map_find idx k = Some m.
Proof.
  intros Hs Hin. induction Hs as [|[k1 m1] idx Hs IH Hall]; [by apply not_elem_of_nil in Hin|]. cbn. apply elem_of_cons in Hin as [[= <- <-]|Hin]; [by rewrite decide_True|].
  rewrite decide_False; [by apply IH|]. intros ->. rewrite Forall_forall in Hall. by apply (key_lt_irrefl k), (Hall (k, m)).
Qed.

(** The chunks of an index: key, place in the buffer and client. *)
Definition chunk_table (idx : ChunkMap) : list (Key * Z * ClientIdentity) :=
  (fun e => (e.1, record_off e.2, client_identity_trusted e.2)) <$> idx.

Lemma reading_table b b' : reading b b' -> chunk_table (index_ b') = chunk_table (index_ b).
Proof. intros [_ H]. unfold chunk_table. induction H as [|e e' l l' [Hk [_ _ _ He Ho]] _ IH]; [done|]. cbn. by rewrite Hk, He, Ho, IH. Qed.

Lemma chunk_client idx k off client : clients_ok idx -> (k, off, client) ∈ chunk_table idx -> client_ok client.
Proof.
  unfold clients_ok, clients, chunk_table. rewrite Forall_fmap, Forall_forall. intros H (e & [= -> -> ->] & He)%list_elem_of_fmap. apply (H e He).
Qed.

(** [s] lies in the payload of a chunk of that producer and writer. *)
Definition in_chunk (b : TraceBuffer) (producer writer : Z) (s : Slice) : Prop :=
  exists (id off : Z) (client : ClientIdentity) (hdr : list Z), (mkKey producer writer id, off, client) ∈ chunk_table (index_ b) /\
    mem_read (data_ b) (Z.to_nat off) 16 = Some hdr /\
    off + kChunkRecordSize <= s.1 /\ 0 < s.2 /\ s.1 + s.2 <= off + cr_size (cr_of_bytes hdr).

(** Slices of chunks of one producer and writer, and the client of such a chunk. *)
Record written_by (b : TraceBuffer) (producer writer : Z) (client : ClientIdentity) (ss : list Slice) : Prop := {
  wb_client : exists id off, (mkKey producer writer id, off, client) ∈ chunk_table (index_ b);
  wb_slices : Forall (in_chunk b producer writer) ss }.

Lemma written_by_same b b' producer writer client ss :
  data_ b' = data_ b -> chunk_table (index_ b') = chunk_table (index_ b) -> written_by b' producer writer client ss -> written_by b producer writer client ss.
Proof. intros E1 E2 [H1 H2]. unfold in_chunk in *. rewrite E1, E2 in *. by split. Qed.

Lemma slice_in_chunk b pre post z k s : tb_inv b pre post z -> slice_of (pre ++ post) k s -> in_chunk b (producer_id k) (writer_id k) s.
Proof.
  intros HI (l1 & r & l2 & E & Hk & Hp & H1 & H2 & H3). pose proof (tb_index _ _ _ _ HI) as Hix. destruct (tb_lay _ _ _ _ HI) as [L1 _ _ _ L5 L6].
  assert (Hall : Forall rec_ok (l1 ++ r :: l2)) by (rewrite <- E; by apply Forall_app). apply Forall_app in Hall as [Hl1 [Hr Hl2]%Forall_cons].
  assert (Hin : (k, (lsize l1, r_hdr r)) ∈ entries 0 (pre ++ post)).
  { rewrite E, entries_app by done. cbn [entries]. rewrite Hp, Hk. apply elem_of_app. right. left. }
  destruct (ix_all _ _ Hix _ _ _ Hin) as [m Hm]. destruct (ix_found _ _ Hix k m Hm) as (h & Hin2 & _).
  assert (Eo : record_off m = lsize l1).
  { apply list_elem_of_split in Hin as (e1 & e2 & Ee). pose proof (ix_nodup _ _ Hix) as Hnd. rewrite Ee in Hnd, Hin2.
    rewrite fmap_app, fmap_cons in Hnd. apply NoDup_app in Hnd as (_ & Hd1 & [Hd2 _]%NoDup_cons). cbn [fst] in *.
    apply elem_of_app in Hin2 as [Hin2|[Hin2|Hin2]%elem_of_cons].
    - apply (list_elem_of_fmap_2 fst) in Hin2. destruct (Hd1 _ Hin2). left.
    - by simplify_eq.
    - by apply (list_elem_of_fmap_2 fst) in Hin2. }
  exists (chunk_id k), (lsize l1), (client_identity_trusted m), (cr_bytes (r_hdr r)). split_and!.
  - apply map_find_elem in Hm. apply list_elem_of_fmap. exists (k, m). cbn. by rewrite Eo; destruct k.
  - rewrite L1, app_assoc, <- layout_app, E, layout_app. unfold lsize. rewrite Nat2Z.id, <- app_assoc.
    change (layout (r :: l2)) with (rec_bytes r ++ layout l2). unfold rec_bytes. rewrite <- !app_assoc. by apply mem_read_at.
  - done.
  - done.
  - rewrite <- (app_nil_r (cr_bytes _)), cr_of_bytes_cr_bytes by apply Hr. done.
Qed.

Lemma slices_in_chunk b pre post z kq ss : tb_inv b pre post z -> slices_ok (pre ++ post) kq ss -> Forall (in_chunk b (producer_id kq) (writer_id kq)) ss.
Proof.
  intros HI (ks & H1 & H2 & _). induction H1 as [|k s ks ss Hs _ IH]; [constructor|]. apply Forall_cons in H2 as [[E1 E2] H2].
  constructor; [|by apply IH]. rewrite E1, E2. by eapply slice_in_chunk.
Qed.

Lemma tb_inv_wide b pre post z : tb_inv b pre post z -> wide (index_ b).
Proof.
  intros HI. apply Forall_forall. intros [k m] Hin. pose proof (inv_idx_ok _ _ _ _ HI) as [Hs _]. assert (Hm : map_find (index_ b) k = Some m) by (by apply find_sorted).
  destruct (indexed_chunk _ _ _ _ _ _ HI Hm) as (l1 & r & l2 & _ & ((_ & _ & _ & Hn & _) & _) & _ & _ & _ & _ & (M1 & _ & M3 & _) & _). cbn. by rewrite M1.
Qed.

Lemma stored_settled b : stored_ok b -> settled b.
Proof.
  intros [(w & pre & post & z & HI & _) _]. split; [by apply (inv_idx_ok _ _ _ _ HI)|apply (tb_last _ _ _ _ HI)|apply (tb_inv_wide _ _ _ _ HI)].
Qed.

Lemma pots_bound last idx : wide idx -> pots last idx <= Z.of_nat (length idx) * (2 ^ 48 + 2 ^ 16).
Proof.
  induction 1 as [|[k m] idx [H1 H2] _ IH]; [done|]. cbn [pots length]. cbn in H1, H2. pose proof (rank_bounds last k). unfold pot, left, is_u16 in *.
  destruct (can_start m); lia.
Qed.

Lemma work_bound b : stored_ok b -> 0 <= work b < kEnoughFuel.
Proof.
  intros Hb. split; [unfold work; generalize (last_chunk_id_written_ b), (index_ b); intros l idx; induction idx as [|[k m] idx IH]; cbn; [done|pose proof (pot_nonneg l k m); lia]|].
  pose proof (pots_bound (last_chunk_id_written_ b) _ (st_wide _ (stored_settled _ Hb))). destruct Hb as [(w & pre & post & z & HI & _) _].
  pose proof (index_length _ _ _ _ HI). cbn [with_wptr index_] in *. unfold work, kEnoughFuel. lia.
Qed.

(** A buffer in the middle of a read session. *)
Definition being_read (b : TraceBuffer) : Prop := stored_ok b /\ ready b.

Lemma read_stored b b' w pre post z :
  tb_inv (with_wptr b' w) pre post z -> wptr_ b' = wptr_ b -> same_buffer b b' -> (read_only_ b = false -> w = wptr_ b) ->
  reading b b' -> contents_ok (size_ b) b -> stored_ok b'.
Proof.
  intros HI Hw (S1 & S2 & S3) Hro Hr (C1 & C2 & _). split; [exists w, pre, post, z; split; [done|]; by rewrite S3, Hw|]. split_and!; [by rewrite S1| |done].
  unfold clients_ok. by rewrite (reading_clients _ _ Hr).
Qed.

Lemma BeginRead_stored b : stored_ok b -> exists b', BeginRead b = Some b' /\ being_read b' /\ same_buffer b b' /\ chunk_table (index_ b') = chunk_table (index_ b) /\ work b' = work b.
Proof.
  intros Hb. pose proof Hb as [(w & pre & post & z & HI & Hw) Hc]. destruct (BeginRead_ok _ _ _ _ HI) as (b1 & E & [[HI1 _ Hm] Hsq]). rewrite BeginRead_moved in E.
  destruct (BeginRead b) as [b'|] eqn:E'; [|done]. cbn in E. simplify_eq. exists b'. split; [done|].
  destruct (BeginRead_work _ _ (stored_settled _ Hb) E') as (Hr & Hy & Hwk). unfold BeginRead in E'. destruct (GetReadIterForSequence _ _); [|done]. cbn in E'. simplify_eq.
  split; [|done]. split; [|done]. by eapply read_stored.
Qed.

(** *** Whose packet it is *)

Lemma chunk_props props fuel : forall b k d p b', read_chunk fuel b k props d = Some (OReturn p, b') -> sequence_properties p = props.
Proof.
  induction fuel as [|fuel IH]; intros b k d p b' H; [done|]. cbn [read_chunk] in H. destruct (map_find (index_ b) k) as [m|]; [|done]. cbn [mbind option_bind] in H.
  destruct (_ <? _); [|done]. destruct (next_action m).
  - destruct (ReadNextPacketInChunk _ _ _ _) as [[[r q] b1]|]; [|done]. cbn [mbind option_bind] in H. destruct (skip_packet _ _); [|done]. by eapply IH.
  - destruct (ReadNextPacketInChunk _ _ _ _) as [[[r q] b1]|]; [|done]. cbn [mbind option_bind] in H. destruct r; [by simplify_eq| |by eapply IH].
    by destruct (skip_packet _ _).
  - destruct (ReadAhead _ _ _) as [[[r q] b1]|]; [|done]. cbn [mbind option_bind] in H. destruct r; [by simplify_eq|done|]. destruct (cur _); [|done].
    cbn [mbind option_bind] in H. destruct (skip_packet _ _); [|done]. by eapply IH.
Qed.

(** A chunk of the sequence has the client of the packet. *)
Definition has_client (idx : ChunkMap) (props : PacketSequenceProperties) : Prop :=
  exists id off, (mkKey (producer_id_trusted props) (sp_writer_id props) id, off, client_identity props) ∈ chunk_table idx.

Lemma round_owner fuel b d p b' : read_round fuel b d = Some (OReturn p, b') -> has_client (index_ b) (sequence_properties p).
Proof.
  unfold read_round, deref. intros H. destruct (cur _) as [k|]; [|done]. cbn [mbind option_bind] in H. destruct (map_find _ _) as [m|] eqn:Em; [|done].
  cbn [mbind option_bind] in H. destruct (negb _); [done|]. rewrite (chunk_props _ _ _ _ _ _ _ H).
  apply map_find_elem in Em. exists (chunk_id k), (record_off m). apply list_elem_of_fmap. exists (k, m). by destruct k.
Qed.

Lemma loop_owner fuel n : forall b d p b', ready b -> read_loop n fuel b d = Some (Some p, b') -> has_client (index_ b) (sequence_properties p).
Proof.
  induction n as [|n IH]; intros b d p b' Hb H; [done|]. cbn [read_loop] in H.
  assert (Hgo : forall b d, ready b -> is_valid (read_iter_ b) = true -> ('(o, b) ← read_round fuel b d;
      match o with
      | OReturn p => Some (Some p, b)
      | OBreak dropped => it ← MoveNext (index_ b) (read_iter_ b); read_loop n fuel (with_iter b it) dropped
      end) = Some (Some p, b') -> has_client (index_ b) (sequence_properties p)).
  { clear H b d Hb. intros b d Hb Hv H. destruct (read_round fuel b d) as [[o b1]|] eqn:Er; [|done]. cbn [mbind option_bind] in H. destruct o as [q|d1].
    - simplify_eq. by eapply round_owner.
    - pose proof (round_work _ _ _ _ _ Hb Hv Er) as [H1 H2 _ _].
      destruct (MoveNext_ok _ _ (st_idx _ (ry_settled _ H2)) (ry_seq _ H2)) as (it & Em & Hq & Hrg & _). rewrite Em in H. cbn [mbind option_bind] in H.
      unfold has_client. rewrite <- (reading_table _ _ H1). eapply (IH (with_iter b1 it)); [by apply ready_iter|done]. }
  destruct (is_valid (read_iter_ b)) eqn:Hv; [by eapply Hgo|]. destruct (seq_end (read_iter_ b)) as [k|] eqn:Ee; [|done].
  destruct (GetReadIterForSequence b (Some k)) as [it|] eqn:Eg; [|done]. cbn [mbind option_bind] in H. destruct (is_valid it) eqn:Hvi; [|done]. cbn [negb] in H.
  eapply (Hgo (with_iter b it)); [|done..]. destruct (sq_end_key _ _ (ry_seq _ Hb) k Ee). eapply GetReadIter_ready; [apply Hb|done..].
Qed.

(** *** The next packet *)

(** No packet is larger than what the filter can take. *)
Definition kMaxPacketBytes : Z := 2 ^ 32 - 2 ^ 19.

Lemma next_stored fuel b :
  being_read b -> kEnoughFuel <= Z.of_nat fuel ->
  exists r b', ReadNextTracePacket fuel b = Some (r, b') /\ being_read b' /\ same_buffer b b' /\ chunk_table (index_ b') = chunk_table (index_ b) /\ work b' <= work b /\
    match r with
    | None => True
    | Some p => work b' < work b /\
        written_by b (producer_id_trusted (sequence_properties p)) (sp_writer_id (sequence_properties p)) (client_identity (sequence_properties p)) (slices p) /\
        exists l, read_slices b' (slices p) = Some l /\ bytes_ok (mjoin l) /\ Z.of_nat (length (mjoin l)) < kMaxPacketBytes
    end.
Proof.
  intros [Hb Hy] Hf. pose proof Hb as [(w & pre & post & z & HI & Hw) Hc].
  destruct (read_loop_ok fuel fuel (with_wptr b w) pre post z true HI (ry_seq _ Hy)) as (r & b1 & E & [[HI1 _ Hm] Hsq] & Hp); [unfold kEnoughFuel in Hf; lia| |].
  { pose proof (phi_bound _ _ _ _ HI). lia. }
  change (read_loop fuel fuel (with_wptr b w) true) with (ReadNextTracePacket fuel (with_wptr b w)) in E. rewrite ReadNextTracePacket_moved in E.
  destruct (ReadNextTracePacket fuel b) as [[r' b']|] eqn:E'; [|done]. cbn in E. injection E as -> <-. exists r, b'.
  split; [done|].
  destruct (ReadNext_work _ _ _ _ Hy E') as [Hr Hy' Hwk Hret]. destruct Hm as [M1 [K1 K2 K3 K4 K5 K6] M3 M4]. cbn in M1, K1, K2, K3, K4, K5, K6, M3, M4.
  assert (Hwp : wptr_ b' = wptr_ b).
  { pose proof (ReadNextTracePacket_moved (wptr_ b) fuel b) as Hx. rewrite with_wptr_id, E' in Hx. cbn in Hx. injection Hx as Hx. by rewrite Hx. }
  assert (Hb' : stored_ok b') by (by eapply (read_stored b)). split; [done|]. split; [done|]. split; [by apply reading_table|]. split; [done|].
  destruct r as [p|]; [|done]. destruct Hp as [(kq & Hs & Hpp & Hpw) _]. split; [by apply Hret|]. split.
  { split; [eapply (loop_owner fuel fuel b); [done|exact E']|]. rewrite Hpp, Hpw. by eapply (slices_in_chunk (with_wptr b w)). }
  destruct (tb_lay _ _ _ _ HI1) as [L1 L2 L3 L4 L5 L6]. cbn in L1, L2. rewrite app_assoc, <- layout_app in L1. assert (Hall : Forall rec_ok (pre ++ post)) by (by apply Forall_app).
  destruct (stored_slices_ok b' (pre ++ post) z kq (slices p) L1 Hall (proj1 (proj2 Hb')) Hs) as (l & El & Hl & Hlen). exists l. split; [done|]. split; [done|].
  pose proof (slices_bound _ _ _ Hall Hs) as Hbd. pose proof (stored_size _ Hb') as [Hsz _]. rewrite Hlen. unfold lsize in Hbd. rewrite L2, L1, length_app in Hsz. unfold kMaxPacketBytes. lia.
Qed.
