(* ===== verification/TraceBufferDchecks.v ===== *)
(** * Commits in order keep the reader's checks

    Three [DEJAVIEW_DCHECK]s of the reading half of src/tracing/service/trace_buffer.cc
    compare the fragments of a chunk that were read with the ones it has. Their outcome is
    recorded in [dchecks_held_]. A chunk that comes after a later one of its sequence was read
    makes them fail (see the end of TraceBufferRead.v); here is the converse: when every
    writer commits its chunks in the order of their ids, they hold. Behind this is an
    order on what was read of a sequence: a chunk is not read before all the chunks in front
    of it are complete and have been read to their end. *)

From S2P Require Import Prelude ProtoUtils Histogram TraceBuffer TraceBufferRead TraceBufferDrain ServiceBuffers.

(** ** The order of a sequence *)

Definition all_read (m : ChunkMeta) : Prop := is_complete m = true /\ num_fragments_read m = num_fragments m.

(** The chunks in front of [k] are done with. *)
Definition passed_over (idx : ChunkMap) (k : Key) : Prop :=
  forall k1 m1, map_find idx k1 = Some m1 -> same_seq k1 k -> chunk_id k1 < chunk_id k -> all_read m1.

(** The chunks behind [k] are untouched. *)
Definition fresh_after (idx : ChunkMap) (k : Key) : Prop :=
  forall k1 m1, map_find idx k1 = Some m1 -> same_seq k k1 -> chunk_id k < chunk_id k1 -> num_fragments_read m1 = 0.

Record ordered (idx : ChunkMap) : Prop := {
  od_range k m : map_find idx k = Some m -> 0 <= num_fragments_read m <= num_fragments m;
  od_seq k m k' m' : map_find idx k = Some m -> map_find idx k' = Some m' -> same_seq k k' -> chunk_id k < chunk_id k' ->
    0 < num_fragments_read m' -> all_read m }.

(** No chunk is newer than the last one on record. *)
Definition latest (last : gmap (Z * Z) Z) (idx : ChunkMap) : Prop :=
  forall k m, map_find idx k = Some m -> exists c, last !! (producer_id k, writer_id k) = Some c /\ chunk_id k <= c.

Record it_ordered (idx : ChunkMap) (it : SequenceIterator) : Prop := {
  io_begin kb : seq_begin it = Some kb -> first_of idx kb;
  io_wrap kb k : seq_begin it = Some kb -> has_key idx k -> same_seq kb k -> chunk_id k <= wrapping_id it;
  io_cur k : is_valid it = true -> cur it = Some k -> passed_over idx k }.

(** A buffer in the middle of a session. *)
Record in_step (b : TraceBuffer) : Prop := {
  in_ready : ready b;
  in_ordered : ordered (index_ b);
  in_latest : latest (last_chunk_id_written_ b) (index_ b);
  in_iter : it_ordered (index_ b) (read_iter_ b);
  in_held : dchecks_held_ b = true }.

Lemma same_seq_sym a b : same_seq a b -> same_seq b a.
Proof. unfold same_seq. intuition congruence. Qed.

Lemma same_seq_trans a b c : same_seq a b -> same_seq b c -> same_seq a c.
Proof. unfold same_seq. intuition congruence. Qed.

Lemma key_lt_seq a b : same_seq a b -> key_lt a b <-> chunk_id a < chunk_id b.
Proof. intros [E1 E2]. unfold key_lt. rewrite key_ltb_spec, E1, E2. lia. Qed.

(** The first chunk of a sequence has none in front. *)
Lemma first_passed idx k : first_of idx k -> passed_over idx k.
Proof.
  intros Hf k1 m1 Hm Hs Hlt. exfalso. assert (H : seq_ltb k1 k = true) by (apply Hf; [by eexists|by apply key_lt_seq]).
  destruct Hs as [E1 E2]. unfold seq_ltb in H. rewrite E1, E2 in H. lia.
Qed.

Lemma ordered_fresh idx k m : ordered idx -> map_find idx k = Some m -> num_fragments_read m < num_fragments m -> fresh_after idx k.
Proof.
  intros Ho Hm Hlt k1 m1 Hm1 Hs Hc. pose proof (od_range _ Ho k1 m1 Hm1). destruct (decide (num_fragments_read m1 = 0)); [done|].
  destruct (od_seq _ Ho k m k1 m1 Hm Hm1 Hs Hc); lia.
Qed.

(** A step of the iterator, from a chunk that was read to its end. *)
Lemma MoveNext_ordered idx it it' :
  idx_ok idx -> seq_ok idx it -> it_ordered idx it -> MoveNext idx it = Some it' ->
  (forall k m, is_valid it = true -> cur it = Some k -> map_find idx k = Some m -> num_fragments_read m = num_fragments m) ->
  it_ordered idx it'.
Proof.
  intros Hi Hsq [B W C] H Hdone. destruct (MoveNext_ok idx it Hi Hsq) as (it2 & E & Hsq2 & (R1 & R2 & R3) & Hd). rewrite H in E. injection E as <-.
  split; [by rewrite R1|by rewrite R1, R3|]. intros k' Hv' Ek'. destruct (Hd Hv') as [Hv _]. pose proof Hv as Hv2. unfold is_valid in Hv2.
  destruct (is_valid_key idx it Hi Hsq Hv) as (kb & k & Eb & Ek & Hkb & [m Hm] & Hs). unfold MoveNext in H.
  destruct (bool_decide (cur it = seq_end it)); [done|]. rewrite Ek in H. unfold deref in H. cbn [mbind option_bind] in H. rewrite Hm in H. cbn [mbind option_bind] in H.
  assert (Hend : forall x, Some (MoveToEnd it) = Some x -> is_valid x = false) by (intros x [= <-]; by destruct (MoveToEnd_ok idx it Hsq) as (_ & _ & ?)).
  destruct (chunk_id k =? wrapping_id it); [by rewrite (Hend it') in Hv'|].
  destruct (is_complete m) eqn:Ec; cbn [negb] in H; [|by rewrite (Hend it') in Hv'].
  set (nxt := if bool_decide _ then _ else _) in H. destruct nxt as [x|] eqn:En; [|done]. cbn [mbind option_bind] in H.
  destruct (map_find idx x); [|done]. cbn [mbind option_bind] in H. destruct (_ =? chunk_id x); [|by rewrite (Hend it') in Hv'].
  injection H as <-. cbn in Ek'. simplify_eq. case_bool_decide; [apply first_passed, B; congruence|].
  destruct (upper_bound_Some _ _ _ (proj1 Hi) En) as (Hk' & Hlt & Hleast). intros k1 m1 Hm1 Hs1 Hc1.
  assert (Hn : ~ key_lt k k1) by (intros Hk1; by apply (Hleast k1); [by eexists| |apply key_lt_seq]).
  assert (Hs' : same_seq k k').
  { apply (same_seq_trans _ kb); [by apply same_seq_sym|]. by destruct (is_valid_key idx _ Hi Hsq2 Hv') as (kb2 & x2 & Eb2 & Ex2 & _ & _ & Hs2); cbn in Eb2, Ex2; simplify_eq. }
  rewrite key_lt_seq in Hn by (eapply same_seq_trans, same_seq_sym; done).
  destruct (decide (chunk_id k1 = chunk_id k)) as [Eid|Nid].
  - assert (k1 = k) as -> by (destruct k1, k, Hs1, Hs'; cbn in *; congruence). simplify_eq. split; [done|by eapply Hdone].
  - apply (C k Hv Ek k1 m1 Hm1); [eapply same_seq_trans, same_seq_sym; done|lia].
Qed.

Lemma MoveNext_forward idx it it' k k' :
  idx_ok idx -> seq_ok idx it -> it_ordered idx it -> MoveNext idx it = Some it' -> is_valid it' = true -> cur it = Some k -> cur it' = Some k' ->
  same_seq k k' /\ chunk_id k < chunk_id k'.
Proof.
  intros Hi Hsq [_ W _] H Hv' Ek Ek'. destruct (MoveNext_ok idx it Hi Hsq) as (it2 & E & Hsq2 & Hr & Hd). rewrite H in E. injection E as <-.
  destruct (Hd Hv') as [Hv Hdist]. destruct (is_valid_key idx it Hi Hsq Hv) as (kb & x & Eb & Ex & _ & Hk & Hs).
  destruct (is_valid_key idx it' Hi Hsq2 Hv') as (kb' & x' & Eb' & Ex' & _ & Hk' & Hs'). simplify_eq. destruct Hr as (R1 & _ & R3). rewrite R1, Eb in Eb'. simplify_eq.
  split; [by apply (same_seq_trans _ kb'); [apply same_seq_sym|]|].
  pose proof (W kb' k Eb Hk Hs). pose proof (W kb' k' Eb Hk' Hs'). destruct (proj2 Hi k Hk), (proj2 Hi k' Hk'), (sq_wid _ _ Hsq).
  unfold dist in Hdist. rewrite Ek, Ek', R3, !Z.mod_small in Hdist by lia. lia.
Qed.

(** ** Reading one fragment *)

(** More of the chunk [k] was read, in its turn, or nothing. *)
Definition reads_on (idx : ChunkMap) (k : Key) (m m' : ChunkMeta) : Prop :=
  0 <= num_fragments_read m' <= num_fragments m' /\
  (num_fragments_read m' = num_fragments_read m \/ (num_fragments_read m < num_fragments m /\ passed_over idx k)).

Section Update.
Context (idx : ChunkMap) (k : Key) (m m' : ChunkMeta).
Context (Hm : map_find idx k = Some m) (Hsame : same_chunk m m') (Hr : reads_on idx k m m').

Lemma find_updated k1 m1 : map_find (map_update idx k m') k1 = Some m1 -> (k1 = k /\ m1 = m') \/ (k1 <> k /\ map_find idx k1 = Some m1).
Proof. rewrite find_update, Hm. destruct (decide (k = k1)) as [->|]; [intros [= <-]; by left|intros ?; by right]. Qed.

Lemma all_read_updated : all_read m -> all_read m'.
Proof.
  intros [H1 H2]. destruct Hsame as [E1 _ E3 _ _], Hr as [_ [H3|[H3 _]]]; [|lia]. split; [congruence|congruence].
Qed.

Lemma passed_updated k1 : passed_over idx k1 -> passed_over (map_update idx k m') k1.
Proof.
  intros Hp k2 m2 [[-> ->]|[_ Hm2]]%find_updated Hs Hc; [by eapply all_read_updated, Hp|by eapply Hp].
Qed.

Lemma ordered_updated : ordered idx -> ordered (map_update idx k m').
Proof.
  intros Ho. split.
  - intros k1 m1 [[-> ->]|[_ Hm1]]%find_updated; [apply Hr|by eapply od_range].
  - intros k1 m1 k2 m2 [[-> ->]|[N1 Hm1]]%find_updated [[-> ->]|[N2 Hm2]]%find_updated Hs Hc Hpos; [lia| | |by eapply (od_seq _ Ho k1 m1 k2 m2)].
    + by eapply all_read_updated, (od_seq _ Ho k m k2 m2).
    + destruct Hr as [_ [E|[_ Hp]]]; [apply (od_seq _ Ho k1 m1 k m Hm1 Hm Hs Hc); lia|by eapply Hp].
Qed.

Lemma latest_updated last : latest last idx -> latest last (map_update idx k m').
Proof. intros Hl k1 m1 [[-> _]|[_ Hm1]]%find_updated; by eapply Hl. Qed.

Lemma it_updated it : it_ordered idx it -> it_ordered (map_update idx k m') it.
Proof.
  pose proof (same_chunks_sim _ _ (same_chunks_update idx k m m' Hm Hsame)) as Hs. intros [B W C]. split.
  - intros kb Eb k2. rewrite <- (sim_has_key _ _ k2 Hs). by apply B.
  - intros kb k2 Eb. rewrite <- (sim_has_key _ _ k2 Hs). by apply W.
  - intros k2 Hv Ek. by apply passed_updated, C.
Qed.

(** The whole state after an update of one entry. *)
Lemma in_step_updated b b' :
  index_ b = idx -> in_step b -> ready b' -> index_ b' = map_update idx k m' -> last_chunk_id_written_ b' = last_chunk_id_written_ b ->
  read_iter_ b' = read_iter_ b -> dchecks_held_ b' = true -> in_step b'.
Proof.
  intros E [_ Ho Hl Hit _] Hy Ei El Er Hd. rewrite E in Ho, Hl, Hit. split; rewrite ?Ei, ?El, ?Er; [done|by apply ordered_updated|by apply latest_updated|by apply it_updated|done].
Qed.
End Update.

Definition readable (m : ChunkMeta) : bool := (num_fragments_read m <? num_fragments m) && (flags m .& kChunkNeedsPatching =? 0).

Lemma fragment_held b pw k p r p' b' m :
  ReadNextPacketInChunk b pw k p = Some (r, p', b') -> map_find (index_ b) k = Some m ->
  dchecks_held_ b' = dchecks_held_ b && readable m /\
  (r = kFailedInvalidPacket -> forall m', map_find (index_ b') k = Some m' -> num_fragments_read m' = num_fragments m).
Proof.
  intros H Hm. unfold ReadNextPacketInChunk in H. rewrite Hm in H. cbn [mbind option_bind] in H. fold (readable m) in H. set (bd := dcheck b _) in H.
  destruct (negb _); [done|]. destruct (mem_read _ _ 16) as [hdr|]; [|done]. cbn [mbind option_bind] in H.
  assert (Hinv : forall size why, dchecks_held_ (invalid_packet bd k m size why) = dchecks_held_ b && readable m /\
    (forall m', map_find (index_ (invalid_packet bd k m size why)) k = Some m' -> num_fragments_read m' = num_fragments m)).
  { intros size why. unfold invalid_packet, count_chunk_read. destruct (is_complete _); (split; [done|]); intros m'; cbn; change (index_ bd) with (index_ b);
      rewrite find_update, decide_True, Hm by done; by intros [= <-]. }
  destruct (_ || _); [simplify_eq; by split; [apply Hinv|intros _; apply Hinv]|]. destruct (mem_read _ _ _) as [oct|]; [|done]. cbn [mbind option_bind] in H.
  destruct (ParseVarInt oct) as [n v]. destruct (_ || _); [simplify_eq; by split; [apply Hinv|intros _; apply Hinv]|].
  set (m1 := set_read_state m _ _) in H. destruct (_ && is_complete m1), (v =? 0); simplify_eq; by split.
Qed.

(** A fragment in its turn. *)
Lemma fragment_in_step b pw k p r p' b' m :
  in_step b -> ReadNextPacketInChunk b pw k p = Some (r, p', b') -> map_find (index_ b) k = Some m -> readable m = true -> passed_over (index_ b) k ->
  exists m', in_step b' /\ map_find (index_ b') k = Some m' /\ read_on m m' /\ num_fragments_read m < num_fragments_read m' <= num_fragments m /\
    reading b b' /\ read_iter_ b' = read_iter_ b /\ (r = kFailedInvalidPacket -> num_fragments_read m' = num_fragments m) /\
    (forall k1, passed_over (index_ b) k1 -> passed_over (index_ b') k1).
Proof.
  intros Hb H Hm Hrd Hp. pose proof (in_ready _ Hb) as Hy. destruct (wide_find _ _ _ (st_wide _ (ry_settled _ Hy)) Hm) as [Wn Wr].
  destruct (fragment_read _ _ _ _ _ _ _ _ H Hm) as (m' & Hi & Hro & Hl & Hit). destruct (fragment_work _ _ _ _ _ _ _ _ Hy H Hm) as (m2 & Hm2 & _ & Hr & Hy' & _).
  destruct (fragment_held _ _ _ _ _ _ _ _ H Hm) as [Hd Hinv]. exists m'. assert (Hm' : map_find (index_ b') k = Some m') by (by rewrite Hi, find_update, decide_True, Hm).
  unfold readable in Hrd. apply andb_true_iff in Hrd as [Hlt%Z.ltb_lt Hpatch].
  assert (Hn : num_fragments_read m < num_fragments_read m' <= num_fragments m).
  { destruct Hro as [_ [-> | ->]]; [lia|]. unfold u16, is_u16 in *. rewrite Z.mod_small by lia. lia. }
  assert (Hro' : reads_on (index_ b) k m m').
  { pose proof (sc_num _ _ (ro_same _ _ Hro)). unfold is_u16 in *. split; [lia|]. by right. }
  split; [|split_and!; try done; [lia|lia|by intros; apply Hinv|]].
  - apply (in_step_updated (index_ b) k m m' Hm (ro_same _ _ Hro) Hro' b b'); try done. rewrite Hd, (in_held _ Hb). unfold readable. rewrite (proj2 (Z.ltb_lt _ _)) by done. done.
  - intros k1 Hp1. rewrite Hi. by apply (passed_updated (index_ b) k m m' Hm (ro_same _ _ Hro) Hro').
Qed.

Lemma skip_in_step b k b' : in_step b -> skip_packet b k = Some b' ->
  in_step b' /\ reading b b' /\ read_iter_ b' = read_iter_ b /\
  (forall k1 m1, map_find (index_ b') k1 = Some m1 -> exists m0, map_find (index_ b) k1 = Some m0 /\ num_fragments m1 = num_fragments m0 /\
    num_fragments_read m1 = num_fragments_read m0 /\ flags m1 = flags m0).
Proof.
  intros Hb H. pose proof (skip_work _ _ _ (in_ready _ Hb) H) as (Hr & Hy & Hit & _). unfold skip_packet in H.
  destruct (map_find (index_ b) k) as [m|] eqn:Hm; [|done]. cbn [mbind option_bind] in H. simplify_eq. set (m' := set_last_read_packet_skipped m true) in *.
  assert (Hs : same_chunk m m') by (split; [done..|apply complete_skipped|done|done]).
  assert (Hro : reads_on (index_ b) k m m') by (split; [apply (od_range _ (in_ordered _ Hb) k m Hm)|by left]).
  split; [by apply (in_step_updated (index_ b) k m m' Hm Hs Hro b); try done; apply Hb|]. split; [done|]. split; [done|].
  intros k1 m1 H1. cbn in H1. apply (find_updated (index_ b) k m m' Hm) in H1 as [[-> ->]|[_ H1]]; eauto.
Qed.

(** ** Read-ahead *)

Definition patched (m : ChunkMeta) : Prop := (flags m .& kChunkNeedsPatching =? 0) = true.

(** What the search promises of the chunks from [it] to the one at [stop]: each has one
    fragment or none, the last at least one, and none waits for a patch. *)
Inductive clear_to (idx : ChunkMap) (stop : option Key) : SequenceIterator -> Prop :=
| clear_here it k m : is_valid it = true -> cur it = Some k -> stop = Some k -> map_find idx k = Some m ->
    num_fragments m <> 0 -> patched m -> clear_to idx stop it
| clear_next it k m it1 : is_valid it = true -> cur it = Some k -> map_find idx k = Some m ->
    num_fragments m = 0 \/ (num_fragments m = 1 /\ patched m) -> MoveNext idx it = Some it1 -> clear_to idx stop it1 -> clear_to idx stop it.

Lemma search_clear idx fuel : forall it next it', readahead_search fuel idx it next = Some (Some it') -> clear_to idx (cur it') it.
Proof.
  induction fuel as [|fuel IH]; intros it next it' H; [done|]. cbn [readahead_search] in H. destruct (is_valid it) eqn:Hv; [|done]. cbn [negb] in H.
  unfold deref in H. destruct (cur it) as [k|] eqn:Ek; [|done]. cbn [mbind option_bind] in H. destruct (map_find idx k) as [m|] eqn:Em; [|done]. cbn [mbind option_bind] in H.
  assert (Hgo : num_fragments m = 0 \/ (num_fragments m = 1 /\ patched m) ->
    (it0 ← MoveNext idx it; readahead_search fuel idx it0 (u32 (next + 1))) = Some (Some it') -> clear_to idx (cur it') it).
  { intros Hc Hs. destruct (MoveNext idx it) as [it1|] eqn:Emv; [|done]. cbn [mbind option_bind] in Hs. eapply clear_next; eauto. }
  destruct (Z.eqb_spec (num_fragments m) 0) as [E0|E0]; [by apply Hgo; [left|]|]. destruct (_ || _); [done|].
  destruct (flags m .& kChunkNeedsPatching =? 0) eqn:Ep; [|done]. cbn [negb] in H. destruct (Z.eqb_spec (num_fragments m) 1) as [E1|]; cbn [andb] in H.
  - destruct (negb _); [by apply Hgo; [right|]|]. simplify_eq. by eapply clear_here.
  - simplify_eq. by eapply clear_here.
Qed.

Lemma clear_valid idx stop it : clear_to idx stop it -> is_valid it = true.
Proof. by destruct 1. Qed.

Lemma clear_stop idx stop it : clear_to idx stop it -> exists k m, stop = Some k /\ map_find idx k = Some m /\ patched m.
Proof. induction 1 as [it k m _ _ Est Hm _ Hp|]; [by exists k, m|done]. Qed.

Lemma clear_same idx idx' stop it : same_chunks idx idx' -> idx_ok idx -> seq_ok idx it -> clear_to idx stop it -> clear_to idx' stop it.
Proof.
  intros Hs Hi Hsq H. pose proof (same_chunks_sim _ _ Hs) as Hsim. induction H as [it k m Hv Ek Est Hm Hn Hp|it k m it1 Hv Ek Hm Hn Emv Hc IH].
  - destruct (same_chunks_find _ _ _ _ Hs Hm) as (m' & Hm' & [E1 E2 _ _ _]). eapply clear_here; [done..|congruence|]. unfold patched. by rewrite E2.
  - destruct (same_chunks_find _ _ _ _ Hs Hm) as (m' & Hm' & [E1 E2 _ _ _]). destruct (MoveNext_ok idx it Hi Hsq) as (it2 & E & Hsq2 & _). simplify_eq.
    eapply (clear_next _ _ _ k m'); [done..| | |by apply IH]; [unfold patched; by rewrite E1, E2|by rewrite (sim_MoveNext idx)].
Qed.

(** The chunk the commit loop is at: a fragment of it is there to be read, the last one
    unless the loop ends here. *)
Definition at_turn (m : ChunkMeta) (stop : Prop) : Prop :=
  num_fragments m = 0 \/ (patched m /\ num_fragments_read m < num_fragments m /\ (stop \/ num_fragments_read m = num_fragments m - 1)).

(** One round of the commit. *)
Lemma commit_round b k m packet corrupt p1 c1 b1 (stop : Prop) :
  in_step b -> is_valid (read_iter_ b) = true -> cur (read_iter_ b) = Some k -> map_find (index_ b) k = Some m -> at_turn m stop ->
  (if 0 <? num_fragments m then
     '(r, p, b) ← ReadNextPacketInChunk b (MkProducerAndWriterID (producer_id k) (writer_id k)) k (Some packet);
     Some (default [] p, corrupt || bool_decide (r = kFailedInvalidPacket), b) else Some (packet, corrupt, b)) = Some (p1, c1, b1) ->
  in_step b1 /\ reading b b1 /\ read_iter_ b1 = read_iter_ b /\
  (forall m1, map_find (index_ b1) k = Some m1 -> ~ stop -> num_fragments_read m1 = num_fragments m1) /\
  (forall k1 m1, k1 <> k -> map_find (index_ b1) k1 = Some m1 -> map_find (index_ b) k1 = Some m1).
Proof.
  intros Hb Hv Ek Hm Ht H. pose proof (od_range _ (in_ordered _ Hb) k m Hm) as Hrange. destruct (Z.ltb_spec 0 (num_fragments m)) as [Hn|Hn].
  - destruct (ReadNextPacketInChunk _ _ _ _) as [[[r q] b2]|] eqn:Ef; [|done]. cbn [mbind option_bind] in H. simplify_eq.
    destruct Ht as [|(Hpat & Hlt & Hlast)]; [lia|].
    assert (Hrd : readable m = true) by (unfold readable; rewrite (proj2 (Z.ltb_lt _ _)); done).
    destruct (fragment_in_step _ _ _ _ _ _ _ _ Hb Ef Hm Hrd (io_cur _ _ (in_iter _ Hb) k Hv Ek)) as (m' & Hb1 & Hm' & Hro & Hgt & Hr & Hit & _).
    destruct (fragment_read _ _ _ _ _ _ _ _ Ef Hm) as (m2 & Hi & _). split_and!; try done.
    + intros m1 Hm1 Hns. rewrite Hm' in Hm1. injection Hm1 as <-. pose proof (sc_num _ _ (ro_same _ _ Hro)). destruct Hlast; [done|lia].
    + intros k1 m1 Hne. by rewrite Hi, find_update, decide_False.
  - simplify_eq. split_and!; try done. intros m1 Hm1 _. rewrite Hm in Hm1. injection Hm1 as <-. lia.
Qed.

Lemma commit_in_step fuel : forall b stop packet corrupt p' c' b' k m,
  in_step b -> is_valid (read_iter_ b) = true -> cur (read_iter_ b) = Some k -> map_find (index_ b) k = Some m ->
  at_turn m (stop = Some k) -> fresh_after (index_ b) k ->
  (stop <> Some k -> exists it1, MoveNext (index_ b) (read_iter_ b) = Some it1 /\ clear_to (index_ b) stop it1) ->
  readahead_commit fuel b stop packet corrupt = Some (p', c', b') ->
  in_step b' /\ reading b b' /\ is_valid (read_iter_ b') = true /\ cur (read_iter_ b') = stop /\ same_range (read_iter_ b) (read_iter_ b').
Proof.
  induction fuel as [|fuel IH]; intros b stop packet corrupt p' c' b' k m Hb Hv Ek Hm Ht Hfresh Hnext H; [done|]. cbn [readahead_commit] in H.
  rewrite Hv in H. cbn [negb] in H. rewrite Ek in H. unfold deref in H. cbn [mbind option_bind] in H. rewrite Hm in H. cbn [mbind option_bind] in H.
  match type of H with (?x ≫= _) = _ => destruct x as [[[p1 c1] b1]|] eqn:Ex; [|done] end. cbn [mbind option_bind] in H.
  destruct (commit_round b k m packet corrupt p1 c1 b1 (stop = Some k) Hb Hv Ek Hm Ht Ex) as (Hb1 & Hr & Hit & Hdone & Hother).
  rewrite Hit, Ek in H. case_bool_decide as Hst; [simplify_eq; rewrite Hit; by split_and!|]. assert (Hns : stop <> Some k) by congruence.
  destruct (Hnext Hns) as (it1 & Emv & Hc). pose proof (st_idx _ (ry_settled _ (in_ready _ Hb))) as Hi. pose proof (ry_seq _ (in_ready _ Hb)) as Hsq.
  pose proof (st_idx _ (ry_settled _ (in_ready _ Hb1))) as Hi1. pose proof (ry_seq _ (in_ready _ Hb1)) as Hsq1. rewrite Hit in Hsq1.
  pose proof (same_chunks_sim _ _ (rd_same _ _ Hr)) as Hs. assert (Emv1 : MoveNext (index_ b1) (read_iter_ b) = Some it1) by (by rewrite (sim_MoveNext (index_ b))).
  rewrite Emv1 in H. cbn [mbind option_bind] in H. pose proof (clear_valid _ _ _ Hc) as Hv1.
  destruct (MoveNext_ok _ _ Hi1 Hsq1) as (ity & Ey & Hq1 & Hrg & _). rewrite Emv1 in Ey. injection Ey as <-.
  assert (Hc1 : clear_to (index_ b1) stop it1).
  { eapply clear_same; [apply Hr|done| |done]. destruct (MoveNext_ok _ _ Hi Hsq) as (itz & Ez & Hqz & _). rewrite Emv in Ez. by injection Ez as <-. }
  destruct (is_valid_key _ _ Hi1 Hq1 Hv1) as (_ & k1 & _ & Ek1 & _ & [m1 Hm1] & _). pose proof (in_iter _ Hb1) as Hio. rewrite Hit in Hio.
  destruct (MoveNext_forward _ _ _ k k1 Hi1 Hsq1 Hio Emv1 Hv1 Ek Ek1) as [Hs1 Hlt1].
  assert (Hio1 : it_ordered (index_ b1) it1).
  { eapply (MoveNext_ordered _ _ _ Hi1 Hsq1 Hio Emv1). intros x mx _ Ex1 Hmx. rewrite Ek in Ex1. injection Ex1 as <-. by apply Hdone. }
  assert (Hz : num_fragments_read m1 = 0) by (apply (Hfresh k1); [|done|done]; apply Hother; [intros ->; lia|done]).
  destruct (IH (with_iter b1 it1) stop p1 c1 p' c' b' k1 m1) as (J1 & J2 & J3 & J4 & J5); try done.
  - destruct Hb1 as [Y1 Y2 Y3 Y4 Y5]. split; try done. apply ready_iter; [done..|by rewrite Hit].
  - inversion Hc1 as [it k2 m2 _ Ek2 Est Hm2 Hn2 Hp2|it k2 m2 it2 _ Ek2 Hm2 Hn2 _ _]; simplify_eq; pose proof (od_range _ (in_ordered _ Hb1) k1 m1 Hm1); unfold at_turn.
    + right. split; [done|]. split; [lia|by left].
    + destruct Hn2 as [|[? ?]]; [by left|]. right. split; [done|]. split; [lia|]. right. lia.
  - intros k2 m2 Hm2 Hs2 Hlt2. apply (Hfresh k2); [apply Hother; [intros ->; lia|done]|by eapply same_seq_trans|lia].
  - intros Hns1. inversion Hc1 as [it k2 m2 _ Ek2 Est Hm2 Hn2 Hp2|it k2 m2 it2 _ Ek2 Hm2 Hn2 Emv2 Hc2]; simplify_eq. by exists it2.
  - cbn [with_iter read_iter_] in J5. split_and!; try done; [etrans; [exact Hr|]; by destruct J2; split|by eapply same_range_trans].
Qed.

(** The last fragment of a chunk, when it continues. *)
Lemma readahead_last m : num_fragments_read m < num_fragments m -> 0 <= num_fragments_read m -> next_action m = kTryReadAhead -> num_fragments_read m = num_fragments m - 1.
Proof.
  intros Hlt H0 H. unfold next_action in H. destruct (Z.eqb_spec (num_fragments_read m) 0).
  - destruct (negb _); [done|]. destruct (Z.eqb_spec (num_fragments m) 1); [lia|done].
  - destruct (Z.ltb_spec (num_fragments_read m) (num_fragments m - 1)); [done|lia].
Qed.

Lemma ahead_in_step fuel b p r p' b' k m :
  in_step b -> is_valid (read_iter_ b) = true -> cur (read_iter_ b) = Some k -> map_find (index_ b) k = Some m -> next_action m = kTryReadAhead ->
  num_fragments_read m < num_fragments m -> patched m -> ReadAhead fuel b p = Some (r, p', b') ->
  match r with
  | kFailedMoveToNextSequence => b' = b
  | _ => in_step b' /\ reading b b' /\ is_valid (read_iter_ b') = true /\ exists k1 m1, cur (read_iter_ b') = Some k1 /\ map_find (index_ b') k1 = Some m1 /\ patched m1
  end.
Proof.
  intros Hb Hv Ek Em Ha Hlt Hp H. unfold ReadAhead in H. rewrite Ek in H. unfold deref in H. cbn [mbind option_bind] in H. rewrite Em in H. cbn [mbind option_bind] in H.
  pose proof (st_idx _ (ry_settled _ (in_ready _ Hb))) as Hi. pose proof (ry_seq _ (in_ready _ Hb)) as Hsq. pose proof (od_range _ (in_ordered _ Hb) k m Em) as Hrange.
  destruct (MoveNext_ok _ _ Hi Hsq) as (it0 & Emv & Hq0 & Hrg0 & _). rewrite Emv in H. cbn [mbind option_bind] in H.
  destruct (readahead_search _ _ _ _) as [[it'|]|] eqn:Es; [|cbn in H; by simplify_eq|done]. cbn [mbind option_bind] in H. apply search_clear in Es.
  destruct (readahead_commit _ _ _ _ _) as [[[q c] b1]|] eqn:Ec; [|done]. cbn [mbind option_bind] in H.
  destruct (clear_stop _ _ _ Es) as (k1 & m1 & Ek1 & Hm1 & Hp1).
  destruct (commit_in_step fuel b (cur it') p false q c b1 k m Hb Hv Ek Em) as (C1 & C2 & C3 & C4 & C5); [|by eapply ordered_fresh; [apply Hb|..]|by exists it0|done|].
  { right. split; [done|]. split; [done|]. right. apply readahead_last; [done|lia|done]. }
  destruct (same_chunks_find _ _ _ _ (rd_same _ _ C2) Hm1) as (m1' & Hm1' & [_ E2 _ _ _]).
  assert (Hgo : exists k1 m1, cur (read_iter_ b1) = Some k1 /\ map_find (index_ b1) k1 = Some m1 /\ patched m1).
  { exists k1, m1'. rewrite C4. split_and!; try done. unfold patched. by rewrite E2. }
  destruct c; simplify_eq; by split_and!.
Qed.

(** ** The loops *)

(** The chunk at the iterator, if any, was read to its end. *)
Definition at_end (b : TraceBuffer) : Prop :=
  forall k m, is_valid (read_iter_ b) = true -> cur (read_iter_ b) = Some k -> map_find (index_ b) k = Some m -> num_fragments_read m = num_fragments m.

Lemma in_step_to_end b b' : in_step b -> index_ b' = index_ b -> last_chunk_id_written_ b' = last_chunk_id_written_ b ->
  read_iter_ b' = MoveToEnd (read_iter_ b) -> dchecks_held_ b' = true -> in_step b' /\ at_end b'.
Proof.
  intros [[Hst Hsq Hw] Ho Hl [B W _] _] Ei El Er Hd. destruct (MoveToEnd_ok _ _ Hsq) as (M1 & (R1 & R2 & R3) & M3).
  split; [|intros k m Hv; by rewrite Er, M3 in Hv]. split; rewrite ?Ei, ?El, ?Er; try done.
  - split; rewrite ?Ei, ?El, ?Er; [|done|by rewrite R1, R3]. destruct Hst. by split; rewrite ?Ei, ?El.
  - split; [by rewrite R1|by rewrite R1, R3|by rewrite M3].
Qed.

Lemma in_step_iter b it : in_step b -> seq_ok (index_ b) it -> same_range (read_iter_ b) it -> it_ordered (index_ b) it -> in_step (with_iter b it).
Proof. intros [Y O L _ D] Hq Hr Hi. split; try done. by apply ready_iter. Qed.

(** A statistic. *)
Lemma in_step_stat b s n : in_step b -> in_step (stat_inc b s n).
Proof. intros [[S Q W] O L I D]. split; try done. split; try done. by destruct S; split. Qed.

Lemma chunk_in_step props fuel : forall b k d o b' m,
  in_step b -> is_valid (read_iter_ b) = true -> cur (read_iter_ b) = Some k -> map_find (index_ b) k = Some m -> patched m ->
  read_chunk fuel b k props d = Some (o, b') -> in_step b' /\ (is_return o = false -> at_end b').
Proof.
  induction fuel as [|fuel IH]; intros b k d o b' m Hb Hv Ek Em Hp H; [done|]. cbn [read_chunk] in H. rewrite Em in H. cbn [mbind option_bind] in H.
  pose proof (od_range _ (in_ordered _ Hb) k m Em) as Hrange. pose proof (io_cur _ _ (in_iter _ Hb) k Hv Ek) as Hpo.
  destruct (Z.ltb_spec (num_fragments_read m) (num_fragments m)) as [Hlt|Hge].
  2: { simplify_eq. split; [done|]. intros _ k1 m1 _ Ek1 Hm1. simplify_eq. lia. }
  assert (Hrd : readable m = true) by (unfold readable; by rewrite (proj2 (Z.ltb_lt _ _))).
  destruct (next_action m) eqn:Ea.
  - destruct (ReadNextPacketInChunk _ _ _ _) as [[[r q] b1]|] eqn:Ef; [|done]. cbn [mbind option_bind] in H.
    destruct (fragment_in_step _ _ _ _ _ _ _ _ Hb Ef Em Hrd Hpo) as (m1 & Hb1 & Hm1 & Hro & _ & _ & Hit & _).
    destruct (skip_packet b1 k) as [b2|] eqn:Esk; [|done]. cbn [mbind option_bind] in H. destruct (skip_in_step _ _ _ Hb1 Esk) as (Hb2 & Hr2 & Hit2 & _).
    destruct (same_chunks_find _ _ _ _ (rd_same _ _ Hr2) Hm1) as (m2 & Hm2 & S2).
    eapply (IH b2 k _ _ _ m2 Hb2); [by rewrite Hit2, Hit..|done| |done]. unfold patched in *. by rewrite (sc_flags _ _ S2), (sc_flags _ _ (ro_same _ _ Hro)).
  - destruct (ReadNextPacketInChunk _ _ _ _) as [[[r q] b1]|] eqn:Ef; [|done]. cbn [mbind option_bind] in H.
    destruct (fragment_in_step _ _ _ _ _ _ _ _ Hb Ef Em Hrd Hpo) as (m1 & Hb1 & Hm1 & Hro & _ & _ & Hit & Hinv & _).
    destruct r; [by simplify_eq| |].
    + destruct (skip_packet b1 k) as [b2|] eqn:Esk; [|done]. cbn [mbind option_bind] in H. destruct (skip_in_step _ _ _ Hb1 Esk) as (Hb2 & _ & Hit2 & Hk2). simplify_eq.
      split; [done|]. intros _ k2 m2 _ Ek2 Hm2. rewrite Hit2, Hit, Ek in Ek2. simplify_eq. destruct (Hk2 _ _ Hm2) as (m3 & Hm3 & -> & -> & _). simplify_eq.
      rewrite Hinv by done. by rewrite (sc_num _ _ (ro_same _ _ Hro)).
    + eapply (IH b1 k _ _ _ m1 Hb1); [by rewrite Hit..|done| |done]. unfold patched in *. by rewrite (sc_flags _ _ (ro_same _ _ Hro)).
  - destruct (ReadAhead _ _ _) as [[[r q] b1]|] eqn:Er; [|done]. cbn [mbind option_bind] in H. pose proof (ahead_in_step _ _ _ _ _ _ _ _ Hb Hv Ek Em Ea Hlt Hp Er) as Hra.
    destruct r.
    + destruct Hra as (Hb1 & _). simplify_eq. split; [by apply in_step_stat|done].
    + subst b1. simplify_eq. destruct (in_step_to_end b (with_iter (stat_inc b readaheads_failed 1) (MoveToEnd (read_iter_ b))) Hb); try done. apply Hb.
    + destruct Hra as (Hb1 & _ & Hv1 & k1 & m1 & Ek1 & Hm1 & Hp1). rewrite Ek1 in H. cbn [mbind option_bind] in H.
      destruct (skip_packet b1 k1) as [b2|] eqn:Esk; [|done]. cbn [mbind option_bind] in H. destruct (skip_in_step _ _ _ Hb1 Esk) as (Hb2 & Hr2 & Hit2 & _).
      destruct (same_chunks_find _ _ _ _ (rd_same _ _ Hr2) Hm1) as (m2 & Hm2 & S2).
      eapply (IH b2 k1 _ _ _ m2 Hb2); [by rewrite Hit2..|done| |done]. unfold patched in *. by rewrite (sc_flags _ _ S2).
Qed.

Lemma round_in_step fuel b d o b' : in_step b -> is_valid (read_iter_ b) = true -> read_round fuel b d = Some (o, b') -> in_step b' /\ (is_return o = false -> at_end b').
Proof.
  intros Hb Hv H. unfold read_round in H. destruct (cur (read_iter_ b)) as [k|] eqn:Ek; [|done]. unfold deref in H. cbn [mbind option_bind] in H.
  destruct (map_find _ _) as [m|] eqn:Em; [|done]. cbn [mbind option_bind] in H. destruct (flags m .& kChunkNeedsPatching =? 0) eqn:Ep; cbn [negb] in H.
  - set (bd := dcheck b _) in H. eapply (chunk_in_step _ fuel bd); [|done..]. pose proof (od_range _ (in_ordered _ Hb) k m Em).
    destruct Hb as [[S Q W] O L I D]. split; try done; [split; try done; by destruct S; split|]. cbn. by rewrite D, (proj2 (Z.leb_le _ _)) by lia.
  - simplify_eq. destruct (in_step_to_end b (with_iter b (MoveToEnd (read_iter_ b))) Hb); try done. apply Hb.
Qed.

Lemma GetReadIter_in_step b k it :
  settled b -> ordered (index_ b) -> latest (last_chunk_id_written_ b) (index_ b) -> dchecks_held_ b = true ->
  has_key (index_ b) k -> first_of (index_ b) k -> GetReadIterForSequence b (Some k) = Some it -> in_step (with_iter b it).
Proof.
  intros Hst Ho Hl Hd Hk Hfirst E. pose proof (GetReadIter_ready b k it Hst E Hk Hfirst) as Hy. split; try done. cbn. pose proof Hk as [m Hm].
  unfold GetReadIterForSequence, deref in E. cbn [mbind option_bind] in E. rewrite Hm in E. cbn [mbind option_bind] in E. rewrite map_prev_first in E by done.
  cbn [mbind option_bind] in E. destruct (bool_decide (Some k = _)); [done|]. destruct (Hl k m Hm) as (w & Ew & _). rewrite Ew in E. cbn [mbind option_bind] in E.
  pose proof (st_idx _ Hst) as Hi. injection E as <-. split; cbn.
  - by intros kb [= <-].
  - intros kb k1 [= <-] [m1 Hm1] [E1 E2]. destruct (Hl k1 m1 Hm1) as (c & Ec & Hc). rewrite <- E1, <- E2, Ew in Ec. by injection Ec as <-.
  - intros k1 _ Ek1. case_bool_decide as Hb; [injection Ek1 as <-; by apply first_passed|].
    destruct (upper_bound_Some _ _ _ (proj1 Hi) Ek1) as ([m1 Hm1] & Hlt & Hleast). exfalso. apply Hb. rewrite Ek1. symmetry.
    assert (Hns : ~ same_seq k k1).
    { intros [E1 E2]. destruct (Hl k1 m1 Hm1) as (c & Ec & Hc). rewrite <- E1, <- E2, Ew in Ec. injection Ec as <-.
      unfold key_lt in Hlt. rewrite key_ltb_spec in Hlt. unfold set_chunk_id in Hlt. cbn in Hlt. lia. }
    assert (Hgt : key_lt (set_chunk_id k kMaxChunkID) k1).
    { unfold same_seq in Hns. unfold key_lt in *. rewrite key_ltb_spec in *. unfold set_chunk_id in *. cbn in *. lia. }
    destruct (upper_bound (index_ b) (set_chunk_id k kMaxChunkID)) as [e|] eqn:Ee; [|by apply (upper_bound_None _ _ k1) in Ee; [|by eexists]].
    destruct (upper_bound_Some _ _ _ (proj1 Hi) Ee) as (He & Hlte & Hle). f_equal. destruct (proj2 (st_last _ Hst) _ _ Ew) as [_ Hw].
    destruct (key_lt_total k1 e) as [Hx|[Hx|Hx]]; [apply Hle in Hx; [done|by eexists|done]|done|]. apply Hleast in Hx; [done|done|].
    unfold key_lt in *. rewrite key_ltb_spec in *. unfold set_chunk_id, kMaxChunkID in *. cbn in *. lia.
Qed.

Lemma loop_in_step fuel n : forall b d r b', in_step b -> read_loop n fuel b d = Some (r, b') -> in_step b'.
Proof.
  induction n as [|n IH]; intros b d r b' Hb H; [done|]. cbn [read_loop] in H.
  assert (Hgo : forall b d, in_step b -> is_valid (read_iter_ b) = true -> ('(o, b) ← read_round fuel b d;
      match o with
      | OReturn p => Some (Some p, b)
      | OBreak dropped => it ← MoveNext (index_ b) (read_iter_ b); read_loop n fuel (with_iter b it) dropped
      end) = Some (r, b') -> in_step b').
  { clear H b d Hb. intros b d Hb Hv H. destruct (read_round fuel b d) as [[o b1]|] eqn:Er; [|done]. cbn [mbind option_bind] in H.
    destruct (round_in_step _ _ _ _ _ Hb Hv Er) as [Hb1 Hend]. destruct o as [p|d1]; [by simplify_eq|].
    pose proof (st_idx _ (ry_settled _ (in_ready _ Hb1))) as Hi. pose proof (ry_seq _ (in_ready _ Hb1)) as Hsq.
    destruct (MoveNext_ok _ _ Hi Hsq) as (it & Em & Hq & Hrg & _). rewrite Em in H. cbn [mbind option_bind] in H.
    eapply IH; [|done]. apply in_step_iter; [done..|]. apply (MoveNext_ordered _ (read_iter_ b1)); [done|done|apply Hb1|done|by apply Hend]. }
  destruct (is_valid (read_iter_ b)) eqn:Hv; [by eapply Hgo|]. destruct (seq_end (read_iter_ b)) as [k|] eqn:Ee; [|by simplify_eq].
  destruct (GetReadIterForSequence b (Some k)) as [it|] eqn:Eg; [|done]. cbn [mbind option_bind] in H. destruct (is_valid it) eqn:Hvi; [|done]. cbn [negb] in H.
  destruct (sq_end_key _ _ (ry_seq _ (in_ready _ Hb)) k Ee). eapply (Hgo (with_iter b it)); [|done|done].
  destruct Hb as [Hy Ho Hl _ Hd]. eapply GetReadIter_in_step; [apply Hy|done..].
Qed.

Lemma read_all_in_step fuel n : forall b ps b', in_step b -> read_all n fuel b = Some (ps, b') -> in_step b'.
Proof.
  induction n as [|n IH]; intros b ps b' Hb H; [done|]. cbn [read_all] in H. destruct (ReadNextTracePacket fuel b) as [[r b1]|] eqn:Er; [|done].
  cbn [mbind option_bind] in H. apply loop_in_step in Er; [|done]. destruct r as [p|]; [|by simplify_eq].
  destruct (read_all n fuel b1) as [[qs b2]|] eqn:E2; [|done]. cbn [mbind option_bind] in H. simplify_eq. by eapply IH.
Qed.

(** Between two operations. *)
Record in_line (b : TraceBuffer) : Prop := {
  il_settled : settled b;
  il_ordered : ordered (index_ b);
  il_latest : latest (last_chunk_id_written_ b) (index_ b);
  il_held : dchecks_held_ b = true }.

Lemma session_in_line fuel b ps b' : in_line b -> read_session fuel b = Some (ps, b') -> in_line b'.
Proof.
  intros [Hst Ho Hl Hd] H. unfold read_session in H. destruct (BeginRead b) as [b1|] eqn:Eb; [|done]. cbn [mbind option_bind] in H.
  assert (Hb1 : in_step b1).
  { pose proof (BeginRead_work _ _ Hst Eb) as (_ & Hy & _). unfold BeginRead in Eb. destruct (map_begin (index_ b)) as [k|] eqn:Ek.
    - destruct (GetReadIterForSequence b (Some k)) as [it|] eqn:Eg; [|done]. cbn [mbind option_bind] in Eb. simplify_eq.
      pose proof (st_idx _ Hst) as [Hs _]. destruct (index_ b) as [|[k1 m1] idx] eqn:Eix; [done|]. cbn in Ek. simplify_eq.
      eapply (GetReadIter_in_step b k); rewrite ?Eix; try done; [|by eapply first_of_begin].
      unfold has_key. cbn. rewrite decide_True by done. by eexists.
    - cbn in Eb. simplify_eq. by split. }
  apply read_all_in_step in H; [|done]. destruct H as [Hy Ho' Hl' _ Hd']. split; try done. apply Hy.
Qed.

(** ** Writing *)

(** Chunks were dropped from the index, nothing else that the order depends on changed. *)
Record erased (b b' : TraceBuffer) : Prop := {
  er_index : exists ks, index_ b' = foldl map_erase (index_ b) ks;
  er_last : last_chunk_id_written_ b' = last_chunk_id_written_ b;
  er_held : dchecks_held_ b' = dchecks_held_ b }.

#[export] Instance erased_preorder : PreOrder erased.
Proof.
  split; [intros b; split; [by exists []|done|done]|]. intros a b c [[k1 E1] L1 D1] [[k2 E2] L2 D2].
  split; [exists (k1 ++ k2); by rewrite foldl_app, E2, E1|congruence|congruence].
Qed.

Lemma erased_same b b' : index_ b' = index_ b -> last_chunk_id_written_ b' = last_chunk_id_written_ b -> dchecks_held_ b' = dchecks_held_ b -> erased b b'.
Proof. intros E L D. split; [by exists []|done|done]. Qed.

Lemma EnsureCommitted_erased b n b' : EnsureCommitted b n = Some b' -> erased b b'.
Proof. unfold EnsureCommitted. destruct (_ <=? _); intros; simplify_eq. by apply erased_same. Qed.

Lemma GetChunkRecordAt_erased b off r b' : GetChunkRecordAt b off = Some (r, b') -> erased b b'.
Proof.
  unfold GetChunkRecordAt. destruct (within_bounds b off); [|done]. destruct (EnsureCommitted b _) as [b1|] eqn:E; [|done]. cbn [mbind option_bind].
  destruct (mem_read _ _ _); [|done]. intros; simplify_eq/=. by eapply EnsureCommitted_erased.
Qed.

Lemma WriteChunkRecord_erased b w r src n b' : WriteChunkRecord b w r src n = Some b' -> erased b b'.
Proof.
  intros H. unfold WriteChunkRecord in H. destruct (_ && _); [|done]. destruct (EnsureCommitted b _) as [b1|] eqn:E; [|done]. cbn [mbind option_bind] in H.
  apply EnsureCommitted_erased in E. destruct (_ <=? _) in H; [|done]. destruct (mem_write _ _ _) as [d|]; [|done]. cbn [mbind option_bind] in H.
  assert (Hgo : forall x, (d ← x; d ← mem_write d (Z.to_nat (w + kChunkRecordSize + n)) (replicate (Z.to_nat (cr_size r - kChunkRecordSize - n)) 0); Some (with_data b1 d)) = Some b' -> erased b b').
  { intros [d1|] Hx; [|done]. cbn [mbind option_bind] in Hx. destruct (mem_write _ _ _); [|done]. cbn in Hx. simplify_eq. etrans; [exact E|by apply erased_same]. }
  by eapply Hgo.
Qed.

Lemma AddPaddingRecord_erased b n b' : AddPaddingRecord b n = Some b' -> erased b b'.
Proof.
  unfold AddPaddingRecord. destruct (_ && _); [|done]. destruct (ChunkRecord_init n); [|done]. cbn [mbind option_bind].
  destruct (WriteChunkRecord _ _ _ _ _) as [b1|] eqn:E; [|done]. intros; simplify_eq/=. etrans; [by eapply WriteChunkRecord_erased|by apply erased_same].
Qed.

Lemma delete_loop_erased fuel : forall b e s r b', delete_loop fuel b e s = Some (r, b') -> erased b b'.
Proof.
  induction fuel as [|fuel IH]; intros b e s r b' H; cbn [delete_loop] in H; (destruct (_ <? _); [|by simplify_eq]); [done|].
  destruct (GetChunkRecordAt b (ds_ptr s)) as [[c b1]|] eqn:Eg; [|done]. cbn [mbind option_bind] in H. apply GetChunkRecordAt_erased in Eg. etrans; [exact Eg|]. clear Eg.
  destruct (negb _); [destruct (_ =? _); [by simplify_eq|done]|].
  destruct (cr_is_padding c =? 0); [destruct (map_find _ _); [|done]; destruct (_ <? _); [destruct (decide _); [by simplify_eq|]|]|];
    (destruct (_ <=? _) in H; [|done]); by eapply IH.
Qed.

Lemma DeleteNextChunksFor_erased b n r b' : DeleteNextChunksFor b n = Some (r, b') -> erased b b'.
Proof.
  unfold DeleteNextChunksFor. destruct (discard_writes_ b); [done|]. destruct (_ || _); [done|]. destruct (delete_loop _ _ _ _) as [[q b1]|] eqn:E; [|done].
  cbn [mbind option_bind]. apply delete_loop_erased in E. destruct q as [| |s]; intros; simplify_eq; try done. destruct (_ && _); simplify_eq.
  etrans; [exact E|]. split; [by exists (ds_delete s)|done|done].
Qed.

Lemma WrapForChunk_erased b n r b' : WrapForChunk b n = Some (r, b') -> erased b b'.
Proof.
  unfold WrapForChunk. destruct (_ <? _); [|by intros; simplify_eq]. destruct (DeleteNextChunksFor _ _) as [[q b1]|] eqn:E; [|done]. cbn [mbind option_bind].
  apply DeleteNextChunksFor_erased in E. destruct (_ =? -1); [by intros; simplify_eq|]. destruct (_ <? _); [done|]. destruct (AddPaddingRecord _ _) as [b2|] eqn:Ep; [|done].
  cbn [mbind option_bind]. apply AddPaddingRecord_erased in Ep. destruct (_ <? _); [done|]. intros; simplify_eq. etrans; [exact E|]. etrans; [exact Ep|by apply erased_same].
Qed.

Lemma DiscardWrite_erased b b' : DiscardWrite b = Some b' -> erased b b'.
Proof. unfold DiscardWrite. destruct (decide _); intros; simplify_eq. by apply erased_same. Qed.

(** What the order needs, without the iterator. *)
Record tidy (b : TraceBuffer) : Prop := {
  td_sorted : sorted (index_ b);
  td_ordered : ordered (index_ b);
  td_latest : latest (last_chunk_id_written_ b) (index_ b);
  td_held : dchecks_held_ b = true }.

Lemma erased_tidy b b' : erased b b' -> tidy b -> tidy b'.
Proof.
  intros [[ks E] L D] [S O La H]. assert (Hsub : forall k m, map_find (index_ b') k = Some m -> map_find (index_ b) k = Some m).
  { intros k m. rewrite E. destruct (find_erase_all ks (index_ b) k S) as [_ ->]. by case_decide. }
  split; rewrite ?L, ?D; [rewrite E; apply (find_erase_all ks (index_ b) (mkKey 0 0 0) S)| |by intros k m Hm; eapply La, Hsub|done].
  split; [intros k m Hm; eapply (od_range _ O), Hsub, Hm|]. intros k m k' m' Hm Hm'. apply (od_seq _ O); by apply Hsub.
Qed.

(** The chunk ids of a sequence that were committed are at most [hi]. *)
Definition up_to (hi : gmap (Z * Z) Z) (last : gmap (Z * Z) Z) : Prop :=
  forall pw l, last !! pw = Some l -> 0 <= l <= default 0 (hi !! pw).

Section Commit.
Context (producer writer chunk : Z) (hi : gmap (Z * Z) Z).
Context (Hc0 : 0 <= chunk) (Hge : default 0 (hi !! (producer, writer)) <= chunk) (Hlt : chunk < kMaxChunkID / 2).

Definition hi' : gmap (Z * Z) Z := <[(producer, writer) := chunk]> hi.

Lemma up_to_next last : up_to hi last -> up_to hi' last.
Proof.
  intros H pw l E. specialize (H pw l E). unfold hi'. destruct (decide (pw = (producer, writer))) as [->|]; [rewrite lookup_insert_eq; cbn; lia|by rewrite lookup_insert_ne].
Qed.

(** The newest chunk of its sequence. *)
Lemma newest b k m : tidy b -> up_to hi (last_chunk_id_written_ b) -> map_find (index_ b) k = Some m -> producer_id k = producer -> writer_id k = writer -> chunk_id k <= chunk.
Proof. intros Hb Hu Hm <- <-. destruct (td_latest _ Hb k m Hm) as (c & Ec & Hc). specialize (Hu _ _ Ec). lia. Qed.

Lemma override_tidy b meta r n nf fl complete src b' :
  tidy b -> up_to hi (last_chunk_id_written_ b) -> map_find (index_ b) (mkKey producer writer chunk) = Some meta ->
  OverrideChunk b (mkKey producer writer chunk) meta r n nf fl complete src = Some b' -> tidy b' /\ up_to hi' (last_chunk_id_written_ b').
Proof.
  intros Hb Hu Hm H. unfold OverrideChunk in H. destruct (GetChunkRecordAt b _) as [[prev b1]|] eqn:Eg; [|done]. cbn [mbind option_bind] in H.
  assert (Hi1 : index_ b1 = index_ b).
  { unfold GetChunkRecordAt in Eg. destruct (within_bounds _ _); [|done]. unfold EnsureCommitted in Eg. destruct (_ <=? _); [|done]. cbn [mbind option_bind] in Eg.
    destruct (mem_read _ _ _); [|done]. cbn in Eg. by simplify_eq. }
  apply GetChunkRecordAt_erased in Eg. pose proof (er_last _ _ Eg) as El. pose proof (erased_tidy _ _ Eg Hb) as Hb1. apply up_to_next in Hu. rewrite <- El in Hu.
  assert (Hsame : forall b2, erased b1 b2 -> tidy b2 /\ up_to hi' (last_chunk_id_written_ b2)) by (intros b2 He; split; [by eapply erased_tidy|by rewrite (er_last _ _ He)]).
  destruct (negb (bool_decide _) || _ || (nf <? _) || _) eqn:E1; [simplify_eq; apply Hsame; by apply erased_same|].
  rewrite !orb_false_iff, Z.ltb_ge in E1. destruct E1 as [[_ Hnf] _].
  destruct (Z.eqb_spec (cr_num_fragments prev) nf); [simplify_eq; by apply Hsame|]. 
  match type of H with (if ?c then _ else _) = _ => destruct c end; [simplify_eq; apply Hsame; by apply erased_same|].
  destruct (Z.ltb_spec (cr_num_fragments prev) (num_fragments_read meta)); [simplify_eq; by apply Hsame|].
  set (meta' := set_complete _ _) in H. destruct (WriteChunkRecord _ _ _ _ _) as [b2|] eqn:Ew; [|done]. cbn [mbind option_bind] in H. injection H as <-.
  set (b0 := with_index b1 _) in Ew. assert (Ht0 : tidy b0).
  { rewrite <- Hi1 in Hm. pose proof (newest b1) as Hnew. destruct Hb1 as [S O La D].
    assert (Hrd : num_fragments_read meta' = num_fragments_read meta /\ num_fragments meta' = nf) by done.
    assert (Hfind : forall k1 m1, map_find (index_ b0) k1 = Some m1 -> (k1 = mkKey producer writer chunk /\ m1 = meta') \/ map_find (index_ b1) k1 = Some m1).
    { intros k1 m1. cbn. rewrite find_update, Hm. case_decide; [intros [= <-]; by left|by right]. }
    split; cbn [b0 with_index index_ last_chunk_id_written_ dchecks_held_]; [|split| |done].
    - apply sorted_keys. rewrite update_keys. by apply sorted_keys.
    - intros k1 m1 [[-> ->]|Hm1]%Hfind; [|by eapply od_range]. pose proof (od_range _ O _ _ Hm). lia.
    - intros k1 m1 k2 m2 [[-> ->]|Hm1]%Hfind [[-> ->]|Hm2]%Hfind Hs Hc Hpos; [lia| | |by eapply (od_seq _ O k1 m1 k2 m2)].
      + exfalso. destruct Hs as [S1 S2]. cbn in S1, S2, Hc. destruct (La k2 m2 Hm2) as (c & Ec & Hcc). specialize (Hu _ _ Ec). unfold hi' in Hu. rewrite <- S1, <- S2, lookup_insert_eq in Hu. cbn in Hu. lia.
      + apply (od_seq _ O k1 m1 _ meta Hm1 Hm Hs Hc). lia.
    - intros k1 m1 [[-> _]|Hm1]%Hfind; [by eapply La|by eapply La]. }
  apply WriteChunkRecord_erased in Ew. pose proof (er_last _ _ Ew) as El2. apply (erased_tidy _ _ Ew) in Ht0. cbn. split; [by destruct Ht0; split|by rewrite El2].
Qed.

Lemma advance_tidy b n pad b' :
  sorted (index_ b) -> ordered (index_ b) -> dchecks_held_ b = true -> up_to hi (last_chunk_id_written_ b) ->
  (forall k m, map_find (index_ b) k = Some m -> k = mkKey producer writer chunk \/
     exists c, last_chunk_id_written_ b !! (producer_id k, writer_id k) = Some c /\ chunk_id k <= c) ->
  AdvanceWptr b (mkKey producer writer chunk) n pad = Some b' -> tidy b' /\ up_to hi' (last_chunk_id_written_ b').
Proof.
  intros S O D Hu Hl H. unfold AdvanceWptr in H.
  match type of H with (?x ≫= _) = _ => destruct x as [b1|] eqn:E1; [|done] end. cbn [mbind option_bind] in H.
  assert (Hb1 : index_ b1 = index_ b /\ last_chunk_id_written_ b1 = last_chunk_id_written_ b /\ dchecks_held_ b1 = dchecks_held_ b).
  { destruct (_ <=? _); [destruct (_ =? 0); [|done]|]; by simplify_eq. }
  destruct Hb1 as (I1 & L1 & D1). destruct (within_bounds b1 _); [|done]. cbn [producer_id writer_id chunk_id] in H.
  assert (Hlast : 0 <= default 0 (last_chunk_id_written_ b !! (producer, writer)) <= chunk).
  { destruct (last_chunk_id_written_ b !! (producer, writer)) as [l|] eqn:E; cbn; [specialize (Hu _ _ E); lia|lia]. }
  rewrite L1 in H. unfold u32 in H. rewrite Z.mod_small in H by (unfold kMaxChunkID in Hlt; Z.div_mod_to_equations; lia).
  rewrite (proj2 (Z.ltb_lt _ _)) in H by lia. set (b2 := with_last b1 _) in H.
  assert (Ht : tidy b2 /\ up_to hi' (last_chunk_id_written_ b2)).
  { split; [split; cbn [b2 with_last index_ last_chunk_id_written_ dchecks_held_]; rewrite ?I1, ?L1, ?D1; try done|].
    - intros k m Hm. destruct (decide ((producer_id k, writer_id k) = (producer, writer))) as [E|N].
      + rewrite E, lookup_insert_eq. exists chunk. split; [done|]. injection E as E1' E2'. destruct (Hl k m Hm) as [-> |(c & Ec & Hc)]; [done|].
        specialize (Hu _ _ Ec). rewrite E1', E2' in Hu. lia.
      + rewrite lookup_insert_ne by done. destruct (Hl k m Hm) as [-> |Hc]; [done|done].
    - intros pw l. cbn [b2 with_last last_chunk_id_written_]. unfold hi'. destruct (decide (pw = (producer, writer))) as [->|N].
      + rewrite !lookup_insert_eq. intros [= <-]. cbn. lia.
      + rewrite !lookup_insert_ne by done. apply Hu. }
  destruct (pad =? 0); [by injection H as <-|]. apply AddPaddingRecord_erased in H. destruct Ht as [Ht1 Ht2]. split; [by eapply erased_tidy|by rewrite (er_last _ _ H)].
Qed.
Lemma insert_tidy b r n nf fl complete ci src pad b' :
  tidy b -> up_to hi (last_chunk_id_written_ b) -> 0 <= nf ->
  InsertChunk b (mkKey producer writer chunk) r n nf fl complete ci src pad = Some b' -> tidy b' /\ up_to hi' (last_chunk_id_written_ b').
Proof.
  intros Hb Hu Hnf H. unfold InsertChunk in H. set (b0 := stat_inc _ _ _) in H.
  assert (Hb0 : tidy b0) by (apply (erased_tidy b); [by apply erased_same|done]). change (last_chunk_id_written_ b) with (last_chunk_id_written_ b0) in Hu. clearbody b0. clear b Hb.
  destruct (GetChunkRecordAt b0 _) as [[x b1]|] eqn:Eg; [|done]. cbn [mbind option_bind] in H. apply GetChunkRecordAt_erased in Eg. pose proof (erased_tidy _ _ Eg Hb0) as Hb1.
  rewrite <- (er_last _ _ Eg) in Hu. case_bool_decide as Hn; [done|]. apply eq_None_not_Some in Hn.
  set (meta := ChunkMeta_init _ _ _ _ _) in H. set (b2 := with_index b1 _) in H. destruct (WriteChunkRecord _ _ _ _ _) as [b3|] eqn:Ew; [|done]. cbn [mbind option_bind] in H.
  assert (Hw : index_ b3 = index_ b2).
  { unfold WriteChunkRecord in Ew. destruct (_ && _); [|done]. unfold EnsureCommitted in Ew. destruct (_ <=? _) in Ew; [|done]. cbn [mbind option_bind] in Ew.
    destruct (_ <=? _) in Ew; [|done]. destruct (mem_write _ _ _); [|done]. cbn [mbind option_bind] in Ew. destruct (mem_write _ _ _) in Ew; [|done]. cbn [mbind option_bind] in Ew.
    destruct (mem_write _ _ _) in Ew; [|done]. cbn in Ew. by simplify_eq. }
  apply WriteChunkRecord_erased in Ew. destruct Ew as [_ L3 D3]. destruct Hb1 as [S O La D].
  assert (Hfind : forall k m, map_find (index_ b3) k = Some m -> (k = mkKey producer writer chunk /\ m = meta) \/ map_find (index_ b1) k = Some m).
  { intros k m. rewrite Hw. cbn. rewrite find_emplace by done. case_decide; [intros [= <-]; by left|by right]. }
  eapply (advance_tidy b3); [| | | | |exact H].
  - rewrite Hw. cbn. by apply sorted_emplace.
  - split; [intros k m [[-> ->]|Hm]%Hfind; [cbn; lia|by eapply od_range]|].
    intros k m k' m' [[-> ->]|Hm]%Hfind [[-> ->]|Hm']%Hfind Hs Hc Hpos; [lia| |cbn in Hpos; lia|by eapply (od_seq _ O k m k' m')].
    exfalso. destruct Hs as [S1 S2]. cbn in S1, S2, Hc. destruct (La k' m' Hm') as (c & Ec & Hcc). specialize (Hu _ _ Ec). rewrite <- S1, <- S2 in Hu. lia.
  - by rewrite D3.
  - rewrite L3. exact Hu.
  - intros k m [[-> _]|Hm]%Hfind; [by left|]. right. rewrite L3. by apply (La k m).
Qed.

Lemma copy_tidy b ci nf fl complete src b' :
  tidy b -> up_to hi (last_chunk_id_written_ b) -> 0 <= nf ->
  CopyChunkUntrusted b producer ci writer chunk nf fl complete src = Some b' -> tidy b' /\ up_to hi' (last_chunk_id_written_ b').
Proof.
  intros Hb Hu Hnf H. unfold CopyChunkUntrusted in H. destruct (read_only_ b); [done|].
  assert (Hsame : forall b2, erased b b2 -> tidy b2 /\ up_to hi' (last_chunk_id_written_ b2)) by (intros b2 He; split; [by eapply erased_tidy|rewrite (er_last _ _ He); by apply up_to_next]).
  destruct (_ <? _); [simplify_eq; apply Hsame; by apply erased_same|]. destruct (DisregardLast nf fl complete) as [nf1 fl1] eqn:Ed.
  assert (Hnf1 : 0 <= nf1) by (unfold DisregardLast in Ed; destruct complete; cbn in Ed; [by simplify_eq|destruct (Z.ltb_spec 0 nf); simplify_eq; lia]).
  destruct (ChunkRecord_init _) as [r|]; [|done]. cbn [mbind option_bind] in H. set (b0 := with_has_data b true) in H.
  change (key_of_record _) with (mkKey producer writer chunk) in H. assert (He0 : erased b b0) by (by apply erased_same). pose proof (erased_tidy _ _ He0 Hb) as Hb0.
  destruct (map_find (index_ b0) _) as [meta|] eqn:Em; [by eapply (override_tidy b0)|]. unfold CopyNewChunk in H.
  destruct (discard_writes_ b0); [apply Hsame; etrans; [exact He0|by apply DiscardWrite_erased]|].
  destruct (WrapForChunk _ _) as [[refused b1]|] eqn:Ew; [|done]. cbn [mbind option_bind] in H. apply WrapForChunk_erased in Ew.
  assert (He1 : erased b b1) by (by etrans). destruct refused; [apply Hsame; etrans; [exact He1|by apply DiscardWrite_erased]|].
  destruct (DeleteNextChunksFor _ _) as [[del b2]|] eqn:Edl; [|done]. cbn [mbind option_bind] in H. apply DeleteNextChunksFor_erased in Edl.
  assert (He2 : erased b b2) by (by etrans). destruct (del =? -1); [apply Hsame; etrans; [exact He2|by apply DiscardWrite_erased]|].
  eapply insert_tidy; [by eapply erased_tidy| |exact Hnf1|exact H]. by rewrite (er_last _ _ He2).
Qed.
End Commit.

Lemma patch_tidy b producer writer chunk patches pending ok b' :
  tidy b -> TryPatchChunkContents b producer writer chunk patches pending = Some (ok, b') -> tidy b' /\ last_chunk_id_written_ b' = last_chunk_id_written_ b.
Proof.
  intros Hb H. unfold TryPatchChunkContents in H. destruct (read_only_ b); [done|].
  assert (Hsame : forall b2, erased b b2 -> tidy b2 /\ last_chunk_id_written_ b2 = last_chunk_id_written_ b) by (intros b2 He; split; [by eapply erased_tidy|apply He]).
  destruct (map_find _ _) as [m|] eqn:Em; [|simplify_eq; apply Hsame; by apply erased_same].
  destruct (GetChunkRecordAt b _) as [[r b1]|] eqn:Eg; [|done]. cbn [mbind option_bind] in H. destruct (negb _); [done|]. destruct (_ <? _); [done|].
  assert (Hi1 : index_ b1 = index_ b).
  { unfold GetChunkRecordAt, EnsureCommitted in Eg. destruct (within_bounds _ _); [|done]. destruct (_ <=? _); [|done]. cbn [mbind option_bind] in Eg.
    destruct (mem_read _ _ _); [|done]. cbn in Eg. by simplify_eq. }
  apply GetChunkRecordAt_erased in Eg. destruct (apply_patches _ _ _ _) as [[d fine]|]; [|done]. cbn [mbind option_bind] in H.
  destruct (negb fine); [simplify_eq; apply Hsame; etrans; [exact Eg|by apply erased_same]|]. destruct pending; [simplify_eq; apply Hsame; etrans; [exact Eg|by apply erased_same]|].
  destruct (_ !! _) as [old|]; [|done]. cbn [mbind option_bind] in H. destruct (mem_write _ _ _) as [d2|]; [|done]. cbn in H. simplify_eq. cbn.
  split; [|apply Eg]. pose proof (er_last _ _ Eg) as L. pose proof (er_held _ _ Eg) as D. destruct Hb as [S O La Hd].
  set (m' := set_flags _ _). assert (Hro : reads_on (index_ b) (mkKey producer writer chunk) m m') by (split; [apply (od_range _ O _ _ Em)|by left]).
  assert (Hfind : forall k1 m1, map_find (map_update (index_ b) (mkKey producer writer chunk) m') k1 = Some m1 -> exists m0, map_find (index_ b) k1 = Some m0 /\
    num_fragments m0 = num_fragments m1 /\ num_fragments_read m0 = num_fragments_read m1 /\ is_complete m0 = is_complete m1).
  { intros k1 m1. rewrite find_update, Em. case_decide as E; [intros [= <-]; subst k1; by exists m|intros ?; by exists m1]. }
  split; cbn; rewrite ?Hi1, ?L, ?D; [apply sorted_keys; rewrite update_keys; by apply sorted_keys| |intros k m1 (m0 & Hm0 & _)%Hfind; by eapply La|done].
  split.
  - intros k1 m1 (m0 & Hm0 & E1 & E2 & _)%Hfind. rewrite <- E1, <- E2. by apply (od_range _ O k1).
  - intros k1 m1 k2 m2 (x1 & Hx1 & A1 & A2 & A3)%Hfind (x2 & Hx2 & _ & B2 & _)%Hfind Hs Hc Hpos. unfold all_read. rewrite <- A1, <- A2, <- A3.
    apply (od_seq _ O k1 x1 k2 x2 Hx1 Hx2 Hs Hc). lia.
Qed.

(** ** Whole runs *)

(** Every writer commits its chunks in the order of their ids, which stay in the first half
    of their range, so that none is taken for a late one. *)
Fixpoint in_order (hi : gmap (Z * Z) Z) (os : list BufferOp) : bool :=
  match os with
  | [] => true
  | OpWrite (WCopy producer _ writer chunk _ _ _ _) :: os =>
      (default 0 (hi !! (producer, writer)) <=? chunk) && (chunk <? kMaxChunkID / 2) && in_order (<[(producer, writer) := chunk]> hi) os
  | _ :: os => in_order hi os
  end.

Lemma tidy_in_line b pre post z : tb_inv b pre post z -> tidy b -> in_line b.
Proof.
  intros HI [S O L D]. split; try done. split; [by eapply inv_idx_ok|apply (tb_last _ _ _ _ HI)|by eapply tb_inv_wide].
Qed.

Lemma run_ops_tidy fuel os : kEnoughFuel <= Z.of_nat fuel -> forall hi b pre post z r b',
  tb_inv b pre post z -> read_only_ b = false -> Forall op_ok os -> in_order hi os = true -> tidy b -> up_to hi (last_chunk_id_written_ b) ->
  run_ops fuel b os = Some (r, b') -> dchecks_held_ b' = true.
Proof.
  intros Hf. induction os as [|o os IH]; intros hi b pre post z r b' HI Hro Ho Hin Hb Hu H; cbn [run_ops] in H; [simplify_eq; apply Hb|].
  apply Forall_cons in Ho as [Ho Hos]. destruct o as [o|].
  - destruct (run_write_inv o b pre post z HI Hro Ho) as (b1 & pre1 & post1 & z1 & E & HI1 & Hro1). rewrite E in H. cbn [mbind option_bind] in H.
    destruct o as [p ci w c nf fl complete src|p w c patches pending]; cbn [in_order run_write] in *.
    + rewrite !andb_true_iff, Z.leb_le, Z.ltb_lt in Hin. destruct Hin as [[H1 H2] H3]. destruct Ho as (_ & _ & [Hc _] & [Hn _] & _).
      destruct (copy_tidy p w c hi Hc H1 H2 b ci nf fl complete src b1 Hb Hu Hn E) as [Hb1 Hu1]. by eapply IH.
    + destruct (TryPatchChunkContents _ _ _ _ _ _) as [[ok b2]|] eqn:Ep; [|done]. cbn in E. simplify_eq.
      destruct (patch_tidy _ _ _ _ _ _ _ _ Hb Ep) as [Hb1 El]. eapply IH; [done..|by rewrite El|done].
  - destruct (read_session fuel b) as [[ps b1]|] eqn:E; [|done]. cbn [mbind option_bind] in H. destruct (run_ops fuel b1 os) as [[pss b2]|] eqn:E2; [|done].
    cbn [mbind option_bind] in H. simplify_eq. destruct (session_in_line fuel b ps b1 (tidy_in_line _ _ _ _ HI Hb) E) as [Hst O L D].
    destruct (read_session_ok b pre post z fuel HI Hf) as (ps' & b1' & E' & [HI1 _ Hm] & _). rewrite E in E'. simplify_eq.
    eapply (IH hi); [exact HI1|by rewrite (kp_ro _ _ (sm_kept _ _ Hm))|done|exact Hin| | |exact E2].
    + split; try done. apply Hst.
    + by rewrite (kp_last _ _ (sm_kept _ _ Hm)).
Qed.


Definition ex_ops : list BufferOp := (OpWrite <$> take 2 ex_writes) ++ [OpRead] ++ (OpWrite <$> drop 2 ex_writes) ++ [OpRead].

