(* ===== verification/ReadBuffers.v ===== *)
(** * Reading the buffers of a session

    [ReadBuffers], [MaybeFilterPackets], [WriteIntoFile] and the loop of
    [ReadBuffersIntoFile] of [src/tracing/service/tracing_service_impl.cc]: packets are read
    from the buffers of a session up to a threshold, checked, given the fields that only the
    service may set, filtered, compressed, and passed to the consumer or written into a file.

    The packets that the service adds of its own (clock snapshots, statistics and the like),
    the compressor it was created with, and [writev] are parameters. The [DCHECK]s on what the
    buffers and the session hand to these functions are recorded in [session_dchecks_held], and
    execution goes on, as in release builds. A packet holds the octets its slices point to;
    nothing writes to a buffer while its packets are in use. *)

From S2P Require Import Prelude ProtoUtils ProtoDecoder FilterBytecode MessageTokenizer StringFilter MessageFilter.
From S2P Require Import PacketStreamValidator TraceBuffer TraceBufferRead TraceBufferClone TraceBufferDrain ServiceBuffers.

(** ** Packets *)

(** [TracePacket]; [buffer_index_for_stats_] is the buffer it was taken from, if any. *)
Record TracePacket := mkTracePacket { packet_slices : list (list Z); buffer_index_for_stats : option Z }.

Definition packet_size (p : TracePacket) : Z := Z.of_nat (length (mjoin (packet_slices p))).

Definition packets_size (ps : list TracePacket) : Z := foldr (fun p n => packet_size p + n) 0 ps.

(** With a preamble of at most 8 octets for each. *)
Definition stream_size (ps : list TracePacket) : Z := foldr (fun p n => packet_size p + 8 + n) 0 ps.

Definition AddSlice (p : TracePacket) (slice : list Z) : TracePacket := mkTracePacket (packet_slices p ++ [slice]) (buffer_index_for_stats p).

Definition kPacketFieldNumber : Z := 1.
Definition kMaxPreambleBytes : nat := 8.

(** [None]: the preamble does not fit. *)
Definition GetProtoPreamble (p : TracePacket) : option (list Z) :=
  let preamble := MakeTagLengthDelimited kPacketFieldNumber :: WriteVarInt (packet_size p) in
  if (length preamble <=? kMaxPreambleBytes)%nat then Some preamble else None.

(** ** What the service runs on *)

(** [HostState] is what the packets of the service and the file depend on. A cloned session
    gets a copy of some of it. *)
Class ServiceHost := {
  HostState : Type;
  HostState_new : HostState;
  HostState_clone : HostState -> HostState;
  ServicePacketsBefore : HostState -> list TracePacket * HostState;
  ServicePacketsAfter : HostState -> list TracePacket * HostState;
  compressor_fn : list TracePacket -> list TracePacket;
  writev : HostState -> list (list Z) -> Z * HostState }.

Definition packet_small (p : TracePacket) : Prop := packet_size p < UINT32_MAX.
Definition packet_fits (p : TracePacket) : Prop := bytes_ok (mjoin (packet_slices p)) /\ packet_small p.

(** The size of the packet fits into the preamble. *)
Definition packet_writable (p : TracePacket) : Prop := packet_size p < 2 ^ 49.

(** The packets of the service are octets, less than 4 GB of them. Of less than a terabyte of
    packets the compressor makes packets, perhaps a single one, whose sizes are small enough to
    be written in seven octets ([ZlibCompressFn] makes one packet, hardly larger than what it
    gets). [writev] writes at most what it is given. *)
Class ServiceHostOk (H : ServiceHost) : Prop := {
  before_fits h : Forall packet_fits (ServicePacketsBefore h).1 /\ stream_size (ServicePacketsBefore h).1 < UINT32_MAX;
  after_fits h : Forall packet_fits (ServicePacketsAfter h).1 /\ stream_size (ServicePacketsAfter h).1 < UINT32_MAX;
  compressed_writable ps : stream_size ps < 2 ^ 40 -> Forall packet_writable (compressor_fn ps);
  writev_at_most h iov : (writev h iov).1 <= Z.of_nat (length (mjoin iov)) }.

Section Read.
Context {H : ServiceHost}.

(** ** The state of a session *)

Record ReadSession := mkReadSession {
  packet_sequence_ids : gmap (Z * Z * Z) Z;
  last_packet_sequence_id : Z;
  invalid_packets : Z;
  filter_input_packets : Z;
  filter_input_bytes : Z;
  filter_output_bytes : Z;
  filter_errors : Z;
  filter_bytes_discarded_per_buffer : list Z;
  host : HostState;
  session_dchecks_held : bool (** not of [TracingSession]: see [session_dcheck] *) }.

Definition kServicePacketSequenceID : Z := 1.

Definition ReadSession_new : ReadSession := mkReadSession ∅ kServicePacketSequenceID 0 0 0 0 0 [] HostState_new true.

(** The part of it that [FinishCloneSession] copies. *)
Definition ReadSession_clone (st : ReadSession) : ReadSession :=
  mkReadSession ∅ kServicePacketSequenceID (invalid_packets st) 0 0 0 0 [] (HostState_clone (host st)) true.

Definition set_host (st : ReadSession) (h : HostState) : ReadSession :=
  mkReadSession (packet_sequence_ids st) (last_packet_sequence_id st) (invalid_packets st) (filter_input_packets st) (filter_input_bytes st)
    (filter_output_bytes st) (filter_errors st) (filter_bytes_discarded_per_buffer st) h (session_dchecks_held st).

Definition count_invalid_packet (st : ReadSession) : ReadSession :=
  mkReadSession (packet_sequence_ids st) (last_packet_sequence_id st) (u64 (invalid_packets st + 1)) (filter_input_packets st) (filter_input_bytes st)
    (filter_output_bytes st) (filter_errors st) (filter_bytes_discarded_per_buffer st) (host st) (session_dchecks_held st).

Definition set_sequence_ids (st : ReadSession) (ids : gmap (Z * Z * Z) Z) (last : Z) : ReadSession :=
  mkReadSession ids last (invalid_packets st) (filter_input_packets st) (filter_input_bytes st)
    (filter_output_bytes st) (filter_errors st) (filter_bytes_discarded_per_buffer st) (host st) (session_dchecks_held st).

(** A [DEJAVIEW_DCHECK]: its outcome is recorded. *)
Definition session_dcheck (st : ReadSession) (c : bool) : ReadSession :=
  mkReadSession (packet_sequence_ids st) (last_packet_sequence_id st) (invalid_packets st) (filter_input_packets st) (filter_input_bytes st)
    (filter_output_bytes st) (filter_errors st) (filter_bytes_discarded_per_buffer st) (host st) (session_dchecks_held st && c).

Definition kMaxPacketSequenceID : Z := 2 ^ 32 - 1.

Definition GetPacketSequenceID (st : ReadSession) (machine_id producer_id writer_id : Z) : Z * ReadSession :=
  let key := (machine_id, producer_id, writer_id) in
  match packet_sequence_ids st !! key with
  | Some id => (id, st)
  | None =>
      let st := session_dcheck st (last_packet_sequence_id st <? kMaxPacketSequenceID) in
      let sequence_id := u32 (last_packet_sequence_id st + 1) in
      (sequence_id, set_sequence_ids st (<[key := sequence_id]> (packet_sequence_ids st)) sequence_id)
  end.

(** ** Trusted fields *)

(** Field numbers of [TracePacket], and how its setters write a field. *)
Definition trusted_uid : Z := 3.
Definition trusted_packet_sequence_id : Z := 10.
Definition trusted_pid : Z := 79.
Definition machine_id_field : Z := 98.
Definition previous_packet_dropped : Z := 42.

Definition int32_field (id value : Z) : list Z := WriteVarInt (MakeTagVarInt id) ++ WriteVarInt_T false 32 (s32 value).
Definition uint32_field (id value : Z) : list Z := WriteVarInt (MakeTagVarInt id) ++ WriteVarInt_T true 32 value.
Definition bool_field (id : Z) (value : bool) : list Z := WriteVarInt (MakeTagVarInt id) ++ [if value then 1 else 0].

Definition trusted_fields (client : ClientIdentity) (sequence_id : Z) (dropped : bool) : list Z :=
  int32_field trusted_uid (uid client) ++ uint32_field trusted_packet_sequence_id sequence_id ++
  (if has_pid client then int32_field trusted_pid (pid client) else []) ++
  (if has_non_default_machine_id client then uint32_field machine_id_field (machine_id client) else []) ++
  (if dropped then bool_field previous_packet_dropped dropped else []).

(** [None]: the buffer of 32 octets is too small, and [StaticBufferDelegate] gives up. *)
Definition trusted_slice (client : ClientIdentity) (sequence_id : Z) (dropped : bool) : option (list Z) :=
  let slice := trusted_fields client sequence_id dropped in
  if (length slice <=? 32)%nat then Some slice else None.

(** ** ReadBuffers *)

Definition kInvalidUid : Z := 2 ^ 32 - 1.
Definition has_uid (client : ClientIdentity) : bool := negb (uid client =? kInvalidUid).

(** The [while] loop over the packets of a buffer. *)
Fixpoint read_packets (n fuel : nat) (buf_idx threshold : Z) (st : ReadSession) (packets_bytes : Z) (tbuf : TraceBuffer) :
    option (list TracePacket * ReadSession * Z * bool * TraceBuffer) :=
  match n with
  | O => None
  | S n =>
      '(r, tbuf) ← ReadNextTracePacket fuel tbuf;
      match r with
      | None => Some ([], st, packets_bytes, false, tbuf)
      | Some p =>
          slices ← read_slices tbuf (slices p);
          let props := sequence_properties p in
          let client := client_identity props in
          let st := session_dcheck st (negb (producer_id_trusted props =? 0) && negb (sp_writer_id props =? 0) && has_uid client &&
                      (0 <? packet_size (mkTracePacket slices (Some buf_idx)))) in
          valid ← Validate slices;
          if (valid : bool) then
            let '(sequence_id, st) := GetPacketSequenceID st (machine_id client) (producer_id_trusted props) (sp_writer_id props) in
            slice ← trusted_slice client sequence_id (previous_packet_on_sequence_dropped p);
            let packet := AddSlice (mkTracePacket slices (Some buf_idx)) slice in
            let packets_bytes := u64 (packets_bytes + packet_size packet) in
            if threshold <=? packets_bytes then Some ([packet], st, packets_bytes, true, tbuf)
            else
              '(packets, st, packets_bytes, did_hit_threshold, tbuf) ← read_packets n fuel buf_idx threshold st packets_bytes tbuf;
              Some (packet :: packets, st, packets_bytes, did_hit_threshold, tbuf)
          else read_packets n fuel buf_idx threshold (count_invalid_packet st) packets_bytes tbuf
      end
  end.

(** The loop over the buffers; those behind the threshold are left as they are. *)
Fixpoint read_all_buffers (fuel : nat) (buf_idx threshold : Z) (st : ReadSession) (packets_bytes : Z) (bufs : list TraceBuffer) :
    option (list TracePacket * ReadSession * bool * list TraceBuffer) :=
  match bufs with
  | [] => Some ([], st, false, [])
  | tbuf :: bufs =>
      tbuf ← BeginRead tbuf;
      '(packets, st, packets_bytes, did_hit_threshold, tbuf) ← read_packets fuel fuel buf_idx threshold st packets_bytes tbuf;
      if (did_hit_threshold : bool) then Some (packets, st, true, tbuf :: bufs)
      else
        '(more, st, did_hit_threshold, bufs) ← read_all_buffers fuel (buf_idx + 1) threshold st packets_bytes bufs;
        Some (packets ++ more, st, did_hit_threshold, tbuf :: bufs)
  end.

(** ** MaybeFilterPackets *)

Definition kMaxTracePacketSliceSize : nat := Z.to_nat (128 * 1024 - 512).

(** The loop of [AppendOwnedSlicesToPacket]; every round takes at least one octet. *)
Fixpoint split_slices (fuel max_slice_size : nat) (data : list Z) : list (list Z) :=
  match data, fuel with
  | [], _ | _, O => []
  | _, S fuel => take max_slice_size data :: split_slices fuel max_slice_size (drop max_slice_size data)
  end.

Definition AppendOwnedSlicesToPacket (data : list Z) (max_slice_size : nat) (p : TracePacket) : TracePacket :=
  if (length data <=? max_slice_size)%nat then AddSlice p data
  else foldl AddSlice p (split_slices (length data) max_slice_size data).

Definition count_filter_input (st : ReadSession) (input : Z) : ReadSession :=
  mkReadSession (packet_sequence_ids st) (last_packet_sequence_id st) (invalid_packets st) (u64 (filter_input_packets st + 1)) (u64 (filter_input_bytes st + input))
    (filter_output_bytes st) (filter_errors st) (filter_bytes_discarded_per_buffer st) (host st) (session_dchecks_held st).

Definition count_filter_error (st : ReadSession) : ReadSession :=
  mkReadSession (packet_sequence_ids st) (last_packet_sequence_id st) (invalid_packets st) (filter_input_packets st) (filter_input_bytes st)
    (filter_output_bytes st) (u64 (filter_errors st + 1)) (filter_bytes_discarded_per_buffer st) (host st) (session_dchecks_held st).

Definition count_filter_output (st : ReadSession) (output : Z) : ReadSession :=
  mkReadSession (packet_sequence_ids st) (last_packet_sequence_id st) (invalid_packets st) (filter_input_packets st) (filter_input_bytes st)
    (u64 (filter_output_bytes st + output)) (filter_errors st) (filter_bytes_discarded_per_buffer st) (host st) (session_dchecks_held st).

(** The vector is resized to hold the index. *)
Definition count_discarded (st : ReadSession) (buffer_idx : Z) (discarded : Z) : ReadSession :=
  let i := Z.to_nat buffer_idx in
  let vec := filter_bytes_discarded_per_buffer st ++ replicate (S i - length (filter_bytes_discarded_per_buffer st)) 0 in
  mkReadSession (packet_sequence_ids st) (last_packet_sequence_id st) (invalid_packets st) (filter_input_packets st) (filter_input_bytes st)
    (filter_output_bytes st) (filter_errors st) (alter (fun n => u64 (n + discarded)) i vec) (host st) (session_dchecks_held st).

(** A filter that was set up and has filtered nothing. [FilterMessageFragments] keeps
    nothing of a message for the next one unless it tracks the usage of fields, which the
    service does not ask for. *)
Definition idle_filter : Filter := mkFilter [] 0 tokenizer_init [StackState_init] false false ∅.

Definition filter_packet (c : Config) (st : ReadSession) (p : TracePacket) : option (TracePacket * ReadSession) :=
  let input_packet_size := packet_size p in
  let st := count_filter_input st input_packet_size in
  '(filtered, _) ← FilterMessageFragments c idle_filter (packet_slices p);
  if fm_error filtered then Some (mkTracePacket [] None, count_filter_error st)
  else
    let size := Z.of_nat (fm_size filtered) in
    let st := count_filter_output st size in
    match buffer_index_for_stats p with
    | Some buffer_idx =>
        if size <=? input_packet_size then
          Some (AppendOwnedSlicesToPacket (take (fm_size filtered) (fm_data filtered)) kMaxTracePacketSliceSize (mkTracePacket [] (Some buffer_idx)),
                count_discarded st buffer_idx (input_packet_size - size))
        else None
    | None => Some (AppendOwnedSlicesToPacket (take (fm_size filtered) (fm_data filtered)) kMaxTracePacketSliceSize (mkTracePacket [] None), st)
    end.

Fixpoint filter_packets (c : Config) (st : ReadSession) (packets : list TracePacket) : option (list TracePacket * ReadSession) :=
  match packets with
  | [] => Some ([], st)
  | p :: packets =>
      '(p, st) ← filter_packet c st p;
      '(packets, st) ← filter_packets c st packets;
      Some (p :: packets, st)
  end.

Definition MaybeFilterPackets (trace_filter : option Config) (st : ReadSession) (packets : list TracePacket) : option (list TracePacket * ReadSession) :=
  match trace_filter with
  | None => Some (packets, st)
  | Some c => filter_packets c (session_dcheck st (negb (root_msg_index_ c =? 0))) packets
  end.

Definition MaybeCompressPackets (compress_deflate : bool) (packets : list TracePacket) : list TracePacket :=
  if compress_deflate then compressor_fn packets else packets.

(** The packets, whether there are more, and the buffers. *)
Definition ReadBuffers (fuel : nat) (trace_filter : option Config) (compress_deflate : bool) (threshold : Z) (st : ReadSession) (bufs : list TraceBuffer) :
    option (list TracePacket * bool * ReadSession * list TraceBuffer) :=
  let '(before, h) := ServicePacketsBefore (host st) in
  '(packets, st, has_more, bufs) ← read_all_buffers fuel 0 threshold (set_host st h) (u64 (packets_size before)) bufs;
  let '(after, st) := if (has_more : bool) then ([], st) else let '(after, h) := ServicePacketsAfter (host st) in (after, set_host st h) in
  '(packets, st) ← MaybeFilterPackets trace_filter st (before ++ packets ++ after);
  Some (MaybeCompressPackets compress_deflate packets, has_more, st, bufs).

(** ** Writing into a file *)

Definition kIOVMax : nat := 1024.

(** The loop that fills the vector: it stops at the packet that would reach the limit. *)
Fixpoint fill_iovecs (max_size written bytes_about_to_be_written : Z) (packets : list TracePacket) : option (list (list Z) * bool) :=
  match packets with
  | [] => Some ([], false)
  | p :: packets =>
      preamble ← GetProtoPreamble p;
      let bytes := u64 (bytes_about_to_be_written + Z.of_nat (length preamble) + packet_size p) in
      if max_size <=? u64 (written + bytes) then Some ([], true)
      else
        '(iovecs, stop) ← fill_iovecs max_size written bytes packets;
        Some (preamble :: packet_slices p ++ iovecs, stop)
  end.

(** The loop over batches: what was written, and whether it failed. *)
Fixpoint write_batches (fuel : nat) (h : HostState) (iovecs : list (list Z)) (total_wr_size : Z) : Z * bool * HostState :=
  match iovecs, fuel with
  | [], _ | _, O => (total_wr_size, false, h)
  | _, S fuel =>
      let '(wr_size, h) := writev h (take kIOVMax iovecs) in
      if wr_size <=? 0 then (total_wr_size, true, h)
      else write_batches fuel h (drop kIOVMax iovecs) (u64 (total_wr_size + wr_size))
  end.

(** Whether to stop, and what was written so far. *)
Definition WriteIntoFile (max_file_size_bytes : Z) (st : ReadSession) (written : Z) (packets : list TracePacket) : option (bool * ReadSession * Z) :=
  let max_size := if max_file_size_bytes =? 0 then 2 ^ 64 - 1 else max_file_size_bytes in
  '(iovecs, stop) ← fill_iovecs max_size written 0 packets;
  let '(total_wr_size, failed, h) := write_batches (length iovecs) (host st) iovecs 0 in
  Some (stop || failed, set_host st h, u64 (written + total_wr_size)).

Definition kApproxBytesPerTask : Z := 32768.
Definition kWriteIntoFileChunkSize : Z := 1024 * 1024.

(** The [do] loop of [ReadBuffersIntoFile]. *)
Fixpoint read_into_file (n fuel : nat) (trace_filter : option Config) (compress_deflate : bool) (max_file_size_bytes : Z) (st : ReadSession) (written : Z)
    (bufs : list TraceBuffer) : option (list TraceBuffer * ReadSession * Z * bool * bool) :=
  match n with
  | O => None
  | S n =>
      '(packets, has_more, st, bufs) ← ReadBuffers fuel trace_filter compress_deflate kWriteIntoFileChunkSize st bufs;
      '(stop, st, written) ← WriteIntoFile max_file_size_bytes st written packets;
      if (has_more : bool) && negb stop then read_into_file n fuel trace_filter compress_deflate max_file_size_bytes st written bufs
      else Some (bufs, st, written, stop, has_more)
  end.

(** The call of [ReadBuffersIntoConsumer]. *)
Definition read_for_consumer (fuel : nat) (trace_filter : option Config) (compress_deflate : bool) (st : ReadSession) (bufs : list TraceBuffer) :
    option (list TraceBuffer * ReadSession * list TracePacket * bool) :=
  '(packets, has_more, st, bufs) ← ReadBuffers fuel trace_filter compress_deflate kApproxBytesPerTask st bufs;
  Some (bufs, st, packets, has_more).

(** ** Trusted fields fit *)

Lemma varint_u32_length v : is_u32 v -> (length (WriteVarInt v) <= 5)%nat /\ bytes_ok (WriteVarInt v).
Proof. intros Hv. rewrite length_WriteVarInt by (by apply is_u32_u64). split; [by apply varint_size_u32|by apply WriteVarInt_ok, is_u32_u64]. Qed.

Lemma tag_lengths :
  length (WriteVarInt (MakeTagVarInt trusted_uid)) = 1%nat /\ length (WriteVarInt (MakeTagVarInt trusted_packet_sequence_id)) = 1%nat /\
  length (WriteVarInt (MakeTagVarInt trusted_pid)) = 2%nat /\ length (WriteVarInt (MakeTagVarInt machine_id_field)) = 2%nat /\
  length (WriteVarInt (MakeTagVarInt previous_packet_dropped)) = 2%nat.
Proof. by vm_compute. Qed.

Lemma tag_bytes id : 0 <= id < 2 ^ 28 -> bytes_ok (WriteVarInt (MakeTagVarInt id)).
Proof.
  intros Hid. apply WriteVarInt_ok. unfold MakeTagVarInt. change (wire_type_num kVarInt) with 0. rewrite Z.lor_0_r. apply is_u32_u64, u32_range.
Qed.

Lemma int32_field_ok id v : 0 <= id < 2 ^ 28 -> 0 <= v < 2 ^ 31 ->
  (length (int32_field id v) <= length (WriteVarInt (MakeTagVarInt id)) + 5)%nat /\ bytes_ok (int32_field id v).
Proof.
  intros Hid Hv. unfold int32_field, WriteVarInt_T, ExtendValueForVarIntSerialization, s32. rewrite swrap_id by lia. unfold u64. rewrite Z.mod_small by lia.
  destruct (varint_u32_length v) as [Hl Hb]; [unfold is_u32; lia|]. rewrite length_app, bytes_ok_app. split; [lia|]. split; [by apply tag_bytes|done].
Qed.

Lemma uint32_field_ok id v : 0 <= id < 2 ^ 28 ->
  (length (uint32_field id v) <= length (WriteVarInt (MakeTagVarInt id)) + 5)%nat /\ bytes_ok (uint32_field id v).
Proof.
  intros Hid. unfold uint32_field, WriteVarInt_T, ExtendValueForVarIntSerialization. destruct (varint_u32_length (v mod 2 ^ 32)) as [Hl Hb]; [apply Z.mod_pos_bound; lia|].
  rewrite length_app, bytes_ok_app. split; [lia|]. split; [by apply tag_bytes|done].
Qed.

Lemma trusted_fields_ok client seq dropped : client_ok client -> (length (trusted_fields client seq dropped) <= 29)%nat /\ bytes_ok (trusted_fields client seq dropped).
Proof.
  intros (Hu & Hp & Hm). destruct tag_lengths as (T1 & T2 & T3 & T4 & T5). unfold trusted_fields.
  destruct (int32_field_ok trusted_uid (uid client) ltac:(by split) Hu) as [L1 B1]. destruct (uint32_field_ok trusted_packet_sequence_id seq ltac:(by split)) as [L2 B2].
  destruct (uint32_field_ok machine_id_field (machine_id client) ltac:(by split)) as [L4 B4].
  assert (L3 : (length (if has_pid client then int32_field trusted_pid (pid client) else []) <= 7)%nat /\
    bytes_ok (if has_pid client then int32_field trusted_pid (pid client) else [])).
  { unfold has_pid. destruct (Z.eqb_spec (pid client) kInvalidPid); cbn [negb]; [split; [cbn; lia|constructor]|].
    destruct (int32_field_ok trusted_pid (pid client) ltac:(by split)) as [L3 B3]; [unfold kInvalidPid in *; lia|]. split; [lia|done]. }
  assert (L5 : (length (if dropped then bool_field previous_packet_dropped dropped else []) <= 3)%nat /\
    bytes_ok (if dropped then bool_field previous_packet_dropped dropped else [])).
  { destruct dropped; [|split; [cbn; lia|constructor]]. unfold bool_field. rewrite length_app, bytes_ok_app. split; [cbn [length]; lia|].
    split; [by apply tag_bytes|]. by apply Forall_singleton. }
  destruct L3 as [L3 B3], L5 as [L5 B5]. rewrite !length_app, !bytes_ok_app. split; [destruct (has_non_default_machine_id client); cbn [length]; lia|].
  split_and!; try done. destruct (has_non_default_machine_id client); [done|constructor].
Qed.

Lemma trusted_fields_pos client seq dropped : (1 <= length (trusted_fields client seq dropped))%nat.
Proof. unfold trusted_fields, int32_field. rewrite !length_app. destruct tag_lengths as (-> & _). lia. Qed.

Lemma trusted_slice_ok client seq dropped : client_ok client -> trusted_slice client seq dropped = Some (trusted_fields client seq dropped).
Proof. intros Hc. unfold trusted_slice. destruct (trusted_fields_ok client seq dropped Hc) as [Hl _]. by rewrite (proj2 (Nat.leb_le _ _)) by lia. Qed.

(** ** Reading is total *)

Lemma packets_size_nonneg ps : 0 <= packets_size ps.
Proof. induction ps as [|p ps IH]; [done|]. change (packets_size (p :: ps)) with (packet_size p + packets_size ps). unfold packet_size. lia. Qed.

Lemma packets_size_app ps qs : packets_size (ps ++ qs) = packets_size ps + packets_size qs.
Proof. induction ps as [|p ps IH]; [done|]. change (packet_size p + packets_size (ps ++ qs) = packet_size p + packets_size ps + packets_size qs). lia. Qed.

Lemma stream_size_app ps qs : stream_size (ps ++ qs) = stream_size ps + stream_size qs.
Proof. induction ps as [|p ps IH]; [done|]. change (packet_size p + 8 + stream_size (ps ++ qs) = packet_size p + 8 + stream_size ps + stream_size qs). lia. Qed.

(** Packets that are not empty. *)
Lemma stream_size_bound ps : Forall (fun p => 1 <= packet_size p) ps -> stream_size ps <= 9 * packets_size ps.
Proof.
  induction 1 as [|p ps Hp _ IH]; [done|]. change (packet_size p + 8 + stream_size ps <= 9 * (packet_size p + packets_size ps)). lia.
Qed.

Lemma stream_size_le ps ps' : Forall2 (fun p p' => packet_size p' <= packet_size p) ps ps' -> stream_size ps' <= stream_size ps.
Proof.
  induction 1 as [|p p' ps ps' Hp _ IH]; [done|]. change (packet_size p' + 8 + stream_size ps' <= packet_size p + 8 + stream_size ps). lia.
Qed.

Lemma packets_stream ps : packets_size ps <= stream_size ps.
Proof. induction ps as [|p ps IH]; [done|]. change (packet_size p + packets_size ps <= packet_size p + 8 + stream_size ps). lia. Qed.

Lemma Validate_total slices : exists valid, Validate slices = Some valid.
Proof. rewrite Validate_run. by eexists. Qed.

(** A packet that was read from the buffer [b], the [i]-th of the session: octets of chunks of
    one producer and writer, accepted by the validator, and the fields of the service for the
    client of such a chunk. *)
Definition read_packet_ok (i : Z) (b : TraceBuffer) (st : ReadSession) (p : TracePacket) : Prop :=
  exists ss l producer writer client seq dropped,
    packet_slices p = l ++ [trusted_fields client seq dropped] /\ buffer_index_for_stats p = Some i /\
    read_slices b ss = Some l /\ Validate l = Some true /\ bytes_ok (mjoin l) /\
    written_by b producer writer client ss /\ packet_sequence_ids st !! (machine_id client, producer, writer) = Some seq.

(** Each sequence has an id of its own, and none has that of the service. *)
Record sequence_ids_ok (st : ReadSession) : Prop := {
  si_last : last_packet_sequence_id st = kServicePacketSequenceID + Z.of_nat (size (packet_sequence_ids st));
  si_range : map_Forall (fun _ id => kServicePacketSequenceID < id <= last_packet_sequence_id st) (packet_sequence_ids st);
  si_inj : forall k k' id, packet_sequence_ids st !! k = Some id -> packet_sequence_ids st !! k' = Some id -> k = k' }.

(** Sequence ids are only added, and stay apart as long as there are any left. *)
Record ids_grow (st st' : ReadSession) : Prop := {
  ig_sub : packet_sequence_ids st ⊆ packet_sequence_ids st';
  ig_ok : sequence_ids_ok st -> Z.of_nat (size (packet_sequence_ids st')) < 2 ^ 32 - 1 -> sequence_ids_ok st' }.

#[export] Instance ids_grow_preorder : PreOrder ids_grow.
Proof.
  split; [by intros st; split|]. intros a b c [H1 H2] [H3 H4]. split; [by etrans|]. intros Ha Hc. apply H4; [|done]. apply H2; [done|].
  pose proof (map_subseteq_size _ _ H3). lia.
Qed.

Lemma read_packet_grow i b st st' p : ids_grow st st' -> read_packet_ok i b st p -> read_packet_ok i b st' p.
Proof.
  intros [Hg _] (ss & l & pr & w & client & seq & d & H1 & H2 & H3 & H4 & H5 & H6 & H7). exists ss, l, pr, w, client, seq, d. split_and!; try done. by eapply lookup_weaken.
Qed.

(** Reading does not change where the octets of a buffer come from. *)
Lemma read_packet_same i b b' st p :
  data_ b' = data_ b -> chunk_table (index_ b') = chunk_table (index_ b) -> read_packet_ok i b' st p -> read_packet_ok i b st p.
Proof.
  intros E1 E2 (ss & l & pr & w & client & seq & d & H1 & H2 & H3 & H4 & H5 & H6 & H7). exists ss, l, pr, w, client, seq, d. split_and!; try done.
  - unfold read_slices in *. by rewrite <- E1.
  - by eapply written_by_same.
Qed.

Lemma same_ids_grow st st' :
  packet_sequence_ids st' = packet_sequence_ids st -> last_packet_sequence_id st' = last_packet_sequence_id st -> ids_grow st st'.
Proof. intros E1 E2. split; [by rewrite E1|]. intros [H1 H2 H3] _. split; rewrite ?E1, ?E2; done. Qed.

Lemma GetPacketSequenceID_grow st m p w :
  let '(seq, st') := GetPacketSequenceID st m p w in packet_sequence_ids st' !! (m, p, w) = Some seq /\ ids_grow st st'.
Proof.
  unfold GetPacketSequenceID. destruct (packet_sequence_ids st !! (m, p, w)) as [id|] eqn:E; [by split|]. cbn. rewrite lookup_insert_eq. split; [done|].
  split; [by apply insert_subseteq|]. intros [H1 H2 H3]. cbn. rewrite map_size_insert_None by done. intros Hs. unfold kServicePacketSequenceID in *.
  assert (Eu : u32 (last_packet_sequence_id st + 1) = last_packet_sequence_id st + 1) by (apply u32_id; unfold is_u32; lia).
  assert (Hnew : forall k id, packet_sequence_ids st !! k = Some id -> id <> last_packet_sequence_id st + 1) by (intros k id Ek; specialize (H2 k id Ek); cbn in H2; lia).
  split; cbn; rewrite Eu.
  - rewrite map_size_insert_None by done. unfold kServicePacketSequenceID. lia.
  - apply map_Forall_insert_2; [unfold kServicePacketSequenceID; lia|]. intros k id Ek. specialize (H2 k id Ek). cbn in H2. unfold kServicePacketSequenceID. lia.
  - intros k k' id. rewrite !lookup_insert_Some. intros [[<- <-]|[N1 E1]] [[<- E2]|[N2 E2]]; try done; [by apply Hnew in E2|subst id; by apply Hnew in E1|by eapply H3].
Qed.

(** What a read of one buffer gives. *)
Record buffer_read (i : Z) (st st' : ReadSession) (ps : list TracePacket) (hit : bool) (b b' : TraceBuffer) : Prop := {
  br_read : being_read b';
  br_same : same_buffer b b';
  br_table : chunk_table (index_ b') = chunk_table (index_ b);
  br_work : work b' <= work b;
  br_hit : hit = true -> work b' < work b;
  br_fits : Forall packet_fits ps;
  br_packets : Forall (read_packet_ok i b st') ps;
  br_ids : ids_grow st st' }.

Lemma same_buffer_trans a b c : same_buffer a b -> same_buffer b c -> same_buffer a c.
Proof. unfold same_buffer. intuition congruence. Qed.

(** The packets of the buffers are less than 12 GB: the one that reaches the threshold is
    the last. *)
Definition read_sizes (threshold bytes bytes' : Z) (hit : bool) (ps : list TracePacket) : Prop :=
  0 <= bytes < 2 ^ 33 -> threshold <= 2 ^ 33 ->
  bytes' = bytes + packets_size ps /\ bytes' < 2 ^ 33 + 2 ^ 32 /\ (hit = false -> bytes' < 2 ^ 33) /\ Forall (fun p => 1 <= packet_size p) ps.

Lemma read_packets_ok fuel buf_idx threshold n : forall st bytes b,
  being_read b -> kEnoughFuel <= Z.of_nat fuel -> work b < Z.of_nat n ->
  exists ps st' bytes' hit b', read_packets n fuel buf_idx threshold st bytes b = Some (ps, st', bytes', hit, b') /\ buffer_read buf_idx st st' ps hit b b' /\
    read_sizes threshold bytes bytes' hit ps.
Proof.
  induction n as [|n IH]; intros st bytes b Hb Hf Hn; [pose proof (work_bound b (proj1 Hb)); lia|]. cbn [read_packets].
  destruct (next_stored fuel b Hb Hf) as (r & b1 & -> & Hb1 & Hs1 & Ho1 & Hw1 & Hr). cbn [mbind option_bind].
  destruct r as [p|].
  2: { exists [], st, bytes, false, b1. split; [done|]. split; [by split|]. intros ? ?. cbn. split_and!; [lia..|constructor]. }
  destruct Hr as (Hw & Hown & l & El & Hl & Hlen). rewrite El. destruct (wb_client _ _ _ _ _ Hown) as (id & off & Hid).
  pose proof (chunk_client _ _ _ _ (proj1 (proj2 (proj2 (proj1 Hb)))) Hid) as Hci. cbn [mbind option_bind]. set (st0 := session_dcheck st _).
  assert (Hg0 : ids_grow st st0) by (by apply same_ids_grow).
  destruct (Validate_total l) as ([|] & Ev); rewrite Ev; cbn [mbind option_bind].
  2: { destruct (IH (count_invalid_packet st0) bytes b1 Hb1 Hf ltac:(lia)) as (ps & st' & bytes' & hit & b' & E & [H1 H2 H2' H3 H4 H5 H6 H7] & Hsz).
       exists ps, st', bytes', hit, b'. split; [done|]. split; [|done]. split; try done; [by eapply same_buffer_trans|congruence|lia| | |].
       - intros Eh. specialize (H4 Eh). lia.
       - eapply Forall_impl; [exact H6|]. intros q. apply read_packet_same; [apply Hs1|done].
       - transitivity (count_invalid_packet st0); [by apply same_ids_grow|done]. }
  set (client := client_identity (sequence_properties p)) in *.
  pose proof (GetPacketSequenceID_grow st0 (machine_id client) (producer_id_trusted (sequence_properties p)) (sp_writer_id (sequence_properties p))) as Hg.
  destruct (GetPacketSequenceID _ _ _ _) as [seq st1]. destruct Hg as [Hseq Hg]. rewrite trusted_slice_ok by done. cbn [mbind option_bind].
  destruct (trusted_fields_ok client seq (previous_packet_on_sequence_dropped p) Hci) as [Ht Htb].
  set (packet := AddSlice _ _). assert (Hj : mjoin (packet_slices packet) = mjoin l ++ trusted_fields client seq (previous_packet_on_sequence_dropped p)).
  { unfold packet, AddSlice. cbn [packet_slices]. rewrite join_app. f_equal. apply app_nil_r. }
  assert (Hfit : packet_fits packet).
  { split; [rewrite Hj; by apply bytes_ok_app|]. unfold packet_small, packet_size. rewrite Hj, length_app. unfold kMaxPacketBytes, UINT32_MAX in *. lia. }
  assert (Hone : 1 <= packet_size packet < 2 ^ 32).
  { destruct Hfit as [_ Hsm]. unfold packet_small, UINT32_MAX in Hsm. pose proof (trusted_fields_pos client seq (previous_packet_on_sequence_dropped p)).
    split; [|lia]. unfold packet_size. rewrite Hj, length_app. lia. }
  assert (Hok : read_packet_ok buf_idx b st1 packet).
  { exists (slices p), l, (producer_id_trusted (sequence_properties p)), (sp_writer_id (sequence_properties p)), client, seq, (previous_packet_on_sequence_dropped p).
    split_and!; try done. destruct Hs1 as (Hd1 & _). unfold read_slices in *. by rewrite <- Hd1. }
  assert (Hadd : 0 <= bytes < 2 ^ 33 -> u64 (bytes + packet_size packet) = bytes + packet_size packet) by (intros ?; unfold u64; apply Z.mod_small; lia).
  destruct (Z.leb_spec threshold (u64 (bytes + packet_size packet))) as [Hth|Hth].
  - eexists [packet], st1, _, true, b1. split; [done|]. split.
    + split; try done; [by apply Forall_singleton|by apply Forall_singleton|by etrans].
    + intros Hby _. rewrite Hadd by done. cbn. split_and!; [lia|lia|done|apply Forall_singleton; lia].
  - destruct (IH st1 (u64 (bytes + packet_size packet)) b1 Hb1 Hf ltac:(lia)) as (ps & st' & bytes' & hit & b' & -> & [H1 H2 H2' H3 H4 H5 H6 H7] & Hsz). cbn [mbind option_bind].
    exists (packet :: ps), st', bytes', hit, b'. split; [done|]. split.
    + split; try done; [by eapply same_buffer_trans|congruence|lia| |by constructor| |etrans; [exact Hg0|]; by etrans].
      * intros Eh. specialize (H4 Eh). lia.
      * constructor; [by eapply read_packet_grow|]. eapply Forall_impl; [exact H6|]. intros q. apply read_packet_same; [apply Hs1|done].
    + intros Hby Hle. rewrite Hadd in Hth, Hsz by done. destruct Hsz as (S1 & S2 & S3 & S4); [lia|done|]. cbn [packets_size foldr]. fold (packets_size ps).
      split_and!; [lia|done|done|constructor; [lia|done]].
Qed.

Fixpoint works (bufs : list TraceBuffer) : Z :=
  match bufs with
  | [] => 0
  | b :: bufs => work b + works bufs
  end.

Definition buffer_evolves (b b' : TraceBuffer) : Prop := stored_ok b' /\ same_buffer b b'.

Lemma evolves_refl bufs : Forall stored_ok bufs -> Forall2 buffer_evolves bufs bufs.
Proof. intros H0. apply Forall_Forall2_diag. eapply Forall_impl; [exact H0|]. by intros b Hb. Qed.

Lemma evolves_ok bufs bufs' : Forall2 buffer_evolves bufs bufs' -> Forall stored_ok bufs'.
Proof. induction 1 as [|b b' l l' [Hb _] _ IH]; by constructor. Qed.

Lemma evolves_trans a b c : Forall2 buffer_evolves a b -> Forall2 buffer_evolves b c -> Forall2 buffer_evolves a c.
Proof.
  intros H1. revert c. induction H1 as [|x y a b [_ S1] _ IH]; intros c H2; inversion H2 as [|? z ? d [Hz S2] H2']; subst; constructor; [|by apply IH].
  split; [done|by eapply same_buffer_trans].
Qed.

Record buffers_read (first : Z) (st st' : ReadSession) (ps : list TracePacket) (hit : bool) (bufs bufs' : list TraceBuffer) : Prop := {
  bs_bufs : Forall2 buffer_evolves bufs bufs';
  bs_work : works bufs' <= works bufs;
  bs_hit : hit = true -> works bufs' < works bufs;
  bs_fits : Forall packet_fits ps;
  bs_packets : Forall (fun p => exists i b, bufs !! i = Some b /\ read_packet_ok (first + Z.of_nat i) b st' p) ps;
  bs_ids : ids_grow st st' }.

Lemma read_all_buffers_ok fuel threshold bufs : forall buf_idx st bytes,
  Forall stored_ok bufs -> kEnoughFuel <= Z.of_nat fuel ->
  exists ps st' hit bufs', read_all_buffers fuel buf_idx threshold st bytes bufs = Some (ps, st', hit, bufs') /\ buffers_read buf_idx st st' ps hit bufs bufs' /\
    exists bytes', read_sizes threshold bytes bytes' hit ps.
Proof.
  induction bufs as [|b bufs IH]; intros buf_idx st bytes Hb Hf; cbn [read_all_buffers].
  - exists [], st, false, []. split; [done|]. split; [by split|]. exists bytes. intros ? ?. cbn. split_and!; [lia..|constructor].
  - apply Forall_cons in Hb as [Hb Hbs]. destruct (BeginRead_stored b Hb) as (b1 & -> & Hb1 & Hs1 & Ho1 & Hw1). cbn [mbind option_bind].
    pose proof (work_bound b1 (proj1 Hb1)) as Hwb.
    destruct (read_packets_ok fuel buf_idx threshold fuel st bytes b1 Hb1 Hf ltac:(lia)) as (ps & st1 & bytes1 & hit & b2 & -> & [H1 H2 _ H3 H4 H5 H6 H7] & Hsz).
    cbn [mbind option_bind]. assert (He : buffer_evolves b b2) by (split; [apply H1|by eapply same_buffer_trans]).
    assert (Hps : forall st', ids_grow st1 st' -> Forall (fun p => exists i b0, (b :: bufs) !! i = Some b0 /\ read_packet_ok (buf_idx + Z.of_nat i) b0 st' p) ps).
    { intros st' Hg. eapply Forall_impl; [exact H6|]. intros p Hp. exists 0%nat, b. split; [done|]. rewrite Z.add_0_r. eapply read_packet_grow; [exact Hg|].
      by apply (read_packet_same _ _ b1); [apply Hs1|..]. }
    destruct hit.
    + exists ps, st1, true, (b2 :: bufs). split; [done|]. specialize (H4 eq_refl). split; [|by exists bytes1].
      split; try done; cbn [works]; [constructor; [done|by apply evolves_refl]|lia..|by apply Hps].
    + destruct (IH (buf_idx + 1) st1 bytes1 Hbs Hf) as (more & st' & hit & bufs' & -> & [B1 B2 B3 B4 B5 B6] & bytes2 & Hsz2). cbn [mbind option_bind].
      exists (ps ++ more), st', hit, (b2 :: bufs'). split; [done|]. split; [split; cbn [works]; [by constructor|lia| | | |by etrans]|].
      * intros Eh. specialize (B3 Eh). lia.
      * by apply Forall_app.
      * apply Forall_app. split; [by apply Hps|]. eapply Forall_impl; [exact B5|]. intros p (i & b0 & Hi & Hp). exists (S i), b0. split; [done|].
        by replace (buf_idx + Z.of_nat (S i)) with (buf_idx + 1 + Z.of_nat i) by lia.
      * exists bytes2. intros Hby Hle. destruct (Hsz Hby Hle) as (S1 & S2 & S3 & S4).
        pose proof (packets_size_nonneg ps). destruct Hsz2 as (T1 & T2 & T3 & T4); [split; [lia|by apply S3]|done|]. pose proof (packets_size_app ps more).
        split_and!; [lia|done|done|by apply Forall_app].
Qed.

(** ** Filtering is total *)

(** A filter as the service sets it up: its tables are consistent, and its strings are
    filtered in place. *)
Definition filter_config_ok (c : Config) : Prop := QueryTotal (filter_ c) /\ InPlace (string_filter c) /\ 0 <= root_msg_index_ c.

Lemma split_slices_join fuel max : (0 < max)%nat -> forall data, (length data <= fuel)%nat -> mjoin (split_slices fuel max data) = data.
Proof.
  intros Hm. induction fuel as [|fuel IH]; intros data Hl; (destruct data as [|x data]; [done|]); [cbn in Hl; lia|]. cbn [split_slices].
  change (take max (x :: data) ++ mjoin (split_slices fuel max (drop max (x :: data))) = x :: data).
  rewrite IH; [apply take_drop|]. rewrite length_drop. cbn [length] in *. lia.
Qed.

Lemma add_slices_join ls : forall p, mjoin (packet_slices (foldl AddSlice p ls)) = mjoin (packet_slices p) ++ mjoin ls.
Proof.
  induction ls as [|l ls IH]; intros p; cbn [foldl]; [symmetry; apply app_nil_r|]. rewrite IH. unfold AddSlice. cbn [packet_slices].
  rewrite join_app, <- app_assoc. f_equal. change (mjoin [l]) with (l ++ []). by rewrite app_nil_r.
Qed.

(** However it is cut, the filtered packet has the octets of the filter. *)
Lemma AppendOwnedSlices_join data max p : (0 < max)%nat -> mjoin (packet_slices (AppendOwnedSlicesToPacket data max p)) = mjoin (packet_slices p) ++ data.
Proof.
  intros Hm. unfold AppendOwnedSlicesToPacket. destruct (_ <=? _)%nat.
  - unfold AddSlice. cbn [packet_slices]. rewrite join_app. f_equal. apply app_nil_r.
  - by rewrite add_slices_join, split_slices_join.
Qed.

Lemma filter_packet_ok c st p : filter_config_ok c -> packet_fits p -> exists p' st', filter_packet c st p = Some (p', st') /\ packet_size p' <= packet_size p.
Proof.
  intros (Hq & Hs & Hr) [Hb Hl]. unfold filter_packet. destruct (FilterMessageFragments_ok c idle_filter (packet_slices p) Hq Hs Hr Hb Hl) as (res & m & -> & Hsz).
  cbn [mbind option_bind]. destruct (fm_error res); [eexists _, _; split; [done|]; unfold packet_size; cbn; lia|].
  assert (Hout : forall i, packet_size (AppendOwnedSlicesToPacket (take (fm_size res) (fm_data res)) kMaxTracePacketSliceSize (mkTracePacket [] i)) <= packet_size p).
  { intros i. unfold packet_size. rewrite AppendOwnedSlices_join by (unfold kMaxTracePacketSliceSize; lia). cbn [packet_slices]. rewrite length_app, length_take. cbn. lia. }
  destruct (buffer_index_for_stats p); [|eexists _, _; by split]. unfold packet_size at 1. rewrite (proj2 (Z.leb_le _ _)) by lia. eexists _, _; by split.
Qed.

Lemma filter_packets_ok c : filter_config_ok c -> forall ps st, Forall packet_fits ps ->
  exists ps' st', filter_packets c st ps = Some (ps', st') /\ Forall2 (fun p p' => packet_size p' <= packet_size p) ps ps'.
Proof.
  intros Hc. induction ps as [|p ps IH]; intros st Hp; [exists [], st; split; [done|constructor]|]. apply Forall_cons in Hp as [Hp Hps]. cbn [filter_packets].
  destruct (filter_packet_ok c st p Hc Hp) as (p' & st1 & -> & Hs). cbn [mbind option_bind]. destruct (IH st1 Hps) as (ps' & st' & -> & Hs'). cbn [mbind option_bind].
  exists (p' :: ps'), st'. split; [done|by constructor].
Qed.

Lemma MaybeFilterPackets_ok o st ps :
  (forall c, o = Some c -> filter_config_ok c) -> Forall packet_fits ps ->
  exists ps' st', MaybeFilterPackets o st ps = Some (ps', st') /\ Forall2 (fun p p' => packet_size p' <= packet_size p) ps ps'.
Proof.
  intros Ho Hp. destruct o as [c|]; cbn.
  - apply filter_packets_ok; [by apply Ho|done].
  - exists ps, st. split; [done|]. apply Forall_Forall2_diag, Forall_forall. intros. lia.
Qed.

Context {HOk : ServiceHostOk H}.

Lemma ReadBuffers_ok fuel o z threshold st bufs :
  Forall stored_ok bufs -> (forall c, o = Some c -> filter_config_ok c) -> kEnoughFuel <= Z.of_nat fuel -> threshold <= 2 ^ 33 ->
  exists ps more st' bufs', ReadBuffers fuel o z threshold st bufs = Some (ps, more, st', bufs') /\
    Forall2 buffer_evolves bufs bufs' /\ works bufs' <= works bufs /\ (more = true -> works bufs' < works bufs) /\ Forall packet_writable ps.
Proof.
  intros Hb Ho Hf Hth. unfold ReadBuffers. pose proof (before_fits (host st)) as [Hbf Hbs]. destruct (ServicePacketsBefore (host st)) as [before h]. cbn [fst] in *.
  pose proof (packets_stream before) as Hbp. pose proof (packets_size_nonneg before) as Hb0. unfold UINT32_MAX in Hbs.
  destruct (read_all_buffers_ok fuel threshold bufs 0 (set_host st h) (u64 (packets_size before)) Hb Hf)
    as (ps & st1 & more & bufs' & -> & [B1 B2 B3 B4 _ _] & bytes' & Hsz). cbn [mbind option_bind].
  unfold u64 in Hsz. rewrite Z.mod_small in Hsz by lia. destruct Hsz as (S1 & S2 & _ & S4); [lia|done|]. apply stream_size_bound in S4.
  set (q := if more then _ else _). assert (Hq : Forall packet_fits q.1 /\ stream_size q.1 < UINT32_MAX).
  { unfold q. destruct more; [by split|]. pose proof (after_fits (host st1)). by destruct (ServicePacketsAfter (host st1)). }
  destruct q as [after st2]. cbn [fst] in Hq. destruct Hq as [Hq Hqs]. unfold UINT32_MAX in Hqs.
  destruct (MaybeFilterPackets_ok o st2 (before ++ ps ++ after) Ho) as (ps' & st' & -> & Hs); [by rewrite !Forall_app|]. cbn [mbind option_bind].
  eexists _, more, st', bufs'. split; [done|]. split_and!; try done.
  unfold MaybeCompressPackets. destruct z.
  - apply compressed_writable. apply stream_size_le in Hs. rewrite !stream_size_app in Hs. lia.
  - assert (Hall : Forall packet_fits (before ++ ps ++ after)) by (by rewrite !Forall_app). clear -Hs Hall. induction Hs as [|p p' l l' Hp _ IH]; [constructor|].
    apply Forall_cons in Hall as [[_ Hx] Hl]. constructor; [unfold packet_small, packet_writable, UINT32_MAX in *; lia|by apply IH].
Qed.

(** ** Writing is total *)

Lemma GetProtoPreamble_ok p : packet_writable p -> exists l, GetProtoPreamble p = Some l.
Proof.
  intros Hp. unfold GetProtoPreamble. rewrite (proj2 (Nat.leb_le _ _)); [by eexists|]. cbn [length]. unfold packet_writable in Hp.
  assert (H0 : 0 <= packet_size p) by (unfold packet_size; lia). rewrite length_WriteVarInt by (unfold is_u64; lia).
  pose proof (varint_size_mono (packet_size p) (2 ^ 49 - 1) ltac:(lia)) as Hm. change (varint_size (2 ^ 49 - 1)) with 7%nat in Hm. unfold kMaxPreambleBytes. lia.
Qed.

Lemma fill_iovecs_ok max written ps : forall bytes, Forall packet_writable ps -> exists iovecs stop, fill_iovecs max written bytes ps = Some (iovecs, stop).
Proof.
  induction ps as [|p ps IH]; intros bytes Hp; cbn [fill_iovecs]; [by exists [], false|]. apply Forall_cons in Hp as [Hp Hps].
  destruct (GetProtoPreamble_ok p Hp) as (l & ->). cbn [mbind option_bind]. destruct (_ <=? _); [by exists [], true|].
  destruct (IH (u64 (bytes + Z.of_nat (length l) + packet_size p)) Hps) as (iovecs & stop & ->). cbn [mbind option_bind]. by eexists _, _.
Qed.

Lemma WriteIntoFile_ok max st written ps : Forall packet_writable ps -> exists stop st' written', WriteIntoFile max st written ps = Some (stop, st', written').
Proof.
  intros Hp. unfold WriteIntoFile. destruct (fill_iovecs_ok (if max =? 0 then 2 ^ 64 - 1 else max) written ps 0 Hp) as (iovecs & stop & ->). cbn [mbind option_bind].
  destruct (write_batches _ _ _ _) as [[total failed] h]. by eexists _, _, _.
Qed.

(** Each round with more to read uses up some work, so that the loop ends. *)
Lemma read_into_file_ok fuel o z max n : forall st written bufs,
  Forall stored_ok bufs -> (forall c, o = Some c -> filter_config_ok c) -> kEnoughFuel <= Z.of_nat fuel -> works bufs < Z.of_nat n ->
  exists bufs' st' written' stop more, read_into_file n fuel o z max st written bufs = Some (bufs', st', written', stop, more) /\ Forall2 buffer_evolves bufs bufs'.
Proof.
  induction n as [|n IH]; intros st written bufs Hb Ho Hf Hn.
  { assert (0 <= works bufs); [|lia]. clear -Hb. induction Hb as [|b bufs Hb _ IH]; cbn [works]; [done|]. pose proof (work_bound b Hb). lia. }
  cbn [read_into_file]. destruct (ReadBuffers_ok fuel o z kWriteIntoFileChunkSize st bufs Hb Ho Hf ltac:(done)) as (ps & more & st1 & bufs1 & -> & B1 & B2 & B3 & B4). cbn [mbind option_bind].
  destruct (WriteIntoFile_ok max st1 written ps B4) as (stop & st2 & written2 & ->). cbn [mbind option_bind]. destruct (more && negb stop) eqn:Em.
  - apply andb_true_iff in Em as [Em _]. specialize (B3 Em).
    destruct (IH st2 written2 bufs1 (evolves_ok _ _ B1) Ho Hf ltac:(lia)) as (bufs' & st' & w' & stop' & more' & -> & B5).
    eexists _, _, _, _, _. split; [done|]. by eapply evolves_trans.
  - by eexists _, _, _, _, _.
Qed.

Lemma works_bound bufs : Forall stored_ok bufs -> works bufs <= Z.of_nat (length bufs) * kEnoughFuel.
Proof. induction 1 as [|b bufs Hb _ IH]; cbn [works length]; [done|]. pose proof (work_bound b Hb). unfold kEnoughFuel in *. lia. Qed.

Lemma read_for_consumer_ok fuel o z st bufs :
  Forall stored_ok bufs -> (forall c, o = Some c -> filter_config_ok c) -> kEnoughFuel <= Z.of_nat fuel ->
  exists bufs' st' ps more, read_for_consumer fuel o z st bufs = Some (bufs', st', ps, more) /\ Forall2 buffer_evolves bufs bufs'.
Proof.
  intros Hb Ho Hf. unfold read_for_consumer. destruct (ReadBuffers_ok fuel o z kApproxBytesPerTask st bufs Hb Ho Hf ltac:(done)) as (ps & more & st1 & bufs1 & -> & B1 & _).
  by eexists _, _, _, _.
Qed.

(** ** Trusted fields as the decoder sees them *)

Definition trusted_list (client : ClientIdentity) (seq : Z) (dropped : bool) : list wire_field :=
  [WVarInt trusted_uid (u64 (s32 (uid client))); WVarInt trusted_packet_sequence_id (u32 seq)] ++
  (if has_pid client then [WVarInt trusted_pid (u64 (s32 (pid client)))] else []) ++
  (if has_non_default_machine_id client then [WVarInt machine_id_field (u32 (machine_id client))] else []) ++
  (if dropped then [WVarInt previous_packet_dropped 1] else []).

Lemma trusted_list_fields client seq dropped : trusted_fields client seq dropped = concat (map encode_field (trusted_list client seq dropped)).
Proof.
  unfold trusted_fields, trusted_list. rewrite !map_app, !concat_app. cbn [map concat encode_field]. rewrite app_nil_r, <- app_assoc. do 2 f_equal.
  f_equal; [by destruct (has_pid client); cbn; rewrite ?app_nil_r|]. f_equal; [by destruct (has_non_default_machine_id client); cbn; rewrite ?app_nil_r|].
  by destruct dropped; cbn; rewrite ?app_nil_r.
Qed.

Lemma trusted_list_ok client seq dropped : Forall wf_ok (trusted_list client seq dropped).
Proof.
  assert (Hu : forall x, is_u64 (u64 x)) by (intros x; apply Z.mod_pos_bound; lia). assert (Hu32 : forall x, is_u64 (u32 x)) by (intros x; apply is_u32_u64, Z.mod_pos_bound; lia).
  unfold trusted_list. rewrite !Forall_app. split_and!; [|destruct (has_pid client)|destruct (has_non_default_machine_id client)|destruct dropped];
    repeat first [apply Forall_cons_2|apply Forall_nil_2]; (split; [by vm_compute|by auto || done]).
Qed.

Lemma view_id mem f w : view mem f = Some w -> wf_id w = id_ f.
Proof. unfold view. destruct (wire_type_of_num _) as [[]|]; intros; by simplify_eq. Qed.

(** The decoder finds the fields of the producer and then those of the service. *)
Lemma decode_trusted l ws client seq dropped :
  Validate l = Some true -> bytes_ok (mjoin l) -> mjoin l = concat (map encode_field ws) -> Forall wf_ok ws ->
  let octets := mjoin (l ++ [trusted_fields client seq dropped]) in
  Forall (fun w => wf_id w ∉ kReservedFieldIds) ws /\ map (view octets) (ReadAllFields octets) = map Some (ws ++ trusted_list client seq dropped).
Proof.
  intros Hv Hb Hl Hws. assert (Hcat : concat l = mjoin l) by (clear; induction l as [|x l IH]; [done|]; cbn [concat]; by rewrite IH).
  rewrite Validate_run, Hcat, (run_well_formed (length (mjoin l))) in Hv by done. injection Hv as Hv.
  pose proof (well_formed_fields (mjoin l) Hb (S (length (mjoin l))) (length (mjoin l)) 0 ltac:(lia)) as Hnr. rewrite drop_0 in Hnr. specialize (Hnr Hv). split.
  - destruct (all_fields_encode ws [] (S (length (mjoin l))) Hws) as [Hview _]; [cbn [app length]; rewrite <- Hl; lia|]. cbn [app length] in Hview. rewrite <- Hl in Hview.
    clear -Hview Hnr. revert ws Hview. induction Hnr as [|f fs Hf _ IH]; intros [|w ws] Hview; try done. cbn [map] in Hview. injection Hview as Hvf Hvs.
    constructor; [|by apply IH]. by rewrite (view_id _ _ _ Hvf).
  - assert (Ho : mjoin (l ++ [trusted_fields client seq dropped]) = concat (map encode_field (ws ++ trusted_list client seq dropped))).
    { rewrite join_app, map_app, concat_app, <- Hl, <- trusted_list_fields. f_equal. apply app_nil_r. }
    cbn zeta. rewrite Ho. assert (Hall : Forall wf_ok (ws ++ trusted_list client seq dropped)) by (apply Forall_app; split; [done|apply trusted_list_ok]).
    set (mem := concat (map encode_field _)). assert (Hbm : bytes_ok mem).
    { unfold mem. clear -Hall. induction Hall as [|w l Hw _ IH]; cbn; [constructor|]. apply bytes_ok_app. split; [by apply encode_field_ok|done]. }
    unfold ReadAllFields. rewrite (ReadAllFields_loop_eq mem Hbm _ (S (length mem)) 0) by lia.
    by destruct (all_fields_encode (ws ++ trusted_list client seq dropped) [] (S (length mem)) Hall) as [? _]; [cbn [app length]; fold mem; lia|].
Qed.


(** ** The size of the file *)

Lemma iovecs_size max written ps : forall bytes iovecs stop,
  0 <= written -> 0 <= bytes -> written + bytes < max -> max <= 2 ^ 63 -> Forall packet_writable ps ->
  fill_iovecs max written bytes ps = Some (iovecs, stop) -> written + bytes + Z.of_nat (length (mjoin iovecs)) < max.
Proof.
  induction ps as [|p ps IH]; intros bytes iovecs stop Hw Hb Hm Hmax Hps H1; cbn [fill_iovecs] in H1; [simplify_eq; cbn; lia|].
  apply Forall_cons in Hps as [Hp Hps]. destruct (GetProtoPreamble p) as [l|] eqn:El; [|done]. cbn [mbind option_bind] in H1.
  assert (Hl : (length l <= 8)%nat).
  { unfold GetProtoPreamble in El. destruct (Nat.leb_spec (length (MakeTagLengthDelimited kPacketFieldNumber :: WriteVarInt (packet_size p))) kMaxPreambleBytes); [|done]. by simplify_eq. }
  assert (0 <= packet_size p < 2 ^ 49) as Hsz by (unfold packet_writable, packet_size in *; lia).
  unfold u64 in H1. rewrite (Z.mod_small (bytes + Z.of_nat (length l) + packet_size p)), Z.mod_small in H1 by lia.
  destruct (Z.leb_spec max (written + (bytes + Z.of_nat (length l) + packet_size p))) as [|Hlt]; [simplify_eq; cbn; lia|].
  destruct (fill_iovecs max written _ ps) as [[iov s]|] eqn:E; [|done]. cbn [mbind option_bind] in H1. simplify_eq.
  apply IH in E; try done; [|lia..]. change (mjoin (l :: packet_slices p ++ iov)) with (l ++ mjoin (packet_slices p ++ iov)). rewrite join_app, !length_app.
  unfold packet_size in *. lia.
Qed.

Lemma write_batches_size n : forall h iovecs total, 0 <= total -> total + Z.of_nat (length (mjoin iovecs)) < 2 ^ 64 ->
  0 <= (write_batches n h iovecs total).1.1 <= total + Z.of_nat (length (mjoin iovecs)).
Proof.
  induction n as [|n IH]; intros h iovecs total Ht Hl; destruct iovecs as [|v iovecs]; cbn [write_batches]; cbn [fst]; try lia.
  pose proof (writev_at_most h (take kIOVMax (v :: iovecs))) as Hw. destruct (writev h _) as [wr h1]. cbn [fst] in Hw.
  destruct (Z.leb_spec wr 0); cbn [fst]; [lia|]. pose proof (take_drop kIOVMax (v :: iovecs)) as Htd.
  assert (Hj : length (mjoin (v :: iovecs)) = (length (mjoin (take kIOVMax (v :: iovecs))) + length (mjoin (drop kIOVMax (v :: iovecs))))%nat).
  { rewrite <- length_app, <- join_app, Htd. done. }
  unfold u64. rewrite Z.mod_small by lia. specialize (IH h1 (drop kIOVMax (v :: iovecs)) (total + wr)). lia.
Qed.

Lemma WriteIntoFile_size max st written ps stop st' written' :
  0 <= written < max -> max <= 2 ^ 63 -> Forall packet_writable ps -> WriteIntoFile max st written ps = Some (stop, st', written') -> written <= written' < max.
Proof.
  intros Hw Hm Hp H1. unfold WriteIntoFile in H1. rewrite (proj2 (Z.eqb_neq max 0)) in H1 by lia. destruct (fill_iovecs max written 0 ps) as [[iov s]|] eqn:E; [|done].
  cbn [mbind option_bind] in H1. apply iovecs_size in E; [|lia..|done]. pose proof (write_batches_size (length iov) (host st) iov 0 ltac:(lia) ltac:(lia)) as Hb.
  destruct (write_batches _ _ _ _) as [[total failed] h]. cbn [fst] in Hb. injection H1 as <- <- <-. unfold u64. rewrite Z.mod_small by lia. lia.
Qed.

Lemma read_into_file_size fuel o z max n : forall st written bufs bufs' st' written' stop more,
  Forall stored_ok bufs -> (forall c, o = Some c -> filter_config_ok c) -> kEnoughFuel <= Z.of_nat fuel -> 0 <= written < max -> max <= 2 ^ 63 ->
  read_into_file n fuel o z max st written bufs = Some (bufs', st', written', stop, more) -> written <= written' < max.
Proof.
  induction n as [|n IH]; intros st written bufs bufs' st' written' stop more Hb Ho Hf Hw Hm H1; [done|]. cbn [read_into_file] in H1.
  destruct (ReadBuffers_ok fuel o z kWriteIntoFileChunkSize st bufs Hb Ho Hf ltac:(done)) as (ps & more1 & st1 & bufs1 & E & B1 & _ & _ & B4). rewrite E in H1. cbn [mbind option_bind] in H1.
  destruct (WriteIntoFile max st1 written ps) as [[[stop1 st2] w2]|] eqn:Ew; [|done]. cbn [mbind option_bind] in H1. apply WriteIntoFile_size in Ew; [|done..].
  destruct (more1 && negb stop1); [|simplify_eq; lia]. apply IH in H1; [lia|by apply (evolves_ok bufs)|done..|lia|done].
Qed.

(** Rounds of the loop of [ReadBuffersIntoFile] that are enough for [n] buffers. *)
Definition enough_rounds (n : nat) : Z := Z.of_nat n * kEnoughFuel + 1.

(** C3: draining buffers into a file ends, whatever is in the buffers, the filter and the
    compressor do, and however little each write gets done; and a file with a limit stays
    below it. *)
Theorem drain_into_file_bounded fuel n o z max st written bufs :
  Forall stored_ok bufs -> (forall c, o = Some c -> filter_config_ok c) -> kEnoughFuel <= Z.of_nat fuel -> enough_rounds (length bufs) <= Z.of_nat n ->
  0 <= written -> max = 0 \/ written < max <= 2 ^ 63 ->
  exists bufs' st' written' stop more, read_into_file n fuel o z max st written bufs = Some (bufs', st', written', stop, more) /\
    Forall2 buffer_evolves bufs bufs' /\ (max <> 0 -> written <= written' < max).
Proof.
  intros Hb Ho Hf Hn Hw Hm. pose proof (works_bound bufs Hb). unfold enough_rounds in Hn.
  destruct (read_into_file_ok fuel o z max n st written bufs Hb Ho Hf ltac:(lia)) as (bufs' & st' & w' & stop & more & E & B). exists bufs', st', w', stop, more.
  split; [done|]. split; [done|]. intros Hne. destruct Hm as [|Hm]; [done|]. by eapply read_into_file_size in E; [|done..|lia|lia].
Qed.
End Read.

(** ** Fields with the id 0 *)

(** A field as the encoder would write it, but with the id 0, which no message has. *)
Definition wf_zero (w : wire_field) : Prop :=
  wf_id w = 0 /\
  match w with
  | WVarInt _ v | WFixed64 _ v => is_u64 v
  | WFixed32 _ v => is_u32 v
  | WBytes _ p => bytes_ok p /\ Z.of_nat (length p) <= kMaxMessageLength
  end.

Lemma encode_zero w : wf_zero w -> encode_field w = wire_type_num (wf_type w) :: wf_body w /\ bytes_ok (encode_field w).
Proof.
  intros [Hid Hw]. assert (E : encode_field w = wire_type_num (wf_type w) :: wf_body w) by (rewrite encode_field_eq, Hid; by destruct (wf_type w)).
  split; [done|]. rewrite E. apply Forall_cons. split; [by destruct (wf_type w)|].
  destruct w as [id v|id v|id v|id p]; cbn [wf_body]; [by apply WriteVarInt_ok|apply le_bytes_ok|apply le_bytes_ok|].
  destruct Hw as [Hp Hl]. destruct (kMaxMessageLength_u32 (Z.of_nat (length p))) as [H32 H64]; [lia|]. apply bytes_ok_app. split; [by apply WriteVarInt_ok|done].
Qed.

(** It is a complete field to the validator. *)
Lemma well_formed_zero w fuel : wf_zero w -> well_formed (S fuel) (encode_field w) = true.
Proof.
  intros Hz. destruct (encode_zero w Hz) as [E Hb]. rewrite E in *. apply Forall_cons in Hb as [_ Hb]. destruct Hz as [_ Hw].
  assert (Hnil : forall n l, n = length l -> well_formed fuel (drop n l) = true) by (intros n l ->; rewrite drop_all; by destruct fuel).
  destruct w as [id v|id v|id v|id p]; cbn [wf_type wf_body wire_type_num] in *.
  - change (well_formed (S fuel) (0 :: WriteVarInt v)) with (let '(m, _) := ParseVarInt (WriteVarInt v) in if decide (m = 0%nat) then false else well_formed fuel (drop m (WriteVarInt v))).
    rewrite <- (app_nil_r (WriteVarInt v)) at 1. rewrite ParseVarInt_WriteVarInt by (done || constructor).
    rewrite decide_False by (pose proof (length_WriteVarInt_pos v Hw); lia). by apply Hnil.
  - change (well_formed (S fuel) (5 :: le_bytes 4 v)) with (if (length (le_bytes 4 v) <? 4)%nat then false else well_formed fuel (drop 4 (le_bytes 4 v))).
    rewrite length_le_bytes. apply Hnil. by rewrite length_le_bytes.
  - change (well_formed (S fuel) (1 :: le_bytes 8 v)) with (if (length (le_bytes 8 v) <? 8)%nat then false else well_formed fuel (drop 8 (le_bytes 8 v))).
    rewrite length_le_bytes. apply Hnil. by rewrite length_le_bytes.
  - destruct Hw as [Hp Hl]. destruct (kMaxMessageLength_u32 (Z.of_nat (length p))) as [H32 H64]; [lia|]. set (body := WriteVarInt _ ++ p) in *.
    change (well_formed (S fuel) (2 :: body)) with (let '(m, len) := ParseVarInt body in
      if decide (m = 0%nat) then false else if kMaxMessageLength <? len then false else if Z.of_nat (length (drop m body)) <? len then false
      else well_formed fuel (drop (Z.to_nat len) (drop m body))).
    unfold body. rewrite ParseVarInt_WriteVarInt by done. rewrite decide_False by (pose proof (length_WriteVarInt_pos _ H64); lia).
    rewrite (proj2 (Z.ltb_ge _ _)) by lia. rewrite drop_app_len, (proj2 (Z.ltb_ge _ _)) by lia. apply Hnil. lia.
Qed.

(** The decoder stops at it, whatever follows. *)
Lemma all_fields_zero w tail ws : wf_zero w -> bytes_ok tail -> Forall wf_ok ws -> forall pre k,
  let mem := pre ++ concat (map encode_field ws) ++ encode_field w ++ tail in
  (length mem - length pre < k)%nat -> map (view mem) (all_fields mem k (length pre)) = map Some ws.
Proof.
  intros Hz Ht Hws. destruct (encode_zero w Hz) as [Ez Hbz]. induction Hws as [|x ws Hx Hws IH]; intros pre k mem Hk.
  - destruct k as [|k]; [lia|]. cbn [all_fields]. assert (Ed : drop (length pre) mem = wire_type_num (wf_type w) :: wf_body w ++ tail).
    { unfold mem. rewrite drop_app_len. cbn [map concat app]. by rewrite Ez. }
    assert (Hp : parse_res (ParseOneField mem (length pre)) = kAbort) by (unfold ParseOneField; rewrite Ed; by destruct (wf_type w)). by rewrite Hp.
  - set (rest := concat (map encode_field ws) ++ encode_field w ++ tail). assert (Hb : bytes_ok rest).
    { unfold rest. rewrite !bytes_ok_app. split_and!; try done. clear -Hws. induction Hws; cbn; [constructor|]. apply bytes_ok_app. auto using encode_field_ok. }
    assert (Em : mem = (pre ++ encode_field x) ++ rest) by (unfold mem, rest; cbn [map concat]; by rewrite <- !app_assoc).
    destruct (ParseOneField_encode pre x rest Hx Hb) as (f & Hp & Hv & _). rewrite app_assoc, <- Em in Hp, Hv.
    assert (Hlt : (0 < length (encode_field x))%nat).
    { pose proof (wf_tag x Hx) as (Htag & _). rewrite encode_field_eq, length_app. pose proof (length_WriteVarInt_pos _ (is_u32_u64 _ Htag)). lia. }
    destruct k as [|k]; [lia|]. cbn [all_fields]. rewrite Hp. cbn [parse_res map next field]. rewrite Hv. f_equal.
    specialize (IH (pre ++ encode_field x) k). fold rest in IH. rewrite <- Em, length_app in IH. apply IH. rewrite Em, !length_app in *. lia.
Qed.

(** C11: a packet with a field of id 0, of any type, hides the fields of the service. Take any
    encoded fields of ids that are not reserved and then one with the id 0: the validator
    accepts the packet, while a decoder of what the service makes of it finds the fields in
    front and nothing of what the service has appended, whoever the client is. *)
Theorem field_id_zero_hides_trusted ws w client seq dropped :
  Forall wf_ok ws -> Forall (fun w => wf_id w ∉ kReservedFieldIds) ws -> wf_zero w ->
  let written := concat (map encode_field (ws ++ [w])) in
  let octets := written ++ trusted_fields client seq dropped in
  Validate [written] = Some true /\ map (view octets) (ReadAllFields octets) = map Some ws.
Proof.
  intros Hok Hr Hz written octets. destruct (encode_zero w Hz) as [Ez Hbz].
  assert (Ew : written = concat (map encode_field ws) ++ encode_field w) by (unfold written; rewrite map_app, concat_app; cbn [map concat]; by rewrite app_nil_r).
  assert (Hbf : forall l, Forall wf_ok l -> bytes_ok (concat (map encode_field l))).
  { induction 1 as [|x l Hx _ IH]; cbn; [constructor|]. apply bytes_ok_app. split; [by apply encode_field_ok|done]. }
  assert (Hbw : bytes_ok written) by (rewrite Ew; apply bytes_ok_app; auto).
  assert (Hbt : bytes_ok (trusted_fields client seq dropped)) by (rewrite trusted_list_fields; apply Hbf, trusted_list_ok). split.
  - rewrite Validate_run. cbn [concat]. rewrite app_nil_r, (run_well_formed (length ws + S (length written))) by (done || lia).
    rewrite Ew at 2. rewrite well_formed_encode_app by done. by rewrite well_formed_zero.
  - assert (Hbo : bytes_ok octets) by (by apply bytes_ok_app). unfold ReadAllFields. rewrite (ReadAllFields_loop_eq octets Hbo _ (S (length octets)) 0) by lia.
    pose proof (all_fields_zero w (trusted_fields client seq dropped) ws Hz Hbt Hok [] (S (length octets))) as Hall.
    cbn [app length] in Hall. rewrite (app_assoc (concat _)), <- Ew in Hall. apply Hall. fold octets. lia.
Qed.

Lemma field_id_zero_hides_trusted_witness :
  Validate [[0x08; 0x01; 0x02; 0x01; 0xff]] = Some true /\
  let octets := [0x08; 0x01; 0x02; 0x01; 0xff] ++ trusted_fields (mkIdentity 1000 42 0) 2 true in map (view octets) (ReadAllFields octets) = [Some (WVarInt 1 1)].
Proof.
  apply (field_id_zero_hides_trusted [WVarInt 1 1] (WBytes 0 [0xff])).
  - apply Forall_singleton. split; [by vm_compute|done].
  - apply Forall_singleton. by apply (bool_decide_unpack (1 ∉ kReservedFieldIds)).
  - split; [done|]. split; [by apply Forall_singleton|done].
Defined.

(** ** A host *)

(** It adds a packet of its own to the first read, its compressor makes one packet of all, and
    it writes all it is given. *)
Definition example_host : ServiceHost := {|
  HostState := bool;
  HostState_new := true;
  HostState_clone := id;
  ServicePacketsBefore h := (if h then [mkTracePacket [[0x50; 0x01]] None] else [], false);
  ServicePacketsAfter h := ([], h);
  compressor_fn ps := match ps with [] => [] | _ => [mkTracePacket [ps ≫= fun p => mjoin (packet_slices p)] None] end;
  writev h iov := (Z.of_nat (length (mjoin iov)), h) |}.

#[export] Instance example_host_ok : ServiceHostOk example_host.
Proof.
  split.
  - intros [|]; [|split; [constructor|done]]. split; [|done]. apply Forall_singleton. split; [|done]. by repeat constructor.
  - intros h. split; [constructor|done].
  - intros ps Hs. cbn. destruct ps as [|p ps]; [constructor|]. apply Forall_singleton. unfold packet_writable. pose proof (packets_stream (p :: ps)) as Hp.
    assert (E : packet_size (mkTracePacket [(p :: ps) ≫= fun p => mjoin (packet_slices p)] None) = packets_size (p :: ps)); [|lia].
    unfold packet_size. cbn [packet_slices mjoin list_join]. rewrite app_nil_r. clear. generalize (p :: ps) as l. intros l. induction l as [|q l IH]; [done|].
    change (packets_size (q :: l)) with (packet_size q + packets_size l). cbn [mbind list_bind]. rewrite length_app. unfold packet_size. lia.
  - intros h iov. reflexivity.
Qed.

(** A buffer with a chunk of two packets, the second of which sets the trusted uid. *)
Definition ex_stored : TraceBuffer :=
  default (ex_buffer kOverwrite)
    (b ← Create 64 kOverwrite; CopyChunkUntrusted b 1 (mkIdentity 1000 42 0) 7 0 2 0 true [2; 0x08; 0x01; 2; 0x18; 0x00]).

Lemma ex_stored_ok : stored_ok ex_stored.
Proof.
  destruct (Create_stored 64 kOverwrite) as (b & E & Hb & Hro & _); [lia|done|].
  destruct (Copy_stored b 1 (mkIdentity 1000 42 0) 7 0 2 0 true [2; 0x08; 0x01; 2; 0x18; 0x00] Hb Hro) as (b' & E' & Hb' & _).
  - unfold chunk_args, is_u16, is_u32, is_u8. cbn [length]. lia.
  - unfold client_ok, is_u32, kInvalidPid. cbn. lia.
  - repeat apply Forall_cons_2; [unfold_u; lia..|constructor].
  - unfold ex_stored. rewrite E. cbn [mbind option_bind]. by rewrite E'.
Qed.


Lemma drain_into_file_bounded_witness :
  exists bufs' st' written' stop more,
    read_into_file (Z.to_nat (enough_rounds 1)) (Z.to_nat kEnoughFuel) None false 100 (@ReadSession_new example_host) 0 [ex_stored] =
      Some (bufs', st', written', stop, more) /\ 0 <= written' < 100.
Proof.
  destruct (drain_into_file_bounded (H := example_host) (Z.to_nat kEnoughFuel) (Z.to_nat (enough_rounds 1)) None false 100 ReadSession_new 0 [ex_stored])
    as (bufs' & st' & w' & stop & more & E & _ & Hw).
  - apply Forall_singleton, ex_stored_ok.
  - done.
  - rewrite Z2Nat.id; [done|]. by apply Z.pow_nonneg.
  - rewrite Z2Nat.id; [done|]. by vm_compute.
  - done.
  - by right.
  - exists bufs', st', w', stop, more. split; [exact E|]. by apply Hw.
Defined.

(** The file gets the packet of the service and the first one of the producer, which the
    trusted fields follow. *)
Example example_drain :
  match ReadBuffers 300 None false 100 (@ReadSession_new example_host) [ex_stored], read_into_file 3 300 None false 100 (@ReadSession_new example_host) 0 [ex_stored] with
  | Some (ps, _, _, _), Some (_, st, written, stop, more) =>
      packet_slices <$> ps = [[[0x50; 0x01]]; [[0x08; 0x01]; trusted_fields (mkIdentity 1000 42 0) 2 true]] /\
      invalid_packets st = 1 /\ written = 19 /\ stop = false /\ more = false
  | _, _ => False
  end.
Proof. vm_compute. done. Qed.
