(* ===== verification/TracingServiceTypes.v ===== *)
(** * The tracing service: its state

    The data of [src/tracing/service/tracing_service_impl.h] and of the configurations
    that consumers pass ([include/dejaview/tracing/core/trace_config.h]).

    Pointers to producers, consumers and sessions are their identifiers. What is
    posted to the task runner waits in [tasks]; a step of the service takes any task
    out of it, so every order and every delay is covered. What is posted to the
    clients is recorded in [sent]. The time and the memory that is left are set by
    the environment between steps. Trace buffers and filters are the interface
    [DataPlane]. *)

From S2P Require Import Prelude IdAllocator.

(** ** Configurations *)

(** The values of the enumeration of trigger modes. *)
Definition UNSPECIFIED : Z := 0.
Definition START_TRACING : Z := 1.
Definition STOP_TRACING : Z := 2.
Definition CLONE_SNAPSHOT : Z := 4.
Definition TriggerMode_MAX : Z := 4.

Record Trigger := mkTrigger { tr_name : string; producer_name_regex : string; stop_delay_ms : Z; max_per_24_h : Z }.

Record TriggerConfig := mkTriggerConfig {
  trigger_mode : Z; use_clone_snapshot_if_available : bool; triggers : list Trigger; trigger_timeout_ms : Z }.

Record BufferConfig := mkBufferConfig { size_kb : Z; fill_discard : bool; transfer_on_clone : bool; clear_before_clone : bool }.

Record DataSourceConfig := mkDsConfig {
  ds_name : string; target_buffer : Z; trace_duration_ms : Z; stop_timeout_ms : Z; ds_enable_extra_guardrails : bool; ds_tracing_session_id : Z }.

Record DataSource := mkDataSource { ds_config : DataSourceConfig; producer_name_filter : list string; producer_name_regex_filter : list string }.

Record ProducerConfig := mkProducerConfig { pc_name : string; page_size_kb : Z; shm_size_kb : Z }.

Record SessionSemaphore := mkSemaphore { sem_name : string; max_other_session_count : Z }.

(** [TraceConfig.LockdownModeOperation]. *)
Inductive LockdownMode := LOCKDOWN_UNCHANGED | LOCKDOWN_CLEAR | LOCKDOWN_SET.

(** ** What the service needs of other components *)

(** Trace buffers, filters, the reading of buffers, and [std::regex_match]. Buffers are
    created with a size in octets and the overwrite policy; [None] is a failed check. What
    reads of a session keep between them is its [ReadState]. Reads get the filter and
    whether to compress. [ReadIntoFile] drains buffers into the file, given its limit and
    what was written before, and says whether the file is full or writing failed, and
    whether there is more to read; [ReadPackets] reads a first part for a consumer, and
    says whether there is more. [LoadFilter] gives no filter when the configuration is
    invalid. *)
Class DataPlane := {
  Buf : Type;
  FilterConfig : Type;
  Filter : Type;
  ReadState : Type;
  Packet : Type;
  Create : Z -> bool -> option Buf;
  buf_size : Buf -> Z;
  buf_discard : Buf -> bool;
  has_data : Buf -> bool;
  read_only : Buf -> bool;
  set_read_only : Buf -> Buf;
  CloneReadOnly : Buf -> option Buf;
  CopyChunkUntrusted : Buf -> Z -> ClientIdentity -> Z -> Z -> Z -> Z -> bool -> list Z -> option Buf;
  TryPatchChunkContents : Buf -> Z -> Z -> Z -> list (Z * list Z) -> bool -> option Buf;
  LoadFilter : FilterConfig -> option (option Filter);
  ReadState_new : ReadState;
  ReadState_clone : ReadState -> ReadState;
  ReadIntoFile : option Filter -> bool -> Z -> ReadState -> Z -> list Buf -> option (list Buf * ReadState * Z * bool * bool);
  ReadPackets : option Filter -> bool -> ReadState -> list Buf -> option (list Buf * ReadState * list Packet * bool);
  regex_match : string -> string -> bool }.

Section Types.
Context `{DataPlane}.

(** [compression_deflate] stands for a compression type of [DEFLATE] in a build that has
    a compressor. *)
Record TraceConfig := mkConfig {
  buffers : list BufferConfig; data_sources : list DataSource; cfg_producers : list ProducerConfig;
  trigger_config : TriggerConfig; session_semaphores : list SessionSemaphore;
  duration_ms : Z; enable_extra_guardrails : bool; lockdown_mode : LockdownMode; max_tracing_buffer_size_kb : Z;
  cfg_write_into_file : bool; max_file_size_bytes : Z; output_path : string; file_write_period_ms : Z; flush_period_ms : Z; flush_timeout_ms : Z;
  data_source_stop_timeout_ms : Z; clear_period_ms : Z; deferred_start : bool; unique_session_name : string; bugreport_filename : string;
  bugreport_score : Z; compression_deflate : bool; cfg_trace_filter : option FilterConfig }.

Definition set_duration_ms (v : Z) (c : TraceConfig) : TraceConfig :=
  mkConfig (buffers c) (data_sources c) (cfg_producers c) (trigger_config c) (session_semaphores c) v (enable_extra_guardrails c) (lockdown_mode c)
    (max_tracing_buffer_size_kb c) (cfg_write_into_file c) (max_file_size_bytes c) (output_path c) (file_write_period_ms c) (flush_period_ms c)
    (flush_timeout_ms c)
    (data_source_stop_timeout_ms c) (clear_period_ms c) (deferred_start c) (unique_session_name c) (bugreport_filename c) (bugreport_score c)
    (compression_deflate c) (cfg_trace_filter c).

Definition set_data_sources (v : list DataSource) (c : TraceConfig) : TraceConfig :=
  mkConfig (buffers c) v (cfg_producers c) (trigger_config c) (session_semaphores c) (duration_ms c) (enable_extra_guardrails c) (lockdown_mode c)
    (max_tracing_buffer_size_kb c) (cfg_write_into_file c) (max_file_size_bytes c) (output_path c) (file_write_period_ms c) (flush_period_ms c)
    (flush_timeout_ms c)
    (data_source_stop_timeout_ms c) (clear_period_ms c) (deferred_start c) (unique_session_name c) (bugreport_filename c) (bugreport_score c)
    (compression_deflate c) (cfg_trace_filter c).

(** [use_clone_snapshot_if_available] stands for the mode. *)
Definition GetTriggerMode (cfg : TraceConfig) : Z :=
  if use_clone_snapshot_if_available (trigger_config cfg) then CLONE_SNAPSHOT else trigger_mode (trigger_config cfg).

(** ** Producers and their data sources *)

Record DataSourceDescriptor := mkDescriptor {
  d_name : string; d_id : Z; d_will_notify_on_start : bool; d_will_notify_on_stop : bool; d_handles_incremental_state_clear : bool; d_no_flush : bool }.

Record RegisteredDataSource := mkRegistered { rds_producer_id : Z; descriptor : DataSourceDescriptor }.

Inductive DataSourceInstanceState := INST_CONFIGURED | INST_STARTING | INST_STARTED | INST_STOPPING | INST_STOPPED.

#[global] Instance DataSourceInstanceState_eq_dec : EqDecision DataSourceInstanceState.
Proof. solve_decision. Defined.

Record DataSourceInstance := mkInst {
  instance_id : Z;
  ds_cfg : DataSourceConfig;
  data_source_name : string;
  will_notify_on_start : bool;
  will_notify_on_stop : bool;
  handles_incremental_state_clear : bool;
  no_flush : bool;
  inst_state : DataSourceInstanceState }.

Definition set_instance_id (v : Z) (r : DataSourceInstance) : DataSourceInstance := mkInst v (ds_cfg r) (data_source_name r) (will_notify_on_start r)
    (will_notify_on_stop r) (handles_incremental_state_clear r) (no_flush r) (inst_state r).
Definition set_ds_cfg (v : DataSourceConfig) (r : DataSourceInstance) : DataSourceInstance := mkInst (instance_id r) v (data_source_name r)
    (will_notify_on_start r) (will_notify_on_stop r) (handles_incremental_state_clear r) (no_flush r) (inst_state r).
Definition set_data_source_name (v : string) (r : DataSourceInstance) : DataSourceInstance := mkInst (instance_id r) (ds_cfg r) v
    (will_notify_on_start r) (will_notify_on_stop r) (handles_incremental_state_clear r) (no_flush r) (inst_state r).
Definition set_will_notify_on_start (v : bool) (r : DataSourceInstance) : DataSourceInstance := mkInst (instance_id r) (ds_cfg r) (data_source_name r)
    v (will_notify_on_stop r) (handles_incremental_state_clear r) (no_flush r) (inst_state r).
Definition set_will_notify_on_stop (v : bool) (r : DataSourceInstance) : DataSourceInstance := mkInst (instance_id r) (ds_cfg r) (data_source_name r)
    (will_notify_on_start r) v (handles_incremental_state_clear r) (no_flush r) (inst_state r).
Definition set_handles_incremental_state_clear (v : bool) (r : DataSourceInstance) : DataSourceInstance := mkInst (instance_id r) (ds_cfg r)
    (data_source_name r) (will_notify_on_start r) (will_notify_on_stop r) v (no_flush r) (inst_state r).
Definition set_no_flush (v : bool) (r : DataSourceInstance) : DataSourceInstance := mkInst (instance_id r) (ds_cfg r) (data_source_name r)
    (will_notify_on_start r) (will_notify_on_stop r) (handles_incremental_state_clear r) v (inst_state r).
Definition set_inst_state (v : DataSourceInstanceState) (r : DataSourceInstance) : DataSourceInstance := mkInst (instance_id r) (ds_cfg r)
    (data_source_name r) (will_notify_on_start r) (will_notify_on_stop r) (handles_incremental_state_clear r) (no_flush r) v.

(** A chunk of the shared memory buffer of a producer that is in use, as the service
    finds it: whether its state is complete, its header and its payload. *)
Record SmbChunk := mkSmbChunk { sc_complete : bool; sc_writer_id : Z; sc_chunk_id : Z; sc_packet_count : Z; sc_flags : Z; sc_payload : list Z }.

Record Producer := mkProducer {
  p_identity : ClientIdentity;
  p_name : string;
  has_shm : option (Z * Z);
  shmem_size_hint_bytes_ : Z;
  shmem_page_size_hint_bytes_ : Z;
  provided_by_producer : bool;
  p_scraping : bool;
  allowed_target_buffers_ : gset Z;
  writers_ : gmap Z Z;
  smb : list ((Z * Z) * SmbChunk) }.

Definition p_uid (r : Producer) : Z := uid (p_identity r).

Definition set_p_identity (v : ClientIdentity) (r : Producer) : Producer := mkProducer v (p_name r) (has_shm r) (shmem_size_hint_bytes_ r)
    (shmem_page_size_hint_bytes_ r) (provided_by_producer r) (p_scraping r) (allowed_target_buffers_ r) (writers_ r) (smb r).
Definition set_p_name (v : string) (r : Producer) : Producer := mkProducer (p_identity r) v (has_shm r) (shmem_size_hint_bytes_ r)
    (shmem_page_size_hint_bytes_ r) (provided_by_producer r) (p_scraping r) (allowed_target_buffers_ r) (writers_ r) (smb r).
Definition set_has_shm (v : option (Z * Z)) (r : Producer) : Producer := mkProducer (p_identity r) (p_name r) v (shmem_size_hint_bytes_ r)
    (shmem_page_size_hint_bytes_ r) (provided_by_producer r) (p_scraping r) (allowed_target_buffers_ r) (writers_ r) (smb r).
Definition set_shmem_size_hint_bytes_ (v : Z) (r : Producer) : Producer := mkProducer (p_identity r) (p_name r) (has_shm r) v
    (shmem_page_size_hint_bytes_ r) (provided_by_producer r) (p_scraping r) (allowed_target_buffers_ r) (writers_ r) (smb r).
Definition set_shmem_page_size_hint_bytes_ (v : Z) (r : Producer) : Producer := mkProducer (p_identity r) (p_name r) (has_shm r)
    (shmem_size_hint_bytes_ r) v (provided_by_producer r) (p_scraping r) (allowed_target_buffers_ r) (writers_ r) (smb r).
Definition set_provided_by_producer (v : bool) (r : Producer) : Producer := mkProducer (p_identity r) (p_name r) (has_shm r) (shmem_size_hint_bytes_
    r) (shmem_page_size_hint_bytes_ r) v (p_scraping r) (allowed_target_buffers_ r) (writers_ r) (smb r).
Definition set_p_scraping (v : bool) (r : Producer) : Producer := mkProducer (p_identity r) (p_name r) (has_shm r) (shmem_size_hint_bytes_ r)
    (shmem_page_size_hint_bytes_ r) (provided_by_producer r) v (allowed_target_buffers_ r) (writers_ r) (smb r).
Definition set_allowed_target_buffers_ (v : gset Z) (r : Producer) : Producer := mkProducer (p_identity r) (p_name r) (has_shm r)
    (shmem_size_hint_bytes_ r) (shmem_page_size_hint_bytes_ r) (provided_by_producer r) (p_scraping r) v (writers_ r) (smb r).
Definition set_writers_ (v : gmap Z Z) (r : Producer) : Producer := mkProducer (p_identity r) (p_name r) (has_shm r) (shmem_size_hint_bytes_ r)
    (shmem_page_size_hint_bytes_ r) (provided_by_producer r) (p_scraping r) (allowed_target_buffers_ r) v (smb r).
Definition set_smb (v : list ((Z * Z) * SmbChunk)) (r : Producer) : Producer := mkProducer (p_identity r) (p_name r) (has_shm r)
    (shmem_size_hint_bytes_ r) (shmem_page_size_hint_bytes_ r) (provided_by_producer r) (p_scraping r) (allowed_target_buffers_ r) (writers_ r) v.

Record Consumer := mkConsumer {
  c_uid : Z;
  tracing_session_id_ : Z;
  observable_events_mask_ : Z }.

Definition set_c_uid (v : Z) (r : Consumer) : Consumer := mkConsumer v (tracing_session_id_ r) (observable_events_mask_ r).
Definition set_tracing_session_id_ (v : Z) (r : Consumer) : Consumer := mkConsumer (c_uid r) v (observable_events_mask_ r).
Definition set_observable_events_mask_ (v : Z) (r : Consumer) : Consumer := mkConsumer (c_uid r) (tracing_session_id_ r) v.

(** ** Sessions *)

Record TriggerInfo := mkTriggerInfo { ti_boot_time_ns : Z; ti_trigger_name : string; ti_producer_name : string; ti_producer_uid : Z }.

(** What a flush calls when it is done: the function that a consumer passed, the final
    flush of [FlushAndDisableTracing], that of [PeriodicFlushTask], or the one of
    [FlushAndCloneSession] for a clone operation and a group of buffers. *)
Inductive FlushCallback := CbConsumer (consumer : nat) (token : Z) | CbFinal (tsid : Z) | CbPeriodic | CbClone (tsid clone_id : Z) (bufs : list Z).

#[global] Instance FlushCallback_eq_dec : EqDecision FlushCallback.
Proof. solve_decision. Defined.

(** The reason in the flags of a flush. *)
Inductive FlushReason := kFlushUnknown | kPeriodic | kTraceStop | kTraceClone | kExplicit.

Record PendingFlush := mkPendingFlush { pf_producers : gset Z; pf_callback : FlushCallback }.

Record PendingClone := mkPendingClone {
  pending_flush_cnt : Z; pc_buffers : list (option Buf); flush_failed : bool; weak_consumer : nat; skip_trace_filter : bool }.

Record LifecycleEvent := mkLifecycle { le_field_id : Z; le_max_size : Z; le_timestamps : list Z }.

Inductive SessionState := DISABLED | CONFIGURED | STARTED | DISABLING_WAITING_STOP_ACKS | CLONED_READ_ONLY.

#[global] Instance SessionState_eq_dec : EqDecision SessionState.
Proof. solve_decision. Defined.

Record TracingSession := mkSession {
  consumer_maybe_null : option nat;
  consumer_uid : Z;
  received_triggers : list TriggerInfo;
  config : TraceConfig;
  data_source_instances : list (Z * DataSourceInstance);
  pending_flushes : list (Z * PendingFlush);
  pending_clones : gmap Z PendingClone;
  last_pending_clone_id_ : Z;
  buffers_index : list Z;
  should_emit_stats : bool;
  should_emit_sync_marker : bool;
  compress_deflate : bool;
  num_triggers_emitted_into_trace : Z;
  flushes_requested : Z;
  flushes_succeeded : Z;
  flushes_failed : Z;
  final_flush_outcome : option bool;
  did_notify_all_data_source_started : bool;
  lifecycle_events : list LifecycleEvent;
  slow_start_event : option (Z * list (string * string));
  last_flush_events : list (Z * list (string * string));
  state : SessionState;
  detach_key : string;
  write_into_file : bool;
  write_period_ms : Z;
  bytes_written_into_file : Z;
  snapshot_running : bool;
  trace_filter : option Filter;
  read_state : ReadState }.

Definition set_consumer_maybe_null (v : option nat) (r : TracingSession) : TracingSession := mkSession v (consumer_uid r) (received_triggers r)
    (config r) (data_source_instances r) (pending_flushes r) (pending_clones r) (last_pending_clone_id_ r) (buffers_index r) (should_emit_stats r)
    (should_emit_sync_marker r) (compress_deflate r) (num_triggers_emitted_into_trace r) (flushes_requested r) (flushes_succeeded r) (flushes_failed
    r) (final_flush_outcome r) (did_notify_all_data_source_started r) (lifecycle_events r) (slow_start_event r) (last_flush_events r) (state r)
    (detach_key r) (write_into_file r) (write_period_ms r) (bytes_written_into_file r) (snapshot_running r) (trace_filter r) (read_state r).
Definition set_consumer_uid (v : Z) (r : TracingSession) : TracingSession := mkSession (consumer_maybe_null r) v (received_triggers r) (config r)
    (data_source_instances r) (pending_flushes r) (pending_clones r) (last_pending_clone_id_ r) (buffers_index r) (should_emit_stats r)
    (should_emit_sync_marker r) (compress_deflate r) (num_triggers_emitted_into_trace r) (flushes_requested r) (flushes_succeeded r) (flushes_failed
    r) (final_flush_outcome r) (did_notify_all_data_source_started r) (lifecycle_events r) (slow_start_event r) (last_flush_events r) (state r)
    (detach_key r) (write_into_file r) (write_period_ms r) (bytes_written_into_file r) (snapshot_running r) (trace_filter r) (read_state r).
Definition set_received_triggers (v : list TriggerInfo) (r : TracingSession) : TracingSession := mkSession (consumer_maybe_null r) (consumer_uid r) v
    (config r) (data_source_instances r) (pending_flushes r) (pending_clones r) (last_pending_clone_id_ r) (buffers_index r) (should_emit_stats r)
    (should_emit_sync_marker r) (compress_deflate r) (num_triggers_emitted_into_trace r) (flushes_requested r) (flushes_succeeded r) (flushes_failed
    r) (final_flush_outcome r) (did_notify_all_data_source_started r) (lifecycle_events r) (slow_start_event r) (last_flush_events r) (state r)
    (detach_key r) (write_into_file r) (write_period_ms r) (bytes_written_into_file r) (snapshot_running r) (trace_filter r) (read_state r).
Definition set_config (v : TraceConfig) (r : TracingSession) : TracingSession := mkSession (consumer_maybe_null r) (consumer_uid r) (received_triggers
    r) v (data_source_instances r) (pending_flushes r) (pending_clones r) (last_pending_clone_id_ r) (buffers_index r) (should_emit_stats r)
    (should_emit_sync_marker r) (compress_deflate r) (num_triggers_emitted_into_trace r) (flushes_requested r) (flushes_succeeded r) (flushes_failed
    r) (final_flush_outcome r) (did_notify_all_data_source_started r) (lifecycle_events r) (slow_start_event r) (last_flush_events r) (state r)
    (detach_key r) (write_into_file r) (write_period_ms r) (bytes_written_into_file r) (snapshot_running r) (trace_filter r) (read_state r).
Definition set_data_source_instances (v : list (Z * DataSourceInstance)) (r : TracingSession) : TracingSession := mkSession (consumer_maybe_null r)
    (consumer_uid r) (received_triggers r) (config r) v (pending_flushes r) (pending_clones r) (last_pending_clone_id_ r) (buffers_index r)
    (should_emit_stats r) (should_emit_sync_marker r) (compress_deflate r) (num_triggers_emitted_into_trace r) (flushes_requested r)
    (flushes_succeeded r) (flushes_failed r) (final_flush_outcome r) (did_notify_all_data_source_started r) (lifecycle_events r) (slow_start_event r)
    (last_flush_events r) (state r) (detach_key r) (write_into_file r) (write_period_ms r) (bytes_written_into_file r) (snapshot_running r)
    (trace_filter r) (read_state r).
Definition set_pending_flushes (v : list (Z * PendingFlush)) (r : TracingSession) : TracingSession := mkSession (consumer_maybe_null r) (consumer_uid
    r) (received_triggers r) (config r) (data_source_instances r) v (pending_clones r) (last_pending_clone_id_ r) (buffers_index r) (should_emit_stats
    r) (should_emit_sync_marker r) (compress_deflate r) (num_triggers_emitted_into_trace r) (flushes_requested r) (flushes_succeeded r)
    (flushes_failed r) (final_flush_outcome r) (did_notify_all_data_source_started r) (lifecycle_events r) (slow_start_event r) (last_flush_events r)
    (state r) (detach_key r) (write_into_file r) (write_period_ms r) (bytes_written_into_file r) (snapshot_running r) (trace_filter r) (read_state r).
Definition set_pending_clones (v : gmap Z PendingClone) (r : TracingSession) : TracingSession := mkSession (consumer_maybe_null r) (consumer_uid r)
    (received_triggers r) (config r) (data_source_instances r) (pending_flushes r) v (last_pending_clone_id_ r) (buffers_index r) (should_emit_stats
    r) (should_emit_sync_marker r) (compress_deflate r) (num_triggers_emitted_into_trace r) (flushes_requested r) (flushes_succeeded r)
    (flushes_failed r) (final_flush_outcome r) (did_notify_all_data_source_started r) (lifecycle_events r) (slow_start_event r) (last_flush_events r)
    (state r) (detach_key r) (write_into_file r) (write_period_ms r) (bytes_written_into_file r) (snapshot_running r) (trace_filter r) (read_state r).
Definition set_last_pending_clone_id_ (v : Z) (r : TracingSession) : TracingSession := mkSession (consumer_maybe_null r) (consumer_uid r)
    (received_triggers r) (config r) (data_source_instances r) (pending_flushes r) (pending_clones r) v (buffers_index r) (should_emit_stats r)
    (should_emit_sync_marker r) (compress_deflate r) (num_triggers_emitted_into_trace r) (flushes_requested r) (flushes_succeeded r) (flushes_failed
    r) (final_flush_outcome r) (did_notify_all_data_source_started r) (lifecycle_events r) (slow_start_event r) (last_flush_events r) (state r)
    (detach_key r) (write_into_file r) (write_period_ms r) (bytes_written_into_file r) (snapshot_running r) (trace_filter r) (read_state r).
Definition set_buffers_index (v : list Z) (r : TracingSession) : TracingSession := mkSession (consumer_maybe_null r) (consumer_uid r)
    (received_triggers r) (config r) (data_source_instances r) (pending_flushes r) (pending_clones r) (last_pending_clone_id_ r) v (should_emit_stats
    r) (should_emit_sync_marker r) (compress_deflate r) (num_triggers_emitted_into_trace r) (flushes_requested r) (flushes_succeeded r)
    (flushes_failed r) (final_flush_outcome r) (did_notify_all_data_source_started r) (lifecycle_events r) (slow_start_event r) (last_flush_events r)
    (state r) (detach_key r) (write_into_file r) (write_period_ms r) (bytes_written_into_file r) (snapshot_running r) (trace_filter r) (read_state r).
Definition set_should_emit_stats (v : bool) (r : TracingSession) : TracingSession := mkSession (consumer_maybe_null r) (consumer_uid r)
    (received_triggers r) (config r) (data_source_instances r) (pending_flushes r) (pending_clones r) (last_pending_clone_id_ r) (buffers_index r) v
    (should_emit_sync_marker r) (compress_deflate r) (num_triggers_emitted_into_trace r) (flushes_requested r) (flushes_succeeded r) (flushes_failed
    r) (final_flush_outcome r) (did_notify_all_data_source_started r) (lifecycle_events r) (slow_start_event r) (last_flush_events r) (state r)
    (detach_key r) (write_into_file r) (write_period_ms r) (bytes_written_into_file r) (snapshot_running r) (trace_filter r) (read_state r).
Definition set_should_emit_sync_marker (v : bool) (r : TracingSession) : TracingSession := mkSession (consumer_maybe_null r) (consumer_uid r)
    (received_triggers r) (config r) (data_source_instances r) (pending_flushes r) (pending_clones r) (last_pending_clone_id_ r) (buffers_index r)
    (should_emit_stats r) v (compress_deflate r) (num_triggers_emitted_into_trace r) (flushes_requested r) (flushes_succeeded r) (flushes_failed r)
    (final_flush_outcome r) (did_notify_all_data_source_started r) (lifecycle_events r) (slow_start_event r) (last_flush_events r) (state r)
    (detach_key r) (write_into_file r) (write_period_ms r) (bytes_written_into_file r) (snapshot_running r) (trace_filter r) (read_state r).
Definition set_compress_deflate (v : bool) (r : TracingSession) : TracingSession := mkSession (consumer_maybe_null r) (consumer_uid r)
    (received_triggers r) (config r) (data_source_instances r) (pending_flushes r) (pending_clones r) (last_pending_clone_id_ r) (buffers_index r)
    (should_emit_stats r) (should_emit_sync_marker r) v (num_triggers_emitted_into_trace r) (flushes_requested r) (flushes_succeeded r)
    (flushes_failed r) (final_flush_outcome r) (did_notify_all_data_source_started r) (lifecycle_events r) (slow_start_event r) (last_flush_events r)
    (state r) (detach_key r) (write_into_file r) (write_period_ms r) (bytes_written_into_file r) (snapshot_running r) (trace_filter r) (read_state r).
Definition set_num_triggers_emitted_into_trace (v : Z) (r : TracingSession) : TracingSession := mkSession (consumer_maybe_null r) (consumer_uid r)
    (received_triggers r) (config r) (data_source_instances r) (pending_flushes r) (pending_clones r) (last_pending_clone_id_ r) (buffers_index r)
    (should_emit_stats r) (should_emit_sync_marker r) (compress_deflate r) v (flushes_requested r) (flushes_succeeded r) (flushes_failed r)
    (final_flush_outcome r) (did_notify_all_data_source_started r) (lifecycle_events r) (slow_start_event r) (last_flush_events r) (state r)
    (detach_key r) (write_into_file r) (write_period_ms r) (bytes_written_into_file r) (snapshot_running r) (trace_filter r) (read_state r).
Definition set_flushes_requested (v : Z) (r : TracingSession) : TracingSession := mkSession (consumer_maybe_null r) (consumer_uid r)
    (received_triggers r) (config r) (data_source_instances r) (pending_flushes r) (pending_clones r) (last_pending_clone_id_ r) (buffers_index r)
    (should_emit_stats r) (should_emit_sync_marker r) (compress_deflate r) (num_triggers_emitted_into_trace r) v (flushes_succeeded r) (flushes_failed
    r) (final_flush_outcome r) (did_notify_all_data_source_started r) (lifecycle_events r) (slow_start_event r) (last_flush_events r) (state r)
    (detach_key r) (write_into_file r) (write_period_ms r) (bytes_written_into_file r) (snapshot_running r) (trace_filter r) (read_state r).
Definition set_flushes_succeeded (v : Z) (r : TracingSession) : TracingSession := mkSession (consumer_maybe_null r) (consumer_uid r)
    (received_triggers r) (config r) (data_source_instances r) (pending_flushes r) (pending_clones r) (last_pending_clone_id_ r) (buffers_index r)
    (should_emit_stats r) (should_emit_sync_marker r) (compress_deflate r) (num_triggers_emitted_into_trace r) (flushes_requested r) v (flushes_failed
    r) (final_flush_outcome r) (did_notify_all_data_source_started r) (lifecycle_events r) (slow_start_event r) (last_flush_events r) (state r)
    (detach_key r) (write_into_file r) (write_period_ms r) (bytes_written_into_file r) (snapshot_running r) (trace_filter r) (read_state r).
Definition set_flushes_failed (v : Z) (r : TracingSession) : TracingSession := mkSession (consumer_maybe_null r) (consumer_uid r) (received_triggers
    r) (config r) (data_source_instances r) (pending_flushes r) (pending_clones r) (last_pending_clone_id_ r) (buffers_index r) (should_emit_stats r)
    (should_emit_sync_marker r) (compress_deflate r) (num_triggers_emitted_into_trace r) (flushes_requested r) (flushes_succeeded r) v
    (final_flush_outcome r) (did_notify_all_data_source_started r) (lifecycle_events r) (slow_start_event r) (last_flush_events r) (state r)
    (detach_key r) (write_into_file r) (write_period_ms r) (bytes_written_into_file r) (snapshot_running r) (trace_filter r) (read_state r).
Definition set_final_flush_outcome (v : option bool) (r : TracingSession) : TracingSession := mkSession (consumer_maybe_null r) (consumer_uid r)
    (received_triggers r) (config r) (data_source_instances r) (pending_flushes r) (pending_clones r) (last_pending_clone_id_ r) (buffers_index r)
    (should_emit_stats r) (should_emit_sync_marker r) (compress_deflate r) (num_triggers_emitted_into_trace r) (flushes_requested r)
    (flushes_succeeded r) (flushes_failed r) v (did_notify_all_data_source_started r) (lifecycle_events r) (slow_start_event r) (last_flush_events r)
    (state r) (detach_key r) (write_into_file r) (write_period_ms r) (bytes_written_into_file r) (snapshot_running r) (trace_filter r) (read_state r).
Definition set_did_notify_all_data_source_started (v : bool) (r : TracingSession) : TracingSession := mkSession (consumer_maybe_null r) (consumer_uid
    r) (received_triggers r) (config r) (data_source_instances r) (pending_flushes r) (pending_clones r) (last_pending_clone_id_ r) (buffers_index r)
    (should_emit_stats r) (should_emit_sync_marker r) (compress_deflate r) (num_triggers_emitted_into_trace r) (flushes_requested r)
    (flushes_succeeded r) (flushes_failed r) (final_flush_outcome r) v (lifecycle_events r) (slow_start_event r) (last_flush_events r) (state r)
    (detach_key r) (write_into_file r) (write_period_ms r) (bytes_written_into_file r) (snapshot_running r) (trace_filter r) (read_state r).
Definition set_lifecycle_events (v : list LifecycleEvent) (r : TracingSession) : TracingSession := mkSession (consumer_maybe_null r) (consumer_uid r)
    (received_triggers r) (config r) (data_source_instances r) (pending_flushes r) (pending_clones r) (last_pending_clone_id_ r) (buffers_index r)
    (should_emit_stats r) (should_emit_sync_marker r) (compress_deflate r) (num_triggers_emitted_into_trace r) (flushes_requested r)
    (flushes_succeeded r) (flushes_failed r) (final_flush_outcome r) (did_notify_all_data_source_started r) v (slow_start_event r) (last_flush_events
    r) (state r) (detach_key r) (write_into_file r) (write_period_ms r) (bytes_written_into_file r) (snapshot_running r) (trace_filter r) (read_state
    r).
Definition set_slow_start_event (v : option (Z * list (string * string))) (r : TracingSession) : TracingSession := mkSession (consumer_maybe_null r)
    (consumer_uid r) (received_triggers r) (config r) (data_source_instances r) (pending_flushes r) (pending_clones r) (last_pending_clone_id_ r)
    (buffers_index r) (should_emit_stats r) (should_emit_sync_marker r) (compress_deflate r) (num_triggers_emitted_into_trace r) (flushes_requested r)
    (flushes_succeeded r) (flushes_failed r) (final_flush_outcome r) (did_notify_all_data_source_started r) (lifecycle_events r) v (last_flush_events
    r) (state r) (detach_key r) (write_into_file r) (write_period_ms r) (bytes_written_into_file r) (snapshot_running r) (trace_filter r) (read_state
    r).
Definition set_last_flush_events (v : list (Z * list (string * string))) (r : TracingSession) : TracingSession := mkSession (consumer_maybe_null r)
    (consumer_uid r) (received_triggers r) (config r) (data_source_instances r) (pending_flushes r) (pending_clones r) (last_pending_clone_id_ r)
    (buffers_index r) (should_emit_stats r) (should_emit_sync_marker r) (compress_deflate r) (num_triggers_emitted_into_trace r) (flushes_requested r)
    (flushes_succeeded r) (flushes_failed r) (final_flush_outcome r) (did_notify_all_data_source_started r) (lifecycle_events r) (slow_start_event r)
    v (state r) (detach_key r) (write_into_file r) (write_period_ms r) (bytes_written_into_file r) (snapshot_running r) (trace_filter r) (read_state
    r).
Definition set_state (v : SessionState) (r : TracingSession) : TracingSession := mkSession (consumer_maybe_null r) (consumer_uid r) (received_triggers
    r) (config r) (data_source_instances r) (pending_flushes r) (pending_clones r) (last_pending_clone_id_ r) (buffers_index r) (should_emit_stats r)
    (should_emit_sync_marker r) (compress_deflate r) (num_triggers_emitted_into_trace r) (flushes_requested r) (flushes_succeeded r) (flushes_failed
    r) (final_flush_outcome r) (did_notify_all_data_source_started r) (lifecycle_events r) (slow_start_event r) (last_flush_events r) v (detach_key r)
    (write_into_file r) (write_period_ms r) (bytes_written_into_file r) (snapshot_running r) (trace_filter r) (read_state r).
Definition set_detach_key (v : string) (r : TracingSession) : TracingSession := mkSession (consumer_maybe_null r) (consumer_uid r) (received_triggers
    r) (config r) (data_source_instances r) (pending_flushes r) (pending_clones r) (last_pending_clone_id_ r) (buffers_index r) (should_emit_stats r)
    (should_emit_sync_marker r) (compress_deflate r) (num_triggers_emitted_into_trace r) (flushes_requested r) (flushes_succeeded r) (flushes_failed
    r) (final_flush_outcome r) (did_notify_all_data_source_started r) (lifecycle_events r) (slow_start_event r) (last_flush_events r) (state r) v
    (write_into_file r) (write_period_ms r) (bytes_written_into_file r) (snapshot_running r) (trace_filter r) (read_state r).
Definition set_write_into_file (v : bool) (r : TracingSession) : TracingSession := mkSession (consumer_maybe_null r) (consumer_uid r)
    (received_triggers r) (config r) (data_source_instances r) (pending_flushes r) (pending_clones r) (last_pending_clone_id_ r) (buffers_index r)
    (should_emit_stats r) (should_emit_sync_marker r) (compress_deflate r) (num_triggers_emitted_into_trace r) (flushes_requested r)
    (flushes_succeeded r) (flushes_failed r) (final_flush_outcome r) (did_notify_all_data_source_started r) (lifecycle_events r) (slow_start_event r)
    (last_flush_events r) (state r) (detach_key r) v (write_period_ms r) (bytes_written_into_file r) (snapshot_running r) (trace_filter r) (read_state
    r).
Definition set_write_period_ms (v : Z) (r : TracingSession) : TracingSession := mkSession (consumer_maybe_null r) (consumer_uid r) (received_triggers
    r) (config r) (data_source_instances r) (pending_flushes r) (pending_clones r) (last_pending_clone_id_ r) (buffers_index r) (should_emit_stats r)
    (should_emit_sync_marker r) (compress_deflate r) (num_triggers_emitted_into_trace r) (flushes_requested r) (flushes_succeeded r) (flushes_failed
    r) (final_flush_outcome r) (did_notify_all_data_source_started r) (lifecycle_events r) (slow_start_event r) (last_flush_events r) (state r)
    (detach_key r) (write_into_file r) v (bytes_written_into_file r) (snapshot_running r) (trace_filter r) (read_state r).
Definition set_bytes_written_into_file (v : Z) (r : TracingSession) : TracingSession := mkSession (consumer_maybe_null r) (consumer_uid r)
    (received_triggers r) (config r) (data_source_instances r) (pending_flushes r) (pending_clones r) (last_pending_clone_id_ r) (buffers_index r)
    (should_emit_stats r) (should_emit_sync_marker r) (compress_deflate r) (num_triggers_emitted_into_trace r) (flushes_requested r)
    (flushes_succeeded r) (flushes_failed r) (final_flush_outcome r) (did_notify_all_data_source_started r) (lifecycle_events r) (slow_start_event r)
    (last_flush_events r) (state r) (detach_key r) (write_into_file r) (write_period_ms r) v (snapshot_running r) (trace_filter r) (read_state r).
Definition set_snapshot_running (v : bool) (r : TracingSession) : TracingSession := mkSession (consumer_maybe_null r) (consumer_uid r)
    (received_triggers r) (config r) (data_source_instances r) (pending_flushes r) (pending_clones r) (last_pending_clone_id_ r) (buffers_index r)
    (should_emit_stats r) (should_emit_sync_marker r) (compress_deflate r) (num_triggers_emitted_into_trace r) (flushes_requested r)
    (flushes_succeeded r) (flushes_failed r) (final_flush_outcome r) (did_notify_all_data_source_started r) (lifecycle_events r) (slow_start_event r)
    (last_flush_events r) (state r) (detach_key r) (write_into_file r) (write_period_ms r) (bytes_written_into_file r) v (trace_filter r) (read_state
    r).
Definition set_trace_filter (v : option Filter) (r : TracingSession) : TracingSession := mkSession (consumer_maybe_null r) (consumer_uid r)
    (received_triggers r) (config r) (data_source_instances r) (pending_flushes r) (pending_clones r) (last_pending_clone_id_ r) (buffers_index r)
    (should_emit_stats r) (should_emit_sync_marker r) (compress_deflate r) (num_triggers_emitted_into_trace r) (flushes_requested r)
    (flushes_succeeded r) (flushes_failed r) (final_flush_outcome r) (did_notify_all_data_source_started r) (lifecycle_events r) (slow_start_event r)
    (last_flush_events r) (state r) (detach_key r) (write_into_file r) (write_period_ms r) (bytes_written_into_file r) (snapshot_running r) v
    (read_state r).
Definition set_read_state (v : ReadState) (r : TracingSession) : TracingSession := mkSession (consumer_maybe_null r) (consumer_uid r)
    (received_triggers r) (config r) (data_source_instances r) (pending_flushes r) (pending_clones r) (last_pending_clone_id_ r) (buffers_index r)
    (should_emit_stats r) (should_emit_sync_marker r) (compress_deflate r) (num_triggers_emitted_into_trace r) (flushes_requested r)
    (flushes_succeeded r) (flushes_failed r) (final_flush_outcome r) (did_notify_all_data_source_started r) (lifecycle_events r) (slow_start_event r)
    (last_flush_events r) (state r) (detach_key r) (write_into_file r) (write_period_ms r) (bytes_written_into_file r) (snapshot_running r)
    (trace_filter r) v.

(** ** The service *)

Inductive Task :=
  | TStartTriggersTimeout (tsid : Z)
  | TStopOnDurationMsExpiry (tsid : Z)
  | TStopTrigger (tsid : Z)
  | TCloneTrigger (tsid : Z) (trigger_name : string)
  | TReadBuffersIntoFile (tsid : Z)
  | TPeriodicFlush (tsid : Z)
  | TPeriodicClearIncrementalState (tsid : Z)
  | TAllDataSourceStartedTimeout (tsid : Z)
  | TDisableTracingTimeout (tsid : Z)
  | TFlushTimeout (tsid flush_request_id : Z) (reason : FlushReason)
  | TCompleteFlush (tsid : Z) (callback : FlushCallback) (success : bool)
  | TReadBuffersIntoConsumer (tsid : Z) (consumer : nat)
  | TOnAttach (consumer : nat) (success : bool)
  | TOnSessionCloned (consumer : nat).

(** Errors of [EnableTracing] and of cloning. *)
Inductive TracingError :=
  | SessionAlreadyActive | TooLong | BadTriggerTimeout | InvalidTriggerMode | CloneSnapshotNeedsStop | DurationWithTriggers | InvalidFilename
  | TriggersWithFile | DuplicateTrigger | DeferredStartGuardrail | BufferNotPage | BufferTooLarge | TooManyBuffers | TargetBufferOutOfBounds
  | NameNotUnique | SemaphoreExceeded | TraceTooRecent | TooManySessionsForUid | TooManySessions | InvalidFilter | FileOrPath | CannotCreateFile
  | InvalidBufferSize | BufferAllocationFailed | SessionNotFound | NoBugreportSession | CloneNotAllowed | AlreadyAttached | BufferIdsExhausted
  | OriginalSessionEnded.

Inductive Message :=
  | ProducerOnConnect (p : Z)
  | ProducerOnTracingSetup (p : Z)
  | ProducerSetupDataSource (p inst_id : Z) (cfg : DataSourceConfig)
  | ProducerStartDataSource (p inst_id : Z) (cfg : DataSourceConfig)
  | ProducerStopDataSource (p inst_id : Z)
  | ProducerFlush (p flush_request_id : Z) (inst_ids : list Z) (reason : FlushReason)
  | ProducerClearIncrementalState (p : Z) (inst_ids : list Z)
  | ConsumerOnConnect (c : nat)
  | ConsumerOnTracingDisabled (c : nat) (tsid : Z) (error : option TracingError)
  | ConsumerInstanceStateChange (c : nat) (producer_name ds_name : string) (started : bool)
  | ConsumerAllDataSourcesStarted (c : nat)
  | ConsumerCloneTriggerHit (c : nat) (tsid : Z) (trigger_name : string)
  | ConsumerFlushDone (c : nat) (token : Z) (success : bool)
  | ConsumerOnSessionCloned (c : nat) (error : option TracingError)
  | ConsumerOnDetach (c : nat) (success : bool)
  | ConsumerOnAttach (c : nat) (success : bool)
  | ConsumerOnTraceData (c : nat) (packets : list Packet) (has_more : bool).

Record TracingServiceImpl := mkService {
  lockdown_mode_ : bool;
  smb_scraping_enabled_ : bool;
  uid_ : Z;
  last_producer_id_ : Z;
  last_data_source_instance_id_ : Z;
  last_tracing_session_id_ : Z;
  last_flush_request_id_ : Z;
  buffer_ids_ : IdAllocator;
  data_sources_ : list (string * RegisteredDataSource);
  producers_ : gmap Z Producer;
  consumers_ : gmap nat Consumer;
  next_consumer : nat;
  tracing_sessions_ : gmap Z TracingSession;
  buffers_ : gmap Z Buf;
  session_to_last_trace_s_ : gmap string Z;
  trigger_history_ : list (Z * Z);
  chunks_discarded_ : Z;
  patches_discarded_ : Z;
  boot_time_ns : Z;
  memory_left : Z;
  tasks : list Task;
  sent : list Message }.

Definition set_lockdown_mode_ (v : bool) (r : TracingServiceImpl) : TracingServiceImpl := mkService v (smb_scraping_enabled_ r) (uid_ r)
    (last_producer_id_ r) (last_data_source_instance_id_ r) (last_tracing_session_id_ r) (last_flush_request_id_ r) (buffer_ids_ r) (data_sources_ r)
    (producers_ r) (consumers_ r) (next_consumer r) (tracing_sessions_ r) (buffers_ r) (session_to_last_trace_s_ r) (trigger_history_ r)
    (chunks_discarded_ r) (patches_discarded_ r) (boot_time_ns r) (memory_left r) (tasks r) (sent r).
Definition set_smb_scraping_enabled_ (v : bool) (r : TracingServiceImpl) : TracingServiceImpl := mkService (lockdown_mode_ r) v (uid_ r)
    (last_producer_id_ r) (last_data_source_instance_id_ r) (last_tracing_session_id_ r) (last_flush_request_id_ r) (buffer_ids_ r) (data_sources_ r)
    (producers_ r) (consumers_ r) (next_consumer r) (tracing_sessions_ r) (buffers_ r) (session_to_last_trace_s_ r) (trigger_history_ r)
    (chunks_discarded_ r) (patches_discarded_ r) (boot_time_ns r) (memory_left r) (tasks r) (sent r).
Definition set_uid_ (v : Z) (r : TracingServiceImpl) : TracingServiceImpl := mkService (lockdown_mode_ r) (smb_scraping_enabled_ r) v
    (last_producer_id_ r) (last_data_source_instance_id_ r) (last_tracing_session_id_ r) (last_flush_request_id_ r) (buffer_ids_ r) (data_sources_ r)
    (producers_ r) (consumers_ r) (next_consumer r) (tracing_sessions_ r) (buffers_ r) (session_to_last_trace_s_ r) (trigger_history_ r)
    (chunks_discarded_ r) (patches_discarded_ r) (boot_time_ns r) (memory_left r) (tasks r) (sent r).
Definition set_last_producer_id_ (v : Z) (r : TracingServiceImpl) : TracingServiceImpl := mkService (lockdown_mode_ r) (smb_scraping_enabled_ r) (uid_
    r) v (last_data_source_instance_id_ r) (last_tracing_session_id_ r) (last_flush_request_id_ r) (buffer_ids_ r) (data_sources_ r) (producers_ r)
    (consumers_ r) (next_consumer r) (tracing_sessions_ r) (buffers_ r) (session_to_last_trace_s_ r) (trigger_history_ r) (chunks_discarded_ r)
    (patches_discarded_ r) (boot_time_ns r) (memory_left r) (tasks r) (sent r).
Definition set_last_data_source_instance_id_ (v : Z) (r : TracingServiceImpl) : TracingServiceImpl := mkService (lockdown_mode_ r)
    (smb_scraping_enabled_ r) (uid_ r) (last_producer_id_ r) v (last_tracing_session_id_ r) (last_flush_request_id_ r) (buffer_ids_ r) (data_sources_
    r) (producers_ r) (consumers_ r) (next_consumer r) (tracing_sessions_ r) (buffers_ r) (session_to_last_trace_s_ r) (trigger_history_ r)
    (chunks_discarded_ r) (patches_discarded_ r) (boot_time_ns r) (memory_left r) (tasks r) (sent r).
Definition set_last_tracing_session_id_ (v : Z) (r : TracingServiceImpl) : TracingServiceImpl := mkService (lockdown_mode_ r) (smb_scraping_enabled_
    r) (uid_ r) (last_producer_id_ r) (last_data_source_instance_id_ r) v (last_flush_request_id_ r) (buffer_ids_ r) (data_sources_ r) (producers_ r)
    (consumers_ r) (next_consumer r) (tracing_sessions_ r) (buffers_ r) (session_to_last_trace_s_ r) (trigger_history_ r) (chunks_discarded_ r)
    (patches_discarded_ r) (boot_time_ns r) (memory_left r) (tasks r) (sent r).
Definition set_last_flush_request_id_ (v : Z) (r : TracingServiceImpl) : TracingServiceImpl := mkService (lockdown_mode_ r) (smb_scraping_enabled_ r)
    (uid_ r) (last_producer_id_ r) (last_data_source_instance_id_ r) (last_tracing_session_id_ r) v (buffer_ids_ r) (data_sources_ r) (producers_ r)
    (consumers_ r) (next_consumer r) (tracing_sessions_ r) (buffers_ r) (session_to_last_trace_s_ r) (trigger_history_ r) (chunks_discarded_ r)
    (patches_discarded_ r) (boot_time_ns r) (memory_left r) (tasks r) (sent r).
Definition set_buffer_ids_ (v : IdAllocator) (r : TracingServiceImpl) : TracingServiceImpl := mkService (lockdown_mode_ r) (smb_scraping_enabled_ r)
    (uid_ r) (last_producer_id_ r) (last_data_source_instance_id_ r) (last_tracing_session_id_ r) (last_flush_request_id_ r) v (data_sources_ r)
    (producers_ r) (consumers_ r) (next_consumer r) (tracing_sessions_ r) (buffers_ r) (session_to_last_trace_s_ r) (trigger_history_ r)
    (chunks_discarded_ r) (patches_discarded_ r) (boot_time_ns r) (memory_left r) (tasks r) (sent r).
Definition set_data_sources_ (v : list (string * RegisteredDataSource)) (r : TracingServiceImpl) : TracingServiceImpl := mkService (lockdown_mode_ r)
    (smb_scraping_enabled_ r) (uid_ r) (last_producer_id_ r) (last_data_source_instance_id_ r) (last_tracing_session_id_ r) (last_flush_request_id_ r)
    (buffer_ids_ r) v (producers_ r) (consumers_ r) (next_consumer r) (tracing_sessions_ r) (buffers_ r) (session_to_last_trace_s_ r)
    (trigger_history_ r) (chunks_discarded_ r) (patches_discarded_ r) (boot_time_ns r) (memory_left r) (tasks r) (sent r).
Definition set_producers_ (v : gmap Z Producer) (r : TracingServiceImpl) : TracingServiceImpl := mkService (lockdown_mode_ r) (smb_scraping_enabled_
    r) (uid_ r) (last_producer_id_ r) (last_data_source_instance_id_ r) (last_tracing_session_id_ r) (last_flush_request_id_ r) (buffer_ids_ r)
    (data_sources_ r) v (consumers_ r) (next_consumer r) (tracing_sessions_ r) (buffers_ r) (session_to_last_trace_s_ r) (trigger_history_ r)
    (chunks_discarded_ r) (patches_discarded_ r) (boot_time_ns r) (memory_left r) (tasks r) (sent r).
Definition set_consumers_ (v : gmap nat Consumer) (r : TracingServiceImpl) : TracingServiceImpl := mkService (lockdown_mode_ r) (smb_scraping_enabled_
    r) (uid_ r) (last_producer_id_ r) (last_data_source_instance_id_ r) (last_tracing_session_id_ r) (last_flush_request_id_ r) (buffer_ids_ r)
    (data_sources_ r) (producers_ r) v (next_consumer r) (tracing_sessions_ r) (buffers_ r) (session_to_last_trace_s_ r) (trigger_history_ r)
    (chunks_discarded_ r) (patches_discarded_ r) (boot_time_ns r) (memory_left r) (tasks r) (sent r).
Definition set_next_consumer (v : nat) (r : TracingServiceImpl) : TracingServiceImpl := mkService (lockdown_mode_ r) (smb_scraping_enabled_ r) (uid_
    r) (last_producer_id_ r) (last_data_source_instance_id_ r) (last_tracing_session_id_ r) (last_flush_request_id_ r) (buffer_ids_ r) (data_sources_
    r) (producers_ r) (consumers_ r) v (tracing_sessions_ r) (buffers_ r) (session_to_last_trace_s_ r) (trigger_history_ r) (chunks_discarded_ r)
    (patches_discarded_ r) (boot_time_ns r) (memory_left r) (tasks r) (sent r).
Definition set_tracing_sessions_ (v : gmap Z TracingSession) (r : TracingServiceImpl) : TracingServiceImpl := mkService (lockdown_mode_ r)
    (smb_scraping_enabled_ r) (uid_ r) (last_producer_id_ r) (last_data_source_instance_id_ r) (last_tracing_session_id_ r) (last_flush_request_id_ r)
    (buffer_ids_ r) (data_sources_ r) (producers_ r) (consumers_ r) (next_consumer r) v (buffers_ r) (session_to_last_trace_s_ r) (trigger_history_ r)
    (chunks_discarded_ r) (patches_discarded_ r) (boot_time_ns r) (memory_left r) (tasks r) (sent r).
Definition set_buffers_ (v : gmap Z Buf) (r : TracingServiceImpl) : TracingServiceImpl := mkService (lockdown_mode_ r) (smb_scraping_enabled_ r) (uid_
    r) (last_producer_id_ r) (last_data_source_instance_id_ r) (last_tracing_session_id_ r) (last_flush_request_id_ r) (buffer_ids_ r) (data_sources_
    r) (producers_ r) (consumers_ r) (next_consumer r) (tracing_sessions_ r) v (session_to_last_trace_s_ r) (trigger_history_ r) (chunks_discarded_ r)
    (patches_discarded_ r) (boot_time_ns r) (memory_left r) (tasks r) (sent r).
Definition set_session_to_last_trace_s_ (v : gmap string Z) (r : TracingServiceImpl) : TracingServiceImpl := mkService (lockdown_mode_ r)
    (smb_scraping_enabled_ r) (uid_ r) (last_producer_id_ r) (last_data_source_instance_id_ r) (last_tracing_session_id_ r) (last_flush_request_id_ r)
    (buffer_ids_ r) (data_sources_ r) (producers_ r) (consumers_ r) (next_consumer r) (tracing_sessions_ r) (buffers_ r) v (trigger_history_ r)
    (chunks_discarded_ r) (patches_discarded_ r) (boot_time_ns r) (memory_left r) (tasks r) (sent r).
Definition set_trigger_history_ (v : list (Z * Z)) (r : TracingServiceImpl) : TracingServiceImpl := mkService (lockdown_mode_ r)
    (smb_scraping_enabled_ r) (uid_ r) (last_producer_id_ r) (last_data_source_instance_id_ r) (last_tracing_session_id_ r) (last_flush_request_id_ r)
    (buffer_ids_ r) (data_sources_ r) (producers_ r) (consumers_ r) (next_consumer r) (tracing_sessions_ r) (buffers_ r) (session_to_last_trace_s_ r)
    v (chunks_discarded_ r) (patches_discarded_ r) (boot_time_ns r) (memory_left r) (tasks r) (sent r).
Definition set_chunks_discarded_ (v : Z) (r : TracingServiceImpl) : TracingServiceImpl := mkService (lockdown_mode_ r) (smb_scraping_enabled_ r) (uid_
    r) (last_producer_id_ r) (last_data_source_instance_id_ r) (last_tracing_session_id_ r) (last_flush_request_id_ r) (buffer_ids_ r) (data_sources_
    r) (producers_ r) (consumers_ r) (next_consumer r) (tracing_sessions_ r) (buffers_ r) (session_to_last_trace_s_ r) (trigger_history_ r) v
    (patches_discarded_ r) (boot_time_ns r) (memory_left r) (tasks r) (sent r).
Definition set_patches_discarded_ (v : Z) (r : TracingServiceImpl) : TracingServiceImpl := mkService (lockdown_mode_ r) (smb_scraping_enabled_ r)
    (uid_ r) (last_producer_id_ r) (last_data_source_instance_id_ r) (last_tracing_session_id_ r) (last_flush_request_id_ r) (buffer_ids_ r)
    (data_sources_ r) (producers_ r) (consumers_ r) (next_consumer r) (tracing_sessions_ r) (buffers_ r) (session_to_last_trace_s_ r)
    (trigger_history_ r) (chunks_discarded_ r) v (boot_time_ns r) (memory_left r) (tasks r) (sent r).
Definition set_boot_time_ns (v : Z) (r : TracingServiceImpl) : TracingServiceImpl := mkService (lockdown_mode_ r) (smb_scraping_enabled_ r) (uid_ r)
    (last_producer_id_ r) (last_data_source_instance_id_ r) (last_tracing_session_id_ r) (last_flush_request_id_ r) (buffer_ids_ r) (data_sources_ r)
    (producers_ r) (consumers_ r) (next_consumer r) (tracing_sessions_ r) (buffers_ r) (session_to_last_trace_s_ r) (trigger_history_ r)
    (chunks_discarded_ r) (patches_discarded_ r) v (memory_left r) (tasks r) (sent r).
Definition set_memory_left (v : Z) (r : TracingServiceImpl) : TracingServiceImpl := mkService (lockdown_mode_ r) (smb_scraping_enabled_ r) (uid_ r)
    (last_producer_id_ r) (last_data_source_instance_id_ r) (last_tracing_session_id_ r) (last_flush_request_id_ r) (buffer_ids_ r) (data_sources_ r)
    (producers_ r) (consumers_ r) (next_consumer r) (tracing_sessions_ r) (buffers_ r) (session_to_last_trace_s_ r) (trigger_history_ r)
    (chunks_discarded_ r) (patches_discarded_ r) (boot_time_ns r) v (tasks r) (sent r).
Definition set_tasks (v : list Task) (r : TracingServiceImpl) : TracingServiceImpl := mkService (lockdown_mode_ r) (smb_scraping_enabled_ r) (uid_ r)
    (last_producer_id_ r) (last_data_source_instance_id_ r) (last_tracing_session_id_ r) (last_flush_request_id_ r) (buffer_ids_ r) (data_sources_ r)
    (producers_ r) (consumers_ r) (next_consumer r) (tracing_sessions_ r) (buffers_ r) (session_to_last_trace_s_ r) (trigger_history_ r)
    (chunks_discarded_ r) (patches_discarded_ r) (boot_time_ns r) (memory_left r) v (sent r).
Definition set_sent (v : list Message) (r : TracingServiceImpl) : TracingServiceImpl := mkService (lockdown_mode_ r) (smb_scraping_enabled_ r) (uid_
    r) (last_producer_id_ r) (last_data_source_instance_id_ r) (last_tracing_session_id_ r) (last_flush_request_id_ r) (buffer_ids_ r) (data_sources_
    r) (producers_ r) (consumers_ r) (next_consumer r) (tracing_sessions_ r) (buffers_ r) (session_to_last_trace_s_ r) (trigger_history_ r)
    (chunks_discarded_ r) (patches_discarded_ r) (boot_time_ns r) (memory_left r) (tasks r) v.
End Types.
