(* ===== verification/TracingService.v ===== *)
(** * The tracing service: sessions, data sources and flushes

    Models the control plane of [src/tracing/service/tracing_service_impl.cc]: consumers
    configure, start, flush, stop, detach and clone sessions; producers register data
    sources, acknowledge starts, stops and flushes, and commit chunks; tasks that the
    service posted to itself run at any later time.

    [None] is a failed [CHECK] or [DCHECK] or a null or dangling pointer. [DFATAL]s, which
    only log in release builds, are not failures. Calls to clients do not re-enter the
    service. Clock snapshots and identifiers for people (UUIDs) are not modelled. *)

From stdpp Require Import sorting.
From S2P Require Import Prelude FilterBytecode IdAllocator TracingServiceTypes.

Definition kMaxBuffersPerConsumer : Z := 128.
Definition kDefaultWriteIntoFilePeriodMs : Z := 5000.
Definition kMinWriteIntoFilePeriodMs : Z := 100.
Definition kMaxConcurrentTracingSessions : Z := 15.
Definition kMaxConcurrentTracingSessionsPerUid : Z := 5.
Definition kMaxConcurrentTracingSessionsForStatsdUid : Z := 10.
Definition kMinSecondsBetweenTracesGuardrail : Z := 5 * 60.
Definition kMillisPerHour : Z := 3600000.
Definition kMaxTracingDurationMillis : Z := 7 * 24 * kMillisPerHour.
Definition kGuardrailsMaxTracingBufferSizeKb : Z := 128 * 1024.
Definition kGuardrailsMaxTracingDurationMillis : Z := 24 * kMillisPerHour.
Definition kMaxLifecycleEventsListedDataSources : nat := 32.
Definition kDataSourceStopTimeoutMs : Z := 5000.
Definition kMaxShmSize : Z := 32 * 1024 * 1024.
Definition kDefaultShmPageSize : Z := 4096.
Definition kDefaultShmSize : Z := 256 * 1024.
Definition kMaxProducerID : Z := 2 ^ 16 - 1.
Definition kMaxWriterID : Z := 2 ^ 10 - 1.
Definition kOneDayInNs : Z := 24 * 60 * 60 * 1000 * 1000 * 1000.
Definition kBugreportSessionId : Z := 2 ^ 64 - 1.

(** Fields of [TracingServiceEvent], and types of [ObservableEvents]. *)
Definition kAllDataSourcesStartedFieldNumber : Z := 1.
Definition kTracingStartedFieldNumber : Z := 2.
Definition kAllDataSourcesFlushedFieldNumber : Z := 3.
Definition kReadTracingBuffersCompletedFieldNumber : Z := 4.
Definition kTracingDisabledFieldNumber : Z := 5.
Definition kFlushStartedFieldNumber : Z := 9.
Definition TYPE_DATA_SOURCES_INSTANCES : Z := 1.
Definition TYPE_ALL_DATA_SOURCES_STARTED : Z := 2.
Definition TYPE_CLONE_TRIGGER_HIT : Z := 4.

(** The sizes of a shared memory buffer and of its pages. *)
Definition EnsureValidShmSizes (shm_size page_size : Z) : Z * Z :=
  let kMaxPageSize := 32 * 1024 in
  let kMinPageSize := 4 * 1024 in
  let page_size := if page_size =? 0 then kDefaultShmPageSize else page_size in
  let shm_size := if shm_size =? 0 then kDefaultShmSize else shm_size in
  let page_size := Z.min page_size kMaxPageSize in
  let shm_size := Z.min shm_size kMaxShmSize in
  let num_pages := page_size / kMinPageSize in
  let page_size_is_valid := (kMinPageSize <=? page_size) && (page_size mod kMinPageSize =? 0) && ((num_pages .& u64 (num_pages - 1)) =? 0) in
  if negb page_size_is_valid || (shm_size <? page_size) || negb (shm_size mod page_size =? 0) then (kDefaultShmSize, kDefaultShmPageSize)
  else (shm_size, page_size).

(** Insertion into a [std::multimap]: after the entries with the same key. *)
Fixpoint multimap_emplace {K V} (ltb : K -> K -> bool) (k : K) (v : V) (l : list (K * V)) : list (K * V) * nat :=
  match l with
  | [] => ([(k, v)], 0%nat)
  | (k', v') :: l' => if ltb k k' then ((k, v) :: l, 0%nat) else let '(r, i) := multimap_emplace ltb k v l' in ((k', v') :: r, S i)
  end.

(** A loop that changes the service, over the elements of a list. *)
Fixpoint for_each {A S} (f : A -> S -> option S) (l : list A) (s : S) : option S :=
  match l with
  | [] => Some s
  | x :: l => s ← f x s; for_each f l s
  end.

(** The keys of a [std::map], in order. *)
Definition map_keys {V} (m : gmap Z V) : list Z := merge_sort Z.le (map_to_list m).*1.

Definition map_values {V} (m : gmap Z V) : list V := omap (fun k => m !! k) (map_keys m).

(** Entries of a [std::map] from producers to instances. *)
Fixpoint group_add (p id : Z) (l : list (Z * list Z)) : list (Z * list Z) :=
  match l with
  | [] => [(p, [id])]
  | (q, ids) :: l' => if p =? q then (q, ids ++ [id]) :: l' else if p <? q then (p, [id]) :: l else (q, ids) :: group_add p id l'
  end.

Section Service.
Context `{DataPlane}.
Implicit Types (s : TracingServiceImpl) (ts : TracingSession).

Definition post (t : Task) s : TracingServiceImpl := set_tasks (tasks s ++ [t]) s.
Definition send (m : Message) s : TracingServiceImpl := set_sent (sent s ++ [m]) s.
Definition upd_session (tsid : Z) ts s : TracingServiceImpl := set_tracing_sessions_ (<[tsid := ts]> (tracing_sessions_ s)) s.
Definition upd_producer (p : Z) (q : Producer) s : TracingServiceImpl := set_producers_ (<[p := q]> (producers_ s)) s.
Definition upd_consumer (c : nat) (q : Consumer) s : TracingServiceImpl := set_consumers_ (<[c := q]> (consumers_ s)) s.
Definition set_instance (i : nat) (inst : DataSourceInstance) ts : TracingSession :=
  set_data_source_instances (alter (fun x => (x.1, inst)) i (data_source_instances ts)) ts.

Definition NameMatchesFilter (name : string) (name_filter name_regex_filter : list string) : bool :=
  if negb (negb (bool_decide (name_filter = [])) || negb (bool_decide (name_regex_filter = []))) then true
  else bool_decide (name ∈ name_filter) || existsb (fun regex => regex_match name regex) name_regex_filter.

(** ** Look-up *)

Definition GetTracingSession s (tsid : Z) : option TracingSession := if tsid =? 0 then None else tracing_sessions_ s !! tsid.
Definition GetProducer s (id : Z) : option Producer := producers_ s !! id.
Definition GetBufferByID s (buffer_id : Z) : option Buf := buffers_ s !! buffer_id.

Definition GetDataSourceInstance ts (producer_id instance_id' : Z) : option nat :=
  fst <$> list_find (fun x => x.1 = producer_id /\ instance_id x.2 = instance_id') (data_source_instances ts).

Definition AllDataSourceInstancesStarted ts : bool := forallb (fun x => bool_decide (inst_state x.2 = INST_STARTED)) (data_source_instances ts).
Definition AllDataSourceInstancesStopped ts : bool := forallb (fun x => bool_decide (inst_state x.2 = INST_STOPPED)) (data_source_instances ts).
Definition session_stop_timeout_ms ts : Z :=
  if data_source_stop_timeout_ms (config ts) =? 0 then kDataSourceStopTimeoutMs else data_source_stop_timeout_ms (config ts).

(** [GetDetachedSession]: the session, or a failed check. *)
Fixpoint find_detached (l : list Z) s (uid : Z) (key : string) : option (option Z) :=
  match l with
  | [] => Some None
  | tsid :: l =>
      ts ← tracing_sessions_ s !! tsid;
      if (consumer_uid ts =? uid) && bool_decide (detach_key ts = key) then
        match consumer_maybe_null ts with None => Some (Some tsid) | Some _ => None end
      else find_detached l s uid key
  end.
Definition GetDetachedSession s (uid : Z) (key : string) : option (option Z) := find_detached (map_keys (tracing_sessions_ s)) s uid key.

Definition IsWaitingForTrigger ts : bool :=
  match state ts with
  | CLONED_READ_ONLY => false
  | _ =>
      if negb (bool_decide (triggers (trigger_config (config ts)) = [])) && bool_decide (received_triggers ts = []) then true
      else GetTriggerMode (config ts) =? CLONE_SNAPSHOT
  end.

Definition IsCloneAllowed ts (clone_uid : Z) : bool := (clone_uid =? 0) || (clone_uid =? consumer_uid ts).

(** ** Lifecycle events *)

Definition push_timestamp (now : Z) (e : LifecycleEvent) : LifecycleEvent :=
  let l := le_timestamps e in
  let n := Z.of_nat (length l) in
  let l := if le_max_size e <=? n then drop (Z.to_nat (1 + n - le_max_size e)) l else l in
  mkLifecycle (le_field_id e) (le_max_size e) (l ++ [now]).

Fixpoint snapshot_event (field_id now : Z) (l : list LifecycleEvent) : list LifecycleEvent :=
  match l with
  | [] => [push_timestamp now (mkLifecycle field_id 1 [])]
  | e :: l => if le_field_id e =? field_id then push_timestamp now e :: l else e :: snapshot_event field_id now l
  end.

Definition SnapshotLifecyleEvent s (field_id : Z) ts : TracingSession :=
  set_lifecycle_events (snapshot_event field_id (boot_time_ns s) (lifecycle_events ts)) ts.

(** ** Messages to consumers *)

Definition wants (q : Consumer) (type : Z) : bool := negb (observable_events_mask_ q .& type =? 0).

Definition OnDataSourceInstanceStateChange s (c : nat) (producer : Producer) (inst : DataSourceInstance) : option TracingServiceImpl :=
  q ← consumers_ s !! c;
  Some (if wants q TYPE_DATA_SOURCES_INSTANCES then
          match inst_state inst with
          | INST_CONFIGURED | INST_STOPPED => send (ConsumerInstanceStateChange c (p_name producer) (data_source_name inst) false) s
          | INST_STARTED => send (ConsumerInstanceStateChange c (p_name producer) (data_source_name inst) true) s
          | _ => s
          end
        else s).

(** [if (consumer_maybe_null) consumer_maybe_null->OnDataSourceInstanceStateChange(...)]. *)
Definition notify_instance s ts (p : Z) (inst : DataSourceInstance) : option TracingServiceImpl :=
  producer ← GetProducer s p;
  match consumer_maybe_null ts with
  | Some c => OnDataSourceInstanceStateChange s c producer inst
  | None => Some s
  end.

Definition OnAllDataSourcesStarted s (c : nat) : option TracingServiceImpl :=
  q ← consumers_ s !! c;
  Some (if wants q TYPE_ALL_DATA_SOURCES_STARTED then send (ConsumerAllDataSourcesStarted c) s else s).

Definition NotifyCloneSnapshotTrigger s (c : nat) (trigger_name : string) : option TracingServiceImpl :=
  q ← consumers_ s !! c;
  Some (if wants q TYPE_CLONE_TRIGGER_HIT then send (ConsumerCloneTriggerHit c (tracing_session_id_ q) trigger_name) s else s).

Definition NotifyOnTracingDisabled s (c : nat) (tsid : Z) (error : option TracingError) : option TracingServiceImpl :=
  _ ← consumers_ s !! c;
  Some (send (ConsumerOnTracingDisabled c tsid error) s).

Definition MaybeNotifyAllDataSourcesStarted s (tsid : Z) : option TracingServiceImpl :=
  ts ← tracing_sessions_ s !! tsid;
  match consumer_maybe_null ts with
  | None => Some s
  | Some c =>
      if negb (AllDataSourceInstancesStarted ts) then Some s
      else if did_notify_all_data_source_started ts then Some s
      else
        let ts := SnapshotLifecyleEvent s kAllDataSourcesStartedFieldNumber ts in
        OnAllDataSourcesStarted (upd_session tsid (set_did_notify_all_data_source_started true ts) s) c
  end.

(** ** Starting and stopping data sources *)

Definition StartDataSourceInstance (p tsid : Z) (i : nat) s : option TracingServiceImpl :=
  ts ← tracing_sessions_ s !! tsid;
  '(_, inst) ← data_source_instances ts !! i;
  if decide (inst_state inst = INST_CONFIGURED) then
    let inst := set_inst_state (if will_notify_on_start inst then INST_STARTING else INST_STARTED) inst in
    s ← notify_instance (upd_session tsid (set_instance i inst ts) s) ts p inst;
    let s := send (ProducerStartDataSource p (instance_id inst) (ds_cfg inst)) s in
    if decide (inst_state inst = INST_STARTED) then MaybeNotifyAllDataSourcesStarted s tsid else Some s
  else None.

Definition StopDataSourceInstance (p tsid : Z) (i : nat) (disable_immediately : bool) s : option TracingServiceImpl :=
  ts ← tracing_sessions_ s !! tsid;
  '(_, inst) ← data_source_instances ts !! i;
  let inst := set_inst_state (if will_notify_on_stop inst && negb disable_immediately then INST_STOPPING else INST_STOPPED) inst in
  s ← notify_instance (upd_session tsid (set_instance i inst ts) s) ts p inst;
  Some (send (ProducerStopDataSource p (instance_id inst)) s).

(** ** Commits of producers *)

(** All arguments but the producer and its identity are untrusted. *)
Definition CopyProducerPageIntoLogBuffer (p writer_id chunk_id buffer_id num_fragments chunk_flags : Z) (chunk_complete : bool) (src : list Z) s :
    option TracingServiceImpl :=
  let discard := Some (set_chunks_discarded_ (u64 (chunks_discarded_ s + 1)) s) in
  match GetProducer s p, GetBufferByID s buffer_id with
  | Some producer, Some buf =>
      if negb (bool_decide (buffer_id ∈ allowed_target_buffers_ producer)) then discard
      else if match writers_ producer !! writer_id with Some b => negb (b =? buffer_id) | None => false end then discard
      else
        buf ← CopyChunkUntrusted buf p (p_identity producer) writer_id chunk_id num_fragments chunk_flags chunk_complete src;
        Some (set_buffers_ (<[buffer_id := buf]> (buffers_ s)) s)
  | _, _ => discard
  end.

(** A chunk that is in use, for a session. *)
Definition scrape_chunk (p : Z) (session_buffers : list Z) (producer : Producer) (c : SmbChunk) s : option TracingServiceImpl :=
  if negb (sc_complete c) && (sc_packet_count c <? 2) then Some s
  else
    match writers_ producer !! sc_writer_id c with
    | None => Some s
    | Some target_buffer_id =>
        if negb (bool_decide (target_buffer_id ∈ session_buffers)) then Some s
        else CopyProducerPageIntoLogBuffer p (sc_writer_id c) (sc_chunk_id c) target_buffer_id (sc_packet_count c) (sc_flags c) (sc_complete c) (sc_payload c) s
    end.

Definition ScrapeSharedMemoryBuffers (tsid p : Z) s : option TracingServiceImpl :=
  producer ← GetProducer s p;
  ts ← tracing_sessions_ s !! tsid;
  if negb (p_scraping producer) || bool_decide (writers_ producer = ∅) then Some s
  else if negb (existsb (fun b => bool_decide (b ∈ allowed_target_buffers_ producer)) (buffers_index ts)) then Some s
  else for_each (fun c => scrape_chunk p (buffers_index ts) producer c.2) (smb producer) s.

Definition scrape_all_producers (tsid : Z) s : option TracingServiceImpl :=
  for_each (fun p => ScrapeSharedMemoryBuffers tsid p) (map_keys (producers_ s)) s.

(** ** Files *)

(** What [ReadBuffers] leaves of what it wrote into the trace, in a session that disables
    none of the packets of the service. *)
Definition emitted (has_more : bool) ts : TracingSession :=
  let clear l := (fun e => mkLifecycle (le_field_id e) (le_max_size e) []) <$> l in
  let ts := set_should_emit_sync_marker false ts in
  let ts := set_num_triggers_emitted_into_trace (Z.of_nat (length (received_triggers ts))) ts in
  let ts := set_lifecycle_events (clear (lifecycle_events ts)) (set_slow_start_event None (set_last_flush_events [] ts)) in
  if has_more then ts
  else set_should_emit_stats false (set_lifecycle_events (clear (snapshot_event kReadTracingBuffersCompletedFieldNumber 0 (lifecycle_events ts))) ts).

Definition put_buffers (ids : list Z) (bufs : list Buf) (m : gmap Z Buf) : gmap Z Buf := list_to_map (zip ids bufs) ∪ m.

(** [ReadBuffersIntoFile] up to the call of [DisableTracing]; [true] when the file was
    closed. *)
Definition drain_file (tsid : Z) s : option (TracingServiceImpl * bool) :=
  match GetTracingSession s tsid with
  | None => Some (s, false)
  | Some ts =>
      if negb (write_into_file ts) || IsWaitingForTrigger ts then Some (s, false)
      else
        bufs ← mapM (fun b => GetBufferByID s b) (buffers_index ts);
        '(bufs, st, written, stop_writing_into_file, has_more) ←
          ReadIntoFile (trace_filter ts) (compress_deflate ts) (max_file_size_bytes (config ts)) (read_state ts) (bytes_written_into_file ts) bufs;
        let s := set_buffers_ (put_buffers (buffers_index ts) bufs (buffers_ s)) s in
        let ts := set_read_state st (set_bytes_written_into_file written (emitted has_more ts)) in
        if stop_writing_into_file || (write_period_ms ts =? 0) then
          Some (upd_session tsid (set_write_into_file false (set_write_period_ms 0 ts)) s, true)
        else Some (post (TReadBuffersIntoFile tsid) (upd_session tsid ts s), false)
  end.

(** ** Disabling *)

Definition stop_instance_now (tsid : Z) (i : nat) s : option TracingServiceImpl :=
  ts ← tracing_sessions_ s !! tsid;
  '(p, inst) ← data_source_instances ts !! i;
  if decide (inst_state inst = INST_STOPPED) then Some s
  else
    let inst := set_inst_state INST_STOPPED inst in
    notify_instance (upd_session tsid (set_instance i inst ts) s) ts p inst.

(** The session is disabled when it is drained, so [ReadBuffersIntoFile] does not call
    [DisableTracing] again. *)
Definition DisableTracingNotifyConsumerAndFlushFile (tsid : Z) s : option TracingServiceImpl :=
  ts ← tracing_sessions_ s !! tsid;
  if decide (state ts = DISABLED) then None
  else
    s ← for_each (stop_instance_now tsid) (seq 0 (length (data_source_instances ts))) s;
    ts ← tracing_sessions_ s !! tsid;
    s ← scrape_all_producers tsid (upd_session tsid (set_state DISABLED ts) s);
    ts ← tracing_sessions_ s !! tsid;
    let ts := SnapshotLifecyleEvent s kTracingDisabledFieldNumber ts in
    let s := upd_session tsid ts s in
    s ← (if write_into_file ts then fst <$> drain_file tsid (upd_session tsid (set_write_period_ms 0 ts) s) else Some s);
    match consumer_maybe_null ts with Some c => NotifyOnTracingDisabled s c tsid None | None => Some s end.

Definition disable_instance (tsid : Z) (disable_immediately : bool) (i : nat) s : option TracingServiceImpl :=
  ts ← tracing_sessions_ s !! tsid;
  '(p, inst) ← data_source_instances ts !! i;
  match inst_state inst with
  | INST_CONFIGURED | INST_STARTING | INST_STARTED => StopDataSourceInstance p tsid i disable_immediately s
  | _ => None
  end.

Definition disable_running (tsid : Z) (disable_immediately : bool) s : option TracingServiceImpl :=
  ts ← tracing_sessions_ s !! tsid;
  s ← for_each (disable_instance tsid disable_immediately) (seq 0 (length (data_source_instances ts))) s;
  ts ← tracing_sessions_ s !! tsid;
  let ts := set_snapshot_running false ts in
  let s := upd_session tsid ts s in
  if AllDataSourceInstancesStopped ts then DisableTracingNotifyConsumerAndFlushFile tsid s
  else Some (post (TDisableTracingTimeout tsid) (upd_session tsid (set_state DISABLING_WAITING_STOP_ACKS ts) s)).

Definition DisableTracing (tsid : Z) (disable_immediately : bool) s : option TracingServiceImpl :=
  match GetTracingSession s tsid with
  | None => Some s
  | Some ts =>
      match state ts with
      | DISABLED => if AllDataSourceInstancesStopped ts then Some s else None
      | CLONED_READ_ONLY => Some s
      | DISABLING_WAITING_STOP_ACKS =>
          if AllDataSourceInstancesStopped ts then None
          else if disable_immediately then DisableTracingNotifyConsumerAndFlushFile tsid s else Some s
      | CONFIGURED => disable_running tsid true s
      | STARTED => disable_running tsid disable_immediately s
      end
  end.

Definition ReadBuffersIntoFile (tsid : Z) s : option TracingServiceImpl :=
  '(s, closed) ← drain_file tsid s;
  if closed : bool then
    ts ← tracing_sessions_ s !! tsid;
    if decide (state ts = STARTED) then DisableTracing tsid false s else Some s
  else Some s.

Definition OnDisableTracingTimeout (tsid : Z) s : option TracingServiceImpl :=
  match GetTracingSession s tsid with
  | None => Some s
  | Some ts =>
      match state ts with
      | DISABLING_WAITING_STOP_ACKS =>
          if AllDataSourceInstancesStopped ts then None else DisableTracingNotifyConsumerAndFlushFile tsid s
      | _ => Some s
      end
  end.

(** ** Freeing *)

Definition OnFreeBuffers (target_buffers : list Z) (producer : Producer) : Producer :=
  set_allowed_target_buffers_ (allowed_target_buffers_ producer ∖ list_to_set target_buffers) producer.

Definition free_buffer (b : Z) s : option TracingServiceImpl :=
  ids ← FreeGeneric (buffer_ids_ s) b;
  _ ← buffers_ s !! b;
  Some (set_buffers_ (delete b (buffers_ s)) (set_buffer_ids_ ids s)).

(** A task is posted for each consumer that waits for a clone, if it is still there; the
    task tells it that the session is over. *)
Definition notify_pending_clone (op : PendingClone) s : TracingServiceImpl :=
  match consumers_ s !! weak_consumer op with
  | Some _ => post (TOnSessionCloned (weak_consumer op)) s
  | None => s
  end.

Definition FreeBuffers (tsid : Z) s : option TracingServiceImpl :=
  match GetTracingSession s tsid with
  | None => Some s
  | Some _ =>
      s ← DisableTracing tsid true s;
      ts ← tracing_sessions_ s !! tsid;
      if AllDataSourceInstancesStopped ts then
        let s := set_producers_ (OnFreeBuffers (buffers_index ts) <$> producers_ s) s in
        s ← for_each free_buffer (buffers_index ts) s;
        let s := set_tracing_sessions_ (delete tsid (tracing_sessions_ s)) s in
        Some (foldl (fun s op => notify_pending_clone op s) s (map_values (pending_clones ts)))
      else None
  end.

(** ** Cloning *)

(** Allocation of a buffer may fail. *)
Definition try_create (size : Z) (discard : bool) s : option (TracingServiceImpl * option Buf) :=
  if size <=? memory_left s then b ← Create size discard; Some (set_memory_left (memory_left s - size) s, Some b) else Some (s, None).

Definition try_clone (b : Buf) s : option (TracingServiceImpl * option Buf) :=
  if buf_size b <=? memory_left s then b' ← CloneReadOnly b; Some (set_memory_left (memory_left s - buf_size b) s, Some b') else Some (s, None).

Definition TracingSession_new (c : nat) (uid : Z) (cfg : TraceConfig) : TracingSession :=
  mkSession (Some c) uid [] cfg [] [] ∅ 0 [] false false false 0 0 0 0 None false
    [mkLifecycle kAllDataSourcesFlushedFieldNumber 64 []; mkLifecycle kFlushStartedFieldNumber 64 []] None [] DISABLED EmptyString false 0 0 false None ReadState_new.

(** The loop of [DoCloneBuffers] from index [i] on; [false] when an allocation fails. *)
Fixpoint clone_loop (l : list (Z * BufferConfig)) (buf_ids : list Z) (i : nat) (buf_snaps : list (option Buf)) s :
    option (TracingServiceImpl * list (option Buf) * bool) :=
  match l with
  | [] => Some (s, buf_snaps, true)
  | (src_buf_id, cfg) :: l =>
      if negb (bool_decide (src_buf_id ∈ buf_ids)) then clone_loop l buf_ids (S i) buf_snaps s
      else
        src_buf ← buffers_ s !! src_buf_id;
        '(s, new_buf) ←
          (if transfer_on_clone cfg then
             '(s, ofresh) ← try_create (buf_size src_buf) (buf_discard src_buf) s;
             Some (match ofresh with
                   | Some fresh => (set_buffers_ (<[src_buf_id := fresh]> (buffers_ s)) s, Some src_buf)
                   | None => (s, None)
                   end)
           else try_clone src_buf s);
        match new_buf with
        | None => Some (s, buf_snaps, false)
        | Some b => clone_loop l buf_ids (S i) (<[i := Some b]> buf_snaps) s
        end
  end.

Definition DoCloneBuffers (tsid : Z) (buf_ids : list Z) (buf_snaps : list (option Buf)) s : option (TracingServiceImpl * list (option Buf) * bool) :=
  src ← tracing_sessions_ s !! tsid;
  if (length (buffers_index src) =? length (buffers (config src)))%nat then
    clone_loop (zip (buffers_index src) (buffers (config src))) buf_ids 0
      (take (length (buffers_index src)) buf_snaps ++ replicate (length (buffers_index src) - length buf_snaps) None) s
  else None.

(** The session of a clone: metadata is copied, and the triggers are moved. *)
Definition cloned_session (c : nat) (uid : Z) (src : TracingSession) (buf_ids : list Z) (skip_trace_filter final_flush_outcome : bool) : TracingSession :=
  let ts := TracingSession_new c uid (config src) in
  let ts := set_received_triggers (received_triggers src) (set_should_emit_stats true (set_buffers_index buf_ids (set_state CLONED_READ_ONLY ts))) in
  let ts := set_lifecycle_events (lifecycle_events src) (set_slow_start_event (slow_start_event src) (set_last_flush_events (last_flush_events src) ts)) in
  let ts := set_flushes_requested (flushes_requested src) (set_flushes_succeeded (flushes_succeeded src) (set_flushes_failed (flushes_failed src) ts)) in
  let ts := set_compress_deflate (compress_deflate src) (if skip_trace_filter then ts else set_trace_filter (trace_filter src) ts) in
  set_read_state (ReadState_clone (read_state src)) (set_final_flush_outcome (Some final_flush_outcome) ts).

Definition FinishCloneSession (c : nat) (src_tsid : Z) (buf_snaps : list (option Buf)) (skip_trace_filter final_flush_outcome : bool) s :
    option (TracingServiceImpl * option TracingError) :=
  consumer ← consumers_ s !! c;
  match GetTracingSession s src_tsid with
  | None => Some (s, Some SessionNotFound)
  | Some src =>
      if negb (tracing_session_id_ consumer =? 0) then Some (s, Some AlreadyAttached)
      else
        '(ids, buf_ids) ← AllocateMultiple (buffer_ids_ s) (length buf_snaps);
        let s := set_buffer_ids_ ids s in
        if negb (length buf_ids =? length buf_snaps)%nat then Some (s, Some BufferIdsExhausted)
        else
          bufs ← mapM id buf_snaps;
          let tsid := last_tracing_session_id_ s + 1 in
          let s := set_last_tracing_session_id_ tsid s in
          let s := set_buffers_ (list_to_map (zip buf_ids (set_read_only <$> bufs)) ∪ buffers_ s) s in
          let ts := SnapshotLifecyleEvent s kTracingDisabledFieldNumber (cloned_session c (c_uid consumer) src buf_ids skip_trace_filter final_flush_outcome) in
          let s := upd_session tsid ts (upd_session src_tsid (set_received_triggers [] (set_num_triggers_emitted_into_trace 0 src)) s) in
          Some (upd_consumer c (set_tracing_session_id_ tsid consumer) s, None)
  end.

(** The answer to the consumer, and the end of the operation. *)
Definition finish_clone_op (tsid clone_id : Z) (op : PendingClone) (result : option TracingError) s : option TracingServiceImpl :=
  let s := match consumers_ s !! weak_consumer op with Some _ => send (ConsumerOnSessionCloned (weak_consumer op) result) s | None => s end in
  src ← tracing_sessions_ s !! tsid;
  Some (upd_session tsid (set_pending_clones (delete clone_id (pending_clones src)) src) s).

Definition OnFlushDoneForClone (tsid clone_id : Z) (buf_ids : list Z) (final_flush_outcome : bool) s : option TracingServiceImpl :=
  match GetTracingSession s tsid with
  | None => Some s
  | Some src =>
      match pending_clones src !! clone_id with
      | None => Some s
      | Some op =>
          let failed := flush_failed op || negb final_flush_outcome in
          '(s, snaps, ok) ← DoCloneBuffers tsid buf_ids (pc_buffers op) s;
          if negb ok : bool then finish_clone_op tsid clone_id op (Some BufferAllocationFailed) s
          else
            let cnt := u64 (pending_flush_cnt op - 1) in
            let op := mkPendingClone cnt snaps failed (weak_consumer op) (skip_trace_filter op) in
            if negb (cnt =? 0) then Some (upd_session tsid (set_pending_clones (<[clone_id := op]> (pending_clones src)) src) s)
            else
              '(s, result) ← (match consumers_ s !! weak_consumer op with
                              | Some _ => FinishCloneSession (weak_consumer op) tsid snaps (skip_trace_filter op) (negb failed) s
                              | None => Some (s, None)
                              end);
              finish_clone_op tsid clone_id op result s
      end
  end.

(** ** Flushes *)

Definition run_callback (callback : FlushCallback) (success : bool) s : option TracingServiceImpl :=
  match callback with
  | CbConsumer c token => Some (send (ConsumerFlushDone c token success) s)
  | CbPeriodic => Some s
  | CbFinal tsid =>
      match GetTracingSession s tsid with
      | None => Some s
      | Some ts =>
          let s := upd_session tsid (set_final_flush_outcome (Some success) ts) s in
          match consumer_maybe_null ts with Some _ => DisableTracing tsid false s | None => FreeBuffers tsid s end
      end
  | CbClone tsid clone_id bufs => OnFlushDoneForClone tsid clone_id bufs success s
  end.

(** A flush of no data source is as one of all: it waits for [OnFlushTimeout]. *)
Definition FlushDataSourceInstances (tsid : Z) (instances : list (Z * list Z)) (callback : FlushCallback) (reason : FlushReason) s : option TracingServiceImpl :=
  ts ← tracing_sessions_ s !! tsid;
  if (1000 <? length (pending_flushes ts))%nat then run_callback callback false s
  else if decide (state ts = STARTED) then
    let flush_request_id := last_flush_request_id_ s + 1 in
    let s := set_last_flush_request_id_ flush_request_id s in
    let ts := set_flushes_requested (flushes_requested ts + 1) (set_last_flush_events [] ts) in
    let ts := set_pending_flushes (pending_flushes ts ++ [(flush_request_id, mkPendingFlush (list_to_set instances.*1) callback)]) ts in
    s ← for_each (fun x s => _ ← GetProducer s x.1; Some (send (ProducerFlush x.1 flush_request_id x.2 reason) s)) instances (upd_session tsid ts s);
    Some (post (TFlushTimeout tsid flush_request_id reason) s)
  else run_callback callback false s.

Definition flushable (keep : DataSourceInstance -> bool) ts : list (Z * list Z) :=
  foldl (fun l x => if negb (no_flush x.2) && keep x.2 then group_add x.1 (instance_id x.2) l else l) [] (data_source_instances ts).

Definition Flush (tsid : Z) (callback : FlushCallback) (reason : FlushReason) s : option TracingServiceImpl :=
  match GetTracingSession s tsid with
  | None => Some s
  | Some ts =>
      FlushDataSourceInstances tsid (flushable (fun _ => true) ts) callback reason
        (upd_session tsid (SnapshotLifecyleEvent s kFlushStartedFieldNumber ts) s)
  end.

Definition CompleteFlush (tsid : Z) (callback : FlushCallback) (success : bool) s : option TracingServiceImpl :=
  match GetTracingSession s tsid with
  | None => run_callback callback false s
  | Some _ =>
      s ← scrape_all_producers tsid s;
      ts ← tracing_sessions_ s !! tsid;
      let ts := SnapshotLifecyleEvent s kAllDataSourcesFlushedFieldNumber ts in
      let ts := if success then set_flushes_succeeded (flushes_succeeded ts + 1) ts else set_flushes_failed (flushes_failed ts + 1) ts in
      run_callback callback success (upd_session tsid ts s)
  end.

(** The flushes up to [flush_request_id] no longer wait for the producer; the callbacks
    of those that wait for nobody are collected. *)
Fixpoint flush_done (p flush_request_id : Z) (l : list (Z * PendingFlush)) : list (Z * PendingFlush) * list FlushCallback :=
  match l with
  | [] => ([], [])
  | (id, pf) :: l' =>
      if id <=? flush_request_id then
        let left := pf_producers pf ∖ {[p]} in
        let '(r, cbs) := flush_done p flush_request_id l' in
        if bool_decide (left = ∅) then (r, pf_callback pf :: cbs) else ((id, mkPendingFlush left (pf_callback pf)) :: r, cbs)
      else (l, [])
  end.

Definition NotifyFlushDoneForProducer (p flush_request_id : Z) s : option TracingServiceImpl :=
  for_each (fun tsid s =>
    ts ← tracing_sessions_ s !! tsid;
    let '(l, cbs) := flush_done p flush_request_id (pending_flushes ts) in
    Some (foldl (fun s cb => post (TCompleteFlush tsid cb true) s) (upd_session tsid (set_pending_flushes l ts) s) cbs)) (map_keys (tracing_sessions_ s)) s.

(** The data sources of a producer that are listed as slow, up to the limit. *)
Fixpoint list_slow (name : string) (insts : list (Z * DataSourceInstance)) (i : nat) : list (string * string) * nat :=
  match insts with
  | [] => ([], i)
  | (_, inst) :: insts =>
      let i := S i in
      if (kMaxLifecycleEventsListedDataSources <? i)%nat then ([(name, data_source_name inst)], i)
      else let '(l, i) := list_slow name insts i in ((name, data_source_name inst) :: l, i)
  end.

Fixpoint slow_flush_sources (ps : list Z) s ts (i : nat) : list (string * string) :=
  match ps with
  | [] => []
  | p :: ps =>
      match GetProducer s p with
      | None => slow_flush_sources ps s ts i
      | Some producer =>
          let i := S i in
          if (kMaxLifecycleEventsListedDataSources <? i)%nat then []
          else
            let '(l, i) := list_slow (p_name producer) (filter (fun x => x.1 = p) (data_source_instances ts)) i in
            l ++ slow_flush_sources ps s ts i
      end
  end.

Definition find_flush (flush_request_id : Z) (l : list (Z * PendingFlush)) : option PendingFlush :=
  snd <$> (snd <$> list_find (fun x => x.1 = flush_request_id) l).

Fixpoint erase_flush (flush_request_id : Z) (l : list (Z * PendingFlush)) : list (Z * PendingFlush) :=
  match l with
  | [] => []
  | x :: l => if x.1 =? flush_request_id then l else x :: erase_flush flush_request_id l
  end.

Definition OnFlushTimeout (tsid flush_request_id : Z) (reason : FlushReason) s : option TracingServiceImpl :=
  match GetTracingSession s tsid with
  | None => Some s
  | Some ts =>
      match find_flush flush_request_id (pending_flushes ts) with
      | None => Some s
      | Some pf =>
          let success := bool_decide (pf_producers pf = ∅) in
          let final := match reason with kTraceClone | kTraceStop => true | _ => false end in
          let ts := if final && negb success then
                      set_last_flush_events (last_flush_events ts ++
                        [(boot_time_ns s, slow_flush_sources (merge_sort Z.le (elements (pf_producers pf))) s ts 0)]) ts
                    else ts in
          let ts := set_pending_flushes (erase_flush flush_request_id (pending_flushes ts)) ts in
          CompleteFlush tsid (pf_callback pf) success (upd_session tsid ts s)
      end
  end.

Definition FlushAndDisableTracing (tsid : Z) s : option TracingServiceImpl := Flush tsid (CbFinal tsid) kTraceStop s.

(** The period is a divisor, so it may not be zero. *)
Definition PeriodicFlushTask (tsid : Z) (post_next_only : bool) s : option TracingServiceImpl :=
  match GetTracingSession s tsid with
  | None => Some s
  | Some ts =>
      if decide (state ts = STARTED) then
        if flush_period_ms (config ts) =? 0 then None
        else
          let s := post (TPeriodicFlush tsid) s in
          if post_next_only then Some s else Flush tsid CbPeriodic kPeriodic s
      else Some s
  end.

Definition PeriodicClearIncrementalStateTask (tsid : Z) (post_next_only : bool) s : option TracingServiceImpl :=
  match GetTracingSession s tsid with
  | None => Some s
  | Some ts =>
      if decide (state ts = STARTED) then
        if clear_period_ms (config ts) =? 0 then None
        else
          let s := post (TPeriodicClearIncrementalState tsid) s in
          if post_next_only then Some s
          else
            let clear_map := foldl (fun l x => if handles_incremental_state_clear x.2 then group_add x.1 (instance_id x.2) l else l) [] (data_source_instances ts) in
            Some (foldl (fun s x => match GetProducer s x.1 with Some _ => send (ProducerClearIncrementalState x.1 x.2) s | None => s end) s clear_map)
      else Some s
  end.

Definition PeriodicSnapshotTask (tsid : Z) s : TracingServiceImpl :=
  match GetTracingSession s tsid with
  | None => s
  | Some ts =>
      if decide (state ts = STARTED) then upd_session tsid (set_should_emit_sync_marker true (set_should_emit_stats true ts)) s else s
  end.

Definition StopOnDurationMsExpiry (tsid : Z) s : option TracingServiceImpl :=
  match GetTracingSession s tsid with
  | None => Some s
  | Some ts =>
      if (GetTriggerMode (config ts) =? STOP_TRACING) && negb (bool_decide (received_triggers ts = [])) then Some s
      else FlushAndDisableTracing tsid s
  end.

Definition OnStartTriggersTimeout (tsid : Z) s : option TracingServiceImpl :=
  match GetTracingSession s tsid with
  | Some ts => if decide (state ts = CONFIGURED) then DisableTracing tsid false s else Some s
  | None => Some s
  end.

(** Data sources that did not start in time; the list is cut after the limit. *)
Fixpoint slow_start_sources (insts : list (Z * DataSourceInstance)) s (i : nat) : list (string * string) :=
  match insts with
  | [] => []
  | (p, inst) :: insts =>
      if decide (inst_state inst = INST_STARTED) then slow_start_sources insts s i
      else
        match GetProducer s p with
        | None => slow_start_sources insts s i
        | Some producer =>
            if (kMaxLifecycleEventsListedDataSources <? S i)%nat then []
            else (p_name producer, data_source_name inst) :: slow_start_sources insts s (S i)
        end
  end.

Definition OnAllDataSourceStartedTimeout (tsid : Z) s : TracingServiceImpl :=
  match GetTracingSession s tsid with
  | None => s
  | Some ts =>
      if bool_decide (consumer_maybe_null ts = None) || did_notify_all_data_source_started ts then s
      else upd_session tsid (set_slow_start_event (Some (boot_time_ns s, slow_start_sources (data_source_instances ts) s 0)) ts) s
  end.

(** ** Starting sessions *)

(** [delay_to_next_write_period_ms] needs a period. *)
Definition post_file_task (tsid : Z) ts s : option TracingServiceImpl :=
  if cfg_write_into_file (config ts) then if 0 <? write_period_ms ts then Some (post (TReadBuffersIntoFile tsid) s) else None else Some s.

Definition start_instance (tsid : Z) (i : nat) s : option TracingServiceImpl :=
  ts ← tracing_sessions_ s !! tsid;
  '(p, _) ← data_source_instances ts !! i;
  match GetProducer s p with
  | None => Some s
  | Some _ => StartDataSourceInstance p tsid i s
  end.

Definition StartTracing (tsid : Z) s : option TracingServiceImpl :=
  match GetTracingSession s tsid with
  | None => Some s
  | Some ts =>
      if decide (state ts = CONFIGURED) then
        let ts := set_snapshot_running true (SnapshotLifecyleEvent s kTracingStartedFieldNumber (set_state STARTED ts)) in
        let s := upd_session tsid ts s in
        let s := if 0 <? duration_ms (config ts) then post (TStopOnDurationMsExpiry tsid) s else s in
        s ← post_file_task tsid ts s;
        s ← (if flush_period_ms (config ts) =? 0 then Some s else PeriodicFlushTask tsid true s);
        s ← (if clear_period_ms (config ts) =? 0 then Some s else PeriodicClearIncrementalStateTask tsid true s);
        s ← for_each (start_instance tsid) (seq 0 (length (data_source_instances ts))) s;
        s ← MaybeNotifyAllDataSourcesStarted s tsid;
        Some (if bool_decide (consumer_maybe_null ts = None) then s else post (TAllDataSourceStartedTimeout tsid) s)
      else Some s
  end.

(** ** Data sources of sessions *)

(** The shared memory buffer is created with the first data source of a producer. *)
Definition SetupSharedMemory (p page_size shm_size : Z) (provided : bool) s : option TracingServiceImpl :=
  producer ← GetProducer s p;
  if bool_decide (has_shm producer = None) && (page_size mod 1024 =? 0) then
    let producer := set_has_shm (Some (shm_size, page_size)) (set_provided_by_producer provided producer) in
    Some (send (ProducerOnTracingSetup p) (upd_producer p producer s))
  else None.

Definition ensure_shm (p : Z) (pc : ProducerConfig) s : option TracingServiceImpl :=
  producer ← GetProducer s p;
  match has_shm producer with
  | Some _ => Some s
  | None =>
      let page_size := u32 (page_size_kb pc * 1024) in
      let page_size := if page_size =? 0 then shmem_page_size_hint_bytes_ producer else page_size in
      let shm_size := u32 (shm_size_kb pc * 1024) in
      let shm_size := if shm_size =? 0 then shmem_size_hint_bytes_ producer else shm_size in
      let '(shm_size, page_size) := EnsureValidShmSizes shm_size page_size in
      SetupSharedMemory p page_size shm_size false s
  end.

(** [None] is a failed check; the index is that of the new instance. *)
Definition SetupDataSource (cfg : DataSource) (pc : ProducerConfig) (rds : RegisteredDataSource) (tsid : Z) s : option (TracingServiceImpl * option nat) :=
  producer ← GetProducer s (rds_producer_id rds);
  ts ← tracing_sessions_ s !! tsid;
  if lockdown_mode_ s && negb (p_uid producer =? uid_ s) then Some (s, None)
  else if negb (NameMatchesFilter (p_name producer) (producer_name_filter cfg) (producer_name_regex_filter cfg)) then Some (s, None)
  else
    let relative_buffer_id := u32 (target_buffer (ds_config cfg)) in
    if Z.of_nat (length (buffers_index ts)) <=? relative_buffer_id then Some (s, None)
    else
      let p := rds_producer_id rds in
      let d := descriptor rds in
      let inst_id := last_data_source_instance_id_ s + 1 in
      global_id ← buffers_index ts !! Z.to_nat relative_buffer_id;
      if global_id =? 0 then None
      else
        let ds_cfg := mkDsConfig (ds_name (ds_config cfg)) global_id (duration_ms (config ts)) (session_stop_timeout_ms ts) (enable_extra_guardrails (config ts)) tsid in
        let inst := mkInst inst_id ds_cfg (d_name d) (d_will_notify_on_start d) (d_will_notify_on_stop d) (d_handles_incremental_state_clear d) (d_no_flush d) INST_CONFIGURED in
        let '(insts, i) := multimap_emplace Z.ltb p inst (data_source_instances ts) in
        let s := upd_session tsid (set_data_source_instances insts ts) (set_last_data_source_instance_id_ inst_id s) in
        s ← notify_instance s ts p inst;
        s ← ensure_shm p pc s;
        producer ← GetProducer s p;
        let s := upd_producer p (set_allowed_target_buffers_ ({[global_id]} ∪ allowed_target_buffers_ producer) producer) s in
        Some (send (ProducerSetupDataSource p inst_id ds_cfg) s, Some i).

(** The configuration of a producer, if the session has one. *)
Fixpoint find_producer_config (name : string) (l : list ProducerConfig) : ProducerConfig :=
  match l with
  | [] => mkProducerConfig EmptyString 0 0
  | pc :: l => if bool_decide (pc_name pc = name) then pc else find_producer_config name l
  end.

(** Set up for a registered data source, and start if the session has started. *)
Definition setup_registered (cfg : DataSource) (rds : RegisteredDataSource) (start : bool) (tsid : Z) s : option TracingServiceImpl :=
  producer ← GetProducer s (rds_producer_id rds);
  ts ← tracing_sessions_ s !! tsid;
  '(s, oi) ← SetupDataSource cfg (find_producer_config (p_name producer) (cfg_producers (config ts))) rds tsid s;
  match oi with
  | Some i => if start && bool_decide (state ts = STARTED) then StartDataSourceInstance (rds_producer_id rds) tsid i s else Some s
  | None => Some s
  end.

(** ** Enabling *)

Definition valid_filename_char (c : Ascii.ascii) : bool :=
  let n := Z.of_N (Ascii.N_of_ascii c) in
  ((97 <=? n) && (n <=? 122)) || ((65 <=? n) && (n <=? 90)) || ((48 <=? n) && (n <=? 57)) || (n =? 45) || (n =? 95) || (n =? 46).

Definition max_duration_ms (cfg : TraceConfig) : Z :=
  if enable_extra_guardrails cfg then kGuardrailsMaxTracingDurationMillis else kMaxTracingDurationMillis.

(** Triggers and the length of the trace. *)
Definition check_triggers (cfg : TraceConfig) : option TracingError :=
  let has_trigger_config := negb (GetTriggerMode cfg =? UNSPECIFIED) in
  let tc := trigger_config cfg in
  if max_duration_ms cfg <? duration_ms cfg then Some TooLong
  else if has_trigger_config && ((trigger_timeout_ms tc =? 0) || (max_duration_ms cfg <? trigger_timeout_ms tc)) then Some BadTriggerTimeout
  else if TriggerMode_MAX <? trigger_mode tc then Some InvalidTriggerMode
  else if use_clone_snapshot_if_available tc && negb (trigger_mode tc =? STOP_TRACING) then Some CloneSnapshotNeedsStop
  else if has_trigger_config && negb (duration_ms cfg =? 0) then Some DurationWithTriggers
  else if negb (forallb valid_filename_char (String.list_ascii_of_string (bugreport_filename cfg))) then Some InvalidFilename
  else if ((GetTriggerMode cfg =? STOP_TRACING) || (GetTriggerMode cfg =? CLONE_SNAPSHOT)) && cfg_write_into_file cfg then Some TriggersWithFile
  else if negb (bool_decide (NoDup (tr_name <$> triggers tc))) then Some DuplicateTrigger
  else None.

(** Buffers and data sources. *)
Definition check_buffers (cfg : TraceConfig) : option TracingError :=
  if enable_extra_guardrails cfg && deferred_start cfg then Some DeferredStartGuardrail
  else if enable_extra_guardrails cfg && negb (forallb (fun b => size_kb b mod 4 =? 0) (buffers cfg)) then Some BufferNotPage
  else if enable_extra_guardrails cfg &&
          (Z.max kGuardrailsMaxTracingBufferSizeKb (max_tracing_buffer_size_kb cfg) <? foldr Z.add 0 (size_kb <$> buffers cfg)) then Some BufferTooLarge
  else if kMaxBuffersPerConsumer <? Z.of_nat (length (buffers cfg)) then Some TooManyBuffers
  else if negb (forallb (fun ds => target_buffer (ds_config ds) <? Z.of_nat (length (buffers cfg))) (data_sources cfg)) then Some TargetBufferOutOfBounds
  else None.

Definition check_unique_name (cfg : TraceConfig) s : option TracingError :=
  if negb (bool_decide (unique_session_name cfg = EmptyString)) &&
     existsb (fun ts => negb (bool_decide (state ts = CLONED_READ_ONLY)) && bool_decide (unique_session_name (config ts) = unique_session_name cfg))
       (map_values (tracing_sessions_ s)) then Some NameNotUnique
  else None.

Definition is_active ts : bool := negb (bool_decide (state ts = CLONED_READ_ONLY) || bool_decide (state ts = DISABLED)).

(** The entries of active sessions for a semaphore. *)
Definition semaphore_entries (name : string) s : list SessionSemaphore :=
  filter (fun sem => sem_name sem = name) (mjoin ((fun ts => session_semaphores (config ts)) <$> filter (fun ts => is_active ts = true) (map_values (tracing_sessions_ s)))).

Definition semaphore_clash s (sem : SessionSemaphore) : bool :=
  let entries := semaphore_entries (sem_name sem) s in
  negb (bool_decide (entries = [])) &&
  (Z.min (max_other_session_count sem) (foldr Z.min (2 ^ 64 - 1) (max_other_session_count <$> entries)) <? Z.of_nat (length entries)).

Definition check_semaphores (cfg : TraceConfig) s : option TracingError :=
  if existsb (semaphore_clash s) (session_semaphores cfg) then Some SemaphoreExceeded else None.

(** The time of the last trace with the name is noted here, before the checks that
    follow. *)
Definition check_guardrail (cfg : TraceConfig) s : TracingServiceImpl * option TracingError :=
  if enable_extra_guardrails cfg then
    let name := unique_session_name cfg in
    let now_s := boot_time_ns s / (1000 * 1000 * 1000) in
    let sessions := filter (fun x => now_s - x.2 <= kMinSecondsBetweenTracesGuardrail) (session_to_last_trace_s_ s) in
    if default 0 (sessions !! name) =? 0 then (set_session_to_last_trace_s_ (<[name := now_s]> sessions) s, None)
    else (set_session_to_last_trace_s_ sessions s, Some TraceTooRecent)
  else (s, None).

Definition check_limits (uid : Z) (cfg : TraceConfig) s : option TracingError :=
  let sessions_for_uid := Z.of_nat (length (filter (fun ts => consumer_uid ts = uid) (map_values (tracing_sessions_ s)))) in
  let per_uid_limit := if uid =? 1066 then kMaxConcurrentTracingSessionsForStatsdUid else kMaxConcurrentTracingSessionsPerUid in
  if per_uid_limit <=? sessions_for_uid then Some TooManySessionsForUid
  else if kMaxConcurrentTracingSessions <=? Z.of_nat (length (map_values (tracing_sessions_ s))) then Some TooManySessions
  else None.

Definition load_trace_filter (cfg : TraceConfig) : option (option Filter + TracingError) :=
  match cfg_trace_filter cfg with
  | None => Some (inl None)
  | Some fc =>
      f ← LoadFilter fc;
      Some (match f with Some f => inl (Some f) | None => inr InvalidFilter end)
  end.

(** Whether the file can be used; [fd] is the file that was passed, [created] what
    creating one at the path gives. *)
Definition check_file (cfg : TraceConfig) (fd created : bool) : option TracingError :=
  if cfg_write_into_file cfg then
    let has_path := negb (bool_decide (output_path cfg = EmptyString)) in
    if xorb (negb fd) has_path then Some FileOrPath else if has_path && negb created then Some CannotCreateFile else None
  else None.

Definition file_period (cfg : TraceConfig) : Z :=
  let ms := if file_write_period_ms cfg =? 0 then kDefaultWriteIntoFilePeriodMs else file_write_period_ms cfg in
  if ms <? kMinWriteIntoFilePeriodMs then kMinWriteIntoFilePeriodMs else ms.

(** The loop that allocates the buffers: the identifiers so far, and the error. *)
Fixpoint alloc_buffers (l : list BufferConfig) (ids : list Z) s : option (TracingServiceImpl * list Z * option TracingError) :=
  match l with
  | [] => Some (s, ids, None)
  | cfg :: l =>
      '(a, global_id) ← AllocateGeneric (buffer_ids_ s);
      let s := set_buffer_ids_ a s in
      if global_id =? 0 then Some (s, ids, Some BufferAllocationFailed)
      else
        let ids := ids ++ [global_id] in
        let buf_size_bytes := u32 (size_kb cfg) * 1024 in
        if (buf_size_bytes =? 0) || (2 ^ 32 - 1 <? buf_size_bytes) then Some (s, ids, Some InvalidBufferSize)
        else if bool_decide (is_Some (buffers_ s !! global_id)) then None
        else
          '(s, ob) ← try_create buf_size_bytes (fill_discard cfg) s;
          match ob with
          | None => Some (s, ids, Some BufferAllocationFailed)
          | Some b => alloc_buffers l ids (set_buffers_ (<[global_id := b]> (buffers_ s)) s)
          end
  end.

Definition undo_buffer (b : Z) s : option TracingServiceImpl :=
  a ← FreeGeneric (buffer_ids_ s) b;
  Some (set_buffers_ (delete b (buffers_ s)) (set_buffer_ids_ a s)).

(** Registered data sources with a name. *)
Definition registered (name : string) s : list RegisteredDataSource := (filter (fun x => x.1 = name) (data_sources_ s)).*2.

Definition setup_all (tsid : Z) (cfg : TraceConfig) s : option TracingServiceImpl :=
  for_each (fun cfg_ds s => for_each (fun rds => setup_registered cfg_ds rds false tsid) (registered (ds_name (ds_config cfg_ds)) s) s) (data_sources cfg) s.

(** From the allocated buffers to the end of [EnableTracing]. *)
Definition configure_session (c : nat) (tsid : Z) (cfg : TraceConfig) s : option TracingServiceImpl :=
  q ← consumers_ s !! c;
  s ← setup_all tsid cfg (upd_consumer c (set_tracing_session_id_ tsid q) s);
  ts ← tracing_sessions_ s !! tsid;
  let mode := GetTriggerMode cfg in
  let s := if mode =? START_TRACING then post (TStartTriggersTimeout tsid) s else s in
  let ts := if (mode =? STOP_TRACING) || (mode =? CLONE_SNAPSHOT)
            then set_config (set_duration_ms (trigger_timeout_ms (trigger_config cfg)) (config ts)) ts else ts in
  let s := upd_session tsid (set_state CONFIGURED ts) s in
  if negb (deferred_start cfg) && negb (mode =? START_TRACING) then StartTracing tsid s else Some s.

(** The session is in the table from the moment it has an identifier; the requests that
    fail after that take it out again. *)
Definition erase_session (tsid : Z) s : TracingServiceImpl := set_tracing_sessions_ (delete tsid (tracing_sessions_ s)) s.

Definition create_session (c : nat) (uid : Z) (cfg : TraceConfig) (fd created : bool) (f : option Filter) s : option (TracingServiceImpl * option TracingError) :=
  let tsid := last_tracing_session_id_ s + 1 in
  let ts := set_trace_filter f (TracingSession_new c uid cfg) in
  let s := upd_session tsid ts (set_last_tracing_session_id_ tsid s) in
  match check_file cfg fd created with
  | Some e => Some (erase_session tsid s, Some e)
  | None =>
      let ts := if cfg_write_into_file cfg then set_write_into_file true (set_write_period_ms (file_period cfg) ts) else ts in
      let ts := set_compress_deflate (compression_deflate cfg) ts in
      '(s, ids, error) ← alloc_buffers (buffers cfg) [] (upd_session tsid ts s);
      let s := upd_session tsid (set_buffers_index ids ts) s in
      match error with
      | Some e => s ← for_each undo_buffer ids s; Some (erase_session tsid s, Some e)
      | None => s ← configure_session c tsid cfg s; Some (s, None)
      end
  end.

Definition EnableTracing (c : nat) (cfg : TraceConfig) (fd created : bool) s : option (TracingServiceImpl * option TracingError) :=
  consumer ← consumers_ s !! c;
  let s := match lockdown_mode cfg with
           | LOCKDOWN_SET => set_lockdown_mode_ true s
           | LOCKDOWN_CLEAR => set_lockdown_mode_ false s
           | LOCKDOWN_UNCHANGED => s
           end in
  match GetTracingSession s (tracing_session_id_ consumer) with
  | Some _ => Some (s, Some SessionAlreadyActive)
  | None =>
      match check_triggers cfg, check_buffers cfg, check_unique_name cfg s, check_semaphores cfg s with
      | None, None, None, None =>
          match check_guardrail cfg s with
          | (s, Some e) => Some (s, Some e)
          | (s, None) =>
              match check_limits (c_uid consumer) cfg s with
              | Some e => Some (s, Some e)
              | None =>
                  loaded ← load_trace_filter cfg;
                  match loaded with
                  | inr e => Some (s, Some e)
                  | inl f => create_session c (c_uid consumer) cfg fd created f s
                  end
              end
          end
      | Some e, _, _, _ => Some (s, Some e)
      | None, Some e, _, _ => Some (s, Some e)
      | None, None, Some e, _ => Some (s, Some e)
      | None, None, None, Some e => Some (s, Some e)
      end
  end.

(** ** Clone requests *)

(** Buffers with [clear_before_clone] are replaced by empty ones; [false] when an
    allocation fails. *)
Fixpoint clear_loop (l : list (Z * BufferConfig)) s : option (TracingServiceImpl * bool) :=
  match l with
  | [] => Some (s, true)
  | (src_buf_id, cfg) :: l =>
      if negb (clear_before_clone cfg) then clear_loop l s
      else
        buf ← buffers_ s !! src_buf_id;
        if negb (has_data buf) then clear_loop l s
        else
          '(s, ob) ← try_create (buf_size buf) (buf_discard buf) s;
          match ob with
          | None => Some (s, false)
          | Some fresh => clear_loop l (set_buffers_ (<[src_buf_id := fresh]> (buffers_ s)) s)
          end
  end.

(** The started session with the highest positive score, the first of those. *)
Definition better (s : TracingServiceImpl) (best : option (Z * Z)) (tsid : Z) : option (Z * Z) :=
  match tracing_sessions_ s !! tsid with
  | None => best
  | Some ts =>
      let score := bugreport_score (config ts) in
      if (score <=? 0) || negb (bool_decide (state ts = STARTED)) then best
      else match best with
           | Some (_, max_score) => if max_score <? score then Some (tsid, score) else best
           | None => Some (tsid, score)
           end
  end.
Definition FindTracingSessionWithMaxBugreportScore s : option Z := fst <$> foldl (better s) None (map_keys (tracing_sessions_ s)).

(** The data sources that write into some buffers. *)
Definition GetFlushableDataSourceInstancesForBuffers ts (bufs : list Z) : list (Z * list Z) :=
  flushable (fun inst => bool_decide (u16 (target_buffer (ds_cfg inst)) ∈ bufs)) ts.

(** The buffers to be transferred, and the others. *)
Definition buffer_groups ts : list (list Z) :=
  let l := zip (buffers_index ts) (buffers (config ts)) in
  [(filter (fun x => transfer_on_clone x.2 = true) l).*1; (filter (fun x => transfer_on_clone x.2 = false) l).*1].

Definition flush_group (tsid clone_id : Z) (bufs : list Z) s : option TracingServiceImpl :=
  ts ← tracing_sessions_ s !! tsid;
  FlushDataSourceInstances tsid (GetFlushableDataSourceInstancesForBuffers ts bufs) (CbClone tsid clone_id bufs) kTraceClone s.

Definition start_clone (c : nat) (tsid : Z) (skip : bool) s : option TracingServiceImpl :=
  ts ← tracing_sessions_ s !! tsid;
  let clone_id := last_pending_clone_id_ ts in
  let op := mkPendingClone 2 (replicate (length (buffers_index ts)) None) false c skip in
  let ts := set_last_pending_clone_id_ (clone_id + 1) (set_pending_clones (<[clone_id := op]> (pending_clones ts)) ts) in
  let ts := SnapshotLifecyleEvent s kFlushStartedFieldNumber ts in
  for_each (flush_group tsid clone_id) (buffer_groups ts) (upd_session tsid ts s).

Definition FlushAndCloneSession (c : nat) (tsid : Z) (skip for_bugreport : bool) s : option (TracingServiceImpl * option TracingError) :=
  consumer ← consumers_ s !! c;
  let target := if tsid =? kBugreportSessionId then (id ← FindTracingSessionWithMaxBugreportScore s; Some (id, true)) else Some (tsid, skip) in
  match target with
  | None => Some (s, Some NoBugreportSession)
  | Some (tsid, skip) =>
      match GetTracingSession s tsid with
      | None => Some (s, Some SessionNotFound)
      | Some ts =>
          if negb (IsCloneAllowed ts (c_uid consumer)) then Some (s, Some CloneNotAllowed)
          else if negb (length (buffers_index ts) <=? length (buffers (config ts)))%nat then None
          else
            '(s, ok) ← clear_loop (zip (buffers_index ts) (buffers (config ts))) s;
            if negb ok : bool then Some (s, Some BufferAllocationFailed)
            else s ← start_clone c tsid skip s; Some (s, None)
      end
  end.

(** ** Producers *)

Fixpoint next_producer_id (tries : nat) (m : gmap Z Producer) (last : Z) : option Z :=
  match tries with
  | O => None
  | S tries => let id := u16 (last + 1) in if bool_decide (is_Some (m !! id)) || (id =? 0) then next_producer_id tries m id else Some id
  end.

Definition GetNextProducerID s : option (TracingServiceImpl * Z) :=
  if Z.of_nat (size (producers_ s)) <? kMaxProducerID then
    id ← next_producer_id (Z.to_nat (2 ^ 16)) (producers_ s) (last_producer_id_ s);
    if (0 <? id) && (id <=? kMaxProducerID) then Some (set_last_producer_id_ id s, id) else None
  else None.

(** [shm] is the size of the shared memory buffer that the producer brings, if any;
    [scraping] overrides the default. *)
Definition ConnectProducer (identity : ClientIdentity) (name : string) (size_hint page_hint : Z) (scraping : option bool) (shm : option Z) s :
    option (TracingServiceImpl * option Z) :=
  if lockdown_mode_ s && negb (uid identity =? uid_ s) then Some (s, None)
  else if kMaxProducerID <=? Z.of_nat (size (producers_ s)) then Some (s, None)
  else
    '(s, p) ← GetNextProducerID s;
    if bool_decide (is_Some (producers_ s !! p)) then None
    else
      let producer := mkProducer identity name None size_hint page_hint false (default (smb_scraping_enabled_ s) scraping) ∅ ∅ [] in
      let s := send (ProducerOnConnect p) (upd_producer p producer s) in
      s ← (match shm with
           | Some sz => if bool_decide (EnsureValidShmSizes sz page_hint = (sz, page_hint)) then SetupSharedMemory p page_hint sz true s else Some s
           | None => Some s
           end);
      Some (s, Some p).

Definition find_registered_id (p id : Z) s : bool :=
  existsb (fun x => (rds_producer_id x.2 =? p) && (d_id (descriptor x.2) =? id)) (data_sources_ s).

Definition RegisterDataSource (p : Z) (desc : DataSourceDescriptor) s : option TracingServiceImpl :=
  if bool_decide (d_name desc = EmptyString) then Some s
  else
    match GetProducer s p with
    | None => Some s
    | Some _ =>
        if negb (d_id desc =? 0) && find_registered_id p (d_id desc) s then Some s
        else
          let rds := mkRegistered p desc in
          let s := set_data_sources_ (fst (multimap_emplace String.ltb (d_name desc) rds (data_sources_ s))) s in
          for_each (fun tsid s =>
            ts ← tracing_sessions_ s !! tsid;
            if decide (state ts = STARTED \/ state ts = CONFIGURED) then
              for_each (fun cfg s => if bool_decide (ds_name (ds_config cfg) = d_name desc) then setup_registered cfg rds true tsid s else Some s)
                (data_sources (config ts)) s
            else Some s) (map_keys (tracing_sessions_ s)) s
    end.

(** The first entry with the name, producer and id. *)
Fixpoint update_descriptor (p : Z) (desc : DataSourceDescriptor) (l : list (string * RegisteredDataSource)) : list (string * RegisteredDataSource) :=
  match l with
  | [] => []
  | (name, rds) :: l =>
      if bool_decide (name = d_name desc) && (rds_producer_id rds =? p) && (d_id (descriptor rds) =? d_id desc)
      then (name, mkRegistered p desc) :: l else (name, rds) :: update_descriptor p desc l
  end.

Definition UpdateDataSource (p : Z) (desc : DataSourceDescriptor) s : TracingServiceImpl :=
  if d_id desc =? 0 then s else set_data_sources_ (update_descriptor p desc (data_sources_ s)) s.

Definition NotifyDataSourceStarted (p inst_id : Z) s : option TracingServiceImpl :=
  for_each (fun tsid s =>
    ts ← tracing_sessions_ s !! tsid;
    match GetDataSourceInstance ts p inst_id with
    | None => Some s
    | Some i =>
        '(_, inst) ← data_source_instances ts !! i;
        if bool_decide (state ts = STARTED) && bool_decide (inst_state inst = INST_STARTING) then
          let inst := set_inst_state INST_STARTED inst in
          s ← notify_instance (upd_session tsid (set_instance i inst ts) s) ts p inst;
          MaybeNotifyAllDataSourcesStarted s tsid
        else Some s
    end) (map_keys (tracing_sessions_ s)) s.

Definition stopped_in_session (p inst_id tsid : Z) s : option TracingServiceImpl :=
  ts ← tracing_sessions_ s !! tsid;
  match GetDataSourceInstance ts p inst_id with
  | None => Some s
  | Some i =>
      '(_, inst) ← data_source_instances ts !! i;
      if decide (inst_state inst = INST_STOPPING) then
        let inst := set_inst_state INST_STOPPED inst in
        s ← notify_instance (upd_session tsid (set_instance i inst ts) s) ts p inst;
        ts ← tracing_sessions_ s !! tsid;
        if AllDataSourceInstancesStopped ts && bool_decide (state ts = DISABLING_WAITING_STOP_ACKS)
        then DisableTracingNotifyConsumerAndFlushFile tsid s else Some s
      else Some s
  end.

Definition NotifyDataSourceStopped (p inst_id : Z) s : option TracingServiceImpl :=
  for_each (stopped_in_session p inst_id) (map_keys (tracing_sessions_ s)) s.

(** An instance of a data source that is unregistered, before it is erased. *)
Definition retire_instance (p tsid : Z) (i : nat) s : option TracingServiceImpl :=
  ts ← tracing_sessions_ s !! tsid;
  '(_, inst) ← data_source_instances ts !! i;
  match inst_state inst with
  | INST_STOPPED => Some s
  | st =>
      s ← (if decide (st = INST_STOPPING) then Some s else StopDataSourceInstance p tsid i false s);
      ts ← tracing_sessions_ s !! tsid;
      '(_, inst) ← data_source_instances ts !! i;
      if decide (inst_state inst = INST_STOPPING) then NotifyDataSourceStopped p (instance_id inst) s else Some s
  end.

(** The loop over the instances of a session: [n] are left, from position [i]. *)
Fixpoint unregister_loop (n : nat) (p : Z) (name : string) (tsid : Z) (i : nat) (removed : bool) s : option (TracingServiceImpl * bool) :=
  match n with
  | O => Some (s, removed)
  | S n =>
      ts ← tracing_sessions_ s !! tsid;
      '(q, inst) ← data_source_instances ts !! i;
      if bool_decide (q = p) && bool_decide (data_source_name inst = name) then
        s ← retire_instance p tsid i s;
        ts ← tracing_sessions_ s !! tsid;
        unregister_loop n p name tsid i true (upd_session tsid (set_data_source_instances (delete i (data_source_instances ts)) ts) s)
      else unregister_loop n p name tsid (S i) removed s
  end.

Definition unregister_in_session (p : Z) (name : string) (tsid : Z) s : option TracingServiceImpl :=
  ts ← tracing_sessions_ s !! tsid;
  '(s, removed) ← unregister_loop (length (data_source_instances ts)) p name tsid 0 false s;
  if removed : bool then MaybeNotifyAllDataSourcesStarted s tsid else Some s.

Fixpoint erase_registered (p : Z) (name : string) (l : list (string * RegisteredDataSource)) : list (string * RegisteredDataSource) :=
  match l with
  | [] => []
  | x :: l => if (rds_producer_id x.2 =? p) && bool_decide (d_name (descriptor x.2) = name) then l else x :: erase_registered p name l
  end.

Definition UnregisterDataSource (p : Z) (name : string) s : option TracingServiceImpl :=
  if p =? 0 then None
  else
    _ ← GetProducer s p;
    s ← for_each (unregister_in_session p name) (map_keys (tracing_sessions_ s)) s;
    Some (set_data_sources_ (erase_registered p name (data_sources_ s)) s).

Definition DisconnectProducer (p : Z) s : option TracingServiceImpl :=
  _ ← GetProducer s p;
  s ← for_each (fun tsid => ScrapeSharedMemoryBuffers tsid p) (map_keys (tracing_sessions_ s)) s;
  s ← for_each (fun x s => if rds_producer_id x.2 =? p then UnregisterDataSource p (d_name (descriptor x.2)) s else Some s) (data_sources_ s) s;
  Some (set_producers_ (delete p (producers_ s)) s).

Definition RegisterTraceWriter (p writer_id target : Z) s : option TracingServiceImpl :=
  producer ← GetProducer s p;
  Some (upd_producer p (set_writers_ (<[u16 writer_id := u16 target]> (writers_ producer)) producer) s).

Definition UnregisterTraceWriter (p writer_id : Z) s : option TracingServiceImpl :=
  producer ← GetProducer s p;
  Some (upd_producer p (set_writers_ (delete (u16 writer_id) (writers_ producer)) producer) s).
End Service.
