(* ===== verification/TracingServiceEndpoints.v ===== *)
(** * The tracing service: what clients and tasks call

    The rest of [src/tracing/service/tracing_service_impl.cc]: commits and triggers of
    producers, the calls of consumers ([ConsumerEndpointImpl]), the tasks that the service
    posted, and the service as a state machine: [service_step] is one call of a client,
    one task, or one step of the environment. *)

From S2P Require Import Prelude FilterBytecode IdAllocator TracingServiceTypes TracingService.

Definition kMaxTraceBufferID : Z := 2 ^ 16 - 1.
Definition kChunkMaxSize : Z := 1 << 16.
Definition kMaxPatches : nat := 1024.
Definition kPatchSize : nat := 4.

(** ** Requests of producers *)

(** [CommitDataRequest]: chunks to move, with their data when it comes over IPC, chunks to
    patch and the flush that is acknowledged. *)
Record ChunkToMove := mkMove { cm_page : Z; cm_chunk : Z; cm_target_buffer : Z; cm_data : option (list Z) }.
Record ChunkToPatch := mkToPatch { tp_target_buffer : Z; tp_writer_id : Z; tp_chunk_id : Z; tp_patches : list (Z * list Z); tp_has_more_patches : bool }.
Record CommitDataRequest := mkCommit { chunks_to_move : list ChunkToMove; chunks_to_patch : list ChunkToPatch; flush_request_id : Z }.

(** A chunk from the octets of a message. The size is cast to 16 bits and checked; the
    header is read from the first octets, so fewer of them are read out of bounds. *)
Definition MakeChunkFromSerializedData (data : list Z) : option SmbChunk :=
  let size := u16 (Z.of_nat (length data)) in
  if size =? 0 then None
  else if size <? 8 then None
  else
    let word := le_val (take 2 (drop 6 data)) in
    Some (mkSmbChunk true (le_val (take 2 (drop 4 data))) (le_val (take 4 data)) (word mod 2 ^ 10) (word >> 10) (take (Z.to_nat (size - 8)) (drop 8 data))).

(** [std::is_sorted]. *)
Fixpoint is_sorted (l : list Z) : bool :=
  match l with
  | a :: (b :: _) as l' => negb (b <? a) && is_sorted l'
  | _ => true
  end.

Definition string_octets (name : string) : list Z := (fun c => Z.of_N (Ascii.N_of_ascii c)) <$> String.list_ascii_of_string name.
Definition trigger_hash (name : string) : Z := Hasher.Update Hasher.kFnv1a64OffsetBasis (string_octets name).

Section Endpoints.
Context `{DataPlane}.
Implicit Types (s : TracingServiceImpl) (ts : TracingSession).

Definition move_chunk (p : Z) (m : ChunkToMove) s : option TracingServiceImpl :=
  producer ← GetProducer s p;
  '(shm_size, page_size) ← has_shm producer;
  if shm_size / page_size <=? cm_page m then Some s
  else
    let copy c := CopyProducerPageIntoLogBuffer p (sc_writer_id c) (sc_chunk_id c) (u16 (cm_target_buffer m)) (sc_packet_count c) (sc_flags c) true (sc_payload c) s in
    match cm_data m with
    | Some data =>
        if kChunkMaxSize <? Z.of_nat (length data) then Some s
        else c ← MakeChunkFromSerializedData data; copy c
    | None =>
        match list_find (fun x => x.1 = (cm_page m, cm_chunk m)) (smb producer) with
        | Some (i, (_, c)) =>
            if sc_complete c then
              s ← copy c;
              producer ← GetProducer s p;
              Some (upd_producer p (set_smb (delete i (smb producer)) producer) s)
            else Some s
        | None => Some s
        end
    end.

(** Patches of the wrong size are dropped one by one. *)
Definition apply_chunk_patches (p : Z) (chunk : ChunkToPatch) s : option TracingServiceImpl :=
  let discard n s := set_patches_discarded_ (u64 (patches_discarded_ s + Z.of_nat n)) s in
  let writer_id := u16 (tp_writer_id chunk) in
  let buffer_id := u16 (tp_target_buffer chunk) in
  match GetBufferByID s buffer_id with
  | Some buf =>
      if (writer_id =? 0) || (kMaxWriterID <? writer_id) then Some (discard (length (tp_patches chunk)) s)
      else if (kMaxPatches <? length (tp_patches chunk))%nat then Some (discard (length (tp_patches chunk)) s)
      else
        let patches := filter (fun x => length x.2 = kPatchSize) (tp_patches chunk) in
        let s := discard (length (tp_patches chunk) - length patches)%nat s in
        buf ← TryPatchChunkContents buf p writer_id (u32 (tp_chunk_id chunk)) patches (tp_has_more_patches chunk);
        Some (set_buffers_ (<[buffer_id := buf]> (buffers_ s)) s)
  | None => Some (discard (length (tp_patches chunk)) s)
  end.
Definition ApplyChunkPatches (p : Z) (chunks : list ChunkToPatch) s : option TracingServiceImpl := for_each (apply_chunk_patches p) chunks s.

Definition CommitData (p : Z) (req : CommitDataRequest) s : option TracingServiceImpl :=
  producer ← GetProducer s p;
  match has_shm producer with
  | None => Some s
  | Some _ =>
      s ← for_each (move_chunk p) (chunks_to_move req) s;
      s ← ApplyChunkPatches p (chunks_to_patch req) s;
      if negb (flush_request_id req =? 0) then NotifyFlushDoneForProducer p (flush_request_id req) s else Some s
  end.

(** ** Triggers *)

Definition PurgeExpiredAndCountTriggerInWindow (now_ns hash : Z) s : option (TracingServiceImpl * Z) :=
  let h := trigger_history_ s in
  if is_sorted h.*1 then
    let expired := filter (fun x => x.1 < now_ns - kOneDayInNs) h in
    let hits := filter (fun x => x.1 >= now_ns - kOneDayInNs /\ x.2 = hash) h in
    Some (set_trigger_history_ (drop (length expired) h) s, Z.of_nat (length hits))
  else None.

(** What a trigger does to a session that takes it. *)
Definition run_trigger (tsid : Z) (t : Trigger) (already : bool) s : option TracingServiceImpl :=
  ts ← tracing_sessions_ s !! tsid;
  let mode := GetTriggerMode (config ts) in
  if mode =? START_TRACING then
    if decide (state ts = CONFIGURED) then StartTracing tsid (upd_session tsid (set_config (set_duration_ms (stop_delay_ms t) (config ts)) ts) s) else Some s
  else if mode =? STOP_TRACING then Some (if already then s else post (TStopTrigger tsid) s)
  else if mode =? CLONE_SNAPSHOT then Some (post (TCloneTrigger tsid (tr_name t)) s)
  else Some s.

(** The trigger in a session; [skip] is the outcome of the random draw. The flag is
    [trigger_matched]. *)
Definition trigger_session (producer : Producer) (name : string) (skip : Z -> bool) (count : Z) (tsid : Z) (x : TracingServiceImpl * bool) :
    option (TracingServiceImpl * bool) :=
  let '(s, matched) := x in
  ts ← tracing_sessions_ s !! tsid;
  match list_find (fun t => tr_name t = name) (triggers (trigger_config (config ts))) with
  | None => Some (s, matched)
  | Some (_, t) =>
      if decide (state ts = CLONED_READ_ONLY) then Some (s, matched)
      else if negb (bool_decide (producer_name_regex t = EmptyString)) && negb (regex_match (p_name producer) (producer_name_regex t)) then Some (s, matched)
      else if skip tsid then Some (s, matched)
      else if (0 <? max_per_24_h t) && (max_per_24_h t <=? count) then Some (s, matched)
      else
        let info := mkTriggerInfo (boot_time_ns s) (tr_name t) (p_name producer) (p_uid producer) in
        let already := negb (bool_decide (received_triggers ts = [])) in
        s ← run_trigger tsid t already (upd_session tsid (set_received_triggers (received_triggers ts ++ [info]) ts) s);
        Some (s, true)
  end.

Definition activate_trigger (p : Z) (x : string * (Z -> bool)) s : option TracingServiceImpl :=
  producer ← GetProducer s p;
  let hash := trigger_hash x.1 in
  '(s, count) ← PurgeExpiredAndCountTriggerInWindow (boot_time_ns s) hash s;
  '(s, matched) ← for_each (trigger_session producer x.1 x.2 count) (map_keys (tracing_sessions_ s)) (s, false);
  Some (if matched : bool then set_trigger_history_ (trigger_history_ s ++ [(boot_time_ns s, hash)]) s else s).

Definition ActivateTriggers (p : Z) (names : list (string * (Z -> bool))) s : option TracingServiceImpl :=
  _ ← GetProducer s p;
  for_each (activate_trigger p) names s.

(** ** Calls of consumers *)

Definition ConnectConsumer (uid : Z) s : TracingServiceImpl :=
  let c := next_consumer s in
  send (ConsumerOnConnect c) (set_next_consumer (S c) (upd_consumer c (mkConsumer uid 0 0) s)).

Definition DisconnectConsumer (c : nat) s : option TracingServiceImpl :=
  q ← consumers_ s !! c;
  s ← (if tracing_session_id_ q =? 0 then Some s else FreeBuffers (tracing_session_id_ q) s);
  let s := set_consumers_ (delete c (consumers_ s)) s in
  if existsb (fun ts => bool_decide (consumer_maybe_null ts = Some c)) (map_values (tracing_sessions_ s)) then None else Some s.

Definition DetachConsumer (c : nat) (key : string) s : option (TracingServiceImpl * bool) :=
  q ← consumers_ s !! c;
  match GetTracingSession s (tracing_session_id_ q) with
  | None => Some (s, false)
  | Some ts =>
      found ← GetDetachedSession s (c_uid q) key;
      match found with
      | Some _ => Some (s, false)
      | None =>
          if decide (consumer_maybe_null ts = Some c) then
            let s := upd_session (tracing_session_id_ q) (set_detach_key key (set_consumer_maybe_null None ts)) s in
            Some (upd_consumer c (set_tracing_session_id_ 0 q) s, true)
          else None
      end
  end.

Definition AttachConsumer (c : nat) (key : string) s : option (TracingServiceImpl * bool) :=
  q ← consumers_ s !! c;
  if negb (tracing_session_id_ q =? 0) then Some (s, false)
  else
    found ← GetDetachedSession s (c_uid q) key;
    match found with
    | None => Some (s, false)
    | Some tsid =>
        ts ← tracing_sessions_ s !! tsid;
        let s := upd_consumer c (set_tracing_session_id_ tsid q) s in
        Some (upd_session tsid (set_detach_key EmptyString (set_consumer_maybe_null (Some c) ts)) s, true)
    end.

(** A data source of the session: its filters are replaced, and producers that now match
    and have no data source in the session yet are set up. *)
Definition change_source (tsid : Z) (updated_cfg : TraceConfig) (k : nat) s : option TracingServiceImpl :=
  ts ← tracing_sessions_ s !! tsid;
  cfg ← data_sources (config ts) !! k;
  match list_find (fun d => ds_name (ds_config d) = ds_name (ds_config cfg)) (data_sources updated_cfg) with
  | None => Some s
  | Some (_, d) =>
      let cfg := mkDataSource (ds_config cfg) (producer_name_filter d) (producer_name_regex_filter d) in
      let set_up_producers := (data_source_instances ts).*1 in
      let ts := set_config (set_data_sources (<[k := cfg]> (data_sources (config ts))) (config ts)) ts in
      for_each (fun rds s =>
          producer ← GetProducer s (rds_producer_id rds);
          if negb (NameMatchesFilter (p_name producer) (producer_name_filter d) (producer_name_regex_filter d)) then Some s
          else if bool_decide (rds_producer_id rds ∈ set_up_producers) then Some s
          else setup_registered cfg rds true tsid s)
        (registered (ds_name (ds_config cfg)) s) (upd_session tsid ts s)
  end.

Definition ChangeTraceConfig (tsid : Z) (updated_cfg : TraceConfig) s : option TracingServiceImpl :=
  ts ← GetTracingSession s tsid;
  if decide (state ts = STARTED \/ state ts = CONFIGURED) then
    for_each (change_source tsid updated_cfg) (seq 0 (length (data_sources (config ts)))) s
  else Some s.

Definition ReadBuffersIntoConsumer (tsid : Z) (c : nat) s : option (TracingServiceImpl * bool) :=
  match GetTracingSession s tsid with
  | None => Some (s, false)
  | Some ts =>
      if write_into_file ts || IsWaitingForTrigger ts then Some (s, false)
      else
        bufs ← mapM (fun b => GetBufferByID s b) (buffers_index ts);
        '(bufs, st, packets, has_more) ← ReadPackets (trace_filter ts) (compress_deflate ts) (read_state ts) bufs;
        let s := set_buffers_ (put_buffers (buffers_index ts) bufs (buffers_ s)) s in
        let s := upd_session tsid (set_read_state st (emitted has_more ts)) s in
        let s := if has_more then post (TReadBuffersIntoConsumer tsid c) s else s in
        Some (send (ConsumerOnTraceData c packets has_more) s, true)
  end.

Definition ObserveEvents (c : nat) (events_mask : Z) s : option TracingServiceImpl :=
  q ← consumers_ s !! c;
  let s := upd_consumer c (set_observable_events_mask_ events_mask q) s in
  match GetTracingSession s (tracing_session_id_ q) with
  | None => Some s
  | Some ts =>
      s ← (if negb (events_mask .& TYPE_DATA_SOURCES_INSTANCES =? 0) then
             for_each (fun x s => producer ← GetProducer s x.1; OnDataSourceInstanceStateChange s c producer x.2) (data_source_instances ts) s
           else Some s);
      if negb (events_mask .& TYPE_ALL_DATA_SOURCES_STARTED =? 0) then MaybeNotifyAllDataSourcesStarted s (tracing_session_id_ q) else Some s
  end.

(** The calls of [ConsumerEndpointImpl]. *)
Inductive ConsumerCall :=
  | CallEnableTracing (cfg : TraceConfig) (fd created : bool)
  | CallChangeTraceConfig (cfg : TraceConfig)
  | CallStartTracing
  | CallDisableTracing
  | CallReadBuffers
  | CallFreeBuffers
  | CallFlush (token : Z) (reason : FlushReason)
  | CallDetach (key : string)
  | CallAttach (key : string)
  | CallObserveEvents (mask : Z)
  | CallCloneSession (tsid : Z) (skip_trace_filter for_bugreport : bool)
  | CallDisconnect.

Definition consumer_call (c : nat) (call : ConsumerCall) s : option TracingServiceImpl :=
  q ← consumers_ s !! c;
  let tsid := tracing_session_id_ q in
  let active k := if tsid =? 0 then Some s else k in
  match call with
  | CallEnableTracing cfg fd created =>
      '(s, error) ← EnableTracing c cfg fd created s;
      match error with Some e => NotifyOnTracingDisabled s c tsid (Some e) | None => Some s end
  | CallChangeTraceConfig cfg => active (ChangeTraceConfig tsid cfg s)
  | CallStartTracing => active (StartTracing tsid s)
  | CallDisableTracing => active (DisableTracing tsid false s)
  | CallReadBuffers =>
      if tsid =? 0 then Some (send (ConsumerOnTraceData c [] false) s)
      else '(s, done) ← ReadBuffersIntoConsumer tsid c s; Some (if done : bool then s else send (ConsumerOnTraceData c [] false) s)
  | CallFreeBuffers =>
      active (s ← FreeBuffers tsid s; q ← consumers_ s !! c; Some (upd_consumer c (set_tracing_session_id_ 0 q) s))
  | CallFlush token reason => active (Flush tsid (CbConsumer c token) reason s)
  | CallDetach key => '(s, success) ← DetachConsumer c key s; Some (send (ConsumerOnDetach c success) s)
  | CallAttach key => '(s, success) ← AttachConsumer c key s; Some (post (TOnAttach c success) s)
  | CallObserveEvents mask => ObserveEvents c mask s
  | CallCloneSession id skip bugreport =>
      '(s, error) ← FlushAndCloneSession c id skip bugreport s;
      Some (match error with Some e => send (ConsumerOnSessionCloned c (Some e)) s | None => s end)
  | CallDisconnect => DisconnectConsumer c s
  end.

(** The calls of [ProducerEndpointImpl]. *)
Inductive ProducerCall :=
  | CallRegisterDataSource (desc : DataSourceDescriptor)
  | CallUpdateDataSource (desc : DataSourceDescriptor)
  | CallUnregisterDataSource (name : string)
  | CallRegisterTraceWriter (writer_id target_buffer : Z)
  | CallUnregisterTraceWriter (writer_id : Z)
  | CallCommitData (req : CommitDataRequest)
  | CallNotifyDataSourceStarted (inst_id : Z)
  | CallNotifyDataSourceStopped (inst_id : Z)
  | CallActivateTriggers (names : list (string * (Z -> bool)))
  | CallDisconnectProducer.

Definition producer_call (p : Z) (call : ProducerCall) s : option TracingServiceImpl :=
  match call with
  | CallRegisterDataSource desc => RegisterDataSource p desc s
  | CallUpdateDataSource desc => Some (UpdateDataSource p desc s)
  | CallUnregisterDataSource name => UnregisterDataSource p name s
  | CallRegisterTraceWriter w b => RegisterTraceWriter p w b s
  | CallUnregisterTraceWriter w => UnregisterTraceWriter p w s
  | CallCommitData req => CommitData p req s
  | CallNotifyDataSourceStarted id => NotifyDataSourceStarted p id s
  | CallNotifyDataSourceStopped id => NotifyDataSourceStopped p id s
  | CallActivateTriggers names => ActivateTriggers p names s
  | CallDisconnectProducer => DisconnectProducer p s
  end.

(** ** Tasks *)

Definition run_task (t : Task) s : option TracingServiceImpl :=
  match t with
  | TStartTriggersTimeout tsid => OnStartTriggersTimeout tsid s
  | TStopOnDurationMsExpiry tsid => StopOnDurationMsExpiry tsid s
  | TStopTrigger tsid => match GetTracingSession s tsid with Some _ => FlushAndDisableTracing tsid s | None => Some s end
  | TCloneTrigger tsid name =>
      match GetTracingSession s tsid with
      | Some ts => match consumer_maybe_null ts with Some c => NotifyCloneSnapshotTrigger s c name | None => Some s end
      | None => Some s
      end
  | TReadBuffersIntoFile tsid => ReadBuffersIntoFile tsid s
  | TPeriodicFlush tsid => PeriodicFlushTask tsid false s
  | TPeriodicClearIncrementalState tsid => PeriodicClearIncrementalStateTask tsid false s
  | TAllDataSourceStartedTimeout tsid => Some (OnAllDataSourceStartedTimeout tsid s)
  | TDisableTracingTimeout tsid => OnDisableTracingTimeout tsid s
  | TFlushTimeout tsid id reason => OnFlushTimeout tsid id reason s
  | TCompleteFlush tsid callback success => CompleteFlush tsid callback success s
  | TReadBuffersIntoConsumer tsid c =>
      match consumers_ s !! c with Some _ => fst <$> ReadBuffersIntoConsumer tsid c s | None => Some s end
  | TOnAttach c success =>
      Some (match consumers_ s !! c with
            | Some q => send (ConsumerOnAttach c (success && bool_decide (is_Some (GetTracingSession s (tracing_session_id_ q))))) s
            | None => s
            end)
  | TOnSessionCloned c =>
      Some (match consumers_ s !! c with Some _ => send (ConsumerOnSessionCloned c (Some OriginalSessionEnded)) s | None => s end)
  end.

(** ** The service *)

(** A service of a uid, with nothing connected. *)
Definition TracingServiceImpl_new (uid : Z) (scraping : bool) : option TracingServiceImpl :=
  ids ← IdAllocator_new kMaxTraceBufferID;
  Some (mkService false scraping uid 0 0 0 0 ids [] ∅ ∅ 0 ∅ ∅ ∅ [] 0 0 0 0 [] []).

(** A step: a client connects or calls, a task or the periodic snapshot of a session runs,
    time passes, memory is given or taken, or a producer changes its shared memory buffer. *)
Inductive ServiceOp :=
  | OpConnectProducer (identity : ClientIdentity) (name : string) (size_hint page_hint : Z) (scraping : option bool) (shm : option Z)
  | OpProducer (p : Z) (call : ProducerCall)
  | OpConnectConsumer (uid : Z)
  | OpConsumer (c : nat) (call : ConsumerCall)
  | OpTask (i : nat)
  | OpSnapshot (tsid : Z)
  | OpTime (boot_time_ns : Z)
  | OpMemory (bytes : Z)
  | OpSmb (p : Z) (chunks : list ((Z * Z) * SmbChunk)).

(** Calls of clients that are not connected do not arrive. *)
Definition service_step (o : ServiceOp) s : option TracingServiceImpl :=
  match o with
  | OpConnectProducer identity name size_hint page_hint scraping shm => fst <$> ConnectProducer identity name size_hint page_hint scraping shm s
  | OpProducer p call => match producers_ s !! p with Some _ => producer_call p call s | None => Some s end
  | OpConnectConsumer uid => Some (ConnectConsumer uid s)
  | OpConsumer c call => match consumers_ s !! c with Some _ => consumer_call c call s | None => Some s end
  | OpTask i => match tasks s !! i with Some t => run_task t (set_tasks (delete i (tasks s)) s) | None => Some s end
  | OpSnapshot tsid =>
      Some (match GetTracingSession s tsid with Some ts => if snapshot_running ts then PeriodicSnapshotTask tsid s else s | None => s end)
  | OpTime now => Some (set_boot_time_ns now s)
  | OpMemory bytes => Some (set_memory_left bytes s)
  | OpSmb p chunks => Some (match producers_ s !! p with Some q => upd_producer p (set_smb chunks q) s | None => s end)
  end.
Definition service_run (ops : list ServiceOp) s : option TracingServiceImpl := for_each service_step ops s.
End Endpoints.
