(* ===== verification/TracingServiceOk.v ===== *)
(** * The tracing service: its invariant

    What the tables of the service have to do with each other, and which steps change a
    single session only. [core] relates sessions, buffers, identifiers, consumers,
    producers, tasks and the callbacks of clone operations; [inst_ok] relates the state of
    a session and those of its data sources. [frame t] holds of steps that change only
    session [t], and [core_frame] says that they keep [core]. *)

From S2P Require Import Prelude IdAllocator TracingServiceTypes TracingService TracingServiceEndpoints.

(** ** What the service relies on *)

Definition size_ok (n : Z) : Prop := 0 < n <= 2 ^ 32 - 1 /\ n mod 1024 = 0.

Definition chunk_ok (c : SmbChunk) : Prop :=
  is_u16 (sc_writer_id c) /\ is_u32 (sc_chunk_id c) /\ is_u16 (sc_packet_count c) /\ is_u8 (sc_flags c) /\ Z.of_nat (length (sc_payload c)) < 2 ^ 63 /\
  bytes_ok (sc_payload c).

(** Trace buffers have an invariant; operations on a buffer that is not read-only succeed,
    and a patch of one that is fails a check. *)
Class DataPlaneOk (D : DataPlane) := {
  buf_ok : Buf -> Prop;
  dp_size b : buf_ok b -> size_ok (buf_size b);
  dp_create n discard : size_ok n -> exists b, Create n discard = Some b /\ buf_ok b /\ read_only b = false;
  dp_clone b : buf_ok b -> exists b', CloneReadOnly b = Some b' /\ buf_ok b';
  dp_read_only b : buf_ok b -> buf_ok (set_read_only b);
  dp_copy b p ci c complete :
    buf_ok b -> read_only b = false -> is_u16 p -> client_ok ci -> chunk_ok c ->
    exists b', CopyChunkUntrusted b p ci (sc_writer_id c) (sc_chunk_id c) (sc_packet_count c) (sc_flags c) complete (sc_payload c) = Some b' /\
      buf_ok b' /\ read_only b' = false;
  dp_patch b p w chunk patches more :
    buf_ok b -> read_only b = false -> Forall (fun x => is_u64 x.1 /\ length x.2 = kPatchSize /\ bytes_ok x.2) patches ->
    exists b', TryPatchChunkContents b p w chunk patches more = Some b' /\ buf_ok b' /\ read_only b' = false;
  dp_patch_read_only b p w chunk patches more : read_only b = true -> TryPatchChunkContents b p w chunk patches more = None;
  filter_ok : Filter -> Prop;
  filter_config_ok : FilterConfig -> Prop;
  dp_load cfg : filter_config_ok cfg -> exists o, LoadFilter cfg = Some o /\ forall f, o = Some f -> filter_ok f;
  dp_read_file o z max st written bufs :
    Forall buf_ok bufs -> Z.of_nat (length bufs) <= kMaxTraceBufferID -> (forall f, o = Some f -> filter_ok f) ->
    exists bufs' st' written' stop more, ReadIntoFile o z max st written bufs = Some (bufs', st', written', stop, more) /\
      Forall2 (fun b b' => buf_ok b' /\ read_only b' = read_only b) bufs bufs';
  dp_read_packets o z st bufs :
    Forall buf_ok bufs -> (forall f, o = Some f -> filter_ok f) ->
    exists bufs' st' packets more, ReadPackets o z st bufs = Some (bufs', st', packets, more) /\
      Forall2 (fun b b' => buf_ok b' /\ read_only b' = read_only b) bufs bufs' }.

(** The timestamps of triggers are in order and not in the future. *)
Definition history_ok (now : Z) (h : list (Z * Z)) : Prop := is_sorted h.*1 = true /\ Forall (fun x => x.1 <= now) h.

(** ** States of sessions and of their data sources *)

Definition inst_ok (st : SessionState) (l : list DataSourceInstanceState) : Prop :=
  match st with
  | CONFIGURED => Forall (fun x => x = INST_CONFIGURED) l
  | STARTED => Forall (fun x => x = INST_STARTING \/ x = INST_STARTED) l
  | DISABLING_WAITING_STOP_ACKS => Forall (fun x => x = INST_STOPPING \/ x = INST_STOPPED) l /\ INST_STOPPING ∈ l
  | DISABLED => Forall (fun x => x = INST_STOPPED) l
  | CLONED_READ_ONLY => l = []
  end.

Section Ok.
Context {D : DataPlane} {DOk : DataPlaneOk D}.
Implicit Types (s : TracingServiceImpl) (ts : TracingSession).

Definition states ts : list DataSourceInstanceState := (fun x => inst_state x.2) <$> data_source_instances ts.

(** The producer, the data source and the identifier of each instance. *)
Definition keys ts : list (Z * string * Z) := (fun x => (x.1, data_source_name x.2, instance_id x.2)) <$> data_source_instances ts.

(** ** Callbacks of clone operations *)

Definition task_cb (t : Task) : option FlushCallback := match t with TCompleteFlush _ cb _ => Some cb | _ => None end.

(** The buffers of a callback that belongs to a clone operation. *)
Definition clone_bufs (t id : Z) (cb : FlushCallback) : option (list Z) :=
  match cb with CbClone t' id' bufs => if (t' =? t) && (id' =? id) then Some bufs else None | _ => None end.

Definition outstanding (extra : list FlushCallback) s (t id : Z) ts : list (list Z) :=
  omap (clone_bufs t id) (extra ++ omap task_cb (tasks s) ++ ((fun x => pf_callback x.2) <$> pending_flushes ts)).

(** A clone operation counts the callbacks to come, and has a copy of the buffers that
    none of them is for. *)
Record clone_ok (out : list (list Z)) (idx : list Z) (op : PendingClone) : Prop := {
  cl_cnt : pending_flush_cnt op = Z.of_nat (length out);
  cl_small : (length out <= 2)%nat;
  cl_len : length (pc_buffers op) = length idx;
  cl_bufs : Forall (fun o => match o with Some b => buf_ok b | None => True end) (pc_buffers op);
  cl_done : forall i b, idx !! i = Some b -> (exists x, pc_buffers op !! i = Some (Some x)) \/ exists bufs, bufs ∈ out /\ b ∈ bufs }.

(** ** The invariant *)

Record session_ok (extra : list FlushCallback) s (t : Z) ts : Prop := {
  so_id : 0 < t <= last_tracing_session_id_ s;
  so_consumer : forall c, consumer_maybe_null ts = Some c ->
    detach_key ts = EmptyString /\ exists q, consumers_ s !! c = Some q /\ tracing_session_id_ q = t;
  so_nodup : NoDup (buffers_index ts);
  so_len : length (buffers_index ts) = length (buffers (config ts));
  so_bufs : forall b, b ∈ buffers_index ts ->
    exists buf, buffers_ s !! b = Some buf /\ (state ts <> CLONED_READ_ONLY -> read_only buf = false);
  so_insts : forall k, k ∈ keys ts -> is_Some (producers_ s !! k.1.1) /\
    exists r, r ∈ data_sources_ s /\ rds_producer_id r.2 = k.1.1 /\ d_name (descriptor r.2) = k.1.2;
  so_ids : NoDup (keys ts).*2 /\ Forall (fun k => k.2 <= last_data_source_instance_id_ s) (keys ts);
  so_period : state ts = CONFIGURED -> cfg_write_into_file (config ts) = true -> 0 < write_period_ms ts;
  so_flushes : forall f t' id bufs, f ∈ pending_flushes ts -> pf_callback f.2 = CbClone t' id bufs -> t' = t /\ id < last_pending_clone_id_ ts;
  so_clones : forall id op, pending_clones ts !! id = Some op ->
    id < last_pending_clone_id_ ts /\ clone_ok (outstanding extra s t id ts) (buffers_index ts) op;
  so_filter : forall f, trace_filter ts = Some f -> filter_ok f }.

Record producer_ok s (p : Z) (q : Producer) : Prop := {
  po_id : 1 <= p <= kMaxProducerID;
  po_allowed : forall b, b ∈ allowed_target_buffers_ q ->
    exists t ts, tracing_sessions_ s !! t = Some ts /\ b ∈ buffers_index ts /\ state ts <> CLONED_READ_ONLY;
  po_data : client_ok (p_identity q) /\ Forall (fun x => chunk_ok x.2) (smb q) }.

Definition task_ok s (t : Task) : Prop :=
  match t with
  | TReadBuffersIntoFile t => t <= last_tracing_session_id_ s /\ forall ts, tracing_sessions_ s !! t = Some ts -> state ts <> CONFIGURED
  | TPeriodicFlush t => t <= last_tracing_session_id_ s /\ forall ts, tracing_sessions_ s !! t = Some ts -> flush_period_ms (config ts) <> 0
  | TPeriodicClearIncrementalState t =>
      t <= last_tracing_session_id_ s /\ forall ts, tracing_sessions_ s !! t = Some ts -> clear_period_ms (config ts) <> 0
  | _ => True
  end.

(** [extra] are callbacks in flight. *)
Record core (extra : list FlushCallback) s : Prop := {
  co_session : forall t ts, tracing_sessions_ s !! t = Some ts -> session_ok extra s t ts;
  co_disjoint : forall t1 t2 ts1 ts2 b, tracing_sessions_ s !! t1 = Some ts1 -> tracing_sessions_ s !! t2 = Some ts2 ->
    b ∈ buffers_index ts1 -> b ∈ buffers_index ts2 -> t1 = t2;
  co_uses : uses (buffer_ids_ s) (dom (buffers_ s));
  co_max : max_id_ (buffer_ids_ s) = kMaxTraceBufferID;
  co_owned : forall b buf, buffers_ s !! b = Some buf ->
    buf_ok buf /\ exists t ts, tracing_sessions_ s !! t = Some ts /\ b ∈ buffers_index ts;
  co_consumer : forall c q, consumers_ s !! c = Some q -> (c < next_consumer s)%nat /\
    (tracing_session_id_ q = 0 \/ exists ts, tracing_sessions_ s !! tracing_session_id_ q = Some ts /\ consumer_maybe_null ts = Some c);
  co_producer : forall p q, producers_ s !! p = Some q -> producer_ok s p q;
  co_sources : forall x, x ∈ data_sources_ s -> is_Some (producers_ s !! rds_producer_id x.2);
  co_tasks : Forall (task_ok s) (tasks s);
  co_cbs : forall t id bufs, CbClone t id bufs ∈ extra ++ omap task_cb (tasks s) ->
    t <= last_tracing_session_id_ s /\ forall ts, tracing_sessions_ s !! t = Some ts -> id < last_pending_clone_id_ ts;
  co_history : history_ok (boot_time_ns s) (trigger_history_ s);
  co_last_producer : 0 <= last_producer_id_ s < 2 ^ 16;
  co_last : 0 <= last_tracing_session_id_ s;
  co_named : forall x, x ∈ data_sources_ s -> x.1 = d_name (descriptor x.2) }.

(** Every session but those of [X] agrees with its data sources. *)
Definition steady (X : gset Z) s : Prop :=
  forall t ts, t ∉ X -> tracing_sessions_ s !! t = Some ts -> inst_ok (state ts) (states ts).

Definition ok s : Prop := core [] s /\ steady ∅ s.

(** ** Steps of a single session *)

Definition buf_evolves (b b' : Buf) : Prop := buf_ok b -> buf_ok b' /\ (read_only b = false -> read_only b' = false).

Record config_frame (c c' : TraceConfig) : Prop := {
  cf_buffers : buffers c' = buffers c;
  cf_flush : flush_period_ms c' = flush_period_ms c;
  cf_clear : clear_period_ms c' = clear_period_ms c;
  cf_write : cfg_write_into_file c' = cfg_write_into_file c;
  cf_sources : length (data_sources c') = length (data_sources c) }.

Record sess_frame ts ts' : Prop := {
  sf_consumer : consumer_maybe_null ts' = consumer_maybe_null ts;
  sf_uid : consumer_uid ts' = consumer_uid ts;
  sf_index : buffers_index ts' = buffers_index ts;
  sf_key : detach_key ts' = detach_key ts;
  sf_config : config_frame (config ts) (config ts');
  sf_flushes : pending_flushes ts' = pending_flushes ts;
  sf_clones : pending_clones ts' = pending_clones ts;
  sf_last : last_pending_clone_id_ ts' = last_pending_clone_id_ ts;
  sf_keys : keys ts' `sublist_of` keys ts;
  sf_configured : state ts' = CONFIGURED -> state ts = CONFIGURED /\ write_period_ms ts' = write_period_ms ts;
  sf_cloned : state ts' = CLONED_READ_ONLY <-> state ts = CLONED_READ_ONLY;
  sf_filter : trace_filter ts' = trace_filter ts }.

Record frame (t : Z) s s' : Prop := {
  fr_consumers : consumers_ s' = consumers_ s;
  fr_next : next_consumer s' = next_consumer s;
  fr_producers : producers_ s' = producers_ s;
  fr_sources : data_sources_ s' = data_sources_ s;
  fr_ids : buffer_ids_ s' = buffer_ids_ s;
  fr_last : last_tracing_session_id_ s' = last_tracing_session_id_ s;
  fr_last_inst : last_data_source_instance_id_ s <= last_data_source_instance_id_ s';
  fr_last_producer : last_producer_id_ s' = last_producer_id_ s;
  fr_history : trigger_history_ s' = trigger_history_ s;
  fr_time : boot_time_ns s' = boot_time_ns s;
  fr_others : forall t', t' <> t -> tracing_sessions_ s' !! t' = tracing_sessions_ s !! t';
  fr_self : option_Forall2 sess_frame (tracing_sessions_ s !! t) (tracing_sessions_ s' !! t);
  fr_bufs : forall b, option_Forall2 buf_evolves (buffers_ s !! b) (buffers_ s' !! b);
  fr_tasks : Forall (task_ok s) (tasks s) -> Forall (task_ok s') (tasks s');
  fr_cbs : omap task_cb (tasks s') = omap task_cb (tasks s) }.

Lemma config_frame_refl c : config_frame c c.
Proof. done. Qed.

Lemma sess_frame_refl ts : sess_frame ts ts.
Proof. split; done. Qed.

Lemma sess_frame_trans a b c : sess_frame a b -> sess_frame b c -> sess_frame a c.
Proof.
  intros [] []. split; try congruence; try tauto.
  - destruct sf_config0, sf_config1. split; congruence.
  - by etrans.
  - intros E. destruct (sf_configured1 E) as [E1 ->]. by apply sf_configured0.
Qed.

Lemma buf_evolves_refl b : buf_evolves b b.
Proof. done. Qed.

Lemma option_Forall2_refl' {A} (R : A -> A -> Prop) (o : option A) : (forall x, R x x) -> option_Forall2 R o o.
Proof. destruct o; by constructor. Qed.

Lemma frame_refl t s : frame t s s.
Proof. split; try done; [|intros b]; apply option_Forall2_refl'; [exact sess_frame_refl|exact buf_evolves_refl]. Qed.

Lemma frame_trans t a b c : frame t a b -> frame t b c -> frame t a c.
Proof.
  intros H1 H2. destruct H1, H2. split; try congruence; try tauto; try lia.
  - intros t' Ht. rewrite fr_others1, fr_others0 by done. done.
  - destruct fr_self0; inversion fr_self1; subst; constructor. by eapply sess_frame_trans.
  - intros x. specialize (fr_bufs0 x). specialize (fr_bufs1 x). destruct fr_bufs0 as [? ? Hx|]; inversion fr_bufs1 as [? ? Hy|]; subst; constructor.
    intros Ho. destruct (Hx Ho) as [Ho' Hr]. destruct (Hy Ho'). tauto.
Qed.

Lemma GetTracingSession_core extra s t : core extra s -> GetTracingSession s t = tracing_sessions_ s !! t.
Proof.
  intros HC. unfold GetTracingSession. destruct (Z.eqb_spec t 0) as [->|]; [|done].
  destruct (tracing_sessions_ s !! 0) as [ts|] eqn:E; [|done]. destruct (so_id _ _ _ _ (co_session _ _ HC 0 ts E)). lia.
Qed.

Lemma frame_session t s s' t' ts' :
  frame t s s' -> tracing_sessions_ s' !! t' = Some ts' -> exists ts, tracing_sessions_ s !! t' = Some ts /\ sess_frame ts ts'.
Proof.
  intros Hf E. destruct (decide (t' = t)) as [->|Hne].
  - pose proof (fr_self _ _ _ Hf) as Hs. rewrite E in Hs. inversion Hs; subst. eauto.
  - rewrite (fr_others _ _ _ Hf) in E by done. exists ts'. split; [done|apply sess_frame_refl].
Qed.

Lemma frame_session_fwd t s s' t' ts :
  frame t s s' -> tracing_sessions_ s !! t' = Some ts -> exists ts', tracing_sessions_ s' !! t' = Some ts' /\ sess_frame ts ts'.
Proof.
  intros Hf E. destruct (decide (t' = t)) as [->|Hne].
  - pose proof (fr_self _ _ _ Hf) as Hs. rewrite E in Hs. inversion Hs; subst. eauto.
  - exists ts. rewrite (fr_others _ _ _ Hf) by done. split; [done|apply sess_frame_refl].
Qed.

Lemma frame_buf t s s' b buf' :
  frame t s s' -> buffers_ s' !! b = Some buf' -> exists buf, buffers_ s !! b = Some buf /\ buf_evolves buf buf'.
Proof. intros Hf E. pose proof (fr_bufs _ _ _ Hf b) as Hb. rewrite E in Hb. inversion Hb; subst. eauto. Qed.

Lemma frame_buf_fwd t s s' b buf :
  frame t s s' -> buffers_ s !! b = Some buf -> exists buf', buffers_ s' !! b = Some buf' /\ buf_evolves buf buf'.
Proof. intros Hf E. pose proof (fr_bufs _ _ _ Hf b) as Hb. rewrite E in Hb. inversion Hb; subst. eauto. Qed.

Lemma frame_dom t s s' : frame t s s' -> dom (buffers_ s') = dom (buffers_ s).
Proof.
  intros Hf. apply set_eq. intros b. rewrite !elem_of_dom. split; intros [x E].
  - destruct (frame_buf _ _ _ _ _ Hf E) as (? & -> & _). done.
  - destruct (frame_buf_fwd _ _ _ _ _ Hf E) as (? & -> & _). done.
Qed.

Lemma outstanding_frame extra t s s' t' id ts ts' :
  frame t s s' -> sess_frame ts ts' -> outstanding extra s' t' id ts' = outstanding extra s t' id ts.
Proof. intros Hf Hs. unfold outstanding. by rewrite (fr_cbs _ _ _ Hf), (sf_flushes _ _ Hs). Qed.

Lemma session_ok_frame extra t s s' t' ts ts' :
  (forall b buf, buffers_ s !! b = Some buf -> buf_ok buf) -> frame t s s' -> sess_frame ts ts' -> session_ok extra s t' ts -> session_ok extra s' t' ts'.
Proof.
  intros Hbo Hf Hs [H1 H2 H3 H4 H5 H6 H6' H7 H8 H9 H10]. split.
  - by rewrite (fr_last _ _ _ Hf).
  - intros c. rewrite (sf_consumer _ _ Hs), (sf_key _ _ Hs), (fr_consumers _ _ _ Hf). apply H2.
  - by rewrite (sf_index _ _ Hs).
  - by rewrite (sf_index _ _ Hs), (cf_buffers _ _ (sf_config _ _ Hs)).
  - intros b. rewrite (sf_index _ _ Hs). intros Hb. destruct (H5 b Hb) as (buf & E & Hr).
    destruct (frame_buf_fwd _ _ _ _ _ Hf E) as (buf' & E' & Hev). exists buf'. split; [done|]. intros Hc.
    apply (Hev (Hbo _ _ E)), Hr. by rewrite <- (sf_cloned _ _ Hs).
  - intros k Hk. rewrite (fr_producers _ _ _ Hf), (fr_sources _ _ _ Hf). apply H6. by eapply elem_of_sublist, (sf_keys _ _ Hs).
  - destruct H6' as [Hn Hl]. pose proof (sf_keys _ _ Hs) as Hk. split.
    + eapply sublist_NoDup; [exact Hn|]. by apply fmap_sublist.
    + apply Forall_forall. intros k Hin. pose proof (fr_last_inst _ _ _ Hf). rewrite Forall_forall in Hl.
      assert (Hx : k ∈ keys ts) by (by eapply elem_of_sublist). specialize (Hl k Hx). lia.
  - intros Hc. destruct (sf_configured _ _ Hs Hc) as [Hc' ->]. rewrite (cf_write _ _ (sf_config _ _ Hs)). by apply H7.
  - rewrite (sf_flushes _ _ Hs), (sf_last _ _ Hs). apply H8.
  - intros id op. rewrite (sf_clones _ _ Hs), (sf_last _ _ Hs), (sf_index _ _ Hs), (outstanding_frame extra t s s' t' id ts ts' Hf Hs). apply H9.
  - by rewrite (sf_filter _ _ Hs).
Qed.

Lemma core_frame extra t s s' : core extra s -> frame t s s' -> core extra s'.
Proof.
  intros HC Hf. pose proof HC as [H1 H2 H3 H4 H5 H6 H7 H8 H9 H10 H11 H12 H13 H14]. split.
  - intros t' ts' E. destruct (frame_session _ _ _ _ _ Hf E) as (ts & E0 & Hs). apply (session_ok_frame extra t s s' t' ts ts'); auto.
    intros b buf Eb. by destruct (H5 b buf Eb).
  - intros t1 t2 ts1' ts2' b E1 E2. destruct (frame_session _ _ _ _ _ Hf E1) as (ts1 & E1' & Hs1). destruct (frame_session _ _ _ _ _ Hf E2) as (ts2 & E2' & Hs2).
    rewrite (sf_index _ _ Hs1), (sf_index _ _ Hs2). by apply H2.
  - by rewrite (fr_ids _ _ _ Hf), (frame_dom _ _ _ Hf).
  - by rewrite (fr_ids _ _ _ Hf).
  - intros b buf' E. destruct (frame_buf _ _ _ _ _ Hf E) as (buf & E0 & Hev). destruct (H5 b buf E0) as (Ho & t' & ts & Et & Hb).
    split; [by apply Hev|]. destruct (frame_session_fwd _ _ _ _ _ Hf Et) as (ts' & Et' & Hs). exists t', ts'. by rewrite (sf_index _ _ Hs).
  - intros c q. rewrite (fr_consumers _ _ _ Hf), (fr_next _ _ _ Hf). intros E. destruct (H6 c q E) as [Hn [Hz|(ts & Et & Hc)]]; split; auto.
    right. destruct (frame_session_fwd _ _ _ _ _ Hf Et) as (ts' & Et' & Hs). exists ts'. by rewrite (sf_consumer _ _ Hs).
  - intros p q. rewrite (fr_producers _ _ _ Hf). intros E. destruct (H7 p q E) as [P1 P2 P3]. split; auto.
    intros b Hb. destruct (P2 b Hb) as (t' & ts & Et & Hi & Hc). destruct (frame_session_fwd _ _ _ _ _ Hf Et) as (ts' & Et' & Hs).
    exists t', ts'. rewrite (sf_index _ _ Hs), (sf_cloned _ _ Hs). done.
  - rewrite (fr_sources _ _ _ Hf), (fr_producers _ _ _ Hf). done.
  - by apply (fr_tasks _ _ _ Hf).
  - rewrite (fr_cbs _ _ _ Hf), (fr_last _ _ _ Hf). intros t' id bufs Hin. destruct (H10 t' id bufs Hin) as [Hl Hx]. split; [done|].
    intros ts' E. destruct (frame_session _ _ _ _ _ Hf E) as (ts & E0 & Hs). rewrite (sf_last _ _ Hs). by apply Hx.
  - by rewrite (fr_history _ _ _ Hf), (fr_time _ _ _ Hf).
  - by rewrite (fr_last_producer _ _ _ Hf).
  - by rewrite (fr_last _ _ _ Hf).
  - by rewrite (fr_sources _ _ _ Hf).
Qed.

Lemma steady_frame t X s s' : frame t s s' -> t ∈ X -> steady X s -> steady X s'.
Proof. intros Hf Ht Hs t' ts Hn E. apply (Hs t' ts Hn). rewrite <- (fr_others _ _ _ Hf); [done|]. by intros ->. Qed.

Lemma steady_close t s ts : steady {[t]} s -> tracing_sessions_ s !! t = Some ts -> inst_ok (state ts) (states ts) -> steady ∅ s.
Proof.
  intros Hs E Hi t' ts' _ E'. destruct (decide (t' = t)) as [->|Hne]; [by simplify_eq|]. apply (Hs t' ts'); [set_solver|done].
Qed.

Lemma steady_weaken X Y s : X ⊆ Y -> steady X s -> steady Y s.
Proof. intros Hi Hs t ts Hn. apply Hs. set_solver. Qed.
End Ok.
