(* ===== verification/TracingServiceSession.v ===== *)
(** * The tracing service: steps of one session

    Starting and stopping of data sources, scraping, draining into a file, disabling and
    starting: each of them returns, changes one session only, and leaves that session
    in agreement with its data sources. *)

From stdpp Require Import sorting.
From S2P Require Import Prelude IdAllocator TracingServiceTypes TracingService TracingServiceEndpoints TracingServiceOk.

(** Steps that change none of the tables that [frame] is about. *)
(** Sessions that differ in fields [sess_frame] is not about. *)
Ltac sess_id ts := let Hf := fresh in pose proof (sess_frame_refl ts) as Hf; destruct Hf; split; try assumption.

Ltac frame_id t s := let Hf := fresh in pose proof (frame_refl t s) as Hf; destruct Hf; split; assumption.

Section Session.
Context {D : DataPlane} {DOk : DataPlaneOk D}.
Implicit Types (s : TracingServiceImpl) (ts : TracingSession).

(** ** Frames *)

Lemma frame_upd t s ts ts' : tracing_sessions_ s !! t = Some ts -> sess_frame ts ts' -> frame t s (upd_session t ts' s).
Proof.
  intros E Hs. pose proof (frame_refl t s) as Hf. destruct Hf. split; try assumption; cbn.
  - intros t' Hne. by rewrite lookup_insert_ne.
  - rewrite lookup_insert_eq, E. by constructor.
  - intros Ha. eapply Forall_impl; [exact Ha|]. intros [] Ht; try done; (destruct Ht as [Hl Ht]; split; [done|]; intros ts0; cbn; rewrite lookup_insert_Some; intros [[<- <-]|[_ E0]]; [|by apply Ht]).
    + intros Hc. apply (Ht ts E). by apply (sf_configured _ _ Hs).
    + rewrite (cf_flush _ _ (sf_config _ _ Hs)). by apply Ht.
    + rewrite (cf_clear _ _ (sf_config _ _ Hs)). by apply Ht.
Qed.

Lemma frame_post t s task : task_cb task = None -> task_ok s task -> frame t s (post task s).
Proof.
  intros Hc Ht. pose proof (frame_refl t s) as Hf. destruct Hf. split; try assumption; cbn.
  - intros Ha. apply Forall_app. split; [exact Ha|by apply Forall_singleton].
  - rewrite omap_app. cbn. by rewrite Hc, app_nil_r.
Qed.

Lemma frame_sent t s m : frame t s (set_sent m s).
Proof. frame_id t s. Qed.

Lemma frame_buffers t s m : (forall b, option_Forall2 buf_evolves (buffers_ s !! b) (m !! b)) -> frame t s (set_buffers_ m s).
Proof. intros Hb. pose proof (frame_refl t s) as Hf. destruct Hf. split; assumption. Qed.

Lemma frame_memory t s n : frame t s (set_memory_left n s).
Proof. frame_id t s. Qed.

Lemma frame_insert_buf t s b buf buf' : buffers_ s !! b = Some buf -> buf_evolves buf buf' -> frame t s (set_buffers_ (<[b := buf']> (buffers_ s)) s).
Proof.
  intros E Hev. apply frame_buffers. intros x. destruct (decide (x = b)) as [->|Hne].
  - rewrite lookup_insert_eq, E. by constructor.
  - rewrite lookup_insert_ne by done. by apply option_Forall2_refl'.
Qed.

(** ** Runs *)

(** [r] returns, from [s], a state that differs in session [t], of which [Q] holds. *)
Definition keeps (t : Z) (r : option TracingServiceImpl) s (Q : TracingSession -> Prop) : Prop :=
  exists s' ts', r = Some s' /\ frame t s s' /\ tracing_sessions_ s' !! t = Some ts' /\ Q ts'.

Lemma keeps_ret t s s' ts (Q : TracingSession -> Prop) : frame t s s' -> tracing_sessions_ s' !! t = Some ts -> Q ts -> keeps t (Some s') s Q.
Proof. intros. by exists s', ts. Qed.

Lemma keeps_bind t r f s (Q Q' : TracingSession -> Prop) :
  keeps t r s Q -> (forall s' ts', frame t s s' -> tracing_sessions_ s' !! t = Some ts' -> Q ts' -> keeps t (f s') s' Q') -> keeps t (r ≫= f) s Q'.
Proof.
  intros (s1 & ts1 & -> & F1 & E1 & H1) Hf. cbn. destruct (Hf s1 ts1 F1 E1 H1) as (s2 & ts2 & -> & F2 & E2 & H2).
  exists s2, ts2. split; [done|]. split; [by eapply frame_trans|done].
Qed.

Lemma keeps_from t r s s' (Q : TracingSession -> Prop) : frame t s s' -> keeps t r s' Q -> keeps t r s Q.
Proof. intros F (s2 & ts2 & -> & F2 & H2). exists s2, ts2. split; [done|]. split; [by eapply frame_trans|done]. Qed.

Lemma keeps_weaken t r s (Q Q' : TracingSession -> Prop) : keeps t r s Q -> (forall ts, Q ts -> Q' ts) -> keeps t r s Q'.
Proof. intros (s2 & ts2 & -> & F2 & E & H2) Hq. exists s2, ts2. auto. Qed.

(** Loops; [s0] is the state before the loop. *)
Lemma keeps_for_each {A} extra t (f : A -> TracingServiceImpl -> option TracingServiceImpl) (I : TracingSession -> Prop) s0 l :
  core extra s0 ->
  (forall x s ts, x ∈ l -> core extra s -> frame t s0 s -> tracing_sessions_ s !! t = Some ts -> I ts -> keeps t (f x s) s I) ->
  forall s ts, frame t s0 s -> tracing_sessions_ s !! t = Some ts -> I ts -> keeps t (for_each f l s) s I.
Proof.
  intros HC. induction l as [|x l IH]; intros Hf s ts F E HI; [apply (keeps_ret t s s ts); [apply frame_refl|done..]|].
  cbn [for_each]. apply (keeps_bind _ _ _ _ I); [apply (Hf x s ts); [left|by eapply core_frame|done..]|].
  intros s' ts' F' E' H'. apply (IH ltac:(intros; apply (Hf _ _ ts0); [by right|done..]) s' ts'); [by eapply frame_trans|done..].
Qed.

Lemma keeps_for_seq extra t (f : nat -> TracingServiceImpl -> option TracingServiceImpl) (I : nat -> TracingSession -> Prop) s0 n :
  core extra s0 -> forall k,
  (forall i s ts, (k <= i < k + n)%nat -> core extra s -> frame t s0 s -> tracing_sessions_ s !! t = Some ts -> I i ts -> keeps t (f i s) s (I (S i))) ->
  forall s ts, frame t s0 s -> tracing_sessions_ s !! t = Some ts -> I k ts -> keeps t (for_each f (seq k n) s) s (I (k + n)%nat).
Proof.
  intros HC. induction n as [|n IH]; intros k Hf s ts F E HI; [rewrite Nat.add_0_r; apply (keeps_ret t s s ts); [apply frame_refl|done..]|].
  cbn [seq for_each]. apply (keeps_bind _ _ _ _ (I (S k))); [apply (Hf k s ts); [lia|by eapply core_frame|done..]|].
  intros s' ts' F' E' H'. replace (k + S n)%nat with (S k + n)%nat by lia.
  apply (IH (S k) ltac:(intros i s1 ts1 Hi; apply Hf; lia) s' ts'); [by eapply frame_trans|done..].
Qed.

(** ** Instances *)

Lemma states_set_instance i inst ts :
  (i < length (data_source_instances ts))%nat -> states (set_instance i inst ts) = <[i := inst_state inst]> (states ts).
Proof.
  intros Hi. unfold states, set_instance. cbn. apply list_eq. intros j. rewrite list_lookup_fmap. destruct (decide (j = i)) as [->|Hne].
  - rewrite list_lookup_alter_eq, list_lookup_insert_eq by (by rewrite length_fmap). apply lookup_lt_is_Some_2 in Hi as [x Hx]. by rewrite Hx.
  - rewrite list_lookup_alter_ne, list_lookup_insert_ne by done. by rewrite list_lookup_fmap.
Qed.

Lemma keys_set_instance i p inst inst' ts :
  data_source_instances ts !! i = Some (p, inst) -> data_source_name inst' = data_source_name inst -> instance_id inst' = instance_id inst -> keys (set_instance i inst' ts) = keys ts.
Proof.
  intros E Hn Hid. unfold keys, set_instance. cbn. apply list_eq. intros j. rewrite !list_lookup_fmap. destruct (decide (j = i)) as [->|Hne].
  - rewrite list_lookup_alter_eq, E. cbn. by rewrite Hn, Hid.
  - by rewrite list_lookup_alter_ne.
Qed.

Lemma sess_frame_instance i p inst inst' ts :
  data_source_instances ts !! i = Some (p, inst) -> data_source_name inst' = data_source_name inst -> instance_id inst' = instance_id inst -> sess_frame ts (set_instance i inst' ts).
Proof.
  intros E Hn Hid. sess_id ts. by rewrite (keys_set_instance i p inst).
Qed.

Lemma length_states ts : length (states ts) = length (data_source_instances ts).
Proof. apply length_fmap. Qed.

Lemma states_lookup ts i p inst : data_source_instances ts !! i = Some (p, inst) -> states ts !! i = Some (inst_state inst).
Proof. intros E. unfold states. by rewrite list_lookup_fmap, E. Qed.

Lemma states_lookup_inv ts i st : states ts !! i = Some st -> exists p inst, data_source_instances ts !! i = Some (p, inst) /\ inst_state inst = st.
Proof. unfold states. rewrite list_lookup_fmap, fmap_Some. intros ([p inst] & E & ->). eauto. Qed.

Lemma AllStopped_spec ts : AllDataSourceInstancesStopped ts = true <-> Forall (fun x => x = INST_STOPPED) (states ts).
Proof.
  unfold AllDataSourceInstancesStopped, states. rewrite forallb_forall, Forall_fmap, Forall_forall.
  setoid_rewrite list_elem_of_In. split; intros Ha x Hx; [apply Ha in Hx; by apply bool_decide_eq_true in Hx|]. apply bool_decide_eq_true. by apply Ha.
Qed.

(** ** Messages *)

Lemma notify_instance_ok extra s t ts p inst :
  core extra s -> tracing_sessions_ s !! t = Some ts -> is_Some (producers_ s !! p) -> exists m, notify_instance s ts p inst = Some (set_sent m s).
Proof.
  intros HC E [producer Ep]. unfold notify_instance, GetProducer. rewrite Ep. cbn. destruct (consumer_maybe_null ts) as [c|] eqn:Ec.
  - destruct (so_consumer _ _ _ _ (co_session _ _ HC t ts E) c Ec) as (_ & q & Eq & _). unfold OnDataSourceInstanceStateChange. rewrite Eq. cbn.
    destruct (wants _ _); [destruct (inst_state inst)|]; eauto; exists (sent s); by destruct s.
  - exists (sent s). by destruct s.
Qed.

Lemma core_instance extra s t ts i p inst :
  core extra s -> tracing_sessions_ s !! t = Some ts -> data_source_instances ts !! i = Some (p, inst) -> is_Some (producers_ s !! p).
Proof.
  intros HC E Ei. apply (so_insts _ _ _ _ (co_session _ _ HC t ts E) (p, data_source_name inst, instance_id inst)).
  apply list_elem_of_fmap. exists (p, inst). split; [done|]. by eapply list_elem_of_lookup_2.
Qed.

(** Nothing of the session that matters here changes. *)
Definition same_insts ts ts' : Prop := state ts' = state ts /\ states ts' = states ts /\ keys ts' = keys ts.

Lemma same_insts_refl ts : same_insts ts ts.
Proof. done. Qed.

Lemma MaybeNotifyAllDataSourcesStarted_ok extra s t ts :
  core extra s -> tracing_sessions_ s !! t = Some ts -> keeps t (MaybeNotifyAllDataSourcesStarted s t) s (same_insts ts).
Proof.
  intros HC E. unfold MaybeNotifyAllDataSourcesStarted. rewrite E. cbn [mbind option_bind].
  assert (Hs : keeps t (Some s) s (same_insts ts)) by (apply (keeps_ret t s s ts); [apply frame_refl|done..]).
  destruct (consumer_maybe_null ts) as [c|] eqn:Ec; [|done]. destruct (negb _); [done|]. destruct (did_notify_all_data_source_started ts); [done|].
  destruct (so_consumer _ _ _ _ (co_session _ _ HC t ts E) c Ec) as (_ & q & Eq & _). unfold OnAllDataSourcesStarted. cbn. rewrite Eq. cbn.
  set (ts' := set_did_notify_all_data_source_started _ _).
  assert (F : frame t s (upd_session t ts' s)) by (eapply frame_upd; [done|]; sess_id ts).
  destruct (wants _ _); (apply (keeps_ret t s _ ts'); [|cbn; by rewrite lookup_insert_eq|done]); [|done].
  eapply frame_trans; [exact F|apply frame_sent].
Qed.

(** ** Starting and stopping data sources *)

(** Instance [i] goes to state [st]. *)
Definition inst_to (i : nat) (st : DataSourceInstanceState) ts ts' : Prop :=
  state ts' = state ts /\ states ts' = <[i := st]> (states ts) /\ keys ts' = keys ts.

(** A change of the state of an instance, and the message about it. *)
Lemma change_instance_ok extra s t ts i p inst st :
  core extra s -> tracing_sessions_ s !! t = Some ts -> data_source_instances ts !! i = Some (p, inst) ->
  let inst' := set_inst_state st inst in
  keeps t (notify_instance (upd_session t (set_instance i inst' ts) s) ts p inst') s (inst_to i st ts).
Proof.
  intros HC E Ei inst'. set (ts' := set_instance i inst' ts).
  assert (Hs : sess_frame ts ts') by (by apply (sess_frame_instance i p inst)).
  assert (F : frame t s (upd_session t ts' s)) by (by eapply frame_upd).
  destruct (notify_instance_ok extra (upd_session t ts' s) t ts' p inst') as [m Em].
  { by eapply core_frame. } { cbn. by rewrite lookup_insert_eq. } { cbn. by eapply core_instance. }
  assert (En : notify_instance (upd_session t ts' s) ts p inst' = notify_instance (upd_session t ts' s) ts' p inst') by done.
  rewrite En, Em. apply (keeps_ret t s _ ts').
  - eapply frame_trans; [exact F|apply frame_sent].
  - cbn. by rewrite lookup_insert_eq.
  - split; [done|]. split; [apply states_set_instance; by apply lookup_lt_Some in Ei|]. by apply (keys_set_instance i p inst).
Qed.

Lemma StartDataSourceInstance_ok extra s t ts i p inst :
  core extra s -> tracing_sessions_ s !! t = Some ts -> data_source_instances ts !! i = Some (p, inst) -> inst_state inst = INST_CONFIGURED ->
  keeps t (StartDataSourceInstance p t i s) s (fun ts' => inst_to i INST_STARTING ts ts' \/ inst_to i INST_STARTED ts ts').
Proof.
  intros HC E Ei Hst. unfold StartDataSourceInstance. rewrite E. cbn [mbind option_bind]. rewrite Ei. cbn [mbind option_bind].
  rewrite decide_True by done. set (st := if will_notify_on_start inst then INST_STARTING else INST_STARTED).
  eapply keeps_bind; [by apply (change_instance_ok extra)|]. intros s1 ts1 F1 E1 H1.
  assert (HC1 : core extra s1) by (by eapply core_frame). cbn [inst_state set_inst_state].
  assert (F2 : forall m, frame t s1 (send m s1)) by (intros m; apply frame_sent).
  case_decide as Hd.
  - eapply keeps_from; [apply F2|]. eapply keeps_weaken.
    + eapply (MaybeNotifyAllDataSourcesStarted_ok extra _ _ ts1); [by eapply core_frame|done].
    + intros ts2 (Ha & Hb & Hc). right. destruct H1 as (H1 & H2 & H3). rewrite Hd in H2. split; [congruence|]. split; congruence.
  - eapply keeps_ret; [apply F2|done|]. left. subst st. by destruct (will_notify_on_start inst).
Qed.

Lemma StopDataSourceInstance_ok extra s t ts i p inst now :
  core extra s -> tracing_sessions_ s !! t = Some ts -> data_source_instances ts !! i = Some (p, inst) ->
  keeps t (StopDataSourceInstance p t i now s) s (inst_to i (if will_notify_on_stop inst && negb now then INST_STOPPING else INST_STOPPED) ts).
Proof.
  intros HC E Ei. unfold StopDataSourceInstance. rewrite E. cbn [mbind option_bind]. rewrite Ei. cbn [mbind option_bind].
  eapply keeps_bind; [by apply (change_instance_ok extra)|]. intros s1 ts1 F1 E1 H1. eapply keeps_ret; [apply frame_sent|exact E1|exact H1].
Qed.

(** ** Commits *)

Lemma frame_discarded t s n : frame t s (set_chunks_discarded_ n s).
Proof. frame_id t s. Qed.

(** A commit touches no session at all. *)
Definition keeps_sessions (t : Z) (r : option TracingServiceImpl) s : Prop :=
  exists s', r = Some s' /\ frame t s s' /\ tracing_sessions_ s' = tracing_sessions_ s.

Lemma keeps_of_sessions t r s ts : keeps_sessions t r s -> tracing_sessions_ s !! t = Some ts -> keeps t r s (eq ts).
Proof. intros (s' & -> & F & Es) E. apply (keeps_ret t s s' ts); [done|by rewrite Es|done]. Qed.

Lemma keeps_sessions_ret t s : keeps_sessions t (Some s) s.
Proof. exists s. split; [done|]. split; [apply frame_refl|done]. Qed.

Lemma keeps_sessions_for_each {A} extra t (f : A -> TracingServiceImpl -> option TracingServiceImpl) s0 l :
  core extra s0 ->
  (forall x s, x ∈ l -> core extra s -> frame t s0 s -> tracing_sessions_ s = tracing_sessions_ s0 -> keeps_sessions t (f x s) s) ->
  forall s, frame t s0 s -> tracing_sessions_ s = tracing_sessions_ s0 -> keeps_sessions t (for_each f l s) s.
Proof.
  intros HC. induction l as [|x l IH]; intros Hf s F Es; [apply keeps_sessions_ret|].
  cbn [for_each]. destruct (Hf x s) as (s1 & -> & F1 & S1); [left|by eapply core_frame|done..|]. cbn.
  destruct (IH ltac:(intros; apply Hf; [by right|done..]) s1) as (s2 & -> & F2 & S2); [by eapply frame_trans|congruence|].
  exists s2. split; [done|]. split; [by eapply frame_trans|congruence].
Qed.

Lemma producer_is_u16 extra s p q : core extra s -> producers_ s !! p = Some q -> is_u16 p.
Proof. intros HC E. destruct (po_id _ _ _ (co_producer _ _ HC p q E)). unfold kMaxProducerID in *. unfold is_u16. lia. Qed.

Lemma CopyProducerPage_ok extra t s p c b complete :
  core extra s -> chunk_ok c ->
  keeps_sessions t (CopyProducerPageIntoLogBuffer p (sc_writer_id c) (sc_chunk_id c) b (sc_packet_count c) (sc_flags c) complete (sc_payload c) s) s.
Proof.
  intros HC Hc. unfold CopyProducerPageIntoLogBuffer, GetProducer, GetBufferByID.
  assert (Hd : keeps_sessions t (Some (set_chunks_discarded_ (u64 (chunks_discarded_ s + 1)) s)) s).
  { eexists. split; [done|]. split; [apply frame_discarded|done]. }
  destruct (producers_ s !! p) as [producer|] eqn:Ep; [|done]. destruct (buffers_ s !! b) as [buf|] eqn:Eb; [|done].
  case_bool_decide as Hal; cbn [negb]; [|done]. destruct (match writers_ producer !! _ with Some _ => _ | None => _ end); [done|].
  destruct (po_allowed _ _ _ (co_producer _ _ HC p producer Ep) b Hal) as (t' & ts & Et & Hi & Hcl).
  destruct (so_bufs _ _ _ _ (co_session _ _ HC t' ts Et) b Hi) as (buf' & Eb' & Hro). simplify_eq.
  destruct (dp_copy buf p (p_identity producer) c complete) as (b2 & Eb2 & Hok2 & Hro2);
    [by apply (co_owned _ _ HC b)|by apply Hro|by eapply producer_is_u16|apply (co_producer _ _ HC p producer Ep)|done|].
  rewrite Eb2. cbn. eexists. split; [done|]. split; [|done]. by eapply frame_insert_buf.
Qed.

Lemma ScrapeSharedMemoryBuffers_ok extra t s p ts :
  core extra s -> is_Some (producers_ s !! p) -> tracing_sessions_ s !! t = Some ts -> forall t', keeps_sessions t' (ScrapeSharedMemoryBuffers t p s) s.
Proof.
  intros HC [producer Ep] E t'. unfold ScrapeSharedMemoryBuffers, GetProducer. rewrite Ep. cbn [mbind option_bind]. rewrite E. cbn [mbind option_bind].
  destruct (_ || _); [apply keeps_sessions_ret|]. destruct (negb _); [apply keeps_sessions_ret|].
  apply (keeps_sessions_for_each extra _ _ s); [done| |apply frame_refl|done]. intros [k c] s1 Hin HC1 _ _. cbn.
  unfold scrape_chunk. destruct (_ && _); [apply keeps_sessions_ret|]. destruct (writers_ producer !! _) as [b|]; [|apply keeps_sessions_ret].
  destruct (negb _); [apply keeps_sessions_ret|].
  apply (CopyProducerPage_ok extra); [done|]. pose proof (proj2 (po_data _ _ _ (co_producer _ _ HC p producer Ep))) as Hs. rewrite Forall_forall in Hs. by apply (Hs (k, c)).
Qed.

Lemma elem_of_map_keys {V} (m : gmap Z V) k : k ∈ map_keys m <-> is_Some (m !! k).
Proof.
  unfold map_keys. rewrite (merge_sort_Permutation Z.le), list_elem_of_fmap. split.
  - intros ([k' v] & -> & Hin). apply elem_of_map_to_list in Hin. by eexists.
  - intros [v E]. exists (k, v). split; [done|]. by apply elem_of_map_to_list.
Qed.

Lemma scrape_all_producers_ok extra t s ts :
  core extra s -> tracing_sessions_ s !! t = Some ts -> forall t', keeps_sessions t' (scrape_all_producers t s) s.
Proof.
  intros HC E t'. unfold scrape_all_producers. apply (keeps_sessions_for_each extra _ _ s); [done| |apply frame_refl|done].
  intros p s1 Hp HC1 F1 S1. apply (ScrapeSharedMemoryBuffers_ok extra _ _ _ ts); [done| |by rewrite S1].
  rewrite (fr_producers _ _ _ F1). by apply elem_of_map_keys.
Qed.

(** ** Files *)

Lemma put_buffers_evolves (m : gmap Z Buf) ids bufs bufs' :
  mapM (fun b => m !! b) ids = Some bufs -> Forall2 buf_evolves bufs bufs' ->
  forall b, option_Forall2 buf_evolves (m !! b) (put_buffers ids bufs' m !! b).
Proof.
  unfold put_buffers. intros Hm Hr b. apply mapM_Some in Hm. revert bufs' Hr. induction Hm as [|id x ids bufs E Hm IH]; intros bufs' Hr.
  - inversion Hr; subst. cbn. rewrite (left_id_L ∅ (∪)). by apply option_Forall2_refl'.
  - inversion Hr as [|? y ? bufs2 Hxy Hr2]; subst. cbn [zip zip_with list_to_map foldr fst snd]. rewrite <- insert_union_l.
    destruct (decide (b = id)) as [->|Hne]; [rewrite lookup_insert_eq, E; by constructor|]. rewrite lookup_insert_ne by done. by apply IH.
Qed.

Lemma session_buffers_ok extra s t ts :
  core extra s -> tracing_sessions_ s !! t = Some ts ->
  exists bufs, mapM (fun b => GetBufferByID s b) (buffers_index ts) = Some bufs /\ Forall buf_ok bufs.
Proof.
  intros HC E. unfold GetBufferByID.
  assert (Hi : Forall (fun b => is_Some (buffers_ s !! b)) (buffers_index ts)).
  { apply Forall_forall. intros b Hb. destruct (so_bufs _ _ _ _ (co_session _ _ HC t ts E) b Hb) as (x & Ex & _). by eexists. }
  apply mapM_is_Some_2 in Hi as [bufs Eb]. exists bufs. split; [done|]. apply mapM_Some in Eb. apply Forall_forall. intros x Hx.
  apply list_elem_of_lookup_1 in Hx as [i Hi]. destruct (Forall2_lookup_r _ _ _ _ _ Eb Hi) as (b & _ & Ex). by apply (co_owned _ _ HC b).
Qed.

(** There are no more buffers than identifiers. *)
Lemma session_buffers_few extra s t ts bufs :
  core extra s -> tracing_sessions_ s !! t = Some ts -> mapM (fun b => GetBufferByID s b) (buffers_index ts) = Some bufs ->
  Z.of_nat (length bufs) <= kMaxTraceBufferID.
Proof.
  intros HC E Eb. apply length_mapM in Eb. pose proof (co_session _ _ HC t ts E) as Hs. pose proof (co_uses _ _ HC) as Hu. rewrite <- (co_max _ _ HC).
  assert (Hsub : buffers_index ts ⊆ seqZ 1 (max_id_ (buffer_ids_ s))).
  { intros b Hb. destruct (so_bufs _ _ _ _ Hs b Hb) as (buf & Ebuf & _). assert (Hd : b ∈ dom (buffers_ s)) by (by apply elem_of_dom_2 in Ebuf).
    assert (b <> 0) by (intros ->; by apply (us_zero _ _ Hu)). apply (us_ids _ _ Hu) in Hd as [H0 Hl]. apply lookup_lt_Some in Hl. pose proof (us_len _ _ Hu). apply elem_of_seqZ. lia. }
  apply NoDup_submseteq, submseteq_length in Hsub; [|apply Hs]. rewrite length_seqZ in Hsub. pose proof (us_max _ _ Hu). lia.
Qed.

Lemma sess_frame_emitted more ts : sess_frame ts (emitted more ts) /\ same_insts ts (emitted more ts) /\ write_period_ms (emitted more ts) = write_period_ms ts.
Proof.
  pose proof (sess_frame_refl ts) as Hf. destruct Hf. destruct more; (split; [split; assumption|done]).
Qed.

(** What draining a session leaves. *)
Lemma drain_file_ok extra s t ts :
  core extra s -> tracing_sessions_ s !! t = Some ts -> state ts <> CONFIGURED ->
  exists s' ts' closed, drain_file t s = Some (s', closed) /\ frame t s s' /\ tracing_sessions_ s' !! t = Some ts' /\ same_insts ts ts'.
Proof.
  intros HC E Hst. pose proof (so_id _ _ _ _ (co_session _ _ HC t ts E)) as Ht.
  unfold drain_file. rewrite (GetTracingSession_core extra), E by done.
  destruct (_ || _); [exists s, ts, false; split; [done|]; split; [apply frame_refl|done]|].
  destruct (session_buffers_ok extra s t ts HC E) as (bufs & Eb & Hb). rewrite Eb. cbn [mbind option_bind].
  destruct (dp_read_file (trace_filter ts) (compress_deflate ts) (max_file_size_bytes (config ts)) (read_state ts) (bytes_written_into_file ts) bufs Hb (session_buffers_few extra s t ts bufs HC E Eb)
    (so_filter _ _ _ _ (co_session _ _ HC t ts E))) as (bufs' & st & written & stop & more & -> & Hr). cbn [mbind option_bind].
  set (s1 := set_buffers_ _ s). set (ts1 := set_read_state st (set_bytes_written_into_file written (emitted more ts))).
  assert (F1 : frame t s s1).
  { apply frame_buffers, (put_buffers_evolves _ _ bufs); [done|]. eapply Forall2_impl; [exact Hr|]. intros x y [Hy Hro] Hx. split; [done|congruence]. }
  destruct (sess_frame_emitted more ts) as (He & Hsame & _).
  assert (Hs1 : forall w p, sess_frame ts (set_write_into_file w (set_write_period_ms p ts1))).
  { intros w p. eapply sess_frame_trans; [exact He|]. sess_id (emitted more ts).
    intros Hc. exfalso. apply Hst. destruct Hsame as [Hsame' _]. by rewrite <- Hsame'. }
  assert (Hs2 : sess_frame ts ts1).
  { eapply sess_frame_trans; [exact He|]. sess_id (emitted more ts). }
  destruct (_ || _).
  - eexists _, _, true. split; [done|]. split; [eapply frame_trans; [exact F1|]; by eapply frame_upd|]. split; [cbn; by rewrite lookup_insert_eq|exact Hsame].
  - eexists _, ts1, false. split; [done|]. split; [|split; [cbn; by rewrite lookup_insert_eq|exact Hsame]].
    eapply frame_trans; [exact F1|]. eapply frame_trans; [by eapply frame_upd|]. apply frame_post; [done|]. cbn. split; [lia|].
    intros ts0. rewrite lookup_insert_eq. intros [= <-] Hx. apply Hst. destruct Hsame as [Hsame _]. by rewrite <- Hsame.
Qed.

(** ** Disabling *)

(** Loops over the instances: those before [i] are stopped. *)
Definition stopped_to (st : SessionState) (ks : list (Z * string * Z)) (i : nat) ts : Prop :=
  state ts = st /\ keys ts = ks /\ Forall (fun x => x = INST_STOPPED) (take i (states ts)).

Lemma length_keys ts : length (keys ts) = length (data_source_instances ts).
Proof. apply length_fmap. Qed.

Lemma stop_all_now_ok extra s t ts :
  core extra s -> tracing_sessions_ s !! t = Some ts ->
  keeps t (for_each (stop_instance_now t) (seq 0 (length (data_source_instances ts))) s) s
    (stopped_to (state ts) (keys ts) (length (data_source_instances ts))).
Proof.
  intros HC E. apply (keeps_for_seq extra t _ (stopped_to (state ts) (keys ts)) s _ HC 0) with (ts := ts); [|apply frame_refl|done|done].
  intros i s1 ts1 Hi HC1 F1 E1 (H1 & H2 & H3). unfold stop_instance_now. rewrite E1. cbn [mbind option_bind].
  assert (Hlt : (i < length (data_source_instances ts1))%nat) by (rewrite <- length_keys, H2, length_keys; lia).
  apply lookup_lt_is_Some_2 in Hlt as [[p inst] Ei]. rewrite Ei. cbn [mbind option_bind].
  assert (Hst : states ts1 !! i = Some (inst_state inst)) by (by eapply states_lookup).
  case_decide as Hd.
  - apply (keeps_ret t s1 s1 ts1); [apply frame_refl|done|]. split; [done|]. split; [done|].
    rewrite (take_S_r _ _ _ Hst). apply Forall_app. split; [done|by apply Forall_singleton].
  - eapply keeps_weaken; [by apply (change_instance_ok extra)|]. intros ts2 (Ha & Hb & Hc). split; [congruence|]. split; [congruence|].
    rewrite Hb, (take_S_r _ _ INST_STOPPED) by (rewrite list_lookup_insert_eq; [done|by apply lookup_lt_Some in Hst]).
    apply Forall_app. split; [by rewrite take_insert_ge by lia|by apply Forall_singleton].
Qed.

(** The session and all its data sources are stopped. *)
Definition disabled (ks : list (Z * string * Z)) ts : Prop := state ts = DISABLED /\ Forall (fun x => x = INST_STOPPED) (states ts) /\ keys ts = ks.

Lemma DisableTracingNotify_ok extra s t ts :
  core extra s -> tracing_sessions_ s !! t = Some ts -> state ts <> DISABLED -> state ts <> CLONED_READ_ONLY ->
  keeps t (DisableTracingNotifyConsumerAndFlushFile t s) s (disabled (keys ts)).
Proof.
  intros HC E Hd Hcl. unfold DisableTracingNotifyConsumerAndFlushFile. rewrite E. cbn [mbind option_bind]. rewrite decide_False by done.
  eapply keeps_bind; [by apply (stop_all_now_ok extra)|]. intros s1 ts1 F1 E1 (H1 & H2 & H3). rewrite E1. cbn [mbind option_bind].
  assert (HC1 : core extra s1) by (by eapply core_frame).
  assert (Hall : disabled (keys ts) (set_state DISABLED ts1)).
  { split; [done|]. split; [|done]. change (states (set_state DISABLED ts1)) with (states ts1).
    rewrite <- length_keys, <- H2, length_keys, <- length_states, firstn_all in H3. done. }
  set (ts2 := set_state DISABLED ts1) in *.
  assert (F2 : frame t s1 (upd_session t ts2 s1)).
  { eapply frame_upd; [done|]. sess_id ts1; cbn; [done|]. rewrite H1. by split. }
  eapply keeps_from; [exact F2|]. assert (HC2 : core extra (upd_session t ts2 s1)) by (by eapply core_frame).
  assert (E2 : tracing_sessions_ (upd_session t ts2 s1) !! t = Some ts2) by (cbn; by rewrite lookup_insert_eq).
  eapply keeps_bind; [apply keeps_of_sessions; [by apply (scrape_all_producers_ok extra _ _ ts2)|exact E2]|]. intros s3 ts3 F3 E3 <-.
  assert (HC3 : core extra s3) by (by eapply core_frame). rewrite E3. cbn [mbind option_bind].
  set (ts4 := SnapshotLifecyleEvent s3 kTracingDisabledFieldNumber ts2).
  assert (F4 : frame t s3 (upd_session t ts4 s3)).
  { eapply frame_upd; [done|]. sess_id ts2. }
  eapply keeps_from; [exact F4|]. assert (HC4 : core extra (upd_session t ts4 s3)) by (by eapply core_frame).
  assert (E4 : tracing_sessions_ (upd_session t ts4 s3) !! t = Some ts4) by (cbn; by rewrite lookup_insert_eq).
  assert (Hcons : forall s5 ts5, frame t (upd_session t ts4 s3) s5 -> tracing_sessions_ s5 !! t = Some ts5 -> disabled (keys ts) ts5 ->
    keeps t (match consumer_maybe_null ts4 with Some c => NotifyOnTracingDisabled s5 c t None | None => Some s5 end) s5 (disabled (keys ts))).
  { intros s5 ts5 F5 E5 Hd5. destruct (consumer_maybe_null ts4) as [c|] eqn:Ec; [|apply (keeps_ret t s5 s5 ts5); [apply frame_refl|done..]].
    destruct (so_consumer _ _ _ _ (co_session _ _ HC4 t ts4 E4) c Ec) as (_ & q & Eq & _).
    unfold NotifyOnTracingDisabled. rewrite (fr_consumers _ _ _ F5), Eq. cbn [mbind option_bind].
    apply (keeps_ret t s5 _ ts5); [apply frame_sent|done|done]. }
  destruct (write_into_file ts4); [|apply (Hcons _ ts4); [apply frame_refl|done|exact Hall]].
  set (ts5 := set_write_period_ms 0 ts4).
  assert (F5 : frame t (upd_session t ts4 s3) (upd_session t ts5 (upd_session t ts4 s3))).
  { eapply frame_upd; [exact E4|]. sess_id ts4. done. }
  destruct (drain_file_ok extra (upd_session t ts5 (upd_session t ts4 s3)) t ts5) as (s6 & ts6 & closed & -> & F6 & E6 & H6);
    [by eapply core_frame|cbn; by rewrite lookup_insert_eq|done|].
  cbn [fmap option_fmap option_map fst mbind option_bind].
  eapply keeps_from; [eapply frame_trans; [exact F5|exact F6]|]. apply (Hcons s6 ts6); [eapply frame_trans; [exact F5|exact F6]|done|].
  destruct H6 as (A1 & A2 & A3). destruct Hall as (B1 & B2 & B3). split; [by rewrite A1|]. split; [by rewrite A2|by rewrite A3].
Qed.

Definition running_inst (x : DataSourceInstanceState) : Prop := x = INST_CONFIGURED \/ x = INST_STARTING \/ x = INST_STARTED.
Definition stopping_inst (now : bool) (x : DataSourceInstanceState) : Prop := x = INST_STOPPED \/ (now = false /\ x = INST_STOPPING).

(** Loops that take running instances to stopping ones, or configured to started. *)
Definition split_at (P Q : DataSourceInstanceState -> Prop) (st : SessionState) (ks : list (Z * string * Z)) (i : nat) ts : Prop :=
  state ts = st /\ keys ts = ks /\ Forall P (take i (states ts)) /\ Forall Q (drop i (states ts)).

Lemma split_at_step (P Q : DataSourceInstanceState -> Prop) st ks i ts ts' x :
  split_at P Q st ks i ts -> (i < length (states ts))%nat -> inst_to i x ts ts' -> P x -> split_at P Q st ks (S i) ts'.
Proof.
  intros (H1 & H2 & H3 & H4) Hi (A1 & A2 & A3) Hx. split; [congruence|]. split; [congruence|]. rewrite A2.
  rewrite (take_S_r _ _ x) by (by rewrite list_lookup_insert_eq). rewrite take_insert_ge, drop_insert_lt by lia. split.
  - apply Forall_app. split; [done|by apply Forall_singleton].
  - apply lookup_lt_is_Some_2 in Hi as [y Hy]. rewrite (drop_S _ _ _ Hy) in H4. by inversion H4.
Qed.

Lemma split_at_lookup (P Q : DataSourceInstanceState -> Prop) st ks i ts n :
  split_at P Q st ks i ts -> length ks = n -> (i < n)%nat ->
  exists p inst, data_source_instances ts !! i = Some (p, inst) /\ Q (inst_state inst) /\ (i < length (states ts))%nat.
Proof.
  intros (H1 & H2 & H3 & H4) Hn Hi. assert (Hlt : (i < length (data_source_instances ts))%nat) by (rewrite <- length_keys, H2; lia).
  pose proof Hlt as Hlt'. apply lookup_lt_is_Some_2 in Hlt as [[p inst] Ei]. exists p, inst. split; [done|]. split; [|by rewrite length_states].
  rewrite (drop_S _ _ _ (states_lookup _ _ _ _ Ei)) in H4. by inversion H4.
Qed.

Lemma disable_all_ok extra s t ts now :
  core extra s -> tracing_sessions_ s !! t = Some ts -> Forall running_inst (states ts) ->
  keeps t (for_each (disable_instance t now) (seq 0 (length (data_source_instances ts))) s) s
    (fun ts' => state ts' = state ts /\ keys ts' = keys ts /\ Forall (stopping_inst now) (states ts')).
Proof.
  intros HC E Hr. eapply keeps_weaken.
  - apply (keeps_for_seq extra t _ (split_at (stopping_inst now) running_inst (state ts) (keys ts)) s _ HC 0) with (ts := ts); [|apply frame_refl|done|by repeat split].
    intros i s1 ts1 Hi HC1 F1 E1 H1. unfold disable_instance. rewrite E1. cbn [mbind option_bind].
    destruct (split_at_lookup _ _ _ _ _ _ _ H1 (length_keys ts) ltac:(lia)) as (p & inst & Ei & Hrun & Hlen). rewrite Ei. cbn [mbind option_bind].
    assert (Hk : keeps t (StopDataSourceInstance p t i now s1) s1 (split_at (stopping_inst now) running_inst (state ts) (keys ts) (S i))).
    { eapply keeps_weaken; [by apply (StopDataSourceInstance_ok extra)|]. intros ts2 H2. eapply split_at_step; [exact H1|done|exact H2|].
      unfold stopping_inst. destruct (will_notify_on_stop inst), now; cbn; auto. }
    by destruct Hrun as [->|[->| ->]].
  - intros ts' (A1 & A2 & A3 & _). split; [done|]. split; [done|].
    by rewrite Nat.add_0_l, <- length_keys, <- A2, length_keys, <- length_states, firstn_all in A3.
Qed.

(** What stopping a session leaves. *)
Definition ended (now : bool) (ks : list (Z * string * Z)) ts : Prop :=
  keys ts = ks /\ inst_ok (state ts) (states ts) /\ (state ts = DISABLED \/ now = false /\ state ts = DISABLING_WAITING_STOP_ACKS).

Lemma disabled_ended now ks ts : disabled ks ts -> ended now ks ts.
Proof. intros (H1 & H2 & H3). unfold ended. rewrite H1. auto. Qed.

Lemma disable_running_ok extra s t ts now :
  core extra s -> tracing_sessions_ s !! t = Some ts -> Forall running_inst (states ts) -> state ts = CONFIGURED \/ state ts = STARTED ->
  keeps t (disable_running t now s) s (ended now (keys ts)).
Proof.
  intros HC E Hr Hst. unfold disable_running. rewrite E. cbn [mbind option_bind].
  eapply keeps_bind; [by apply (disable_all_ok extra)|]. intros s1 ts1 F1 E1 (H1 & H2 & H3). rewrite E1. cbn [mbind option_bind].
  assert (HC1 : core extra s1) by (by eapply core_frame). set (ts2 := set_snapshot_running false ts1).
  assert (Hs2 : sess_frame ts1 ts2) by (sess_id ts1).
  assert (F2 : frame t s1 (upd_session t ts2 s1)) by (by eapply frame_upd).
  assert (E2 : tracing_sessions_ (upd_session t ts2 s1) !! t = Some ts2) by (cbn; by rewrite lookup_insert_eq).
  eapply keeps_from; [exact F2|]. destruct (AllDataSourceInstancesStopped ts2) eqn:Ea.
  - eapply keeps_weaken; [apply (DisableTracingNotify_ok extra _ _ ts2)|].
    + by eapply core_frame. + exact E2.
    + cbn. rewrite H1. by destruct Hst as [-> | ->]. + cbn. rewrite H1. by destruct Hst as [-> | ->].
    + intros ts3 H. apply disabled_ended. by rewrite <- H2.
  - set (ts3 := set_state DISABLING_WAITING_STOP_ACKS ts2). apply (keeps_ret t _ _ ts3).
    + eapply frame_trans; [eapply (frame_upd _ _ _ ts3); [exact E2|]|by apply frame_post].
      sess_id ts2; [done|]. cbn. rewrite H1. by destruct Hst as [-> | ->].
    + cbn. by rewrite lookup_insert_eq.
    + change (states ts3) with (states ts1) in *. change (keys ts3) with (keys ts1).
      assert (Hn : exists x, x ∈ states ts1 /\ x <> INST_STOPPED).
      { apply not_true_iff_false in Ea. rewrite AllStopped_spec in Ea. apply not_Forall_Exists in Ea; [|apply _]. by apply Exists_exists. }
      destruct Hn as (x & Hx & Hne). rewrite Forall_forall in H3. destruct (H3 x Hx) as [->|[-> ->]]; [done|].
      split; [done|]. split; [|by right]. cbn [state ts3 set_state inst_ok]. split; [|done].
      apply Forall_forall. intros y Hy. change (states ts3) with (states ts1) in Hy. destruct (H3 y Hy) as [->|[_ ->]]; auto.
Qed.

Lemma inst_ok_running st l : st = CONFIGURED \/ st = STARTED -> inst_ok st l -> Forall running_inst l.
Proof. intros [-> | ->] H; (eapply Forall_impl; [exact H|]); unfold running_inst; cbn; intuition. Qed.

(** [DisableTracing] on a session that agrees with its data sources. *)
Lemma DisableTracing_ok extra s t ts now :
  core extra s -> tracing_sessions_ s !! t = Some ts -> inst_ok (state ts) (states ts) ->
  keeps t (DisableTracing t now s) s (fun ts' => keys ts' = keys ts /\ inst_ok (state ts') (states ts') /\
    (state ts' = CLONED_READ_ONLY \/ state ts' = DISABLED \/ now = false /\ state ts' = DISABLING_WAITING_STOP_ACKS)).
Proof.
  intros HC E Hi. unfold DisableTracing. rewrite (GetTracingSession_core extra), E by done.
  assert (Hr : state ts = CLONED_READ_ONLY \/ state ts = DISABLED \/ now = false /\ state ts = DISABLING_WAITING_STOP_ACKS ->
    keeps t (Some s) s (fun ts' => keys ts' = keys ts /\ inst_ok (state ts') (states ts') /\
    (state ts' = CLONED_READ_ONLY \/ state ts' = DISABLED \/ now = false /\ state ts' = DISABLING_WAITING_STOP_ACKS))).
  { intros Hx. apply (keeps_ret t s s ts); [apply frame_refl|done|done]. }
  assert (Hend : forall now' ts', ended now' (keys ts) ts' -> (now' = false -> now = false) -> keys ts' = keys ts /\ inst_ok (state ts') (states ts') /\
    (state ts' = CLONED_READ_ONLY \/ state ts' = DISABLED \/ now = false /\ state ts' = DISABLING_WAITING_STOP_ACKS)) by (unfold ended; intuition).
  destruct (state ts) eqn:Est.
  - apply AllStopped_spec in Hi. rewrite Hi. apply Hr. auto.
  - eapply keeps_weaken; [apply (disable_running_ok extra); [done|done| |auto]|]; [by apply (inst_ok_running CONFIGURED); [auto|]|].
    intros ts' H'. apply (Hend true); [done|]. done.
  - eapply keeps_weaken; [apply (disable_running_ok extra); [done|done| |auto]|]; [by apply (inst_ok_running STARTED); [auto|]|].
    intros ts' H'. by apply (Hend now).
  - destruct (AllDataSourceInstancesStopped ts) eqn:Ea.
    { exfalso. apply AllStopped_spec in Ea. rewrite Forall_forall in Ea. destruct Hi as [_ Hi]. by apply Ea in Hi. }
    destruct now; [|apply Hr; auto]. eapply keeps_weaken; [apply (DisableTracingNotify_ok extra _ _ ts); [done|done|by rewrite Est..]|].
    intros ts' H'. apply (Hend true); [by apply disabled_ended|done].
  - apply Hr. auto.
Qed.

Lemma OnDisableTracingTimeout_ok extra s t ts :
  core extra s -> tracing_sessions_ s !! t = Some ts -> inst_ok (state ts) (states ts) ->
  keeps t (OnDisableTracingTimeout t s) s (fun ts' => inst_ok (state ts') (states ts')).
Proof.
  intros HC E Hi. unfold OnDisableTracingTimeout. rewrite (GetTracingSession_core extra), E by done.
  assert (Hr : keeps t (Some s) s (fun ts' => inst_ok (state ts') (states ts'))) by (apply (keeps_ret t s s ts); [apply frame_refl|done..]).
  destruct (state ts) eqn:Est; try exact Hr.
  destruct (AllDataSourceInstancesStopped ts) eqn:Ea.
  { exfalso. apply AllStopped_spec in Ea. rewrite Forall_forall in Ea. destruct Hi as [_ Hi]. by apply Ea in Hi. }
  eapply keeps_weaken; [apply (DisableTracingNotify_ok extra _ _ ts); [done|done|by rewrite Est..]|].
  intros ts' H'. by apply (disabled_ended true) in H' as (_ & H' & _).
Qed.

Lemma ReadBuffersIntoFile_ok extra s t ts :
  core extra s -> tracing_sessions_ s !! t = Some ts -> inst_ok (state ts) (states ts) -> state ts <> CONFIGURED ->
  keeps t (ReadBuffersIntoFile t s) s (fun ts' => inst_ok (state ts') (states ts')).
Proof.
  intros HC E Hi Hst. unfold ReadBuffersIntoFile. destruct (drain_file_ok extra s t ts HC E Hst) as (s1 & ts1 & closed & -> & F1 & E1 & (A1 & A2 & A3)).
  cbn [mbind option_bind]. assert (Hi1 : inst_ok (state ts1) (states ts1)) by (by rewrite A1, A2).
  eapply keeps_from; [exact F1|]. destruct closed; [|apply (keeps_ret t s1 s1 ts1); [apply frame_refl|done..]].
  rewrite E1. cbn [mbind option_bind]. case_decide; [|apply (keeps_ret t s1 s1 ts1); [apply frame_refl|done..]].
  eapply keeps_weaken; [apply (DisableTracing_ok extra _ _ ts1); [by eapply core_frame|done..]|]. by intros ts' (_ & ? & _).
Qed.

(** ** Starting *)

Lemma PeriodicFlushTask_next_ok extra s t ts :
  core extra s -> tracing_sessions_ s !! t = Some ts -> flush_period_ms (config ts) <> 0 -> keeps t (PeriodicFlushTask t true s) s (eq ts).
Proof.
  intros HC E Hp. pose proof (so_id _ _ _ _ (co_session _ _ HC t ts E)) as Ht.
  unfold PeriodicFlushTask. rewrite (GetTracingSession_core extra), E by done.
  case_decide; [|apply (keeps_ret t s s ts); [apply frame_refl|done..]]. destruct (Z.eqb_spec (flush_period_ms (config ts)) 0); [done|].
  apply (keeps_ret t s _ ts); [|done|done]. apply frame_post; [done|]. cbn. split; [lia|]. intros ts0 E0. by simplify_eq.
Qed.

Lemma PeriodicClearTask_next_ok extra s t ts :
  core extra s -> tracing_sessions_ s !! t = Some ts -> clear_period_ms (config ts) <> 0 -> keeps t (PeriodicClearIncrementalStateTask t true s) s (eq ts).
Proof.
  intros HC E Hp. pose proof (so_id _ _ _ _ (co_session _ _ HC t ts E)) as Ht.
  unfold PeriodicClearIncrementalStateTask. rewrite (GetTracingSession_core extra), E by done.
  case_decide; [|apply (keeps_ret t s s ts); [apply frame_refl|done..]]. destruct (Z.eqb_spec (clear_period_ms (config ts)) 0); [done|].
  apply (keeps_ret t s _ ts); [|done|done]. apply frame_post; [done|]. cbn. split; [lia|]. intros ts0 E0. by simplify_eq.
Qed.

Lemma start_all_ok extra s t ts :
  core extra s -> tracing_sessions_ s !! t = Some ts -> Forall (fun x => x = INST_CONFIGURED) (states ts) ->
  keeps t (for_each (start_instance t) (seq 0 (length (data_source_instances ts))) s) s
    (fun ts' => state ts' = state ts /\ keys ts' = keys ts /\ Forall (fun x => x = INST_STARTING \/ x = INST_STARTED) (states ts')).
Proof.
  intros HC E Hr. set (P x := x = INST_STARTING \/ x = INST_STARTED). eapply keeps_weaken.
  - apply (keeps_for_seq extra t _ (split_at P (fun x => x = INST_CONFIGURED) (state ts) (keys ts)) s _ HC 0) with (ts := ts); [|apply frame_refl|done|by repeat split].
    intros i s1 ts1 Hi HC1 F1 E1 H1. unfold start_instance. rewrite E1. cbn [mbind option_bind].
    destruct (split_at_lookup _ _ _ _ _ _ _ H1 (length_keys ts) ltac:(lia)) as (p & inst & Ei & Hrun & Hlen). rewrite Ei. cbn [mbind option_bind].
    destruct (core_instance extra s1 t ts1 i p inst HC1 E1 Ei) as [q Eq]. unfold GetProducer. rewrite Eq.
    eapply keeps_weaken; [by apply (StartDataSourceInstance_ok extra _ _ ts1 _ _ inst)|].
    intros ts2 [H2|H2]; (eapply split_at_step; [exact H1|done|exact H2|]); unfold P; auto.
  - intros ts' (A1 & A2 & A3 & _). split; [done|]. split; [done|].
    by rewrite Nat.add_0_l, <- length_keys, <- A2, length_keys, <- length_states, firstn_all in A3.
Qed.

Lemma StartTracing_ok extra s t ts :
  core extra s -> tracing_sessions_ s !! t = Some ts -> inst_ok (state ts) (states ts) ->
  keeps t (StartTracing t s) s (fun ts' => inst_ok (state ts') (states ts') /\ keys ts' = keys ts).
Proof.
  intros HC E Hi. pose proof (so_id _ _ _ _ (co_session _ _ HC t ts E)) as Ht.
  unfold StartTracing. rewrite (GetTracingSession_core extra), E by done.
  case_decide as Hst; [|apply (keeps_ret t s s ts); [apply frame_refl|done..]].
  pose proof (so_period _ _ _ _ (co_session _ _ HC t ts E) Hst) as Hper. rewrite Hst in Hi. cbn [inst_ok] in Hi.
  set (ts1 := set_snapshot_running true _).
  assert (F1 : frame t s (upd_session t ts1 s)).
  { eapply frame_upd; [done|]. sess_id ts; [done|]. cbn. by rewrite Hst. }
  set (s1 := upd_session t ts1 s) in *. assert (E1 : tracing_sessions_ s1 !! t = Some ts1) by (cbn; by rewrite lookup_insert_eq).
  assert (F2 : frame t s (if 0 <? duration_ms (config ts1) then post (TStopOnDurationMsExpiry t) s1 else s1)).
  { destruct (0 <? _); [|done]. eapply frame_trans; [exact F1|by apply frame_post]. }
  assert (E2 : tracing_sessions_ (if 0 <? duration_ms (config ts1) then post (TStopOnDurationMsExpiry t) s1 else s1) !! t = Some ts1) by (by destruct (0 <? _)).
  set (s2 := if 0 <? duration_ms (config ts1) then _ else s1) in *. eapply keeps_from; [exact F2|].
  assert (HC2 : core extra s2) by (by eapply core_frame). clearbody s2.
  apply (keeps_bind _ _ _ _ (eq ts1)).
  { unfold post_file_task. destruct (cfg_write_into_file (config ts1)) eqn:Ew; [|apply (keeps_ret t s2 s2 ts1); [apply frame_refl|done..]].
    change (write_period_ms ts1) with (write_period_ms ts). rewrite (proj2 (Z.ltb_lt _ _)) by (by apply Hper).
    apply (keeps_ret t s2 _ ts1); [|done|done]. apply frame_post; [done|]. cbn. split; [rewrite (fr_last _ _ _ F2); lia|].
    intros ts0. rewrite E2. by intros [= <-]. }
  intros s3 ts3 F3 E3 <-. assert (HC3 : core extra s3) by (by eapply core_frame).
  apply (keeps_bind _ _ _ _ (eq ts1)).
  { destruct (Z.eqb_spec (flush_period_ms (config ts1)) 0); [apply (keeps_ret t s3 s3 ts1); [apply frame_refl|done..]|by apply (PeriodicFlushTask_next_ok extra)]. }
  intros s4 ts4 F4 E4 <-. assert (HC4 : core extra s4) by (by eapply core_frame).
  apply (keeps_bind _ _ _ _ (eq ts1)).
  { destruct (Z.eqb_spec (clear_period_ms (config ts1)) 0); [apply (keeps_ret t s4 s4 ts1); [apply frame_refl|done..]|by apply (PeriodicClearTask_next_ok extra)]. }
  intros s5 ts5 F5 E5 <-. assert (HC5 : core extra s5) by (by eapply core_frame).
  eapply keeps_bind; [apply (start_all_ok extra s5 t ts1); [done|done|exact Hi]|]. intros s6 ts6 F6 E6 (A1 & A2 & A3).
  assert (HC6 : core extra s6) by (by eapply core_frame).
  eapply keeps_bind; [by apply (MaybeNotifyAllDataSourcesStarted_ok extra s6 t ts6)|]. intros s7 ts7 F7 E7 (B1 & B2 & B3).
  assert (Hfin : inst_ok (state ts7) (states ts7) /\ keys ts7 = keys ts) by (split; [by rewrite B1, B2, A1|by rewrite B3, A2]).
  case_bool_decide; (apply (keeps_ret t s7 _ ts7); [|done|exact Hfin]); [apply frame_refl|by apply frame_post].
Qed.
End Session.
