(* ===== verification/TracingServiceFlush.v ===== *)
(** * The tracing service: freeing, cloning and flushes

    Freeing a session gives back exactly its buffers. A clone operation ends when the
    last of its flushes is done, and then has a copy of every buffer. A callback is
    always in one place: pending, in a task, or in flight. *)

From stdpp Require Import sorting.
From S2P Require Import Prelude IdAllocator TracingServiceTypes TracingService TracingServiceEndpoints TracingServiceOk TracingServiceSession.

Section Flush.
Context {D : DataPlane} {DOk : DataPlaneOk D}.
Implicit Types (s : TracingServiceImpl) (ts : TracingSession).

(** ** Freeing *)

(** Consumers [m'] come from [m]: links to session [t] are gone, others are kept. *)
Record consumers_cut (t : Z) (m m' : gmap nat Consumer) : Prop := {
  cut_from : forall c q', m' !! c = Some q' -> exists q, m !! c = Some q /\
    (tracing_session_id_ q' = 0 \/ (tracing_session_id_ q' = tracing_session_id_ q /\ tracing_session_id_ q <> t));
  cut_to : forall c q, m !! c = Some q -> tracing_session_id_ q <> t -> tracing_session_id_ q <> 0 ->
    exists q', m' !! c = Some q' /\ tracing_session_id_ q' = tracing_session_id_ q }.

Definition freed (t : Z) (idx : list Z) (bufs : gmap Z Buf) (ids : IdAllocator) (cons : gmap nat Consumer) s : TracingServiceImpl :=
  set_consumers_ cons (set_tracing_sessions_ (delete t (tracing_sessions_ s))
    (set_buffers_ bufs (set_buffer_ids_ ids (set_producers_ (OnFreeBuffers idx <$> producers_ s) s)))).

Lemma freed_ok extra s t ts bufs ids cons :
  core extra s -> tracing_sessions_ s !! t = Some ts -> (forall b, bufs !! b = if decide (b ∈ buffers_index ts) then None else buffers_ s !! b) ->
  uses ids (dom bufs) -> max_id_ ids = kMaxTraceBufferID -> consumers_cut t (consumers_ s) cons ->
  core extra (freed t (buffers_index ts) bufs ids cons s).
Proof.
  intros HC E Hb Hu Hmax [Hfrom Hto]. pose proof HC as [H1 H2 H3 H4 H5 H6 H7 H8 H9 H10 H11 H12 H13 H14].
  assert (Hother : forall t' ts' b, tracing_sessions_ s !! t' = Some ts' -> t' <> t -> b ∈ buffers_index ts' -> bufs !! b = buffers_ s !! b).
  { intros t' ts' b E' Hne Hin. rewrite Hb, decide_False; [done|]. intros Hin'. apply Hne. by eapply H2. }
  assert (Hprod : forall p, is_Some ((OnFreeBuffers (buffers_index ts) <$> producers_ s) !! p) <-> is_Some (producers_ s !! p)).
  { intros p. rewrite lookup_fmap. apply fmap_is_Some. }
  assert (Hsub : forall (f : TracingSession -> Prop) t', (forall ts', tracing_sessions_ s !! t' = Some ts' -> f ts') ->
    forall ts', delete t (tracing_sessions_ s) !! t' = Some ts' -> f ts').
  { intros f t' Hf ts' E'. apply lookup_delete_Some in E' as [_ E']. by apply Hf. }
  split; cbn.
  - intros t' ts' E'. apply lookup_delete_Some in E' as [Hne E']. destruct (H1 t' ts' E') as [S1 S2 S3 S4 S5 S6 S6' S7 S8 S9 S10]. split; try done; cbn.
    + intros c Hc. destruct (S2 c Hc) as (Hk & q & Eq & Et). split; [done|]. destruct (Hto c q Eq) as (q' & Eq' & Et'); [lia..|]. exists q'. split; [done|congruence].
    + intros b Hin. rewrite (Hother t' ts') by done. by apply S5.
    + intros k Hk. rewrite Hprod. by apply S6.
  - intros t1 t2 ts1 ts2 b E1 E2. apply lookup_delete_Some in E1 as [_ E1]. apply lookup_delete_Some in E2 as [_ E2]. by apply H2.
  - done.
  - done.
  - intros b buf. rewrite Hb. case_decide as Hin; [done|]. intros Eb. destruct (H5 b buf Eb) as (Ho & t' & ts' & Et & Hi). split; [done|].
    exists t', ts'. split; [|done]. rewrite lookup_delete_ne; [done|]. intros <-. apply Hin. congruence.
  - intros c q' Eq'. destruct (Hfrom c q' Eq') as (q & Eq & Hq). destruct (H6 c q Eq) as [Hn Hl]. split; [done|].
    destruct Hq as [Hz|[Hz Hne]]; [by left|]. rewrite Hz. destruct Hl as [Hl|(ts' & Et & Hc)]; [by left|]. right. exists ts'. by rewrite lookup_delete_ne.
  - intros p q'. rewrite lookup_fmap, fmap_Some. intros (q & Eq & ->). destruct (H7 p q Eq) as [P1 P2 P3]. split; try done; cbn.
    intros b. rewrite elem_of_difference, elem_of_list_to_set. intros [Hin Hni]. destruct (P2 b Hin) as (t' & ts' & Et & Hi & Hc).
    exists t', ts'. split; [|done]. rewrite lookup_delete_ne; [done|]. intros <-. apply Hni. congruence.
  - intros x Hx. rewrite Hprod. by apply H8.
  - eapply Forall_impl; [exact H9|]. intros [] Ht; try done; (destruct Ht as [Hl Ht]; split; [done|]; cbn; by apply Hsub).
  - intros t' id bufs' Hin. destruct (H10 t' id bufs' Hin) as [Hl Ht]. split; [done|by apply Hsub].
  - done.
  - done.
  - done.
  - done.
Qed.

Lemma free_buffers_loop_ok idx : forall s,
  NoDup idx -> (forall b, b ∈ idx -> is_Some (buffers_ s !! b)) -> uses (buffer_ids_ s) (dom (buffers_ s)) ->
  exists bufs ids, for_each free_buffer idx s = Some (set_buffers_ bufs (set_buffer_ids_ ids s)) /\
    (forall b, bufs !! b = if decide (b ∈ idx) then None else buffers_ s !! b) /\ uses ids (dom bufs) /\ max_id_ ids = max_id_ (buffer_ids_ s).
Proof.
  induction idx as [|b idx IH]; intros s Hnd Hin Hu.
  { exists (buffers_ s), (buffer_ids_ s). split; [by destruct s|]. split; [|done]. intros b. rewrite decide_False; [done|apply not_elem_of_nil]. }
  apply NoDup_cons in Hnd as [Hni Hnd]. cbn [for_each].
  destruct (Hin b) as [buf Eb]; [left|]. destruct (FreeGeneric_ok _ _ b Hu) as [Hf _].
  destruct Hf as (ids1 & Ef & Hm1 & Hu1); [apply elem_of_dom; by eexists|].
  assert (Hfb : free_buffer b s = Some (set_buffers_ (delete b (buffers_ s)) (set_buffer_ids_ ids1 s))).
  { unfold free_buffer. rewrite Ef. cbn [mbind option_bind]. by rewrite Eb. }
  rewrite Hfb. cbn [mbind option_bind].
  destruct (IH (set_buffers_ (delete b (buffers_ s)) (set_buffer_ids_ ids1 s))) as (bufs & ids & -> & Hb & Hu2 & Hm2); cbn.
  - done.
  - intros b' Hb'. rewrite lookup_delete_ne by (by intros <-). apply Hin. by right.
  - by rewrite dom_delete_L.
  - exists bufs, ids. split; [done|]. split; [|split; [done|by rewrite Hm2]]. intros b'. rewrite Hb. cbn.
    destruct (decide (b' = b)) as [->|Hne].
    + rewrite decide_False, decide_True, lookup_delete_eq by (done || left). done.
    + rewrite lookup_delete_ne by done. destruct (decide (b' ∈ idx)); [rewrite decide_True by (by right)|rewrite decide_False by (by rewrite elem_of_cons; intros [|])]; done.
Qed.

Lemma notify_clones_ok l : forall s, exists cs, foldl (fun s op => notify_pending_clone op s) s l = set_tasks (tasks s ++ (TOnSessionCloned <$> cs)) s.
Proof.
  induction l as [|op l IH]; intros s; [exists []; cbn; rewrite app_nil_r; by destruct s|]. cbn [foldl]. destruct (IH (notify_pending_clone op s)) as [cs ->].
  unfold notify_pending_clone. destruct (consumers_ s !! _); [exists (weak_consumer op :: cs); cbn; by rewrite <- (assoc_L (++))|by exists cs].
Qed.

Lemma frame_cloned t cs s : frame t s (set_tasks (tasks s ++ (TOnSessionCloned <$> cs)) s).
Proof.
  pose proof (frame_refl t s) as Hf. destruct Hf. split; try assumption; cbn.
  - intros Ha. apply Forall_app. split; [exact Ha|]. by apply Forall_fmap, Forall_true.
  - rewrite omap_app. replace (omap task_cb (TOnSessionCloned <$> cs)) with ([] : list FlushCallback) by (by induction cs). by rewrite app_nil_r.
Qed.

(** Freeing a session: what it leaves is a service without the session, whatever the
    caller does with the link of its consumer. *)
Lemma FreeBuffers_ok extra s t ts :
  core extra s -> steady ∅ s -> tracing_sessions_ s !! t = Some ts ->
  exists s', FreeBuffers t s = Some s' /\ consumers_ s' = consumers_ s /\ tracing_sessions_ s' = delete t (tracing_sessions_ s) /\
    (forall cons, consumers_cut t (consumers_ s) cons -> core extra (set_consumers_ cons s') /\ steady ∅ (set_consumers_ cons s')).
Proof.
  intros HC HS E. unfold FreeBuffers. rewrite (GetTracingSession_core extra), E by done.
  destruct (DisableTracing_ok extra s t ts true HC E (HS t ts ltac:(set_solver) E)) as (s1 & ts1 & -> & F1 & E1 & (A1 & A2 & A3)).
  assert (HC1 : core extra s1) by (by eapply core_frame). cbn [mbind option_bind]. rewrite E1. cbn [mbind option_bind].
  assert (Hall : AllDataSourceInstancesStopped ts1 = true).
  { apply AllStopped_spec. destruct A3 as [A3|[A3|[? _]]]; [|by rewrite A3 in A2|done]. rewrite A3 in A2. cbn in A2. rewrite A2. constructor. }
  rewrite Hall. destruct (free_buffers_loop_ok (buffers_index ts1) (set_producers_ (OnFreeBuffers (buffers_index ts1) <$> producers_ s1) s1)) as (bufs & ids & -> & Hb & Hu & Hm).
  { apply (co_session _ _ HC1 t ts1 E1). }
  { intros b Hin. destruct (so_bufs _ _ _ _ (co_session _ _ HC1 t ts1 E1) b Hin) as (buf & Eb & _). by eexists. }
  { apply HC1. }
  cbn [mbind option_bind]. destruct (notify_clones_ok (map_values (pending_clones ts1)) (set_tracing_sessions_ (delete t (tracing_sessions_
    (set_buffers_ bufs (set_buffer_ids_ ids (set_producers_ (OnFreeBuffers (buffers_index ts1) <$> producers_ s1) s1)))))
    (set_buffers_ bufs (set_buffer_ids_ ids (set_producers_ (OnFreeBuffers (buffers_index ts1) <$> producers_ s1) s1))))) as [cs Em].
  rewrite Em. eexists. split; [done|]. split; [apply F1|]. cbn. split.
  { apply map_eq. intros t'. destruct (decide (t' = t)) as [->|Hne]; [by rewrite !lookup_delete_eq|].
    rewrite !lookup_delete_ne by done. by apply (fr_others _ _ _ F1). }
  intros cons Hcut. assert (HF : core extra (freed t (buffers_index ts1) bufs ids cons s1)).
  { apply (freed_ok extra s1 t ts1); try done; [by rewrite Hm; apply HC1|by rewrite (fr_consumers _ _ _ F1)]. }
  split; [exact (core_frame _ _ _ _ HF (frame_cloned t cs _))|]. intros t' ts' _ E'. cbn in E'. apply lookup_delete_Some in E' as [Hne E'].
  rewrite (fr_others _ _ _ F1) in E' by done. by apply (HS t'); [set_solver|].
Qed.

(** ** Callbacks *)

Lemma clone_ok_perm out out' idx op : out ≡ₚ out' -> clone_ok out idx op -> clone_ok out' idx op.
Proof.
  intros Hp [H1 H2 H3 H4 H5]. split; try done; [by rewrite <- Hp|by rewrite <- Hp|].
  intros i b E. destruct (H5 i b E) as [Hx|(bufs & Hin & Hb)]; [by left|]. right. exists bufs. by rewrite <- Hp.
Qed.

Lemma clone_bufs_Some t id cb bufs : clone_bufs t id cb = Some bufs <-> cb = CbClone t id bufs.
Proof.
  destruct cb as [| | |t' id' bufs']; cbn; try done. split.
  - destruct (Z.eqb_spec t' t), (Z.eqb_spec id' id); cbn; try done. intros [= ->]. by subst.
  - intros [= -> -> ->]. by rewrite !Z.eqb_refl.
Qed.

Lemma omap_clone_nil t id l : (forall bufs, CbClone t id bufs ∉ l) -> omap (clone_bufs t id) l = [].
Proof.
  induction l as [|cb l IH]; intros Hn; [done|]. cbn. destruct (clone_bufs t id cb) as [bufs|] eqn:E.
  - apply clone_bufs_Some in E as ->. exfalso. apply (Hn bufs). left.
  - apply IH. intros bufs Hin. apply (Hn bufs). by right.
Qed.

Definition flush_cbs (l : list (Z * PendingFlush)) : list FlushCallback := (fun x => pf_callback x.2) <$> l.

(** Only callbacks of other kinds, or of clone operations of session [t]. *)
Definition cbs_of (t : Z) (l : list FlushCallback) : Prop := forall t' id bufs, CbClone t' id bufs ∈ l -> t' = t.

(** What other tables have to do with a session. *)
Record linked ts ts' : Prop := {
  li_index : buffers_index ts' = buffers_index ts;
  li_consumer : consumer_maybe_null ts' = consumer_maybe_null ts;
  li_cloned : state ts' = CLONED_READ_ONLY <-> state ts = CLONED_READ_ONLY;
  li_config : config_frame (config ts) (config ts');
  li_last : last_pending_clone_id_ ts <= last_pending_clone_id_ ts' }.

(** A change of session [t] and of the tasks keeps the invariant when the session is
    correct after it, and callbacks of clone operations of other sessions are still there. *)
Lemma core_session extra extra' s t ts ts' tasks' :
  core extra s -> tracing_sessions_ s !! t = Some ts -> linked ts ts' -> Forall (task_ok s) tasks' ->
  (state ts' = CONFIGURED -> state ts = CONFIGURED \/ TReadBuffersIntoFile t ∉ tasks') ->
  (forall t' id bufs, CbClone t' id bufs ∈ extra' ++ omap task_cb tasks' ->
     t' <= last_tracing_session_id_ s /\ forall ts0, <[t := ts']> (tracing_sessions_ s) !! t' = Some ts0 -> id < last_pending_clone_id_ ts0) ->
  (forall t' id, t' <> t -> omap (clone_bufs t' id) (extra' ++ omap task_cb tasks') ≡ₚ omap (clone_bufs t' id) (extra ++ omap task_cb (tasks s))) ->
  session_ok extra' (set_tasks tasks' (upd_session t ts' s)) t ts' ->
  core extra' (set_tasks tasks' (upd_session t ts' s)).
Proof.
  intros HC E Hlk Htk Hconf Hcb Hoth Hso. pose proof HC as [H1 H2 H3 H4 H5 H6 H7 H8 H9 H10 H11 H12 H13 H14]. destruct Hlk as [L1 L2 L3 L5 L6].
  assert (Hsess : forall t' ts0, <[t := ts']> (tracing_sessions_ s) !! t' = Some ts0 -> t' = t /\ ts0 = ts' \/ t' <> t /\ tracing_sessions_ s !! t' = Some ts0).
  { intros t' ts0. rewrite lookup_insert_Some. intros [[<- <-]|[Hne E0]]; auto. }
  assert (Hback : forall t' ts0, <[t := ts']> (tracing_sessions_ s) !! t' = Some ts0 -> exists ts1, tracing_sessions_ s !! t' = Some ts1 /\ linked ts1 ts0).
  { intros t' ts0 E0. destruct (Hsess t' ts0 E0) as [[-> ->]|[_ E1]]; [exists ts; by split|exists ts0; by repeat split]. }
  assert (Hfwd : forall t' ts1, tracing_sessions_ s !! t' = Some ts1 -> exists ts0, <[t := ts']> (tracing_sessions_ s) !! t' = Some ts0 /\ linked ts1 ts0).
  { intros t' ts1 E1. destruct (decide (t' = t)) as [->|Hne]; [|exists ts1; rewrite lookup_insert_ne by done; by repeat split].
    exists ts'. rewrite lookup_insert_eq. split; [done|]. by assert (ts1 = ts) as -> by congruence. }
  split; cbn; try done.
  - intros t' ts0 E0. destruct (Hsess t' ts0 E0) as [[-> ->]|[Hne E1]]; [done|]. destruct (H1 t' ts0 E1) as [S1 S2 S3 S4 S5 S6 S6' S7 S8 S9 S10].
    split; try done. intros id op Eo. destruct (S9 id op Eo) as [Hlt Hc]. split; [done|]. eapply clone_ok_perm; [|exact Hc].
    unfold outstanding. cbn. rewrite !(assoc_L (++)). rewrite (omap_app _ _ (_ <$> _)), (omap_app _ (extra' ++ _) (_ <$> _)). by rewrite (Hoth t' id Hne).
  - intros t1 t2 ts1' ts2' b E1 E2. destruct (Hback _ _ E1) as (ts1 & E1' & [-> _ _ _ _]). destruct (Hback _ _ E2) as (ts2 & E2' & [-> _ _ _ _]). by apply H2.
  - intros b buf Eb. destruct (H5 b buf Eb) as (Ho & t' & ts1 & Et & Hi). split; [done|].
    destruct (Hfwd t' ts1 Et) as (ts0 & E0 & [Hx _ _ _ _]). exists t', ts0. by rewrite Hx.
  - intros c q Eq. destruct (H6 c q Eq) as [Hn Hq]. split; [done|]. destruct Hq as [Hq|(ts1 & Et & Hc)]; [by left|right].
    destruct (Hfwd _ ts1 Et) as (ts0 & E0 & [_ Hx _ _ _]). exists ts0. by rewrite Hx.
  - intros p q Eq. destruct (H7 p q Eq) as [P1 P2 P3]. split; try done. intros b Hb. destruct (P2 b Hb) as (t' & ts1 & Et & Hi & Hc). cbn.
    destruct (Hfwd t' ts1 Et) as (ts0 & E0 & [Hx _ Hy _ _]). exists t', ts0. by rewrite Hx, Hy.
  - apply Forall_forall. intros task Hin. rewrite Forall_forall in Htk. pose proof (Htk task Hin) as Ht.
    destruct task; try done; (destruct Ht as [Hlt Ht]; split; [done|]; cbn; intros ts0 E0).
    + destruct (Hsess _ _ E0) as [[-> ->]|[_ E1]]; [|by apply Ht]. intros Hz. destruct (Hconf Hz) as [Hy|Hy]; [by apply (Ht ts)|done].
    + destruct (Hback _ _ E0) as (ts1 & E1 & [_ _ _ [_ Hf _ _ _] _]). rewrite Hf. by apply Ht.
    + destruct (Hback _ _ E0) as (ts1 & E1 & [_ _ _ [_ _ Hk _ _] _]). rewrite Hk. by apply Ht.
Qed.

Lemma cbs_linked s t ts ts' t' id :
  tracing_sessions_ s !! t = Some ts -> last_pending_clone_id_ ts <= last_pending_clone_id_ ts' ->
  (forall ts0, tracing_sessions_ s !! t' = Some ts0 -> id < last_pending_clone_id_ ts0) ->
  forall ts0, <[t := ts']> (tracing_sessions_ s) !! t' = Some ts0 -> id < last_pending_clone_id_ ts0.
Proof.
  intros E Hle Hx ts0. rewrite lookup_insert_Some. intros [[<- <-]|[_ E0]]; [|by apply Hx]. specialize (Hx ts E). lia.
Qed.

Lemma linked_refl ts : linked ts ts.
Proof. by repeat split. Qed.

(** Moving callbacks between what is in flight, the tasks and the flushes of session [t]. *)
Lemma core_move extra extra' s t ts l tasks' :
  core extra s -> tracing_sessions_ s !! t = Some ts -> Forall (task_ok s) tasks' ->
  extra' ++ omap task_cb tasks' ++ flush_cbs l ≡ₚ extra ++ omap task_cb (tasks s) ++ flush_cbs (pending_flushes ts) ->
  cbs_of t (flush_cbs l) ->
  (forall t' id, t' <> t -> omap (clone_bufs t' id) (extra' ++ omap task_cb tasks') ≡ₚ omap (clone_bufs t' id) (extra ++ omap task_cb (tasks s))) ->
  core extra' (set_tasks tasks' (upd_session t (set_pending_flushes l ts) s)).
Proof.
  intros HC E Htk Hp Hl Hoth. pose proof (co_session _ _ HC t ts E) as Hso.
  assert (Hall : forall t' id bufs, CbClone t' id bufs ∈ extra' ++ omap task_cb tasks' ++ flush_cbs l -> t' <= last_tracing_session_id_ s /\
    forall ts0, tracing_sessions_ s !! t' = Some ts0 -> id < last_pending_clone_id_ ts0).
  { intros t' id bufs. rewrite Hp, (assoc_L (++)), elem_of_app. intros [Hin|Hin]; [by apply (co_cbs _ _ HC t' id bufs)|].
    apply list_elem_of_fmap in Hin as (f & Hf & Hin). destruct (so_flushes _ _ _ _ Hso f t' id bufs Hin) as [-> Hid]; [by rewrite Hf|].
    destruct (so_id _ _ _ _ Hso). split; [lia|]. intros ts0 E0. by simplify_eq. }
  apply (core_session extra _ _ _ ts); try done; [by left| |].
  - intros t' id bufs Hin. destruct (Hall t' id bufs) as [Hlt Hx]; [rewrite (assoc_L (++)), elem_of_app; by left|].
    split; [done|]. by apply (cbs_linked s t ts).
  - destruct Hso as [S1 S2 S3 S4 S5 S6 S6' S7 S8 S9 S10]. split; cbn; try done.
    + intros f t' id bufs Hin Hf. assert (Hin' : CbClone t' id bufs ∈ flush_cbs l) by (apply list_elem_of_fmap; by exists f).
      pose proof (Hl t' id bufs Hin') as ->. split; [done|]. apply (Hall t id bufs); [|done]. rewrite !elem_of_app. auto.
    + intros id op Eo. destruct (S9 id op Eo) as [Hlt Hc]. split; [done|]. eapply clone_ok_perm; [|exact Hc].
      unfold outstanding. cbn. apply omap_Permutation. symmetry. exact Hp.
Qed.

(** The callback of an operation that has ended. *)
Lemma core_drop cb extra s :
  core (cb :: extra) s -> (forall t id bufs ts, cb = CbClone t id bufs -> tracing_sessions_ s !! t = Some ts -> pending_clones ts !! id = None) -> core extra s.
Proof.
  intros [H1 H2 H3 H4 H5 H6 H7 H8 H9 H10 H11 H12 H13 H14] Hn. split; try done.
  - intros t ts E. destruct (H1 t ts E) as [S1 S2 S3 S4 S5 S6 S6' S7 S8 S9 S10]. split; try done.
    intros id op Eo. destruct (S9 id op Eo) as [Hlt Hc]. split; [done|]. unfold outstanding in *. cbn [app omap list_omap] in Hc.
    destruct (clone_bufs t id cb) as [bufs|] eqn:Ec; [|done]. apply clone_bufs_Some in Ec. by rewrite (Hn t id bufs ts Ec E) in Eo.
  - intros t id bufs Hin. apply (H10 t id bufs). by right.
Qed.

(** The operations of a session are changed, here at [id]. *)
Lemma core_clones extra extra' s t ts ops :
  core extra s -> tracing_sessions_ s !! t = Some ts -> extra' ⊆ extra ->
  (forall t' id, t' <> t -> omap (clone_bufs t' id) extra' = omap (clone_bufs t' id) extra) ->
  (forall id op, ops !! id = Some op -> id < last_pending_clone_id_ ts /\ clone_ok (outstanding extra' s t id ts) (buffers_index ts) op) ->
  core extra' (upd_session t (set_pending_clones ops ts) s).
Proof.
  intros HC E Hsub Hoth Hops.
  assert (Hx : core extra' (set_tasks (tasks s) (upd_session t (set_pending_clones ops ts) s))); [|done].
  apply (core_session extra _ _ _ ts); try done; [apply HC|by left| | |].
  - intros t' id bufs Hin. destruct (co_cbs _ _ HC t' id bufs) as [Hlt Hx]; [set_solver|]. split; [done|]. by apply (cbs_linked s t ts).
  - intros t' id Hne. by rewrite !omap_app, (Hoth t' id Hne).
  - destruct (co_session _ _ HC t ts E) as [S1 S2 S3 S4 S5 S6 S6' S7 S8 S9 S10]. by split.
Qed.

(** ** Cloning *)

Definition opt_ok (o : option Buf) : Prop := match o with Some b => buf_ok b | None => True end.
Definition has_buf (l : list (option Buf)) (i : nat) : Prop := exists b, l !! i = Some (Some b).

Lemma has_buf_insert l i j b : (i < length l)%nat -> has_buf l j \/ j = i -> has_buf (<[i := Some b]> l) j.
Proof.
  intros Hi Hj. unfold has_buf. destruct (decide (j = i)) as [->|Hne]; [exists b; by rewrite list_lookup_insert_eq|].
  destruct Hj as [[x Hx]|]; [|done]. exists x. by rewrite list_lookup_insert_ne.
Qed.

Lemma try_create_ok t s n discard :
  size_ok n -> exists s' o, try_create n discard s = Some (s', o) /\ frame t s s' /\ tracing_sessions_ s' = tracing_sessions_ s /\
    buffers_ s' = buffers_ s /\ match o with Some b => buf_ok b /\ read_only b = false | None => True end.
Proof.
  intros Hn. unfold try_create. destruct (n <=? memory_left s); [|exists s, None; split; [done|]; split; [apply frame_refl|done]].
  destruct (dp_create n discard Hn) as (b & -> & Hb). cbn. eexists _, (Some b). split; [done|]. split; [apply frame_memory|done].
Qed.

(** The copy of one buffer. *)
Lemma clone_one_ok extra t s b buf cfg :
  core extra s -> buffers_ s !! b = Some buf ->
  exists s' o, (if transfer_on_clone cfg then
             '(s, ofresh) ← try_create (buf_size buf) (buf_discard buf) s;
             Some (match ofresh with
                   | Some fresh => (set_buffers_ (<[b := fresh]> (buffers_ s)) s, Some buf)
                   | None => (s, None)
                   end)
           else try_clone buf s) = Some (s', o) /\ frame t s s' /\ tracing_sessions_ s' = tracing_sessions_ s /\ opt_ok o.
Proof.
  intros HC Eb. destruct (co_owned _ _ HC b buf Eb) as [Hok _]. destruct (transfer_on_clone cfg).
  - destruct (try_create_ok t s (buf_size buf) (buf_discard buf) (dp_size buf Hok)) as (s1 & o & -> & F1 & S1 & B1 & Ho). cbn [mbind option_bind].
    destruct o as [fresh|]; (eexists _, _; split; [done|]); [|done]. split; [|done]. eapply frame_trans; [exact F1|].
    eapply frame_insert_buf; [by rewrite B1|]. intros _. tauto.
  - unfold try_clone. destruct (buf_size buf <=? memory_left s); [|eexists s, None; split; [done|]; split; [apply frame_refl|done]].
    destruct (dp_clone buf Hok) as (b' & -> & Hb'). cbn. eexists _, (Some b'). split; [done|]. split; [apply frame_memory|done].
Qed.

Lemma clone_loop_ok extra t bufs l : forall i snaps s,
  core extra s -> Forall (fun x => is_Some (buffers_ s !! x.1)) l -> length snaps = (i + length l)%nat -> Forall opt_ok snaps ->
  exists s' snaps' ok, clone_loop l bufs i snaps s = Some (s', snaps', ok) /\ frame t s s' /\ tracing_sessions_ s' = tracing_sessions_ s /\
    length snaps' = length snaps /\ Forall opt_ok snaps' /\ (forall j, has_buf snaps j -> has_buf snaps' j) /\
    (ok = true -> forall k b c, l !! k = Some (b, c) -> b ∈ bufs -> has_buf snaps' (i + k)).
Proof.
  induction l as [|[b cfg] l IH]; intros i snaps s HC Hl Hlen Hok; cbn [clone_loop].
  { exists s, snaps, true. split; [done|]. split; [apply frame_refl|]. by repeat split. }
  apply Forall_cons in Hl as [[buf Eb] Hl]. cbn [fst] in Eb. cbn [length] in Hlen.
  case_bool_decide as Hin; cbn [negb].
  - rewrite Eb. cbn [mbind option_bind]. destruct (clone_one_ok extra t s b buf cfg HC Eb) as (s1 & o & -> & F1 & S1 & Ho). cbn [mbind option_bind].
    destruct o as [x|]; [|exists s1, snaps, false; split; [done|]; repeat (split; [done|]); done].
    destruct (IH (S i) (<[i := Some x]> snaps) s1) as (s2 & snaps2 & ok & -> & F2 & S2 & L2 & O2 & K2 & N2).
    { by eapply core_frame. }
    { eapply Forall_impl; [exact Hl|]. intros [b' c'] [x' Ex]. destruct (frame_buf_fwd _ _ _ _ _ F1 Ex) as (y & -> & _). by eexists. }
    { rewrite length_insert. lia. } { by apply Forall_insert. }
    exists s2, snaps2, ok. split; [done|]. split; [by eapply frame_trans|]. split; [congruence|]. rewrite length_insert in L2. split; [done|]. split; [done|]. split.
    + intros j Hj. apply K2, has_buf_insert; [lia|by left].
    + intros Ht [|k] b' c' Ek Hb; [rewrite Nat.add_0_r; apply K2, has_buf_insert; [lia|by right]|]. replace (i + S k)%nat with (S i + k)%nat by lia. by eapply N2.
  - destruct (IH (S i) snaps s HC Hl ltac:(lia) Hok) as (s2 & snaps2 & ok & -> & F2 & S2 & L2 & O2 & K2 & N2).
    exists s2, snaps2, ok. repeat (split; [done|]). intros Ht [|k] b' c' Ek Hb; [cbn in Ek; by simplify_eq|].
    replace (i + S k)%nat with (S i + k)%nat by lia. by eapply N2.
Qed.

Lemma DoCloneBuffers_ok extra s t ts bufs snaps :
  core extra s -> tracing_sessions_ s !! t = Some ts -> length snaps = length (buffers_index ts) -> Forall opt_ok snaps ->
  exists s' snaps' ok, DoCloneBuffers t bufs snaps s = Some (s', snaps', ok) /\ frame t s s' /\ tracing_sessions_ s' = tracing_sessions_ s /\
    length snaps' = length snaps /\ Forall opt_ok snaps' /\ (forall j, has_buf snaps j -> has_buf snaps' j) /\
    (ok = true -> forall i b, buffers_index ts !! i = Some b -> b ∈ bufs -> has_buf snaps' i).
Proof.
  intros HC E Hlen Hok. unfold DoCloneBuffers. rewrite E. cbn [mbind option_bind].
  pose proof (so_len _ _ _ _ (co_session _ _ HC t ts E)) as Hl. rewrite Hl, Nat.eqb_refl, <- Hl, <- Hlen, firstn_all, Nat.sub_diag, app_nil_r.
  destruct (clone_loop_ok extra t bufs (zip (buffers_index ts) (buffers (config ts))) 0 snaps s HC) as (s' & snaps' & ok & -> & H); try done.
  - apply Forall_forall. intros [b c] Hin. apply elem_of_zip_l in Hin. destruct (so_bufs _ _ _ _ (co_session _ _ HC t ts E) b Hin) as (x & Ex & _). by eexists.
  - rewrite length_zip_with. cbn. lia.
  - exists s', snaps', ok. split; [done|]. destruct H as (H1 & H2 & H3 & H4 & H5 & H6). repeat (split; [done|]). intros Ht i b Ei Hb.
    assert (Hc : is_Some (buffers (config ts) !! i)) by (apply lookup_lt_is_Some_2; rewrite <- Hl; by apply lookup_lt_Some in Ei).
    destruct Hc as [c Ec]. apply (H6 Ht i b c); [|done]. apply lookup_zip_with_Some. by exists b, c.
Qed.

(** ** New sessions *)

(** What a session is like before any data source is set up. *)
Record fresh_session (c : nat) (ids : list Z) ts : Prop := {
  fs_index : buffers_index ts = ids;
  fs_len : length ids = length (buffers (config ts));
  fs_consumer : consumer_maybe_null ts = Some c;
  fs_key : detach_key ts = EmptyString;
  fs_insts : data_source_instances ts = [];
  fs_flushes : pending_flushes ts = [];
  fs_clones : pending_clones ts = ∅;
  fs_state : state ts <> CONFIGURED;
  fs_filter : forall f, trace_filter ts = Some f -> filter_ok f }.

(** A session [t] of consumer [c], with new buffers [ids]. *)
Lemma core_new_session extra s t c q ts ids bufs a :
  core extra s -> consumers_ s !! c = Some q -> tracing_session_id_ q = 0 -> t = last_tracing_session_id_ s + 1 -> fresh_session c ids ts ->
  NoDup ids -> (forall b, b ∈ ids -> buffers_ s !! b = None) ->
  (forall b, b ∈ ids -> exists buf, bufs !! b = Some buf /\ buf_ok buf /\ (state ts <> CLONED_READ_ONLY -> read_only buf = false)) ->
  (forall b, b ∉ ids -> bufs !! b = buffers_ s !! b) -> uses a (dom bufs) -> max_id_ a = kMaxTraceBufferID ->
  core extra (upd_consumer c (set_tracing_session_id_ t q) (upd_session t ts (set_buffers_ bufs (set_buffer_ids_ a (set_last_tracing_session_id_ t s))))).
Proof.
  intros HC Eq Hq -> [F1 F2 F3 F4 F5 F6 F7 F8 F9] Hnd Hfresh Hnew Hold Hu Hmax. pose proof HC as [H1 H2 H3 H4 H5 H6 H7 H8 H9 H10 H11 H12 H13 H14].
  set (t := last_tracing_session_id_ s + 1) in *.
  assert (Hnone : tracing_sessions_ s !! t = None).
  { destruct (tracing_sessions_ s !! t) as [ts'|] eqn:E'; [|done]. destruct (so_id _ _ _ _ (H1 t ts' E')). lia. }
  assert (Hsess : forall t' ts0, <[t := ts]> (tracing_sessions_ s) !! t' = Some ts0 -> t' = t /\ ts0 = ts \/ t' <> t /\ tracing_sessions_ s !! t' = Some ts0).
  { intros t' ts0. rewrite lookup_insert_Some. intros [[<- <-]|[Hne E0]]; auto. }
  assert (Hkeep : forall t' ts0, tracing_sessions_ s !! t' = Some ts0 -> <[t := ts]> (tracing_sessions_ s) !! t' = Some ts0).
  { intros t' ts0 E0. rewrite lookup_insert_ne; [done|]. intros <-. congruence. }
  assert (Hdis : forall t' ts0 b, tracing_sessions_ s !! t' = Some ts0 -> b ∈ buffers_index ts0 -> b ∉ ids).
  { intros t' ts0 b E0 Hb Hi. destruct (so_bufs _ _ _ _ (H1 t' ts0 E0) b Hb) as (x & Ex & _). by rewrite (Hfresh b Hi) in Ex. }
  split; cbn; try done.
  - intros t' ts0 E0. destruct (Hsess t' ts0 E0) as [[-> ->]|[Hne E1]].
    + split; cbn; rewrite ?F1, ?F6, ?F7; try done; [lia| | | | |].
      * rewrite F3. intros ? [= <-]. split; [done|]. eexists. by rewrite lookup_insert_eq.
      * intros b Hb. destruct (Hnew b Hb) as (x & Ex & _ & Hr). by exists x.
      * unfold keys. rewrite F5. intros k Hk. by apply not_elem_of_nil in Hk.
      * unfold keys. rewrite F5. cbn. by repeat constructor.
      * intros f t' id bufs' Hf. by apply not_elem_of_nil in Hf.
    + destruct (H1 t' ts0 E1) as [S1 S2 S3 S4 S5 S6 S6' S7 S8 S9 S10]. split; cbn; try done; [lia| |].
      * intros c' Hc. destruct (S2 c' Hc) as (Hk & q' & Eq' & Ht). split; [done|]. exists q'. split; [|done].
        rewrite lookup_insert_ne; [done|]. intros <-. simplify_eq. lia.
      * intros b Hb. rewrite Hold by (by eapply Hdis). by apply S5.
  - intros t1 t2 ts1 ts2 b E1 E2 B1 B2. destruct (Hsess _ _ E1) as [[-> ->]|[N1 E1']], (Hsess _ _ E2) as [[-> ->]|[N2 E2']]; try done.
    + exfalso. rewrite F1 in B1. by apply (Hdis t2 ts2 b E2' B2). + exfalso. rewrite F1 in B2. by apply (Hdis t1 ts1 b E1' B1). + by eapply H2.
  - intros b buf Eb. destruct (decide (b ∈ ids)) as [Hi|Hi].
    + destruct (Hnew b Hi) as (x & Ex & Hx & _). assert (x = buf) as -> by congruence. split; [done|]. exists t, ts. rewrite lookup_insert_eq. by split; [|rewrite F1].
    + rewrite Hold in Eb by done. destruct (H5 b buf Eb) as (Ho & t' & ts' & Et & Hb). split; [done|]. exists t', ts'. auto.
  - intros c' q'. rewrite lookup_insert_Some. intros [[<- <-]|[Hne Eq']].
    + split; [by eapply H6|]. right. exists ts. cbn. by rewrite lookup_insert_eq.
    + destruct (H6 c' q' Eq') as [Hn [Hz|(ts' & Et & Hc)]]; split; auto. right. exists ts'. auto.
  - intros p r Er. destruct (H7 p r Er) as [P1 P2 P3]. split; try done. intros b Hb. destruct (P2 b Hb) as (t' & ts' & Et & Hx). exists t', ts'. cbn. auto.
  - eapply Forall_impl; [exact H9|]. intros [] Ht; try done; (destruct Ht as [Hlt Ht]; split; [cbn; lia|]; cbn; intros ts0 E0;
      destruct (Hsess _ _ E0) as [[-> ->]|[N2 E2']]; [lia|by apply Ht]).
  - intros t' id bufs' Hin. destruct (H10 t' id bufs' Hin) as [Hlt Hx]. split; [lia|]. intros ts0 E0.
    destruct (Hsess _ _ E0) as [[-> ->]|[N2 E2']]; [lia|by apply Hx].
  - lia.
Qed.

(** Existing sessions keep their state and data sources. *)
Definition sessions_kept s s' : Prop :=
  forall t ts, tracing_sessions_ s !! t = Some ts -> exists ts', tracing_sessions_ s' !! t = Some ts' /\ same_insts ts ts'.

Lemma core_ids extra s a : core extra s -> uses a (dom (buffers_ s)) -> max_id_ a = kMaxTraceBufferID -> core extra (set_buffer_ids_ a s).
Proof.
  intros [H1 H2 H3 H4 H5 H6 H7 H8 H9 H10 H11 H12 H13 H14] Hu Hm. split; try done.
  - intros t ts E. destruct (H1 t ts E). by split.
  - intros p q E. destruct (H7 p q E). by split.
Qed.

Lemma lookup_zip_map (ids : list Z) (bufs : list Buf) (m : gmap Z Buf) : forall b, NoDup ids -> length bufs = length ids ->
  (forall i x, ids !! i = Some b -> bufs !! i = Some x -> (list_to_map (zip ids bufs) ∪ m) !! b = Some x) /\
  (b ∉ ids -> (list_to_map (zip ids bufs) ∪ m) !! b = m !! b).
Proof.
  intros b Hnd Hlen. assert (Hz : (zip ids bufs).*1 = ids) by (apply fst_zip; lia). split.
  - intros i x Ei Ex. apply lookup_union_Some_l, elem_of_list_to_map_1; [by rewrite Hz|].
    apply list_elem_of_lookup. exists i. apply lookup_zip_with_Some. by exists b, x.
  - intros Hn. rewrite lookup_union_r; [done|]. apply not_elem_of_list_to_map_1. by rewrite Hz.
Qed.

Lemma dom_zip_map (ids : list Z) (bufs : list Buf) (m : gmap Z Buf) :
  length bufs = length ids -> dom (list_to_map (zip ids bufs) ∪ m) = list_to_set ids ∪ dom m.
Proof. intros Hlen. rewrite dom_union_L, dom_list_to_map_L, fst_zip by lia. done. Qed.

(** A session is made of the copies, or an error is returned. *)
Lemma FinishCloneSession_ok extra s c q t src bufs skip outcome :
  core extra s -> steady ∅ s -> consumers_ s !! c = Some q -> tracing_sessions_ s !! t = Some src ->
  Forall buf_ok bufs -> length bufs = length (buffers_index src) ->
  exists s' r, FinishCloneSession c t (Some <$> bufs) skip outcome s = Some (s', r) /\ core extra s' /\ steady ∅ s' /\ sessions_kept s s' /\
    exists src', tracing_sessions_ s' !! t = Some src' /\ pending_clones src' = pending_clones src.
Proof.
  intros HC HS Eq E Hb Hlen. unfold FinishCloneSession. rewrite Eq. cbn [mbind option_bind]. rewrite (GetTracingSession_core extra), E by done.
  assert (Hkeep : sessions_kept s s) by (intros t' ts' E'; by exists ts').
  destruct (Z.eqb_spec (tracing_session_id_ q) 0) as [Hq|Hq]; cbn [negb]; [|exists s, (Some AlreadyAttached); repeat (split; [done|]); eauto].
  destruct (allocate_n_ok (length (Some <$> bufs)) (buffer_ids_ s) (dom (buffers_ s)) []) as (a & ids & Ea & Hm & Hcase).
  { cbn. rewrite (left_id_L ∅ (∪)). apply HC. } { constructor. } { intros i Hi. by apply not_elem_of_nil in Hi. }
  unfold AllocateMultiple. rewrite Ea. cbn [mbind option_bind]. rewrite length_fmap in *.
  assert (Hids : uses a (dom (buffers_ s)) -> core extra (set_buffer_ids_ a s)) by (intros Hu; apply core_ids; [done|done|by rewrite Hm; apply HC]).
  destruct (Nat.eqb_spec (length ids) (length bufs)) as [Hl|Hl]; cbn [negb].
  2: { destruct Hcase as [(Hx & _)|(-> & Hu & _)]; [cbn in Hx; lia|]. eexists _, _. split; [done|]. split; [by apply Hids|]. split; [done|]. split; [done|]. cbn. eauto. }
  assert (Hnew : NoDup ids /\ (forall i, i ∈ ids -> i ∉ dom (buffers_ s)) /\ uses a (list_to_set ids ∪ dom (buffers_ s))).
  { destruct Hcase as [(_ & H1 & H2 & H3)|(-> & Hu & _)]; [done|]. split; [constructor|]. split; [intros i Hi; by apply not_elem_of_nil in Hi|].
    cbn. by rewrite (left_id_L ∅ (∪)). }
  destruct Hnew as (Hnd & Hfr & Hu).
  assert (Em : mapM id (Some <$> bufs) = Some bufs) by (apply mapM_Some, Forall2_fmap_l; by apply Forall_Forall2_diag, Forall_true). rewrite Em. cbn [mbind option_bind]. cbn zeta.
  set (src' := set_received_triggers [] (set_num_triggers_emitted_into_trace 0 src)).
  assert (F : frame t s (upd_session t src' s)) by (eapply frame_upd; [done|]; sess_id src).
  assert (HC' : core extra (upd_session t src' s)) by (by eapply core_frame).
  change (last_tracing_session_id_ (set_buffer_ids_ a s)) with (last_tracing_session_id_ s). set (t2 := last_tracing_session_id_ s + 1).
  match goal with |- context [upd_session t2 ?x _] => set (ts2 := x) end.
  match goal with |- context [Some (?x, None)] => set (s' := x) end.
  assert (Hne : t <> t2) by (destruct (so_id _ _ _ _ (co_session _ _ HC t src E)); lia).
  assert (Hts2 : fresh_session c ids ts2 /\ state ts2 = CLONED_READ_ONLY /\ states ts2 = []).
  { assert (Hlc : length ids = length (buffers (config src))) by (rewrite Hl, Hlen; apply (so_len _ _ _ _ (co_session _ _ HC t src E))).
    pose proof (so_filter _ _ _ _ (co_session _ _ HC t src E)) as Hfl. subst ts2. destruct skip; (split; [by split|done]). }
  destruct Hts2 as (Hts2 & Hst2 & Hin2). assert (HC2 : core extra s').
  { apply (core_new_session extra (upd_session t src' s) t2 c q ts2 ids (list_to_map (zip ids (set_read_only <$> bufs)) ∪ buffers_ s) a); try done.
    - intros b Hbi. apply Hfr in Hbi. by apply not_elem_of_dom in Hbi.
    - intros b Hbi. apply list_elem_of_lookup in Hbi as [i Hi]. assert (Hx : is_Some (bufs !! i)) by (apply lookup_lt_is_Some_2; rewrite <- Hl; by apply lookup_lt_Some in Hi).
      destruct Hx as [x Ex]. exists (set_read_only x). split; [|split; [apply dp_read_only; by eapply Forall_lookup_1|by rewrite Hst2]].
      apply (proj1 (lookup_zip_map ids (set_read_only <$> bufs) (buffers_ s) b Hnd ltac:(by rewrite length_fmap)) i); [done|]. by rewrite list_lookup_fmap, Ex.
    - intros b Hni. by apply lookup_zip_map; [|rewrite length_fmap|].
    - by rewrite dom_zip_map by (by rewrite length_fmap).
    - rewrite Hm. apply HC. }
  exists s', None. split; [done|]. split; [done|]. split; [|split].
  - intros t' ts' _. cbn. rewrite !lookup_insert_Some. intros [[<- <-]|[_ [[<- <-]|[_ E']]]]; [by rewrite Hst2, Hin2|by apply (HS t src)|by apply (HS t' ts')].
  - intros t' ts' E'. cbn. destruct (decide (t' = t)) as [->|Hnt].
    + exists src'. rewrite lookup_insert_ne, lookup_insert_eq by done. split; [done|]. simplify_eq. done.
    + exists ts'. rewrite !lookup_insert_ne; try done. destruct (so_id _ _ _ _ (co_session _ _ HC t' ts' E')). lia.
  - exists src'. cbn. by rewrite lookup_insert_ne, lookup_insert_eq.
Qed.

Lemma steady_same s s' : (forall t ts', tracing_sessions_ s' !! t = Some ts' -> exists ts, tracing_sessions_ s !! t = Some ts /\ same_insts ts ts') ->
  forall X, steady X s -> steady X s'.
Proof. intros Hb X HS t ts' Hn E'. destruct (Hb t ts' E') as (ts & E & (A1 & A2 & _)). rewrite A1, A2. by apply (HS t). Qed.

Lemma upd_same s t ts ts' : tracing_sessions_ s !! t = Some ts -> same_insts ts ts' ->
  sessions_kept s (upd_session t ts' s) /\ forall X, steady X s -> steady X (upd_session t ts' s).
Proof.
  intros E Hs. split.
  - intros t' ts0 E0. cbn. destruct (decide (t' = t)) as [->|Hne]; [exists ts'; rewrite lookup_insert_eq; by assert (ts0 = ts) as -> by congruence|].
    exists ts0. by rewrite lookup_insert_ne.
  - apply steady_same. intros t' ts0. cbn. rewrite lookup_insert_Some. intros [[<- <-]|[_ E0]]; eauto.
    exists ts0. split; [done|apply same_insts_refl].
Qed.

Lemma sessions_kept_trans a b c : sessions_kept a b -> sessions_kept b c -> sessions_kept a c.
Proof.
  intros H1 H2 t ts E. destruct (H1 t ts E) as (ts1 & E1 & (A1 & A2 & A3)). destruct (H2 t ts1 E1) as (ts2 & E2 & (B1 & B2 & B3)).
  exists ts2. split; [done|]. split; [congruence|]. split; congruence.
Qed.

Lemma sessions_kept_eq s s' : tracing_sessions_ s' = tracing_sessions_ s -> sessions_kept s s'.
Proof. intros Es t ts E. exists ts. rewrite Es. split; [done|apply same_insts_refl]. Qed.

(** What every callback and every flush gives: the callback is no longer in flight. *)
Definition completes (r : option TracingServiceImpl) s (extra : list FlushCallback) : Prop :=
  exists s', r = Some s' /\ core extra s' /\ steady ∅ s' /\ sessions_kept s s'.

Lemma finish_clone_op_ok extra s t id bufs ts op result :
  core (CbClone t id bufs :: extra) s -> steady ∅ s -> tracing_sessions_ s !! t = Some ts ->
  completes (finish_clone_op t id op result s) s extra.
Proof.
  intros HC HS E. unfold finish_clone_op.
  assert (Hm : exists m, (match consumers_ s !! weak_consumer op with Some _ => send (ConsumerOnSessionCloned (weak_consumer op) result) s | None => s end) = set_sent m s).
  { destruct (consumers_ s !! weak_consumer op); [by eexists|]. exists (sent s). by destruct s. }
  destruct Hm as [m ->]. cbn. rewrite E. cbn. set (ts' := set_pending_clones _ ts).
  assert (HC1 : core (CbClone t id bufs :: extra) (upd_session t ts' (set_sent m s))).
  { apply (core_clones (CbClone t id bufs :: extra) _ _ _ ts); try done; [exact (core_frame _ _ _ _ HC (frame_sent t s m))|].
    intros id' op' Eo. apply lookup_delete_Some in Eo as [_ Eo]. by apply (so_clones _ _ _ _ (co_session _ _ HC t ts E)). }
  destruct (upd_same (set_sent m s) t ts ts' E (same_insts_refl ts)) as [Hk Hst].
  eexists. split; [done|]. split; [|split; [by apply Hst|exact Hk]].
  eapply core_drop; [exact HC1|]. intros t' id' bufs' ts0 [= <- <- <-]. cbn. rewrite lookup_insert_eq. intros [= <-]. cbn. apply lookup_delete_eq.
Qed.

Lemma all_bufs (l : list (option Buf)) : (forall i, (i < length l)%nat -> has_buf l i) -> Forall opt_ok l -> exists bufs, l = Some <$> bufs /\ Forall buf_ok bufs.
Proof.
  induction l as [|o l IH]; intros Hl Ho; [by exists []|]. apply Forall_cons in Ho as [Ho Hos].
  destruct (IH) as (bufs & -> & Hb); [|done|].
  - intros i Hi. apply (Hl (S i)). cbn. lia.
  - destruct (Hl 0%nat) as [b Hb0]; [cbn; lia|]. cbn in Hb0. simplify_eq. exists (b :: bufs). split; [done|by constructor].
Qed.

Lemma outstanding_cons t id bufs extra s ts t' id' :
  outstanding (CbClone t id bufs :: extra) s t' id' ts =
    if bool_decide (t' = t /\ id' = id) then bufs :: outstanding extra s t' id' ts else outstanding extra s t' id' ts.
Proof.
  unfold outstanding. cbn [app omap list_omap clone_bufs]. case_bool_decide as Hd.
  - destruct Hd as [-> ->]. by rewrite !Z.eqb_refl.
  - destruct (Z.eqb_spec t t'), (Z.eqb_spec id id'); cbn; try done. exfalso. apply Hd. by subst.
Qed.

Lemma OnFlushDoneForClone_ok extra s t id bufs outcome :
  core (CbClone t id bufs :: extra) s -> steady ∅ s -> completes (OnFlushDoneForClone t id bufs outcome s) s extra.
Proof.
  intros HC HS. unfold OnFlushDoneForClone. rewrite (GetTracingSession_core _ _ _ HC).
  assert (Hdrop : (forall ts, tracing_sessions_ s !! t = Some ts -> pending_clones ts !! id = None) -> completes (Some s) s extra).
  { intros Hn. exists s. split; [done|]. split; [|split; [done|by apply sessions_kept_eq]].
    eapply core_drop; [exact HC|]. intros t' id' bufs' ts [= <- <- <-]. apply Hn. }
  destruct (tracing_sessions_ s !! t) as [ts|] eqn:E; [|by apply Hdrop].
  destruct (pending_clones ts !! id) as [op|] eqn:Eo; [|apply Hdrop; by intros ? [= <-]]. clear Hdrop.
  destruct (so_clones _ _ _ _ (co_session _ _ HC t ts E) id op Eo) as [Hlt [C1 C2 C3 C4 C5]]. rewrite outstanding_cons, bool_decide_true in * by done.
  destruct (DoCloneBuffers_ok _ s t ts bufs (pc_buffers op) HC E C3 C4) as (s1 & snaps & ok & -> & F1 & S1 & L1 & O1 & K1 & N1). cbn [mbind option_bind].
  assert (HC1 : core (CbClone t id bufs :: extra) s1) by (by eapply core_frame).
  assert (HS1 : steady ∅ s1) by (unfold steady; by rewrite S1).
  assert (E1 : tracing_sessions_ s1 !! t = Some ts) by (by rewrite S1).
  assert (Hk1 : sessions_kept s s1) by (by apply sessions_kept_eq).
  assert (Hfin : forall op r s2, core (CbClone t id bufs :: extra) s2 -> steady ∅ s2 -> sessions_kept s s2 -> completes (finish_clone_op t id op r s2) s extra).
  { intros op' r s2 HC2 HS2 Hk2. destruct (Hk2 t ts E) as (ts2 & E2 & _).
    destruct (finish_clone_op_ok extra s2 t id bufs ts2 op' r HC2 HS2 E2) as (s3 & -> & H1 & H2 & H3). exists s3. repeat (split; [done|]). by eapply sessions_kept_trans. }
  destruct ok; cbn [negb]; [|by apply Hfin]. specialize (N1 eq_refl).
  set (out := outstanding extra s t id ts) in *. cbn [length] in C1, C2.
  assert (Hcnt : u64 (pending_flush_cnt op - 1) = Z.of_nat (length out)) by (rewrite C1; unfold u64; rewrite Z.mod_small; lia).
  assert (Hdone : forall i b, buffers_index ts !! i = Some b -> has_buf snaps i \/ exists bufs', bufs' ∈ out /\ b ∈ bufs').
  { intros i b Ei. destruct (C5 i b Ei) as [Hx|(bufs' & Hin & Hb)]; [left; by apply K1|]. apply elem_of_cons in Hin as [->|Hin]; [left; by eapply N1|right; eauto]. }
  rewrite Hcnt. destruct (Z.eqb_spec (Z.of_nat (length out)) 0) as [Hz|Hz]; cbn [negb].
  - assert (Hnil : out = []) by (destruct out; [done|cbn in Hz; lia]).
    destruct (all_bufs snaps) as (copies & -> & Hcp); [|done|].
    { intros i Hi. assert (Hx : is_Some (buffers_index ts !! i)) by (apply lookup_lt_is_Some_2; lia). destruct Hx as [b Eb].
      destruct (Hdone i b Eb) as [Hx|(? & Hx & _)]; [done|]. rewrite Hnil in Hx. by apply not_elem_of_nil in Hx. }
    cbn [weak_consumer skip_trace_filter]. destruct (consumers_ s1 !! weak_consumer op) as [q|] eqn:Eq; [|by apply Hfin].
    destruct (FinishCloneSession_ok _ s1 (weak_consumer op) q t ts copies (skip_trace_filter op) (negb (flush_failed op || negb outcome)) HC1 HS1 Eq E1 Hcp)
      as (s2 & r & -> & HC2 & HS2 & Hk2 & _); [rewrite length_fmap in L1; lia|]. cbn [mbind option_bind]. apply Hfin; [done..|by eapply sessions_kept_trans].
  - match goal with |- completes (Some (upd_session t ?x s1)) _ _ => set (ts' := x) end.
    destruct (upd_same s1 t ts ts' E1 (same_insts_refl ts)) as [Hk Hst]. eexists. split; [done|]. split; [|split; [by apply Hst|by eapply sessions_kept_trans]].
    apply (core_clones (CbClone t id bufs :: extra) _ _ _ ts); try done; [set_solver| |].
    + intros t' id' Hne. cbn. destruct (Z.eqb_spec t t'); [congruence|done].
    + intros id' op'. rewrite lookup_insert_Some. intros [[<- <-]|[Hne Eo']].
      * split; [done|]. rewrite (outstanding_frame extra t s s1 t id ts ts F1 (sess_frame_refl ts)). fold out. split; try done; cbn [pc_buffers pending_flush_cnt]; [lia|congruence].
      * destruct (so_clones _ _ _ _ (co_session _ _ HC1 t ts E1) id' op' Eo') as [Hl' Hc']. split; [done|].
        rewrite outstanding_cons, bool_decide_false in Hc' by (intros [_ ?]; congruence). done.
Qed.

(** ** Flushes *)

Definition finishes (r : option TracingServiceImpl) (extra : list FlushCallback) : Prop := exists s', r = Some s' /\ core extra s' /\ steady ∅ s'.

Lemma completes_finishes r s extra : completes r s extra -> finishes r extra.
Proof. intros (s' & ? & ? & ? & _). by exists s'. Qed.

Lemma keeps_finishes extra t r s ts : core extra s -> steady ∅ s -> tracing_sessions_ s !! t = Some ts ->
  keeps t r s (fun ts' => inst_ok (state ts') (states ts')) -> finishes r extra.
Proof.
  intros HC HS E (s' & ts' & -> & F & E' & Hi). exists s'. split; [done|]. split; [by eapply core_frame|].
  apply (steady_close t s' ts'); try done. eapply (steady_frame t); [exact F|set_solver|]. by eapply steady_weaken; [|exact HS].
Qed.

Lemma set_consumers_id s : set_consumers_ (consumers_ s) s = s.
Proof. by destruct s. Qed.

Lemma unlinked extra s t ts c q :
  core extra s -> tracing_sessions_ s !! t = Some ts -> consumers_ s !! c = Some q -> consumer_maybe_null ts <> Some c -> tracing_session_id_ q <> t.
Proof.
  intros HC E Eq Hn <-. destruct (co_consumer _ _ HC c q Eq) as [_ [Hz|(ts' & Et & Hc)]]; [|congruence].
  destruct (so_id _ _ _ _ (co_session _ _ HC _ ts E)). lia.
Qed.

Lemma core_other_cb cb extra s : (forall t id bufs, cb <> CbClone t id bufs) -> core (cb :: extra) s -> core extra s.
Proof. intros Hn HC. eapply core_drop; [exact HC|]. intros t id bufs ts ->. by destruct (Hn t id bufs). Qed.

Lemma run_callback_ok cb success extra s : core (cb :: extra) s -> steady ∅ s -> finishes (run_callback cb success s) extra.
Proof.
  intros HC HS. destruct cb as [c token|t| |t id bufs]; cbn [run_callback].
  - apply core_other_cb in HC; [|done]. eexists. split; [done|]. split; [exact (core_frame _ 0 _ _ HC (frame_sent 0 s _))|exact HS].
  - apply core_other_cb in HC; [|done]. rewrite (GetTracingSession_core extra) by done. destruct (tracing_sessions_ s !! t) as [ts|] eqn:E; [|by exists s].
    set (ts' := set_final_flush_outcome (Some success) ts). assert (F : frame t s (upd_session t ts' s)) by (eapply frame_upd; [done|]; sess_id ts).
    assert (HC' : core extra (upd_session t ts' s)) by (by eapply core_frame).
    assert (HS' : steady ∅ (upd_session t ts' s)) by (by apply (upd_same s t ts ts' E (same_insts_refl ts))).
    assert (E' : tracing_sessions_ (upd_session t ts' s) !! t = Some ts') by (cbn; by rewrite lookup_insert_eq).
    destruct (consumer_maybe_null ts) as [c|] eqn:Ec.
    + eapply (keeps_finishes extra t _ _ ts'); [done..|]. eapply keeps_weaken; [by apply (DisableTracing_ok extra _ _ ts'); [..|by apply (HS' t)]|]. by intros ts2 (_ & ? & _).
    + destruct (FreeBuffers_ok extra _ t ts' HC' HS' E') as (s2 & -> & Hcons & _ & Hcut). exists s2. split; [done|].
      rewrite <- (set_consumers_id s2). apply Hcut. rewrite Hcons. split.
      * intros c q Eq. exists q. split; [done|]. right. split; [done|]. eapply (unlinked extra _ t ts'); [done|done|done|]. cbn. by rewrite Ec.
      * intros c q Eq _ _. by exists q.
  - apply core_other_cb in HC; [|done]. by exists s.
  - by eapply completes_finishes, OnFlushDoneForClone_ok.
Qed.

Lemma upd_upd t a b s : upd_session t b (upd_session t a s) = upd_session t b s.
Proof. unfold upd_session. cbn. by rewrite insert_insert_eq. Qed.

Lemma send_flush_ok (l : list (Z * list Z)) id reason : forall s, (forall x, x ∈ l -> is_Some (producers_ s !! x.1)) ->
  exists m, for_each (fun x s => _ ← GetProducer s x.1; Some (send (ProducerFlush x.1 id x.2 reason) s)) l s = Some (set_sent m s).
Proof.
  induction l as [|x l IH]; intros s Hl; [exists (sent s); by destruct s|]. cbn [for_each].
  destruct (Hl x) as [q Eq]; [left|]. assert (GetProducer s x.1 = Some q) as -> by done. cbn [mbind option_bind].
  destruct (IH (send (ProducerFlush x.1 id x.2 reason) s)) as [m ->]; [intros y Hy; apply Hl; by right|]. by exists m.
Qed.

(** A new flush: the callback waits in the session, or is run at once. *)
Lemma FlushDataSourceInstances_ok extra s t ts l cb reason :
  core (cb :: extra) s -> steady ∅ s -> tracing_sessions_ s !! t = Some ts -> cbs_of t [cb] -> (forall x, x ∈ l -> is_Some (producers_ s !! x.1)) ->
  finishes (FlushDataSourceInstances t l cb reason s) extra /\
  (forall id bufs, cb = CbClone t id bufs -> completes (FlushDataSourceInstances t l cb reason s) s extra).
Proof.
  intros HC HS E Hcb Hl. unfold FlushDataSourceInstances. rewrite E. cbn [mbind option_bind].
  assert (Hrun : finishes (run_callback cb false s) extra /\ (forall id bufs, cb = CbClone t id bufs -> completes (run_callback cb false s) s extra)).
  { split; [by apply run_callback_ok|]. intros id bufs ->. by apply OnFlushDoneForClone_ok. }
  destruct (1000 <? length (pending_flushes ts))%nat; [done|]. case_decide as Hst; [|done]. clear Hrun.
  set (n := last_flush_request_id_ s + 1). set (ts1 := set_flushes_requested _ _). set (pf := mkPendingFlush _ cb).
  set (ts2 := set_pending_flushes _ ts1). cbn zeta.
  destruct (send_flush_ok l n reason (upd_session t ts2 (set_last_flush_request_id_ n s)) Hl) as [m ->]. cbn [mbind option_bind].
  assert (Hcore : core extra (post (TFlushTimeout t n reason) (set_sent m (upd_session t ts2 (set_last_flush_request_id_ n s))))).
  { assert (F1 : frame t s (upd_session t ts1 (set_last_flush_request_id_ n s))).
    { eapply frame_trans; [|eapply frame_upd; [exact E|sess_id ts]]. frame_id t s. }
    set (s1 := upd_session t ts1 (set_last_flush_request_id_ n s)) in *.
    assert (E1 : tracing_sessions_ s1 !! t = Some ts1) by (cbn; by rewrite lookup_insert_eq).
    assert (HC1 : core (cb :: extra) s1) by (by eapply core_frame).
    assert (HC2 : core extra (upd_session t ts2 s1)).
    { change (core extra (set_tasks (tasks s1) (upd_session t ts2 s1))). apply (core_move (cb :: extra)); try done; [apply HC1| | |].
      - unfold flush_cbs. rewrite fmap_app. cbn. rewrite (assoc_L (++) extra), <- Permutation_cons_append, <- (assoc_L (++)). change (pending_flushes ts1) with (pending_flushes ts). solve_Permutation.
      - intros t' id bufs. unfold flush_cbs. rewrite fmap_app, elem_of_app. intros [Hin|Hin]; [|by apply (Hcb t' id bufs)].
        apply list_elem_of_fmap in Hin as (f & Hf & Hin). by apply (so_flushes _ _ _ _ (co_session _ _ HC1 t ts1 E1) f t' id bufs).
      - intros t' id Hne. cbn. destruct (clone_bufs t' id cb) as [bufs|] eqn:Ec; [|done]. apply clone_bufs_Some in Ec as ->. exfalso. apply Hne, (Hcb t' id bufs). left. }
    unfold s1 in HC2. rewrite upd_upd in HC2. eapply (core_frame _ t); [exact HC2|]. eapply frame_trans; [apply frame_sent|by apply frame_post]. }
  assert (Hsame : same_insts ts ts2) by done. destruct (upd_same s t ts ts2 E Hsame) as [Hk Hs2].
  split; [|intros _ _ _]; eexists; (split; [done|]); (split; [done|]); [exact (Hs2 ∅ HS)|]. split; [exact (Hs2 ∅ HS)|exact Hk].
Qed.

Lemma elem_of_group_add p id l x : x ∈ group_add p id l -> x.1 = p \/ exists y, y ∈ l /\ y.1 = x.1.
Proof.
  induction l as [|[q ids] l IH]; cbn.
  - intros ->%list_elem_of_singleton. by left.
  - destruct (Z.eqb_spec p q) as [->|Hne]; [|destruct (p <? q)]; rewrite elem_of_cons.
    + intros [->|Hin]; [by left|]. right. exists x. split; [by right|done].
    + intros [->|Hin]; [by left|]. right. by exists x.
    + intros [->|Hin]; [right; exists (q, ids); split; [left|done]|]. destruct (IH Hin) as [Hp|(y & Hy & Hxy)]; [by left|]. right. exists y. split; [by right|done].
Qed.

(** Data sources are grouped by producers of the session. *)
Lemma elem_of_grouped (f : Z * DataSourceInstance -> bool) insts x :
  x ∈ foldl (fun l y => if f y then group_add y.1 (instance_id y.2) l else l) [] insts -> exists y, y ∈ insts /\ y.1 = x.1.
Proof.
  assert (Hg : forall l, x ∈ foldl (fun l y => if f y then group_add y.1 (instance_id y.2) l else l) l insts ->
    (exists y, y ∈ insts /\ y.1 = x.1) \/ exists z, z ∈ l /\ z.1 = x.1).
  { induction insts as [|y insts IH]; intros l; cbn [foldl]; [intros Hx; right; by exists x|]. intros Hx. destruct (IH _ Hx) as [(z & Hz & Hxz)|(z & Hz & Hxz)].
    - left. exists z. split; [by right|done].
    - destruct (f y); [|right; by exists z]. apply elem_of_group_add in Hz as [Hz|(w & Hw & Hwz)].
      + left. exists y. split; [left|congruence].
      + right. exists w. split; [done|congruence]. }
  intros Hx. destruct (Hg [] Hx) as [Hy|(z & Hz & _)]; [done|]. by apply not_elem_of_nil in Hz.
Qed.

Lemma instance_producer extra s t ts y : core extra s -> tracing_sessions_ s !! t = Some ts -> y ∈ data_source_instances ts -> is_Some (producers_ s !! y.1).
Proof. destruct y as [p inst]. intros HC E [i Hi]%list_elem_of_lookup. by eapply core_instance. Qed.

Lemma flushable_ok extra s t ts keep x : core extra s -> tracing_sessions_ s !! t = Some ts -> x ∈ flushable keep ts -> is_Some (producers_ s !! x.1).
Proof.
  intros HC E Hx. destruct (elem_of_grouped (fun y => negb (no_flush y.2) && keep y.2) _ _ Hx) as (y & Hy & <-). by eapply instance_producer.
Qed.

Lemma core_add_other cb extra s : (forall t id bufs, cb <> CbClone t id bufs) -> core extra s -> core (cb :: extra) s.
Proof.
  intros Hn [H1 H2 H3 H4 H5 H6 H7 H8 H9 H10 H11 H12 H13 H14].
  assert (Hno : forall t id, clone_bufs t id cb = None) by (intros t id; destruct cb; try done; by destruct (Hn tsid clone_id bufs)).
  split; try done.
  - intros t ts E. destruct (H1 t ts E) as [S1 S2 S3 S4 S5 S6 S6' S7 S8 S9 S10]. split; try done. intros id op Eo. destruct (S9 id op Eo). split; [done|].
    unfold outstanding in *. cbn [app omap list_omap]. by rewrite Hno.
  - intros t id bufs. cbn [app]. rewrite elem_of_cons. intros [<-|Hin]; [by destruct (Hn t id bufs)|by apply (H10 t id bufs)].
Qed.

Lemma sess_frame_event s f ts : sess_frame ts (SnapshotLifecyleEvent s f ts).
Proof. sess_id ts. Qed.

(** A flush that is not for a clone. *)
Lemma Flush_ok extra s t cb reason :
  (forall t id bufs, cb <> CbClone t id bufs) -> core extra s -> steady ∅ s -> finishes (Flush t cb reason s) extra.
Proof.
  intros Hn HC HS. unfold Flush. rewrite (GetTracingSession_core extra) by done. destruct (tracing_sessions_ s !! t) as [ts|] eqn:E; [|by exists s].
  set (ts' := SnapshotLifecyleEvent s kFlushStartedFieldNumber ts).
  assert (F : frame t s (upd_session t ts' s)) by (eapply frame_upd; [done|apply sess_frame_event]).
  eapply (FlushDataSourceInstances_ok extra _ t ts').
  - apply core_add_other; [done|by eapply core_frame].
  - by apply (upd_same s t ts ts' E (same_insts_refl ts)).
  - cbn. by rewrite lookup_insert_eq.
  - intros t' id bufs Hc%list_elem_of_singleton. by destruct (Hn t' id bufs).
  - intros x Hx. cbn. by eapply (flushable_ok extra s t ts).
Qed.

Lemma CompleteFlush_ok extra s t cb success : core (cb :: extra) s -> steady ∅ s -> finishes (CompleteFlush t cb success s) extra.
Proof.
  intros HC HS. unfold CompleteFlush. rewrite (GetTracingSession_core _ _ _ HC). destruct (tracing_sessions_ s !! t) as [ts|] eqn:E; [|by apply run_callback_ok].
  destruct (scrape_all_producers_ok _ t s ts HC E t) as (s1 & -> & F1 & S1). cbn [mbind option_bind]. rewrite S1, E. cbn [mbind option_bind].
  assert (HC1 : core (cb :: extra) s1) by (by eapply core_frame). assert (HS1 : steady ∅ s1) by (unfold steady; by rewrite S1). rewrite <- S1 in E.
  match goal with |- finishes (run_callback _ _ (upd_session t ?x s1)) _ => set (ts' := x) end.
  assert (Hs : sess_frame ts ts' /\ same_insts ts ts') by (subst ts'; destruct success; (split; [sess_id ts|done])).
  destruct Hs as [Hs Hsame]. apply run_callback_ok; [eapply (core_frame _ t); [exact HC1|]; by eapply frame_upd|]. by apply (upd_same s1 t ts).
Qed.

Lemma elem_of_erase id l x : x ∈ erase_flush id l -> x ∈ l.
Proof. induction l as [|y l IH]; cbn; [done|]. destruct (y.1 =? id); rewrite !elem_of_cons; [auto|]. intros [->|Hx]; auto. Qed.

Lemma find_erase_flush id l pf : find_flush id l = Some pf -> flush_cbs l ≡ₚ pf_callback pf :: flush_cbs (erase_flush id l).
Proof.
  unfold find_flush. induction l as [|y l IH]; [done|]. cbn [list_find erase_flush]. destruct (Z.eqb_spec y.1 id) as [He|He].
  - rewrite decide_True by done. cbn. by intros [= <-].
  - rewrite decide_False by done. destruct (list_find _ l) as [[i z]|] eqn:Ef; [|done]. cbn in *. intros Hs. rewrite (IH Hs). solve_Permutation.
Qed.

Lemma OnFlushTimeout_ok extra s t id reason : core extra s -> steady ∅ s -> finishes (OnFlushTimeout t id reason s) extra.
Proof.
  intros HC HS. unfold OnFlushTimeout. rewrite (GetTracingSession_core extra) by done. destruct (tracing_sessions_ s !! t) as [ts|] eqn:E; [|by exists s].
  destruct (find_flush id (pending_flushes ts)) as [pf|] eqn:Ef; [|by exists s].
  match goal with |- context [set_pending_flushes _ ?x] => set (ts1 := x) end.
  assert (Hs : sess_frame ts ts1 /\ same_insts ts ts1 /\ pending_flushes ts1 = pending_flushes ts).
  { subst ts1. destruct (_ && _); (split; [sess_id ts|done]). }
  destruct Hs as (Hs & Hsame & Hpf). set (s1 := upd_session t ts1 s). assert (F1 : frame t s s1) by (by eapply frame_upd).
  assert (HC1 : core extra s1) by (by eapply core_frame). assert (E1 : tracing_sessions_ s1 !! t = Some ts1) by (cbn; by rewrite lookup_insert_eq).
  rewrite <- (upd_upd t ts1). fold s1. rewrite Hpf. set (ts2 := set_pending_flushes _ ts1).
  pose proof (find_erase_flush id _ pf Ef) as Hp.
  assert (Hof : cbs_of t (flush_cbs (pending_flushes ts))).
  { intros t' id' bufs Hin. apply list_elem_of_fmap in Hin as (f & Hf & Hin). by apply (so_flushes _ _ _ _ (co_session _ _ HC t ts E) f t' id' bufs). }
  apply CompleteFlush_ok; [|by apply (upd_same s1 t ts1 ts2 E1 (same_insts_refl ts1)), (upd_same s t ts ts1 E Hsame)].
  change (core (pf_callback pf :: extra) (set_tasks (tasks s1) (upd_session t ts2 s1))). apply (core_move extra); try done.
  - apply HC1.
  - rewrite Hpf, Hp. solve_Permutation.
  - intros t' id' bufs Hin. apply (Hof t' id' bufs). rewrite Hp. by right.
  - intros t' id' Hne. cbn. destruct (clone_bufs t' id' (pf_callback pf)) as [bufs|] eqn:Ec; [|done]. apply clone_bufs_Some in Ec.
    exfalso. apply Hne, (Hof t' id' bufs). rewrite Hp, Ec. left.
Qed.

Lemma flush_done_perm p id l : forall r cbs, flush_done p id l = (r, cbs) -> flush_cbs l ≡ₚ flush_cbs r ++ cbs.
Proof.
  induction l as [|[n pf] l IH]; intros r cbs; cbn [flush_done]; [by intros [= <- <-]|].
  destruct (n <=? id); [|intros [= <- <-]; by rewrite app_nil_r]. destruct (flush_done p id l) as [r' cbs'] eqn:Ef. specialize (IH r' cbs' eq_refl).
  case_bool_decide; intros [= <- <-]; unfold flush_cbs in *; cbn; rewrite IH; solve_Permutation.
Qed.

Lemma foldl_post t cbs : forall s, foldl (fun s cb => post (TCompleteFlush t cb true) s) s cbs = set_tasks (tasks s ++ ((fun cb => TCompleteFlush t cb true) <$> cbs)) s.
Proof.
  induction cbs as [|cb cbs IH]; intros s; [cbn; rewrite app_nil_r; by destruct s|]. cbn [foldl]. rewrite IH. cbn. by rewrite <- (assoc_L (++)).
Qed.

(** A loop over sessions, each of which is changed. *)
Lemma completes_for_each {A} extra (f : A -> TracingServiceImpl -> option TracingServiceImpl) s0 l :
  (forall x s, x ∈ l -> core extra s -> steady ∅ s -> sessions_kept s0 s -> completes (f x s) s extra) ->
  forall s, core extra s -> steady ∅ s -> sessions_kept s0 s -> completes (for_each f l s) s extra.
Proof.
  induction l as [|x l IH]; intros Hf s HC HS Hk; [exists s; repeat (split; [done|]); by apply sessions_kept_eq|].
  cbn [for_each]. destruct (Hf x s) as (s1 & -> & HC1 & HS1 & Hk1); [left|done..|]. cbn [mbind option_bind].
  destruct (IH ltac:(intros; apply Hf; [by right|done..]) s1 HC1 HS1) as (s2 & -> & HC2 & HS2 & Hk2); [by eapply sessions_kept_trans|].
  exists s2. repeat (split; [done|]). by eapply sessions_kept_trans.
Qed.

Lemma NotifyFlushDoneForProducer_ok extra s p id : core extra s -> steady ∅ s -> completes (NotifyFlushDoneForProducer p id s) s extra.
Proof.
  intros HC HS. unfold NotifyFlushDoneForProducer. apply (completes_for_each extra _ s); try done; [|by apply sessions_kept_eq].
  intros t s1 Ht HC1 HS1 Hk1. apply elem_of_map_keys in Ht as [ts0 E0]. destruct (Hk1 t ts0 E0) as (ts & E & _). rewrite E. cbn [mbind option_bind].
  destruct (flush_done p id (pending_flushes ts)) as [l cbs] eqn:Ef. pose proof (flush_done_perm p id _ l cbs Ef) as Hp. rewrite foldl_post. cbn [tasks upd_session set_tracing_sessions_].
  set (ts' := set_pending_flushes l ts). destruct (upd_same s1 t ts ts' E (same_insts_refl ts)) as [Hk Hst].
  eexists. split; [done|]. split; [|split; [exact (Hst ∅ HS1)|exact Hk]].
  assert (Hof : cbs_of t (flush_cbs (pending_flushes ts))).
  { intros t' id' bufs Hin. apply list_elem_of_fmap in Hin as (f & Hf & Hin). by apply (so_flushes _ _ _ _ (co_session _ _ HC1 t ts E) f t' id' bufs). }
  assert (Hcb : omap task_cb (tasks s1 ++ ((fun cb => TCompleteFlush t cb true) <$> cbs)) = omap task_cb (tasks s1) ++ cbs).
  { rewrite omap_app. f_equal. clear. induction cbs as [|cb cbs IH]; [done|]. cbn. by rewrite IH. }
  apply (core_move extra); try done.
  - apply Forall_app. split; [apply HC1|]. by apply Forall_fmap, Forall_true.
  - rewrite Hcb, Hp. solve_Permutation.
  - intros t' id' bufs Hin. apply (Hof t' id' bufs). rewrite Hp, elem_of_app. by left.
  - intros t' id' Hne. rewrite Hcb, !omap_app, (omap_clone_nil t' id' cbs), app_nil_r; [done|].
    intros bufs Hin. apply Hne, (Hof t' id' bufs). rewrite Hp, elem_of_app. by right.
Qed.

(** ** Clone requests *)

Lemma clear_before_clone_ok extra t l : forall s,
  core extra s -> Forall (fun x => is_Some (buffers_ s !! x.1)) l ->
  exists s' ok, clear_loop l s = Some (s', ok) /\ frame t s s' /\ tracing_sessions_ s' = tracing_sessions_ s.
Proof.
  induction l as [|[b cfg] l IH]; intros s HC Hl; cbn [clear_loop]; [exists s, true; split; [done|]; split; [apply frame_refl|done]|].
  apply Forall_cons in Hl as [[buf Eb] Hl]. cbn [fst] in Eb. destruct (negb (clear_before_clone cfg)); [by apply IH|].
  rewrite Eb. cbn [mbind option_bind]. destruct (negb (has_data buf)); [by apply IH|].
  destruct (co_owned _ _ HC b buf Eb) as [Hok _].
  destruct (try_create_ok t s (buf_size buf) (buf_discard buf) (dp_size buf Hok)) as (s1 & o & -> & F1 & S1 & B1 & Ho). cbn [mbind option_bind].
  destruct o as [fresh|]; [|by exists s1, false].
  assert (F2 : frame t s (set_buffers_ (<[b := fresh]> (buffers_ s1)) s1)).
  { eapply frame_trans; [exact F1|]. eapply frame_insert_buf; [by rewrite B1|]. intros _. tauto. }
  destruct (IH (set_buffers_ (<[b := fresh]> (buffers_ s1)) s1)) as (s2 & ok & -> & F3 & S3).
  - by eapply core_frame.
  - eapply Forall_impl; [exact Hl|]. intros [b' c'] [x' Ex]. destruct (frame_buf_fwd _ _ _ _ _ F2 Ex) as (y & Ey & _). by exists y.
  - exists s2, ok. split; [done|]. split; [by eapply frame_trans|]. by rewrite S3, <- S1.
Qed.

Lemma buffer_groups_cover extra s t ts : core extra s -> tracing_sessions_ s !! t = Some ts ->
  forall b, b ∈ buffers_index ts -> exists g, g ∈ buffer_groups ts /\ b ∈ g.
Proof.
  intros HC E b Hb. apply list_elem_of_lookup in Hb as [i Hi]. pose proof (so_len _ _ _ _ (co_session _ _ HC t ts E)) as Hl.
  assert (Hc : is_Some (buffers (config ts) !! i)) by (apply lookup_lt_is_Some_2; rewrite <- Hl; by apply lookup_lt_Some in Hi).
  destruct Hc as [cfg Ec]. assert (Hz : (b, cfg) ∈ zip (buffers_index ts) (buffers (config ts))).
  { apply list_elem_of_lookup. exists i. apply lookup_zip_with_Some. by exists b, cfg. }
  assert (Hg : forall v, transfer_on_clone cfg = v -> b ∈ (filter (fun x => transfer_on_clone x.2 = v) (zip (buffers_index ts) (buffers (config ts)))).*1).
  { intros v Hv. apply list_elem_of_fmap. exists (b, cfg). split; [done|]. by apply list_elem_of_filter. }
  unfold buffer_groups. destruct (transfer_on_clone cfg) eqn:Et; (eexists; split; [|exact (Hg _ eq_refl)]); [left|right; left].
Qed.

(** The groups of a new operation are flushed one by one. *)
Lemma flush_groups_ok extra t id gs : forall s,
  core ((CbClone t id <$> gs) ++ extra) s -> steady ∅ s -> is_Some (tracing_sessions_ s !! t) -> completes (for_each (flush_group t id) gs s) s extra.
Proof.
  induction gs as [|g gs IH]; intros s HC HS [ts E]; [exists s; repeat (split; [done|]); by apply sessions_kept_eq|].
  cbn [for_each]. cbn [fmap list_fmap app] in HC.
  destruct (FlushDataSourceInstances_ok _ s t ts (GetFlushableDataSourceInstancesForBuffers ts g) (CbClone t id g) kTraceClone HC HS E) as [_ Hc].
  { intros t' id' bufs Hin. apply list_elem_of_singleton in Hin. by simplify_eq. }
  { intros x Hx. by eapply flushable_ok. }
  destruct (Hc id g eq_refl) as (s1 & Ef & HC1 & HS1 & Hk1).
  assert (flush_group t id g s = Some s1) as -> by (unfold flush_group; by rewrite E). cbn [mbind option_bind].
  destruct (Hk1 t ts E) as (ts1 & E1 & _). destruct (IH s1 HC1 HS1) as (s2 & -> & HC2 & HS2 & Hk2); [by exists ts1|].
  exists s2. repeat (split; [done|]). by eapply sessions_kept_trans.
Qed.

Lemma start_clone_ok extra s c t ts skip : core extra s -> steady ∅ s -> tracing_sessions_ s !! t = Some ts -> completes (start_clone c t skip s) s extra.
Proof.
  intros HC HS E. unfold start_clone. rewrite E. cbn [mbind option_bind]. set (id := last_pending_clone_id_ ts). set (op := mkPendingClone _ _ _ _ _).
  match goal with |- completes (for_each _ (buffer_groups ?x) _) _ _ => set (ts' := x) end.
  assert (Hgs : (CbClone t id <$> buffer_groups ts') ++ extra = [CbClone t id (nth 0 (buffer_groups ts') []); CbClone t id (nth 1 (buffer_groups ts') [])] ++ extra) by done.
  pose proof (co_session _ _ HC t ts E) as [S1 S2 S3 S4 S5 S6 S6' S7 S8 S9 S10]. set (gs := buffer_groups ts') in *.
  assert (Hnone : forall bufs, CbClone t id bufs ∉ extra ++ omap task_cb (tasks s) ++ flush_cbs (pending_flushes ts)).
  { intros bufs. rewrite (assoc_L (++)), elem_of_app. intros [Hin|Hin].
    - destruct (co_cbs _ _ HC t id bufs Hin) as [_ Hx]. specialize (Hx ts E). subst id. lia.
    - apply list_elem_of_fmap in Hin as (f & Hf & Hin). destruct (S8 f t id bufs Hin) as [_ Hx]; [by rewrite Hf|]. subst id. lia. }
  destruct (upd_same s t ts ts' E) as [Hk Hst]; [done|].
  assert (HC' : core ((CbClone t id <$> gs) ++ extra) (upd_session t ts' s)).
  { change (core ((CbClone t id <$> gs) ++ extra) (set_tasks (tasks s) (upd_session t ts' s))). apply (core_session extra _ _ _ ts); try done.
    - split; try done. cbn. lia.
    - apply HC.
    - by left.
    - intros t' id' bufs. rewrite <- (assoc_L (++)), elem_of_app. intros [Hin|Hin].
      + apply list_elem_of_fmap in Hin as (g & [= -> -> ->] & _). split; [lia|]. intros ts0. rewrite lookup_insert_eq. intros [= <-]. cbn. subst id. lia.
      + destruct (co_cbs _ _ HC t' id' bufs Hin) as [Hlt Hx]. split; [done|]. apply (cbs_linked s t ts); [done|cbn; lia|done].
    - intros t' id' Hne. rewrite <- (assoc_L (++)), omap_app, (omap_clone_nil t' id' (_ <$> _)); [done|].
      intros bufs Hin. apply list_elem_of_fmap in Hin as (g & [= -> -> ->] & _). done.
    - split; cbn; try done.
      + intros f t' id' bufs Hin Hf. destruct (S8 f t' id' bufs Hin Hf). subst id. split; [done|lia].
      + intros id' op'. rewrite lookup_insert_Some. intros [[<- <-]|[Hne Eo]].
        * split; [subst id; lia|].
          assert (Ho : outstanding ((CbClone t id <$> gs) ++ extra) (set_tasks (tasks s) (upd_session t ts' s)) t id ts' = gs).
          { unfold outstanding. rewrite <- (assoc_L (++)), omap_app, (omap_clone_nil t id (extra ++ _)), app_nil_r by exact Hnone.
            clear. induction gs as [|g gs IH]; [done|]. cbn. rewrite !Z.eqb_refl. cbn. by rewrite IH. }
          assert (Hp : gs ≡ₚ outstanding ((CbClone t id <$> gs) ++ extra) (set_tasks (tasks s) (upd_session t ts' s)) t id ts') by (by rewrite Ho).
          apply (clone_ok_perm _ _ _ _ Hp). split; try done; cbn.
          -- by rewrite length_replicate.
          -- by apply Forall_replicate.
          -- intros i b Ei. right. apply (buffer_groups_cover extra s t ts HC E). by apply list_elem_of_lookup_2 in Ei.
        * destruct (S9 id' op' Eo) as [Hlt Hc]. split; [lia|]. eapply clone_ok_perm; [|exact Hc].
          assert (Ho : outstanding extra s t id' ts ≡ₚ outstanding ((CbClone t id <$> gs) ++ extra) (set_tasks (tasks s) (upd_session t ts' s)) t id' ts'); [|exact Ho].
          unfold outstanding. rewrite <- (assoc_L (++) (_ <$> gs)), (omap_app _ (_ <$> gs)), (omap_clone_nil t id' (_ <$> gs)); [done|].
          intros bufs Hin. apply list_elem_of_fmap in Hin as (g & [= -> ->] & _). done. }
  destruct (flush_groups_ok extra t id gs _ HC' (Hst ∅ HS)) as (s2 & -> & HC2 & HS2 & Hk2); [cbn; by rewrite lookup_insert_eq|].
  exists s2. repeat (split; [done|]). by eapply sessions_kept_trans.
Qed.

Lemma FlushAndCloneSession_ok extra s c t skip bug :
  core extra s -> steady ∅ s -> is_Some (consumers_ s !! c) ->
  exists s' r, FlushAndCloneSession c t skip bug s = Some (s', r) /\ core extra s' /\ steady ∅ s'.
Proof.
  intros HC HS [q Eq]. unfold FlushAndCloneSession. rewrite Eq. cbn [mbind option_bind].
  destruct (if t =? kBugreportSessionId then _ else _) as [[t' skip']|]; [|by exists s, (Some NoBugreportSession)].
  rewrite (GetTracingSession_core extra) by done. destruct (tracing_sessions_ s !! t') as [ts|] eqn:E; [|by exists s, (Some SessionNotFound)].
  destruct (negb (IsCloneAllowed ts (c_uid q))); [by exists s, (Some CloneNotAllowed)|].
  pose proof (so_len _ _ _ _ (co_session _ _ HC t' ts E)) as Hl. rewrite Hl, Nat.leb_refl. cbn [negb].
  destruct (clear_before_clone_ok extra t' (zip (buffers_index ts) (buffers (config ts))) s HC) as (s1 & ok & -> & F1 & S1).
  { apply Forall_forall. intros [b cfg] Hin. apply elem_of_zip_l in Hin. destruct (so_bufs _ _ _ _ (co_session _ _ HC t' ts E) b Hin) as (x & Ex & _). by eexists. }
  cbn [mbind option_bind]. assert (HC1 : core extra s1) by (by eapply core_frame). assert (HS1 : steady ∅ s1) by (unfold steady; by rewrite S1).
  destruct ok; cbn [negb]; [|by exists s1, (Some BufferAllocationFailed)].
  destruct (start_clone_ok extra s1 c t' ts skip' HC1 HS1) as (s2 & -> & HC2 & HS2 & _); [by rewrite S1|]. cbn [mbind option_bind]. by exists s2, None.
Qed.
End Flush.
