(* ===== verification/TracingServiceEnable.v ===== *)
(** * The tracing service: setting up sessions

    Data sources are set up for sessions, and sessions are created with their buffers;
    an attempt that fails leaves no buffer and no identifier behind. *)

From stdpp Require Import sorting.
From S2P Require Import Prelude IdAllocator TracingServiceTypes TracingService TracingServiceEndpoints TracingServiceOk.
From S2P Require Import TracingServiceSession TracingServiceFlush.

Lemma EnsureValidShmSizes_page shm page : (EnsureValidShmSizes shm page).2 mod 1024 = 0.
Proof.
  unfold EnsureValidShmSizes. set (p := Z.min _ (32 * 1024)). set (z := Z.min _ kMaxShmSize). cbn zeta.
  destruct (_ || _) eqn:E; [done|]. cbn [snd]. apply orb_false_iff in E as [E _]. apply orb_false_iff in E as [E _].
  apply negb_false_iff in E. apply andb_true_iff in E as [E _]. apply andb_true_iff in E as [_ E]. apply Z.eqb_eq in E.
  change (4 * 1024) with 4096 in E. Z.div_mod_to_equations. lia.
Qed.

Lemma multimap_emplace_spec {K V} ltb (k : K) (v : V) l r i :
  multimap_emplace ltb k v l = (r, i) -> r = take i l ++ (k, v) :: drop i l /\ (i <= length l)%nat.
Proof.
  revert r i. induction l as [|[k' v'] l IH]; intros r i; cbn; [by intros [= <- <-]|].
  destruct (ltb k k'); [intros [= <- <-]; cbn; split; [done|lia]|].
  destruct (multimap_emplace ltb k v l) as [r' i'] eqn:E. intros [= <- <-]. destruct (IH r' i' eq_refl) as [-> Hi]. cbn. split; [done|lia].
Qed.

(** Loops with an invariant. *)
Lemma loop_ok {A S} (I : S -> Prop) (f : A -> S -> option S) l :
  (forall x s, x ∈ l -> I s -> exists s', f x s = Some s' /\ I s') -> forall s, I s -> exists s', for_each f l s = Some s' /\ I s'.
Proof.
  induction l as [|x l IH]; intros Hf s Hs; [by exists s|]. cbn. destruct (Hf x s) as (s1 & -> & H1); [left|done|]. cbn.
  apply IH; [|done]. intros y s2 Hy. apply Hf. by right.
Qed.

Lemma Forall_inserted {A} (P : A -> Prop) i x l : Forall P (take i l ++ x :: drop i l) <-> P x /\ Forall P l.
Proof. rewrite Forall_app, Forall_cons. rewrite <- (take_drop i l) at 3. rewrite Forall_app. tauto. Qed.

Section Enable.
Context {D : DataPlane} {DOk : DataPlaneOk D}.
Implicit Types (s : TracingServiceImpl) (ts : TracingSession).

(** ** Producers *)

Lemma core_producer extra s p q q' :
  core extra s -> producers_ s !! p = Some q -> producer_ok s p q' -> core extra (upd_producer p q' s).
Proof.
  intros [H1 H2 H3 H4 H5 H6 H7 H8 H9 H10 H11 H12 H13 H14] E Hq.
  assert (Hs : forall k, is_Some (producers_ s !! k) -> is_Some (<[p := q']> (producers_ s) !! k)).
  { intros k Hk. destruct (decide (k = p)) as [->|]; [rewrite lookup_insert_eq; by eexists|by rewrite lookup_insert_ne]. }
  split; try done; cbn.
  - intros t ts Et. destruct (H1 t ts Et) as [S1 S2 S3 S4 S5 S6 S6' S7 S8 S9 S10]. split; try done. intros k Hk. destruct (S6 k Hk). auto.
  - intros p' r. rewrite lookup_insert_Some. intros [[<- <-]|[_ Er]]; [by destruct Hq|]. by destruct (H7 p' r Er).
  - auto.
Qed.

(** What setting up a data source leaves as it is. *)
Record setup_frame (t : Z) s s' : Prop := {
  sx_sources : data_sources_ s' = data_sources_ s;
  sx_consumers : consumers_ s' = consumers_ s;
  sx_others : forall t', t' <> t -> tracing_sessions_ s' !! t' = tracing_sessions_ s !! t';
  sx_tasks : tasks s' = tasks s }.

Lemma setup_frame_refl t s : setup_frame t s s.
Proof. done. Qed.

Lemma setup_frame_trans t a b c : setup_frame t a b -> setup_frame t b c -> setup_frame t a c.
Proof. intros [H1 H2 H3 H4] [K1 K2 K3 K4]. split; try congruence. intros t' Ht. by rewrite K3, H3. Qed.

Lemma SetupSharedMemory_ok extra s p q page size provided :
  core extra s -> producers_ s !! p = Some q -> has_shm q = None -> page mod 1024 = 0 ->
  exists s' q', SetupSharedMemory p page size provided s = Some s' /\ core extra s' /\ producers_ s' !! p = Some q' /\ allowed_target_buffers_ q' = allowed_target_buffers_ q /\
    (forall t, setup_frame t s s') /\ tracing_sessions_ s' = tracing_sessions_ s.
Proof.
  intros HC E Hn Hp. unfold SetupSharedMemory, GetProducer. rewrite E. cbn [mbind option_bind]. rewrite Hn, Hp, bool_decide_true by done. cbn [andb Z.eqb].
  eexists _, _. split; [done|]. split; [|split; [cbn; by rewrite lookup_insert_eq|done]].
  eapply (core_frame _ 0); [|apply frame_sent]. eapply core_producer; [done|exact E|]. by destruct (co_producer _ _ HC p q E).
Qed.

Lemma ensure_shm_ok extra s p pc :
  core extra s -> is_Some (producers_ s !! p) ->
  exists s' q', ensure_shm p pc s = Some s' /\ core extra s' /\ producers_ s' !! p = Some q' /\
    (forall t, setup_frame t s s') /\ tracing_sessions_ s' = tracing_sessions_ s.
Proof.
  intros HC [q E]. unfold ensure_shm, GetProducer. rewrite E. cbn [mbind option_bind]. destruct (has_shm q) as [shm|] eqn:Eh; [by exists s, q|].
  match goal with |- context [EnsureValidShmSizes ?a ?b] => pose proof (EnsureValidShmSizes_page a b) as Hpg; destruct (EnsureValidShmSizes a b) as [sz pg] end.
  destruct (SetupSharedMemory_ok extra s p q pg sz false HC E Eh Hpg) as (s' & q' & -> & H1 & H2 & _ & H3). by exists s', q'.
Qed.

(** ** Data sources *)

(** A data source with state [st] is added at position [i]. *)
Definition inst_added (i : nat) (st : DataSourceInstanceState) ts ts' : Prop :=
  state ts' = state ts /\ config ts' = config ts /\ states ts' = take i (states ts) ++ st :: drop i (states ts) /\ (i <= length (states ts))%nat /\
  write_period_ms ts' = write_period_ms ts.

Definition inst_same ts ts' : Prop := state ts' = state ts /\ config ts' = config ts /\ states ts' = states ts.

(** The session gets an instance of a registered data source. *)
Lemma core_add_instance extra s t ts p inst i insts r :
  core extra s -> tracing_sessions_ s !! t = Some ts -> r ∈ data_sources_ s -> rds_producer_id r.2 = p -> d_name (descriptor r.2) = data_source_name inst ->
  instance_id inst = last_data_source_instance_id_ s + 1 -> multimap_emplace Z.ltb p inst (data_source_instances ts) = (insts, i) ->
  core extra (upd_session t (set_data_source_instances insts ts) (set_last_data_source_instance_id_ (instance_id inst) s)).
Proof.
  intros HC E Hr Hp Hn Hid Em. apply multimap_emplace_spec in Em as [-> Hi].
  set (s0 := set_last_data_source_instance_id_ _ s). assert (HC0 : core extra s0).
  { eapply (core_frame _ t); [exact HC|]. pose proof (frame_refl t s) as Hf. destruct Hf. split; try assumption. cbn. lia. }
  set (ts' := set_data_source_instances _ ts). change (core extra (set_tasks (tasks s0) (upd_session t ts' s0))).
  apply (core_session extra _ _ _ ts); try done.
  - apply HC0.
  - by left.
  - intros t' id bufs Hin. destruct (co_cbs _ _ HC0 t' id bufs Hin) as [Hlt Hx]. split; [done|]. by apply (cbs_linked s0 t ts).
  - destruct (co_session _ _ HC t ts E) as [S1 S2 S3 S4 S5 S6 S6' S7 S8 S9 S10].
    assert (Hk : keys ts' = take i (keys ts) ++ (p, data_source_name inst, instance_id inst) :: drop i (keys ts)).
    { unfold keys. cbn. by rewrite fmap_app, fmap_cons, fmap_take, fmap_drop. }
    destruct S6' as [Hnd Hle]. rewrite Forall_forall in Hle.
    assert (Hperm : keys ts' ≡ₚ (p, data_source_name inst, instance_id inst) :: keys ts).
    { rewrite Hk, <- Permutation_middle. by rewrite take_drop. }
    split; try done.
    + intros k. rewrite Hperm, elem_of_cons. intros [->|Hin]; [|by apply S6]. cbn. split; [rewrite <- Hp; by apply (co_sources _ _ HC)|]. by exists r.
    + split.
      * rewrite Hperm. cbn. apply NoDup_cons. split; [|done]. intros Hin. apply list_elem_of_fmap in Hin as (k & Hk1 & Hk2). specialize (Hle k Hk2). lia.
      * rewrite Hperm. apply Forall_cons. split; [done|]. apply Forall_forall. intros k Hin. specialize (Hle k Hin). cbn. lia.
Qed.

Lemma SetupDataSource_ok extra s t ts cfg pc r :
  core extra s -> tracing_sessions_ s !! t = Some ts -> state ts <> CLONED_READ_ONLY -> r ∈ data_sources_ s ->
  exists s' ts' oi, SetupDataSource cfg pc r.2 t s = Some (s', oi) /\ core extra s' /\ setup_frame t s s' /\ tracing_sessions_ s' !! t = Some ts' /\
    match oi with
    | Some i => inst_added i INST_CONFIGURED ts ts' /\ exists inst, data_source_instances ts' !! i = Some (rds_producer_id r.2, inst) /\ inst_state inst = INST_CONFIGURED
    | None => ts' = ts
    end.
Proof.
  intros HC E Hcl Hr. destruct (co_sources _ _ HC r Hr) as [q Eq]. unfold SetupDataSource, GetProducer. rewrite Eq. cbn [mbind option_bind]. rewrite E. cbn [mbind option_bind].
  assert (Hnone : exists s' ts' oi, Some (s, None) = Some (s', oi) /\ core extra s' /\ setup_frame t s s' /\ tracing_sessions_ s' !! t = Some ts' /\
    match oi with
    | Some i => inst_added i INST_CONFIGURED ts ts' /\ exists inst, data_source_instances ts' !! i = Some (rds_producer_id r.2, inst) /\ inst_state inst = INST_CONFIGURED
    | None => ts' = ts
    end) by (by exists s, ts, None).
  destruct (_ && _); [done|]. destruct (negb _); [done|]. set (rel := u32 _). assert (Hrel0 : 0 <= rel) by (by apply Z.mod_pos_bound). destruct (Z.leb_spec (Z.of_nat (length (buffers_index ts))) rel) as [Hrel|Hrel]; [done|]. clear Hnone.
  assert (Hg : is_Some (buffers_index ts !! Z.to_nat rel)) by (apply lookup_lt_is_Some_2; lia). destruct Hg as [g Eg]. rewrite Eg. cbn [mbind option_bind].
  assert (Hgin : g ∈ buffers_index ts) by (by apply list_elem_of_lookup_2 in Eg).
  assert (Hg0 : 1 <= g).
  { destruct (so_bufs _ _ _ _ (co_session _ _ HC t ts E) g Hgin) as (buf & Eb & _). eapply (uses_range _ _ g (co_uses _ _ HC)). apply elem_of_dom. by eexists. }
  rewrite (proj2 (Z.eqb_neq g 0)) by lia. set (p := rds_producer_id r.2) in *. set (inst := mkInst _ _ _ _ _ _ _ _).
  destruct (multimap_emplace Z.ltb p inst (data_source_instances ts)) as [insts i] eqn:Em.
  pose proof (core_add_instance extra s t ts p inst i insts r HC E Hr eq_refl eq_refl eq_refl Em) as HC1.
  apply multimap_emplace_spec in Em as [Hins Hi]. set (ts1 := set_data_source_instances insts ts) in *. set (s1 := upd_session t ts1 _) in *.
  assert (E1 : tracing_sessions_ s1 !! t = Some ts1) by (cbn; by rewrite lookup_insert_eq).
  destruct (notify_instance_ok extra s1 t ts1 p inst HC1 E1) as [m Hm]; [cbn; by exists q|]. change (notify_instance s1 ts p inst) with (notify_instance s1 ts1 p inst).
  rewrite Hm. cbn [mbind option_bind]. assert (HC2 : core extra (set_sent m s1)) by (eapply (core_frame _ t); [exact HC1|apply frame_sent]).
  destruct (ensure_shm_ok extra (set_sent m s1) p pc HC2) as (s3 & q3 & -> & HC3 & E3 & F3 & S3); [cbn; by exists q|]. cbn [mbind option_bind]. rewrite E3. cbn [mbind option_bind].
  eexists _, ts1, (Some i). split; [done|]. split; [|split; [|split]].
  - eapply (core_frame _ t); [|apply frame_sent]. eapply core_producer; [done|exact E3|]. destruct (co_producer _ _ HC3 p q3 E3) as [P1 P2 P3]. split; try done; cbn.
    intros b. rewrite elem_of_union, elem_of_singleton. intros [->|Hb]; [|by apply P2]. exists t, ts1. rewrite S3. cbn. by rewrite lookup_insert_eq.
  - eapply setup_frame_trans; [|destruct (F3 t) as [K1 K2 K3 K4]; by split]. split; try done. intros t' Hne. cbn. by rewrite lookup_insert_ne.
  - cbn. rewrite S3. cbn. by rewrite lookup_insert_eq.
  - split; [|exists inst; split; [|done]].
    + split; [done|]. split; [done|]. unfold states. cbn. rewrite Hins, fmap_app, fmap_cons, fmap_take, fmap_drop, length_fmap. done.
    + cbn. rewrite Hins, lookup_app_r by (rewrite length_take; lia). rewrite length_take, Nat.min_l, Nat.sub_diag by lia. done.
Qed.

(** Starting a data source posts no task. *)
Lemma notify_instance_tasks s ts p inst s' : notify_instance s ts p inst = Some s' -> tasks s' = tasks s.
Proof.
  unfold notify_instance, OnDataSourceInstanceStateChange. destruct (GetProducer s p); [|done]. cbn. destruct (consumer_maybe_null ts) as [c|]; [|by intros [= <-]].
  destruct (consumers_ s !! c); [|done]. cbn. intros [= <-]. destruct (wants _ _); [by destruct (inst_state inst)|done].
Qed.

Lemma MaybeNotifyAllDataSourcesStarted_tasks s t s' : MaybeNotifyAllDataSourcesStarted s t = Some s' -> tasks s' = tasks s.
Proof.
  unfold MaybeNotifyAllDataSourcesStarted, OnAllDataSourcesStarted. destruct (tracing_sessions_ s !! t) as [ts|]; [|done]. cbn [mbind option_bind].
  destruct (consumer_maybe_null ts); [|by intros [= <-]]. destruct (negb _); [by intros [= <-]|]. destruct (did_notify_all_data_source_started ts); [by intros [= <-]|].
  cbn. destruct (consumers_ s !! _); [|done]. cbn. intros [= <-]. by destruct (wants _ _).
Qed.

Lemma StartDataSourceInstance_tasks p t i s s' : StartDataSourceInstance p t i s = Some s' -> tasks s' = tasks s.
Proof.
  unfold StartDataSourceInstance. destruct (tracing_sessions_ s !! t) as [ts|]; [|done]. cbn [mbind option_bind]. destruct (data_source_instances ts !! i) as [[q inst]|]; [|done].
  cbn [mbind option_bind]. case_decide; [|done]. destruct (notify_instance _ _ _ _) as [s1|] eqn:E1; [|done]. cbn [mbind option_bind]. apply notify_instance_tasks in E1.
  case_decide; [intros E2; apply MaybeNotifyAllDataSourcesStarted_tasks in E2; by rewrite E2|intros [= <-]; done].
Qed.

(** The data source, and its start in a session that has started. *)
Lemma setup_registered_ok extra s t ts cfg r start :
  core extra s -> tracing_sessions_ s !! t = Some ts -> state ts <> CLONED_READ_ONLY -> r ∈ data_sources_ s ->
  exists s' ts', setup_registered cfg r.2 start t s = Some s' /\ core extra s' /\ setup_frame t s s' /\ tracing_sessions_ s' !! t = Some ts' /\
    config_frame (config ts) (config ts') /\ state ts' = state ts /\ (state ts <> STARTED -> write_period_ms ts' = write_period_ms ts) /\
    forall P : DataSourceInstanceState -> Prop, Forall P (states ts) ->
      (if start && bool_decide (state ts = STARTED) then P INST_STARTING /\ P INST_STARTED else P INST_CONFIGURED) -> Forall P (states ts').
Proof.
  intros HC E Hcl Hr. unfold setup_registered, GetProducer. destruct (co_sources _ _ HC r Hr) as [q Eq]. rewrite Eq. cbn [mbind option_bind]. rewrite E. cbn [mbind option_bind].
  destruct (SetupDataSource_ok extra s t ts cfg (find_producer_config (p_name q) (cfg_producers (config ts))) r HC E Hcl Hr) as (s1 & ts1 & oi & -> & HC1 & F1 & E1 & Hoi).
  cbn [mbind option_bind]. destruct oi as [i|]; [|subst ts1; by exists s1, ts]. destruct Hoi as ((A1 & A2 & A3 & A4 & A5) & inst & Ei & Hst).
  destruct (start && bool_decide (state ts = STARTED)) eqn:Est.
  - destruct (StartDataSourceInstance_ok extra s1 t ts1 i (rds_producer_id r.2) inst HC1 E1 Ei Hst) as (s2 & ts2 & Es2 & F2 & E2 & H2).
    rewrite Es2. exists s2, ts2. split; [done|]. split; [by eapply core_frame|]. split.
    { eapply setup_frame_trans; [exact F1|]. split; [apply F2|apply F2|apply F2|by eapply StartDataSourceInstance_tasks]. }
    split; [done|]. pose proof (fr_self _ _ _ F2) as Hself. rewrite E1, E2 in Hself. inversion Hself as [? ? Hsf|]; subst.
    split; [rewrite <- A2; apply Hsf|]. assert (Hx : exists st, (st = INST_STARTING \/ st = INST_STARTED) /\ inst_to i st ts1 ts2) by (destruct H2; eauto).
    destruct Hx as (st & Hst' & (B1 & B2 & B3)). split; [congruence|].
    split; [intros Hns; apply andb_true_iff in Est as [_ Est]; by apply bool_decide_eq_true in Est|]. intros P HP [P1 P2]. rewrite B2, A3.
    rewrite insert_app_r_alt by (rewrite length_take; lia). rewrite length_take, Nat.min_l, Nat.sub_diag by lia. cbn. apply Forall_inserted. by destruct Hst' as [-> | ->].
  - exists s1, ts1. repeat (split; [done|]). split; [by rewrite A2|]. split; [done|]. split; [done|]. intros P HP HP1. rewrite A3. by apply Forall_inserted.
Qed.

(** ** New sessions *)

Lemma elem_of_registered name s rds : rds ∈ registered name s -> exists r, r ∈ data_sources_ s /\ r.2 = rds.
Proof. unfold registered. intros Hin. apply list_elem_of_fmap in Hin as (r & -> & Hr). apply list_elem_of_filter in Hr as [_ Hr]. by exists r. Qed.

(** The session before it is configured. *)
Record unconfigured (extra : list FlushCallback) s0 t ts0 s : Prop := {
  uc_core : core extra s;
  uc_frame : setup_frame t s0 s;
  uc_session : exists ts, tracing_sessions_ s !! t = Some ts /\ config_frame (config ts0) (config ts) /\ state ts = DISABLED /\
    Forall (fun x => x = INST_CONFIGURED) (states ts) /\ write_period_ms ts = write_period_ms ts0 }.

Lemma setup_all_ok extra s t ts cfg :
  core extra s -> tracing_sessions_ s !! t = Some ts -> state ts = DISABLED -> states ts = [] ->
  exists s', setup_all t cfg s = Some s' /\ unconfigured extra s t ts s'.
Proof.
  intros HC E Hst Hnil. unfold setup_all. apply loop_ok.
  2: { split; [done|done|]. exists ts. rewrite Hnil. by repeat split. }
  intros cfg_ds s1 _ [HC1 F1 H1]. apply loop_ok; [|by split]. intros rds s2 Hrds [HC2 F2 (ts2 & E2 & Hc2 & Hst2 & Hi2 & Hw2)].
  apply elem_of_registered in Hrds as (r & Hr & <-).
  destruct (setup_registered_ok extra s2 t ts2 cfg_ds r false HC2 E2) as (s3 & ts3 & -> & HC3 & F3 & E3 & Hc3 & Hst3 & Hw3 & Hi3).
  { by rewrite Hst2. } { rewrite (sx_sources _ _ _ F2), <- (sx_sources _ _ _ F1). done. }
  exists s3. split; [done|]. split; [done|by eapply setup_frame_trans|]. exists ts3. split; [done|]. split; [|split; [congruence|split; [by apply Hi3|rewrite Hw3; [done|by rewrite Hst2]]]].
  destruct Hc2, Hc3. split; congruence.
Qed.

Lemma configure_session_ok extra s c q t ts cfg :
  consumers_ s !! c = Some q -> tracing_sessions_ s !! t = Some ts -> state ts = DISABLED -> data_source_instances ts = [] ->
  core extra (upd_consumer c (set_tracing_session_id_ t q) s) -> steady {[t]} s ->
  (cfg_write_into_file (config ts) = true -> 0 < write_period_ms ts) -> TReadBuffersIntoFile t ∉ tasks s ->
  finishes (configure_session c t cfg s) extra.
Proof.
  intros Eq E Hst Hnil HC HS Hper Htk. unfold configure_session. rewrite Eq. cbn [mbind option_bind]. set (s0 := upd_consumer _ _ s) in *.
  destruct (setup_all_ok extra s0 t ts cfg HC E Hst) as (s1 & -> & [HC1 F1 (ts1 & E1 & Hc1 & Hst1 & Hi1 & Hw1)]); [unfold states; by rewrite Hnil|].
  cbn [mbind option_bind]. rewrite E1. cbn [mbind option_bind].
  set (s2 := if GetTriggerMode cfg =? START_TRACING then _ else s1).
  assert (F2 : frame t s1 s2) by (subst s2; destruct (_ =? _); [by apply frame_post|apply frame_refl]).
  assert (E2 : tracing_sessions_ s2 = tracing_sessions_ s1) by (subst s2; by destruct (_ =? _)).
  assert (T2 : TReadBuffersIntoFile t ∉ tasks s2).
  { subst s2. pose proof (sx_tasks _ _ _ F1) as Ht1. change (tasks s0) with (tasks s) in Ht1. rewrite <- Ht1 in Htk. destruct (_ =? _); cbn; [|done]. rewrite elem_of_app, list_elem_of_singleton. by intros [?|?]. }
  assert (HC2 : core extra s2) by (by eapply core_frame).
  match goal with |- context [set_state CONFIGURED ?x] => set (ts2 := x) end.
  assert (Hts2 : sess_frame ts1 ts2 /\ same_insts ts1 ts2 /\ write_period_ms ts2 = write_period_ms ts1) by (subst ts2; destruct (_ || _); (split; [sess_id ts1|done]); destruct sf_config; by split).
  destruct Hts2 as (Hsf & (A1 & A2 & A3) & A4). set (ts3 := set_state CONFIGURED ts2).
  assert (Ew : cfg_write_into_file (config ts2) = cfg_write_into_file (config ts)) by (rewrite (cf_write _ _ (sf_config _ _ Hsf)); apply Hc1).
  assert (HC3 : core extra (upd_session t ts3 s2)).
  { change (core extra (set_tasks (tasks s2) (upd_session t ts3 s2))). apply (core_session extra _ _ _ ts1); try done.
    - by rewrite E2.
    - destruct Hsf. split; try done; [cbn; by rewrite Hst1|cbn; lia].
    - apply HC2.
    - by right.
    - intros t' id bufs Hin. destruct (co_cbs _ _ HC2 t' id bufs Hin) as [Hlt Hx]. split; [done|]. apply (cbs_linked s2 t ts1); [by rewrite E2|cbn; by rewrite (sf_last _ _ Hsf)|done].
    - assert (Hso : session_ok extra (upd_session t ts2 s2) t ts2).
      { assert (F : frame t s2 (upd_session t ts2 s2)) by (eapply frame_upd; [by rewrite E2|done]).
        apply (co_session _ _ (core_frame _ _ _ _ HC2 F)). cbn. by rewrite lookup_insert_eq. }
      destruct Hso as [S1 S2 S3 S4 S5 S6 S6' S7 S8 S9 S10]. split; try done; cbn.
      + intros b Hb. destruct (S5 b Hb) as (buf & Eb & Hr). exists buf. split; [done|]. intros _. apply Hr. by rewrite A1, Hst1.
      + intros _. rewrite Ew, A4, Hw1. done. }
  assert (Hi3 : inst_ok (state ts3) (states ts3)) by (change (Forall (fun x => x = INST_CONFIGURED) (states ts2)); by rewrite A2).
  assert (HS3 : steady ∅ (upd_session t ts3 s2)).
  { apply (steady_close t _ ts3); [|cbn; by rewrite lookup_insert_eq|done]. intros t' ts' Hn. cbn. rewrite lookup_insert_ne by set_solver.
    rewrite E2, (sx_others _ _ _ F1) by set_solver. by apply (HS t' ts'). }
  destruct (_ && _); [|by exists (upd_session t ts3 s2)].
  eapply (keeps_finishes extra t _ _ ts3); [done|done|cbn; by rewrite lookup_insert_eq|].
  eapply keeps_weaken; [apply (StartTracing_ok extra _ _ ts3); [done|cbn; by rewrite lookup_insert_eq|done]|]. by intros ts' [? _].
Qed.

(** ** Allocation of buffers *)

(** Some buffers were added for [ids]; all [ids] are taken. *)
Record allocated (orig : gmap Z Buf) (ids : list Z) (bufs : gmap Z Buf) (a : IdAllocator) : Prop := {
  al_nodup : NoDup ids;
  al_fresh : forall b, b ∈ ids -> orig !! b = None;
  al_uses : uses a (list_to_set ids ∪ dom orig);
  al_max : max_id_ a = kMaxTraceBufferID;
  al_old : forall b, b ∉ ids -> bufs !! b = orig !! b }.

Definition all_created (ids : list Z) (bufs : gmap Z Buf) : Prop := forall b, b ∈ ids -> exists buf, bufs !! b = Some buf /\ buf_ok buf /\ read_only buf = false.

Lemma alloc_buffers_ok orig l : forall ids s,
  allocated orig ids (buffers_ s) (buffer_ids_ s) -> all_created ids (buffers_ s) ->
  exists m bufs a ids' err, alloc_buffers l ids s = Some (set_memory_left m (set_buffers_ bufs (set_buffer_ids_ a s)), ids', err) /\
    allocated orig ids' bufs a /\ (err = None -> all_created ids' bufs /\ length ids' = (length ids + length l)%nat).
Proof.
  induction l as [|cfg l IH]; intros ids s Hal Hcr; cbn [alloc_buffers].
  { exists (memory_left s), (buffers_ s), (buffer_ids_ s), ids, None. split; [by destruct s|]. split; [done|]. cbn. intros _. split; [done|lia]. }
  destruct Hal as [A1 A2 A3 A4 A5]. destruct (AllocateGeneric_ok _ _ A3) as (a & id & -> & Hm & Hcase). cbn [mbind option_bind].
  destruct (Z.eqb_spec id 0) as [->|Hid].
  { exists (memory_left s), (buffers_ s), a, ids, (Some BufferAllocationFailed). split; [by destruct s|]. split; [|done].
    destruct Hcase as [(_ & Hu & _)|(_ & Hr & _)]; [|lia]. split; try done. by rewrite Hm. }
  destruct Hcase as [(? & _)|(Hni & Hr & Hu & _)]; [done|].
  assert (Hf : orig !! id = None) by (apply not_elem_of_dom; set_solver).
  assert (Hnids : id ∉ ids) by (intros Hin; apply Hni; rewrite elem_of_union, elem_of_list_to_set; by left).
  assert (Hnew : forall bufs, (forall b, b ∉ ids ++ [id] -> bufs !! b = orig !! b) -> allocated orig (ids ++ [id]) bufs a).
  { intros bufs Ho. split; try done.
    - apply NoDup_app. split; [done|]. split; [|apply NoDup_singleton]. intros x Hx ->%list_elem_of_singleton. done.
    - intros b. rewrite elem_of_app, list_elem_of_singleton. intros [Hb| ->]; [by apply A2|done].
    - rewrite list_to_set_app_L. cbn. replace (list_to_set ids ∪ ({[id]} ∪ ∅) ∪ dom orig) with ({[id]} ∪ (list_to_set ids ∪ dom orig)) by set_solver. done.
    - by rewrite Hm. }
  assert (Hsame : allocated orig (ids ++ [id]) (buffers_ s) a) by (apply Hnew; intros b Hb; apply A5; intros Hx; apply Hb; rewrite elem_of_app; by left).
  destruct (_ || _) eqn:Esz.
  { exists (memory_left s), (buffers_ s), a, (ids ++ [id]), (Some InvalidBufferSize). split; [by destruct s|]. by split. }
  apply orb_false_iff in Esz as [Ez1 Ez2]. apply Z.eqb_neq in Ez1. apply Z.ltb_ge in Ez2.
  cbn [buffers_ set_buffer_ids_]. rewrite bool_decide_false by (rewrite A5, Hf by done; by intros [? ?]).
  assert (Hsz : size_ok (u32 (size_kb cfg) * 1024)).
  { pose proof (Z.mod_pos_bound (size_kb cfg) (2 ^ 32) ltac:(lia)) as Hb. fold (u32 (size_kb cfg)) in Hb. split; [lia|]. by rewrite Z.mod_mul. }
  unfold try_create. cbn [memory_left set_buffer_ids_]. destruct (_ <=? memory_left s).
  2: { exists (memory_left s), (buffers_ s), a, (ids ++ [id]), (Some BufferAllocationFailed). split; [by destruct s|]. by split. }
  destruct (dp_create _ (fill_discard cfg) Hsz) as (b & -> & Hb & Hro). cbn [mbind option_bind].
  set (s1 := set_buffers_ _ _).
  destruct (IH (ids ++ [id]) s1) as (m & bufs & a' & ids' & err & -> & Hal' & Herr).
  - apply Hnew. cbn. intros x Hx. rewrite lookup_insert_ne by (intros <-; apply Hx; rewrite elem_of_app, list_elem_of_singleton; by right).
    apply A5. intros Hy. apply Hx. rewrite elem_of_app. by left.
  - intros x. rewrite elem_of_app, list_elem_of_singleton. cbn. intros [Hx| ->].
    + rewrite lookup_insert_ne by (by intros <-). by apply Hcr.
    + rewrite lookup_insert_eq. by exists b.
  - exists m, bufs, a', ids', err. split; [done|]. split; [done|]. intros He. destruct (Herr He) as [H1 H2]. split; [done|]. rewrite H2, length_app. cbn. lia.
Qed.

(** After an error everything is given back. *)
Lemma undo_buffers_ok orig ids : forall s, allocated orig ids (buffers_ s) (buffer_ids_ s) ->
  exists a, for_each undo_buffer ids s = Some (set_buffers_ orig (set_buffer_ids_ a s)) /\ uses a (dom orig) /\ max_id_ a = kMaxTraceBufferID.
Proof.
  induction ids as [|b ids IH]; intros s [A1 A2 A3 A4 A5].
  { exists (buffer_ids_ s). cbn in A3. rewrite (left_id_L ∅ (∪)) in A3. split; [|done].
    assert (orig = buffers_ s) as -> by (apply map_eq; intros b; symmetry; apply A5, not_elem_of_nil). by destruct s. }
  apply NoDup_cons in A1 as [Hni Hnd]. cbn [for_each]. destruct (FreeGeneric_ok _ _ b A3) as [Hf _]. destruct Hf as (a & Ef & Hm & Hu); [set_solver|].
  assert (undo_buffer b s = Some (set_buffers_ (delete b (buffers_ s)) (set_buffer_ids_ a s))) as -> by (unfold undo_buffer; by rewrite Ef). cbn [mbind option_bind].
  assert (Hb : orig !! b = None) by (apply A2; left). destruct (IH (set_buffers_ (delete b (buffers_ s)) (set_buffer_ids_ a s))) as (a' & -> & H').
  - split; cbn; try done.
    + intros x Hx. apply A2. by right.
    + replace (list_to_set ids ∪ dom orig) with ((list_to_set (b :: ids) ∪ dom orig) ∖ {[b]}); [done|].
      cbn. apply not_elem_of_dom in Hb. assert (Hn : b ∉ (list_to_set ids : gset Z)) by (by rewrite elem_of_list_to_set). set_solver.
    + by rewrite Hm.
    + intros x Hx. destruct (decide (x = b)) as [->|Hne]; [by rewrite lookup_delete_eq|]. rewrite lookup_delete_ne by done. apply A5. by rewrite elem_of_cons; intros [|].
  - by exists a'.
Qed.

Lemma core_last extra s n : core extra s -> last_tracing_session_id_ s <= n -> core extra (set_last_tracing_session_id_ n s).
Proof.
  intros [H1 H2 H3 H4 H5 H6 H7 H8 H9 H10 H11 H12 H13 H14] Hn. split; try done; cbn.
  - intros t ts E. destruct (H1 t ts E) as [S1 S2 S3 S4 S5 S6 S6' S7 S8 S9 S10]. split; try done. cbn. lia.
  - intros p q E. by destruct (H7 p q E).
  - eapply Forall_impl; [exact H9|]. intros [] Ht; try done; (destruct Ht as [Hlt Ht]; split; [cbn; lia|done]).
  - intros t id bufs Hin. destruct (H10 t id bufs Hin). split; [lia|done].
  - lia.
Qed.

Lemma file_period_pos cfg : 0 < file_period cfg.
Proof. unfold file_period, kMinWriteIntoFilePeriodMs. destruct (Z.ltb_spec (if file_write_period_ms cfg =? 0 then kDefaultWriteIntoFilePeriodMs else file_write_period_ms cfg) 100); lia. Qed.

(** What a request that is refused leaves as it was. *)
Record rejected s s' : Prop := {
  rj_sessions : tracing_sessions_ s' = tracing_sessions_ s;
  rj_buffers : buffers_ s' = buffers_ s;
  rj_consumers : consumers_ s' = consumers_ s;
  rj_producers : producers_ s' = producers_ s;
  rj_sources : data_sources_ s' = data_sources_ s;
  rj_tasks : tasks s' = tasks s;
  rj_sent : sent s' = sent s }.

Lemma rejected_refl s : rejected s s.
Proof. done. Qed.

Definition enables (r : option (TracingServiceImpl * option TracingError)) s (extra : list FlushCallback) : Prop :=
  exists s' e, r = Some (s', e) /\ core extra s' /\ steady ∅ s' /\ (e <> None -> rejected s s').

(** What an erased session leaves: the table as it was before it came. *)
Lemma erase_upd t (ts : TracingSession) s s' :
  tracing_sessions_ s' = <[t := ts]> (tracing_sessions_ s) -> tracing_sessions_ s !! t = None ->
  erase_session t s' = set_tracing_sessions_ (tracing_sessions_ s) s'.
Proof. intros E Hn. unfold erase_session. by rewrite E, delete_insert_id. Qed.

(** The next identifier is free. *)
Lemma core_fresh extra s : core extra s -> tracing_sessions_ s !! (last_tracing_session_id_ s + 1) = None.
Proof. intros HC. destruct (tracing_sessions_ s !! _) as [ts|] eqn:E; [|done]. destruct (so_id _ _ _ _ (co_session _ _ HC _ ts E)). lia. Qed.

Lemma create_session_ok extra s0 c q uid cfg fd created f :
  core extra s0 -> steady ∅ s0 -> consumers_ s0 !! c = Some q -> tracing_session_id_ q = 0 -> (forall x, f = Some x -> filter_ok x) ->
  enables (create_session c uid cfg fd created f s0) s0 extra.
Proof.
  intros HC HS Eq Hq Hfl. unfold create_session. pose proof (core_fresh extra s0 HC) as Hf. set (t := last_tracing_session_id_ s0 + 1) in *.
  assert (HCl : core extra (set_last_tracing_session_id_ t s0)) by (apply core_last; [done|lia]).
  destruct (check_file cfg fd created) as [e|].
  { rewrite (erase_upd t _ s0) by done. eexists _, (Some e). split; [done|]. split; [exact HCl|]. by split. }
  match goal with |- context [set_buffers_index _ ?x] => set (ts := x) end. set (s := upd_session t ts _).
  assert (Hts : consumer_maybe_null ts = Some c /\ config ts = cfg /\ detach_key ts = EmptyString /\ data_source_instances ts = [] /\ pending_flushes ts = [] /\
    pending_clones ts = ∅ /\ state ts = DISABLED /\ trace_filter ts = f /\ (cfg_write_into_file cfg = true -> 0 < write_period_ms ts)).
  { subst ts. destruct (cfg_write_into_file cfg); repeat split; try done. intros _. apply file_period_pos. }
  destruct Hts as (T1 & T2 & T3 & T4 & T5 & T6 & T7 & T9 & T8). clearbody ts.
  destruct (alloc_buffers_ok (buffers_ s0) (buffers cfg) [] s) as (m & bufs & a & ids & err & -> & Hal & Hcr).
  { split; try done; [constructor|intros b Hb; by apply not_elem_of_nil in Hb| |apply HC]. cbn. rewrite (left_id_L ∅ (∪)). apply HC. }
  { intros b Hb. by apply not_elem_of_nil in Hb. }
  cbn [mbind option_bind]. set (s1 := set_memory_left m _) in Hal |- *. destruct err as [e|].
  - destruct (undo_buffers_ok (buffers_ s0) ids (upd_session t (set_buffers_index ids ts) s1)) as (a' & -> & Hu & Hm); [by destruct Hal|].
    cbn [mbind option_bind]. rewrite (erase_upd t (set_buffers_index ids ts) s0); [|cbn; by rewrite !insert_insert_eq|done].
    eexists _, (Some e). split; [done|]. split; [|by split].
    assert (HC2 : core extra (set_memory_left m (set_last_tracing_session_id_ t s0))) by (eapply (core_frame _ t); [exact HCl|apply frame_memory]).
    exact (core_ids extra _ a' HC2 Hu Hm).
  - destruct (Hcr eq_refl) as [Hnew Hlen]. destruct Hal as [A1 A2 A3 A4 A5].
    assert (Hdom : dom bufs = list_to_set ids ∪ dom (buffers_ s0)).
    { apply set_eq. intros b. rewrite elem_of_union, elem_of_list_to_set, !elem_of_dom. destruct (decide (b ∈ ids)) as [Hb|Hb].
      - destruct (Hnew b Hb) as (x & -> & _). split; [by left|by eexists].
      - rewrite A5 by done. tauto. }
    assert (HCm : core extra (set_memory_left m s0)) by (eapply (core_frame _ t); [exact HC|apply frame_memory]).
    replace (upd_session t (set_buffers_index ids ts) s1) with
      (upd_session t (set_buffers_index ids ts) (set_memory_left m (set_buffers_ bufs (set_buffer_ids_ a (set_last_tracing_session_id_ t s0)))))
      by (unfold upd_session; cbn; by rewrite !insert_insert_eq).
    destruct (configure_session_ok extra (upd_session t (set_buffers_index ids ts) (set_memory_left m (set_buffers_ bufs (set_buffer_ids_ a (set_last_tracing_session_id_ t s0))))) c q t (set_buffers_index ids ts) cfg) as (s2 & -> & HC2 & HS2); try done.
    + cbn. by rewrite lookup_insert_eq.
    + apply (core_new_session extra (set_memory_left m s0) t c q (set_buffers_index ids ts) ids bufs a); try done.
      * split; cbn; try done; [by rewrite T2, Hlen|by rewrite T7|by rewrite T9].
      * intros b Hb. destruct (Hnew b Hb) as (x & Ex & Hx & Hr). by exists x.
      * by rewrite Hdom.
    + intros t' ts' Hn. cbn. rewrite lookup_insert_ne by set_solver. apply HS. set_solver.
    + cbn. by rewrite T2.
    + intros Hin. pose proof (co_tasks _ _ HC) as Hts. rewrite Forall_forall in Hts. destruct (Hts _ Hin) as [Hlt _]. lia.
    + cbn [mbind option_bind]. by exists s2, None.
Qed.

Lemma EnableTracing_ok extra s c cfg fd created :
  core extra s -> steady ∅ s -> is_Some (consumers_ s !! c) -> (forall fc, cfg_trace_filter cfg = Some fc -> filter_config_ok fc) ->
  enables (EnableTracing c cfg fd created s) s extra.
Proof.
  intros HC HS [q Eq] Hfc. unfold EnableTracing. rewrite Eq. cbn [mbind option_bind].
  set (s1 := match lockdown_mode cfg with LOCKDOWN_UNCHANGED => s | _ => _ end).
  assert (F1 : frame 0 s s1) by (subst s1; destruct (lockdown_mode cfg); frame_id 0 s).
  assert (S1 : tracing_sessions_ s1 = tracing_sessions_ s) by (subst s1; by destruct (lockdown_mode cfg)).
  assert (R1 : rejected s s1) by (subst s1; by destruct (lockdown_mode cfg)).
  assert (HC1 : core extra s1) by (by eapply core_frame). assert (HS1 : steady ∅ s1) by (unfold steady; by rewrite S1).
  assert (Eq1 : consumers_ s1 !! c = Some q) by (by rewrite (fr_consumers _ _ _ F1)). clearbody s1. clear F1 S1.
  rewrite (GetTracingSession_core extra) by done. destruct (tracing_sessions_ s1 !! tracing_session_id_ q) as [ts|] eqn:E; [by eexists s1, _|].
  assert (Hq : tracing_session_id_ q = 0) by (destruct (co_consumer _ _ HC1 c q Eq1) as [_ [?|(ts & Et & _)]]; [done|congruence]).
  assert (Hr : forall e : TracingError, enables (Some (s1, Some e)) s extra) by (intros e; by eexists s1, _).
  destruct (check_triggers cfg); [apply Hr|]. destruct (check_buffers cfg); [apply Hr|]. destruct (check_unique_name cfg s1); [apply Hr|].
  destruct (check_semaphores cfg s1); [apply Hr|].
  destruct (check_guardrail cfg s1) as [s2 e2] eqn:Eg.
  assert (Hg : exists m, s2 = set_session_to_last_trace_s_ m s1).
  { unfold check_guardrail in Eg. destruct (enable_extra_guardrails cfg); [|exists (session_to_last_trace_s_ s1); simplify_eq; by destruct s2].
    destruct (_ =? 0) in Eg; simplify_eq; eauto. }
  destruct Hg as [m ->]. set (s2 := set_session_to_last_trace_s_ m s1).
  assert (HC2 : core extra s2) by (eapply (core_frame _ 0); [exact HC1|frame_id 0 s1]). assert (HS2 : steady ∅ s2) by exact HS1.
  assert (R2 : rejected s s2) by (by destruct R1).
  assert (Hr2 : forall e : TracingError, enables (Some (s2, Some e)) s extra) by (intros e; by eexists s2, _).
  destruct e2; [apply Hr2|]. destruct (check_limits (c_uid q) cfg s2); [apply Hr2|]. 
  assert (Hload : exists r, load_trace_filter cfg = Some r /\ forall f x, r = inl f -> f = Some x -> filter_ok x).
  { unfold load_trace_filter. destruct (cfg_trace_filter cfg) as [y|]; [|exists (inl None); split; [done|]; intros; by simplify_eq].
    destruct (dp_load y (Hfc y eq_refl)) as (o & -> & Ho). cbn [mbind option_bind]. eexists. split; [done|]. intros f x Hf ->. destruct o; simplify_eq. by apply Ho. }
  destruct Hload as (r & -> & Hl). cbn [mbind option_bind]. destruct r as [f|]; [|apply Hr2]. assert (Hfl : forall x, f = Some x -> filter_ok x) by (intros x; by apply Hl).
  destruct (create_session_ok extra s2 c q (c_uid q) cfg fd created f HC2 HS2 Eq1 Hq Hfl) as (s' & e & -> & HC' & HS' & Hr'). exists s', e.
  split; [done|]. split; [done|]. split; [done|]. intros He. destruct (Hr' He), R2. split; congruence.
Qed.
End Enable.
