(* ===== verification/TracingServiceProducers.v ===== *)
(** * The tracing service: calls of producers

    Acknowledgements of data sources, registration, commits and triggers. When a data
    source is unregistered its instances are stopped and leave every session; when a
    producer disconnects no session has anything of it. *)

From stdpp Require Import sorting.
From S2P Require Import Prelude IdAllocator TracingServiceTypes TracingService TracingServiceEndpoints TracingServiceOk.
From S2P Require Import TracingServiceSession TracingServiceFlush TracingServiceEnable.

Lemma for_each_app {A S} (f : A -> S -> option S) l1 l2 : forall s, for_each f (l1 ++ l2) s = (s ← for_each f l1 s; for_each f l2 s).
Proof. induction l1 as [|x l1 IH]; intros s; [done|]. cbn. destruct (f x s); [|done]. cbn. apply IH. Qed.

Lemma NoDup_map_keys {V} (m : gmap Z V) : NoDup (map_keys m).
Proof. unfold map_keys. rewrite (merge_sort_Permutation Z.le). apply NoDup_fst_map_to_list. Qed.

Lemma delete_insert_same {A} (l : list A) : forall i x, delete i (<[i := x]> l) = delete i l.
Proof. induction l as [|y l IH]; intros [|i] x; cbn; try done. by rewrite IH. Qed.

Lemma elem_of_delete_other {A} (l : list A) : forall i x y, x ∈ l -> l !! i = Some y -> y <> x -> x ∈ delete i l.
Proof.
  induction l as [|z l IH]; intros [|i] x y Hx Hy Hne; cbn in *; try done; apply elem_of_cons in Hx as [->|Hx].
  - by simplify_eq. - done. - left. - right. by eapply IH.
Qed.

Section Producers.
Context {D : DataPlane} {DOk : DataPlaneOk D}.
Implicit Types (s : TracingServiceImpl) (ts : TracingSession).

(** Every session keeps its instances, up to their states. *)
Record kept s s' : Prop := {
  kp_sources : data_sources_ s' = data_sources_ s;
  kp_producers : producers_ s' = producers_ s;
  kp_keys : forall t, keys <$> tracing_sessions_ s' !! t = keys <$> tracing_sessions_ s !! t }.

Lemma kept_refl s : kept s s.
Proof. done. Qed.

Lemma kept_trans a b c : kept a b -> kept b c -> kept a c.
Proof. intros [H1 H2 H3] [K1 K2 K3]. split; [congruence..|]. intros t. by rewrite K3, H3. Qed.

Lemma kept_frame t s s' ts ts' : frame t s s' -> tracing_sessions_ s !! t = Some ts -> tracing_sessions_ s' !! t = Some ts' -> keys ts' = keys ts -> kept s s'.
Proof.
  intros F E E' Hk. split; [apply F..|]. intros t'. destruct (decide (t' = t)) as [->|Hne]; [|by rewrite (fr_others _ _ _ F)].
  rewrite E, E'. cbn. by rewrite Hk.
Qed.

Lemma kept_session s s' t ts : kept s s' -> tracing_sessions_ s !! t = Some ts -> exists ts', tracing_sessions_ s' !! t = Some ts' /\ keys ts' = keys ts.
Proof.
  intros Hk E. pose proof (kp_keys _ _ Hk t) as Hx. rewrite E in Hx. destruct (tracing_sessions_ s' !! t) as [ts'|]; cbn in Hx; [|done].
  exists ts'. split; [done|]. by simplify_eq.
Qed.

(** ** Acknowledgements *)

(** What the acknowledgement of a stop does to the instance it is for. *)
Inductive acked ts ts' (oi : option nat) : Prop :=
  | acked_none : same_insts ts ts' -> (forall i, oi = Some i -> states ts !! i <> Some INST_STOPPING) -> acked ts ts' oi
  | acked_stop i : oi = Some i -> states ts !! i = Some INST_STOPPING -> inst_to i INST_STOPPED ts ts' ->
      (state ts = DISABLING_WAITING_STOP_ACKS -> ~ Forall (fun x => x = INST_STOPPED) (states ts')) -> acked ts ts' oi
  | acked_end i : oi = Some i -> states ts !! i = Some INST_STOPPING -> state ts = DISABLING_WAITING_STOP_ACKS -> disabled (keys ts) ts' -> acked ts ts' oi.

Lemma acked_keys ts ts' oi : acked ts ts' oi -> keys ts' = keys ts.
Proof. intros [[_ [_ ?]] _|i _ _ [_ [_ ?]] _|i _ _ _ [_ [_ ?]]]; done. Qed.

Lemma stopped_in_session_ok extra s t ts p id :
  core extra s -> tracing_sessions_ s !! t = Some ts ->
  keeps t (stopped_in_session p id t s) s (fun ts' => acked ts ts' (GetDataSourceInstance ts p id)).
Proof.
  intros HC E. unfold stopped_in_session. rewrite E. cbn [mbind option_bind].
  destruct (GetDataSourceInstance ts p id) as [i|] eqn:Ei; [|apply (keeps_ret t s s ts); [apply frame_refl|done|by apply acked_none]].
  unfold GetDataSourceInstance in Ei. apply fmap_Some in Ei as ([i' [q inst]] & Ef & ->). cbn [fst].
  apply list_find_Some in Ef as (El & [Hq _] & _). cbn in Hq. subst q. rewrite El. cbn [mbind option_bind]. pose proof (states_lookup _ _ _ _ El) as Hst.
  case_decide as Hs; [|apply (keeps_ret t s s ts); [apply frame_refl|done|apply acked_none; [done|]; intros j Hj; cbn in Hj; simplify_eq; rewrite Hst; congruence]].
  rewrite Hs in Hst. eapply keeps_bind; [by apply (change_instance_ok extra)|]. intros s1 ts1 F1 E1 H1. rewrite E1. cbn [mbind option_bind].
  assert (HC1 : core extra s1) by (by eapply core_frame). pose proof H1 as (A1 & A2 & A3).
  destruct (_ && _) eqn:Eb.
  - apply andb_true_iff in Eb as [_ Hd]. apply bool_decide_eq_true in Hd.
    eapply keeps_weaken; [apply (DisableTracingNotify_ok extra _ _ ts1); [done|done|by rewrite Hd..]|].
    intros ts2 H2. apply (acked_end _ _ _ i'); [done..|congruence|by rewrite <- A3].
  - apply (keeps_ret t s1 s1 ts1); [apply frame_refl|done|]. apply (acked_stop _ _ _ i'); try done.
    intros Hd Hall. apply AllStopped_spec in Hall. rewrite Hall, bool_decide_true in Eb; [done|congruence].
Qed.

Lemma not_all_stopped l : Forall (fun x => x = INST_STOPPING \/ x = INST_STOPPED) l -> ~ Forall (fun x => x = INST_STOPPED) l -> INST_STOPPING ∈ l.
Proof.
  intros Ha Hn. apply not_Forall_Exists in Hn; [|apply _]. apply Exists_exists in Hn as (x & Hx & Hne). rewrite Forall_forall in Ha. destruct (Ha x Hx) as [->| ->]; [done|by destruct Hne].
Qed.

Lemma acked_inst_ok ts ts' oi : acked ts ts' oi -> inst_ok (state ts) (states ts) -> inst_ok (state ts') (states ts').
Proof.
  intros [(A1 & A2 & _) _|i Hi Hs (A1 & A2 & A3) Hn|i _ _ _ (B1 & B2 & _)] Hok; [by rewrite A1, A2| |by rewrite B1].
  rewrite A1. apply list_elem_of_lookup_2 in Hs as Hin.
  destruct (state ts) eqn:Est; cbn in *; try (rewrite Forall_forall in Hok; specialize (Hok _ Hin); naive_solver).
  - destruct Hok as [Hok _]. assert (Hf : Forall (fun x => x = INST_STOPPING \/ x = INST_STOPPED) (states ts')) by (rewrite A2; apply Forall_insert; [done|by right]).
    split; [done|]. apply not_all_stopped; [done|by apply Hn].
  - rewrite Hok in Hin. by apply not_elem_of_nil in Hin.
Qed.

(** A loop over sessions in which each step changes the states of one session. *)
Definition steady_kept (extra : list FlushCallback) (X : gset Z) s0 s : Prop := core extra s /\ steady X s /\ kept s0 s.

Lemma NotifyDataSourceStopped_ok extra s p id :
  core extra s -> steady ∅ s -> exists s', NotifyDataSourceStopped p id s = Some s' /\ steady_kept extra ∅ s s'.
Proof.
  intros HC HS. apply (loop_ok (steady_kept extra ∅ s)); [|by split]. intros t s1 Ht (HC1 & HS1 & Hk1). apply elem_of_map_keys in Ht as [ts0 E0].
  destruct (kept_session _ _ _ _ Hk1 E0) as (ts & E & _). destruct (stopped_in_session_ok extra s1 t ts p id HC1 E) as (s2 & ts2 & -> & F & E2 & Ha).
  exists s2. split; [done|]. split; [by eapply core_frame|]. split.
  - apply (steady_close t s2 ts2); [|done|]; [eapply (steady_frame t); [exact F|set_solver|by eapply steady_weaken; [|exact HS1]]|].
    eapply acked_inst_ok; [exact Ha|]. by apply (HS1 t).
  - eapply kept_trans; [exact Hk1|]. eapply (kept_frame t); [done..|by eapply acked_keys].
Qed.

(** The same while session [t] is not in agreement with its data sources. *)
Lemma NotifyDataSourceStopped_at_ok extra s t ts p id :
  core extra s -> steady {[t]} s -> tracing_sessions_ s !! t = Some ts ->
  exists s' ts', NotifyDataSourceStopped p id s = Some s' /\ steady_kept extra {[t]} s s' /\ tracing_sessions_ s' !! t = Some ts' /\
    acked ts ts' (GetDataSourceInstance ts p id).
Proof.
  intros HC HS E. unfold NotifyDataSourceStopped. pose proof (NoDup_map_keys (tracing_sessions_ s)) as Hnd.
  assert (Hin : t ∈ map_keys (tracing_sessions_ s)) by (apply elem_of_map_keys; by eexists).
  assert (Hall : forall x, x ∈ map_keys (tracing_sessions_ s) -> is_Some (tracing_sessions_ s !! x)) by (intros x; apply elem_of_map_keys).
  apply list_elem_of_split in Hin as (l1 & l2 & Hl). rewrite Hl in *. apply NoDup_app in Hnd as (_ & Hn1 & Hn2). apply NoDup_cons in Hn2 as [Hn2 _].
  assert (Hn1' : t ∉ l1) by (intros Hx; apply (Hn1 t Hx); left).
  assert (Hloop : forall l s1 ts1, t ∉ l -> (forall x, x ∈ l -> is_Some (tracing_sessions_ s !! x)) -> steady_kept extra {[t]} s s1 -> tracing_sessions_ s1 !! t = Some ts1 ->
    exists s2, for_each (stopped_in_session p id) l s1 = Some s2 /\ steady_kept extra {[t]} s s2 /\ tracing_sessions_ s2 !! t = Some ts1).
  { intros l s1 ts1 Hnl Hsl H1 Et1. apply (loop_ok (fun s2 => steady_kept extra {[t]} s s2 /\ tracing_sessions_ s2 !! t = Some ts1)); [|done].
    intros x s2 Hx [(HC2 & HS2 & Hk2) Et2]. destruct (Hsl x Hx) as [ts0 E0]. destruct (kept_session _ _ _ _ Hk2 E0) as (tsx & Ex & _).
    assert (Hxt : x <> t) by (by intros ->). destruct (stopped_in_session_ok extra s2 x tsx p id HC2 Ex) as (s3 & ts3 & -> & F & E3 & Ha).
    exists s3. split; [done|]. split; [split; [by eapply core_frame|split]|by rewrite (fr_others _ _ _ F)].
    - intros y tsy Hy. destruct (decide (y = x)) as [->|Hyx]; [|rewrite (fr_others _ _ _ F) by done; by apply HS2].
      rewrite E3. intros [= <-]. eapply acked_inst_ok; [exact Ha|]. by apply (HS2 x).
    - eapply kept_trans; [exact Hk2|]. eapply (kept_frame x); [done..|by eapply acked_keys]. }
  rewrite for_each_app. destruct (Hloop l1 s ts) as (s1 & -> & (HC1 & HS1 & Hk1) & E1); [done|intros; apply Hall; set_solver|by split|done|].
  cbn [mbind option_bind for_each]. destruct (stopped_in_session_ok extra s1 t ts p id HC1 E1) as (s2 & ts2 & -> & F2 & E2 & Ha). cbn [mbind option_bind].
  destruct (Hloop l2 s2 ts2) as (s3 & -> & H3 & E3); [done|intros; apply Hall; set_solver| |done|].
  - split; [by eapply core_frame|]. split; [eapply steady_frame; [exact F2|set_solver|done]|]. eapply kept_trans; [exact Hk1|]. eapply (kept_frame t); [done..|by eapply acked_keys].
  - exists s3, ts2. by split_and!.
Qed.

Lemma NotifyDataSourceStarted_ok extra s p id :
  core extra s -> steady ∅ s -> exists s', NotifyDataSourceStarted p id s = Some s' /\ steady_kept extra ∅ s s'.
Proof.
  intros HC HS. apply (loop_ok (steady_kept extra ∅ s)); [|by split]. intros t s1 Ht (HC1 & HS1 & Hk1). apply elem_of_map_keys in Ht as [ts0 E0].
  destruct (kept_session _ _ _ _ Hk1 E0) as (ts & E & _). rewrite E. cbn [mbind option_bind].
  assert (Hr : exists s', Some s1 = Some s' /\ steady_kept extra ∅ s s') by (exists s1; by split).
  destruct (GetDataSourceInstance ts p id) as [i|] eqn:Ei; [|done].
  unfold GetDataSourceInstance in Ei. apply fmap_Some in Ei as ([i' [q inst]] & Ef & ->). cbn [fst].
  apply list_find_Some in Ef as (El & [Hq _] & _). cbn in Hq. subst q. rewrite El. cbn [mbind option_bind].
  destruct (_ && _) eqn:Eb; [|done]. clear Hr. apply andb_true_iff in Eb as [Hst _]. apply bool_decide_eq_true in Hst.
  destruct (keeps_bind t _ (fun s => MaybeNotifyAllDataSourcesStarted s t) s1 _ (inst_to i' INST_STARTED ts)
    (change_instance_ok extra s1 t ts i' p inst INST_STARTED HC1 E El)) as (s2 & ts2 & Hs2 & F & E2 & (A1 & A2 & A3)).
  { intros s3 ts3 F3 E3 (B1 & B2 & B3). eapply keeps_weaken; [apply (MaybeNotifyAllDataSourcesStarted_ok extra _ _ ts3); [by eapply core_frame|done]|].
    intros ts4 (C1 & C2 & C3). split; [congruence|]. split; congruence. }
  rewrite Hs2. exists s2. split; [done|]. split; [by eapply core_frame|]. split; [|eapply kept_trans; [exact Hk1|by eapply (kept_frame t)]].
  apply (steady_close t s2 ts2); [|done|]; [eapply (steady_frame t); [exact F|set_solver|by eapply steady_weaken; [|exact HS1]]|].
  rewrite A1, A2, Hst. cbn. apply Forall_insert; [|by right]. pose proof (HS1 t ts ltac:(set_solver) E) as Hi. by rewrite Hst in Hi.
Qed.

(** ** Unregistration *)

Lemma keys_lookup ts i p inst : data_source_instances ts !! i = Some (p, inst) -> keys ts !! i = Some (p, data_source_name inst, instance_id inst).
Proof. intros E. unfold keys. by rewrite list_lookup_fmap, E. Qed.

(** Identifiers of instances are unique. *)
Lemma GetDataSourceInstance_at extra s t ts i p inst :
  core extra s -> tracing_sessions_ s !! t = Some ts -> data_source_instances ts !! i = Some (p, inst) -> GetDataSourceInstance ts p (instance_id inst) = Some i.
Proof.
  intros HC E Ei. unfold GetDataSourceInstance. destruct (so_ids _ _ _ _ (co_session _ _ HC t ts E)) as [Hnd _].
  assert (Hf : list_find (fun x => x.1 = p /\ instance_id x.2 = instance_id inst) (data_source_instances ts) = Some (i, (p, inst))); [|by rewrite Hf].
  apply list_find_Some. split; [done|]. split; [done|]. intros j [q inst'] Ej Hlt [_ Hid]. cbn in Hid.
  assert (j = i); [|lia]. eapply NoDup_lookup; [exact Hnd| |]; rewrite list_lookup_fmap.
  - rewrite (keys_lookup _ _ _ _ Ej). cbn. by rewrite Hid.
  - by rewrite (keys_lookup _ _ _ _ Ei).
Qed.

Lemma inst_ok_delete st l i x : inst_ok st l -> l !! i = Some x -> (st = DISABLING_WAITING_STOP_ACKS -> x = INST_STOPPED) -> inst_ok st (delete i l).
Proof.
  intros Hi Hx Hd. destruct st; cbn in *; try (by apply Forall_delete); [|by subst l].
  destruct Hi as [Hf Hin]. split; [by apply Forall_delete|]. apply (elem_of_delete_other _ _ _ x); [done..|]. by rewrite Hd.
Qed.

(** An instance is retired: without it the session agrees with its data sources. *)
Definition retired (extra : list FlushCallback) s (t : Z) (i : nat) s' : Prop :=
  steady_kept extra {[t]} s s' /\ exists ts', tracing_sessions_ s' !! t = Some ts' /\ inst_ok (state ts') (delete i (states ts')).

(** The acknowledgement for an instance that is stopping. *)
Lemma retire_stopping_ok extra s0 s t ts i p inst :
  core extra s -> steady {[t]} s -> kept s0 s -> tracing_sessions_ s !! t = Some ts -> data_source_instances ts !! i = Some (p, inst) ->
  inst_state inst = INST_STOPPING -> (inst_ok (state ts) (states ts) \/ state ts <> DISABLING_WAITING_STOP_ACKS /\ inst_ok (state ts) (delete i (states ts))) ->
  exists s', NotifyDataSourceStopped p (instance_id inst) s = Some s' /\ retired extra s0 t i s'.
Proof.
  intros HC HS Hk E Ei Hst Hi. destruct (NotifyDataSourceStopped_at_ok extra s t ts p (instance_id inst) HC HS E) as (s1 & ts1 & -> & (HC1 & HS1 & Hk1) & E1 & Ha).
  exists s1. split; [done|]. split; [split; [done|]; split; [done|by eapply kept_trans]|]. exists ts1. split; [done|].
  rewrite (GetDataSourceInstance_at extra s t ts i p inst HC E Ei) in Ha. pose proof (states_lookup _ _ _ _ Ei) as Hl. rewrite Hst in Hl.
  pose proof Ha as Ha'. destruct Ha as [_ Hn|j Hj _ (A1 & A2 & A3) Hn|j Hj _ Hd (B1 & B2 & _)]; [by destruct (Hn i eq_refl)| |].
  - simplify_eq. assert (Hl1 : states ts1 !! j = Some INST_STOPPED) by (rewrite A2; apply list_lookup_insert_eq; by apply lookup_lt_Some in Hl).
    destruct Hi as [Hi|[Hnd Hi]]; [|by rewrite A1, A2, delete_insert_same]. apply (inst_ok_delete _ _ _ INST_STOPPED); [|done|done]. by eapply acked_inst_ok.
  - rewrite B1. cbn. by apply Forall_delete.
Qed.

Lemma retire_instance_ok extra s t ts i p inst :
  core extra s -> steady ∅ s -> tracing_sessions_ s !! t = Some ts -> data_source_instances ts !! i = Some (p, inst) ->
  exists s', retire_instance p t i s = Some s' /\ retired extra s t i s'.
Proof.
  intros HC HS E Ei. unfold retire_instance. rewrite E. cbn [mbind option_bind]. rewrite Ei. cbn [mbind option_bind].
  pose proof (HS t ts ltac:(set_solver) E) as Hi. pose proof (states_lookup _ _ _ _ Ei) as Hl.
  assert (HSt : steady {[t]} s) by (by eapply steady_weaken; [|exact HS]).
  assert (Hrun : inst_state inst <> INST_STOPPED -> inst_state inst <> INST_STOPPING ->
    exists s', (s1 ← StopDataSourceInstance p t i false s; ts1 ← tracing_sessions_ s1 !! t; '(_, inst1) ← data_source_instances ts1 !! i;
      if decide (inst_state inst1 = INST_STOPPING) then NotifyDataSourceStopped p (instance_id inst1) s1 else Some s1) = Some s' /\ retired extra s t i s').
  { intros Hn1 Hn2. assert (Hnd : state ts <> DISABLING_WAITING_STOP_ACKS).
    { intros Hd. rewrite Hd in Hi. destruct Hi as [Hi _]. rewrite Forall_forall in Hi. apply list_elem_of_lookup_2 in Hl. by destruct (Hi _ Hl). }
    destruct (StopDataSourceInstance_ok extra s t ts i p inst false HC E Ei) as (s1 & ts1 & -> & F1 & E1 & (A1 & A2 & A3)). cbn [mbind option_bind]. rewrite E1. cbn [mbind option_bind].
    set (st1 := if will_notify_on_stop inst && negb false then INST_STOPPING else INST_STOPPED) in A2. assert (Hl1 : states ts1 !! i = Some st1) by (rewrite A2; apply list_lookup_insert_eq; by apply lookup_lt_Some in Hl).
    apply states_lookup_inv in Hl1 as (p1 & inst1 & Ei1 & Hst1). rewrite Ei1. cbn [mbind option_bind].
    assert (Hp : p1 = p) by (pose proof (keys_lookup _ _ _ _ Ei1) as Hk1; rewrite A3, (keys_lookup _ _ _ _ Ei) in Hk1; congruence). subst p1.
    assert (HC1 : core extra s1) by (by eapply core_frame). assert (HS1 : steady {[t]} s1) by (eapply steady_frame; [exact F1|set_solver|done]).
    assert (Hk1 : kept s s1) by (by eapply (kept_frame t)).
    assert (Hdel : inst_ok (state ts1) (delete i (states ts1))) by (rewrite A1, A2, delete_insert_same; eapply inst_ok_delete; [done|exact Hl|done]).
    case_decide as Hs; [apply (retire_stopping_ok extra s s1 t ts1 i); try done; right; split; [by rewrite A1|done]|].
    exists s1. split; [done|]. split; [by split|]. by exists ts1. }
  destruct (inst_state inst) eqn:Est.
  1-3: rewrite decide_False by done; by apply Hrun.
  - rewrite decide_True by done. cbn [mbind option_bind]. rewrite E. cbn [mbind option_bind]. rewrite Ei. cbn [mbind option_bind]. rewrite decide_True by done.
    apply (retire_stopping_ok extra s s t ts); try done. by left.
  - exists s. split; [done|]. split; [split; [done|]; by split|]. exists ts. split; [done|]. by eapply inst_ok_delete.
Qed.

(** Instances leave sessions, nothing is added. *)
Record shrinks s s' : Prop := {
  sh_sources : data_sources_ s' = data_sources_ s;
  sh_producers : producers_ s' = producers_ s;
  sh_keys : forall t, option_Forall2 (fun ts ts' => keys ts' ⊆ keys ts) (tracing_sessions_ s !! t) (tracing_sessions_ s' !! t) }.

Lemma shrinks_refl s : shrinks s s.
Proof. split; try done. intros t. by apply option_Forall2_refl'. Qed.

Lemma shrinks_trans a b c : shrinks a b -> shrinks b c -> shrinks a c.
Proof.
  intros [H1 H2 H3] [K1 K2 K3]. split; [congruence..|]. intros t. specialize (H3 t). specialize (K3 t).
  destruct H3; inversion K3; subst; constructor. by etrans.
Qed.

Lemma kept_shrinks s s' : kept s s' -> shrinks s s'.
Proof.
  intros [H1 H2 H3]. split; try done. intros t. specialize (H3 t). destruct (tracing_sessions_ s !! t), (tracing_sessions_ s' !! t); cbn in H3; simplify_eq; constructor.
  by rewrite H3.
Qed.

Lemma shrinks_session s s' t ts : shrinks s s' -> tracing_sessions_ s !! t = Some ts -> exists ts', tracing_sessions_ s' !! t = Some ts' /\ keys ts' ⊆ keys ts.
Proof. intros Hk E. pose proof (sh_keys _ _ Hk t) as Hx. rewrite E in Hx. inversion Hx; subst. eauto. Qed.

Definition no_source (p : Z) (name : string) (l : list (Z * string * Z)) : Prop := forall k, k ∈ l -> k.1 <> (p, name).

Definition steady_shrinks (extra : list FlushCallback) s0 s : Prop := core extra s /\ steady ∅ s /\ shrinks s0 s.

Lemma length_delete_lt {A} (l : list A) i : (i < length l)%nat -> length (delete i l) = (length l - 1)%nat.
Proof. intros Hi. apply lookup_lt_is_Some_2 in Hi as [x Hx]. by rewrite length_delete by (by eexists). Qed.

Lemma take_delete {A} (l : list A) : forall i, take i (delete i l) = take i l.
Proof. induction l as [|x l IH]; intros [|i]; cbn; try done. by rewrite IH. Qed.

(** The instance is erased. *)
Lemma erase_instance_ok extra s0 s t i :
  retired extra s0 t i s -> exists ts, tracing_sessions_ s !! t = Some ts /\
    let ts' := set_data_source_instances (delete i (data_source_instances ts)) ts in
    steady_shrinks extra s0 (upd_session t ts' s) /\ keys ts' = delete i (keys ts) /\ (forall ts0, tracing_sessions_ s0 !! t = Some ts0 -> keys ts = keys ts0).
Proof.
  intros [(HC & HS & Hk) (ts & E & Hi)]. exists ts. split; [done|]. intros ts'.
  assert (Hks : keys ts' = delete i (keys ts)) by (unfold keys; cbn; by rewrite list_fmap_delete).
  assert (Hss : states ts' = delete i (states ts)) by (unfold states; cbn; by rewrite list_fmap_delete).
  assert (F : frame t s (upd_session t ts' s)) by (eapply frame_upd; [done|]; sess_id ts; rewrite Hks; apply sublist_delete).
  split; [|split; [done|]].
  - split; [by eapply core_frame|]. split.
    + apply (steady_close t _ ts'); [eapply steady_frame; [exact F|set_solver|done]|cbn; by rewrite lookup_insert_eq|]. by rewrite Hss.
    + eapply shrinks_trans; [by apply kept_shrinks|]. split; try done. intros t'. cbn. destruct (decide (t' = t)) as [->|Hne].
      * rewrite lookup_insert_eq, E. constructor. rewrite Hks. apply sublist_subseteq, sublist_delete.
      * rewrite lookup_insert_ne by done. by apply option_Forall2_refl'.
  - intros ts0 E0. destruct (kept_session _ _ _ _ Hk E0) as (ts1 & E1 & Hk1). by simplify_eq.
Qed.

Lemma unregister_loop_ok extra p name t n : forall i removed s ts,
  core extra s -> steady ∅ s -> tracing_sessions_ s !! t = Some ts -> length (keys ts) = (i + n)%nat -> no_source p name (take i (keys ts)) ->
  exists s' removed' ts', unregister_loop n p name t i removed s = Some (s', removed') /\ steady_shrinks extra s s' /\
    tracing_sessions_ s' !! t = Some ts' /\ no_source p name (keys ts').
Proof.
  induction n as [|n IH]; intros i removed s ts HC HS E Hlen Hno; cbn [unregister_loop].
  { exists s, removed, ts. split; [done|]. split; [split; [done|]; split; [done|apply shrinks_refl]|]. split; [done|]. by rewrite Nat.add_0_r in Hlen; rewrite take_ge in Hno by lia. }
  rewrite E. cbn [mbind option_bind]. assert (Hi : (i < length (data_source_instances ts))%nat) by (rewrite <- length_keys; lia).
  apply lookup_lt_is_Some_2 in Hi as [[q inst] Ei]. rewrite Ei. cbn [mbind option_bind]. pose proof (keys_lookup _ _ _ _ Ei) as Hk.
  destruct (bool_decide (q = p) && bool_decide (data_source_name inst = name)) eqn:Eb.
  - apply andb_true_iff in Eb as [Eq En]. apply bool_decide_eq_true in Eq, En. subst q.
    destruct (retire_instance_ok extra s t ts i p inst HC HS E Ei) as (s1 & -> & Hr). cbn [mbind option_bind].
    destruct (erase_instance_ok extra s s1 t i Hr) as (ts1 & E1 & (HC2 & HS2 & Hsh2) & Hk2 & Hk0). rewrite E1. cbn [mbind option_bind].
    set (ts2 := set_data_source_instances _ ts1) in *. specialize (Hk0 ts E).
    destruct (IH i true (upd_session t ts2 s1) ts2 HC2 HS2) as (s3 & r3 & ts3 & -> & (HC3 & HS3 & Hsh3) & E3 & Hn3).
    + cbn. by rewrite lookup_insert_eq.
    + rewrite Hk2, Hk0, length_delete_lt; lia.
    + by rewrite Hk2, Hk0, take_delete.
    + exists s3, r3, ts3. split; [done|]. split; [split; [done|]; split; [done|by eapply shrinks_trans]|done].
  - apply (IH (S i) removed s ts); try done; [lia|]. rewrite (take_S_r _ _ _ Hk). intros k. rewrite elem_of_app, list_elem_of_singleton. intros [Hin| ->]; [by apply Hno|].
    cbn. intros [= -> Hn]. by rewrite !bool_decide_true in Eb.
Qed.

Lemma unregister_in_session_ok extra p name t s ts :
  core extra s -> steady ∅ s -> tracing_sessions_ s !! t = Some ts ->
  exists s' ts', unregister_in_session p name t s = Some s' /\ steady_shrinks extra s s' /\ tracing_sessions_ s' !! t = Some ts' /\ no_source p name (keys ts').
Proof.
  intros HC HS E. unfold unregister_in_session. rewrite E. cbn [mbind option_bind].
  destruct (unregister_loop_ok extra p name t (length (data_source_instances ts)) 0 false s ts HC HS E) as (s1 & r & ts1 & -> & (HC1 & HS1 & Hsh1) & E1 & Hn1);
    [by rewrite length_keys|intros k Hk; by apply not_elem_of_nil in Hk|]. cbn [mbind option_bind].
  destruct r; [|by exists s1, ts1]. destruct (MaybeNotifyAllDataSourcesStarted_ok extra s1 t ts1 HC1 E1) as (s2 & ts2 & -> & F2 & E2 & (A1 & A2 & A3)).
  exists s2, ts2. split; [done|]. split; [|split; [done|by rewrite A3]]. split; [by eapply core_frame|]. split.
  - apply (steady_close t _ ts2); [eapply steady_frame; [exact F2|set_solver|by eapply steady_weaken; [|exact HS1]]|done|]. rewrite A1, A2. by apply (HS1 t).
  - eapply shrinks_trans; [exact Hsh1|]. apply kept_shrinks. by eapply (kept_frame t).
Qed.

Lemma unregister_all_ok extra p name l : forall s,
  core extra s -> steady ∅ s -> (forall t, t ∈ l -> is_Some (tracing_sessions_ s !! t)) ->
  exists s', for_each (unregister_in_session p name) l s = Some s' /\ steady_shrinks extra s s' /\
    (forall t ts, t ∈ l -> tracing_sessions_ s' !! t = Some ts -> no_source p name (keys ts)).
Proof.
  induction l as [|t l IH]; intros s HC HS Hl; cbn [for_each].
  { exists s. split; [done|]. split; [split; [done|]; split; [done|apply shrinks_refl]|]. intros t ts Ht. by apply not_elem_of_nil in Ht. }
  destruct (Hl t) as [ts E]; [left|]. destruct (unregister_in_session_ok extra p name t s ts HC HS E) as (s1 & ts1 & -> & (HC1 & HS1 & Hsh1) & E1 & Hn1). cbn [mbind option_bind].
  destruct (IH s1 HC1 HS1) as (s2 & -> & (HC2 & HS2 & Hsh2) & Hn2).
  { intros t' Ht'. destruct (Hl t') as [ts' E']; [by right|]. destruct (shrinks_session _ _ _ _ Hsh1 E') as (x & Ex & _). by exists x. }
  exists s2. split; [done|]. split; [split; [done|]; split; [done|by eapply shrinks_trans]|].
  intros t' ts' Ht' E'. apply elem_of_cons in Ht' as [->|Ht']; [|by eapply Hn2].
  destruct (shrinks_session _ _ _ _ Hsh2 E1) as (x & Ex & Hsub). simplify_eq. intros k Hk. by apply Hn1, Hsub.
Qed.

(** Other tables of data sources: what the instances need is still there. *)
Lemma core_sources extra s l :
  core extra s -> (forall x, x ∈ l -> is_Some (producers_ s !! rds_producer_id x.2)) ->
  (forall x, x ∈ l -> x.1 = d_name (descriptor x.2)) ->
  (forall t ts k, tracing_sessions_ s !! t = Some ts -> k ∈ keys ts -> exists r, r ∈ l /\ rds_producer_id r.2 = k.1.1 /\ d_name (descriptor r.2) = k.1.2) ->
  core extra (set_data_sources_ l s).
Proof.
  intros [H1 H2 H3 H4 H5 H6 H7 H8 H9 H10 H11 H12 H13 H14] Hl Hnm Hk. split; try done.
  - intros t ts E. destruct (H1 t ts E) as [S1 S2 S3 S4 S5 S6 S6' S7 S8 S9 S10]. split; try done. cbn. intros k Hin. split; [by apply S6|by eapply Hk].
  - intros p q E. by destruct (H7 p q E).
Qed.

Lemma elem_of_erase_registered p name l x : x ∈ erase_registered p name l -> x ∈ l.
Proof. induction l as [|y l IH]; cbn; [done|]. destruct (_ && _); rewrite !elem_of_cons; [auto|]. intros [->|Hx]; auto. Qed.

Lemma erase_registered_other p name l x : x ∈ l -> (rds_producer_id x.2, d_name (descriptor x.2)) <> (p, name) -> x ∈ erase_registered p name l.
Proof.
  induction l as [|y l IH]; cbn; [done|]. rewrite elem_of_cons. intros [->|Hx] Hn.
  - destruct (Z.eqb_spec (rds_producer_id y.2) p), (bool_decide_reflect (d_name (descriptor y.2) = name)); cbn; try left. congruence.
  - destruct (_ && _); [done|]. right. by apply IH.
Qed.

Lemma UnregisterDataSource_ok extra s p name :
  core extra s -> steady ∅ s -> is_Some (producers_ s !! p) ->
  exists s', UnregisterDataSource p name s = Some s' /\ core extra s' /\ steady ∅ s' /\ producers_ s' = producers_ s /\
    data_sources_ s' = erase_registered p name (data_sources_ s).
Proof.
  intros HC HS [q Eq]. unfold UnregisterDataSource. destruct (po_id _ _ _ (co_producer _ _ HC p q Eq)) as [Hp _].
  destruct (Z.eqb_spec p 0); [lia|]. unfold GetProducer. rewrite Eq. cbn [mbind option_bind].
  destruct (unregister_all_ok extra p name (map_keys (tracing_sessions_ s)) s HC HS) as (s1 & -> & (HC1 & HS1 & Hsh1) & Hn1); [intros t; apply elem_of_map_keys|].
  cbn [mbind option_bind]. eexists. split; [done|]. split; [|split; [exact HS1|split; [apply Hsh1|cbn; by rewrite (sh_sources _ _ Hsh1)]]].
  apply core_sources; [done| | |].
  - intros x Hx. apply elem_of_erase_registered in Hx. by apply (co_sources _ _ HC1).
  - intros x Hx. apply elem_of_erase_registered in Hx. by apply (co_named _ _ HC1).
  - intros t ts k E Hk. destruct (so_insts _ _ _ _ (co_session _ _ HC1 t ts E) k Hk) as (_ & r & Hr & Hr1 & Hr2). exists r. split; [|done].
    apply erase_registered_other; [done|]. rewrite Hr1, Hr2, <- surjective_pairing. eapply (Hn1 t ts); [|done|done].
    apply elem_of_map_keys. pose proof (sh_keys _ _ Hsh1 t) as Hx. rewrite E in Hx. inversion Hx; subst. by eexists.
Qed.

(** ** Connection *)

Lemma core_delete_producer extra s p :
  core extra s -> (forall x, x ∈ data_sources_ s -> rds_producer_id x.2 <> p) -> core extra (set_producers_ (delete p (producers_ s)) s).
Proof.
  intros [H1 H2 H3 H4 H5 H6 H7 H8 H9 H10 H11 H12 H13 H14] Hno. split; try done; cbn.
  - intros t ts E. destruct (H1 t ts E) as [S1 S2 S3 S4 S5 S6 S6' S7 S8 S9 S10]. split; try done. cbn. intros k Hk.
    destruct (S6 k Hk) as (Hp & r & Hr & Hr1 & Hr2). split; [|by exists r]. rewrite lookup_delete_ne; [done|]. intros ->. by apply (Hno r Hr).
  - intros p' q E. apply lookup_delete_Some in E as [_ E]. by destruct (H7 p' q E).
  - intros x Hx. rewrite lookup_delete_ne; [by apply H8|]. intros Hp. by apply (Hno x Hx).
Qed.

(** The data sources of a producer are unregistered one by one. *)
Lemma unregister_sources_ok extra p l : forall pre s,
  core extra s -> steady ∅ s -> is_Some (producers_ s !! p) -> data_sources_ s = pre ++ l -> (forall x, x ∈ pre -> rds_producer_id x.2 <> p) ->
  exists s', for_each (fun x s => if rds_producer_id x.2 =? p then UnregisterDataSource p (d_name (descriptor x.2)) s else Some s) l s = Some s' /\
    core extra s' /\ steady ∅ s' /\ (forall x, x ∈ data_sources_ s' -> rds_producer_id x.2 <> p).
Proof.
  induction l as [|x l IH]; intros pre s HC HS Hp Hl Hpre; cbn [for_each].
  { exists s. repeat (split; [done|]). by rewrite Hl, app_nil_r. }
  destruct (Z.eqb_spec (rds_producer_id x.2) p) as [Hx|Hx].
  - destruct (UnregisterDataSource_ok extra s p (d_name (descriptor x.2)) HC HS Hp) as (s1 & -> & HC1 & HS1 & Hp1 & Hs1). cbn [mbind option_bind].
    apply (IH pre s1); try done; [by rewrite Hp1|]. rewrite Hs1, Hl. clear -Hpre Hx. induction pre as [|y pre IHp]; cbn.
    + by rewrite Hx, Z.eqb_refl, bool_decide_true.
    + rewrite (proj2 (Z.eqb_neq _ _)) by (apply Hpre; left). cbn. f_equal. apply IHp. intros z Hz. apply Hpre. by right.
  - cbn [mbind option_bind]. apply (IH (pre ++ [x]) s); try done; [by rewrite <- (assoc_L (++))|].
    intros y. rewrite elem_of_app, list_elem_of_singleton. intros [Hy| ->]; [by apply Hpre|done].
Qed.

Lemma DisconnectProducer_ok extra s p : core extra s -> steady ∅ s -> is_Some (producers_ s !! p) -> finishes (DisconnectProducer p s) extra.
Proof.
  intros HC HS Hp. unfold DisconnectProducer. destruct Hp as [q Eq]. unfold GetProducer. rewrite Eq. cbn [mbind option_bind].
  destruct (keeps_sessions_for_each extra 0 (fun tsid => ScrapeSharedMemoryBuffers tsid p) s (map_keys (tracing_sessions_ s)) HC) with (s := s) as (s1 & -> & F1 & S1);
    [|apply frame_refl|done|].
  { intros t s1 Ht HC1 F1 S1. apply elem_of_map_keys in Ht as [ts E]. apply (ScrapeSharedMemoryBuffers_ok extra t s1 p ts); [done| |by rewrite S1].
    rewrite (fr_producers _ _ _ F1). by eexists. }
  cbn [mbind option_bind]. destruct (unregister_sources_ok extra p (data_sources_ s1) [] s1) as (s2 & -> & HC2 & HS2 & Hn); try done.
  - by eapply core_frame. - unfold steady. by rewrite S1. - rewrite (fr_producers _ _ _ F1). by eexists.
  - intros x Hx. by apply not_elem_of_nil in Hx.
  - cbn [mbind option_bind]. eexists. split; [done|]. split; [by apply core_delete_producer|exact HS2].
Qed.

Lemma next_producer_id_ok tries : forall (m : gmap Z Producer) last,
  match next_producer_id tries m last with
  | Some id => m !! id = None /\ 1 <= id < 2 ^ 16
  | None => forall k, 1 <= k <= Z.of_nat tries -> u16 (last + k) = 0 \/ is_Some (m !! u16 (last + k))
  end.
Proof.
  induction tries as [|n IH]; intros m last; cbn [next_producer_id]; [intros k Hk; lia|].
  pose proof (Z.mod_pos_bound (last + 1) (2 ^ 16) ltac:(lia)) as Hb. fold (u16 (last + 1)) in Hb.
  destruct (bool_decide (is_Some (m !! u16 (last + 1))) || (u16 (last + 1) =? 0)) eqn:Eb.
  - specialize (IH m (u16 (last + 1))). destruct (next_producer_id n m (u16 (last + 1))); [done|]. intros k Hk. destruct (decide (k = 1)) as [->|Hne].
    + apply orb_true_iff in Eb as [Eb|Eb]; [right; by apply bool_decide_eq_true in Eb|left; by apply Z.eqb_eq in Eb].
    + specialize (IH (k - 1) ltac:(lia)). replace (u16 (u16 (last + 1) + (k - 1))) with (u16 (last + k)) in IH; [done|].
      unfold u16. rewrite Zplus_mod_idemp_l. f_equal. lia.
  - apply orb_false_iff in Eb as [Ea Ez]. apply bool_decide_eq_false in Ea. apply Z.eqb_neq in Ez. split; [by apply eq_None_not_Some|lia].
Qed.

Lemma GetNextProducerID_ok extra s :
  core extra s -> Z.of_nat (size (producers_ s)) < kMaxProducerID ->
  exists id, GetNextProducerID s = Some (set_last_producer_id_ id s, id) /\ producers_ s !! id = None /\ 1 <= id <= kMaxProducerID.
Proof.
  intros HC Hsz. unfold GetNextProducerID. rewrite (proj2 (Z.ltb_lt _ _)) by done.
  pose proof (next_producer_id_ok (Z.to_nat (2 ^ 16)) (producers_ s) (last_producer_id_ s)) as Hn.
  destruct (next_producer_id _ _ _) as [id|].
  - destruct Hn as [Hn Hr]. exists id. unfold kMaxProducerID in *. cbn [mbind option_bind].
    rewrite (proj2 (Z.ltb_lt 0 id)), (proj2 (Z.leb_le id _)) by lia. cbn. split; [done|]. split; [done|lia].
  - exfalso. pose proof (co_last_producer _ _ HC) as Hl.
    assert (Hsub : list_to_set (seqZ 1 kMaxProducerID) ⊆ dom (producers_ s)).
    { intros x. rewrite elem_of_list_to_set, elem_of_seqZ. intros Hx. apply elem_of_dom. unfold kMaxProducerID in Hx.
      set (k := (x - last_producer_id_ s - 1) mod 2 ^ 16 + 1).
      assert (Hk : 1 <= k <= 2 ^ 16) by (pose proof (Z.mod_pos_bound (x - last_producer_id_ s - 1) (2 ^ 16) ltac:(lia)); lia).
      assert (Hu : u16 (last_producer_id_ s + k) = x).
      { unfold u16, k. replace (last_producer_id_ s + ((x - last_producer_id_ s - 1) mod 2 ^ 16 + 1)) with ((last_producer_id_ s + 1) + (x - last_producer_id_ s - 1) mod 2 ^ 16) by lia.
        rewrite Zplus_mod_idemp_r. replace (last_producer_id_ s + 1 + (x - last_producer_id_ s - 1)) with x by lia. apply Z.mod_small. lia. }
      destruct (Hn k ltac:(rewrite Z2Nat.id; lia)) as [Hz|Hz]; rewrite Hu in Hz; [lia|done]. }
    apply subseteq_size in Hsub. rewrite size_dom, size_list_to_set, length_seqZ in Hsub by apply NoDup_seqZ. unfold kMaxProducerID in *. lia.
Qed.

Lemma core_new_producer extra s p q :
  core extra s -> producers_ s !! p = None -> 1 <= p <= kMaxProducerID -> allowed_target_buffers_ q = ∅ -> client_ok (p_identity q) -> smb q = [] ->
  core extra (upd_producer p q (set_last_producer_id_ p s)).
Proof.
  intros [H1 H2 H3 H4 H5 H6 H7 H8 H9 H10 H11 H12 H13 H14] Hn Hp Ha Hci Hs.
  assert (Hk : forall k, is_Some (producers_ s !! k) -> is_Some (<[p := q]> (producers_ s) !! k)).
  { intros k Hk. rewrite lookup_insert_ne; [done|]. intros ->. by destruct Hk; congruence. }
  split; try done; cbn.
  - intros t ts E. destruct (H1 t ts E) as [S1 S2 S3 S4 S5 S6 S6' S7 S8 S9 S10]. split; try done. cbn. intros k Hin. destruct (S6 k Hin). auto.
  - intros p' r. rewrite lookup_insert_Some. intros [[<- <-]|[_ E]]; [|by destruct (H7 p' r E)]. split; [done|rewrite Ha; set_solver|by rewrite Hs].
  - auto.
  - unfold kMaxProducerID in Hp. lia.
Qed.

Lemma ConnectProducer_ok extra s identity name size_hint page_hint scraping shm :
  core extra s -> steady ∅ s -> client_ok identity -> finishes (fst <$> ConnectProducer identity name size_hint page_hint scraping shm s) extra.
Proof.
  intros HC HS Hci. unfold ConnectProducer. destruct (_ && _); [by exists s|]. destruct (Z.leb_spec kMaxProducerID (Z.of_nat (size (producers_ s)))); [by exists s|].
  destruct (GetNextProducerID_ok extra s HC) as (p & -> & Hn & Hp); [lia|]. cbn [mbind option_bind producers_ set_last_producer_id_].
  rewrite bool_decide_false by (rewrite Hn; by intros [? ?]). set (q := mkProducer _ _ _ _ _ _ _ _ _ _).
  assert (HC1 : core extra (send (ProducerOnConnect p) (upd_producer p q (set_last_producer_id_ p s)))).
  { eapply (core_frame _ 0); [|apply frame_sent]. by apply core_new_producer. }
  set (s1 := send _ _) in *. destruct shm as [sz|]; [|cbn; by exists s1].
  case_bool_decide as Hsz; [|cbn; by exists s1].
  destruct (SetupSharedMemory_ok extra s1 p q page_hint sz true HC1) as (s2 & q2 & -> & HC2 & _ & _ & F2 & S2); [cbn; by rewrite lookup_insert_eq|done| |].
  { pose proof (EnsureValidShmSizes_page sz page_hint) as Hpg. by rewrite Hsz in Hpg. }
  cbn. exists s2. split; [done|]. split; [done|]. unfold steady. rewrite S2. exact HS.
Qed.

(** ** Registration *)

(** A data source is added to a session that is configured or has started. *)
Lemma setup_running_ok extra s t ts cfg r :
  core extra s -> steady ∅ s -> tracing_sessions_ s !! t = Some ts -> state ts = STARTED \/ state ts = CONFIGURED -> r ∈ data_sources_ s ->
  exists s' ts', setup_registered cfg r.2 true t s = Some s' /\ core extra s' /\ steady ∅ s' /\ setup_frame t s s' /\ tracing_sessions_ s' !! t = Some ts' /\
    config_frame (config ts) (config ts') /\ state ts' = state ts.
Proof.
  intros HC HS E Hst Hr. destruct (setup_registered_ok extra s t ts cfg r true HC E) as (s1 & ts1 & -> & HC1 & F1 & E1 & Hc1 & Hst1 & _ & Hi1); [by destruct Hst as [-> | ->]|done|].
  exists s1, ts1. repeat (split; [done|]). split; [|by repeat (split; [done|])].
  pose proof (HS t ts ltac:(set_solver) E) as Hi.
  apply (steady_close t s1 ts1); [|done|].
  - intros t' ts' Hn. rewrite (sx_others _ _ _ F1) by set_solver. apply HS. set_solver.
  - rewrite Hst1. destruct Hst as [Hst|Hst]; rewrite Hst in *; cbn in *; (apply Hi1; [done|]); [rewrite bool_decide_true by done; auto|by rewrite bool_decide_false].
Qed.

Lemma elem_of_multimap_emplace {K V} ltb (k : K) (v : V) l x : x ∈ (multimap_emplace ltb k v l).1 <-> x = (k, v) \/ x ∈ l.
Proof.
  destruct (multimap_emplace ltb k v l) as [r i] eqn:E. apply multimap_emplace_spec in E as [-> _]. cbn.
  rewrite elem_of_app, elem_of_cons. rewrite <- (take_drop i l) at 3. rewrite elem_of_app. tauto.
Qed.

Lemma RegisterDataSource_ok extra s p desc : core extra s -> steady ∅ s -> finishes (RegisterDataSource p desc s) extra.
Proof.
  intros HC HS. unfold RegisterDataSource. destruct (bool_decide _); [by exists s|]. unfold GetProducer. destruct (producers_ s !! p) as [q|] eqn:Eq; [|by exists s].
  destruct (_ && _); [by exists s|]. set (rds := mkRegistered p desc). set (l := (multimap_emplace _ _ rds _).1).
  assert (Hin : (d_name desc, rds) ∈ l) by (apply elem_of_multimap_emplace; by left).
  assert (HC1 : core extra (set_data_sources_ l s)).
  { apply core_sources; [done| | |].
    - intros x Hx. apply elem_of_multimap_emplace in Hx as [->|Hx]; [cbn; by eexists|by apply (co_sources _ _ HC)].
    - intros x Hx. apply elem_of_multimap_emplace in Hx as [->|Hx]; [done|by apply (co_named _ _ HC)].
    - intros t ts k E Hk. destruct (so_insts _ _ _ _ (co_session _ _ HC t ts E) k Hk) as (_ & r & Hr & Hr'). exists r. split; [|done]. apply elem_of_multimap_emplace. by right. }
  set (I s1 := core extra s1 /\ steady ∅ s1 /\ data_sources_ s1 = l /\ forall t, is_Some (tracing_sessions_ s !! t) -> is_Some (tracing_sessions_ s1 !! t)).
  cut (exists s', for_each (fun tsid s => ts ← tracing_sessions_ s !! tsid;
    if decide (state ts = STARTED \/ state ts = CONFIGURED) then
      for_each (fun cfg s => if bool_decide (ds_name (ds_config cfg) = d_name desc) then setup_registered cfg rds true tsid s else Some s) (data_sources (config ts)) s
    else Some s) (map_keys (tracing_sessions_ (set_data_sources_ l s))) (set_data_sources_ l s) = Some s' /\ I s').
  { intros (s' & -> & H1 & H2 & _). by exists s'. }
  apply loop_ok; [|by split]. intros t s1 Ht HI. apply elem_of_map_keys in Ht. pose proof HI as (_ & _ & _ & Hdom). destruct (Hdom t Ht) as [ts E].
  rewrite E. cbn [mbind option_bind]. case_decide as Hst; [|by exists s1].
  destruct (loop_ok (fun s2 => I s2 /\ exists ts2, tracing_sessions_ s2 !! t = Some ts2 /\ (state ts2 = STARTED \/ state ts2 = CONFIGURED))
    (fun cfg s => if bool_decide (ds_name (ds_config cfg) = d_name desc) then setup_registered cfg rds true t s else Some s) (data_sources (config ts))) with (s := s1)
    as (s2 & -> & H2 & _); [|split; [done|by exists ts]|by exists s2].
  intros cfg s2 _ [(HC2 & HS2 & Hl2 & Hd2) (ts2 & E2 & Hst2)]. destruct (bool_decide _); [|exists s2; split; [done|]; split; [done|by exists ts2]].
  destruct (setup_running_ok extra s2 t ts2 cfg (d_name desc, rds) HC2 HS2 E2 Hst2) as (s3 & ts3 & Es3 & HC3 & HS3 & F3 & E3 & _ & Hst3); [by rewrite Hl2|].
  cbn [snd] in Es3. rewrite Es3.
  exists s3. split; [done|]. split; [|exists ts3; by rewrite Hst3]. split; [done|]. split; [done|]. split; [by rewrite (sx_sources _ _ _ F3)|].
  intros t' Ht'. destruct (decide (t' = t)) as [->|Hne]; [by exists ts3|]. rewrite (sx_others _ _ _ F3) by done. by apply Hd2.
Qed.

Lemma elem_of_update_descriptor p desc l x :
  x ∈ update_descriptor p desc l -> x ∈ l \/ (x = (d_name desc, mkRegistered p desc) /\ exists y, y ∈ l /\ rds_producer_id y.2 = p).
Proof.
  induction l as [|[name rds] l IH]; cbn; [by left|]. destruct (_ && _) eqn:Eb; rewrite !elem_of_cons.
  - apply andb_true_iff in Eb as [Eb _]. apply andb_true_iff in Eb as [Eb Ep]. apply bool_decide_eq_true in Eb. apply Z.eqb_eq in Ep. subst name.
    intros [->|Hx]; [|auto]. right. split; [done|]. exists (d_name desc, rds). split; [left|done].
  - intros [->|Hx]; [auto|]. destruct (IH Hx) as [?|(? & y & ? & ?)]; [auto|]. right. split; [done|]. exists y. split; [by right|done].
Qed.

Lemma update_descriptor_keeps p desc l x :
  (forall y, y ∈ l -> y.1 = d_name (descriptor y.2)) -> x ∈ l ->
  exists y, y ∈ update_descriptor p desc l /\ rds_producer_id y.2 = rds_producer_id x.2 /\ d_name (descriptor y.2) = d_name (descriptor x.2).
Proof.
  induction l as [|[name rds] l IH]; cbn; intros Hnm Hx; [by apply not_elem_of_nil in Hx|]. apply elem_of_cons in Hx. destruct (_ && _) eqn:Eb.
  - apply andb_true_iff in Eb as [Eb _]. apply andb_true_iff in Eb as [Eb Ep]. apply bool_decide_eq_true in Eb. apply Z.eqb_eq in Ep. destruct Hx as [->|Hx].
    + exists (name, mkRegistered p desc). split; [left|]. split; [done|]. cbn. rewrite <- Eb. by apply (Hnm (name, rds)); left.
    + exists x. split; [by right|done].
  - destruct Hx as [->|Hx]; [exists (name, rds); split; [left|done]|].
    destruct (IH ltac:(intros y Hy; apply Hnm; by right) Hx) as (y & Hy & Hy'). exists y. split; [by right|done].
Qed.

Lemma UpdateDataSource_ok extra s p desc : core extra s -> core extra (UpdateDataSource p desc s).
Proof.
  intros HC. unfold UpdateDataSource. destruct (d_id desc =? 0); [done|]. apply core_sources; [done| | |].
  - intros x Hx. apply elem_of_update_descriptor in Hx as [Hx|(-> & y & Hy & Hp)]; [by apply (co_sources _ _ HC)|]. cbn. rewrite <- Hp. by apply (co_sources _ _ HC).
  - intros x Hx. apply elem_of_update_descriptor in Hx as [Hx|(-> & _)]; [by apply (co_named _ _ HC)|done].
  - intros t ts k E Hk. destruct (so_insts _ _ _ _ (co_session _ _ HC t ts E) k Hk) as (_ & r & Hr & Hr1 & Hr2).
    destruct (update_descriptor_keeps p desc _ r (co_named _ _ HC) Hr) as (y & Hy & Hy1 & Hy2). exists y. split; [done|]. split; congruence.
Qed.
End Producers.
