(* ===== verification/TracingServiceCommits.v ===== *)
(** * The tracing service: commits and triggers keep the invariant

    Producers commit and patch chunks through the shared memory buffer or over IPC, and
    activate triggers, which start, stop or clone sessions. *)

From stdpp Require Import sorting.
From S2P Require Import Prelude IdAllocator TracingServiceTypes TracingService TracingServiceEndpoints TracingServiceOk.
From S2P Require Import TracingServiceSession TracingServiceFlush TracingServiceEnable TracingServiceProducers.

(** Data that can come over IPC: it holds a header, and its size fits 16 bits or is
    refused. *)
Definition ipc_ok (data : list Z) : Prop := bytes_ok data /\ 8 <= Z.of_nat (length data) /\ Z.of_nat (length data) <> kChunkMaxSize.

Lemma le_val_take_bound n l : bytes_ok l -> 0 <= le_val (take n l) < 2 ^ (8 * Z.of_nat n).
Proof.
  intros Hl. pose proof (le_val_range (take n l) (bytes_ok_take n l Hl)) as Hb. rewrite length_take in Hb.
  split; [lia|]. eapply Z.lt_le_trans; [apply Hb|]. apply Z.pow_le_mono_r; lia.
Qed.

Lemma MakeChunk_ok data : ipc_ok data -> Z.of_nat (length data) <= kChunkMaxSize -> exists c, MakeChunkFromSerializedData data = Some c /\ chunk_ok c.
Proof.
  intros (Hb & Hlo & Hne) Hle. unfold MakeChunkFromSerializedData. change kChunkMaxSize with 65536 in *.
  assert (Hu : u16 (Z.of_nat (length data)) = Z.of_nat (length data)) by (unfold u16; rewrite Z.mod_small; lia). rewrite Hu.
  destruct (Z.eqb_spec (Z.of_nat (length data)) 0); [lia|]. destruct (Z.ltb_spec (Z.of_nat (length data)) 8); [lia|].
  eexists. split; [done|]. pose proof (le_val_take_bound 2 (drop 6 data) (bytes_ok_drop 6 _ Hb)) as H6. pose proof (le_val_take_bound 2 (drop 4 data) (bytes_ok_drop 4 _ Hb)) as H4.
  pose proof (le_val_take_bound 4 data Hb) as H0. change (8 * Z.of_nat 2) with 16 in *. change (8 * Z.of_nat 4) with 32 in *.
  unfold chunk_ok. cbn. split; [done|]. split; [done|]. set (w := le_val (take 2 (drop 6 data))) in *. split; [unfold is_u16; pose proof (Z.mod_pos_bound w (2 ^ 10)); lia|].
  split; [unfold is_u8; rewrite Z.shiftr_div_pow2 by lia; Z.div_mod_to_equations; lia|]. split; [rewrite length_take, length_drop; lia|]. by apply bytes_ok_take, bytes_ok_drop.
Qed.

Lemma is_sorted_drop l : forall n, is_sorted l = true -> is_sorted (drop n l) = true.
Proof.
  induction l as [|a l IH]; intros [|n] Hs; try done. cbn [drop]. apply IH. destruct l as [|b l]; [done|].
  cbn [is_sorted] in Hs. apply andb_true_iff in Hs as [_ Hs]. exact Hs.
Qed.

Lemma is_sorted_snoc l x : is_sorted l = true -> Forall (fun y => y <= x) l -> is_sorted (l ++ [x]) = true.
Proof.
  induction l as [|a l IH]; intros Hs Hf; [done|]. apply Forall_cons in Hf as [Ha Hf]. destruct l as [|b l].
  - cbn. by rewrite (proj2 (Z.ltb_ge x a)) by lia.
  - cbn [app is_sorted] in *. apply andb_true_iff in Hs as [Hb Hs]. rewrite Hb. cbn [andb]. by apply IH.
Qed.

Lemma history_ok_drop now h n : history_ok now h -> history_ok now (drop n h).
Proof. intros [Hs Hf]. split; [rewrite fmap_drop; by apply is_sorted_drop|by apply Forall_drop]. Qed.

Lemma history_ok_snoc now h hash : history_ok now h -> history_ok now (h ++ [(now, hash)]).
Proof.
  intros [Hs Hf]. split.
  - rewrite fmap_app. cbn. apply is_sorted_snoc; [done|]. apply Forall_fmap. eapply Forall_impl; [exact Hf|]. done.
  - apply Forall_app. split; [done|]. apply Forall_singleton. cbn. lia.
Qed.

Section Run.
Context {D : DataPlane} {DOk : DataPlaneOk D}.
Implicit Types (s : TracingServiceImpl) (ts : TracingSession).

(** ** Commits *)

Definition writable s (b : Z) : Prop := forall buf, buffers_ s !! b = Some buf -> read_only buf = false.

(** What a commit may do: buffers and the shared memory buffer change. *)
Record committing (extra : list FlushCallback) (p : Z) s0 s : Prop := {
  cm_core : core extra s;
  cm_sessions : tracing_sessions_ s = tracing_sessions_ s0;
  cm_producer : exists q, producers_ s !! p = Some q /\ is_Some (has_shm q);
  cm_writable : forall b, writable s0 b -> writable s b }.

Lemma writable_frame extra t s s' b : core extra s -> frame t s s' -> writable s b -> writable s' b.
Proof. intros HC F Hw buf' E'. destruct (frame_buf _ _ _ _ _ F E') as (buf & E & Hev). apply Hev; [by apply (co_owned _ _ HC b)|by apply Hw]. Qed.

Lemma move_chunk_ok extra p s0 m s :
  committing extra p s0 s -> match cm_data m with Some d => ipc_ok d | None => True end ->
  exists s', move_chunk p m s = Some s' /\ committing extra p s0 s'.
Proof.
  intros [HC Hs (q & Eq & [shm page] & Hshm) Hw] Hm. unfold move_chunk, GetProducer. rewrite Eq. cbn [mbind option_bind]. rewrite Hshm. cbn [mbind option_bind].
  assert (Hr : exists s', Some s = Some s' /\ committing extra p s0 s') by (exists s; split; [done|]; split; try done; by exists q; rewrite Hshm).
  assert (Hcopy : forall c, chunk_ok c -> exists s', CopyProducerPageIntoLogBuffer p (sc_writer_id c) (sc_chunk_id c) (u16 (cm_target_buffer m)) (sc_packet_count c) (sc_flags c) true (sc_payload c) s = Some s' /\
    committing extra p s0 s' /\ producers_ s' = producers_ s).
  { intros c Hc. destruct (CopyProducerPage_ok extra 0 s p c (u16 (cm_target_buffer m)) true HC Hc) as (s' & -> & F & S'). exists s'. split; [done|].
    split; [|apply F]. split; [by eapply core_frame|congruence|rewrite (fr_producers _ _ _ F); exists q; by rewrite Hshm|]. intros b Hb. eapply writable_frame; [exact HC|exact F|by apply Hw]. }
  destruct (_ <=? _); [done|]. destruct (cm_data m) as [data|].
  - destruct (Z.ltb_spec kChunkMaxSize (Z.of_nat (length data))); [done|]. destruct (MakeChunk_ok data Hm ltac:(lia)) as (c & -> & Hc). cbn [mbind option_bind].
    destruct (Hcopy c Hc) as (s' & -> & H1 & _). by exists s'.
  - destruct (list_find _ (smb q)) as [[i [k c]]|] eqn:Ef; [|done]. destruct (sc_complete c); [|done].
    apply list_find_Some in Ef as (Ei & _ & _). pose proof (proj2 (po_data _ _ _ (co_producer _ _ HC p q Eq))) as Hsmb.
    destruct (Hcopy c) as (s' & -> & [HC1 Hs1 _ Hw1] & Hp1); [by eapply (Forall_lookup_1 _ _ _ _ Hsmb Ei)|]. cbn [mbind option_bind]. rewrite Hp1, Eq. cbn [mbind option_bind].
    eexists. split; [done|]. split; try done; [|cbn; eexists; rewrite lookup_insert_eq; split; [done|cbn; by rewrite Hshm]].
    rewrite <- Hp1 in Eq. eapply core_producer; [done|exact Eq|]. destruct (co_producer _ _ HC1 p q Eq) as [P1 P2 P3]. split; try done. cbn. split; [apply P3|by apply Forall_delete].
Qed.

Lemma frame_patches t s n : frame t s (set_patches_discarded_ n s).
Proof. frame_id t s. Qed.

Definition patch_request_ok s (c : ChunkToPatch) : Prop := Forall (fun x => is_u64 x.1 /\ bytes_ok x.2) (tp_patches c) /\ writable s (u16 (tp_target_buffer c)).

Lemma apply_chunk_patches_ok extra p s0 c s :
  committing extra p s0 s -> patch_request_ok s0 c -> exists s', apply_chunk_patches p c s = Some s' /\ committing extra p s0 s'.
Proof.
  intros [HC Hs Hp Hw] [Ho Hwr]. unfold apply_chunk_patches, GetBufferByID.
  assert (Hframe : forall s', frame 0 s s' -> tracing_sessions_ s' = tracing_sessions_ s -> committing extra p s0 s').
  { intros s' F S'. split; [by eapply core_frame|congruence|by rewrite (fr_producers _ _ _ F)|]. intros b Hb. eapply writable_frame; [exact HC|exact F|by apply Hw]. }
  assert (Hd : forall n, committing extra p s0 (set_patches_discarded_ n s)) by (intros n; apply Hframe; [apply frame_patches|done]).
  destruct (buffers_ s !! u16 (tp_target_buffer c)) as [buf|] eqn:Eb; [|by eexists]. destruct (_ || _); [by eexists|]. destruct (_ <? _)%nat; [by eexists|].
  destruct (dp_patch buf p (u16 (tp_writer_id c)) (u32 (tp_chunk_id c)) (filter (fun x => length x.2 = kPatchSize) (tp_patches c)) (tp_has_more_patches c)) as (b' & -> & Hb' & Hro').
  - by apply (co_owned _ _ HC (u16 (tp_target_buffer c))).
  - by apply (Hw _ Hwr).
  - apply Forall_forall. intros x Hx. apply list_elem_of_filter in Hx as [Hl Hx]. rewrite Forall_forall in Ho. destruct (Ho x Hx). by split_and!.
  - cbn [mbind option_bind]. eexists. split; [done|]. apply Hframe; [|done]. eapply frame_trans; [apply frame_patches|]. eapply frame_insert_buf; [exact Eb|]. by intros _.
Qed.

Definition commit_ok s (req : CommitDataRequest) : Prop :=
  Forall (fun m => match cm_data m with Some d => ipc_ok d | None => True end) (chunks_to_move req) /\ Forall (patch_request_ok s) (chunks_to_patch req).

Lemma CommitData_ok extra s p req :
  core extra s -> steady ∅ s -> is_Some (producers_ s !! p) -> commit_ok s req -> finishes (CommitData p req s) extra.
Proof.
  intros HC HS [q Eq] [Hm Hp]. unfold CommitData, GetProducer. rewrite Eq. cbn [mbind option_bind]. destruct (has_shm q) as [shm|] eqn:Eh; [|by exists s].
  rewrite Forall_forall in Hm. rewrite Forall_forall in Hp.
  destruct (loop_ok (committing extra p s) (move_chunk p) (chunks_to_move req)) with (s := s) as (s1 & -> & H1).
  { intros m s1 Hin H1. apply move_chunk_ok; [done|by apply Hm]. } { split; try done. exists q. by rewrite Eh. }
  cbn [mbind option_bind]. unfold ApplyChunkPatches. destruct (loop_ok (committing extra p s) (apply_chunk_patches p) (chunks_to_patch req)) with (s := s1) as (s2 & -> & [HC2 Hs2 _ _]); [|done|].
  { intros c s2 Hin H2. apply apply_chunk_patches_ok; [done|by apply Hp]. }
  cbn [mbind option_bind]. assert (HS2 : steady ∅ s2) by (unfold steady; by rewrite Hs2).
  destruct (negb _); [by eapply completes_finishes, NotifyFlushDoneForProducer_ok|by exists s2].
Qed.

(** ** Triggers *)

Lemma core_history_upd extra s h : core extra s -> history_ok (boot_time_ns s) h -> core extra (set_trigger_history_ h s).
Proof.
  intros [H1 H2 H3 H4 H5 H6 H7 H8 H9 H10 H11 H12 H13 H14] Hh. split; try done.
  - intros t ts E. by destruct (H1 t ts E).
  - intros p q E. by destruct (H7 p q E).
Qed.

Lemma sess_frame_duration n ts : sess_frame ts (set_config (set_duration_ms n (config ts)) ts).
Proof. sess_id ts. by destruct sf_config. Qed.

Lemma run_trigger_ok extra s t ts tr already :
  core extra s -> tracing_sessions_ s !! t = Some ts -> inst_ok (state ts) (states ts) ->
  keeps t (run_trigger t tr already s) s (fun ts' => inst_ok (state ts') (states ts') /\ keys ts' = keys ts).
Proof.
  intros HC E Hi. unfold run_trigger. rewrite E. cbn [mbind option_bind].
  assert (Hr : keeps t (Some s) s (fun ts' => inst_ok (state ts') (states ts') /\ keys ts' = keys ts)) by (apply (keeps_ret t s s ts); [apply frame_refl|done..]).
  assert (Hp : forall task, task_cb task = None -> task_ok s task -> keeps t (Some (post task s)) s (fun ts' => inst_ok (state ts') (states ts') /\ keys ts' = keys ts)).
  { intros task H1 H2. apply (keeps_ret t s _ ts); [by apply frame_post|done..]. }
  destruct (_ =? START_TRACING).
  - case_decide; [|done]. set (ts' := set_config _ ts).
    assert (F : frame t s (upd_session t ts' s)) by (eapply frame_upd; [done|apply sess_frame_duration]). eapply keeps_from; [exact F|].
    apply (StartTracing_ok extra _ _ ts'); [by eapply core_frame|cbn; by rewrite lookup_insert_eq|done].
  - destruct (_ =? STOP_TRACING); [destruct already; [done|by apply Hp]|]. destruct (_ =? CLONE_SNAPSHOT); [by apply Hp|done].
Qed.

(** The sessions are told of a trigger. *)
Record triggering (extra : list FlushCallback) s0 s : Prop := {
  tg_core : core extra s;
  tg_steady : steady ∅ s;
  tg_kept : kept s0 s;
  tg_history : trigger_history_ s = trigger_history_ s0;
  tg_time : boot_time_ns s = boot_time_ns s0 }.

Lemma keeps_triggering extra s0 s t ts r :
  triggering extra s0 s -> tracing_sessions_ s !! t = Some ts -> keeps t r s (fun ts' => inst_ok (state ts') (states ts') /\ keys ts' = keys ts) ->
  exists s', r = Some s' /\ triggering extra s0 s'.
Proof.
  intros [HC HS Hk Hh Ht] E (s' & ts' & -> & F & E' & Hi & Hks). exists s'. split; [done|].
  split; [by eapply core_frame| |eapply kept_trans; [exact Hk|by eapply (kept_frame t)]|rewrite (fr_history _ _ _ F); congruence|rewrite (fr_time _ _ _ F); congruence].
  apply (steady_close t s' ts'); [eapply steady_frame; [exact F|set_solver|by eapply steady_weaken; [|exact HS]]|done..].
Qed.

Lemma trigger_session_ok extra s0 q name skip count t s matched :
  is_Some (tracing_sessions_ s0 !! t) -> triggering extra s0 s ->
  exists x, trigger_session q name skip count t (s, matched) = Some x /\ triggering extra s0 x.1.
Proof.
  intros [ts0 E0] HT. pose proof HT as [HC HS Hk Hh Ht]. destruct (kept_session _ _ _ _ Hk E0) as (ts & E & _).
  unfold trigger_session. rewrite E. cbn [mbind option_bind].
  assert (Hr : exists x, Some (s, matched) = Some x /\ triggering extra s0 x.1) by (by eexists).
  destruct (list_find _ _) as [[i tr]|]; [|done]. case_decide; [done|]. destruct (_ && _); [done|]. destruct (skip t); [done|]. destruct (_ && _); [done|]. clear Hr.
  set (ts1 := set_received_triggers _ ts). assert (F1 : frame t s (upd_session t ts1 s)) by (eapply frame_upd; [done|]; sess_id ts).
  destruct (keeps_triggering extra s0 s t ts (run_trigger t tr (negb (bool_decide (received_triggers ts = []))) (upd_session t ts1 s)) HT E) as (s2 & -> & H2).
  - eapply keeps_from; [exact F1|]. apply (run_trigger_ok extra _ _ ts1); [by eapply core_frame|cbn; by rewrite lookup_insert_eq|exact (HS t ts (not_elem_of_empty t) E)].
  - cbn [mbind option_bind]. by eexists.
Qed.

Lemma activate_trigger_ok extra s p x :
  core extra s -> steady ∅ s -> is_Some (producers_ s !! p) ->
  exists s', activate_trigger p x s = Some s' /\ core extra s' /\ steady ∅ s' /\ producers_ s' = producers_ s.
Proof.
  intros HC HS [q Eq]. unfold activate_trigger, GetProducer. rewrite Eq. cbn [mbind option_bind]. unfold PurgeExpiredAndCountTriggerInWindow.
  pose proof (co_history _ _ HC) as Hh. rewrite (proj1 Hh). cbn [mbind option_bind]. set (h := drop _ _). set (s1 := set_trigger_history_ h s).
  assert (Hh1 : history_ok (boot_time_ns s) h) by (by apply history_ok_drop).
  assert (HC1 : core extra s1) by (by apply core_history_upd).
  destruct (loop_ok (fun y => triggering extra s1 y.1) (trigger_session q x.1 x.2 (Z.of_nat (length (filter (fun y => y.1 >= boot_time_ns s - kOneDayInNs /\ y.2 = trigger_hash x.1) (trigger_history_ s)))))
    (map_keys (tracing_sessions_ s1))) with (s := (s1, false)) as ([s2 matched] & -> & [HC2 HS2 Hk2 Hh2 Ht2]).
  { intros t [s2 m] Ht H2. apply elem_of_map_keys in Ht. by apply trigger_session_ok. }
  { by split. }
  cbn [mbind option_bind]. cbn [fst] in *. destruct matched; eexists; (split; [done|]); [|by repeat (split; [done|]); apply Hk2].
  split; [apply core_history_upd; [done|]; rewrite Hh2, Ht2; by apply history_ok_snoc|]. split; [exact HS2|apply Hk2].
Qed.

Lemma ActivateTriggers_ok extra s p names : core extra s -> steady ∅ s -> is_Some (producers_ s !! p) -> finishes (ActivateTriggers p names s) extra.
Proof.
  intros HC HS Hp. unfold ActivateTriggers, GetProducer. destruct Hp as [q Eq]. rewrite Eq. cbn [mbind option_bind].
  destruct (loop_ok (fun s1 => core extra s1 /\ steady ∅ s1 /\ producers_ s1 = producers_ s) (activate_trigger p) names) with (s := s) as (s1 & -> & H1 & H2 & _); [|done|by exists s1].
  intros x s1 _ (HC1 & HS1 & Hp1). destruct (activate_trigger_ok extra s1 p x HC1 HS1) as (s2 & -> & H1 & H2 & H3); [rewrite Hp1; by eexists|].
  exists s2. split; [done|]. split; [done|]. split; [done|congruence].
Qed.
End Run.
