(* ===== verification/TracingServiceRun.v ===== *)
(** * The tracing service: every run is safe

    The calls of consumers and the tasks keep the invariant, so no run of the service
    fails a check, as long as clients stay away from the calls that abort it. *)

From stdpp Require Import sorting.
From S2P Require Import Prelude IdAllocator TracingServiceTypes TracingService TracingServiceEndpoints TracingServiceOk.
From S2P Require Import TracingServiceSession TracingServiceFlush TracingServiceEnable TracingServiceProducers TracingServiceCommits.

Section Run.
Context {D : DataPlane} {DOk : DataPlaneOk D}.
Implicit Types (s : TracingServiceImpl) (ts : TracingSession).

(** ** Consumers come and go *)

Lemma core_consumers extra s cons : core extra s -> consumers_cut 0 (consumers_ s) cons -> core extra (set_consumers_ cons s).
Proof.
  intros [H1 H2 H3 H4 H5 H6 H7 H8 H9 H10 H11 H12 H13 H14] [Hfrom Hto]. split; try done; cbn.
  - intros t ts E. destruct (H1 t ts E) as [S1 S2 S3 S4 S5 S6 S6' S7 S8 S9 S10]. split; try done. cbn. intros c Hc.
    destruct (S2 c Hc) as (Hk & q & Eq & Et). split; [done|]. destruct (Hto c q Eq) as (q' & Eq' & Et'); [lia..|]. exists q'. split; [done|congruence].
  - intros c q' Eq'. destruct (Hfrom c q' Eq') as (q & Eq & Hq). destruct (H6 c q Eq) as [Hn Hl]. split; [done|].
    destruct Hq as [Hz|[Hz Hne]]; [by left|]. by rewrite Hz.
  - intros p q E. by destruct (H7 p q E).
Qed.

(** A consumer with the same session. *)
Lemma cut_same t (m : gmap nat Consumer) c q q' :
  m !! c = Some q -> tracing_session_id_ q' = tracing_session_id_ q -> (forall c q, m !! c = Some q -> tracing_session_id_ q <> t \/ tracing_session_id_ q = 0) ->
  consumers_cut t m (<[c := q']> m).
Proof.
  intros E Hq Ht. split.
  - intros c0 q0 E0. destruct (decide (c0 = c)) as [->|Hne].
    + rewrite lookup_insert_eq in E0. simplify_eq. exists q. split; [done|]. destruct (Ht c q E) as [?|Hz]; [right; by rewrite Hq|left; by rewrite Hq].
    + rewrite lookup_insert_ne in E0 by done. exists q0. split; [done|]. destruct (Ht c0 q0 E0); [by right|by left].
  - intros c0 q0 E0 _ _. destruct (decide (c0 = c)) as [->|Hne].
    + exists q'. rewrite lookup_insert_eq. split; [done|]. by simplify_eq.
    + exists q0. by rewrite lookup_insert_ne.
Qed.

(** A consumer that has session [t], or none, is cut off or erased. *)
Lemma cut_one t (m : gmap nat Consumer) c q (o : option Consumer) :
  m !! c = Some q -> tracing_session_id_ q = t \/ tracing_session_id_ q = 0 -> match o with Some q' => tracing_session_id_ q' = 0 | None => True end ->
  (forall c' q', m !! c' = Some q' -> c' <> c -> tracing_session_id_ q' <> t \/ tracing_session_id_ q' = 0) ->
  consumers_cut t m (partial_alter (fun _ => o) c m).
Proof.
  intros E Hq Ho Ht. split.
  - intros c0 q0 E0. destruct (decide (c0 = c)) as [->|Hne].
    + rewrite lookup_partial_alter_eq in E0. subst o. exists q. by auto.
    + rewrite lookup_partial_alter_ne in E0 by done. exists q0. split; [done|]. destruct (Ht c0 q0 E0 Hne); auto.
  - intros c0 q0 E0 H1 H2. exists q0. rewrite lookup_partial_alter_ne; [done|]. intros <-. simplify_eq. by destruct Hq.
Qed.

(** Consumers of other sessions. *)
Lemma other_consumers extra s c q c' q' :
  core extra s -> consumers_ s !! c = Some q -> consumers_ s !! c' = Some q' -> c' <> c ->
  tracing_session_id_ q' <> tracing_session_id_ q \/ tracing_session_id_ q' = 0.
Proof.
  intros HC E E' Hne. destruct (co_consumer _ _ HC c q E) as [_ [Hz|(ts & Et & Hc)]]; [rewrite Hz; destruct (decide (tracing_session_id_ q' = 0)); auto|].
  left. intros Heq. rewrite <- Heq in Et. destruct (co_consumer _ _ HC c' q' E') as [_ [Hz|(ts' & Et' & Hc')]]; [|congruence].
  rewrite Hz in Et. destruct (so_id _ _ _ _ (co_session _ _ HC 0 ts Et)). lia.
Qed.

Lemma core_new_consumer extra s q :
  core extra s -> tracing_session_id_ q = 0 -> core extra (set_next_consumer (S (next_consumer s)) (upd_consumer (next_consumer s) q s)).
Proof.
  intros [H1 H2 H3 H4 H5 H6 H7 H8 H9 H10 H11 H12 H13 H14] Hq.
  assert (Hn : consumers_ s !! next_consumer s = None).
  { destruct (consumers_ s !! next_consumer s) as [q'|] eqn:E; [|done]. destruct (H6 _ _ E). lia. }
  split; try done; cbn.
  - intros t ts E. destruct (H1 t ts E) as [S1 S2 S3 S4 S5 S6 S6' S7 S8 S9 S10]. split; try done. cbn. intros c Hc.
    destruct (S2 c Hc) as (Hk & q' & Eq & Et). split; [done|]. exists q'. rewrite lookup_insert_ne by congruence. done.
  - intros c q' E. destruct (decide (c = next_consumer s)) as [->|Hne].
    + rewrite lookup_insert_eq in E. simplify_eq. split; [lia|by left].
    + rewrite lookup_insert_ne in E by done. destruct (H6 c q' E) as [Hlt Hc]. split; [lia|done].
  - intros p q' E. by destruct (H7 p q' E).
Qed.

Lemma finishes_ret extra s : core extra s -> steady ∅ s -> finishes (Some s) extra.
Proof. intros HC HS. by exists s. Qed.

Lemma core_send extra s m : core extra s -> core extra (send m s).
Proof. intros HC. eapply (core_frame _ 0); [exact HC|apply frame_sent]. Qed.

Lemma ConnectConsumer_ok extra s uid : core extra s -> steady ∅ s -> finishes (Some (ConnectConsumer uid s)) extra.
Proof. intros HC HS. apply finishes_ret; [|exact HS]. by apply core_send, core_new_consumer. Qed.

Lemma consumer_session extra s c q :
  core extra s -> consumers_ s !! c = Some q -> tracing_session_id_ q <> 0 -> exists ts, tracing_sessions_ s !! tracing_session_id_ q = Some ts /\ consumer_maybe_null ts = Some c.
Proof. intros HC E Hq. by destruct (co_consumer _ _ HC c q E) as [_ [?|?]]. Qed.

Lemma DisconnectConsumer_ok extra s c : core extra s -> steady ∅ s -> is_Some (consumers_ s !! c) -> finishes (DisconnectConsumer c s) extra.
Proof.
  intros HC HS [q Eq]. unfold DisconnectConsumer. rewrite Eq. cbn [mbind option_bind].
  assert (Hex : forall m : gmap Z TracingSession, (forall t ts, m !! t = Some ts -> tracing_sessions_ s !! t = Some ts /\ (tracing_session_id_ q = 0 \/ t <> tracing_session_id_ q)) ->
    existsb (fun ts => bool_decide (consumer_maybe_null ts = Some c)) (map_values m) = false).
  { intros m Hm. apply not_true_iff_false. rewrite existsb_exists. intros (ts & Hin & Hc%bool_decide_eq_true_1). apply list_elem_of_In, list_elem_of_omap in Hin as (t & _ & E).
    destruct (Hm t ts E) as [E' Hne]. pose proof (co_session _ _ HC t ts E') as Hso. destruct (so_consumer _ _ _ _ Hso c Hc) as (_ & q' & Eq' & Ht). rewrite Eq in Eq'. simplify_eq.
    destruct (so_id _ _ _ _ Hso). lia. }
  destruct (Z.eqb_spec (tracing_session_id_ q) 0) as [Hz|Hnz].
  - cbn [mbind option_bind]. cbn. rewrite Hex by auto. apply finishes_ret; [|exact HS]. apply core_consumers; [done|].
    apply (cut_one 0 _ c q None); auto. intros c' q' E' Hne. destruct (decide (tracing_session_id_ q' = 0)); auto.
  - destruct (consumer_session extra s c q HC Eq Hnz) as (ts & Et & Hc). destruct (FreeBuffers_ok extra s _ ts HC HS Et) as (s' & -> & Hcons & Hsess & Hcut).
    cbn [mbind option_bind]. cbn. rewrite Hcons, Hsess. rewrite Hex.
    + destruct (Hcut (delete c (consumers_ s))) as [H1 H2]; [|by apply finishes_ret].
      apply (cut_one _ _ c q None); auto. intros c' q' E' Hne. by eapply other_consumers.
    + intros t ts' [Hne E']%lookup_delete_Some. split; [done|]. right. congruence.
Qed.

Lemma FreeBuffers_call_ok extra s c q :
  core extra s -> steady ∅ s -> consumers_ s !! c = Some q -> tracing_session_id_ q <> 0 ->
  finishes (s ← FreeBuffers (tracing_session_id_ q) s; q ← consumers_ s !! c; Some (upd_consumer c (set_tracing_session_id_ 0 q) s)) extra.
Proof.
  intros HC HS Eq Hnz. destruct (consumer_session extra s c q HC Eq Hnz) as (ts & Et & Hc). destruct (FreeBuffers_ok extra s _ ts HC HS Et) as (s' & -> & Hcons & _ & Hcut).
  cbn [mbind option_bind]. rewrite Hcons, Eq. cbn [mbind option_bind]. unfold upd_consumer. rewrite Hcons.
  destruct (Hcut (<[c := set_tracing_session_id_ 0 q]> (consumers_ s))) as [H1 H2]; [|by apply finishes_ret].
  apply (cut_one _ _ c q (Some (set_tracing_session_id_ 0 q))); auto. intros c' q' E' Hne. by eapply other_consumers.
Qed.

(** ** Detaching and attaching *)

Lemma core_relink extra s t ts key o cons :
  core extra s -> tracing_sessions_ s !! t = Some ts ->
  (forall c, o = Some c -> key = EmptyString /\ exists q, cons !! c = Some q /\ tracing_session_id_ q = t) ->
  (forall c q, consumers_ s !! c = Some q -> tracing_session_id_ q <> 0 -> tracing_session_id_ q <> t -> exists q', cons !! c = Some q' /\ tracing_session_id_ q' = tracing_session_id_ q) ->
  (forall c q', cons !! c = Some q' -> exists q, consumers_ s !! c = Some q /\
     (tracing_session_id_ q' = 0 \/ tracing_session_id_ q' = t /\ o = Some c \/ tracing_session_id_ q' <> t /\ tracing_session_id_ q = tracing_session_id_ q')) ->
  core extra (set_consumers_ cons (upd_session t (set_detach_key key (set_consumer_maybe_null o ts)) s)).
Proof.
  intros [H1 H2 H3 H4 H5 H6 H7 H8 H9 H10 H11 H12 H13 H14] E Ho Hto Hfrom. set (ts' := set_detach_key _ _).
  assert (Hl : forall t0 ts0, <[t := ts']> (tracing_sessions_ s) !! t0 = Some ts0 -> exists ts1, tracing_sessions_ s !! t0 = Some ts1 /\
    buffers_index ts0 = buffers_index ts1 /\ state ts0 = state ts1 /\ config ts0 = config ts1 /\ last_pending_clone_id_ ts0 = last_pending_clone_id_ ts1).
  { intros t0 ts0. rewrite lookup_insert_Some. intros [[<- <-]|[_ E0]]; [by exists ts|by exists ts0]. }
  assert (Hr : forall t0 ts1, tracing_sessions_ s !! t0 = Some ts1 -> exists ts0, <[t := ts']> (tracing_sessions_ s) !! t0 = Some ts0 /\
    buffers_index ts0 = buffers_index ts1 /\ state ts0 = state ts1).
  { intros t0 ts1 E1. destruct (decide (t0 = t)) as [->|Hne]; [simplify_eq; exists ts'; by rewrite lookup_insert_eq|exists ts1; by rewrite lookup_insert_ne]. }
  split; try done; cbn.
  - intros t0 ts0. rewrite lookup_insert_Some. intros [[<- <-]|[Hne E0]].
    + destruct (H1 t ts E) as [S1 S2 S3 S4 S5 S6 S6' S7 S8 S9 S10]. split; try done.
    + destruct (H1 t0 ts0 E0) as [S1 S2 S3 S4 S5 S6 S6' S7 S8 S9 S10]. split; try done. cbn. intros c Hc. destruct (S2 c Hc) as (Hk & q & Eq & Et).
      split; [done|]. destruct (Hto c q Eq) as (q' & Eq' & Et'); [lia|lia|]. exists q'. split; [done|congruence].
  - intros t1 t2 ts1 ts2 b E1 E2. destruct (Hl _ _ E1) as (x1 & X1 & -> & _), (Hl _ _ E2) as (x2 & X2 & -> & _). by apply H2.
  - intros b buf Eb. destruct (H5 b buf Eb) as (Hb & t0 & ts1 & E1 & Hin). split; [done|]. destruct (Hr t0 ts1 E1) as (ts0 & E0 & Hi & _). exists t0, ts0. by rewrite Hi.
  - intros c q' Eq'. destruct (Hfrom c q' Eq') as (q & Eq & Hq). destruct (H6 c q Eq) as [Hlt Hc]. split; [done|]. destruct Hq as [Hz|[[Hz Hoc]|[Hne Hz]]].
    + by left.
    + right. exists ts'. rewrite Hz, lookup_insert_eq. done.
    + rewrite <- Hz in *. destruct Hc as [Hz0|(ts1 & E1 & Hc)]; [by left|]. right. exists ts1. by rewrite lookup_insert_ne.
  - intros p q Eq. destruct (H7 p q Eq) as [P1 P2 P3]. split; try done. cbn. intros b Hb. destruct (P2 b Hb) as (t0 & ts1 & E1 & Hi & Hs).
    destruct (Hr t0 ts1 E1) as (ts0 & E0 & Hi' & Hs'). exists t0, ts0. by rewrite Hi', Hs'.
  - eapply Forall_impl; [exact H9|]. intros [] Ht; try done; (destruct Ht as [Hlt Ht]; split; [done|]; cbn; intros ts0 E0; destruct (Hl _ _ E0) as (x & X & _ & Hs & Hcfg & _));
      rewrite ?Hs, ?Hcfg; by apply Ht.
  - intros t0 id bufs Hin. destruct (H10 t0 id bufs Hin) as [Hlt Ht]. split; [done|]. intros ts0 E0. destruct (Hl _ _ E0) as (x & X & _ & _ & _ & ->). by apply Ht.
Qed.

Lemma steady_relink X s t ts key o cons :
  steady X s -> tracing_sessions_ s !! t = Some ts -> steady X (set_consumers_ cons (upd_session t (set_detach_key key (set_consumer_maybe_null o ts)) s)).
Proof. intros HS E t0 ts0 Hn. cbn. rewrite lookup_insert_Some. intros [[<- <-]|[_ E0]]; [exact (HS t ts Hn E)|exact (HS t0 ts0 Hn E0)]. Qed.

(** Only detached sessions have a key that is not empty. *)
Lemma find_detached_ok extra s uid key l :
  core extra s -> key <> EmptyString -> (forall t, t ∈ l -> is_Some (tracing_sessions_ s !! t)) ->
  exists o, find_detached l s uid key = Some o /\ match o with Some t => exists ts, tracing_sessions_ s !! t = Some ts /\ consumer_maybe_null ts = None | None => True end.
Proof.
  intros HC Hk. induction l as [|t l IH]; intros Hl; [by exists None|]. cbn [find_detached]. destruct (Hl t) as [ts E]; [by left|]. rewrite E. cbn [mbind option_bind].
  destruct (_ && _) eqn:Em; [|apply IH; intros; apply Hl; by right].
  apply andb_true_iff in Em as [_ Em%bool_decide_eq_true_1]. destruct (consumer_maybe_null ts) as [c|] eqn:Ec; [|by exists (Some t); eauto].
  destruct (so_consumer _ _ _ _ (co_session _ _ HC t ts E) c Ec). congruence.
Qed.

Lemma GetDetachedSession_ok extra s uid key :
  core extra s -> key <> EmptyString ->
  exists o, GetDetachedSession s uid key = Some o /\ match o with Some t => exists ts, tracing_sessions_ s !! t = Some ts /\ consumer_maybe_null ts = None | None => True end.
Proof. intros HC Hk. eapply find_detached_ok; [done..|]. intros t. apply elem_of_map_keys. Qed.

Lemma DetachConsumer_ok extra s c key :
  core extra s -> steady ∅ s -> is_Some (consumers_ s !! c) -> key <> EmptyString -> finishes (fst <$> DetachConsumer c key s) extra.
Proof.
  intros HC HS [q Eq] Hk. unfold DetachConsumer. rewrite Eq. cbn [mbind option_bind]. rewrite (GetTracingSession_core extra) by done.
  destruct (tracing_sessions_ s !! tracing_session_id_ q) as [ts|] eqn:Et; [|by apply finishes_ret].
  destruct (GetDetachedSession_ok extra s (c_uid q) key HC Hk) as ([t|] & -> & _); cbn [mbind option_bind]; [by apply finishes_ret|].
  pose proof (co_session _ _ HC _ ts Et) as Hso. destruct (so_id _ _ _ _ Hso) as [Hlo Hhi].
  destruct (consumer_session extra s c q HC Eq) as (ts' & Et' & Hc); [lia|]. rewrite Et in Et'. simplify_eq. rewrite decide_True by done.
  apply finishes_ret; [|by apply steady_relink]. apply core_relink; try done.
  - intros c' q' Eq' Hnz Hne. exists q'. cbn. rewrite lookup_insert_ne; [done|]. intros <-. congruence.
  - intros c' q'. cbn. rewrite lookup_insert_Some. intros [[<- <-]|[Hne Eq']]; [exists q; by auto|]. exists q'. split; [done|].
    destruct (other_consumers extra s c q c' q' HC Eq Eq'); auto.
Qed.

Lemma AttachConsumer_ok extra s c key :
  core extra s -> steady ∅ s -> is_Some (consumers_ s !! c) -> key <> EmptyString -> finishes (fst <$> AttachConsumer c key s) extra.
Proof.
  intros HC HS [q Eq] Hk. unfold AttachConsumer. rewrite Eq. cbn [mbind option_bind]. destruct (Z.eqb_spec (tracing_session_id_ q) 0) as [Hz|]; cbn [negb]; [|by apply finishes_ret].
  destruct (GetDetachedSession_ok extra s (c_uid q) key HC Hk) as ([t|] & -> & Ho); cbn [mbind option_bind]; [|by apply finishes_ret].
  destruct Ho as (ts & Et & Hn). rewrite Et. cbn [mbind option_bind]. apply finishes_ret; [|by apply (steady_relink ∅ s t ts EmptyString (Some c) (<[c := set_tracing_session_id_ t q]> (consumers_ s)))].
  apply (core_relink extra s t ts EmptyString (Some c) (<[c := set_tracing_session_id_ t q]> (consumers_ s))); try done.
  - intros c' [= <-]. split; [done|]. eexists. by rewrite lookup_insert_eq.
  - intros c' q' Eq' Hnz Hne. exists q'. rewrite lookup_insert_ne; [done|]. intros <-. congruence.
  - intros c' q'. rewrite lookup_insert_Some. intros [[<- <-]|[Hne Eq']]; [exists q; by auto 6|]. exists q'. split; [done|].
    destruct (decide (tracing_session_id_ q' = t)) as [Ht|Ht]; [|by auto]. left. destruct (co_consumer _ _ HC c' q' Eq') as [_ [?|(ts' & Et' & Hc)]]; [done|]. congruence.
Qed.
(** ** Calls of consumers *)

Lemma change_source_ok extra s t ts cfg k :
  core extra s -> steady ∅ s -> tracing_sessions_ s !! t = Some ts -> state ts = STARTED \/ state ts = CONFIGURED -> (k < length (data_sources (config ts)))%nat ->
  exists s' ts', change_source t cfg k s = Some s' /\ core extra s' /\ steady ∅ s' /\ tracing_sessions_ s' !! t = Some ts' /\ state ts' = state ts /\
    length (data_sources (config ts')) = length (data_sources (config ts)).
Proof.
  intros HC HS E Hst Hk. unfold change_source. rewrite E. cbn [mbind option_bind]. destruct (lookup_lt_is_Some_2 _ _ Hk) as [d0 Ed]. rewrite Ed. cbn [mbind option_bind].
  destruct (list_find _ _) as [[i d]|]; [|by exists s, ts]. set (d' := mkDataSource _ _ _). set (ts1 := set_config _ ts).
  assert (Hf : sess_frame ts ts1). { sess_id ts. split; try done. cbn. by rewrite length_insert. }
  assert (F1 : frame t s (upd_session t ts1 s)) by (by eapply frame_upd).
  set (I := fun s' => core extra s' /\ steady ∅ s' /\ data_sources_ s' = data_sources_ s /\ exists ts', tracing_sessions_ s' !! t = Some ts' /\ state ts' = state ts /\
    length (data_sources (config ts')) = length (data_sources (config ts))).
  match goal with |- context [for_each ?f ?l ?s1] => destruct (loop_ok I f l) with (s := s1) as (s2 & -> & H2) end.
  - intros rds s2 (r & Hr & <-)%elem_of_registered (HC2 & HS2 & Hd2 & ts2 & E2 & St2 & L2). rewrite <- Hd2 in Hr.
    destruct (co_sources _ _ HC2 r Hr) as [q Eq]. unfold GetProducer. rewrite Eq. cbn [mbind option_bind].
    assert (Hn : exists s', Some s2 = Some s' /\ I s') by (exists s2; split; [done|]; split; [done|]; eauto 6).
    destruct (negb _); [done|]. destruct (bool_decide _); [done|].
    destruct (setup_running_ok extra s2 t ts2 d' r HC2 HS2 E2) as (s3 & ts3 & -> & HC3 & HS3 & F3 & E3 & Cf3 & St3); [by rewrite St2|done|].
    exists s3. split; [done|]. split; [done|]. split; [done|]. split; [by rewrite (sx_sources _ _ _ F3)|]. exists ts3. split; [done|]. rewrite (cf_sources _ _ Cf3). split; congruence.
  - split; [by eapply core_frame|]. split; [by apply (upd_same s t ts ts1 E (same_insts_refl ts))|]. split; [done|]. exists ts1. cbn. rewrite lookup_insert_eq. split; [done|].
    split; [done|]. apply Hf.
  - destruct H2 as (HC2 & HS2 & _ & ts2 & E2 & St2 & L2). exists s2, ts2. auto 8.
Qed.

Lemma ChangeTraceConfig_ok extra s t ts cfg : core extra s -> steady ∅ s -> tracing_sessions_ s !! t = Some ts -> finishes (ChangeTraceConfig t cfg s) extra.
Proof.
  intros HC HS E. unfold ChangeTraceConfig. rewrite (GetTracingSession_core extra), E by done. cbn [mbind option_bind]. case_decide as Hst; [|by apply finishes_ret].
  set (I := fun s' => core extra s' /\ steady ∅ s' /\ exists ts', tracing_sessions_ s' !! t = Some ts' /\ state ts' = state ts /\
    length (data_sources (config ts')) = length (data_sources (config ts))).
  destruct (loop_ok I (change_source t cfg) (seq 0 (length (data_sources (config ts))))) with (s := s) as (s2 & -> & HC2 & HS2 & _); [|by split; eauto|by apply finishes_ret].
  intros k s1 Hk (HC1 & HS1 & ts1 & E1 & St1 & L1). apply elem_of_seq in Hk.
  destruct (change_source_ok extra s1 t ts1 cfg k HC1 HS1 E1) as (s2 & ts2 & -> & HC2 & HS2 & E2 & St2 & L2); [by rewrite St1|lia|].
  exists s2. split; [done|]. split; [done|]. split; [done|]. exists ts2. split; [done|]. split; congruence.
Qed.

Lemma ReadBuffersIntoConsumer_ok extra s t c : core extra s -> steady ∅ s -> finishes (fst <$> ReadBuffersIntoConsumer t c s) extra.
Proof.
  intros HC HS. unfold ReadBuffersIntoConsumer. rewrite (GetTracingSession_core extra) by done. destruct (tracing_sessions_ s !! t) as [ts|] eqn:E; [|by apply finishes_ret].
  destruct (_ || _); [by apply finishes_ret|]. destruct (session_buffers_ok extra s t ts HC E) as (bufs & Eb & Hb). rewrite Eb. cbn [mbind option_bind].
  destruct (dp_read_packets (trace_filter ts) (compress_deflate ts) (read_state ts) bufs Hb (so_filter _ _ _ _ (co_session _ _ HC t ts E))) as (bufs' & st & ps & more & -> & Hr).
  cbn [mbind option_bind]. destruct (sess_frame_emitted more ts) as (He0 & Hsame & _). set (s1 := set_buffers_ _ s). set (ts1 := set_read_state st (emitted more ts)).
  assert (He : sess_frame ts ts1) by (eapply sess_frame_trans; [exact He0|]; sess_id (emitted more ts)).
  assert (F1 : frame t s s1).
  { apply frame_buffers, (put_buffers_evolves _ _ bufs); [done|]. eapply Forall2_impl; [exact Hr|]. intros x y [Hy Hro] Hx. split; [done|congruence]. }
  assert (F2 : frame t s (upd_session t ts1 s1)) by (eapply frame_trans; [exact F1|]; by eapply frame_upd).
  assert (HS2 : steady ∅ (upd_session t ts1 s1)) by exact (proj2 (upd_same s1 t ts ts1 E Hsame) ∅ HS).
  assert (HC2 : core extra (upd_session t ts1 s1)) by (by eapply core_frame). cbn [fmap option_fmap option_map fst].
  destruct more; (apply finishes_ret; [apply core_send|exact HS2]); [|done]. eapply (core_frame _ t); [exact HC2|]. by apply frame_post.
Qed.

Lemma ObserveEvents_ok extra s c mask : core extra s -> steady ∅ s -> is_Some (consumers_ s !! c) -> finishes (ObserveEvents c mask s) extra.
Proof.
  intros HC HS [q Eq]. unfold ObserveEvents. rewrite Eq. cbn [mbind option_bind]. set (q' := set_observable_events_mask_ mask q). set (s1 := upd_consumer c q' s).
  assert (HC1 : core extra s1).
  { apply core_consumers; [done|]. apply (cut_same 0 _ c q); [done..|]. intros c0 q0 _. destruct (decide (tracing_session_id_ q0 = 0)); auto. }
  assert (HS1 : steady ∅ s1) by exact HS. assert (Eq1 : consumers_ s1 !! c = Some q') by (cbn; by rewrite lookup_insert_eq). rewrite (GetTracingSession_core extra) by done.
  destruct (tracing_sessions_ s1 !! tracing_session_id_ q) as [ts|] eqn:E; [|by apply finishes_ret].
  assert (Hsent : exists m, (if negb (mask .& TYPE_DATA_SOURCES_INSTANCES =? 0) then
    for_each (fun x s => producer ← GetProducer s x.1; OnDataSourceInstanceStateChange s c producer x.2) (data_source_instances ts) s1 else Some s1) = Some (set_sent m s1)).
  { destruct (negb _); [|exists (sent s1); by destruct s1].
    destruct (loop_ok (fun s' => exists m, s' = set_sent m s1) (fun x s => producer ← GetProducer s x.1; OnDataSourceInstanceStateChange s c producer x.2) (data_source_instances ts))
      with (s := s1) as (s2 & -> & m & ->); [|exists (sent s1); by destruct s1|by exists m].
    intros x s' Hx [m ->]. destruct (instance_producer extra s1 _ ts x HC1 E Hx) as [p Ep]. unfold GetProducer. cbn in Ep |- *. rewrite Ep. cbn. unfold OnDataSourceInstanceStateChange. cbn.
    rewrite lookup_insert_eq. cbn. eexists. split; [done|]. destruct (wants _ _), (inst_state x.2); by eexists. }
  destruct Hsent as [m ->]. cbn [mbind option_bind]. assert (F2 : frame 0 s1 (set_sent m s1)) by apply frame_sent.
  assert (HC2 : core extra (set_sent m s1)) by (by eapply core_frame). destruct (negb _); [|by apply finishes_ret].
  eapply keeps_finishes; [exact HC2|exact HS1|exact E|]. eapply keeps_weaken; [by eapply MaybeNotifyAllDataSourcesStarted_ok|].
  intros ts' (-> & -> & _). exact (HS1 _ ts (not_elem_of_empty _) E).
Qed.

(** What consumers must not do: an empty key finds sessions that are not detached. *)
Definition consumer_call_ok (call : ConsumerCall) : Prop :=
  match call with
  | CallDetach key | CallAttach key => key <> EmptyString
  | CallEnableTracing cfg _ _ => forall fc, cfg_trace_filter cfg = Some fc -> filter_config_ok fc
  | _ => True
  end.

Lemma finishes_fst {A} (r : option (TracingServiceImpl * A)) f extra :
  finishes (fst <$> r) extra -> (forall s x, core extra s -> steady ∅ s -> finishes (f s x) extra) -> finishes ('(s, x) ← r; f s x) extra.
Proof. intros (s & E & HC & HS) Hf. destruct r as [[s' x]|]; [|done]. cbn in *. simplify_eq. by apply Hf. Qed.

Lemma consumer_call_finishes extra s c call :
  core extra s -> steady ∅ s -> is_Some (consumers_ s !! c) -> consumer_call_ok call -> finishes (consumer_call c call s) extra.
Proof.
  intros HC HS Hc Hok. pose proof Hc as [q Eq]. unfold consumer_call. rewrite Eq. cbn [mbind option_bind].
  assert (Hret : finishes (Some s) extra) by (by apply finishes_ret).
  assert (Hact : forall k, (forall ts, tracing_session_id_ q <> 0 -> tracing_sessions_ s !! tracing_session_id_ q = Some ts -> finishes k extra) ->
    finishes (if tracing_session_id_ q =? 0 then Some s else k) extra).
  { intros k Hk. destruct (Z.eqb_spec (tracing_session_id_ q) 0) as [|Hnz]; [done|]. destruct (consumer_session extra s c q HC Eq Hnz) as (ts & Et & _). by eapply Hk. }
  assert (Hsend : forall s' m, core extra s' -> steady ∅ s' -> finishes (Some (send m s')) extra) by (intros s' m H1 H2; apply finishes_ret; [by apply core_send|exact H2]).
  destruct call as [cfg fd created|cfg| | | | |token reason|key|key|mask|id skip bug|].
  - destruct (EnableTracing_ok extra s c cfg fd created HC HS Hc Hok) as (s' & [e|] & -> & HC' & HS' & Hrej); cbn [mbind option_bind]; [|by apply finishes_ret].
    unfold NotifyOnTracingDisabled. rewrite (rj_consumers _ _ (Hrej ltac:(done))), Eq. by apply Hsend.
  - apply Hact. intros ts _ Et. by eapply ChangeTraceConfig_ok.
  - apply Hact. intros ts _ Et. eapply keeps_finishes; [done..|]. eapply keeps_weaken; [eapply StartTracing_ok; [done..|exact (HS _ ts (not_elem_of_empty _) Et)]|]. by intros ts' [].
  - apply Hact. intros ts _ Et. eapply keeps_finishes; [done..|]. eapply keeps_weaken; [eapply DisableTracing_ok; [done..|exact (HS _ ts (not_elem_of_empty _) Et)]|]. by intros ts' (_ & ? & _).
  - destruct (_ =? 0); [by apply Hsend|]. apply finishes_fst; [by apply ReadBuffersIntoConsumer_ok|]. intros s' [] HC' HS'; [by apply finishes_ret|by apply Hsend].
  - apply Hact. intros ts Hnz Et. by apply FreeBuffers_call_ok.
  - apply Hact. intros ts _ Et. by apply Flush_ok.
  - apply finishes_fst; [by apply DetachConsumer_ok|]. intros s' b HC' HS'. by apply Hsend.
  - apply finishes_fst; [by apply AttachConsumer_ok|]. intros s' b HC' HS'. apply finishes_ret; [|exact HS']. eapply (core_frame _ 0); [exact HC'|]. by apply frame_post.
  - by apply ObserveEvents_ok.
  - destruct (FlushAndCloneSession_ok extra s c id skip bug HC HS Hc) as (s' & [e|] & -> & HC' & HS'); cbn [mbind option_bind]; [by apply Hsend|by apply finishes_ret].
  - by apply DisconnectConsumer_ok.
Qed.

(** ** Calls of producers *)

Definition producer_call_ok s (call : ProducerCall) : Prop := match call with CallCommitData req => commit_ok s req | _ => True end.

Lemma core_writers extra s p q w : core extra s -> producers_ s !! p = Some q -> core extra (upd_producer p (set_writers_ w q) s).
Proof. intros HC E. eapply core_producer; [done|exact E|]. by destruct (co_producer _ _ HC p q E). Qed.

Lemma producer_call_finishes extra s p call :
  core extra s -> steady ∅ s -> is_Some (producers_ s !! p) -> producer_call_ok s call -> finishes (producer_call p call s) extra.
Proof.
  intros HC HS Hp Hok. pose proof Hp as [q Eq].
  assert (Hk : forall r, (exists s', r = Some s' /\ steady_kept extra ∅ s s') -> finishes r extra) by (intros r (s' & -> & HC' & HS' & _); by apply finishes_ret).
  assert (Hw : forall w, finishes (Some (upd_producer p (set_writers_ w q) s)) extra) by (intros w; apply finishes_ret; [by apply core_writers|exact HS]).
  destruct call; cbn [producer_call].
  - by apply RegisterDataSource_ok.
  - apply finishes_ret; [by apply UpdateDataSource_ok|]. unfold UpdateDataSource. by destruct (_ =? 0).
  - destruct (UnregisterDataSource_ok extra s p name HC HS Hp) as (s' & -> & HC' & HS' & _). by apply finishes_ret.
  - unfold RegisterTraceWriter, GetProducer. rewrite Eq. apply Hw.
  - unfold UnregisterTraceWriter, GetProducer. rewrite Eq. apply Hw.
  - by apply CommitData_ok.
  - by apply Hk, NotifyDataSourceStarted_ok.
  - by apply Hk, NotifyDataSourceStopped_ok.
  - by apply ActivateTriggers_ok.
  - by apply DisconnectProducer_ok.
Qed.
(** ** Tasks *)

(** A task leaves the queue; its callback is in flight. *)
Lemma core_take_task s i t :
  core [] s -> tasks s !! i = Some t -> task_ok s t /\ core (option_list (task_cb t)) (set_tasks (delete i (tasks s)) s).
Proof.
  intros [H1 H2 H3 H4 H5 H6 H7 H8 H9 H10 H11 H12 H13 H14] E. split; [by eapply Forall_lookup_1|].
  assert (Hp : omap task_cb (tasks s) ≡ₚ option_list (task_cb t) ++ omap task_cb (delete i (tasks s))).
  { rewrite (delete_Permutation _ _ _ E) at 1. cbn. by destruct (task_cb t). }
  split; try done; cbn.
  - intros t0 ts E0. destruct (H1 t0 ts E0) as [S1 S2 S3 S4 S5 S6 S6' S7 S8 S9 S10]. split; try done. intros id op Ho. destruct (S9 id op Ho) as [Hlt Hcl]. split; [done|].
    eapply clone_ok_perm; [|exact Hcl]. unfold outstanding. cbn [app tasks set_tasks]. by rewrite Hp, <- (assoc_L (++)).
  - intros p q Eq. by destruct (H7 p q Eq).
  - apply (Forall_delete _ _ i H9).
  - intros t0 id bufs Hin. apply (H10 t0 id bufs). cbn. by rewrite Hp.
Qed.

Lemma finishes_session extra s t (k : TracingSession -> option TracingServiceImpl) :
  core extra s -> steady ∅ s -> (forall ts, tracing_sessions_ s !! t = Some ts -> inst_ok (state ts) (states ts) -> finishes (k ts) extra) ->
  finishes (match GetTracingSession s t with Some ts => k ts | None => Some s end) extra.
Proof.
  intros HC HS Hk. rewrite (GetTracingSession_core extra) by done. destruct (tracing_sessions_ s !! t) as [ts|] eqn:E; [|by apply finishes_ret].
  apply Hk; [done|]. exact (HS _ ts (not_elem_of_empty _) E).
Qed.

Lemma PeriodicFlushTask_ok extra s t : core extra s -> steady ∅ s -> task_ok s (TPeriodicFlush t) -> finishes (PeriodicFlushTask t false s) extra.
Proof.
  intros HC HS Ht. unfold PeriodicFlushTask. apply finishes_session; [done..|]. intros ts E _. case_decide; [|by apply finishes_ret].
  destruct (Z.eqb_spec (flush_period_ms (config ts)) 0) as [Hz|_]; [by destruct (proj2 Ht ts E)|]. apply Flush_ok; [done| |exact HS].
  eapply (core_frame _ 0); [exact HC|]. by apply frame_post.
Qed.

Lemma PeriodicClearTask_ok extra s t : core extra s -> steady ∅ s -> task_ok s (TPeriodicClearIncrementalState t) -> finishes (PeriodicClearIncrementalStateTask t false s) extra.
Proof.
  intros HC HS Ht. unfold PeriodicClearIncrementalStateTask. apply finishes_session; [done..|]. intros ts E _. case_decide; [|by apply finishes_ret].
  destruct (Z.eqb_spec (clear_period_ms (config ts)) 0) as [Hz|_]; [by destruct (proj2 Ht ts E)|]. set (s1 := post _ s). set (l := foldl _ [] _).
  assert (HC1 : core extra s1) by (eapply (core_frame _ 0); [exact HC|]; by apply frame_post).
  assert (Hsent : forall l s', exists m, foldl (fun s (x : Z * list Z) => match GetProducer s x.1 with Some _ => send (ProducerClearIncrementalState x.1 x.2) s | None => s end) s' l = set_sent m s').
  { intros l'. induction l' as [|x l' IH]; intros s'; [exists (sent s'); by destruct s'|]. cbn [foldl]. destruct (GetProducer s' x.1); [|apply IH].
    destruct (IH (send (ProducerClearIncrementalState x.1 x.2) s')) as [m ->]. by exists m. }
  destruct (Hsent l s1) as [m ->]. apply finishes_ret; [|exact HS]. eapply (core_frame _ 0); [exact HC1|apply frame_sent].
Qed.

(** A session is changed, and its data sources are not. *)
Lemma finishes_upd extra s t ts ts' :
  core extra s -> steady ∅ s -> tracing_sessions_ s !! t = Some ts -> sess_frame ts ts' -> same_insts ts ts' -> finishes (Some (upd_session t ts' s)) extra.
Proof.
  intros HC HS E Hf Hs. apply finishes_ret; [eapply core_frame; [exact HC|by eapply frame_upd]|]. by apply (proj2 (upd_same s t ts ts' E Hs)).
Qed.

Lemma OnAllDataSourceStartedTimeout_ok extra s t : core extra s -> steady ∅ s -> finishes (Some (OnAllDataSourceStartedTimeout t s)) extra.
Proof.
  intros HC HS. unfold OnAllDataSourceStartedTimeout. rewrite (GetTracingSession_core extra) by done. destruct (tracing_sessions_ s !! t) as [ts|] eqn:E; [|by apply finishes_ret].
  destruct (_ || _); [by apply finishes_ret|]. eapply finishes_upd; [done..| |done]. sess_id ts.
Qed.

Lemma PeriodicSnapshotTask_ok extra s t : core extra s -> steady ∅ s -> finishes (Some (PeriodicSnapshotTask t s)) extra.
Proof.
  intros HC HS. unfold PeriodicSnapshotTask. rewrite (GetTracingSession_core extra) by done. destruct (tracing_sessions_ s !! t) as [ts|] eqn:E; [|by apply finishes_ret].
  case_decide; [|by apply finishes_ret]. eapply finishes_upd; [done..| |done]. sess_id ts.
Qed.

Lemma FlushAndDisableTracing_ok extra s t : core extra s -> steady ∅ s -> finishes (FlushAndDisableTracing t s) extra.
Proof. intros HC HS. by apply Flush_ok. Qed.

Lemma run_task_ok s t :
  core (option_list (task_cb t)) s -> steady ∅ s -> task_ok s t -> finishes (run_task t s) [].
Proof.
  intros HC HS Ht. destruct t as [t|t|t|t name|t|t|t|t|t|t id reason|t cb success|t c|c success|c]; cbn [run_task task_cb option_list] in *.
  - unfold OnStartTriggersTimeout. apply finishes_session; [done..|]. intros ts E Hi. case_decide; [|by apply finishes_ret].
    eapply keeps_finishes; [done..|]. eapply keeps_weaken; [by eapply DisableTracing_ok|]. by intros ts' (_ & ? & _).
  - unfold StopOnDurationMsExpiry. apply finishes_session; [done..|]. intros ts E Hi. destruct (_ && _); [by apply finishes_ret|by apply FlushAndDisableTracing_ok].
  - apply finishes_session; [done..|]. intros ts E Hi. by apply FlushAndDisableTracing_ok.
  - apply finishes_session; [done..|]. intros ts E Hi. destruct (consumer_maybe_null ts) as [c|] eqn:Ec; [|by apply finishes_ret].
    destruct (so_consumer _ _ _ _ (co_session _ _ HC t ts E) c Ec) as (_ & q & Eq & _). unfold NotifyCloneSnapshotTrigger. rewrite Eq. cbn [mbind option_bind].
    destruct (wants _ _); [|by apply finishes_ret]. apply finishes_ret; [by apply core_send|exact HS].
  - destruct (tracing_sessions_ s !! t) as [ts|] eqn:E.
    + eapply keeps_finishes; [done..|]. eapply ReadBuffersIntoFile_ok; [done..|exact (HS _ ts (not_elem_of_empty _) E)|by apply Ht].
    + unfold ReadBuffersIntoFile, drain_file. rewrite (GetTracingSession_core []), E by done. by apply finishes_ret.
  - by apply PeriodicFlushTask_ok.
  - by apply PeriodicClearTask_ok.
  - by apply OnAllDataSourceStartedTimeout_ok.
  - destruct (tracing_sessions_ s !! t) as [ts|] eqn:E.
    + eapply keeps_finishes; [done..|]. eapply OnDisableTracingTimeout_ok; [done..|]. exact (HS _ ts (not_elem_of_empty _) E).
    + unfold OnDisableTracingTimeout. rewrite (GetTracingSession_core []), E by done. by apply finishes_ret.
  - by apply OnFlushTimeout_ok.
  - by apply CompleteFlush_ok.
  - destruct (consumers_ s !! c); [by apply ReadBuffersIntoConsumer_ok|by apply finishes_ret].
  - destruct (consumers_ s !! c); (apply finishes_ret; [|exact HS]); [by apply core_send|done].
  - destruct (consumers_ s !! c); (apply finishes_ret; [|exact HS]); [by apply core_send|done].
Qed.

(** ** Runs *)

(** What clients and the environment must not do: time does not go back, the chunks of a
    shared memory buffer have headers, and no call is one of those that abort the service. *)
Definition op_ok s (o : ServiceOp) : Prop :=
  match o with
  | OpConnectProducer identity _ _ _ _ _ => client_ok identity
  | OpProducer p call => producer_call_ok s call
  | OpConsumer c call => consumer_call_ok call
  | OpTime now => boot_time_ns s <= now
  | OpSmb p chunks => Forall (fun x => chunk_ok x.2) chunks
  | _ => True
  end.

(** The calls of a run, each in the state in which it is made. *)
Fixpoint ops_ok (ops : list ServiceOp) s : Prop :=
  match ops with
  | [] => True
  | o :: ops => op_ok s o /\ forall s', service_step o s = Some s' -> ops_ok ops s'
  end.

Lemma service_step_ok o s : ok s -> op_ok s o -> exists s', service_step o s = Some s' /\ ok s'.
Proof.
  intros [HC HS] Ho. assert (Hret : finishes (Some s) []) by (by apply finishes_ret). destruct o as [uid name size page scraping shm|p call|uid|c call|i|t|now|bytes|p chunks]; cbn [service_step].
  - by apply ConnectProducer_ok.
  - destruct (producers_ s !! p) as [q|] eqn:E; [|done]. by apply producer_call_finishes; [..|eexists|].
  - by apply ConnectConsumer_ok.
  - destruct (consumers_ s !! c) as [q|] eqn:E; [|done]. by apply consumer_call_finishes; [..|eexists|].
  - destruct (tasks s !! i) as [t|] eqn:E; [|done]. destruct (core_take_task s i t HC E) as [Ht HC']. by apply run_task_ok.
  - destruct (GetTracingSession s t) as [ts|]; [|done]. destruct (snapshot_running ts); [by apply PeriodicSnapshotTask_ok|done].
  - apply finishes_ret; [|exact HS]. destruct HC as [H1 H2 H3 H4 H5 H6 H7 H8 H9 H10 [H11 H11'] H12 H13 H14]. split; try done.
    + intros t ts E. by destruct (H1 t ts E).
    + intros p q E. by destruct (H7 p q E).
    + split; [done|]. eapply Forall_impl; [exact H11'|]. cbn in Ho |- *. lia.
  - apply finishes_ret; [|exact HS]. eapply (core_frame _ 0); [exact HC|apply frame_memory].
  - destruct (producers_ s !! p) as [q|] eqn:E; [|done]. apply finishes_ret; [|exact HS]. eapply core_producer; [done|exact E|].
    destruct (co_producer _ _ HC p q E) as [P1 P2 [P3 _]]. by split.
Qed.

Lemma service_run_ok ops : forall s, ok s -> ops_ok ops s -> exists s', service_run ops s = Some s' /\ ok s'.
Proof.
  induction ops as [|o ops IH]; intros s Hs Ho; [by exists s|]. destruct Ho as [Ho Hops]. destruct (service_step_ok o s Hs Ho) as (s1 & E1 & H1).
  unfold service_run. cbn [for_each]. rewrite E1. cbn [mbind option_bind]. apply IH; [done|by apply Hops].
Qed.

Lemma TracingServiceImpl_new_ok uid scraping : exists s, TracingServiceImpl_new uid scraping = Some s /\ ok s.
Proof.
  unfold TracingServiceImpl_new. destruct (IdAllocator_new kMaxTraceBufferID) as [a|] eqn:Ea; [|done]. cbn [mbind option_bind]. eexists. split; [done|].
  assert (Hu : uses a ∅) by (by eapply uses_new in Ea). unfold IdAllocator_new in Ea. simplify_eq/=. split; [|done]. split; try done; cbn; set_solver.
Qed.

(** No sequence of connections, calls of producers and consumers, tasks in any order
    and at any time, and failed allocations makes the service fail a check, dereference a
    pointer to a client or a session that is gone, or use a buffer it does not have; all it
    needs is that detach keys are not empty, that patches name no buffer of a cloned
    session, and that the data of chunks that come over IPC holds a header. In every state
    that is reached the invariant holds: buffers belong to one session each, sessions and
    consumers point at each other, and the states of data sources agree with the state of
    their session. *)
Lemma service_run_safe uid scraping ops s :
  TracingServiceImpl_new uid scraping = Some s -> ops_ok ops s -> exists s', service_run ops s = Some s' /\ ok s'.
Proof.
  intros E Ho. destruct (TracingServiceImpl_new_ok uid scraping) as (s0 & E0 & H0). rewrite E0 in E. simplify_eq. by apply service_run_ok.
Qed.
End Run.
