(* ===== verification/ServicePlane.v ===== *)
(** * The tracing service on its trace buffers and filters

    The interface [DataPlane], which the model of the service is written against,
    implemented by the trace buffers, the packet validator, the message filter and the
    reading of buffers; [LoadTraceFilter] is the part of [EnableTracing]
    ([src/tracing/service/tracing_service_impl.cc]) that sets up the filter of a session.
    With the laws of the interface discharged, the safety of the service holds of the
    composed program, and runs of it can be evaluated. *)

From S2P Require Import Prelude ProtoUtils ProtoDecoder FilterBytecode MessageTokenizer StringFilter MessageFilter.
From S2P Require Import PacketStreamValidator TraceBuffer TraceBufferRead TraceBufferClone TraceBufferDrain ServiceBuffers ReadBuffers.
From S2P Require Import IdAllocator TracingServiceTypes TracingService TracingServiceEndpoints TracingServiceOk TracingServiceSession.
From S2P Require Import TracingServiceFlush TracingServiceEnable TracingServiceProducers TracingServiceCommits TracingServiceRun.

(** ** The filter of a session *)

Section Filter.
Context {regex : Type} `{Regex regex}.

(** [TraceConfig.TraceFilter]; patterns are compiled. *)
Record StringFilterRule := mkStringRule { rule_policy : Z; rule_pattern : regex; rule_prefix : list Z }.
Record TraceFilter := mkTraceFilter { string_filter_rules : list StringFilterRule; bytecode : list Z; bytecode_v2 : list Z }.

(** The values of the enumeration [StringFilterPolicy]. *)
Definition ConvertPolicy (p : Z) : option Policy :=
  match p with
  | 1 => Some kMatchRedactGroups
  | 2 => Some kAtraceMatchRedactGroups
  | 3 => Some kMatchBreak
  | 4 => Some kAtraceMatchBreak
  | 5 => Some kAtraceRepeatedSearchRedactGroups
  | _ => None
  end.

(** The loop over the rules; [None]: one is invalid. *)
Fixpoint convert_rules (rules_ : list (Rule regex)) (rules : list StringFilterRule) : option (list (Rule regex)) :=
  match rules with
  | [] => Some rules_
  | r :: rules =>
      policy ← ConvertPolicy (rule_policy r);
      convert_rules (AddRule rules_ (mkRule policy (rule_pattern r) (rule_prefix r))) rules
  end.

Definition filter_bytecode (filt : TraceFilter) : list Z := match bytecode_v2 filt with [] => bytecode filt | v2 => v2 end.

(** The inner [None] is an error that [EnableTracing] returns. *)
Definition LoadTraceFilter (filt : TraceFilter) : option (option Config) :=
  match convert_rules [] (string_filter_rules filt) with
  | None => Some None
  | Some rules =>
      let c := MessageFilter.mkConfig (mkParser [] []) (MaybeFilter rules) 0 in
      let '(loaded, c) := LoadFilterBytecode c (filter_bytecode filt) in
      if negb loaded then Some None
      else
        '(rooted, c) ← SetFilterRoot c [kPacketFieldNumber];
        Some (if (rooted : bool) then Some c else None)
  end.

(** The bytecode of a filter is less than 32 MB. *)
Definition trace_filter_ok (filt : TraceFilter) : Prop := Z.of_nat (132 * S (length (filter_bytecode filt))) < 2 ^ 32.

Lemma LoadTraceFilter_ok `{!RegexLaws regex} filt :
  trace_filter_ok filt -> exists o, LoadTraceFilter filt = Some o /\ forall c, o = Some c -> ReadBuffers.filter_config_ok c.
Proof.
  intros Hf. unfold LoadTraceFilter. destruct (convert_rules [] _) as [rules|]; [|exists None; split; [done|]; intros; by simplify_eq].
  unfold LoadFilterBytecode. destruct (Load (filter_bytecode filt)) as [[] p] eqn:El; cbn [negb]; [|exists None; split; [done|]; intros; by simplify_eq].
  pose proof (Load_QueryTotal _ _ El Hf) as Hq. unfold SetFilterRoot. cbn [filter_root filter_].
  destruct (Hq 0 kPacketFieldNumber ltac:(done) ltac:(done)) as (r & -> & Hr). cbn [mbind option_bind].
  destruct (_ || _); cbn [mbind option_bind]; (eexists; split; [done|]); intros c Hc; simplify_eq. split; [done|]. split; [|done]. apply _.
Qed.
End Filter.
Arguments StringFilterRule : clear implicits.
Arguments TraceFilter : clear implicits.

(** ** The data plane *)

Section Plane.
Context {H : ServiceHost} {regex : Type} `{Regex regex} (fuel rounds : nat) (name_match : string -> string -> bool).

Definition to_patch (x : Z * list Z) : Patch := mkPatch x.1 x.2.

Definition service_plane : DataPlane := {|
  Buf := TraceBuffer;
  FilterConfig := TraceFilter regex;
  TracingServiceTypes.Filter := Config;
  ReadState := ReadSession;
  Packet := TracePacket;
  Create size discard := TraceBuffer.Create size (if discard then kDiscard else kOverwrite);
  buf_size := TraceBuffer.size_;
  buf_discard b := bool_decide (overwrite_policy_ b = kDiscard);
  has_data := has_data_;
  read_only := read_only_;
  set_read_only := TraceBuffer.set_read_only;
  CloneReadOnly := TraceBuffer.CloneReadOnly;
  CopyChunkUntrusted := TraceBuffer.CopyChunkUntrusted;
  TryPatchChunkContents b p w c patches more := snd <$> TraceBuffer.TryPatchChunkContents b p w c (to_patch <$> patches) more;
  LoadFilter := LoadTraceFilter;
  ReadState_new := ReadSession_new;
  ReadState_clone := ReadSession_clone;
  ReadIntoFile := read_into_file rounds fuel;
  ReadPackets := read_for_consumer fuel;
  TracingServiceTypes.regex_match := name_match |}.

Context {HOk : ServiceHostOk H} `{!RegexLaws regex}.

Definition plane_buf_ok (b : TraceBuffer) : Prop := stored_ok b /\ size_ok (TraceBuffer.size_ b).

Lemma evolves_interface bufs bufs' :
  Forall plane_buf_ok bufs -> Forall2 buffer_evolves bufs bufs' -> Forall2 (fun b b' => plane_buf_ok b' /\ read_only_ b' = read_only_ b) bufs bufs'.
Proof.
  intros Hb He. revert Hb. induction He as [|b b' l l' [Hs (S1 & S2 & S3)] _ IH]; intros Hb; [constructor|]. apply Forall_cons in Hb as [[_ Hsz] Hb].
  constructor; [|by apply IH]. split; [|done]. split; [done|]. by rewrite S2.
Qed.

Lemma plane_stored bufs : Forall plane_buf_ok bufs -> Forall stored_ok bufs.
Proof. intros Hb. eapply Forall_impl; [exact Hb|]. by intros b []. Qed.

(** ** Its laws *)

Context (Hfuel : kEnoughFuel <= Z.of_nat fuel) (Hrounds : enough_rounds (Z.to_nat kMaxTraceBufferID) <= Z.of_nat rounds).

Lemma size_16 n : size_ok n -> 16 <= n <= 2 ^ 32 - 1 /\ n mod 16 = 0.
Proof. unfold size_ok. intros [H1 H2]. split; [|]; Z.div_mod_to_equations; lia. Qed.

#[export] Program Instance service_plane_ok : DataPlaneOk service_plane := {|
  buf_ok := plane_buf_ok;
  filter_ok := ReadBuffers.filter_config_ok;
  TracingServiceOk.filter_config_ok := trace_filter_ok |}.
Next Obligation. by intros b []. Qed.
Next Obligation.
  intros n discard Hn. destruct (size_16 n Hn) as [H1 H2]. destruct (Create_stored n (if discard then kDiscard else kOverwrite) H1 H2) as (b & E & Hb & Hro & Hs).
  exists b. split; [done|]. split; [|done]. split; [done|]. by rewrite Hs.
Qed.
Next Obligation.
  intros b [Hb Hs]. destruct (Clone_stored b Hb) as (b' & E & Hb' & _ & Hs'). exists b'. split; [done|]. split; [done|]. by rewrite Hs'.
Qed.
Next Obligation. intros b [Hb Hs]. split; [by apply set_read_only_stored|done]. Qed.
Next Obligation.
  intros b p ci c complete [Hb Hs] Hro Hp Hci (C1 & C2 & C3 & C4 & C5 & C6).
  destruct (Copy_stored b p ci (sc_writer_id c) (sc_chunk_id c) (sc_packet_count c) (sc_flags c) complete (sc_payload c) Hb Hro) as (b' & E & Hb' & Hro' & Hs'); [by unfold chunk_args; split_and!|done..|].
  exists b'. split; [exact E|]. split; [|done]. split; [done|]. by rewrite Hs'.
Qed.
Next Obligation.
  intros b p w chunk patches more [Hb Hs] Hro Hp.
  destruct (Patch_stored b p w chunk (to_patch <$> patches) more Hb Hro) as (ok & b' & E & Hb' & Hro' & Hs').
  { apply Forall_fmap. eapply Forall_impl; [exact Hp|]. intros x (X1 & X2 & _). split; [done|]. cbn. rewrite X2. done. }
  { apply Forall_fmap. eapply Forall_impl; [exact Hp|]. by intros x (_ & _ & ?). }
  exists b'. cbn. rewrite E. split; [done|]. split; [|done]. split; [done|]. by rewrite Hs'.
Qed.
Next Obligation. intros b p w chunk patches more Hro. cbn in *. unfold TraceBuffer.TryPatchChunkContents. by rewrite Hro. Qed.
Next Obligation. intros cfg Hc. by apply LoadTraceFilter_ok. Qed.
Next Obligation.
  intros o z max st written bufs Hb Hn Ho. cbn.
  destruct (read_into_file_ok fuel o z max rounds st written bufs (plane_stored _ Hb) Ho Hfuel) as (bufs' & st' & w' & stop & more & E & He).
  { change (Z.of_nat (@length TraceBuffer bufs) <= kMaxTraceBufferID) in Hn. pose proof (works_bound bufs (plane_stored _ Hb)). pose proof Hrounds as Hr. unfold enough_rounds in Hr. rewrite Z2Nat.id in Hr by done. unfold kMaxTraceBufferID, kEnoughFuel in *. lia. }
  exists bufs', st', w', stop, more. split; [exact E|]. by apply evolves_interface.
Qed.
Next Obligation.
  intros o z st bufs Hb Ho. cbn. destruct (read_for_consumer_ok fuel o z st bufs (plane_stored _ Hb) Ho Hfuel) as (bufs' & st' & ps & more & E & He).
  exists bufs', st', ps, more. split; [exact E|]. by apply evolves_interface.
Qed.
End Plane.


(** ** A run *)

Definition example_trace_config {D : DataPlane} (filter : option FilterConfig) : TraceConfig :=
  mkConfig [mkBufferConfig 4 false false false] [mkDataSource (mkDsConfig "src" 0 0 0 false 0) [] []] [] (mkTriggerConfig UNSPECIFIED false [] 0) []
    0 false LOCKDOWN_UNCHANGED 0 false 0 EmptyString 0 0 0 0 0 false EmptyString EmptyString 0 false filter.

Definition example_ops {D : DataPlane} (cfg : TraceConfig) : list ServiceOp :=
  [OpMemory (2 ^ 20); OpConnectConsumer 1000; OpConnectProducer (mkIdentity 1000 42 0) "producer" 0 0 None None;
   OpProducer 1 (CallRegisterDataSource (mkDescriptor "src" 1 false false false false));
   OpConsumer 0 (CallEnableTracing cfg false false);
   OpProducer 1 (CallRegisterTraceWriter 7 1);
   OpSmb 1 [((0, 0), mkSmbChunk true 7 0 2 0 [2; 0x08; 0x01; 2; 0x18; 0x00])];
   OpProducer 1 (CallCommitData (mkCommit [mkMove 0 0 1 None] [] 0));
   OpConsumer 0 CallDisableTracing; OpConsumer 0 CallReadBuffers; OpConsumer 0 CallDisconnect].

(** The service with the example host, enough fuel for a small buffer, and a regex engine
    that matches nothing. *)
Definition example_plane : DataPlane := @service_plane example_host prefix_regex prefix_Regex 300 3 (fun _ _ => false).


(** The outcome of calls to a new service. *)
Definition outcome {D : DataPlane} (ops : list ServiceOp) : option TracingServiceImpl := s ← TracingServiceImpl_new 0 false; service_run ops s.

(** The packets of the last message, and how many buffers are left. *)
Definition received (o : option (@TracingServiceImpl example_plane)) : option (list TracePacket * nat) :=
  s ← o;
  m ← last (sent s);
  match m with ConsumerOnTraceData _ packets _ => Some (packets, size (buffers_ s)) | _ => None end.

(** The first packet of the chunk reaches the consumer with the identity of its producer
    appended, after a packet that the host wrote. The second sets a trusted field, and is
    dropped. *)
Example example_run_sends :
  received (outcome (example_ops (example_trace_config None))) =
    Some ([mkTracePacket [[80; 1]] None; mkTracePacket [[8; 1]; [24; 232; 7; 80; 2; 248; 4; 42; 208; 2; 1]] (Some 0)], 0%nat).
Proof. vm_compute. reflexivity. Qed.

(** Calls that are safe in every state. *)
Lemma ops_ok_always {D : DataPlane} {DOk : DataPlaneOk D} (ops : list ServiceOp) : Forall (fun o => forall s, op_ok s o) ops -> forall s, ops_ok ops s.
Proof. intros Ho. induction Ho as [|o ops Ho _ IH]; intros s; [done|]. split; [done|]. intros s' _. apply IH. Qed.

Lemma example_ops_ok {D : DataPlane} {DOk : DataPlaneOk D} : forall s, ops_ok (example_ops (example_trace_config None)) s.
Proof.
  apply ops_ok_always. repeat (apply Forall_cons; split; [intros s|]); try done; cbn.
  - apply Forall_singleton. split_and!; try done. unfold bytes_ok. repeat (apply Forall_cons; split; [done|]). done.
  - split; [by apply Forall_singleton|done].
Qed.

(** The example host with fuel for every buffer. *)
Definition full_fuel : nat := Z.to_nat kEnoughFuel.
Definition full_rounds : nat := Z.to_nat (enough_rounds (Z.to_nat kMaxTraceBufferID)).

Lemma full_fuel_enough : kEnoughFuel <= Z.of_nat full_fuel.
Proof. unfold full_fuel. lia. Qed.

Lemma full_rounds_enough : enough_rounds (Z.to_nat kMaxTraceBufferID) <= Z.of_nat full_rounds.
Proof. unfold full_rounds. lia. Qed.

Definition full_plane : DataPlane := @service_plane example_host prefix_regex prefix_Regex full_fuel full_rounds (fun _ _ => false).

#[export] Instance full_plane_ok : DataPlaneOk full_plane := service_plane_ok full_fuel full_rounds (fun _ _ => false) full_fuel_enough full_rounds_enough.

