(* ===== verification/ServiceEffects.v ===== *)
(** * The tracing service: what its operations do

    Contracts of single operations of [src/tracing/service/tracing_service_impl.cc], in
    every state that satisfies the invariant [ok]: a trace that is refused leaves nothing
    behind, a consumer that goes takes its session and buffers with it, a producer writes
    only where it may, and a session that is told to stop ends. *)

From S2P Require Import Prelude ProtoUtils ProtoDecoder FilterBytecode MessageTokenizer StringFilter MessageFilter.
From S2P Require Import PacketStreamValidator TraceBuffer TraceBufferRead TraceBufferClone TraceBufferDrain ServiceBuffers ReadBuffers.
From S2P Require Import IdAllocator TracingServiceTypes TracingService TracingServiceEndpoints TracingServiceOk TracingServiceSession.
From S2P Require Import TracingServiceFlush TracingServiceEnable TracingServiceProducers TracingServiceCommits TracingServiceRun.
From S2P Require Import ServicePlane.

(** ** Sizes of shared memory buffers *)

Lemma valid_page_size n : 4096 <= n <= 32768 -> n mod 4096 = 0 -> n / 4096 .& u64 (n / 4096 - 1) = 0 -> n ∈ [4096; 8192; 16384; 32768].
Proof.
  intros H1 H2 H3. assert (Hd : n = 4096 * (n / 4096)) by (Z.div_mod_to_equations; lia).
  assert (Hc : n / 4096 = 1 \/ n / 4096 = 2 \/ n / 4096 = 3 \/ n / 4096 = 4 \/ n / 4096 = 5 \/ n / 4096 = 6 \/ n / 4096 = 7 \/ n / 4096 = 8) by lia.
  repeat destruct Hc as [Hc|Hc]; rewrite Hc in H3, Hd; try discriminate H3; rewrite Hd; set_solver.
Qed.

(** Pages of a size that the code allows, and no rest. *)
Definition shm_sizes_ok (shm page : Z) : Prop := page ∈ [4096; 8192; 16384; 32768] /\ page <= shm <= kMaxShmSize /\ shm mod page = 0.

Lemma shm_sizes_kept shm page : shm_sizes_ok shm page -> EnsureValidShmSizes shm page = (shm, page).
Proof.
  intros (Hp & Hs & Hm). unfold EnsureValidShmSizes, kMaxShmSize in *. rewrite !elem_of_cons in Hp.
  assert (Hp' : page = 4096 \/ page = 8192 \/ page = 16384 \/ page = 32768) by (rewrite elem_of_nil in Hp; tauto). clear Hp.
  assert (Hz : (shm =? 0) = false) by lia. rewrite Hz, (Z.min_l shm) by lia.
  assert (Hmin : Z.min (if page =? 0 then kDefaultShmPageSize else page) (32 * 1024) = page) by (by repeat destruct Hp' as [->|Hp']; [..|rewrite Hp']).
  rewrite Hmin, Hm, orb_false_r, (proj2 (Z.ltb_ge shm page)) by lia. by repeat destruct Hp' as [->|Hp']; [..|rewrite Hp'].
Qed.

(** C9: whatever sizes a producer or a configuration asks for, its shared memory buffer has
    pages of 4, 8, 16 or 32 KB, at least one of them and at most 32 MB in all, and no rest
    after the last page; and sizes that are already like that are kept. *)
Theorem EnsureValidShmSizes_valid shm page :
  let '(shm', page') := EnsureValidShmSizes shm page in
  shm_sizes_ok shm' page' /\ EnsureValidShmSizes shm' page' = (shm', page').
Proof.
  assert (Hdef : shm_sizes_ok kDefaultShmSize kDefaultShmPageSize) by (split; [set_solver|done]).
  assert (Hfin : forall a b, shm_sizes_ok a b -> shm_sizes_ok a b /\ EnsureValidShmSizes a b = (a, b)) by (intros a b Hab; by split; [|apply shm_sizes_kept]).
  unfold EnsureValidShmSizes at 1. set (n := Z.min (if page =? 0 then _ else _) _). set (m := Z.min (if shm =? 0 then _ else _) _).
  assert (Hn : n <= 32768) by lia. assert (Hm : m <= 32 * 1024 * 1024) by (unfold kMaxShmSize in m; lia). clearbody n m.
  destruct (_ || _) eqn:Ec; [by apply Hfin|]. apply Hfin.
  apply orb_false_iff in Ec as [Ec E3%negb_false_iff%Z.eqb_eq]. apply orb_false_iff in Ec as [E1%negb_false_iff E2%Z.ltb_ge].
  rewrite !andb_true_iff, Z.leb_le, !Z.eqb_eq in E1. destruct E1 as [[E1 E4] E5]. split; [|done]. by apply valid_page_size.
Qed.

(** What every step of a loop keeps. *)
Lemma for_each_inv {A S} (f : A -> S -> option S) (I : S -> S -> Prop) l :
  (forall s, I s s) -> (forall a b c, I a b -> I b c -> I a c) -> forall s s',
  (forall x a b, x ∈ l -> I s a -> f x a = Some b -> I a b) -> for_each f l s = Some s' -> I s s'.
Proof.
  intros Hr Ht. induction l as [|x l IH]; intros s s' Hf E; [by simplify_eq/=|]. cbn [for_each] in E. destruct (f x s) as [s1|] eqn:E1; [|done]. cbn in E.
  assert (H1 : I s s1) by (apply (Hf x); [left|done..]). eapply Ht; [exact H1|]. eapply IH; [|exact E].
  intros y a b Hy Ha. apply Hf; [by right|]. by eapply Ht.
Qed.

Section Effects.
Context {D : DataPlane} {DOk : DataPlaneOk D}.
Implicit Types (s : TracingServiceImpl) (ts : TracingSession).

(** Nothing that a client can see has changed. *)
Definition as_before s s' : Prop :=
  tracing_sessions_ s' = tracing_sessions_ s /\ buffers_ s' = buffers_ s /\ consumers_ s' = consumers_ s /\ producers_ s' = producers_ s /\
  data_sources_ s' = data_sources_ s /\ tasks s' = tasks s /\ sent s' = sent s.

(** C6: when [EnableTracing] refuses a configuration, whatever the reason and however far
    it got (buffers that were already allocated included), the service is as it was: the
    same sessions, buffers, clients and data sources, no task is posted and no producer
    hears of it. *)
Theorem EnableTracing_rejected s c cfg fd created s' e
    (Hok : ok s) (Hc : is_Some (consumers_ s !! c)) (Hf : forall fc, cfg_trace_filter cfg = Some fc -> filter_config_ok fc) :
  EnableTracing c cfg fd created s = Some (s', Some e) ->
  ok s' /\ as_before s s'.
Proof.
  destruct Hok as [HC HS]. intros E. destruct (EnableTracing_ok [] s c cfg fd created HC HS Hc Hf) as (s1 & e1 & E1 & HC1 & HS1 & Hr).
  rewrite E in E1. simplify_eq. destruct (Hr ltac:(done)). split; [by split|]. by split_and!.
Qed.

(** ** Consumers that leave *)

(** A buffer is gone, and no producer may write into its identifier. *)
Definition buffer_gone (b : Z) s : Prop := buffers_ s !! b = None /\ forall p prod, producers_ s !! p = Some prod -> b ∉ allowed_target_buffers_ prod.

(** C7: a consumer that disconnects takes its session with it: the session and its buffers
    are gone, no producer may write into one of their identifiers any more, and the other
    sessions and consumers stay. *)
Theorem DisconnectConsumer_frees s c q ts
    (Hok : ok s) (Hq : consumers_ s !! c = Some q) (Hts : tracing_sessions_ s !! tracing_session_id_ q = Some ts) :
  exists s', DisconnectConsumer c s = Some s' /\ ok s' /\
    consumers_ s' = delete c (consumers_ s) /\ tracing_sessions_ s' = delete (tracing_session_id_ q) (tracing_sessions_ s) /\
    Forall (fun b => buffer_gone b s') (buffers_index ts).
Proof.
  destruct Hok as [HC HS]. destruct (DisconnectConsumer_ok [] s c HC HS ltac:(by eexists)) as (s' & E & HC' & HS'). exists s'. split; [done|]. split; [done|].
  assert (Hd : consumers_ s' = delete c (consumers_ s) /\ tracing_sessions_ s' = delete (tracing_session_id_ q) (tracing_sessions_ s)).
  { unfold DisconnectConsumer in E. rewrite Hq in E. cbn [mbind option_bind] in E. destruct (FreeBuffers_ok [] s _ ts HC HS Hts) as (s1 & E1 & Hcons & Hsess & _).
    destruct (Z.eqb_spec (tracing_session_id_ q) 0) as [Hz|_].
    { rewrite Hz in Hts. destruct (so_id _ _ _ _ (co_session _ _ HC 0 ts Hts)). lia. }
    rewrite E1 in E. cbn [mbind option_bind] in E. destruct (existsb _ _); [done|]. simplify_eq. cbn. by rewrite Hcons. }
  destruct Hd as [Hd1 Hd2]. split; [done|]. split; [done|]. apply Forall_forall. intros b Hb.
  assert (Hno : forall t' ts', tracing_sessions_ s' !! t' = Some ts' -> b ∉ buffers_index ts').
  { intros t' ts' E' Hb'. rewrite Hd2 in E'. apply lookup_delete_Some in E' as [Hne E']. apply Hne. by eapply (co_disjoint _ _ HC). }
  split.
  - destruct (buffers_ s' !! b) as [buf|] eqn:Eb; [|done]. destruct (co_owned _ _ HC' b buf Eb) as (_ & t' & ts' & Et & Hi). by destruct (Hno t' ts' Et).
  - intros p prod Ep Ha. destruct (po_allowed _ _ _ (co_producer _ _ HC' p prod Ep) b Ha) as (t' & ts' & Et & Hi & _). by destruct (Hno t' ts' Et).
Qed.

(** ** Commits *)

(** The buffer stays, and so does what the producer may write into. *)
Definition untouched (p b : Z) s s' : Prop :=
  buffers_ s' !! b = buffers_ s !! b /\ allowed_target_buffers_ <$> producers_ s' !! p = allowed_target_buffers_ <$> producers_ s !! p.

Lemma untouched_trans p b s1 s2 s3 : untouched p b s1 s2 -> untouched p b s2 s3 -> untouched p b s1 s3.
Proof. unfold untouched. intuition congruence. Qed.

Lemma copy_untouched p b w c target n flags complete src s s' q :
  producers_ s !! p = Some q -> b ∉ allowed_target_buffers_ q ->
  CopyProducerPageIntoLogBuffer p w c target n flags complete src s = Some s' -> untouched p b s s'.
Proof.
  intros Hq Hb E. unfold CopyProducerPageIntoLogBuffer, GetProducer, GetBufferByID in E. rewrite Hq in E.
  destruct (buffers_ s !! target) as [buf|]; [|by simplify_eq]. case_bool_decide as Ha; cbn [negb] in E; [|by simplify_eq].
  destruct (match writers_ q !! w with Some b => _ | None => _ end); [by simplify_eq|].
  destruct (CopyChunkUntrusted _ _ _ _ _ _ _ _ _); [|done]. simplify_eq/=. split; [|done]. cbn. apply lookup_insert_ne. by intros ->.
Qed.

Lemma move_untouched p b m s s' q : producers_ s !! p = Some q -> b ∉ allowed_target_buffers_ q -> move_chunk p m s = Some s' -> untouched p b s s'.
Proof.
  intros Hq Hb E. unfold move_chunk, GetProducer in E. rewrite Hq in E. cbn [mbind option_bind] in E. destruct (has_shm q) as [[shm page]|]; [|done]. cbn [mbind option_bind] in E.
  destruct (_ <=? _); [by simplify_eq|]. destruct (cm_data m) as [data|].
  - destruct (_ <? _); [by simplify_eq|]. destruct (MakeChunkFromSerializedData data); [|done]. by eapply copy_untouched.
  - destruct (list_find _ _) as [[i [k c]]|]; [|by simplify_eq]. destruct (sc_complete c); [|by simplify_eq].
    destruct (CopyProducerPageIntoLogBuffer _ _ _ _ _ _ _ _ s) as [s1|] eqn:E1; [|done]. cbn [mbind option_bind] in E.
    destruct (copy_untouched _ b _ _ _ _ _ _ _ _ _ _ Hq Hb E1) as [U1 U2]. destruct (producers_ s1 !! p) as [q1|] eqn:Eq1; [|done]. simplify_eq/=.
    split; [done|]. etrans; [|exact U2]. cbn. by rewrite lookup_insert_eq.
Qed.

Lemma patch_untouched p b c s s' : u16 (tp_target_buffer c) <> b -> apply_chunk_patches p c s = Some s' -> untouched p b s s'.
Proof.
  intros Hne E. unfold apply_chunk_patches, GetBufferByID in E. destruct (buffers_ s !! _) as [buf|]; [|by simplify_eq].
  destruct (_ || _); [by simplify_eq|]. destruct (_ <? _)%nat; [by simplify_eq|]. destruct (TryPatchChunkContents _ _ _ _ _ _); [|done]. simplify_eq/=.
  split; [|done]. cbn. by apply lookup_insert_ne.
Qed.

Lemma foldl_post_untouched {A} p b (f : A -> Task) l : forall s, untouched p b s (foldl (fun s x => post (f x) s) s l).
Proof. induction l as [|x l IH]; intros s; [done|]. cbn. eapply untouched_trans; [|apply IH]. done. Qed.

Lemma flush_done_untouched p b id s s' : NotifyFlushDoneForProducer p id s = Some s' -> untouched p b s s'.
Proof.
  apply (for_each_inv _ (untouched p b)); [done|apply untouched_trans|]. intros t a c _ _ E. destruct (tracing_sessions_ a !! t) as [ts|]; [|done]. cbn [mbind option_bind] in E.
  destruct (flush_done p id (pending_flushes ts)) as [l cbs]. simplify_eq/=. eapply untouched_trans; [|apply foldl_post_untouched]. done.
Qed.

(** A buffer that no patch of a commit is for. *)
Definition not_patched (b : Z) (req : CommitDataRequest) : Prop := Forall (fun c => u16 (tp_target_buffer c) <> b) (chunks_to_patch req).

(** C4: a commit of a producer, whatever it names, changes no buffer that the producer was
    not set up to write into and that its patches do not name. *)
Theorem CommitData_isolated s p req s' q b
    (Hq : producers_ s !! p = Some q) (Hb : b ∉ allowed_target_buffers_ q) (Hp : not_patched b req) :
  CommitData p req s = Some s' -> buffers_ s' !! b = buffers_ s !! b.
Proof.
  intros E. unfold CommitData, GetProducer in E. rewrite Hq in E. cbn [mbind option_bind] in E. destruct (has_shm q); [|by simplify_eq].
  destruct (for_each (move_chunk p) (chunks_to_move req) s) as [s1|] eqn:E1; [|done]. cbn [mbind option_bind] in E.
  destruct (ApplyChunkPatches p (chunks_to_patch req) s1) as [s2|] eqn:E2; [|done]. cbn [mbind option_bind] in E.
  assert (U1 : untouched p b s s1).
  { revert E1. apply (for_each_inv _ (untouched p b)); [done|apply untouched_trans|]. intros m a a' _ [_ Ha] Em. rewrite Hq in Ha. destruct (producers_ a !! p) as [qa|] eqn:Eqa; [|done].
    eapply move_untouched; [exact Eqa| |exact Em]. cbn in Ha. congruence. }
  assert (U2 : untouched p b s1 s2).
  { revert E2. apply (for_each_inv _ (untouched p b)); [done|apply untouched_trans|]. intros c a a' Hc _. apply patch_untouched. unfold not_patched in Hp. rewrite Forall_forall in Hp. by apply Hp. }
  assert (U3 : untouched p b s2 s') by (destruct (negb _); [by eapply flush_done_untouched|by simplify_eq]).
  apply (untouched_trans p b s s2 s'); [by eapply untouched_trans|done].
Qed.

(** ** Sessions that are stopped *)

Lemma copy_sessions p w c target n flags complete src s s' :
  CopyProducerPageIntoLogBuffer p w c target n flags complete src s = Some s' -> tracing_sessions_ s' = tracing_sessions_ s.
Proof.
  unfold CopyProducerPageIntoLogBuffer. intros E. destruct (GetProducer s p) as [q|], (GetBufferByID s target) as [buf|]; try by simplify_eq.
  destruct (negb _); [by simplify_eq|]. destruct (match writers_ q !! w with Some b => _ | None => _ end); [by simplify_eq|].
  destruct (CopyChunkUntrusted _ _ _ _ _ _ _ _ _); by simplify_eq/=.
Qed.

Lemma scrape_sessions t s s' : scrape_all_producers t s = Some s' -> tracing_sessions_ s' = tracing_sessions_ s.
Proof.
  apply (for_each_inv _ (fun a b => tracing_sessions_ b = tracing_sessions_ a)); [done|congruence|]. intros p a b _ _ E. unfold ScrapeSharedMemoryBuffers in E.
  destruct (GetProducer a p) as [q|]; [|done]. cbn [mbind option_bind] in E. destruct (tracing_sessions_ a !! t) as [ts|]; [|done]. cbn [mbind option_bind] in E.
  destruct (_ || _); [by simplify_eq|]. destruct (negb _); [by simplify_eq|]. revert E.
  apply (for_each_inv _ (fun a b => tracing_sessions_ b = tracing_sessions_ a)); [done|congruence|]. intros c a' b' _ _ E. unfold scrape_chunk in E.
  destruct (_ && _); [by simplify_eq|]. destruct (writers_ q !! _); [|by simplify_eq]. destruct (negb _); [by simplify_eq|]. by eapply copy_sessions.
Qed.

Lemma Notify_last extra s t ts c s' :
  core extra s -> tracing_sessions_ s !! t = Some ts -> state ts <> CLONED_READ_ONLY -> consumer_maybe_null ts = Some c ->
  DisableTracingNotifyConsumerAndFlushFile t s = Some s' -> last (sent s') = Some (ConsumerOnTracingDisabled c t None).
Proof.
  intros HC E Hcl Hc H. unfold DisableTracingNotifyConsumerAndFlushFile in H. rewrite E in H. cbn [mbind option_bind] in H.
  case_decide as Hd; [done|]. destruct (stop_all_now_ok extra s t ts HC E) as (s1 & ts1 & E1 & F1 & Et1 & _). rewrite E1 in H. cbn [mbind option_bind] in H.
  rewrite Et1 in H. cbn [mbind option_bind] in H. destruct (frame_session_fwd _ _ _ _ _ F1 E) as (ts1' & Et1' & Hf). rewrite Et1 in Et1'. simplify_eq.
  destruct (scrape_all_producers t _) as [s2|] eqn:E2; [|done]. apply scrape_sessions in E2. cbn [mbind option_bind] in H.
  rewrite E2 in H. cbn in H. rewrite lookup_insert_eq in H. cbn [mbind option_bind] in H. destruct (if write_into_file _ then _ else _) as [s3|]; [|done]. cbn in H.
  rewrite (sf_consumer _ _ Hf), Hc in H. unfold NotifyOnTracingDisabled in H. destruct (consumers_ s3 !! c); [|done]. simplify_eq/=. by rewrite last_snoc.
Qed.

Lemma disable_running_timeout extra s t ts now s' ts' :
  core extra s -> tracing_sessions_ s !! t = Some ts -> Forall running_inst (states ts) -> state ts = CONFIGURED \/ state ts = STARTED ->
  disable_running t now s = Some s' -> tracing_sessions_ s' !! t = Some ts' -> state ts' <> DISABLED -> TDisableTracingTimeout t ∈ tasks s'.
Proof.
  intros HC Ht Hr Hst E Ht' Hd. unfold disable_running in E. rewrite Ht in E. cbn [mbind option_bind] in E.
  destruct (disable_all_ok extra s t ts now HC Ht Hr) as (s1 & ts1 & E1 & F1 & Et1 & A1 & _). rewrite E1 in E. cbn [mbind option_bind] in E.
  rewrite Et1 in E. cbn [mbind option_bind] in E. destruct (AllDataSourceInstancesStopped _).
  - exfalso. apply Hd. destruct (DisableTracingNotify_ok extra (upd_session t (set_snapshot_running false ts1) s1) t (set_snapshot_running false ts1)) as (s2 & ts2 & E2 & _ & Et2 & Hdis).
    + eapply (core_frame _ t); [exact HC|]. eapply frame_trans; [exact F1|]. eapply frame_upd; [exact Et1|]. sess_id ts1.
    + cbn. by rewrite lookup_insert_eq.
    + cbn. rewrite A1. by destruct Hst as [-> | ->].
    + cbn. rewrite A1. by destruct Hst as [-> | ->].
    + rewrite E in E2. simplify_eq. apply Hdis.
  - simplify_eq/=. apply elem_of_app. right. by left.
Qed.

(** A session has ended, and its consumer is told. *)
Definition session_ended (t : Z) (consumer : option nat) s : Prop :=
  exists ts, tracing_sessions_ s !! t = Some ts /\ state ts = DISABLED /\ AllDataSourceInstancesStopped ts = true /\
    forall c, consumer = Some c -> last (sent s) = Some (ConsumerOnTracingDisabled c t None).

(** C5: a session that is told to stop ends. [DisableTracing] disables it at once or posts
    the timeout that does; when the timeout runs in a state where data sources have still
    not stopped, whatever happened in between, the session is disabled, all its data
    sources count as stopped, and its consumer is told. *)
Theorem DisableTracing_ends s t ts (Hok : ok s) (Hts : tracing_sessions_ s !! t = Some ts) :
  (state ts = CONFIGURED \/ state ts = STARTED -> exists s' ts', DisableTracing t false s = Some s' /\ tracing_sessions_ s' !! t = Some ts' /\
    (state ts' = DISABLED \/ state ts' = DISABLING_WAITING_STOP_ACKS /\ TDisableTracingTimeout t ∈ tasks s')) /\
  (state ts = DISABLING_WAITING_STOP_ACKS -> exists s', run_task (TDisableTracingTimeout t) s = Some s' /\ session_ended t (consumer_maybe_null ts) s').
Proof.
  destruct Hok as [HC HS]. pose proof (HS t ts (not_elem_of_empty _) Hts) as Hi. split; intros Hst.
  - destruct (DisableTracing_ok [] s t ts false HC Hts Hi) as (s' & ts' & E & F & Et & _ & _ & Hend). exists s', ts'. split; [done|]. split; [done|].
    destruct (frame_session_fwd _ _ _ _ _ F Hts) as (ts0 & Et0 & Hf). rewrite Et in Et0. simplify_eq.
    destruct Hend as [Hcl|[Hd|[_ Hd]]]; [apply (sf_cloned _ _ Hf) in Hcl; rewrite Hcl in Hst; by destruct Hst|by left|]. right. split; [done|].
    assert (Hr : exists now, disable_running t now s = Some s').
    { unfold DisableTracing in E. rewrite (GetTracingSession_core []), Hts in E by done. destruct Hst as [Hst|Hst]; rewrite Hst in E; by eexists. }
    destruct Hr as [now Hr]. eapply (disable_running_timeout [] s t ts now); try done; [by eapply inst_ok_running|by rewrite Hd].
  - cbn [run_task]. unfold OnDisableTracingTimeout. rewrite (GetTracingSession_core []), Hts, Hst by done. rewrite Hst in Hi.
    assert (Ha : AllDataSourceInstancesStopped ts = false).
    { apply not_true_iff_false. rewrite AllStopped_spec, Forall_forall. intros Ha. destruct Hi as [_ Hi]. by apply Ha in Hi. }
    rewrite Ha. destruct (DisableTracingNotify_ok [] s t ts HC Hts) as (s' & ts' & E & _ & Et & (D1 & D2 & _)); [by rewrite Hst..|]. exists s'. rewrite E.
    split; [done|]. exists ts'. split; [done|]. split; [done|]. split; [by apply AllStopped_spec|]. intros c Hc. eapply (Notify_last [] s t ts); try done. by rewrite Hst.
Qed.

(** ** Calls that abort the service *)

(** A session of the uid that a consumer is attached to. *)
Definition attached_uid s (uid : Z) : Prop := exists t ts, tracing_sessions_ s !! t = Some ts /\ consumer_uid ts = uid /\ consumer_maybe_null ts <> None.

(** Sessions without a consumer have a key. *)
Definition detached_keyed s : Prop := forall t ts, tracing_sessions_ s !! t = Some ts -> consumer_maybe_null ts = None -> detach_key ts <> EmptyString.

(** The empty key is the key of every attached session, on which the lookup fails a check. *)
Lemma find_empty_key s uid : ok s -> detached_keyed s -> GetDetachedSession s uid EmptyString = None <-> attached_uid s uid.
Proof.
  intros [HC _] Hk. unfold GetDetachedSession.
  assert (Hl : forall l, (forall t, t ∈ l -> is_Some (tracing_sessions_ s !! t)) -> find_detached l s uid EmptyString = None <->
    exists t ts, t ∈ l /\ tracing_sessions_ s !! t = Some ts /\ consumer_uid ts = uid /\ consumer_maybe_null ts <> None).
  { induction l as [|t l IH]; intros Hin; [split; [done|]; intros (t & ts & Hx & _); by apply not_elem_of_nil in Hx|].
    destruct (Hin t ltac:(left)) as [ts E]. cbn [find_detached]. rewrite E. cbn [mbind option_bind].
    destruct (Z.eqb_spec (consumer_uid ts) uid) as [Hu|Hu]; cbn [andb].
    - destruct (consumer_maybe_null ts) as [c|] eqn:Ec.
      + rewrite bool_decide_true by (by apply (so_consumer _ _ _ _ (co_session _ _ HC t ts E) c)). split; [|done]. intros _. exists t, ts. rewrite Ec. split; [left|done].
      + rewrite bool_decide_false by (by apply (Hk t)). rewrite IH by (intros; apply Hin; by right). split; intros (t' & ts' & Hx & E' & Hr); exists t', ts'; (split; [|done]); [by right|].
        apply elem_of_cons in Hx as [->|Hx]; [|done]. rewrite E in E'. simplify_eq. rewrite Ec in Hr. by destruct Hr.
    - rewrite IH by (intros; apply Hin; by right). split; intros (t' & ts' & Hx & E' & Hr); exists t', ts'; (split; [|done]); [by right|].
      apply elem_of_cons in Hx as [->|Hx]; [|done]. rewrite E in E'. simplify_eq. by destruct Hr. }
  rewrite Hl by (intros t Ht; by apply elem_of_map_keys). split; intros (t & ts & Hx); [exists t, ts; apply Hx|].
  exists t, ts. split; [|apply Hx]. apply elem_of_map_keys. exists ts. apply Hx.
Qed.

Lemma attach_aborts s c q key : ok s -> consumers_ s !! c = Some q -> detached_keyed s ->
  consumer_call c (CallAttach key) s = None <-> key = EmptyString /\ tracing_session_id_ q = 0 /\ attached_uid s (c_uid q).
Proof.
  intros Hok Eq Hk. destruct (decide (key = EmptyString)) as [->|Hne]; cycle 1.
  { destruct (consumer_call_finishes [] s c (CallAttach key) (proj1 Hok) (proj2 Hok) ltac:(by eexists) Hne) as (s' & -> & _). split; [done|]. by intros []. }
  rewrite <- (find_empty_key s (c_uid q)) by done. unfold consumer_call, AttachConsumer. rewrite Eq. cbn [mbind option_bind].
  destruct (Z.eqb_spec (tracing_session_id_ q) 0) as [Hz|Hz]; cbn [negb]; [|by split; [|intros (_ & ? & _)]].
  destruct (GetDetachedSession s (c_uid q) EmptyString) as [[t|]|] eqn:Ed; cbn [mbind option_bind]; [|by split; [|intros (_ & _ & ?)]|by split].
  assert (Ht : is_Some (tracing_sessions_ s !! t)).
  { revert Ed. unfold GetDetachedSession. induction (map_keys (tracing_sessions_ s)) as [|t' l IH]; [done|]. cbn [find_detached].
    destruct (tracing_sessions_ s !! t') as [ts|] eqn:Et; [|done]. cbn [mbind option_bind]. destruct (_ && _); [|done]. destruct (consumer_maybe_null ts); [done|]. intros [= ->]. by eexists. }
  destruct Ht as [ts ->]. by split; [|intros (_ & _ & ?)].
Qed.

Lemma detach_aborts s c q key : ok s -> consumers_ s !! c = Some q -> detached_keyed s ->
  consumer_call c (CallDetach key) s = None <-> key = EmptyString /\ tracing_session_id_ q <> 0 /\ attached_uid s (c_uid q).
Proof.
  intros Hok Eq Hk. destruct (decide (key = EmptyString)) as [->|Hne]; cycle 1.
  { destruct (consumer_call_finishes [] s c (CallDetach key) (proj1 Hok) (proj2 Hok) ltac:(by eexists) Hne) as (s' & -> & _). split; [done|]. by intros []. }
  rewrite <- (find_empty_key s (c_uid q)) by done. unfold consumer_call, DetachConsumer. rewrite Eq. cbn [mbind option_bind].
  rewrite (GetTracingSession_core []) by apply Hok. destruct (co_consumer _ _ (proj1 Hok) c q Eq) as [_ [Hz|(ts & Et & Hc)]].
  - rewrite Hz. destruct (tracing_sessions_ s !! 0) as [ts|] eqn:E0; [|by split; [|intros (_ & ? & _)]]. destruct (so_id _ _ _ _ (co_session _ _ (proj1 Hok) 0 ts E0)). lia.
  - rewrite Et. pose proof (so_id _ _ _ _ (co_session _ _ (proj1 Hok) _ ts Et)).
    destruct (GetDetachedSession s (c_uid q) EmptyString) as [[t|]|]; cbn [mbind option_bind]; [by split; [|intros (_ & _ & ?)]| |split; [intros _; split_and!; [done|lia|done]|done]].
    rewrite decide_True by done. by split; [|intros (_ & _ & ?)].
Qed.

Lemma ipc_chunk_aborts s p q shm page m data : ok s -> producers_ s !! p = Some q -> has_shm q = Some (shm, page) ->
  cm_data m = Some data -> cm_page m < shm / page -> bytes_ok data -> data = [] \/ 8 <= Z.of_nat (length data) ->
  producer_call p (CallCommitData (mkCommit [m] [] 0)) s = None <-> data = [] \/ Z.of_nat (length data) = kChunkMaxSize.
Proof.
  intros Hok Eq Hs Hd Hpg Hb Hlen. destruct (decide (data = [] \/ Z.of_nat (length data) = kChunkMaxSize)) as [Hz|Hz].
  - split; [done|intros _]. cbn. unfold CommitData, GetProducer. rewrite Eq. cbn [mbind option_bind]. rewrite Hs. cbn [chunks_to_move for_each].
    unfold move_chunk at 1, GetProducer. rewrite Eq. cbn [mbind option_bind]. rewrite Hs. cbn [mbind option_bind]. rewrite (proj2 (Z.leb_gt _ _)) by lia. rewrite Hd.
    assert (Hu : u16 (Z.of_nat (length data)) = 0) by (by destruct Hz as [-> | ->]). rewrite (proj2 (Z.ltb_ge _ _)) by (destruct Hz as [-> |]; [done|lia]).
    unfold MakeChunkFromSerializedData. by rewrite Hu.
  - split; [|done]. destruct (producer_call_finishes [] s p (CallCommitData (mkCommit [m] [] 0)) (proj1 Hok) (proj2 Hok)) as (s' & -> & _); [by eexists| |done].
    split; [|done]. apply Forall_singleton. rewrite Hd. split; [done|]. split; [by destruct Hlen; [destruct Hz; left|]|]. intros Hx. apply Hz. by right.
Qed.

(** What a patch has to be like to reach the buffer. *)
Definition patch_reaches (c : ChunkToPatch) : Prop :=
  0 < u16 (tp_writer_id c) <= kMaxWriterID /\ (length (tp_patches c) <= kMaxPatches)%nat.

Lemma patch_aborts s p q c : ok s -> producers_ s !! p = Some q -> is_Some (has_shm q) -> Forall (fun x => is_u64 x.1 /\ bytes_ok x.2) (tp_patches c) ->
  producer_call p (CallCommitData (mkCommit [] [c] 0)) s = None <->
    patch_reaches c /\ exists buf, buffers_ s !! u16 (tp_target_buffer c) = Some buf /\ read_only buf = true.
Proof.
  intros Hok Eq [shm Hs] Hb.
  assert (Hfin : writable s (u16 (tp_target_buffer c)) -> producer_call p (CallCommitData (mkCommit [] [c] 0)) s <> None).
  { intros Hw. destruct (producer_call_finishes [] s p (CallCommitData (mkCommit [] [c] 0)) (proj1 Hok) (proj2 Hok)) as (s' & -> & _); [by eexists| |done].
    split; [done|]. by apply Forall_singleton. }
  destruct (buffers_ s !! u16 (tp_target_buffer c)) as [buf|] eqn:Ebuf; cycle 1.
  { split; [intros Hn; destruct Hfin; [|done]; intros ? ?; congruence|]. by intros (_ & buf & ? & _). }
  destruct (read_only buf) eqn:Er; cycle 1.
  { split; [intros Hn; destruct Hfin; [|done]; intros ? ?; congruence|]. intros (_ & buf' & E' & Hr). congruence. }
  cbn. unfold CommitData, GetProducer. rewrite Eq. cbn [mbind option_bind]. rewrite Hs. cbn [chunks_to_move chunks_to_patch for_each mbind option_bind ApplyChunkPatches].
  unfold apply_chunk_patches at 1, GetBufferByID. rewrite Ebuf. pose proof (Z.mod_pos_bound (tp_writer_id c) (2 ^ 16) ltac:(done)) as Hw.
  change (tp_writer_id c mod 2 ^ 16) with (u16 (tp_writer_id c)) in Hw. unfold patch_reaches.
  destruct (Z.eqb_spec (u16 (tp_writer_id c)) 0) as [H0|H0]; cbn [orb mbind option_bind]; [split; [done|]; intros ((? & _) & _); lia|].
  destruct (Z.ltb_spec kMaxWriterID (u16 (tp_writer_id c))) as [H1|H1]; cbn [mbind option_bind]; [split; [done|]; intros ((? & _) & _); lia|].
  destruct (Nat.ltb_spec kMaxPatches (length (tp_patches c))) as [H2|H2]; cbn [mbind option_bind]; [split; [done|]; intros ((_ & ?) & _); lia|].
  rewrite dp_patch_read_only by done. cbn [mbind option_bind]. split; [|done]. intros _. split; [split; [lia|done]|]. by exists buf.
Qed.

End Effects.

(** ** States for the contracts *)

(** A state that is reached by calls that are safe in every state. *)
Lemma reached_ok {D : DataPlane} {DOk : DataPlaneOk D} (ops : list ServiceOp) :
  Forall (fun o => forall s, op_ok s o) ops -> exists s, outcome ops = Some s /\ ok s.
Proof.
  intros Ho. destruct (TracingServiceImpl_new_ok 0 false) as (s0 & E0 & H0). unfold outcome. rewrite E0. cbn [mbind option_bind].
  by apply service_run_ok; [|apply ops_ok_always].
Qed.

(** A configuration for another data source; the one of the producer now says when it has
    stopped. *)
Definition other_config {D : DataPlane} : TraceConfig :=
  set_data_sources [mkDataSource (mkDsConfig "other" 0 0 0 false 0) [] []] (example_trace_config None).
Definition two_sessions {D : DataPlane} : list ServiceOp :=
  [OpMemory (2 ^ 20); OpConnectConsumer 1000; OpConnectConsumer 1001; OpConnectProducer (mkIdentity 1000 42 0) "producer" 0 0 None None;
   OpProducer 1 (CallRegisterDataSource (mkDescriptor "src" 1 false true false false));
   OpConsumer 0 (CallEnableTracing (example_trace_config None) false false); OpConsumer 1 (CallEnableTracing other_config false false)].

(** The first consumer stops its session. *)
Definition stopping_ops {D : DataPlane} : list ServiceOp := two_sessions ++ [OpConsumer 0 CallDisableTracing].

Lemma stopping_ops_ok {D : DataPlane} {DOk : DataPlaneOk D} n : Forall (fun o => forall s, op_ok s o) (take n stopping_ops).
Proof. apply Forall_take. repeat (apply Forall_cons; split; [intros s|]); done. Qed.

(** The first session has buffer 1 and the second buffer 2, and the producer may only write
    into the first. *)
Definition two_sessions_state {D : DataPlane} (st : SessionState) (s : TracingServiceImpl) : Prop :=
  match consumers_ s !! 0%nat, tracing_sessions_ s !! 1, producers_ s !! 1 with
  | Some q, Some ts, Some prod => tracing_session_id_ q = 1 /\ buffers_index ts = [1] /\ state ts = st /\ consumer_maybe_null ts = Some 0%nat /\
      elements (allowed_target_buffers_ prod) = [1] /\ map_keys (buffers_ s) = [1; 2]
  | _, _, _ => False
  end.

Lemma stopping_eval n fuel rounds name_match :
  n = 7%nat \/ n = 8%nat ->
  match @outcome (@service_plane example_host prefix_regex prefix_Regex fuel rounds name_match) (take n stopping_ops) with
  | Some s => two_sessions_state (if (n =? 7)%nat then STARTED else DISABLING_WAITING_STOP_ACKS) s
  | None => False
  end.
Proof. intros [-> | ->]; vm_compute; by split_and!. Qed.

Lemma stopping_full n :
  n = 7%nat \/ n = 8%nat -> exists s, @ok full_plane full_plane_ok s /\ two_sessions_state (if (n =? 7)%nat then STARTED else DISABLING_WAITING_STOP_ACKS) s.
Proof.
  intros Hn. destruct (reached_ok _ (@stopping_ops_ok full_plane full_plane_ok n)) as (s & E & Hs). exists s. split; [exact Hs|].
  pose proof (stopping_eval n full_fuel full_rounds (fun _ _ => false) Hn) as He. unfold full_plane in E. rewrite E in He. exact He.
Qed.

(** With no memory for its buffer, a session is refused after an identifier was allocated. *)
Lemma no_memory_eval {D : DataPlane} :
  match outcome [OpConnectConsumer 1000] with
  | Some s =>
      is_Some (consumers_ s !! 0%nat) /\
      match EnableTracing 0 (example_trace_config None) false false s with Some (_, Some e) => e = BufferAllocationFailed | _ => False end
  | None => False
  end.
Proof. vm_compute. split; [by eexists|done]. Qed.

Lemma EnableTracing_rejected_witness :
  exists s s', @EnableTracing full_plane 0 (example_trace_config None) false false s = Some (s', Some BufferAllocationFailed) /\ buffers_ s' = buffers_ s.
Proof.
  destruct (reached_ok (DOk := full_plane_ok) [OpConnectConsumer 1000]) as (s & E & Hs); [by apply Forall_singleton|].
  pose proof (@no_memory_eval full_plane) as He. rewrite E in He. destruct He as [Hc He].
  destruct (EnableTracing 0 (example_trace_config None) false false s) as [[s' [e|]]|] eqn:Ee; [|done..]. rewrite He in Ee. exists s, s'. split; [exact Ee|].
  exact (proj1 (proj2 (proj2 (EnableTracing_rejected s 0 (example_trace_config None) false false s' _ Hs Hc ltac:(done) Ee)))).
Defined.

Lemma DisconnectConsumer_frees_witness :
  exists s s' : @TracingServiceImpl full_plane, DisconnectConsumer 0 s = Some s' /\ map_keys (buffers_ s) = [1; 2] /\ buffers_ s' !! 1 = None.
Proof.
  destruct (stopping_full 7 ltac:(by left)) as (s & Hs & He). unfold two_sessions_state in He.
  destruct (consumers_ s !! 0%nat) as [q|] eqn:Eq, (tracing_sessions_ s !! 1) as [ts|] eqn:Et, (producers_ s !! 1) as [prod|]; try done.
  destruct He as (Hq & Hb & _ & _ & _ & Hk). rewrite <- Hq in Et. destruct (DisconnectConsumer_frees s 0 q ts Hs Eq Et) as (s' & E & _ & _ & _ & Hf).
  exists s, s'. split; [exact E|]. split; [exact Hk|]. rewrite Hb, Forall_singleton in Hf. apply Hf.
Defined.

(** A chunk for the buffer of the other session. *)
Definition stray_commit : CommitDataRequest := mkCommit [mkMove 0 0 2 (Some [0; 0; 0; 0; 7; 0; 1; 0; 2; 0x08; 0x01])] [] 0.

Lemma CommitData_isolated_witness :
  exists s s' : @TracingServiceImpl full_plane, CommitData 1 stray_commit s = Some s' /\ map_keys (buffers_ s) = [1; 2] /\ buffers_ s' !! 2 = buffers_ s !! 2.
Proof.
  destruct (stopping_full 7 ltac:(by left)) as (s & Hs & He). unfold two_sessions_state in He.
  destruct (consumers_ s !! 0%nat) as [q|], (tracing_sessions_ s !! 1) as [ts|], (producers_ s !! 1) as [prod|] eqn:Ep; try done.
  destruct He as (_ & _ & _ & _ & Ha & Hk). destruct (CommitData_ok [] s 1 stray_commit (proj1 Hs) (proj2 Hs)) as (s' & E & _); [by eexists| |].
  { split; [|done]. apply Forall_singleton. split; [|done]. repeat (apply Forall_cons; split; [done|]). done. }
  exists s, s'. split; [exact E|]. split; [exact Hk|]. apply (CommitData_isolated s 1 stray_commit s' prod 2 Ep); [|constructor|exact E].
  rewrite <- elem_of_elements, Ha. set_solver.
Defined.

Lemma DisableTracing_ends_witness :
  exists s s' : @TracingServiceImpl full_plane, run_task (TDisableTracingTimeout 1) s = Some s' /\ last (sent s') = Some (ConsumerOnTracingDisabled 0%nat 1 None).
Proof.
  destruct (stopping_full 8 ltac:(by right)) as (s & Hs & He). unfold two_sessions_state in He.
  destruct (consumers_ s !! 0%nat) as [q|], (tracing_sessions_ s !! 1) as [ts|] eqn:Et, (producers_ s !! 1) as [prod|]; try done.
  destruct He as (_ & _ & Hst & Hc & _). destruct (proj2 (DisableTracing_ends s 1 ts Hs Et) Hst) as (s' & E & ts' & _ & _ & _ & Hl).
  exists s, s'. split; [exact E|]. by apply Hl.
Defined.

(** Two sessions with consumers, a producer with shared memory, and no detached session. *)
Definition attached_state {D : DataPlane} (s : TracingServiceImpl) : Prop :=
  match consumers_ s !! 0%nat, tracing_sessions_ s !! 1, producers_ s !! 1 with
  | Some q, Some ts, Some prod =>
      tracing_session_id_ q = 1 /\ consumer_uid ts = c_uid q /\ consumer_maybe_null ts = Some 0%nat /\ has_shm prod = Some (kDefaultShmSize, kDefaultShmPageSize) /\
      forallb (fun x => bool_decide (is_Some (consumer_maybe_null x.2))) (map_to_list (tracing_sessions_ s)) = true
  | _, _, _ => False
  end.

Lemma attached_eval fuel rounds name_match :
  match @outcome (@service_plane example_host prefix_regex prefix_Regex fuel rounds name_match) two_sessions with Some s => attached_state s | None => False end.
Proof. vm_compute. by split_and!. Qed.

