(* ===== verification/FlatHashMap.v ===== *)
(** * The open-addressing hash map

    Models [include/dejaview/ext/base/flat_hash_map.h]: tags, keys and values in
    three arrays of a power-of-two size, a probe sequence chosen by a template
    argument, tombstones for erased entries, and growth with rehashing. The hash
    function, the probe, [AppendOnly] and the size of an entry are parameters, as they
    are template parameters of the class. A key or value slot that holds no object
    is [None]: reading one, or an access outside an array, or a failed check is
    [None]. *)

From S2P Require Import Prelude.

(** ** Probes *)

Inductive Probe := LinearProbe | QuadraticProbe | QuadraticHalfProbe.

Definition Calc (p : Probe) (key_hash step capacity : Z) : Z :=
  let mask := u64 (capacity - 1) in
  match p with
  | LinearProbe => u64 (key_hash + step) .& mask
  | QuadraticProbe => u64 (key_hash + 2 * step * step + step) .& mask
  | QuadraticHalfProbe => u64 (key_hash + u64 (step * step + step) / 2) .& mask
  end.

Definition kFreeSlot : Z := 0.
Definition kTombstone : Z := 1.

Definition HashToTag (full_hash : Z) : Z :=
  let tag := u8 (full_hash >> (8 * 8 - 8)) in
  u8 (tag + (if tag <=? kTombstone then 1 else 0) << 1).

Definition is_pow2 (n : Z) : bool := (n .& u64 (n - 1)) =? 0.

(** What the template arguments determine. *)
Class MapParams (K V : Type) := {
  hasher : K -> Z;
  probe : Probe;
  append_only : bool;
  sizeof_entry : Z;
  default_value : V }.

Section Map.
Context {K V : Type} `{EqDecision K} `{!MapParams K V}.

Record FlatHashMap := mkMap {
  capacity_ : Z; size_ : Z; max_probe_length_ : Z; load_limit_ : Z; load_limit_percent_ : Z;
  tags_ : list Z; keys_ : list (option K); values_ : list (option V) }.

Implicit Types m : FlatHashMap.

Definition key_at m (idx : Z) : option K := mjoin (keys_ m !! Z.to_nat idx).
Definition value_at m (idx : Z) : option V := mjoin (values_ m !! Z.to_nat idx).

(** [static_cast<size_t>] of a percentage that is not negative. *)
Definition Reset m (n : Z) : option FlatHashMap :=
  if is_pow2 n then
    let load_limit := u64 (n * load_limit_percent_ m) / 100 in
    Some (mkMap n 0 0 (Z.min load_limit n) (load_limit_percent_ m)
            (replicate (Z.to_nat n) 0) (replicate (Z.to_nat n) None) (replicate (Z.to_nat n) None))
  else None.

Definition kDefaultLoadLimitPct : Z := 75.

Definition FlatHashMap_new (initial_capacity load_limit_pct : Z) : option FlatHashMap :=
  let m := mkMap 0 0 0 0 load_limit_pct [] [] [] in
  if 0 <? initial_capacity then Reset m initial_capacity else Some m.

(** *** Insertion *)

(** Where the search for a key ended. *)
Inductive Found :=
  | Existing (idx : Z)
  | Missing (insertion_slot : option Z) (probe_len : Z).

(** The inner loop of [Insert]; [n] is [capacity_ - probe_len]. *)
Fixpoint insert_probe (n : nat) m (key : K) (tag probe_len : Z) (insertion_slot : option Z) : option Found :=
  match n with
  | O => Some (Missing insertion_slot probe_len)
  | S n =>
      let idx := Calc probe (hasher key) probe_len (capacity_ m) in
      if idx <? capacity_ m then
        tag_idx ← tags_ m !! Z.to_nat idx;
        let probe_len := probe_len + 1 in
        if tag_idx =? kFreeSlot then
          Some (Missing (if append_only || bool_decide (insertion_slot = None) then Some idx else insertion_slot) probe_len)
        else if (tag_idx =? kTombstone) && append_only then None
        else if negb append_only && (tag_idx =? kTombstone) then insert_probe n m key tag probe_len (Some idx)
        else if tag_idx =? tag then
          k ← key_at m idx;
          if decide (k = key) then Some (Existing idx) else insert_probe n m key tag probe_len insertion_slot
        else insert_probe n m key tag probe_len insertion_slot
      else None
  end.

(** The loop of [MaybeGrowAndRehash] over the old arrays from index [i] on, with
    [Insert] as an argument; it returns the map and the number of entries. *)
Fixpoint rehash_loop (insert : FlatHashMap -> K -> V -> option FlatHashMap) (old : FlatHashMap) (n : nat) (i : Z)
    (m : FlatHashMap) (new_size : Z) : option (FlatHashMap * Z) :=
  match n with
  | O => Some (m, new_size)
  | S n =>
      old_tag ← tags_ old !! Z.to_nat i;
      if negb (old_tag =? kFreeSlot) && negb (old_tag =? kTombstone) then
        k ← key_at old i;
        v ← value_at old i;
        m ← insert m k v;
        rehash_loop insert old n (i + 1) m (new_size + 1)
      else rehash_loop insert old n (i + 1) m new_size
  end.

Definition set_size m (n : Z) : FlatHashMap :=
  mkMap (capacity_ m) n (max_probe_length_ m) (load_limit_ m) (load_limit_percent_ m) (tags_ m) (keys_ m) (values_ m).

Definition MaybeGrowAndRehash (insert : FlatHashMap -> K -> V -> option FlatHashMap) m (grow : bool) : option FlatHashMap :=
  if size_ m <=? capacity_ m then
    let old_capacity := capacity_ m in
    let old_size_bytes := u64 (old_capacity * sizeof_entry) in
    let grow_factor := if old_size_bytes <? 1024 * 1024 then 8 else 2 in
    let new_capacity := if grow then Z.max (u64 (old_capacity * grow_factor)) 1024 else old_capacity in
    if old_capacity <=? new_capacity then
      m1 ← Reset m new_capacity;
      '(m1, new_size) ← rehash_loop insert m (Z.to_nat old_capacity) 0 m1 0;
      if new_size =? size_ m then Some (set_size m1 new_size) else None
    else None
  else None.

(** The end of [Insert]: the entry is put into its slot. *)
Definition insert_at m (key : K) (value : V) (tag insertion_slot probe_len : Z) : option FlatHashMap :=
  if insertion_slot <? capacity_ m then
    if (0 <? probe_len) && (probe_len <=? capacity_ m) then
      let i := Z.to_nat insertion_slot in
      Some (mkMap (capacity_ m) (size_ m + 1) (Z.max (max_probe_length_ m) probe_len) (load_limit_ m) (load_limit_percent_ m)
              (<[i := tag]> (tags_ m)) (<[i := Some key]> (keys_ m)) (<[i := Some value]> (values_ m)))
    else None
  else None.

(** [Insert], with a bound on the attempts, which includes those of the insertions
    that a growth makes. *)
Fixpoint Insert_loop (attempts : nat) m (key : K) (value : V) : option (FlatHashMap * Z * bool) :=
  match attempts with
  | O => None
  | S attempts =>
      let tag := HashToTag (hasher key) in
      if is_pow2 (capacity_ m) then
        found ← insert_probe (Z.to_nat (capacity_ m)) m key tag 0 None;
        match found with
        | Existing idx => Some (m, idx, false)
        | Missing insertion_slot probe_len =>
            if load_limit_ m <=? size_ m then
              m ← MaybeGrowAndRehash (fun m k v => '(m, _, _) ← Insert_loop attempts m k v; Some m) m true;
              Insert_loop attempts m key value
            else
              s ← insertion_slot;
              m ← insert_at m key value tag s probe_len;
              Some (m, s, true)
        end
      else None
  end.

(** Two attempts are enough. *)
Definition Insert m (key : K) (value : V) : option (FlatHashMap * Z * bool) := Insert_loop 2 m key value.

(** *** Lookup and removal *)

(** The loop of [FindInternal]; [n] is [max_probe_length_ - i]. *)
Fixpoint find_loop (n : nat) m (key : K) (tag i : Z) : option (option Z) :=
  match n with
  | O => Some None
  | S n =>
      let idx := Calc probe (hasher key) i (capacity_ m) in
      tag_idx ← tags_ m !! Z.to_nat idx;
      if tag_idx =? kFreeSlot then Some None
      else if tag_idx =? tag then
        k ← key_at m idx;
        if decide (k = key) then (if kTombstone <? tag_idx then Some (Some idx) else None)
        else find_loop n m key tag (i + 1)
      else find_loop n m key tag (i + 1)
  end.

(** [None] inside is [kNotFound]. *)
Definition FindInternal m (key : K) : option (option Z) :=
  if is_pow2 (capacity_ m) && (max_probe_length_ m <=? capacity_ m) then
    find_loop (Z.to_nat (max_probe_length_ m)) m key (HashToTag (hasher key)) 0
  else None.

(** [Find]: the value the returned pointer points to. *)
Definition Find m (key : K) : option (option V) :=
  idx ← FindInternal m key;
  match idx with None => Some None | Some idx => v ← value_at m idx; Some (Some v) end.

Definition EraseInternal m (idx : Z) : option FlatHashMap :=
  tag ← tags_ m !! Z.to_nat idx;
  if (kTombstone <? tag) && (0 <? size_ m) then
    let i := Z.to_nat idx in
    Some (mkMap (capacity_ m) (size_ m - 1) (max_probe_length_ m) (load_limit_ m) (load_limit_percent_ m)
            (<[i := kTombstone]> (tags_ m)) (<[i := None]> (keys_ m)) (<[i := None]> (values_ m)))
  else None.

Definition Erase m (key : K) : option (FlatHashMap * bool) :=
  if append_only then None
  else
    idx ← FindInternal m key;
    match idx with None => Some (m, false) | Some idx => m ← EraseInternal m idx; Some (m, true) end.

(** The loop of [Clear]; [n] is [capacity_ - i]. *)
Fixpoint clear_loop (n : nat) m (i : Z) : option FlatHashMap :=
  match n with
  | O => Some m
  | S n =>
      tag ← tags_ m !! Z.to_nat i;
      m ← (if negb (tag =? kFreeSlot) && negb (tag =? kTombstone) then EraseInternal m i else Some m);
      clear_loop n m (i + 1)
  end.

Definition Clear m : option FlatHashMap :=
  if capacity_ m =? 0 then Some m
  else
    m ← clear_loop (Z.to_nat (capacity_ m)) m 0;
    MaybeGrowAndRehash (fun m k v => '(m, _, _) ← Insert m k v; Some m) m false.

(** [operator[]]: the index of the value it refers to. *)
Definition operator_index m (key : K) : option (FlatHashMap * Z) :=
  '(m, idx, _) ← Insert m key default_value; Some (m, idx).

(** Assignment through the reference or pointer to a value. *)
Definition write_value m (idx : Z) (value : V) : option FlatHashMap :=
  _ ← value_at m idx;
  Some (mkMap (capacity_ m) (size_ m) (max_probe_length_ m) (load_limit_ m) (load_limit_percent_ m)
          (tags_ m) (keys_ m) (<[Z.to_nat idx := Some value]> (values_ m))).

(** *** Iteration *)

(** [FindNextNonFree]; [None] inside is [kEnd], and [n] is [capacity_ - idx]. *)
Fixpoint FindNextNonFree (n : nat) m (idx : Z) : option (option Z) :=
  match n with
  | O => Some None
  | S n =>
      tag ← tags_ m !! Z.to_nat idx;
      if negb (tag =? kFreeSlot) && (append_only || negb (tag =? kTombstone)) then Some (Some idx)
      else FindNextNonFree n m (idx + 1)
  end.

(** A loop over the map with an iterator; every round moves it forward. *)
Fixpoint iterate (fuel : nat) m (idx : Z) : option (list (K * V)) :=
  match fuel with
  | O => None
  | S fuel =>
      at_ ← FindNextNonFree (Z.to_nat (capacity_ m - idx)) m idx;
      match at_ with
      | None => Some []
      | Some idx =>
          k ← key_at m idx;
          v ← value_at m idx;
          rest ← iterate fuel m (idx + 1);
          Some ((k, v) :: rest)
      end
  end.

Definition Entries m : option (list (K * V)) := iterate (S (Z.to_nat (capacity_ m))) m 0.

End Map.

(** ** Probe sequences visit every slot *)

(** The offset of a step from the slot of the hash. *)
Definition offset (p : Probe) (s : Z) : Z :=
  match p with LinearProbe => s | QuadraticProbe => 2 * s * s + s | QuadraticHalfProbe => (s * s + s) / 2 end.

Lemma u64_mod_pow2 z k : 0 <= k <= 64 -> u64 z mod 2 ^ k = z mod 2 ^ k.
Proof.
  intros Hk. unfold u64. apply Z.mod_mod_divide. exists (2 ^ (64 - k)). rewrite <- Z.pow_add_r by lia. f_equal. lia.
Qed.

Lemma Calc_pow2 p h s k :
  0 <= k <= 32 -> 0 <= s < 2 ^ 32 -> Calc p h s (2 ^ k) = (h + offset p s) mod 2 ^ k.
Proof.
  intros Hk Hs. assert (Hp : 0 < 2 ^ k <= 2 ^ 32) by (split; [lia|apply Z.pow_le_mono_r; lia]).
  unfold Calc. rewrite (u64_id (2 ^ k - 1)) by (unfold_u; lia).
  replace (2 ^ k - 1) with (Z.ones k) by (rewrite Z.ones_equiv; lia).
  destruct p; cbn [offset]; rewrite land_ones_mod, u64_mod_pow2 by lia; [done|f_equal; lia|].
  rewrite (u64_id (s * s + s)) by (unfold_u; nia). done.
Qed.

Lemma pow2_odd_divide (k : nat) : forall a b, Z.odd b = true -> (2 ^ Z.of_nat k | a * b) -> (2 ^ Z.of_nat k | a).
Proof.
  induction k as [|k IH]; intros a b Hb [q Hq]; [exists a; lia|].
  rewrite Nat2Z.inj_succ, Z.pow_succ_r in * by lia.
  assert (He : Z.even a = true).
  { assert (Z.even (a * b) = true) as He by (rewrite Hq, !Z.even_mul; apply orb_true_r).
    rewrite Z.even_mul, <- (Z.negb_odd b), Hb in He. by destruct (Z.even a). }
  apply Z.even_spec in He as [a' ->]. destruct (IH a' b Hb) as [r Hr]; [exists q; nia|]. exists r. nia.
Qed.

Lemma divide_small n d : (n | d) -> - n < d < n -> d = 0.
Proof. intros [q ->] H. assert (q = 0) as -> by nia. done. Qed.

Lemma offset_half s : 2 * offset QuadraticHalfProbe s = s * s + s.
Proof.
  cbn. assert (He : (s * s + s) mod 2 = 0).
  { replace (s * s + s) with (s * (s + 1)) by ring. rewrite Zmult_mod. rewrite (Z.add_mod s 1 2) by lia.
    destruct (Z.mod_pos_bound s 2); [lia|]. assert (s mod 2 = 0 \/ s mod 2 = 1) as [-> | ->] by lia; done. }
  pose proof (Z.div_mod (s * s + s) 2). lia.
Qed.

Lemma Calc_inj p h (k : nat) s t :
  (k <= 32)%nat -> 0 <= s < 2 ^ Z.of_nat k -> 0 <= t < 2 ^ Z.of_nat k ->
  Calc p h s (2 ^ Z.of_nat k) = Calc p h t (2 ^ Z.of_nat k) -> s = t.
Proof.
  intros Hk Hs Ht. assert (Hp : 2 ^ Z.of_nat k <= 2 ^ 32) by (apply Z.pow_le_mono_r; lia).
  rewrite !Calc_pow2 by lia. intros E.
  assert (Hd : (2 ^ Z.of_nat k | offset p s - offset p t)).
  { apply Z.mod_divide; [lia|]. replace (offset p s - offset p t) with ((h + offset p s) - (h + offset p t)) by ring.
    rewrite Zminus_mod, E, Z.sub_diag. apply Z.mod_0_l. lia. }
  assert (H0 : s - t = 0); [|lia]. destruct p.
  - apply (divide_small (2 ^ Z.of_nat k)); [done|lia].
  - apply (divide_small (2 ^ Z.of_nat k)); [|lia]. apply (pow2_odd_divide k _ (2 * (s + t) + 1)).
    + rewrite Z.odd_add, Z.odd_mul. done.
    + cbn in Hd. by replace ((s - t) * (2 * (s + t) + 1)) with (2 * s * s + s - (2 * t * t + t)) by ring.
  - assert (Hd2 : (2 ^ Z.of_nat (S k) | (s - t) * (s + t + 1))).
    { destruct Hd as [q Hq]. exists q. pose proof (offset_half s). pose proof (offset_half t).
      rewrite Nat2Z.inj_succ, Z.pow_succ_r by lia. nia. }
    assert (Hpow : 2 ^ Z.of_nat (S k) = 2 * 2 ^ Z.of_nat k) by (rewrite Nat2Z.inj_succ, Z.pow_succ_r; lia).
    destruct (Z.odd (s + t + 1)) eqn:Eo.
    + apply (divide_small (2 ^ Z.of_nat (S k))); [|lia]. by apply (pow2_odd_divide (S k) _ (s + t + 1)).
    + exfalso. assert (Ho : Z.odd (s - t) = true).
      { replace (s + t + 1) with ((s - t) + (1 + 2 * t)) in Eo by ring. rewrite Z.odd_add, (Z.odd_add 1), Z.odd_mul in Eo.
        by destruct (Z.odd (s - t)). }
      rewrite Z.mul_comm in Hd2. apply (pow2_odd_divide (S k) _ _ Ho) in Hd2.
      apply (divide_small (2 ^ Z.of_nat (S k))) in Hd2; lia.
Qed.

Lemma Calc_range p h s k : 0 <= k <= 32 -> 0 <= s < 2 ^ 32 -> 0 <= Calc p h s (2 ^ k) < 2 ^ k.
Proof. intros Hk Hs. rewrite Calc_pow2 by done. apply Z.mod_pos_bound. lia. Qed.

(** Within as many steps as there are slots, every slot is visited. *)
Lemma Calc_surj p h (k : nat) idx :
  (k <= 32)%nat -> 0 <= idx < 2 ^ Z.of_nat k -> exists s, 0 <= s < 2 ^ Z.of_nat k /\ Calc p h s (2 ^ Z.of_nat k) = idx.
Proof.
  intros Hk Hi. set (n := 2 ^ Z.of_nat k) in *. assert (Hp : n <= 2 ^ 32) by (apply Z.pow_le_mono_r; lia).
  assert (Hperm : (fun s => Calc p h s n) <$> seqZ 0 n ≡ₚ seqZ 0 n).
  { apply submseteq_length_Permutation; [|by rewrite length_fmap].
    apply NoDup_submseteq.
    - apply NoDup_fmap_2_strong; [|apply NoDup_seqZ]. intros s t Hs%elem_of_seqZ Ht%elem_of_seqZ. apply Calc_inj; [done|lia|lia].
    - intros x (s & -> & Hs%elem_of_seqZ)%list_elem_of_fmap. apply elem_of_seqZ.
      pose proof (Calc_range p h s (Z.of_nat k) ltac:(lia) ltac:(lia)). fold n in H. lia. }
  assert (Hin : idx ∈ seqZ 0 n) by (apply elem_of_seqZ; lia). rewrite <- Hperm in Hin.
  apply list_elem_of_fmap in Hin as (s & -> & Hs%elem_of_seqZ). exists s. split; [lia|done].
Qed.

Lemma HashToTag_range h : 2 <= HashToTag h < 256.
Proof.
  unfold HashToTag. pose proof (u8_range (h >> (8 * 8 - 8))) as H. set (t := u8 _) in *. unfold is_u8, kTombstone in *.
  destruct (Z.leb_spec t 1); [change (1 << 1) with 2|change (0 << 1) with 0]; unfold u8; rewrite Z.mod_small; lia.
Qed.

Lemma is_pow2_pow2 (k : nat) : (k <= 32)%nat -> is_pow2 (2 ^ Z.of_nat k) = true.
Proof.
  intros Hk. assert (Hp : 0 < 2 ^ Z.of_nat k <= 2 ^ 32) by (split; [lia|apply Z.pow_le_mono_r; lia]).
  unfold is_pow2. rewrite u64_id by (unfold_u; lia). replace (2 ^ Z.of_nat k - 1) with (Z.ones (Z.of_nat k)) by (rewrite Z.ones_equiv; lia).
  rewrite land_ones_mod, Z.mod_same by lia. done.
Qed.

(** ** The map a table holds *)

Section Refine.
Context {K V : Type} `{Countable K} `{!MapParams K V}.
Implicit Types (m : FlatHashMap (K := K) (V := V)) (M : gmap K V).

(** Whether there can be tombstones. *)
Context {tomb : bool}.

(** The slot of a step of the probe sequence of a key. *)
Definition slot m (key : K) (s : Z) : Z := Calc probe (hasher key) s (capacity_ m).

(** Slot [i] holds the entry of [key]. *)
Definition live m (i : Z) (key : K) : Prop :=
  0 <= i /\ tags_ m !! Z.to_nat i = Some (HashToTag (hasher key)) /\ key_at m i = Some key.

(** No step before [s] hits a free slot. *)
Definition chain m (key : K) (s : Z) : Prop := forall q, 0 <= q < s -> tags_ m !! Z.to_nat (slot m key q) <> Some kFreeSlot.

Definition limit m : Z := Z.min (capacity_ m * load_limit_percent_ m / 100) (capacity_ m).

Record wf_gen m M : Prop := {
  wf_cap : capacity_ m = 0 \/ exists k : nat, (k <= 32)%nat /\ capacity_ m = 2 ^ Z.of_nat k;
  wf_pct : 1 <= load_limit_percent_ m <= 100;
  wf_limit : load_limit_ m = limit m;
  wf_size : size_ m = Z.of_nat (size M) /\ size_ m <= load_limit_ m;
  wf_len : length (tags_ m) = Z.to_nat (capacity_ m) /\ length (keys_ m) = Z.to_nat (capacity_ m) /\
           length (values_ m) = Z.to_nat (capacity_ m);
  wf_probe : 0 <= max_probe_length_ m <= capacity_ m;
  wf_tag : forall i t, tags_ m !! i = Some t -> t = kFreeSlot \/ (t = kTombstone /\ tomb = true) \/
             exists key, live m (Z.of_nat i) key /\ value_at m (Z.of_nat i) = M !! key /\ is_Some (M !! key) /\
               exists s, 0 <= s < max_probe_length_ m /\ slot m key s = Z.of_nat i /\ chain m key s;
  wf_dom : forall key, is_Some (M !! key) -> exists i, live m i key;
  wf_uniq : forall i j key, live m i key -> live m j key -> i = j }.

Local Abbreviation wf := wf_gen.

Lemma wf_cap_range m M : wf m M -> 0 <= capacity_ m <= 2 ^ 32.
Proof.
  intros Hw. destruct (wf_cap _ _ Hw) as [->|(k & Hk & ->)]; [lia|]. split; [lia|]. apply Z.pow_le_mono_r; lia.
Qed.

Lemma wf_pow2 m M : wf m M -> is_pow2 (capacity_ m) = true.
Proof. intros Hw. destruct (wf_cap _ _ Hw) as [->|(k & Hk & ->)]; [done|by apply is_pow2_pow2]. Qed.

Lemma slot_range m M key s : wf m M -> 0 <= s < capacity_ m -> 0 <= slot m key s < capacity_ m.
Proof.
  intros Hw Hs. pose proof (wf_cap_range m M Hw). unfold slot. destruct (wf_cap _ _ Hw) as [E|(k & Hk & E)]; rewrite E in *; [lia|].
  apply Calc_range; lia.
Qed.

Lemma slot_surj m M key i : wf m M -> 0 <= i < capacity_ m -> exists s, 0 <= s < capacity_ m /\ slot m key s = i.
Proof.
  intros Hw Hi. unfold slot. destruct (wf_cap _ _ Hw) as [E|(k & Hk & E)]; rewrite E in *; [lia|]. by apply Calc_surj.
Qed.

Lemma tag_lookup m M i : wf m M -> 0 <= i < capacity_ m -> exists t, tags_ m !! Z.to_nat i = Some t.
Proof. intros Hw Hi. destruct (wf_len _ _ Hw) as (Hl & _). apply lookup_lt_is_Some_2. lia. Qed.

(** What the tag of a slot says. *)
Lemma tag_cases m M i t : wf m M -> 0 <= i -> tags_ m !! Z.to_nat i = Some t ->
  t = kFreeSlot \/ (t = kTombstone /\ tomb = true) \/
  exists key, t = HashToTag (hasher key) /\ live m i key /\ value_at m i = M !! key /\ is_Some (M !! key) /\
    exists s, 0 <= s < max_probe_length_ m /\ slot m key s = i /\ chain m key s.
Proof.
  intros Hw Hi Ht. destruct (wf_tag _ _ Hw _ _ Ht) as [->|[?|(key & Hl & Hv & Hin & Hs)]]; [by left|by right; left|].
  rewrite Z2Nat.id in * by done. right. right. exists key. split; [|done]. destruct Hl as (_ & Hl & _). congruence.
Qed.

Lemma HashToTag_not_free h : HashToTag h <> kFreeSlot /\ HashToTag h <> kTombstone.
Proof. pose proof (HashToTag_range h). unfold kFreeSlot, kTombstone. lia. Qed.

(** The entry of a key of the map. *)
Lemma live_in m M key : wf m M -> is_Some (M !! key) ->
  exists i, live m i key /\ value_at m i = M !! key /\
    exists s, 0 <= s < max_probe_length_ m /\ slot m key s = i /\ chain m key s.
Proof.
  intros Hw Hin. destruct (wf_dom _ _ Hw key Hin) as (i & Hl). exists i. split; [done|]. pose proof Hl as (H0 & Ht & Hk).
  destruct (tag_cases m M i _ Hw H0 Ht) as [E|[[E _]|(key' & _ & Hl' & Hv & _ & Hs)]].
  - by destruct (HashToTag_not_free (hasher key)).
  - by destruct (HashToTag_not_free (hasher key)).
  - destruct Hl' as (_ & _ & Hk'). rewrite Hk in Hk'. injection Hk' as <-. done.
Qed.

Lemma live_dom m M i key : wf m M -> live m i key -> is_Some (M !! key) /\ value_at m i = M !! key.
Proof.
  intros Hw Hl. pose proof Hl as (H0 & Ht & Hk).
  destruct (tag_cases m M i _ Hw H0 Ht) as [E|[[E _]|(key' & _ & Hl' & Hv & Hin & Hs)]].
  - by destruct (HashToTag_not_free (hasher key)).
  - by destruct (HashToTag_not_free (hasher key)).
  - destruct Hl' as (_ & _ & Hk'). rewrite Hk in Hk'. by injection Hk' as <-.
Qed.

(** *** Lookup *)

Lemma find_loop_ok m M key : wf m M -> forall n i,
  0 <= i -> Z.of_nat n = max_probe_length_ m - i -> chain m key i -> (forall q, 0 <= q < i -> ~ live m (slot m key q) key) ->
  exists r, find_loop n m key (HashToTag (hasher key)) i = Some r /\
    match r with None => M !! key = None | Some idx => live m idx key end.
Proof.
  intros Hw. induction n as [|n IH]; intros i Hi Hn Hch Hnot; cbn [find_loop].
  { exists None. split; [done|]. apply eq_None_not_Some. intros Hin.
    destruct (live_in m M key Hw Hin) as (j & Hl & _ & s & Hs & <- & _). apply (Hnot s); [lia|done]. }
  pose proof (wf_probe _ _ Hw) as Hp. pose proof (slot_range m M key i Hw ltac:(lia)) as Hr. unfold slot in Hr.
  fold (slot m key i) in *. destruct (tag_lookup m M _ Hw Hr) as [t Ht]. rewrite Ht. cbn [mbind option_bind].
  assert (Hnext : t <> kFreeSlot -> ~ live m (slot m key i) key -> exists r, find_loop n m key (HashToTag (hasher key)) (i + 1) = Some r /\
    match r with None => M !! key = None | Some idx => live m idx key end).
  { intros Hf Hnl. apply IH; [lia|lia| |].
    - intros q Hq. destruct (decide (q = i)) as [->|]; [congruence|]. apply Hch. lia.
    - intros q Hq. destruct (decide (q = i)) as [->|]; [done|]. apply Hnot. lia. }
  destruct (Z.eqb_spec t kFreeSlot) as [->|Hf].
  { exists None. split; [done|]. apply eq_None_not_Some. intros Hin.
    destruct (live_in m M key Hw Hin) as (j & Hl & _ & s & Hs & <- & Hc). destruct (Z.lt_total s i) as [Hlt|[->|Hgt]].
    - apply (Hnot s); [lia|done].
    - destruct Hl as (_ & Hl & _). rewrite Ht in Hl. injection Hl as Hl. by destruct (HashToTag_not_free (hasher key)).
    - by apply (Hc i); [lia|]. }
  destruct (Z.eqb_spec t (HashToTag (hasher key))) as [->|Hne].
  - destruct (tag_cases m M _ _ Hw (proj1 Hr) Ht) as [E|[[E _]|(key' & _ & Hl' & _)]]; [done|by destruct (HashToTag_not_free (hasher key))|].
    pose proof Hl' as (_ & _ & Hk'). rewrite Hk'. cbn [mbind option_bind]. destruct (decide (key' = key)) as [->|Hnk].
    + pose proof (HashToTag_range (hasher key)). unfold kTombstone. rewrite (proj2 (Z.ltb_lt _ _)) by lia. by eexists.
    + apply Hnext; [done|]. intros (_ & _ & Hk). congruence.
  - apply Hnext; [done|]. intros (_ & Hl & _). congruence.
Qed.

Lemma FindInternal_ok m M key : wf m M ->
  exists r, FindInternal m key = Some r /\ match r with None => M !! key = None | Some idx => live m idx key end.
Proof.
  intros Hw. unfold FindInternal. rewrite (wf_pow2 m M Hw). pose proof (wf_probe _ _ Hw).
  rewrite (proj2 (Z.leb_le _ _)) by lia. cbn [andb]. apply (find_loop_ok m M key Hw); [lia|lia|intros q Hq; lia|intros q Hq; lia].
Qed.

Lemma Find_ok m M key : wf m M -> Find m key = Some (M !! key).
Proof.
  intros Hw. unfold Find. destruct (FindInternal_ok m M key Hw) as (r & -> & Hr). cbn [mbind option_bind].
  destruct r as [idx|]; [|by rewrite Hr]. destruct (live_dom m M idx key Hw Hr) as [[v Hv] Hval].
  rewrite Hval, Hv. done.
Qed.

(** *** Changing one slot *)

Definition put m (i t : Z) (ko : option K) (vo : option V) (sz mp : Z) : FlatHashMap :=
  mkMap (capacity_ m) sz mp (load_limit_ m) (load_limit_percent_ m)
    (<[Z.to_nat i := t]> (tags_ m)) (<[Z.to_nat i := ko]> (keys_ m)) (<[Z.to_nat i := vo]> (values_ m)).

Lemma key_at_put m i t ko vo sz mp j :
  0 <= i < Z.of_nat (length (keys_ m)) -> 0 <= j ->
  key_at (put m i t ko vo sz mp) j = if decide (j = i) then ko else key_at m j.
Proof.
  intros Hi Hj. unfold key_at, put. cbn [keys_]. destruct (decide (j = i)) as [->|].
  - by rewrite list_lookup_insert_eq by lia.
  - by rewrite list_lookup_insert_ne by lia.
Qed.

Lemma value_at_put m i t ko vo sz mp j :
  0 <= i < Z.of_nat (length (values_ m)) -> 0 <= j ->
  value_at (put m i t ko vo sz mp) j = if decide (j = i) then vo else value_at m j.
Proof.
  intros Hi Hj. unfold value_at, put. cbn [values_]. destruct (decide (j = i)) as [->|].
  - by rewrite list_lookup_insert_eq by lia.
  - by rewrite list_lookup_insert_ne by lia.
Qed.

Lemma tag_put m i t ko vo sz mp j :
  0 <= i < Z.of_nat (length (tags_ m)) -> 0 <= j ->
  tags_ (put m i t ko vo sz mp) !! Z.to_nat j = if decide (j = i) then Some t else tags_ m !! Z.to_nat j.
Proof.
  intros Hi Hj. unfold put. cbn [tags_]. destruct (decide (j = i)) as [->|].
  - by rewrite list_lookup_insert_eq by lia.
  - by rewrite list_lookup_insert_ne by lia.
Qed.

Section Put.
Context (m : FlatHashMap (K := K) (V := V)) (M : gmap K V) (Hw : wf m M).
Context (i t : Z) (ko : option K) (vo : option V) (sz mp : Z) (Hi : 0 <= i < capacity_ m).
Local Abbreviation m' := (put m i t ko vo sz mp).

Lemma put_live j key : j <> i -> live m' j key <-> live m j key.
Proof.
  intros Hj. pose proof (wf_len _ _ Hw) as (H1 & H2 & H3). unfold live. split; intros (H0 & Ht & Hk); split; try done.
  - rewrite tag_put in Ht by lia. rewrite key_at_put in Hk by lia. by destruct (decide (j = i)).
  - rewrite tag_put, key_at_put by lia. by destruct (decide (j = i)).
Qed.

Lemma put_chain key s : 0 <= s <= capacity_ m -> t <> kFreeSlot -> chain m key s -> chain m' key s.
Proof.
  intros Hs Ht Hc q Hq. pose proof (wf_len _ _ Hw) as (H1 & _). change (slot m' key q) with (slot m key q).
  pose proof (slot_range m M key q Hw ltac:(lia)) as Hr.
  rewrite tag_put by lia. destruct (decide (slot m key q = i)); [congruence|]. by apply Hc.
Qed.
End Put.

(** *** Removal *)

Lemma EraseInternal_ok m M i key : wf m M -> live m i key ->
  exists m', EraseInternal m i = Some m' /\ (tomb = true -> wf m' (delete key M)) /\ capacity_ m' = capacity_ m /\
    load_limit_percent_ m' = load_limit_percent_ m /\ (forall j k, live m' j k -> j <> i /\ live m j k).
Proof.
  intros Hw Hl. pose proof Hl as (H0 & Ht & Hk). destruct (live_dom m M i key Hw Hl) as [Hin _].
  pose proof (wf_len _ _ Hw) as (L1 & L2 & L3). pose proof (wf_size _ _ Hw) as [Hsz Hlim].
  assert (Hi : 0 <= i < capacity_ m) by (apply lookup_lt_Some in Ht; lia).
  assert (Hpos : 0 < size_ m).
  { rewrite Hsz. destruct Hin as [v Hv]. destruct (decide (size M = 0%nat)) as [E|]; [|lia].
    apply map_size_empty_inv in E. rewrite E, lookup_empty in Hv. done. }
  unfold EraseInternal. rewrite Ht. cbn [mbind option_bind]. pose proof (HashToTag_range (hasher key)).
  unfold kTombstone at 1. rewrite (proj2 (Z.ltb_lt _ _)), (proj2 (Z.ltb_lt 0 _)) by lia. cbn [andb].
  change (mkMap _ _ _ _ _ _ _ _) with (put m i kTombstone None None (size_ m - 1) (max_probe_length_ m)).
  set (m' := put _ _ _ _ _ _ _). exists m'. split; [done|].
  assert (Hnl : forall k, ~ live m' i k).
  { intros k (_ & Ht' & _). unfold m' in Ht'. rewrite tag_put, decide_True in Ht' by (done || lia).
    injection Ht' as E. by destruct (HashToTag_not_free (hasher k)). }
  split; [|split; [done|split; [done|]]].
  2: { intros j k Hj. assert (Hne : j <> i) by (intros ->; by apply Hnl in Hj). split; [done|]. by apply (put_live m M Hw) in Hj. }
  intros Hao. split; cbn [m' put capacity_ load_limit_percent_ load_limit_ size_ max_probe_length_ tags_ keys_ values_].
  - exact (wf_cap _ _ Hw).
  - exact (wf_pct _ _ Hw).
  - exact (wf_limit _ _ Hw).
  - destruct Hin as [v Hv]. rewrite map_size_delete, Hv. lia.
  - rewrite !length_insert. done.
  - exact (wf_probe _ _ Hw).
  - intros j t Hj. assert (E : j = Z.to_nat (Z.of_nat j)) by lia. fold m'. rewrite E in Hj.
    change (<[Z.to_nat i := kTombstone]> (tags_ m)) with (tags_ m') in Hj. unfold m' in Hj. rewrite tag_put in Hj by lia.
    destruct (decide (Z.of_nat j = i)) as [|Hne]; [injection Hj as <-; by right; left|].
    rewrite Nat2Z.id in Hj. destruct (wf_tag _ _ Hw _ _ Hj) as [?|[?|(key' & Hl' & Hv & Hin' & s & Hs & Hsl & Hc)]]; [by left|by right; left|].
    assert (Hnk : key' <> key) by (intros ->; apply Hne; exact (wf_uniq _ _ Hw _ _ _ Hl' Hl)).
    right. right. exists key'. split; [|split; [|split]].
    + by eapply put_live.
    + unfold m'. rewrite value_at_put by lia. rewrite decide_False by done. by rewrite lookup_delete_ne.
    + by rewrite lookup_delete_ne.
    + exists s. split; [done|]. split; [done|]. pose proof (wf_probe _ _ Hw). by eapply put_chain; [done..|lia|done|].
  - intros key' Hin'. assert (Hnk : key' <> key) by (intros ->; rewrite lookup_delete_eq in Hin'; by destruct Hin').
    rewrite lookup_delete_ne in Hin' by done. destruct (wf_dom _ _ Hw _ Hin') as (j & Hj). exists j. eapply put_live; [done..| |done].
    intros ->. destruct Hj as (_ & _ & Hj). congruence.
  - intros j j' key' Hj Hj'. destruct (decide (j = i)) as [->|]; [by apply Hnl in Hj|]. destruct (decide (j' = i)) as [->|]; [by apply Hnl in Hj'|].
    apply (put_live m M Hw) in Hj, Hj'; [|done..].
    by eapply wf_uniq.
Qed.

Lemma Erase_ok m M key : wf m M -> tomb = true -> append_only = false ->
  exists m', Erase m key = Some (m', bool_decide (is_Some (M !! key))) /\ wf m' (delete key M) /\ capacity_ m' = capacity_ m.
Proof.
  intros Hw Htomb Hao. unfold Erase. rewrite Hao. destruct (FindInternal_ok m M key Hw) as (r & -> & Hr). cbn [mbind option_bind].
  destruct r as [idx|].
  - destruct (EraseInternal_ok m M idx key Hw Hr) as (m' & -> & Hw' & Hc). cbn [mbind option_bind].
    destruct (live_dom m M idx key Hw Hr) as [Hin _]. rewrite bool_decide_eq_true_2 by done. naive_solver.
  - exists m. rewrite bool_decide_eq_false_2 by (rewrite Hr; intros [? ?]; done). split; [done|].
    by rewrite delete_id.
Qed.
End Refine.

Section Insertion.
Context {K V : Type} `{Countable K} `{!MapParams K V}.
Implicit Types (m : FlatHashMap (K := K) (V := V)) (M : gmap K V).

Local Abbreviation wf := (wf_gen (tomb := negb append_only)).

(** *** The search for a slot *)

Lemma insert_probe_ok m M key : wf m M -> forall n pl so,
  0 <= pl -> Z.of_nat n = capacity_ m - pl -> chain m key pl -> (forall q, 0 <= q < pl -> ~ live m (slot m key q) key) ->
  match so with
  | None => forall q, 0 <= q < pl -> exists k, live m (slot m key q) k
  | Some s => append_only = false /\ exists q, 0 <= q < pl /\ slot m key q = s /\ tags_ m !! Z.to_nat s = Some kTombstone
  end ->
  exists r, insert_probe n m key (HashToTag (hasher key)) pl so = Some r /\
    match r with
    | Existing idx => live m idx key
    | Missing None _ => M !! key = None /\ forall i, 0 <= i < capacity_ m -> exists k, live m i k
    | Missing (Some s) pl' =>
        M !! key = None /\ 0 < pl' <= capacity_ m /\
        exists q, 0 <= q < pl' /\ slot m key q = s /\ chain m key q /\
          (tags_ m !! Z.to_nat s = Some kFreeSlot \/ tags_ m !! Z.to_nat s = Some kTombstone)
    end.
Proof.
  intros Hw. pose proof (wf_probe _ _ Hw) as Hp.
  induction n as [|n IH]; intros pl so Hpl Hn Hch Hnot Hso; cbn [insert_probe].
  - eexists. split; [done|]. assert (Hnone : M !! key = None).
    { apply eq_None_not_Some. intros Hin. destruct (live_in m M key Hw Hin) as (j & Hl & _ & s & Hs & <- & _). apply (Hnot s); [lia|done]. }
    destruct so as [s|].
    + destruct Hso as (_ & q & Hq & Hsl & Ht). split_and!; [done|lia|lia|]. exists q. split_and!; try done; try lia; [|by right].
      intros q' Hq'. apply Hch. lia.
    + split; [done|]. intros i Hi. destruct (slot_surj m M key i Hw Hi) as (q & Hq & <-). apply Hso. lia.
  - pose proof (slot_range m M key pl Hw ltac:(lia)) as Hr. fold (slot m key pl).
    rewrite (proj2 (Z.ltb_lt _ _)) by lia. destruct (tag_lookup m M _ Hw Hr) as [t Ht]. rewrite Ht. cbn [mbind option_bind].
    assert (Hch' : t <> kFreeSlot -> chain m key (pl + 1)).
    { intros Hf q Hq. destruct (decide (q = pl)) as [->|]; [congruence|]. apply Hch. lia. }
    assert (Hnot' : ~ live m (slot m key pl) key -> forall q, 0 <= q < pl + 1 -> ~ live m (slot m key q) key).
    { intros Hnl q Hq. destruct (decide (q = pl)) as [->|]; [done|]. apply Hnot. lia. }
    assert (Hold : forall s, so = Some s -> append_only = false /\ exists q, 0 <= q < pl + 1 /\ slot m key q = s /\ tags_ m !! Z.to_nat s = Some kTombstone).
    { intros s ->. destruct Hso as (Ha & q & Hq & Hs). split; [done|]. exists q. split; [lia|done]. }
    destruct (tag_cases m M _ t Hw (proj1 Hr) Ht) as [->|[[-> Htomb]|(key' & Et & Hl' & _)]].
    + (* a free slot ends the chain *)
      cbn [Z.eqb kFreeSlot]. eexists. split; [done|]. assert (Hnone : M !! key = None).
      { apply eq_None_not_Some. intros Hin. destruct (live_in m M key Hw Hin) as (j & Hl & _ & s & Hs & <- & Hc).
        destruct (Z.lt_total s pl) as [Hlt|[->|Hgt]]; [by apply (Hnot s); [lia|]| |by apply (Hc pl); [lia|]].
        destruct Hl as (_ & Hl & _). rewrite Ht in Hl. injection Hl as Hl. by destruct (HashToTag_not_free (hasher key)). }
      assert (Hfree : exists q, 0 <= q < pl + 1 /\ slot m key q = slot m key pl /\ chain m key q /\
        (tags_ m !! Z.to_nat (slot m key pl) = Some kFreeSlot \/ tags_ m !! Z.to_nat (slot m key pl) = Some kTombstone)).
      { exists pl. split_and!; [lia|lia|done|done|by left]. }
      destruct so as [s|]; [rewrite (bool_decide_eq_false_2 (Some s = None)) by done|rewrite (bool_decide_eq_true_2 (None = None)) by done];
        rewrite ?orb_true_r, ?orb_false_r; [|split; [done|]; split; [lia|done]].
      destruct (Hold s eq_refl) as (-> & q & Hq & Hsl & Hts). split; [done|]. split; [lia|]. exists q. split; [done|]. split; [done|].
      split; [|by right]. intros q' Hq'. apply Hch. lia.
    + (* a tombstone is remembered *)
      assert (Hao : append_only = false) by (by destruct append_only). rewrite Hao. cbn [Z.eqb kFreeSlot kTombstone Pos.eqb andb negb].
      apply IH; [lia|lia|by apply Hch'| |].
      * apply Hnot'. intros (_ & Hl & _). rewrite Ht in Hl. injection Hl as Hl. by destruct (HashToTag_not_free (hasher key)).
      * split; [done|]. exists pl. split; [lia|done].
    + pose proof (HashToTag_not_free (hasher key')) as [Hnf Hnt]. rewrite <- Et in *.
      rewrite (proj2 (Z.eqb_neq _ _) Hnf), (proj2 (Z.eqb_neq _ _) Hnt). rewrite andb_false_r. cbn [andb].
      assert (Hgo : ~ live m (slot m key pl) key -> exists r, insert_probe n m key (HashToTag (hasher key)) (pl + 1) so = Some r /\
        match r with
        | Existing idx => live m idx key
        | Missing None _ => M !! key = None /\ forall i, 0 <= i < capacity_ m -> exists k, live m i k
        | Missing (Some s) pl' =>
            M !! key = None /\ 0 < pl' <= capacity_ m /\
            exists q, 0 <= q < pl' /\ slot m key q = s /\ chain m key q /\
              (tags_ m !! Z.to_nat s = Some kFreeSlot \/ tags_ m !! Z.to_nat s = Some kTombstone)
        end).
      { intros Hnl. apply IH; [lia|lia|by apply Hch'|by apply Hnot'|]. destruct so as [s|]; [by apply Hold|].
        intros q Hq. destruct (decide (q = pl)) as [->|]; [by exists key'|]. apply Hso. lia. }
      destruct (Z.eqb_spec t (HashToTag (hasher key))) as [E|Hne].
      * pose proof Hl' as (_ & _ & Hk'). rewrite Hk'. cbn [mbind option_bind].
        destruct (decide (key' = key)) as [->|Hnk]; [by eexists|]. apply Hgo. intros (_ & _ & Hk). congruence.
      * apply Hgo. intros (_ & Hl & _). congruence.
Qed.

(** *** A full table has as many entries as slots *)

Lemma full_size m M : wf m M -> (forall i, 0 <= i < capacity_ m -> exists k, live m i k) -> capacity_ m <= Z.of_nat (size M).
Proof.
  intros Hw Hfull. pose proof (wf_cap_range m M Hw) as Hc.
  assert (Hks : exists ks, Forall2 (live m) (seqZ 0 (capacity_ m)) ks).
  { assert (Hall : Forall (fun i => exists k, live m i k) (seqZ 0 (capacity_ m))).
    { apply Forall_forall. intros i Hi%elem_of_seqZ. apply Hfull. lia. }
    induction Hall as [|i l [k Hk] Hall [ks IH]]; [exists []; constructor|]. exists (k :: ks). by constructor. }
  destruct Hks as [ks Hks].
  assert (Hnd : NoDup ks).
  { assert (Hn : NoDup (seqZ 0 (capacity_ m))) by apply NoDup_seqZ. revert Hn.
    induction Hks as [|i k l ks Hk Hks IH]; intros Hn; [constructor|]. apply NoDup_cons in Hn as [Hi Hn].
    constructor; [|by apply IH]. intros Hin. apply Hi. apply list_elem_of_lookup in Hin as [n Hin].
    destruct (Forall2_lookup_r _ _ _ _ _ Hks Hin) as (j & Hj & Hlj). rewrite (wf_uniq _ _ Hw i j k Hk Hlj). by eapply list_elem_of_lookup_2. }
  assert (Hsub : list_to_set ks ⊆ dom M).
  { intros k Hk%elem_of_list_to_set. apply list_elem_of_lookup in Hk as [n Hn].
    destruct (Forall2_lookup_r _ _ _ _ _ Hks Hn) as (j & _ & Hlj). apply elem_of_dom. by eapply live_dom. }
  apply subseteq_size in Hsub. rewrite size_list_to_set, size_dom in Hsub by done.
  rewrite <- (Forall2_length _ _ _ Hks), length_seqZ in Hsub. lia.
Qed.

(** *** The new entry *)

Lemma insert_at_ok m M key value s pl q :
  wf m M -> M !! key = None -> size_ m < load_limit_ m -> 0 < pl <= capacity_ m -> 0 <= q < pl -> slot m key q = s ->
  chain m key q -> (tags_ m !! Z.to_nat s = Some kFreeSlot \/ tags_ m !! Z.to_nat s = Some kTombstone) ->
  exists m', insert_at m key value (HashToTag (hasher key)) s pl = Some m' /\ wf m' (<[key := value]> M) /\
    live m' s key /\ capacity_ m' = capacity_ m /\ load_limit_ m' = load_limit_ m /\ load_limit_percent_ m' = load_limit_percent_ m.
Proof.
  intros Hw Hnone Hsz Hpl Hq Hsl Hch Hts. pose proof (slot_range m M key q Hw ltac:(lia)) as Hs. rewrite Hsl in Hs.
  pose proof (wf_len _ _ Hw) as (L1 & L2 & L3). pose proof (wf_probe _ _ Hw) as Hp.
  unfold insert_at. rewrite (proj2 (Z.ltb_lt _ _)), (proj2 (Z.ltb_lt 0 _)), (proj2 (Z.leb_le _ _)) by lia. cbn [andb].
  change (mkMap _ _ _ _ _ _ _ _) with (put m s (HashToTag (hasher key)) (Some key) (Some value) (size_ m + 1) (Z.max (max_probe_length_ m) pl)).
  set (m' := put _ _ _ _ _ _ _). exists m'. split; [done|].
  assert (Hlive : live m' s key).
  { split; [lia|]. unfold m'. rewrite tag_put, key_at_put by lia. by rewrite !decide_True. }
  assert (Hnl : forall k, ~ live m s k).
  { intros k (_ & Hl & _). destruct (HashToTag_not_free (hasher k)). destruct Hts as [E|E]; rewrite E in Hl; injection Hl as Hl; congruence. }
  assert (Hold : forall j k, live m' j k -> (j = s /\ k = key) \/ (j <> s /\ live m j k)).
  { intros j k Hj. destruct (decide (j = s)) as [->|Hne].
    - left. split; [done|]. destruct Hj as (_ & _ & Hj), Hlive as (_ & _ & Hk). congruence.
    - right. split; [done|]. by apply (put_live m M Hw) in Hj. }
  split; [|done]. split; cbn [m' put capacity_ load_limit_percent_ load_limit_ size_ max_probe_length_ tags_ keys_ values_].
  - exact (wf_cap _ _ Hw).
  - exact (wf_pct _ _ Hw).
  - exact (wf_limit _ _ Hw).
  - destruct (wf_size _ _ Hw) as [E _]. rewrite map_size_insert_None by done. lia.
  - by rewrite !length_insert.
  - lia.
  - intros j t Hj. fold m'. change (<[_ := _]> (tags_ m)) with (tags_ m') in Hj. rewrite <- (Nat2Z.id j) in Hj. unfold m' in Hj.
    rewrite tag_put in Hj by lia. destruct (decide (Z.of_nat j = s)) as [Ej|Hne].
    + injection Hj as <-. right. right. exists key. rewrite Ej. split; [done|]. split; [|split].
      * unfold m'. rewrite value_at_put by lia. by rewrite decide_True, lookup_insert_eq.
      * by rewrite lookup_insert_eq.
      * exists q. split; [lia|]. split; [done|]. eapply (put_chain m M Hw); [lia|lia| |done]. apply HashToTag_not_free.
    + rewrite Nat2Z.id in Hj. destruct (wf_tag _ _ Hw _ _ Hj) as [?|[?|(key' & Hl' & Hv & Hin' & s' & Hs' & Hsl' & Hc)]]; [by left|by right; left|].
      assert (Hnk : key <> key') by (intros ->; rewrite Hnone in Hin'; by destruct Hin').
      right. right. exists key'. split; [|split; [|split]].
      * by eapply put_live.
      * unfold m'. rewrite value_at_put by lia. by rewrite decide_False, lookup_insert_ne.
      * by rewrite lookup_insert_ne.
      * exists s'. split; [lia|]. split; [done|]. eapply (put_chain m M Hw); [lia|lia| |done]. apply HashToTag_not_free.
  - intros key' Hin. destruct (decide (key' = key)) as [->|Hne]; [by exists s|]. rewrite lookup_insert_ne in Hin by done.
    destruct (wf_dom _ _ Hw _ Hin) as (j & Hj). exists j. eapply put_live; [done..| |done]. intros ->. by apply Hnl in Hj.
  - intros i j k Hi Hj. apply Hold in Hi as [[-> ->]|[Hi1 Hi]], Hj as [[-> E]|[Hj1 Hj]]; try done.
    + exfalso. destruct (live_dom m M j key Hw Hj) as [[v Hv] _]. congruence.
    + exfalso. subst k. destruct (live_dom m M i key Hw Hi) as [[v Hv] _]. congruence.
    + by eapply wf_uniq.
Qed.

(** *** Insertion into a table that need not grow *)

Lemma Insert_direct n m M key value :
  wf m M -> (M !! key = None -> size_ m < load_limit_ m) ->
  exists m' idx, Insert_loop (S n) m key value = Some (m', idx, bool_decide (M !! key = None)) /\ live m' idx key /\
    wf m' (if decide (M !! key = None) then <[key := value]> M else M) /\ capacity_ m' = capacity_ m /\
    load_limit_ m' = load_limit_ m /\ load_limit_percent_ m' = load_limit_percent_ m.
Proof.
  intros Hw Hlim. cbn [Insert_loop]. rewrite (wf_pow2 m M Hw).
  destruct (insert_probe_ok m M key Hw (Z.to_nat (capacity_ m)) 0 None) as (r & -> & Hr).
  { lia. } { pose proof (wf_cap_range m M Hw). lia. } { intros q Hq. lia. } { intros q Hq. lia. } { intros q Hq. lia. }
  cbn [mbind option_bind]. destruct r as [idx|so pl].
  - destruct (live_dom m M idx key Hw Hr) as [[v Hv] _]. exists m, idx.
    rewrite Hv, bool_decide_eq_false_2, decide_False by done. done.
  - destruct so as [s|].
    + destruct Hr as (Hnone & Hpl & q & Hq & Hsl & Hch & Hts). specialize (Hlim Hnone).
      rewrite (proj2 (Z.leb_gt _ _)) by lia. cbn [mbind option_bind].
      destruct (insert_at_ok m M key value s pl q Hw Hnone Hlim Hpl Hq Hsl Hch Hts) as (m' & -> & Hw' & Hl' & Hc).
      cbn [mbind option_bind]. exists m', s. rewrite bool_decide_eq_true_2, decide_True by done. done.
    + destruct Hr as (Hnone & Hfull). specialize (Hlim Hnone). exfalso. pose proof (full_size m M Hw Hfull) as Hcap.
      destruct (wf_size _ _ Hw) as [Hs _]. rewrite (wf_limit _ _ Hw) in Hlim. unfold limit in Hlim. lia.
Qed.

(** *** Rehashing *)

Lemma map_eq_dom_subseteq M1 M2 : M1 ⊆ M2 -> (forall k, is_Some (M2 !! k) -> is_Some (M1 !! k)) -> M1 = M2.
Proof.
  intros Hs Hd. apply map_eq. intros k. destruct (M2 !! k) as [v|] eqn:E.
  - destruct (Hd k ltac:(eauto)) as [v' Hv']. pose proof (lookup_weaken _ _ _ _ Hv' Hs). congruence.
  - by eapply lookup_weaken_None.
Qed.

Lemma rehash_loop_ok {tomb : bool} old Mold k : wf_gen (tomb := tomb) old Mold -> forall n i m Mn,
  0 <= i -> Z.of_nat n = capacity_ old - i -> wf m Mn -> Mn ⊆ Mold ->
  (forall key, is_Some (Mn !! key) <-> exists j, j < i /\ live old j key) -> Z.of_nat (size Mold) <= load_limit_ m ->
  exists m', rehash_loop (fun m key v => '(m, _, _) ← Insert_loop (S k) m key v; Some m) old n i m (Z.of_nat (size Mn)) =
      Some (m', Z.of_nat (size Mold)) /\ wf m' Mold /\ capacity_ m' = capacity_ m /\ load_limit_ m' = load_limit_ m.
Proof.
  intros Hold. induction n as [|n IH]; intros i m Mn Hi Hn Hw Hsub Hdom Hlim; cbn [rehash_loop].
  - assert (Mn = Mold) as ->; [|by exists m]. apply map_eq_dom_subseteq; [done|]. intros key Hin. apply Hdom.
    destruct (wf_dom _ _ Hold key Hin) as (j & Hj). exists j. split; [|done]. destruct Hj as (H0 & Ht & _).
    apply lookup_lt_Some in Ht. destruct (wf_len _ _ Hold) as (L & _). lia.
  - destruct (tag_lookup old Mold i Hold ltac:(lia)) as [t Ht]. rewrite Ht. cbn [mbind option_bind].
    destruct (tag_cases old Mold i t Hold Hi Ht) as [->|[[-> _]|(key & Et & Hl & Hv & [v Hin] & _)]]; cbn [Z.eqb kFreeSlot kTombstone Pos.eqb negb andb].
    1,2: apply IH; [lia|lia|done|done| |done]; intros key; rewrite Hdom; split; intros (j & Hj & Hl); exists j; (split; [|done]); try lia;
      (destruct (decide (j = i)) as [->|]; [|lia]); destruct Hl as (_ & Hl & _); rewrite Ht in Hl; injection Hl as Hl;
      by destruct (HashToTag_not_free (hasher key)).
    pose proof (HashToTag_not_free (hasher key)) as [Hnf Hnt]. rewrite <- Et in *.
    rewrite (proj2 (Z.eqb_neq _ _) Hnf), (proj2 (Z.eqb_neq _ _) Hnt). cbn [negb andb].
    pose proof Hl as (_ & _ & Hk). rewrite Hk, Hv, Hin. cbn [mbind option_bind].
    assert (Hnone : Mn !! key = None).
    { apply eq_None_not_Some. intros (j & Hj & Hlj)%Hdom. pose proof (wf_uniq _ _ Hold _ _ _ Hl Hlj). lia. }
    assert (Hsize : (size Mn < size Mold)%nat).
    { apply map_subset_size. split; [done|]. intros Hc. pose proof (lookup_weaken _ _ _ _ Hin Hc). congruence. }
    destruct (Insert_direct k m Mn key v Hw) as (m1 & idx & -> & _ & Hw1 & Hc1 & Hl1 & _).
    { intros _. destruct (wf_size _ _ Hw). lia. }
    cbn [mbind option_bind]. rewrite decide_True in Hw1 by done.
    destruct (IH (i + 1) m1 (<[key := v]> Mn)) as (m' & Hm' & Hw' & Hc' & Hl'); [lia|lia|done| | |by rewrite Hl1|].
    + by apply insert_subseteq_l.
    + intros key'. destruct (decide (key' = key)) as [->|Hne].
      * rewrite lookup_insert_eq. split; [|done]. intros _. exists i. split; [lia|done].
      * rewrite lookup_insert_ne, Hdom by done. split; intros (j & Hj & Hlj); exists j; (split; [|done]); [lia|].
        destruct (decide (j = i)) as [->|]; [|lia]. destruct Hlj as (_ & _ & Hk'). congruence.
    + exists m'. rewrite map_size_insert_None in Hm' by done. rewrite Nat2Z.inj_succ in Hm'. split; [exact Hm'|].
      split; [done|]. split; congruence.
Qed.

Lemma empty_ok {tomb : bool} m :
  (capacity_ m = 0 \/ exists k : nat, (k <= 32)%nat /\ capacity_ m = 2 ^ Z.of_nat k) -> 1 <= load_limit_percent_ m <= 100 ->
  size_ m = 0 -> max_probe_length_ m = 0 -> load_limit_ m = limit m -> tags_ m = replicate (Z.to_nat (capacity_ m)) 0 ->
  keys_ m = replicate (Z.to_nat (capacity_ m)) None -> values_ m = replicate (Z.to_nat (capacity_ m)) None ->
  wf_gen (tomb := tomb) m ∅.
Proof.
  intros Hc Hp Hs Hmp Hl Ht Hk Hv.
  assert (Hcap : 0 <= capacity_ m) by (destruct Hc as [->|(k & _ & ->)]; lia).
  assert (Hnl : forall i key, ~ live m i key).
  { intros i key (_ & E & _). rewrite Ht in E. apply lookup_replicate in E as [E _]. by destruct (HashToTag_not_free (hasher key)). }
  split; try done.
  - rewrite Hs, map_size_empty, Hl. split; [done|]. unfold limit. assert (0 <= capacity_ m * load_limit_percent_ m / 100) by (apply Z.div_pos; nia). lia.
  - rewrite Ht, Hk, Hv, !length_replicate. done.
  - lia.
  - intros i t E. rewrite Ht in E. apply lookup_replicate in E as [-> _]. by left.
  - intros key [v E]. by rewrite lookup_empty in E.
  - intros i j key Hi. by apply Hnl in Hi.
Qed.

Lemma Reset_ok m n : (n = 0 \/ exists k : nat, (k <= 32)%nat /\ n = 2 ^ Z.of_nat k) -> 1 <= load_limit_percent_ m <= 100 ->
  exists m', Reset m n = Some m' /\ wf m' ∅ /\ capacity_ m' = n /\ load_limit_percent_ m' = load_limit_percent_ m.
Proof.
  intros Hn Hp. assert (Hr : 0 <= n <= 2 ^ 32).
  { destruct Hn as [->|(k & Hk & ->)]; [lia|]. split; [lia|]. apply Z.pow_le_mono_r; lia. }
  unfold Reset. assert (is_pow2 n = true) as -> by (destruct Hn as [->|(k & Hk & ->)]; [done|by apply is_pow2_pow2]).
  eexists. split; [done|]. split; [|done]. apply empty_ok; try done. unfold limit. cbn. by rewrite u64_id by (unfold_u; nia).
Qed.

(** *** Growth *)

(** The maps considered have fewer than [2 ^ 20] entries. *)
Definition kMaxEntries : Z := 2 ^ 20.

Lemma new_capacity_ok m M :
  wf m M -> load_limit_ m <= size_ m -> size_ m < kMaxEntries ->
  let f := if u64 (capacity_ m * sizeof_entry) <? 1024 * 1024 then 8 else 2 in
  let n := Z.max (u64 (capacity_ m * f)) 1024 in
  (exists k : nat, (k <= 32)%nat /\ n = 2 ^ Z.of_nat k) /\ 2 * capacity_ m <= n /\ 1024 <= n.
Proof.
  intros Hw Hfull Hmax f n. pose proof (wf_size _ _ Hw) as [_ Hle]. pose proof (wf_pct _ _ Hw) as Hp.
  rewrite (wf_limit _ _ Hw) in Hfull. unfold limit, kMaxEntries in *.
  assert (Hf : f = 8 \/ f = 2) by (unfold f; destruct (_ <? _); auto).
  destruct (wf_cap _ _ Hw) as [E|(k & Hk & E)]; unfold n; rewrite E.
  { cbn [Z.mul u64]. split; [|cbn; lia]. exists 10%nat. split; [lia|done]. }
  assert (Hcap : capacity_ m < 2 ^ 27).
  { apply Z.nle_gt. intros Hc. assert (2 ^ 27 * 1 / 100 <= capacity_ m * load_limit_percent_ m / 100) by (apply Z.div_le_mono; nia).
    change (2 ^ 27 * 1 / 100) with 1342177 in *. lia. }
  rewrite E in Hcap. assert (Hk' : (k < 27)%nat).
  { destruct (decide (k < 27)%nat); [done|]. exfalso. assert (2 ^ 27 <= 2 ^ Z.of_nat k) by (apply Z.pow_le_mono_r; lia). lia. }
  assert (Hpos : 0 < 2 ^ Z.of_nat k) by lia. rewrite u64_id by (unfold_u; destruct Hf as [-> | ->]; lia).
  split; [|destruct Hf as [-> | ->]; lia].
  assert (Hpk : exists j : nat, (j <= 30)%nat /\ 2 ^ Z.of_nat k * f = 2 ^ Z.of_nat j).
  { destruct Hf as [-> | ->]; [exists (k + 3)%nat|exists (k + 1)%nat]; (split; [lia|]); rewrite Nat2Z.inj_add, Z.pow_add_r by lia; done. }
  destruct Hpk as (j & Hj & ->). destruct (decide (10 <= j)%nat).
  - exists j. split; [lia|]. assert (2 ^ 10 <= 2 ^ Z.of_nat j) by (apply Z.pow_le_mono_r; lia). lia.
  - exists 10%nat. split; [lia|]. assert (2 ^ Z.of_nat j <= 2 ^ 10) by (apply Z.pow_le_mono_r; lia). cbn in *. lia.
Qed.

Lemma limit_grows c c' p : 1 <= p <= 100 -> 0 <= c -> 2 * c <= c' -> 1024 <= c' ->
  Z.min (c * p / 100) c < Z.min (c' * p / 100) c'.
Proof.
  intros Hp Hc H2 H1. assert (Hu : c * p / 100 <= c) by (apply Z.div_le_upper_bound; nia).
  assert (Hlt : c * p / 100 < c' * p / 100); [|lia].
  assert (Hb : 10 <= c' * p / 100) by (apply Z.div_le_lower_bound; nia).
  destruct (Z.lt_ge_cases (c * p / 100) 1); [lia|].
  assert (2 * (c * p / 100) <= c' * p / 100); [|lia].
  apply Z.div_le_lower_bound; [lia|]. pose proof (Z.mul_div_le (c * p) 100 ltac:(lia)). nia.
Qed.

Lemma MaybeGrowAndRehash_grow k m M :
  wf m M -> load_limit_ m <= size_ m -> size_ m < kMaxEntries ->
  exists m', MaybeGrowAndRehash (fun m key v => '(m, _, _) ← Insert_loop (S k) m key v; Some m) m true = Some m' /\ wf m' M /\
    size_ m' < load_limit_ m'.
Proof.
  intros Hw Hfull Hmax. pose proof (new_capacity_ok m M Hw Hfull Hmax) as (Hn & H2 & H1). cbv zeta in Hn, H2, H1.
  pose proof (wf_cap_range m M Hw) as Hc. pose proof (wf_size _ _ Hw) as [Hsz Hle]. pose proof (wf_pct _ _ Hw) as Hp.
  pose proof (wf_limit _ _ Hw) as Hlim. unfold limit in Hlim.
  unfold MaybeGrowAndRehash. rewrite (proj2 (Z.leb_le (size_ m) _)) by lia.
  set (n := Z.max _ 1024) in *. cbv zeta. rewrite (proj2 (Z.leb_le (capacity_ m) n)) by lia.
  destruct (Reset_ok m n (or_intror Hn) Hp) as (m1 & -> & Hw1 & Hc1 & Hp1). cbn [mbind option_bind].
  assert (Hgrow : load_limit_ m < load_limit_ m1).
  { rewrite Hlim, (wf_limit _ _ Hw1). unfold limit. rewrite Hc1, Hp1. by apply limit_grows; [|lia|lia|]. }
  destruct (rehash_loop_ok m M k Hw (Z.to_nat (capacity_ m)) 0 m1 ∅) as (m2 & Hm2 & Hw2 & Hc2 & Hl2); [lia|lia|done|apply map_empty_subseteq| |lia|].
  { intros key. rewrite lookup_empty. split; [by intros [? ?]|]. intros (j & Hj & Hl). destruct Hl as [H0 _]. lia. }
  rewrite map_size_empty in Hm2. change (Z.of_nat 0) with 0 in Hm2. rewrite Hm2. cbn [mbind option_bind].
  rewrite Hsz, Z.eqb_refl. exists m2. pose proof (wf_size _ _ Hw2) as [Hs2 _].
  split; [|split; [done|lia]]. f_equal. destruct m2. cbn in *. unfold set_size. cbn. congruence.
Qed.

Lemma Insert_loop_S n m (key : K) (value : V) :
  Insert_loop (S n) m key value =
  if is_pow2 (capacity_ m) then
    found ← insert_probe (Z.to_nat (capacity_ m)) m key (HashToTag (hasher key)) 0 None;
    match found with
    | Existing idx => Some (m, idx, false)
    | Missing insertion_slot probe_len =>
        if load_limit_ m <=? size_ m then
          m ← MaybeGrowAndRehash (fun m k v => '(m, _, _) ← Insert_loop n m k v; Some m) m true;
          Insert_loop n m key value
        else
          s ← insertion_slot;
          m ← insert_at m key value (HashToTag (hasher key)) s probe_len;
          Some (m, s, true)
    end
  else None.
Proof. done. Qed.

Lemma Insert_ok m M key value : wf m M -> size_ m < kMaxEntries ->
  exists m' idx, Insert m key value = Some (m', idx, bool_decide (M !! key = None)) /\ live m' idx key /\
    wf m' (if decide (M !! key = None) then <[key := value]> M else M).
Proof.
  intros Hw Hmax. unfold Insert. destruct (decide (M !! key = None)) as [Hnone|Hin]; [destruct (Z.lt_ge_cases (size_ m) (load_limit_ m)) as [Hlt|Hge]|].
  - destruct (Insert_direct 1 m M key value Hw ltac:(done)) as (m' & idx & H1 & H2 & H3 & _).
    rewrite decide_True in H3 by done. eauto.
  - rewrite Insert_loop_S, (wf_pow2 m M Hw).
    destruct (insert_probe_ok m M key Hw (Z.to_nat (capacity_ m)) 0 None) as (r & -> & Hr).
    { lia. } { pose proof (wf_cap_range m M Hw). lia. } { intros q Hq. lia. } { intros q Hq. lia. } { intros q Hq. lia. }
    cbn [mbind option_bind]. destruct r as [idx|so pl].
    { destruct (live_dom m M idx key Hw Hr) as [[v Hv] _]. congruence. }
    rewrite (proj2 (Z.leb_le _ _)) by lia.
    destruct (MaybeGrowAndRehash_grow 0 m M Hw Hge Hmax) as (m1 & Hm1 & Hw1 & Hlt1).
    destruct (Insert_direct 0 m1 M key value Hw1 ltac:(done)) as (m' & idx & H1 & H2 & H3 & _).
    rewrite decide_True in H3 by done. exists m', idx. split; [|done].
    rewrite Hm1. cbn [mbind option_bind]. exact H1.
  - destruct (Insert_direct 1 m M key value Hw ltac:(done)) as (m' & idx & H1 & H2 & H3 & _).
    rewrite decide_False in H3 by done. eauto.
Qed.

(** *** Clearing *)

Lemma clear_loop_ok n : forall m M i,
  wf_gen (tomb := true) m M -> 0 <= i -> Z.of_nat n = capacity_ m - i -> (forall j key, live m j key -> i <= j) ->
  exists m', clear_loop n m i = Some m' /\ wf_gen (tomb := true) m' ∅ /\ capacity_ m' = capacity_ m /\
    load_limit_percent_ m' = load_limit_percent_ m.
Proof.
  induction n as [|n IH]; intros m M i Hw Hi Hn Hlow; cbn [clear_loop].
  - exists m. split; [done|]. split; [|done]. assert (M = ∅) as <-; [|done].
    apply map_empty. intros key. apply eq_None_not_Some. intros Hin. destruct (wf_dom _ _ Hw key Hin) as (j & Hl).
    pose proof (Hlow j key Hl). destruct Hl as (_ & Ht & _). apply lookup_lt_Some in Ht. destruct (wf_len _ _ Hw) as (L & _). lia.
  - destruct (tag_lookup m M i Hw ltac:(lia)) as [t Ht]. rewrite Ht. cbn [mbind option_bind].
    destruct (tag_cases m M i t Hw Hi Ht) as [->|[[-> _]|(key & Et & Hl & _)]]; cbn [Z.eqb kFreeSlot kTombstone Pos.eqb negb andb mbind option_bind].
    1,2: apply (IH m M); [done|lia|lia|]; intros j key Hl; pose proof (Hlow j key Hl); (destruct (decide (j = i)) as [->|]; [|lia]);
      destruct Hl as (_ & Hl & _); rewrite Ht in Hl; injection Hl as Hl; by destruct (HashToTag_not_free (hasher key)).
    pose proof (HashToTag_not_free (hasher key)) as [Hnf Hnt]. rewrite <- Et in *.
    rewrite (proj2 (Z.eqb_neq _ _) Hnf), (proj2 (Z.eqb_neq _ _) Hnt). cbn [negb andb].
    destruct (EraseInternal_ok m M i key Hw Hl) as (m1 & Hm1 & Hw1 & Hc1 & Hp1 & Hl1). rewrite Hm1. cbn [mbind option_bind].
    destruct (IH m1 _ (i + 1) (Hw1 eq_refl)) as (m' & H1 & H2 & H3 & H4); [lia|lia| |].
    + intros j key' Hj. destruct (Hl1 j key' Hj) as [Hne Hj']. pose proof (Hlow j key' Hj'). lia.
    + exists m'. split; [done|]. split; [done|]. split; congruence.
Qed.

Lemma Clear_ok m M : wf m M -> exists m', Clear m = Some m' /\ wf m' ∅.
Proof.
  intros Hw. unfold Clear. destruct (Z.eqb_spec (capacity_ m) 0) as [E|Hne].
  - exists m. split; [done|]. assert (M = ∅) as <-; [|done]. apply map_size_empty_inv.
    destruct (wf_size _ _ Hw) as [Hs Hl]. rewrite (wf_limit _ _ Hw) in Hl. unfold limit in Hl. rewrite E in Hl. lia.
  - assert (Hw' : wf_gen (tomb := true) m M).
    { destruct Hw as [H1 H2 H3 H4 H5 H6 H7 H8 H9]. split; try done. intros i t Ht. destruct (H7 i t Ht) as [?|[[? _]|?]]; auto. }
    pose proof (wf_cap_range m M Hw) as Hc. pose proof (wf_pct _ _ Hw) as Hp.
    destruct (clear_loop_ok (Z.to_nat (capacity_ m)) m M 0 Hw') as (m1 & -> & Hw1 & Hc1 & Hp1); [lia|lia|by intros j key [? _]|].
    cbn [mbind option_bind]. unfold MaybeGrowAndRehash, Insert. destruct (wf_size _ _ Hw1) as [Hs1 _]. rewrite map_size_empty in Hs1.
    rewrite Hs1. cbn [Z.of_nat]. rewrite (proj2 (Z.leb_le 0 _)) by lia. cbv zeta. rewrite Z.leb_refl.
    destruct (Reset_ok m1 (capacity_ m1)) as (m2 & -> & Hw2 & Hc2 & Hp2); [by apply (wf_cap _ _ Hw1)|lia|]. cbn [mbind option_bind].
    destruct (rehash_loop_ok m1 ∅ 1 Hw1 (Z.to_nat (capacity_ m1)) 0 m2 ∅) as (m3 & Hm3 & Hw3 & _); [lia|lia|done|done| | |].
    { intros key. rewrite lookup_empty. split; [by intros [? ?]|]. intros (j & Hj & Hl). destruct Hl as [H0 _]. lia. }
    { rewrite map_size_empty. destruct (wf_size _ _ Hw2) as [E2 H2]. rewrite map_size_empty in E2. lia. }
    rewrite map_size_empty in Hm3. change (Z.of_nat 0) with 0 in Hm3. rewrite Hm3. cbn [mbind option_bind Z.eqb].
    exists m3. split; [|done]. f_equal. destruct m3. cbn in *. unfold set_size. cbn. destruct (wf_size _ _ Hw3) as [E3 _]. cbn in E3.
    rewrite map_size_empty in E3. by rewrite E3.
Qed.

(** *** Assignment and iteration *)

Lemma write_value_ok m M idx key value : wf m M -> live m idx key ->
  exists m', write_value m idx value = Some m' /\ wf m' (<[key := value]> M).
Proof.
  intros Hw Hl. destruct (live_dom m M idx key Hw Hl) as [[v Hv] Hval]. unfold write_value. rewrite Hval, Hv. cbn [mbind option_bind].
  set (m' := mkMap _ _ _ _ _ _ _ _). exists m'. split; [done|]. pose proof (wf_len _ _ Hw) as (L1 & L2 & L3).
  assert (Hidx : 0 <= idx < capacity_ m) by (destruct Hl as (H0 & Ht & _); apply lookup_lt_Some in Ht; lia).
  destruct Hw as [H1 H2 H3 H4 H5 H6 H7 H8 H9]. split; try done.
  - cbn. destruct H4 as [H4 H4']. rewrite map_size_insert_Some by (by rewrite Hv). done.
  - cbn. by rewrite !length_insert.
  - intros i t Ht. destruct (H7 i t Ht) as [?|[?|(key' & Hl' & Hv' & Hin & s & Hs)]]; [by left|by right; left|]. right. right.
    exists key'. split; [done|]. destruct (decide (Z.of_nat i = idx)) as [Ei|Hne].
    + assert (key' = key) as ->.
      { rewrite Ei in Hl'. destruct Hl as (_ & _ & E1), Hl' as (_ & _ & E2). congruence. }
      rewrite lookup_insert_eq. split; [|split; [done|by exists s]]. unfold value_at. cbn. rewrite Ei, list_lookup_insert_eq by lia. done.
    + assert (Hnk : key <> key') by (intros ->; apply Hne; by eapply H9). rewrite lookup_insert_ne by done.
      split; [|split; [done|by exists s]]. rewrite <- Hv'. unfold value_at. cbn. by rewrite list_lookup_insert_ne by lia.
  - intros key' Hin. destruct (decide (key' = key)) as [->|]; [by exists idx|]. rewrite lookup_insert_ne in Hin by done. by apply H8.
Qed.

Lemma FindNextNonFree_ok m M : wf m M -> forall n idx, 0 <= idx -> Z.of_nat n = capacity_ m - idx ->
  exists r, FindNextNonFree n m idx = Some r /\
    match r with
    | None => forall j key, live m j key -> j < idx
    | Some i => idx <= i < capacity_ m /\ (exists key, live m i key) /\ forall j key, live m j key -> j < idx \/ i <= j
    end.
Proof.
  intros Hw. induction n as [|n IH]; intros idx Hi Hn; cbn [FindNextNonFree].
  - exists None. split; [done|]. intros j key (H0 & Ht & _). apply lookup_lt_Some in Ht. destruct (wf_len _ _ Hw) as (L & _). lia.
  - destruct (tag_lookup m M idx Hw ltac:(lia)) as [t Ht]. rewrite Ht. cbn [mbind option_bind].
    assert (Hskip : t = kFreeSlot \/ t = kTombstone -> exists r, FindNextNonFree n m (idx + 1) = Some r /\
      match r with
      | None => forall j key, live m j key -> j < idx
      | Some i => idx <= i < capacity_ m /\ (exists key, live m i key) /\ forall j key, live m j key -> j < idx \/ i <= j
      end).
    { intros Hnl. assert (Hni : forall j key, live m j key -> j <> idx).
      { intros j key (_ & Hl & _) ->. rewrite Ht in Hl. injection Hl as Hl. destruct (HashToTag_not_free (hasher key)), Hnl; congruence. }
      destruct (IH (idx + 1) ltac:(lia) ltac:(lia)) as (r & -> & Hr). exists r. split; [done|]. destruct r as [i|].
      - destruct Hr as (? & ? & Hr). split; [lia|]. split; [done|]. intros j key Hj. specialize (Hr j key Hj). specialize (Hni j key Hj). lia.
      - intros j key Hj. specialize (Hr j key Hj). specialize (Hni j key Hj). lia. }
    destruct (tag_cases m M idx t Hw Hi Ht) as [->|[[-> Htomb]|(key & Et & Hl & _)]].
    + apply Hskip. by left.
    + assert (Hao : append_only = false) by (by destruct append_only). rewrite Hao. apply Hskip. by right.
    + pose proof (HashToTag_not_free (hasher key)) as [Hnf Hnt]. rewrite <- Et in *.
      rewrite (proj2 (Z.eqb_neq _ _) Hnf), (proj2 (Z.eqb_neq _ _) Hnt), orb_true_r. cbn [negb andb].
      exists (Some idx). split; [done|]. split; [lia|]. split; [eauto|]. intros j k _. lia.
Qed.

Lemma iterate_ok m M : wf m M -> forall fuel idx, 0 <= idx <= capacity_ m -> capacity_ m - idx < Z.of_nat fuel ->
  exists l, iterate fuel m idx = Some l /\ NoDup l.*1 /\
    forall k v, (k, v) ∈ l <-> M !! k = Some v /\ exists j, idx <= j /\ live m j k.
Proof.
  intros Hw. induction fuel as [|fuel IH]; intros idx Hi Hf; [lia|]. cbn [iterate].
  destruct (FindNextNonFree_ok m M Hw (Z.to_nat (capacity_ m - idx)) idx) as (r & -> & Hr); [lia|lia|]. cbn [mbind option_bind].
  destruct r as [i|].
  - destruct Hr as (Hir & (key & Hl) & Hrest). destruct (live_dom m M i key Hw Hl) as [[v Hv] Hval].
    pose proof Hl as (_ & _ & Hk). rewrite Hk, Hval, Hv. cbn [mbind option_bind].
    destruct (IH (i + 1) ltac:(lia) ltac:(lia)) as (l & -> & Hnd & Hin). cbn [mbind option_bind]. eexists. split; [done|].
    assert (Hnew : forall v', (key, v') ∉ l).
    { intros v' (_ & j & Hj & Hlj)%Hin. pose proof (wf_uniq _ _ Hw _ _ _ Hl Hlj). lia. }
    split.
    + cbn. constructor; [|done]. intros ((k & v') & Ek & Hin')%list_elem_of_fmap. cbn in Ek. subst k. by apply Hnew in Hin'.
    + intros k v'. rewrite elem_of_cons, Hin. split.
      * intros [[= -> ->]|(? & j & Hj & ?)]; [split; [done|]; exists i; split; [lia|done]|]. split; [done|]. exists j. split; [lia|done].
      * intros (Hkv & j & Hj & Hlj). destruct (Hrest j k Hlj) as [?|Hij]; [lia|]. destruct (decide (j = i)) as [->|].
        { left. assert (k = key) as -> by (destruct Hlj as (_ & _ & E); congruence). congruence. }
        right. split; [done|]. exists j. split; [lia|done].
  - exists []. split; [done|]. split; [constructor|]. intros k v. split; [by intros ?%elem_of_nil|].
    intros (_ & j & Hj & Hlj). specialize (Hr j k Hlj). lia.
Qed.

Lemma Entries_ok m M : wf m M -> exists l, Entries m = Some l /\ l ≡ₚ map_to_list M.
Proof.
  intros Hw. pose proof (wf_cap_range m M Hw). destruct (iterate_ok m M Hw (S (Z.to_nat (capacity_ m))) 0) as (l & Hl & Hnd & Hin); [lia|lia|].
  exists l. split; [done|]. apply NoDup_Permutation; [by eapply NoDup_fmap_1|apply NoDup_map_to_list|].
  intros [k v]. rewrite Hin, elem_of_map_to_list. split; [naive_solver|]. intros Hkv. split; [done|].
  destruct (wf_dom _ _ Hw k ltac:(eauto)) as (j & Hj). exists j. split; [by destruct Hj|done].
Qed.
End Insertion.

(** ** A table behaves as a finite map *)

Section Ops.
Context {K V : Type} `{Countable K} `{!MapParams K V}.
Implicit Types (m : FlatHashMap (K := K) (V := V)) (M : gmap K V).

Inductive Op := OInsert (k : K) (v : V) | OAssign (k : K) (v : V) | OFind (k : K) | OErase (k : K) | OClear | OSize | OIterate.

Inductive Result := RInsert (inserted : bool) (v : V) | RUnit | RFind (v : option V) | RErase (b : bool) | RSize (n : Z) | REntries (l : list (K * V)).

(** One operation; [OAssign k v] is [map[k] = v]. The value that [Insert] returns
    a pointer to is part of the result. *)
Definition run_op m (o : Op) : option (FlatHashMap * Result) :=
  match o with
  | OInsert k v => '(m, idx, b) ← Insert m k v; v ← value_at m idx; Some (m, RInsert b v)
  | OAssign k v => '(m, idx) ← operator_index m k; m ← write_value m idx v; Some (m, RUnit)
  | OFind k => r ← Find m k; Some (m, RFind r)
  | OErase k => '(m, b) ← Erase m k; Some (m, RErase b)
  | OClear => m ← Clear m; Some (m, RUnit)
  | OSize => Some (m, RSize (size_ m))
  | OIterate => l ← Entries m; Some (m, REntries l)
  end.

Fixpoint run_ops m (os : list Op) : option (FlatHashMap * list Result) :=
  match os with
  | [] => Some (m, [])
  | o :: os => '(m, r) ← run_op m o; '(m, rs) ← run_ops m os; Some (m, r :: rs)
  end.

(** The same operation on a finite map. *)
Definition map_op M (o : Op) : gmap K V :=
  match o with
  | OInsert k v => if decide (M !! k = None) then <[k := v]> M else M
  | OAssign k v => <[k := v]> M
  | OErase k => delete k M
  | OClear => ∅
  | _ => M
  end.

Definition map_result M (o : Op) (r : Result) : Prop :=
  match o, r with
  | OInsert k v, RInsert b v' => b = bool_decide (M !! k = None) /\ v' = default v (M !! k)
  | OAssign _ _, RUnit | OClear, RUnit => True
  | OFind k, RFind r => r = M !! k
  | OErase k, RErase b => b = bool_decide (is_Some (M !! k))
  | OSize, RSize n => n = Z.of_nat (size M)
  | OIterate, REntries l => l ≡ₚ map_to_list M
  | _, _ => False
  end.

Fixpoint map_run M (os : list Op) (rs : list Result) : Prop :=
  match os, rs with
  | [], [] => True
  | o :: os, r :: rs => map_result M o r /\ map_run (map_op M o) os rs
  | _, _ => False
  end.

Definition allowed (o : Op) : Prop := match o with OErase _ => append_only = false | _ => True end.

Local Abbreviation wf := (wf_gen (tomb := negb append_only)).

Lemma map_op_size M o : (size (map_op M o) <= S (size M))%nat.
Proof.
  destruct o as [k v|k v|k|k| | |]; cbn [map_op]; try lia.
  - destruct (decide _); [|lia]. by rewrite map_size_insert_None.
  - rewrite map_size_insert. destruct (M !! k); cbn; lia.
  - rewrite map_size_delete. destruct (M !! k); cbn; lia.
  - rewrite map_size_empty. lia.
Qed.

Lemma run_op_ok m M o : wf m M -> size_ m < kMaxEntries -> allowed o ->
  exists m' r, run_op m o = Some (m', r) /\ wf m' (map_op M o) /\ map_result M o r.
Proof.
  intros Hw Hmax Hal. destruct o as [k v|k v|k|k| | |]; cbn [run_op map_op map_result].
  - destruct (Insert_ok m M k v Hw Hmax) as (m' & idx & -> & Hl & Hw'). cbn [mbind option_bind].
    destruct (live_dom m' _ idx k Hw' Hl) as [_ ->]. destruct (decide (M !! k = None)) as [Hn|Hs].
    + rewrite lookup_insert_eq. cbn [mbind option_bind]. eexists _, _. split; [done|]. split; [done|]. by rewrite Hn.
    + destruct (M !! k) as [v'|]; [|done]. cbn [mbind option_bind]. eexists _, _. split; [done|]. done.
  - unfold operator_index. destruct (Insert_ok m M k default_value Hw Hmax) as (m1 & idx & -> & Hl & Hw1). cbn [mbind option_bind].
    destruct (write_value_ok m1 _ idx k v Hw1 Hl) as (m' & -> & Hw'). cbn [mbind option_bind]. eexists _, _. split; [done|]. split; [|done].
    destruct (decide (M !! k = None)); [|done]. by rewrite insert_insert_eq in Hw'.
  - rewrite (Find_ok m M k Hw). cbn [mbind option_bind]. by eexists _, _.
  - destruct (Erase_ok m M k Hw) as (m' & -> & Hw' & _); [by rewrite Hal|done|]. cbn [mbind option_bind]. by eexists _, _.
  - destruct (Clear_ok m M Hw) as (m' & -> & Hw'). cbn [mbind option_bind]. by eexists _, _.
  - destruct (wf_size _ _ Hw) as [Hs _]. by eexists _, _.
  - destruct (Entries_ok m M Hw) as (l & -> & Hl). cbn [mbind option_bind]. by eexists _, _.
Qed.

Lemma run_ops_ok os : forall m M, wf m M -> Forall allowed os -> Z.of_nat (size M + length os) <= kMaxEntries ->
  exists m' rs, run_ops m os = Some (m', rs) /\ map_run M os rs.
Proof.
  induction os as [|o os IH]; intros m M Hw Hal Hmax; cbn [run_ops map_run]; [by exists m, []|].
  apply Forall_cons in Hal as [Ho Hal]. cbn [length] in Hmax. destruct (wf_size _ _ Hw) as [Hs _].
  destruct (run_op_ok m M o Hw ltac:(lia) Ho) as (m1 & r & -> & Hw1 & Hr). cbn [mbind option_bind].
  pose proof (map_op_size M o). destruct (IH m1 _ Hw1 Hal ltac:(lia)) as (m2 & rs & -> & Hrs). cbn [mbind option_bind].
  by exists m2, (r :: rs).
Qed.

(** C23: the hash map is a finite map. For every hash function, each of the three
    probe sequences, with and without [AppendOnly], any load limit from 1% to
    100% and any power of two as initial capacity, every sequence of operations (up to
    [2 ^ 20] of them, and without [Erase] if [AppendOnly]) runs without a failed
    check, an access outside the arrays or a read of a slot that holds no entry,
    through tombstones, growth and rehashing, and every result is that of a finite map:
    [Insert] reports whether the key was absent and leaves the value of a key that is
    present, [Find] finds exactly the keys that are present, and an iterator visits
    every entry once. *)
Theorem flat_hash_map_refines (initial_capacity load_limit_pct : Z) (ops : list Op) :
  (initial_capacity = 0 \/ exists k : nat, (k <= 32)%nat /\ initial_capacity = 2 ^ Z.of_nat k) ->
  1 <= load_limit_pct <= 100 -> Forall allowed ops -> Z.of_nat (length ops) <= kMaxEntries ->
  exists m m' rs, FlatHashMap_new initial_capacity load_limit_pct = Some m /\ run_ops m ops = Some (m', rs) /\ map_run ∅ ops rs.
Proof.
  intros Hc Hp Hal Hlen.
  assert (Hnew : exists m, FlatHashMap_new initial_capacity load_limit_pct = Some m /\ wf m ∅).
  { unfold FlatHashMap_new. destruct (Z.ltb_spec 0 initial_capacity).
    - destruct (Reset_ok (mkMap 0 0 0 0 load_limit_pct [] [] []) initial_capacity Hc Hp) as (m & Hm & Hw & _). eauto.
    - eexists. split; [done|]. apply empty_ok; try done. by left. }
  destruct Hnew as (m & Hm & Hw). destruct (run_ops_ok ops m ∅ Hw Hal) as (m' & rs & Hr & Hrs); [by rewrite map_size_empty|].
  by exists m, m', rs.
Qed.
End Ops.

(** Keys that all collide, in a table of two slots. *)
Definition colliding : MapParams Z Z :=
  {| hasher := fun _ => 7; probe := QuadraticProbe; append_only := false; sizeof_entry := 16; default_value := 0 |}.

Lemma flat_hash_map_refines_witness :
  exists m m' rs, FlatHashMap_new (K := Z) (V := Z) 2 75 = Some m /\
    run_ops (MapParams0 := colliding) m [OInsert 1 10; OInsert 2 20; OErase 1; OFind 2; OAssign 3 30; OIterate; OClear; OSize] = Some (m', rs) /\
    map_run ∅ [OInsert 1 10; OInsert 2 20; OErase 1; OFind 2; OAssign 3 30; OIterate; OClear; OSize] rs.
Proof.
  apply (flat_hash_map_refines (MapParams0 := colliding) 2 75).
  - right. exists 1%nat. split; [lia|reflexivity].
  - lia.
  - repeat constructor.
  - vm_compute. discriminate.
Defined.
