(* ===== verification/CircularQueue.v ===== *)
(** * A queue in a circular buffer

    Models [include/dejaview/ext/base/circular_queue.h]: a queue that is pushed at the
    back and popped at the front, over a flat buffer whose capacity is a power of two.
    Positions are 64-bit and only grow; they wrap into the buffer when an element is
    addressed. A slot of the buffer holds an object or none; constructing over an
    object, and destroying or moving out of an empty slot, are failures, as are the
    [CHECK]s and [DCHECK]s of the code. *)

From S2P Require Import Prelude.

Record CircularQueue (T : Type) := mkCQ {
  entries_ : list (option T); capacity_ : Z; begin_ : Z; end_ : Z; generation_ : Z }.
Arguments mkCQ {T}.
Arguments entries_ {T}.
Arguments capacity_ {T}.
Arguments begin_ {T}.
Arguments end_ {T}.
Arguments generation_ {T}.

Section Queue.
Context {T : Type}.
Implicit Type q : CircularQueue T.

Definition is_pow2_or_0 (n : Z) : bool := (n .& u64 (n - 1)) =? 0.

Definition size q : option Z :=
  let n := u64 (end_ q - begin_ q) in
  if n <=? capacity_ q then Some n else None.

Definition empty q : option bool := n ← size q; Some (n =? 0).

Definition increment_generation q : CircularQueue T :=
  mkCQ (entries_ q) (capacity_ q) (begin_ q) (end_ q) (u32 (generation_ q + 1)).

(** The index of the slot of a position. *)
Definition Get q (pos : Z) : option nat :=
  if (begin_ q <=? pos) && (pos <? end_ q) && is_pow2_or_0 (capacity_ q)
  then Some (Z.to_nat (pos .& u64 (capacity_ q - 1))) else None.

(** The object at a position. *)
Definition load q (pos : Z) : option T :=
  i ← Get q pos;
  slot ← entries_ q !! i;
  slot.

(** [new (slot) T(...)] and [slot->~T()]. *)
Definition construct q (i : nat) (x : T) : option (CircularQueue T) :=
  match entries_ q !! i with
  | Some None => Some (mkCQ (<[i := Some x]> (entries_ q)) (capacity_ q) (begin_ q) (end_ q) (generation_ q))
  | _ => None
  end.

Definition destroy q (i : nat) : option (CircularQueue T) :=
  match entries_ q !! i with
  | Some (Some _) => Some (mkCQ (<[i := None]> (entries_ q)) (capacity_ q) (begin_ q) (end_ q) (generation_ q))
  | _ => None
  end.

Definition ChangeCapacity q (new_capacity : Z) : option (CircularQueue T) :=
  n ← size q;
  if n <=? new_capacity then
    moved ← mapM (load q) (seqZ (begin_ q) (end_ q - begin_ q));
    let new_vec := (Some <$> moved) ++ replicate (Z.to_nat new_capacity - length moved) None in
    Some (mkCQ new_vec new_capacity 0 (Z.of_nat (length moved)) (generation_ q))
  else None.

(** A [new_capacity] of 0 doubles the capacity. *)
Definition Grow q (new_capacity : Z) : option (CircularQueue T) :=
  let new_capacity := if negb (new_capacity =? 0) then new_capacity else u64 (capacity_ q * 2) in
  if is_pow2_or_0 new_capacity && (capacity_ q <? new_capacity) then ChangeCapacity q new_capacity else None.

Definition CircularQueue_new (initial_capacity : Z) : option (CircularQueue T) := Grow (mkCQ [] 0 0 0 0) initial_capacity.

Definition emplace_back q (x : T) : option (CircularQueue T) :=
  let q := increment_generation q in
  n ← size q;
  q ← (if capacity_ q <=? n then Grow q 0 else Some q);
  let pos := end_ q in
  let q := mkCQ (entries_ q) (capacity_ q) (begin_ q) (u64 (pos + 1)) (generation_ q) in
  slot ← Get q pos;
  construct q slot x.

Fixpoint erase_loop (n : nat) q : option (CircularQueue T) :=
  match n with
  | O => Some q
  | S n =>
      if begin_ q <? end_ q then
        i ← Get q (begin_ q);
        q ← destroy q i;
        erase_loop n (mkCQ (entries_ q) (capacity_ q) (u64 (begin_ q + 1)) (end_ q) (generation_ q))
      else Some q
  end.

Definition erase_front q (n : nat) : option (CircularQueue T) := erase_loop n (increment_generation q).

Definition pop_front q : option (CircularQueue T) := erase_front q 1.

Definition clear q : option (CircularQueue T) := n ← size q; erase_front q (Z.to_nat n).

Definition shrink_to_fit q : option (CircularQueue T) :=
  n ← size q;
  if (capacity_ q / 2 <? n) || (capacity_ q <=? 4096) then Some q else ChangeCapacity q (capacity_ q / 2).

Definition at_ q (idx : Z) : option T :=
  n ← size q;
  if idx <? n then load q (u64 (begin_ q + idx)) else None.

(** Iterators are positions that know the generation of the queue. *)
Record Iterator := mkIt { pos_ : Z; it_generation_ : Z }.

Definition begin_it q : Iterator := mkIt (begin_ q) (generation_ q).
Definition end_it q : Iterator := mkIt (end_ q) (generation_ q).

Definition Iterator_add q (it : Iterator) (offset : Z) : option Iterator :=
  let pos := u64 (pos_ it + offset) in
  if pos <=? end_ q then Some (mkIt pos (it_generation_ it)) else None.

Definition Iterator_deref q (it : Iterator) : option T :=
  if it_generation_ it =? generation_ q then load q (pos_ it) else None.

Definition front q : option T := Iterator_deref q (begin_it q).
Definition back q : option T := it ← Iterator_add q (end_it q) (-1); Iterator_deref q it.

(** [for (auto& e : queue)], with at most [n] rounds. *)
Fixpoint iterate_from (n : nat) q (it : Iterator) : option (list T) :=
  if pos_ it =? end_ q then Some []
  else match n with
       | O => None
       | S n =>
           x ← Iterator_deref q it;
           it ← Iterator_add q it 1;
           xs ← iterate_from n q it;
           Some (x :: xs)
       end.

Definition iterate_queue q : option (list T) := n ← size q; iterate_from (Z.to_nat n) q (begin_it q).

(** The copy constructor. *)
Fixpoint emplace_all q (xs : list T) : option (CircularQueue T) :=
  match xs with
  | [] => Some q
  | x :: xs => q ← emplace_back q x; emplace_all q xs
  end.

Definition copy_queue q : option (CircularQueue T) :=
  q' ← CircularQueue_new (capacity_ q);
  xs ← iterate_queue q;
  q' ← emplace_all q' xs;
  n ← size q;
  n' ← size q';
  if n' =? n then Some q' else None.

(** The move constructor: the new queue and what is left of the old one. *)
Definition move_queue q : option (CircularQueue T * CircularQueue T) :=
  q' ← CircularQueue_new 1024;
  Some (increment_generation (mkCQ (entries_ q) (capacity_ q) (begin_ q) (end_ q) 0), q').

(** ** Uses of a queue *)

Inductive QueueOp := QPush (x : T) | QErase (n : nat) | QPop | QClear | QShrink | QCopy | QMove
  | QAt (idx : Z) | QFront | QBack | QIterate | QEmpty.

(** What a use returns. *)
Inductive QueueRes := RUnit | RElem (x : T) | RList (xs : list T) | RBool (b : bool).

Definition queue_step q (o : QueueOp) : option (CircularQueue T * QueueRes) :=
  match o with
  | QPush x => q ← emplace_back q x; Some (q, RUnit)
  | QErase n => q ← erase_front q n; Some (q, RUnit)
  | QPop => q ← pop_front q; Some (q, RUnit)
  | QClear => q ← clear q; Some (q, RUnit)
  | QShrink => q ← shrink_to_fit q; Some (q, RUnit)
  | QCopy => q ← copy_queue q; Some (q, RUnit)
  | QMove => '(q, _) ← move_queue q; Some (q, RUnit)
  | QAt idx => x ← at_ q idx; Some (q, RElem x)
  | QFront => x ← front q; Some (q, RElem x)
  | QBack => x ← back q; Some (q, RElem x)
  | QIterate => xs ← iterate_queue q; Some (q, RList xs)
  | QEmpty => b ← empty q; Some (q, RBool b)
  end.

Fixpoint queue_run q (ops : list QueueOp) : option (CircularQueue T * list QueueRes) :=
  match ops with
  | [] => Some (q, [])
  | o :: ops => '(q, r) ← queue_step q o; '(q, rs) ← queue_run q ops; Some (q, r :: rs)
  end.

(** ** The specification: a list *)

Definition list_step (l : list T) (o : QueueOp) : option (list T * QueueRes) :=
  match o with
  | QPush x => Some (l ++ [x], RUnit)
  | QErase n => Some (drop n l, RUnit)
  | QPop => Some (tail l, RUnit)
  | QClear => Some ([], RUnit)
  | QShrink | QCopy | QMove => Some (l, RUnit)
  | QAt idx => x ← l !! Z.to_nat idx; Some (l, RElem x)
  | QFront => x ← head l; Some (l, RElem x)
  | QBack => x ← last l; Some (l, RElem x)
  | QIterate => Some (l, RList l)
  | QEmpty => Some (l, RBool (bool_decide (l = [])))
  end.

Fixpoint list_run (l : list T) (ops : list QueueOp) : option (list T * list QueueRes) :=
  match ops with
  | [] => Some (l, [])
  | o :: ops => '(l, r) ← list_step l o; '(l, rs) ← list_run l ops; Some (l, r :: rs)
  end.
End Queue.
Arguments QueueOp : clear implicits.
Arguments QueueRes : clear implicits.

(** ** Invariant

    A queue that holds [l] after at most [n] pushes. Slot [j] holds the element that
    is as far from the front as [j] is from [begin_], going around, and nothing if
    that is past the end. *)

Section Invariant.
Context {T : Type}.
Implicit Types (q : CircularQueue T) (l : list T).

Record cq_ok (n : Z) q l : Prop := {
  cq_cap : exists k, 0 <= k <= 62 /\ capacity_ q = 2 ^ k;
  cq_len : Z.of_nat (length (entries_ q)) = capacity_ q;
  cq_begin : 0 <= begin_ q;
  cq_end : end_ q = begin_ q + Z.of_nat (length l);
  cq_pushes : end_ q <= n;
  cq_fit : Z.of_nat (length l) <= capacity_ q;
  cq_slots : forall j, (j < length (entries_ q))%nat ->
    entries_ q !! j = Some (l !! Z.to_nat ((Z.of_nat j - begin_ q) mod capacity_ q)) }.

Lemma pow2_land k : 0 <= k <= 63 -> is_pow2_or_0 (2 ^ k) = true.
Proof.
  intros Hk. unfold is_pow2_or_0. assert (0 < 2 ^ k) by (apply Z.pow_pos_nonneg; lia).
  rewrite u64_id by (pose proof (Z.pow_le_mono_r 2 k 63); unfold is_u64; lia).
  replace (2 ^ k - 1) with (Z.ones k) by (rewrite Z.ones_equiv; lia).
  rewrite Z.land_ones, Z.mod_same by lia. done.
Qed.

Lemma land_cap k pos : 0 <= k <= 63 -> pos .& u64 (2 ^ k - 1) = pos mod 2 ^ k.
Proof.
  intros Hk. assert (0 < 2 ^ k) by (apply Z.pow_pos_nonneg; lia).
  rewrite u64_id by (pose proof (Z.pow_le_mono_r 2 k 63); unfold is_u64; lia).
  replace (2 ^ k - 1) with (Z.ones k) by (rewrite Z.ones_equiv; lia). apply Z.land_ones; lia.
Qed.

(** Distances from the front, going around. *)
Lemma around_slot b c i : 0 < c -> 0 <= i < c -> ((b + i) mod c - b) mod c = i.
Proof. intros Hc Hi. rewrite Zminus_mod_idemp_l. replace (b + i - b) with i by lia. apply Z.mod_small; lia. Qed.

Lemma around_inj b c j i : 0 < c -> 0 <= j < c -> (j - b) mod c = i -> j = (b + i) mod c.
Proof. intros Hc Hj <-. rewrite Zplus_mod_idemp_r. replace (b + (j - b)) with j by lia. symmetry. apply Z.mod_small; lia. Qed.

Lemma around_succ b c j : 0 < c -> 0 <= j < c -> j <> b mod c -> (j - b) mod c = (j - (b + 1)) mod c + 1.
Proof.
  intros Hc Hj Hne. pose proof (Z.mod_pos_bound (j - (b + 1)) c Hc) as Hb.
  destruct (decide ((j - (b + 1)) mod c = c - 1)) as [E|E].
  - apply around_inj in E; [|lia..]. replace (b + 1 + (c - 1)) with (b + 1 * c) in E by lia. rewrite Z.mod_add in E by lia. done.
  - replace (j - b) with (j - (b + 1) + 1) by lia. rewrite <- Zplus_mod_idemp_l. apply Z.mod_small. lia.
Qed.

Lemma around_last b c : 0 < c -> (b mod c - (b + 1)) mod c = c - 1.
Proof.
  intros Hc. rewrite Zminus_mod_idemp_l. replace (b - (b + 1)) with (c - 1 + (-1) * c) by lia.
  rewrite Z.mod_add by lia. apply Z.mod_small; lia.
Qed.

Section Held.
Context (n : Z) (Hn : n <= 2 ^ 62).

Lemma cq_cap_pos q l : cq_ok n q l -> 0 < capacity_ q <= 2 ^ 62.
Proof. intros Hq. destruct (cq_cap _ _ _ Hq) as (k & Hk & ->). pose proof (Z.pow_le_mono_r 2 k 62). pose proof (Z.pow_pos_nonneg 2 k). lia. Qed.

Lemma size_ok q l : cq_ok n q l -> size q = Some (Z.of_nat (length l)).
Proof.
  intros Hq. unfold size. destruct Hq as [_ _ Hb He Hp Hf _].
  rewrite He, u64_id by (unfold is_u64; lia). replace (_ + _ - _) with (Z.of_nat (length l)) by lia.
  by rewrite (proj2 (Z.leb_le _ _)).
Qed.

Lemma Get_in q l pos : cq_ok n q l -> begin_ q <= pos < end_ q -> Get q pos = Some (Z.to_nat (pos mod capacity_ q)).
Proof.
  intros Hq Hpos. unfold Get. destruct (cq_cap _ _ _ Hq) as (k & Hk & Hc).
  rewrite Hc, pow2_land, land_cap by lia. by rewrite (proj2 (Z.leb_le _ _)), (proj2 (Z.ltb_lt _ _)) by lia.
Qed.

Lemma Get_out q pos : ~ begin_ q <= pos < end_ q -> Get q pos = None.
Proof. intros Hpos. unfold Get. by destruct (Z.leb_spec (begin_ q) pos), (Z.ltb_spec pos (end_ q)); try lia. Qed.

Lemma slot_lt q l pos : cq_ok n q l -> (Z.to_nat (pos mod capacity_ q) < length (entries_ q))%nat.
Proof. intros Hq. pose proof (cq_cap_pos _ _ Hq). pose proof (cq_len _ _ _ Hq). pose proof (Z.mod_pos_bound pos (capacity_ q)). lia. Qed.

Lemma load_ok q l i : cq_ok n q l -> load q (begin_ q + Z.of_nat i) = l !! i.
Proof.
  intros Hq. unfold load. destruct (decide (i < length l)%nat) as [Hi|Hi].
  - rewrite (Get_in q l) by (done || (pose proof (cq_end _ _ _ Hq); lia)). cbn [mbind option_bind].
    rewrite (cq_slots _ _ _ Hq) by by eapply slot_lt. cbn [mbind option_bind].
    pose proof (cq_cap_pos _ _ Hq). pose proof (cq_fit _ _ _ Hq).
    rewrite Z2Nat.id by (apply Z.mod_pos_bound; lia). rewrite around_slot by lia. by rewrite Nat2Z.id.
  - rewrite Get_out by (pose proof (cq_end _ _ _ Hq); lia). symmetry. apply lookup_ge_None. lia.
Qed.

Lemma loads_ok q l : cq_ok n q l -> mapM (load q) (seqZ (begin_ q) (end_ q - begin_ q)) = Some l.
Proof.
  intros Hq. apply mapM_Some. apply Forall2_same_length_lookup_2.
  - rewrite length_seqZ. rewrite (cq_end _ _ _ Hq). lia.
  - intros i pos x Hpos Hx. apply lookup_seqZ in Hpos as [-> _]. by rewrite (load_ok q l).
Qed.

Lemma ChangeCapacity_ok q l k : cq_ok n q l -> 0 <= k <= 62 -> Z.of_nat (length l) <= 2 ^ k ->
  exists q', ChangeCapacity q (2 ^ k) = Some q' /\ cq_ok n q' l /\ capacity_ q' = 2 ^ k /\ end_ q' = Z.of_nat (length l).
Proof.
  intros Hq Hk Hfit. unfold ChangeCapacity. rewrite (size_ok q l) by done. cbn [mbind option_bind].
  rewrite (proj2 (Z.leb_le _ _)) by done. rewrite (loads_ok q l) by done. cbn [mbind option_bind].
  eexists. split; [done|]. split; [|done]. assert (0 < 2 ^ k) by (apply Z.pow_pos_nonneg; lia).
  assert (Hlen : length ((Some <$> l) ++ replicate (Z.to_nat (2 ^ k) - length l) None) = Z.to_nat (2 ^ k)).
  { rewrite length_app, length_fmap, length_replicate. lia. }
  constructor; cbn [capacity_ entries_ begin_ end_].
  - by exists k.
  - lia.
  - lia.
  - lia.
  - pose proof (cq_begin _ _ _ Hq). pose proof (cq_end _ _ _ Hq). pose proof (cq_pushes _ _ _ Hq). lia.
  - done.
  - rewrite Hlen. intros j Hj. rewrite Z.sub_0_r, Z.mod_small, Nat2Z.id by lia.
    rewrite lookup_app, list_lookup_fmap, length_fmap. destruct (l !! j) as [x|] eqn:E; [done|].
    apply lookup_ge_None in E. cbn. rewrite lookup_replicate_2; [done|lia].
Qed.

Lemma Grow_ok q l : cq_ok n q l -> Z.of_nat (length l) < n -> capacity_ q <= Z.of_nat (length l) ->
  exists q', Grow q 0 = Some q' /\ cq_ok n q' l /\ capacity_ q' = 2 * capacity_ q /\ end_ q' = Z.of_nat (length l).
Proof.
  intros Hq Hlt Hfull. destruct (cq_cap _ _ _ Hq) as (k & Hk & Hc).
  assert (k < 62) by (apply (Z.pow_lt_mono_r_iff 2); lia).
  unfold Grow. cbn [negb Z.eqb]. rewrite Hc. replace (2 ^ k * 2) with (2 ^ (k + 1)) by (rewrite Z.pow_add_r; lia).
  pose proof (Z.pow_le_mono_r 2 (k + 1) 62). assert (2 ^ k < 2 ^ (k + 1)) by (apply Z.pow_lt_mono_r; lia).
  rewrite u64_id by (unfold is_u64; lia). rewrite pow2_land, (proj2 (Z.ltb_lt _ _)) by lia. cbn [andb].
  destruct (ChangeCapacity_ok q l (k + 1)) as (q' & ? & ? & ? & ?); [done|lia|pose proof (cq_fit _ _ _ Hq); lia|].
  exists q'. split_and!; try done. rewrite Z.pow_add_r in * by lia. lia.
Qed.

Lemma generation_irrelevant m q l g : cq_ok m q l -> cq_ok m (mkCQ (entries_ q) (capacity_ q) (begin_ q) (end_ q) g) l.
Proof. by intros []. Qed.

(** Constructing at the end. *)
Lemma push_slot q l x : cq_ok n q l -> Z.of_nat (length l) < capacity_ q -> end_ q < n ->
  exists q', (let pos := end_ q in
    let q := mkCQ (entries_ q) (capacity_ q) (begin_ q) (u64 (pos + 1)) (generation_ q) in
    slot ← Get q pos; construct q slot x) = Some q' /\ cq_ok n q' (l ++ [x]) /\ capacity_ q' = capacity_ q.
Proof.
  intros Hq Hroom Hlt. destruct (cq_cap _ _ _ Hq) as (k & Hk & Hc). pose proof (cq_cap_pos _ _ Hq) as Hcp.
  pose proof (cq_end _ _ _ Hq) as He. pose proof (cq_begin _ _ _ Hq) as Hb.
  cbn zeta. rewrite u64_id by (unfold is_u64; lia). unfold Get; cbn [begin_ end_ capacity_].
  rewrite Hc, pow2_land, land_cap by lia. rewrite (proj2 (Z.leb_le _ _)), (proj2 (Z.ltb_lt _ _)) by lia. cbn [andb mbind option_bind].
  rewrite <- Hc. unfold construct; cbn [entries_ capacity_ begin_ end_ generation_].
  pose proof (slot_lt q l (end_ q) Hq) as Hs. pose proof (Z.mod_pos_bound (end_ q) (capacity_ q)) as Hm.
  rewrite (cq_slots _ _ _ Hq) by done. rewrite Z2Nat.id by lia. rewrite He, around_slot, Nat2Z.id by lia.
  rewrite lookup_ge_None_2 by lia. eexists. split; [done|]. split; [|done]. rewrite <- He.
  constructor; cbn [entries_ capacity_ begin_ end_]; try rewrite length_insert; try rewrite length_app; cbn [length]; try lia.
  - by exists k.
  - apply (cq_len _ _ _ Hq).
  - intros j Hj. pose proof (cq_len _ _ _ Hq) as Hlen. destruct (decide (j = Z.to_nat (end_ q mod capacity_ q))) as [->|Hne].
    + rewrite list_lookup_insert_eq by done. rewrite Z2Nat.id by lia. rewrite He, around_slot, Nat2Z.id by lia.
      by rewrite lookup_app_r, Nat.sub_diag by lia.
    + rewrite list_lookup_insert_ne by done. rewrite (cq_slots _ _ _ Hq) by done. f_equal.
      set (i := (Z.of_nat j - begin_ q) mod capacity_ q). assert (0 <= i < capacity_ q) by (apply Z.mod_pos_bound; lia).
      assert (i <> Z.of_nat (length l)). { intros E. apply Hne. apply around_inj in E; [|lia..]. rewrite He. lia. }
      destruct (decide (i < Z.of_nat (length l))); [by rewrite lookup_app_l by lia|].
      rewrite !lookup_ge_None_2; [done|rewrite length_app; cbn; lia|lia].
Qed.

Lemma emplace_back_ok q l x : cq_ok n q l -> end_ q < n ->
  exists q', emplace_back q x = Some q' /\ cq_ok n q' (l ++ [x]) /\ end_ q' <= end_ q + 1.
Proof.
  intros Hq Hlt. unfold emplace_back. assert (Hq1 := generation_irrelevant n q l (u32 (generation_ q + 1)) Hq).
  change (mkCQ _ _ _ _ (u32 _)) with (increment_generation q) in Hq1. set (q1 := increment_generation q) in *.
  change (end_ q) with (end_ q1) in *. clearbody q1. clear q Hq. cbn zeta. rewrite (size_ok q1 l) by done. cbn [mbind option_bind].
  pose proof (cq_end _ _ _ Hq1) as He. pose proof (cq_begin _ _ _ Hq1) as Hb.
  assert (Hg : exists q2, (if capacity_ q1 <=? Z.of_nat (length l) then Grow q1 0 else Some q1) = Some q2 /\ cq_ok n q2 l /\
            Z.of_nat (length l) < capacity_ q2 /\ end_ q2 <= end_ q1).
  { destruct (Z.leb_spec (capacity_ q1) (Z.of_nat (length l))).
    - destruct (Grow_ok q1 l) as (q2 & -> & Hq2 & Hc & He2); [done|lia..|]. exists q2. split_and!; try done; [|lia].
      pose proof (cq_cap_pos _ _ Hq1). pose proof (cq_fit _ _ _ Hq1). lia.
    - exists q1. split_and!; done. }
  destruct Hg as (q2 & -> & Hq2 & Hroom & He2). cbn [mbind option_bind].
  destruct (push_slot q2 l x Hq2 Hroom) as (q3 & Hpush & Hq3 & _); [lia|]. cbn zeta in Hpush. rewrite Hpush.
  exists q3. split; [done|]. split; [done|]. rewrite (cq_end _ _ _ Hq3), length_app.
  pose proof (cq_end _ _ _ Hq2). unfold emplace_back in *. cbn [length].
  assert (begin_ q3 = begin_ q2).
  { clear - Hpush. destruct (Get _ _) as [i|]; [|done]. cbn in Hpush. unfold construct in Hpush. cbn in Hpush.
    destruct (entries_ q2 !! i) as [[?|]|]; by inversion Hpush. }
  lia.
Qed.

Lemma erase_loop_ok m : forall q l, cq_ok n q l -> exists q', erase_loop m q = Some q' /\ cq_ok n q' (drop m l) /\ end_ q' = end_ q.
Proof.
  induction m as [|m IH]; intros q l Hq; cbn [erase_loop]; [by exists q|].
  pose proof (cq_end _ _ _ Hq) as He. pose proof (cq_begin _ _ _ Hq) as Hb. pose proof (cq_cap_pos _ _ Hq) as Hcp.
  destruct l as [|x l]; cbn [length] in He.
  { rewrite (proj2 (Z.ltb_ge _ _)) by lia. exists q. by rewrite drop_nil. }
  rewrite (proj2 (Z.ltb_lt _ _)) by lia. rewrite (Get_in q (x :: l)) by (done || lia). cbn [mbind option_bind].
  pose proof (slot_lt q _ (begin_ q) Hq) as Hs. pose proof (Z.mod_pos_bound (begin_ q) (capacity_ q)) as Hm.
  unfold destroy. rewrite (cq_slots _ _ _ Hq) by done. rewrite Z2Nat.id by lia.
  replace ((begin_ q mod capacity_ q - begin_ q) mod capacity_ q) with 0
    by (symmetry; rewrite <- (Z.add_0_r (begin_ q)) at 1; apply around_slot; lia).
  change ((x :: l) !! Z.to_nat 0) with (Some x). cbn [mbind option_bind entries_ capacity_ begin_ end_ generation_ drop].
  rewrite u64_id by (pose proof (cq_pushes _ _ _ Hq); unfold is_u64; lia).
  destruct (IH (mkCQ (<[Z.to_nat (begin_ q mod capacity_ q) := None]> (entries_ q)) (capacity_ q) (begin_ q + 1) (end_ q) (generation_ q)) l)
    as (q' & ? & ? & ?); [|by exists q'].
  pose proof (cq_fit _ _ _ Hq) as Hf. pose proof (cq_len _ _ _ Hq) as Hlen. cbn [length] in Hf.
  constructor; cbn [entries_ capacity_ begin_ end_]; try rewrite length_insert; try lia; try apply Hq.
  intros j Hj. destruct (decide (j = Z.to_nat (begin_ q mod capacity_ q))) as [->|Hne].
  - rewrite list_lookup_insert_eq by done. rewrite Z2Nat.id by lia. rewrite around_last by lia.
    by rewrite lookup_ge_None_2 by lia.
  - rewrite list_lookup_insert_ne by done. rewrite (cq_slots _ _ _ Hq) by done. f_equal.
    rewrite around_succ by lia. pose proof (Z.mod_pos_bound (Z.of_nat j - (begin_ q + 1)) (capacity_ q)).
    by replace (Z.to_nat (_ + 1)) with (S (Z.to_nat ((Z.of_nat j - (begin_ q + 1)) mod capacity_ q))) by lia.
Qed.

Lemma erase_front_ok m q l : cq_ok n q l -> exists q', erase_front q m = Some q' /\ cq_ok n q' (drop m l) /\ end_ q' = end_ q.
Proof. intros Hq. unfold erase_front. apply (erase_loop_ok m (increment_generation q)). by apply generation_irrelevant. Qed.

Lemma shrink_ok q l : cq_ok n q l -> exists q', shrink_to_fit q = Some q' /\ cq_ok n q' l /\ end_ q' <= end_ q.
Proof.
  intros Hq. unfold shrink_to_fit. rewrite (size_ok q l) by done. cbn [mbind option_bind].
  destruct (Z.ltb_spec (capacity_ q / 2) (Z.of_nat (length l))); cbn [orb]; [by exists q|].
  destruct (Z.leb_spec (capacity_ q) 4096); [by exists q|]. destruct (cq_cap _ _ _ Hq) as (k & Hk & Hc). rewrite Hc in *.
  assert (0 < k). { apply (Z.pow_lt_mono_r_iff 2); lia. }
  replace (2 ^ k / 2) with (2 ^ (k - 1)) in * by (rewrite Z.pow_sub_r by lia; done).
  destruct (ChangeCapacity_ok q l (k - 1)) as (q' & -> & Hq' & _ & He); [done|lia..|]. exists q'. split_and!; try done.
  pose proof (cq_end _ _ _ Hq). pose proof (cq_begin _ _ _ Hq). lia.
Qed.

Lemma at_ok q l idx : cq_ok n q l -> 0 <= idx -> at_ q idx = l !! Z.to_nat idx.
Proof.
  intros Hq Hi. unfold at_. rewrite (size_ok q l) by done. cbn [mbind option_bind].
  destruct (Z.ltb_spec idx (Z.of_nat (length l))); [|by rewrite lookup_ge_None_2 by lia].
  pose proof (cq_end _ _ _ Hq). pose proof (cq_begin _ _ _ Hq). pose proof (cq_pushes _ _ _ Hq).
  rewrite u64_id by (unfold is_u64; lia). rewrite <- (load_ok q l) by done. f_equal. lia.
Qed.

Lemma front_ok q l : cq_ok n q l -> front q = head l.
Proof.
  intros Hq. unfold front, Iterator_deref; cbn [begin_it it_generation_ pos_]. rewrite Z.eqb_refl.
  rewrite <- (Z.add_0_r (begin_ q)). change 0 with (Z.of_nat 0). rewrite (load_ok q l) by done. by destruct l.
Qed.

Lemma back_ok q l : cq_ok n q l -> back q = last l.
Proof.
  intros Hq. pose proof (cq_end _ _ _ Hq) as He. pose proof (cq_begin _ _ _ Hq). pose proof (cq_pushes _ _ _ Hq).
  unfold back, Iterator_add; cbn [end_it pos_ it_generation_]. destruct (decide (end_ q = 0)) as [E|E].
  - rewrite E. destruct l; [done|cbn in He; lia].
  - rewrite u64_id by (unfold is_u64; lia). rewrite (proj2 (Z.leb_le _ _)) by lia. cbn [mbind option_bind].
    unfold Iterator_deref; cbn [it_generation_ pos_]. rewrite Z.eqb_refl. rewrite last_lookup. destruct l as [|x l].
    + unfold load. rewrite Get_out; [done|]. cbn in He. lia.
    + rewrite <- (load_ok q (x :: l)) by done. f_equal. cbn [length] in *. lia.
Qed.

Lemma iterate_from_ok q l m : cq_ok n q l -> forall i, (i + m = length l)%nat ->
  iterate_from m q (mkIt (begin_ q + Z.of_nat i) (generation_ q)) = Some (drop i l).
Proof.
  intros Hq. pose proof (cq_end _ _ _ Hq) as He. pose proof (cq_begin _ _ _ Hq). pose proof (cq_pushes _ _ _ Hq).
  induction m as [|m IH]; intros i Hi; cbn [iterate_from pos_].
  - rewrite (proj2 (Z.eqb_eq _ _)) by lia. by rewrite drop_ge by lia.
  - rewrite (proj2 (Z.eqb_neq _ _)) by lia. unfold Iterator_deref at 1; cbn [it_generation_ pos_]. rewrite Z.eqb_refl.
    rewrite (load_ok q l) by done. destruct (lookup_lt_is_Some_2 l i) as [x Hx]; [lia|]. rewrite Hx. cbn [mbind option_bind].
    unfold Iterator_add; cbn [pos_ it_generation_]. rewrite u64_id by (unfold is_u64; lia). rewrite (proj2 (Z.leb_le _ _)) by lia.
    cbn [mbind option_bind]. replace (begin_ q + Z.of_nat i + 1) with (begin_ q + Z.of_nat (S i)) by lia. rewrite IH by lia.
    cbn [mbind option_bind]. by rewrite (drop_S l x i).
Qed.

Lemma cq_iterate_ok q l : cq_ok n q l -> iterate_queue q = Some l.
Proof.
  intros Hq. unfold iterate_queue. rewrite (size_ok q l) by done. cbn [mbind option_bind]. rewrite Nat2Z.id.
  unfold begin_it. rewrite <- (Z.add_0_r (begin_ q)). apply (iterate_from_ok q l _ Hq 0). lia.
Qed.

Lemma emplace_all_ok xs : forall q l, cq_ok n q l -> end_ q + Z.of_nat (length xs) <= n ->
  exists q', emplace_all q xs = Some q' /\ cq_ok n q' (l ++ xs) /\ end_ q' <= end_ q + Z.of_nat (length xs).
Proof.
  induction xs as [|x xs IH]; intros q l Hq Hlt; cbn [emplace_all length] in *.
  - exists q. rewrite app_nil_r. split_and!; [done..|lia].
  - destruct (emplace_back_ok q l x Hq) as (q1 & -> & Hq1 & He1); [lia|]. cbn [mbind option_bind].
    destruct (IH q1 (l ++ [x]) Hq1) as (q2 & -> & Hq2 & He2); [lia|]. exists q2. rewrite <- app_assoc in Hq2. split_and!; [done..|lia].
Qed.

Lemma new_queue_ok k : 0 <= n -> 0 <= k <= 62 ->
  exists q, CircularQueue_new (2 ^ k) = Some q /\ cq_ok n q [] /\ end_ q = 0.
Proof.
  intros H0 Hk. assert (0 < 2 ^ k <= 2 ^ 62) by (pose proof (Z.pow_le_mono_r 2 k 62); pose proof (Z.pow_pos_nonneg 2 k); lia).
  unfold CircularQueue_new, Grow. rewrite (proj2 (Z.eqb_neq _ _)) by lia. cbn [negb]. rewrite pow2_land, (proj2 (Z.ltb_lt _ _)) by (cbn; lia).
  cbn [andb]. unfold ChangeCapacity. change (size _) with (Some 0 : option Z). cbn [mbind option_bind].
  rewrite (proj2 (Z.leb_le _ _)) by lia. change (mapM _ _) with (Some [] : option (list T)). cbn [mbind option_bind fmap list_fmap app length].
  eexists. split; [done|]. split; [|done].
  constructor; cbn [capacity_ entries_ begin_ end_ length]; rewrite ?length_replicate; try lia.
  - by exists k.
  - intros j Hj. by rewrite lookup_replicate_2 by lia.
Qed.

Lemma copy_ok q l : cq_ok n q l -> exists q', copy_queue q = Some q' /\ cq_ok n q' l /\ end_ q' <= end_ q.
Proof.
  intros Hq. pose proof (cq_end _ _ _ Hq). pose proof (cq_begin _ _ _ Hq). pose proof (cq_pushes _ _ _ Hq).
  destruct (cq_cap _ _ _ Hq) as (k & Hk & Hc). destruct (new_queue_ok k) as (q0 & Hq0 & Ho & He0); [lia..|].
  unfold copy_queue. rewrite Hc, Hq0. cbn [mbind option_bind]. rewrite (cq_iterate_ok q l) by done. cbn [mbind option_bind].
  destruct (emplace_all_ok l q0 [] Ho) as (q1 & -> & Hq1 & He1); [lia|]. cbn [mbind option_bind].
  rewrite (size_ok q l), (size_ok q1 l) by done. cbn [mbind option_bind]. rewrite Z.eqb_refl. exists q1. split_and!; [done..|lia].
Qed.

(** One use of the queue does what it does to the list. *)
Definition op_pushes (o : QueueOp T) : Z := match o with QPush _ => 1 | _ => 0 end.
Definition op_ok (o : QueueOp T) : Prop := match o with QAt idx => 0 <= idx | _ => True end.

Lemma queue_step_ok q l o : cq_ok n q l -> op_ok o -> end_ q + op_pushes o <= n ->
  match list_step l o with
  | Some (l', r) => exists q', queue_step q o = Some (q', r) /\ cq_ok n q' l' /\ end_ q' <= end_ q + op_pushes o
  | None => queue_step q o = None
  end.
Proof.
  intros Hq Ho Hlt. destruct o as [x|m| | | | | |idx| | | |]; cbn [queue_step list_step op_pushes op_ok] in *.
  - destruct (emplace_back_ok q l x Hq) as (q' & -> & ? & ?); [lia|]. by exists q'.
  - destruct (erase_front_ok m q l Hq) as (q' & -> & ? & ?). exists q'. split_and!; [done..|lia].
  - destruct (erase_front_ok 1 q l Hq) as (q' & E & Hq' & ?). unfold pop_front. rewrite E. exists q'.
    replace (tail l) with (drop 1 l) by by destruct l. split_and!; [done..|lia].
  - unfold clear. rewrite (size_ok q l) by done. cbn [mbind option_bind].
    destruct (erase_front_ok (Z.to_nat (Z.of_nat (length l))) q l Hq) as (q' & -> & Hq' & ?). exists q'.
    rewrite Nat2Z.id, drop_all in Hq'. split_and!; [done..|lia].
  - destruct (shrink_ok q l Hq) as (q' & -> & ? & ?). exists q'. split_and!; [done..|lia].
  - destruct (copy_ok q l Hq) as (q' & -> & ? & ?). exists q'. split_and!; [done..|lia].
  - unfold move_queue. destruct (new_queue_ok 10) as (q0 & Hq0 & _); [pose proof (cq_begin _ _ _ Hq); pose proof (cq_end _ _ _ Hq); lia|lia|].
    change (2 ^ 10) with 1024 in Hq0. rewrite Hq0. cbn [mbind option_bind]. eexists. split_and!; [done|exact (generation_irrelevant n q l (u32 (0 + 1)) Hq)|cbn; lia].
  - rewrite (at_ok q l) by done. destruct (l !! Z.to_nat idx); [|done]. exists q. split_and!; [done..|lia].
  - rewrite (front_ok q l) by done. destruct (head l); [|done]. exists q. split_and!; [done..|lia].
  - rewrite (back_ok q l) by done. destruct (last l); [|done]. exists q. split_and!; [done..|lia].
  - rewrite (cq_iterate_ok q l) by done. exists q. split_and!; [done..|lia].
  - unfold empty. rewrite (size_ok q l) by done. cbn [mbind option_bind]. exists q. split_and!; [|done|lia].
    by destruct l.
Qed.

Lemma queue_run_ok ops : forall q l, cq_ok n q l -> Forall op_ok ops -> end_ q + Z.of_nat (length ops) <= n ->
  option_map snd (queue_run q ops) = option_map snd (list_run l ops).
Proof.
  induction ops as [|o ops IH]; intros q l Hq Ho Hlt; [done|]. apply Forall_cons in Ho as [Ho Hos]. cbn [length] in Hlt.
  assert (0 <= op_pushes o <= 1) by (destruct o; cbn; lia). pose proof (queue_step_ok q l o Hq Ho) as Hstep.
  cbn [queue_run list_run]. destruct (list_step l o) as [[l' r]|].
  - destruct Hstep as (q' & -> & Hq' & He); [lia|]. cbn [mbind option_bind]. specialize (IH q' l' Hq' Hos).
    assert (IH' : option_map snd (queue_run q' ops) = option_map snd (list_run l' ops)) by (apply IH; lia).
    destruct (queue_run q' ops) as [[q2 rs]|], (list_run l' ops) as [[l2 rs']|]; cbn in *; congruence.
  - rewrite Hstep by lia. done.
Qed.
End Held.
End Invariant.

(** C39: a queue is a list. From a new queue of any capacity that is a power of two up
    to [2^62], any sequence of fewer than [2^62] uses - pushes that wrap around and
    grow the buffer, erasing any number of elements, clearing, shrinking, copying,
    moving, reading by index, at the ends and by iterator - returns what the list
    that is pushed at its end and popped at its head returns, and fails exactly when
    that does: reading past the end or an end of an empty queue. No object is lost,
    destroyed twice or constructed over another. *)
Theorem circular_queue_refines {T} (k : Z) (ops : list (QueueOp T)) :
  0 <= k <= 62 -> Forall op_ok ops -> Z.of_nat (length ops) <= 2 ^ 62 ->
  exists q, CircularQueue_new (2 ^ k) = Some q /\ option_map snd (queue_run q ops) = option_map snd (list_run [] ops).
Proof.
  intros Hk Ho Hlen. destruct (@new_queue_ok T (2 ^ 62) k) as (q & -> & Hq & He); [done|lia|].
  exists q. split; [done|]. eapply (queue_run_ok (2 ^ 62)); [done..|]. lia.
Qed.

Lemma circular_queue_refines_witness :
  let ops := [QPush 1; QPush 2; QPop; QPush 3; QPush 4; QPush 5; QIterate; QErase 2; QFront; QBack; QAt 1; QClear; QEmpty]%nat in
  Forall op_ok ops /\
  exists q, CircularQueue_new 2 = Some q /\
    option_map snd (queue_run q ops) =
    Some [RUnit; RUnit; RUnit; RUnit; RUnit; RUnit; RList [2; 3; 4; 5]; RUnit; RElem 4; RElem 5; RElem 5; RUnit; RBool true]%nat.
Proof.
  cbn zeta. split; [repeat constructor; cbn; lia|].
  destruct (circular_queue_refines 1 [QPush 1; QPush 2; QPop; QPush 3; QPush 4; QPush 5; QIterate; QErase 2; QFront; QBack; QAt 1; QClear; QEmpty]%nat)
    as (q & Hq & Hrun); [lia|repeat constructor; cbn; lia|cbn; lia|].
  exists q. split; [exact Hq|]. rewrite Hrun. reflexivity.
Defined.
