(* ===== verification/BumpAllocator.v ===== *)
(** * Bump allocation

    Models [src/trace_processor/util/bump_allocator.cc] and its header: memory from
    chunks of 64KB, handed out by moving an offset; a chunk is given back when it is
    at the front and all that was allocated in it has been freed. All allocations are
    8-aligned and their sizes are multiples of 8, so the memory of a chunk is a list of
    cells of 8 octets; a cell that was not written is [None]. The queue of chunks is
    the list that [CircularQueue] refines. *)

From S2P Require Import Prelude.

Definition kMaxIdBits : Z := 58.
Definition kAllocLimit : Z := 1 << kMaxIdBits.
Definition kChunkSize : Z := 64 * 1024.
Definition kMaxChunkCount : Z := kAllocLimit / kChunkSize.
Definition kChunkOffsetAllocIdBits : Z := 16.
Definition kChunkIndexAllocIdBits : Z := kMaxIdBits - kChunkOffsetAllocIdBits.

(** A chunk index and an offset, in bit fields. *)
Abbreviation AllocId := (Z * Z)%type.
Definition mkAllocId (chunk_index chunk_offset : Z) : AllocId :=
  (chunk_index mod 2 ^ kChunkIndexAllocIdBits, chunk_offset mod 2 ^ kChunkOffsetAllocIdBits).

(** [operator<] and [operator>=]. *)
Definition id_ltb (a b : AllocId) : bool := (a.1 <? b.1) || ((a.1 =? b.1) && (a.2 <? b.2)).
Definition id_geb (a b : AllocId) : bool := negb (id_ltb a b).

Section Allocator.
Context {W : Type}.

Record AllocChunk := mkAChunk { allocation : list (option W); bump_offset : Z; unfreed_allocations : Z }.

Record BumpAllocator := mkBump { chunks_ : list AllocChunk; erased_front_chunks_count_ : Z }.
Implicit Type a : BumpAllocator.

Definition BumpAllocator_new : BumpAllocator := mkBump [] 0.

Definition ChunkIndexToQueueIndex a (chunk_index : Z) : Z := u64 (chunk_index - erased_front_chunks_count_ a).
Definition QueueIndexToChunkIndex a (index_in_chunks_vec : Z) : Z := u64 (erased_front_chunks_count_ a + index_in_chunks_vec).

Definition LastChunkIndex a : option Z :=
  if bool_decide (chunks_ a = []) then None else Some (QueueIndexToChunkIndex a (Z.of_nat (length (chunks_ a)) - 1)).

(** [None] is a failed check, [Some None] that there is no room. *)
Definition TryAllocInLastChunk a (size : Z) : option (option (BumpAllocator * AllocId)) :=
  match last (chunks_ a) with
  | None => Some None
  | Some chunk =>
      if bump_offset chunk <=? kChunkSize then
        let alloc_offset := bump_offset chunk in
        let new_bump_offset := u32 (bump_offset chunk + size) in
        if kChunkSize <? new_bump_offset then Some None
        else
          let chunk := mkAChunk (allocation chunk) new_bump_offset (u32 (unfreed_allocations chunk + 1)) in
          let a := mkBump (removelast (chunks_ a) ++ [chunk]) (erased_front_chunks_count_ a) in
          last_index ← LastChunkIndex a;
          Some (Some (a, mkAllocId last_index alloc_offset))
      else None
  end.

Definition Allocate : AllocChunk := mkAChunk (replicate (Z.to_nat (kChunkSize / 8)) None) 0 0.

Definition Alloc a (size : Z) : option (BumpAllocator * AllocId) :=
  if (size mod 8 =? 0) && (size <=? kChunkSize) then
    fast ← TryAllocInLastChunk a size;
    match fast with
    | Some r => Some r
    | None =>
        let a := mkBump (chunks_ a ++ [Allocate]) (erased_front_chunks_count_ a) in
        last_index ← LastChunkIndex a;
        if last_index <? kMaxChunkCount then
          slow ← TryAllocInLastChunk a size;
          slow
        else None
    end
  else None.

(** [chunks_.at]. *)
Definition chunk_at a (queue_index : Z) : option AllocChunk :=
  if queue_index <? Z.of_nat (length (chunks_ a)) then chunks_ a !! Z.to_nat queue_index else None.

Definition set_chunk_at a (queue_index : Z) (c : AllocChunk) : BumpAllocator :=
  mkBump (<[Z.to_nat queue_index := c]> (chunks_ a)) (erased_front_chunks_count_ a).

Definition Free a (id : AllocId) : option BumpAllocator :=
  let queue_index := ChunkIndexToQueueIndex a id.1 in
  chunk ← chunk_at a queue_index;
  if 0 <? unfreed_allocations chunk then
    Some (set_chunk_at a queue_index (mkAChunk (allocation chunk) (bump_offset chunk) (unfreed_allocations chunk - 1)))
  else None.

(** A pointer is a chunk of the queue and an offset. *)
Definition GetPointer a (id : AllocId) : option (Z * Z) :=
  let queue_index := ChunkIndexToQueueIndex a id.1 in
  _ ← chunk_at a queue_index;
  Some (queue_index, id.2).

Fixpoint count_free (l : list AllocChunk) : nat :=
  match l with
  | [] => 0
  | c :: l => if 0 <? unfreed_allocations c then 0 else S (count_free l)
  end.

Definition EraseFrontFreeChunks a : BumpAllocator * Z :=
  let to_erase_chunks := count_free (chunks_ a) in
  (mkBump (drop to_erase_chunks (chunks_ a)) (u64 (erased_front_chunks_count_ a + Z.of_nat to_erase_chunks)), Z.of_nat to_erase_chunks).

(** The check of the destructor. *)
Definition BumpAllocator_delete a : bool := forallb (fun c => unfreed_allocations c =? 0) (chunks_ a).

Definition PastTheEndId a : option AllocId :=
  match last (chunks_ a) with
  | None => Some (mkAllocId (erased_front_chunks_count_ a) 0)
  | Some chunk =>
      last_index ← LastChunkIndex a;
      Some (if bump_offset chunk =? kChunkSize then mkAllocId (last_index + 1) 0 else mkAllocId last_index (bump_offset chunk))
  end.

(** Cells behind a pointer. *)
Definition load_cell a (ptr : Z * Z) : option W :=
  c ← chunk_at a ptr.1;
  if (ptr.2 mod 8 =? 0) && (0 <=? ptr.2) then cell ← allocation c !! Z.to_nat (ptr.2 / 8); cell else None.

Definition store_cell a (ptr : Z * Z) (w : W) : option BumpAllocator :=
  c ← chunk_at a ptr.1;
  if (ptr.2 mod 8 =? 0) && (0 <=? ptr.2) && (ptr.2 / 8 <? Z.of_nat (length (allocation c))) then
    Some (set_chunk_at a ptr.1 (mkAChunk (<[Z.to_nat (ptr.2 / 8) := Some w]> (allocation c)) (bump_offset c) (unfreed_allocations c)))
  else None.

(** ** Invariant

    The allocations that have not been freed, with their sizes in cells, lie in chunks
    that are there, below the bump offset, and apart from each other; every chunk
    counts those in it. *)

Definition in_chunk (c : Z) (live : gmap AllocId nat) : gmap AllocId nat := filter (fun p => p.1.1 = c) live.

Record chunk_ok (c : AllocChunk) (allocated : nat) : Prop := {
  ck_cells : Z.of_nat (length (allocation c)) = 8192;
  ck_bump : 0 <= bump_offset c <= 65536;
  ck_align : bump_offset c mod 8 = 0;
  ck_count : unfreed_allocations c = Z.of_nat allocated;
  ck_bound : unfreed_allocations c * 8 <= bump_offset c }.

Record allocated_ok (a : BumpAllocator) (id : AllocId) (n : nat) (c : AllocChunk) : Prop := {
  al_index : erased_front_chunks_count_ a <= id.1;
  al_chunk : chunks_ a !! Z.to_nat (id.1 - erased_front_chunks_count_ a) = Some c;
  al_offset : 0 <= id.2;
  al_align : id.2 mod 8 = 0;
  al_pos : (0 < n)%nat;
  al_end : id.2 + 8 * Z.of_nat n <= bump_offset c }.

(** [total] bounds the number of chunks ever made. *)
Record bump_ok (total : Z) (a : BumpAllocator) (live : gmap AllocId nat) : Prop := {
  bo_erased : 0 <= erased_front_chunks_count_ a;
  bo_total : erased_front_chunks_count_ a + Z.of_nat (length (chunks_ a)) <= total;
  bo_chunks : forall i c, chunks_ a !! i = Some c ->
    chunk_ok c (size (in_chunk (erased_front_chunks_count_ a + Z.of_nat i) live));
  bo_live : forall id n, live !! id = Some n -> exists c, allocated_ok a id n c;
  bo_apart : forall id1 n1 id2 n2, live !! id1 = Some n1 -> live !! id2 = Some n2 -> id1.1 = id2.1 -> id1.2 < id2.2 ->
    id1.2 + 8 * Z.of_nat n1 <= id2.2 }.

(** The cells of an allocation. *)
Definition cells a (id : AllocId) (n : nat) : option (list (option W)) :=
  c ← chunks_ a !! Z.to_nat (id.1 - erased_front_chunks_count_ a);
  Some (take n (drop (Z.to_nat (id.2 / 8)) (allocation c))).

(** An allocator without live allocations can go. *)
Lemma BumpAllocator_delete_ok total a : bump_ok total a ∅ -> BumpAllocator_delete a = true.
Proof.
  intros Hb. apply forallb_forall. intros c Hc. apply list_elem_of_In, list_elem_of_lookup in Hc as [i Hc]. apply Z.eqb_eq.
  by rewrite (ck_count _ _ (bo_chunks _ _ _ Hb _ _ Hc)).
Qed.

(** ** Positions

    Identifiers in the order of their positions in the memory ever made. *)

Definition id_pos (id : AllocId) : Z := id.1 * 65536 + id.2.

(** The end of what has been allocated. *)
Definition past_pos (a : BumpAllocator) : Z :=
  match last (chunks_ a) with
  | None => erased_front_chunks_count_ a * 65536
  | Some c => (erased_front_chunks_count_ a + Z.of_nat (length (chunks_ a)) - 1) * 65536 + bump_offset c
  end.

Lemma id_ltb_pos x y : 0 <= x.2 < 65536 -> 0 <= y.2 < 65536 -> id_ltb x y = (id_pos x <? id_pos y).
Proof.
  intros Hx Hy. unfold id_ltb, id_pos.
  destruct (Z.ltb_spec x.1 y.1), (Z.eqb_spec x.1 y.1), (Z.ltb_spec x.2 y.2), (Z.ltb_spec (x.1 * 65536 + x.2) (y.1 * 65536 + y.2)); cbn; lia.
Qed.

Lemma id_pos_inj x y : 0 <= x.2 < 65536 -> 0 <= y.2 < 65536 -> id_pos x = id_pos y -> x = y.
Proof. destruct x, y. unfold id_pos. cbn. intros ? ? ?. f_equal; lia. Qed.

Lemma mkAllocId_id i o : 0 <= i < 2 ^ 42 -> 0 <= o < 65536 -> mkAllocId i o = (i, o).
Proof. intros Hi Ho. unfold mkAllocId. change (2 ^ kChunkIndexAllocIdBits) with (2 ^ 42). change (2 ^ kChunkOffsetAllocIdBits) with 65536. by rewrite !Z.mod_small by lia. Qed.

Lemma in_chunk_insert c id n live : live !! id = None ->
  size (in_chunk c (<[id := n]> live)) = if decide (id.1 = c) then S (size (in_chunk c live)) else size (in_chunk c live).
Proof.
  intros Hnone. unfold in_chunk. rewrite map_filter_insert. cbn [fst]. destruct (decide (id.1 = c)).
  - apply map_size_insert_None. apply map_lookup_filter_None. by left.
  - by rewrite delete_id.
Qed.

Lemma in_chunk_delete c id n live : live !! id = Some n ->
  size (in_chunk c live) = if decide (id.1 = c) then S (size (in_chunk c (delete id live))) else size (in_chunk c (delete id live)).
Proof.
  intros Hid. rewrite <- (insert_delete_id live id n Hid) at 1. apply in_chunk_insert. apply lookup_delete_eq.
Qed.

Lemma in_chunk_pos id n live : live !! id = Some n -> (0 < size (in_chunk id.1 live))%nat.
Proof. intros Hid. rewrite (in_chunk_delete _ _ _ _ Hid). rewrite decide_True by done. lia. Qed.

Section Ok.
Context (total : Z) (Htotal : total <= 2 ^ 42).
Implicit Types (live : gmap AllocId nat).

Lemma live_range a live id n : bump_ok total a live -> live !! id = Some n ->
  erased_front_chunks_count_ a <= id.1 < erased_front_chunks_count_ a + Z.of_nat (length (chunks_ a)) /\
  0 <= id.2 < 65536 /\ id_pos id + 8 * Z.of_nat n <= past_pos a /\ 0 <= id.1 < 2 ^ 42.
Proof.
  intros Ha Hid. destruct (bo_live _ _ _ Ha _ _ Hid) as [c Hc]. pose proof (al_index _ _ _ _ Hc) as Hi.
  pose proof (al_offset _ _ _ _ Hc). pose proof (al_pos _ _ _ _ Hc). pose proof (al_end _ _ _ _ Hc).
  pose proof (al_chunk _ _ _ _ Hc) as Hl. pose proof (lookup_lt_Some _ _ _ Hl).
  pose proof (bo_chunks _ _ _ Ha _ _ Hl) as Hco. pose proof (ck_bump _ _ Hco). pose proof (bo_total _ _ _ Ha). pose proof (bo_erased _ _ _ Ha).
  split; [lia|]. split; [lia|]. split; [|lia]. unfold past_pos, id_pos. destruct (last (chunks_ a)) as [z|] eqn:E; [|apply last_None in E; rewrite E in *; cbn in *; lia].
  pose proof E as E'. rewrite last_lookup in E'. pose proof (bo_chunks _ _ _ Ha _ _ E') as Hz. pose proof (ck_bump _ _ Hz).
  destruct (decide (id.1 = erased_front_chunks_count_ a + Z.of_nat (length (chunks_ a)) - 1)) as [E2|E2]; [|lia].
  replace (Z.to_nat (id.1 - erased_front_chunks_count_ a)) with (pred (length (chunks_ a))) in Hl by lia.
  assert (z = c) by congruence. subst z. lia.
Qed.

(** The index of a chunk in the queue. *)
Lemma queue_index_ok a live id n : bump_ok total a live -> live !! id = Some n ->
  ChunkIndexToQueueIndex a id.1 = id.1 - erased_front_chunks_count_ a.
Proof.
  intros Ha Hid. destruct (live_range _ _ _ _ Ha Hid) as (H1 & _ & _ & H2). pose proof (bo_erased _ _ _ Ha).
  unfold ChunkIndexToQueueIndex. apply u64_id. unfold is_u64. lia.
Qed.

Lemma chunk_at_ok a live id n c : bump_ok total a live -> live !! id = Some n -> allocated_ok a id n c ->
  chunk_at a (id.1 - erased_front_chunks_count_ a) = Some c.
Proof.
  intros Ha Hid Hc. destruct (live_range _ _ _ _ Ha Hid) as (H1 & _). unfold chunk_at. rewrite (proj2 (Z.ltb_lt _ _)) by lia. apply Hc.
Qed.

(** Room in the last chunk. *)
Lemma try_alloc_room pre c e live n : bump_ok total (mkBump (pre ++ [c]) e) live -> (0 < n)%nat -> bump_offset c + 8 * Z.of_nat n <= 65536 ->
  let id := (e + Z.of_nat (length pre), bump_offset c) in
  let c' := mkAChunk (allocation c) (bump_offset c + 8 * Z.of_nat n) (unfreed_allocations c + 1) in
  TryAllocInLastChunk (mkBump (pre ++ [c]) e) (8 * Z.of_nat n) = Some (Some (mkBump (pre ++ [c']) e, id)) /\
  bump_ok total (mkBump (pre ++ [c']) e) (<[id := n]> live) /\ live !! id = None.
Proof.
  intros Ha Hn Hroom id c'. assert (Hl : (pre ++ [c]) !! length pre = Some c) by by rewrite lookup_app_r, Nat.sub_diag by lia.
  pose proof (bo_chunks _ _ _ Ha _ _ Hl) as Hc. pose proof (ck_bump _ _ Hc) as Hb. pose proof (ck_count _ _ Hc). pose proof (ck_bound _ _ Hc).
  pose proof (bo_total _ _ _ Ha) as Ht. pose proof (bo_erased _ _ _ Ha) as He. cbn in Ht, He. rewrite length_app in Ht. cbn in Ht.
  assert (Hnone : live !! id = None).
  { destruct (live !! id) as [m|] eqn:E; [|done]. destruct (bo_live _ _ _ Ha _ _ E) as [c0 Hc0].
    pose proof (al_chunk _ _ _ _ Hc0) as H1. cbn in H1. replace (Z.to_nat (e + Z.of_nat (length pre) - e)) with (length pre) in H1 by lia.
    assert (c0 = c) by congruence. subst c0. pose proof (al_end _ _ _ _ Hc0) as H2. pose proof (al_pos _ _ _ _ Hc0). cbn in H2. lia. }
  split; [|split; [|done]].
  - unfold TryAllocInLastChunk. cbn [chunks_ erased_front_chunks_count_]. rewrite last_snoc. change kChunkSize with 65536.
    rewrite (proj2 (Z.leb_le _ _)) by lia. rewrite !u32_id by (unfold is_u32; lia). rewrite (proj2 (Z.ltb_ge _ _)) by lia.
    rewrite removelast_last. unfold LastChunkIndex, QueueIndexToChunkIndex. cbn [chunks_ erased_front_chunks_count_].
    rewrite bool_decide_false by (by destruct pre). cbn [mbind option_bind]. rewrite length_app. cbn [length].
    replace (Z.of_nat (length pre + 1) - 1) with (Z.of_nat (length pre)) by lia. rewrite u64_id by (unfold is_u64; lia).
    rewrite mkAllocId_id by lia. done.
  - constructor; cbn [chunks_ erased_front_chunks_count_].
    + done.
    + rewrite length_app. cbn. lia.
    + intros i x Hx. rewrite in_chunk_insert by done. cbn [fst]. destruct (decide (i = length pre)) as [->|Hne].
      * rewrite lookup_app_r, Nat.sub_diag in Hx by lia. injection Hx as <-. rewrite decide_True by done.
        destruct Hc as [? ? Ha8 ? ?]. cbn [erased_front_chunks_count_] in *. constructor; cbn [allocation bump_offset unfreed_allocations c']; try lia.
        rewrite Z.mul_comm, Z.mod_add by lia. done.
      * rewrite decide_False by (cbn; lia). pose proof (lookup_lt_Some _ _ _ Hx) as Hlt. rewrite length_app in Hlt. cbn in Hlt.
        apply (bo_chunks _ _ _ Ha). rewrite lookup_app_l in Hx by lia. cbn. by rewrite lookup_app_l by lia.
    + intros id2 n2. rewrite lookup_insert_Some. intros [[<- <-]|[Hne H2]].
      * exists c'. constructor; cbn [chunks_ erased_front_chunks_count_ id c' bump_offset fst snd]; try lia; [|apply Hc].
        replace (Z.to_nat _) with (length pre) by lia. by rewrite lookup_app_r, Nat.sub_diag by lia.
      * destruct (bo_live _ _ _ Ha _ _ H2) as [c2 Hc2]. pose proof (al_chunk _ _ _ _ Hc2) as Hl2. cbn in Hl2.
        destruct (decide (Z.to_nat (id2.1 - e) = length pre)) as [E|E].
        -- rewrite E in Hl2. assert (c2 = c) by congruence. subst c2. exists c'. destruct Hc2. constructor; cbn in *; try done; [|lia].
           rewrite E. by rewrite lookup_app_r, Nat.sub_diag by lia.
        -- exists c2. destruct Hc2. constructor; cbn in *; try done. pose proof (lookup_lt_Some _ _ _ Hl2) as Hlt. rewrite length_app in Hlt. cbn in Hlt.
           rewrite lookup_app_l in * by lia. done.
    + intros id1 n1 id2 n2. rewrite !lookup_insert_Some. intros [[<- <-]|[_ H1]] [[<- <-]|[_ H2]] Heq Hlt; try lia.
      * exfalso. destruct (live_range _ _ _ _ Ha H2) as (_ & _ & H3 & _). unfold past_pos, id_pos in H3. cbn [chunks_ erased_front_chunks_count_] in H3.
        rewrite last_snoc, length_app in H3. cbn in *. lia.
      * destruct (live_range _ _ _ _ Ha H1) as (_ & _ & H3 & _). unfold past_pos, id_pos in H3. cbn [chunks_ erased_front_chunks_count_] in H3.
        rewrite last_snoc, length_app in H3. cbn in *. lia.
      * by eapply (bo_apart _ _ _ Ha).
Qed.

(** A new chunk. *)
Lemma new_chunk_ok chunks e live : bump_ok (total - 1) (mkBump chunks e) live -> bump_ok total (mkBump (chunks ++ [Allocate]) e) live.
Proof.
  intros Ha. pose proof (bo_total _ _ _ Ha) as Ht. cbn in Ht. constructor; cbn [chunks_ erased_front_chunks_count_].
  - apply Ha.
  - rewrite length_app. cbn. lia.
  - intros i c Hi. destruct (decide (i = length chunks)) as [->|Hne].
    + rewrite lookup_app_r, Nat.sub_diag in Hi by lia. injection Hi as <-.
      assert (in_chunk (e + Z.of_nat (length chunks)) live = ∅) as ->.
      { apply map_empty. intros id. apply map_lookup_filter_None. right. intros n Hid E. cbn in E. destruct (bo_live _ _ _ Ha _ _ Hid) as [c Hc].
        pose proof (al_chunk _ _ _ _ Hc) as Hl. apply lookup_lt_Some in Hl. cbn in Hl. lia. }
      rewrite map_size_empty. constructor; cbn [Allocate allocation bump_offset unfreed_allocations]; done.
    + pose proof (lookup_lt_Some _ _ _ Hi) as Hlt. rewrite length_app in Hlt. cbn in Hlt. rewrite lookup_app_l in Hi by lia.
      by apply (bo_chunks _ _ _ Ha).
  - intros id n Hid. destruct (bo_live _ _ _ Ha _ _ Hid) as [c Hc]. exists c. destruct Hc. constructor; cbn in *; try done.
    by apply lookup_app_l_Some.
  - apply Ha.
Qed.

Lemma cells_grown chunks chunks' e id n : (forall i c, chunks !! i = Some c -> exists c', chunks' !! i = Some c' /\ allocation c' = allocation c) ->
  is_Some (cells (mkBump chunks e) id n) -> cells (mkBump chunks' e) id n = cells (mkBump chunks e) id n.
Proof.
  intros Hsame [x Hx]. unfold cells in *. cbn [chunks_ erased_front_chunks_count_] in *.
  destruct (chunks !! Z.to_nat (id.1 - e)) as [c|] eqn:E; [|done]. destruct (Hsame _ _ E) as (c' & -> & Hal). cbn. by rewrite Hal.
Qed.

Lemma cells_some a live id n : bump_ok total a live -> live !! id = Some n -> is_Some (cells a id n).
Proof. intros Ha Hid. destruct (bo_live _ _ _ Ha _ _ Hid) as [c Hc]. unfold cells. rewrite (al_chunk _ _ _ _ Hc). by eexists. Qed.

Lemma past_pos_snoc chunks c e : past_pos (mkBump (chunks ++ [c]) e) = (e + Z.of_nat (length chunks)) * 65536 + bump_offset c.
Proof. unfold past_pos. cbn [chunks_ erased_front_chunks_count_]. rewrite last_snoc, length_app. cbn. lia. Qed.
End Ok.

(** What [Alloc] does: memory past all that was allocated before. *)
Record alloc_post (total : Z) (a : BumpAllocator) (live : gmap AllocId nat) (n : nat) (a' : BumpAllocator) (id : AllocId) : Prop := {
  ap_ok : bump_ok total a' (<[id := n]> live);
  ap_fresh : live !! id = None;
  ap_past : past_pos a <= id_pos id;
  ap_past' : past_pos a' = id_pos id + 8 * Z.of_nat n;
  ap_erased : erased_front_chunks_count_ a' = erased_front_chunks_count_ a;
  ap_index : id.1 = erased_front_chunks_count_ a + Z.of_nat (length (chunks_ a')) - 1;
  ap_offset : id.2 + 8 * Z.of_nat n = default 0 (bump_offset <$> last (chunks_ a'));
  ap_len : (length (chunks_ a) = length (chunks_ a') /\ id.2 = default 0 (bump_offset <$> last (chunks_ a)) /\ chunks_ a <> [] \/
            length (chunks_ a') = S (length (chunks_ a)) /\ id.2 = 0);
  ap_bumps : forall i c, chunks_ a !! i = Some c -> exists c', chunks_ a' !! i = Some c' /\ bump_offset c <= bump_offset c';
  ap_cells : forall id' n', live !! id' = Some n' -> cells a' id' n' = cells a id' n' }.

Lemma Alloc_ok total a live n : bump_ok (total - 1) a live -> total <= 2 ^ 42 -> 0 < Z.of_nat n <= 8192 ->
  exists a' id, Alloc a (8 * Z.of_nat n) = Some (a', id) /\ alloc_post total a live n a' id.
Proof.
  intros Ha Ht Hn. destruct a as [chunks e]. pose proof (bo_total _ _ _ Ha) as Htot. pose proof (bo_erased _ _ _ Ha) as He.
  cbn [chunks_ erased_front_chunks_count_] in Htot, He.
  assert (Ha1 : bump_ok total (mkBump chunks e) live) by (destruct Ha; constructor; try done; cbn in *; lia).
  unfold Alloc. replace (8 * Z.of_nat n mod 8) with 0 by (symmetry; rewrite Z.mul_comm; apply Z.mod_mul; lia).
  rewrite (proj2 (Z.leb_le _ kChunkSize)) by (change kChunkSize with 65536; lia). cbn [Z.eqb andb].
  assert (Hcase : (exists pre c, chunks = pre ++ [c] /\ bump_offset c + 8 * Z.of_nat n <= 65536) \/
    (forall pre c, chunks = pre ++ [c] -> 65536 < bump_offset c + 8 * Z.of_nat n)).
  { destruct (last chunks) as [c|] eqn:E.
    - apply last_Some in E as [pre ->]. destruct (decide (bump_offset c + 8 * Z.of_nat n <= 65536)); [left; eauto|right].
      intros pre' c' Hp. apply app_inj_tail in Hp as [_ <-]. lia.
    - apply last_None in E as ->. right. intros pre c Hp. by destruct pre. }
  destruct Hcase as [(pre & c & -> & Hroom)|Hfull].
  - destruct (try_alloc_room total Ht pre c e live n Ha1) as (-> & Hok & Hnone); [lia|done|]. cbn [mbind option_bind]. do 2 eexists. split; [done|].
    constructor; cbn [chunks_ erased_front_chunks_count_ fst snd]; rewrite ?length_app, ?last_snoc, ?past_pos_snoc; unfold id_pos; cbn; try lia; try done.
    + left. split_and!; try done. by destruct pre.
    + intros i x Hx. destruct (decide (i = length pre)) as [->|].
      * rewrite lookup_app_r, Nat.sub_diag in * by lia. injection Hx as <-. eexists. split; [done|]. cbn. lia.
      * pose proof (lookup_lt_Some _ _ _ Hx) as Hlt. rewrite length_app in Hlt. cbn in Hlt. rewrite lookup_app_l in * by lia. by exists x.
    + intros id' n' Hid. apply cells_grown; [|by eapply (cells_some total)].
      intros i x Hx. destruct (decide (i = length pre)) as [->|]; [|exists x; split; [|done]].
      * rewrite lookup_app_r, Nat.sub_diag in * by lia. injection Hx as <-. by eexists.
      * pose proof (lookup_lt_Some _ _ _ Hx) as Hlt. rewrite length_app in Hlt. cbn in Hlt. rewrite lookup_app_l in * by lia. done.
  - assert (Hfast : TryAllocInLastChunk (mkBump chunks e) (8 * Z.of_nat n) = Some None).
    { unfold TryAllocInLastChunk. cbn [chunks_ erased_front_chunks_count_]. destruct (last chunks) as [c|] eqn:E; [|done].
      pose proof E as E'. rewrite last_lookup in E'. pose proof (bo_chunks _ _ _ Ha _ _ E') as Hc. pose proof (ck_bump _ _ Hc).
      apply last_Some in E as [pre E]. change kChunkSize with 65536. rewrite (proj2 (Z.leb_le _ _)) by lia. rewrite u32_id by (unfold is_u32; lia).
      by rewrite (proj2 (Z.ltb_lt _ _)) by by eapply Hfull. }
    rewrite Hfast. cbn [mbind option_bind chunks_ erased_front_chunks_count_].
    pose proof (new_chunk_ok total chunks e live Ha) as Hok.
    destruct (try_alloc_room total Ht chunks Allocate e live n Hok) as (Htry & Hok' & Hnone); [lia|cbn; lia|].
    unfold LastChunkIndex at 1, QueueIndexToChunkIndex. cbn [chunks_ erased_front_chunks_count_].
    rewrite bool_decide_false by (by destruct chunks). cbn [mbind option_bind]. rewrite length_app. cbn [length].
    rewrite u64_id by (unfold is_u64; lia). change kMaxChunkCount with (2 ^ 42). rewrite (proj2 (Z.ltb_lt _ _)) by lia.
    rewrite Htry. cbn [mbind option_bind]. do 2 eexists. split; [done|].
    constructor; cbn [chunks_ erased_front_chunks_count_ fst snd]; rewrite ?length_app, ?last_snoc, ?past_pos_snoc; unfold id_pos; cbn; try lia; try done.
    + unfold past_pos, id_pos. cbn. destruct (last chunks) as [c|] eqn:E; [|apply last_None in E; subst chunks; cbn; lia].
      rewrite last_lookup in E. pose proof (bo_chunks _ _ _ Ha _ _ E) as Hc. pose proof (ck_bump _ _ Hc). lia.
    + intros i x Hx. exists x. split; [by apply lookup_app_l_Some|lia].
    + intros id' n' Hid. apply cells_grown; [|by eapply (cells_some total)]. intros i x Hx. exists x. split; [|done]. by apply lookup_app_l_Some.
Qed.

(** Changing a chunk that is there. *)
Lemma set_chunk_at_lookup a i c c0 j x : chunks_ a !! i = Some c0 -> chunks_ (set_chunk_at a (Z.of_nat i) c) !! j = Some x ->
  (j = i /\ x = c) \/ (j <> i /\ chunks_ a !! j = Some x).
Proof.
  intros Hi. cbn. rewrite Nat2Z.id. destruct (decide (i = j)) as [<-|Hne].
  - rewrite list_lookup_insert_eq by by eapply lookup_lt_Some. intros [= <-]. by left.
  - rewrite list_lookup_insert_ne by done. by right.
Qed.

Lemma Free_ok total a live id n : total <= 2 ^ 42 -> bump_ok total a live -> live !! id = Some n ->
  exists a', Free a id = Some a' /\ bump_ok total a' (delete id live) /\ erased_front_chunks_count_ a' = erased_front_chunks_count_ a /\
    length (chunks_ a') = length (chunks_ a) /\ past_pos a' = past_pos a /\
    (bump_offset <$> chunks_ a') = (bump_offset <$> chunks_ a) /\ (forall id' n', cells a' id' n' = cells a id' n').
Proof.
  intros Ht Ha Hid. destruct (bo_live _ _ _ Ha _ _ Hid) as [c Hc]. pose proof (al_chunk _ _ _ _ Hc) as Hl. pose proof (al_index _ _ _ _ Hc) as Hi.
  pose proof (bo_chunks _ _ _ Ha _ _ Hl) as Hco. unfold Free. rewrite (queue_index_ok total Ht a live id n) by done.
  rewrite (chunk_at_ok total Ht a live id n c) by done. cbn [mbind option_bind]. pose proof (ck_count _ _ Hco) as Hcnt.
  set (i := Z.to_nat (id.1 - erased_front_chunks_count_ a)) in *. replace (erased_front_chunks_count_ a + Z.of_nat i) with id.1 in Hcnt, Hco by lia.
  pose proof (in_chunk_pos _ _ _ Hid) as Hpos. rewrite (proj2 (Z.ltb_lt _ _)) by lia. eexists. split; [done|].
  set (c' := mkAChunk (allocation c) (bump_offset c) (unfreed_allocations c - 1)).
  replace (id.1 - erased_front_chunks_count_ a) with (Z.of_nat i) by lia.
  assert (Hb : (bump_offset <$> chunks_ (set_chunk_at a (Z.of_nat i) c')) = bump_offset <$> chunks_ a).
  { cbn. rewrite Nat2Z.id, list_fmap_insert. apply list_insert_id. rewrite list_lookup_fmap, Hl. done. }
  split_and!; try done.
  - constructor.
    + apply Ha.
    + cbn. rewrite length_insert. apply Ha.
    + intros j x Hx. cbn [erased_front_chunks_count_ set_chunk_at]. destruct (set_chunk_at_lookup a i c' c j x Hl Hx) as [[-> ->]|[Hne Hj]].
      * replace (erased_front_chunks_count_ a + Z.of_nat i) with id.1 by lia. rewrite (in_chunk_delete _ _ _ _ Hid), decide_True in Hco by done.
        destruct Hco. constructor; cbn; try done; lia.
      * pose proof (bo_chunks _ _ _ Ha _ _ Hj) as Hjo. rewrite (in_chunk_delete _ _ _ _ Hid), decide_False in Hjo by lia. done.
    + intros id2 n2. rewrite lookup_delete_Some. intros [Hne H2]. destruct (bo_live _ _ _ Ha _ _ H2) as [c2 Hc2].
      destruct (decide (Z.to_nat (id2.1 - erased_front_chunks_count_ a) = i)) as [E|E].
      * pose proof (al_chunk _ _ _ _ Hc2) as Hl2. rewrite E in Hl2. assert (c2 = c) by congruence. subst c2. exists c'. destruct Hc2.
        constructor; cbn; try done. rewrite Nat2Z.id, E. by rewrite list_lookup_insert_eq by by eapply lookup_lt_Some.
      * exists c2. destruct Hc2. constructor; cbn; try done. rewrite Nat2Z.id. by rewrite list_lookup_insert_ne by done.
    + intros id1 n1 id2 n2. rewrite !lookup_delete_Some. intros [_ H1] [_ H2]. by eapply (bo_apart _ _ _ Ha).
  - cbn. by rewrite length_insert.
  - unfold past_pos. assert (Hlast : (bump_offset <$> last (chunks_ (set_chunk_at a (Z.of_nat i) c'))) = bump_offset <$> last (chunks_ a)).
    { by rewrite <- !fmap_last, Hb. }
    cbn [erased_front_chunks_count_ set_chunk_at chunks_] in *. rewrite length_insert.
    destruct (last (<[_:=_]> _)), (last (chunks_ a)); cbn in Hlast; congruence.
  - intros id' n'. unfold cells. cbn [chunks_ erased_front_chunks_count_ set_chunk_at]. rewrite Nat2Z.id.
    destruct (decide (i = Z.to_nat (id'.1 - erased_front_chunks_count_ a))) as [<-|Hne].
    + by rewrite list_lookup_insert_eq, Hl by by eapply lookup_lt_Some.
    + by rewrite list_lookup_insert_ne by done.
Qed.

(** Giving back free chunks loses nothing. *)
Lemma count_free_spec l : (count_free l <= length l)%nat /\ forall i c, l !! i = Some c -> (i < count_free l)%nat -> unfreed_allocations c <= 0.
Proof.
  induction l as [|c l [IH1 IH2]]; cbn [count_free length]; [split; [lia|done]|].
  destruct (Z.ltb_spec 0 (unfreed_allocations c)); split; try lia. intros [|i] x Hx Hlt; [injection Hx as <-; lia|]. apply (IH2 i x Hx). lia.
Qed.

Lemma EraseFront_ok total a live : total <= 2 ^ 42 -> bump_ok total a live ->
  let k := count_free (chunks_ a) in
  let a' := mkBump (drop k (chunks_ a)) (erased_front_chunks_count_ a + Z.of_nat k) in
  EraseFrontFreeChunks a = (a', Z.of_nat k) /\ bump_ok total a' live /\ past_pos a <= past_pos a' /\ (k <= length (chunks_ a))%nat /\
  (forall id n, live !! id = Some n -> cells a' id n = cells a id n).
Proof.
  intros Ht Ha k a'. destruct (count_free_spec (chunks_ a)) as [Hk Hfree]. fold k in Hk, Hfree.
  pose proof (bo_erased _ _ _ Ha) as He. pose proof (bo_total _ _ _ Ha) as Htot.
  assert (Hlow : forall id n, live !! id = Some n -> erased_front_chunks_count_ a + Z.of_nat k <= id.1).
  { intros id n Hid. destruct (bo_live _ _ _ Ha _ _ Hid) as [c Hc]. pose proof (al_chunk _ _ _ _ Hc) as Hl. pose proof (al_index _ _ _ _ Hc).
    destruct (decide (erased_front_chunks_count_ a + Z.of_nat k <= id.1)) as [|Hlt]; [done|]. exfalso.
    pose proof (Hfree _ _ Hl ltac:(lia)) as H0. pose proof (ck_count _ _ (bo_chunks _ _ _ Ha _ _ Hl)) as H1. pose proof (in_chunk_pos _ _ _ Hid) as H2.
    replace (erased_front_chunks_count_ a + Z.of_nat (Z.to_nat (id.1 - erased_front_chunks_count_ a))) with id.1 in H1 by lia. lia. }
  split_and!.
  - unfold EraseFrontFreeChunks. fold k. rewrite u64_id by (unfold is_u64; lia). done.
  - constructor; cbn [a' chunks_ erased_front_chunks_count_].
    + lia.
    + rewrite length_drop. lia.
    + intros i c Hi. rewrite lookup_drop in Hi. replace (_ + Z.of_nat k + Z.of_nat i) with (erased_front_chunks_count_ a + Z.of_nat (k + i)) by lia.
      by apply (bo_chunks _ _ _ Ha).
    + intros id n Hid. destruct (bo_live _ _ _ Ha _ _ Hid) as [c []]. exists c. pose proof (Hlow _ _ Hid). constructor; cbn; try done.
      rewrite lookup_drop. rewrite <- al_chunk0. f_equal. lia.
    + apply Ha.
  - unfold past_pos. cbn [a' chunks_ erased_front_chunks_count_]. rewrite !last_lookup, lookup_drop, length_drop.
    destruct (decide (length (chunks_ a) <= k)%nat) as [Hall|].
    + rewrite (lookup_ge_None_2 (chunks_ a) (k + _)) by lia. destruct (chunks_ a !! pred (length (chunks_ a))) as [c|] eqn:E; [|lia].
      pose proof (ck_bump _ _ (bo_chunks _ _ _ Ha _ _ E)). lia.
    + replace (k + pred (length (chunks_ a) - k))%nat with (pred (length (chunks_ a))) by lia. destruct (chunks_ a !! _); lia.
  - done.
  - intros id n Hid. pose proof (Hlow _ _ Hid). unfold cells. cbn [a' chunks_ erased_front_chunks_count_]. rewrite lookup_drop.
    by replace (k + Z.to_nat _)%nat with (Z.to_nat (id.1 - erased_front_chunks_count_ a)) by lia.
Qed.

Lemma PastTheEndId_ok total a live : total < 2 ^ 42 -> bump_ok total a live ->
  exists id, PastTheEndId a = Some id /\ id_pos id = past_pos a /\ 0 <= id.2 < 65536.
Proof.
  intros Ht Ha. pose proof (bo_erased _ _ _ Ha) as He. pose proof (bo_total _ _ _ Ha) as Htot.
  unfold PastTheEndId, past_pos, LastChunkIndex, QueueIndexToChunkIndex. destruct (last (chunks_ a)) as [c|] eqn:E.
  - pose proof E as E'. rewrite last_lookup in E'. pose proof (lookup_lt_Some _ _ _ E'). pose proof (ck_bump _ _ (bo_chunks _ _ _ Ha _ _ E')).
    rewrite bool_decide_false by (intros F; by rewrite F in E). cbn [mbind option_bind]. rewrite u64_id by (unfold is_u64; lia).
    change kChunkSize with 65536. destruct (Z.eqb_spec (bump_offset c) 65536); rewrite mkAllocId_id by lia; eexists; (split; [done|]); unfold id_pos; cbn; lia.
  - apply last_None in E. rewrite E in Htot. cbn in Htot. rewrite mkAllocId_id by lia. eexists. split; [done|]. unfold id_pos; cbn. lia.
Qed.

Lemma new_bump_ok total : 0 <= total -> bump_ok total BumpAllocator_new ∅.
Proof. intros Ht. by constructor; cbn; try done; try lia. Qed.

(** ** The cells of an allocation *)

Fixpoint store_cells a (ptr : Z * Z) (ws : list W) : option (BumpAllocator * (Z * Z)) :=
  match ws with
  | [] => Some (a, ptr)
  | w :: ws => a ← store_cell a ptr w; store_cells a (ptr.1, ptr.2 + 8) ws
  end.

(** A change of the contents only. *)
Record same_layout (a a' : BumpAllocator) : Prop := {
  sl_erased : erased_front_chunks_count_ a' = erased_front_chunks_count_ a;
  sl_bumps : (bump_offset <$> chunks_ a') = (bump_offset <$> chunks_ a) }.

Lemma same_layout_length a a' : same_layout a a' -> length (chunks_ a') = length (chunks_ a).
Proof. intros [_ H]. apply (f_equal length) in H. by rewrite !length_fmap in H. Qed.

Lemma same_layout_past a a' : same_layout a a' -> past_pos a' = past_pos a.
Proof.
  intros Hs. unfold past_pos. rewrite (same_layout_length a a' Hs). destruct Hs as [-> Hb]. apply (f_equal last) in Hb. rewrite !fmap_last in Hb.
  destruct (last (chunks_ a')), (last (chunks_ a)); cbn in Hb; congruence.
Qed.

#[global] Instance same_layout_preorder : PreOrder same_layout.
Proof. split; [by constructor|]. intros a b c [] []. constructor; congruence. Qed.

Lemma bump_cells_length total a live id n l : bump_ok total a live -> live !! id = Some n -> cells a id n = Some l -> length l = n.
Proof.
  intros Ha Hid. destruct (bo_live _ _ _ Ha _ _ Hid) as [c Hc]. unfold cells. rewrite (al_chunk _ _ _ _ Hc). intros [= <-].
  pose proof (bo_chunks _ _ _ Ha _ _ (al_chunk _ _ _ _ Hc)) as Hco. pose proof (ck_cells _ _ Hco). pose proof (ck_bump _ _ Hco). destruct Hc.
  rewrite length_take, length_drop. assert (id.2 = 8 * (id.2 / 8)) by (pose proof (Z.div_mod id.2 8); lia). lia.
Qed.

(** The cell [k] of an allocation. *)
Lemma cell_index o k : 0 <= o -> o mod 8 = 0 -> (o + 8 * Z.of_nat k) / 8 = o / 8 + Z.of_nat k /\ (o + 8 * Z.of_nat k) mod 8 = 0.
Proof. intros Ho Hm. split; [rewrite Z.mul_comm; apply Z.div_add; lia|]. rewrite Z.mul_comm, Z.mod_add by lia. done. Qed.

Lemma load_cell_ok total a live id n l k w : total <= 2 ^ 42 -> bump_ok total a live -> live !! id = Some n -> cells a id n = Some l ->
  l !! k = Some (Some w) -> load_cell a (id.1 - erased_front_chunks_count_ a, id.2 + 8 * Z.of_nat k) = Some w.
Proof.
  intros Ht Ha Hid Hl Hk. destruct (bo_live _ _ _ Ha _ _ Hid) as [c Hc]. unfold load_cell. cbn [fst snd].
  rewrite (chunk_at_ok total Ht a live id n c) by done. cbn [mbind option_bind].
  destruct (cell_index id.2 k (al_offset _ _ _ _ Hc) (al_align _ _ _ _ Hc)) as [-> ->]. pose proof (al_offset _ _ _ _ Hc).
  rewrite (proj2 (Z.leb_le _ _)) by lia. cbn [andb Z.eqb]. unfold cells in Hl. rewrite (al_chunk _ _ _ _ Hc) in Hl. injection Hl as <-.
  apply lookup_take_Some in Hk as [Hk _]. rewrite lookup_drop in Hk. assert (0 <= id.2 / 8) by (apply Z.div_pos; lia).
  replace (Z.to_nat (id.2 / 8 + Z.of_nat k)) with (Z.to_nat (id.2 / 8) + k)%nat by lia. by rewrite Hk.
Qed.

Lemma store_cell_ok total a live id n l k w : total <= 2 ^ 42 -> bump_ok total a live -> live !! id = Some n -> cells a id n = Some l -> (k < n)%nat ->
  exists a', store_cell a (id.1 - erased_front_chunks_count_ a, id.2 + 8 * Z.of_nat k) w = Some a' /\ bump_ok total a' live /\ same_layout a a' /\
    cells a' id n = Some (<[k := Some w]> l) /\ (forall id' n', live !! id' = Some n' -> id' <> id -> cells a' id' n' = cells a id' n').
Proof.
  intros Ht Ha Hid Hl Hk. destruct (bo_live _ _ _ Ha _ _ Hid) as [c Hc]. pose proof (al_chunk _ _ _ _ Hc) as Hi.
  pose proof (bo_chunks _ _ _ Ha _ _ Hi) as Hco. pose proof (ck_cells _ _ Hco) as Hcells. pose proof (ck_bump _ _ Hco).
  pose proof (al_offset _ _ _ _ Hc) as Ho. pose proof (al_end _ _ _ _ Hc) as Hend. pose proof (al_index _ _ _ _ Hc).
  assert (Ho8 : id.2 = 8 * (id.2 / 8)) by (pose proof (Z.div_mod id.2 8); pose proof (al_align _ _ _ _ Hc); lia).
  unfold store_cell. cbn [fst snd]. rewrite (chunk_at_ok total Ht a live id n c) by done. cbn [mbind option_bind].
  destruct (cell_index id.2 k (al_offset _ _ _ _ Hc) (al_align _ _ _ _ Hc)) as [-> ->].
  rewrite (proj2 (Z.leb_le _ _)), (proj2 (Z.ltb_lt _ _)) by lia. cbn [andb Z.eqb]. eexists. split; [done|].
  set (p := Z.to_nat (id.2 / 8 + Z.of_nat k)). set (c' := mkAChunk (<[p := Some w]> (allocation c)) (bump_offset c) (unfreed_allocations c)).
  set (i := Z.to_nat (id.1 - erased_front_chunks_count_ a)) in *. replace (id.1 - erased_front_chunks_count_ a) with (Z.of_nat i) by lia.
  assert (Hilt := lookup_lt_Some _ _ _ Hi). split; [|split; [|split]].
  - constructor.
    + apply Ha.
    + cbn. rewrite length_insert. apply Ha.
    + intros j x Hx. destruct (set_chunk_at_lookup a i c' c j x Hi Hx) as [[-> ->]|[_ Hj]]; [|by apply (bo_chunks _ _ _ Ha)].
      destruct Hco. constructor; cbn; try done. by rewrite length_insert.
    + intros id2 n2 H2. destruct (bo_live _ _ _ Ha _ _ H2) as [c2 Hc2]. destruct (decide (Z.to_nat (id2.1 - erased_front_chunks_count_ a) = i)) as [E|E].
      * pose proof (al_chunk _ _ _ _ Hc2) as Hl2. rewrite E in Hl2. assert (c2 = c) by congruence. subst c2. exists c'. destruct Hc2.
        constructor; cbn; try done. rewrite Nat2Z.id, E. by rewrite list_lookup_insert_eq.
      * exists c2. destruct Hc2. constructor; cbn; try done. rewrite Nat2Z.id. by rewrite list_lookup_insert_ne.
    + apply Ha.
  - constructor; [done|]. cbn. rewrite Nat2Z.id, list_fmap_insert. apply list_insert_id. by rewrite list_lookup_fmap, Hi.
  - unfold cells in *. cbn. rewrite Nat2Z.id. fold i in Hl |- *. rewrite Hi in Hl. injection Hl as <-. rewrite list_lookup_insert_eq by done. cbn.
    f_equal. replace p with (Z.to_nat (id.2 / 8) + k)%nat by lia. rewrite drop_insert_ge by lia. rewrite take_insert_lt by lia. do 2 f_equal. lia.
  - intros id' n' Hid' Hne. unfold cells. cbn. rewrite Nat2Z.id. destruct (decide (i = Z.to_nat (id'.1 - erased_front_chunks_count_ a))) as [E|E];
      [|by rewrite list_lookup_insert_ne by done]. rewrite <- E, list_lookup_insert_eq, Hi by done. cbn. f_equal.
    destruct (bo_live _ _ _ Ha _ _ Hid') as [c2 Hc2]. pose proof (al_index _ _ _ _ Hc2). assert (E1 : id'.1 = id.1) by lia.
    pose proof (al_offset _ _ _ _ Hc2). pose proof (al_align _ _ _ _ Hc2).
    assert (id'.2 = 8 * (id'.2 / 8)) by (pose proof (Z.div_mod id'.2 8); lia).
    destruct (Z.lt_total id.2 id'.2) as [Hlt|[Heq|Hlt]].
    + pose proof (bo_apart _ _ _ Ha _ _ _ _ Hid Hid' (eq_sym E1) Hlt). by rewrite drop_insert_lt by lia.
    + destruct id, id'; cbn in *; congruence.
    + pose proof (bo_apart _ _ _ Ha _ _ _ _ Hid' Hid E1 Hlt). rewrite drop_insert_ge by lia. by rewrite take_insert_ge by lia.
Qed.

Lemma store_cells_ok total live id n ws : total <= 2 ^ 42 -> live !! id = Some n -> forall a l k, bump_ok total a live -> cells a id n = Some l ->
  (k + length ws <= n)%nat ->
  exists a', store_cells a (id.1 - erased_front_chunks_count_ a, id.2 + 8 * Z.of_nat k) ws =
      Some (a', (id.1 - erased_front_chunks_count_ a, id.2 + 8 * Z.of_nat (k + length ws))) /\ bump_ok total a' live /\ same_layout a a' /\
    cells a' id n = Some (take k l ++ (Some <$> ws) ++ drop (k + length ws) l) /\
    (forall id' n', live !! id' = Some n' -> id' <> id -> cells a' id' n' = cells a id' n').
Proof.
  intros Ht Hid. induction ws as [|w ws IH]; intros a l k Ha Hl Hk; cbn [store_cells length] in *.
  - exists a. rewrite Nat.add_0_r. split_and!; try done. cbn. by rewrite take_drop.
  - destruct (store_cell_ok total a live id n l k w Ht Ha Hid Hl) as (a1 & -> & Ha1 & Hs1 & Hc1 & Hf1); [lia|]. cbn [mbind option_bind fst snd].
    destruct (IH a1 _ (S k) Ha1 Hc1) as (a2 & Hst & Ha2 & Hs2 & Hc2 & Hf2); [lia|]. rewrite (sl_erased _ _ Hs1) in Hst.
    replace (id.2 + 8 * Z.of_nat k + 8) with (id.2 + 8 * Z.of_nat (S k)) by lia. rewrite Hst. exists a2.
    replace (k + S (length ws))%nat with (S k + length ws)%nat by lia. split_and!; try done.
    + by etrans.
    + rewrite Hc2. f_equal. pose proof (bump_cells_length total a live id n l Ha Hid Hl) as Hlen.
      rewrite (take_S_r _ k (Some w)) by (apply list_lookup_insert_eq; lia). rewrite take_insert_ge by lia. rewrite drop_insert_lt by lia. by rewrite <- app_assoc.
    + intros id' n' H1 H2. rewrite Hf2, Hf1 by done. done.
Qed.
End Allocator.
Arguments AllocChunk : clear implicits.
Arguments BumpAllocator : clear implicits.
