(* ===== verification/TraceTokenBuffer.v ===== *)
(** * Tokens that wait to be sorted

    Models [src/trace_processor/sorter/trace_token_buffer.cc] and its header, with the
    tokenized objects of [importers/common/parser_types.h]: objects are stored in
    compressed form in the memory of a [BumpAllocator]; the trace blob and the
    sequence state that a packet refers to are kept in tables next to the chunk the
    packet is stored in.

    Blobs and sequence states are pointers; the references that they count are not
    modelled. A double is its bits. An object with a [std::string] takes the number of
    cells the platform says, the first of which stands for the string. *)

From stdpp Require Import sorting.
From S2P Require Import Prelude BumpAllocator.

(** The sizes of blobs, and the number of cells of a [std::string]. *)
Class TokenEnv := { blob_size : nat -> Z; string_cells : nat }.
Class TokenEnvOk `{TokenEnv} := string_cells_ok : 0 < Z.of_nat string_cells < 8192.

(** ** Tokenized objects *)

Record TraceBlobView := mkView { v_blob : nat; v_offset : Z; v_length : Z }.
Record TracePacketData := mkPacket { packet : TraceBlobView; sequence_state : nat }.
Record TrackEventData := mkTed {
  trace_packet_data : TracePacketData; thread_timestamp : option Z; thread_instruction_count : option Z;
  counter_value : Z; extra_counter_values : list Z }.

Definition kMaxNumExtraCounters : nat := 8.

(** [explicit TrackEventData(TracePacketData)]. *)
Definition TrackEventData_of (tpd : TracePacketData) : TrackEventData := mkTed tpd None None 0 (replicate kMaxNumExtraCounters 0).

(** Whether a double is equal to 0: positive or negative zero. *)
Definition is_zero (bits : Z) : bool := (bits =? 0) || (bits =? 2 ^ 63).

Fixpoint count_nonzero (l : list Z) : nat :=
  match l with
  | [] => 0
  | x :: l => if is_zero x then 0 else S (count_nonzero l)
  end.

Definition CountExtraCounterValues (ted : TrackEventData) : nat := count_nonzero (take kMaxNumExtraCounters (extra_counter_values ted)).

Inductive Token :=
  | TokPacket (tpd : TracePacketData)
  | TokTrackEvent (ted : TrackEventData)
  | TokJson (value : list Z)
  | TokJsonDur (dur : Z) (value : list Z).

(** [TimestampedEvent::Type] of the sorter. *)
Inductive EventType := kJsonValue | kJsonValueWithDur | kTracePacket | kTrackEvent.

#[global] Instance EventType_eq_dec : EqDecision EventType.
Proof. solve_decision. Defined.

Definition token_type (t : Token) : EventType :=
  match t with TokPacket _ => kTracePacket | TokTrackEvent _ => kTrackEvent | TokJson _ => kJsonValue | TokJsonDur _ _ => kJsonValueWithDur end.

(** ** Compressed form *)

Definition kMaxOffsetFromInternedBlob : Z := (1 << 25) - 1.

Record TrackEventDataDescriptor := mkDesc {
  intern_blob_index : Z; intern_seq_index : Z; intern_blob_offset : Z;
  has_thread_timestamp : bool; has_thread_instruction_count : bool; has_counter_value : bool; extra_counter_count : nat }.

Inductive Cell := CDesc (d : TrackEventDataDescriptor) | CInt (z : Z) | CDouble (bits : Z) | CString (s : list Z) | CPad.

Definition GetAllocSize (desc : TrackEventDataDescriptor) : Z :=
  8 + 8 + Z.b2z (has_thread_instruction_count desc) * 8 + Z.b2z (has_thread_timestamp desc) * 8 +
  Z.b2z (has_counter_value desc) * 8 + Z.of_nat (extra_counter_count desc) * 8.

Record TraceTokenBuffer := mkTB {
  allocator_ : BumpAllocator Cell; interned_blobs_ : list (list (nat * Z)); interned_seqs_ : list (list nat) }.

Definition TraceTokenBuffer_new : TraceTokenBuffer := mkTB BumpAllocator_new [] [].

Definition AppendToPtr (a : BumpAllocator Cell) (ptr : Z * Z) (value : Cell) : option (BumpAllocator Cell * (Z * Z)) :=
  a ← store_cell a ptr value;
  Some (a, (ptr.1, ptr.2 + 8)).

Definition ExtractFromPtr (a : BumpAllocator Cell) (ptr : Z * Z) : option (Cell * (Z * Z)) :=
  c ← load_cell a ptr;
  Some (c, (ptr.1, ptr.2 + 8)).

Section Buffer.
Context `{TokenEnv}.
Implicit Type b : TraceTokenBuffer.

Definition AllocAndResizeInternedVectors b (size : Z) : option (TraceTokenBuffer * AllocId) :=
  let erased := erased_front_chunks_count_ (allocator_ b) in
  '(a, alloc_id) ← Alloc (allocator_ b) size;
  let allocator_chunks_size := u64 (alloc_id.1 - erased + 1) in
  let n := Z.of_nat (length (interned_blobs_ b)) in
  if (n <=? allocator_chunks_size) && (allocator_chunks_size - n <=? 1) && (length (interned_blobs_ b) =? length (interned_seqs_ b))%nat then
    let chunks_added := Z.to_nat (allocator_chunks_size - n) in
    Some (mkTB a (interned_blobs_ b ++ replicate chunks_added []) (interned_seqs_ b ++ replicate chunks_added []), alloc_id)
  else None.

Definition GetInternedIndex b (alloc_id : AllocId) : option nat :=
  let interned_index := u64 (alloc_id.1 - erased_front_chunks_count_ (allocator_ b)) in
  if (interned_index <? Z.of_nat (length (interned_blobs_ b))) && (interned_index <? Z.of_nat (length (interned_seqs_ b))) &&
     (length (interned_blobs_ b) =? length (interned_seqs_ b))%nat
  then Some (Z.to_nat interned_index) else None.

Definition AddTraceBlob b (interned_index : nat) (tbv : TraceBlobView) : option (TraceTokenBuffer * Z) :=
  blobs ← interned_blobs_ b !! interned_index;
  let blobs := blobs ++ [(v_blob tbv, v_offset tbv)] in
  if Z.of_nat (length blobs) <=? 2 ^ 16 - 1
  then Some (mkTB (allocator_ b) (<[interned_index := blobs]> (interned_blobs_ b)) (interned_seqs_ b), 0) else None.

Definition InternTraceBlob b (interned_index : nat) (tbv : TraceBlobView) : option (TraceTokenBuffer * Z) :=
  blobs ← interned_blobs_ b !! interned_index;
  match last blobs with
  | None => AddTraceBlob b interned_index tbv
  | Some (last_blob, offset_in_blob) =>
      if negb (last_blob =? v_blob tbv)%nat then AddTraceBlob b interned_index tbv
      else if offset_in_blob <=? v_offset tbv then
        let rel_offset := v_offset tbv - offset_in_blob in
        if kMaxOffsetFromInternedBlob <? rel_offset then AddTraceBlob b interned_index tbv
        else Some (b, u32 rel_offset)
      else None
  end.

(** The search from the end; [i] counts the states that were looked at. *)
Fixpoint find_state (lookback : nat) (i : Z) (states : list nat) (ptr : nat) : option (option Z) :=
  match lookback with
  | O => Some None
  | S lookback =>
      let idx := u16 (Z.of_nat (length states) - 1 - i) in
      s ← states !! Z.to_nat idx;
      if (s =? ptr)%nat then Some (Some idx) else find_state lookback (i + 1) states ptr
  end.

Definition InternSeqState b (interned_index : nat) (ptr : nat) : option (TraceTokenBuffer * Z) :=
  states ← interned_seqs_ b !! interned_index;
  found ← find_state (min 32 (length states)) 0 states ptr;
  match found with
  | Some idx => Some (b, idx)
  | None =>
      let states := states ++ [ptr] in
      if Z.of_nat (length states) <=? 2 ^ 16 - 1 then
        Some (mkTB (allocator_ b) (interned_blobs_ b) (<[interned_index := states]> (interned_seqs_ b)), u16 (Z.of_nat (length states) - 1))
      else None
  end.

Definition append_optional (a : BumpAllocator Cell) (ptr : Z * Z) (has : bool) (value : option Cell) : option (BumpAllocator Cell * (Z * Z)) :=
  if has then v ← value; AppendToPtr a ptr v else Some (a, ptr).

Fixpoint append_counters (a : BumpAllocator Cell) (ptr : Z * Z) (values : list Z) : option (BumpAllocator Cell * (Z * Z)) :=
  match values with
  | [] => Some (a, ptr)
  | v :: values => '(a, ptr) ← AppendToPtr a ptr (CDouble v); append_counters a ptr values
  end.

(** [Append(TrackEventData)]. *)
Definition Append_TrackEventData b (ted : TrackEventData) : option (TraceTokenBuffer * AllocId) :=
  let has_ic := bool_decide (is_Some (thread_instruction_count ted)) in
  let has_ts := bool_decide (is_Some (thread_timestamp ted)) in
  let has_cv := negb (is_zero (counter_value ted)) in
  let extra := CountExtraCounterValues ted in
  '(b, alloc_id) ← AllocAndResizeInternedVectors b (GetAllocSize (mkDesc 0 0 0 has_ts has_ic has_cv extra));
  interned_index ← GetInternedIndex b alloc_id;
  let tpd := trace_packet_data ted in
  '(b, blob_offset) ← InternTraceBlob b interned_index (packet tpd);
  blobs ← interned_blobs_ b !! interned_index;
  let blob_index := u16 (Z.of_nat (length blobs) - 1) in
  '(b, seq_index) ← InternSeqState b interned_index (sequence_state tpd);
  let desc := mkDesc blob_index seq_index (blob_offset mod 2 ^ 25) has_ts has_ic has_cv extra in
  ptr ← GetPointer (allocator_ b) alloc_id;
  '(a, ptr) ← AppendToPtr (allocator_ b) ptr (CDesc desc);
  '(a, ptr) ← AppendToPtr a ptr (CInt (u64 (v_length (packet tpd))));
  '(a, ptr) ← append_optional a ptr has_ic (CInt <$> thread_instruction_count ted);
  '(a, ptr) ← append_optional a ptr has_ts (CInt <$> thread_timestamp ted);
  '(a, ptr) ← append_optional a ptr has_cv (Some (CDouble (counter_value ted)));
  '(a, ptr) ← append_counters a ptr (take extra (extra_counter_values ted));
  Some (mkTB a (interned_blobs_ b) (interned_seqs_ b), alloc_id).

(** [Append(TracePacketData)]. *)
Definition Append_TracePacketData b (tpd : TracePacketData) : option (TraceTokenBuffer * AllocId) :=
  Append_TrackEventData b (TrackEventData_of tpd).

(** [Append<T>] for an object of the given cells. *)
Definition Append_object b (object : list Cell) : option (TraceTokenBuffer * AllocId) :=
  '(b, id) ← AllocAndResizeInternedVectors b (8 * Z.of_nat (length object));
  ptr ← GetPointer (allocator_ b) id;
  '(a, _) ← store_cells (allocator_ b) ptr object;
  Some (mkTB a (interned_blobs_ b) (interned_seqs_ b), id).

Definition string_object (value : list Z) : list Cell := CString value :: replicate (string_cells - 1) CPad.

Definition Append_JsonEvent b (value : list Z) : option (TraceTokenBuffer * AllocId) := Append_object b (string_object value).
Definition Append_JsonWithDurEvent b (dur : Z) (value : list Z) : option (TraceTokenBuffer * AllocId) :=
  Append_object b (CInt dur :: string_object value).

Definition extract_int (a : BumpAllocator Cell) (ptr : Z * Z) : option (Z * (Z * Z)) :=
  '(c, ptr) ← ExtractFromPtr a ptr;
  match c with CInt z => Some (z, ptr) | _ => None end.

Definition extract_double (a : BumpAllocator Cell) (ptr : Z * Z) : option (Z * (Z * Z)) :=
  '(c, ptr) ← ExtractFromPtr a ptr;
  match c with CDouble z => Some (z, ptr) | _ => None end.

Definition extract_optional (extract : Z * Z -> option (Z * (Z * Z))) (has : bool) (ptr : Z * Z) : option (option Z * (Z * Z)) :=
  if has then '(v, ptr) ← extract ptr; Some (Some v, ptr) else Some (None, ptr).

Fixpoint extract_counters (a : BumpAllocator Cell) (n : nat) (ptr : Z * Z) : option (list Z * (Z * Z)) :=
  match n with
  | O => Some ([], ptr)
  | S n => '(v, ptr) ← extract_double a ptr; '(vs, ptr) ← extract_counters a n ptr; Some (v :: vs, ptr)
  end.

(** [TraceBlobView(blob, offset, length)]. *)
Definition TraceBlobView_new (blob : nat) (offset length : Z) : option TraceBlobView :=
  if offset + length <=? blob_size blob then Some (mkView blob offset length) else None.

(** [Extract<TrackEventData>]. *)
Definition Extract_TrackEventData b (id : AllocId) : option (TraceTokenBuffer * TrackEventData) :=
  let a := allocator_ b in
  ptr ← GetPointer a id;
  '(c, ptr) ← ExtractFromPtr a ptr;
  match c with
  | CDesc desc =>
      '(packet_size, ptr) ← extract_int a ptr;
      interned_index ← GetInternedIndex b id;
      blobs ← interned_blobs_ b !! interned_index;
      '(blob, offset_in_blob) ← blobs !! Z.to_nat (intern_blob_index desc);
      tbv ← TraceBlobView_new blob (offset_in_blob + intern_blob_offset desc) (u32 packet_size);
      seqs ← interned_seqs_ b !! interned_index;
      seq ← seqs !! Z.to_nat (intern_seq_index desc);
      '(ic, ptr) ← extract_optional (extract_int a) (has_thread_instruction_count desc) ptr;
      '(ts, ptr) ← extract_optional (extract_int a) (has_thread_timestamp desc) ptr;
      '(cv, ptr) ← extract_optional (extract_double a) (has_counter_value desc) ptr;
      '(extra, _) ← extract_counters a (extra_counter_count desc) ptr;
      if (length extra <=? kMaxNumExtraCounters)%nat then
        a ← Free a id;
        Some (mkTB a (interned_blobs_ b) (interned_seqs_ b),
              mkTed (mkPacket tbv seq) ts ic (default 0 cv) (extra ++ replicate (kMaxNumExtraCounters - length extra) 0))
      else None
  | _ => None
  end.

(** [Extract<TracePacketData>]. *)
Definition Extract_TracePacketData b (id : AllocId) : option (TraceTokenBuffer * TracePacketData) :=
  '(b, ted) ← Extract_TrackEventData b id;
  Some (b, trace_packet_data ted).

(** [Extract<JsonEvent>] and [Extract<JsonWithDurEvent>]. *)
Definition Extract_JsonEvent b (id : AllocId) : option (TraceTokenBuffer * list Z) :=
  ptr ← GetPointer (allocator_ b) id;
  c ← load_cell (allocator_ b) ptr;
  match c with
  | CString value => a ← Free (allocator_ b) id; Some (mkTB a (interned_blobs_ b) (interned_seqs_ b), value)
  | _ => None
  end.

(** [Get<JsonWithDurEvent>(id)->dur]. *)
Definition Get_dur b (id : AllocId) : option Z :=
  ptr ← GetPointer (allocator_ b) id;
  '(dur, _) ← extract_int (allocator_ b) ptr;
  Some dur.

Definition Extract_JsonWithDurEvent b (id : AllocId) : option (TraceTokenBuffer * (Z * list Z)) :=
  ptr ← GetPointer (allocator_ b) id;
  '(dur, ptr) ← extract_int (allocator_ b) ptr;
  c ← load_cell (allocator_ b) ptr;
  match c with
  | CString value => a ← Free (allocator_ b) id; Some (mkTB a (interned_blobs_ b) (interned_seqs_ b), (dur, value))
  | _ => None
  end.

Definition PastTheEndAllocId b : option AllocId := PastTheEndId (allocator_ b).

Definition FreeMemory b : option TraceTokenBuffer :=
  let '(a, erased) := EraseFrontFreeChunks (allocator_ b) in
  let b := mkTB a (drop (Z.to_nat erased) (interned_blobs_ b)) (drop (Z.to_nat erased) (interned_seqs_ b)) in
  if (length (interned_blobs_ b) =? length (interned_seqs_ b))%nat then Some b else None.

(** Appending and extracting any token. *)
Definition Append_token b (t : Token) : option (TraceTokenBuffer * AllocId) :=
  match t with
  | TokPacket tpd => Append_TracePacketData b tpd
  | TokTrackEvent ted => Append_TrackEventData b ted
  | TokJson value => Append_JsonEvent b value
  | TokJsonDur dur value => Append_JsonWithDurEvent b dur value
  end.

Definition Extract_token (type : EventType) b (id : AllocId) : option (TraceTokenBuffer * Token) :=
  match type with
  | kTracePacket => '(b, tpd) ← Extract_TracePacketData b id; Some (b, TokPacket tpd)
  | kTrackEvent => '(b, ted) ← Extract_TrackEventData b id; Some (b, TokTrackEvent ted)
  | kJsonValue => '(b, value) ← Extract_JsonEvent b id; Some (b, TokJson value)
  | kJsonValueWithDur => '(b, r) ← Extract_JsonWithDurEvent b id; Some (b, TokJsonDur r.1 r.2)
  end.
End Buffer.

(** ** What is stored *)

Definition opt_cell (o : option Cell) : list Cell := match o with Some c => [c] | None => [] end.

Definition ted_cells (desc : TrackEventDataDescriptor) (ted : TrackEventData) : list Cell :=
  [CDesc desc; CInt (u64 (v_length (packet (trace_packet_data ted))))] ++ opt_cell (CInt <$> thread_instruction_count ted) ++
  opt_cell (CInt <$> thread_timestamp ted) ++ (if negb (is_zero (counter_value ted)) then [CDouble (counter_value ted)] else []) ++
  (CDouble <$> take (CountExtraCounterValues ted) (extra_counter_values ted)).

(** The flags of a descriptor and the entries that it refers to. *)
Record describes (blobs : list (nat * Z)) (seqs : list nat) (desc : TrackEventDataDescriptor) (ted : TrackEventData) : Prop := {
  ds_ic : has_thread_instruction_count desc = bool_decide (is_Some (thread_instruction_count ted));
  ds_ts : has_thread_timestamp desc = bool_decide (is_Some (thread_timestamp ted));
  ds_cv : has_counter_value desc = negb (is_zero (counter_value ted));
  ds_extra : extra_counter_count desc = CountExtraCounterValues ted;
  ds_blob : exists base, blobs !! Z.to_nat (intern_blob_index desc) = Some (v_blob (packet (trace_packet_data ted)), base) /\
    base + intern_blob_offset desc = v_offset (packet (trace_packet_data ted));
  ds_seq : seqs !! Z.to_nat (intern_seq_index desc) = Some (sequence_state (trace_packet_data ted)) }.

Definition token_ted (t : Token) : option TrackEventData :=
  match t with TokPacket tpd => Some (TrackEventData_of tpd) | TokTrackEvent ted => Some ted | _ => None end.

Section Stored.
Context `{TokenEnv}.

Definition token_object (t : Token) : list Cell :=
  match t with TokJson value => string_object value | TokJsonDur dur value => CInt dur :: string_object value | _ => [] end.

Definition encodes (blobs : list (nat * Z)) (seqs : list nat) (t : Token) (ws : list Cell) : Prop :=
  match token_ted t with
  | Some ted => exists desc, ws = ted_cells desc ted /\ describes blobs seqs desc ted
  | None => ws = token_object t
  end.

Definition token_cells (t : Token) : nat :=
  match token_ted t with
  | Some ted => length (ted_cells (mkDesc 0 0 0 false false false 0) ted)
  | None => length (token_object t)
  end.

(** What comes back: counters past the first zero one are not stored, and a negative
    zero comes back as zero. *)
Definition stored_ted (ted : TrackEventData) : TrackEventData :=
  let n := CountExtraCounterValues ted in
  mkTed (trace_packet_data ted) (thread_timestamp ted) (thread_instruction_count ted)
    (if is_zero (counter_value ted) then 0 else counter_value ted)
    (take n (extra_counter_values ted) ++ replicate (kMaxNumExtraCounters - n) 0).

Definition stored_token (t : Token) : Token := match t with TokTrackEvent ted => TokTrackEvent (stored_ted ted) | _ => t end.

(** Tokens of which everything is stored: no counter is a negative zero, and none that is
    not zero comes after one that is. *)
Definition kept_whole (t : Token) : Prop :=
  match t with
  | TokTrackEvent ted =>
      let n := CountExtraCounterValues ted in
      (is_zero (counter_value ted) = true -> counter_value ted = 0) /\ drop n (extra_counter_values ted) = replicate (kMaxNumExtraCounters - n) 0
  | _ => True
  end.

Lemma stored_whole t : kept_whole t -> stored_token t = t.
Proof.
  destruct t as [tpd|ted|value|dur value]; try done. intros [Hz Hd]. cbn. unfold stored_ted. rewrite <- Hd, take_drop.
  destruct ted as [a b c v e]. cbn in *. do 2 f_equal. destruct (is_zero v); [by rewrite Hz|done].
Qed.

Definition view_ok (v : TraceBlobView) : Prop := 0 <= v_offset v /\ is_u32 (v_length v) /\ v_offset v + v_length v <= blob_size (v_blob v).

Definition token_ok (t : Token) : Prop :=
  match token_ted t with
  | Some ted => view_ok (packet (trace_packet_data ted)) /\ length (extra_counter_values ted) = kMaxNumExtraCounters
  | None => True
  end.

(** The blob that a token is a view of, and where. *)
Definition token_view (t : Token) : option (nat * Z) :=
  (fun ted => let v := packet (trace_packet_data ted) in (v_blob v, v_offset v)) <$> token_ted t.

(** Views of one blob come in the order of their offsets. *)
Definition in_order (seen : list (nat * Z)) (t : Token) : Prop :=
  match token_view t with
  | Some (blob, offset) => Forall (fun v => v.1 = blob -> v.2 <= offset) seen
  | None => True
  end.

Definition seen_after (seen : list (nat * Z)) (t : Token) : list (nat * Z) := seen ++ match token_view t with Some v => [v] | None => [] end.

Definition stored (b : TraceTokenBuffer) (id : AllocId) (t : Token) : Prop :=
  exists ws blobs seqs, cells (allocator_ b) id (token_cells t) = Some (Some <$> ws) /\
    interned_blobs_ b !! Z.to_nat (id.1 - erased_front_chunks_count_ (allocator_ b)) = Some blobs /\
    interned_seqs_ b !! Z.to_nat (id.1 - erased_front_chunks_count_ (allocator_ b)) = Some seqs /\
    encodes blobs seqs t ws.

(** Room for one more entry in the tables of every chunk: an entry belongs to an
    allocation of at least two cells. *)
Definition fits {A} (a : BumpAllocator Cell) (tables : list (list A)) : Prop :=
  forall i c l, chunks_ a !! i = Some c -> tables !! i = Some l -> 16 * Z.of_nat (length l) <= bump_offset c.

(** The buffer holds the tokens [live]; [total] bounds the number of appends and
    [seen] lists the views that were appended. *)
Record tb_ok (total : Z) (seen : list (nat * Z)) (b : TraceTokenBuffer) (live : gmap AllocId Token) : Prop := {
  tb_bump : bump_ok total (allocator_ b) (token_cells <$> live);
  tb_blobs : length (interned_blobs_ b) = length (chunks_ (allocator_ b));
  tb_seqs : length (interned_seqs_ b) = length (chunks_ (allocator_ b));
  tb_blobs_fit : fits (allocator_ b) (interned_blobs_ b);
  tb_seqs_fit : fits (allocator_ b) (interned_seqs_ b);
  tb_seen : forall i l v, interned_blobs_ b !! i = Some l -> v ∈ l -> v ∈ seen;
  tb_stored : forall id t, live !! id = Some t -> stored b id t }.

(** ** Reading back *)

Definition at_ptr (a : BumpAllocator Cell) (ptr : Z * Z) (ws : list Cell) : Prop :=
  forall i w, ws !! i = Some w -> load_cell a (ptr.1, ptr.2 + 8 * Z.of_nat i) = Some w.

Definition after (ptr : Z * Z) (ws : list Cell) : Z * Z := (ptr.1, ptr.2 + 8 * Z.of_nat (length ws)).

Lemma after_nil ptr : after ptr [] = ptr.
Proof. destruct ptr. unfold after. cbn. f_equal. lia. Qed.

Lemma at_ptr_app a ptr ws ws' : at_ptr a ptr (ws ++ ws') -> at_ptr a (after ptr ws) ws'.
Proof.
  intros Hp i w Hw. cbn [after fst snd]. rewrite <- (Hp (length ws + i)%nat w); [f_equal; f_equal; lia|].
  rewrite lookup_app_r by lia. by replace (length ws + i - length ws)%nat with i by lia.
Qed.

Lemma extract_at a ptr w ws : at_ptr a ptr (w :: ws) -> ExtractFromPtr a ptr = Some (w, after ptr [w]).
Proof.
  intros Hp. unfold ExtractFromPtr. specialize (Hp 0%nat w eq_refl). cbn in Hp. rewrite Z.add_0_r in Hp. destruct ptr. cbn in *. by rewrite Hp.
Qed.

Lemma extract_int_at a ptr z ws : at_ptr a ptr (CInt z :: ws) -> extract_int a ptr = Some (z, after ptr [CInt z]).
Proof. intros Hp. unfold extract_int. by rewrite (extract_at _ _ _ _ Hp). Qed.

Lemma extract_double_at a ptr z ws : at_ptr a ptr (CDouble z :: ws) -> extract_double a ptr = Some (z, after ptr [CDouble z]).
Proof. intros Hp. unfold extract_double. by rewrite (extract_at _ _ _ _ Hp). Qed.

Lemma extract_optional_int a ptr o ws : at_ptr a ptr (opt_cell (CInt <$> o) ++ ws) ->
  extract_optional (extract_int a) (bool_decide (is_Some o)) ptr = Some (o, after ptr (opt_cell (CInt <$> o))).
Proof.
  intros Hp. destruct o as [z|]; cbn in *.
  - by rewrite (extract_int_at _ _ _ _ Hp).
  - by rewrite after_nil.
Qed.

Lemma extract_counters_at a vs : forall ptr ws, at_ptr a ptr ((CDouble <$> vs) ++ ws) ->
  extract_counters a (length vs) ptr = Some (vs, after ptr (CDouble <$> vs)).
Proof.
  induction vs as [|v vs IH]; intros ptr ws Hp; cbn [extract_counters length fmap list_fmap app] in *.
  - by rewrite after_nil.
  - rewrite (extract_double_at _ _ _ _ Hp). cbn [mbind option_bind].
    rewrite (IH (after ptr [CDouble v]) ws) by (apply (at_ptr_app a ptr [CDouble v]); exact Hp). cbn [mbind option_bind].
    do 2 f_equal. unfold after; cbn. f_equal. lia.
Qed.

Lemma count_nonzero_le l : (count_nonzero l <= length l)%nat.
Proof. induction l as [|x l IH]; cbn; [lia|]. destruct (is_zero x); lia. Qed.

Lemma CountExtra_le ted : (CountExtraCounterValues ted <= kMaxNumExtraCounters)%nat.
Proof. unfold CountExtraCounterValues. etrans; [apply count_nonzero_le|]. rewrite length_take. lia. Qed.

Lemma token_cells_bounds `{!TokenEnvOk} t : 0 < Z.of_nat (token_cells t) <= 8192 /\ (token_ted t <> None -> (2 <= token_cells t)%nat).
Proof.
  unfold token_cells. destruct (token_ted t) as [ted|] eqn:E.
  - unfold ted_cells. rewrite !length_app, length_fmap, length_take. cbn [length]. pose proof (CountExtra_le ted). unfold kMaxNumExtraCounters in *.
    destruct (thread_instruction_count ted), (thread_timestamp ted), (negb _); cbn [opt_cell fmap option_fmap option_map length]; (split; [|intros _]); lia.
  - pose proof string_cells_ok. destruct t; try done; cbn [token_object string_object length]; rewrite length_replicate; split; try done; lia.
Qed.

Lemma encodes_length blobs seqs t ws : encodes blobs seqs t ws -> length ws = token_cells t.
Proof. unfold encodes, token_cells. destruct (token_ted t); [by intros (desc & -> & _)|by intros ->]. Qed.

Section Ok.
Context (total : Z) (Ht : total <= 2 ^ 42).
Implicit Types (b : TraceTokenBuffer) (live : gmap AllocId Token).

Lemma live_cells live id t : live !! id = Some t -> (token_cells <$> live) !! id = Some (token_cells t).
Proof. intros Hid. by rewrite lookup_fmap, Hid. Qed.

Lemma live_id_range seen b live id t : tb_ok total seen b live -> live !! id = Some t ->
  erased_front_chunks_count_ (allocator_ b) <= id.1 < erased_front_chunks_count_ (allocator_ b) + Z.of_nat (length (chunks_ (allocator_ b))) /\
  0 <= id.2 < 65536 /\ id_pos id < past_pos (allocator_ b) /\ 0 <= id.1 < 2 ^ 42.
Proof.
  intros Hb Hid. apply live_cells in Hid. destruct (bo_live _ _ _ (tb_bump _ _ _ _ Hb) _ _ Hid) as [c Hc]. pose proof (al_pos _ _ _ _ Hc).
  destruct (live_range total Ht _ _ _ _ (tb_bump _ _ _ _ Hb) Hid) as (? & ? & ? & ?). split_and!; lia.
Qed.

Lemma GetPointer_ok seen b live id t : tb_ok total seen b live -> live !! id = Some t ->
  GetPointer (allocator_ b) id = Some (id.1 - erased_front_chunks_count_ (allocator_ b), id.2).
Proof.
  intros Hb Hid. apply live_cells in Hid. pose proof (tb_bump _ _ _ _ Hb) as Ha. destruct (bo_live _ _ _ Ha _ _ Hid) as [c Hc].
  unfold GetPointer. rewrite (queue_index_ok total Ht _ _ _ _ Ha Hid). by rewrite (chunk_at_ok total Ht _ _ _ _ _ Ha Hid Hc).
Qed.

Lemma stored_at seen b live id t : tb_ok total seen b live -> live !! id = Some t ->
  exists ws blobs seqs, at_ptr (allocator_ b) (id.1 - erased_front_chunks_count_ (allocator_ b), id.2) ws /\ encodes blobs seqs t ws /\
    interned_blobs_ b !! Z.to_nat (id.1 - erased_front_chunks_count_ (allocator_ b)) = Some blobs /\
    interned_seqs_ b !! Z.to_nat (id.1 - erased_front_chunks_count_ (allocator_ b)) = Some seqs.
Proof.
  intros Hb Hid. destruct (tb_stored _ _ _ _ Hb _ _ Hid) as (ws & blobs & seqs & Hc & Hbl & Hs & Henc). exists ws, blobs, seqs. split_and!; try done.
  intros k w Hw. cbn [fst snd]. eapply (load_cell_ok total); [done|apply Hb|by apply live_cells|done|]. by rewrite list_lookup_fmap, Hw.
Qed.

Lemma GetInternedIndex_ok seen b live id : tb_ok total seen b live ->
  erased_front_chunks_count_ (allocator_ b) <= id.1 < erased_front_chunks_count_ (allocator_ b) + Z.of_nat (length (chunks_ (allocator_ b))) ->
  GetInternedIndex b id = Some (Z.to_nat (id.1 - erased_front_chunks_count_ (allocator_ b))).
Proof.
  intros Hb Hid. pose proof (bo_total _ _ _ (tb_bump _ _ _ _ Hb)). pose proof (bo_erased _ _ _ (tb_bump _ _ _ _ Hb)).
  pose proof (tb_blobs _ _ _ _ Hb). pose proof (tb_seqs _ _ _ _ Hb). unfold GetInternedIndex. rewrite u64_id by (unfold is_u64; lia).
  rewrite !(proj2 (Z.ltb_lt _ _)) by lia. by rewrite (proj2 (Nat.eqb_eq _ _)) by lia.
Qed.

Lemma fits_layout {A} (a a' : BumpAllocator Cell) (tables : list (list A)) :
  (bump_offset <$> chunks_ a') = (bump_offset <$> chunks_ a) -> fits a tables -> fits a' tables.
Proof.
  intros Hl Hf i c l Hc Htab. apply (f_equal (fun x => x !! i)) in Hl. rewrite !list_lookup_fmap, Hc in Hl. cbn in Hl.
  destruct (chunks_ a !! i) as [c0|] eqn:E; [|done]. injection Hl as ->. by eapply Hf.
Qed.

Lemma free_token seen b live id t : tb_ok total seen b live -> live !! id = Some t ->
  exists a', Free (allocator_ b) id = Some a' /\ tb_ok total seen (mkTB a' (interned_blobs_ b) (interned_seqs_ b)) (delete id live) /\
    past_pos a' = past_pos (allocator_ b).
Proof.
  intros Hb Hid. destruct (Free_ok total _ _ id _ Ht (tb_bump _ _ _ _ Hb) (live_cells _ _ _ Hid)) as (a' & -> & Ha' & He & Hlen & Hp & Hbump & Hcells).
  exists a'. split; [done|]. split; [|done]. destruct Hb. constructor; cbn [allocator_ interned_blobs_ interned_seqs_]; rewrite ?Hlen; try done.
  - by rewrite fmap_delete.
  - by eapply fits_layout.
  - by eapply fits_layout.
  - intros id2 t2. rewrite lookup_delete_Some. intros [_ H2]. destruct (tb_stored0 _ _ H2) as (ws & blobs & seqs & ? & ? & ? & ?).
    exists ws, blobs, seqs. cbn [allocator_ interned_blobs_ interned_seqs_]. rewrite He, Hcells. done.
Qed.

Lemma ted_back seen b live id t ted : tb_ok total seen b live -> live !! id = Some t -> token_ted t = Some ted -> token_ok t ->
  exists b', Extract_TrackEventData b id = Some (b', stored_ted ted) /\ tb_ok total seen b' (delete id live) /\
    past_pos (allocator_ b') = past_pos (allocator_ b).
Proof.
  intros Hb Hid Hted Hok. destruct (stored_at _ _ _ _ _ Hb Hid) as (ws & blobs & seqs & Hat & Henc & Hbl & Hsq).
  destruct (free_token _ _ _ _ _ Hb Hid) as (a' & Hfree & Hb' & Hp). destruct (live_id_range _ _ _ _ _ Hb Hid) as (Hr & _).
  unfold encodes in Henc. unfold token_ok in Hok. rewrite Hted in Henc, Hok. destruct Henc as (desc & -> & [Hic Hts Hcv Hex (base & Hbase & Hoff) Hseq]).
  destruct Hok as [(Ho & Hlen & Hsz) Hex8]. unfold Extract_TrackEventData. rewrite (GetPointer_ok _ _ _ _ _ Hb Hid). cbn [mbind option_bind].
  set (ptr := (_, id.2)) in *. unfold ted_cells in Hat.
  rewrite u64_id in Hat by (unfold is_u32, is_u64 in *; lia). rewrite (extract_at _ _ _ _ Hat). cbn [mbind option_bind].
  apply (at_ptr_app _ _ [_]) in Hat. rewrite (extract_int_at _ _ _ _ Hat). cbn [mbind option_bind].
  apply (at_ptr_app _ _ [_]) in Hat. rewrite (GetInternedIndex_ok _ _ _ _ Hb Hr). cbn [mbind option_bind]. rewrite Hbl. cbn [mbind option_bind].
  rewrite Hbase. cbn [mbind option_bind]. unfold TraceBlobView_new. rewrite Hoff, u32_id by done.
  rewrite (proj2 (Z.leb_le _ _)) by done. cbn [mbind option_bind]. rewrite Hsq. cbn [mbind option_bind]. rewrite Hseq. cbn [mbind option_bind].
  rewrite Hic, (extract_optional_int _ _ _ _ Hat). cbn [mbind option_bind]. apply at_ptr_app in Hat.
  rewrite Hts, (extract_optional_int _ _ _ _ Hat). cbn [mbind option_bind]. apply at_ptr_app in Hat.
  rewrite Hcv, Hex. set (ptr2 := after _ _) in *.
  assert (Hd : extract_optional (extract_double (allocator_ b)) (negb (is_zero (counter_value ted))) ptr2 =
    Some (if is_zero (counter_value ted) then None else Some (counter_value ted),
          after ptr2 (if negb (is_zero (counter_value ted)) then [CDouble (counter_value ted)] else []))).
  { destruct (is_zero (counter_value ted)); cbn [negb extract_optional] in *.
    - by rewrite after_nil.
    - by rewrite (extract_double_at _ _ _ _ Hat). }
  rewrite Hd. cbn [mbind option_bind]. apply at_ptr_app in Hat. rewrite <- (app_nil_r (CDouble <$> _)) in Hat. pose proof (CountExtra_le ted) as Hle.
  pose proof (extract_counters_at _ _ _ _ Hat) as Hx. rewrite length_take, Hex8, Nat.min_l in Hx by lia. rewrite Hx. cbn [mbind option_bind].
  rewrite length_take, Hex8, Nat.min_l by lia.
  rewrite (proj2 (Nat.leb_le _ _)) by done. rewrite Hfree. cbn [mbind option_bind]. eexists. split_and!; [|done|done].
  do 2 f_equal. unfold stored_ted. f_equal; [|by destruct (is_zero _)]. destruct (trace_packet_data ted) as [[] ?]. done.
Qed.

(** Extraction returns what was stored. *)
Lemma Extract_token_ok seen b live id t : tb_ok total seen b live -> live !! id = Some t -> token_ok t ->
  exists b', Extract_token (token_type t) b id = Some (b', stored_token t) /\ tb_ok total seen b' (delete id live) /\
    past_pos (allocator_ b') = past_pos (allocator_ b).
Proof.
  intros Hb Hid Hok. destruct (stored_at _ _ _ _ _ Hb Hid) as (ws & blobs & seqs & Hat & Henc & _).
  destruct (free_token _ _ _ _ _ Hb Hid) as (a' & Hfree & Hb' & Hp).
  destruct t as [tpd|ted|value|dur value]; cbn [token_type Extract_token stored_token].
  - destruct (ted_back _ _ _ _ _ _ Hb Hid eq_refl Hok) as (b' & He & ? & ?). unfold Extract_TracePacketData. rewrite He. by exists b'.
  - destruct (ted_back _ _ _ _ _ _ Hb Hid eq_refl Hok) as (b' & -> & ? & ?). by exists b'.
  - cbn in Henc. subst ws. unfold Extract_JsonEvent. rewrite (GetPointer_ok _ _ _ _ _ Hb Hid). cbn [mbind option_bind].
    pose proof (Hat 0%nat _ eq_refl) as Hl. cbn [fst snd] in Hl. rewrite Z.add_0_r in Hl. rewrite Hl. cbn [mbind option_bind].
    rewrite Hfree. cbn [mbind option_bind]. by eexists.
  - cbn in Henc. subst ws. unfold Extract_JsonWithDurEvent. rewrite (GetPointer_ok _ _ _ _ _ Hb Hid). cbn [mbind option_bind].
    rewrite (extract_int_at _ _ _ _ Hat). cbn [mbind option_bind].
    pose proof (Hat 1%nat _ eq_refl) as Hl. cbn [fst snd] in Hl. unfold after; cbn [fst snd length]. rewrite Hl. cbn [mbind option_bind].
    rewrite Hfree. cbn [mbind option_bind]. by eexists.
Qed.

Lemma Get_dur_ok seen b live id dur value : tb_ok total seen b live -> live !! id = Some (TokJsonDur dur value) -> Get_dur b id = Some dur.
Proof.
  intros Hb Hid. destruct (stored_at _ _ _ _ _ Hb Hid) as (ws & blobs & seqs & Hat & Henc & _). cbn in Henc. subst ws.
  unfold Get_dur. rewrite (GetPointer_ok _ _ _ _ _ Hb Hid). cbn [mbind option_bind]. by rewrite (extract_int_at _ _ _ _ Hat).
Qed.

Lemma FreeMemory_ok seen b live : tb_ok total seen b live ->
  exists b', FreeMemory b = Some b' /\ tb_ok total seen b' live /\ past_pos (allocator_ b) <= past_pos (allocator_ b').
Proof.
  intros Hb. destruct (EraseFront_ok total _ _ Ht (tb_bump _ _ _ _ Hb)) as (Her & Ha' & Hp & Hk & Hcells).
  set (k := count_free (chunks_ (allocator_ b))) in *. unfold FreeMemory. rewrite Her. rewrite Nat2Z.id. cbn [interned_blobs_ interned_seqs_].
  pose proof (tb_blobs _ _ _ _ Hb). pose proof (tb_seqs _ _ _ _ Hb). rewrite (proj2 (Nat.eqb_eq _ _)) by (rewrite !length_drop; lia).
  eexists. split; [done|]. split; [|done]. constructor; cbn [allocator_ interned_blobs_ interned_seqs_ chunks_]; rewrite ?length_drop; try lia.
  - done.
  - intros i c l. cbn [chunks_]. rewrite !lookup_drop. apply Hb.
  - intros i c l. cbn [chunks_]. rewrite !lookup_drop. apply Hb.
  - intros i l v. rewrite lookup_drop. apply Hb.
  - intros id t Hid. destruct (tb_stored _ _ _ _ Hb _ _ Hid) as (ws & blobs & seqs & Hc & Hbl & Hs & Henc). exists ws, blobs, seqs.
    cbn [allocator_ interned_blobs_ interned_seqs_ erased_front_chunks_count_]. rewrite (Hcells _ _ (live_cells _ _ _ Hid)). split_and!; try done.
    all: destruct (bo_live _ _ _ Ha' _ _ (live_cells _ _ _ Hid)) as [c Hc']; pose proof (al_index _ _ _ _ Hc') as Hidx; cbn in Hidx.
    all: rewrite lookup_drop; by replace (k + Z.to_nat _)%nat with (Z.to_nat (id.1 - erased_front_chunks_count_ (allocator_ b))) by lia.
Qed.

(** ** Appending *)

Definition grown {A} (tables tables' : list (list A)) : Prop := forall i l, tables !! i = Some l -> exists x, tables' !! i = Some (l ++ x).

Lemma grown_insert {A} (tables : list (list A)) i l x : tables !! i = Some l -> grown tables (<[i := l ++ x]> tables).
Proof.
  intros Hi j l2 Hj. destruct (decide (i = j)) as [<-|Hne].
  - rewrite list_lookup_insert_eq by by eapply lookup_lt_Some. exists x. congruence.
  - rewrite list_lookup_insert_ne by done. exists []. by rewrite app_nil_r.
Qed.

Lemma grown_app {A} (tables more : list (list A)) : grown tables (tables ++ more).
Proof. intros i l Hi. exists []. rewrite app_nil_r. by apply lookup_app_l_Some. Qed.

Lemma grown_trans {A} (t1 t2 t3 : list (list A)) : grown t1 t2 -> grown t2 t3 -> grown t1 t3.
Proof. intros H1 H2 i l Hi. destruct (H1 _ _ Hi) as [x Hx]. destruct (H2 _ _ Hx) as [y Hy]. exists (x ++ y). by rewrite app_assoc. Qed.

Lemma encodes_grown blobs seqs t ws x y : encodes blobs seqs t ws -> encodes (blobs ++ x) (seqs ++ y) t ws.
Proof.
  unfold encodes. destruct (token_ted t); [|done]. intros (desc & -> & [? ? ? ? (base & Hb & Ho) Hs]). exists desc. split; [done|].
  constructor; try done; [|by apply lookup_app_l_Some]. exists base. split; [by apply lookup_app_l_Some|done].
Qed.

Lemma stored_grown b b' id t : stored b id t -> erased_front_chunks_count_ (allocator_ b') = erased_front_chunks_count_ (allocator_ b) ->
  cells (allocator_ b') id (token_cells t) = cells (allocator_ b) id (token_cells t) ->
  grown (interned_blobs_ b) (interned_blobs_ b') -> grown (interned_seqs_ b) (interned_seqs_ b') -> stored b' id t.
Proof.
  intros (ws & blobs & seqs & Hc & Hb & Hs & He) Hera Hcells Hgb Hgs. destruct (Hgb _ _ Hb) as [x Hx], (Hgs _ _ Hs) as [y Hy].
  exists ws, (blobs ++ x), (seqs ++ y). rewrite Hera, Hcells. split_and!; try done. by apply encodes_grown.
Qed.

Lemma AddTraceBlob_ok b i blobs tbv : interned_blobs_ b !! i = Some blobs -> Z.of_nat (length blobs) < 2 ^ 16 - 1 ->
  AddTraceBlob b i tbv = Some (mkTB (allocator_ b) (<[i := blobs ++ [(v_blob tbv, v_offset tbv)]]> (interned_blobs_ b)) (interned_seqs_ b), 0).
Proof.
  intros Hi Hlen. unfold AddTraceBlob. rewrite Hi. cbn [mbind option_bind]. by rewrite (proj2 (Z.leb_le _ _)) by (rewrite length_app; cbn; lia).
Qed.

(** Interning a blob: the last entry of the table, with the offset from it. *)
Lemma InternTraceBlob_ok b i blobs tbv : interned_blobs_ b !! i = Some blobs -> Z.of_nat (length blobs) < 2 ^ 16 - 1 ->
  (forall v, v ∈ blobs -> v.1 = v_blob tbv -> v.2 <= v_offset tbv) ->
  exists blobs' base off, InternTraceBlob b i tbv = Some (mkTB (allocator_ b) (<[i := blobs']> (interned_blobs_ b)) (interned_seqs_ b), off) /\
    (blobs' = blobs \/ blobs' = blobs ++ [(v_blob tbv, v_offset tbv)]) /\
    last blobs' = Some (v_blob tbv, base) /\ base + off = v_offset tbv /\ 0 <= off < 2 ^ 25.
Proof.
  intros Hi Hlen Hord. unfold InternTraceBlob. rewrite Hi. cbn [mbind option_bind].
  pose proof (AddTraceBlob_ok b i blobs tbv Hi Hlen) as Hadd.
  assert (Hnew : exists blobs' base off, AddTraceBlob b i tbv = Some (mkTB (allocator_ b) (<[i := blobs']> (interned_blobs_ b)) (interned_seqs_ b), off) /\
    (blobs' = blobs \/ blobs' = blobs ++ [(v_blob tbv, v_offset tbv)]) /\
    last blobs' = Some (v_blob tbv, base) /\ base + off = v_offset tbv /\ 0 <= off < 2 ^ 25).
  { do 3 eexists. split; [exact Hadd|]. split; [by right|]. rewrite last_snoc. split; [done|]. lia. }
  destruct (last blobs) as [[blob base]|] eqn:E; [|exact Hnew]. destruct (Nat.eqb_spec blob (v_blob tbv)) as [->|]; cbn [negb]; [|exact Hnew].
  assert (Hle : base <= v_offset tbv). { apply (Hord (v_blob tbv, base)); [|done]. apply last_Some in E as [pre ->]. set_solver. }
  rewrite (proj2 (Z.leb_le _ _)) by done. change kMaxOffsetFromInternedBlob with (2 ^ 25 - 1).
  destruct (Z.ltb_spec (2 ^ 25 - 1) (v_offset tbv - base)); [exact Hnew|]. exists blobs, base, (v_offset tbv - base).
  rewrite u32_id by (unfold is_u32; lia). rewrite list_insert_id by done. destruct b. split_and!; try done; try lia. by left.
Qed.

Lemma find_state_ok states ptr n : Z.of_nat (length states) < 2 ^ 16 -> forall i, 0 <= i -> i + Z.of_nat n <= Z.of_nat (length states) ->
  exists r, find_state n i states ptr = Some r /\ (forall idx, r = Some idx -> states !! Z.to_nat idx = Some ptr).
Proof.
  intros Hlen. induction n as [|n IH]; intros i Hi Hn; cbn [find_state]; [by exists None|].
  rewrite u16_id by (unfold is_u16; lia). destruct (lookup_lt_is_Some_2 states (Z.to_nat (Z.of_nat (length states) - 1 - i))) as [s Hs]; [lia|].
  rewrite Hs. cbn [mbind option_bind]. destruct (Nat.eqb_spec s ptr) as [->|]; [|apply IH; lia]. eexists. split; [done|]. by intros ? [= <-].
Qed.

Lemma InternSeqState_ok b i states ptr : interned_seqs_ b !! i = Some states -> Z.of_nat (length states) < 2 ^ 16 - 1 ->
  exists states' idx, InternSeqState b i ptr = Some (mkTB (allocator_ b) (interned_blobs_ b) (<[i := states']> (interned_seqs_ b)), idx) /\
    (states' = states \/ states' = states ++ [ptr]) /\ states' !! Z.to_nat idx = Some ptr.
Proof.
  intros Hi Hlen. unfold InternSeqState. rewrite Hi. cbn [mbind option_bind].
  destruct (find_state_ok states ptr (min 32 (length states))) with (i := 0) as (r & -> & Hr); [lia..|]. cbn [mbind option_bind]. destruct r as [idx|].
  - exists states, idx. rewrite list_insert_id by done. destruct b. split_and!; [done|by left|by apply Hr].
  - rewrite (proj2 (Z.leb_le _ _)) by (rewrite length_app; cbn; lia). rewrite length_app. cbn [length].
    replace (Z.of_nat (length states + 1) - 1) with (Z.of_nat (length states)) by lia. rewrite u16_id by (unfold is_u16; lia).
    do 2 eexists. split_and!; [done|by right|]. by rewrite Nat2Z.id, lookup_app_r, Nat.sub_diag by lia.
Qed.

(** The buffer while a token of [n] cells is written at [id]. *)
Record tb_mid (seen : list (nat * Z)) (b b1 : TraceTokenBuffer) (live : gmap AllocId Token) (n : nat) (id : AllocId) : Prop := {
  tm_alloc : alloc_post total (allocator_ b) (token_cells <$> live) n (allocator_ b1) id;
  tm_blobs : length (interned_blobs_ b1) = length (chunks_ (allocator_ b1));
  tm_seqs : length (interned_seqs_ b1) = length (chunks_ (allocator_ b1));
  tm_blobs_fit : fits (allocator_ b1) (interned_blobs_ b1);
  tm_seqs_fit : fits (allocator_ b1) (interned_seqs_ b1);
  tm_room : forall c, chunks_ (allocator_ b1) !! Z.to_nat (id.1 - erased_front_chunks_count_ (allocator_ b1)) = Some c ->
    (forall l, interned_blobs_ b1 !! Z.to_nat (id.1 - erased_front_chunks_count_ (allocator_ b1)) = Some l ->
      16 * Z.of_nat (length l) + 8 * Z.of_nat n <= bump_offset c <= 65536) /\
    (forall l, interned_seqs_ b1 !! Z.to_nat (id.1 - erased_front_chunks_count_ (allocator_ b1)) = Some l ->
      16 * Z.of_nat (length l) + 8 * Z.of_nat n <= bump_offset c <= 65536);
  tm_seen : forall i l v, interned_blobs_ b1 !! i = Some l -> v ∈ l -> v ∈ seen;
  tm_stored : forall id' t, live !! id' = Some t -> stored b1 id' t }.

(** Tables after an allocation. *)
Lemma fits_alloc {A : Type} (a a' : BumpAllocator Cell) (sizes : gmap AllocId nat) n id (tables : list (list A)) k :
  alloc_post total a sizes n a' id -> length tables = length (chunks_ a) -> fits a tables -> (length (chunks_ a') = length (chunks_ a) + k)%nat ->
  fits a' (tables ++ replicate k []) /\
  (forall c l, chunks_ a' !! pred (length (chunks_ a')) = Some c -> (tables ++ replicate k []) !! pred (length (chunks_ a')) = Some l ->
    16 * Z.of_nat (length l) + 8 * Z.of_nat n <= bump_offset c <= 65536).
Proof.
  intros Hp Hlen Hf Hk. assert (Hcase : forall i l, (tables ++ replicate k []) !! i = Some l -> tables !! i = Some l \/ l = [] /\ (length tables <= i)%nat).
  { intros i l. rewrite lookup_app_Some. intros [|[Hi Hr]]; [by left|right]. apply lookup_replicate in Hr as [-> _]. done. }
  split.
  - intros i c l Hc Hl. pose proof (ck_bump _ _ (bo_chunks _ _ _ (ap_ok _ _ _ _ _ _ Hp) _ _ Hc)). destruct (Hcase _ _ Hl) as [Hl'|[-> _]]; [|cbn; lia].
    destruct (lookup_lt_is_Some_2 (chunks_ a) i) as [c0 Hc0]; [rewrite <- Hlen; by eapply lookup_lt_Some|]. pose proof (Hf _ _ _ Hc0 Hl').
    destruct (ap_bumps _ _ _ _ _ _ Hp _ _ Hc0) as (c1 & Hc1 & ?). assert (c1 = c) by congruence. subst. lia.
  - intros c l Hc Hl. pose proof (ck_bump _ _ (bo_chunks _ _ _ (ap_ok _ _ _ _ _ _ Hp) _ _ Hc)). pose proof (ap_offset _ _ _ _ _ _ Hp) as Ho.
    rewrite last_lookup, Hc in Ho. cbn in Ho. split; [|lia]. pose proof (ap_len _ _ _ _ _ _ Hp) as Hap.
    destruct (Hcase _ _ Hl) as [Hl'|[-> Hge]]; [|cbn].
    + destruct Hap as [(Heq & Ho2 & Hne)|[Heq _]].
      * rewrite last_lookup in Ho2. rewrite Heq in Ho2. destruct (lookup_lt_is_Some_2 (chunks_ a) (pred (length (chunks_ a')))) as [c0 Hc0].
        { rewrite <- Hlen. by eapply lookup_lt_Some. }
        rewrite Hc0 in Ho2. cbn in Ho2. pose proof (Hf _ _ _ Hc0 Hl'). lia.
      * apply lookup_lt_Some in Hl'. lia.
    + destruct Hap as [(Heq & _ & Hne)|[_ Ho2]]; [|lia]. destruct (chunks_ a); [done|]. cbn in *. lia.
Qed.

Lemma AllocAndResize_ok seen b live n : tb_ok (total - 1) seen b live -> 0 < Z.of_nat n <= 8192 ->
  exists b1 id, AllocAndResizeInternedVectors b (8 * Z.of_nat n) = Some (b1, id) /\ tb_mid seen b b1 live n id.
Proof.
  intros Hb Hn. destruct (Alloc_ok total _ _ n (tb_bump _ _ _ _ Hb) Ht Hn) as (a' & id & Hal & Hp). pose proof (ap_ok _ _ _ _ _ _ Hp) as Ha'.
  pose proof (tb_blobs _ _ _ _ Hb) as Hbl. pose proof (tb_seqs _ _ _ _ Hb) as Hsl. pose proof (ap_index _ _ _ _ _ _ Hp) as Hidx. pose proof (ap_erased _ _ _ _ _ _ Hp) as Her.
  pose proof (bo_total _ _ _ Ha') as Htot. pose proof (bo_erased _ _ _ Ha') as He.
  assert (Hk : exists k, (length (chunks_ a') = length (chunks_ (allocator_ b)) + k)%nat /\ (k <= 1)%nat).
  { destruct (ap_len _ _ _ _ _ _ Hp) as [(Hl & _)|[Hl _]]; [exists 0%nat|exists 1%nat]; lia. }
  destruct Hk as (k & Hk & Hk1). unfold AllocAndResizeInternedVectors. rewrite Hal. cbn [mbind option_bind].
  replace (id.1 - erased_front_chunks_count_ (allocator_ b) + 1) with (Z.of_nat (length (chunks_ a'))) by lia. rewrite u64_id by (unfold is_u64; lia).
  rewrite !(proj2 (Z.leb_le _ _)) by lia. rewrite (proj2 (Nat.eqb_eq _ _)) by lia. cbn [andb]. replace (Z.to_nat _) with k by lia.
  do 2 eexists. split; [done|].
  destruct (fits_alloc _ _ _ _ _ _ k Hp Hbl (tb_blobs_fit _ _ _ _ Hb) Hk) as [Hf1 Hr1], (fits_alloc _ _ _ _ _ _ k Hp Hsl (tb_seqs_fit _ _ _ _ Hb) Hk) as [Hf2 Hr2].
  constructor; cbn [allocator_ interned_blobs_ interned_seqs_]; try done.
  - rewrite length_app, length_replicate. lia.
  - rewrite length_app, length_replicate. lia.
  - replace (Z.to_nat (id.1 - erased_front_chunks_count_ a')) with (pred (length (chunks_ a'))) by lia. eauto.
  - intros i l v. rewrite lookup_app_Some. intros [Hi|[_ Hr]] Hv; [by eapply (tb_seen _ _ _ _ Hb)|]. apply lookup_replicate in Hr as [-> _]. by apply not_elem_of_nil in Hv.
  - intros id' t Hid'. eapply stored_grown; [by apply (tb_stored _ _ _ _ Hb)|done| |apply grown_app..].
    cbn [allocator_]. apply (ap_cells _ _ _ _ _ _ Hp). by apply live_cells.
Qed.

(** The token is written and its entries are in the tables. *)
Lemma append_finish seen b b1 live id t blobs seqs blobs' seqs' ws : tb_mid seen b b1 live (token_cells t) id ->
  let i := Z.to_nat (id.1 - erased_front_chunks_count_ (allocator_ b1)) in
  interned_blobs_ b1 !! i = Some blobs -> interned_seqs_ b1 !! i = Some seqs ->
  (blobs' = blobs \/ (2 <= token_cells t)%nat /\ exists v, token_view t = Some v /\ blobs' = blobs ++ [v]) ->
  (seqs' = seqs \/ (2 <= token_cells t)%nat /\ exists s, seqs' = seqs ++ [s]) -> encodes blobs' seqs' t ws ->
  exists a2 ptr, store_cells (allocator_ b1) (id.1 - erased_front_chunks_count_ (allocator_ b1), id.2) ws = Some (a2, ptr) /\
    GetPointer (allocator_ b1) id = Some (id.1 - erased_front_chunks_count_ (allocator_ b1), id.2) /\
    tb_ok total (seen_after seen t) (mkTB a2 (<[i := blobs']> (interned_blobs_ b1)) (<[i := seqs']> (interned_seqs_ b1))) (<[id := t]> live) /\
    past_pos a2 = past_pos (allocator_ b1).
Proof.
  intros Hm i Hbl Hsl Hb' Hs' Henc. pose proof (tm_alloc _ _ _ _ _ _ Hm) as Hp. pose proof (ap_ok _ _ _ _ _ _ Hp) as Ha.
  assert (Hid : (<[id := token_cells t]> (token_cells <$> live)) !! id = Some (token_cells t)) by apply lookup_insert_eq.
  destruct (cells_some total _ _ _ _ Ha Hid) as [l Hl]. pose proof (bump_cells_length _ _ _ _ _ _ Ha Hid Hl) as Hlen. pose proof (encodes_length _ _ _ _ Henc) as Hws.
  destruct (store_cells_ok total _ id _ ws Ht Hid _ l 0 Ha Hl) as (a2 & Hst & Ha2 & Hlay & Hc2 & Hf2); [lia|]. rewrite Z.add_0_r in Hst.
  do 2 eexists. split; [exact Hst|]. split; [|split; [|by apply same_layout_past]].
  - destruct (bo_live _ _ _ Ha _ _ Hid) as [c Hc]. unfold GetPointer. rewrite (queue_index_ok total Ht _ _ _ _ Ha Hid).
    by rewrite (chunk_at_ok total Ht _ _ _ _ _ Ha Hid Hc).
  - assert (Hgb : grown (interned_blobs_ b1) (<[i := blobs']> (interned_blobs_ b1))).
    { destruct Hb' as [->|(_ & v & _ & ->)]; [rewrite <- (app_nil_r blobs)|]; by apply grown_insert. }
    assert (Hgs : grown (interned_seqs_ b1) (<[i := seqs']> (interned_seqs_ b1))).
    { destruct Hs' as [->|(_ & s & ->)]; [rewrite <- (app_nil_r seqs)|]; by apply grown_insert. }
    pose proof (same_layout_length _ _ Hlay) as Hll. pose proof (sl_erased _ _ Hlay) as Hle.
    constructor; cbn [allocator_ interned_blobs_ interned_seqs_]; rewrite ?length_insert, ?Hll; try apply Hm.
    + by rewrite fmap_insert.
    + eapply fits_layout; [apply Hlay|]. intros j c x Hj Hx. destruct (decide (j = i)) as [->|]; [|rewrite list_lookup_insert_ne in Hx by done; by eapply (tm_blobs_fit _ _ _ _ _ _ Hm)].
      rewrite list_lookup_insert_eq in Hx by by eapply lookup_lt_Some. injection Hx as <-. destruct (tm_room _ _ _ _ _ _ Hm _ Hj) as [Hr _]. specialize (Hr _ Hbl).
      destruct Hb' as [->|(? & v & _ & ->)]; [|rewrite length_app; cbn]; lia.
    + eapply fits_layout; [apply Hlay|]. intros j c x Hj Hx. destruct (decide (j = i)) as [->|]; [|rewrite list_lookup_insert_ne in Hx by done; by eapply (tm_seqs_fit _ _ _ _ _ _ Hm)].
      rewrite list_lookup_insert_eq in Hx by by eapply lookup_lt_Some. injection Hx as <-. destruct (tm_room _ _ _ _ _ _ Hm _ Hj) as [_ Hr]. specialize (Hr _ Hsl).
      destruct Hs' as [->|(? & v & ->)]; [|rewrite length_app; cbn]; lia.
    + intros j x v Hx Hv. unfold seen_after. apply elem_of_app. destruct (decide (j = i)) as [->|].
      * rewrite list_lookup_insert_eq in Hx by by eapply lookup_lt_Some. injection Hx as <-.
        destruct Hb' as [->|(_ & w & Hw & ->)]; [left; by eapply (tm_seen _ _ _ _ _ _ Hm)|]. rewrite Hw.
        apply elem_of_app in Hv as [Hv|Hv]; [left; by eapply (tm_seen _ _ _ _ _ _ Hm)|by right].
      * rewrite list_lookup_insert_ne in Hx by done. left. by eapply (tm_seen _ _ _ _ _ _ Hm).
    + intros id' t'. rewrite lookup_insert_Some. intros [[<- <-]|[Hne Ht']].
      * exists ws, blobs', seqs'. cbn [allocator_ interned_blobs_ interned_seqs_]. rewrite Hle. fold i. split_and!; [|by rewrite list_lookup_insert_eq by by eapply lookup_lt_Some..|done].
        rewrite Hc2. cbn [take app]. rewrite drop_ge by lia. by rewrite app_nil_r.
      * eapply stored_grown; [by apply (tm_stored _ _ _ _ _ _ Hm)|done| |done..]. cbn [allocator_]. apply Hf2; [|done].
        rewrite lookup_insert_ne by done. by apply live_cells.
Qed.

Lemma append_counters_cells vs : forall a ptr, append_counters a ptr vs = store_cells a ptr (CDouble <$> vs).
Proof.
  induction vs as [|v vs IH]; intros a ptr; cbn [append_counters fmap list_fmap store_cells]; [done|]. unfold AppendToPtr.
  destruct (store_cell a ptr (CDouble v)); cbn [mbind option_bind]; [apply IH|done].
Qed.

Lemma AppendToPtr_cells a ptr c : AppendToPtr a ptr c = store_cells a ptr [c].
Proof. done. Qed.

Lemma append_optional_cells a ptr o : append_optional a ptr (bool_decide (is_Some o)) (CInt <$> o) = store_cells a ptr (opt_cell (CInt <$> o)).
Proof. by destruct o. Qed.

Lemma append_double_cells a ptr (has : bool) c : append_optional a ptr has (Some c) = store_cells a ptr (if has then [c] else []).
Proof. by destruct has. Qed.

Lemma store_chain {R} l1 l2 (f : BumpAllocator Cell -> Z * Z -> option R) (k : BumpAllocator Cell -> option R) :
  (forall a ptr, f a ptr = '(a, _) ← store_cells a ptr l2; k a) ->
  forall a ptr, ('(a, ptr) ← store_cells a ptr l1; f a ptr) = '(a, _) ← store_cells a ptr (l1 ++ l2); k a.
Proof.
  intros Hf. induction l1 as [|c l1 IH]; intros a ptr; cbn [app store_cells mbind option_bind]; [apply Hf|].
  destruct (store_cell a ptr c); cbn [mbind option_bind]; [apply IH|done].
Qed.

(** The code that writes a [TrackEventData] writes its cells. *)
Lemma write_ted_cells {R} a ptr desc ted (k : BumpAllocator Cell -> option R) :
  ('(a, ptr) ← AppendToPtr a ptr (CDesc desc);
   '(a, ptr) ← AppendToPtr a ptr (CInt (u64 (v_length (packet (trace_packet_data ted)))));
   '(a, ptr) ← append_optional a ptr (bool_decide (is_Some (thread_instruction_count ted))) (CInt <$> thread_instruction_count ted);
   '(a, ptr) ← append_optional a ptr (bool_decide (is_Some (thread_timestamp ted))) (CInt <$> thread_timestamp ted);
   '(a, ptr) ← append_optional a ptr (negb (is_zero (counter_value ted))) (Some (CDouble (counter_value ted)));
   '(a, ptr) ← append_counters a ptr (take (CountExtraCounterValues ted) (extra_counter_values ted)); k a) =
  '(a, _) ← store_cells a ptr (ted_cells desc ted); k a.
Proof.
  unfold ted_cells. rewrite AppendToPtr_cells. apply (store_chain [_]). intros a1 p1. rewrite AppendToPtr_cells. apply (store_chain [_]). intros a2 p2.
  rewrite append_optional_cells. apply store_chain. intros a3 p3. rewrite append_optional_cells. apply store_chain. intros a4 p4.
  rewrite append_double_cells. apply store_chain. intros a5 p5. by rewrite append_counters_cells.
Qed.

Lemma GetAllocSize_cells `{!TokenEnvOk} t ted bi si bo : token_ted t = Some ted -> length (extra_counter_values ted) = kMaxNumExtraCounters ->
  GetAllocSize (mkDesc bi si bo (bool_decide (is_Some (thread_timestamp ted))) (bool_decide (is_Some (thread_instruction_count ted)))
    (negb (is_zero (counter_value ted))) (CountExtraCounterValues ted)) = 8 * Z.of_nat (token_cells t).
Proof.
  intros Hted Hex. unfold token_cells. rewrite Hted. unfold GetAllocSize, ted_cells.
  cbn [has_thread_instruction_count has_thread_timestamp has_counter_value extra_counter_count].
  rewrite !length_app, length_fmap, length_take, Hex. pose proof (CountExtra_le ted). rewrite Nat.min_l by lia.
  assert (Hopt : forall o : option Z, Z.b2z (bool_decide (is_Some o)) = Z.of_nat (length (opt_cell (CInt <$> o)))) by by intros [].
  rewrite !Hopt. destruct (is_zero _); cbn [length negb Z.b2z]; lia.
Qed.

(** What appending gives. *)
Record append_post (seen : list (nat * Z)) b live t b' (id : AllocId) : Prop := {
  pp_ok : tb_ok total (seen_after seen t) b' (<[id := t]> live);
  pp_fresh : live !! id = None;
  pp_past : past_pos (allocator_ b) <= id_pos id < past_pos (allocator_ b');
  pp_offset : 0 <= id.2 < 65536 }.

Lemma append_post_intro `{!TokenEnvOk} seen b b1 live t id a2 B S : tb_mid seen b b1 live (token_cells t) id ->
  tb_ok total (seen_after seen t) (mkTB a2 B S) (<[id := t]> live) -> past_pos a2 = past_pos (allocator_ b1) -> append_post seen b live t (mkTB a2 B S) id.
Proof.
  intros Hm Hok Hpa. pose proof (tm_alloc _ _ _ _ _ _ Hm) as Hp. destruct (token_cells_bounds t) as [Hn _].
  destruct (live_id_range _ _ _ id t Hok) as (_ & Hr & _); [apply lookup_insert_eq|].
  constructor; cbn [allocator_]; try done.
  - pose proof (ap_fresh _ _ _ _ _ _ Hp) as Hf. rewrite lookup_fmap in Hf. by destruct (live !! id).
  - rewrite Hpa, (ap_past' _ _ _ _ _ _ Hp). pose proof (ap_past _ _ _ _ _ _ Hp). lia.
Qed.

(** The chunk a new token goes to has tables with room. *)
Lemma mid_tables seen b b1 live n id : tb_mid seen b b1 live n id ->
  let i := Z.to_nat (id.1 - erased_front_chunks_count_ (allocator_ b1)) in
  GetInternedIndex b1 id = Some i /\
  exists blobs seqs, interned_blobs_ b1 !! i = Some blobs /\ interned_seqs_ b1 !! i = Some seqs /\
    Z.of_nat (length blobs) < 2 ^ 16 - 1 /\ Z.of_nat (length seqs) < 2 ^ 16 - 1.
Proof.
  intros Hm i. pose proof (tm_alloc _ _ _ _ _ _ Hm) as Hp. pose proof (ap_ok _ _ _ _ _ _ Hp) as Ha.
  destruct (bo_live _ _ _ Ha id n) as [c Hc]; [apply lookup_insert_eq|]. pose proof (al_chunk _ _ _ _ Hc) as Hch. fold i in Hch.
  pose proof (al_index _ _ _ _ Hc). pose proof (lookup_lt_Some _ _ _ Hch) as Hlt. pose proof (tm_blobs _ _ _ _ _ _ Hm). pose proof (tm_seqs _ _ _ _ _ _ Hm).
  pose proof (bo_total _ _ _ Ha). pose proof (bo_erased _ _ _ Ha). split.
  - unfold GetInternedIndex. rewrite u64_id by (unfold is_u64; lia). rewrite !(proj2 (Z.ltb_lt _ _)) by lia. by rewrite (proj2 (Nat.eqb_eq _ _)) by lia.
  - destruct (lookup_lt_is_Some_2 (interned_blobs_ b1) i) as [bl Hbl]; [lia|]. destruct (lookup_lt_is_Some_2 (interned_seqs_ b1) i) as [sl Hsl]; [lia|].
    exists bl, sl. destruct (tm_room _ _ _ _ _ _ Hm c Hch) as [Hr1 Hr2]. specialize (Hr1 _ Hbl). specialize (Hr2 _ Hsl). split_and!; try done; lia.
Qed.

Lemma Append_ted_ok `{!TokenEnvOk} seen b live t ted : tb_ok (total - 1) seen b live -> token_ted t = Some ted -> token_ok t -> in_order seen t ->
  exists b' id, Append_TrackEventData b ted = Some (b', id) /\ append_post seen b live t b' id.
Proof.
  intros Hb Hted Hok Hord. pose proof Hok as Hok'. unfold token_ok in Hok'. rewrite Hted in Hok'. destruct Hok' as [(Ho & _) Hex].
  destruct (token_cells_bounds t) as [Hn Hn2]. rewrite Hted in Hn2. specialize (Hn2 ltac:(done)).
  destruct (AllocAndResize_ok seen b live (token_cells t) Hb Hn) as (b1 & id & Hal & Hm).
  destruct (mid_tables _ _ _ _ _ _ Hm) as (Hix & blobs & seqs & Hbl & Hsl & Hbn & Hsn). set (i := Z.to_nat _) in *.
  unfold Append_TrackEventData. rewrite (GetAllocSize_cells t ted) by done. rewrite Hal. cbn [mbind option_bind]. rewrite Hix. cbn [mbind option_bind].
  assert (Hview : token_view t = Some (v_blob (packet (trace_packet_data ted)), v_offset (packet (trace_packet_data ted)))) by (unfold token_view; by rewrite Hted).
  destruct (InternTraceBlob_ok b1 i blobs (packet (trace_packet_data ted)) Hbl Hbn) as (blobs' & base & off & -> & Hb' & Hlast & Hoff & Hr).
  { intros v Hv. unfold in_order in Hord. rewrite Hview in Hord. rewrite Forall_forall in Hord. apply Hord. by eapply (tm_seen _ _ _ _ _ _ Hm). }
  cbn [mbind option_bind interned_blobs_]. rewrite list_lookup_insert_eq by by eapply lookup_lt_Some. cbn [mbind option_bind].
  destruct (InternSeqState_ok (mkTB (allocator_ b1) (<[i := blobs']> (interned_blobs_ b1)) (interned_seqs_ b1)) i seqs (sequence_state (trace_packet_data ted)) Hsl Hsn)
    as (seqs' & idx & -> & Hs' & Hseq).
  cbn [mbind option_bind allocator_ interned_blobs_ interned_seqs_]. set (desc := mkDesc _ _ _ _ _ _ _).
  assert (Hblen : (0 < length blobs')%nat /\ Z.of_nat (length blobs') < 2 ^ 16).
  { split; [destruct blobs'; [done|cbn; lia]|]. destruct Hb' as [->| ->]; [|rewrite length_app; cbn]; lia. }
  assert (Henc : encodes blobs' seqs' t (ted_cells desc ted)).
  { unfold encodes. rewrite Hted. exists desc. split; [done|]. constructor; cbn; try done. exists base. rewrite u16_id by (unfold is_u16; lia).
    rewrite last_lookup in Hlast. replace (Z.to_nat _) with (pred (length blobs')) by lia. split; [done|]. rewrite Z.mod_small by lia. done. }
  destruct (append_finish seen b b1 live id t blobs seqs blobs' seqs' (ted_cells desc ted) Hm Hbl Hsl) as (a2 & ptr & Hst & Hptr & Hfin & Hpast); [..|exact Henc|].
  { destruct Hb' as [->| ->]; [by left|right]. split; [done|]. eexists. done. }
  { destruct Hs' as [->| ->]; [by left|right]. split; [done|]. by eexists. }
  rewrite Hptr. cbn [mbind option_bind]. rewrite write_ted_cells, Hst. cbn [mbind option_bind].
  do 2 eexists. split; [done|]. by eapply append_post_intro.
Qed.

Lemma Append_object_ok `{!TokenEnvOk} seen b live t : tb_ok (total - 1) seen b live -> token_ted t = None ->
  exists b' id, Append_object b (token_object t) = Some (b', id) /\ append_post seen b live t b' id.
Proof.
  intros Hb Hted. destruct (token_cells_bounds t) as [Hn _].
  destruct (AllocAndResize_ok seen b live (token_cells t) Hb Hn) as (b1 & id & Hal & Hm).
  destruct (mid_tables _ _ _ _ _ _ Hm) as (_ & blobs & seqs & Hbl & Hsl & _). set (i := Z.to_nat _) in *.
  assert (Henc : encodes blobs seqs t (token_object t)) by (unfold encodes; by rewrite Hted).
  pose proof (encodes_length _ _ _ _ Henc) as Hlen. unfold Append_object. rewrite Hlen, Hal. cbn [mbind option_bind].
  destruct (append_finish seen b b1 live id t blobs seqs blobs seqs (token_object t) Hm Hbl Hsl) as (a2 & ptr & Hst & Hptr & Hfin & Hpast); [by left..|exact Henc|].
  rewrite Hptr. cbn [mbind option_bind]. rewrite Hst. cbn [mbind option_bind]. do 2 eexists. split; [done|].
  rewrite !list_insert_id in Hfin by done. by eapply append_post_intro.
Qed.

Lemma Append_token_ok `{!TokenEnvOk} seen b live t : tb_ok (total - 1) seen b live -> token_ok t -> in_order seen t ->
  exists b' id, Append_token b t = Some (b', id) /\ append_post seen b live t b' id.
Proof.
  intros Hb Hok Hord. destruct t as [tpd|ted|value|dur value]; cbn [Append_token].
  - by apply (Append_ted_ok seen b live (TokPacket tpd)).
  - by apply (Append_ted_ok seen b live (TokTrackEvent ted)).
  - by apply (Append_object_ok seen b live (TokJson value)).
  - by apply (Append_object_ok seen b live (TokJsonDur dur value)).
Qed.
End Ok.

End Stored.

(** ** Uses of a buffer *)

(** A token is extracted by the number of the append that stored it. *)
Inductive TokenOp := TAppend (t : Token) | TExtract (n : nat) | TFreeMemory.

Section Use.
Context `{TokenEnv}.

Fixpoint token_run (b : TraceTokenBuffer) (ids : list (AllocId * EventType)) (ops : list TokenOp) :
    option (TraceTokenBuffer * list (AllocId * EventType) * list Token) :=
  match ops with
  | [] => Some (b, ids, [])
  | TAppend t :: ops => '(b, id) ← Append_token b t; token_run b (ids ++ [(id, token_type t)]) ops
  | TExtract n :: ops =>
      '(id, type) ← ids !! n;
      '(b, t) ← Extract_token type b id;
      '(b, ids, ts) ← token_run b ids ops;
      Some (b, ids, t :: ts)
  | TFreeMemory :: ops => b ← FreeMemory b; token_run b ids ops
  end.

(** The specification: every append is a slot that is emptied once. *)
Fixpoint slot_run (slots : list (option Token)) (ops : list TokenOp) : option (list Token) :=
  match ops with
  | [] => Some []
  | TAppend t :: ops => slot_run (slots ++ [Some t]) ops
  | TExtract n :: ops =>
      slot ← slots !! n;
      t ← slot;
      ts ← slot_run (<[n := None]> slots) ops;
      Some (t :: ts)
  | TFreeMemory :: ops => slot_run slots ops
  end.

(** All tokens are well formed, and views of one blob are in order. *)
Fixpoint ops_ok (seen : list (nat * Z)) (ops : list TokenOp) : Prop :=
  match ops with
  | [] => True
  | TAppend t :: ops => token_ok t /\ in_order seen t /\ ops_ok (seen_after seen t) ops
  | _ :: ops => ops_ok seen ops
  end.

(** The identifiers handed out, in order, and what is in their slots. *)
Record run_inv (total : Z) (seen : list (nat * Z)) (b : TraceTokenBuffer) (ids : list (AllocId * EventType)) (slots : list (option Token)) : Prop := {
  ri_live : exists live, tb_ok total seen b live /\
    (forall n id type slot, ids !! n = Some (id, type) -> slots !! n = Some slot ->
       live !! id = slot /\ forall t, slot = Some t -> type = token_type t /\ token_ok t);
  ri_length : length ids = length slots;
  ri_past : Forall (fun x => id_pos x.1 < past_pos (allocator_ b) /\ 0 <= x.1.2 < 65536) ids;
  ri_sorted : StronglySorted (fun x y => id_pos x.1 < id_pos y.1) ids }.

Lemma StronglySorted_snoc {A} (R : A -> A -> Prop) l x : StronglySorted R l -> Forall (fun y => R y x) l -> StronglySorted R (l ++ [x]).
Proof.
  intros Hs Hf. apply StronglySorted_app. split_and!; [|done|repeat constructor]. intros y z Hy Hz. apply list_elem_of_singleton in Hz as ->.
  rewrite Forall_forall in Hf. by apply Hf.
Qed.

Lemma StronglySorted_lookup {A} (R : A -> A -> Prop) l i j x y : StronglySorted R l -> l !! i = Some x -> l !! j = Some y -> (i < j)%nat -> R x y.
Proof.
  intros Hs Hi Hj Hij. rewrite <- (take_drop (S i) l) in Hs. eapply StronglySorted_app_1_elem_of; [exact Hs| |].
  - eapply (list_elem_of_lookup_2 _ i). by rewrite lookup_take_lt by lia.
  - eapply (list_elem_of_lookup_2 _ (j - S i)). rewrite lookup_drop. by replace (S i + (j - S i))%nat with j by lia.
Qed.

Lemma append_inv `{!TokenEnvOk} total seen b ids slots t : total <= 2 ^ 42 -> run_inv (total - 1) seen b ids slots -> token_ok t -> in_order seen t ->
  exists b' id, Append_token b t = Some (b', id) /\ run_inv total (seen_after seen t) b' (ids ++ [(id, token_type t)]) (slots ++ [Some t]).
Proof.
  intros Ht [(live & Hb & Hlive) Hlen Hpast Hsort] Hok Hord. destruct (Append_token_ok total Ht seen b live t Hb Hok Hord) as (b' & id & -> & Hp).
  exists b', id. split; [done|]. pose proof (pp_past _ _ _ _ _ _ _ Hp) as Hpp. pose proof (pp_offset _ _ _ _ _ _ _ Hp) as Hpo. constructor.
  - exists (<[id := t]> live). split; [apply Hp|]. intros n id' type slot Hn Hs. apply lookup_app_Some in Hn as [Hn|[Hge Hn]].
    + pose proof (lookup_lt_Some _ _ _ Hn) as Hlt. rewrite lookup_app_l in Hs by lia. rewrite lookup_insert_ne; [by eapply Hlive|].
      rewrite Forall_forall in Hpast. destruct (Hpast (id', type)) as [Hlt' _]; [by eapply list_elem_of_lookup_2|]. cbn in Hlt'. intros <-. lia.
    + apply list_lookup_singleton_Some in Hn as [Hn [= <- <-]]. rewrite lookup_app_r in Hs by lia. rewrite <- Hlen, Hn in Hs. injection Hs as <-.
      rewrite lookup_insert_eq. split; [done|]. by intros ? [= <-].
  - rewrite !length_app. cbn. lia.
  - apply Forall_app. split; [|constructor; [cbn; lia|constructor]]. eapply Forall_impl; [exact Hpast|]. cbn. intros ? ?. lia.
  - apply StronglySorted_snoc; [done|]. eapply Forall_impl; [exact Hpast|]. cbn. intros ? ?. lia.
Qed.

Lemma extract_inv total seen b ids slots n t : total <= 2 ^ 42 -> run_inv total seen b ids slots -> slots !! n = Some (Some t) ->
  exists id type b', ids !! n = Some (id, type) /\ Extract_token type b id = Some (b', stored_token t) /\ run_inv total seen b' ids (<[n := None]> slots).
Proof.
  intros Ht [(live & Hb & Hlive) Hlen Hpast Hsort] Hn. pose proof (lookup_lt_Some _ _ _ Hn) as Hlt.
  destruct (lookup_lt_is_Some_2 ids n) as [[id type] Hid]; [lia|]. destruct (Hlive _ _ _ _ Hid Hn) as [Hl Htype]. destruct (Htype t eq_refl) as [-> Hok].
  destruct (Extract_token_ok total Ht seen b live id t Hb Hl Hok) as (b' & He & Hb' & Hp). exists id, (token_type t), b'. split; [done|]. split; [done|].
  constructor; [|by rewrite length_insert|by rewrite Hp|done]. exists (delete id live). split; [done|]. intros m id' type slot Hm Hs.
  destruct (decide (n = m)) as [<-|Hne].
  - rewrite list_lookup_insert_eq in Hs by lia. injection Hs as <-. rewrite Hid in Hm. injection Hm as <- <-. by rewrite lookup_delete_eq.
  - rewrite list_lookup_insert_ne in Hs by done. rewrite lookup_delete_ne; [by eapply Hlive|]. intros <-.
    assert (Hirr : forall x y i j, ids !! i = Some x -> ids !! j = Some y -> (i < j)%nat -> id_pos x.1 < id_pos y.1).
    { intros x y i j Hi Hj Hij. exact (StronglySorted_lookup _ ids i j x y Hsort Hi Hj Hij). }
    destruct (Nat.lt_total n m) as [Hnm|[?|Hnm]]; [|done|]; [pose proof (Hirr _ _ _ _ Hid Hm Hnm)|pose proof (Hirr _ _ _ _ Hm Hid Hnm)]; cbn in *; lia.
Qed.

Lemma token_run_ok `{!TokenEnvOk} ops : forall total seen b ids slots outs, run_inv total seen b ids slots -> ops_ok seen ops ->
  total + Z.of_nat (length ops) < 2 ^ 42 -> slot_run slots ops = Some outs ->
  exists b' ids', token_run b ids ops = Some (b', ids', stored_token <$> outs) /\ exists total' seen' slots', total' < 2 ^ 42 /\ run_inv total' seen' b' ids' slots'.
Proof.
  induction ops as [|o ops IH]; intros total seen b ids slots outs Hi Hok Ht Hrun; cbn [token_run slot_run ops_ok length] in *.
  { injection Hrun as <-. do 2 eexists. split; [done|]. exists total, seen, slots. split; [lia|done]. }
  destruct o as [t|n|].
  - destruct Hok as (Htok & Hord & Hok). destruct (append_inv (total + 1) seen b ids slots t) as (b' & id & -> & Hi'); [lia|by replace (total + 1 - 1) with total by lia|done..|].
    cbn [mbind option_bind]. eapply IH; [done..|lia|done].
  - destruct (slots !! n) as [[t|]|] eqn:En; cbn [mbind option_bind] in Hrun; try discriminate.
    destruct (slot_run (<[n := None]> slots) ops) as [ts|] eqn:Er; [|discriminate]. injection Hrun as <-.
    destruct (extract_inv total seen b ids slots n t) as (id & type & b' & -> & He & Hi'); [lia|done..|]. cbn [mbind option_bind]. rewrite He. cbn [mbind option_bind].
    destruct (IH total seen b' ids _ ts Hi' Hok ltac:(lia) Er) as (b2 & ids2 & -> & Hfin). cbn [mbind option_bind]. by exists b2, ids2.
  - destruct Hi as [(live & Hb & Hlive) Hlen Hpast Hsort]. destruct (FreeMemory_ok total ltac:(lia) seen b live Hb) as (b' & -> & Hb' & Hp). cbn [mbind option_bind].
    apply (IH total seen b' ids slots outs); [|done|lia|done]. constructor; [by exists live|done| |done]. eapply Forall_impl; [exact Hpast|]. cbn. intros ? ?. lia.
Qed.
End Use.

(** C38: tokens come back as they were stored. Over any sequence of fewer than [2^42]
    appends of packets, track events and JSON values that fit into chunks and tables, with
    the views of one blob appended in the order of their offsets, extractions in any order
    (each of a token that is there) and releases of memory, every extraction gives what is
    stored of the token of its append, no check fails and no access leaves an allocation or
    touches another token. Of a track event the extra counters past its first zero one are
    not stored; a token without one that is not zero there comes back as it was.
    Identifiers are strictly increasing, and the past-the-end identifier is above them
    all. *)
Theorem token_buffer_roundtrip `{TokenEnvOk} ops outs :
  ops_ok [] ops -> Z.of_nat (length ops) < 2 ^ 42 -> slot_run [] ops = Some outs ->
  exists b ids e, token_run TraceTokenBuffer_new [] ops = Some (b, ids, stored_token <$> outs) /\ PastTheEndAllocId b = Some e /\
    StronglySorted (fun x y => id_ltb x y = true) (ids.*1) /\ Forall (fun x => id_ltb x e = true) (ids.*1) /\
    (Forall kept_whole outs -> stored_token <$> outs = outs).
Proof.
  intros Hok Hlen Hrun. assert (Hi : run_inv 0 [] TraceTokenBuffer_new [] []).
  { constructor; try constructor. exists ∅. by split; [constructor|]. }
  destruct (token_run_ok ops 0 [] _ _ _ outs Hi Hok) as (b & ids & -> & total & seen & slots & Ht & [(live & Hb & _) _ Hpast Hsort]); [lia|done|].
  destruct (PastTheEndId_ok total _ _ Ht (tb_bump _ _ _ _ Hb)) as (e & He & Hpos & Hoff). exists b, ids, e. split; [done|]. split; [done|].
  split_and!.
  - clear -Hpast Hsort. induction Hsort as [|[x ?] l Hs IH Hx]; cbn; [constructor|]. apply Forall_cons in Hpast as [[_ H0] Hpast]. constructor; [by apply IH|].
    apply Forall_fmap. rewrite Forall_forall in *. intros y Hy. cbn. destruct (Hpast _ Hy). rewrite id_ltb_pos by done. apply Z.ltb_lt. by apply Hx.
  - apply Forall_fmap. eapply Forall_impl; [exact Hpast|]. intros x [H1 H2]. cbn in *. rewrite id_ltb_pos by done. apply Z.ltb_lt. lia.
  - intros Hw. rewrite <- (list_fmap_id outs) at 2. apply list_fmap_ext. intros i t Ei. by apply stored_whole, (Forall_lookup_1 _ _ _ _ Hw Ei).
Qed.

Definition example_token_env : TokenEnv := {| blob_size := fun _ => 4096; string_cells := 4 |}.
Definition example_tokens : list TokenOp :=
  [TAppend (TokPacket (mkPacket (mkView 1 0 10) 7)); TAppend (TokJsonDur 5 [65]);
   TAppend (TokTrackEvent (mkTed (mkPacket (mkView 1 20 30) 8) (Some 3) None 4607182418800017408 [1; 2; 0; 0; 0; 0; 0; 0]));
   TExtract 1; TFreeMemory; TExtract 2; TAppend (TokJson [66]); TExtract 0; TFreeMemory; TExtract 3].

Definition example_back : list Token :=
  [TokJsonDur 5 [65]; TokTrackEvent (mkTed (mkPacket (mkView 1 20 30) 8) (Some 3) None 4607182418800017408 [1; 2; 0; 0; 0; 0; 0; 0]);
   TokPacket (mkPacket (mkView 1 0 10) 7); TokJson [66]].

Lemma token_buffer_roundtrip_witness :
  @ops_ok example_token_env [] example_tokens /\
  exists b ids, @token_run example_token_env TraceTokenBuffer_new [] example_tokens = Some (b, ids, example_back).
Proof.
  assert (Hok : @ops_ok example_token_env [] example_tokens).
  { cbn. unfold token_ok, view_ok, in_order, is_u32. cbn. repeat split; try lia; repeat constructor; cbn; lia. }
  split; [exact Hok|].
  destruct (@token_buffer_roundtrip example_token_env ltac:(unfold TokenEnvOk; cbn; lia) example_tokens example_back Hok) as (b & ids & e & Hrun & _);
    [cbn; lia|reflexivity|]. exists b, ids. exact Hrun.
Defined.

(** A zero extra counter hides the ones after it. The number of extra counters that
    are stored is the index of the first one that is zero, so a track event whose
    first extra counter is zero comes back with all of them zero, whatever the others
    were. *)
Theorem zero_counter_hides_others (x : Z) :
  let ted counters := TokTrackEvent (mkTed (mkPacket (mkView 1 0 10) 7) None None 0 counters) in
  exists b ids, @token_run example_token_env TraceTokenBuffer_new [] [TAppend (ted [0; x; 0; 0; 0; 0; 0; 0]); TExtract 0] =
    Some (b, ids, [ted (replicate kMaxNumExtraCounters 0)]).
Proof. cbn zeta. do 2 eexists. vm_compute. reflexivity. Qed.
