(* ===== verification/TraceSorter.v ===== *)
(** * Sorting events

    Models [src/trace_processor/sorter/trace_sorter.cc] and its header: events of
    several machines wait in queues, with their data in a [TraceTokenBuffer], and
    are handed to the parsers in the order of their timestamps, either all at the
    end or those that are old enough from time to time.

    The circular queues of events are the lists that [CircularQueue] refines. The
    calls of the parsers are recorded in [parsed]. *)

From stdpp Require Import sorting.
From S2P Require Import Prelude BumpAllocator TraceTokenBuffer.

Definition kTsMax : Z := 2 ^ 63 - 1.

(** The chunk index and offset of an event are those of its token. *)
Record TimestampedEvent := mkEv { ts : Z; ev_id : AllocId; event_type : EventType }.

(** Comparison of [std::tie]s. *)
Fixpoint tie_ltb (x y : list Z) : bool :=
  match x, y with
  | a :: x, b :: y => (a <? b) || ((a =? b) && tie_ltb x y)
  | [], _ :: _ => true
  | _, [] => false
  end.

Record Queue := mkQueue { events_ : list TimestampedEvent; min_ts_ : Z; max_ts_ : Z; sort_start_idx_ : nat; sort_min_ts_ : Z }.

Definition Queue_new : Queue := mkQueue [] kTsMax 0 0 kTsMax.

(** [Queue::Append]. *)
Definition Append (q : Queue) (timestamp : Z) (type : EventType) (id : AllocId) (use_slow_sorting : bool) : option Queue :=
  let events := events_ q ++ [mkEv timestamp id type] in
  q ← (if (max_ts_ q <? timestamp) || (negb use_slow_sorting && (timestamp =? max_ts_ q)) then
         Some (mkQueue events (min_ts_ q) timestamp (sort_start_idx_ q) (sort_min_ts_ q))
       else if (sort_start_idx_ q =? 0)%nat then
         if (2 <=? length events)%nat then Some (mkQueue events (min_ts_ q) (max_ts_ q) (length events - 1) timestamp) else None
       else Some (mkQueue events (min_ts_ q) (max_ts_ q) (sort_start_idx_ q) (Z.min (sort_min_ts_ q) timestamp)));
  let min_ts := Z.min (min_ts_ q) timestamp in
  if min_ts <=? max_ts_ q then Some (mkQueue (events_ q) min_ts (max_ts_ q) (sort_start_idx_ q) (sort_min_ts_ q)) else None.

Definition needs_sorting (q : Queue) : bool := negb (sort_start_idx_ q =? 0)%nat.

Section Sorting.
Context `{TokenEnv}.

(** The tuple that [operator<] or [SlowOperatorLess] compares. The difference wraps
    around for a negative duration, where C++ leaves it undefined. *)
Definition event_tie (use_slow_sorting : bool) (buffer : TraceTokenBuffer) (e : TimestampedEvent) : option (list Z) :=
  if use_slow_sorting then
    key ← match event_type e with
          | kJsonValueWithDur => dur ← Get_dur buffer (ev_id e); Some (s64 (kTsMax - dur))
          | _ => Some kTsMax
          end;
    Some [ts e; key; (ev_id e).1; (ev_id e).2]
  else Some [ts e; (ev_id e).1; (ev_id e).2].

Definition Keyed : Type := list Z * TimestampedEvent.

Definition keyed (use_slow_sorting : bool) (buffer : TraceTokenBuffer) (l : list TimestampedEvent) : option (list Keyed) :=
  mapM (fun e => k ← event_tie use_slow_sorting buffer e; Some (k, e)) l.

Definition keyed_le (x y : Keyed) : Prop := tie_ltb y.1 x.1 = false.
#[global] Instance keyed_le_dec : RelDecision keyed_le := fun x y => decide (tie_ltb y.1 x.1 = false).

(** [std::sort] and [std::is_sorted]. *)
Definition std_sort (use_slow_sorting : bool) (buffer : TraceTokenBuffer) (l : list TimestampedEvent) : option (list TimestampedEvent) :=
  l ← keyed use_slow_sorting buffer l;
  Some ((merge_sort keyed_le l).*2).

Fixpoint sorted_keys (l : list Keyed) : bool :=
  match l with
  | x :: (y :: _) as rest => negb (tie_ltb y.1 x.1) && sorted_keys rest
  | _ => true
  end.

Definition is_sorted (use_slow_sorting : bool) (buffer : TraceTokenBuffer) (l : list TimestampedEvent) : option bool :=
  l ← keyed use_slow_sorting buffer l;
  Some (sorted_keys l).

(** [std::lower_bound] with [TimestampedEvent::Compare]. *)
Fixpoint lower_bound (l : list TimestampedEvent) (value : Z) : nat :=
  match l with
  | [] => 0
  | e :: l => if ts e <? value then S (lower_bound l value) else 0
  end.

(** [Queue::Sort]. *)
Definition Sort (q : Queue) (buffer : TraceTokenBuffer) (use_slow_sorting : bool) : option Queue :=
  if needs_sorting q && (sort_start_idx_ q <? length (events_ q))%nat && (sort_min_ts_ q <? kTsMax) &&
     (if use_slow_sorting then sort_min_ts_ q <=? max_ts_ q else sort_min_ts_ q <? max_ts_ q) then
    let prefix := take (sort_start_idx_ q) (events_ q) in
    prefix_sorted ← is_sorted use_slow_sorting buffer prefix;
    if prefix_sorted : bool then
      let sort_begin := lower_bound prefix (sort_min_ts_ q) in
      tail ← std_sort use_slow_sorting buffer (drop sort_begin (events_ q));
      let events := take sort_begin (events_ q) ++ tail in
      all_sorted ← is_sorted use_slow_sorting buffer events;
      if all_sorted : bool then Some (mkQueue events (min_ts_ q) (max_ts_ q) 0 0) else None
    else None
  else None.

(** ** The sorter *)

Record TraceSorterData := mkData { machine_id : option Z; queues : list Queue }.

(** A call of a parser, for an event of a machine. *)
Record Parsed := mkParsed { p_machine : nat; p_event : TimestampedEvent; p_token : Token }.

Inductive SortingMode := kDefault | kFullSort.

Record TraceSorter := mkSorter {
  sorter_data_by_machine_ : list TraceSorterData;
  sorting_mode_ : SortingMode;
  token_buffer_ : TraceTokenBuffer;
  alloc_id_for_extraction_ : AllocId;
  flushes_since_extraction_ : Z;
  append_max_ts_ : Z;
  bypass_next_stage_for_testing_ : bool;
  latest_pushed_event_ts_ : Z;
  use_slow_sorting_ : bool;
  sorter_push_event_out_of_order : Z;
  parsed : list Parsed }.
Implicit Type s : TraceSorter.

Definition set_data s (d : list TraceSorterData) : TraceSorter :=
  mkSorter d (sorting_mode_ s) (token_buffer_ s) (alloc_id_for_extraction_ s) (flushes_since_extraction_ s) (append_max_ts_ s)
    (bypass_next_stage_for_testing_ s) (latest_pushed_event_ts_ s) (use_slow_sorting_ s) (sorter_push_event_out_of_order s) (parsed s).

Definition set_buffer s (b : TraceTokenBuffer) : TraceSorter :=
  mkSorter (sorter_data_by_machine_ s) (sorting_mode_ s) b (alloc_id_for_extraction_ s) (flushes_since_extraction_ s) (append_max_ts_ s)
    (bypass_next_stage_for_testing_ s) (latest_pushed_event_ts_ s) (use_slow_sorting_ s) (sorter_push_event_out_of_order s) (parsed s).

Definition set_extraction s (id : AllocId) (flushes : Z) : TraceSorter :=
  mkSorter (sorter_data_by_machine_ s) (sorting_mode_ s) (token_buffer_ s) id flushes (append_max_ts_ s)
    (bypass_next_stage_for_testing_ s) (latest_pushed_event_ts_ s) (use_slow_sorting_ s) (sorter_push_event_out_of_order s) (parsed s).

Definition set_append_max s (t : Z) : TraceSorter :=
  mkSorter (sorter_data_by_machine_ s) (sorting_mode_ s) (token_buffer_ s) (alloc_id_for_extraction_ s) (flushes_since_extraction_ s) t
    (bypass_next_stage_for_testing_ s) (latest_pushed_event_ts_ s) (use_slow_sorting_ s) (sorter_push_event_out_of_order s) (parsed s).

Definition set_slow s : TraceSorter :=
  mkSorter (sorter_data_by_machine_ s) (sorting_mode_ s) (token_buffer_ s) (alloc_id_for_extraction_ s) (flushes_since_extraction_ s) (append_max_ts_ s)
    (bypass_next_stage_for_testing_ s) (latest_pushed_event_ts_ s) true (sorter_push_event_out_of_order s) (parsed s).

Definition set_pushed s (latest out_of_order : Z) (p : list Parsed) : TraceSorter :=
  mkSorter (sorter_data_by_machine_ s) (sorting_mode_ s) (token_buffer_ s) (alloc_id_for_extraction_ s) (flushes_since_extraction_ s) (append_max_ts_ s)
    (bypass_next_stage_for_testing_ s) latest (use_slow_sorting_ s) out_of_order p.

(** The constructor; [bypass] is the variable of the environment. *)
Definition TraceSorter_new (mode : SortingMode) (bypass : bool) : option TraceSorter :=
  end_id ← PastTheEndAllocId TraceTokenBuffer_new;
  Some (mkSorter [mkData None []] mode TraceTokenBuffer_new end_id 0 0 bypass (- 2 ^ 63) false 0 []).

Definition AddMachineContext s (id : option Z) : TraceSorter := set_data s (sorter_data_by_machine_ s ++ [mkData id []]).

(** The index of the machine in [GetQueue]. *)
Fixpoint find_machine (l : list TraceSorterData) (id : Z) : option nat :=
  match l with
  | [] => None
  | d :: l => if decide (machine_id d = Some id) then Some 0%nat else S <$> find_machine l id
  end.

Definition GetQueue_machine s (id : option Z) : option nat :=
  d0 ← sorter_data_by_machine_ s !! 0%nat;
  if decide (machine_id d0 = None) then
    match id with
    | None => Some 0%nat
    | Some id => S <$> find_machine (tail (sorter_data_by_machine_ s)) id
    end
  else None.

(** [GetQueue]: the queue is there afterwards. *)
Definition GetQueue s (index : nat) (id : option Z) : option (TraceSorter * nat * Queue) :=
  m ← GetQueue_machine s id;
  d ← sorter_data_by_machine_ s !! m;
  let qs := if (length (queues d) <=? index)%nat then queues d ++ replicate (index + 1 - length (queues d)) Queue_new else queues d in
  q ← qs !! index;
  Some (set_data s (<[m := mkData (machine_id d) qs]> (sorter_data_by_machine_ s)), m, q).

Definition set_queue s (m index : nat) (q : Queue) : TraceSorter :=
  match sorter_data_by_machine_ s !! m with
  | Some d => set_data s (<[m := mkData (machine_id d) (<[index := q]> (queues d))]> (sorter_data_by_machine_ s))
  | None => s
  end.

Definition AppendNonFtraceEvent s (timestamp : Z) (type : EventType) (id : AllocId) (machine : option Z) : option TraceSorter :=
  '(s, m, q) ← GetQueue s 0 machine;
  q ← Append q timestamp type id (use_slow_sorting_ s);
  let s := set_queue s m 0 q in
  Some (set_append_max s (Z.max (append_max_ts_ s) (max_ts_ q))).

Definition PushTracePacket s (timestamp : Z) (data : TracePacketData) (machine : option Z) : option TraceSorter :=
  '(b, id) ← Append_TracePacketData (token_buffer_ s) data;
  AppendNonFtraceEvent (set_buffer s b) timestamp kTracePacket id machine.

Definition PushTrackEventPacket s (timestamp : Z) (data : TrackEventData) (machine : option Z) : option TraceSorter :=
  '(b, id) ← Append_TrackEventData (token_buffer_ s) data;
  AppendNonFtraceEvent (set_buffer s b) timestamp kTrackEvent id machine.

Definition PushJsonValue s (timestamp : Z) (json_value : list Z) (dur : option Z) : option TraceSorter :=
  match dur with
  | Some dur =>
      let s := set_slow s in
      '(b, id) ← Append_JsonWithDurEvent (token_buffer_ s) dur json_value;
      AppendNonFtraceEvent (set_buffer s b) timestamp kJsonValueWithDur id None
  | None =>
      '(b, id) ← Append_JsonEvent (token_buffer_ s) json_value;
      AppendNonFtraceEvent (set_buffer s b) timestamp kJsonValue id None
  end.

(** [ParseTracePacket]; of a JSON value with a duration the parser gets the value. *)
Definition ParseTracePacket s (m : nat) (e : TimestampedEvent) : option TraceSorter :=
  '(b, t) ← Extract_token (event_type e) (token_buffer_ s) (ev_id e);
  let s := set_buffer s b in
  Some (set_pushed s (latest_pushed_event_ts_ s) (sorter_push_event_out_of_order s) (parsed s ++ [mkParsed m e t])).

Definition ExtractAndDiscardTokenizedObject s (e : TimestampedEvent) : option TraceSorter :=
  match event_type e with
  | kTracePacket | kTrackEvent => '(b, _) ← Extract_TrackEventData (token_buffer_ s) (ev_id e); Some (set_buffer s b)
  | kJsonValue => '(b, _) ← Extract_JsonEvent (token_buffer_ s) (ev_id e); Some (set_buffer s b)
  | kJsonValueWithDur => '(b, _) ← Extract_JsonWithDurEvent (token_buffer_ s) (ev_id e); Some (set_buffer s b)
  end.

Definition MaybeExtractEvent s (m queue_idx : nat) (e : TimestampedEvent) : option TraceSorter :=
  let out_of_order := sorter_push_event_out_of_order s + (if ts e <? latest_pushed_event_ts_ s then 1 else 0) in
  let s := set_pushed s (Z.max (latest_pushed_event_ts_ s) (ts e)) out_of_order (parsed s) in
  if bypass_next_stage_for_testing_ s then ExtractAndDiscardTokenizedObject s e
  else if (queue_idx =? 0)%nat then ParseTracePacket s m e else Some s.

(** The queue with the earliest event, and the earliest event of the others. *)
Record Scan := mkScan { all_queues_empty : bool; min_queue_ts0 : Z; min_queue_ts1 : Z; min_machine_idx : nat; min_queue_idx : nat }.

Fixpoint scan_queues (append_max : Z) (m i : nat) (qs : list Queue) (sc : Scan) : option Scan :=
  match qs with
  | [] => Some sc
  | q :: qs =>
      sc ← (if bool_decide (events_ q = []) then Some sc
            else if max_ts_ q <=? append_max then
              Some (if all_queues_empty sc || (min_ts_ q <? min_queue_ts0 sc)
                    then mkScan false (min_ts_ q) (min_queue_ts0 sc) m i
                    else mkScan false (min_queue_ts0 sc)
                           (if min_ts_ q <? min_queue_ts1 sc then min_ts_ q else min_queue_ts1 sc) (min_machine_idx sc) (min_queue_idx sc))
            else None);
      scan_queues append_max m (S i) qs sc
  end.

Fixpoint scan_machines (append_max : Z) (m : nat) (l : list TraceSorterData) (sc : Scan) : option Scan :=
  match l with
  | [] => Some sc
  | d :: l => sc ← scan_queues append_max m 0 (queues d) sc; scan_machines append_max (S m) l sc
  end.

(** The loop over the events of the queue. *)
Fixpoint extract_loop s (m i : nat) (events : list TimestampedEvent) (limit : AllocId) (min_ts1 : Z) (num_extracted : nat) :
    option (TraceSorter * nat) :=
  match events with
  | [] => Some (s, num_extracted)
  | e :: events =>
      if id_geb (ev_id e) limit then Some (s, num_extracted)
      else if min_ts1 <? ts e then if (0 <? num_extracted)%nat then Some (s, num_extracted) else None
      else s ← MaybeExtractEvent s m i e; extract_loop s m i events limit min_ts1 (S num_extracted)
  end.

(** A round of the loop of [SortAndExtractEventsUntilAllocId]; [false] is a [break]. *)
Definition extract_round s (limit : AllocId) : option (TraceSorter * bool) :=
  sc ← scan_machines (append_max_ts_ s) 0 (sorter_data_by_machine_ s) (mkScan true kTsMax kTsMax 0 0);
  if all_queues_empty sc then Some (s, false)
  else
    let m := min_machine_idx sc in
    let i := min_queue_idx sc in
    d ← sorter_data_by_machine_ s !! m;
    q ← queues d !! i;
    q ← (if needs_sorting q then Sort q (token_buffer_ s) (use_slow_sorting_ s) else Some q);
    front ← head (events_ q);
    if min_ts_ q =? ts front then
      '(s, num_extracted) ← extract_loop (set_queue s m i q) m i (events_ q) limit (min_queue_ts1 sc) 0;
      if (num_extracted =? 0)%nat then Some (s, false)
      else
        let events := drop num_extracted (events_ q) in
        b ← FreeMemory (token_buffer_ s);
        let q := match events with
                 | [] => mkQueue [] kTsMax 0 (sort_start_idx_ q) (sort_min_ts_ q)
                 | e :: es => mkQueue (e :: es) (ts e) (max_ts_ q) (sort_start_idx_ q) (sort_min_ts_ q)
                 end in
        Some (set_queue (set_buffer s b) m i q, true)
    else None.

(** The loop, with at most [fuel] rounds. *)
Fixpoint extract_rounds (fuel : nat) s (limit : AllocId) : option TraceSorter :=
  match fuel with
  | O => None
  | S fuel => '(s, go_on) ← extract_round s limit; if go_on : bool then extract_rounds fuel s limit else Some s
  end.

(** The number of events that wait: every round but the last extracts one. *)
Definition pending s : list TimestampedEvent := sorter_data_by_machine_ s ≫= (fun d => queues d ≫= events_).

Definition SortAndExtractEventsUntilAllocId s (limit : AllocId) : option TraceSorter := extract_rounds (S (length (pending s))) s limit.

Definition ExtractEventsForced s : option TraceSorter :=
  end_id ← PastTheEndAllocId (token_buffer_ s);
  s ← SortAndExtractEventsUntilAllocId s end_id;
  if forallb (fun d => forallb (fun q => bool_decide (events_ q = [])) (queues d)) (sorter_data_by_machine_ s) then
    let s := set_data s ((fun d => mkData (machine_id d) []) <$> sorter_data_by_machine_ s) in
    Some (set_extraction s end_id 0)
  else None.

Definition NotifyFlushEvent s : TraceSorter := set_extraction s (alloc_id_for_extraction_ s) (u32 (flushes_since_extraction_ s + 1)).

Definition NotifyReadBufferEvent s : option TraceSorter :=
  if match sorting_mode_ s with kFullSort => true | kDefault => false end || (flushes_since_extraction_ s <? 2) then Some s
  else
    s ← SortAndExtractEventsUntilAllocId s (alloc_id_for_extraction_ s);
    end_id ← PastTheEndAllocId (token_buffer_ s);
    Some (set_extraction s end_id 0).

(** The destructor, with that of the allocator of tokens. *)
Fixpoint discard_all s (events : list TimestampedEvent) : option TraceSorter :=
  match events with
  | [] => Some s
  | e :: events => s ← ExtractAndDiscardTokenizedObject s e; discard_all s events
  end.

Definition TraceSorter_delete s : option bool :=
  s ← discard_all s (pending s);
  Some (BumpAllocator_delete (allocator_ (token_buffer_ s))).
End Sorting.

(** ** Order of events *)

Lemma tie_ltb_irrefl x : tie_ltb x x = false.
Proof. induction x as [|a x IH]; cbn; [done|]. by rewrite Z.ltb_irrefl, Z.eqb_refl, IH. Qed.

Lemma tie_ltb_trans : forall x y z, tie_ltb x y = true -> tie_ltb y z = true -> tie_ltb x z = true.
Proof.
  induction x as [|a x IH]; intros [|b y] [|c z]; cbn; try done. rewrite !orb_true_iff, !andb_true_iff, !Z.ltb_lt, !Z.eqb_eq.
  intros [?|[-> Hxy]] [?|[-> Hyz]]; [left; lia|left; lia|left; lia|right]. split; [done|by eapply IH].
Qed.

Lemma tie_total : forall x y, tie_ltb x y = false -> tie_ltb y x = false -> x = y.
Proof.
  induction x as [|a x IH]; intros [|b y]; cbn; try done. rewrite !orb_false_iff, !andb_false_iff, !Z.ltb_ge, !Z.eqb_neq.
  intros [? [?|Hxy]] [? [?|Hyx]]; try lia. f_equal; [lia|by apply IH].
Qed.

Lemma tie_ltb_asym x y : tie_ltb x y = true -> tie_ltb y x = false.
Proof. intros Hxy. destruct (tie_ltb y x) eqn:E; [|done]. pose proof (tie_ltb_trans x y x Hxy E) as Hc. by rewrite tie_ltb_irrefl in Hc. Qed.

#[global] Instance keyed_le_total : Total keyed_le.
Proof. intros x y. unfold keyed_le. destruct (tie_ltb y.1 x.1) eqn:E; [right; by apply tie_ltb_asym|by left]. Qed.

#[global] Instance keyed_le_trans : Transitive keyed_le.
Proof.
  intros x y z. unfold keyed_le. intros Hxy Hyz. destruct (tie_ltb z.1 x.1) eqn:E; [|done]. exfalso.
  destruct (tie_ltb x.1 y.1) eqn:E2.
  - pose proof (tie_ltb_trans _ _ _ E E2). congruence.
  - pose proof (tie_total _ _ E2 Hxy) as Heq. rewrite Heq in E. congruence.
Qed.

(** The key of an event, for the tokens [hist] that were ever appended. *)
Section Keys.
Context (hist : gmap AllocId Token).

Definition dur_key (e : TimestampedEvent) : Z :=
  match hist !! ev_id e with Some (TokJsonDur dur _) => s64 (kTsMax - dur) | _ => kTsMax end.

Definition ev_key (e : TimestampedEvent) : list Z := [ts e; dur_key e; (ev_id e).1; (ev_id e).2].

Definition ev_lt (x y : TimestampedEvent) : Prop := tie_ltb (ev_key x) (ev_key y) = true.

#[global] Instance ev_lt_trans : Transitive ev_lt.
Proof. intros x y z. apply tie_ltb_trans. Qed.

Lemma ev_lt_ts x y : ev_lt x y -> ts x <= ts y.
Proof. unfold ev_lt. cbn. rewrite orb_true_iff, andb_true_iff, Z.ltb_lt, Z.eqb_eq. lia. Qed.

Lemma ts_ev_lt x y : ts x < ts y -> ev_lt x y.
Proof. intros Hlt. unfold ev_lt. cbn. by rewrite (proj2 (Z.ltb_lt _ _)). Qed.

(** Events with the same key are the same allocation. *)
Lemma ev_key_id x y : ev_key x = ev_key y -> ev_id x = ev_id y.
Proof. unfold ev_key. intros [= _ _ H1 H2]. by destruct (ev_id x), (ev_id y); cbn in *; subst. Qed.

(** The tuple compared, in both modes. *)
Definition tie_of (slow : bool) (e : TimestampedEvent) : list Z := if slow then ev_key e else [ts e; (ev_id e).1; (ev_id e).2].

(** An event whose token is known. *)
Definition known (slow : bool) (e : TimestampedEvent) : Prop :=
  exists t, hist !! ev_id e = Some t /\ token_type t = event_type e /\ (slow = false -> event_type e <> kJsonValueWithDur).

Lemma known_dur_key e : known false e -> dur_key e = kTsMax.
Proof. intros (t & Ht & Htype & Hne). unfold dur_key. rewrite Ht. destruct t; try done. cbn in Htype. by rewrite <- Htype in Hne; destruct Hne. Qed.

Lemma tie_of_lt slow x y : known slow x -> known slow y -> tie_ltb (tie_of slow x) (tie_of slow y) = tie_ltb (ev_key x) (ev_key y).
Proof.
  intros Hx Hy. destruct slow; [done|]. unfold ev_key. rewrite (known_dur_key x Hx), (known_dur_key y Hy). cbn. by rewrite Z.ltb_irrefl, Z.eqb_refl.
Qed.

Lemma known_slow slow e : known slow e -> known true e.
Proof. intros (t & ? & ? & _). by exists t. Qed.
End Keys.

Lemma dur_key_mono hist hist' e : hist ⊆ hist' -> is_Some (hist !! ev_id e) -> dur_key hist' e = dur_key hist e.
Proof. intros Hsub [t Ht]. unfold dur_key. by rewrite Ht, (lookup_weaken _ _ _ _ Ht Hsub). Qed.

(** ** Sorting a queue *)

Section SortQueue.
Context `{TokenEnv} (hist : gmap AllocId Token) (slow : bool) (buffer : TraceTokenBuffer).

(** The comparators can read what they compare. *)
Definition readable (e : TimestampedEvent) : Prop := known hist slow e /\ event_tie slow buffer e = Some (tie_of hist slow e).

Definition with_key (e : TimestampedEvent) : Keyed := (tie_of hist slow e, e).

Lemma keyed_ok l : Forall readable l -> keyed slow buffer l = Some (with_key <$> l).
Proof.
  intros Hl. unfold keyed. apply mapM_Some. induction Hl as [|e l [_ He] Hl IH]; cbn; constructor; [by rewrite He|done].
Qed.

Lemma with_key_2 l : (with_key <$> l).*2 = l.
Proof. rewrite <- list_fmap_compose. apply list_fmap_id. Qed.

Lemma sorted_keys_ok l : Forall readable l -> StronglySorted (ev_lt hist) l -> is_sorted slow buffer l = Some true.
Proof.
  intros Hl Hs. unfold is_sorted. rewrite keyed_ok by done. cbn [mbind option_bind]. f_equal.
  induction Hs as [|x l Hs IH Hx]; [done|]. apply Forall_cons in Hl as [[Hkx _] Hl]. destruct l as [|y l]; [done|].
  apply Forall_cons in Hx as [Hxy _]. pose proof Hl as Hl'. apply Forall_cons in Hl' as [[Hky _] _].
  change (negb (tie_ltb (tie_of hist slow y) (tie_of hist slow x)) && sorted_keys (with_key <$> y :: l) = true).
  rewrite (IH Hl), tie_of_lt by done. by rewrite (tie_ltb_asym _ _ Hxy).
Qed.

Lemma strict_keys (ks : list Keyed) : StronglySorted keyed_le ks -> (forall k, k ∈ ks -> k = with_key k.2 /\ known hist slow k.2) ->
  NoDup (ev_id <$> ks.*2) -> StronglySorted (ev_lt hist) ks.*2.
Proof.
  induction 1 as [|k ks Hs IH Hk]; intros Hks Hnd; cbn in *; [constructor|]. apply NoDup_cons in Hnd as [Hni Hnd].
  constructor; [apply IH; [|done]; intros; apply Hks; by right|]. apply Forall_fmap. rewrite Forall_forall in *. intros k2 Hk2. cbn.
  destruct (Hks k) as [Ek Hkn]; [by left|]. destruct (Hks k2) as [Ek2 Hkn2]; [by right|]. specialize (Hk k2 Hk2). unfold keyed_le in Hk.
  rewrite Ek, Ek2 in Hk. cbn [with_key fst] in Hk. rewrite tie_of_lt in Hk by done. unfold ev_lt.
  destruct (tie_ltb (ev_key hist k.2) (ev_key hist k2.2)) eqn:E; [done|]. exfalso. apply Hni. rewrite (ev_key_id hist k.2 k2.2) by by apply tie_total.
  by do 2 apply list_elem_of_fmap_2.
Qed.

Lemma std_sort_ok l : Forall readable l -> NoDup (ev_id <$> l) ->
  exists l', std_sort slow buffer l = Some l' /\ l' ≡ₚ l /\ StronglySorted (ev_lt hist) l'.
Proof.
  intros Hl Hnd. unfold std_sort. rewrite keyed_ok by done. cbn [mbind option_bind]. eexists. split; [done|].
  assert (Hp : (merge_sort keyed_le (with_key <$> l)).*2 ≡ₚ l) by (rewrite merge_sort_Permutation; by rewrite with_key_2). split; [done|].
  apply strict_keys.
  - apply StronglySorted_merge_sort; apply _.
  - intros k Hk. rewrite merge_sort_Permutation in Hk. apply list_elem_of_fmap in Hk as (e & -> & He). rewrite Forall_forall in Hl. split; [done|]. by apply Hl.
  - by rewrite Hp.
Qed.

(** ** Queues *)

(** The prefix of a queue that is sorted. *)
Definition sorted_len (q : Queue) : nat := if (sort_start_idx_ q =? 0)%nat then length (events_ q) else sort_start_idx_ q.

Record q_ok (q : Queue) : Prop := {
  qo_known : Forall (known hist slow) (events_ q);
  qo_range : Forall (fun e => 0 < ts e < kTsMax) (events_ q);
  qo_ids : NoDup (ev_id <$> events_ q);
  qo_empty : events_ q = [] -> min_ts_ q = kTsMax /\ max_ts_ q = 0;
  qo_min : events_ q <> [] -> min_ts_ q ∈ ts <$> events_ q;
  qo_min_le : Forall (fun e => min_ts_ q <= ts e) (events_ q);
  qo_max : 0 <= max_ts_ q < kTsMax /\ Forall (fun e => ts e <= max_ts_ q) (events_ q);
  qo_prefix : StronglySorted (ev_lt hist) (take (sorted_len q) (events_ q));
  qo_start : (sort_start_idx_ q < length (events_ q))%nat \/ sort_start_idx_ q = 0%nat;
  qo_tail : sort_start_idx_ q <> 0%nat -> Forall (fun e => sort_min_ts_ q <= ts e) (drop (sort_start_idx_ q) (events_ q)) /\
    (if slow then sort_min_ts_ q <= max_ts_ q else sort_min_ts_ q < max_ts_ q) }.

Lemma Queue_new_ok : q_ok Queue_new.
Proof. by constructor; cbn; (constructor || (split; [unfold kTsMax; lia|constructor]) || (by right) || done). Qed.

Lemma lower_bound_spec l v : (lower_bound l v <= length l)%nat /\ Forall (fun e => ts e < v) (take (lower_bound l v) l) /\
  (StronglySorted (ev_lt hist) l -> Forall (fun e => v <= ts e) (drop (lower_bound l v) l)).
Proof.
  induction l as [|e l (IH1 & IH2 & IH3)]; cbn [lower_bound]; [split_and!; cbn; [lia|constructor..]|].
  destruct (Z.ltb_spec (ts e) v) as [Hlt|Hge]; cbn [take drop length].
  - split_and!; [lia|by constructor|]. intros Hs. apply StronglySorted_inv in Hs as [Hs _]. by apply IH3.
  - split_and!; [lia|constructor|]. intros Hs. apply StronglySorted_inv in Hs as [_ He]. constructor; [done|].
    eapply Forall_impl; [exact He|]. intros x Hx. apply ev_lt_ts in Hx. lia.
Qed.

(** Sorting makes the whole queue sorted. *)
Lemma Sort_ok q : q_ok q -> Forall readable (events_ q) -> needs_sorting q = true ->
  exists q', Sort q buffer slow = Some q' /\ q_ok q' /\ events_ q' ≡ₚ events_ q /\ needs_sorting q' = false /\ min_ts_ q' = min_ts_ q /\ max_ts_ q' = max_ts_ q.
Proof.
  intros Hq Hr Hn. unfold needs_sorting in Hn. apply negb_true_iff, Nat.eqb_neq in Hn. destruct (qo_start _ Hq) as [Hst|]; [|done].
  destruct (qo_tail _ Hq Hn) as [Htail Hmin]. destruct (qo_max _ Hq) as [Hmaxr Hmax]. pose proof (qo_prefix _ Hq) as Hpre.
  unfold sorted_len in Hpre. rewrite (proj2 (Nat.eqb_neq _ _) Hn) in Hpre.
  unfold Sort, needs_sorting. rewrite (proj2 (Nat.eqb_neq _ _) Hn), (proj2 (Nat.ltb_lt _ _) Hst). cbn [negb andb].
  rewrite (proj2 (Z.ltb_lt (sort_min_ts_ q) kTsMax)) by (destruct slow; lia). cbn [andb].
  replace (if slow then _ else _) with true by (symmetry; destruct slow; [by apply Z.leb_le|by apply Z.ltb_lt]).
  rewrite sorted_keys_ok by (done || by apply Forall_take). cbn [mbind option_bind].
  set (n := sort_start_idx_ q) in *. set (k := lower_bound (take n (events_ q)) (sort_min_ts_ q)).
  destruct (lower_bound_spec (take n (events_ q)) (sort_min_ts_ q)) as (Hk1 & Hk2 & Hk3). fold k in Hk1, Hk2, Hk3. specialize (Hk3 Hpre).
  rewrite length_take in Hk1. rewrite take_take, Nat.min_l in Hk2 by lia.
  pose proof (qo_ids _ Hq) as Hnd. rewrite <- (take_drop k (events_ q)), fmap_app in Hnd. apply NoDup_app in Hnd as (_ & _ & Hnd).
  destruct (std_sort_ok (drop k (events_ q))) as (tail & -> & Hperm & Hsort); [by apply Forall_drop|done|]. cbn [mbind option_bind].
  assert (Hall : take k (events_ q) ++ tail ≡ₚ events_ q) by (rewrite Hperm; by rewrite take_drop).
  assert (Hge : Forall (fun e => sort_min_ts_ q <= ts e) tail).
  { rewrite Hperm. rewrite <- (take_drop n (events_ q)). rewrite drop_app_le by (rewrite length_take; lia). by apply Forall_app. }
  assert (Hs : StronglySorted (ev_lt hist) (take k (events_ q) ++ tail)).
  { apply StronglySorted_app. split_and!; [| |done].
    2: { replace (take k (events_ q)) with (take k (take n (events_ q))) by (rewrite take_take; f_equal; lia).
         eapply StronglySorted_app_1_l. by rewrite take_drop. }
    intros x y Hx Hy. rewrite Forall_forall in Hk2, Hge. apply ts_ev_lt. specialize (Hk2 _ Hx). specialize (Hge _ Hy). lia. }
  rewrite sorted_keys_ok by (done || by rewrite Hall). cbn [mbind option_bind]. eexists. split; [done|].
  split; [|cbn; done]. destruct Hq. constructor; cbn [events_ min_ts_ max_ts_ sort_start_idx_ sort_min_ts_]; rewrite ?Hall; try done; try by right.
  - intros He. rewrite He in Hall. apply Permutation_nil_l in Hall. symmetry in Hall. by apply qo_empty0.
  - intros Hne. rewrite Hall. apply qo_min0. intros E. apply Hne, Permutation_nil_r. rewrite Hall. by rewrite E.
  - unfold sorted_len. cbn. by rewrite firstn_all.
Qed.

(** An event that is younger than those with its timestamp. *)
Lemma same_ts_lt x y : known hist false x -> known hist false y -> ts x = ts y -> id_ltb (ev_id x) (ev_id y) = true -> ev_lt hist x y.
Proof.
  intros Hx Hy Hts Hid. unfold ev_lt, ev_key. rewrite (known_dur_key _ x Hx), (known_dur_key _ y Hy), Hts. cbn [tie_ltb].
  rewrite !Z.ltb_irrefl, !Z.eqb_refl. cbn [orb andb]. unfold id_ltb in Hid. by rewrite andb_false_r, orb_false_r.
Qed.

Lemma sorted_append q e : q_ok q -> known hist slow e -> Forall (fun x => id_ltb (ev_id x) (ev_id e) = true) (events_ q) ->
  max_ts_ q < ts e \/ slow = false /\ ts e = max_ts_ q -> sort_start_idx_ q = 0%nat -> StronglySorted (ev_lt hist) (events_ q ++ [e]).
Proof.
  intros Hq He Hids Hord H0. pose proof (qo_prefix _ Hq) as Hpre. unfold sorted_len in Hpre. rewrite H0 in Hpre. cbn in Hpre. rewrite firstn_all in Hpre.
  apply StronglySorted_snoc; [done|]. destruct (qo_max _ Hq) as [_ Hmax]. pose proof (qo_known _ Hq) as Hkn. rewrite Forall_forall in *.
  intros x Hx. specialize (Hmax x Hx). destruct (decide (ts x < ts e)); [by apply ts_ev_lt|]. destruct Hord as [|[Hs Heq]]; [lia|].
  apply same_ts_lt; [..|by apply Hids]; [rewrite <- Hs; by apply Hkn|by rewrite <- Hs|lia].
Qed.

(** The parts of the invariant that do not depend on the order. *)
Lemma q_ok_snoc q e q' : q_ok q -> known hist slow e -> 0 < ts e < kTsMax -> ~ ev_id e ∈ (ev_id <$> events_ q) ->
  events_ q' = events_ q ++ [e] -> min_ts_ q' = Z.min (min_ts_ q) (ts e) -> max_ts_ q' = Z.max (max_ts_ q) (ts e) ->
  StronglySorted (ev_lt hist) (take (sorted_len q') (events_ q')) -> ((sort_start_idx_ q' < length (events_ q'))%nat \/ sort_start_idx_ q' = 0%nat) ->
  (sort_start_idx_ q' <> 0%nat -> Forall (fun e => sort_min_ts_ q' <= ts e) (drop (sort_start_idx_ q') (events_ q')) /\
    (if slow then sort_min_ts_ q' <= max_ts_ q' else sort_min_ts_ q' < max_ts_ q')) -> q_ok q'.
Proof.
  intros Hq He Hr Hni Hev Hmin Hmax Hpre Hst Htail. destruct Hq as [K1 K2 K3 K4 K5 K6 [K7 K7'] _ _ _]. constructor; rewrite ?Hmax; try done.
  - rewrite Hev. apply Forall_app. by split; [|constructor].
  - rewrite Hev. apply Forall_app. by split; [|constructor].
  - rewrite Hev, fmap_app. apply NoDup_app. split_and!; [done| |apply NoDup_singleton]. intros x Hx Hx'. apply list_elem_of_singleton in Hx' as ->. done.
  - rewrite Hev. intros E. by apply app_nil in E as [_ E].
  - intros _. rewrite Hev, Hmin, fmap_app. apply elem_of_app. destruct (decide (events_ q = [])) as [E|E].
    + right. apply list_elem_of_singleton. destruct (K4 E) as [-> _]. lia.
    + destruct (Z.min_spec (min_ts_ q) (ts e)) as [[_ ->]|[_ ->]]; [left; by apply K5|right; by left].
  - rewrite Hev, Hmin. apply Forall_app. split; [|constructor; [lia|constructor]]. eapply Forall_impl; [exact K6|]. cbn. intros; lia.
  - rewrite Hev. split; [lia|]. apply Forall_app. split; [|constructor; [lia|constructor]]. eapply Forall_impl; [exact K7'|]. cbn. intros; lia.
  - by rewrite <- Hmax.
Qed.

Lemma Append_ok q e : q_ok q -> known hist slow e -> 0 < ts e < kTsMax -> ~ ev_id e ∈ (ev_id <$> events_ q) ->
  Forall (fun x => id_ltb (ev_id x) (ev_id e) = true) (events_ q) ->
  exists q', Append q (ts e) (event_type e) (ev_id e) slow = Some q' /\ q_ok q' /\ events_ q' = events_ q ++ [e] /\ max_ts_ q' = Z.max (max_ts_ q) (ts e).
Proof.
  intros Hq He Hr Hni Hids. unfold Append. replace (mkEv (ts e) (ev_id e) (event_type e)) with e by by destruct e.
  destruct (qo_max _ Hq) as [Hm _]. pose proof (qo_prefix _ Hq) as Hpre.
  assert (Hold : sort_start_idx_ q <> 0%nat -> (sort_start_idx_ q < length (events_ q))%nat) by (destruct (qo_start _ Hq); lia).
  destruct ((max_ts_ q <? ts e) || (negb slow && (ts e =? max_ts_ q))) eqn:Ho; [|destruct (Nat.eqb_spec (sort_start_idx_ q) 0) as [H0|H0]].
  - assert (Hord : max_ts_ q < ts e \/ slow = false /\ ts e = max_ts_ q).
    { apply orb_true_iff in Ho as [Ho|Ho]; [left; by apply Z.ltb_lt|right]. apply andb_true_iff in Ho as [Hs Heq]. split; [by destruct slow|by apply Z.eqb_eq]. }
    cbn [mbind option_bind max_ts_ min_ts_ events_ sort_start_idx_ sort_min_ts_]. rewrite (proj2 (Z.leb_le _ _)) by lia. eexists. split; [done|].
    split; [|cbn; split; [done|lia]]. eapply q_ok_snoc; try done; cbn [max_ts_ min_ts_ events_ sort_start_idx_ sort_min_ts_]; try lia.
    + unfold sorted_len in *. cbn [events_ sort_start_idx_]. destruct (Nat.eqb_spec (sort_start_idx_ q) 0).
      * rewrite firstn_all. by apply sorted_append.
      * rewrite take_app_le by (specialize (Hold n); lia). done.
    + rewrite length_app. destruct (qo_start _ Hq); [left; lia|by right].
    + intros Hne. destruct (qo_tail _ Hq Hne) as [Ht Hc]. specialize (Hold Hne). split; [|destruct slow; lia].
      rewrite drop_app_le by lia. apply Forall_app. split; [done|]. constructor; [destruct slow; lia|constructor].
  - apply orb_false_iff in Ho as [Ho1 Ho2]. apply Z.ltb_ge in Ho1. rewrite length_app. cbn [length].
    assert (Hne : events_ q <> []) by (intros E; destruct (qo_empty _ Hq E); lia). assert (0 < length (events_ q))%nat by (destruct (events_ q); [done|cbn; lia]).
    rewrite (proj2 (Nat.leb_le _ _)) by lia. cbn [mbind option_bind max_ts_ min_ts_ events_ sort_start_idx_ sort_min_ts_]. rewrite (proj2 (Z.leb_le _ _)) by lia.
    replace (length (events_ q) + 1 - 1)%nat with (length (events_ q)) by lia. eexists. split; [done|]. split; [|cbn; split; [done|lia]].
    eapply q_ok_snoc; try done; cbn [max_ts_ min_ts_ events_ sort_start_idx_ sort_min_ts_]; try lia.
    + unfold sorted_len in *. rewrite H0 in Hpre. cbn [events_ sort_start_idx_ Nat.eqb] in *. rewrite firstn_all in Hpre.
      rewrite (proj2 (Nat.eqb_neq _ _)) by lia. by rewrite take_app_length.
    + left. rewrite length_app. cbn. lia.
    + intros _. rewrite drop_app_length. split; [constructor; [lia|constructor]|]. destruct slow; [lia|]. cbn in Ho2. apply Z.eqb_neq in Ho2. lia.
  - apply orb_false_iff in Ho as [Ho1 Ho2]. apply Z.ltb_ge in Ho1. specialize (Hold H0). destruct (qo_tail _ Hq H0) as [Ht Hc].
    cbn [mbind option_bind max_ts_ min_ts_ events_ sort_start_idx_ sort_min_ts_]. rewrite (proj2 (Z.leb_le _ _)) by lia.
    eexists. split; [done|]. split; [|cbn; split; [done|lia]]. eapply q_ok_snoc; try done; cbn [max_ts_ min_ts_ events_ sort_start_idx_ sort_min_ts_]; try lia.
    + unfold sorted_len in *. cbn [events_ sort_start_idx_] in *. rewrite (proj2 (Nat.eqb_neq _ _) H0) in *. by rewrite take_app_le by lia.
    + left. rewrite length_app. cbn. lia.
    + intros _. split; [|destruct slow; lia]. rewrite drop_app_le by lia. apply Forall_app. split; [|constructor; [lia|constructor]].
      eapply Forall_impl; [exact Ht|]. cbn. intros; lia.
Qed.

(** A sorted queue after its first events have left. *)
Lemma drop_ok q n : q_ok q -> needs_sorting q = false -> (0 < n <= length (events_ q))%nat ->
  q_ok (match drop n (events_ q) with
        | [] => mkQueue [] kTsMax 0 (sort_start_idx_ q) (sort_min_ts_ q)
        | e :: es => mkQueue (e :: es) (ts e) (max_ts_ q) (sort_start_idx_ q) (sort_min_ts_ q)
        end).
Proof.
  intros Hq Hns Hn. unfold needs_sorting in Hns. apply negb_false_iff, Nat.eqb_eq in Hns. pose proof (qo_prefix _ Hq) as Hpre.
  unfold sorted_len in Hpre. rewrite Hns in Hpre. cbn in Hpre. rewrite firstn_all in Hpre. rewrite Hns.
  rewrite <- (take_drop n (events_ q)) in Hpre. apply StronglySorted_app_1_r in Hpre.
  assert (Hsub : forall P : TimestampedEvent -> Prop, Forall P (events_ q) -> Forall P (drop n (events_ q))) by (intros P; apply Forall_drop).
  pose proof (Hsub _ (qo_known _ Hq)) as K1. pose proof (Hsub _ (qo_range _ Hq)) as K2. destruct (qo_max _ Hq) as [K7 K7']. apply Hsub in K7'.
  pose proof (qo_ids _ Hq) as K3. rewrite <- (take_drop n (events_ q)), fmap_app in K3. apply NoDup_app in K3 as (_ & _ & K3).
  destruct (drop n (events_ q)) as [|e es] eqn:E.
  - by constructor; cbn; (constructor || (split; [unfold kTsMax; lia|constructor]) || (by right) || done).
  - constructor; cbn [events_ min_ts_ max_ts_ sort_start_idx_ sort_min_ts_]; try done; try (by right); try (intros _; by left).
    + apply StronglySorted_inv in Hpre as [_ Hle]. constructor; [lia|]. eapply Forall_impl; [exact Hle|]. intros x. apply ev_lt_ts.
    + unfold sorted_len. cbn [sort_start_idx_ events_ Nat.eqb]. by rewrite firstn_all.
Qed.
End SortQueue.

(** More tokens, or slow sorting from now on. *)
Section Weaken.
Context (hist hist' : gmap AllocId Token) (Hsub : hist ⊆ hist') (slow slow' : bool) (Hslow : slow = true -> slow' = true).

Lemma known_weaken e : known hist slow e -> known hist' slow' e.
Proof. intros (t & Ht & Htype & Hs). exists t. split; [by eapply lookup_weaken|]. split; [done|]. intros Hs'. apply Hs. destruct slow; [by rewrite Hslow in Hs'|done]. Qed.

Lemma sorted_weaken l : Forall (known hist slow) l -> StronglySorted (ev_lt hist) l -> StronglySorted (ev_lt hist') l.
Proof.
  intros Hk Hs. induction Hs as [|x l Hs IH Hx]; [constructor|]. apply Forall_cons in Hk as [(t & Ht & _) Hk]. constructor; [by apply IH|].
  rewrite Forall_forall in *. intros y Hy. destruct (Hk y Hy) as (t2 & Ht2 & _). specialize (Hx y Hy). unfold ev_lt, ev_key in *.
  rewrite !(dur_key_mono hist hist') by (done || by eexists). done.
Qed.

Lemma q_ok_weaken q : q_ok hist slow q -> q_ok hist' slow' q.
Proof.
  intros []. constructor; try done.
  - eapply Forall_impl; [exact qo_known0|]. apply known_weaken.
  - eapply sorted_weaken; [|done]. by apply Forall_take.
  - intros Hne. destruct (qo_tail0 Hne) as [? Hc]. split; [done|]. destruct slow, slow'; try lia.
Qed.
End Weaken.

(** ** All queues *)

Fixpoint tagged_from (m : nat) (l : list TraceSorterData) : list (nat * TimestampedEvent) :=
  match l with
  | [] => []
  | d :: l => (pair m <$> (queues d ≫= events_)) ++ tagged_from (S m) l
  end.

(** The events that wait, with their machines. *)
Definition tagged (s : TraceSorter) : list (nat * TimestampedEvent) := tagged_from 0 (sorter_data_by_machine_ s).

Lemma tagged_pending_from l : forall m, length (tagged_from m l) = length (l ≫= (fun d => queues d ≫= events_)).
Proof. induction l as [|d l IH]; intros m; cbn; [done|]. rewrite !length_app, length_fmap. f_equal. apply IH. Qed.

Lemma elem_tagged_from l m e : forall k, (m, e) ∈ tagged_from k l <-> exists i d q, m = (k + i)%nat /\ l !! i = Some d /\ q ∈ queues d /\ e ∈ events_ q.
Proof.
  induction l as [|d l IH]; intros k; cbn.
  - split; [by intros ?%not_elem_of_nil|]. by intros (i & d & q & _ & Hi & _).
  - rewrite elem_of_app, IH. split.
    + intros [H0|(i & d' & q & -> & Hi & Hq & He)].
      * apply list_elem_of_fmap in H0 as (e' & [= -> ->] & He). apply list_elem_of_bind in He as (q & Hq & He). exists 0%nat, d, q. split_and!; [lia|done..].
      * exists (S i), d', q. split_and!; [lia|done..].
    + intros ([|i] & d' & q & -> & Hi & Hq & He); [left|right].
      * injection Hi as <-. rewrite Nat.add_0_r. apply list_elem_of_fmap_2. apply list_elem_of_bind. by exists q.
      * exists i, d', q. split_and!; [lia|done..].
Qed.

(** One queue and the rest. *)
Lemma tagged_split l m d q : forall k, l !! m = Some d -> queues d = [q] ->
  exists rest, tagged_from k l ≡ₚ (pair (k + m)%nat <$> events_ q) ++ rest /\
    (forall q', tagged_from k (<[m := mkData (machine_id d) [q']]> l) ≡ₚ (pair (k + m)%nat <$> events_ q') ++ rest) /\
    (forall m' e, (m', e) ∈ rest -> m' <> (k + m)%nat).
Proof.
  revert m. induction l as [|d0 l IH]; intros [|m] k Hm Hq; try done.
  - injection Hm as ->. exists (tagged_from (S k) l). cbn. rewrite Hq, Nat.add_0_r. cbn. rewrite app_nil_r. split_and!; [done| |].
    + intros q'. cbn. by rewrite app_nil_r.
    + intros m' e He. apply elem_tagged_from in He as (i & _ & _ & -> & _). lia.
  - destruct (IH m (S k) Hm Hq) as (rest & Hp & Hq' & Hne). replace (S k + m)%nat with (k + S m)%nat in * by lia.
    exists ((pair k <$> (queues d0 ≫= events_)) ++ rest). cbn. split_and!.
    + rewrite Hp. rewrite !app_assoc. by rewrite (Permutation_app_comm (pair k <$> _)).
    + intros q'. rewrite (Hq' q'). rewrite !app_assoc. by rewrite (Permutation_app_comm (pair k <$> _)).
    + intros m' e He. apply elem_of_app in He as [He|He]; [|by eapply Hne]. apply list_elem_of_fmap in He as (? & [= -> _] & _). lia.
Qed.
