(* ===== verification/TraceSorterExtract.v ===== *)
(** * What the sorter extracts

    The invariant of a [TraceSorter], the rounds of an extraction, and what any
    sequence of pushes, flushes, reads and extractions hands to the parsers. *)

From stdpp Require Import sorting.
From S2P Require Import Prelude BumpAllocator TraceTokenBuffer TraceSorter.

Section Extract.
Context `{TokenEnv}.
Implicit Type s : TraceSorter.

(** The statistics after some calls of parsers. *)
Definition stat_step (st : Z * Z) (p : Parsed) : Z * Z :=
  (Z.max st.1 (ts (p_event p)), st.2 + (if ts (p_event p) <? st.1 then 1 else 0)).

(** The sorter after calls of parsers that left buffer [b]. *)
Definition emit s (ps : list Parsed) (b : TraceTokenBuffer) : TraceSorter :=
  let st := fold_left stat_step ps (latest_pushed_event_ts_ s, sorter_push_event_out_of_order s) in
  mkSorter (sorter_data_by_machine_ s) (sorting_mode_ s) b (alloc_id_for_extraction_ s) (flushes_since_extraction_ s) (append_max_ts_ s)
    (bypass_next_stage_for_testing_ s) st.1 (use_slow_sorting_ s) st.2 (parsed s ++ ps).

Lemma emit_nil s : emit s [] (token_buffer_ s) = s.
Proof. destruct s. unfold emit. cbn. by rewrite app_nil_r. Qed.

Lemma emit_emit s ps ps' b b' : emit (emit s ps b) ps' b' = emit s (ps ++ ps') b'.
Proof. unfold emit. cbn. rewrite fold_left_app, app_assoc. destruct (fold_left stat_step ps _). done. Qed.

Section Ok.
Context (total : Z) (Ht : total < 2 ^ 42) (seen : list (nat * Z)) (hist : gmap AllocId Token) (limit : AllocId) (Hlimit : 0 <= limit.2 < 65536).

(** The token that an event stands for is in the buffer. *)
Definition waiting (live : gmap AllocId Token) (e : TimestampedEvent) : Prop :=
  exists t, live !! ev_id e = Some t /\ token_type t = event_type e /\ token_ok t.

Lemma MaybeExtractEvent_ok s live m e t : bypass_next_stage_for_testing_ s = false -> tb_ok total seen (token_buffer_ s) live ->
  live !! ev_id e = Some t -> token_type t = event_type e -> token_ok t ->
  exists b', MaybeExtractEvent s m 0 e = Some (emit s [mkParsed m e (stored_token t)] b') /\ tb_ok total seen b' (delete (ev_id e) live) /\
    past_pos (allocator_ b') = past_pos (allocator_ (token_buffer_ s)).
Proof.
  intros Hby Hb Hl Htype Hok. destruct (Extract_token_ok total ltac:(lia) seen _ live _ t Hb Hl Hok) as (b' & He & Hb' & Hp).
  exists b'. split; [|done]. unfold MaybeExtractEvent. cbn [bypass_next_stage_for_testing_ set_pushed]. rewrite Hby. cbn [Nat.eqb].
  unfold ParseTracePacket. cbn [token_buffer_ set_pushed]. rewrite <- Htype, He. done.
Qed.

Definition take_ids (live : gmap AllocId Token) (es : list TimestampedEvent) : gmap AllocId Token := foldl (fun l e => delete (ev_id e) l) live es.

Lemma take_ids_lookup es : forall live id t, take_ids live es !! id = Some t <-> live !! id = Some t /\ id ∉ ev_id <$> es.
Proof.
  induction es as [|e es IH]; intros live id t; cbn; [split; [intros ?; split; [done|apply not_elem_of_nil]|by intros []]|].
  rewrite IH, lookup_delete_Some, not_elem_of_cons. naive_solver.
Qed.

(** Which event stops the loop. *)
Definition stops (min_ts1 : Z) (e : TimestampedEvent) : Prop := id_geb (ev_id e) limit = true \/ min_ts1 < ts e.

Lemma extract_loop_ok m min1 es : forall s live num, bypass_next_stage_for_testing_ s = false -> tb_ok total seen (token_buffer_ s) live ->
  Forall (waiting live) es -> NoDup (ev_id <$> es) -> (0 < num)%nat \/ (forall e, head es = Some e -> ts e <= min1) ->
  exists n ps b', extract_loop s m 0 es limit min1 num = Some (emit s ps b', (num + n)%nat) /\ (n <= length es)%nat /\
    tb_ok total seen b' (take_ids live (take n es)) /\ past_pos (allocator_ b') = past_pos (allocator_ (token_buffer_ s)) /\
    Forall2 (fun e p => exists t, live !! ev_id e = Some t /\ p = mkParsed m e (stored_token t)) (take n es) ps /\
    Forall (fun e => ~ stops min1 e) (take n es) /\ (forall e, head (drop n es) = Some e -> stops min1 e).
Proof.
  induction es as [|e es IH]; intros s live num Hby Hb Hw Hnd Hnum; cbn [extract_loop].
  { exists 0%nat, [], (token_buffer_ s). rewrite emit_nil, Nat.add_0_r. split_and!; try done; constructor. }
  assert (Hstop : stops min1 e -> exists n ps b', Some (s, num) = Some (emit s ps b', (num + n)%nat) /\ (n <= length (e :: es))%nat /\
    tb_ok total seen b' (take_ids live (take n (e :: es))) /\ past_pos (allocator_ b') = past_pos (allocator_ (token_buffer_ s)) /\
    Forall2 (fun e p => exists t, live !! ev_id e = Some t /\ p = mkParsed m e (stored_token t)) (take n (e :: es)) ps /\
    Forall (fun e => ~ stops min1 e) (take n (e :: es)) /\ (forall x, head (drop n (e :: es)) = Some x -> stops min1 x)).
  { intros Hst. exists 0%nat, [], (token_buffer_ s). rewrite emit_nil, Nat.add_0_r. split_and!; try done; try (cbn; lia); try (by constructor). by intros x [= <-]. }
  destruct (id_geb (ev_id e) limit) eqn:Eid; [apply Hstop; by left|]. destruct (Z.ltb_spec min1 (ts e)) as [Hlt|Hge].
  { destruct (Nat.ltb_spec 0 num) as [|H0]; [apply Hstop; by right|]. destruct Hnum as [|Hnum]; [lia|]. specialize (Hnum e eq_refl). lia. }
  apply Forall_cons in Hw as [(t & Hl & Htype & Hok) Hw]. cbn in Hnd. apply NoDup_cons in Hnd as [Hni Hnd].
  destruct (MaybeExtractEvent_ok s live m e t Hby Hb Hl Htype Hok) as (b1 & -> & Hb1 & Hp1). cbn [mbind option_bind].
  destruct (IH (emit s [mkParsed m e (stored_token t)] b1) (delete (ev_id e) live) (S num)) as (n & ps & b' & -> & Hn & Hb' & Hp' & Hps & Hns & Hhd);
    [done|done| |done|left; lia|].
  { rewrite Forall_forall in *. intros x Hx. destruct (Hw x Hx) as (tx & Hlx & ?). exists tx. split; [|done]. rewrite lookup_delete_ne; [done|].
    intros Heq. apply Hni. rewrite Heq. by apply list_elem_of_fmap_2. }
  rewrite emit_emit. exists (S n), (mkParsed m e (stored_token t) :: ps), b'. cbn [app take drop length]. split_and!.
  - by rewrite Nat.add_succ_r.
  - lia.
  - done.
  - by rewrite Hp'.
  - constructor; [by exists t|]. eapply Forall2_impl; [exact Hps|]. intros x p (tx & Hlx & ->). exists tx. split; [|done]. by apply lookup_delete_Some in Hlx as [_ ?].
  - constructor; [|done]. intros [Hs|Hs]; [congruence|lia].
  - done.
Qed.

(** ** The earliest queue *)

Record scan_ok (l : list TraceSorterData) (k : nat) (sc : Scan) : Prop := {
  sk_empty : all_queues_empty sc = true -> min_queue_ts0 sc = kTsMax /\ min_queue_ts1 sc = kTsMax /\
    (forall m d q, (m < k)%nat -> l !! m = Some d -> queues d = [q] -> events_ q = []);
  sk_min : all_queues_empty sc = false -> exists d q, (min_machine_idx sc < k)%nat /\ l !! min_machine_idx sc = Some d /\ queues d = [q] /\
    events_ q <> [] /\ min_queue_idx sc = 0%nat /\ min_queue_ts0 sc = min_ts_ q /\ min_queue_ts0 sc <= min_queue_ts1 sc /\
    (forall m d' q', (m < k)%nat -> m <> min_machine_idx sc -> l !! m = Some d' -> queues d' = [q'] -> events_ q' <> [] -> min_queue_ts1 sc <= min_ts_ q') }.

(** At most one queue per machine. *)
Definition machine_ok (slow : bool) (append_max : Z) (d : TraceSorterData) : Prop :=
  queues d = [] \/ exists q, queues d = [q] /\ q_ok hist slow q /\ max_ts_ q <= append_max.

Lemma min_ts_lt slow q : q_ok hist slow q -> events_ q <> [] -> min_ts_ q < kTsMax.
Proof.
  intros Hq Hne. pose proof (qo_min _ _ _ Hq Hne) as Hin. apply list_elem_of_fmap in Hin as (e & -> & He). pose proof (qo_range _ _ _ Hq) as Hr.
  rewrite Forall_forall in Hr. by apply Hr.
Qed.

Lemma scan_step l k d q sc slow : l !! k = Some d -> queues d = [q] -> q_ok hist slow q -> events_ q <> [] -> scan_ok l k sc ->
  scan_ok l (S k) (if all_queues_empty sc || (min_ts_ q <? min_queue_ts0 sc)
    then mkScan false (min_ts_ q) (min_queue_ts0 sc) k 0
    else mkScan false (min_queue_ts0 sc) (if min_ts_ q <? min_queue_ts1 sc then min_ts_ q else min_queue_ts1 sc) (min_machine_idx sc) (min_queue_idx sc)).
Proof.
  intros Hk Hd Hq Hne [Hem Hmin]. pose proof (min_ts_lt slow q Hq Hne) as Hlt. destruct (all_queues_empty sc) eqn:Ea; cbn [orb].
  - destruct (Hem eq_refl) as (H0 & H1 & Hall). constructor; cbn; [done|]. intros _. exists d, q. split_and!; try done; try lia.
    intros m d' q' Hm Hmk Hm' Hq' Hne'. destruct Hne'. apply (Hall m d' q'); [lia|done..].
  - destruct (Hmin eq_refl) as (d0 & q0 & Hlt0 & Hd0 & Hq0 & Hne0 & Hi0 & H0 & H01 & Hoth). destruct (Z.ltb_spec (min_ts_ q) (min_queue_ts0 sc)) as [Hl|Hl].
    + constructor; cbn; [done|]. intros _. exists d, q. split_and!; try done; try lia. intros m d' q' Hm Hmk Hm' Hq' Hne'.
      destruct (decide (m = min_machine_idx sc)) as [->|Hn]; [|specialize (Hoth m d' q' ltac:(lia) Hn Hm' Hq' Hne'); lia].
      assert (q' = q0) by congruence. subst. lia.
    + constructor; cbn; [done|]. intros _. exists d0, q0. split_and!; try done; try lia; [by destruct (Z.ltb_spec (min_ts_ q) (min_queue_ts1 sc))|].
      intros m d' q' Hm Hmk Hm' Hq' Hne'. destruct (decide (m = k)) as [->|Hn].
      * assert (q' = q) by congruence. subst. destruct (Z.ltb_spec (min_ts_ q) (min_queue_ts1 sc)); lia.
      * specialize (Hoth m d' q' ltac:(lia) Hmk Hm' Hq' Hne'). destruct (Z.ltb_spec (min_ts_ q) (min_queue_ts1 sc)); lia.
Qed.

Lemma scan_skip l k d sc : l !! k = Some d -> (forall q, queues d = [q] -> events_ q = []) -> scan_ok l k sc -> scan_ok l (S k) sc.
Proof.
  intros Hk Hnone [Hem Hmin]. constructor.
  - intros Ha. destruct (Hem Ha) as (? & ? & Hall). split_and!; try done. intros m d' q' Hm Hm' Hq'. destruct (decide (m = k)) as [->|]; [|apply (Hall m d' q'); [lia|done..]].
    assert (d' = d) by congruence. subst. by apply Hnone.
  - intros Ha. destruct (Hmin Ha) as (d0 & q0 & Hlt0 & Hd0 & Hq0 & Hne0 & Hi0 & H0 & H01 & Hoth). exists d0, q0. split_and!; try done; try lia.
    intros m d' q' Hm Hmk Hm' Hq' Hne'. destruct (decide (m = k)) as [->|]; [|apply (Hoth m d' q'); [lia|done..]].
    assert (d' = d) by congruence. subst. by destruct Hne', (Hnone q').
Qed.

Lemma scan_machines_ok slow append_max full l : forall k sc, drop k full = l -> Forall (machine_ok slow append_max) l -> scan_ok full k sc ->
  exists sc', scan_machines append_max k l sc = Some sc' /\ scan_ok full (k + length l) sc'.
Proof.
  induction l as [|d l IH]; intros k sc Hdrop Hf Hsc; cbn [scan_machines].
  { exists sc. by rewrite Nat.add_0_r. }
  assert (Hk : full !! k = Some d) by (rewrite <- (Nat.add_0_r k), <- lookup_drop, Hdrop; done).
  assert (Hdrop' : drop (S k) full = l) by (replace (S k) with (k + 1)%nat by lia; rewrite <- drop_drop, Hdrop; done).
  apply Forall_cons in Hf as [Hd Hf]. cbn [length]. rewrite Nat.add_succ_r, <- Nat.add_succ_l.
  destruct Hd as [Hd|(q & Hd & Hq & Hmax)]; rewrite Hd; cbn [scan_queues mbind option_bind].
  - apply IH; [done..|]. eapply scan_skip; [done| |done]. intros q. by rewrite Hd.
  - destruct (decide (events_ q = [])) as [E|E].
    + rewrite bool_decide_true by done. cbn [mbind option_bind]. apply IH; [done..|]. eapply scan_skip; [done| |done]. intros q'. rewrite Hd. by intros [= <-].
    + rewrite bool_decide_false by done. rewrite (proj2 (Z.leb_le _ _)) by done. cbn [mbind option_bind]. apply IH; [done..|]. by eapply scan_step.
Qed.

(** ** The invariant of the sorter *)

Record s_ok s : Prop := {
  so_live : exists live, tb_ok total seen (token_buffer_ s) live /\
    forall id t, live !! id = Some t <-> hist !! id = Some t /\ id ∈ ev_id <$> (tagged s).*2;
  so_hist : forall id t, hist !! id = Some t -> token_ok t /\ id_pos id < past_pos (allocator_ (token_buffer_ s)) /\ 0 <= id.2 < 65536;
  so_ids : NoDup (ev_id <$> (tagged s).*2);
  so_machines : Forall (machine_ok (use_slow_sorting_ s) (append_max_ts_ s)) (sorter_data_by_machine_ s);
  so_first : exists d l, sorter_data_by_machine_ s = d :: l /\ machine_id d = None;
  so_bypass : bypass_next_stage_for_testing_ s = false;
  so_stat : fold_left stat_step (parsed s) (- 2 ^ 63, 0) = (latest_pushed_event_ts_ s, sorter_push_event_out_of_order s) }.

(** What an extraction leaves alone. *)
Record frame s s' : Prop := {
  fr_mode : sorting_mode_ s' = sorting_mode_ s;
  fr_slow : use_slow_sorting_ s' = use_slow_sorting_ s;
  fr_append : append_max_ts_ s' = append_max_ts_ s;
  fr_alloc : alloc_id_for_extraction_ s' = alloc_id_for_extraction_ s;
  fr_flushes : flushes_since_extraction_ s' = flushes_since_extraction_ s;
  fr_machines : machine_id <$> sorter_data_by_machine_ s' = machine_id <$> sorter_data_by_machine_ s;
  fr_past : past_pos (allocator_ (token_buffer_ s)) <= past_pos (allocator_ (token_buffer_ s')) }.

#[local] Instance frame_preorder : PreOrder frame.
Proof. split; [by constructor|]. intros s1 s2 s3 [] []. constructor; congruence || lia. Qed.

(** In the order of time; for one machine in the order of the comparator. *)
Definition before (x y : nat * TimestampedEvent) : Prop := ts x.2 <= ts y.2 /\ (x.1 = y.1 -> ev_lt hist x.2 y.2).

Definition origin (p : Parsed) : nat * TimestampedEvent := (p_machine p, p_event p).

(** The calls [ps] take events from [s] to [s'], in order, and what is left comes later. *)
Record batch_ok s (ps : list Parsed) s' : Prop := {
  ba_parsed : parsed s' = parsed s ++ ps;
  ba_perm : tagged s ≡ₚ (origin <$> ps) ++ tagged s';
  ba_sorted : StronglySorted before (origin <$> ps);
  ba_left : forall x y, x ∈ origin <$> ps -> y ∈ tagged s' -> before x y;
  ba_limit : Forall (fun p => id_ltb (ev_id (p_event p)) limit = true) ps;
  ba_token : Forall (fun p => exists t, hist !! ev_id (p_event p) = Some t /\ token_type t = event_type (p_event p) /\ p_token p = stored_token t) ps }.

Lemma batch_nil s s' : parsed s' = parsed s -> tagged s ≡ₚ tagged s' -> batch_ok s [] s'.
Proof. intros Hp Ht'. constructor; cbn; [by rewrite app_nil_r|done|constructor|by intros x y ?%not_elem_of_nil|constructor|constructor]. Qed.

Lemma batch_trans s1 ps1 s2 ps2 s3 : batch_ok s1 ps1 s2 -> batch_ok s2 ps2 s3 -> batch_ok s1 (ps1 ++ ps2) s3.
Proof.
  intros [P1 Q1 S1 L1 M1 T1] [P2 Q2 S2 L2 M2 T2]. constructor.
  - by rewrite P2, P1, app_assoc.
  - by rewrite Q1, Q2, fmap_app, app_assoc.
  - rewrite fmap_app. apply StronglySorted_app. split_and!; [|done..]. intros x y Hx Hy. apply L1; [done|]. rewrite Q2. apply elem_of_app. by left.
  - intros x y Hx Hy. rewrite fmap_app in Hx. apply elem_of_app in Hx as [Hx|Hx]; [|by apply L2]. apply L1; [done|]. rewrite Q2. apply elem_of_app. by right.
  - by apply Forall_app.
  - by apply Forall_app.
Qed.

(** Nothing is left, or the earliest event is past the limit. *)
Definition finished s : Prop := tagged s = [] \/ exists x, x ∈ tagged s /\ id_geb (ev_id x.2) limit = true /\ forall y, y ∈ tagged s -> ts x.2 <= ts y.2.

Lemma emit_set_queue s m i q ps b : emit (set_queue s m i q) ps b = set_queue (emit s ps b) m i q.
Proof. unfold set_queue. cbn. by destruct (sorter_data_by_machine_ s !! m). Qed.

Lemma set_queue_twice s b m q q' : set_queue (set_buffer (set_queue s m 0 q) b) m 0 q' = set_queue (set_buffer s b) m 0 q'.
Proof.
  unfold set_queue. cbn. destruct (sorter_data_by_machine_ s !! m) as [d|] eqn:E; cbn; rewrite ?E; [|done].
  rewrite list_lookup_insert_eq by by eapply lookup_lt_Some. unfold set_data. cbn. by rewrite list_insert_insert_eq, list_insert_insert_eq.
Qed.

Lemma set_queue_data s m d q q' : sorter_data_by_machine_ s !! m = Some d -> queues d = [q] ->
  sorter_data_by_machine_ (set_queue s m 0 q') = <[m := mkData (machine_id d) [q']]> (sorter_data_by_machine_ s).
Proof. intros Hm Hq. unfold set_queue. rewrite Hm. cbn. by rewrite Hq. Qed.

Lemma snd_pair {A} (m : nat) (l : list A) : (pair m <$> l).*2 = l.
Proof. rewrite <- list_fmap_compose. apply list_fmap_id. Qed.

(** Events [es] leave the queue of machine [m]. *)
Lemma leave_ok s live m d q q2 es ps b2 : s_ok s -> tb_ok total seen (token_buffer_ s) live ->
  (forall id t, live !! id = Some t <-> hist !! id = Some t /\ id ∈ ev_id <$> (tagged s).*2) ->
  sorter_data_by_machine_ s !! m = Some d -> queues d = [q] -> q_ok hist (use_slow_sorting_ s) q2 -> max_ts_ q2 <= append_max_ts_ s ->
  events_ q ≡ₚ es ++ events_ q2 -> tb_ok total seen b2 (take_ids live es) ->
  past_pos (allocator_ (token_buffer_ s)) <= past_pos (allocator_ b2) ->
  let s' := set_queue (emit s ps b2) m 0 q2 in
  s_ok s' /\ frame s s' /\ exists rest, tagged s ≡ₚ (pair m <$> es) ++ tagged s' /\ tagged s' ≡ₚ (pair m <$> events_ q2) ++ rest /\
    (forall m' e, (m', e) ∈ rest -> m' <> m /\ (m', e) ∈ tagged s).
Proof.
  intros Hs Hb Hlive Hm Hq Hq2 Hmax Hperm Hb2 Hpast s'. destruct (tagged_split _ m d q 0 Hm Hq) as (rest & Hp1 & Hp2 & Hrest). cbn [Nat.add] in *.
  assert (Hdata : sorter_data_by_machine_ s' = <[m := mkData (machine_id d) [q2]]> (sorter_data_by_machine_ s)) by by apply (set_queue_data (emit s ps b2) m d q).
  assert (Hfields : token_buffer_ s' = b2 /\ use_slow_sorting_ s' = use_slow_sorting_ s /\ append_max_ts_ s' = append_max_ts_ s /\
    bypass_next_stage_for_testing_ s' = bypass_next_stage_for_testing_ s /\ sorting_mode_ s' = sorting_mode_ s /\
    alloc_id_for_extraction_ s' = alloc_id_for_extraction_ s /\ flushes_since_extraction_ s' = flushes_since_extraction_ s /\ parsed s' = parsed s ++ ps /\
    (latest_pushed_event_ts_ s', sorter_push_event_out_of_order s') = fold_left stat_step ps (latest_pushed_event_ts_ s, sorter_push_event_out_of_order s)).
  { subst s'. unfold set_queue. cbn [sorter_data_by_machine_ emit]. rewrite Hm. cbn. split_and!; try done. by rewrite <- surjective_pairing. }
  destruct Hfields as (Fb & Fs & Fa & Fby & Fm & Fal & Ffl & Fp & Fst).
  assert (Htag : tagged s ≡ₚ (pair m <$> es) ++ tagged s').
  { unfold tagged at 1. rewrite Hp1. unfold tagged. rewrite Hdata, (Hp2 q2), Hperm, fmap_app. by rewrite app_assoc. }
  assert (Hids : ev_id <$> (tagged s).*2 ≡ₚ (ev_id <$> es) ++ (ev_id <$> (tagged s').*2)).
  { rewrite Htag, !fmap_app. by rewrite snd_pair. }
  pose proof (so_ids _ Hs) as Hnd. rewrite Hids in Hnd. apply NoDup_app in Hnd as (_ & Hdisj & Hnd). split; [|split].
  - constructor; rewrite ?Fb, ?Fs, ?Fa, ?Fby, ?Fp; try apply Hs.
    + exists (take_ids live es). split; [done|]. intros id t. rewrite take_ids_lookup, Hlive. rewrite Hids, elem_of_app. split.
      * intros [[Hh [Hin|Hin]] Hni]; [done|]. done.
      * intros [Hh Hin]. split; [split; [done|by right]|]. intros Hin2. by eapply Hdisj.
    + intros id t Hid. destruct (so_hist _ Hs id t Hid) as (? & ? & ?). split_and!; try done; lia.
    + done.
    + rewrite Hdata. apply Forall_insert; [apply Hs|]. right. by exists q2.
    + rewrite Hdata. destruct (so_first _ Hs) as (d0 & l & Hd0 & Hn). destruct m; cbn in Hm; rewrite Hd0 in *; cbn in *; [|by eexists _, _].
      injection Hm as ->. by eexists _, _.
    + rewrite fold_left_app, (so_stat _ Hs). by rewrite <- Fst.
  - constructor; rewrite ?Fb, ?Fs, ?Fa, ?Fm, ?Fal, ?Ffl; try done. rewrite Hdata, list_fmap_insert. cbn. apply list_insert_id. by rewrite list_lookup_fmap, Hm.
  - exists rest. split; [done|]. split; [unfold tagged; by rewrite Hdata, (Hp2 q2)|]. intros m' e He. split; [by eapply Hrest|]. unfold tagged. rewrite Hp1. apply elem_of_app. by right.
Qed.

(** ** A round *)

Lemma elem_tagged s m e : s_ok s -> (m, e) ∈ tagged s ->
  exists d q, sorter_data_by_machine_ s !! m = Some d /\ queues d = [q] /\ q_ok hist (use_slow_sorting_ s) q /\ e ∈ events_ q.
Proof.
  intros Hs He. apply elem_tagged_from in He as (i & d & q & -> & Hi & Hq & He). cbn.
  pose proof (so_machines _ Hs) as Hm. rewrite Forall_lookup in Hm. destruct (Hm _ _ Hi) as [E|(q' & E & Hok & _)]; rewrite E in Hq.
  - by apply not_elem_of_nil in Hq.
  - apply list_elem_of_singleton in Hq as ->. by exists d, q'.
Qed.

Lemma queue_tagged s m d q e : sorter_data_by_machine_ s !! m = Some d -> queues d = [q] -> e ∈ events_ q -> (m, e) ∈ tagged s.
Proof. intros Hm Hq He. apply elem_tagged_from. exists m, d, q. rewrite Hq. split_and!; try done. by left. Qed.

Lemma tagged_nil s : s_ok s -> (forall m d q, sorter_data_by_machine_ s !! m = Some d -> queues d = [q] -> events_ q = []) -> tagged s = [].
Proof.
  intros Hs Hall. destruct (tagged s) as [|[m e] l] eqn:E; [done|]. exfalso. destruct (elem_tagged s m e Hs) as (d & q & Hm & Hq & _ & He); [rewrite E; by left|].
  rewrite (Hall _ _ _ Hm Hq) in He. by apply not_elem_of_nil in He.
Qed.

Lemma other_ts s sc m e : s_ok s -> scan_ok (sorter_data_by_machine_ s) (length (sorter_data_by_machine_ s)) sc -> all_queues_empty sc = false ->
  (m, e) ∈ tagged s -> m <> min_machine_idx sc -> min_queue_ts1 sc <= ts e.
Proof.
  intros Hs Hsc Hne He Hm. destruct (elem_tagged s m e Hs He) as (d & q & Hd & Hq & Hok & Hin). destruct (sk_min _ _ _ Hsc Hne) as (_ & _ & _ & _ & _ & _ & _ & _ & _ & Hoth).
  specialize (Hoth m d q (lookup_lt_Some _ _ _ Hd) Hm Hd Hq). pose proof (qo_min_le _ _ _ Hok) as Hle. rewrite Forall_forall in Hle. specialize (Hle e Hin).
  destruct (decide (events_ q = [])) as [E|E]; [rewrite E in Hin; by apply not_elem_of_nil in Hin|]. specialize (Hoth E). lia.
Qed.

Lemma readable_ok slow b live e : tb_ok total seen b live -> live ⊆ hist -> is_Some (live !! ev_id e) -> known hist slow e -> readable hist slow b e.
Proof.
  intros Hb Hsub [t Hl] Hk. split; [done|]. unfold event_tie, tie_of. destruct slow; [|done]. destruct Hk as (t' & Ht' & Htype & _).
  assert (t' = t) by (pose proof (lookup_weaken _ _ _ _ Hl Hsub); congruence). subst t'. unfold ev_key, dur_key. rewrite Ht', <- Htype.
  destruct t as [tpd|ted|v|dur v]; cbn [token_type mbind option_bind]; try done. by rewrite (Get_dur_ok total ltac:(lia) _ _ _ _ _ _ Hb Hl).
Qed.

(** The queue of a round, sorted. *)
Lemma sorted_queue s live q : tb_ok total seen (token_buffer_ s) live -> live ⊆ hist -> Forall (waiting live) (events_ q) ->
  q_ok hist (use_slow_sorting_ s) q -> events_ q <> [] ->
  exists q' f, (if needs_sorting q then Sort q (token_buffer_ s) (use_slow_sorting_ s) else Some q) = Some q' /\ q_ok hist (use_slow_sorting_ s) q' /\
    events_ q' ≡ₚ events_ q /\ needs_sorting q' = false /\ min_ts_ q' = min_ts_ q /\ max_ts_ q' = max_ts_ q /\
    StronglySorted (ev_lt hist) (events_ q') /\ head (events_ q') = Some f /\ min_ts_ q' = ts f.
Proof.
  intros Hb Hsub Hw Hq Hne.
  assert (Hq' : exists q', (if needs_sorting q then Sort q (token_buffer_ s) (use_slow_sorting_ s) else Some q) = Some q' /\ q_ok hist (use_slow_sorting_ s) q' /\
    events_ q' ≡ₚ events_ q /\ needs_sorting q' = false /\ min_ts_ q' = min_ts_ q /\ max_ts_ q' = max_ts_ q).
  { destruct (needs_sorting q) eqn:Ens; [|by exists q]. destruct (Sort_ok hist (use_slow_sorting_ s) (token_buffer_ s) q Hq) as (q' & ? & ? & ? & ? & ? & ?); [|done|by exists q'].
    pose proof (qo_known _ _ _ Hq) as Hk. rewrite Forall_forall in *. intros e He. destruct (Hw e He) as (t & Hl & _). eapply readable_ok; eauto. }
  destruct Hq' as (q' & Heq & Hq' & Hperm & Hns & Hmin & Hmax). pose proof (qo_prefix _ _ _ Hq') as Hpre. unfold sorted_len, needs_sorting in *.
  apply negb_false_iff in Hns. rewrite Hns, firstn_all in Hpre. destruct (events_ q') as [|f es] eqn:E; [by apply Permutation_nil_l in Hperm|].
  exists q', f. rewrite E. split_and!; try done; [by rewrite Hns|]. pose proof (qo_min _ _ _ Hq') as Hin. rewrite E in Hin. specialize (Hin ltac:(done)).
  pose proof (qo_min_le _ _ _ Hq') as Hle. rewrite E in Hle. apply Forall_cons in Hle as [Hle _]. apply StronglySorted_inv in Hpre as [_ Hf].
  apply list_elem_of_fmap in Hin as (x & Hx & Hin). apply elem_of_cons in Hin as [->|Hin]; [done|]. rewrite Forall_forall in Hf.
  specialize (Hf x Hin). apply ev_lt_ts in Hf. lia.
Qed.

Lemma before_pair m l : StronglySorted (ev_lt hist) l -> StronglySorted before (pair m <$> l).
Proof.
  induction 1 as [|x l Hs IH Hx]; cbn; [constructor|]. constructor; [done|]. apply Forall_fmap. eapply Forall_impl; [exact Hx|].
  intros y Hy. split; cbn; [by eapply ev_lt_ts|done].
Qed.

Lemma parsed_origin (live : gmap AllocId Token) m es ps :
  Forall2 (fun e p => exists t, live !! ev_id e = Some t /\ p = mkParsed m e (stored_token t)) es ps -> origin <$> ps = pair m <$> es.
Proof. induction 1 as [|e p es ps (t & _ & ->) _ IH]; cbn; [done|]. by rewrite IH. Qed.

Lemma parsed_impl (live : gmap AllocId Token) m es ps (P : TimestampedEvent -> Prop) :
  Forall2 (fun e p => exists t, live !! ev_id e = Some t /\ p = mkParsed m e (stored_token t)) es ps -> Forall P es -> Forall (fun p => P (p_event p)) ps.
Proof. induction 1 as [|e p es ps (t & _ & ->) _ IH]; [constructor|]. intros [? ?]%Forall_cons. constructor; [done|by apply IH]. Qed.

(** The queue that a round takes events from: [q], and [q'] when it is sorted. *)
Record pick s (live : gmap AllocId Token) (m : nat) (d : TraceSorterData) (q q' : Queue) (f : TimestampedEvent) (min1 : Z) : Prop := {
  pk_ok : s_ok s;
  pk_tb : tb_ok total seen (token_buffer_ s) live;
  pk_live : forall id t, live !! id = Some t <-> hist !! id = Some t /\ id ∈ ev_id <$> (tagged s).*2;
  pk_machine : sorter_data_by_machine_ s !! m = Some d;
  pk_queue : queues d = [q];
  pk_waiting : Forall (waiting live) (events_ q');
  pk_queue' : q_ok hist (use_slow_sorting_ s) q';
  pk_perm : events_ q' ≡ₚ events_ q;
  pk_sorted_flag : needs_sorting q' = false;
  pk_max : max_ts_ q' <= append_max_ts_ s;
  pk_sorted : StronglySorted (ev_lt hist) (events_ q');
  pk_head : head (events_ q') = Some f;
  pk_first : ts f <= min1;
  pk_others : forall m' e, (m', e) ∈ tagged s -> m' <> m -> min1 <= ts e }.

(** The rest of a round, for the queue it picked. *)
Definition round_rest s (m : nat) (q : Queue) (min1 : Z) : option (TraceSorter * bool) :=
  '(s, num_extracted) ← extract_loop (set_queue s m 0 q) m 0 (events_ q) limit min1 0;
  if (num_extracted =? 0)%nat then Some (s, false)
  else
    b ← FreeMemory (token_buffer_ s);
    Some (set_queue (set_buffer s b) m 0
            (match drop num_extracted (events_ q) with
             | [] => mkQueue [] kTsMax 0 (sort_start_idx_ q) (sort_min_ts_ q)
             | e :: es => mkQueue (e :: es) (ts e) (max_ts_ q) (sort_start_idx_ q) (sort_min_ts_ q)
             end), true).

Lemma round_pick s : s_ok s -> (extract_round s limit = Some (s, false) /\ tagged s = []) \/
  exists live m d q q' f min1, pick s live m d q q' f min1 /\ extract_round s limit = round_rest s m q' min1.
Proof.
  intros Hs. destruct (so_live _ Hs) as (live & Hb & Hlive). assert (Hsub : live ⊆ hist) by (apply map_subseteq_spec; intros id t Hid; by apply Hlive in Hid as [? _]).
  assert (Hinit : scan_ok (sorter_data_by_machine_ s) 0 (mkScan true kTsMax kTsMax 0 0)) by (constructor; cbn; [intros _; split_and!; [done..|lia]|done]).
  destruct (scan_machines_ok (use_slow_sorting_ s) (append_max_ts_ s) _ _ 0 _ (drop_0 _) (so_machines _ Hs) Hinit) as (sc & Hscan & Hsc). cbn [Nat.add] in Hsc.
  unfold extract_round. rewrite Hscan. cbn [mbind option_bind]. destruct (all_queues_empty sc) eqn:Ea.
  { left. split; [done|]. apply tagged_nil; [done|]. intros m d q Hm Hq. destruct (sk_empty _ _ _ Hsc Ea) as (_ & _ & Hall). eapply Hall; [by eapply lookup_lt_Some|done..]. }
  right. destruct (sk_min _ _ _ Hsc Ea) as (d & q & _ & Hm & Hq & Hne & -> & Hts0 & H01 & _).
  assert (Hqok : q_ok hist (use_slow_sorting_ s) q /\ max_ts_ q <= append_max_ts_ s).
  { pose proof (so_machines _ Hs) as Hf. rewrite Forall_lookup in Hf. destruct (Hf _ _ Hm) as [E|(q' & E & ? & ?)]; rewrite E in Hq; [done|]. by injection Hq as ->. }
  destruct Hqok as [Hqok Hqmax]. set (m := min_machine_idx sc) in *.
  assert (Hw : Forall (waiting live) (events_ q)).
  { rewrite Forall_forall. intros e He. pose proof (qo_known _ _ _ Hqok) as Hk. rewrite Forall_forall in Hk. destruct (Hk e He) as (t & Ht' & Htype & _).
    exists t. split; [|split; [done|by eapply so_hist]]. apply Hlive. split; [done|]. apply list_elem_of_fmap_2, (list_elem_of_fmap_2 snd _ (m, e)). by eapply queue_tagged. }
  destruct (sorted_queue s live q Hb Hsub Hw Hqok Hne) as (q' & f & Hsort & Hq' & Hperm & Hns & Hmin & Hmax & Hsorted & Hhead & Hf).
  exists live, m, d, q, q', f, (min_queue_ts1 sc). split.
  - constructor; try done; [by rewrite Hperm|lia|lia|]. intros m' e He Hne'. by eapply other_ts.
  - rewrite Hm. cbn [mbind option_bind]. rewrite Hq. cbn [lookup list_lookup mbind option_bind]. rewrite Hsort. cbn [mbind option_bind].
    rewrite Hhead. cbn [mbind option_bind]. rewrite Hf, Z.eqb_refl. done.
Qed.

(** A round that stops: its first event is past the limit. *)
Lemma round_stop s live m d q q' f min1 b' : pick s live m d q q' f min1 -> stops min1 f -> tb_ok total seen b' live ->
  past_pos (allocator_ b') = past_pos (allocator_ (token_buffer_ s)) ->
  let s' := set_queue (emit s [] b') m 0 q' in s_ok s' /\ frame s s' /\ batch_ok s [] s' /\ finished s'.
Proof.
  intros [Hs Hb Hlive Hm Hq Hw Hq' Hperm _ Hmax Hsorted Hhead Hf Hoth] Hstop Hb' Hp'.
  destruct (leave_ok s live m d q q' [] [] b' Hs Hb Hlive Hm Hq Hq') as (Hs' & Hfr & rest & Htag & Htag' & Hrest); [lia|by rewrite Hperm|done|lia|].
  cbn zeta. split_and!; try done.
  - apply batch_nil; [|exact Htag]. unfold set_queue. cbn. rewrite Hm. cbn. by rewrite app_nil_r.
  - right. exists (m, f). destruct (events_ q') as [|f' es] eqn:E; [done|]. injection Hhead as ->. split_and!.
    + rewrite Htag'. by left.
    + destruct Hstop as [|Hlt]; [done|]. lia.
    + intros [m' e] He. rewrite Htag' in He. cbn. apply elem_of_app in He as [He|He].
      * apply list_elem_of_fmap in He as (e' & [= -> ->] & He). apply StronglySorted_inv in Hsorted as [_ Hall]. apply elem_of_cons in He as [->|He]; [lia|].
        rewrite Forall_forall in Hall. by eapply ev_lt_ts, Hall.
      * destruct (Hrest _ _ He) as [Hne' Hin]. specialize (Hoth m' e Hin Hne'). lia.
Qed.

(** A round that takes the first [n] events. *)
Lemma round_go s live m d q q' f min1 n ps b2 : pick s live m d q q' f min1 -> (0 < n <= length (events_ q'))%nat ->
  tb_ok total seen b2 (take_ids live (take n (events_ q'))) -> past_pos (allocator_ (token_buffer_ s)) <= past_pos (allocator_ b2) ->
  Forall2 (fun e p => exists t, live !! ev_id e = Some t /\ p = mkParsed m e (stored_token t)) (take n (events_ q')) ps ->
  Forall (fun e => ~ stops min1 e) (take n (events_ q')) ->
  let s' := set_queue (emit s ps b2) m 0
    (match drop n (events_ q') with
     | [] => mkQueue [] kTsMax 0 (sort_start_idx_ q') (sort_min_ts_ q')
     | e :: es => mkQueue (e :: es) (ts e) (max_ts_ q') (sort_start_idx_ q') (sort_min_ts_ q')
     end) in
  s_ok s' /\ frame s s' /\ batch_ok s ps s'.
Proof.
  intros [Hs Hb Hlive Hm Hq Hw Hq' Hperm Hns Hmax Hsorted Hhead Hf Hoth] Hn Hb2 Hp2 Hps Hgo. set (q2 := match drop n (events_ q') with [] => _ | _ => _ end).
  assert (Hq2 : q_ok hist (use_slow_sorting_ s) q2) by by apply drop_ok.
  assert (Hev2 : events_ q2 = drop n (events_ q')) by (subst q2; by destruct (drop n (events_ q'))).
  assert (Hmax2 : max_ts_ q2 <= append_max_ts_ s) by (subst q2; destruct (drop n (events_ q')); cbn; pose proof (qo_max _ _ _ Hq'); lia).
  destruct (leave_ok s live m d q q2 (take n (events_ q')) ps b2 Hs Hb Hlive Hm Hq Hq2 Hmax2) as (Hs' & Hfr & rest & Htag & Htag' & Hrest);
    [by rewrite Hev2, take_drop, Hperm|done|lia|].
  cbn zeta. split_and!; try done. pose proof (parsed_origin _ _ _ _ Hps) as Horig. rewrite <- (take_drop n (events_ q')) in Hsorted. constructor.
  - unfold set_queue. cbn. rewrite Hm. done.
  - by rewrite Horig.
  - rewrite Horig. apply before_pair. by eapply StronglySorted_app_1_l.
  - intros x [m' y] Hx Hy. rewrite Horig in Hx. apply list_elem_of_fmap in Hx as (e & -> & He). rewrite Htag', Hev2 in Hy. apply elem_of_app in Hy as [Hy|Hy].
    + apply list_elem_of_fmap in Hy as (y' & [= -> ->] & Hy).
      pose proof (StronglySorted_app_1_elem_of _ _ _ _ _ Hsorted He Hy) as Hlt. split; cbn; [by eapply ev_lt_ts|done].
    + destruct (Hrest _ _ Hy) as [Hne' Hin]. specialize (Hoth m' y Hin Hne'). split; cbn; [|congruence].
      rewrite Forall_forall in Hgo. specialize (Hgo e He). unfold stops in Hgo. lia.
  - apply (parsed_impl live m _ ps (fun e => id_ltb (ev_id e) limit = true) Hps). eapply Forall_impl; [exact Hgo|].
    intros e He. unfold stops, id_geb in He. destruct (id_ltb (ev_id e) limit); [done|]. destruct He. by left.
  - rewrite Forall_forall. intros p Hp. apply list_elem_of_lookup in Hp as [k Hk]. destruct (Forall2_lookup_r _ _ _ _ _ Hps Hk) as (e & He & t & Hlt & ->). cbn.
    exists t. split; [by apply Hlive in Hlt as [? _]|]. split; [|done]. apply lookup_take_Some in He as [He _]. rewrite Forall_lookup in Hw.
    destruct (Hw _ _ He) as (t' & Hl' & Htype & _). congruence.
Qed.

Lemma extract_round_ok s : s_ok s -> exists s' c ps, extract_round s limit = Some (s', c) /\ s_ok s' /\ frame s s' /\ batch_ok s ps s' /\
  (if c : bool then ps <> [] else ps = [] /\ finished s').
Proof.
  intros Hs. destruct (round_pick s Hs) as [[-> Hnil]|(live & m & d & q & q' & f & min1 & Hpick & ->)].
  { exists s, false, []. split_and!; try done; [by apply batch_nil|by left]. }
  pose proof (pk_machine _ _ _ _ _ _ _ _ Hpick) as Hm. pose proof (pk_head _ _ _ _ _ _ _ _ Hpick) as Hhead. unfold round_rest.
  assert (Hsq : token_buffer_ (set_queue s m 0 q') = token_buffer_ s /\ bypass_next_stage_for_testing_ (set_queue s m 0 q') = false).
  { unfold set_queue. rewrite Hm. split; [done|]. cbn. apply Hs. }
  destruct Hsq as [Hsb Hsby].
  destruct (extract_loop_ok m min1 (events_ q') (set_queue s m 0 q') live 0) as (n & ps & b' & -> & Hn & Hb' & Hp' & Hps & Hgo & Hstop);
    [done|rewrite Hsb; apply Hpick|apply Hpick|apply (pk_queue' _ _ _ _ _ _ _ _ Hpick)|right; rewrite Hhead; intros e [= <-]; apply Hpick|].
  cbn [mbind option_bind Nat.add]. rewrite Hsb in Hp'. rewrite emit_set_queue. destruct (Nat.eqb_spec n 0) as [->|Hn0].
  - cbn in Hps. apply Forall2_nil_inv_l in Hps as ->. specialize (Hstop f). rewrite drop_0 in Hstop. specialize (Hstop Hhead).
    destruct (round_stop s live m d q q' f min1 b' Hpick Hstop Hb' Hp') as (? & ? & ? & ?). by exists (set_queue (emit s [] b') m 0 q'), false, [].
  - destruct (FreeMemory_ok total ltac:(lia) seen b' _ Hb') as (b2 & HF & Hb2 & Hp2).
    replace (token_buffer_ (set_queue (emit s ps b') m 0 q')) with b' by (unfold set_queue; cbn; by rewrite Hm). rewrite HF. cbn [mbind option_bind].
    rewrite set_queue_twice. change (set_buffer (emit s ps b') b2) with (emit s ps b2).
    destruct (round_go s live m d q q' f min1 n ps b2 Hpick) as (? & ? & ?); [lia|done|lia|done..|]. do 3 eexists. split; [done|]. split_and!; try done.
    intros ->. apply Forall2_length in Hps. rewrite length_take in Hps. cbn in Hps. lia.
Qed.

(** ** Extraction *)

Lemma batch_length s ps s' : batch_ok s ps s' -> length (tagged s) = (length ps + length (tagged s'))%nat.
Proof. intros Hb. by rewrite (ba_perm _ _ _ Hb), length_app, length_fmap. Qed.

Lemma extract_rounds_ok fuel : forall s, s_ok s -> (length (tagged s) < fuel)%nat ->
  exists s' ps, extract_rounds fuel s limit = Some s' /\ s_ok s' /\ frame s s' /\ batch_ok s ps s' /\ finished s'.
Proof.
  induction fuel as [|fuel IH]; intros s Hs Hf; [lia|]. cbn [extract_rounds].
  destruct (extract_round_ok s Hs) as (s1 & c & ps1 & -> & Hs1 & Hfr1 & Hb1 & Hc). cbn [mbind option_bind]. destruct c.
  - assert (0 < length ps1)%nat by (destruct ps1; [done|cbn; lia]). pose proof (batch_length _ _ _ Hb1).
    destruct (IH s1 Hs1 ltac:(lia)) as (s2 & ps2 & -> & Hs2 & Hfr2 & Hb2 & Hfin). exists s2, (ps1 ++ ps2). split_and!; try done; [by etrans|by eapply batch_trans].
  - destruct Hc as [-> Hfin]. by exists s1, [].
Qed.

Lemma SortAndExtract_ok s : s_ok s ->
  exists s' ps, SortAndExtractEventsUntilAllocId s limit = Some s' /\ s_ok s' /\ frame s s' /\ batch_ok s ps s' /\ finished s'.
Proof. intros Hs. apply extract_rounds_ok; [done|]. unfold pending, tagged. rewrite tagged_pending_from. lia. Qed.
End Ok.

(** ** Pushing *)

Fixpoint find_id (l : list (option Z)) (id : Z) : option nat :=
  match l with
  | [] => None
  | x :: l => if decide (x = Some id) then Some 0%nat else S <$> find_id l id
  end.

(** The index of a machine, by the identifiers of all machines. *)
Definition machine_index (ids : list (option Z)) (machine : option Z) : option nat :=
  match machine with None => Some 0%nat | Some id => S <$> find_id (tail ids) id end.

Lemma find_machine_ids l id : find_machine l id = find_id (machine_id <$> l) id.
Proof. induction l as [|d l IH]; cbn; [done|]. destruct (decide (machine_id d = Some id)); [done|]. by rewrite IH. Qed.

Lemma find_id_lt l id i : find_id l id = Some i -> (i < length l)%nat.
Proof.
  revert i. induction l as [|x l IH]; intros i; cbn; [done|]. destruct (decide (x = Some id)); [intros [= <-]; lia|].
  destruct (find_id l id) as [j|]; cbn; [|done]. intros [= <-]. specialize (IH j eq_refl). lia.
Qed.

Lemma GetQueue_machine_ok total seen hist s machine m : s_ok total seen hist s -> machine_index (machine_id <$> sorter_data_by_machine_ s) machine = Some m ->
  GetQueue_machine s machine = Some m /\ (m < length (sorter_data_by_machine_ s))%nat.
Proof.
  intros Hs Hm. destruct (so_first _ _ _ _ Hs) as (d & l & Hd & Hid). unfold GetQueue_machine, machine_index in *. rewrite Hd in *. cbn in *.
  rewrite decide_True by done. destruct machine as [id|]; [|injection Hm as <-; split; [done|lia]]. rewrite find_machine_ids. split; [done|].
  destruct (find_id (machine_id <$> l) id) as [j|] eqn:E; [|done]. injection Hm as <-. apply find_id_lt in E. rewrite length_fmap in E. cbn. lia.
Qed.

(** The code shared by the pushes. *)
Definition push_token s (timestamp : Z) (t : Token) (machine : option Z) : option TraceSorter :=
  '(b, id) ← Append_token (token_buffer_ s) t;
  AppendNonFtraceEvent (set_buffer s b) timestamp (token_type t) id machine.

Lemma tagged_from_app l l' : forall k, tagged_from k (l ++ l') = tagged_from k l ++ tagged_from (k + length l) l'.
Proof. induction l as [|d l IH]; intros k; cbn; [by rewrite Nat.add_0_r|]. rewrite IH, <- app_assoc. do 3 f_equal. lia. Qed.

(** Putting a new queue into a machine that had none changes nothing. *)
Lemma tagged_new_queue l m d : forall k, l !! m = Some d -> queues d = [] -> tagged_from k (<[m := mkData (machine_id d) [Queue_new]]> l) = tagged_from k l.
Proof.
  revert m. induction l as [|d0 l IH]; intros [|m] k Hm Hq; try done; cbn.
  - injection Hm as ->. by rewrite Hq.
  - f_equal. by apply IH.
Qed.

(** The queue of a machine, which is there or new. *)
Lemma GetQueue_ok hist amax s m machine d : Forall (machine_ok hist (use_slow_sorting_ s) amax) (sorter_data_by_machine_ s) ->
  GetQueue_machine s machine = Some m -> sorter_data_by_machine_ s !! m = Some d ->
  exists q, let l := <[m := mkData (machine_id d) [q]]> (sorter_data_by_machine_ s) in
    GetQueue s 0 machine = Some (set_data s l, m, q) /\ q_ok hist (use_slow_sorting_ s) q /\ tagged_from 0 l = tagged s.
Proof.
  intros Hf Hm Hd. unfold GetQueue. rewrite Hm. cbn [mbind option_bind]. rewrite Hd. cbn [mbind option_bind].
  rewrite Forall_lookup in Hf. destruct (Hf _ _ Hd) as [E|(q & E & Hq & _)]; rewrite E; cbn.
  - exists Queue_new. split_and!; [done|apply Queue_new_ok|by apply tagged_new_queue].
  - exists q. split_and!; [done|done|]. rewrite list_insert_id; [done|]. destruct d. cbn in *. by subst.
Qed.

Record push_post (total : Z) (seen : list (nat * Z)) (hist : gmap AllocId Token) s (timestamp : Z) (t : Token) (m : nat) (id : AllocId) s' : Prop := {
  pu_ok : s_ok total (seen_after seen t) (<[id := t]> hist) s';
  pu_fresh : hist !! id = None;
  pu_tagged : tagged s' ≡ₚ (m, mkEv timestamp id (token_type t)) :: tagged s;
  pu_parsed : parsed s' = parsed s;
  pu_mode : sorting_mode_ s' = sorting_mode_ s;
  pu_alloc : alloc_id_for_extraction_ s' = alloc_id_for_extraction_ s;
  pu_machines : machine_id <$> sorter_data_by_machine_ s' = machine_id <$> sorter_data_by_machine_ s }.

(** A new token is younger than all others. *)
Lemma fresh_id total seen hist s id : s_ok total seen hist s -> past_pos (allocator_ (token_buffer_ s)) <= id_pos id -> 0 <= id.2 < 65536 ->
  hist !! id = None /\ forall id' t', hist !! id' = Some t' -> id_ltb id' id = true.
Proof.
  intros Hs Hp Hr. split.
  - destruct (hist !! id) as [t'|] eqn:E; [|done]. destruct (so_hist _ _ _ _ Hs _ _ E) as (_ & ? & _). lia.
  - intros id' t' E. destruct (so_hist _ _ _ _ Hs _ _ E) as (_ & ? & ?). rewrite id_ltb_pos by done. apply Z.ltb_lt. lia.
Qed.

(** The sorter with the new event in its queue. *)
Lemma push_done total seen hist s timestamp t m id b live d q q' :
  s_ok (total - 1) seen hist s -> tb_ok total (seen_after seen t) b (<[id := t]> live) ->
  (forall id' t', live !! id' = Some t' <-> hist !! id' = Some t' /\ id' ∈ ev_id <$> (tagged s).*2) ->
  token_ok t -> hist !! id = None -> past_pos (allocator_ (token_buffer_ s)) <= id_pos id < past_pos (allocator_ b) -> 0 <= id.2 < 65536 ->
  sorter_data_by_machine_ s !! m = Some d -> tagged_from 0 (<[m := mkData (machine_id d) [q]]> (sorter_data_by_machine_ s)) = tagged s ->
  q_ok (<[id := t]> hist) (use_slow_sorting_ s) q' -> events_ q' = events_ q ++ [mkEv timestamp id (token_type t)] ->
  let s1 := set_queue (set_data (set_buffer s b) (<[m := mkData (machine_id d) [q]]> (sorter_data_by_machine_ s))) m 0 q' in
  push_post total seen hist s timestamp t m id (set_append_max s1 (Z.max (append_max_ts_ s1) (max_ts_ q'))).
Proof.
  intros Hs Hb Hlive Hok Hnone Hpast Hoff Hd Htag Hq' Hev s1. set (l := <[m := _]> _) in *. set (e := mkEv timestamp id (token_type t)) in *.
  assert (Hl : l !! m = Some (mkData (machine_id d) [q])) by (subst l; by rewrite list_lookup_insert_eq by by eapply lookup_lt_Some).
  destruct (tagged_split l m _ q 0 Hl eq_refl) as (rest & Hp1 & Hp2 & _). cbn [Nat.add machine_id] in *.
  assert (Hs1 : s1 = set_data (set_buffer s b) (<[m := mkData (machine_id d) [q']]> l)) by (subst s1; unfold set_queue; cbn; by rewrite Hl).
  assert (Htags : tagged_from 0 (<[m := mkData (machine_id d) [q']]> l) ≡ₚ (m, e) :: tagged s).
  { rewrite (Hp2 q'), Hev, fmap_app, <- Htag, Hp1. cbn. rewrite <- app_assoc. cbn. by rewrite <- Permutation_middle. }
  assert (Hins : <[m := mkData (machine_id d) [q']]> l = <[m := mkData (machine_id d) [q']]> (sorter_data_by_machine_ s)) by (subst l; apply list_insert_insert_eq).
  rewrite Hs1. assert (Hsub : hist ⊆ <[id := t]> hist) by by apply insert_subseteq. constructor; cbn; try done.
  - constructor; cbn; try apply Hs.
    + exists (<[id := t]> live). split; [done|]. intros id' t'. unfold tagged. cbn. rewrite Htags. cbn. rewrite elem_of_cons. destruct (decide (id' = id)) as [->|Hne].
      * rewrite !lookup_insert_eq. naive_solver.
      * rewrite !lookup_insert_ne by done. rewrite Hlive. naive_solver.
    + intros id' t'. rewrite lookup_insert_Some. intros [[<- <-]|[_ Hid']]; [split_and!; done || lia|]. destruct (so_hist _ _ _ _ Hs _ _ Hid') as (? & ? & ?). split_and!; done || lia.
    + unfold tagged. cbn. rewrite Htags. cbn. apply NoDup_cons. split; [|apply Hs]. intros Hin. apply list_elem_of_fmap in Hin as (x & Hx & Hin).
      apply list_elem_of_fmap in Hin as ([m' y] & -> & Hin). cbn in Hx. destruct (elem_tagged _ _ _ _ _ _ Hs Hin) as (? & q0 & _ & _ & Hq0 & Hy).
      pose proof (qo_known _ _ _ Hq0) as Hk. rewrite Forall_forall in Hk. destruct (Hk y Hy) as (ty & Hty & _). rewrite <- Hx in Hty. congruence.
    + rewrite Hins. apply Forall_insert; [|right; exists q'; split_and!; [done..|lia]]. eapply Forall_impl; [apply Hs|].
      intros d' [E|(q0 & E & Hq0 & Hm0)]; [by left|right]. exists q0. split_and!; [done|by eapply q_ok_weaken|lia].
    + rewrite Hins. destruct (so_first _ _ _ _ Hs) as (d0 & l0 & Hd0 & Hn). destruct m; cbn in Hd; rewrite Hd0 in *; cbn in *; [|by eexists _, _].
      injection Hd as ->. by eexists _, _.
  - rewrite Hins, list_fmap_insert. cbn. apply list_insert_id. by rewrite list_lookup_fmap, Hd.
Qed.

Lemma push_token_ok `{!TokenEnvOk} total seen hist s timestamp t machine m : total < 2 ^ 42 -> s_ok (total - 1) seen hist s -> token_ok t -> in_order seen t ->
  0 < timestamp < kTsMax -> (token_type t = kJsonValueWithDur -> use_slow_sorting_ s = true) ->
  machine_index (machine_id <$> sorter_data_by_machine_ s) machine = Some m ->
  exists s' id, push_token s timestamp t machine = Some s' /\ push_post total seen hist s timestamp t m id s'.
Proof.
  intros Ht Hs Hok Hord Hts Hslow Hmach. destruct (so_live _ _ _ _ Hs) as (live & Hb & Hlive).
  destruct (Append_token_ok total ltac:(lia) seen _ live t Hb Hok Hord) as (b & id & Happ & [Hb' Hfr Hpast Hoff]). destruct (fresh_id _ _ _ _ id Hs) as [Hnone Hyoung]; [lia|done|].
  destruct (GetQueue_machine_ok _ _ _ _ _ _ Hs Hmach) as [Hgm Hlt]. destruct (lookup_lt_is_Some_2 _ _ Hlt) as [d Hd].
  unfold push_token, AppendNonFtraceEvent. rewrite Happ. cbn [mbind option_bind].
  destruct (GetQueue_ok hist (append_max_ts_ s) (set_buffer s b) m machine d) as (q & Hgq & Hq & Htag); [apply Hs|done|done|]. cbn zeta in *. rewrite Hgq. cbn [mbind option_bind].
  set (e := mkEv timestamp id (token_type t)). set (hist' := <[id := t]> hist). assert (Hsub : hist ⊆ hist') by by apply insert_subseteq.
  cbn [use_slow_sorting_ set_data set_buffer sorter_data_by_machine_] in *.
  assert (Hkn : forall x, x ∈ events_ q -> exists t', hist !! ev_id x = Some t').
  { intros x Hx. pose proof (qo_known _ _ _ Hq) as Hk. rewrite Forall_forall in Hk. destruct (Hk x Hx) as (t' & ? & _). eauto. }
  destruct (Append_ok hist' (use_slow_sorting_ s) q e) as (q' & Hap & Hq' & Hev & Hmax).
  { by eapply q_ok_weaken. }
  { exists t. cbn. split; [apply lookup_insert_eq|]. split; [done|]. intros Hf Htype. by rewrite Hslow in Hf. }
  { done. }
  { intros (x & Hx & Hin)%list_elem_of_fmap. destruct (Hkn x Hin) as [t' Ht']. rewrite <- Hx in Ht'. cbn in Ht'. congruence. }
  { rewrite Forall_forall. intros x Hx. destruct (Hkn x Hx) as [t' Ht']. by eapply Hyoung. }
  cbn [ts ev_id event_type e] in Hap. rewrite Hap. cbn [mbind option_bind]. do 2 eexists. split; [done|]. by eapply push_done.
Qed.

(** ** Forced extraction and reads *)

Lemma clear_ok total seen hist s : s_ok total seen hist s -> tagged s = [] ->
  s_ok total seen hist (set_data s ((fun d => mkData (machine_id d) []) <$> sorter_data_by_machine_ s)) /\
  tagged (set_data s ((fun d => mkData (machine_id d) []) <$> sorter_data_by_machine_ s)) = [] /\
  forallb (fun d => forallb (fun q => bool_decide (events_ q = [])) (queues d)) (sorter_data_by_machine_ s) = true.
Proof.
  intros Hs Hnil. assert (Htag : forall l k, tagged_from k ((fun d => mkData (machine_id d) []) <$> l) = []) by (induction l; intros k; cbn; auto).
  split_and!.
  - destruct Hs as [(live & Hb & Hlive) ? ? ? (d & l & Hd & Hid) ? ?]. constructor; cbn; try done.
    + exists live. split; [done|]. unfold tagged in *. cbn. by rewrite Htag, <- Hnil.
    + unfold tagged. cbn. rewrite Htag. constructor.
    + apply Forall_fmap, Forall_true. intros d'. by left.
    + rewrite Hd. by eexists _, _.
  - apply Htag.
  - apply forallb_forall. intros d Hd. apply list_elem_of_In in Hd. apply list_elem_of_lookup in Hd as [m Hm]. apply forallb_forall. intros q Hq. apply list_elem_of_In in Hq.
    apply bool_decide_eq_true. destruct (events_ q) as [|e es] eqn:E; [done|]. exfalso. assert (Hin : (m, e) ∈ tagged s).
    { apply elem_tagged_from. exists m, d, q. split_and!; try done. rewrite E. by left. }
    rewrite Hnil in Hin. by apply not_elem_of_nil in Hin.
Qed.

(** The parts of the state that the invariant does not look at. *)
Lemma set_extraction_ok total seen hist s id n : s_ok total seen hist s -> s_ok total seen hist (set_extraction s id n).
Proof. by intros []. Qed.

Lemma ExtractEventsForced_ok total seen hist s : total < 2 ^ 42 -> s_ok total seen hist s ->
  exists s' ps limit, ExtractEventsForced s = Some s' /\ s_ok total seen hist s' /\ batch_ok hist limit s ps s' /\ tagged s' = [] /\
    sorting_mode_ s' = sorting_mode_ s /\ 0 <= (alloc_id_for_extraction_ s').2 < 65536 /\
    machine_id <$> sorter_data_by_machine_ s' = machine_id <$> sorter_data_by_machine_ s.
Proof.
  intros Ht Hs. destruct (so_live _ _ _ _ Hs) as (live & Hb & _). destruct (PastTheEndId_ok total _ _ Ht (tb_bump _ _ _ _ Hb)) as (e & He & Hpos & Hoff).
  unfold ExtractEventsForced, PastTheEndAllocId. rewrite He. cbn [mbind option_bind].
  destruct (SortAndExtract_ok total Ht seen hist e Hoff s Hs) as (s1 & ps & -> & Hs1 & Hfr & Hba & Hfin). cbn [mbind option_bind].
  assert (Hnil : tagged s1 = []).
  { destruct Hfin as [|([m x] & Hx & Hge & _)]; [done|]. exfalso. destruct (elem_tagged _ _ _ _ _ _ Hs1 Hx) as (? & q & _ & _ & Hq & Hin).
    pose proof (qo_known _ _ _ Hq) as Hk. rewrite Forall_forall in Hk. destruct (Hk x Hin) as (t & Ht' & _). destruct (so_hist _ _ _ _ Hs _ _ Ht') as (_ & ? & ?).
    unfold id_geb in Hge. cbn in Hge. rewrite id_ltb_pos in Hge by done. rewrite (proj2 (Z.ltb_lt _ _)) in Hge by lia. done. }
  destruct (clear_ok _ _ _ _ Hs1 Hnil) as (Hs2 & Htag2 & ->). do 3 eexists. split; [done|]. split_and!; try done.
  - by apply set_extraction_ok.
  - destruct Hba. constructor; try done; cbn; unfold tagged in *; cbn in *; by rewrite ?Htag2, <- ?Hnil.
  - cbn. apply Hfr.
  - exact (proj1 Hoff).
  - exact (proj2 Hoff).
  - cbn [set_extraction set_data sorter_data_by_machine_]. rewrite <- list_fmap_compose. apply Hfr.
Qed.

Lemma NotifyReadBufferEvent_ok total seen hist s : total < 2 ^ 42 -> s_ok total seen hist s -> 0 <= (alloc_id_for_extraction_ s).2 < 65536 ->
  exists s' ps, NotifyReadBufferEvent s = Some s' /\ s_ok total seen hist s' /\ batch_ok hist (alloc_id_for_extraction_ s) s ps s' /\
    (sorting_mode_ s = kFullSort -> ps = []) /\
    sorting_mode_ s' = sorting_mode_ s /\ 0 <= (alloc_id_for_extraction_ s').2 < 65536 /\
    machine_id <$> sorter_data_by_machine_ s' = machine_id <$> sorter_data_by_machine_ s.
Proof.
  intros Ht Hs Hal. unfold NotifyReadBufferEvent.
  destruct (match sorting_mode_ s with kFullSort => true | kDefault => false end || (flushes_since_extraction_ s <? 2)) eqn:E.
  { exists s, []. split_and!; try done; try apply Hal. by apply batch_nil. }
  destruct (SortAndExtract_ok total Ht seen hist _ Hal s Hs) as (s1 & ps & -> & Hs1 & Hfr & Hba & _). cbn [mbind option_bind].
  destruct (so_live _ _ _ _ Hs1) as (live & Hb & _). destruct (PastTheEndId_ok total _ _ Ht (tb_bump _ _ _ _ Hb)) as (e & He & _ & Hoff).
  unfold PastTheEndAllocId. rewrite He. cbn [mbind option_bind]. eexists _, ps. split; [done|]. split_and!; try done; try apply Hoff; try (cbn; apply Hfr).
  - by apply set_extraction_ok.
  - destruct Hba. by constructor.
  - intros Hm. by rewrite Hm in E.
Qed.

(** ** Uses of a sorter *)

Inductive SorterOp := OpMachine (id : option Z) | OpPush (timestamp : Z) (t : Token) (machine : option Z) | OpFlush | OpRead | OpForced.

Definition push s (timestamp : Z) (t : Token) (machine : option Z) : option TraceSorter :=
  match t with
  | TokPacket data => PushTracePacket s timestamp data machine
  | TokTrackEvent data => PushTrackEventPacket s timestamp data machine
  | TokJson value => PushJsonValue s timestamp value None
  | TokJsonDur dur value => PushJsonValue s timestamp value (Some dur)
  end.

Definition sorter_step s (o : SorterOp) : option TraceSorter :=
  match o with
  | OpMachine id => Some (AddMachineContext s id)
  | OpPush timestamp t machine => push s timestamp t machine
  | OpFlush => Some (NotifyFlushEvent s)
  | OpRead => NotifyReadBufferEvent s
  | OpForced => ExtractEventsForced s
  end.

(** The final state, and the calls of parsers that every operation made. *)
Fixpoint sorter_run s (ops : list SorterOp) : option (TraceSorter * list (list Parsed)) :=
  match ops with
  | [] => Some (s, [])
  | o :: ops =>
      s' ← sorter_step s o;
      '(s'', batches) ← sorter_run s' ops;
      Some (s'', drop (length (parsed s)) (parsed s') :: batches)
  end.

(** JSON values go to the default machine. *)
Definition push_machine (t : Token) (machine : option Z) : option Z := match t with TokJson _ | TokJsonDur _ _ => None | _ => machine end.

(** Timestamps are positive and below the maximum, tokens well formed, views of one
    blob in order, and machines known. *)
Fixpoint sops_ok (ids : list (option Z)) (seen : list (nat * Z)) (ops : list SorterOp) : Prop :=
  match ops with
  | [] => True
  | OpMachine id :: ops => sops_ok (ids ++ [id]) seen ops
  | OpPush timestamp t machine :: ops =>
      0 < timestamp < kTsMax /\ token_ok t /\ in_order seen t /\ is_Some (machine_index ids (push_machine t machine)) /\ sops_ok ids (seen_after seen t) ops
  | _ :: ops => sops_ok ids seen ops
  end.

(** What was pushed: machine, time, and the token as it is stored. *)
Fixpoint pushes (ids : list (option Z)) (ops : list SorterOp) : list (nat * Z * option Token) :=
  match ops with
  | [] => []
  | OpMachine id :: ops => pushes (ids ++ [id]) ops
  | OpPush timestamp t machine :: ops => (default 0%nat (machine_index ids (push_machine t machine)), timestamp, Some (stored_token t)) :: pushes ids ops
  | _ :: ops => pushes ids ops
  end.

Definition result (p : Parsed) : nat * Z * option Token := (p_machine p, ts (p_event p), Some (p_token p)).

(** The order of the calls: by time, and for one machine by time, duration (the
    longest first) and age. *)
Definition parsed_key (p : Parsed) : list Z :=
  [ts (p_event p); match p_token p with TokJsonDur dur _ => s64 (kTsMax - dur) | _ => kTsMax end; (ev_id (p_event p)).1; (ev_id (p_event p)).2].

Definition in_time (p p' : Parsed) : Prop :=
  ts (p_event p) <= ts (p_event p') /\ (p_machine p = p_machine p' -> tie_ltb (parsed_key p) (parsed_key p') = true).

Lemma batch_in_time hist limit s ps s' : batch_ok hist limit s ps s' -> StronglySorted in_time ps.
Proof.
  intros [_ _ Hs _ _ Htok]. assert (Hkey : Forall (fun p => ev_key hist (p_event p) = parsed_key p) ps).
  { eapply Forall_impl; [exact Htok|]. intros p (t & Ht & _ & Hp). unfold ev_key, parsed_key, dur_key. rewrite Ht, Hp. by destruct t. }
  clear Htok. induction ps as [|p ps IH]; [constructor|]. cbn in Hs. apply StronglySorted_inv in Hs as [Hs Hp]. apply Forall_cons in Hkey as [Hkp Hkey].
  constructor; [by apply IH|]. rewrite Forall_fmap in Hp. rewrite Forall_forall in *. intros p' Hp'. specialize (Hp p' Hp'). specialize (Hkey p' Hp').
  destruct Hp as [H1 H2]. split; [done|]. intros Hm. specialize (H2 Hm). unfold ev_lt in H2. cbn [origin fst snd] in H2. by rewrite Hkp, Hkey in H2.
Qed.

Definition view_of (hist : gmap AllocId Token) (x : nat * TimestampedEvent) : nat * Z * option Token := (x.1, ts x.2, stored_token <$> hist !! ev_id x.2).

Lemma view_mono total seen hist hist' s : s_ok total seen hist s -> hist ⊆ hist' -> view_of hist' <$> tagged s = view_of hist <$> tagged s.
Proof.
  intros Hs Hsub. apply list_fmap_ext. intros i [m e] Hi. unfold view_of. f_equal. destruct (elem_tagged _ _ _ _ m e Hs) as (? & q & _ & _ & Hq & He); [by eapply list_elem_of_lookup_2|].
  pose proof (qo_known _ _ _ Hq) as Hk. rewrite Forall_forall in Hk. destruct (Hk e He) as (t & Ht & _). cbn. by rewrite Ht, (lookup_weaken _ _ _ _ Ht Hsub).
Qed.

Lemma batch_view hist limit s ps s' : batch_ok hist limit s ps s' -> view_of hist <$> tagged s ≡ₚ (result <$> ps) ++ (view_of hist <$> tagged s').
Proof.
  intros [_ Hp _ _ _ Htok]. rewrite Hp, fmap_app. rewrite <- list_fmap_compose. f_equiv. apply reflexive_eq, list_fmap_ext. intros i p Hi.
  rewrite Forall_lookup in Htok. destruct (Htok _ _ Hi) as (t & Ht & _ & Hpt). unfold view_of, result. cbn. by rewrite Ht, Hpt.
Qed.

(** ** Runs *)

Lemma set_slow_ok total seen hist s : s_ok total seen hist s -> s_ok total seen hist (set_slow s).
Proof.
  intros []. constructor; try done. cbn. eapply Forall_impl; [eassumption|]. intros d [E|(q & E & Hq & Hm)]; [by left|right].
  exists q. split_and!; [done| |done]. by apply (q_ok_weaken hist hist (reflexivity _) (use_slow_sorting_ s)).
Qed.

Lemma AddMachineContext_ok total seen hist s id : s_ok total seen hist s ->
  s_ok total seen hist (AddMachineContext s id) /\ tagged (AddMachineContext s id) = tagged s.
Proof.
  intros []. assert (Ht : tagged (AddMachineContext s id) = tagged s) by (unfold tagged; cbn; rewrite tagged_from_app; cbn; by rewrite app_nil_r).
  split; [|done]. constructor; rewrite ?Ht; try done; cbn.
  - apply Forall_app. split; [done|]. constructor; [by left|done].
  - destruct so_first0 as (d & l & -> & Hd). by eexists _, _.
Qed.

(** A push is that of its token, and durations turn slow sorting on. *)
Definition with_slow s (t : Token) : TraceSorter := match t with TokJsonDur _ _ => set_slow s | _ => s end.

Lemma push_as_token s timestamp t machine : push s timestamp t machine = push_token (with_slow s t) timestamp t (push_machine t machine).
Proof. by destruct t. Qed.

Lemma push_ok `{!TokenEnvOk} total seen hist s timestamp t machine m : total < 2 ^ 42 -> s_ok (total - 1) seen hist s -> token_ok t -> in_order seen t ->
  0 < timestamp < kTsMax -> machine_index (machine_id <$> sorter_data_by_machine_ s) (push_machine t machine) = Some m ->
  exists s' id, push s timestamp t machine = Some s' /\ push_post total seen hist s timestamp t m id s'.
Proof.
  intros Ht Hs Hok Hord Hts Hm. rewrite push_as_token.
  destruct (push_token_ok total seen hist (with_slow s t) timestamp t (push_machine t machine) m) as (s' & id & Hp & []); try done.
  - destruct t; try done. by apply set_slow_ok.
  - by destruct t.
  - by destruct t.
  - exists s', id. split; [done|]. by constructor; destruct t.
Qed.

(** The invariant between operations, with the identifiers of the machines. *)
Record r_inv (total : Z) (seen : list (nat * Z)) (hist : gmap AllocId Token) (ids : list (option Z)) s : Prop := {
  ri_ok : s_ok total seen hist s;
  ri_ids : machine_id <$> sorter_data_by_machine_ s = ids;
  ri_alloc : 0 <= (alloc_id_for_extraction_ s).2 < 65536 }.

Definition is_push (o : SorterOp) : bool := match o with OpPush _ _ _ => true | _ => false end.
Definition is_forced (o : SorterOp) : bool := match o with OpForced => true | _ => false end.
Definition ids_after (ids : list (option Z)) (o : SorterOp) : list (option Z) := match o with OpMachine id => ids ++ [id] | _ => ids end.
Definition seen_step (seen : list (nat * Z)) (o : SorterOp) : list (nat * Z) := match o with OpPush _ t _ => seen_after seen t | _ => seen end.

(** One operation: the calls [ps] it makes, and what waits afterwards. *)
Record step_post (total : Z) (seen : list (nat * Z)) (hist : gmap AllocId Token) (ids : list (option Z)) s (o : SorterOp) (hist' : gmap AllocId Token) (ps : list Parsed) s' : Prop := {
  st_inv : r_inv (total + if is_push o then 1 else 0) (seen_step seen o) hist' (ids_after ids o) s';
  st_hist : hist ⊆ hist';
  st_parsed : parsed s' = parsed s ++ ps;
  st_sorted : StronglySorted in_time ps;
  st_view : (view_of hist' <$> tagged s) ++ pushes ids [o] ≡ₚ (result <$> ps) ++ (view_of hist' <$> tagged s');
  st_mode : sorting_mode_ s' = sorting_mode_ s;
  st_full : sorting_mode_ s = kFullSort -> is_forced o = false -> ps = [];
  st_forced : is_forced o = true -> tagged s' = [] }.

Lemma step_batch total seen hist ids s o limit ps s' : is_push o = false -> ids_after ids o = ids -> pushes ids [o] = [] ->
  r_inv total seen hist ids s' -> batch_ok hist limit s ps s' -> sorting_mode_ s' = sorting_mode_ s ->
  (sorting_mode_ s = kFullSort -> is_forced o = false -> ps = []) -> (is_forced o = true -> tagged s' = []) ->
  step_post total seen hist ids s o hist ps s'.
Proof.
  intros Hp Hi Hu Hr Hba Hm Hfull Hforced. constructor; try done.
  - rewrite Hp, Hi, Z.add_0_r. by destruct o.
  - apply Hba.
  - by eapply batch_in_time.
  - rewrite Hu, app_nil_r. by eapply batch_view.
Qed.

Lemma sorter_step_ok `{!TokenEnvOk} total seen hist ids s o : total + 1 < 2 ^ 42 -> r_inv total seen hist ids s -> sops_ok ids seen [o] ->
  exists s' hist' ps, sorter_step s o = Some s' /\ step_post total seen hist ids s o hist' ps s'.
Proof.
  intros Ht [Hs Hi Ha] Hok. destruct o as [id|timestamp t machine| | |]; cbn [sorter_step].
  - destruct (AddMachineContext_ok _ _ _ _ id Hs) as [Hs' Htag]. do 2 eexists. exists []. split; [done|].
    constructor; rewrite ?Htag, ?app_nil_r; cbn; rewrite ?Z.add_0_r; try done; try constructor; cbn; try done. by rewrite fmap_app, Hi.
  - cbn in Hok. destruct Hok as (Hts & Htok & Hord & [m Hm] & _).
    destruct (push_ok (total + 1) seen hist s timestamp t machine m) as (s' & id & Hp & []); try done; [by rewrite Z.add_simpl_r|by rewrite Hi|].
    exists s', (<[id := t]> hist), []. split; [done|]. constructor; cbn; rewrite ?app_nil_r; try done.
    + constructor; cbn; [done|congruence|by rewrite pu_alloc0].
    + by apply insert_subseteq.
    + constructor.
    + rewrite pu_tagged0, Hm. cbn. rewrite <- Permutation_cons_append. f_equiv.
      unfold view_of. cbn. by rewrite lookup_insert_eq.
  - exists (NotifyFlushEvent s), hist, []. split; [done|]. eapply (step_batch _ _ _ _ _ _ (0, 0)); try done; [|by apply batch_nil].
    constructor; try done. by apply set_extraction_ok.
  - destruct (NotifyReadBufferEvent_ok total seen hist s) as (s' & ps & Hr & Hs' & Hba & Hfull & Hm & Ha' & Hi'); [lia|done..|].
    exists s', hist, ps. split; [done|]. eapply step_batch; try done; [|by intros; apply Hfull]. constructor; try done. congruence.
  - destruct (ExtractEventsForced_ok total seen hist s) as (s' & ps & limit & Hr & Hs' & Hba & Hnil & Hm & Ha' & Hi'); [lia|done|].
    exists s', hist, ps. split; [done|]. eapply step_batch; try done. constructor; try done. congruence.
Qed.

Record run_post (total : Z) (seen : list (nat * Z)) (hist : gmap AllocId Token) (ids : list (option Z)) s (ops : list SorterOp) (hist' : gmap AllocId Token) (batches : list (list Parsed)) s' : Prop := {
  ru_inv : exists total' seen', total' <= total + Z.of_nat (length ops) /\ r_inv total' seen' hist' (fold_left ids_after ops ids) s';
  ru_hist : hist ⊆ hist';
  ru_parsed : parsed s' = parsed s ++ concat batches;
  ru_sorted : Forall (StronglySorted in_time) batches;
  ru_view : (view_of hist' <$> tagged s) ++ pushes ids ops ≡ₚ (result <$> concat batches) ++ (view_of hist' <$> tagged s');
  ru_mode : sorting_mode_ s' = sorting_mode_ s;
  ru_full : sorting_mode_ s = kFullSort -> existsb is_forced ops = false -> concat batches = [] }.

Lemma pushes_cons ids o ops : pushes ids (o :: ops) = pushes ids [o] ++ pushes (ids_after ids o) ops.
Proof. by destruct o. Qed.

Lemma sops_ok_cons ids seen o ops : sops_ok ids seen (o :: ops) <-> sops_ok ids seen [o] /\ sops_ok (ids_after ids o) (seen_step seen o) ops.
Proof. destruct o; cbn; tauto. Qed.

Lemma run_cons total seen hist ids s o ops hist1 ps s1 hist' batches s' : step_post total seen hist ids s o hist1 ps s1 ->
  run_post (total + if is_push o then 1 else 0) (seen_step seen o) hist1 (ids_after ids o) s1 ops hist' batches s' ->
  s_ok total seen hist s -> run_post total seen hist ids s (o :: ops) hist' (ps :: batches) s'.
Proof.
  intros [Hi Hh Hp Hst Hv Hm Hf _] [(total' & seen' & Hle & Hi') Hh' Hp' Hst' Hv' Hm' Hf'] Hs. constructor.
  - exists total', seen'. split; [|done]. cbn. destruct (is_push o); lia.
  - by transitivity hist1.
  - cbn. by rewrite Hp', Hp, app_assoc.
  - by constructor.
  - assert (Hsub : hist ⊆ hist') by by transitivity hist1. rewrite pushes_cons, app_assoc. cbn [concat]. rewrite fmap_app, <- (app_assoc (result <$> ps)), <- Hv', (app_assoc (result <$> ps)). f_equiv.
    rewrite (view_mono _ _ _ _ _ (ri_ok _ _ _ _ _ Hi) Hh'), <- Hv. f_equiv. by rewrite (view_mono _ _ _ _ _ Hs Hsub), (view_mono _ _ _ _ _ Hs Hh).
  - congruence.
  - cbn. intros Hk [Ho Hops]%orb_false_iff. rewrite (Hf Hk Ho). apply Hf'; [congruence|done].
Qed.

Lemma sorter_run_ok `{!TokenEnvOk} ops : forall total seen hist ids s, total + Z.of_nat (length ops) < 2 ^ 42 -> r_inv total seen hist ids s -> sops_ok ids seen ops ->
  exists s' hist' batches, sorter_run s ops = Some (s', batches) /\ run_post total seen hist ids s ops hist' batches s'.
Proof.
  induction ops as [|o ops IH]; intros total seen hist ids s Ht Hi Hok.
  - exists s, hist, []. split; [done|]. constructor; cbn; rewrite ?app_nil_r; try done. exists total, seen. split; [lia|done].
  - apply sops_ok_cons in Hok as [Ho Hok]. cbn [length] in Ht. destruct (sorter_step_ok total seen hist ids s o) as (s1 & hist1 & ps & Hstep & Hpost); [lia|done..|].
    destruct (IH (total + (if is_push o then 1 else 0)) _ _ _ _ ltac:(destruct (is_push o); lia) (st_inv _ _ _ _ _ _ _ _ _ Hpost) Hok) as (s' & hist' & batches & Hrun & Hpost').
    exists s', hist', (ps :: batches). split; [|eapply run_cons; [done..|apply Hi]].
    cbn. rewrite Hstep. cbn. rewrite Hrun. cbn. by rewrite (st_parsed _ _ _ _ _ _ _ _ _ Hpost), drop_app_length.
Qed.

Lemma sorter_run_app ops ops' : forall s s1 b1 s2 b2, sorter_run s ops = Some (s1, b1) -> sorter_run s1 ops' = Some (s2, b2) -> sorter_run s (ops ++ ops') = Some (s2, b1 ++ b2).
Proof.
  induction ops as [|o ops IH]; cbn; intros s s1 b1 s2 b2 Hr Hr'; [by injection Hr as <- <-|].
  destruct (sorter_step s o) as [s'|]; [|done]. cbn in *. destruct (sorter_run s' ops) as [[s'' b]|] eqn:E; [|done]. cbn in Hr. injection Hr as -> <-.
  by rewrite (IH _ _ _ _ _ E Hr').
Qed.

Lemma TraceSorter_new_ok mode :
  exists s, TraceSorter_new mode false = Some s /\ r_inv 0 [] ∅ [None] s /\ tagged s = [] /\ parsed s = [] /\ sorting_mode_ s = mode.
Proof.
  assert (Hb : tb_ok 0 [] TraceTokenBuffer_new ∅) by by constructor.
  destruct (PastTheEndId_ok 0 _ _ ltac:(lia) (tb_bump _ _ _ _ Hb)) as (e & He & _ & Hoff).
  unfold TraceSorter_new, PastTheEndAllocId. rewrite He. cbn [mbind option_bind]. eexists. split; [done|]. split_and!; try done. constructor; [|done..].
  constructor; cbn; try done.
  - exists ∅. split; [done|]. intros id t. rewrite !lookup_empty. naive_solver.
  - constructor.
  - constructor; [by left|done].
  - by eexists _, _.
Qed.

(** ** Destruction *)

Lemma discard_token s e b' t : Extract_token (event_type e) (token_buffer_ s) (ev_id e) = Some (b', t) -> ExtractAndDiscardTokenizedObject s e = Some (set_buffer s b').
Proof.
  unfold ExtractAndDiscardTokenizedObject, Extract_token, Extract_TracePacketData. destruct (event_type e);
    (destruct (Extract_JsonEvent _ _) as [[]|] || idtac); (destruct (Extract_JsonWithDurEvent _ _) as [[]|] || idtac);
    (destruct (Extract_TrackEventData _ _) as [[]|] || idtac); cbn; by try intros [= <- <-].
Qed.

Lemma discard_all_ok (total : Z) (seen : list (nat * Z)) (hist : gmap AllocId Token) (l : list TimestampedEvent) : total <= 2 ^ 42 -> forall s (live : gmap AllocId Token), tb_ok total seen (token_buffer_ s) live -> NoDup (ev_id <$> l) ->
  (forall id t, live !! id = Some t <-> hist !! id = Some t /\ id ∈ ev_id <$> l) ->
  Forall (fun e => exists t, hist !! ev_id e = Some t /\ token_type t = event_type e /\ token_ok t) l ->
  exists s', discard_all s l = Some s' /\ tb_ok total seen (token_buffer_ s') ∅.
Proof.
  intros Ht. induction l as [|e l IH]; intros s live Hb Hnd Hlive Hk.
  - exists s. split; [done|]. replace (∅ : gmap AllocId Token) with live; [done|]. apply map_empty. intros id. apply eq_None_not_Some.
    intros [t Hid]. apply Hlive in Hid as [_ Hin]. by apply not_elem_of_nil in Hin.
  - apply Forall_cons in Hk as [(t & Hid & Htype & Hok) Hk]. cbn in Hnd. apply NoDup_cons in Hnd as [Hnin Hnd].
    assert (Hl : live !! ev_id e = Some t) by (apply Hlive; split; [done|left]).
    destruct (Extract_token_ok total Ht seen _ _ _ _ Hb Hl Hok) as (b' & He & Hb' & _). rewrite Htype in He.
    cbn [discard_all]. rewrite (discard_token _ _ _ _ He). cbn [mbind option_bind]. apply (IH _ (delete (ev_id e) live)); try done.
    intros id t'. rewrite lookup_delete_Some, Hlive. cbn. rewrite elem_of_cons. split; [naive_solver|]. intros [? Hin]. split; [|naive_solver]. by intros <-.
Qed.

Lemma pending_tagged s : pending s = (tagged s).*2.
Proof.
  unfold pending, tagged. generalize 0%nat. induction (sorter_data_by_machine_ s) as [|d l IH]; intros k; cbn; [done|].
  rewrite fmap_app, <- IH. f_equal. rewrite <- list_fmap_compose. symmetry. apply list_fmap_id.
Qed.

Lemma TraceSorter_delete_ok total seen hist s : total <= 2 ^ 42 -> s_ok total seen hist s -> TraceSorter_delete s = Some true.
Proof.
  intros Ht Hs. destruct (so_live _ _ _ _ Hs) as (live & Hb & Hlive). unfold TraceSorter_delete. rewrite pending_tagged.
  destruct (discard_all_ok total seen hist (tagged s).*2 Ht s live Hb) as (s' & -> & Hb'); [apply Hs|done| |].
  - apply Forall_fmap, Forall_forall. intros [m e] Hin. destruct (elem_tagged _ _ _ _ _ _ Hs Hin) as (d & q & _ & _ & Hq & He).
    pose proof (qo_known _ _ _ Hq) as Hk. rewrite Forall_forall in Hk. destruct (Hk e He) as (t & Hid & Htype & _). exists t. split_and!; try done. by eapply Hs.
  - cbn. f_equal. eapply BumpAllocator_delete_ok. apply tb_bump in Hb'. by rewrite fmap_empty in Hb'.
Qed.
End Extract.

(** C37: the sorter hands out every event once and in order. Over fewer than [2^42]
    operations, with timestamps above zero and below [kTsMax] (a first event at or below
    zero can fail a check), tokens that fit and views of one blob in the order of their
    offsets: whatever machines are added, events pushed for them, flushes and reads
    notified and extractions forced, in either mode, no check fails; the calls of the
    parsers that one operation makes are in the order of time, those for one machine also by
    duration (the longest first) and age; and after a final forced extraction nothing waits,
    the parsers have had one call for each event that was pushed, for its machine, with its
    time and with what the token buffer stores of its token ([stored_token]: of a track
    event the counters past the first zero one are lost), the latest timestamp and the
    number of events out of order are those of the calls, and in full-sort mode, if no
    extraction was forced before the last, all the calls are in order. *)
Theorem trace_sorter_correct `{TokenEnvOk} mode ops : sops_ok [None] [] ops -> Z.of_nat (length ops) < 2 ^ 42 ->
  exists s0 s batches, TraceSorter_new mode false = Some s0 /\ sorter_run s0 (ops ++ [OpForced]) = Some (s, batches) /\
    parsed s = concat batches /\ Forall (StronglySorted in_time) batches /\
    (result <$> parsed s) ≡ₚ pushes [None] ops /\ tagged s = [] /\
    fold_left stat_step (parsed s) (- 2 ^ 63, 0) = (latest_pushed_event_ts_ s, sorter_push_event_out_of_order s) /\
    (mode = kFullSort -> existsb is_forced ops = false -> StronglySorted in_time (parsed s)).
Proof.
  intros Hok Hlen. destruct (TraceSorter_new_ok mode) as (s0 & Hnew & Hi & Htag & Hpar & Hmode).
  destruct (sorter_run_ok ops 0 [] ∅ [None] s0) as (s1 & hist1 & b1 & Hrun & [(total & seen & Hle & Hi1) _ Hp1 Hs1 Hv1 Hm1 Hf1]); [lia|done..|].
  destruct (ExtractEventsForced_ok total seen hist1 s1) as (s & ps & limit & Hfor & Hs & Hba & Hnil & _); [lia|apply Hi1|].
  pose proof (batch_in_time _ _ _ _ _ Hba) as Hsort. pose proof (batch_view _ _ _ _ _ Hba) as Hv. pose proof (ba_parsed _ _ _ _ _ Hba) as Hp.
  exists s0, s, (b1 ++ [ps]). rewrite Hnil, app_nil_r in Hv. rewrite Hp1, Hpar in Hp. cbn in Hp. rewrite Htag in Hv1. cbn in Hv1. split_and!; try done.
  - eapply sorter_run_app; [done|]. cbn. rewrite Hfor. cbn. by rewrite Hp, Hp1, Hpar, drop_app_length.
  - by rewrite concat_app, Hp; cbn; rewrite app_nil_r.
  - apply Forall_app. split; [done|]. by constructor.
  - by rewrite Hp, fmap_app, Hv1, Hv.
  - apply Hs.
  - intros -> Hno. rewrite Hp, Hf1; done.
Qed.

(** A sorter can be destroyed at any time. Whatever events wait after any sequence of
    operations, the destructor gives back the memory of every one of them, with no
    failed check, and the allocator's check that nothing is still allocated holds. *)
Theorem trace_sorter_destroyed `{TokenEnvOk} mode ops : sops_ok [None] [] ops -> Z.of_nat (length ops) < 2 ^ 42 ->
  exists s0 s batches, TraceSorter_new mode false = Some s0 /\ sorter_run s0 ops = Some (s, batches) /\ TraceSorter_delete s = Some true.
Proof.
  intros Hok Hlen. destruct (TraceSorter_new_ok mode) as (s0 & Hnew & Hi & _).
  destruct (sorter_run_ok ops 0 [] ∅ [None] s0) as (s & hist & batches & Hrun & [(total & seen & Hle & Hi1) _ _ _ _ _ _]); [lia|done..|].
  exists s0, s, batches. split_and!; try done. eapply (TraceSorter_delete_ok total); [lia|apply Hi1].
Qed.

Definition example_sorter_ops : list SorterOp :=
  [OpMachine (Some 7); OpPush 20 (TokPacket (mkPacket (mkView 1 0 10) 7)) None; OpFlush; OpFlush; OpRead;
   OpPush 10 (TokPacket (mkPacket (mkView 1 20 30) 8)) (Some 7); OpPush 15 (TokJsonDur 5 [65]) None; OpPush 15 (TokJsonDur 9 [66]) None; OpFlush; OpFlush; OpRead].

Lemma trace_sorter_correct_witness :
  @sops_ok example_token_env [None] [] example_sorter_ops /\
  exists s0 s batches, TraceSorter_new kFullSort false = Some s0 /\
    @sorter_run example_token_env s0 (example_sorter_ops ++ [OpForced]) = Some (s, batches) /\ StronglySorted in_time (parsed s) /\
    result <$> parsed s ≡ₚ pushes [None] example_sorter_ops.
Proof.
  assert (Hok : @sops_ok example_token_env [None] [] example_sorter_ops).
  { unfold kTsMax. cbn. unfold token_ok, view_ok, in_order, is_u32. cbn. repeat split; try (by eexists); try lia; repeat constructor; cbn; lia. }
  split; [exact Hok|].
  destruct (@trace_sorter_correct example_token_env ltac:(unfold TokenEnvOk; cbn; lia) kFullSort example_sorter_ops Hok)
    as (s0 & s & batches & Hnew & Hrun & _ & _ & Hp & _ & _ & Hsort); [cbn; lia|]. exists s0, s, batches. auto.
Defined.

Lemma trace_sorter_destroyed_witness :
  exists s0 s batches, TraceSorter_new kDefault false = Some s0 /\ @sorter_run example_token_env s0 example_sorter_ops = Some (s, batches) /\
    @TraceSorter_delete example_token_env s = Some true.
Proof.
  apply (@trace_sorter_destroyed example_token_env ltac:(unfold TokenEnvOk; cbn; lia)); [|cbn; lia].
  unfold kTsMax. cbn. unfold token_ok, view_ok, in_order, is_u32. cbn. repeat split; try (by eexists); try lia; repeat constructor; cbn; lia.
Defined.

(** The order in which the example is parsed. *)
Example example_sorter_times :
  (s0 ← TraceSorter_new kFullSort false; '(s, _) ← @sorter_run example_token_env s0 (example_sorter_ops ++ [OpForced]);
   Some (result <$> parsed s)) =
  Some [(1%nat, 10, Some (TokPacket (mkPacket (mkView 1 20 30) 8))); (0%nat, 15, Some (TokJsonDur 9 [66])); (0%nat, 15, Some (TokJsonDur 5 [65]));
        (0%nat, 20, Some (TokPacket (mkPacket (mkView 1 0 10) 7)))].
Proof. vm_compute. reflexivity. Qed.

Lemma Append_new_None timestamp type id slow : Append Queue_new timestamp type id slow = None <-> timestamp < 0 \/ (timestamp = 0 /\ slow = true).
Proof.
  unfold Append. cbn [Queue_new events_ max_ts_ min_ts_ sort_start_idx_ sort_min_ts_ app length Nat.leb Nat.eqb].
  destruct (Z.ltb_spec 0 timestamp) as [Hlt|Hle]; cbn [orb mbind option_bind max_ts_ min_ts_ Nat.leb].
  { rewrite (proj2 (Z.leb_le _ _)) by lia. split; [done|lia]. }
  destruct (Z.eqb_spec timestamp 0) as [->|Hne]; destruct slow; cbn; split; intros; try done; lia.
Qed.

(** The first event of a queue needs a positive timestamp. The check that two
    events are there when sorting becomes necessary fails exactly when the first event
    of a fresh sorter has a negative timestamp, or the timestamp zero and a duration,
    since the latest timestamp of an empty queue is zero; every other first event is
    accepted. *)
Theorem first_event_check `{TokenEnvOk} mode s0 timestamp t : TraceSorter_new mode false = Some s0 -> token_ok t ->
  push s0 timestamp t None = None <-> timestamp < 0 \/ (timestamp = 0 /\ token_type t = kJsonValueWithDur).
Proof.
  intros Hnew Hok. rewrite push_as_token. assert (Hb : tb_ok 0 [] TraceTokenBuffer_new ∅) by by constructor.
  unfold TraceSorter_new in Hnew. destruct (PastTheEndAllocId _) as [e|]; [|done]. injection Hnew as <-.
  destruct (Append_token_ok 1 ltac:(lia) [] _ _ t Hb Hok) as (b & id & Happ & _); [unfold in_order; by destruct (token_view t) as [[]|]|].
  unfold push_token. set (s := with_slow _ t). replace (token_buffer_ s) with TraceTokenBuffer_new by by destruct t. rewrite Happ. cbn [mbind option_bind].
  assert (Hs : sorter_data_by_machine_ s = [mkData None []]) by by destruct t. assert (Hslow : use_slow_sorting_ s = bool_decide (token_type t = kJsonValueWithDur)) by by destruct t.
  replace (push_machine t None) with (@None Z) by by destruct t.
  clearbody s. unfold AppendNonFtraceEvent, GetQueue, GetQueue_machine. cbn [set_buffer sorter_data_by_machine_]. rewrite Hs. cbn -[Append]. rewrite decide_True by done.
  cbn -[Append]. rewrite Hslow. destruct (Append Queue_new timestamp (token_type t) id (bool_decide (token_type t = kJsonValueWithDur))) as [q|] eqn:E; cbn.
  - split; [done|]. intros Hbad. enough (Append Queue_new timestamp (token_type t) id (bool_decide (token_type t = kJsonValueWithDur)) = None) by congruence.
    apply Append_new_None. by rewrite bool_decide_eq_true.
  - apply Append_new_None in E. rewrite bool_decide_eq_true in E. done.
Qed.

Lemma first_event_check_witness : exists s0, TraceSorter_new kDefault false = Some s0 /\ @push example_token_env s0 0 (TokJsonDur 5 [65]) None = None.
Proof.
  eexists. split; [vm_compute; reflexivity|]. apply (@first_event_check example_token_env ltac:(unfold TokenEnvOk; cbn; lia) kDefault); [reflexivity|done|by right].
Defined.
