(* ===== verification/BitWord.v ===== *)
(** * Words of a bit vector

    Models the classes [BitWord] and [ConstBitWord] of
    [src/trace_processor/containers/bit_vector.h] and the emulated PDEP, PEXT and
    TZCNT instructions of [bit_vector.cc]. A word is the value of a 64-bit integer;
    a failed [DCHECK] is [None].

    The reference for counting is [cnt f lo hi], the number of positions in
    [\[lo, hi)] where [f] holds; deposit and extract are given on lists of booleans.
    The broadword search for the n-th set bit is shown to find it. *)

From S2P Require Import Prelude.

(** ** Loops and vectors *)

Fixpoint iter_from {S} (n : nat) (i : Z) (f : Z -> S -> option S) (s : S) : option S :=
  match n with
  | O => Some s
  | Datatypes.S n => s ← f i s; iter_from n (i + 1) f s
  end.

(** [for (i = lo; i < hi; ++i)]. *)
Definition for_loop {S} (lo hi : Z) (f : Z -> S -> option S) (s : S) : option S :=
  iter_from (Z.to_nat (hi - lo)) lo f s.

Lemma for_loop_ind {S} (P : Z -> S -> Prop) lo hi f s :
  lo <= hi -> P lo s ->
  (forall i s, lo <= i < hi -> P i s -> exists s', f i s = Some s' /\ P (i + 1) s') ->
  exists s', for_loop lo hi f s = Some s' /\ P hi s'.
Proof.
  unfold for_loop. intros Hle. remember (Z.to_nat (hi - lo)) as n eqn:Hn.
  revert lo s Hle Hn. induction n as [|n IH]; intros lo s Hle Hn HP Hstep; simpl.
  - exists s. replace hi with lo by lia. done.
  - destruct (Hstep lo s) as (s1 & -> & H1); [lia|done|]. simpl.
    apply IH; [lia|lia|done|]. intros i s' Hi. apply Hstep. lia.
Qed.

(** Reading and writing an element; an index out of range is [None]. *)
Definition vec_get {A} (v : list A) (i : Z) : option A :=
  if 0 <=? i then v !! Z.to_nat i else None.
Definition vec_set {A} (v : list A) (i : Z) (x : A) : option (list A) :=
  if (0 <=? i) && (i <? Z.of_nat (length v)) then Some (<[Z.to_nat i := x]> v) else None.

Lemma vec_get_some {A} (v : list A) i : 0 <= i < Z.of_nat (length v) -> exists x, vec_get v i = Some x.
Proof.
  intros H. unfold vec_get. rewrite (proj2 (Z.leb_le _ _)) by lia.
  apply lookup_lt_is_Some_2. lia.
Qed.

Lemma vec_set_some {A} (v : list A) i x :
  0 <= i < Z.of_nat (length v) -> vec_set v i x = Some (<[Z.to_nat i := x]> v).
Proof.
  intros H. unfold vec_set.
  rewrite (proj2 (Z.leb_le _ _)), (proj2 (Z.ltb_lt _ _)) by lia. done.
Qed.

(** ** Words *)

Definition kBitsInWord : Z := 64.

(** [DEJAVIEW_POPCOUNT], through the number of positions where a predicate holds. *)
Fixpoint cnt_from (n : nat) (f : Z -> bool) (lo : Z) : Z :=
  match n with
  | O => 0
  | S n => (if f lo then 1 else 0) + cnt_from n f (lo + 1)
  end.
Definition cnt (f : Z -> bool) (lo hi : Z) : Z := cnt_from (Z.to_nat (hi - lo)) f lo.
Definition popcount (w : Z) : Z := cnt (Z.testbit w) 0 64.

Definition MaskAllBitsSetUntil (idx : Z) : Z :=
  let top := u64 (1 << ((idx + 1) mod kBitsInWord)) in
  let top := top >> (u32 (idx + 1) / kBitsInWord) in
  u64 (top - 1).

Definition Word_Or (w mask : Z) : Z := w .| mask.
Definition Word_And (w mask : Z) : Z := w .& mask.
Definition Word_Not (w : Z) : Z := u64 (Z.lnot w).
Definition Word_Set (w idx : Z) : option Z :=
  if idx <? kBitsInWord then Some (Word_Or w (u64 (1 << idx))) else None.
Definition Word_Clear (w idx : Z) : option Z :=
  if idx <? kBitsInWord then Some (w .& u64 (Z.lnot (u64 (1 << idx)))) else None.
Definition WordUntil (w idx : Z) : option Z :=
  if idx <? kBitsInWord then Some (w .& MaskAllBitsSetUntil idx) else None.
Definition Word_ClearAfter (w idx : Z) : option Z := WordUntil w idx.
Definition Word_SetRange (w start end_ : Z) : Z :=
  let diff := u32 (end_ - start) in
  w .| u64 (MaskAllBitsSetUntil diff << start).
Definition Word_IsSet (w idx : Z) : option bool :=
  if idx <? kBitsInWord then Some (negb ((w >> idx) .& 1 =? 0)) else None.
Definition Word_CountSetBits (w : Z) : Z := popcount w.
Definition Word_CountSetBitsUntil (w idx : Z) : option Z := popcount <$> WordUntil w idx.

(** The search for the n-th set bit, eight octets at a time. *)
Definition L8 : Z := 0x0101010101010101.
Definition H8 : Z := 0x8080808080808080.

Definition BwLessThan (x y : Z) : Z :=
  ((u64 ((y .| H8) - (x .& u64 (Z.lnot H8))) .^ x) .^ y) .& H8.
Definition BwGtZero (x : Z) : Z := (u64 ((x .| H8) - L8) .| x) .& H8.

Definition byte_sums (w : Z) : Z :=
  let s := u64 (w - ((w .& 0xAAAAAAAAAAAAAAAA) >> 1)) in
  let s := u64 ((s .& 0x3333333333333333) + ((s >> 2) .& 0x3333333333333333)) in
  u64 ((u64 (s + (s >> 4)) .& 0x0F0F0F0F0F0F0F0F) * L8).
Definition byte_of_nth (s n : Z) : Z :=
  (u64 ((BwLessThan s (u64 (n * L8)) >> 7) * L8) >> 53) .& u64 (Z.lnot 7).
Definition bit_of_nth (byte l : Z) : Z :=
  let s := u64 ((BwGtZero (u64 (byte * L8) .& 0x8040201008040201) >> 7) * L8) in
  u64 ((BwLessThan s (u64 (l * L8)) >> 7) * L8) >> 56.
Definition Word_IndexOfNthSet (w n : Z) : option Z :=
  if n <? kBitsInWord then
    let s := byte_sums w in
    let b := byte_of_nth s n in
    let l := u64 (n - ((u64 (s << 8) >> b) .& 0xFF)) in
    Some (u16 (u64 (b + bit_of_nth ((w >> b) .& 0xFF) l)))
  else None.

(** ** The emulated instructions *)

(** At most 64 bits of the mask are set, one is cleared in every round. *)
Fixpoint pdep_loop (fuel : nat) (bb word mask result : Z) : option Z :=
  if mask =? 0 then Some result else
  match fuel with
  | O => None
  | S fuel =>
      let result := if word .& bb =? 0 then result else result .| (mask .& u64 (0 - mask)) in
      pdep_loop fuel (u64 (bb + bb)) word (mask .& u64 (mask - 1)) result
  end.
Definition Pdep (word mask : Z) : option Z :=
  if (word =? 0) || (mask =? 2 ^ 64 - 1) then Some word else pdep_loop 64 1 word mask 0.

Fixpoint pext_loop (fuel : nat) (bb word mask result : Z) : option Z :=
  if mask =? 0 then Some result else
  match fuel with
  | O => None
  | S fuel =>
      let result := if (word .& mask) .& u64 (0 - mask) =? 0 then result else result .| bb in
      pext_loop fuel (u64 (bb + bb)) word (mask .& u64 (mask - 1)) result
  end.
Definition Pext (word mask : Z) : option Z :=
  if (word =? 0) || (mask =? 2 ^ 64 - 1) then Some word else pext_loop 64 1 word mask 0.

Fixpoint pos_tzcnt (p : positive) : Z :=
  match p with xO p => 1 + pos_tzcnt p | _ => 0 end.
Definition Tzcnt (value : Z) : Z := match value with Z.pos p => pos_tzcnt p | _ => 64 end.

(** ** Counting *)

Lemma cnt_from_add n m f lo : cnt_from (n + m) f lo = cnt_from n f lo + cnt_from m f (lo + Z.of_nat n).
Proof.
  revert lo. induction n as [|n IH]; intros lo; simpl; [rewrite Z.add_0_r; lia|].
  rewrite IH. replace (lo + 1 + Z.of_nat n) with (lo + Z.of_nat (S n)) by lia. lia.
Qed.

Lemma cnt_split f lo mid hi : lo <= mid <= hi -> cnt f lo hi = cnt f lo mid + cnt f mid hi.
Proof.
  intros H. unfold cnt.
  replace (Z.to_nat (hi - lo)) with (Z.to_nat (mid - lo) + Z.to_nat (hi - mid))%nat by lia.
  rewrite cnt_from_add. do 2 f_equal. lia.
Qed.

Lemma cnt_nil f lo hi : hi <= lo -> cnt f lo hi = 0.
Proof. intros H. unfold cnt. replace (Z.to_nat (hi - lo)) with 0%nat by lia. done. Qed.

Lemma cnt_cons f lo hi : lo < hi -> cnt f lo hi = (if f lo then 1 else 0) + cnt f (lo + 1) hi.
Proof. intros H. unfold cnt. replace (Z.to_nat (hi - lo)) with (S (Z.to_nat (hi - (lo + 1)))) by lia. done. Qed.

Lemma cnt_ext f g lo hi : (forall k, lo <= k < hi -> f k = g k) -> cnt f lo hi = cnt g lo hi.
Proof.
  unfold cnt. remember (Z.to_nat (hi - lo)) as n eqn:Hn. revert lo Hn.
  induction n as [|n IH]; intros lo Hn Hfg; simpl; [done|].
  rewrite Hfg by lia. f_equal. apply IH; [lia|]. intros k Hk. apply Hfg. lia.
Qed.

Lemma cnt_shift f d lo hi : cnt (fun k => f (k + d)) lo hi = cnt f (lo + d) (hi + d).
Proof.
  unfold cnt. replace (hi + d - (lo + d)) with (hi - lo) by lia.
  generalize (Z.to_nat (hi - lo)) as n. intros n. revert lo.
  induction n as [|n IH]; intros lo; simpl; [done|]. rewrite IH. do 2 f_equal. lia.
Qed.

Lemma cnt_bounds f lo hi : 0 <= cnt f lo hi <= Z.max 0 (hi - lo).
Proof.
  unfold cnt. replace (Z.max 0 (hi - lo)) with (Z.of_nat (Z.to_nat (hi - lo))) by lia.
  generalize (Z.to_nat (hi - lo)) as n. intros n. revert lo.
  induction n as [|n IH]; intros lo; simpl; [lia|].
  specialize (IH (lo + 1)). destruct (f lo); lia.
Qed.

Lemma cnt_zero f lo hi : (forall k, lo <= k < hi -> f k = false) -> cnt f lo hi = 0.
Proof.
  intros H. rewrite (cnt_ext f (fun _ => false)) by done. unfold cnt.
  generalize (Z.to_nat (hi - lo)) as n. intros n. clear. revert lo.
  induction n; intros lo; simpl; [done|]. rewrite IHn. done.
Qed.

Lemma cnt_ones f lo hi : lo <= hi -> (forall k, lo <= k < hi -> f k = true) -> cnt f lo hi = hi - lo.
Proof.
  intros Hle H. rewrite (cnt_ext f (fun _ => true)) by done. unfold cnt.
  rewrite <- (Z2Nat.id (hi - lo)) at 2 by lia.
  generalize (Z.to_nat (hi - lo)) as n. intros n. clear. revert lo.
  induction n; intros lo; simpl; [done|]. rewrite IHn. lia.
Qed.

Lemma cnt_mono f lo a b : a <= b -> cnt f lo a <= cnt f lo b.
Proof.
  intros H. destruct (decide (a < lo)).
  - rewrite (cnt_nil f lo a) by lia. apply cnt_bounds.
  - rewrite (cnt_split f lo a b) by lia. pose proof (cnt_bounds f a b). lia.
Qed.

(** ** The bits of words *)

Lemma testbit_add_pow2 a b n i :
  0 <= n -> 0 <= a < 2 ^ n -> 0 <= i ->
  Z.testbit (a + b * 2 ^ n) i = if i <? n then Z.testbit a i else Z.testbit b (i - n).
Proof.
  intros Hn Ha Hi. destruct (Z.ltb_spec i n).
  - rewrite <- (Z.mod_pow2_bits_low _ n i) by lia. rewrite Z.mod_add, Z.mod_small by lia. done.
  - replace i with (i - n + n) at 1 by lia. rewrite <- Z.div_pow2_bits by lia.
    rewrite Z.div_add, Z.div_small by lia. done.
Qed.

Lemma testbit_u64 z i : 0 <= i -> Z.testbit (u64 z) i = (i <? 64) && Z.testbit z i.
Proof.
  intros Hi. unfold u64. destruct (Z.ltb_spec i 64); simpl.
  - apply Z.mod_pow2_bits_low. lia.
  - apply Z.mod_pow2_bits_high. lia.
Qed.

Lemma testbit_u64_high w i : is_u64 w -> 64 <= i -> Z.testbit w i = false.
Proof.
  intros Hw Hi. rewrite <- (u64_id w) by done. rewrite testbit_u64 by lia.
  rewrite (proj2 (Z.ltb_ge i 64)) by lia. done.
Qed.

Lemma u64_of_bits z : (forall i, 0 <= i -> Z.testbit z i = Z.testbit (u64 z) i) -> is_u64 z.
Proof.
  intros H. replace z with (u64 z); [apply u64_range|].
  apply Z.bits_inj'. intros i Hi. symmetry. apply H. done.
Qed.

Lemma u64_lor a b : is_u64 a -> is_u64 b -> is_u64 (a .| b).
Proof. unfold is_u64. intros. apply lor_range; lia. Qed.

Lemma u64_land a b : is_u64 a -> is_u64 (a .& b).
Proof.
  intros Ha. apply u64_of_bits. intros i Hi.
  rewrite testbit_u64, Z.land_spec by done. destruct (Z.ltb_spec i 64); [done|].
  rewrite testbit_u64_high by done. done.
Qed.

Lemma u64_shiftr a n : 0 <= n -> is_u64 a -> is_u64 (a >> n).
Proof.
  intros Hn Ha. unfold is_u64 in *. rewrite shiftr_div by done. split; [apply Z.div_pos; lia|].
  apply Z.le_lt_trans with a; [|lia]. apply Z.div_le_upper_bound; nia.
Qed.

Lemma testbit_shift1 i j : 0 <= i -> 0 <= j -> Z.testbit (1 << i) j = (j =? i).
Proof.
  intros Hi Hj. rewrite Z.shiftl_1_l. rewrite Z.pow2_bits_eqb by done. apply Z.eqb_sym.
Qed.

#[export] Hint Resolve u64_lor u64_land u64_shiftr u64_range : dv.

Ltac bits :=
  repeat first
    [ rewrite Z.lor_spec | rewrite Z.land_spec | rewrite Z.lxor_spec
    | rewrite testbit_u64 by lia | rewrite Z.lnot_spec by lia | rewrite testbit_shift1 by lia
    | rewrite Z.shiftl_spec by lia | rewrite Z.shiftr_spec by lia | rewrite Z.bits_0 ].

Lemma MaskAllBitsSetUntil_ones idx : 0 <= idx < 64 -> MaskAllBitsSetUntil idx = Z.ones (idx + 1).
Proof.
  intros H. unfold MaskAllBitsSetUntil, kBitsInWord.
  rewrite (u32_id (idx + 1)) by (unfold is_u32; lia).
  rewrite Z.ones_equiv, <- Z.sub_1_r.
  destruct (decide (idx = 63)) as [->|]; [reflexivity|].
  rewrite Z.mod_small, Z.div_small, Z.shiftr_0_r, Z.shiftl_1_l by lia.
  assert (0 < 2 ^ (idx + 1) < 2 ^ 64) by (split; [apply Z.pow_pos_nonneg; lia|apply Z.pow_lt_mono_r; lia]).
  rewrite !u64_id by (unfold is_u64; lia || (rewrite u64_id by (unfold is_u64; lia); lia)). done.
Qed.

Lemma testbit_mask idx i : 0 <= idx < 64 -> 0 <= i -> Z.testbit (MaskAllBitsSetUntil idx) i = (i <=? idx).
Proof.
  intros H Hi. rewrite MaskAllBitsSetUntil_ones by done.
  destruct (Z.leb_spec i idx); [apply Z.ones_spec_low|apply Z.ones_spec_high]; lia.
Qed.

Lemma Word_Set_ok w idx : is_u64 w -> 0 <= idx < 64 ->
  exists w', Word_Set w idx = Some w' /\ is_u64 w' /\
    forall i, 0 <= i -> Z.testbit w' i = (i =? idx) || Z.testbit w i.
Proof.
  intros Hw Hi. unfold Word_Set, kBitsInWord, Word_Or. rewrite (proj2 (Z.ltb_lt idx 64)) by lia.
  eexists. split; [done|]. split; [auto with dv|]. intros i Hi'. bits.
  destruct (Z.eqb_spec i idx), (Z.ltb_spec i 64); try lia; destruct (Z.testbit w i); done.
Qed.

Lemma Word_Clear_ok w idx : is_u64 w -> 0 <= idx < 64 ->
  exists w', Word_Clear w idx = Some w' /\ is_u64 w' /\
    forall i, 0 <= i -> Z.testbit w' i = negb (i =? idx) && Z.testbit w i.
Proof.
  intros Hw Hi. unfold Word_Clear, kBitsInWord. rewrite (proj2 (Z.ltb_lt idx 64)) by lia.
  eexists. split; [done|]. split; [auto with dv|]. intros i Hi'. bits.
  destruct (Z.ltb_spec i 64); simpl; [destruct (i =? idx), (Z.testbit w i); done|].
  rewrite (testbit_u64_high w) by done. destruct (i =? idx); done.
Qed.

Lemma WordUntil_ok w idx : is_u64 w -> 0 <= idx < 64 ->
  exists w', WordUntil w idx = Some w' /\ is_u64 w' /\
    forall i, 0 <= i -> Z.testbit w' i = (i <=? idx) && Z.testbit w i.
Proof.
  intros Hw Hi. unfold WordUntil, kBitsInWord. rewrite (proj2 (Z.ltb_lt idx 64)) by lia.
  eexists. split; [done|]. split; [auto with dv|]. intros i Hi'. bits.
  rewrite testbit_mask by lia. apply andb_comm.
Qed.

Lemma Word_SetRange_ok w a b : is_u64 w -> 0 <= a <= b -> b < 64 ->
  is_u64 (Word_SetRange w a b) /\
  forall i, 0 <= i -> Z.testbit (Word_SetRange w a b) i = (a <=? i) && (i <=? b) || Z.testbit w i.
Proof.
  intros Hw Ha Hb. unfold Word_SetRange. rewrite (u32_id (b - a)) by (unfold is_u32; lia).
  split; [auto with dv|]. intros i Hi. bits.
  destruct (Z.leb_spec a i).
  - rewrite testbit_mask by lia.
    replace (i - a <=? b - a) with (i <=? b) by (apply Bool.eq_iff_eq_true; rewrite !Z.leb_le; lia).
    destruct (Z.leb_spec i b), (Z.ltb_spec i 64); try lia; destruct (Z.testbit w i); done.
  - rewrite (Z.testbit_neg_r _ (i - a)) by lia. rewrite andb_false_r. apply orb_false_r.
Qed.

Lemma Word_Not_ok w i : 0 <= i -> Z.testbit (Word_Not w) i = (i <? 64) && negb (Z.testbit w i).
Proof. intros Hi. unfold Word_Not. bits. done. Qed.

Lemma Word_IsSet_ok w idx : 0 <= idx < 64 -> Word_IsSet w idx = Some (Z.testbit w idx).
Proof.
  intros Hi. unfold Word_IsSet, kBitsInWord. rewrite (proj2 (Z.ltb_lt idx 64)) by lia. f_equal.
  change 1 with (Z.ones 1). rewrite land_ones_mod by lia. change (2 ^ 1) with 2.
  rewrite Zmod_odd, <- Z.bit0_odd, Z.shiftr_spec, Z.add_0_l by lia. destruct (Z.testbit w idx); done.
Qed.

Lemma popcount_bounds w : 0 <= popcount w <= 64.
Proof. pose proof (cnt_bounds (Z.testbit w) 0 64). unfold popcount. lia. Qed.

Lemma Word_CountSetBitsUntil_ok w idx : is_u64 w -> 0 <= idx < 64 ->
  Word_CountSetBitsUntil w idx = Some (cnt (Z.testbit w) 0 (idx + 1)).
Proof.
  intros Hw Hi. unfold Word_CountSetBitsUntil.
  destruct (WordUntil_ok w idx Hw Hi) as (w' & -> & _ & Hb). simpl. f_equal. unfold popcount.
  rewrite (cnt_split _ 0 (idx + 1) 64) by lia. rewrite (cnt_zero _ (idx + 1) 64).
  - rewrite Z.add_0_r. apply cnt_ext. intros k Hk. rewrite Hb by lia.
    rewrite (proj2 (Z.leb_le _ _)) by lia. done.
  - intros k Hk. rewrite Hb by lia. rewrite (proj2 (Z.leb_gt _ _)) by lia. done.
Qed.

(** ** Broadword arithmetic

    A word is the little-endian value of eight octets; operations that carry nothing
    across octets act on each of them. *)

Fixpoint octval (l : list Z) : Z :=
  match l with
  | [] => 0
  | x :: l => x + octval l * 256
  end.

Lemma octval_cons x l : octval (x :: l) = x + octval l * 2 ^ 8.
Proof. done. Qed.

Lemma octets_bitop (f : Z -> Z -> Z) (g : bool -> bool -> bool) :
  (forall a b i, Z.testbit (f a b) i = g (Z.testbit a i) (Z.testbit b i)) -> g false false = false ->
  (forall a b, is_u8 a -> is_u8 b -> is_u8 (f a b)) ->
  forall l m, bytes_ok l -> bytes_ok m -> length l = length m ->
  f (octval l) (octval m) = octval (zip_with f l m).
Proof.
  intros Hf Hg Hr. unfold bytes_ok.
  induction l as [|x l IH]; intros [|y m] Hl Hm Hlen; try done.
  - apply Z.bits_inj'. intros i Hi. rewrite Hf. simpl. rewrite Z.bits_0. done.
  - apply Forall_cons in Hl as [Hx Hl], Hm as [Hy Hm]. simpl zip_with.
    rewrite !octval_cons, <- IH by (done || simpl in Hlen; lia).
    pose proof (Hr x y Hx Hy). unfold is_u8 in *.
    apply Z.bits_inj'. intros i Hi. rewrite Hf, !testbit_add_pow2, Hf by lia.
    destruct (i <? 8); rewrite ?Hf; done.
Qed.

Lemma is_u8_land a b : is_u8 a -> is_u8 b -> is_u8 (a .& b).
Proof.
  intros Ha Hb. unfold is_u8 in *. split; [apply Z.land_nonneg; lia|].
  destruct (decide (a .& b = 0)) as [->|]; [lia|].
  assert (0 <= a .& b) by (apply Z.land_nonneg; lia).
  apply Z.log2_lt_pow2; [lia|]. pose proof (Z.log2_land a b ltac:(lia) ltac:(lia)).
  assert (a <> 0) by (intros ->; rewrite Z.land_0_l in *; lia).
  pose proof (proj1 (Z.log2_lt_pow2 a 8 ltac:(lia)) ltac:(lia)). lia.
Qed.

Lemma is_u8_lor a b : is_u8 a -> is_u8 b -> is_u8 (a .| b).
Proof. unfold is_u8. intros. apply lor_range; lia. Qed.

Lemma is_u8_lxor a b : is_u8 a -> is_u8 b -> is_u8 (a .^ b).
Proof.
  intros Ha Hb. replace (a .^ b) with (u8 (a .^ b)); [apply u8_range|].
  rewrite <- (u8_id a), <- (u8_id b) at 2 by done. unfold u8.
  apply Z.bits_inj'. intros i Hi. rewrite Z.lxor_spec.
  destruct (decide (i < 8)).
  - rewrite !Z.mod_pow2_bits_low, Z.lxor_spec by lia. done.
  - rewrite !Z.mod_pow2_bits_high by lia. done.
Qed.

Definition octets_land := octets_bitop Z.land andb Z.land_spec eq_refl is_u8_land.
Definition octets_lor := octets_bitop Z.lor orb Z.lor_spec eq_refl is_u8_lor.
Definition octets_lxor := octets_bitop Z.lxor xorb Z.lxor_spec eq_refl is_u8_lxor.

(** A shift whose bits that come from the next octet are masked off. *)
Lemma octets_shiftr_land k l m :
  0 <= k <= 8 -> bytes_ok l -> Forall (fun y => 0 <= y < 2 ^ (8 - k)) m -> length l = length m ->
  (octval l >> k) .& octval m = octval (zip_with (fun x y => (x >> k) .& y) l m).
Proof.
  intros Hk. revert m. unfold bytes_ok.
  induction l as [|x l IH]; intros [|y m] Hl Hm Hlen; try done.
  - simpl. apply Z.land_0_r.
  - apply Forall_cons in Hl as [Hx Hl], Hm as [Hy Hm]. simpl zip_with.
    assert (2 ^ (8 - k) <= 2 ^ 8) by (apply Z.pow_le_mono_r; lia).
    rewrite !octval_cons, <- IH by (done || simpl in Hlen; lia).
    assert (is_u8 ((x >> k) .& y)) as Hxy.
    { apply is_u8_land; unfold is_u8 in *; [|lia]. rewrite shiftr_div by lia.
      assert (1 <= 2 ^ k) by (apply (Z.pow_le_mono_r 2 0); lia).
      split; [apply Z.div_pos; lia|]. apply Z.le_lt_trans with x; [|lia]. apply Z.div_le_upper_bound; nia. }
    unfold is_u8 in *. apply Z.bits_inj'. intros i Hi.
    rewrite Z.land_spec, Z.shiftr_spec, !testbit_add_pow2 by lia.
    destruct (Z.ltb_spec i 8); rewrite Z.land_spec, Z.shiftr_spec by lia.
    + destruct (Z.ltb_spec (i + k) 8); [done|].
      rewrite <- (Z.mod_small y (2 ^ (8 - k))), Z.mod_pow2_bits_high by lia. rewrite !andb_false_r. done.
    + rewrite (proj2 (Z.ltb_ge (i + k) 8)) by lia. do 2 f_equal. lia.
Qed.

Lemma octets_get l (i : nat) x : bytes_ok l -> l !! i = Some x -> (octval l >> (8 * Z.of_nat i)) .& 0xFF = x.
Proof.
  unfold bytes_ok. revert i. induction l as [|y l IH]; intros [|i] Hl Hi; try done;
    apply Forall_cons in Hl as [Hy Hl]; rewrite octval_cons, land_ff, shiftr_div by lia.
  - injection Hi as ->. rewrite Z.div_1_r. unfold is_u8 in Hy. rewrite Z.mod_add, Z.mod_small by lia. done.
  - rewrite <- (IH i Hl Hi), land_ff, shiftr_div by lia.
    replace (8 * Z.of_nat (S i)) with (8 + 8 * Z.of_nat i) by lia.
    rewrite Z.pow_add_r, <- Z.div_div by lia. unfold is_u8 in Hy.
    rewrite Z.div_add, (Z.div_small y), Z.add_0_l by lia. done.
Qed.

(** The eight octets of a word. *)
Lemma octets_of_word w : is_u64 w -> octval (le_bytes 8 w) = w.
Proof.
  intros Hw. simpl. rewrite !shiftr_div by lia. change (2 ^ 8) with 256. divlia.
Qed.

(** Running sums; a product with [L8] has them in its octets. *)
Fixpoint sums (a : Z) (l : list Z) : list Z :=
  match l with
  | [] => []
  | x :: l => a + x :: sums (a + x) l
  end.

Ltac eight l := do 8 (destruct l as [|? l]; [done|]); destruct l; [|done].

Lemma octets_sums l : length l = 8%nat -> Forall (fun x => 0 <= x <= 8) l -> u64 (octval l * L8) = octval (sums 0 l).
Proof.
  intros Hlen H. destruct l as [|a [|b [|c [|d [|e [|f [|g [|h [|? ?]]]]]]]]]; try done.
  rewrite !Forall_cons in H. unfold L8, u64. simpl. change (2 ^ 64) with 18446744073709551616.
  symmetry. apply (Z.mod_unique _ _ (octval [b + c + d + e + f + g + h; c + d + e + f + g + h;
    d + e + f + g + h; e + f + g + h; f + g + h; g + h; h])); simpl octval; lia.
Qed.

Lemma octval_u64 l : bytes_ok l -> length l = 8%nat -> is_u64 (octval l).
Proof.
  unfold bytes_ok. intros Hl Hlen. eight l.
  rewrite !Forall_cons in Hl. unfold_u. simpl. lia.
Qed.

(** A property of all octets, checked on each of them. *)
Lemma all_octets (P : Z -> Prop) `{!forall x, Decision (P x)} :
  forallb (fun x => bool_decide (P x)) (seqZ 0 256) = true -> forall x, is_u8 x -> P x.
Proof.
  intros Hall x Hx. rewrite forallb_forall in Hall. apply (bool_decide_eq_true (P x)), Hall.
  apply list_elem_of_In, elem_of_seqZ. unfold is_u8 in Hx. lia.
Qed.

(** The steps of the parallel count on an octet. *)
Definition pairs (x : Z) : Z := x - ((x >> 1) .& 0x55).
Definition nibbles (x : Z) : Z := (pairs x .& 0x33) + ((pairs x >> 2) .& 0x33).
Definition ones8 (x : Z) : Z := cnt (Z.testbit x) 0 8.

Lemma pairs_u8 x : is_u8 x -> is_u8 (pairs x).
Proof. revert x. apply (all_octets (fun x => is_u8 (pairs x))). vm_compute. done. Qed.

Lemma nibbles_ok x : is_u8 x ->
  is_u8 (nibbles x) /\ nibbles x mod 16 <= 4 /\ nibbles x / 16 <= 4 /\ nibbles x mod 16 + nibbles x / 16 = ones8 x.
Proof.
  revert x. apply (all_octets (fun x => is_u8 (nibbles x) /\ nibbles x mod 16 <= 4 /\ nibbles x / 16 <= 4 /\
    nibbles x mod 16 + nibbles x / 16 = ones8 x)). vm_compute. done.
Qed.

Lemma ones8_bounds x : 0 <= ones8 x <= 8.
Proof. apply (cnt_bounds (Z.testbit x) 0 8). Qed.

(** The sum of the two nibbles of every octet. *)
Lemma octets_add_nibbles l :
  Forall (fun y => is_u8 y /\ y mod 16 <= 4 /\ y / 16 <= 4) l ->
  (octval l + (octval l >> 4)) .& octval (replicate (length l) 0x0F) =
  octval ((fun y => y mod 16 + y / 16) <$> l).
Proof.
  induction l as [|x l IH]; intros Hl; [done|].
  apply Forall_cons in Hl as [(Hx & Hlo & Hhi) Hl]. unfold is_u8 in Hx.
  assert (0 <= octval l mod 16 <= 4) as Hm.
  { destruct l as [|y l]; [split; vm_compute; done|]. apply Forall_cons in Hl as [(Hy & ? & _) _].
    rewrite octval_cons. unfold is_u8 in Hy. divlia. }
  simpl length. simpl replicate. rewrite fmap_cons, !octval_cons, <- IH by done.
  set (T := octval l) in *. rewrite !shiftr_div by lia.
  replace (x + T * 2 ^ 8 + (x + T * 2 ^ 8) / 2 ^ 4)
    with ((x + x / 16 + 16 * (T mod 16)) + (T + T / 2 ^ 4) * 2 ^ 8)
    by (change (2 ^ 8) with 256; change (2 ^ 4) with 16; divlia).
  replace (x mod 16 + x / 16) with ((x + x / 16 + 16 * (T mod 16)) .& 0x0F)
    by (change 0x0F with (Z.ones 4); rewrite land_ones_mod by lia; change (2 ^ 4) with 16; divlia).
  assert (is_u8 (x + x / 16 + 16 * (T mod 16))) as Hs by (unfold_u; divlia).
  apply Z.bits_inj'. intros i Hi. pose proof (is_u8_land _ 0x0F Hs ltac:(unfold is_u8; lia)) as Hs'.
  unfold is_u8 in *. rewrite Z.land_spec, !testbit_add_pow2 by lia.
  destruct (i <? 8); rewrite Z.land_spec; done.
Qed.

Lemma octval_fmap_sub (f g : Z -> Z) l : octval (f <$> l) - octval (g <$> l) = octval ((fun x => f x - g x) <$> l).
Proof. induction l as [|x l IH]; [done|]. rewrite !fmap_cons, !octval_cons, <- IH. lia. Qed.

Lemma octval_fmap_add (f g : Z -> Z) l : octval (f <$> l) + octval (g <$> l) = octval ((fun x => f x + g x) <$> l).
Proof. induction l as [|x l IH]; [done|]. rewrite !fmap_cons, !octval_cons, <- IH. lia. Qed.

Lemma bytes_ok_fmap (f : Z -> Z) l : (forall x, is_u8 x -> is_u8 (f x)) -> bytes_ok l -> bytes_ok (f <$> l).
Proof. unfold bytes_ok. intros Hf Hl. rewrite Forall_fmap. eapply Forall_impl; [done|]. exact Hf. Qed.

Lemma zip_with_const (f : Z -> Z -> Z) c l : zip_with f l (replicate (length l) c) = (fun x => f x c) <$> l.
Proof. induction l as [|x l IH]; [done|]. simpl. rewrite IH. done. Qed.

Lemma octets_land_const n c l : length l = n -> is_u8 c -> bytes_ok l ->
  octval l .& octval (replicate n c) = octval ((fun x => x .& c) <$> l).
Proof.
  intros <- Hc Hl. rewrite octets_land, zip_with_const by (rewrite ?length_replicate; try done; by apply Forall_replicate).
  done.
Qed.

Lemma octets_shiftr_land_const n k c l : length l = n -> 0 <= k <= 8 -> 0 <= c < 2 ^ (8 - k) -> bytes_ok l ->
  (octval l >> k) .& octval (replicate n c) = octval ((fun x => (x >> k) .& c) <$> l).
Proof.
  intros <- Hk Hc Hl. rewrite octets_shiftr_land, (zip_with_const (fun x y => (x >> k) .& y))
    by (rewrite ?length_replicate; try done; by apply Forall_replicate). done.
Qed.

Lemma u64_land_l z m : is_u64 m -> u64 z .& m = z .& m.
Proof.
  intros Hm. apply Z.bits_inj'. intros i Hi. bits. destruct (Z.ltb_spec i 64); [done|].
  rewrite (testbit_u64_high m) by done. rewrite !andb_false_r. done.
Qed.

Lemma byte_sums_ok w : is_u64 w -> byte_sums w = octval (sums 0 (ones8 <$> le_bytes 8 w)).
Proof.
  intros Hw. pose proof (le_bytes_ok 8 w) as Hl. pose proof (octets_of_word w Hw) as Hv.
  assert (length (le_bytes 8 w) = 8%nat) as Hlen by done.
  generalize dependent (le_bytes 8 w). intros l Hl <- Hlen. unfold byte_sums.
  rewrite Z.shiftr_land. change (0xAAAAAAAAAAAAAAAA >> 1) with (octval (replicate 8 0x55)).
  change 0x3333333333333333 with (octval (replicate 8 0x33)).
  change 0x0F0F0F0F0F0F0F0F with (octval (replicate 8 0x0F)).
  rewrite octets_shiftr_land_const by (done || lia).
  rewrite <- (list_fmap_id l) at 1 3 5 7. rewrite octval_fmap_sub.
  change (fun x => id x - ((x >> 1) .& 0x55)) with pairs.
  pose proof (bytes_ok_fmap pairs l pairs_u8 Hl) as Hp.
  assert (length (pairs <$> l) = 8%nat) as Hplen by (by rewrite length_fmap).
  rewrite (u64_id (octval (pairs <$> l))) by (by apply octval_u64).
  rewrite octets_land_const, octets_shiftr_land_const by (done || (unfold is_u8; lia)).
  rewrite <- !list_fmap_compose, octval_fmap_add.
  change (fun x => _) with nibbles.
  assert (Forall (fun y => is_u8 y /\ y mod 16 <= 4 /\ y / 16 <= 4) (nibbles <$> l)) as Hn.
  { rewrite Forall_fmap. eapply Forall_impl; [exact Hl|]. intros x Hx. destruct (nibbles_ok x Hx) as (? & ? & ? & _). done. }
  assert (length (nibbles <$> l) = 8%nat) as Hnlen by (by rewrite length_fmap).
  rewrite (u64_id (octval (nibbles <$> l))) by (apply octval_u64; [eapply Forall_impl; [exact Hn|by intros ? [? _]]|done]).
  rewrite u64_land_l by (apply octval_u64; [by apply Forall_replicate|done]).
  rewrite <- Hnlen at 1. rewrite octets_add_nibbles, <- list_fmap_compose by done.
  rewrite (list_fmap_ext _ ones8).
  - apply octets_sums; [by rewrite length_fmap|]. rewrite Forall_fmap. eapply Forall_impl; [exact Hl|].
    intros x _. apply ones8_bounds.
  - intros i x Hx. apply nibbles_ok. exact (Forall_lookup_1 _ _ _ _ Hl Hx).
Qed.

Lemma octval_const n c (l : list Z) : length l = n -> octval (replicate n c) = octval ((fun _ => c) <$> l).
Proof. intros <-. induction l as [|x l IH]; [done|]. simpl. rewrite IH. done. Qed.

(** An operator of words on octets that are functions of those of [l]. *)
Lemma octets_fmap op (f g : Z -> Z) l :
  (forall l m, bytes_ok l -> bytes_ok m -> length l = length m -> op (octval l) (octval m) = octval (zip_with op l m)) ->
  Forall (fun x => is_u8 (f x) /\ is_u8 (g x)) l ->
  op (octval (f <$> l)) (octval (g <$> l)) = octval ((fun x => op (f x) (g x)) <$> l).
Proof.
  intros Hop Hl. rewrite Hop.
  - f_equal. clear. induction l as [|x l IH]; [done|]. cbn. f_equal. exact IH.
  - unfold bytes_ok. rewrite Forall_fmap. eapply Forall_impl; [exact Hl|]. by intros x [? _].
  - unfold bytes_ok. rewrite Forall_fmap. eapply Forall_impl; [exact Hl|]. by intros x [_ ?].
  - rewrite !length_fmap. done.
Qed.

Lemma octval_fmap_u64 (f : Z -> Z) l : length l = 8%nat -> Forall (fun x => is_u8 (f x)) l -> is_u64 (octval (f <$> l)).
Proof. intros Hlen Hl. apply octval_u64; [by apply Forall_fmap|by rewrite length_fmap]. Qed.

Lemma BwLessThan_octet c n : 0 <= c < 128 -> 0 <= n < 128 ->
  (((((n .| 0x80) - (c .& 0x7F)) .^ c) .^ n) .& 0x80) = 128 * (if c <=? n then 1 else 0).
Proof.
  intros Hc Hn. cut (forall c, is_u8 c -> Forall (fun n => c < 128 ->
    (((((n .| 0x80) - (c .& 0x7F)) .^ c) .^ n) .& 0x80) = 128 * (if c <=? n then 1 else 0)) (seqZ 0 128)).
  - intros H. specialize (H c ltac:(unfold is_u8; lia)). rewrite Forall_forall in H.
    apply H; [apply elem_of_seqZ|]; lia.
  - apply (all_octets _). vm_compute. done.
Qed.

Lemma shiftr_octval_scale k (f : Z -> Z) l : 0 <= k ->
  octval ((fun x => 2 ^ k * f x) <$> l) >> k = octval (f <$> l).
Proof.
  intros Hk. replace (octval _) with (octval (f <$> l) * 2 ^ k).
  - rewrite shiftr_div, Z.div_mul by lia. done.
  - induction l as [|x l IH]; [done|]. rewrite !fmap_cons, !octval_cons, <- IH. lia.
Qed.

Lemma BwLessThan_octets l n :
  length l = 8%nat -> Forall (fun c => 0 <= c < 128) l -> 0 <= n < 128 ->
  BwLessThan (octval l) (u64 (n * L8)) >> 7 = octval ((fun c => if c <=? n then 1 else 0) <$> l).
Proof.
  intros Hlen Hl Hn. unfold BwLessThan.
  assert (forall P : Z -> Prop, (forall c, 0 <= c < 128 -> P c) -> Forall P l) as Hall.
  { intros P HP. eapply Forall_impl; [exact Hl|]. exact HP. }
  replace (n * L8) with (octval ((fun _ => n) <$> l)) by (rewrite <- (octval_const 8) by done; unfold L8; simpl; lia).
  change (u64 (Z.lnot H8)) with (octval (replicate 8 0x7F)). change H8 with (octval (replicate 8 0x80)).
  rewrite (octval_const 8 0x7F l), (octval_const 8 0x80 l) by done.
  rewrite (u64_id (octval ((fun _ => n) <$> l))) by (apply octval_fmap_u64; [done|]; apply Hall; unfold is_u8; lia).
  replace (octval l) with (octval (id <$> l)) by (by rewrite list_fmap_id).
  assert (forall c, 0 <= c < 128 -> (n .| 0x80) - (id c .& 0x7F) = n + 128 - c) as Harith.
  { intros c Hc. rewrite lor_80 by lia. rewrite land_7f. unfold id. rewrite !Z.mod_small by lia. done. }
  rewrite (octets_fmap Z.lor), (octets_fmap Z.land), octval_fmap_sub
    by (apply octets_lor || apply octets_land || (apply Hall; unfold is_u8, id; lia)).
  rewrite (list_fmap_ext _ (fun x => n + 128 - x) l)
    by (intros i x Hx; apply Harith, (Forall_lookup_1 _ _ _ _ Hl Hx)).
  rewrite u64_id by (apply octval_fmap_u64; [done|]; apply Hall; unfold is_u8; lia).
  assert (forall c, 0 <= c < 128 -> is_u8 ((n + 128 - c) .^ c)) by (intros; apply is_u8_lxor; unfold is_u8; lia).
  rewrite (octets_fmap Z.lxor) by (apply octets_lxor || (apply Hall; unfold is_u8, id; lia)).
  rewrite (octets_fmap Z.lxor) by (apply octets_lxor || (apply Hall; intros; split; [auto|unfold is_u8; lia])).
  rewrite (octets_fmap Z.land)
    by (apply octets_land || (apply Hall; intros; split; [apply is_u8_lxor; [auto|]|]; unfold is_u8; lia)).
  rewrite <- (shiftr_octval_scale 7 (fun c => if c <=? n then 1 else 0)) by lia. do 2 f_equal. apply list_fmap_ext. intros i c Hc.
  pose proof (Forall_lookup_1 _ _ _ _ Hl Hc) as Hc'. simpl in Hc'. rewrite <- Harith by done.
  apply BwLessThan_octet; done.
Qed.

Lemma shiftl_octets l : length l = 8%nat -> bytes_ok l -> u64 (octval l << 8) = octval (take 8 (0 :: l)).
Proof.
  intros Hlen Hl. unfold bytes_ok in Hl. destruct l as [|a [|b [|c [|d [|e [|f [|g [|h [|? ?]]]]]]]]]; try done.
  rewrite !Forall_cons in Hl. rewrite shiftl_mul by lia. unfold_u. change (2 ^ 8) with 256. simpl.
  symmetry. apply (Z.mod_unique _ _ h); lia.
Qed.

Definition total (l : list Z) : Z := foldr Z.add 0 l.

Lemma total_bounds k l : Forall (fun x => 0 <= x <= k) l -> 0 <= total l <= k * Z.of_nat (length l).
Proof. induction 1; simpl length; unfold total in *; simpl; lia. Qed.

Lemma sums_bounds k l a : 0 <= a -> Forall (fun x => 0 <= x <= k) l ->
  Forall (fun c => a <= c <= a + k * Z.of_nat (length l)) (sums a l).
Proof.
  intros Ha Hl. revert a Ha. induction Hl as [|x l Hx Hl IH]; intros a Ha; simpl; constructor.
  - nia.
  - eapply Forall_impl; [apply IH; lia|]. intros c Hc. simpl in Hc. nia.
Qed.

Lemma length_sums a l : length (sums a l) = length l.
Proof. revert a. induction l; intros; simpl; auto. Qed.

(** Counting the running sums up to [n] finds the element that takes them above it. *)
Lemma count_sums n l a : Forall (fun x => 0 <= x) l -> a <= n < a + total l ->
  exists (t : nat) x b, total ((fun c => if c <=? n then 1 else 0) <$> sums a l) = Z.of_nat t /\
    l !! t = Some x /\ (a :: sums a l) !! t = Some b /\ b = a + total (take t l) /\ b <= n < b + x.
Proof.
  revert a. induction l as [|x l IH]; intros a Hl Hn; [unfold total in Hn; simpl in Hn; lia|].
  apply Forall_cons in Hl as [Hx Hl]. change (total (x :: l)) with (x + total l) in Hn. simpl sums.
  destruct (decide (a + x <= n)) as [Hle|Hgt].
  - destruct (IH (a + x) Hl ltac:(lia)) as (t & y & b & Ht & Hy & Hb & Hbt & Hbn).
    exists (S t), y, b. rewrite fmap_cons. unfold total in *. simpl. rewrite (proj2 (Z.leb_le _ _)) by done.
    split; [lia|]. split_and!; try done; lia.
  - exists 0%nat, x, a. simpl. split; [|split_and!; try done; unfold total; simpl; lia].
    unfold total. simpl. rewrite (proj2 (Z.leb_gt (a + x) n)) by lia.
    assert (forall c, n < c -> total ((fun c => if c <=? n then 1 else 0) <$> sums c l) = 0) as H0.
    { clear -Hl. induction Hl as [|y l Hy Hl IH]; intros c Hc; [done|]. unfold total in *. simpl.
      rewrite (proj2 (Z.leb_gt _ _)) by lia. apply IH. lia. }
    apply H0. lia.
Qed.

Lemma byte_of_nth_ok s n : length s = 8%nat -> Forall (fun c => 0 <= c <= 64) s -> 0 <= n < 64 ->
  total ((fun c => if c <=? n then 1 else 0) <$> s) < 8 ->
  byte_of_nth (octval s) n = 8 * total ((fun c => if c <=? n then 1 else 0) <$> s).
Proof.
  intros Hlen Hs Hn Ht. unfold byte_of_nth.
  rewrite BwLessThan_octets by (done || lia || (eapply Forall_impl; [exact Hs|]; simpl; lia)).
  set (e := (fun c => if c <=? n then 1 else 0) <$> s) in *.
  assert (Forall (fun x => 0 <= x <= 1) e) as He.
  { apply Forall_fmap, Forall_true. intros c. simpl. destruct (c <=? n); lia. }
  assert (length e = 8%nat) as Hle by (by unfold e; rewrite length_fmap).
  rewrite octets_sums by (done || (eapply Forall_impl; [exact He|]; simpl; lia)).
  generalize dependent e. clear. intros e Ht He Hle.
  destruct e as [|a [|b [|c [|d [|e [|f [|g [|h [|? ?]]]]]]]]]; try done. rewrite !Forall_cons in He.
  unfold total in *. simpl in *. set (T := a + (b + (c + (d + (e + (f + (g + (h + 0)))))))) in *.
  match goal with |- context [?r >> 53] => set (R := r) end. assert (0 <= R - T * 2 ^ 56 < 2 ^ 56) as Hr
    by (unfold R, T; change (2 ^ 56) with 72057594037927936; lia).
  assert (R / 2 ^ 53 / 8 = T) as HT.
  { rewrite Z.div_div by lia. change (2 ^ 53 * 8) with (2 ^ 56). symmetry.
    apply (Z.div_unique _ _ _ (R - T * 2 ^ 56)); lia. }
  rewrite shiftr_div, <- HT by lia.
  apply (all_octets (fun y => y .& u64 (Z.lnot 7) = 8 * (y / 8))); [vm_compute; done|].
  unfold is_u8. assert (0 <= T) by (unfold T; lia).
  generalize dependent (R / 2 ^ 53). intros y Hy. divlia.
Qed.

Definition bit_of_nth_check (x l : Z) : bool :=
  let i := bit_of_nth x l in
  (ones8 x <=? l) || (0 <=? i) && (i <? 8) && Z.testbit x i && (cnt (Z.testbit x) 0 i =? l).

Lemma bit_of_nth_checked : forallb (fun x => forallb (bit_of_nth_check x) (seqZ 0 8)) (seqZ 0 256) = true.
Proof. vm_compute. reflexivity. Qed.

Lemma bit_of_nth_ok x l : is_u8 x -> 0 <= l < ones8 x ->
  0 <= bit_of_nth x l < 8 /\ Z.testbit x (bit_of_nth x l) = true /\ cnt (Z.testbit x) 0 (bit_of_nth x l) = l.
Proof.
  intros Hx Hl. pose proof (ones8_bounds x) as Hb. unfold is_u8 in Hx.
  pose proof bit_of_nth_checked as H. rewrite forallb_forall in H.
  specialize (H x ltac:(apply list_elem_of_In, elem_of_seqZ; lia)). cbv beta in H.
  rewrite forallb_forall in H. specialize (H l ltac:(apply list_elem_of_In, elem_of_seqZ; lia)).
  unfold bit_of_nth_check in H. rewrite (proj2 (Z.leb_gt _ _)) in H by lia. rewrite orb_false_l in H.
  rewrite !andb_true_iff, Z.leb_le, Z.ltb_lt, Z.eqb_eq in H. tauto.
Qed.

Lemma le_bytes_testbit n w (t : nat) x k : le_bytes n w !! t = Some x -> 0 <= k < 8 ->
  Z.testbit x k = Z.testbit w (8 * Z.of_nat t + k).
Proof.
  revert w t. induction n as [|n IH]; intros w t Hx Hk; [done|]. destruct t as [|t]; simpl in Hx.
  - injection Hx as <-. unfold u8. apply Z.mod_pow2_bits_low. lia.
  - rewrite (IH _ _ Hx Hk), Z.shiftr_spec by lia. f_equal. lia.
Qed.

Lemma cnt_le_bytes n w (t : nat) : (t <= n)%nat ->
  cnt (Z.testbit w) 0 (8 * Z.of_nat t) = total (take t (ones8 <$> le_bytes n w)).
Proof.
  revert w t. induction n as [|n IH]; intros w t Ht; [replace t with 0%nat by lia; done|].
  destruct t as [|t]; [done|]. change (take _ _) with (ones8 (u8 w) :: take t (ones8 <$> le_bytes n (w >> 8))).
  change (total (_ :: ?l)) with (ones8 (u8 w) + total l). rewrite <- IH by lia.
  rewrite (cnt_split _ 0 8) by lia. unfold ones8. f_equal.
  - apply cnt_ext. intros k Hk. symmetry. apply Z.mod_pow2_bits_low. lia.
  - rewrite (cnt_ext (Z.testbit (w >> 8)) (fun k => Z.testbit w (k + 8))), cnt_shift
      by (intros k Hk; rewrite Z.shiftr_spec by lia; done).
    f_equal. lia.
Qed.

(** The search finds the n-th set bit of a word. *)
Lemma Word_IndexOfNthSet_ok w n : is_u64 w -> 0 <= n < popcount w ->
  exists i, Word_IndexOfNthSet w n = Some i /\ 0 <= i < 64 /\ Z.testbit w i = true /\ cnt (Z.testbit w) 0 i = n.
Proof.
  intros Hw Hn. pose proof (popcount_bounds w) as Hpc. unfold Word_IndexOfNthSet, kBitsInWord.
  rewrite (proj2 (Z.ltb_lt n 64)) by lia. rewrite byte_sums_ok by done.
  set (ps := ones8 <$> le_bytes 8 w).
  assert (Forall (fun x => 0 <= x <= 8) ps) as Hps.
  { apply Forall_fmap, Forall_true. intros x. apply ones8_bounds. }
  assert (popcount w = total ps) as Htot by exact (cnt_le_bytes 8 w 8 ltac:(lia)).
  destruct (count_sums n ps 0) as (t & p & b & Ht & Hp & Hb & Hbt & Hbn);
    [eapply Forall_impl; [exact Hps|]; simpl; lia|lia|].
  assert (0 <= b) as Hb0 by (pose proof (total_bounds 8 (take t ps) (Forall_take _ _ _ Hps)); lia).
  assert (t < 8)%nat as Ht8 by (apply lookup_lt_Some in Hp; done).
  assert (Forall (fun c => 0 <= c <= 64) (sums 0 ps)) as Hs by exact (sums_bounds 8 ps 0 ltac:(lia) Hps).
  rewrite byte_of_nth_ok, Ht by (done || lia).
  rewrite shiftl_octets by (done || (eapply Forall_impl; [exact Hs|]; unfold is_u8; simpl; lia)).
  unfold ps in Hp. rewrite list_lookup_fmap_Some in Hp. destruct Hp as (x & -> & Hx).
  rewrite (octets_get _ t b); cycle 1.
  { apply Forall_take. constructor; [unfold is_u8; lia|]. eapply Forall_impl; [exact Hs|]. unfold is_u8; simpl; lia. }
  { rewrite lookup_take_lt by done. exact Hb. }
  pose proof (octets_get _ t x (le_bytes_ok 8 w) Hx) as Hg. rewrite octets_of_word in Hg by done. rewrite Hg.
  assert (is_u8 x) as Hx8 by exact (Forall_lookup_1 _ _ _ _ (le_bytes_ok 8 w) Hx).
  rewrite (u64_id (n - b)) by (unfold is_u64; lia).
  destruct (bit_of_nth_ok x (n - b) Hx8 ltac:(lia)) as (Hi & Hbit & Hcnt).
  rewrite (u64_id (_ + _)) by (unfold is_u64; lia). rewrite u16_id by (unfold is_u16; lia).
  eexists. split; [done|]. split; [lia|]. rewrite <- (le_bytes_testbit 8 w t x) by done.
  split; [done|]. rewrite (cnt_split _ 0 (8 * Z.of_nat t)), (cnt_le_bytes 8) by lia. fold ps.
  set (j := bit_of_nth x (n - b)) in *.
  replace (cnt _ (8 * Z.of_nat t) (8 * Z.of_nat t + j)) with (cnt (Z.testbit x) 0 j); [lia|].
  rewrite (cnt_ext _ (fun k => Z.testbit w (k + 8 * Z.of_nat t))), cnt_shift; [f_equal; lia|].
  intros k Hk. rewrite (le_bytes_testbit 8 w t x) by (done || lia). f_equal. lia.
Qed.

(** ** Lists of bits *)

Fixpoint zb (l : list bool) : Z :=
  match l with
  | [] => 0
  | b :: l => Z.b2z b + 2 * zb l
  end.
Fixpoint nbits (n : nat) (w : Z) : list bool :=
  match n with
  | O => []
  | S n => Z.odd w :: nbits n (w / 2)
  end.
Definition wbits (w : Z) : list bool := nbits 64 w.
#[global] Arguments wbits : simpl never.

(** Deposit and extract. *)
Fixpoint dep (v : Z) (mask : list bool) : list bool :=
  match mask with
  | [] => []
  | m :: mask => if m then Z.odd v :: dep (v / 2) mask else false :: dep v mask
  end.
Fixpoint ext (l mask : list bool) : list bool :=
  match l, mask with
  | b :: l, m :: mask => if m then b :: ext l mask else ext l mask
  | _, _ => []
  end.
Fixpoint ctrue (l : list bool) : Z :=
  match l with
  | [] => 0
  | b :: l => Z.b2z b + ctrue l
  end.
(** The positions of the set bits. *)
Fixpoint set_indices (off : Z) (l : list bool) : list Z :=
  match l with
  | [] => []
  | b :: l => if b then off :: set_indices (off + 1) l else set_indices (off + 1) l
  end.

Lemma zb_bounds l : 0 <= zb l < 2 ^ Z.of_nat (length l).
Proof.
  induction l as [|b l IH]; [done|]. simpl length. rewrite Nat2Z.inj_succ, Z.pow_succ_r by lia.
  simpl. destruct b; simpl; lia.
Qed.

Lemma length_nbits n w : length (nbits n w) = n.
Proof. revert w. induction n; intros; simpl; auto. Qed.

Lemma zb_nbits n w : zb (nbits n w) = w mod 2 ^ Z.of_nat n.
Proof.
  revert w. induction n as [|n IH]; intros w; [by rewrite Z.mod_1_r|].
  simpl zb. rewrite IH, Nat2Z.inj_succ, Z.pow_succ_r by lia.
  rewrite Z.rem_mul_r by lia. rewrite Zmod_odd. destruct (Z.odd w); simpl; lia.
Qed.

Lemma zb_wbits w : is_u64 w -> zb (wbits w) = w.
Proof. intros Hw. unfold wbits. rewrite zb_nbits. apply (u64_id w Hw). Qed.

Lemma length_dep v m : length (dep v m) = length m.
Proof. revert v. induction m as [|[] m IH]; intros v; simpl; auto. Qed.

Lemma ctrue_bounds l : 0 <= ctrue l <= Z.of_nat (length l).
Proof. induction l as [|[] l IH]; simpl ctrue; simpl length; simpl Z.b2z; lia. Qed.

Lemma length_ext l m : length l = length m -> Z.of_nat (length (ext l m)) = ctrue m.
Proof.
  revert m. induction l as [|b l IH]; intros [|[] m] H; simpl in *; try done;
    rewrite ?Nat2Z.inj_succ, IH by lia; lia.
Qed.

(** ** The lowest set bit *)

Section Lowest.
Context (p h : Z) (Hp : 0 <= p) (Hh : 0 <= h) (Ha : 2 ^ p * (1 + 2 * h) < 2 ^ 64).

Local Lemma pow_p : 0 < 2 ^ p.
Proof. apply Z.pow_pos_nonneg; lia. Qed.

Local Lemma testbit_low i : 0 <= i -> Z.testbit (2 ^ p * (1 + 2 * h)) i = (p <=? i) && ((i =? p) || Z.testbit (2 * h) (i - p)).
Proof.
  intros Hi. pose proof pow_p. replace (2 ^ p * (1 + 2 * h)) with (0 + (2 * h + 1) * 2 ^ p) by lia.
  rewrite testbit_add_pow2, Z.bits_0 by lia.
  destruct (Z.ltb_spec i p); [rewrite (proj2 (Z.leb_gt p i)) by lia; done|].
  rewrite (proj2 (Z.leb_le p i)) by lia. simpl. destruct (Z.eqb_spec i p) as [->|].
  - rewrite Z.sub_diag, Z.testbit_odd_0. done.
  - replace (i - p) with (Z.succ (i - p - 1)) by lia. rewrite Z.testbit_odd_succ, Z.testbit_even_succ by lia. done.
Qed.

Local Lemma testbit_low_pred i : 0 <= i -> Z.testbit (2 ^ p * (1 + 2 * h) - 1) i = (i <? p) || Z.testbit (2 * h) (i - p).
Proof.
  intros Hi. pose proof pow_p. replace (2 ^ p * (1 + 2 * h) - 1) with ((2 ^ p - 1) + (2 * h) * 2 ^ p) by lia.
  rewrite testbit_add_pow2 by lia. destruct (Z.ltb_spec i p); [|done].
  replace (2 ^ p - 1) with (Z.ones p) by (rewrite Z.ones_equiv; lia). rewrite Z.ones_spec_low by lia. done.
Qed.

Local Lemma testbit_2h_0 : Z.testbit (2 * h) 0 = false.
Proof. apply Z.testbit_even_0. Qed.

Lemma lowest_bit : (2 ^ p * (1 + 2 * h)) .& u64 (0 - 2 ^ p * (1 + 2 * h)) = 2 ^ p.
Proof.
  pose proof pow_p. assert (p < 64) as Hp64 by (apply (Z.pow_lt_mono_r_iff 2); nia).
  replace (0 - 2 ^ p * (1 + 2 * h)) with (Z.lnot (2 ^ p * (1 + 2 * h) - 1)) by (unfold Z.lnot; lia).
  apply Z.bits_inj'. intros i Hi. bits. rewrite testbit_low, testbit_low_pred, Z.pow2_bits_eqb by lia.
  rewrite (Z.eqb_sym p i). destruct (Z.eqb_spec i p) as [->|].
  - rewrite Z.leb_refl, Z.ltb_irrefl, Z.sub_diag, testbit_2h_0, (proj2 (Z.ltb_lt p 64)) by lia. done.
  - destruct (Z.leb_spec p i); [|done]. rewrite (proj2 (Z.ltb_ge i p)) by lia. simpl.
    destruct (Z.testbit (2 * h) (i - p)); simpl; [by rewrite andb_false_r|done].
Qed.

Lemma clear_lowest_bit : (2 ^ p * (1 + 2 * h)) .& u64 (2 ^ p * (1 + 2 * h) - 1) = 2 ^ (p + 1) * h.
Proof.
  pose proof pow_p. rewrite u64_id by (unfold is_u64; nia).
  replace (2 ^ (p + 1) * h) with (0 + (2 * h) * 2 ^ p) by (rewrite Z.pow_add_r by lia; lia).
  apply Z.bits_inj'. intros i Hi. bits. rewrite testbit_low, testbit_low_pred, testbit_add_pow2, Z.bits_0 by lia.
  destruct (Z.ltb_spec i p); [rewrite (proj2 (Z.leb_gt p i)) by lia; done|].
  rewrite (proj2 (Z.leb_le p i)) by lia. simpl. destruct (Z.eqb_spec i p) as [->|]; [|apply andb_diag].
  rewrite Z.sub_diag, testbit_2h_0. done.
Qed.

Lemma Tzcnt_low : Tzcnt (2 ^ p * (1 + 2 * h)) = p.
Proof.
  clear Ha. apply (natlike_ind (fun p => Tzcnt (2 ^ p * (1 + 2 * h)) = p)); [| |done].
  - rewrite Z.mul_1_l. destruct h; try done; lia.
  - intros q Hq IH. rewrite Z.pow_succ_r, <- Z.mul_assoc by done.
    assert (0 < 2 ^ q * (1 + 2 * h)) as Hpos by (apply Z.mul_pos_pos; [apply Z.pow_pos_nonneg|]; lia).
    destruct (2 ^ q * (1 + 2 * h)) as [|r|r]; try lia.
    change (Tzcnt (2 * Z.pos r)) with (1 + Tzcnt (Z.pos r)). lia.
Qed.
End Lowest.

Lemma zb_true_split m p : 2 ^ p * zb (true :: m) = 2 ^ p * (1 + 2 * zb m).
Proof. done. Qed.

Lemma mask_bound m p : 0 <= p -> p + Z.of_nat (length m) <= 64 -> 2 ^ p * zb m < 2 ^ 64.
Proof.
  intros Hp Hm. pose proof (zb_bounds m). assert (0 < 2 ^ p) by (apply Z.pow_pos_nonneg; lia).
  apply Z.lt_le_trans with (2 ^ p * 2 ^ Z.of_nat (length m)); [nia|].
  rewrite <- Z.pow_add_r by lia. apply Z.pow_le_mono_r; lia.
Qed.

Lemma land_pow2 w k : 0 <= k -> (w .& 2 ^ k =? 0) = negb (Z.odd (w >> k)).
Proof.
  intros Hk. rewrite <- Z.bit0_odd, Z.shiftr_spec, Z.add_0_l by lia.
  destruct (Z.testbit w k) eqn:Hb; simpl.
  - apply Z.eqb_neq. intros H0. assert (Z.testbit (w .& 2 ^ k) k = true) as Ht.
    { rewrite Z.land_spec, Hb, Z.pow2_bits_true by lia. done. }
    rewrite H0, Z.bits_0 in Ht. done.
  - apply Z.eqb_eq, Z.bits_inj'. intros i Hi. rewrite Z.land_spec, Z.pow2_bits_eqb, Z.bits_0 by lia.
    destruct (Z.eqb_spec k i) as [<-|]; [rewrite Hb|rewrite andb_false_r]; done.
Qed.

Lemma lor_pow2 r k : 0 <= k -> 0 <= r < 2 ^ k -> r .| 2 ^ k = r + 2 ^ k.
Proof. intros Hk Hr. rewrite <- (Z.shiftl_1_l k), lor_shiftl_add, Z.shiftl_1_l by done. lia. Qed.

Lemma double_pow2 k : 0 <= k < 64 -> u64 (u64 (2 ^ k) + u64 (2 ^ k)) = u64 (2 ^ (k + 1)).
Proof.
  intros Hk. rewrite Z.pow_add_r by lia. unfold u64. rewrite <- Z.add_mod by lia. f_equal. lia.
Qed.

Lemma u64_pow2 k : 0 <= k < 64 -> u64 (2 ^ k) = 2 ^ k.
Proof. intros Hk. apply u64_id. split; [lia|]. apply Z.pow_lt_mono_r; lia. Qed.

Lemma pdep_loop_ok word m : forall fuel p k result,
  0 <= k <= p -> p + Z.of_nat (length m) <= 64 -> ctrue m <= Z.of_nat fuel -> 0 <= result < 2 ^ p ->
  pdep_loop fuel (u64 (2 ^ k)) word (2 ^ p * zb m) result = Some (result + 2 ^ p * zb (dep (word >> k) m)).
Proof.
  induction m as [|b m IH]; intros fuel p k result Hk Hp Hf Hr; simpl length in Hp; simpl ctrue in Hf.
  - simpl. rewrite Z.mul_0_r. destruct fuel; simpl; f_equal; lia.
  - pose proof (mask_bound (b :: m) p ltac:(lia) Hp) as Hb. pose proof (zb_bounds m).
    assert (0 < 2 ^ p) by (apply Z.pow_pos_nonneg; lia).
    assert (2 ^ (p + 1) = 2 * 2 ^ p) as Hp1 by (rewrite Z.pow_add_r by lia; lia).
    destruct b; simpl Z.b2z in *.
    + destruct fuel as [|fuel]; [pose proof (ctrue_bounds m); lia|].
      cbn [pdep_loop dep]. rewrite zb_true_split in *.
      rewrite (proj2 (Z.eqb_neq _ 0)) by nia. rewrite lowest_bit, clear_lowest_bit by lia.
      rewrite u64_pow2, land_pow2, negb_if by lia. rewrite <- (u64_pow2 k), double_pow2 by lia.
      assert ((word >> k) / 2 = word >> (k + 1)) as Hs
        by (rewrite <- Z.shiftr_shiftr by lia; rewrite (shiftr_div _ 1) by lia; done).
      rewrite Hs. cbn [zb]. destruct (Z.odd (word >> k)); simpl Z.b2z; cbn [negb].
      * rewrite lor_pow2, IH by lia. f_equal. lia.
      * rewrite IH by lia. f_equal. lia.
    + cbn [zb dep]. simpl Z.b2z. replace (2 ^ p * (0 + 2 * zb m)) with (2 ^ (p + 1) * zb m) by lia.
      rewrite IH by lia. f_equal. lia.
Qed.

Lemma dep_zero m : zb (dep 0 m) = 0.
Proof. induction m as [|[] m IH]; cbn [dep zb]; change (0 / 2) with 0; rewrite ?IH; done. Qed.

Lemma dep_ones n v : dep v (replicate n true) = nbits n v.
Proof. revert v. induction n as [|n IH]; intros v; simpl; [done|]. rewrite IH. done. Qed.

Lemma wbits_ones : wbits (2 ^ 64 - 1) = replicate 64 true.
Proof. vm_compute. reflexivity. Qed.

Lemma Pdep_ok word mask : is_u64 word -> is_u64 mask -> Pdep word mask = Some (zb (dep word (wbits mask))).
Proof.
  intros Hw Hm. unfold Pdep. destruct (Z.eqb_spec word 0) as [->|].
  { rewrite dep_zero. done. }
  destruct (Z.eqb_spec mask (2 ^ 64 - 1)) as [->|]; cbn [orb].
  { rewrite wbits_ones, dep_ones. fold (wbits word). rewrite zb_wbits by done. done. }
  pose proof (pdep_loop_ok word (wbits mask) 64 0 0 0) as H. rewrite zb_wbits, !Z.mul_1_l, Z.shiftr_0_r in H by done.
  change (u64 (2 ^ 0)) with 1 in H. rewrite Z.add_0_l in H.
  pose proof (ctrue_bounds (wbits mask)) as Hc. assert (length (wbits mask) = 64%nat) as Hl by apply length_nbits.
  rewrite H by lia. done.
Qed.

Lemma pext_loop_ok word m : forall fuel p k result,
  0 <= k <= p -> p + Z.of_nat (length m) <= 64 -> ctrue m <= Z.of_nat fuel -> 0 <= result < 2 ^ k ->
  pext_loop fuel (u64 (2 ^ k)) word (2 ^ p * zb m) result =
  Some (result + 2 ^ k * zb (ext (nbits (length m) (word >> p)) m)).
Proof.
  induction m as [|b m IH]; intros fuel p k result Hk Hp Hf Hr; simpl length in Hp; simpl ctrue in Hf.
  - simpl. rewrite Z.mul_0_r. destruct fuel; simpl; f_equal; lia.
  - pose proof (mask_bound (b :: m) p ltac:(lia) Hp) as Hb. pose proof (zb_bounds m).
    assert (0 < 2 ^ p) by (apply Z.pow_pos_nonneg; lia). assert (0 < 2 ^ k) by (apply Z.pow_pos_nonneg; lia).
    assert (2 ^ (p + 1) = 2 * 2 ^ p) as Hp1 by (rewrite Z.pow_add_r by lia; lia).
    assert (2 ^ (k + 1) = 2 * 2 ^ k) as Hk1 by (rewrite Z.pow_add_r by lia; lia).
    assert ((word >> p) / 2 = word >> (p + 1)) as Hs
      by (rewrite <- Z.shiftr_shiftr by lia; rewrite (shiftr_div _ 1) by lia; done).
    cbn [length nbits]. rewrite Hs. destruct b; simpl Z.b2z in *.
    + destruct fuel as [|fuel]; [pose proof (ctrue_bounds m); lia|].
      cbn [pext_loop ext zb]. simpl Z.b2z. cbn [zb] in Hb. simpl Z.b2z in Hb.
      rewrite (proj2 (Z.eqb_neq _ 0)) by nia.
      rewrite <- Z.land_assoc, lowest_bit, clear_lowest_bit, land_pow2, double_pow2 by lia.
      destruct (Z.odd (word >> p)); simpl Z.b2z; cbn [negb].
      * rewrite (u64_pow2 k), lor_pow2, IH by lia. f_equal. lia.
      * rewrite IH by lia. f_equal. lia.
    + cbn [zb ext]. simpl Z.b2z. replace (2 ^ p * (0 + 2 * zb m)) with (2 ^ (p + 1) * zb m) by lia.
      rewrite IH by lia. done.
Qed.

Lemma ext_zero n m : zb (ext (nbits n 0) m) = 0.
Proof. revert m. induction n as [|n IH]; intros [|[] m]; cbn [nbits ext zb]; change (0 / 2) with 0; try done; rewrite ?IH; done. Qed.

Lemma ext_ones n l : length l = n -> ext l (replicate n true) = l.
Proof. intros <-. induction l as [|b l IH]; simpl; [done|]. rewrite IH. done. Qed.

Lemma Pext_ok word mask : is_u64 word -> is_u64 mask -> Pext word mask = Some (zb (ext (wbits word) (wbits mask))).
Proof.
  intros Hw Hm. unfold Pext. destruct (Z.eqb_spec word 0) as [->|].
  { unfold wbits at 1. rewrite ext_zero. done. }
  destruct (Z.eqb_spec mask (2 ^ 64 - 1)) as [->|]; cbn [orb].
  { rewrite wbits_ones, ext_ones, zb_wbits by (done || apply length_nbits). done. }
  pose proof (pext_loop_ok word (wbits mask) 64 0 0 0) as H. rewrite zb_wbits, !Z.mul_1_l, Z.shiftr_0_r in H by done.
  change (u64 (2 ^ 0)) with 1 in H. rewrite Z.add_0_l in H.
  pose proof (ctrue_bounds (wbits mask)) as Hc. assert (length (wbits mask) = 64%nat) as Hl by apply length_nbits.
  rewrite H, Hl by lia. done.
Qed.
