(* ===== verification/BitVector.v ===== *)
(** * Bit vectors

    Models the class [BitVector] of [src/trace_processor/containers/bit_vector.h] and
    [bit_vector.cc]: the bits in 64-bit words, eight words to a block, and for every
    block the number of bits set before it. A failed [CHECK] or [DCHECK] and an
    access out of the range of a vector are [None]. Blocks are the position of their
    first word in the vector of words, as the pointers of the code.

    [rep b l] says that [b] holds the bits of the list [l] and that its counts are right. Every
    operation is shown to succeed and to act on [l] as it should; the exception is
    [Resize] with ones when the old size is a multiple of the size of a block. *)

From S2P Require Import Prelude BitWord.

Definition kWordsInBlock : Z := 8.
Definition kBitsInBlock : Z := kWordsInBlock * kBitsInWord.

Record BlockOffset := mkOff { word_idx : Z; bit_idx : Z }.
Record Address := mkAddr { block_idx : Z; block_offset : BlockOffset }.
Record BitVector := mkBV { size_ : Z; counts_ : list Z; words_ : list Z }.

Definition vlen {A} (v : list A) : Z := Z.of_nat (length v).

Definition WordFloor (idx : Z) : Z := idx / kBitsInWord.
Definition WordCount (bit_count : Z) : Z := u32 (bit_count + kBitsInWord - 1) / kBitsInWord.
Definition BlockCount (bit_count : Z) : Z := u32 (bit_count + kBitsInBlock - 1) / kBitsInBlock.
Definition BlockFloor (idx : Z) : Z := idx / kBitsInBlock.
Definition BlockToIndex (block_idx : Z) : Z := u32 (block_idx * kBitsInBlock).
Definition ApproxBytesCost (n : Z) : Z := u32 (BlockCount n * kBitsInBlock + BlockCount n * 4).

Definition IndexToAddress (idx : Z) : Address :=
  let bit_idx_inside_block := u16 (idx mod kBitsInBlock) in
  mkAddr (idx / kBitsInBlock)
    (mkOff (u16 (bit_idx_inside_block / kBitsInWord)) (u16 (bit_idx_inside_block mod kBitsInWord))).
#[global] Arguments IndexToAddress : simpl never.
Definition AddressToIndex (a : Address) : Z :=
  u32 (block_idx a * kBitsInBlock + word_idx (block_offset a) * kBitsInWord + bit_idx (block_offset a)).

(** ** Blocks *)

(** A change of the word at a position. *)
Definition update_word (ws : list Z) (i : Z) (f : Z -> option Z) : option (list Z) :=
  w ← vec_get ws i;
  w' ← f w;
  vec_set ws i w'.

Definition Block_Set (ws : list Z) (start_word : Z) (addr : BlockOffset) : option (list Z) :=
  if word_idx addr <? kWordsInBlock
  then update_word ws (start_word + word_idx addr) (fun w => Word_Set w (bit_idx addr)) else None.
Definition Block_Clear (ws : list Z) (start_word : Z) (addr : BlockOffset) : option (list Z) :=
  if word_idx addr <? kWordsInBlock
  then update_word ws (start_word + word_idx addr) (fun w => Word_Clear w (bit_idx addr)) else None.
Definition Block_ClearAfter (ws : list Z) (start_word : Z) (offset : BlockOffset) : option (list Z) :=
  if word_idx offset <? kWordsInBlock then
    ws ← update_word ws (start_word + word_idx offset) (fun w => Word_ClearAfter w (bit_idx offset));
    for_loop (word_idx offset + 1) kWordsInBlock (fun i ws => update_word ws (start_word + i) (fun _ => Some 0)) ws
  else None.
Definition Block_SetRange (ws : list Z) (start_word : Z) (start end_ : BlockOffset) : option (list Z) :=
  if word_idx start =? word_idx end_ then
    update_word ws (start_word + word_idx start) (fun w => Some (Word_SetRange w (bit_idx start) (bit_idx end_)))
  else
    ws ← update_word ws (start_word + word_idx start)
           (fun w => Some (Word_SetRange w (bit_idx start) (kBitsInWord - 1)));
    ws ← for_loop (word_idx start + 1) (word_idx end_)
           (fun i ws => update_word ws (start_word + i) (fun w => Some (Word_SetRange w 0 (kBitsInWord - 1)))) ws;
    update_word ws (start_word + word_idx end_) (fun w => Some (Word_SetRange w 0 (bit_idx end_))).

Definition Block_IsSet (ws : list Z) (start_word : Z) (addr : BlockOffset) : option bool :=
  if word_idx addr <? kWordsInBlock
  then w ← vec_get ws (start_word + word_idx addr); Word_IsSet w (bit_idx addr) else None.

Definition add_popcount (ws : list Z) (start_word i count : Z) : option Z :=
  w ← vec_get ws (start_word + i);
  Some (u32 (count + Word_CountSetBits w)).
Definition Block_CountSetBitsUntil (ws : list Z) (start_word : Z) (addr : BlockOffset) : option Z :=
  if word_idx addr <? kWordsInBlock then
    count ← for_loop 0 (word_idx addr) (add_popcount ws start_word) 0;
    w ← vec_get ws (start_word + word_idx addr);
    n ← Word_CountSetBitsUntil w (bit_idx addr);
    Some (u32 (count + n))
  else None.
Definition Block_CountSetBits (ws : list Z) (start_word : Z) : option Z :=
  for_loop 0 kWordsInBlock (add_popcount ws start_word) 0.

(** [todo] words of the block are still to be searched. *)
Fixpoint nth_set_loop (todo : nat) (ws : list Z) (start_word i count n : Z) : option BlockOffset :=
  match todo with
  | O => None
  | S todo =>
      w ← vec_get ws (start_word + i);
      let value := u32 (count + Word_CountSetBits w) in
      if value <=? n then nth_set_loop todo ws start_word (i + 1) value n
      else
        bit ← Word_IndexOfNthSet w (u32 (n - count));
        if bit <? 64 then Some (mkOff i bit) else None
  end.
Definition Block_IndexOfNthSet (ws : list Z) (start_word n : Z) : option BlockOffset :=
  nth_set_loop 8 ws start_word 0 0 n.

(** ** Bit vectors *)

Definition BlockFromIndex (ws : list Z) (idx : Z) : option Z :=
  if kWordsInBlock * (idx + 1) <=? vlen ws then Some (kWordsInBlock * idx) else None.

(** The method [Set] with two addresses. *)
Definition SetRange (ws : list Z) (start end_ : Address) : option (list Z) :=
  let kFirst := mkOff 0 0 in
  let kLast := mkOff (kWordsInBlock - 1) (kBitsInWord - 1) in
  if block_idx start =? block_idx end_ then
    b ← BlockFromIndex ws (block_idx start);
    Block_SetRange ws b (block_offset start) (block_offset end_)
  else
    b ← BlockFromIndex ws (block_idx start);
    ws ← Block_SetRange ws b (block_offset start) kLast;
    ws ← for_loop (block_idx start + 1) (block_idx end_)
           (fun i ws => b ← BlockFromIndex ws i; Block_SetRange ws b kFirst kLast) ws;
    b ← BlockFromIndex ws (block_idx end_);
    Block_SetRange ws b kFirst (block_offset end_).

Definition UpdateCounts (ws counts : list Z) : option (list Z) :=
  if vlen ws =? vlen counts * kWordsInBlock then
    for_loop 1 (vlen counts) (fun i counts =>
      prev ← vec_get counts (i - 1);
      n ← Block_CountSetBits ws (kWordsInBlock * (i - 1));
      vec_set counts i (u32 (prev + n))) counts
  else None.

Definition BitVector_empty : BitVector := mkBV 0 [] [].
Definition BitVector_of (words counts : list Z) (size : Z) : option BitVector :=
  if vlen words mod kWordsInBlock =? 0 then Some (mkBV size counts words) else None.
Definition Copy (b : BitVector) : option BitVector := BitVector_of (words_ b) (counts_ b) (size_ b).

Definition IsSet (b : BitVector) (idx : Z) : option bool :=
  if idx <? size_ b then
    w ← vec_get (words_ b) (WordFloor idx);
    Word_IsSet w (idx mod kBitsInWord)
  else None.

Definition CountSetBitsUntil (b : BitVector) (end_ : Z) : option Z :=
  if end_ =? 0 then Some 0 else
  let addr := IndexToAddress (u32 (end_ - 1)) in
  c ← vec_get (counts_ b) (block_idx addr);
  st ← BlockFromIndex (words_ b) (block_idx addr);
  n ← Block_CountSetBitsUntil (words_ b) st (block_offset addr);
  Some (u32 (c + n)).
Definition CountSetBits (b : BitVector) : option Z := CountSetBitsUntil b (size_ b).

(** [std::upper_bound]: the position of the first element above [n]. *)
Fixpoint upper_bound (v : list Z) (n : Z) : nat :=
  match v with
  | [] => O
  | c :: v => if c <=? n then S (upper_bound v n) else O
  end.

Definition IndexOfNthSet (b : BitVector) (n : Z) : option Z :=
  c ← CountSetBits b;
  if n <? c then
    let it := Z.of_nat (upper_bound (counts_ b) n) in
    if it =? 0 then None else
    let blk := it - 1 in
    c ← vec_get (counts_ b) blk;
    st ← BlockFromIndex (words_ b) blk;
    off ← Block_IndexOfNthSet (words_ b) st (u32 (n - c));
    Some (AddressToIndex (mkAddr blk off))
  else None.

Definition bump_counts (counts : list Z) (from d : Z) : option (list Z) :=
  for_loop from (vlen counts) (fun i counts => c ← vec_get counts i; vec_set counts i (u32 (c + d))) counts.

(** Also returns the old value. *)
Definition SetBit (b : BitVector) (idx : Z) : option (BitVector * bool) :=
  let addr := IndexToAddress idx in
  st ← BlockFromIndex (words_ b) (block_idx addr);
  old_value ← Block_IsSet (words_ b) st (block_offset addr);
  if negb old_value then
    ws ← Block_Set (words_ b) st (block_offset addr);
    counts ← bump_counts (counts_ b) (block_idx addr + 1) 1;
    Some (mkBV (size_ b) counts ws, old_value)
  else Some (b, old_value).
Definition ClearBit (b : BitVector) (idx : Z) : option BitVector :=
  let addr := IndexToAddress idx in
  st ← BlockFromIndex (words_ b) (block_idx addr);
  old_value ← Block_IsSet (words_ b) st (block_offset addr);
  if (old_value : bool) then
    ws ← Block_Clear (words_ b) st (block_offset addr);
    counts ← bump_counts (counts_ b) (block_idx addr + 1) (-1);
    Some (mkBV (size_ b) counts ws)
  else Some b.

Definition AppendFalse (b : BitVector) : option BitVector :=
  let addr := IndexToAddress (size_ b) in
  let old_blocks_size := u32 (vlen (words_ b)) / kWordsInBlock in
  let new_blocks_size := block_idx addr + 1 in
  if old_blocks_size <? new_blocks_size then
    t ← CountSetBits b;
    Some (mkBV (u32 (size_ b + 1)) (counts_ b ++ [t]) (words_ b ++ replicate 8 0))
  else Some (mkBV (u32 (size_ b + 1)) (counts_ b) (words_ b)).
Definition AppendTrue (b : BitVector) : option BitVector :=
  b ← AppendFalse b;
  let addr := IndexToAddress (u32 (size_ b - 1)) in
  st ← BlockFromIndex (words_ b) (block_idx addr);
  ws ← Block_Set (words_ b) st (block_offset addr);
  Some (mkBV (size_ b) (counts_ b) ws).
Definition BitVector_Append (b : BitVector) (value : bool) : option BitVector :=
  if value then AppendTrue b else AppendFalse b.

(** The constructor with a list of booleans. *)
Definition BitVector_list (init : list bool) : option BitVector :=
  foldl (fun b x => b ← b; BitVector_Append b x) (Some BitVector_empty) init.

(** The counts of the blocks after the one where the ones start. *)
Definition fill_counts (counts : list Z) (from last set_count : Z) : option (list Z * Z) :=
  for_loop from (last + 1) (fun i '(counts, n) =>
    counts ← vec_set counts i n; Some (counts, u32 (n + kBitsInBlock))) (counts, set_count).

Definition Resize (b : BitVector) (new_size : Z) (filler : bool) : option BitVector :=
  let old_size := size_ b in
  if new_size =? old_size then Some b else
  if new_size =? 0 then Some (mkBV 0 [] []) else
  let last_addr := IndexToAddress (u32 (new_size - 1)) in
  let old_blocks_size := vlen (counts_ b) in
  let new_blocks_size := block_idx last_addr + 1 in
  let b := mkBV (size_ b) (resize (Z.to_nat new_blocks_size) 0 (counts_ b))
                (resize (Z.to_nat (kWordsInBlock * new_blocks_size)) 0 (words_ b)) in
  if old_size <? new_size then
    if filler then
      let start := IndexToAddress old_size in
      ws ← SetRange (words_ b) start last_addr;
      let b := mkBV (size_ b) (counts_ b) ws in
      let end_of_block := mkAddr (block_idx start) (mkOff (kWordsInBlock - 1) (kBitsInWord - 1)) in
      let count_in_block_after_end := u32 (AddressToIndex end_of_block - AddressToIndex start + 1) in
      n ← CountSetBits b;
      '(counts, _) ← fill_counts (counts_ b) (block_idx start + 1) (block_idx last_addr)
                       (u32 (n + count_in_block_after_end));
      Some (mkBV new_size counts ws)
    else if old_blocks_size <? new_blocks_size then
      count ← CountSetBits b;
      counts ← for_loop old_blocks_size new_blocks_size (fun i counts => vec_set counts i count) (counts_ b);
      Some (mkBV new_size counts (words_ b))
    else Some (mkBV new_size (counts_ b) (words_ b))
  else
    st ← BlockFromIndex (words_ b) (block_idx last_addr);
    ws ← Block_ClearAfter (words_ b) st (block_offset last_addr);
    Some (mkBV new_size (counts_ b) ws).

(** The constructor with a size and a value. *)
Definition BitVector_new (count : Z) (value : bool) : option BitVector := Resize BitVector_empty count value.

Definition Not (b : BitVector) : option BitVector :=
  if size_ b =? 0 then Some b else
  let ws := Word_Not <$> words_ b in
  let last_addr := IndexToAddress (u32 (size_ b - 1)) in
  st ← BlockFromIndex ws (block_idx last_addr);
  ws ← Block_ClearAfter ws st (block_offset last_addr);
  counts ← for_loop 1 (vlen (counts_ b)) (fun i counts =>
             c ← vec_get counts i; vec_set counts i (u32 (kBitsInBlock * i - c))) (counts_ b);
  Some (mkBV (size_ b) counts ws).

(** [words_[i] op= sec.words_[i]] for all words. *)
Definition zip_words (op : Z -> Z -> Z) (ws sec : list Z) : option (list Z) :=
  for_loop 0 (vlen ws) (fun i ws => s ← vec_get sec i; update_word ws i (fun w => Some (op w s))) ws.

Definition Or (b sec : BitVector) : option BitVector :=
  if size_ b =? size_ sec then
    ws ← zip_words Word_Or (words_ b) (words_ sec);
    counts ← UpdateCounts ws (counts_ b);
    Some (mkBV (size_ b) counts ws)
  else None.
Definition And (b sec : BitVector) : option BitVector :=
  b ← Resize b (Z.min (size_ b) (size_ sec)) false;
  ws ← zip_words Word_And (words_ b) (words_ sec);
  counts ← UpdateCounts ws (counts_ b);
  Some (mkBV (size_ b) counts ws).

(** Runs the operations of the option monad. *)
Ltac runs := cbn [mbind option_bind fmap option_fmap option_map negb].

(** ** The bits of a vector of words *)

Definition words_ok (ws : list Z) : Prop := Forall is_u64 ws.

Definition bit (ws : list Z) (k : Z) : bool :=
  Z.testbit (default 0 (ws !! Z.to_nat (k / 64))) (k mod 64).

(** [ws'] has the bits of [ws], each changed by [g]. *)
Definition changed (ws ws' : list Z) (g : Z -> bool -> bool) : Prop :=
  words_ok ws' /\ length ws' = length ws /\ forall k, 0 <= k -> bit ws' k = g k (bit ws k).

Lemma vec_get_lookup {A} (v : list A) i x : vec_get v i = Some x <-> 0 <= i /\ v !! Z.to_nat i = Some x.
Proof.
  unfold vec_get. destruct (Z.leb_spec 0 i); split; try intros [? ?]; try done; lia.
Qed.

Lemma bit_word ws i w j : vec_get ws i = Some w -> 0 <= j < 64 -> bit ws (64 * i + j) = Z.testbit w j.
Proof.
  intros [Hi Hw]%vec_get_lookup Hj. unfold bit.
  replace ((64 * i + j) / 64) with i by divlia. replace ((64 * i + j) mod 64) with j by divlia.
  rewrite Hw. done.
Qed.

Lemma bit_beyond ws k : 0 <= k -> 64 * vlen ws <= k -> bit ws k = false.
Proof.
  intros Hk Hb. unfold bit, vlen in *. rewrite lookup_ge_None_2 by divlia. apply Z.bits_0.
Qed.

Lemma changed_refl ws : words_ok ws -> changed ws ws (fun _ b => b).
Proof. done. Qed.

Lemma changed_trans ws1 ws2 ws3 g h : changed ws1 ws2 g -> changed ws2 ws3 h ->
  changed ws1 ws3 (fun k b => h k (g k b)).
Proof.
  intros (? & ? & H1) (? & ? & H2). split; [done|]. split; [congruence|]. intros k Hk. rewrite H2, H1 by done. done.
Qed.

(** It is enough that the functions agree on the bits there are. *)
Lemma changed_impl ws ws' g h : changed ws ws' g ->
  (forall k, 0 <= k < 64 * vlen ws -> g k (bit ws k) = h k (bit ws k)) ->
  (forall k, 64 * vlen ws <= k -> h k false = false) -> changed ws ws' h.
Proof.
  intros (H1 & H2 & H3) Hgh Hh. split; [done|]. split; [done|]. intros k Hk.
  destruct (decide (k < 64 * vlen ws)); [rewrite H3, Hgh by lia; done|].
  rewrite (bit_beyond ws k), (bit_beyond ws' k) by (unfold vlen in *; lia). rewrite Hh by lia. done.
Qed.

Lemma update_word_ok ws i f (g : Z -> bool -> bool) :
  words_ok ws -> 0 <= i < vlen ws ->
  (forall w, is_u64 w -> exists w', f w = Some w' /\ is_u64 w' /\
     forall j, 0 <= j < 64 -> Z.testbit w' j = g j (Z.testbit w j)) ->
  exists ws', update_word ws i f = Some ws' /\
    changed ws ws' (fun k b => if k / 64 =? i then g (k mod 64) b else b).
Proof.
  intros Hws Hi Hf. unfold update_word. destruct (vec_get_some ws i Hi) as [w Hw]. rewrite Hw.
  pose proof (proj1 (vec_get_lookup _ _ _) Hw) as [_ Hw'].
  destruct (Hf w (Forall_lookup_1 _ _ _ _ Hws Hw')) as (w' & Hfw & Hok & Hbits). simpl. rewrite Hfw. simpl.
  rewrite vec_set_some by done. eexists. split; [done|]. split; [by apply Forall_insert|].
  split; [by rewrite length_insert|]. intros k Hk. unfold bit. destruct (Z.eqb_spec (k / 64) i) as [Hki|Hki].
  - rewrite Hki, list_lookup_insert_eq, Hw' by (unfold vlen in Hi; lia). simpl. apply Hbits. divlia.
  - rewrite list_lookup_insert_ne; [done|]. assert (0 <= k / 64) by divlia. lia.
Qed.

(** ** Counting in blocks *)

Lemma popcount_bit ws i w : vec_get ws i = Some w -> popcount w = cnt (bit ws) (64 * i) (64 * i + 64).
Proof.
  intros Hw. unfold popcount. rewrite (cnt_ext _ (fun k => bit ws (k + 64 * i))), cnt_shift.
  - f_equal; lia.
  - intros k Hk. rewrite <- (bit_word ws i w) by done. f_equal. lia.
Qed.

Lemma add_popcounts_ok ws st n : 0 <= st -> 0 <= n <= 8 -> st + n <= vlen ws ->
  for_loop 0 n (add_popcount ws st) 0 = Some (cnt (bit ws) (64 * st) (64 * (st + n))).
Proof.
  intros Hst Hn Hlen.
  destruct (for_loop_ind (fun i c => c = cnt (bit ws) (64 * st) (64 * (st + i))) 0 n (add_popcount ws st) 0)
    as (c & -> & ->); [lia|rewrite cnt_nil; [done|lia]| |done].
  intros i c Hi ->. unfold add_popcount. destruct (vec_get_some ws (st + i)) as [w Hw]; [unfold vlen in *; lia|].
  rewrite Hw. simpl. eexists. split; [done|]. unfold Word_CountSetBits. rewrite (popcount_bit _ _ _ Hw).
  replace (64 * (st + i) + 64) with (64 * (st + (i + 1))) by lia.
  rewrite <- cnt_split by lia. pose proof (cnt_bounds (bit ws) (64 * st) (64 * (st + (i + 1)))).
  apply u32_id. unfold is_u32. lia.
Qed.

Lemma Block_CountSetBits_ok ws st : 0 <= st -> st + 8 <= vlen ws ->
  Block_CountSetBits ws st = Some (cnt (bit ws) (64 * st) (64 * st + 512)).
Proof.
  intros. unfold Block_CountSetBits, kWordsInBlock. rewrite add_popcounts_ok by lia. do 2 f_equal. lia.
Qed.

Lemma Block_CountSetBitsUntil_ok ws st o : words_ok ws -> 0 <= st -> st + 8 <= vlen ws ->
  0 <= word_idx o < 8 -> 0 <= bit_idx o < 64 ->
  Block_CountSetBitsUntil ws st o =
  Some (cnt (bit ws) (64 * st) (64 * st + 64 * word_idx o + bit_idx o + 1)).
Proof.
  intros Hws Hst Hlen Hw Hb. unfold Block_CountSetBitsUntil, kWordsInBlock.
  rewrite (proj2 (Z.ltb_lt _ _)) by lia. rewrite add_popcounts_ok by lia. simpl.
  destruct (vec_get_some ws (st + word_idx o)) as [w Hget]; [unfold vlen in *; lia|]. rewrite Hget. simpl.
  pose proof (proj1 (vec_get_lookup _ _ _) Hget) as [_ Hw'].
  rewrite Word_CountSetBitsUntil_ok by (done || exact (Forall_lookup_1 _ _ _ _ Hws Hw')). simpl. f_equal.
  replace (cnt (Z.testbit w) 0 (bit_idx o + 1))
    with (cnt (bit ws) (64 * (st + word_idx o)) (64 * (st + word_idx o) + bit_idx o + 1)).
  - rewrite <- cnt_split by lia. pose proof (cnt_bounds (bit ws) (64 * st) (64 * (st + word_idx o) + bit_idx o + 1)).
    rewrite u32_id by (unfold is_u32; lia). f_equal. lia.
  - rewrite (cnt_ext (Z.testbit w) (fun k => bit ws (k + 64 * (st + word_idx o)))), cnt_shift; [f_equal; lia|].
    intros k Hk. rewrite <- (bit_word _ _ _ _ Hget) by lia. f_equal. lia.
Qed.

(** ** Searching a block *)

Lemma nth_set_loop_ok todo ws st : words_ok ws -> forall i count n,
  0 <= st -> 0 <= i -> i + Z.of_nat todo = 8 -> st + 8 <= vlen ws ->
  count = cnt (bit ws) (64 * st) (64 * (st + i)) -> count <= n < cnt (bit ws) (64 * st) (64 * st + 512) ->
  exists o, nth_set_loop todo ws st i count n = Some o /\ 0 <= word_idx o < 8 /\ 0 <= bit_idx o < 64 /\
    bit ws (64 * st + 64 * word_idx o + bit_idx o) = true /\
    cnt (bit ws) (64 * st) (64 * st + 64 * word_idx o + bit_idx o) = n.
Proof.
  intros Hws. induction todo as [|todo IH]; intros i count n Hst Hi Htodo Hlen Hc Hn.
  - replace (64 * (st + i)) with (64 * st + 512) in Hc by lia. lia.
  - simpl. destruct (vec_get_some ws (st + i)) as [w Hget]; [unfold vlen in *; lia|]. rewrite Hget. simpl.
    unfold Word_CountSetBits. pose proof (popcount_bit _ _ _ Hget) as Hp.
    assert (count + popcount w = cnt (bit ws) (64 * st) (64 * (st + (i + 1)))) as Hsum.
    { rewrite Hc, Hp, <- cnt_split by lia. f_equal. lia. }
    pose proof (cnt_bounds (bit ws) (64 * st) (64 * (st + (i + 1)))).
    pose proof (cnt_bounds (bit ws) (64 * st) (64 * (st + i))).
    pose proof (cnt_bounds (bit ws) (64 * st) (64 * st + 512)).
    rewrite (u32_id (count + _)) by (unfold is_u32; lia).
    destruct (Z.leb_spec (count + popcount w) n).
    + apply IH; lia || (rewrite Hsum; done).
    + rewrite (u32_id (n - count)) by (unfold is_u32; lia).
      pose proof (proj1 (vec_get_lookup _ _ _) Hget) as [_ Hw'].
      destruct (Word_IndexOfNthSet_ok w (n - count)) as (j & -> & Hj & Hbit & Hcnt);
        [exact (Forall_lookup_1 _ _ _ _ Hws Hw')|lia|]. simpl.
      rewrite (proj2 (Z.ltb_lt _ _)) by lia. eexists. split; [done|]. simpl.
      split; [lia|]. split; [done|]. replace (64 * st + 64 * i + j) with (64 * (st + i) + j) by lia.
      rewrite (bit_word _ _ _ _ Hget) by done. split; [done|].
      rewrite (cnt_split _ _ (64 * (st + i))) by lia. rewrite <- Hc.
      rewrite (cnt_ext (Z.testbit w) (fun k => bit ws (k + 64 * (st + i)))), cnt_shift in Hcnt.
      * rewrite Z.add_0_l in Hcnt. rewrite (Z.add_comm (64 * (st + i)) j). lia.
      * intros k Hk. rewrite <- (bit_word _ _ _ _ Hget) by lia. f_equal. lia.
Qed.

(** ** Changing a block *)

Definition off_ok (o : BlockOffset) : Prop := 0 <= word_idx o < 8 /\ 0 <= bit_idx o < 64.
Definition block_in (ws : list Z) (st : Z) : Prop := 0 <= st /\ st + 8 <= vlen ws.

(** The position of a bit of a block. *)
Definition pos (st : Z) (o : BlockOffset) : Z := 64 * st + 64 * word_idx o + bit_idx o.

Lemma Block_IsSet_ok ws st o : block_in ws st -> off_ok o -> Block_IsSet ws st o = Some (bit ws (pos st o)).
Proof.
  intros [Hst Hlen] [Hw Hb]. unfold Block_IsSet, kWordsInBlock. rewrite (proj2 (Z.ltb_lt _ _)) by lia.
  destruct (vec_get_some ws (st + word_idx o)) as [w Hget]; [unfold vlen in *; lia|]. rewrite Hget. simpl.
  rewrite Word_IsSet_ok by done. f_equal. rewrite <- (bit_word _ _ _ _ Hget) by done. f_equal. unfold pos. lia.
Qed.

Lemma at_pos st o k : 0 <= k -> off_ok o ->
  (k / 64 =? st + word_idx o) && (k mod 64 =? bit_idx o) = (k =? pos st o).
Proof.
  intros Hk [Hw Hb]. unfold pos. apply Bool.eq_iff_eq_true. rewrite andb_true_iff, !Z.eqb_eq. divlia.
Qed.

Lemma Block_Set_ok ws st o : words_ok ws -> block_in ws st -> off_ok o ->
  exists ws', Block_Set ws st o = Some ws' /\ changed ws ws' (fun k b => (k =? pos st o) || b).
Proof.
  intros Hws [Hst Hlen] Ho. pose proof Ho as [Hw Hb]. unfold Block_Set, kWordsInBlock.
  rewrite (proj2 (Z.ltb_lt _ _)) by lia.
  destruct (update_word_ok ws (st + word_idx o) (fun w => Word_Set w (bit_idx o)) (fun j b => (j =? bit_idx o) || b))
    as (ws' & -> & Hc); [done|lia| |].
  { intros w Hw64. destruct (Word_Set_ok w (bit_idx o) Hw64 Hb) as (w' & ? & ? & ?). exists w'. auto with lia. }
  exists ws'. split; [done|]. eapply changed_impl; [done| |].
  - intros k Hk. rewrite <- at_pos by (done || lia). simpl. destruct (k / 64 =? st + word_idx o); done.
  - intros k Hk. rewrite orb_false_r. apply Z.eqb_neq. unfold pos. lia.
Qed.

Lemma Block_Clear_ok ws st o : words_ok ws -> block_in ws st -> off_ok o ->
  exists ws', Block_Clear ws st o = Some ws' /\ changed ws ws' (fun k b => negb (k =? pos st o) && b).
Proof.
  intros Hws [Hst Hlen] Ho. pose proof Ho as [Hw Hb]. unfold Block_Clear, kWordsInBlock.
  rewrite (proj2 (Z.ltb_lt _ _)) by lia.
  destruct (update_word_ok ws (st + word_idx o) (fun w => Word_Clear w (bit_idx o)) (fun j b => negb (j =? bit_idx o) && b))
    as (ws' & -> & Hc); [done|lia| |].
  { intros w Hw64. destruct (Word_Clear_ok w (bit_idx o) Hw64 Hb) as (w' & ? & ? & ?). exists w'. auto with lia. }
  exists ws'. split; [done|]. eapply changed_impl; [done| |].
  - intros k Hk. rewrite <- at_pos by (done || lia). simpl. destruct (k / 64 =? st + word_idx o); done.
  - intros k Hk. apply andb_false_r.
Qed.

Lemma Block_ClearAfter_ok ws st o : words_ok ws -> block_in ws st -> off_ok o ->
  exists ws', Block_ClearAfter ws st o = Some ws' /\
    changed ws ws' (fun k b => negb ((pos st o <? k) && (k <? 64 * st + 512)) && b).
Proof.
  intros Hws [Hst Hlen] [Hw Hb]. unfold Block_ClearAfter, kWordsInBlock.
  rewrite (proj2 (Z.ltb_lt _ _)) by lia.
  destruct (update_word_ok ws (st + word_idx o) (fun w => Word_ClearAfter w (bit_idx o)) (fun j b => (j <=? bit_idx o) && b))
    as (ws1 & -> & Hc1); [done|lia| |].
  { intros w Hw64. destruct (WordUntil_ok w (bit_idx o) Hw64 Hb) as (w' & ? & ? & ?). exists w'. auto with lia. }
  simpl. set (g i k b := negb ((pos st o <? k) && (k <? 64 * (st + i))) && b).
  destruct (for_loop_ind (fun i ws' => changed ws ws' (g i)) (word_idx o + 1) 8
    (fun i ws => update_word ws (st + i) (fun _ => Some 0)) ws1) as (ws' & -> & Hc); [lia| | |].
  - eapply changed_impl; [exact Hc1| |]; unfold g; [|intros; apply andb_false_r].
    intros k Hk. simpl. destruct (Z.eqb_spec (k / 64) (st + word_idx o)).
    + f_equal. unfold pos. apply Bool.eq_iff_eq_true.
      rewrite negb_true_iff, andb_false_iff, Z.leb_le, !Z.ltb_ge. divlia.
    + replace ((pos st o <? k) && (k <? 64 * (st + (word_idx o + 1)))) with false; [done|].
      symmetry. rewrite andb_false_iff, !Z.ltb_ge. unfold pos. divlia.
  - intros i ws2 Hi Hc2. pose proof Hc2 as (Hok2 & Hl2 & _).
    destruct (update_word_ok ws2 (st + i) (fun _ => Some 0) (fun _ _ => false)) as (ws3 & -> & Hc3);
      [done|unfold vlen in *; lia|intros w _; exists 0; split_and!; [done|done|intros; apply Z.bits_0]|].
    exists ws3. split; [done|]. eapply changed_impl; [eapply changed_trans; [exact Hc2|exact Hc3]| |];
      unfold g; [|intros; apply andb_false_r].
    intros k Hk. simpl. destruct (Z.eqb_spec (k / 64) (st + i)).
    + rewrite (proj2 (Z.ltb_lt (pos st o) k)), (proj2 (Z.ltb_lt k (64 * (st + (i + 1))))); [done|divlia|].
      unfold pos. divlia.
    + do 3 f_equal. apply Bool.eq_iff_eq_true. rewrite !Z.ltb_lt. divlia.
  - exists ws'. split; [done|]. eapply changed_impl; [exact Hc| |]; unfold g; [|intros; apply andb_false_r].
    intros k Hk. do 4 f_equal. lia.
Qed.

(** A range of bits set in one word. *)
Lemma set_in_word ws i a b : words_ok ws -> 0 <= i < vlen ws -> 0 <= a <= b -> b < 64 ->
  exists ws', update_word ws i (fun w => Some (Word_SetRange w a b)) = Some ws' /\
    changed ws ws' (fun k x => (64 * i + a <=? k) && (k <=? 64 * i + b) || x).
Proof.
  intros Hws Hi Ha Hb.
  destruct (update_word_ok ws i (fun w => Some (Word_SetRange w a b)) (fun j x => (a <=? j) && (j <=? b) || x))
    as (ws' & -> & Hc); [done|done| |].
  { intros w Hw. destruct (Word_SetRange_ok w a b Hw Ha Hb) as [? ?]. eexists. split_and!; [done|done|]. auto with lia. }
  exists ws'. split; [done|]. eapply changed_impl; [exact Hc| |].
  - intros k Hk. simpl. destruct (Z.eqb_spec (k / 64) i).
    + f_equal. apply Bool.eq_iff_eq_true. rewrite !andb_true_iff, !Z.leb_le. divlia.
    + replace ((64 * i + a <=? k) && (k <=? 64 * i + b)) with false; [done|].
      symmetry. rewrite andb_false_iff, !Z.leb_gt. divlia.
  - intros k Hk. rewrite orb_false_r, andb_false_iff, !Z.leb_gt. right. lia.
Qed.

(** Setting a range, then the one next to it. *)
Lemma set_ranges ws1 ws2 ws3 a b c : changed ws1 ws2 (fun k x => (a <=? k) && (k <=? b) || x) ->
  changed ws2 ws3 (fun k x => (b + 1 <=? k) && (k <=? c) || x) -> a <= b + 1 -> b <= c -> c < 64 * vlen ws1 ->
  changed ws1 ws3 (fun k x => (a <=? k) && (k <=? c) || x).
Proof.
  intros H1 H2 Hab Hbc Hc. eapply changed_impl; [eapply changed_trans; [exact H1|exact H2]| |].
  - intros k Hk. simpl. rewrite orb_assoc. f_equal. apply Bool.eq_iff_eq_true.
    rewrite orb_true_iff, !andb_true_iff, !Z.leb_le. lia.
  - intros k Hk. rewrite orb_false_r, andb_false_iff, !Z.leb_gt. right. lia.
Qed.

Lemma Block_SetRange_ok ws st s e : words_ok ws -> block_in ws st -> off_ok s -> off_ok e -> pos st s <= pos st e ->
  exists ws', Block_SetRange ws st s e = Some ws' /\
    changed ws ws' (fun k x => (pos st s <=? k) && (k <=? pos st e) || x).
Proof.
  intros Hws [Hst Hlen] [Hsw Hsb] [Hew Heb] Hle. unfold pos in *. unfold Block_SetRange, kBitsInWord.
  change (64 - 1) with 63.
  destruct (Z.eqb_spec (word_idx s) (word_idx e)) as [Heq|Hne].
  { destruct (set_in_word ws (st + word_idx s) (bit_idx s) (bit_idx e)) as (ws' & -> & Hc); [done|lia|lia|lia|].
    exists ws'. split; [done|]. eapply changed_impl; [exact Hc| |].
    - intros k Hk. simpl. do 3 f_equal; lia.
    - intros k Hk. rewrite orb_false_r, andb_false_iff, !Z.leb_gt. right. lia. }
  destruct (set_in_word ws (st + word_idx s) (bit_idx s) 63) as (ws1 & -> & Hc1); [done|lia|lia|lia|]. simpl.
  destruct (for_loop_ind (fun i ws' => changed ws ws'
      (fun k x => (64 * st + 64 * word_idx s + bit_idx s <=? k) && (k <=? 64 * (st + i) - 1) || x))
      (word_idx s + 1) (word_idx e)
      (fun i ws => update_word ws (st + i) (fun w => Some (Word_SetRange w 0 63))) ws1) as (ws2 & -> & Hc2); [lia| | |].
  - eapply changed_impl; [exact Hc1| |].
    + intros k Hk. simpl. do 3 f_equal; lia.
    + intros k Hk. rewrite orb_false_r, andb_false_iff, !Z.leb_gt. right. lia.
  - intros i ws2 Hi Hc2. pose proof Hc2 as (Hok2 & Hl2 & _).
    destruct (set_in_word ws2 (st + i) 0 63) as (ws3 & -> & Hc3); [done|unfold vlen in *; lia|lia|lia|].
    exists ws3. split; [done|]. eapply (set_ranges _ _ _ _ _ _ Hc2); [|lia|lia|lia].
    replace (64 * (st + i) - 1 + 1) with (64 * (st + i) + 0) by lia.
    replace (64 * (st + (i + 1)) - 1) with (64 * (st + i) + 63) by lia. done.
  - simpl. pose proof Hc2 as (Hok2 & Hl2 & _).
    destruct (set_in_word ws2 (st + word_idx e) 0 (bit_idx e)) as (ws3 & -> & Hc3); [done|unfold vlen in *; lia|lia|lia|].
    exists ws3. split; [done|]. eapply (set_ranges _ _ _ _ _ _ Hc2); [|lia|lia|lia].
    replace (64 * (st + word_idx e) - 1 + 1) with (64 * (st + word_idx e) + 0) by lia.
    replace (64 * st + 64 * word_idx e + bit_idx e) with (64 * (st + word_idx e) + bit_idx e) by lia. done.
Qed.

(** ** Addresses *)

Definition addr_ok (a : Address) : Prop := 0 <= block_idx a /\ off_ok (block_offset a).
Definition apos (a : Address) : Z := pos (8 * block_idx a) (block_offset a).

Lemma IndexToAddress_ok idx : 0 <= idx ->
  addr_ok (IndexToAddress idx) /\ apos (IndexToAddress idx) = idx /\ block_idx (IndexToAddress idx) = idx / 512.
Proof.
  intros H. unfold IndexToAddress, addr_ok, off_ok, apos, pos, u16, kBitsInBlock, kWordsInBlock, kBitsInWord.
  cbn [block_idx block_offset word_idx bit_idx]. change (2 ^ 16) with 65536. change (8 * 64) with 512. divlia.
Qed.

Lemma AddressToIndex_ok a : 0 <= apos a < 2 ^ 32 -> AddressToIndex a = apos a.
Proof.
  intros H. unfold AddressToIndex, apos, pos, kBitsInBlock, kWordsInBlock, kBitsInWord in *.
  rewrite u32_id by (unfold is_u32; lia). lia.
Qed.

Lemma BlockFromIndex_ok ws i : 0 <= i -> 8 * (i + 1) <= vlen ws ->
  BlockFromIndex ws i = Some (8 * i) /\ block_in ws (8 * i).
Proof.
  intros Hi Hlen. unfold BlockFromIndex, kWordsInBlock, block_in. rewrite (proj2 (Z.leb_le _ _)) by lia. split; [done|lia].
Qed.

Lemma SetRange_ok ws s e : words_ok ws -> addr_ok s -> addr_ok e -> apos s <= apos e -> 8 * (block_idx e + 1) <= vlen ws ->
  exists ws', SetRange ws s e = Some ws' /\
    changed ws ws' (fun k x => (apos s <=? k) && (k <=? apos e) || x).
Proof.
  intros Hws [Hs0 Hs] [He0 He] Hle Hlen. unfold SetRange.
  assert (block_idx s <= block_idx e) as Hse by (unfold apos, pos, off_ok in *; lia).
  set (kF := mkOff 0 0). set (kL := mkOff _ _).
  assert (off_ok kF /\ off_ok kL) as [HF HL] by (unfold off_ok; simpl; unfold kWordsInBlock, kBitsInWord; lia).
  assert (forall st, pos st kL = 64 * st + 511) as HposL by (intros; unfold pos, kL, kWordsInBlock, kBitsInWord; simpl; lia).
  assert (forall st, pos st kF = 64 * st) as HposF by (intros; unfold pos, kF; simpl; lia).
  destruct (BlockFromIndex_ok ws (block_idx s)) as [-> Hbs]; [done|lia|].
  destruct (Z.eqb_spec (block_idx s) (block_idx e)) as [Heq|Hne]; simpl.
  { destruct (Block_SetRange_ok ws (8 * block_idx s) (block_offset s) (block_offset e)) as (ws' & -> & Hc);
      [done..|unfold apos in Hle; rewrite Heq in *; done|].
    exists ws'. split; [done|]. unfold apos. rewrite <- Heq. done. }
  destruct (Block_SetRange_ok ws (8 * block_idx s) (block_offset s) kL) as (ws1 & -> & Hc1);
    [done..|rewrite HposL; unfold pos, off_ok in *; lia|]. simpl.
  destruct (for_loop_ind (fun i ws' => changed ws ws' (fun k x => (apos s <=? k) && (k <=? 512 * i - 1) || x))
    (block_idx s + 1) (block_idx e) (fun i ws => b ← BlockFromIndex ws i; Block_SetRange ws b kF kL) ws1)
    as (ws2 & -> & Hc2); [lia| | |].
  - rewrite HposL in Hc1. replace (512 * (block_idx s + 1) - 1) with (64 * (8 * block_idx s) + 511) by lia. done.
  - intros i ws2 Hi Hc2. pose proof Hc2 as (Hok2 & Hl2 & _).
    destruct (BlockFromIndex_ok ws2 i) as [-> Hb2]; [lia|unfold vlen in *; lia|]. simpl.
    destruct (Block_SetRange_ok ws2 (8 * i) kF kL) as (ws3 & -> & Hc3); [done..|rewrite HposL, HposF; lia|].
    exists ws3. split; [done|]. rewrite HposF, HposL in Hc3.
    eapply (set_ranges _ _ _ _ _ _ Hc2); [|unfold apos, pos, off_ok in *; lia..].
    replace (512 * i - 1 + 1) with (64 * (8 * i)) by lia. replace (512 * (i + 1) - 1) with (64 * (8 * i) + 511) by lia. done.
  - simpl. pose proof Hc2 as (Hok2 & Hl2 & _).
    destruct (BlockFromIndex_ok ws2 (block_idx e)) as [-> Hb2]; [lia|unfold vlen in *; lia|]. simpl.
    destruct (Block_SetRange_ok ws2 (8 * block_idx e) kF (block_offset e)) as (ws3 & -> & Hc3);
      [done..|rewrite HposF; unfold pos, off_ok in *; lia|].
    exists ws3. split; [done|]. rewrite HposF in Hc3.
    eapply (set_ranges _ _ _ _ _ _ Hc2); [|unfold apos, pos, off_ok in *; lia..].
    replace (512 * block_idx e - 1 + 1) with (64 * (8 * block_idx e)) by lia. done.
Qed.

(** ** What a bit vector represents *)

Definition lbit (l : list bool) (k : Z) : bool := default false (l !! Z.to_nat k).

(** The size up to which [BlockCount] does not wrap. *)
Definition kMaxSize : Z := 2 ^ 32 - 512.
Definition blocks (n : Z) : Z := (n + 511) / 512.

Record words_rep (ws : list Z) (l : list bool) : Prop := {
  wr_ok : words_ok ws;
  wr_len : vlen ws = 8 * blocks (vlen l);
  wr_bits : forall k, 0 <= k -> bit ws k = lbit l k }.
Definition counts_rep (counts : list Z) (l : list bool) : Prop :=
  vlen counts = blocks (vlen l) /\
  forall i, 0 <= i < blocks (vlen l) -> vec_get counts i = Some (cnt (lbit l) 0 (512 * i)).
Record rep (b : BitVector) (l : list bool) : Prop := {
  rep_size : size_ b = vlen l;
  rep_max : vlen l <= kMaxSize;
  rep_words : words_rep (words_ b) l;
  rep_counts : counts_rep (counts_ b) l }.

Lemma vlen_nonneg {A} (l : list A) : 0 <= vlen l.
Proof. unfold vlen. lia. Qed.

Lemma lbit_beyond l k : vlen l <= k -> lbit l k = false.
Proof. intros H. unfold lbit, vlen in *. rewrite lookup_ge_None_2 by lia. done. Qed.

Lemma lbit_lookup l k b : 0 <= k -> l !! Z.to_nat k = Some b -> lbit l k = b.
Proof. intros _ H. unfold lbit. rewrite H. done. Qed.

Lemma rep_empty : rep BitVector_empty [].
Proof.
  split; [done|unfold vlen, kMaxSize; simpl; lia|split; [by constructor|done|]|split; [done|]].
  - intros k Hk. unfold bit, lbit. simpl. apply Z.bits_0.
  - intros i Hi. change (blocks (vlen [])) with 0 in Hi. lia.
Qed.

(** ** Reading *)

Lemma CountSetBitsUntil_gen b f end_ : words_ok (words_ b) -> 0 < end_ < 2 ^ 32 ->
  8 * ((end_ - 1) / 512 + 1) <= vlen (words_ b) ->
  (forall k, 0 <= k < end_ -> bit (words_ b) k = f k) ->
  vec_get (counts_ b) ((end_ - 1) / 512) = Some (cnt f 0 (512 * ((end_ - 1) / 512))) ->
  CountSetBitsUntil b end_ = Some (cnt f 0 end_).
Proof.
  intros Hok He Hlen Hbits Hc. unfold CountSetBitsUntil.
  rewrite (proj2 (Z.eqb_neq _ _)), (u32_id (end_ - 1)) by (unfold is_u32; lia).
  destruct (IndexToAddress_ok (end_ - 1)) as ([Ha0 [Ha1 Ha2]] & Ha3 & Ha4); [lia|].
  generalize dependent (IndexToAddress (end_ - 1)). intros a Ha0 Ha1 Ha2 Ha3 Ha4. rewrite <- Ha4 in *.
  rewrite Hc. simpl. destruct (BlockFromIndex_ok (words_ b) (block_idx a)) as [-> [? ?]]; [done|lia|]. simpl.
  rewrite Block_CountSetBitsUntil_ok by (done || lia). simpl. f_equal. unfold apos, pos in Ha3.
  replace (64 * (8 * block_idx a)) with (512 * block_idx a) in * by lia.
  replace (512 * block_idx a + 64 * word_idx (block_offset a) + bit_idx (block_offset a) + 1) with end_ by lia.
  rewrite (cnt_ext (bit (words_ b)) f) by (intros; apply Hbits; lia).
  rewrite <- cnt_split by lia. pose proof (cnt_bounds f 0 end_). apply u32_id. unfold is_u32. lia.
Qed.

Section Reading.
Context (b : BitVector) (l : list bool) (H : rep b l).

Lemma IsSet_ok idx : 0 <= idx < vlen l -> IsSet b idx = Some (lbit l idx).
Proof using H.
  intros Hi. destruct H as [Hs Hm [Hok Hlen Hbits] _]. unfold IsSet, WordFloor, kBitsInWord. rewrite Hs.
  rewrite (proj2 (Z.ltb_lt _ _)) by lia.
  destruct (vec_get_some (words_ b) (idx / 64)) as [w Hw]; [unfold vlen, blocks in *; divlia|]. rewrite Hw. simpl.
  rewrite Word_IsSet_ok by divlia. rewrite <- Hbits, <- (bit_word _ _ _ _ Hw) by divlia.
  do 2 f_equal. divlia.
Qed.

Lemma CountSetBitsUntil_ok end_ : 0 <= end_ <= vlen l -> CountSetBitsUntil b end_ = Some (cnt (lbit l) 0 end_).
Proof using H.
  intros He. destruct H as [Hs Hm [Hok Hlen Hbits] [Hcl Hc]].
  destruct (decide (end_ = 0)) as [->|]; [done|]. unfold kMaxSize, blocks in *.
  apply CountSetBitsUntil_gen; [done|lia|divlia|intros; apply Hbits; lia|apply Hc; divlia].
Qed.

Lemma CountSetBits_ok : CountSetBits b = Some (cnt (lbit l) 0 (vlen l)).
Proof using H.
  unfold CountSetBits. rewrite (rep_size _ _ H). apply CountSetBitsUntil_ok. pose proof (vlen_nonneg l). lia.
Qed.
End Reading.

Lemma upper_bound_spec v n : (forall i j x y, (i <= j)%nat -> v !! i = Some x -> v !! j = Some y -> x <= y) ->
  forall i x, v !! i = Some x -> x <= n <-> (i < upper_bound v n)%nat.
Proof.
  induction v as [|c v IH]; intros Hs i x Hx; [done|]. simpl. destruct (Z.leb_spec c n).
  - destruct i as [|i]; simpl in Hx; [injection Hx as ->; split; lia|].
    rewrite (IH (fun i j x y Hij Hi Hj => Hs (S i) (S j) x y ltac:(lia) Hi Hj) i x Hx). lia.
  - split; [|lia]. intros Hn. pose proof (Hs 0%nat i c x ltac:(lia) eq_refl Hx). lia.
Qed.

Lemma upper_bound_le v n : (upper_bound v n <= length v)%nat.
Proof. induction v as [|c v IH]; simpl; [lia|]. destruct (c <=? n); lia. Qed.

(** The block that holds the n-th set bit. *)
Lemma upper_bound_counts counts l n : counts_rep counts l -> 0 <= n < cnt (lbit l) 0 (vlen l) ->
  exists blk, Z.of_nat (upper_bound counts n) = blk + 1 /\ 0 <= blk < blocks (vlen l) /\
    cnt (lbit l) 0 (512 * blk) <= n < cnt (lbit l) 0 (512 * blk + 512).
Proof.
  intros [Hcl Hc] Hn. pose proof (cnt_bounds (lbit l) 0 (vlen l)).
  assert (forall (i : nat) x, counts !! i = Some x -> Z.of_nat i < blocks (vlen l) /\ x = cnt (lbit l) 0 (512 * Z.of_nat i)) as Hget.
  { intros i x Hx. pose proof (lookup_lt_Some _ _ _ Hx). assert (Z.of_nat i < blocks (vlen l)) as Hi by (unfold vlen in *; lia).
    split; [done|]. destruct (proj1 (vec_get_lookup _ _ _) (Hc (Z.of_nat i) ltac:(lia))) as [_ H'].
    rewrite Nat2Z.id in H'. congruence. }
  assert (forall i x, counts !! i = Some x -> x <= n <-> (i < upper_bound counts n)%nat) as Hub.
  { apply upper_bound_spec. intros i j x y Hij Hx Hy.
    destruct (Hget _ _ Hx) as [_ ->], (Hget _ _ Hy) as [_ ->]. apply cnt_mono. lia. }
  pose proof (upper_bound_le counts n) as Hle. assert (0 < blocks (vlen l)) as Hpos by (unfold blocks; divlia).
  destruct (lookup_lt_is_Some_2 counts 0) as [c0 H0]; [unfold vlen in *; lia|].
  destruct (Hget _ _ H0) as [_ Hc0]. rewrite cnt_nil in Hc0 by lia.
  pose proof (proj1 (Hub _ _ H0) ltac:(lia)) as Hub0.
  exists (Z.of_nat (upper_bound counts n) - 1). split; [lia|]. split; [unfold vlen in *; lia|].
  destruct (lookup_lt_is_Some_2 counts (upper_bound counts n - 1)%nat) as [c1 H1]; [lia|].
  destruct (Hget _ _ H1) as [_ Hc1]. pose proof (proj2 (Hub _ _ H1) ltac:(lia)).
  replace (Z.of_nat (upper_bound counts n - 1)) with (Z.of_nat (upper_bound counts n) - 1) in Hc1 by lia. split; [lia|].
  destruct (counts !! upper_bound counts n) as [c2|] eqn:Hn2.
  - destruct (Hget _ _ Hn2) as [_ Hc2]. pose proof (Hub _ _ Hn2).
    replace (512 * (Z.of_nat (upper_bound counts n) - 1) + 512) with (512 * Z.of_nat (upper_bound counts n)) by lia. lia.
  - apply lookup_ge_None in Hn2. apply Z.lt_le_trans with (cnt (lbit l) 0 (vlen l)); [lia|].
    apply cnt_mono. unfold vlen, blocks in *. divlia.
Qed.

Lemma IndexOfNthSet_ok b l n : rep b l -> 0 <= n < cnt (lbit l) 0 (vlen l) ->
  exists i, IndexOfNthSet b n = Some i /\ 0 <= i < vlen l /\ lbit l i = true /\ cnt (lbit l) 0 i = n.
Proof.
  intros H Hn. unfold IndexOfNthSet. rewrite (CountSetBits_ok b l H). cbn [mbind option_bind].
  destruct H as [Hs Hm [Hok Hlen Hbits] Hcr]. rewrite (proj2 (Z.ltb_lt _ _)) by lia.
  destruct (upper_bound_counts _ _ _ Hcr Hn) as (blk & -> & Hblk & Hcnt). destruct Hcr as [Hcl Hc].
  rewrite (proj2 (Z.eqb_neq _ _)) by lia. rewrite Z.add_simpl_r, Hc by done. cbn [mbind option_bind].
  destruct (BlockFromIndex_ok (words_ b) blk) as [-> [Hst Hst8]]; [lia|lia|]. cbn [mbind option_bind].
  pose proof (cnt_bounds (lbit l) 0 (512 * blk)). pose proof (cnt_bounds (lbit l) 0 (vlen l)).
  unfold kMaxSize in Hm. rewrite u32_id by (unfold is_u32; lia).
  assert (forall a c, 0 <= a -> cnt (bit (words_ b)) a c = cnt (lbit l) a c) as Hcb.
  { intros a c Ha. apply cnt_ext. intros k Hk. apply Hbits. lia. }
  rewrite (cnt_split (lbit l) 0 (512 * blk) (512 * blk + 512)) in Hcnt by lia.
  destruct (nth_set_loop_ok 8 (words_ b) (8 * blk) Hok 0 0 (n - cnt (lbit l) 0 (512 * blk)))
    as (o & Hnth & Hw & Hb & Hbit & Hpos); try lia.
  { rewrite cnt_nil by lia. done. }
  { rewrite Hcb by lia. replace (64 * (8 * blk)) with (512 * blk) by lia. lia. }
  unfold Block_IndexOfNthSet. rewrite Hnth. cbn [mbind option_bind].
  rewrite Hbits in Hbit by lia. rewrite Hcb in Hpos by lia.
  replace (64 * (8 * blk)) with (512 * blk) in * by lia.
  assert (512 * blk + 64 * word_idx o + bit_idx o < vlen l) as Hlt.
  { destruct (decide (512 * blk + 64 * word_idx o + bit_idx o < vlen l)); [done|]. rewrite lbit_beyond in Hbit by lia. done. }
  rewrite AddressToIndex_ok by (unfold apos, pos; simpl; lia). eexists. split; [done|].
  unfold apos, pos. simpl block_idx. simpl block_offset. replace (64 * (8 * blk)) with (512 * blk) by lia.
  split; [lia|]. split; [done|]. rewrite (cnt_split _ 0 (512 * blk)) by lia. lia.
Qed.

(** ** Writing single bits *)

Lemma vec_get_insert {A} (v : list A) i j x : 0 <= i < vlen v -> 0 <= j ->
  vec_get (<[Z.to_nat i := x]> v) j = if j =? i then Some x else vec_get v j.
Proof.
  intros Hi Hj. unfold vec_get, vlen in *. rewrite (proj2 (Z.leb_le _ _)) by lia.
  destruct (Z.eqb_spec j i) as [->|]; [apply list_lookup_insert_eq; lia|apply list_lookup_insert_ne; lia].
Qed.

(** A loop that changes every element of a vector from a position on. *)
Lemma map_loop_ok (f : Z -> Z -> Z) from v : 0 <= from <= vlen v ->
  exists v', for_loop from (vlen v) (fun i v => c ← vec_get v i; vec_set v i (f i c)) v = Some v' /\
    length v' = length v /\
    forall j, 0 <= j -> vec_get v' j = if from <=? j then f j <$> vec_get v j else vec_get v j.
Proof.
  intros Hf. destruct (for_loop_ind (fun i v' => length v' = length v /\
    forall j, 0 <= j -> vec_get v' j = if (from <=? j) && (j <? i) then f j <$> vec_get v j else vec_get v j)
    from (vlen v) (fun i v => c ← vec_get v i; vec_set v i (f i c)) v) as (v' & -> & Hl & Hv); [lia| | |].
  - split; [done|]. intros j Hj. replace ((from <=? j) && (j <? from)) with false; [done|].
    symmetry. rewrite andb_false_iff, Z.leb_gt, Z.ltb_ge. lia.
  - intros i v1 Hi [Hl Hv]. destruct (vec_get_some v1 i) as [c Hc]; [unfold vlen in *; lia|]. rewrite Hc. simpl.
    rewrite vec_set_some by (unfold vlen in *; lia). eexists. split; [done|]. split; [by rewrite length_insert|].
    intros j Hj. rewrite vec_get_insert by (unfold vlen in *; lia). destruct (Z.eqb_spec j i) as [->|].
    + rewrite (proj2 (Z.leb_le _ _)), (proj2 (Z.ltb_lt _ _)) by lia. simpl.
      rewrite Hv, (proj2 (Z.ltb_ge i i)), andb_false_r in Hc by lia. rewrite Hc. done.
    + rewrite Hv by done. replace (j <? i + 1) with (j <? i); [done|]. apply Bool.eq_iff_eq_true. rewrite !Z.ltb_lt. lia.
  - exists v'. split; [done|]. split; [done|]. intros j Hj. rewrite Hv by done.
    destruct (Z.leb_spec from j), (Z.ltb_spec j (vlen v)); try done. simpl.
    unfold vec_get, vlen in *. rewrite (proj2 (Z.leb_le _ _)), lookup_ge_None_2 by lia. done.
Qed.

Lemma lbit_insert l i x k : 0 <= i < vlen l -> 0 <= k ->
  lbit (<[Z.to_nat i := x]> l) k = if k =? i then x else lbit l k.
Proof.
  intros Hi Hk. unfold lbit, vlen in *. destruct (Z.eqb_spec k i) as [->|].
  - rewrite list_lookup_insert_eq by lia. done.
  - rewrite list_lookup_insert_ne by lia. done.
Qed.

Lemma cnt_change f g i hi : 0 <= i -> (forall k, k <> i -> g k = f k) ->
  cnt g 0 hi = cnt f 0 hi + (if i <? hi then Z.b2z (g i) - Z.b2z (f i) else 0).
Proof.
  intros Hi Hg. destruct (Z.ltb_spec i hi).
  - rewrite (cnt_split g 0 i hi), (cnt_split f 0 i hi), (cnt_cons g i hi), (cnt_cons f i hi) by lia.
    rewrite (cnt_ext g f 0 i), (cnt_ext g f (i + 1) hi) by (intros; apply Hg; lia).
    destruct (g i), (f i); simpl; lia.
  - rewrite Z.add_0_r. apply cnt_ext. intros k Hk. apply Hg. lia.
Qed.

Lemma counts_bounds l i : 0 <= i < blocks (vlen l) -> vlen l <= kMaxSize -> 0 <= cnt (lbit l) 0 (512 * i) < 2 ^ 32 - 1.
Proof.
  intros Hi Hm. pose proof (cnt_bounds (lbit l) 0 (512 * i)). unfold blocks, kMaxSize in *. divlia.
Qed.

(** The counts after a bit was changed by [d]. *)
Lemma bump_counts_ok counts l i x d : counts_rep counts l -> vlen l <= kMaxSize -> 0 <= i < vlen l ->
  d = Z.b2z x - Z.b2z (lbit l i) ->
  exists counts', bump_counts counts (i / 512 + 1) d = Some counts' /\ counts_rep counts' (<[Z.to_nat i := x]> l).
Proof.
  intros [Hcl Hc] Hm Hi Hd. destruct (map_loop_ok (fun _ c => u32 (c + d)) (i / 512 + 1) counts) as (c' & Hloop & Hl' & Hc').
  { rewrite Hcl. unfold blocks. divlia. }
  exists c'. split; [exact Hloop|]. unfold counts_rep. unfold vlen in *. rewrite length_insert, Hl'. split; [done|].
  intros j Hj. rewrite Hc' by lia. rewrite Hc by done.
  assert (cnt (lbit (<[Z.to_nat i := x]> l)) 0 (512 * j) = cnt (lbit l) 0 (512 * j) + (if i <? 512 * j then d else 0)) as ->.
  { rewrite (cnt_ext _ (fun k => if k =? i then x else lbit l k)) by (intros; apply lbit_insert; unfold vlen; lia).
    rewrite (cnt_change (lbit l) _ i) by (lia || (intros k Hk; rewrite (proj2 (Z.eqb_neq _ _)) by done; done)).
    rewrite Z.eqb_refl. rewrite Hd. done. }
  pose proof (counts_bounds l j Hj Hm) as Hb.
  replace (i <? 512 * j) with (i / 512 + 1 <=? j) by (apply Bool.eq_iff_eq_true; rewrite Z.leb_le, Z.ltb_lt; divlia).
  destruct (Z.leb_spec (i / 512 + 1) j); simpl; [|f_equal; lia]. f_equal. apply u32_id. unfold is_u32.
  destruct (decide (d < 0)); [|destruct x, (lbit l i); simpl in *; lia].
  assert (lbit l i = true) by (destruct x, (lbit l i); simpl in *; try done; lia).
  assert (0 < cnt (lbit l) 0 (512 * j)).
  { rewrite (cnt_split _ 0 i), (cnt_cons _ i) by divlia. rewrite H0.
    pose proof (cnt_bounds (lbit l) 0 i). pose proof (cnt_bounds (lbit l) (i + 1) (512 * j)). lia. }
  destruct x, (lbit l i); simpl in *; lia.
Qed.

Lemma insert_lbit_same l i : 0 <= i < vlen l -> <[Z.to_nat i := lbit l i]> l = l.
Proof.
  intros Hi. apply list_insert_id. unfold lbit, vlen in *.
  destruct (lookup_lt_is_Some_2 l (Z.to_nat i)) as [x Hx]; [lia|]. rewrite Hx. done.
Qed.

(** Where a bit is stored. *)
Lemma bit_address ws l i : words_rep ws l -> 0 <= i < vlen l ->
  BlockFromIndex ws (block_idx (IndexToAddress i)) = Some (8 * (i / 512)) /\ block_in ws (8 * (i / 512)) /\
  off_ok (block_offset (IndexToAddress i)) /\ pos (8 * (i / 512)) (block_offset (IndexToAddress i)) = i.
Proof.
  intros [_ Hlen _] Hi. destruct (IndexToAddress_ok i) as ([Ha0 Hao] & Ha & Hb); [lia|].
  unfold apos in Ha. rewrite Hb in *.
  destruct (BlockFromIndex_ok ws (i / 512)) as [-> ?]; [done|rewrite Hlen; unfold blocks; divlia|]. done.
Qed.

Lemma words_rep_insert ws ws' l i x : words_rep ws l -> 0 <= i < vlen l ->
  changed ws ws' (fun k y => if k =? i then x else y) -> words_rep ws' (<[Z.to_nat i := x]> l).
Proof.
  intros [Hok Hlen Hbits] Hi (Hok' & Hlen' & Hbits'). split; [done|unfold vlen in *; rewrite length_insert; lia|].
  intros k Hk. rewrite Hbits', lbit_insert, Hbits by (done || lia). done.
Qed.

Lemma vlen_insert {A} i (x : A) l : vlen (<[i := x]> l) = vlen l.
Proof. unfold vlen. rewrite length_insert. done. Qed.

Lemma SetBit_ok b l i : rep b l -> 0 <= i < vlen l ->
  exists b', SetBit b i = Some (b', lbit l i) /\ rep b' (<[Z.to_nat i := true]> l).
Proof.
  intros H Hi. pose proof H as [Hs Hm Hw Hc]. destruct (bit_address _ _ _ Hw Hi) as (Hblk & Hin & Ho & Hp).
  unfold SetBit. rewrite Hblk. runs. rewrite Block_IsSet_ok by done. rewrite Hp, (wr_bits _ _ Hw) by lia. runs.
  destruct (lbit l i) eqn:Hb; runs.
  - exists b. split; [done|]. rewrite <- Hb, insert_lbit_same by done. done.
  - destruct (Block_Set_ok _ _ _ (wr_ok _ _ Hw) Hin Ho) as (ws' & -> & Hch). runs.
    destruct (bump_counts_ok (counts_ b) l i true 1 Hc Hm Hi) as (c' & Hbump & Hc'); [by rewrite Hb|].
    destruct (IndexToAddress_ok i) as (_ & _ & ->); [lia|]. rewrite Hbump. runs. eexists. split; [done|].
    split; simpl; rewrite ?vlen_insert; try done. eapply words_rep_insert; [done|done|].
    rewrite Hp in Hch. eapply changed_impl; [exact Hch| |].
    + intros k Hk. simpl. destruct (k =? i); done.
    + intros k Hk. rewrite (wr_len _ _ Hw) in Hk. rewrite (proj2 (Z.eqb_neq _ _)) by (unfold blocks in *; divlia). done.
Qed.

Lemma ClearBit_ok b l i : rep b l -> 0 <= i < vlen l ->
  exists b', ClearBit b i = Some b' /\ rep b' (<[Z.to_nat i := false]> l).
Proof.
  intros H Hi. pose proof H as [Hs Hm Hw Hc]. destruct (bit_address _ _ _ Hw Hi) as (Hblk & Hin & Ho & Hp).
  unfold ClearBit. rewrite Hblk. runs. rewrite Block_IsSet_ok by done. rewrite Hp, (wr_bits _ _ Hw) by lia. runs.
  destruct (lbit l i) eqn:Hb; runs.
  - destruct (Block_Clear_ok _ _ _ (wr_ok _ _ Hw) Hin Ho) as (ws' & -> & Hch). runs.
    destruct (bump_counts_ok (counts_ b) l i false (-1) Hc Hm Hi) as (c' & Hbump & Hc'); [by rewrite Hb|].
    destruct (IndexToAddress_ok i) as (_ & _ & ->); [lia|]. rewrite Hbump. runs. eexists. split; [done|].
    split; simpl; rewrite ?vlen_insert; try done. eapply words_rep_insert; [done|done|].
    rewrite Hp in Hch. eapply changed_impl; [exact Hch| |].
    + intros k Hk. simpl. destruct (k =? i); done.
    + intros k Hk. destruct (k =? i); done.
  - exists b. split; [done|]. rewrite <- Hb, insert_lbit_same by done. done.
Qed.

(** ** Appending *)

Lemma lbit_app l m k : 0 <= k -> lbit (l ++ m) k = if k <? vlen l then lbit l k else lbit m (k - vlen l).
Proof.
  intros Hk. unfold lbit, vlen. destruct (Z.ltb_spec k (Z.of_nat (length l))).
  - rewrite lookup_app_l by lia. done.
  - rewrite lookup_app_r by lia. do 2 f_equal. lia.
Qed.

Lemma vlen_app {A} (l m : list A) : vlen (l ++ m) = vlen l + vlen m.
Proof. unfold vlen. rewrite length_app. lia. Qed.

Lemma bit_app_zeros ws n k : 0 <= k -> bit (ws ++ replicate n 0) k = bit ws k.
Proof.
  intros Hk. unfold bit. f_equal. destruct (decide (Z.to_nat (k / 64) < length ws)%nat).
  - rewrite lookup_app_l by done. done.
  - rewrite lookup_app_r, default_lookup_replicate, lookup_ge_None_2 by lia. done.
Qed.

Lemma vec_get_app_l {A} (v w : list A) i : i < vlen v -> vec_get (v ++ w) i = vec_get v i.
Proof.
  intros Hi. unfold vec_get, vlen in *. destruct (Z.leb_spec 0 i); [|done]. rewrite lookup_app_l by lia. done.
Qed.

Lemma AppendFalse_ok b l : rep b l -> vlen l < kMaxSize ->
  exists b', AppendFalse b = Some b' /\ rep b' (l ++ [false]).
Proof.
  intros H Hm. pose proof H as [Hs _ [Hok Hlen Hbits] [Hcl Hc]]. unfold AppendFalse.
  pose proof (vlen_nonneg l) as H0. assert (vlen [false] = 1) as H1 by done.
  destruct (IndexToAddress_ok (size_ b)) as (_ & _ & ->); [lia|].
  assert (vlen (words_ b) < 2 ^ 32) by (rewrite Hlen; unfold blocks, kMaxSize in *; divlia).
  rewrite (u32_id (vlen _)) by (unfold is_u32; pose proof (vlen_nonneg (words_ b)); lia).
  rewrite (u32_id (size_ b + 1)) by (unfold is_u32, kMaxSize in *; lia).
  assert (forall k, 0 <= k -> lbit (l ++ [false]) k = lbit l k) as Hlb.
  { intros k Hk. rewrite lbit_app by done. destruct (Z.ltb_spec k (vlen l)); [done|].
    rewrite (lbit_beyond l) by done. unfold lbit. destruct (Z.to_nat _) as [|[]]; done. }
  rewrite Hs, Hlen. unfold kWordsInBlock. rewrite (Z.mul_comm 8), Z.div_mul by lia.
  destruct (Z.ltb_spec (blocks (vlen l)) (vlen l / 512 + 1)).
  - rewrite (CountSetBits_ok b l H). runs. eexists. split; [done|].
    assert (vlen l = 512 * blocks (vlen l)) as Hfull by (unfold blocks in *; divlia).
    assert (blocks (vlen l + 1) = blocks (vlen l) + 1) as Hb1 by (unfold blocks in *; divlia).
    split; cbn [size_ words_ counts_]; rewrite ?vlen_app, ?H1; try lia.
    + split; rewrite ?vlen_app; [by apply Forall_app_2, Forall_replicate|rewrite H1, Hb1, Hlen; unfold vlen; simpl; lia|].
      intros k Hk. rewrite bit_app_zeros, Hbits, Hlb by done. done.
    + unfold counts_rep. rewrite !vlen_app, H1, Hb1, Hcl. split; [done|]. intros i Hi.
      rewrite (cnt_ext (lbit (l ++ [false])) (lbit l)) by (intros; apply Hlb; lia).
      destruct (decide (i = blocks (vlen l))) as [->|].
      * rewrite <- Hfull. unfold vec_get. rewrite (proj2 (Z.leb_le _ _)), lookup_app_r by (unfold vlen in *; lia).
        replace (Z.to_nat _ - _)%nat with 0%nat by (unfold vlen in *; lia). done.
      * rewrite vec_get_app_l, Hc by lia. done.
  - eexists. split; [done|]. assert (blocks (vlen l + 1) = blocks (vlen l)) as Hb1 by (unfold blocks in *; divlia).
    split; simpl; rewrite ?vlen_app, ?H1; try lia.
    + split; rewrite ?vlen_app; [done|rewrite H1, Hb1; done|]. intros k Hk. rewrite Hbits, Hlb by done. done.
    + unfold counts_rep. rewrite vlen_app, H1, Hb1. split; [done|]. intros i Hi.
      rewrite (cnt_ext (lbit (l ++ [false])) (lbit l)) by (intros; apply Hlb; lia). apply Hc. done.
Qed.

Lemma AppendTrue_ok b l : rep b l -> vlen l < kMaxSize ->
  exists b', AppendTrue b = Some b' /\ rep b' (l ++ [true]).
Proof.
  intros H Hm. unfold AppendTrue. destruct (AppendFalse_ok b l H Hm) as (b1 & -> & Hr). runs.
  pose proof Hr as [Hs Hm1 Hw [Hcl Hc]]. pose proof (vlen_nonneg l). rewrite vlen_app in *. change (vlen [false]) with 1 in *.
  rewrite Hs. replace (u32 (vlen l + 1 - 1)) with (vlen l)
    by (rewrite Z.add_simpl_r; symmetry; apply u32_id; unfold is_u32, kMaxSize in *; lia).
  destruct (bit_address _ _ (vlen l) Hw) as (-> & Hin & Ho & Hp); [rewrite vlen_app; change (vlen [false]) with 1; lia|].
  runs. destruct (Block_Set_ok _ _ _ (wr_ok _ _ Hw) Hin Ho) as (ws' & -> & Hch). runs. eexists. split; [done|].
  assert (l ++ [true] = <[Z.to_nat (vlen l) := true]> (l ++ [false])) as ->.
  { unfold vlen. rewrite Nat2Z.id. rewrite <- (Nat.add_0_r (length l)), insert_app_r. done. }
  split; simpl; rewrite ?vlen_insert, ?vlen_app; try done.
  - eapply words_rep_insert; [done|rewrite vlen_app; change (vlen [false]) with 1; lia|]. rewrite Hp in Hch.
    eapply changed_impl; [exact Hch|intros k Hk; simpl; destruct (k =? vlen l); done|].
    intros k Hk. rewrite (wr_len _ _ Hw), vlen_app in Hk. change (vlen [false]) with 1 in Hk.
    rewrite (proj2 (Z.eqb_neq _ _)) by (unfold blocks in *; divlia). done.
  - unfold counts_rep. rewrite vlen_insert, vlen_app. split; [done|]. intros i Hi. rewrite Hc by done. f_equal.
    apply cnt_ext. intros k Hk. rewrite lbit_insert by (rewrite ?vlen_app; change (vlen [false]) with 1; lia).
    change (vlen [false]) with 1 in *. rewrite (proj2 (Z.eqb_neq _ _)) by (unfold blocks in *; divlia). done.
Qed.

Lemma BitVector_Append_ok b l x : rep b l -> vlen l < kMaxSize ->
  exists b', BitVector_Append b x = Some b' /\ rep b' (l ++ [x]).
Proof. destruct x; [apply AppendTrue_ok|apply AppendFalse_ok]. Qed.
