(* ===== verification/BitVectorOps.v ===== *)
(** * Operations on whole bit vectors

    Continues [BitVector.v] with the operations of
    [src/trace_processor/containers/bit_vector.cc] that change or make whole vectors:
    resizing and the logical operations. Each is shown to act on the represented list of
    booleans as its description says. *)

From S2P Require Import Prelude BitWord BitVector.

(** ** Resizing *)

Lemma bit_resize n ws k : 0 <= k -> bit (resize n 0 ws) k = (k / 64 <? Z.of_nat n) && bit ws k.
Proof.
  intros Hk. unfold bit. assert (0 <= k / 64) by divlia. destruct (Z.ltb_spec (k / 64) (Z.of_nat n)); simpl.
  - f_equal. destruct (decide (Z.to_nat (k / 64) < length ws)%nat).
    + rewrite lookup_resize by lia. done.
    + rewrite lookup_resize_new, lookup_ge_None_2 by lia. done.
  - rewrite lookup_resize_old by lia. apply Z.bits_0.
Qed.

Lemma words_ok_resize n ws : words_ok ws -> words_ok (resize n 0 ws).
Proof. intros H. apply Forall_resize; [unfold is_u64; lia|done]. Qed.

Lemma vlen_resize {A} n (x : A) l : vlen (resize n x l) = Z.of_nat n.
Proof. unfold vlen. rewrite length_resize. done. Qed.

Lemma lbit_resize n x l k : 0 <= k ->
  lbit (resize n x l) k = (k <? Z.of_nat n) && (if k <? vlen l then lbit l k else x).
Proof.
  intros Hk. unfold lbit, vlen. destruct (Z.ltb_spec k (Z.of_nat n)); simpl.
  - destruct (Z.ltb_spec k (Z.of_nat (length l))).
    + rewrite lookup_resize by lia. done.
    + rewrite lookup_resize_new by lia. done.
  - rewrite lookup_resize_old by lia. done.
Qed.

Lemma vec_get_resize n x v i : 0 <= i < Z.of_nat n -> i < vlen v -> vec_get (resize n x v) i = @vec_get Z v i.
Proof.
  intros Hi Hv. unfold vec_get, vlen in *. rewrite (proj2 (Z.leb_le _ _)), lookup_resize by lia. done.
Qed.

Lemma blocks_mono a b : a <= b -> blocks a <= blocks b.
Proof. unfold blocks. intros. apply Z.div_le_mono; lia. Qed.

(** The end of a vector that is cut to [n] bits; the words may hold anything. *)
Lemma shrink_words ws n : words_ok ws -> 0 < n < 2 ^ 32 ->
  exists ws', (st ← BlockFromIndex (resize (Z.to_nat (8 * blocks n)) 0 ws) (block_idx (IndexToAddress (n - 1)));
    Block_ClearAfter (resize (Z.to_nat (8 * blocks n)) 0 ws) st (block_offset (IndexToAddress (n - 1)))) = Some ws' /\
    words_ok ws' /\ vlen ws' = 8 * blocks n /\ forall k, 0 <= k -> bit ws' k = (k <? n) && bit ws k.
Proof.
  intros Hok Hn. destruct (IndexToAddress_ok (n - 1)) as ([Ha0 Ho] & Hp & Hb); [lia|].
  assert (blocks n = (n - 1) / 512 + 1) as Hbl by (unfold blocks; divlia).
  assert (0 <= 8 * blocks n) as Hpos by (unfold blocks; divlia).
  set (ws1 := resize _ 0 ws). assert (vlen ws1 = 8 * blocks n) as Hl1 by (unfold ws1; rewrite vlen_resize; lia).
  unfold apos in Hp. rewrite Hb in *.
  destruct (BlockFromIndex_ok ws1 ((n - 1) / 512)) as [-> Hin]; [done|lia|]. runs.
  destruct (Block_ClearAfter_ok ws1 _ _ (words_ok_resize _ _ Hok) Hin Ho) as (ws' & -> & Hok' & Hlen & Hbits).
  exists ws'. split; [done|]. split; [done|]. split; [unfold vlen in *; lia|]. intros k Hk. rewrite Hbits by done.
  unfold ws1. rewrite bit_resize, Hp, andb_assoc by done. rewrite Z2Nat.id by done.
  destruct (bit ws k); [rewrite !andb_true_r|rewrite !andb_false_r; done].
  apply Bool.eq_iff_eq_true. rewrite andb_true_iff, negb_true_iff, andb_false_iff, !Z.ltb_lt, !Z.ltb_ge. divlia.
Qed.

Lemma Resize_same b l x : rep b l -> Resize b (vlen l) x = Some b.
Proof. intros H. unfold Resize. rewrite (rep_size _ _ H), Z.eqb_refl. done. Qed.

Lemma resize_take n x (l : list bool) : (n <= length l)%nat -> resize n x l = take n l.
Proof. intros H. apply resize_le. done. Qed.

(** Cutting a vector whose words may hold anything. *)
Lemma Resize_cut b n x : words_ok (words_ b) -> 0 < n < size_ b -> size_ b < 2 ^ 32 ->
  exists ws', Resize b n x = Some (mkBV n (resize (Z.to_nat (blocks n)) 0 (counts_ b)) ws') /\
    words_ok ws' /\ vlen ws' = 8 * blocks n /\ forall k, 0 <= k -> bit ws' k = (k <? n) && bit (words_ b) k.
Proof.
  intros Hok Hn Hs. unfold Resize, kWordsInBlock. rewrite (proj2 (Z.eqb_neq n _)), (proj2 (Z.eqb_neq n 0)) by lia.
  rewrite (u32_id (n - 1)) by (unfold is_u32; lia). rewrite (proj2 (Z.ltb_ge _ _)) by lia.
  destruct (IndexToAddress_ok (n - 1)) as (_ & _ & Hblk); [lia|].
  assert ((n - 1) / 512 + 1 = blocks n) as Hbn by (unfold blocks; divlia).
  rewrite Hblk, Hbn. cbn [words_ counts_ size_]. rewrite <- Hblk.
  destruct (shrink_words (words_ b) n Hok ltac:(lia)) as (ws' & Hrun & Hok' & Hlen' & Hbits').
  destruct (BlockFromIndex _ _) as [st|]; [|done]. revert Hrun. runs. intros ->. runs. eauto 10.
Qed.

Lemma Resize_shrink b l n x : rep b l -> 0 <= n < vlen l ->
  exists b', Resize b n x = Some b' /\ rep b' (take (Z.to_nat n) l).
Proof.
  intros [Hs Hm [Hok Hlen Hbits] [Hcl Hc]] Hn. destruct (decide (n = 0)) as [->|].
  { exists BitVector_empty. unfold Resize. rewrite Hs, (proj2 (Z.eqb_neq 0 _)) by lia. split; [done|apply rep_empty]. }
  unfold kMaxSize in *. destruct (Resize_cut b n x Hok) as (ws' & -> & Hok' & Hlen' & Hbits'); [lia|lia|].
  eexists. split; [done|]. assert (vlen (take (Z.to_nat n) l) = n) as Hvl by (unfold vlen in *; rewrite length_take; lia).
  assert (forall k, 0 <= k -> lbit (take (Z.to_nat n) l) k = (k <? n) && lbit l k) as Hlb.
  { intros k Hk. rewrite <- (resize_take _ false) by (unfold vlen in *; lia). rewrite lbit_resize by done.
    rewrite Z2Nat.id by lia. destruct (Z.ltb_spec k n); [|done]. rewrite (proj2 (Z.ltb_lt _ _)) by lia. done. }
  pose proof (blocks_mono n (vlen l) ltac:(lia)). assert (0 <= blocks n) by (unfold blocks; divlia).
  split; cbn [size_ words_ counts_]; rewrite ?Hvl; try (unfold kMaxSize; lia).
  - split; [done|rewrite Hvl; done|]. intros k Hk. rewrite Hbits', Hlb, Hbits by done. done.
  - unfold counts_rep. rewrite Hvl, vlen_resize. split; [lia|]. intros i Hi.
    rewrite vec_get_resize, Hc by lia. f_equal. apply cnt_ext. intros k Hk. rewrite Hlb by lia.
    rewrite (proj2 (Z.ltb_lt _ _)) by (unfold blocks in *; divlia). done.
Qed.

(** Writing the same kind of value to a range of counts. *)
Lemma fill_loop_ok v (g : Z -> Z) lo hi : 0 <= lo <= hi -> hi <= vlen v ->
  exists v', for_loop lo hi (fun i v => vec_set v i (g i)) v = Some v' /\ vlen v' = vlen v /\
    forall j, 0 <= j -> vec_get v' j = if (lo <=? j) && (j <? hi) then Some (g j) else vec_get v j.
Proof.
  intros Hlo Hhi. apply (for_loop_ind (fun i v' => vlen v' = vlen v /\
    forall j, 0 <= j -> vec_get v' j = if (lo <=? j) && (j <? i) then Some (g j) else vec_get v j)); [lia| |].
  - split; [done|]. intros j Hj. replace ((lo <=? j) && (j <? lo)) with false; [done|].
    symmetry. rewrite andb_false_iff, Z.leb_gt, Z.ltb_ge. lia.
  - intros i v1 Hi [Hl Hv]. rewrite vec_set_some by (unfold vlen in *; lia). eexists. split; [done|].
    split; [by rewrite vlen_insert|]. intros j Hj. rewrite vec_get_insert by (done || lia).
    destruct (Z.eqb_spec j i) as [->|].
    + rewrite (proj2 (Z.leb_le _ _)), (proj2 (Z.ltb_lt _ _)) by lia. done.
    + rewrite Hv by done. replace (j <? i + 1) with (j <? i); [done|]. apply Bool.eq_iff_eq_true. rewrite !Z.ltb_lt. lia.
Qed.

Lemma fill_counts_ok v from last s : 0 <= from <= last + 1 -> last < vlen v ->
  exists v' m, fill_counts v from last s = Some (v', m) /\ vlen v' = vlen v /\
    forall j, 0 <= j -> vec_get v' j = if (from <=? j) && (j <=? last)
      then Some (if j =? from then s else u32 (s + 512 * (j - from))) else vec_get v j.
Proof.
  intros Hf Hl. unfold fill_counts.
  destruct (for_loop_ind (fun i '(v', m) => m = (if i =? from then s else u32 (s + 512 * (i - from))) /\ vlen v' = vlen v /\
    forall j, 0 <= j -> vec_get v' j = if (from <=? j) && (j <? i)
      then Some (if j =? from then s else u32 (s + 512 * (j - from))) else vec_get v j) from (last + 1)
    (fun i '(counts, n) => counts ← vec_set counts i n; Some (counts, u32 (n + kBitsInBlock))) (v, s))
    as ([v' m] & Hrun & _ & Hlen & Hv); [lia| | |].
  - rewrite Z.eqb_refl. split_and!; [done..|]. intros j Hj. replace ((from <=? j) && (j <? from)) with false; [done|].
    symmetry. rewrite andb_false_iff, Z.leb_gt, Z.ltb_ge. lia.
  - intros i [v1 m1] Hi (Hm & Hl1 & Hv1). rewrite vec_set_some by (unfold vlen in *; lia). runs. eexists. split; [done|].
    split_and!.
    + rewrite (proj2 (Z.eqb_neq (i + 1) from)), Hm by lia. change kBitsInBlock with 512.
      destruct (Z.eqb_spec i from) as [->|]; unfold u32; rewrite ?Zplus_mod_idemp_l; f_equal; lia.
    + rewrite vlen_insert. done.
    + intros j Hj. rewrite vec_get_insert by (done || lia). destruct (Z.eqb_spec j i) as [->|].
      * rewrite (proj2 (Z.leb_le _ _)), (proj2 (Z.ltb_lt _ _)), Hm by lia. done.
      * rewrite Hv1 by done. replace (j <? i + 1) with (j <? i); [done|]. apply Bool.eq_iff_eq_true. rewrite !Z.ltb_lt. lia.
  - exists v', m. split; [exact Hrun|]. split; [done|]. intros j Hj. rewrite Hv by done.
    replace (j <? last + 1) with (j <=? last); [done|]. apply Bool.eq_iff_eq_true. rewrite Z.ltb_lt, Z.leb_le. lia.
Qed.

Section Grow.
Context (b : BitVector) (l : list bool) (n : Z) (H : rep b l) (Hn : vlen l < n <= kMaxSize).
Let nb := blocks n.
Let grown := mkBV (vlen l) (resize (Z.to_nat nb) 0 (counts_ b)) (resize (Z.to_nat (8 * nb)) 0 (words_ b)).

Local Lemma grow_blocks : 0 <= blocks (vlen l) <= nb /\ 0 < nb < 2 ^ 24.
Proof using Hn.
  pose proof (vlen_nonneg l). pose proof (blocks_mono (vlen l) n ltac:(lia)).
  unfold nb, blocks, kMaxSize in *. divlia.
Qed.

Local Lemma grown_bits k : 0 <= k -> bit (words_ grown) k = lbit l k.
Proof using H Hn.
  intros Hk. destruct H as [_ _ [_ Hlen Hbits] _]. pose proof grow_blocks. unfold grown. cbn [words_].
  rewrite bit_resize, Hbits, Z2Nat.id by (done || lia). destruct (Z.ltb_spec (k / 64) (8 * nb)); [done|].
  rewrite lbit_beyond; [done|]. unfold nb, blocks in *. divlia.
Qed.

Local Lemma grown_counts i : 0 <= i < blocks (vlen l) -> vec_get (counts_ grown) i = Some (cnt (lbit l) 0 (512 * i)).
Proof using H Hn.
  intros Hi. destruct H as [_ _ _ [Hcl Hc]]. pose proof grow_blocks. unfold grown. cbn [counts_].
  rewrite vec_get_resize, Hc by lia. done.
Qed.

(** The old bits are counted while the vector is already larger. *)
Local Lemma CountSetBits_grown ws : changed (words_ grown) ws (fun k x => (vlen l <=? k) && (k <=? n - 1) || x) \/ ws = words_ grown ->
  CountSetBits (mkBV (vlen l) (counts_ grown) ws) = Some (cnt (lbit l) 0 (vlen l)).
Proof using H Hn.
  intros Hws. pose proof grow_blocks as [? ?]. unfold CountSetBits. cbn [size_].
  destruct (decide (vlen l = 0)) as [->|]; [done|]. pose proof (vlen_nonneg l).
  assert (words_ok ws /\ vlen ws = 8 * nb /\ forall k, 0 <= k < vlen l -> bit ws k = lbit l k) as (Hok & Hlen & Hb).
  { destruct H as [_ _ [Hok _ _] _]. assert (vlen (words_ grown) = 8 * nb) as Hvl by (unfold grown; cbn [words_]; rewrite vlen_resize; lia).
    destruct Hws as [(Hok' & Hlen' & Hbits)| ->]; split_and!; try done; [unfold vlen in *; lia| | |].
    - intros k Hk. rewrite Hbits, grown_bits by lia. rewrite (proj2 (Z.leb_gt _ _)) by lia. done.
    - apply words_ok_resize. done.
    - intros k Hk. apply grown_bits. lia. }
  apply CountSetBitsUntil_gen; cbn [words_ counts_]; [done|unfold kMaxSize in *; lia| |done|].
  - rewrite Hlen. unfold blocks in *. divlia.
  - apply grown_counts. unfold blocks. divlia.
Qed.

Local Lemma resized_len x : vlen (resize (Z.to_nat n) x l) = n.
Proof using Hn. rewrite vlen_resize. pose proof (vlen_nonneg l). lia. Qed.

Local Lemma resized_bit x k : 0 <= k ->
  lbit (resize (Z.to_nat n) x l) k = (vlen l <=? k) && (k <=? n - 1) && x || lbit l k.
Proof using Hn.
  intros Hk. rewrite lbit_resize by done. rewrite Z2Nat.id by (pose proof (vlen_nonneg l); lia).
  destruct (Z.ltb_spec k (vlen l)).
  - rewrite (proj2 (Z.ltb_lt _ _)), (proj2 (Z.leb_gt _ _)) by lia. done.
  - rewrite (lbit_beyond l), orb_false_r, (proj2 (Z.leb_le _ _)) by lia. simpl. f_equal.
    apply Bool.eq_iff_eq_true. rewrite Z.ltb_lt, Z.leb_le. lia.
Qed.

(** The common start of both kinds of growing. *)
Local Lemma Resize_unfold x : Resize b n x =
  if x then
    ws ← SetRange (words_ grown) (IndexToAddress (vlen l)) (IndexToAddress (n - 1));
    c ← CountSetBits (mkBV (vlen l) (counts_ grown) ws);
    '(counts, _) ← fill_counts (counts_ grown) (vlen l / 512 + 1) (nb - 1) (u32 (c + (512 - vlen l mod 512)));
    Some (mkBV n counts ws)
  else if blocks (vlen l) <? nb then
    c ← CountSetBits grown;
    counts ← for_loop (blocks (vlen l)) nb (fun i counts => vec_set counts i c) (counts_ grown);
    Some (mkBV n counts (words_ grown))
  else Some (mkBV n (counts_ grown) (words_ grown)).
Proof using H Hn.
  pose proof (vlen_nonneg l). unfold Resize, kMaxSize, kWordsInBlock, kBitsInWord in *.
  rewrite (rep_size _ _ H), (proj1 (rep_counts _ _ H)).
  rewrite (proj2 (Z.eqb_neq n _)), (proj2 (Z.eqb_neq n 0)), (proj2 (Z.ltb_lt _ _)) by lia.
  rewrite (u32_id (n - 1)) by (unfold is_u32; lia).
  destruct (IndexToAddress_ok (n - 1)) as (_ & _ & Hb1); [lia|].
  destruct (IndexToAddress_ok (vlen l)) as (_ & Hpl & Hbl); [lia|]. rewrite Hb1, Hbl.
  replace ((n - 1) / 512 + 1) with nb by (unfold nb, blocks; divlia).
  replace ((n - 1) / 512) with (nb - 1) by (unfold nb, blocks; divlia).
  rewrite (AddressToIndex_ok (IndexToAddress _)) by lia. rewrite Hpl.
  rewrite AddressToIndex_ok by (unfold apos, pos; cbn [block_idx block_offset word_idx bit_idx]; divlia).
  replace (u32 _) with (512 - vlen l mod 512); [done|]. symmetry.
  unfold apos, pos. cbn [block_idx block_offset word_idx bit_idx].
  replace (64 * (8 * (vlen l / 512)) + 64 * (8 - 1) + (64 - 1) - vlen l + 1) with (512 - vlen l mod 512) by divlia.
  apply u32_id. unfold is_u32. divlia.
Qed.

Local Lemma rep_grown counts ws x : changed (words_ grown) ws (fun k y => (vlen l <=? k) && (k <=? n - 1) && x || y) ->
  vlen counts = nb ->
  (forall i, 0 <= i < nb -> vec_get counts i = Some (cnt (lbit (resize (Z.to_nat n) x l)) 0 (512 * i))) ->
  rep (mkBV n counts ws) (resize (Z.to_nat n) x l).
Proof using H Hn.
  intros (Hok & Hlen & Hbits) Hcl Hc. pose proof grow_blocks.
  split; cbn [size_ words_ counts_]; rewrite ?resized_len; try done; try lia.
  - split; [done|rewrite resized_len|].
    + fold nb. unfold grown in Hlen. cbn [words_] in Hlen. unfold vlen. rewrite Hlen, length_resize. lia.
    + intros k Hk. rewrite Hbits, grown_bits, resized_bit by done. done.
  - unfold counts_rep. rewrite resized_len. done.
Qed.

Local Lemma grown_unchanged : changed (words_ grown) (words_ grown) (fun k y => (vlen l <=? k) && (k <=? n - 1) && false || y).
Proof using H.
  split; [apply words_ok_resize, H|]. split; [done|]. intros k Hk. rewrite andb_false_r. done.
Qed.

Lemma Resize_grow_false : exists b', Resize b n false = Some b' /\ rep b' (resize (Z.to_nat n) false l).
Proof using H Hn.
  rewrite Resize_unfold. pose proof grow_blocks as [Hb Hnb].
  assert (vlen (counts_ grown) = nb) as Hcl by (unfold grown; cbn [counts_]; rewrite vlen_resize; lia).
  assert (forall i, cnt (lbit (resize (Z.to_nat n) false l)) 0 (512 * i) = cnt (lbit l) 0 (512 * i)) as Hcnt.
  { intros i. apply cnt_ext. intros k Hk. rewrite resized_bit, andb_false_r by lia. done. }
  destruct (Z.ltb_spec (blocks (vlen l)) nb).
  - pose proof (CountSetBits_grown (words_ grown) (or_intror eq_refl)) as Hcount.
    change (mkBV (vlen l) (counts_ grown) (words_ grown)) with grown in Hcount. rewrite Hcount. runs.
    destruct (fill_loop_ok (counts_ grown) (fun _ => cnt (lbit l) 0 (vlen l)) (blocks (vlen l)) nb) as (c' & -> & Hl' & Hc'); [lia|lia|].
    runs. eexists. split; [done|]. apply rep_grown; [apply grown_unchanged|lia|]. intros i Hi. rewrite Hc', Hcnt by lia.
    destruct (Z.leb_spec (blocks (vlen l)) i); [rewrite (proj2 (Z.ltb_lt _ _)) by lia|rewrite grown_counts by lia; done].
    simpl. f_equal. rewrite (cnt_split _ 0 (vlen l) (512 * i)), (cnt_zero _ (vlen l)); [lia| |].
    + intros k Hk. apply lbit_beyond. lia.
    + pose proof (vlen_nonneg l). unfold blocks in *. divlia.
  - eexists. split; [done|]. apply rep_grown; [apply grown_unchanged|done|]. intros i Hi.
    rewrite Hcnt, grown_counts by lia. done.
Qed.

(** Right unless ones are appended to full blocks that have bits set. *)
Lemma Resize_grow_true : vlen l mod 512 <> 0 \/ cnt (lbit l) 0 (vlen l) = 0 ->
  exists b', Resize b n true = Some b' /\ rep b' (resize (Z.to_nat n) true l).
Proof using H Hn.
  intros Hcase. rewrite Resize_unfold. pose proof grow_blocks as [Hb Hnb]. pose proof (vlen_nonneg l).
  destruct (IndexToAddress_ok (n - 1)) as (Ha1 & Hp1 & Hb1); [lia|].
  destruct (IndexToAddress_ok (vlen l)) as (Ha2 & Hp2 & Hb2); [lia|].
  assert (vlen (words_ grown) = 8 * nb) as Hwl by (unfold grown; cbn [words_]; rewrite vlen_resize; lia).
  assert (vlen (counts_ grown) = nb) as Hcl by (unfold grown; cbn [counts_]; rewrite vlen_resize; lia).
  destruct (SetRange_ok (words_ grown) (IndexToAddress (vlen l)) (IndexToAddress (n - 1))) as (ws & -> & Hch);
    [apply words_ok_resize, H|done|done|lia|rewrite Hwl, Hb1; unfold nb, blocks; divlia|]. runs.
  rewrite Hp1, Hp2 in Hch. rewrite (CountSetBits_grown ws) by (left; done). runs.
  set (c := cnt (lbit l) 0 (vlen l)) in *. assert (0 <= c <= vlen l) as Hc by (pose proof (cnt_bounds (lbit l) 0 (vlen l)); lia).
  unfold kMaxSize in *. rewrite u32_id by (unfold is_u32; divlia).
  destruct (fill_counts_ok (counts_ grown) (vlen l / 512 + 1) (nb - 1) (c + (512 - vlen l mod 512))) as (c' & m & -> & Hl' & Hc');
    [unfold nb, blocks; divlia|lia|]. runs. eexists. split; [done|].
  apply rep_grown; [|lia|].
  { eapply changed_impl; [exact Hch|intros k Hk; simpl; rewrite andb_true_r; done|].
    intros k Hk. rewrite orb_false_r, andb_true_r, andb_false_iff, !Z.leb_gt. right. rewrite Hwl in Hk. unfold nb, blocks in Hk. divlia. }
  intros i Hi. rewrite Hc' by lia.
  assert (forall k, 0 <= k < vlen l -> lbit (resize (Z.to_nat n) true l) k = lbit l k) as Hlow.
  { intros k Hk. rewrite resized_bit by lia. rewrite (proj2 (Z.leb_gt _ _)) by lia. done. }
  destruct (Z.leb_spec (vlen l / 512 + 1) i).
  - rewrite (proj2 (Z.leb_le i _)) by lia. simpl. f_equal.
    rewrite (cnt_split _ 0 (vlen l)), (cnt_ext _ (lbit l) 0), (cnt_ones _ (vlen l)); fold c; try done; try divlia.
    + replace (if _ =? _ then _ else _) with (u32 (c + (512 - vlen l mod 512) + 512 * (i - (vlen l / 512 + 1)))).
      * rewrite u32_id; [divlia|]. unfold is_u32, nb, blocks in *. divlia.
      * destruct (Z.eqb_spec i (vlen l / 512 + 1)) as [->|]; [|done]. rewrite Z.sub_diag, Z.mul_0_r, Z.add_0_r.
        apply u32_id. unfold is_u32. divlia.
    + intros k Hk. rewrite resized_bit by lia. rewrite (proj2 (Z.leb_le _ _)), (proj2 (Z.leb_le _ _)); [done| |lia].
      unfold nb, blocks in *. divlia.
  - simpl. rewrite (cnt_ext _ (lbit l)) by (intros k Hk; apply Hlow; divlia).
    destruct (decide (i < blocks (vlen l))); [apply grown_counts; lia|].
    assert (i = blocks (vlen l) /\ vlen l = 512 * i) as [Hi1 Hi2] by (unfold blocks in *; divlia).
    assert (c = 0) as Hc0 by (destruct Hcase as [Hx|Hx]; [divlia|done]).
    rewrite <- Hi2. fold c. rewrite Hc0. unfold grown. cbn [counts_]. unfold vec_get.
    rewrite (proj2 (Z.leb_le _ _)), lookup_resize_new; [done| |lia|lia].
    pose proof (proj1 (rep_counts _ _ H)) as Hold. unfold vlen in Hold at 1. lia.
Qed.
End Grow.

(** Ones must not be appended to full blocks with set bits. *)
Definition fill_ok (l : list bool) (n : Z) (x : bool) : Prop :=
  x = true -> n <= vlen l \/ vlen l mod 512 <> 0 \/ cnt (lbit l) 0 (vlen l) = 0.

Lemma Resize_ok b l n x : rep b l -> 0 <= n <= kMaxSize -> fill_ok l n x ->
  exists b', Resize b n x = Some b' /\ rep b' (resize (Z.to_nat n) x l).
Proof.
  intros H Hn Hx. destruct (Z.lt_trichotomy n (vlen l)) as [Hlt|[->|Hgt]].
  - rewrite resize_take by (unfold vlen in *; lia). apply Resize_shrink; [done|lia].
  - rewrite Resize_same by done. exists b. split; [done|]. unfold vlen. rewrite Nat2Z.id, resize_all. done.
  - destruct x; [|apply Resize_grow_false; [done|lia]].
    apply Resize_grow_true; [done|lia|]. destruct (Hx eq_refl) as [?|?]; [lia|done].
Qed.

Lemma BitVector_new_ok n x : 0 <= n <= kMaxSize -> exists b, BitVector_new n x = Some b /\ rep b (replicate (Z.to_nat n) x).
Proof.
  intros Hn. destruct (Resize_ok BitVector_empty [] n x rep_empty Hn) as (b & Hb & Hr).
  - intros _. right. right. done.
  - exists b. split; [exact Hb|]. rewrite resize_nil in Hr. done.
Qed.

(** ** Counts from words *)

Lemma UpdateCounts_ok ws counts : words_ok ws -> vlen ws = 8 * vlen counts -> vlen counts < 2 ^ 23 ->
  (0 < vlen counts -> vec_get counts 0 = Some 0) ->
  exists c', UpdateCounts ws counts = Some c' /\ vlen c' = vlen counts /\
    forall i, 0 <= i < vlen counts -> vec_get c' i = Some (cnt (bit ws) 0 (512 * i)).
Proof.
  intros Hok Hlen Hmax H0. unfold UpdateCounts, kWordsInBlock. rewrite (proj2 (Z.eqb_eq _ _)) by lia.
  destruct (decide (vlen counts = 0)) as [Hz|Hz].
  { exists counts. rewrite Hz. split; [done|]. split; [done|lia]. }
  pose proof (vlen_nonneg counts).
  apply (for_loop_ind (fun i c' => vlen c' = vlen counts /\
    forall j, 0 <= j < i -> vec_get c' j = Some (cnt (bit ws) 0 (512 * j)))); [lia| |].
  - split; [done|]. intros j Hj. replace j with 0 by lia. rewrite H0 by lia. done.
  - intros i c1 Hi [Hl Hc]. rewrite Hc by lia. runs. rewrite Block_CountSetBits_ok by lia. runs.
    rewrite vec_set_some by (unfold vlen in *; lia). eexists. split; [done|]. split; [by rewrite vlen_insert|].
    intros j Hj. rewrite vec_get_insert by lia. destruct (Z.eqb_spec j i) as [->|]; [|apply Hc; lia]. f_equal.
    replace (64 * (8 * (i - 1))) with (512 * (i - 1)) by lia. replace (512 * (i - 1) + 512) with (512 * i) by lia.
    rewrite <- cnt_split by lia. pose proof (cnt_bounds (bit ws) 0 (512 * i)). apply u32_id. unfold is_u32. lia.
Qed.

Lemma rep_UpdateCounts ws counts l : words_rep ws l -> vlen l <= kMaxSize -> vlen counts = blocks (vlen l) ->
  (0 < vlen counts -> vec_get counts 0 = Some 0) ->
  exists c', UpdateCounts ws counts = Some c' /\ rep (mkBV (vlen l) c' ws) l.
Proof.
  intros Hw Hm Hcl H0. pose proof Hw as [Hok Hlen Hbits].
  destruct (UpdateCounts_ok ws counts Hok) as (c' & -> & Hl' & Hc');
    [lia|rewrite Hcl; unfold blocks, kMaxSize in *; divlia|done|].
  exists c'. split; [done|]. split; [done..|]. split; [cbn [counts_]; lia|]. intros i Hi. cbn [counts_].
  rewrite Hc' by lia. f_equal. apply cnt_ext. intros k Hk. apply Hbits. lia.
Qed.

Lemma counts_head counts l : counts_rep counts l -> 0 < vlen counts -> vec_get counts 0 = Some 0.
Proof. intros [Hcl Hc] H. rewrite Hc by lia. rewrite cnt_nil by lia. done. Qed.

(** ** Logical operations *)

Lemma bit_fmap_not ws k : 0 <= k < 64 * vlen ws -> bit (Word_Not <$> ws) k = negb (bit ws k).
Proof.
  intros Hk. unfold bit, vlen in *. destruct (lookup_lt_is_Some_2 ws (Z.to_nat (k / 64))) as [w Hw]; [divlia|].
  rewrite list_lookup_fmap, Hw. simpl. rewrite Word_Not_ok, (proj2 (Z.ltb_lt _ _)) by divlia. done.
Qed.

Lemma lbit_fmap (f : bool -> bool) l k : 0 <= k < vlen l -> lbit (f <$> l) k = f (lbit l k).
Proof.
  intros Hk. unfold lbit, vlen in *. destruct (lookup_lt_is_Some_2 l (Z.to_nat k)) as [x Hx]; [lia|].
  rewrite list_lookup_fmap, Hx. done.
Qed.

Lemma vlen_fmap {A B} (f : A -> B) l : vlen (f <$> l) = vlen l.
Proof. unfold vlen. rewrite length_fmap. done. Qed.

Lemma cnt_negb f g lo hi : lo <= hi -> (forall k, lo <= k < hi -> g k = negb (f k)) -> cnt g lo hi = hi - lo - cnt f lo hi.
Proof.
  intros Hle Hg. unfold cnt. replace (hi - lo) with (Z.of_nat (Z.to_nat (hi - lo))) at 2 by lia.
  remember (Z.to_nat (hi - lo)) as n eqn:Hn. revert lo Hle Hg Hn.
  induction n as [|n IH]; intros lo Hle Hg Hn; simpl cnt_from; [lia|].
  rewrite (IH (lo + 1)), (Hg lo) by (lia || (intros; apply Hg; lia)). destruct (f lo); simpl negb; cbv iota; lia.
Qed.

Lemma Not_ok b l : rep b l -> exists b', Not b = Some b' /\ rep b' (negb <$> l).
Proof.
  intros H. pose proof H as [Hs Hm [Hok Hlen Hbits] [Hcl Hc]]. unfold Not. rewrite Hs. pose proof (vlen_nonneg l).
  destruct (Z.eqb_spec (vlen l) 0) as [Hz|Hz].
  { exists b. split; [done|]. destruct l; [done|]. unfold vlen in Hz. simpl in Hz. lia. }
  unfold kMaxSize in *. rewrite u32_id by (unfold is_u32; lia).
  assert (words_ok (Word_Not <$> words_ b)) as Hok1.
  { apply Forall_fmap, Forall_true. intros w. apply u64_range. }
  destruct (shrink_words (Word_Not <$> words_ b) (vlen l) Hok1 ltac:(lia)) as (ws' & Hrun & Hok' & Hlen' & Hbits').
  replace (resize (Z.to_nat (8 * blocks (vlen l))) 0 (Word_Not <$> words_ b)) with (Word_Not <$> words_ b) in Hrun
    by (rewrite <- Hlen; unfold vlen; rewrite Nat2Z.id, <- (length_fmap Word_Not), resize_all; done).
  destruct (BlockFromIndex _ _) as [st|]; [|done]. revert Hrun. runs. intros ->. runs.
  assert (0 < blocks (vlen l) < 2 ^ 23) as Hbl by (unfold blocks; divlia).
  destruct (map_loop_ok (fun i c => u32 (kBitsInBlock * i - c)) 1 (counts_ b)) as (c' & -> & Hl' & Hc'); [lia|]. runs.
  eexists. split; [done|]. split; cbn [size_ words_ counts_]; rewrite ?vlen_fmap; try done.
  - split; [done|rewrite vlen_fmap; done|]. intros k Hk. rewrite Hbits' by done. destruct (Z.ltb_spec k (vlen l)).
    + rewrite bit_fmap_not, lbit_fmap, Hbits by (done || (rewrite Hlen; unfold blocks in *; divlia)). done.
    + rewrite lbit_beyond by (rewrite vlen_fmap; done). done.
  - unfold counts_rep. rewrite vlen_fmap. split; [unfold vlen in *; lia|]. intros i Hi. rewrite Hc', Hc by lia.
    assert (cnt (lbit (negb <$> l)) 0 (512 * i) = 512 * i - cnt (lbit l) 0 (512 * i)) as ->.
    { rewrite (cnt_negb (lbit l)); [lia|lia|]. intros k Hk. apply lbit_fmap. unfold blocks in *. divlia. }
    pose proof (cnt_bounds (lbit l) 0 (512 * i)).
    destruct (Z.leb_spec 1 i); runs; change kBitsInBlock with 512; f_equal; [apply u32_id; unfold is_u32; lia|lia].
Qed.

Lemma zip_words_ok op (g : bool -> bool -> bool) ws sec : words_ok ws -> words_ok sec -> vlen ws <= vlen sec ->
  (forall a c, is_u64 a -> is_u64 c -> is_u64 (op a c)) ->
  (forall a c j, 0 <= j -> Z.testbit (op a c) j = g (Z.testbit a j) (Z.testbit c j)) ->
  exists ws', zip_words op ws sec = Some ws' /\ words_ok ws' /\ vlen ws' = vlen ws /\
    forall k, 0 <= k < 64 * vlen ws -> bit ws' k = g (bit ws k) (bit sec k).
Proof.
  intros Hok Hsec Hle Hop Hg. unfold zip_words. pose proof (vlen_nonneg ws).
  destruct (for_loop_ind (fun i ws' => words_ok ws' /\ vlen ws' = vlen ws /\
    forall k, 0 <= k < 64 * vlen ws -> bit ws' k = if k / 64 <? i then g (bit ws k) (bit sec k) else bit ws k)
    0 (vlen ws) (fun i ws => s ← vec_get sec i; update_word ws i (fun w => Some (op w s))) ws)
    as (ws' & -> & Hok' & Hl' & Hb'); [lia| | |].
  - split_and!; [done..|]. intros k Hk. rewrite (proj2 (Z.ltb_ge _ _)) by divlia. done.
  - intros i ws1 Hi (Hok1 & Hl1 & Hb1). destruct (vec_get_some sec i) as [s Hs]; [unfold vlen in *; lia|]. rewrite Hs. runs.
    pose proof (proj1 (vec_get_lookup _ _ _) Hs) as [_ Hs'].
    destruct (update_word_ok ws1 i (fun w => Some (op w s)) (fun j x => g x (Z.testbit s j))) as (ws2 & -> & Hok2 & Hl2 & Hb2);
      [done|lia| |].
    { intros w Hw. eexists. split; [done|]. split; [apply Hop; [done|exact (Forall_lookup_1 _ _ _ _ Hsec Hs')]|].
      intros j Hj. apply Hg. lia. }
    exists ws2. split; [done|]. split; [done|]. split; [unfold vlen in *; lia|]. intros k Hk. rewrite Hb2, Hb1 by lia.
    destruct (Z.eqb_spec (k / 64) i) as [Hki|].
    + rewrite (proj2 (Z.ltb_ge _ _)), (proj2 (Z.ltb_lt _ _)) by lia. f_equal.
      rewrite <- (bit_word _ _ _ _ Hs) by divlia. f_equal. divlia.
    + replace (k / 64 <? i + 1) with (k / 64 <? i); [done|]. apply Bool.eq_iff_eq_true. rewrite !Z.ltb_lt. lia.
  - exists ws'. split; [done|]. split; [done|]. split; [done|]. intros k Hk. rewrite Hb' by done.
    rewrite (proj2 (Z.ltb_lt _ _)) by divlia. done.
Qed.

Lemma lbit_zip_with (g : bool -> bool -> bool) l m k : 0 <= k < vlen l -> vlen l <= vlen m ->
  lbit (zip_with g l m) k = g (lbit l k) (lbit m k).
Proof.
  intros Hk Hle. unfold lbit, vlen in *. destruct (lookup_lt_is_Some_2 l (Z.to_nat k)) as [x Hx]; [lia|].
  destruct (lookup_lt_is_Some_2 m (Z.to_nat k)) as [y Hy]; [lia|].
  rewrite lookup_zip_with, Hx, Hy. done.
Qed.

(** A logical operation on words of two vectors, the first not longer. *)
Lemma zip_rep op g b sec l m : rep b l -> rep sec m -> vlen l <= vlen m -> g false false = false ->
  (forall x, vlen l < vlen m -> g false x = false) ->
  (forall a c, is_u64 a -> is_u64 c -> is_u64 (op a c)) ->
  (forall a c j, 0 <= j -> Z.testbit (op a c) j = g (Z.testbit a j) (Z.testbit c j)) ->
  exists ws c', zip_words op (words_ b) (words_ sec) = Some ws /\ UpdateCounts ws (counts_ b) = Some c' /\
    rep (mkBV (size_ b) c' ws) (zip_with g l m).
Proof.
  intros [Hs Hm Hw Hcr] [_ _ [Hok2 Hlen2 Hb2] _] Hle Hg0 Hgf Hop Hg. pose proof Hw as [Hok Hlen Hbits].
  destruct (zip_words_ok op g (words_ b) (words_ sec) Hok Hok2) as (ws & -> & Hok' & Hl' & Hb'); [|done|done|].
  { rewrite Hlen, Hlen2. pose proof (blocks_mono _ _ Hle). lia. }
  assert (vlen (zip_with g l m) = vlen l) as Hvl by (unfold vlen in *; rewrite length_zip_with; lia).
  assert (words_rep ws (zip_with g l m)) as Hwr.
  { split; [done|rewrite Hvl; lia|]. intros k Hk. destruct (decide (k < vlen l)) as [Hkl|Hkl].
    - rewrite lbit_zip_with, Hb', Hbits, Hb2 by (done || (rewrite Hlen; unfold blocks; divlia)). done.
    - rewrite (lbit_beyond (zip_with _ _ _)) by lia. destruct (decide (k < 64 * vlen (words_ b))) as [Hkw|Hkw].
      + rewrite Hb', Hbits, Hb2, (lbit_beyond l) by lia. destruct (decide (vlen l < vlen m)); [by apply Hgf|].
        rewrite (lbit_beyond m) by lia. done.
      + apply bit_beyond; [done|lia]. }
  pose proof Hcr as [Hcl _].
  destruct (rep_UpdateCounts ws (counts_ b) (zip_with g l m) Hwr) as (c' & Hup & Hr);
    [lia|rewrite Hvl; exact Hcl|exact (counts_head _ _ Hcr)|].
  exists ws, c'. rewrite Hs, <- Hvl. done.
Qed.

Lemma Or_ok b sec l m : rep b l -> rep sec m -> vlen l = vlen m ->
  exists b', Or b sec = Some b' /\ rep b' (zip_with orb l m).
Proof.
  intros H1 H2 Heq. unfold Or. rewrite (rep_size _ _ H1), (rep_size _ _ H2), Heq, Z.eqb_refl.
  destruct (zip_rep Word_Or orb b sec l m H1 H2) as (ws & c' & -> & Hc & Hr); [lia|done|lia|apply u64_lor| |].
  - intros a c j Hj. apply Z.lor_spec.
  - runs. rewrite Hc. runs. eexists. split; [done|]. rewrite (rep_size _ _ H1), Heq in Hr. done.
Qed.

Lemma And_ok b sec l m : rep b l -> rep sec m ->
  exists b', And b sec = Some b' /\ rep b' (zip_with andb l m).
Proof.
  intros H1 H2. unfold And. rewrite (rep_size _ _ H1), (rep_size _ _ H2).
  pose proof (vlen_nonneg l). pose proof (vlen_nonneg m). pose proof (rep_max _ _ H1).
  destruct (Resize_ok b l (Z.min (vlen l) (vlen m)) false H1) as (b1 & -> & Hr1); [lia|done|]. runs.
  rewrite resize_take in Hr1 by (unfold vlen in *; lia).
  assert (zip_with andb (take (Z.to_nat (Z.min (vlen l) (vlen m))) l) m = zip_with andb l m) as Hz.
  { destruct (decide (vlen l <= vlen m)).
    - rewrite take_ge by (unfold vlen in *; lia). done.
    - apply zip_with_take_l'. unfold vlen in *. lia. }
  destruct (zip_rep Word_And andb b1 sec _ m Hr1 H2) as (ws & c' & -> & Hc & Hr); try done.
  - unfold vlen in *. rewrite length_take. lia.
  - intros. by apply u64_land.
  - intros a c j Hj. apply Z.land_spec.
  - runs. rewrite Hc. runs. eexists. split; [done|]. rewrite Hz in Hr. done.
Qed.
