(* ===== verification/BitVectorSelect.v ===== *)
(** * Depositing bits

    [UpdateSetBits] of [src/trace_processor/containers/bit_vector.cc]: a stream of bits is
    deposited at the set bits of a vector, across the boundaries of words. *)

From S2P Require Import Prelude BitWord BitVector BitVectorOps.

(** One word of [UpdateSetBits]: its new value, the words of the update left, and
    the bits read from it but not used yet, with their number. *)
Definition update_word_bits (current : Z) (upd : list Z) (update_unused_bits unused_bits_count : Z) :
    option (Z * list Z * Z * Z) :=
  let pop := u8 (popcount current) in
  let '(update_for_current, upd, unused, count) :=
    if pop <=? unused_bits_count then
      (update_unused_bits, upd, if pop =? 64 then 0 else update_unused_bits >> pop, u8 (unused_bits_count - pop))
    else
      let '(next_update, upd) := match upd with [] => (0, []) | n :: u => (n, u) end in
      let used_next_bits := u8 (pop - unused_bits_count) in
      (update_unused_bits .| u64 (next_update << unused_bits_count), upd,
       if used_next_bits =? 64 then 0 else next_update >> used_next_bits, u8 (64 - used_next_bits)) in
  if count <=? 64 then
    w ← Pdep update_for_current current;
    Some (w, upd, unused, count)
  else None.

Fixpoint update_loop (ws upd : list Z) (unused count : Z) : option (list Z) :=
  match ws with
  | [] => if (unused =? 0) && bool_decide (upd = []) then Some [] else None
  | current :: ws =>
      if current =? 0 then ws ← update_loop ws upd unused count; Some (current :: ws)
      else
        '(w, upd, unused, count) ← update_word_bits current upd unused count;
        ws ← update_loop ws upd unused count;
        Some (w :: ws)
  end.

Definition UpdateSetBits (b update : BitVector) : option BitVector :=
  u ← CountSetBits update;
  if u =? 0 then Some BitVector_empty else
  c ← CountSetBits b;
  if c =? 0 then Some BitVector_empty else
  if size_ update <=? c then
    let n := Z.to_nat (WordCount (size_ b)) in
    ws ← update_loop (take n (words_ b)) (take (Z.to_nat (WordCount (size_ update))) (words_ update)) 0 0;
    let ws := ws ++ drop n (words_ b) in
    counts ← UpdateCounts ws (counts_ b);
    let b := mkBV (size_ b) counts ws in
    c ← CountSetBits b;
    if u =? c then Some b else None
  else None.

(** ** Words as lists of bits *)

Fixpoint wsbits (ws : list Z) : list bool :=
  match ws with
  | [] => []
  | w :: ws => wbits w ++ wsbits ws
  end.
Fixpoint wval (ws : list Z) : Z :=
  match ws with
  | [] => 0
  | w :: ws => w + 2 ^ 64 * wval ws
  end.

Lemma length_wbits w : length (wbits w) = 64%nat.
Proof. apply length_nbits. Qed.

Lemma length_wsbits ws : length (wsbits ws) = (64 * length ws)%nat.
Proof. induction ws as [|w ws IH]; [done|]. cbn [wsbits]. rewrite length_app, length_wbits, IH. simpl length. lia. Qed.

Lemma wsbits_app ws1 ws2 : wsbits (ws1 ++ ws2) = wsbits ws1 ++ wsbits ws2.
Proof. induction ws1 as [|w ws1 IH]; [done|]. cbn [app wsbits]. rewrite IH, app_assoc. done. Qed.

Lemma nbits_lookup n w i : (i < n)%nat -> nbits n w !! i = Some (Z.testbit w (Z.of_nat i)).
Proof.
  revert w i. induction n as [|n IH]; intros w i Hi; [lia|]. destruct i as [|i]; simpl nbits.
  - rewrite <- Z.bit0_odd. done.
  - simpl lookup. rewrite IH by lia. rewrite Nat2Z.inj_succ, <- Z.add_1_r, <- (Z.div_pow2_bits w 1) by lia. done.
Qed.

Lemma bit_wsbits ws k : 0 <= k -> bit ws k = lbit (wsbits ws) k.
Proof.
  revert k. induction ws as [|w ws IH]; intros k Hk; [unfold bit, lbit; simpl; apply Z.bits_0|].
  cbn [wsbits]. rewrite lbit_app by done. unfold vlen. rewrite length_wbits. change (Z.of_nat 64) with 64.
  destruct (Z.ltb_spec k 64).
  - unfold bit, lbit, wbits. rewrite nbits_lookup by lia. replace (k / 64) with 0 by divlia.
    replace (k mod 64) with k by divlia. simpl. f_equal. lia.
  - rewrite <- IH by lia. unfold bit. replace (Z.to_nat (k / 64)) with (S (Z.to_nat ((k - 64) / 64))) by divlia.
    simpl lookup. f_equal. divlia.
Qed.

Lemma lbit_inj l m : length l = length m -> (forall k, 0 <= k < vlen l -> lbit l k = lbit m k) -> l = m.
Proof.
  intros Hlen H. apply list_eq_same_length with (length l); [done|done|]. intros i x y Hi Hx Hy.
  specialize (H (Z.of_nat i)). unfold lbit, vlen in H. rewrite Nat2Z.id, Hx, Hy in H. apply H. lia.
Qed.

Lemma words_rep_bits ws l : words_rep ws l -> wsbits ws = resize (64 * length ws) false l.
Proof.
  intros [Hok Hlen Hbits]. apply lbit_inj; [by rewrite length_wsbits, length_resize|].
  intros k Hk. rewrite <- bit_wsbits, Hbits, lbit_resize by lia. unfold vlen in Hk at 1. rewrite length_wsbits in Hk.
  rewrite (proj2 (Z.ltb_lt k _)) by lia. destruct (Z.ltb_spec k (vlen l)); [done|]. rewrite lbit_beyond by done. done.
Qed.

Lemma bits_words_rep ws l : words_ok ws -> vlen ws = 8 * blocks (vlen l) -> wsbits ws = resize (64 * length ws) false l ->
  words_rep ws l.
Proof.
  intros Hok Hlen Hbits. split; [done|done|]. intros k Hk. rewrite bit_wsbits, Hbits, lbit_resize by done.
  pose proof (vlen_nonneg l). destruct (Z.ltb_spec k (vlen l)).
  - rewrite (proj2 (Z.ltb_lt k _)); [done|]. unfold vlen, blocks in *. divlia.
  - rewrite andb_false_r, lbit_beyond by done. done.
Qed.

Lemma ctrue_cnt l : ctrue l = cnt (lbit l) 0 (vlen l).
Proof.
  induction l as [|x l IH]; [done|]. unfold vlen in *. simpl length. rewrite Nat2Z.inj_succ, cnt_cons by lia.
  cbn [ctrue]. rewrite IH. change (lbit (x :: l) 0) with x.
  replace (cnt (lbit (x :: l)) (0 + 1) (Z.succ (Z.of_nat (length l)))) with (cnt (lbit l) 0 (Z.of_nat (length l)));
    [destruct x; done|].
  rewrite <- Z.add_1_r, <- (cnt_shift (lbit (x :: l)) 1). apply cnt_ext. intros k Hk.
  unfold lbit. replace (Z.to_nat (k + 1)) with (S (Z.to_nat k)) by lia. done.
Qed.

Lemma popcount_ctrue w : popcount w = ctrue (wbits w).
Proof.
  rewrite ctrue_cnt. unfold vlen. rewrite length_wbits. apply cnt_ext. intros k Hk.
  unfold lbit, wbits. rewrite nbits_lookup by lia. simpl. f_equal. lia.
Qed.

Lemma ctrue_app l m : ctrue (l ++ m) = ctrue l + ctrue m.
Proof. induction l as [|x l IH]; simpl; [done|]. rewrite IH. lia. Qed.

Lemma ctrue_replicate_false n : ctrue (replicate n false) = 0.
Proof. induction n; simpl; auto. Qed.

Lemma wbits_zb l : length l = 64%nat -> wbits (zb l) = l.
Proof.
  intros Hl. unfold wbits. rewrite <- Hl. clear Hl. induction l as [|x l IH]; [done|]. simpl length. cbn [nbits zb].
  replace (Z.odd (Z.b2z x + 2 * zb l)) with x by (rewrite Z.odd_add_mul_2; destruct x; done).
  replace ((Z.b2z x + 2 * zb l) / 2) with (zb l) by (destruct x; simpl Z.b2z; divlia). rewrite IH. done.
Qed.

Lemma zb_app l m : zb (l ++ m) = zb l + 2 ^ vlen l * zb m.
Proof.
  induction l as [|x l IH]; [by rewrite Z.mul_1_l|]. simpl app. cbn [zb]. rewrite IH. unfold vlen. simpl length.
  rewrite Nat2Z.inj_succ, Z.pow_succ_r by lia. lia.
Qed.

Lemma zb_replicate_false n : zb (replicate n false) = 0.
Proof. induction n as [|n IH]; [done|]. cbn [replicate zb]. rewrite IH. done. Qed.

Lemma zb_resize n l : (length l <= n)%nat -> zb (resize n false l) = zb l.
Proof. intros H. rewrite resize_ge by done. rewrite zb_app, zb_replicate_false. lia. Qed.

Lemma zb_wsbits ws : words_ok ws -> zb (wsbits ws) = wval ws.
Proof.
  induction 1 as [|w ws Hw Hws IH]; [done|]. cbn [wsbits]. rewrite zb_app, zb_wbits, IH by done.
  unfold vlen. rewrite length_wbits. done.
Qed.

Lemma wval_nonneg ws : words_ok ws -> 0 <= wval ws.
Proof. induction 1 as [|w ws Hw Hws IH]; [done|]. unfold is_u64 in Hw. cbn [wval]. lia. Qed.

(** ** Depositing a stream of bits *)

Lemma dep_app v m1 m2 : dep v (m1 ++ m2) = dep v m1 ++ dep (v / 2 ^ ctrue m1) m2.
Proof.
  revert v. induction m1 as [|x m1 IH]; intros v; [by rewrite Z.div_1_r|]. pose proof (ctrue_bounds m1).
  simpl app. destruct x; cbn [dep ctrue]; simpl Z.b2z; rewrite IH; simpl app.
  - rewrite Z.pow_add_r, Z.div_div by lia. done.
  - done.
Qed.

Lemma dep_mod v m n : ctrue m <= n -> dep (v mod 2 ^ n) m = dep v m.
Proof.
  revert v n. induction m as [|x m IH]; intros v n Hn; [done|]. pose proof (ctrue_bounds m).
  destruct x; cbn [dep ctrue] in *; simpl Z.b2z in Hn; [|rewrite IH by lia; done].
  replace n with (1 + (n - 1)) by lia. rewrite Z.pow_add_r, Z.rem_mul_r by lia. change (2 ^ 1) with 2. f_equal.
  - rewrite Z.odd_add_mul_2, Zmod_odd. destruct (Z.odd v); done.
  - replace ((v mod 2 + 2 * ((v / 2) mod 2 ^ (n - 1))) / 2) with ((v / 2) mod 2 ^ (n - 1)) by divlia.
    apply IH. lia.
Qed.

Lemma dep_length_ones v m : ctrue m = 0 -> dep v m = replicate (length m) false.
Proof.
  intros H. induction m as [|x m IH]; [done|]. pose proof (ctrue_bounds m). destruct x; cbn [ctrue] in H; simpl Z.b2z in H; [lia|].
  cbn [dep length replicate]. rewrite IH by lia. done.
Qed.

(** The bits that are still to be deposited: those read but not used, then the words left. *)
Definition stream (upd : list Z) (unused count : Z) : Z := unused + 2 ^ count * wval upd.

(** The last word left is needed for the [need] bits that are still to be set. *)
Definition all_needed (upd : list Z) (count need : Z) : Prop := upd = [] \/ count + 64 * (vlen upd - 1) < need.

Lemma zb_u64 l : length l = 64%nat -> is_u64 (zb l).
Proof. intros Hl. pose proof (zb_bounds l) as Hb. rewrite Hl in Hb. exact Hb. Qed.

Lemma pow2_split a b : 0 <= a <= b -> 2 ^ b = 2 ^ a * 2 ^ (b - a).
Proof. intros H. rewrite <- Z.pow_add_r by lia. f_equal. lia. Qed.

Lemma pow2_pos a : 0 <= a -> 0 < 2 ^ a.
Proof. intros H. apply Z.pow_pos_nonneg; lia. Qed.

(** The low bits of the stream are what is deposited. *)
Lemma Pdep_stream v s current : is_u64 current -> is_u64 v -> v mod 2 ^ popcount current = s mod 2 ^ popcount current ->
  exists w, Pdep v current = Some w /\ is_u64 w /\ wbits w = dep s (wbits current).
Proof.
  intros Hcur Hv Heq. rewrite Pdep_ok by done. eexists. split; [done|].
  assert (length (dep v (wbits current)) = 64%nat) as Hlen by (rewrite length_dep; apply length_wbits).
  split; [by apply zb_u64|]. rewrite wbits_zb by done. rewrite popcount_ctrue in Heq.
  rewrite <- (dep_mod v _ (ctrue (wbits current))), Heq, dep_mod by lia. done.
Qed.

(** The bits of the next word put above those not used. *)
Lemma join_unused unused next count : 0 <= count < 64 -> 0 <= unused < 2 ^ count -> 0 <= next ->
  exists q, 0 <= q /\ unused .| u64 (next << count) = unused + next * 2 ^ count - 2 ^ 64 * q /\
    is_u64 (unused .| u64 (next << count)).
Proof.
  intros Hc Hu Hn. pose proof (pow2_pos count ltac:(lia)). pose proof (pow2_pos (64 - count) ltac:(lia)).
  assert (2 ^ 64 = 2 ^ count * 2 ^ (64 - count)) as Hs by (apply pow2_split; lia).
  exists (next / 2 ^ (64 - count)). split; [apply Z.div_pos; lia|]. rewrite shiftl_mul by lia. split.
  - unfold u64. rewrite Hs, (Z.mul_comm (2 ^ count)), Z.mul_mod_distr_r by lia.
    rewrite <- shiftl_mul, lor_shiftl_add by lia. rewrite Z.mod_eq by lia. lia.
  - apply u64_lor; [|apply u64_range]. assert (2 ^ count <= 2 ^ 64) by (apply Z.pow_le_mono_r; lia). unfold is_u64. lia.
Qed.

Section UpdateWord.
Context (current : Z) (upd : list Z) (unused count need : Z).
Context (Hcur : is_u64 current) (Hupd : words_ok upd) (Hc : 0 <= count <= 64) (Hu : 0 <= unused < 2 ^ count).
Context (Hneed : all_needed upd count need) (Hpn : popcount current <= need).

Definition update_done (r : option (Z * list Z * Z * Z)) : Prop :=
  exists w upd' unused' count', r = Some (w, upd', unused', count') /\
    is_u64 w /\ wbits w = dep (stream upd unused count) (wbits current) /\ words_ok upd' /\
    0 <= count' <= 64 /\ 0 <= unused' < 2 ^ count' /\
    stream upd' unused' count' = stream upd unused count / 2 ^ popcount current /\
    all_needed upd' count' (need - popcount current).

Local Lemma update_enough : popcount current <= count -> update_done (update_word_bits current upd unused count).
Proof using All.
  intros Hle. pose proof (popcount_bounds current) as Hp. unfold update_word_bits.
  destruct (Pdep_stream unused (stream upd unused count) current) as (w & Hdep & Hw & Hwb); [done| | |].
  { assert (2 ^ count <= 2 ^ 64) by (apply Z.pow_le_mono_r; lia). unfold is_u64. lia. }
  { unfold stream. rewrite (pow2_split (popcount current) count) by lia. pose proof (pow2_pos (popcount current) ltac:(lia)).
    rewrite <- Z.mul_assoc, (Z.mul_comm (2 ^ popcount current)), Z.mod_add by lia. done. }
  set (pop := popcount current) in *. rewrite (u8_id pop), (u8_id (count - pop)) by (unfold is_u8; lia).
  rewrite (proj2 (Z.leb_le pop count)), (proj2 (Z.leb_le (count - pop) 64)), Hdep by lia. runs.
  pose proof (pow2_pos pop ltac:(lia)) as Hpp. pose proof (pow2_split pop count ltac:(lia)) as Hsplit.
  assert ((if pop =? 64 then 0 else unused >> pop) = unused / 2 ^ pop) as ->.
  { destruct (Z.eqb_spec pop 64) as [He|]; [|apply shiftr_div; lia]. rewrite Z.div_small; [done|].
    replace pop with count by lia. done. }
  do 4 eexists. split; [done|]. split; [done|]. split; [done|]. split; [done|]. split; [lia|].
  split; [split; [apply Z.div_pos; lia|apply Z.div_lt_upper_bound; lia]|]. split.
  - unfold stream. rewrite Hsplit, <- Z.mul_assoc, (Z.mul_comm (2 ^ pop)), Z.div_add by lia. done.
  - destruct Hneed as [?|?]; [left; done|right; lia].
Qed.

Local Lemma next_update : count < popcount current ->
  exists next upd', (match upd with [] => (0, []) | n :: u => (n, u) end) = (next, upd') /\ is_u64 next /\
    words_ok upd' /\ wval upd = next + 2 ^ 64 * wval upd' /\
    all_needed upd' (64 - (popcount current - count)) (need - popcount current).
Proof using Hupd Hneed.
  intros Hgt. destruct upd as [|nx up]; [exists 0, []; split_and!; try done; left; done|].
  apply Forall_cons in Hupd as [? ?]. exists nx, up. split_and!; try done.
  destruct Hneed as [?|Hn]; [done|]. destruct up; [left; done|]. right. unfold vlen in *. simpl length in *. lia.
Qed.

Local Lemma update_next : count < popcount current -> update_done (update_word_bits current upd unused count).
Proof using All.
  intros Hgt. pose proof (popcount_bounds current) as Hp. unfold update_word_bits.
  destruct (next_update Hgt) as (next & upd' & -> & Hnext & Hupd' & Hval & Hneed').
  pose proof (wval_nonneg upd' Hupd') as Hv'. unfold is_u64 in Hnext.
  destruct (join_unused unused next count) as (q & Hq & Hjoin & Hj64); [lia|done|lia|].
  destruct (Pdep_stream (unused .| u64 (next << count)) (stream upd unused count) current) as (w & Hdep & Hw & Hwb); [done|done| |].
  { rewrite Hjoin. unfold stream. rewrite Hval, (pow2_split (popcount current) 64) by lia.
    pose proof (pow2_pos (popcount current) ltac:(lia)) as Hpp. set (P := 2 ^ popcount current) in *.
    set (R := 2 ^ (64 - popcount current)). replace (unused + next * 2 ^ count - P * R * q)
      with (unused + next * 2 ^ count + (- (R * q)) * P) by lia.
    replace (unused + 2 ^ count * (next + P * R * wval upd'))
      with (unused + next * 2 ^ count + (2 ^ count * R * wval upd') * P) by lia.
    rewrite !Z.mod_add by lia. done. }
  set (pop := popcount current) in *. rewrite (u8_id pop), (u8_id (pop - count)) by (unfold is_u8; lia).
  rewrite (u8_id (64 - _)) by (unfold is_u8; lia).
  rewrite (proj2 (Z.leb_gt pop count)), (proj2 (Z.leb_le (64 - _) 64)), Hdep by lia. runs.
  pose proof (pow2_pos count ltac:(lia)). pose proof (pow2_pos (pop - count) ltac:(lia)).
  pose proof (pow2_split count pop ltac:(lia)) as Hs1. pose proof (pow2_split (pop - count) 64 ltac:(lia)) as Hs2.
  assert ((if pop - count =? 64 then 0 else next >> (pop - count)) = next / 2 ^ (pop - count)) as ->.
  { destruct (Z.eqb_spec (pop - count) 64) as [->|]; [|apply shiftr_div; lia]. rewrite Z.div_small; done. }
  do 4 eexists. split; [done|]. split; [done|]. split; [done|]. split; [done|]. split; [lia|].
  split; [split; [apply Z.div_pos; lia|apply Z.div_lt_upper_bound; lia]|]. split; [|done].
  unfold stream. fold pop. rewrite Hval, Hs1, <- Z.div_div by lia.
  rewrite (Z.mul_comm (2 ^ count)), Z.div_add, (Z.div_small unused), Z.add_0_l by lia.
  rewrite Hs2. rewrite <- Z.mul_assoc, (Z.mul_comm (2 ^ (pop - count))), Z.div_add by lia. lia.
Qed.

Lemma update_word_bits_ok : update_done (update_word_bits current upd unused count).
Proof using All. destruct (decide (popcount current <= count)); [apply update_enough|apply update_next]; lia. Qed.
End UpdateWord.

Lemma update_loop_ok ws : forall upd unused count, words_ok ws -> words_ok upd ->
  0 <= count <= 64 -> 0 <= unused < 2 ^ count -> all_needed upd count (ctrue (wsbits ws)) ->
  stream upd unused count < 2 ^ ctrue (wsbits ws) ->
  exists ws', update_loop ws upd unused count = Some ws' /\ words_ok ws' /\ length ws' = length ws /\
    wsbits ws' = dep (stream upd unused count) (wsbits ws).
Proof.
  induction ws as [|current ws IH]; intros upd unused count Hws Hupd Hc Hu Hneed Hlt; cbn [update_loop wsbits] in *.
  - destruct Hneed as [->|Hn]; [|unfold vlen in Hn; destruct upd; [|simpl in Hn; lia]].
    + unfold stream in Hlt. simpl in Hlt. replace unused with 0 by lia. simpl. exists []. done.
    + unfold stream in Hlt. simpl in Hlt. replace unused with 0 by lia. simpl. exists []. done.
  - apply Forall_cons in Hws as [Hcur Hws]. rewrite ctrue_app in *. rewrite <- popcount_ctrue in *.
    pose proof (popcount_bounds current). pose proof (ctrue_bounds (wsbits ws)).
    rewrite dep_app, <- popcount_ctrue. destruct (Z.eqb_spec current 0) as [->|].
    + change (popcount 0) with 0 in *. rewrite Z.add_0_l in *.
      destruct (IH upd unused count) as (ws' & -> & Hok & Hl & Hb); try done. runs.
      exists (0 :: ws'). split; [done|]. split; [constructor; done|]. split; [simpl; lia|].
      cbn [wsbits]. rewrite Hb, Z.div_1_r. f_equal.
    + destruct (update_word_bits_ok current upd unused count (popcount current + ctrue (wsbits ws)))
        as (w & upd' & unused' & count' & -> & Hw & Hwb & Hupd' & Hc' & Hu' & Hs & Hneed'); [done..|lia|]. runs.
      rewrite Z.add_simpl_l in Hneed'. destruct (IH upd' unused' count') as (ws' & -> & Hok & Hl & Hb); try done.
      { rewrite Hs. apply Z.div_lt_upper_bound; [apply pow2_pos; lia|]. rewrite <- Z.pow_add_r by lia. done. }
      runs. exists (w :: ws'). split; [done|]. split; [constructor; done|]. split; [simpl; lia|].
      cbn [wsbits]. rewrite Hwb, Hb, Hs. done.
Qed.

(** ** [UpdateSetBits] *)

(** The i-th set bit takes the i-th value; those without one are cleared. *)
Fixpoint update_bits (l u : list bool) : list bool :=
  match l, u with
  | [], _ => []
  | false :: l, u => false :: update_bits l u
  | true :: l, [] => false :: update_bits l []
  | true :: l, x :: u => x :: update_bits l u
  end.

Lemma zb_cons_odd x l : Z.odd (zb (x :: l)) = x /\ zb (x :: l) / 2 = zb l.
Proof.
  cbn [zb]. split; [rewrite Z.odd_add_mul_2; destruct x; done|]. destruct x; simpl Z.b2z; divlia.
Qed.

Lemma dep_zb l : forall u, dep (zb u) l = update_bits l u.
Proof.
  induction l as [|[] l IH]; intros u; [destruct u; done| |].
  - cbn [dep]. destruct u as [|x u]; cbn [update_bits].
    + change (zb []) with 0. change (0 / 2) with (zb []). rewrite IH. done.
    + destruct (zb_cons_odd x u) as [-> ->]. rewrite IH. done.
  - cbn [dep]. rewrite IH. destruct u; done.
Qed.

Lemma update_bits_nil l : update_bits l [] = replicate (length l) false.
Proof. induction l as [|[] l IH]; cbn; rewrite ?IH; done. Qed.

Lemma ctrue_update_bits l : forall u, vlen u <= ctrue l -> ctrue (update_bits l u) = ctrue u.
Proof.
  induction l as [|[] l IH]; intros u Hu; cbn [ctrue] in Hu; simpl Z.b2z in Hu.
  - destruct u; [done|]. unfold vlen in Hu. simpl in Hu. lia.
  - destruct u as [|x u]; cbn [update_bits ctrue].
    + rewrite update_bits_nil, ctrue_replicate_false. done.
    + rewrite IH; [done|]. unfold vlen in *. simpl length in Hu. lia.
  - destruct u; cbn [update_bits ctrue]; rewrite IH by lia; done.
Qed.

Lemma length_update_bits l : forall u, length (update_bits l u) = length l.
Proof. induction l as [|[] l IH]; intros [|x u]; cbn [update_bits length]; rewrite ?IH; done. Qed.

Lemma dep_resize v n l : (length l <= n)%nat -> dep v (resize n false l) = resize n false (dep v l).
Proof.
  intros Hn. rewrite !resize_ge by (rewrite ?length_dep; done). rewrite dep_app, length_dep. f_equal.
  rewrite dep_length_ones by apply ctrue_replicate_false. rewrite length_replicate. done.
Qed.

Lemma wsbits_take n ws : wsbits (take n ws) = take (64 * n) (wsbits ws).
Proof.
  revert n. induction ws as [|w ws IH]; intros n; [by rewrite take_nil; change (wsbits []) with (@nil bool); rewrite take_nil|].
  destruct n as [|n]; [rewrite Nat.mul_0_r; done|]. rewrite Nat.mul_succ_r, Nat.add_comm. cbn [take wsbits].
  rewrite take_app_add' by (by rewrite length_wbits). rewrite IH. done.
Qed.

Lemma wsbits_drop n ws : wsbits (drop n ws) = drop (64 * n) (wsbits ws).
Proof.
  revert n. induction ws as [|w ws IH]; intros n; [by rewrite drop_nil; change (wsbits []) with (@nil bool); rewrite drop_nil|].
  destruct n as [|n]; [rewrite Nat.mul_0_r; done|]. rewrite Nat.mul_succ_r, Nat.add_comm. cbn [drop wsbits].
  rewrite drop_app_add' by (by rewrite length_wbits). rewrite IH. done.
Qed.

Lemma WordCount_ok n : 0 <= n <= kMaxSize -> WordCount n = (n + 63) / 64.
Proof. intros Hn. unfold WordCount, kBitsInWord, kMaxSize in *. rewrite u32_id by (unfold is_u32; lia). f_equal. lia. Qed.

(** The words that hold the bits, and the rest, which is zero. *)
Lemma used_words b l : rep b l ->
  let n := Z.to_nat (WordCount (vlen l)) in
  words_ok (take n (words_ b)) /\ (length l <= 64 * n)%nat /\ (n <= length (words_ b))%nat /\ Z.of_nat n = (vlen l + 63) / 64 /\
  wsbits (take n (words_ b)) = resize (64 * n) false l /\
  wsbits (drop n (words_ b)) = replicate (64 * (length (words_ b) - n)) false.
Proof.
  intros [_ Hm Hw _] n. pose proof Hw as [Hok Hlen _]. pose proof (vlen_nonneg l).
  assert (Z.of_nat n = (vlen l + 63) / 64) as Hn by (unfold n; rewrite WordCount_ok by lia; divlia).
  assert (length l <= 64 * n)%nat as Hl by (unfold vlen in *; divlia).
  assert (n <= length (words_ b))%nat as Hnw by (unfold vlen, blocks in *; divlia).
  split; [by apply Forall_take|]. split; [done|]. split; [done|]. split; [done|].
  rewrite wsbits_take, wsbits_drop, (words_rep_bits _ _ Hw). split.
  - rewrite take_resize. f_equal. lia.
  - rewrite drop_resize_le by lia. rewrite drop_ge by done. rewrite resize_nil. f_equal. lia.
Qed.

Lemma ctrue_resize n l : (length l <= n)%nat -> ctrue (resize n false l) = ctrue l.
Proof. intros H. rewrite resize_ge, ctrue_app, ctrue_replicate_false by done. lia. Qed.

Lemma CountSetBits_ctrue b l : rep b l -> CountSetBits b = Some (ctrue l).
Proof. intros H. rewrite (CountSetBits_ok b l H), ctrue_cnt. done. Qed.

Lemma UpdateSetBits_ok b update l u : rep b l -> rep update u -> vlen u <= ctrue l ->
  exists b', UpdateSetBits b update = Some b' /\ rep b' (if ctrue u =? 0 then [] else update_bits l u).
Proof.
  intros H1 H2 Hle. unfold UpdateSetBits. rewrite (CountSetBits_ctrue _ _ H1), (CountSetBits_ctrue _ _ H2). runs.
  pose proof (ctrue_bounds u) as Hbu. fold (vlen u) in Hbu.
  destruct (Z.eqb_spec (ctrue u) 0) as [Hz|Hz]; [exists BitVector_empty; split; [done|apply rep_empty]|].
  rewrite (proj2 (Z.eqb_neq (ctrue l) 0)), (rep_size _ _ H1), (rep_size _ _ H2), (proj2 (Z.leb_le _ _)) by lia.
  pose proof (used_words b l H1) as Huw. pose proof (used_words update u H2) as Huw2. cbv zeta in Huw, Huw2.
  set (n := Z.to_nat (WordCount (vlen l))) in *. set (nu := Z.to_nat (WordCount (vlen u))) in *.
  destruct Huw as (Hok & Hl & Hn & Hnz & Hb & Hd). destruct Huw2 as (Hoku & Hlu & Hnu & Hnuz & Hbu2 & _).
  assert (stream (take nu (words_ update)) 0 0 = zb u) as Hstream.
  { unfold stream. rewrite <- zb_wsbits, Hbu2, zb_resize by done. lia. }
  destruct (update_loop_ok (take n (words_ b)) (take nu (words_ update)) 0 0) as (ws' & -> & Hok' & Hl' & Hb');
    rewrite ?Hstream, ?Hb, ?ctrue_resize by done; try done; try lia.
  { destruct (decide (nu = 0)%nat) as [->|]; [left; done|]. right. unfold vlen at 1. rewrite length_take. unfold vlen in *. divlia. }
  { pose proof (zb_bounds u) as Hzb. fold (vlen u) in Hzb. apply Z.lt_le_trans with (2 ^ vlen u); [lia|]. apply Z.pow_le_mono_r; lia. }
  runs. rewrite Hstream, Hb, dep_resize, dep_zb in Hb' by done.
  assert (vlen (update_bits l u) = vlen l) as Hvl by (unfold vlen; rewrite length_update_bits; done).
  assert (length ws' = n) as Hln by (rewrite Hl', length_take; lia).
  assert (words_rep (ws' ++ drop n (words_ b)) (update_bits l u)) as Hwr.
  { pose proof (rep_words _ _ H1) as [Hokb Hlenb _].
    assert (length (ws' ++ drop n (words_ b)) = length (words_ b)) as Hlen by (rewrite length_app, length_drop; lia).
    apply bits_words_rep; [apply Forall_app_2; [done|by apply Forall_drop]|rewrite Hvl; unfold vlen in *; lia|].
    rewrite wsbits_app, Hb', Hd, Hlen. rewrite !resize_ge by (rewrite length_update_bits; lia).
    rewrite length_update_bits, <- app_assoc, <- replicate_add. do 2 f_equal. lia. }
  pose proof (rep_counts _ _ H1) as Hcr. pose proof (rep_max _ _ H1) as Hm.
  destruct (rep_UpdateCounts _ (counts_ b) _ Hwr) as (c' & -> & Hr);
    [lia|rewrite Hvl; exact (proj1 Hcr)|exact (counts_head _ _ Hcr)|]. runs. rewrite Hvl in Hr.
  rewrite (CountSetBits_ctrue _ _ Hr). runs. rewrite ctrue_update_bits, Z.eqb_refl by done. eexists. split; [done|]. done.
Qed.
