(* ===== verification/BitVectorExtract.v ===== *)
(** * Extracting bits

    [SelectBits] of [src/trace_processor/containers/bit_vector.cc]: the bits at the
    set bits of a mask are packed together, in place. *)

From S2P Require Import Prelude BitWord BitVector BitVectorOps BitVectorSelect.

(** One word: the words, the position of the word that is written and the number of its bits that are set. *)
Definition select_step (mask : list Z) (i : Z) (s : list Z * Z * Z) : option (list Z * Z * Z) :=
  let '(ws, out_word, out_word_bits) := s in
  if out_word_bits <? 64 then
    cur ← vec_get ws i;
    cur_mask ← vec_get mask i;
    e ← Pext cur cur_mask;
    ws ← update_word ws out_word (fun w => Some (if out_word_bits =? 0 then e else w .| u64 (e << out_word_bits)));
    let pop := popcount cur_mask in
    let out_word_bits := u32 (out_word_bits + pop) in
    let spillover := 64 <? out_word_bits in
    let out_word := out_word + (if 64 <=? out_word_bits then 1 else 0) in
    let out_word_bits := out_word_bits mod 64 in
    ws ← (if spillover then vec_set ws out_word (e >> u32 (pop - out_word_bits)) else Some ws);
    Some (ws, out_word, out_word_bits)
  else None.

Definition SelectBits (b mask_bv : BitVector) : option BitVector :=
  if size_ b <=? size_ mask_bv then
    set_bits_in_mask ← CountSetBitsUntil mask_bv (size_ b);
    '(ws, out_word, _) ← for_loop 0 (WordCount (size_ b)) (select_step (words_ mask_bv)) (words_ b, 0, 0);
    if out_word <=? WordCount set_bits_in_mask then
      b ← Resize (mkBV (size_ b) (counts_ b) ws) set_bits_in_mask false;
      counts ← UpdateCounts (words_ b) (counts_ b);
      Some (mkBV (size_ b) counts (words_ b))
    else None
  else None.

(** ** Lists *)

Lemma ext_app l1 l2 m1 m2 : length l1 = length m1 -> ext (l1 ++ l2) (m1 ++ m2) = ext l1 m1 ++ ext l2 m2.
Proof.
  revert m1. induction l1 as [|x l1 IH]; intros [|y m1] H; simpl in H; try done; try lia.
  cbn [app ext]. destruct y; rewrite IH by lia; done.
Qed.

Lemma ext_nil_r l : ext l [] = [].
Proof. destruct l; done. Qed.

Lemma ext_take l m : ext l m = ext l (take (length l) m).
Proof.
  revert m. induction l as [|x l IH]; intros [|y m]; try done. cbn [length take ext]. rewrite IH. done.
Qed.

Lemma ext_false n m : exists k, ext (replicate n false) m = replicate k false.
Proof.
  revert m. induction n as [|n IH]; intros m; [exists 0%nat; done|]. destruct m as [|y m]; [exists 0%nat; done|].
  destruct (IH m) as [k Hk]. cbn [replicate ext]. rewrite Hk. destruct y; [exists (S k)|exists k]; done.
Qed.

Lemma testbit_zb l k : 0 <= k -> Z.testbit (zb l) k = lbit l k.
Proof.
  revert k. induction l as [|x l IH]; intros k Hk; [apply Z.bits_0|]. cbn [zb]. destruct (decide (k = 0)) as [->|].
  - rewrite Z.bit0_odd, Z.odd_add_mul_2. destruct x; done.
  - replace k with (Z.succ (k - 1)) by lia. unfold lbit.
    replace (Z.to_nat (Z.succ (k - 1))) with (S (Z.to_nat (k - 1))) by lia.
    change (default false _) with (lbit l (k - 1)).
    rewrite <- (IH (k - 1)) by lia.
    destruct x; simpl Z.b2z; rewrite Z.add_comm; [apply Z.testbit_odd_succ|rewrite Z.add_0_r; apply Z.testbit_even_succ]; lia.
Qed.

(** ** One step *)

Lemma testbit_join W x ob j : 0 <= ob < 64 -> 0 <= W -> is_u64 x -> (ob <> 0 -> W < 2 ^ ob) -> 0 <= j < 64 ->
  Z.testbit (if ob =? 0 then x else W .| u64 (x << ob)) j = if j <? ob then Z.testbit W j else Z.testbit x (j - ob).
Proof.
  intros Hob HW Hx HWb Hj. destruct (Z.eqb_spec ob 0) as [->|].
  - rewrite (proj2 (Z.ltb_ge _ _)), Z.sub_0_r by lia. done.
  - bits. rewrite (proj2 (Z.ltb_lt j 64)) by lia. rewrite andb_true_l. destruct (Z.ltb_spec j ob).
    + rewrite (Z.testbit_neg_r x) by lia. apply orb_false_r.
    + rewrite <- (Z.mod_small W (2 ^ ob)), Z.mod_pow2_bits_high by lia. done.
Qed.

Lemma small_of_bits w n : 0 <= n -> is_u64 w -> (forall j, n <= j < 64 -> Z.testbit w j = false) -> w < 2 ^ n.
Proof.
  intros Hn Hw H. assert (w = w mod 2 ^ n) as ->.
  - apply Z.bits_inj'. intros j Hj. destruct (decide (j < n)).
    + rewrite Z.mod_pow2_bits_low by lia. done.
    + rewrite Z.mod_pow2_bits_high by lia. destruct (decide (j < 64)); [apply H; lia|apply testbit_u64_high; [done|lia]].
  - apply Z.mod_pos_bound, pow2_pos. done.
Qed.

Section Step.
Context (mask : list Z) (i : Z) (cur m : Z).
Context (ws : list Z) (e : Z).
Context (Hi : 0 <= i < vlen ws) (Hok : words_ok ws) (He : 0 <= e <= 64 * i).
Context (Hcur : vec_get ws i = Some cur) (Hm : vec_get mask i = Some m) (Hm64 : is_u64 m).
Context (Hhigh : e mod 64 <> 0 -> forall w, vec_get ws (e / 64) = Some w -> w < 2 ^ (e mod 64)).
Context (X : list bool) (Xdef : X = ext (wbits cur) (wbits m)).
Local Notation x := (zb X).
Context (e' : Z) (He'def : e' = e + popcount m).

Local Lemma x_ok : is_u64 cur /\ is_u64 x /\ vlen X = popcount m /\ 0 <= popcount m <= 64 /\ x < 2 ^ popcount m.
Proof using Hok Hcur Xdef.
  pose proof (proj1 (vec_get_lookup _ _ _) Hcur) as [_ Hc]. pose proof (popcount_bounds m).
  assert (vlen X = popcount m) as HX.
  { rewrite Xdef. unfold vlen. rewrite length_ext by (rewrite !length_wbits; done). symmetry. apply popcount_ctrue. }
  pose proof (zb_bounds X) as Hb. fold (vlen X) in Hb. rewrite HX in Hb.
  assert (2 ^ popcount m <= 2 ^ 64) by (apply Z.pow_le_mono_r; lia).
  split; [exact (Forall_lookup_1 _ _ _ _ Hok Hc)|]. unfold is_u64. lia.
Qed.

(** The first word that is written. *)
Local Lemma step_first : exists ws1,
  update_word ws (e / 64) (fun w => Some (if e mod 64 =? 0 then x else w .| u64 (x << (e mod 64)))) = Some ws1 /\
  changed ws ws1 (fun k b => if k / 64 =? e / 64 then if k <? e then b else Z.testbit x (k - e) else b).
Proof using Hok Hi He Hcur Hhigh Xdef.
  destruct x_ok as (_ & Hx & _). clear He'def Hm64.
  destruct (vec_get_some ws (e / 64)) as [W HW]; [unfold vlen in *; divlia|].
  pose proof (proj1 (vec_get_lookup _ _ _) HW) as [_ HW']. pose proof (Forall_lookup_1 _ _ _ _ Hok HW') as HW64.
  set (lo := if e mod 64 =? 0 then x else W .| u64 (x << (e mod 64))).
  destruct (update_word_ok ws (e / 64) (fun _ => Some lo) (fun j _ => Z.testbit lo j)) as (ws1 & Hrun & Hch); [done|divlia| |].
  { intros w _. exists lo. split; [done|]. split; [|done]. unfold lo. destruct (e mod 64 =? 0); auto with dv. }
  exists ws1. split.
  - unfold update_word in *. rewrite HW in *. exact Hrun.
  - eapply changed_impl; [exact Hch| |].
    + intros k Hk. simpl. destruct (Z.eqb_spec (k / 64) (e / 64)) as [Hq|]; [|done]. unfold lo.
      rewrite testbit_join; [|divlia|unfold is_u64 in HW64; lia|done|intros; apply Hhigh; done|divlia].
      replace (k mod 64 <? e mod 64) with (k <? e) by (apply Bool.eq_iff_eq_true; rewrite !Z.ltb_lt; divlia).
      destruct (Z.ltb_spec k e); [|f_equal; divlia].
      rewrite <- (bit_word ws (e / 64) W) by (done || divlia). f_equal. divlia.
    + intros k Hk. rewrite (proj2 (Z.eqb_neq _ _)); [done|]. divlia.
Qed.

Lemma select_step_ok : exists ws', select_step mask i (ws, e / 64, e mod 64) = Some (ws', e' / 64, e' mod 64) /\
  words_ok ws' /\ vlen ws' = vlen ws /\
  (forall k, 0 <= k < e' -> bit ws' k = if k <? e then bit ws k else lbit X (k - e)) /\
  (forall j, i < j -> vec_get ws' j = vec_get ws j) /\
  (e' mod 64 <> 0 -> forall w, vec_get ws' (e' / 64) = Some w -> w < 2 ^ (e' mod 64)).
Proof using All.
  destruct x_ok as (Hcur64 & Hx & HX & Hp & Hxp). destruct step_first as (ws1 & Hrun & Hch).
  unfold select_step. rewrite (proj2 (Z.ltb_lt _ _)), Hcur by divlia. runs. rewrite Hm. runs.
  rewrite Pext_ok, <- Xdef by done. runs. rewrite Hrun. runs.
  rewrite (u32_id (e mod 64 + _)) by (unfold is_u32; divlia).
  assert (e / 64 + (if 64 <=? e mod 64 + popcount m then 1 else 0) = e' / 64) as ->.
  { destruct (Z.leb_spec 64 (e mod 64 + popcount m)); divlia. }
  replace ((e mod 64 + popcount m) mod 64) with (e' mod 64) by (divlia).
  pose proof Hch as (Hok1 & Hl1 & Hb1).
  assert (e' <= 64 * (i + 1)) as He' by lia.
  assert (forall j, j <> e / 64 -> vec_get ws1 j = vec_get ws j) as Hother.
  { intros j Hj. unfold update_word in Hrun. destruct (vec_get ws (e / 64)); [|done]. revert Hrun. runs. intros Hrun.
    rewrite vec_set_some in Hrun by (unfold vlen in *; divlia). injection Hrun as <-.
    destruct (decide (0 <= j)); [|unfold vec_get; rewrite (proj2 (Z.leb_gt _ _)) by lia; done].
    rewrite vec_get_insert by (unfold vlen in *; divlia). rewrite (proj2 (Z.eqb_neq _ _)) by done. done. }
  destruct (Z.ltb_spec 64 (e mod 64 + popcount m)) as [Hspill|Hno].
  - rewrite (u32_id (popcount m - _)) by (unfold is_u32; divlia).
    replace (popcount m - e' mod 64) with (64 - e mod 64) by (divlia).
    rewrite vec_set_some by (unfold vlen in *; divlia). runs. eexists. split; [done|].
    assert (is_u64 (x >> (64 - e mod 64))) as Hhi by (apply u64_shiftr; [divlia|done]).
    assert (0 <= e' / 64 < vlen ws1 /\ e' / 64 = e / 64 + 1) as [Hin Hnext] by (unfold vlen in *; divlia).
    split; [by apply Forall_insert|]. split; [rewrite vlen_insert; unfold vlen in *; lia|]. split_and!.
    + intros k Hk. unfold bit. destruct (decide (k / 64 = e' / 64)) as [Hq|Hq].
      * rewrite Hq, list_lookup_insert_eq by (unfold vlen in *; lia). simpl. rewrite Z.shiftr_spec by divlia.
        rewrite (proj2 (Z.ltb_ge k e)) by divlia. rewrite testbit_zb by divlia. f_equal. divlia.
      * rewrite list_lookup_insert_ne by divlia. fold (bit ws1 k). rewrite Hb1 by lia.
        fold (bit ws k). destruct (Z.eqb_spec (k / 64) (e / 64)).
        -- destruct (Z.ltb_spec k e); [done|]. apply testbit_zb. lia.
        -- rewrite (proj2 (Z.ltb_lt k e)); [done|]. divlia.
    + intros j Hj. rewrite vec_get_insert by (divlia).
      rewrite (proj2 (Z.eqb_neq _ _)) by (divlia). apply Hother. divlia.
    + intros _ w Hw. rewrite vec_get_insert, Z.eqb_refl in Hw by lia. injection Hw as <-.
      rewrite shiftr_div by divlia. pose proof (pow2_pos (64 - e mod 64) ltac:(divlia)).
      apply Z.div_lt_upper_bound; [done|]. rewrite <- Z.pow_add_r by (divlia).
      replace (64 - e mod 64 + e' mod 64) with (popcount m) by (divlia). done.
  - runs. exists ws1. split; [done|]. split; [done|]. split; [unfold vlen in *; lia|]. split_and!.
    + intros k Hk. rewrite Hb1 by lia. destruct (Z.eqb_spec (k / 64) (e / 64)).
      * destruct (Z.ltb_spec k e); [done|]. apply testbit_zb. lia.
      * rewrite (proj2 (Z.ltb_lt k e)); [done|]. divlia.
    + intros j Hj. apply Hother. divlia.
    + intros Hne w Hw. assert (e' / 64 = e / 64) as Hsame by (divlia). rewrite Hsame in Hw.
      pose proof (proj1 (vec_get_lookup _ _ _) Hw) as [_ Hw']. pose proof (Forall_lookup_1 _ _ _ _ Hok1 Hw') as Hw64.
      apply small_of_bits; [divlia|done|]. intros j Hj. rewrite <- (bit_word ws1 (e / 64) w) by (done || divlia).
      rewrite Hb1 by divlia. rewrite (proj2 (Z.eqb_eq _ _)) by divlia.
      rewrite (proj2 (Z.ltb_ge _ _)) by (divlia). rewrite testbit_zb by (divlia).
      apply lbit_beyond. rewrite HX. divlia.
Qed.
End Step.

(** ** The loop *)

Lemma take_wsbits_S ws i w : vec_get ws i = Some w ->
  take (64 * Z.to_nat (i + 1)) (wsbits ws) = take (64 * Z.to_nat i) (wsbits ws) ++ wbits w.
Proof.
  intros [Hi Hw]%vec_get_lookup. rewrite <- !wsbits_take. replace (Z.to_nat (i + 1)) with (S (Z.to_nat i)) by lia.
  rewrite (take_S_r _ _ _ Hw), wsbits_app. cbn [wsbits]. rewrite app_nil_r. done.
Qed.

Section Loop.
Context (ws0 mask : list Z) (n : Z).
Context (Hok0 : words_ok ws0) (Hokm : words_ok mask) (Hn : 0 <= n <= vlen ws0) (Hnm : n <= vlen mask).
Let mtake i := take (64 * Z.to_nat i) (wsbits mask).
Let eof i := ctrue (mtake i).
Let Eof i := ext (take (64 * Z.to_nat i) (wsbits ws0)) (mtake i).

Local Lemma take_lengths i : 0 <= i <= n -> length (take (64 * Z.to_nat i) (wsbits ws0)) = length (mtake i) /\ vlen (mtake i) = 64 * i.
Proof using Hn Hnm.
  intros Hi. unfold mtake, vlen in *. rewrite !length_take, !length_wsbits. lia.
Qed.

Local Lemma Eof_length i : 0 <= i <= n -> vlen (Eof i) = eof i.
Proof using Hn Hnm. intros Hi. unfold Eof, eof, vlen. apply length_ext, take_lengths. done. Qed.

Lemma select_loop_ok : exists ws e, for_loop 0 n (select_step mask) (ws0, 0, 0) = Some (ws, e / 64, e mod 64) /\
  e = ctrue (take (64 * Z.to_nat n) (wsbits mask)) /\ words_ok ws /\ vlen ws = vlen ws0 /\
  (forall k, 0 <= k < e ->
     bit ws k = lbit (ext (take (64 * Z.to_nat n) (wsbits ws0)) (take (64 * Z.to_nat n) (wsbits mask))) k) /\
  (forall j, n <= j -> vec_get ws j = vec_get ws0 j) /\
  (e mod 64 <> 0 -> forall w, vec_get ws (e / 64) = Some w -> w < 2 ^ (e mod 64)).
Proof using Hok0 Hokm Hn Hnm.
  destruct (for_loop_ind (fun i s => exists ws, s = (ws, eof i / 64, eof i mod 64) /\ words_ok ws /\ vlen ws = vlen ws0 /\
    (forall k, 0 <= k < eof i -> bit ws k = lbit (Eof i) k) /\ (forall j, i <= j -> vec_get ws j = vec_get ws0 j) /\
    (eof i mod 64 <> 0 -> forall w, vec_get ws (eof i / 64) = Some w -> w < 2 ^ (eof i mod 64)))
    0 n (select_step mask) (ws0, 0, 0)) as (s & Hrun & ws & -> & Hok & Hl & Hb & Hj & Hh); [lia| | |].
  - exists ws0. assert (eof 0 = 0) as -> by done. split_and!; try done. intros k Hk. lia.
  - intros i s Hi (ws & -> & Hok & Hl & Hb & Hj & Hh).
    destruct (vec_get_some ws i) as [cur Hcur]; [unfold vlen in *; lia|].
    destruct (vec_get_some mask i) as [m Hm]; [unfold vlen in *; lia|].
    pose proof (proj1 (vec_get_lookup _ _ _) Hm) as [_ Hm'].
    assert (mtake (i + 1) = mtake i ++ wbits m) as HM by (apply take_wsbits_S; done).
    assert (eof (i + 1) = eof i + popcount m) as He by (unfold eof; rewrite HM, ctrue_app, popcount_ctrue; done).
    assert (Eof (i + 1) = Eof i ++ ext (wbits cur) (wbits m)) as HE.
    { rewrite Hj in Hcur by lia. unfold Eof. rewrite HM, (take_wsbits_S _ _ _ Hcur). apply ext_app, take_lengths. lia. }
    assert (0 <= eof i <= 64 * i) as Heb.
    { pose proof (ctrue_bounds (mtake i)) as Hc. fold (vlen (mtake i)) in Hc. rewrite (proj2 (take_lengths i ltac:(lia))) in Hc. done. }
    destruct (select_step_ok mask i cur m ws (eof i)) with (X := ext (wbits cur) (wbits m)) (e' := eof (i + 1))
      as (ws' & Hstep & Hok' & Hl' & Hb' & Hj' & Hh'); try done; try lia.
    { exact (Forall_lookup_1 _ _ _ _ Hokm Hm'). }
    eexists. split; [exact Hstep|]. exists ws'. split_and!; try done; [lia| |].
    + intros k Hk. rewrite Hb' by done. rewrite HE, lbit_app, Eof_length by lia.
      destruct (Z.ltb_spec k (eof i)); [apply Hb; lia|done].
    + intros j Hji. rewrite Hj', Hj by lia. done.
  - exists ws, (eof n). split; [done|]. split_and!; done.
Qed.
End Loop.

(** ** [SelectBits] *)

Lemma resize_app_false n (l : list bool) : (length l <= n)%nat -> resize n false l = l ++ replicate (n - length l) false.
Proof. intros H. apply resize_ge. done. Qed.

(** The words extracted are those of the lists, then zeros. *)
Lemma ext_resized l m n : (length l <= n)%nat -> (length l <= length m)%nat ->
  forall k, 0 <= k -> lbit (ext (resize n false l) m) k = lbit (ext l m) k.
Proof.
  intros Hn Hm k Hk. rewrite resize_app_false by done. rewrite <- (take_drop (length l) m) at 1.
  rewrite ext_app by (rewrite length_take; lia). rewrite <- ext_take, lbit_app by done.
  destruct (Z.ltb_spec k (vlen (ext l m))); [done|]. rewrite (lbit_beyond (ext l m)) by done.
  destruct (ext_false (n - length l) (drop (length l) m)) as [z ->]. unfold lbit. apply default_lookup_replicate.
Qed.

Lemma vlen_ext l m : (length l <= length m)%nat -> vlen (ext l m) = cnt (lbit m) 0 (vlen l).
Proof.
  intros H. rewrite ext_take. unfold vlen at 1. rewrite length_ext by (rewrite length_take; lia).
  rewrite ctrue_cnt. assert (vlen (take (length l) m) = vlen l) as -> by (unfold vlen; rewrite length_take; lia).
  apply cnt_ext. intros k Hk. unfold lbit, vlen in *. rewrite lookup_take_lt by lia. done.
Qed.

Section Select.
Context (b mask : BitVector) (l m : list bool).
Context (Hrb : rep b l) (Hrm : rep mask m) (Hle : vlen l <= vlen m).
Let n := WordCount (vlen l).

Local Lemma select_facts : 0 <= n /\ n = (vlen l + 63) / 64 /\ n <= vlen (words_ b) /\ n <= vlen (words_ mask) /\
  take (64 * Z.to_nat n) (wsbits (words_ b)) = resize (64 * Z.to_nat n) false l /\
  take (64 * Z.to_nat n) (wsbits (words_ mask)) = resize (64 * Z.to_nat n) false m.
Proof using Hrb Hrm Hle.
  pose proof (used_words b l Hrb) as (_ & Hl & Hnl & Hnz & Hb & _). rewrite wsbits_take in Hb. fold n in Hb, Hnz, Hnl.
  pose proof (rep_max _ _ Hrb) as Hmax. pose proof (vlen_nonneg l).
  assert (n = (vlen l + 63) / 64) as Hn by (unfold n; apply WordCount_ok; lia).
  pose proof (rep_words _ _ Hrm) as Hw. pose proof (wr_len _ _ Hw) as Hlen.
  assert (n <= vlen (words_ mask)) by (rewrite Hlen, Hn; unfold blocks; divlia).
  split_and!; try done; [divlia|unfold vlen in *; lia|].
  rewrite (words_rep_bits _ _ Hw), take_resize. f_equal. unfold vlen in *. lia.
Qed.

(** What the loop leaves in the words. *)
Local Lemma select_words : exists ws e,
  for_loop 0 n (select_step (words_ mask)) (words_ b, 0, 0) = Some (ws, e / 64, e mod 64) /\
  words_ok ws /\ vlen ws = vlen (words_ b) /\ vlen (ext l m) <= e <= vlen (ext l m) + 63 /\ e <= 64 * n /\
  (forall k, 0 <= k < e -> bit ws k = lbit (ext l m) k) /\
  (vlen (ext l m) = vlen l -> forall k, e <= k -> bit ws k = false).
Proof using Hrb Hrm Hle.
  destruct select_facts as (Hn0 & Hn & Hnb & Hnm & Htb & Htm). pose proof (rep_words _ _ Hrb) as [Hokb Hlenb Hbitb].
  pose proof (rep_words _ _ Hrm) as [Hokm _ _].
  destruct (select_loop_ok (words_ b) (words_ mask) n) as (ws & e & Hrun & He & Hok & Hl & Hb & Hj & Hh); [done..|].
  rewrite Htb, Htm in Hb. rewrite Htm in He. set (N := vlen (ext l m)).
  assert (length l <= 64 * Z.to_nat n)%nat as Hl64 by (unfold vlen in *; divlia).
  assert (forall k, 0 <= k < e -> bit ws k = lbit (ext l m) k) as Hbits.
  { intros k Hk. rewrite Hb by done. rewrite ext_resized by (rewrite ?length_resize; done || lia).
    rewrite ext_take, take_resize_le by done. rewrite resize_take by (unfold vlen in *; lia). rewrite <- ext_take. done. }
  assert (N <= e <= N + 63 /\ e <= 64 * n) as [HN He64].
  { assert (e = cnt (lbit (resize (64 * Z.to_nat n) false m)) 0 (64 * n)) as He'.
    { rewrite He, ctrue_cnt, vlen_resize. f_equal. lia. }
    rewrite (cnt_split _ 0 (vlen l)) in He' by (unfold vlen in *; divlia).
    rewrite (cnt_ext _ (lbit m)) in He'.
    - unfold N. rewrite vlen_ext by (unfold vlen in *; lia).
      pose proof (cnt_bounds (lbit (resize (64 * Z.to_nat n) false m)) (vlen l) (64 * n)).
      pose proof (cnt_bounds (lbit m) 0 (vlen l)). pose proof (vlen_nonneg l). divlia.
    - intros k Hk. rewrite lbit_resize by lia. rewrite (proj2 (Z.ltb_lt k (vlen m))), (proj2 (Z.ltb_lt k _)) by (unfold vlen in *; lia). done. }
  exists ws, e. split; [done|]. split; [done|]. split; [done|]. split; [done|]. split; [done|]. split; [done|].
  intros Heq k Hk. assert (0 <= e) by (pose proof (vlen_nonneg (ext l m)); lia).
  destruct (decide (n <= k / 64)) as [Hq|Hq].
  - pose proof (Hj (k / 64) Hq) as Hsame. unfold vec_get in Hsame. rewrite (proj2 (Z.leb_le 0 _)) in Hsame by divlia.
    unfold bit. rewrite Hsame. fold (bit (words_ b) k). rewrite Hbitb, lbit_beyond by divlia. done.
  - assert (k / 64 = e / 64 /\ e mod 64 <> 0) as [Hq' Hne] by (rewrite Hn in *; subst N; divlia).
    destruct (vec_get_some ws (e / 64)) as [w Hw]; [unfold vlen in *; divlia|]. specialize (Hh Hne w Hw).
    replace k with (64 * (e / 64) + k mod 64) by divlia. rewrite (bit_word ws _ w) by (done || divlia).
    pose proof (proj1 (vec_get_lookup _ _ _) Hw) as [_ Hw']. pose proof (Forall_lookup_1 _ _ _ _ Hok Hw') as Hw64.
    unfold is_u64 in Hw64. rewrite <- (Z.mod_small w (2 ^ (e mod 64))) by lia. apply Z.mod_pow2_bits_high. divlia.
Qed.

Lemma SelectBits_ok : exists b', SelectBits b mask = Some b' /\ rep b' (ext l m).
Proof using Hrb Hrm Hle.
  unfold SelectBits. pose proof (rep_max _ _ Hrb) as Hmax. pose proof (vlen_nonneg l). pose proof (vlen_nonneg (ext l m)).
  rewrite (rep_size _ _ Hrb), (rep_size _ _ Hrm), (proj2 (Z.leb_le _ _)) by lia.
  rewrite (CountSetBitsUntil_ok mask m Hrm) by lia. rewrite <- vlen_ext by (unfold vlen in *; lia). runs.
  destruct select_words as (ws & e & Hrun & Hok & Hl & HN & He & Hb & Hfull). fold n. rewrite Hrun. runs.
  assert (vlen (ext l m) <= vlen l) as HNl.
  { rewrite vlen_ext by (unfold vlen in *; lia). pose proof (cnt_bounds (lbit m) 0 (vlen l)). lia. }
  rewrite (WordCount_ok (vlen (ext l m))), (proj2 (Z.leb_le _ _)) by (lia || divlia).
  pose proof (rep_words _ _ Hrb) as [_ Hlenb _]. pose proof (rep_counts _ _ Hrb) as Hcr. pose proof Hcr as [Hcl _].
  destruct (decide (vlen (ext l m) = vlen l)) as [Heq|Hne]; [|destruct (decide (vlen (ext l m) = 0)) as [Hz|Hz]].
  - unfold Resize. cbn [size_]. rewrite (proj2 (Z.eqb_eq _ _)) by done. runs. cbn [words_ counts_ size_].
    destruct (rep_UpdateCounts ws (counts_ b) (ext l m)) as (c' & -> & Hr); [|lia|by rewrite Heq|exact (counts_head _ _ Hcr)|].
    + split; [done|rewrite Heq; lia|]. intros k Hk. destruct (decide (k < e)); [apply Hb; lia|].
      rewrite Hfull, lbit_beyond by lia. done.
    + runs. eexists. split; [done|]. rewrite Heq in Hr. exact Hr.
  - unfold Resize. cbn [size_]. rewrite Hz, (proj2 (Z.eqb_neq 0 _)) by lia. cbn [Z.eqb]. runs. exists BitVector_empty.
    split; [done|]. destruct (ext l m); [apply rep_empty|unfold vlen in Hz; simpl in Hz; lia].
  - unfold kMaxSize in Hmax. destruct (Resize_cut (mkBV (vlen l) (counts_ b) ws) (vlen (ext l m)) false) as (ws' & -> & Hok' & Hl' & Hb');
      cbn [size_ words_]; [done|lia|lia|]. runs. cbn [words_ counts_ size_].
    assert (0 < blocks (vlen (ext l m)) <= blocks (vlen l)) as Hbl by (split; [unfold blocks; divlia|apply blocks_mono; lia]).
    destruct (rep_UpdateCounts ws' (resize (Z.to_nat (blocks (vlen (ext l m)))) 0 (counts_ b)) (ext l m)) as (c' & -> & Hr).
    + split; [done|done|]. intros k Hk. rewrite Hb' by done. cbn [words_]. destruct (Z.ltb_spec k (vlen (ext l m))).
      * rewrite Hb by lia. done.
      * rewrite lbit_beyond by done. done.
    + unfold kMaxSize. lia.
    + rewrite vlen_resize. lia.
    + intros _. rewrite vec_get_resize by lia. apply (counts_head _ _ Hcr). lia.
    + runs. eexists. split; [done|]. exact Hr.
Qed.
End Select.
