(* ===== verification/BitVectorIndex.v ===== *)
(** * Bit vectors and indices

    The operations of [src/trace_processor/containers/bit_vector.h] and
    [bit_vector.cc] between bit vectors and lists of indices, the builder with
    [IntersectRange], and the serialized form of
    [protos/dejaview/trace_processor/serialization.proto].

    Among the results: the indices of a vector made from sorted indices are those
    indices, and a vector that is serialized and read back is the same. *)

From Stdlib Require Import Sorted.
From S2P Require Import Prelude BitWord BitVector BitVectorOps BitVectorSelect.

(** ** Operations *)

(** Every round clears a bit of the word. *)
Fixpoint indices_in_word (fuel : nat) (word i : Z) (res : list Z) (res_idx : Z) : option (list Z * Z) :=
  if word =? 0 then Some (res, res_idx) else
  match fuel with
  | O => None
  | S fuel =>
      res ← vec_set res res_idx (u32 (i + Tzcnt word));
      indices_in_word fuel (word .& u64 (word - 1)) i res (u32 (res_idx + 1))
  end.
(** One round per word. *)
Fixpoint indices_loop (fuel : nat) (b : BitVector) (i : Z) (res : list Z) (res_idx : Z) : option (list Z) :=
  if i <? size_ b then
    match fuel with
    | O => None
    | S fuel =>
        word ← vec_get (words_ b) (i / kBitsInWord);
        '(res, res_idx) ← indices_in_word (Z.to_nat (popcount word)) word i res res_idx;
        indices_loop fuel b (u32 (i + kBitsInWord)) res res_idx
    end
  else Some res.
Definition GetSetBitIndices (b : BitVector) : option (list Z) :=
  set_bits ← CountSetBits b;
  if set_bits =? 0 then Some [] else
  indices_loop (Z.to_nat (WordCount (size_ b))) b 0 (replicate (Z.to_nat set_bits) 0) 0.

Definition FromSortedIndexVector (indices : list Z) : option BitVector :=
  match last indices with
  | None => Some BitVector_empty
  | Some back =>
      let size := u32 (back + 1) in
      let block_count := BlockCount size in
      words ← foldl (fun ws i => ws ← ws;
                       update_word ws (u32 (Z.quot i kBitsInWord)) (fun w => Word_Set w (u32 (Z.rem i kBitsInWord))))
                (Some (replicate (Z.to_nat (block_count * kWordsInBlock)) 0)) indices;
      counts ← UpdateCounts words (replicate (Z.to_nat block_count) 0);
      BitVector_of words counts size
  end.

Definition unsorted_step (s : option (list Z * Z)) (i : Z) : option (list Z * Z) :=
  '(words, max_idx) ← s;
  let word_idx := i / kBitsInWord in
  let words := if vlen words <=? word_idx then resize (Z.to_nat (word_idx + 1)) 0 words else words in
  words ← update_word words word_idx (fun w => Word_Set w (i mod kBitsInWord));
  Some (words, Z.max max_idx i).
Definition FromUnsortedIndexVector (indices : list Z) : option BitVector :=
  match indices with
  | [] => Some BitVector_empty
  | _ =>
      '(words, max_idx) ← foldl unsorted_step (Some ([], 0)) indices;
      let block_count := BlockCount (u32 (max_idx + 1)) in
      let words := resize (Z.to_nat (block_count * kWordsInBlock)) 0 words in
      counts ← UpdateCounts words (replicate (Z.to_nat block_count) 0);
      BitVector_of words counts (u32 (max_idx + 1))
  end.

(** The builder. *)
Record Builder := mkBuilder { bd_words : list Z; global_bit_offset_ : Z; bd_size : Z; skipped_blocks_ : Z }.

Definition Builder_new (size skip : Z) : option Builder :=
  if skip <=? size then
    Some (mkBuilder (replicate (Z.to_nat (BlockCount size * kWordsInBlock)) 0) skip size (skip / kBitsInBlock))
  else None.
Definition Builder_Append (d : Builder) (value : bool) : option Builder :=
  if global_bit_offset_ d <? bd_size d then
    ws ← update_word (bd_words d) (global_bit_offset_ d / kBitsInWord)
           (fun w => Some (w .| u64 (Z.b2z value << (global_bit_offset_ d mod kBitsInWord))));
    Some (mkBuilder ws (u32 (global_bit_offset_ d + 1)) (bd_size d) (skipped_blocks_ d))
  else None.
Definition AppendWord (d : Builder) (word : Z) : option Builder :=
  if (global_bit_offset_ d mod kBitsInWord =? 0) && (u32 (global_bit_offset_ d + kBitsInWord) <=? bd_size d) then
    ws ← update_word (bd_words d) (global_bit_offset_ d / kBitsInWord) (fun _ => Some word);
    Some (mkBuilder ws (u32 (global_bit_offset_ d + kBitsInWord)) (bd_size d) (skipped_blocks_ d))
  else None.
Definition Build (d : Builder) : option BitVector :=
  if bd_size d =? 0 then Some BitVector_empty else
  let counts := replicate (Z.to_nat (BlockCount (bd_size d))) 0 in
  if skipped_blocks_ d <=? vlen counts then
    counts ← for_loop (skipped_blocks_ d + 1) (vlen counts) (fun i counts =>
               prev ← vec_get counts (i - 1);
               n ← Block_CountSetBits (bd_words d) (kWordsInBlock * (i - 1));
               vec_set counts i (u32 (prev + n))) counts;
    BitVector_of (bd_words d) counts (bd_size d)
  else None.
Definition BitsUntilFull (d : Builder) : Z := u32 (bd_size d - global_bit_offset_ d).
Definition BitsInCompleteWordsUntilFull (d : Builder) : Z :=
  let next_word := WordCount (global_bit_offset_ d) in
  let end_word := WordFloor (bd_size d) in
  let complete_words := if next_word <? end_word then end_word - next_word else 0 in
  u32 (complete_words * kBitsInWord).
Definition BitsUntilWordBoundaryOrFull (d : Builder) : Z :=
  if (global_bit_offset_ d =? 0) && (bd_size d <? kBitsInWord) then bd_size d else
  let word_bit_offset := u8 (global_bit_offset_ d mod kBitsInWord) in
  Z.min (BitsUntilFull d) (u32 (kBitsInWord - word_bit_offset) mod kBitsInWord).

(** Appends [n] bits from [cur_index] on. *)
Definition append_bits (b : BitVector) (n cur_index : Z) (d : Builder) : option Builder :=
  for_loop 0 n (fun i d => x ← IsSet b (cur_index + i); Builder_Append d x) d.

Definition IntersectRange (b : BitVector) (range_start range_end : Z) : option BitVector :=
  let end_idx := Z.min range_end (size_ b) in
  if end_idx <=? range_start then Some BitVector_empty else
  d ← Builder_new end_idx range_start;
  let front_bits := BitsUntilWordBoundaryOrFull d in
  d ← append_bits b front_bits range_start d;
  let cur_index := u32 (range_start + front_bits) in
  if (cur_index =? end_idx) || (cur_index mod kBitsInWord =? 0) then
    let cur_words := cur_index / kBitsInWord in
    let full_words := BitsInCompleteWordsUntilFull d / kBitsInWord in
    d ← for_loop cur_words (u32 (cur_words + full_words))
          (fun i d => w ← vec_get (words_ b) i; AppendWord d w) d;
    let last_bits := BitsUntilFull d in
    let cur_index := u32 (cur_index + full_words * kBitsInWord) in
    d ← append_bits b last_bits cur_index d;
    Build d
  else None.

(** The message; the fields of bytes may be absent. *)
Record SerializedBitVector := mkSBV { sbv_words : option (list Z); sbv_counts : option (list Z); sbv_size : Z }.

Definition Serialize (b : BitVector) : SerializedBitVector :=
  mkSBV (if bool_decide (words_ b = []) then None else Some (words_ b ≫= le_bytes 8))
        (if bool_decide (counts_ b = []) then None else Some (counts_ b ≫= le_bytes 4)) (size_ b).

(** [memcpy] into a vector that was resized to the number of whole elements of [k] octets. *)
Fixpoint split_octets (k n : nat) (bytes : list Z) : list Z :=
  match n with
  | O => []
  | S n => le_val (take k bytes) :: split_octets k n (drop k bytes)
  end.
Definition copy_elements (k : nat) (bytes : list Z) : option (list Z) :=
  let n := (length bytes / k)%nat in
  if (length bytes <=? n * k)%nat then Some (split_octets k n bytes) else None.
Definition Deserialize (msg : SerializedBitVector) : option BitVector :=
  counts ← match sbv_counts msg with Some c => copy_elements 4 c | None => Some [] end;
  words ← match sbv_words msg with Some w => copy_elements 8 w | None => Some [] end;
  Some (mkBV (sbv_size msg) counts words).

(** ** The indices of the set bits *)

Lemma set_indices_app l m off : set_indices off (l ++ m) = set_indices off l ++ set_indices (off + vlen l) m.
Proof.
  revert off. induction l as [|x l IH]; intros off; [change (vlen []) with 0; rewrite Z.add_0_r; done|].
  unfold vlen in *. cbn [app set_indices length]. rewrite !IH.
  replace (off + 1 + Z.of_nat (length l)) with (off + Z.of_nat (S (length l))) by lia. destruct x; done.
Qed.

Lemma set_indices_false n off : set_indices off (replicate n false) = [].
Proof. revert off. induction n as [|n IH]; intros off; [done|]. cbn [replicate set_indices]. apply IH. Qed.

Lemma length_set_indices l off : Z.of_nat (length (set_indices off l)) = ctrue l.
Proof.
  revert off. induction l as [|[] l IH]; intros off; cbn [set_indices ctrue]; simpl Z.b2z; [done| |].
  - simpl length. rewrite Nat2Z.inj_succ, IH. lia.
  - rewrite IH. lia.
Qed.

Lemma vec_set_app (done_ todo : list Z) x y : vec_set (done_ ++ x :: todo) (vlen done_) y = Some ((done_ ++ [y]) ++ todo).
Proof.
  unfold vlen. rewrite vec_set_some by (rewrite length_app; simpl; lia). rewrite Nat2Z.id.
  replace (length done_) with (length done_ + 0)%nat by lia. rewrite insert_app_r, <- app_assoc. done.
Qed.

(** The positions of one word are added to the result. *)
Lemma indices_in_word_ok m : forall fuel p i done_ todo,
  0 <= p -> p + vlen m <= 64 -> ctrue m <= Z.of_nat fuel -> ctrue m <= vlen todo -> 0 <= i -> i + p + vlen m < 2 ^ 32 ->
  vlen done_ + vlen todo < 2 ^ 32 ->
  indices_in_word fuel (2 ^ p * zb m) i (done_ ++ todo) (vlen done_) =
  Some ((done_ ++ set_indices (i + p) m) ++ drop (Z.to_nat (ctrue m)) todo, vlen done_ + ctrue m).
Proof.
  induction m as [|x m IH]; intros fuel p i done_ todo Hp Hm Hf Ht Hi Hmax Hlen.
  - cbn [zb set_indices ctrue]. rewrite Z.mul_0_r, app_nil_r, Z.add_0_r. destruct fuel; done.
  - assert (vlen (x :: m) = vlen m + 1) as Hvm by (unfold vlen; simpl length; lia).
    pose proof (mask_bound (x :: m) p Hp ltac:(unfold vlen in *; lia)) as Hb. pose proof (zb_bounds m). pose proof (ctrue_bounds m).
    pose proof (pow2_pos p Hp) as Hpp. assert (2 ^ (p + 1) = 2 * 2 ^ p) as Hp1 by (rewrite Z.pow_add_r by lia; lia).
    destruct x; cbn [zb set_indices ctrue] in *; simpl Z.b2z in *.
    + destruct fuel as [|fuel]; [lia|]. destruct todo as [|y todo]; [unfold vlen in Ht; simpl in Ht; lia|].
      cbn [indices_in_word]. rewrite (proj2 (Z.eqb_neq _ 0)) by nia. rewrite vec_set_app. runs.
      rewrite clear_lowest_bit, Tzcnt_low by lia. rewrite (u32_id (i + p)) by (unfold is_u32, vlen in *; lia).
      assert (vlen (y :: todo) = vlen todo + 1) as Hvt by (unfold vlen; simpl length; lia).
      assert (vlen (done_ ++ [i + p]) = vlen done_ + 1) as Hvd by (unfold vlen; rewrite length_app; simpl; lia).
      rewrite (u32_id (vlen done_ + 1)) by (unfold is_u32, vlen in *; lia). rewrite <- Hvd, IH by lia.
      rewrite Hvd, <- app_assoc. replace (Z.to_nat (1 + ctrue m)) with (S (Z.to_nat (ctrue m))) by lia.
      cbn [drop app]. rewrite <- !app_assoc. cbn [app]. rewrite (Z.add_assoc i p 1). do 2 f_equal. lia.
    + replace (2 ^ p * (0 + 2 * zb m)) with (2 ^ (p + 1) * zb m) by lia. rewrite IH by lia.
      rewrite Z.add_assoc. done.
Qed.

Lemma vlen_wbits w : vlen (wbits w) = 64.
Proof. unfold vlen. rewrite length_wbits. done. Qed.

Lemma indices_of_word w i done_ todo : is_u64 w -> ctrue (wbits w) <= vlen todo -> 0 <= i < 2 ^ 32 - 64 ->
  vlen done_ + vlen todo < 2 ^ 32 ->
  indices_in_word (Z.to_nat (popcount w)) w i (done_ ++ todo) (vlen done_) =
  Some ((done_ ++ set_indices i (wbits w)) ++ drop (Z.to_nat (ctrue (wbits w))) todo, vlen done_ + ctrue (wbits w)).
Proof.
  intros Hw Ht Hi Hl. pose proof (ctrue_bounds (wbits w)) as Hc. pose proof (vlen_wbits w) as Hv. unfold vlen in Hv.
  pose proof (indices_in_word_ok (wbits w) (Z.to_nat (popcount w)) 0 i done_ todo) as Hin.
  rewrite zb_wbits, Z.mul_1_l, Z.add_0_r in Hin by done. apply Hin; rewrite ?vlen_wbits, ?popcount_ctrue; lia.
Qed.

Lemma indices_loop_ok b l : rep b l -> forall fuel j done_ todo,
  0 <= j -> j + Z.of_nat fuel = (vlen l + 63) / 64 -> ctrue (wsbits (take fuel (drop (Z.to_nat j) (words_ b)))) <= vlen todo ->
  vlen done_ + vlen todo < 2 ^ 32 ->
  indices_loop fuel b (64 * j) (done_ ++ todo) (vlen done_) =
  Some (done_ ++ set_indices (64 * j) (wsbits (take fuel (drop (Z.to_nat j) (words_ b)))) ++
        drop (Z.to_nat (ctrue (wsbits (take fuel (drop (Z.to_nat j) (words_ b)))))) todo).
Proof.
  intros H. pose proof H as [Hs Hm [Hok Hlen _] _]. unfold kMaxSize in Hm.
  induction fuel as [|fuel IH]; intros j done_ todo Hj Hn Hc Hl; cbn [indices_loop]; rewrite Hs.
  - rewrite (proj2 (Z.ltb_ge _ _)) by divlia. cbn [take wsbits set_indices]. done.
  - rewrite (proj2 (Z.ltb_lt _ _)) by divlia. unfold kBitsInWord. rewrite (Z.mul_comm 64 j), Z.div_mul, <- (Z.mul_comm 64 j) by lia.
    destruct (vec_get_some (words_ b) j) as [w Hw]; [unfold vlen, blocks in *; divlia|]. rewrite Hw. runs.
    pose proof (proj1 (vec_get_lookup _ _ _) Hw) as [_ Hw']. pose proof (Forall_lookup_1 _ _ _ _ Hok Hw') as Hw64.
    assert (take (S fuel) (drop (Z.to_nat j) (words_ b)) = w :: take fuel (drop (Z.to_nat (j + 1)) (words_ b))) as Ht.
    { rewrite (drop_S _ _ _ Hw'). replace (Z.to_nat (j + 1)) with (S (Z.to_nat j)) by lia. done. }
    rewrite Ht in *. cbn [wsbits] in *. rewrite ctrue_app, set_indices_app in *.
    pose proof (vlen_wbits w) as Hv64. pose proof (ctrue_bounds (wbits w)) as Hcw. fold (vlen (wbits w)) in Hcw.
    set (rest := wsbits _) in *. pose proof (ctrue_bounds rest) as Hcr.
    rewrite indices_of_word by (done || lia || divlia). runs. clear Ht.
    generalize dependent (wbits w). intros bw Hc Hv64 Hcw.
    rewrite (u32_id (64 * j + 64)) by (unfold is_u32; divlia).
    replace (64 * j + 64) with (64 * (j + 1)) by lia.
    assert (vlen (set_indices (64 * j) (bw)) = ctrue (bw)) as Hsi by (unfold vlen; rewrite length_set_indices; reflexivity).
    assert (vlen (drop (Z.to_nat (ctrue (bw))) todo) = vlen todo - ctrue (bw)) as Hd
      by (unfold vlen in *; rewrite length_drop; lia).
    replace (vlen done_ + ctrue (bw)) with (vlen (done_ ++ set_indices (64 * j) (bw))) by (rewrite vlen_app; lia).
    rewrite IH; [|lia|lia|fold rest; rewrite Hd; lia|rewrite vlen_app; lia]. rewrite Hv64, drop_drop, <- !app_assoc.
    replace (64 * j + 64) with (64 * (j + 1)) by lia. do 5 f_equal. fold rest. lia.
Qed.

Lemma GetSetBitIndices_ok b l : rep b l -> GetSetBitIndices b = Some (set_indices 0 l).
Proof.
  intros H. unfold GetSetBitIndices. rewrite (CountSetBits_ctrue _ _ H). runs. pose proof (ctrue_bounds l) as Hb.
  pose proof (rep_max _ _ H) as Hm. unfold kMaxSize in Hm. fold (vlen l) in Hb.
  destruct (Z.eqb_spec (ctrue l) 0) as [Hz|Hz].
  { rewrite <- (length_set_indices l 0) in Hz. destruct (set_indices 0 l); [done|simpl in Hz; lia]. }
  pose proof (used_words b l H) as (_ & Hl & _ & Hnz & Hbits & _). rewrite (rep_size _ _ H).
  set (n := Z.to_nat (WordCount (vlen l))) in *.
  assert (vlen (replicate (Z.to_nat (ctrue l)) 0) = ctrue l) as Hr by (unfold vlen; rewrite length_replicate; lia).
  pose proof (indices_loop_ok b l H n 0 [] (replicate (Z.to_nat (ctrue l)) 0)) as Hloop.
  change (64 * 0) with 0 in Hloop. change (vlen []) with 0 in Hloop. rewrite drop_0, Hbits, ctrue_resize, Hr, !app_nil_l in Hloop by done.
  rewrite Hloop by (done || lia).
  rewrite drop_ge by (rewrite length_replicate; lia). rewrite app_nil_r. f_equal.
  rewrite resize_ge, set_indices_app, set_indices_false, app_nil_r by done. done.
Qed.

(** ** Vectors from indices *)

Definition from_indices (n : Z) (ixs : list Z) : list bool := (fun k => bool_decide (k ∈ ixs)) <$> seqZ 0 n.

Lemma vlen_from_indices n ixs : 0 <= n -> vlen (from_indices n ixs) = n.
Proof. intros Hn. unfold from_indices. rewrite vlen_fmap. unfold vlen. rewrite length_seqZ. lia. Qed.

Lemma lbit_from_indices n ixs k : 0 <= n -> 0 <= k -> lbit (from_indices n ixs) k = (k <? n) && bool_decide (k ∈ ixs).
Proof.
  intros Hn Hk. destruct (Z.ltb_spec k n); [|apply lbit_beyond; rewrite vlen_from_indices by done; done].
  unfold lbit, from_indices. rewrite list_lookup_fmap, lookup_seqZ_lt by lia. simpl.
  replace (Z.of_nat (Z.to_nat k)) with k by lia. done.
Qed.

Lemma BlockCount_ok n : 0 <= n <= kMaxSize -> BlockCount n = blocks n.
Proof.
  intros Hn. unfold BlockCount, blocks, kBitsInBlock, kWordsInBlock, kBitsInWord, kMaxSize in *.
  rewrite u32_id by (unfold is_u32; lia). f_equal. lia.
Qed.

(** Setting one bit given by its index. *)
Lemma set_index_ok ws i : words_ok ws -> 0 <= i < 64 * vlen ws ->
  exists ws', update_word ws (i / 64) (fun w => Word_Set w (i mod 64)) = Some ws' /\ changed ws ws' (fun k b => (k =? i) || b).
Proof.
  intros Hok Hi. destruct (update_word_ok ws (i / 64) (fun w => Word_Set w (i mod 64)) (fun j b => (j =? i mod 64) || b))
    as (ws' & -> & Hch); [done|divlia| |].
  { intros w Hw. destruct (Word_Set_ok w (i mod 64) Hw) as (w' & ? & ? & ?); [divlia|]. exists w'. auto with lia. }
  exists ws'. split; [done|]. eapply changed_impl; [exact Hch| |].
  - intros k Hk. simpl. replace (k =? i) with ((k / 64 =? i / 64) && (k mod 64 =? i mod 64))
      by (apply Bool.eq_iff_eq_true; rewrite andb_true_iff, !Z.eqb_eq; divlia).
    destruct (k / 64 =? i / 64); done.
  - intros k Hk. rewrite orb_false_r. apply Z.eqb_neq. lia.
Qed.

Lemma bool_decide_elem_cons (k i : Z) ixs : bool_decide (k ∈ i :: ixs) = (k =? i) || bool_decide (k ∈ ixs).
Proof.
  apply Bool.eq_iff_eq_true. rewrite orb_true_iff, !bool_decide_eq_true, Z.eqb_eq, elem_of_cons. done.
Qed.

Lemma set_indices_loop ixs : forall ws, words_ok ws -> Forall (fun i => 0 <= i < 64 * vlen ws /\ i < 2 ^ 32) ixs ->
  exists ws', foldl (fun ws i => ws ← ws; update_word ws (u32 (Z.quot i kBitsInWord)) (fun w => Word_Set w (u32 (Z.rem i kBitsInWord))))
    (Some ws) ixs = Some ws' /\ changed ws ws' (fun k b => bool_decide (k ∈ ixs) || b).
Proof.
  induction ixs as [|i ixs IH]; intros ws Hok His.
  { exists ws. split; [done|]. eapply changed_impl; [by apply changed_refl|done|done]. }
  apply Forall_cons in His as [[Hi Hmax] His]. cbn [foldl]. runs. change kBitsInWord with 64.
  rewrite Z.quot_div_nonneg, Z.rem_mod_nonneg by lia.
  rewrite (u32_id (i / 64)), (u32_id (i mod 64)) by (unfold is_u32; divlia).
  destruct (set_index_ok ws i Hok Hi) as (ws1 & -> & Hch1). pose proof Hch1 as (Hok1 & Hl1 & _).
  assert (vlen ws1 = vlen ws) as Hv by (unfold vlen; lia).
  destruct (IH ws1 Hok1) as (ws' & Hrun & Hch); [rewrite Hv; done|]. exists ws'. split; [exact Hrun|].
  eapply changed_impl; [eapply changed_trans; [exact Hch1|exact Hch]| |].
  - intros k Hk. simpl. rewrite bool_decide_elem_cons. destruct (k =? i), (bool_decide (k ∈ ixs)); done.
  - intros k Hk. rewrite orb_false_r. apply bool_decide_eq_false. rewrite elem_of_cons.
    rewrite Forall_forall in His. intros [->|Hin]; [lia|]. apply His in Hin. lia.
Qed.

(** A vector that is built from words that hold the indices. *)
Lemma build_from_words ws ixs n : words_ok ws -> 0 < n <= kMaxSize -> vlen ws = 8 * blocks n ->
  Forall (fun i => 0 <= i < n) ixs -> (forall k, 0 <= k -> bit ws k = bool_decide (k ∈ ixs)) ->
  exists b, (counts ← UpdateCounts ws (replicate (Z.to_nat (BlockCount n)) 0); BitVector_of ws counts n) = Some b /\
    rep b (from_indices n ixs).
Proof.
  intros Hok Hn Hlen His Hbits. rewrite BlockCount_ok by lia. pose proof (vlen_from_indices n ixs ltac:(lia)) as Hv.
  assert (0 <= blocks n) as Hbn by (unfold blocks; divlia).
  destruct (rep_UpdateCounts ws (replicate (Z.to_nat (blocks n)) 0) (from_indices n ixs)) as (c' & -> & Hr).
  - split; [done|rewrite Hv; done|]. intros k Hk. rewrite Hbits, lbit_from_indices by lia.
    destruct (Z.ltb_spec k n); [done|]. apply bool_decide_eq_false. intros Hin. rewrite Forall_forall in His. apply His in Hin. lia.
  - lia.
  - unfold vlen. rewrite length_replicate. fold (vlen (from_indices n ixs)). rewrite Hv. lia.
  - unfold vlen. rewrite length_replicate. intros H. unfold vec_get. simpl. apply lookup_replicate. lia.
  - runs. unfold BitVector_of, kWordsInBlock. rewrite Hlen, (Z.mul_comm 8), Z.mod_mul by lia. rewrite Hv in Hr.
    eexists. split; [done|]. done.
Qed.

Lemma bit_zeros n k : bit (replicate n 0) k = false.
Proof. unfold bit. rewrite default_lookup_replicate. apply Z.bits_0. Qed.

Lemma FromSortedIndexVector_ok ixs back : last ixs = Some back -> Forall (fun i => 0 <= i <= back) ixs -> back < kMaxSize ->
  exists b, FromSortedIndexVector ixs = Some b /\ rep b (from_indices (back + 1) ixs).
Proof.
  intros Hlast His Hm. assert (0 <= back) as Hb.
  { rewrite Forall_forall in His. apply (His back), last_Some_elem_of. done. }
  unfold FromSortedIndexVector. rewrite Hlast, (u32_id (back + 1)) by (unfold is_u32, kMaxSize in *; lia).
  assert (0 < blocks (back + 1)) as Hbl by (unfold blocks; divlia).
  pose proof (BlockCount_ok (back + 1) ltac:(lia)) as Hbc.
  set (ws0 := replicate (Z.to_nat (BlockCount (back + 1) * kWordsInBlock)) 0). assert (vlen ws0 = 8 * blocks (back + 1)) as Hv0.
  { unfold ws0, vlen, kWordsInBlock in *. rewrite length_replicate. lia. }
  destruct (set_indices_loop ixs ws0) as (ws' & Hrun & Hok & Hlen & Hbits).
  { apply Forall_replicate. unfold is_u64. lia. }
  { eapply Forall_impl; [exact His|]. intros i Hi. simpl in Hi. rewrite Hv0. unfold blocks, kMaxSize in *. divlia. }
  rewrite Hrun. runs. apply build_from_words; [done|lia|unfold vlen in *; lia| |].
  - eapply Forall_impl; [exact His|]. intros i Hi. simpl in Hi. lia.
  - intros k Hk. rewrite Hbits by done. unfold ws0. rewrite bit_zeros. apply orb_false_r.
Qed.

Lemma unsorted_loop ixs : forall ws done_ mx, words_ok ws -> Forall is_u32 ixs ->
  (forall k, 0 <= k -> bit ws k = bool_decide (k ∈ done_)) ->
  exists ws', foldl unsorted_step (Some (ws, mx)) ixs = Some (ws', foldl Z.max mx ixs) /\ words_ok ws' /\
    forall k, 0 <= k -> bit ws' k = bool_decide (k ∈ done_ ++ ixs).
Proof.
  induction ixs as [|i ixs IH]; intros ws done_ mx Hok His Hbits.
  { exists ws. rewrite app_nil_r. done. }
  apply Forall_cons in His as [Hi His]. unfold is_u32 in Hi. cbn [foldl]. unfold unsorted_step at 2. runs. unfold kBitsInWord.
  set (ws1 := if vlen ws <=? i / 64 then _ else ws).
  assert (words_ok ws1 /\ i / 64 < vlen ws1 /\ forall k, 0 <= k -> bit ws1 k = bit ws k) as (Hok1 & Hl1 & Hb1).
  { unfold ws1. destruct (Z.leb_spec (vlen ws) (i / 64)); [|done]. split; [by apply words_ok_resize|].
    split; [rewrite vlen_resize; divlia|]. intros k Hk. rewrite bit_resize by done.
    destruct (Z.ltb_spec (k / 64) (Z.of_nat (Z.to_nat (i / 64 + 1)))); [done|].
    rewrite (bit_beyond ws) by divlia. done. }
  destruct (set_index_ok ws1 i Hok1) as (ws2 & -> & Hok2 & Hl2 & Hb2); [divlia|]. runs.
  destruct (IH ws2 (done_ ++ [i]) (Z.max mx i) Hok2 His) as (ws' & -> & Hok' & Hb').
  - intros k Hk. rewrite Hb2, Hb1, Hbits by done. apply Bool.eq_iff_eq_true.
    rewrite orb_true_iff, !bool_decide_eq_true, Z.eqb_eq, elem_of_app, list_elem_of_singleton. tauto.
  - exists ws'. split; [done|]. split; [done|]. intros k Hk. rewrite Hb', <- app_assoc by done. done.
Qed.

Lemma foldl_max_ge ixs : forall mx, mx <= foldl Z.max mx ixs /\ Forall (fun i => i <= foldl Z.max mx ixs) ixs.
Proof.
  induction ixs as [|i ixs IH]; intros mx; cbn [foldl]; [split; [lia|constructor]|].
  destruct (IH (Z.max mx i)) as [H1 H2]. split; [lia|]. constructor; [lia|done].
Qed.

Lemma FromUnsortedIndexVector_ok ixs : ixs <> [] -> Forall (fun i => 0 <= i < kMaxSize) ixs ->
  exists b, FromUnsortedIndexVector ixs = Some b /\ rep b (from_indices (foldl Z.max 0 ixs + 1) ixs).
Proof.
  intros Hne His. destruct (unsorted_loop ixs [] [] 0) as (ws & Hrun & Hok & Hbits).
  { constructor. }
  { eapply Forall_impl; [exact His|]. unfold is_u32, kMaxSize. simpl. lia. }
  { intros k Hk. unfold bit. simpl. apply Z.bits_0. }
  unfold FromUnsortedIndexVector. destruct ixs as [|i ixs]; [done|]. rewrite Hrun. runs. clear Hrun.
  destruct (foldl_max_ge (i :: ixs) 0) as [H0 Hle]. set (mx := foldl Z.max 0 (i :: ixs)) in *.
  assert (mx < kMaxSize) as Hmx.
  { unfold mx. clear -His. revert His. generalize (i :: ixs). intros js His.
    assert (forall m, m < kMaxSize -> foldl Z.max m js < kMaxSize) as H; [|apply H; done].
    induction His as [|j js Hj Hjs IH]; intros m Hm; cbn [foldl]; [done|]. apply IH. lia. }
  rewrite (u32_id (mx + 1)) by (unfold is_u32, kMaxSize in *; lia).
  assert (0 < blocks (mx + 1)) as Hbl by (unfold blocks; divlia).
  pose proof (BlockCount_ok (mx + 1) ltac:(lia)) as Hbc. unfold kWordsInBlock.
  apply build_from_words; [by apply words_ok_resize|lia|rewrite vlen_resize, Hbc; lia| |].
  - apply Forall_forall. intros j Hj. rewrite Forall_forall in His, Hle. specialize (His j Hj). specialize (Hle j Hj). simpl in *. lia.
  - intros k Hk. rewrite bit_resize, Hbits, Hbc, app_nil_l by done.
    destruct (Z.ltb_spec (k / 64) (Z.of_nat (Z.to_nat (blocks (mx + 1) * 8)))); [done|]. symmetry.
    apply bool_decide_eq_false. intros Hin. rewrite Forall_forall in Hle. apply Hle in Hin. unfold blocks in *. divlia.
Qed.

(** ** The builder *)

(** The bits from [start] on, of the first [n]. *)
Definition clip (start n : Z) (l : list bool) : list bool := (fun k => (start <=? k) && lbit l k) <$> seqZ 0 n.

Lemma vlen_clip start n l : 0 <= n -> vlen (clip start n l) = n.
Proof. intros Hn. unfold clip. rewrite vlen_fmap. unfold vlen. rewrite length_seqZ. lia. Qed.

Lemma lbit_clip start n l k : 0 <= n -> 0 <= k -> lbit (clip start n l) k = (start <=? k) && (k <? n) && lbit l k.
Proof.
  intros Hn Hk. destruct (Z.ltb_spec k n); [|rewrite lbit_beyond, andb_false_r by (rewrite vlen_clip by done; done); done].
  unfold lbit at 1, clip. rewrite list_lookup_fmap, lookup_seqZ_lt by lia. simpl.
  replace (Z.of_nat (Z.to_nat k)) with k by lia. rewrite andb_true_r. done.
Qed.

Section Builder.
Context (b : BitVector) (l : list bool) (start n : Z) (Hr : rep b l).
Context (Hstart : 0 <= start < n) (Hn : n <= vlen l).

(** The bits up to [off] were copied. *)
Record building (d : Builder) (off : Z) : Prop := {
  bd_ok : words_ok (bd_words d);
  bd_len : vlen (bd_words d) = 8 * blocks n;
  bd_size_ok : bd_size d = n;
  bd_off : global_bit_offset_ d = off;
  bd_skip : skipped_blocks_ d = start / 512;
  bd_range : start <= off <= n;
  bd_bits : forall k, 0 <= k -> bit (bd_words d) k = (start <=? k) && (k <? off) && lbit l k }.

Local Lemma n_max : n <= kMaxSize.
Proof using Hr Hn. pose proof (rep_max _ _ Hr). lia. Qed.

Local Lemma Builder_new_ok : exists d, Builder_new n start = Some d /\ building d start.
Proof using Hr Hstart Hn.
  pose proof n_max. unfold Builder_new. rewrite (proj2 (Z.leb_le _ _)), BlockCount_ok by lia. eexists. split; [done|].
  assert (0 <= blocks n) by (unfold blocks; divlia).
  split; cbn [bd_words bd_size global_bit_offset_ skipped_blocks_]; try done; try lia.
  - apply Forall_replicate. unfold is_u64. lia.
  - unfold vlen, kWordsInBlock. rewrite length_replicate. lia.
  - intros k Hk. rewrite bit_zeros. destruct (Z.leb_spec start k); [|done]. rewrite (proj2 (Z.ltb_ge _ _)) by lia. done.
Qed.

Local Lemma Builder_Append_ok d off : building d off -> off < n ->
  exists d', Builder_Append d (lbit l off) = Some d' /\ building d' (off + 1).
Proof using Hr Hstart Hn.
  intros [Hok Hlen Hs Ho Hsk Hrg Hb] Hlt. pose proof n_max. unfold Builder_Append, kBitsInWord. rewrite Hs, Ho.
  rewrite (proj2 (Z.ltb_lt _ _)) by lia.
  destruct (update_word_ok (bd_words d) (off / 64) (fun w => Some (w .| u64 (Z.b2z (lbit l off) << (off mod 64))))
    (fun j x => x || (j =? off mod 64) && lbit l off)) as (ws' & -> & Hok' & Hl' & Hb'); [done| | |].
  { rewrite Hlen. unfold blocks. divlia. }
  { intros w Hw. eexists. split; [done|]. split; [auto with dv|]. intros j Hj. bits.
    rewrite (proj2 (Z.ltb_lt j 64)) by lia. rewrite andb_true_l. f_equal. destruct (lbit l off); simpl Z.b2z.
    - rewrite andb_true_r. destruct (Z.ltb_spec j (off mod 64)).
      + rewrite Z.testbit_neg_r by lia. symmetry. apply Z.eqb_neq. lia.
      + destruct (Z.eqb_spec j (off mod 64)) as [->|]; [rewrite Z.sub_diag; done|].
        change 1 with (2 ^ 0). rewrite Z.pow2_bits_false by lia. done.
    - rewrite Z.bits_0, andb_false_r. done. }
  runs. rewrite u32_id by (unfold is_u32, kMaxSize in *; lia). eexists. split; [done|].
  split; cbn [bd_words bd_size global_bit_offset_ skipped_blocks_]; try done; try lia.
  - unfold vlen in *. lia.
  - intros k Hk. rewrite Hb', Hb by done. destruct (Z.eqb_spec (k / 64) (off / 64)) as [Hq|Hq].
    + replace (k mod 64 =? off mod 64) with (k =? off) by (apply Bool.eq_iff_eq_true; rewrite !Z.eqb_eq; divlia).
      destruct (Z.eqb_spec k off) as [->|].
      * rewrite (proj2 (Z.leb_le _ _)), Z.ltb_irrefl, (proj2 (Z.ltb_lt _ _)) by lia. done.
      * rewrite orb_false_r. do 2 f_equal. apply Bool.eq_iff_eq_true. rewrite !Z.ltb_lt. lia.
    + do 2 f_equal. apply Bool.eq_iff_eq_true. rewrite !Z.ltb_lt. divlia.
Qed.

Local Lemma AppendWord_ok d off w : building d off -> off mod 64 = 0 -> off + 64 <= n -> vec_get (words_ b) (off / 64) = Some w ->
  exists d', AppendWord d w = Some d' /\ building d' (off + 64).
Proof using Hr Hstart Hn.
  intros [Hok Hlen Hs Ho Hsk Hrg Hb] Hal Hle Hw. pose proof n_max. unfold AppendWord, kBitsInWord. rewrite Hs, Ho, Hal.
  rewrite (u32_id (off + 64)), (proj2 (Z.leb_le _ _)) by (unfold is_u32, kMaxSize in *; lia). cbn [Z.eqb andb].
  pose proof (rep_words _ _ Hr) as [Hokb _ Hbb]. pose proof (proj1 (vec_get_lookup _ _ _) Hw) as [_ Hw'].
  destruct (update_word_ok (bd_words d) (off / 64) (fun _ => Some w) (fun j _ => Z.testbit w j))
    as (ws' & -> & Hok' & Hl' & Hb'); [done|rewrite Hlen; unfold blocks; divlia| |].
  { intros _ _. exists w. split; [done|]. split; [exact (Forall_lookup_1 _ _ _ _ Hokb Hw')|done]. }
  runs. eexists. split; [done|]. split; cbn [bd_words bd_size global_bit_offset_ skipped_blocks_]; try done; try lia.
  - unfold vlen in *. lia.
  - intros k Hk. rewrite Hb' by done. destruct (Z.eqb_spec (k / 64) (off / 64)) as [Hq|Hq].
    + rewrite <- (bit_word (words_ b) (off / 64) w) by (done || divlia). rewrite Hbb by divlia.
      replace (64 * (off / 64) + k mod 64) with k by divlia.
      rewrite (proj2 (Z.leb_le _ _)), (proj2 (Z.ltb_lt _ _)) by divlia. done.
    + rewrite Hb by done. do 2 f_equal. apply Bool.eq_iff_eq_true. rewrite !Z.ltb_lt. divlia.
Qed.

Local Lemma append_bits_ok d off m : building d off -> 0 <= m -> off + m <= n ->
  exists d', append_bits b m off d = Some d' /\ building d' (off + m).
Proof using Hr Hstart Hn.
  intros Hd Hm Hle. pose proof (bd_range _ _ Hd). unfold append_bits.
  apply (for_loop_ind (fun i d => building d (off + i))); [lia|rewrite Z.add_0_r; done|].
  intros i d1 Hi Hd1. rewrite (IsSet_ok b l Hr) by lia. runs.
  destruct (Builder_Append_ok d1 (off + i) Hd1) as (d' & -> & Hd'); [lia|]. exists d'. rewrite Z.add_assoc. done.
Qed.

Local Lemma append_words_ok d c m : building d (64 * c) -> 0 <= c -> 0 <= m -> 64 * (c + m) <= n ->
  exists d', for_loop c (c + m) (fun i d => w ← vec_get (words_ b) i; AppendWord d w) d = Some d' /\ building d' (64 * (c + m)).
Proof using Hr Hstart Hn.
  intros Hd Hc Hm Hle. apply (for_loop_ind (fun i d => building d (64 * i))); [lia|done|].
  intros i d1 Hi Hd1. pose proof (rep_words _ _ Hr) as [_ Hlenb _].
  destruct (vec_get_some (words_ b) i) as [w Hw]; [unfold vlen, blocks in *; divlia|]. rewrite Hw. runs.
  destruct (AppendWord_ok d1 (64 * i) w Hd1) as (d' & -> & Hd').
  - rewrite Z.mul_comm. apply Z.mod_mul. lia.
  - lia.
  - rewrite (Z.mul_comm 64), Z.div_mul by lia. done.
  - exists d'. replace (64 * (i + 1)) with (64 * i + 64) by lia. done.
Qed.

Local Lemma Build_ok d : building d n -> exists b', Build d = Some b' /\ rep b' (clip start n l).
Proof using Hr Hstart Hn.
  intros [Hok Hlen Hs Ho Hsk Hrg Hb]. pose proof n_max. unfold Build. rewrite Hs, Hsk, BlockCount_ok by lia.
  rewrite (proj2 (Z.eqb_neq n 0)) by lia. assert (0 < blocks n < 2 ^ 23) as Hbl by (unfold blocks, kMaxSize in *; divlia).
  set (zs := replicate (Z.to_nat (blocks n)) 0). assert (vlen zs = blocks n) as Hz by (unfold zs, vlen; rewrite length_replicate; lia).
  rewrite (proj2 (Z.leb_le _ _)) by (rewrite Hz; unfold blocks; divlia).
  assert (forall k, 0 <= k -> bit (bd_words d) k = lbit (clip start n l) k) as Hbits.
  { intros k Hk. rewrite Hb, lbit_clip by lia. done. }
  destruct (for_loop_ind (fun i c => vlen c = blocks n /\ (forall j, 0 <= j < i -> vec_get c j = Some (cnt (bit (bd_words d)) 0 (512 * j))))
    (start / 512 + 1) (vlen zs) (fun i counts => prev ← vec_get counts (i - 1);
       n ← Block_CountSetBits (bd_words d) (kWordsInBlock * (i - 1)); vec_set counts i (u32 (prev + n))) zs)
    as (c & -> & Hcl & Hc); [rewrite Hz; unfold blocks; divlia| | |].
  - split; [done|]. intros j Hj. unfold zs, vec_get. rewrite (proj2 (Z.leb_le _ _)) by lia.
    rewrite lookup_replicate_2 by (unfold blocks in *; divlia). f_equal. symmetry. apply cnt_zero. intros k Hk.
    rewrite Hb by lia. rewrite (proj2 (Z.leb_gt _ _)) by divlia. done.
  - intros i c1 Hi [Hl1 Hc1]. assert (1 <= i) by divlia. rewrite Hc1 by lia. runs. unfold kWordsInBlock.
    rewrite Block_CountSetBits_ok by lia. runs. rewrite vec_set_some by (unfold vlen in *; lia). eexists. split; [done|].
    split; [by rewrite vlen_insert|]. intros j Hj. rewrite vec_get_insert by lia.
    destruct (Z.eqb_spec j i) as [->|]; [|apply Hc1; lia]. f_equal.
    replace (64 * (8 * (i - 1))) with (512 * (i - 1)) by lia. replace (512 * (i - 1) + 512) with (512 * i) by lia.
    rewrite <- cnt_split by lia. pose proof (cnt_bounds (bit (bd_words d)) 0 (512 * i)). apply u32_id. unfold is_u32. lia.
  - runs. unfold BitVector_of, kWordsInBlock. rewrite Hlen, (Z.mul_comm 8), Z.mod_mul by lia. eexists. split; [done|].
    pose proof (vlen_clip start n l ltac:(lia)) as Hv.
    split; cbn [size_ words_ counts_]; rewrite ?Hv; try done.
    + split; [done|rewrite Hv; done|done].
    + split; [rewrite Hv; done|]. intros i Hi. rewrite Hv in Hi. rewrite Hc by lia. f_equal. apply cnt_ext.
      intros k Hk. apply Hbits. lia.
Qed.
End Builder.

Lemma IntersectRange_ok b l s e : rep b l -> 0 <= s -> 0 <= e ->
  let n := Z.min e (vlen l) in
  exists b', IntersectRange b s e = Some b' /\ rep b' (if n <=? s then [] else clip s n l).
Proof.
  intros Hr Hs He n. unfold IntersectRange. rewrite (rep_size _ _ Hr). fold n.
  destruct (Z.leb_spec n s) as [Hle|Hlt]; [exists BitVector_empty; split; [done|apply rep_empty]|].
  assert (0 <= s < n) as Hsn by lia. assert (n <= vlen l) as Hnl by (unfold n; lia). pose proof (n_max b l n Hr Hnl) as Hm.
  clearbody n. unfold kMaxSize in Hm.
  destruct (Builder_new_ok b l s n Hr Hsn Hnl) as (d & -> & Hd). runs.
  assert (exists f, BitsUntilWordBoundaryOrFull d = f /\ 0 <= f /\ s + f <= n /\ (s + f = n \/ (s + f) mod 64 = 0)) as (f & -> & Hf).
  { eexists. split; [done|]. destruct Hd as [_ _ Hds Hdo _ _ _].
    unfold BitsUntilWordBoundaryOrFull, BitsUntilFull, kBitsInWord. rewrite Hds, Hdo.
    destruct (Z.eqb_spec s 0), (Z.ltb_spec n 64); cbn [andb]; try lia;
      rewrite (u32_id (n - s)), (u8_id (s mod 64)), (u32_id (64 - s mod 64)) by (unfold is_u32, is_u8; divlia); divlia. }
  destruct (append_bits_ok b l s n Hr Hsn Hnl d s f Hd) as (d1 & -> & Hd1); [lia|lia|]. runs.
  rewrite (u32_id (s + f)) by (unfold is_u32; lia). set (c1 := s + f) in *.
  assert ((c1 =? n) || (c1 mod kBitsInWord =? 0) = true) as ->.
  { unfold kBitsInWord. rewrite orb_true_iff, !Z.eqb_eq. tauto. }
  assert (exists m, BitsInCompleteWordsUntilFull d1 / kBitsInWord = m /\ 0 <= m /\ (c1 = n -> m = 0) /\ c1 + 64 * m <= n) as (m & -> & Hm0 & Hmn & Hml).
  { eexists. split; [done|]. destruct Hd1 as [_ _ Hds Hdo _ _ _].
    unfold BitsInCompleteWordsUntilFull, WordFloor, WordCount, kBitsInWord. rewrite Hds, Hdo.
    rewrite (u32_id (c1 + 64 - 1)) by (unfold is_u32; lia).
    destruct (Z.ltb_spec ((c1 + 64 - 1) / 64) (n / 64)); rewrite u32_id by (unfold is_u32; divlia); divlia. }
  unfold kBitsInWord. rewrite (u32_id (c1 / 64 + m)), (u32_id (c1 + m * 64)) by (unfold is_u32; divlia).
  assert (exists d2, for_loop (c1 / 64) (c1 / 64 + m) (fun i d => w ← vec_get (words_ b) i; AppendWord d w) d1 = Some d2 /\
    building l s n d2 (c1 + m * 64)) as (d2 & -> & Hd2).
  { destruct (decide (c1 mod 64 = 0)) as [Hal|Hal].
    - destruct (append_words_ok b l s n Hr Hsn Hnl d1 (c1 / 64) m) as (d2 & -> & Hd2); [|divlia|lia|divlia|].
      + replace (64 * (c1 / 64)) with c1 by divlia. done.
      + exists d2. split; [done|]. replace (c1 + m * 64) with (64 * (c1 / 64 + m)) by divlia. done.
    - assert (c1 = n) as Hc1 by tauto. rewrite (Hmn Hc1), Z.add_0_r. exists d1. unfold for_loop. rewrite Z.sub_diag. simpl.
      rewrite Z.add_0_r. done. }
  runs. assert (BitsUntilFull d2 = n - (c1 + m * 64)) as ->.
  { unfold BitsUntilFull. rewrite (bd_size_ok _ _ _ _ _ Hd2), (bd_off _ _ _ _ _ Hd2). apply u32_id. unfold is_u32. lia. }
  destruct (append_bits_ok b l s n Hr Hsn Hnl d2 (c1 + m * 64) (n - (c1 + m * 64)) Hd2) as (d3 & -> & Hd3); [lia|lia|]. runs.
  apply (Build_ok b l s n Hr Hsn Hnl). replace (c1 + m * 64 + (n - (c1 + m * 64))) with n in Hd3 by lia. done.
Qed.

(** ** The list of set bits *)

Lemma elem_of_set_indices x off l : x ∈ set_indices off l <-> off <= x /\ lbit l (x - off) = true.
Proof.
  revert off. induction l as [|y l IH]; intros off; cbn [set_indices].
  - split; [intros H; inversion H|]. intros [_ H]. unfold lbit in H. rewrite lookup_nil in H. done.
  - assert (off <= x -> lbit (y :: l) (x - off) = if x =? off then y else lbit l (x - (off + 1))) as Hl.
    { intros Hx. unfold lbit. destruct (Z.eqb_spec x off) as [->|]; [rewrite Z.sub_diag; done|].
      replace (Z.to_nat (x - off)) with (S (Z.to_nat (x - (off + 1)))) by lia. done. }
    destruct y; rewrite ?elem_of_cons, IH; destruct (Z.eqb_spec x off) as [->|]; split.
    + intros _. split; [lia|]. rewrite Hl by lia. done.
    + intros _. left. done.
    + intros [?|[? ?]]; [done|]. split; [lia|]. rewrite Hl by lia. done.
    + intros [H1 H2]. right. rewrite Hl in H2 by done. split; [lia|done].
    + intros [? _]. lia.
    + intros [_ H]. rewrite Hl in H by lia. done.
    + intros [? ?]. split; [lia|]. rewrite Hl by lia. done.
    + intros [H1 H2]. rewrite Hl in H2 by done. split; [lia|done].
Qed.

Lemma set_indices_sorted off l : StronglySorted Z.lt (set_indices off l).
Proof.
  revert off. induction l as [|x l IH]; intros off; cbn [set_indices]; [constructor|].
  destruct x; [|apply IH]. constructor; [apply IH|]. apply Forall_forall. intros y [Hy _]%elem_of_set_indices. lia.
Qed.

Lemma sorted_unique (l1 l2 : list Z) : StronglySorted Z.lt l1 -> StronglySorted Z.lt l2 ->
  (forall x, x ∈ l1 <-> x ∈ l2) -> l1 = l2.
Proof.
  revert l2. induction l1 as [|x l1 IH]; intros [|y l2] H1 H2 Hin; [done| | |].
  - exfalso. apply (not_elem_of_nil y), Hin. constructor.
  - exfalso. apply (not_elem_of_nil x), Hin. constructor.
  - apply StronglySorted_inv in H1 as [Hs1 Hf1], H2 as [Hs2 Hf2]. rewrite Forall_forall in Hf1, Hf2.
    assert (x = y) as ->.
    { pose proof (proj1 (Hin x) ltac:(constructor)) as Hx. pose proof (proj2 (Hin y) ltac:(constructor)) as Hy.
      apply elem_of_cons in Hx as [?|Hx], Hy as [?|Hy]; [done..|]. apply Hf2 in Hx. apply Hf1 in Hy. lia. }
    f_equal. apply IH; [done|done|]. intros z. specialize (Hin z). rewrite !elem_of_cons in Hin. split; intros Hz.
    + destruct (proj1 Hin (or_intror Hz)) as [->|?]; [|done]. apply Hf1 in Hz. lia.
    + destruct (proj2 Hin (or_intror Hz)) as [->|?]; [|done]. apply Hf2 in Hz. lia.
Qed.

(** The indices of a vector made from strictly sorted indices. *)
Lemma set_indices_from_indices ixs n : StronglySorted Z.lt ixs -> Forall (fun i => 0 <= i < n) ixs -> 0 <= n ->
  set_indices 0 (from_indices n ixs) = ixs.
Proof.
  intros Hs Hf Hn. apply sorted_unique; [apply set_indices_sorted|done|]. intros x.
  rewrite elem_of_set_indices, Z.sub_0_r. rewrite Forall_forall in Hf. split.
  - intros [Hx Hb]. rewrite lbit_from_indices, andb_true_iff, bool_decide_eq_true in Hb by done. tauto.
  - intros Hx. pose proof (Hf x Hx) as Hr. simpl in Hr. split; [lia|].
    rewrite lbit_from_indices, andb_true_iff, bool_decide_eq_true, Z.ltb_lt by lia. split; [lia|done].
Qed.

Lemma lookup_set_indices l : forall off (n : nat) i, set_indices off l !! n = Some i <->
  off <= i /\ lbit l (i - off) = true /\ cnt (lbit l) 0 (i - off) = Z.of_nat n.
Proof.
  induction l as [|x l IH]; intros off n i; cbn [set_indices].
  - rewrite lookup_nil. split; [done|]. intros (_ & H & _). unfold lbit in H. rewrite lookup_nil in H. done.
  - assert (forall k, 0 <= k -> lbit (x :: l) (k + 1) = lbit l k) as Hl.
    { intros k Hk. unfold lbit. replace (Z.to_nat (k + 1)) with (S (Z.to_nat k)) by lia. done. }
    assert (off < i -> cnt (lbit (x :: l)) 0 (i - off) = Z.b2z x + cnt (lbit l) 0 (i - (off + 1))) as Hc.
    { intros Hi. rewrite cnt_cons by lia. change (lbit (x :: l) 0) with x.
      replace (i - off) with (i - (off + 1) + 1) by lia. rewrite <- (cnt_shift (lbit (x :: l)) 1).
      rewrite (cnt_ext (fun k => lbit (x :: l) (k + 1)) (lbit l)) by (intros; apply Hl; lia). destruct x; done. }
    assert (off < i -> lbit (x :: l) (i - off) = lbit l (i - (off + 1))) as Hb.
    { intros Hi. rewrite <- Hl by lia. f_equal. lia. }
    destruct (Z.lt_trichotomy i off) as [Hlt|[->|Hgt]].
    + split; [|lia]. intros Hx. apply (list_elem_of_lookup_2) in Hx. destruct x.
      * apply elem_of_cons in Hx as [->|Hx]; [lia|]. apply elem_of_set_indices in Hx. lia.
      * apply elem_of_set_indices in Hx. lia.
    + rewrite Z.sub_diag. change (lbit (x :: l) 0) with x. rewrite cnt_nil by lia. destruct x.
      * destruct n as [|n]; simpl lookup; [split; [intros _; split_and!; done || lia|done]|].
        rewrite IH. split; [|intros (_ & _ & ?); lia]. intros (? & _). lia.
      * rewrite IH. split; [|intros (_ & ? & _); done]. intros (? & _). lia.
    + rewrite Hc, Hb by done. destruct x; simpl Z.b2z.
      * destruct n as [|n]; simpl lookup.
        -- split; [intros [= ->]; lia|]. intros (_ & _ & H). pose proof (cnt_bounds (lbit l) 0 (i - (off + 1))). lia.
        -- rewrite IH. split; intros (? & ? & ?); (split; [lia|]); (split; [done|]); lia.
      * rewrite IH. split; intros (? & ? & ?); (split; [lia|]); (split; [done|]); lia.
Qed.

(** ** The serialized form *)

Lemma length_elements k l : length (l ≫= le_bytes k) = (length l * k)%nat.
Proof. induction l as [|x l IH]; [done|]. cbn. rewrite length_app, length_le_bytes, IH. done. Qed.

Lemma split_octets_ok k l : Forall (fun x => 0 <= x < 2 ^ (8 * Z.of_nat k)) l -> split_octets k (length l) (l ≫= le_bytes k) = l.
Proof.
  induction 1 as [|x l Hx Hl IH]; [done|]. cbn [length split_octets mbind list_bind].
  rewrite take_app_length', drop_app_length' by (by rewrite length_le_bytes).
  rewrite le_val_bytes, Z.mod_small by lia. f_equal. exact IH.
Qed.

Lemma copy_elements_ok k l : (0 < k)%nat -> Forall (fun x => 0 <= x < 2 ^ (8 * Z.of_nat k)) l ->
  copy_elements k (l ≫= le_bytes k) = Some l.
Proof.
  intros Hk Hl. unfold copy_elements. rewrite length_elements, Nat.div_mul, Nat.leb_refl by lia.
  rewrite split_octets_ok by done. done.
Qed.

Lemma Deserialize_Serialize b l : rep b l -> Deserialize (Serialize b) = Some b.
Proof.
  intros [Hs Hm [Hok _ _] [Hcl Hc]]. unfold Deserialize, Serialize. cbn [sbv_counts sbv_words sbv_size].
  assert (Forall (fun x => 0 <= x < 2 ^ 32) (counts_ b)) as Hc32.
  { apply Forall_lookup. intros i x Hx. pose proof (lookup_lt_Some _ _ _ Hx) as Hi.
    assert (0 <= Z.of_nat i < blocks (vlen l)) as Hi' by (unfold vlen in *; lia).
    pose proof (Hc (Z.of_nat i) Hi') as Hget. apply vec_get_lookup in Hget as [_ Hget]. rewrite Nat2Z.id, Hx in Hget.
    injection Hget as ->. pose proof (counts_bounds l _ Hi' Hm). lia. }
  assert ((match (if bool_decide (counts_ b = []) then None else Some (counts_ b ≫= le_bytes 4)) with
           | Some c => copy_elements 4 c | None => Some [] end) = Some (counts_ b)) as ->.
  { destruct (bool_decide_reflect (counts_ b = [])) as [->|]; [done|]. apply copy_elements_ok; [lia|exact Hc32]. }
  runs. assert ((match (if bool_decide (words_ b = []) then None else Some (words_ b ≫= le_bytes 8)) with
           | Some c => copy_elements 8 c | None => Some [] end) = Some (words_ b)) as ->.
  { destruct (bool_decide_reflect (words_ b = [])) as [->|]; [done|]. apply copy_elements_ok; [lia|exact Hok]. }
  runs. destruct b; done.
Qed.
