(* ===== verification/BitVectorRun.v ===== *)
(** * Sequences of operations on a bit vector

    Collects the results on single operations: over any sequence of operations a bit
    vector behaves as a list of booleans, for all its queries. [Resize] with ones is
    an exception: on full blocks with set bits it leaves a wrong count, so the
    sequences exclude it, and its effect is shown on an example. *)

From S2P Require Import Prelude BitWord BitVector BitVectorOps BitVectorSelect BitVectorExtract BitVectorIndex.

(** An operand is a vector with the list that it represents. *)
Inductive bv_op :=
  | OpAppend (x : bool)
  | OpSet (i : Z)
  | OpClear (i : Z)
  | OpResize (n : Z) (x : bool)
  | OpNot
  | OpOr (sec : BitVector) (m : list bool)
  | OpAnd (sec : BitVector) (m : list bool)
  | OpUpdateSetBits (sec : BitVector) (m : list bool)
  | OpSelectBits (sec : BitVector) (m : list bool)
  | OpIntersectRange (s e : Z).

Definition apply_op (o : bv_op) (b : BitVector) : option BitVector :=
  match o with
  | OpAppend x => BitVector_Append b x
  | OpSet i => fst <$> SetBit b i
  | OpClear i => ClearBit b i
  | OpResize n x => Resize b n x
  | OpNot => Not b
  | OpOr sec _ => Or b sec
  | OpAnd sec _ => And b sec
  | OpUpdateSetBits sec _ => UpdateSetBits b sec
  | OpSelectBits sec _ => SelectBits b sec
  | OpIntersectRange s e => IntersectRange b s e
  end.

Definition spec_op (o : bv_op) (l : list bool) : list bool :=
  match o with
  | OpAppend x => l ++ [x]
  | OpSet i => <[Z.to_nat i := true]> l
  | OpClear i => <[Z.to_nat i := false]> l
  | OpResize n x => resize (Z.to_nat n) x l
  | OpNot => negb <$> l
  | OpOr _ m => zip_with orb l m
  | OpAnd _ m => zip_with andb l m
  | OpUpdateSetBits _ m => if ctrue m =? 0 then [] else update_bits l m
  | OpSelectBits _ m => ext l m
  | OpIntersectRange s e =>
      if Z.min e (vlen l) <=? s then [] else clip s (Z.min e (vlen l)) l
  end.

(** The conditions that the code checks or relies on. *)
Definition op_pre (o : bv_op) (l : list bool) : Prop :=
  match o with
  | OpAppend _ => vlen l < kMaxSize
  | OpSet i | OpClear i => 0 <= i < vlen l
  | OpResize n x => 0 <= n <= kMaxSize /\ fill_ok l n x
  | OpNot => True
  | OpOr sec m => rep sec m /\ vlen l = vlen m
  | OpAnd sec m => rep sec m
  | OpUpdateSetBits sec m => rep sec m /\ vlen m <= ctrue l
  | OpSelectBits sec m => rep sec m /\ vlen l <= vlen m
  | OpIntersectRange s e => 0 <= s /\ 0 <= e
  end.

Fixpoint bv_run (ops : list bv_op) (b : BitVector) : option BitVector :=
  match ops with
  | [] => Some b
  | o :: ops => b ← apply_op o b; bv_run ops b
  end.
Definition bv_spec (ops : list bv_op) (l : list bool) : list bool := foldl (fun l o => spec_op o l) l ops.
Fixpoint bv_valid (ops : list bv_op) (l : list bool) : Prop :=
  match ops with
  | [] => True
  | o :: ops => op_pre o l /\ bv_valid ops (spec_op o l)
  end.

Lemma apply_op_ok o b l : rep b l -> op_pre o l -> exists b', apply_op o b = Some b' /\ rep b' (spec_op o l).
Proof.
  intros H Hp. destruct o; cbn [op_pre apply_op spec_op] in *.
  - apply BitVector_Append_ok; done.
  - destruct (SetBit_ok b l i H Hp) as (b' & -> & Hr). exists b'. done.
  - apply ClearBit_ok; done.
  - apply Resize_ok; tauto.
  - apply Not_ok. done.
  - apply Or_ok; tauto.
  - apply And_ok; tauto.
  - apply UpdateSetBits_ok; tauto.
  - apply SelectBits_ok; tauto.
  - apply (IntersectRange_ok b l s e H); tauto.
Qed.

Lemma bv_run_ok ops : forall b l, rep b l -> bv_valid ops l -> exists b', bv_run ops b = Some b' /\ rep b' (bv_spec ops l).
Proof.
  induction ops as [|o ops IH]; intros b l H Hv; [exists b; done|]. destruct Hv as [Ho Hv].
  cbn [bv_run]. destruct (apply_op_ok o b l H Ho) as (b1 & -> & Hr). exact (IH b1 _ Hr Hv).
Qed.

Lemma cnt_ctrue_take l e : 0 <= e <= vlen l -> cnt (lbit l) 0 e = ctrue (take (Z.to_nat e) l).
Proof.
  intros He. rewrite ctrue_cnt. assert (vlen (take (Z.to_nat e) l) = e) as -> by (unfold vlen in *; rewrite length_take; lia).
  apply cnt_ext. intros k Hk. unfold lbit. rewrite lookup_take_lt by lia. done.
Qed.

(** What the queries of a vector answer. *)
Definition answers (b : BitVector) (l : list bool) : Prop :=
  size_ b = vlen l /\
  (forall i, 0 <= i < vlen l -> IsSet b i = l !! Z.to_nat i) /\
  (forall e, 0 <= e <= vlen l -> CountSetBitsUntil b e = Some (ctrue (take (Z.to_nat e) l))) /\
  (forall n, 0 <= n < ctrue l -> IndexOfNthSet b n = set_indices 0 l !! Z.to_nat n) /\
  GetSetBitIndices b = Some (set_indices 0 l) /\
  Deserialize (Serialize b) = Some b.

Lemma IndexOfNthSet_lookup b l n : rep b l -> 0 <= n < ctrue l -> IndexOfNthSet b n = set_indices 0 l !! Z.to_nat n.
Proof.
  intros H Hn. rewrite ctrue_cnt in Hn. destruct (IndexOfNthSet_ok b l n H Hn) as (i & -> & Hi & Hb & Hc).
  symmetry. apply lookup_set_indices. rewrite Z.sub_0_r. split; [lia|]. split; [done|lia].
Qed.

Lemma rep_answers b l : rep b l -> answers b l.
Proof.
  intros H. split; [apply (rep_size _ _ H)|]. split_and!.
  - intros i Hi. rewrite (IsSet_ok b l H) by done. unfold lbit, vlen in *.
    destruct (lookup_lt_is_Some_2 l (Z.to_nat i)) as [x Hx]; [lia|]. rewrite Hx. done.
  - intros e He. rewrite (CountSetBitsUntil_ok b l H), cnt_ctrue_take by done. done.
  - intros n Hn. apply IndexOfNthSet_lookup; done.
  - apply GetSetBitIndices_ok. done.
  - exact (Deserialize_Serialize b l H).
Qed.

(** C40: over any sequence of operations that meet their conditions ([op_pre]: indices in
    range, at most [kMaxSize] bits, operands of matching length, and no [Resize] that adds
    ones to a vector that has bits set and ends with a full block) a bit vector behaves as a list of
    booleans: no check fails, no access leaves its vectors, every loop ends, and the bits,
    the counts and the positions of the set bits are those of the list. What is serialized
    comes back. *)
Theorem bit_vector_refines (ops : list bv_op) : bv_valid ops [] ->
  exists b, bv_run ops BitVector_empty = Some b /\ answers b (bv_spec ops []).
Proof.
  intros Hv. destruct (bv_run_ok ops BitVector_empty [] rep_empty Hv) as (b & Hrun & Hr).
  exists b. split; [done|]. apply rep_answers. done.
Qed.

Definition sample_ops : list bv_op :=
  [OpResize 600 true; OpClear 3; OpAppend false; OpNot; OpSet 100; OpIntersectRange 2 590].

Lemma bit_vector_refines_witness : exists b, bv_run sample_ops BitVector_empty = Some b /\ GetSetBitIndices b = Some [3; 100].
Proof.
  destruct (bit_vector_refines sample_ops) as (b & Hrun & _ & _ & _ & _ & Hidx & _).
  - vm_compute. repeat split; try discriminate. intros _. right. right. reflexivity.
  - exists b. split; [exact Hrun|]. rewrite Hidx. vm_compute. reflexivity.
Defined.

Lemma lbit_wbits w k : 0 <= k < 64 -> lbit (wbits w) k = Z.testbit w k.
Proof. intros Hk. unfold lbit, wbits. rewrite nbits_lookup by lia. simpl. f_equal. lia. Qed.

(** The broadword search for the n-th set bit of a word, which works on eight octets at
    once, gives the n-th of the positions of the set bits. *)
Theorem broadword_select_correct (w n : Z) : is_u64 w -> 0 <= n < popcount w ->
  Word_IndexOfNthSet w n = set_indices 0 (wbits w) !! Z.to_nat n.
Proof.
  intros Hw Hn. destruct (Word_IndexOfNthSet_ok w n Hw Hn) as (i & -> & Hi & Hb & Hc). symmetry.
  apply lookup_set_indices. rewrite Z.sub_0_r. split; [lia|]. rewrite lbit_wbits by done. split; [done|].
  rewrite (cnt_ext _ (Z.testbit w)) by (intros; apply lbit_wbits; lia). lia.
Qed.

Lemma broadword_select_correct_witness : is_u64 0x8000000000000105 /\ Word_IndexOfNthSet 0x8000000000000105 3 = Some 63.
Proof.
  split; [unfold is_u64; lia|]. rewrite (broadword_select_correct 0x8000000000000105 3); [vm_compute; reflexivity| |].
  - unfold is_u64. lia.
  - vm_compute. split; [discriminate|reflexivity].
Defined.

(** Appending ones to full blocks that have bits set leaves the count of the first new block
    at zero: all of 1024 bits are set, but 512 are counted, and the 513th set bit is
    not found. *)
Example resize_ones_miscounts : exists b b', BitVector_new 512 true = Some b /\ Resize b 1024 true = Some b' /\
  size_ b' = 1024 /\ (forall i, 0 <= i < 1024 -> IsSet b' i = Some true) /\
  CountSetBits b' = Some 512 /\ IndexOfNthSet b' 512 = None.
Proof.
  eexists. eexists. split; [vm_compute; reflexivity|]. split; [vm_compute; reflexivity|]. split; [reflexivity|].
  split; [|vm_compute; split; reflexivity]. intros i Hi.
  match goal with |- IsSet ?x i = _ =>
    assert (forallb (fun i => bool_decide (IsSet x i = Some true)) (seqZ 0 1024) = true) as Hall by (vm_compute; reflexivity) end.
  rewrite forallb_forall in Hall. apply (bool_decide_eq_true (_ = _)), Hall, list_elem_of_In, elem_of_seqZ. lia.
Qed.
