(* ===== verification/RowMap.v ===== *)
(** * Row maps

    Models [src/trace_processor/containers/row_map.h], [row_map.cc] and
    [row_map_algorithms.h]: a list of row indices held as a range, a bit vector or a
    vector of indices. [rm_rep rm rows] gives the list that a row map stands for.
    Failed [DCHECK]s and accesses out of range are [None].

    Selecting rows of any kind of map by any kind of map is shown to pick the rows
    that the selector lists, in its order, and intersecting to leave the common ones. *)

From Stdlib Require Import Sorted.
From S2P Require Import Prelude BitWord BitVector BitVectorOps BitVectorSelect BitVectorIndex BitVectorRun.

Inductive RowMap :=
  | RMRange (start end_ : Z)
  | RMBits (bv : BitVector)
  | RMIndices (vec : list Z).

(** The constructor of [Range], with its [DCHECK]. *)
Definition Range (start end_ : Z) : option RowMap := if start <=? end_ then Some (RMRange start end_) else None.
Definition RowMap_empty : RowMap := RMRange 0 0.
Definition SingleRow (index : Z) : option RowMap := Range index (u32 (index + 1)).
Definition RowMap_Copy (rm : RowMap) : option RowMap :=
  match rm with
  | RMRange s e => Some (RMRange s e)
  | RMBits b => RMBits <$> Copy b
  | RMIndices v => Some (RMIndices v)
  end.

Definition range_size (s e : Z) : Z := u32 (e - s).
Definition iota (n s : Z) : list Z := (fun i => u32 (s + i)) <$> seqZ 0 n.

Definition rm_size (rm : RowMap) : option Z :=
  match rm with
  | RMRange s e => Some (range_size s e)
  | RMBits b => CountSetBits b
  | RMIndices v => Some (u32 (vlen v))
  end.
Definition Get (rm : RowMap) (row : Z) : option Z :=
  match rm with
  | RMRange s e => Some (u32 (s + row))
  | RMBits b => IndexOfNthSet b row
  | RMIndices v => vec_get v row
  end.
Definition GetAllIndices (rm : RowMap) : option (list Z) :=
  match rm with
  | RMRange s e => Some (iota (range_size s e) s)
  | RMBits b => GetSetBitIndices b
  | RMIndices v => Some v
  end.
Definition Max (rm : RowMap) : Z :=
  match rm with
  | RMRange s e => e
  | RMBits b => size_ b
  | RMIndices v => match v with [] => 0 | x :: v => u32 (foldl Z.max x v + 1) end
  end.
Definition Contains (rm : RowMap) (index : Z) : option bool :=
  match rm with
  | RMRange s e => Some ((s <=? index) && (index <? e))
  | RMBits b => if index <? size_ b then IsSet b index else Some false
  | RMIndices v => Some (bool_decide (index ∈ v))
  end.

(** [std::find] with the distance from the start. *)
Fixpoint find_index (v : list Z) (x : Z) : option Z :=
  match v with
  | [] => None
  | y :: v => if x =? y then Some 0 else Z.succ <$> find_index v x
  end.
Definition RowOf (rm : RowMap) (index : Z) : option (option Z) :=
  match rm with
  | RMRange s e => Some (if (index <? s) || (e <=? index) then None else Some (u32 (index - s)))
  | RMBits b =>
      if index <? size_ b then
        x ← IsSet b index;
        if (x : bool) then Some <$> CountSetBitsUntil b index else Some None
      else Some None
  | RMIndices v => Some (u32 <$> find_index v index)
  end.

Definition InsertIntoBitVector (b : BitVector) (row : Z) : option BitVector :=
  if row =? size_ b then AppendTrue b else
  b ← (if size_ b <? row then Resize b (u32 (row + 1)) false else Some b);
  fst <$> SetBit b row.

(** [std::is_sorted]. *)
Fixpoint is_sorted (v : list Z) : bool :=
  match v with
  | x :: (y :: _) as w => (x <=? y) && is_sorted w
  | _ => true
  end.
Definition Insert (rm : RowMap) (index : Z) : option RowMap :=
  match rm with
  | RMRange s e =>
      if index =? e then Some (RMRange s (u32 (e + 1))) else
      b ← Resize BitVector_empty s false;
      b ← Resize b e true;
      RMBits <$> InsertIntoBitVector b index
  | RMBits b => RMBits <$> InsertIntoBitVector b index
  | RMIndices v =>
      if is_sorted v then
        let it := upper_bound v index in
        Some (RMIndices (take it v ++ index :: drop it v))
      else None
  end.

(** ** Selecting *)

Definition SelectIvWithIv (iv selector : list Z) : option (list Z) := mapM (fun i => vec_get iv i) selector.
Definition SelectBvWithIvByConvertToIv (b : BitVector) (selector : list Z) : option (list Z) :=
  iv ← GetSetBitIndices b;
  SelectIvWithIv iv selector.
Definition SelectBvWithIvByIndexOfNthSet (b : BitVector) (selector : list Z) : option (list Z) :=
  mapM (IndexOfNthSet b) selector.

Definition select_range_range (s e ss se : Z) : option RowMap :=
  if (ss <=? se) && (se <=? range_size s e) then Range (u32 (s + ss)) (u32 (s + se)) else None.
Definition select_range_bv (s e : Z) (selector : BitVector) : option RowMap :=
  if size_ selector <=? range_size s e then
    if s =? 0 then RMBits <$> Copy selector else
    b ← BitVector_new s false;
    b ← Resize b (u32 (s + size_ selector)) true;
    RMBits <$> UpdateSetBits b selector
  else None.
Definition select_range_iv (s e : Z) (selector : list Z) : option RowMap :=
  RMIndices <$> mapM (fun i => if i <? range_size s e then Some (u32 (i + s)) else None) selector.
Definition select_bv_range (b : BitVector) (ss se : Z) : option RowMap :=
  c ← CountSetBits b;
  if se <=? c then
    if range_size ss se =? 0 then Some RowMap_empty else
    if (ss =? 0) && (se =? c) then RMBits <$> Copy b else
    first ← IndexOfNthSet b ss;
    last ← IndexOfNthSet b (u32 (se - 1));
    RMBits <$> IntersectRange b first (u32 (last + 1))
  else None.
Definition select_bv_bv (b selector : BitVector) : option RowMap :=
  ret ← Copy b;
  RMBits <$> UpdateSetBits ret selector.
Definition select_bv_iv (b : BitVector) (selector : list Z) : option RowMap :=
  c ← CountSetBits b;
  if c / 4 <? vlen selector then RMIndices <$> SelectBvWithIvByConvertToIv b selector
  else RMIndices <$> SelectBvWithIvByIndexOfNthSet b selector.
Definition select_iv_range (iv : list Z) (ss se : Z) : option RowMap :=
  if se <=? vlen iv then RMIndices <$> mapM (fun i => vec_get iv i) (seqZ ss (se - ss)) else None.
(** [std::remove_if] with a predicate that counts its calls. *)
Fixpoint keep_set (b : BitVector) (idx : Z) (v : list Z) : option (list Z) :=
  match v with
  | [] => Some []
  | x :: v =>
      keep ← IsSet b idx;
      v ← keep_set b (idx + 1) v;
      Some (if (keep : bool) then x :: v else v)
  end.
Definition select_iv_bv (iv : list Z) (selector : BitVector) : option RowMap :=
  if size_ selector <=? vlen iv
  then RMIndices <$> keep_set selector 0 (resize (Z.to_nat (size_ selector)) 0 iv) else None.
Definition select_iv_iv (iv selector : list Z) : option RowMap := RMIndices <$> SelectIvWithIv iv selector.

Definition SelectRowsSlow (rm selector : RowMap) : option RowMap :=
  match rm, selector with
  | RMRange s e, RMRange ss se => select_range_range s e ss se
  | RMRange s e, RMBits b => select_range_bv s e b
  | RMRange s e, RMIndices v => select_range_iv s e v
  | RMBits b, RMRange ss se => select_bv_range b ss se
  | RMBits b, RMBits sel => select_bv_bv b sel
  | RMBits b, RMIndices v => select_bv_iv b v
  | RMIndices iv, RMRange ss se => select_iv_range iv ss se
  | RMIndices iv, RMBits sel => select_iv_bv iv sel
  | RMIndices iv, RMIndices v => select_iv_iv iv v
  end.
Definition SelectRows (rm selector : RowMap) : option RowMap :=
  n ← rm_size selector;
  if n =? 0 then Some RowMap_empty else
  if n =? 1 then
    row ← Get selector 0;
    index ← Get rm row;
    SingleRow index
  else SelectRowsSlow rm selector.

(** ** Intersecting *)

Definition keep_if (f : Z -> option bool) : list Z -> option (list Z) :=
  foldr (fun x acc => keep ← f x; v ← acc; Some (if (keep : bool) then x :: v else v)) (Some []).

Definition intersect_bv_iv (b : BitVector) (v : list Z) : option RowMap := RMIndices <$> keep_if (IsSet b) v.
Definition intersect_range_iv (s e : Z) (v : list Z) : option RowMap :=
  RMIndices <$> keep_if (fun i => Some (negb ((i <? s) || (e <=? i)))) v.
Definition Intersect (rm second : RowMap) : option RowMap :=
  match rm, second with
  | RMBits a, RMBits b => RMBits <$> And a b
  | RMRange s1 e1, RMRange s2 e2 =>
      let start := Z.max s1 s2 in
      Range start (Z.max start (Z.min e1 e2))
  | RMIndices v, RMIndices w => RMIndices <$> keep_if (fun i => Some (bool_decide (i ∈ w))) v
  | RMRange s e, RMBits b | RMBits b, RMRange s e => RMBits <$> IntersectRange b s e
  | RMIndices v, RMBits b | RMBits b, RMIndices v => intersect_bv_iv b v
  | RMRange s e, RMIndices v | RMIndices v, RMRange s e => intersect_range_iv s e v
  end.
Definition IntersectExact (rm : RowMap) (index : Z) : option RowMap :=
  c ← Contains rm index;
  if (c : bool) then Range index (u32 (index + 1)) else Some RowMap_empty.

(** ** Iterating *)

Record Iterator := mkIter { ordinal_ : Z; results_ : list Z; rm_ : RowMap }.
Definition IterateRows (rm : RowMap) : option Iterator :=
  match rm with
  | RMRange s e => Some (mkIter s [] rm)
  | RMBits b => r ← GetSetBitIndices b; Some (mkIter 0 r rm)
  | RMIndices _ => Some (mkIter 0 [] rm)
  end.
Definition Next (it : Iterator) : Iterator := mkIter (u32 (ordinal_ it + 1)) (results_ it) (rm_ it).
Definition iter_valid (it : Iterator) : bool :=
  match rm_ it with
  | RMRange s e => ordinal_ it <? e
  | RMBits _ => ordinal_ it <? vlen (results_ it)
  | RMIndices v => ordinal_ it <? vlen v
  end.
Definition iter_index (it : Iterator) : option Z :=
  match rm_ it with
  | RMRange s e => Some (ordinal_ it)
  | RMBits _ => vec_get (results_ it) (ordinal_ it)
  | RMIndices v => vec_get v (ordinal_ it)
  end.
Definition iter_row (it : Iterator) : Z :=
  match rm_ it with
  | RMRange s e => u32 (ordinal_ it - s)
  | _ => ordinal_ it
  end.
(** [for (auto it = rm.IterateRows(); it; it.Next())]: the pairs of row and index that a client sees. *)
Fixpoint iter_all (fuel : nat) (it : Iterator) : option (list (Z * Z)) :=
  if iter_valid it then
    match fuel with
    | O => None
    | S fuel => i ← iter_index it; rest ← iter_all fuel (Next it); Some ((iter_row it, i) :: rest)
    end
  else Some [].

(** ** What a row map represents *)

Inductive rm_rep : RowMap -> list Z -> Prop :=
  | rep_range s e : 0 <= s <= e -> e < 2 ^ 32 -> rm_rep (RMRange s e) (seqZ s (e - s))
  | rep_bits b l : rep b l -> rm_rep (RMBits b) (set_indices 0 l)
  | rep_indices v : Forall (fun x => 0 <= x < 2 ^ 32 - 1) v -> vlen v < 2 ^ 32 -> rm_rep (RMIndices v) v.
#[local] Hint Constructors rm_rep : core.

Lemma set_indices_bounds l x : x ∈ set_indices 0 l -> 0 <= x < vlen l.
Proof.
  intros [Hx Hb]%elem_of_set_indices. rewrite Z.sub_0_r in Hb. split; [done|].
  destruct (decide (x < vlen l)); [done|]. rewrite lbit_beyond in Hb by lia. done.
Qed.

Lemma vlen_set_indices l : vlen (set_indices 0 l) = ctrue l.
Proof. unfold vlen. rewrite length_set_indices. done. Qed.

Lemma ctrue_max l : vlen l <= kMaxSize -> 0 <= ctrue l < 2 ^ 32.
Proof. intros H. pose proof (ctrue_bounds l) as Hb. fold (vlen l) in Hb. unfold kMaxSize in H. lia. Qed.

Lemma vlen_seqZ s n : 0 <= n -> vlen (seqZ s n) = n.
Proof. intros H. unfold vlen. rewrite length_seqZ. lia. Qed.

Lemma rm_rep_bounds rm rows : rm_rep rm rows -> Forall (fun x => 0 <= x < 2 ^ 32 - 1) rows /\ vlen rows < 2 ^ 32.
Proof.
  intros [s e Hs He|b l Hr|v Hv Hl]; [| |done].
  - split; [|rewrite vlen_seqZ by lia; lia]. apply Forall_forall. intros x Hx%elem_of_seqZ. lia.
  - pose proof (rep_max _ _ Hr) as Hm. split.
    + apply Forall_forall. intros x Hx%set_indices_bounds. unfold kMaxSize in Hm. lia.
    + rewrite vlen_set_indices. pose proof (ctrue_max l Hm). lia.
Qed.

Lemma range_size_ok s e : 0 <= s <= e -> e < 2 ^ 32 -> range_size s e = e - s.
Proof. intros. apply u32_id. unfold is_u32. lia. Qed.

Lemma rm_size_ok rm rows : rm_rep rm rows -> rm_size rm = Some (vlen rows).
Proof.
  intros [s e Hs He|b l Hr|v Hv Hl]; cbn [rm_size].
  - rewrite range_size_ok, vlen_seqZ by lia. done.
  - rewrite (CountSetBits_ctrue _ _ Hr), vlen_set_indices. done.
  - rewrite u32_id; [done|]. pose proof (vlen_nonneg v). unfold is_u32. lia.
Qed.

Lemma vec_get_nth {A} (v : list A) i : 0 <= i -> vec_get v i = v !! Z.to_nat i.
Proof. intros Hi. unfold vec_get. rewrite (proj2 (Z.leb_le _ _)) by done. done. Qed.

Lemma Get_ok rm rows row : rm_rep rm rows -> 0 <= row < vlen rows -> Get rm row = rows !! Z.to_nat row.
Proof.
  intros [s e Hs He|b l Hr|v Hv Hl] Hrow; cbn [Get].
  - rewrite vlen_seqZ in Hrow by lia. rewrite lookup_seqZ_lt, u32_id by (unfold is_u32; lia). f_equal. lia.
  - rewrite vlen_set_indices in Hrow. apply IndexOfNthSet_lookup; done.
  - apply vec_get_nth. lia.
Qed.

Lemma GetAllIndices_ok rm rows : rm_rep rm rows -> GetAllIndices rm = Some rows.
Proof.
  intros [s e Hs He|b l Hr|v Hv Hl]; cbn [GetAllIndices]; [|apply GetSetBitIndices_ok; done|done].
  rewrite range_size_ok by lia. unfold iota. f_equal.
  rewrite (list_fmap_ext _ (Z.add s)) by (intros j i Hi%list_elem_of_lookup_2%elem_of_seqZ; unfold u32; rewrite Z.mod_small by lia; lia).
  rewrite fmap_add_seqZ. f_equal. lia.
Qed.

Lemma Contains_ok rm rows i : rm_rep rm rows -> 0 <= i -> Contains rm i = Some (bool_decide (i ∈ rows)).
Proof.
  intros [s e Hs He|b l Hr|v Hv Hl] Hi; cbn [Contains]; [| |done].
  - f_equal. apply Bool.eq_iff_eq_true. rewrite andb_true_iff, bool_decide_eq_true, Z.leb_le, Z.ltb_lt, elem_of_seqZ. lia.
  - rewrite (rep_size _ _ Hr). destruct (Z.ltb_spec i (vlen l)).
    + rewrite (IsSet_ok b l Hr) by lia. f_equal. apply Bool.eq_iff_eq_true.
      rewrite bool_decide_eq_true, elem_of_set_indices, Z.sub_0_r. tauto.
    + f_equal. symmetry. apply bool_decide_eq_false. intros Hx%set_indices_bounds. lia.
Qed.

Lemma find_index_none v x : x ∉ v -> find_index v x = None.
Proof.
  induction v as [|y v IH]; intros Hx; [done|]. cbn [find_index]. apply not_elem_of_cons in Hx as [Hne Hx].
  rewrite (proj2 (Z.eqb_neq _ _)), IH by done. done.
Qed.

Lemma find_index_sorted v x (n : nat) : StronglySorted Z.lt v -> v !! n = Some x -> find_index v x = Some (Z.of_nat n).
Proof.
  revert n. induction v as [|y v IH]; intros n Hs Hx; [done|]. apply StronglySorted_inv in Hs as [Hs Hf]. cbn [find_index].
  destruct n as [|n]; simpl in Hx; [injection Hx as ->; rewrite Z.eqb_refl; done|].
  pose proof (Forall_lookup_1 _ _ _ _ Hf Hx) as Hlt. simpl in Hlt. rewrite (proj2 (Z.eqb_neq _ _)) by lia. rewrite (IH n Hs Hx). simpl. f_equal. lia.
Qed.

Lemma find_index_bounds v x i : find_index v x = Some i -> 0 <= i < vlen v.
Proof.
  revert i. induction v as [|y v IH]; intros i Hi; [done|]. cbn [find_index] in Hi. unfold vlen in *. simpl length.
  destruct (x =? y); [injection Hi as <-; lia|]. destruct (find_index v x) as [j|]; [|done]. injection Hi as <-. specialize (IH j eq_refl). lia.
Qed.

Lemma seqZ_sorted s n : StronglySorted Z.lt (seqZ s n).
Proof.
  destruct (decide (0 <= n)) as [Hn|]; [|rewrite seqZ_nil by lia; constructor].
  revert s. pattern n. apply natlike_ind; [intros s; constructor| |done]. intros m Hm IH s. rewrite seqZ_cons by lia. constructor.
  - replace (Z.pred (Z.succ m)) with m by lia. apply IH.
  - apply Forall_forall. intros x Hx%elem_of_seqZ. lia.
Qed.

(** The first row of an index. *)
Lemma RowOf_ok rm rows i : rm_rep rm rows -> 0 <= i -> RowOf rm i = Some (find_index rows i).
Proof.
  intros [s e Hs He|b l Hr|v Hv Hl] Hi; cbn [RowOf].
  - f_equal. destruct (Z.ltb_spec i s); [|destruct (Z.leb_spec e i)]; cbn [orb].
    + symmetry. apply find_index_none. rewrite elem_of_seqZ. lia.
    + symmetry. apply find_index_none. rewrite elem_of_seqZ. lia.
    + symmetry. rewrite u32_id by (unfold is_u32; lia). rewrite (find_index_sorted _ _ (Z.to_nat (i - s)) (seqZ_sorted _ _)).
      * f_equal. lia.
      * rewrite lookup_seqZ_lt by lia. f_equal. lia.
  - rewrite (rep_size _ _ Hr). destruct (Z.ltb_spec i (vlen l)).
    + rewrite (IsSet_ok b l Hr) by lia. runs. destruct (lbit l i) eqn:Hb.
      * rewrite (CountSetBitsUntil_ok b l Hr) by lia. runs. f_equal. symmetry.
        pose proof (cnt_bounds (lbit l) 0 i).
        rewrite (find_index_sorted _ _ (Z.to_nat (cnt (lbit l) 0 i)) (set_indices_sorted _ _)); [f_equal; lia|].
        apply lookup_set_indices. rewrite Z.sub_0_r. split; [lia|]. split; [done|lia].
      * f_equal. symmetry. apply find_index_none. rewrite elem_of_set_indices, Z.sub_0_r, Hb. intros [_ ?]. done.
    + f_equal. symmetry. apply find_index_none. intros Hx%set_indices_bounds. lia.
  - f_equal. destruct (find_index v i) as [j|] eqn:Hf; [|done]. simpl. f_equal. apply u32_id.
    apply find_index_bounds in Hf. unfold is_u32. lia.
Qed.

(** ** Selecting *)

(** The rows that a selector picks. *)
Definition pick (rows sel : list Z) : option (list Z) := mapM (fun i => rows !! Z.to_nat i) sel.

(** All picked rows exist; a bit vector must not be longer either. *)
Definition fits (selector : RowMap) (sel : list Z) (n : Z) : Prop :=
  Forall (fun i => 0 <= i < n) sel /\ match selector with RMBits b => size_ b <= n | _ => True end.

Lemma mapM_ext_in {A B} (f g : A -> option B) l : (forall x, x ∈ l -> f x = g x) -> mapM f l = mapM g l.
Proof.
  induction l as [|x l IH]; intros H; [done|]. cbn. rewrite H by constructor.
  destruct (g x); [|done]. cbn. rewrite IH; [done|]. intros y Hy. apply H. constructor. done.
Qed.

Lemma mapM_pure {A B} (f : A -> B) l : mapM (fun x => Some (f x)) l = Some (f <$> l).
Proof. induction l as [|x l IH]; [done|]. cbn. rewrite IH. done. Qed.

Lemma pick_seqZ s n sel : Forall (fun i => 0 <= i < n) sel -> pick (seqZ s n) sel = Some (Z.add s <$> sel).
Proof.
  intros Hf. rewrite Forall_forall in Hf. unfold pick. rewrite <- mapM_pure. apply mapM_ext_in. intros x Hx.
  specialize (Hf x Hx). simpl in Hf. rewrite lookup_seqZ_lt by lia. f_equal. lia.
Qed.

Lemma pick_total rows sel : Forall (fun i => 0 <= i < vlen rows) sel -> exists r, pick rows sel = Some r.
Proof.
  intros Hf. apply mapM_is_Some. eapply Forall_impl; [exact Hf|]. intros i Hi. simpl in Hi.
  apply lookup_lt_is_Some_2. unfold vlen in Hi. lia.
Qed.

Lemma pick_elem rows sel r x : pick rows sel = Some r -> x ∈ r -> x ∈ rows.
Proof.
  intros Hp Hx. unfold pick in Hp. apply mapM_Some in Hp. apply list_elem_of_lookup in Hx as [i Hi].
  destruct (Forall2_lookup_r _ _ _ _ _ Hp Hi) as (y & _ & Hy). simpl in Hy. apply list_elem_of_lookup_2 in Hy. done.
Qed.

Lemma pick_length rows sel r : pick rows sel = Some r -> length r = length sel.
Proof. intros Hp. symmetry. exact (length_mapM _ _ _ Hp). Qed.

(** A run of rows. *)
Lemma pick_range rows ss se : 0 <= ss <= se -> se <= vlen rows ->
  pick rows (seqZ ss (se - ss)) = Some (take (Z.to_nat (se - ss)) (drop (Z.to_nat ss) rows)).
Proof.
  intros Hs He. apply mapM_Some, Forall2_same_length_lookup. unfold vlen in *.
  rewrite length_seqZ, length_take, length_drop. split; [lia|]. intros i x y Hx Hy.
  apply lookup_seqZ in Hx as [-> Hi]. rewrite lookup_take_lt, lookup_drop in Hy by lia. simpl. rewrite <- Hy. f_equal. lia.
Qed.

Lemma rep_picked rows sel r : Forall (fun x => 0 <= x < 2 ^ 32 - 1) rows -> vlen sel < 2 ^ 32 -> pick rows sel = Some r ->
  rm_rep (RMIndices r) r.
Proof.
  intros Hb Hl Hp. constructor.
  - apply Forall_forall. intros x Hx. rewrite Forall_forall in Hb. apply Hb, (pick_elem _ _ _ _ Hp Hx).
  - unfold vlen in *. rewrite (pick_length _ _ _ Hp). done.
Qed.

Lemma set_indices_shift d l : forall off, set_indices (d + off) l = Z.add d <$> set_indices off l.
Proof.
  induction l as [|[] l IH]; intros off; cbn [set_indices]; [done| |].
  - rewrite fmap_cons, <- IH. do 2 f_equal. lia.
  - rewrite <- IH. f_equal. lia.
Qed.

Lemma set_indices_ctrue_0 l : ctrue l = 0 -> set_indices 0 l = [].
Proof.
  intros H. pose proof (vlen_set_indices l) as Hv. rewrite H in Hv. destruct (set_indices 0 l); [done|]. unfold vlen in Hv. simpl in Hv. lia.
Qed.

Lemma update_bits_ones (s : nat) u : update_bits (replicate s false ++ replicate (length u) true) u = replicate s false ++ u.
Proof.
  induction s as [|s IH]; cbn [replicate app].
  - induction u as [|x u IH]; [done|]. cbn [length replicate update_bits]. rewrite IH. done.
  - cbn [update_bits]. destruct u; rewrite IH; done.
Qed.

Lemma Copy_rep b l : rep b l -> Copy b = Some b.
Proof.
  intros Hr. unfold Copy, BitVector_of, kWordsInBlock. rewrite (wr_len _ _ (rep_words _ _ Hr)), (Z.mul_comm 8), Z.mod_mul by lia.
  destruct b; done.
Qed.

(** Updating the set bits picks them. *)
Lemma pick_update_bits l : forall u off k pre, vlen pre = k -> vlen u <= ctrue l ->
  pick (pre ++ set_indices off l) (set_indices k u) = Some (set_indices off (update_bits l u)).
Proof.
  induction l as [|x l IH]; intros u off k pre Hk Hu; cbn [ctrue] in Hu.
  - destruct u; [done|]. unfold vlen in Hu. simpl in Hu. lia.
  - destruct x; simpl Z.b2z in Hu; cbn [set_indices].
    + destruct u as [|y u]; cbn [update_bits set_indices].
      * rewrite update_bits_nil, set_indices_false. done.
      * assert (vlen (pre ++ [off]) = k + 1) as Hk1 by (rewrite vlen_app; unfold vlen at 2; simpl; lia).
        specialize (IH u (off + 1) (k + 1) (pre ++ [off]) Hk1 ltac:(unfold vlen in *; simpl length in Hu; lia)).
        rewrite <- app_assoc in IH. cbn [app] in IH. destruct y; [|exact IH].
        unfold pick in *. cbn [mapM]. assert ((pre ++ off :: set_indices (off + 1) l) !! Z.to_nat k = Some off) as ->.
        { rewrite <- Hk. unfold vlen. rewrite Nat2Z.id. apply list_lookup_middle. done. }
        runs. rewrite IH. done.
    + specialize (IH u (off + 1) k pre Hk ltac:(lia)). rewrite IH. destruct u; done.
Qed.

(** The result of a selection. *)
Definition selected (r : option RowMap) (rows sel : list Z) : Prop :=
  exists rm picked, r = Some rm /\ rm_rep rm picked /\ pick rows sel = Some picked.

Lemma selected_indices rows sel f : Forall (fun x => 0 <= x < 2 ^ 32 - 1) rows -> vlen sel < 2 ^ 32 ->
  Forall (fun i => 0 <= i < vlen rows) sel -> (forall i, i ∈ sel -> f i = rows !! Z.to_nat i) ->
  selected (RMIndices <$> mapM f sel) rows sel.
Proof.
  intros Hb Hl Hf Hfi. destruct (pick_total rows sel Hf) as [r Hp].
  exists (RMIndices r), r. rewrite (mapM_ext_in f (fun i => rows !! Z.to_nat i)) by done. fold (pick rows sel).
  rewrite Hp. split; [done|]. split; [|done]. exact (rep_picked _ _ _ Hb Hl Hp).
Qed.

Lemma ctrue_replicate_true n : ctrue (replicate n true) = Z.of_nat n.
Proof. induction n as [|n IH]; [done|]. cbn [replicate ctrue]. simpl Z.b2z. lia. Qed.

Lemma rrows_len s e : 0 <= s <= e -> vlen (seqZ s (e - s)) = e - s.
Proof.
  intros Hse. apply vlen_seqZ. lia. Qed.

Lemma select_range_range_ok s e ss se : 0 <= s <= e -> e < 2 ^ 32 -> 0 <= ss <= se -> se <= e - s -> selected (select_range_range s e ss se) (seqZ s (e - s)) (seqZ ss (se - ss)).
Proof.
  intros Hse He Hss.
  intros Hle. unfold select_range_range, Range. rewrite range_size_ok, (proj2 (Z.leb_le ss se)), (proj2 (Z.leb_le se _)) by lia.
  cbn [andb]. rewrite !u32_id, (proj2 (Z.leb_le (s + ss) _)) by (unfold is_u32; lia).
  exists (RMRange (s + ss) (s + se)), (seqZ (s + ss) (s + se - (s + ss))). split; [done|]. split; [constructor; lia|].
  rewrite pick_seqZ, fmap_add_seqZ; [do 2 f_equal; lia|]. apply Forall_forall. intros x Hx%elem_of_seqZ. lia.
Qed.

Lemma select_range_bv_ok s e bs u : 0 <= s <= e -> e < 2 ^ 32 -> rep bs u -> vlen u <= e - s -> e <= kMaxSize -> selected (select_range_bv s e bs) (seqZ s (e - s)) (set_indices 0 u).
Proof.
  intros Hse He Hbs.
  intros Hle Hem. unfold select_range_bv. rewrite range_size_ok, (rep_size _ _ Hbs), (proj2 (Z.leb_le _ _)) by lia.
  assert (pick (seqZ s (e - s)) (set_indices 0 u) = Some (Z.add s <$> set_indices 0 u)) as Hp.
  { apply pick_seqZ, Forall_forall. intros x Hx%set_indices_bounds. lia. }
  destruct (Z.eqb_spec s 0) as [->|].
  - rewrite (Copy_rep _ _ Hbs). exists (RMBits bs), (set_indices 0 u). split; [done|]. split; [constructor; done|].
    rewrite Hp, <- set_indices_shift. done.
  - destruct (BitVector_new_ok s false) as (b0 & -> & Hr0); [lia|]. runs. pose proof (vlen_nonneg u).
    rewrite u32_id by (unfold is_u32; lia). set (zs := replicate (Z.to_nat s) false) in *.
    assert (vlen zs = s) as Hz by (unfold zs, vlen; rewrite length_replicate; lia).
    destruct (Resize_ok b0 zs (s + vlen u) true Hr0) as (b1 & -> & Hr1); [lia| |].
    { intros _. right. right. apply cnt_zero. intros k Hk. unfold lbit, zs. apply default_lookup_replicate. }
    runs. assert (resize (Z.to_nat (s + vlen u)) true zs = zs ++ replicate (length u) true) as Hrs.
    { rewrite resize_ge by (unfold vlen in *; lia). do 2 f_equal. unfold vlen in *. lia. }
    rewrite Hrs in Hr1. assert (ctrue (zs ++ replicate (length u) true) = vlen u) as Hct.
    { rewrite ctrue_app. unfold zs. rewrite ctrue_replicate_false, ctrue_replicate_true. done. }
    destruct (UpdateSetBits_ok b1 bs _ u Hr1 Hbs) as (b2 & -> & Hr2); [lia|]. unfold zs in Hr2. rewrite update_bits_ones in Hr2.
    eexists. eexists. split; [done|]. split; [constructor; exact Hr2|]. rewrite Hp. f_equal.
    destruct (Z.eqb_spec (ctrue u) 0) as [Hc|]; [rewrite set_indices_ctrue_0 by done; done|].
    rewrite set_indices_app, set_indices_false. fold zs. rewrite Hz. cbn [app]. rewrite <- set_indices_shift. f_equal. lia.
Qed.

Lemma select_range_iv_ok s e sv : 0 <= s <= e -> e < 2 ^ 32 -> vlen sv < 2 ^ 32 -> Forall (fun i => 0 <= i < e - s) sv -> selected (select_range_iv s e sv) (seqZ s (e - s)) sv.
Proof.
  intros Hse He Hsvl.
  intros Hf. unfold select_range_iv. rewrite range_size_ok by lia. apply selected_indices.
  - apply Forall_forall. intros x Hx%elem_of_seqZ. lia.
  - done.
  - rewrite rrows_len by done. done.
  - intros i Hi. rewrite Forall_forall in Hf. apply Hf in Hi. simpl in Hi. rewrite (proj2 (Z.ltb_lt _ _)) by lia.
    rewrite lookup_seqZ_lt by lia. rewrite u32_id by (unfold is_u32; lia). f_equal. lia.
Qed.

Lemma select_bv_bv_ok b bs l u : rep b l -> rep bs u -> vlen u <= ctrue l -> selected (select_bv_bv b bs) (set_indices 0 l) (set_indices 0 u).
Proof.
  intros Hb Hbs.
  intros Hle. unfold select_bv_bv. rewrite (Copy_rep _ _ Hb). runs.
  destruct (UpdateSetBits_ok b bs l u Hb Hbs Hle) as (b' & -> & Hr). eexists. eexists. split; [done|]. split; [constructor; exact Hr|].
  pose proof (pick_update_bits l u 0 0 [] eq_refl Hle) as Hp. cbn [app] in Hp.
  destruct (Z.eqb_spec (ctrue u) 0) as [Hc|]; [|done]. rewrite (set_indices_ctrue_0 u) by done. done.
Qed.

Lemma lrows_bounds b l : rep b l -> Forall (fun x => 0 <= x < 2 ^ 32 - 1) (set_indices 0 l).
Proof.
  intros Hb. exact (proj1 (rm_rep_bounds (RMBits b) _ (rep_bits b l Hb))). Qed.

Lemma select_bv_iv_ok b l sv : rep b l -> vlen sv < 2 ^ 32 -> Forall (fun i => 0 <= i < ctrue l) sv -> selected (select_bv_iv b sv) (set_indices 0 l) sv.
Proof.
  intros Hb Hsvl.
  intros Hf. unfold select_bv_iv. rewrite (CountSetBits_ctrue _ _ Hb). runs.
  assert (Forall (fun i => 0 <= i < vlen (set_indices 0 l)) sv) as Hf' by (rewrite vlen_set_indices; done).
  rewrite Forall_forall in Hf. destruct (_ <? _).
  - unfold SelectBvWithIvByConvertToIv, SelectIvWithIv. rewrite (GetSetBitIndices_ok _ _ Hb). runs.
    apply selected_indices; [apply (lrows_bounds b l Hb)|done|done|]. intros i Hi. apply Hf in Hi. apply vec_get_nth. lia.
  - unfold SelectBvWithIvByIndexOfNthSet. apply selected_indices; [apply (lrows_bounds b l Hb)|done|done|].
    intros i Hi. apply IndexOfNthSet_lookup; [done|]. apply Hf. done.
Qed.

Lemma select_iv_range_ok iv ss se : 0 <= ss <= se -> se < 2 ^ 32 -> Forall (fun x => 0 <= x < 2 ^ 32 - 1) iv -> se <= vlen iv -> selected (select_iv_range iv ss se) iv (seqZ ss (se - ss)).
Proof.
  intros Hss Hse32 Hiv.
  intros Hle. unfold select_iv_range. rewrite (proj2 (Z.leb_le _ _)) by done. apply selected_indices; [done|rewrite vlen_seqZ by lia; lia| |].
  - apply Forall_forall. intros x Hx%elem_of_seqZ. lia.
  - intros i Hi%elem_of_seqZ. apply vec_get_nth. lia.
Qed.

Lemma select_iv_iv_ok iv sv : Forall (fun x => 0 <= x < 2 ^ 32 - 1) iv -> vlen sv < 2 ^ 32 -> Forall (fun i => 0 <= i < vlen iv) sv -> selected (select_iv_iv iv sv) iv sv.
Proof.
  intros Hiv Hsvl.
  intros Hf. unfold select_iv_iv, SelectIvWithIv. apply selected_indices; [done..|]. intros i Hi.
  rewrite Forall_forall in Hf. apply Hf in Hi. apply vec_get_nth. lia.
Qed.

(** The elements of [v] whose bit is set. *)
Fixpoint kept (v : list Z) (u : list bool) : list Z :=
  match v, u with
  | x :: v, keep :: u => if keep then x :: kept v u else kept v u
  | _, _ => []
  end.

Lemma keep_set_ok bs u v : rep bs u -> forall idx, 0 <= idx -> idx + vlen v <= vlen u ->
  keep_set bs idx v = Some (kept v (drop (Z.to_nat idx) u)).
Proof.
  intros Hbs.
  induction v as [|x v IH]; intros idx Hi Hl; [destruct (drop _ u); done|]. unfold vlen in Hl at 1. simpl length in Hl.
  destruct (lookup_lt_is_Some_2 u (Z.to_nat idx)) as [k Hk]; [unfold vlen in *; lia|].
  cbn [keep_set]. rewrite (IsSet_ok bs u Hbs) by (unfold vlen in *; lia). unfold lbit. rewrite Hk. runs.
  rewrite IH by (unfold vlen in *; lia). runs. rewrite (drop_S _ _ _ Hk).
  replace (Z.to_nat (idx + 1)) with (S (Z.to_nat idx)) by lia. cbn [kept default from_option]. destruct k; done.
Qed.

Lemma pick_kept v : forall (w : list bool) pre, (length w <= length v)%nat ->
  pick (pre ++ v) (set_indices (vlen pre) w) = Some (kept v w).
Proof.
  induction v as [|x v IH]; intros w pre Hlen; [destruct w; [done|simpl in Hlen; lia]|].
  destruct w as [|k w]; [done|]. simpl in Hlen. specialize (IH w (pre ++ [x]) ltac:(lia)).
  rewrite <- app_assoc, vlen_app in IH. change (vlen [x]) with 1 in IH. cbn [app] in IH. cbn [set_indices kept].
  destruct k; [|exact IH]. unfold pick in *. cbn [mapM].
  assert ((pre ++ x :: v) !! Z.to_nat (vlen pre) = Some x) as -> by (unfold vlen; rewrite Nat2Z.id; apply list_lookup_middle; done).
  runs. rewrite IH. done.
Qed.

Lemma select_iv_bv_ok iv bs u : rep bs u -> Forall (fun x => 0 <= x < 2 ^ 32 - 1) iv -> vlen u <= vlen iv -> selected (select_iv_bv iv bs) iv (set_indices 0 u).
Proof.
  intros Hbs Hiv.
  intros Hle. unfold select_iv_bv. rewrite (rep_size _ _ Hbs), (proj2 (Z.leb_le _ _)) by done.
  rewrite resize_le by (unfold vlen in *; lia).
  assert (vlen (take (Z.to_nat (vlen u)) iv) = vlen u) as Hlen by (unfold vlen in *; rewrite length_take; lia).
  rewrite (keep_set_ok bs u _ Hbs) by lia. change (Z.to_nat 0) with 0%nat. rewrite drop_0.
  pose proof (pick_kept (take (Z.to_nat (vlen u)) iv) u [] ltac:(unfold vlen in *; lia)) as Hp. change (vlen []) with 0 in Hp. cbn [app] in Hp.
  assert (pick iv (set_indices 0 u) = pick (take (Z.to_nat (vlen u)) iv) (set_indices 0 u)) as Heq.
  { apply mapM_ext_in. intros i Hi%set_indices_bounds. rewrite lookup_take_lt by (unfold vlen in *; lia). done. }
  eexists. eexists. split; [done|]. rewrite Heq. split; [|exact Hp]. rewrite <- Heq in Hp.
  apply (rep_picked iv (set_indices 0 u)); [done| |done]. rewrite vlen_set_indices. pose proof (ctrue_max u (rep_max _ _ Hbs)). lia.
Qed.

Lemma cnt_succ f x : 0 <= x -> f x = true -> cnt f 0 (x + 1) = cnt f 0 x + 1.
Proof.
  intros Hx Hf. rewrite (cnt_split f 0 x (x + 1)), (cnt_cons f x (x + 1)), Hf by lia. rewrite (cnt_nil f (x + 1)) by lia. lia.
Qed.

(** The set bits between two of them. *)
Lemma clip_slice l ss se i0 i1 : 0 <= ss < se ->
  set_indices 0 l !! Z.to_nat ss = Some i0 -> set_indices 0 l !! Z.to_nat (se - 1) = Some i1 ->
  i0 <= i1 /\ set_indices 0 (clip i0 (i1 + 1) l) = take (Z.to_nat (se - ss)) (drop (Z.to_nat ss) (set_indices 0 l)).
Proof.
  intros Hs (H0 & Hb0 & Hc0)%lookup_set_indices (H1 & Hb1 & Hc1)%lookup_set_indices. rewrite Z.sub_0_r in *.
  assert (i0 <= i1) as Hle.
  { destruct (decide (i0 <= i1)); [done|]. pose proof (cnt_succ _ _ H1 Hb1). pose proof (cnt_mono (lbit l) 0 (i1 + 1) i0 ltac:(lia)). lia. }
  split; [done|]. apply list_eq. intros j. apply option_eq. intros x. rewrite lookup_set_indices, Z.sub_0_r.
  assert (i0 <= x <= i1 -> cnt (lbit (clip i0 (i1 + 1) l)) 0 x = cnt (lbit l) 0 x - ss) as Hcnt.
  { intros Hx. rewrite (cnt_split _ 0 i0 x), (cnt_split (lbit l) 0 i0 x), (cnt_zero _ 0 i0) by (lia ||
      (intros k Hk; rewrite lbit_clip, (proj2 (Z.leb_gt _ _)) by lia; done)).
    rewrite (cnt_ext _ (lbit l) i0 x); [lia|]. intros k Hk. rewrite lbit_clip by lia.
    rewrite (proj2 (Z.leb_le _ _)), (proj2 (Z.ltb_lt _ _)) by lia. done. }
  split.
  - intros (Hx & Hb & Hc). rewrite lbit_clip, !andb_true_iff, Z.leb_le, Z.ltb_lt in Hb by lia. destruct Hb as [[? ?] Hb].
    rewrite Hcnt in Hc by lia. pose proof (cnt_mono (lbit l) 0 x i1 ltac:(lia)).
    rewrite lookup_take_lt, lookup_drop by lia. apply lookup_set_indices. rewrite Z.sub_0_r. split; [done|]. split; [done|lia].
  - intros Hx. destruct (decide (j < Z.to_nat (se - ss))%nat); [|rewrite lookup_take_ge in Hx by lia; done].
    rewrite lookup_take_lt, lookup_drop in Hx by done. apply lookup_set_indices in Hx as (Hx0 & Hbx & Hcx). rewrite Z.sub_0_r in *.
    assert (i0 <= x <= i1) as Hx.
    { pose proof (cnt_succ _ _ Hx0 Hbx). pose proof (cnt_succ _ _ H1 Hb1). split.
      - destruct (decide (i0 <= x)); [done|]. pose proof (cnt_mono (lbit l) 0 (x + 1) i0 ltac:(lia)). lia.
      - destruct (decide (x <= i1)); [done|]. pose proof (cnt_mono (lbit l) 0 (i1 + 1) x ltac:(lia)). lia. }
    split; [done|]. rewrite lbit_clip, Hcnt, (proj2 (Z.leb_le _ _)), (proj2 (Z.ltb_lt _ _)) by lia. split; [done|lia].
Qed.

Lemma select_bv_range_ok b l ss se : rep b l -> 0 <= ss <= se -> se <= ctrue l ->
  selected (select_bv_range b ss se) (set_indices 0 l) (seqZ ss (se - ss)).
Proof.
  intros Hb Hss Hle. pose proof (ctrue_max l (rep_max _ _ Hb)) as Hcm. unfold select_bv_range.
  rewrite (CountSetBits_ctrue _ _ Hb). runs. rewrite (proj2 (Z.leb_le _ _)), range_size_ok by lia.
  assert (pick (set_indices 0 l) (seqZ ss (se - ss)) = Some (take (Z.to_nat (se - ss)) (drop (Z.to_nat ss) (set_indices 0 l)))) as Hp
    by (apply pick_range; [done|rewrite vlen_set_indices; done]).
  destruct (Z.eqb_spec (se - ss) 0) as [Hz|Hz].
  { exists RowMap_empty, []. rewrite Hp, Hz. split; [done|]. split; [exact (rep_range 0 0 ltac:(lia) ltac:(lia))|done]. }
  destruct ((ss =? 0) && (se =? ctrue l)) eqn:Hfull.
  { apply andb_true_iff in Hfull as [->%Z.eqb_eq ->%Z.eqb_eq]. rewrite (Copy_rep _ _ Hb). exists (RMBits b), (set_indices 0 l).
    split; [done|]. split; [constructor; done|]. rewrite Hp. change (Z.to_nat 0) with 0%nat.
    rewrite drop_0, take_ge; [done|]. pose proof (vlen_set_indices l) as Hv. unfold vlen in Hv. lia. }
  rewrite (IndexOfNthSet_lookup b l ss Hb) by lia. rewrite (u32_id (se - 1)) by (unfold is_u32; lia).
  rewrite (IndexOfNthSet_lookup b l (se - 1) Hb) by lia.
  pose proof (vlen_set_indices l) as Hv. unfold vlen in Hv.
  destruct (lookup_lt_is_Some_2 (set_indices 0 l) (Z.to_nat ss)) as [i0 Hi0]; [lia|].
  destruct (lookup_lt_is_Some_2 (set_indices 0 l) (Z.to_nat (se - 1))) as [i1 Hi1]; [lia|]. rewrite Hi0, Hi1. runs.
  destruct (clip_slice l ss se i0 i1 ltac:(lia) Hi0 Hi1) as [H01 Hclip].
  pose proof (set_indices_bounds l i0 (list_elem_of_lookup_2 _ _ _ Hi0)). pose proof (set_indices_bounds l i1 (list_elem_of_lookup_2 _ _ _ Hi1)).
  pose proof (rep_max _ _ Hb) as Hm. unfold kMaxSize in Hm. rewrite (u32_id (i1 + 1)) by (unfold is_u32; lia).
  destruct (IntersectRange_ok b l i0 (i1 + 1) Hb) as (b' & -> & Hr); [lia|lia|]. rewrite Z.min_l, (proj2 (Z.leb_gt _ _)) in Hr by lia.
  eexists. eexists. split; [done|]. split; [constructor; exact Hr|]. rewrite Hp, Hclip. done.
Qed.

Lemma SelectRowsSlow_ok rm selector rows sel : rm_rep rm rows -> rm_rep selector sel -> fits selector sel (vlen rows) ->
  (match rm, selector with RMRange _ e, RMBits _ => e <= kMaxSize | _, _ => True end) ->
  2 <= vlen sel -> selected (SelectRowsSlow rm selector) rows sel.
Proof.
  intros Hrm Hsel [Hf Hfb] Hmax H2.
  assert (forall ss se n, 0 <= ss <= se -> 2 <= vlen (seqZ ss (se - ss)) -> Forall (fun i => 0 <= i < n) (seqZ ss (se - ss)) -> se <= n) as Hrange.
  { intros ss se n Hs Hl2 Hall. rewrite vlen_seqZ in Hl2 by lia. rewrite Forall_forall in Hall.
    specialize (Hall (se - 1) ltac:(apply elem_of_seqZ; lia)). simpl in Hall. lia. }
  destruct Hrm as [s e Hs He|b l Hb|iv Hiv Hivl], Hsel as [ss se Hss Hse|bs u Hbs|sv Hsv Hsvl]; cbn [SelectRowsSlow] in *;
    rewrite ?vlen_set_indices, ?(vlen_seqZ s) in * by lia; rewrite ?(rep_size _ _ Hbs) in *.
  - apply select_range_range_ok; eauto.
  - apply select_range_bv_ok; done.
  - apply select_range_iv_ok; done.
  - apply select_bv_range_ok; eauto.
  - apply select_bv_bv_ok; done.
  - apply select_bv_iv_ok; done.
  - apply select_iv_range_ok; eauto.
  - apply select_iv_bv_ok; done.
  - apply select_iv_iv_ok; done.
Qed.

(** Selecting gives the picked rows, in the order of the selector, for all nine pairs of
    representations and for the shortcuts of selectors with no or one row. *)
Theorem SelectRows_ok rm selector rows sel : rm_rep rm rows -> rm_rep selector sel -> fits selector sel (vlen rows) ->
  (match rm, selector with RMRange _ e, RMBits _ => e <= kMaxSize | _, _ => True end) ->
  selected (SelectRows rm selector) rows sel.
Proof.
  intros Hrm Hsel Hfit Hmax. unfold SelectRows. rewrite (rm_size_ok _ _ Hsel). runs. pose proof (vlen_nonneg sel).
  destruct (Z.eqb_spec (vlen sel) 0) as [Hz|Hz].
  { assert (sel = []) as -> by (apply nil_length_inv; unfold vlen in Hz; lia). exists RowMap_empty, [].
    split; [done|]. split; [exact (rep_range 0 0 ltac:(lia) ltac:(lia))|done]. }
  destruct (Z.eqb_spec (vlen sel) 1) as [H1|H1]; [|apply SelectRowsSlow_ok; done || lia].
  destruct sel as [|i [|? ?]]; [done| |unfold vlen in H1; simpl in H1; lia].
  rewrite (Get_ok _ _ 0 Hsel) by lia. change ([i] !! Z.to_nat 0) with (Some i). runs. destruct Hfit as [Hf _].
  apply Forall_cons in Hf as [Hi _]. rewrite (Get_ok _ _ i Hrm) by done.
  destruct (lookup_lt_is_Some_2 rows (Z.to_nat i)) as [x Hx]; [unfold vlen in *; lia|]. rewrite Hx. runs.
  pose proof (Forall_lookup_1 _ _ _ _ (proj1 (rm_rep_bounds _ _ Hrm)) Hx) as Hxb. simpl in Hxb.
  unfold SingleRow, Range. rewrite (u32_id (x + 1)), (proj2 (Z.leb_le _ _)) by (unfold is_u32; lia).
  exists (RMRange x (x + 1)), (seqZ x (x + 1 - x)). split; [done|]. split; [constructor; lia|].
  unfold pick. cbn [mapM]. rewrite Hx. runs. replace (x + 1 - x) with 1 by lia. done.
Qed.

(** ** Intersecting *)

Lemma keep_if_ok f (g : Z -> bool) v : (forall x, x ∈ v -> f x = Some (g x)) -> keep_if f v = Some (filter (fun x => g x = true) v).
Proof.
  induction v as [|x v IH]; intros Hf; [done|]. unfold keep_if. cbn [foldr]. fold (keep_if f v).
  rewrite Hf, IH by (constructor || (intros y Hy; apply Hf; constructor; done)). runs. rewrite filter_cons.
  destruct (g x); done.
Qed.

(** The indices of a vector must not lie beyond a bit vector it is intersected with. *)
Definition in_reach (a b : RowMap) : Prop :=
  match a, b with
  | RMBits bv, RMIndices v | RMIndices v, RMBits bv => Forall (fun i => i < size_ bv) v
  | _, _ => True
  end.

(** The result of an intersection. *)
Definition common (r : option RowMap) (as_ bs : list Z) : Prop :=
  exists rm rs, r = Some rm /\ rm_rep rm rs /\ forall x, x ∈ rs <-> x ∈ as_ /\ x ∈ bs.

Lemma rep_filtered (P : Z -> Prop) `{!forall x, Decision (P x)} v : rm_rep (RMIndices v) v -> rm_rep (RMIndices (filter P v)) (filter P v).
Proof.
  intros Hv. inversion Hv as [| |w Hw Hl]; subst. constructor.
  - apply Forall_forall. intros x [_ Hx]%list_elem_of_filter. rewrite Forall_forall in Hw. apply Hw. done.
  - unfold vlen in *. pose proof (length_filter P v). lia.
Qed.

Lemma common_filter f (g : Z -> bool) v bs : rm_rep (RMIndices v) v -> (forall x, x ∈ v -> f x = Some (g x)) ->
  (forall x, x ∈ v -> g x = true <-> x ∈ bs) -> common (RMIndices <$> keep_if f v) v bs.
Proof.
  intros Hv Hf Hg. rewrite (keep_if_ok f g v Hf). eexists. eexists. split; [done|]. split; [apply rep_filtered; done|].
  intros x. rewrite list_elem_of_filter. split; intros [H1 H2]; split; auto; apply Hg; done.
Qed.

Lemma common_sym r as_ bs : common r as_ bs -> common r bs as_.
Proof. intros (rm & rs & ? & ? & H). exists rm, rs. split; [done|]. split; [done|]. intros x. rewrite H. tauto. Qed.

Lemma intersect_range_bv_ok s e b l : 0 <= s <= e -> rep b l ->
  common (RMBits <$> IntersectRange b s e) (seqZ s (e - s)) (set_indices 0 l).
Proof.
  intros Hs Hr. destruct (IntersectRange_ok b l s e Hr) as (b' & -> & Hr'); [lia|lia|]. pose proof (vlen_nonneg l).
  eexists. eexists. split; [done|]. split; [constructor; exact Hr'|]. intros x.
  rewrite elem_of_seqZ, !elem_of_set_indices, !Z.sub_0_r.
  destruct (Z.leb_spec (Z.min e (vlen l)) s).
  - split; [intros [_ Hx]; unfold lbit in Hx; rewrite lookup_nil in Hx; done|].
    intros [Hx [_ Hb]]. rewrite lbit_beyond in Hb by lia. done.
  - split.
    + intros [Hx Hb]. rewrite lbit_clip, !andb_true_iff, Z.leb_le, Z.ltb_lt in Hb by lia. split; [lia|]. split; [done|tauto].
    + intros [Hx [Hx0 Hb]]. split; [done|]. rewrite lbit_clip, !andb_true_iff, Z.leb_le, Z.ltb_lt by lia.
      split; [|done]. destruct (decide (x < vlen l)); [lia|]. rewrite lbit_beyond in Hb by lia. done.
Qed.

Lemma intersect_bv_bv_ok a b l m : rep a l -> rep b m -> common (RMBits <$> And a b) (set_indices 0 l) (set_indices 0 m).
Proof.
  intros Ha Hb. destruct (And_ok a b l m Ha Hb) as (b' & -> & Hr). eexists. eexists. split; [done|]. split; [constructor; exact Hr|].
  intros x. rewrite !elem_of_set_indices, !Z.sub_0_r.
  assert (0 <= x -> lbit (zip_with andb l m) x = lbit l x && lbit m x) as Hz.
  { intros Hx. unfold lbit. rewrite lookup_zip_with. destruct (l !! Z.to_nat x), (m !! Z.to_nat x); simpl; try done. rewrite andb_false_r. done. }
  split.
  - intros [Hx H]. rewrite Hz, andb_true_iff in H by done. tauto.
  - intros [[Hx H1] [_ H2]]. rewrite Hz, H1, H2 by done. done.
Qed.

Lemma intersect_bv_iv_ok b l v : rep b l -> rm_rep (RMIndices v) v -> Forall (fun i => i < size_ b) v ->
  common (intersect_bv_iv b v) v (set_indices 0 l).
Proof.
  intros Hb Hv Hlt. unfold intersect_bv_iv. rewrite (rep_size _ _ Hb) in Hlt. rewrite Forall_forall in Hlt.
  pose proof (proj1 (rm_rep_bounds _ _ Hv)) as Hbd. rewrite Forall_forall in Hbd.
  apply (common_filter _ (lbit l)); [done| |].
  - intros x Hx. apply (IsSet_ok b l Hb). specialize (Hlt x Hx). specialize (Hbd x Hx). simpl in *. lia.
  - intros x Hx. rewrite elem_of_set_indices, Z.sub_0_r. specialize (Hbd x Hx). simpl in Hbd. split; [split; [lia|done]|tauto].
Qed.

Lemma intersect_range_iv_ok s e v : 0 <= s <= e -> rm_rep (RMIndices v) v -> common (intersect_range_iv s e v) v (seqZ s (e - s)).
Proof.
  intros Hs Hv. apply (common_filter _ (fun i => negb ((i <? s) || (e <=? i)))); [done|done|].
  intros x _. rewrite elem_of_seqZ, negb_true_iff, orb_false_iff, Z.ltb_ge, Z.leb_gt. lia.
Qed.

(** Intersecting gives the common rows, for all pairs of representations. *)
Theorem Intersect_ok a b as_ bs : rm_rep a as_ -> rm_rep b bs -> in_reach a b -> common (Intersect a b) as_ bs.
Proof.
  intros Ha Hb Hin. pose proof Ha as Ha'. pose proof Hb as Hb'.
  destruct Ha' as [s e Hs He|c l Hc|v Hv Hvl], Hb' as [s2 e2 Hs2 He2|c2 m Hc2|w Hw Hwl]; cbn [Intersect in_reach] in *.
  - unfold Range. rewrite (proj2 (Z.leb_le _ _)) by lia.
    exists (RMRange (Z.max s s2) (Z.max (Z.max s s2) (Z.min e e2))), (seqZ (Z.max s s2) (Z.max (Z.max s s2) (Z.min e e2) - Z.max s s2)).
    split; [done|]. split; [constructor; lia|]. intros x. rewrite !elem_of_seqZ. lia.
  - apply intersect_range_bv_ok; done.
  - apply common_sym, intersect_range_iv_ok; done.
  - apply common_sym, intersect_range_bv_ok; done.
  - apply intersect_bv_bv_ok; done.
  - apply common_sym, intersect_bv_iv_ok; done.
  - apply intersect_range_iv_ok; done.
  - apply intersect_bv_iv_ok; done.
  - apply (common_filter _ (fun i => bool_decide (i ∈ w))); [done|done|]. intros x _. apply bool_decide_eq_true.
Qed.

Lemma IntersectExact_ok rm rows i : rm_rep rm rows -> 0 <= i < 2 ^ 32 - 1 ->
  exists r, IntersectExact rm i = Some r /\ rm_rep r (if bool_decide (i ∈ rows) then [i] else []).
Proof.
  intros Hr Hi. unfold IntersectExact. rewrite (Contains_ok _ _ _ Hr) by lia. runs. destruct (bool_decide (i ∈ rows)).
  - unfold Range. rewrite u32_id, (proj2 (Z.leb_le _ _)) by (unfold is_u32; lia). eexists. split; [done|].
    pose proof (rep_range i (i + 1) ltac:(lia) ltac:(lia)) as H. replace (i + 1 - i) with 1 in H by lia. exact H.
  - exists RowMap_empty. split; [done|]. exact (rep_range 0 0 ltac:(lia) ltac:(lia)).
Qed.
